(* ===== verification/_CoqProject ===== *)
-Q . S2P
Prelude.v
Process.v
Bytes.v
LiveContract.v
ProviderCalls.v
Addresses.v
EgressPolicy.v
SessionTypes.v
Planner.v
Recovery.v
Descriptor.v
ControlLease.v
Crypto.v
SessionStore.v
Vault.v
SessionRepo.v
SessionFacts.v
SessionEvolution.v
SessionDemo.v
SessionSafety.v
SessionGrants.v
SessionLifetime.v
SessionWitness.v
UpstreamPolicy.v
CookieJar.v
UpstreamCredentials.v
UpstreamFetcher.v
UpstreamWitness.v
CatalogCircuit.v
CatalogCoalescer.v
CatalogCache.v
CatalogGrants.v
CatalogService.v
CatalogWitness.v
CanonicalJson.v
ProviderJson.v
ProviderContract.v
ContractSafety.v
ContractWitness.v
ProviderConfig.v
ProviderDirectory.v
ProviderClient.v
ProviderPermits.v
ClientWitness.v
AdminAudit.v
RevocationOutbox.v
Authz.v
SessionLifecycle.v
GrantMutation.v
AdminWitness.v
LifecycleWitness.v
PublicKeys.v
HlsResources.v
HlsRewrite.v
HlsSafety.v
HlsWitness.v
HomeProfiles.v
AuthSessions.v
AuthSessionFacts.v
AuthSafety.v
AuthWitness.v
HttpAccess.v
EgressAssignments.v
EgressWorkers.v
RelaySessions.v
EgressBindings.v
EgressSafety.v
EgressWitness.v
PlaybackRequest.v
RequestWitness.v
PlaybackRecovery.v
PlaybackRuntime.v
PlaybackWitness.v
HttpAdmission.v
RequestLocks.v
PlaybackHandlers.v
PlaybackSafety.v
HandlersWitness.v
