(* ===== verification/Prelude.v ===== *)
(** * The Live subsystem of elixir-server: a verification library

    Live streaming is the part of the server under src/src/live/: a provider resolves an item to upstream
    sources, a planner decides how a source is delivered, a session records the decision in the database and
    hands the client a delivery token, and one server instance at a time, the holder of the control lease,
    drives the sessions through their life: planning, playing, recovery of a failed source, termination.
    The library models the control plane of that subsystem, with the accounts, sessions and rights it acts for
    (src/src/auth, authz.rs), as executable functions translated from the code and proves what makes it correct.

    ** Parts, bottom up

    - [Prelude] (this file): results and the [?] operator, machine integers, byte strings with the string
      methods of Rust's standard library the code calls, tactics, the hint database [live].  [Bytes]:
      lemmas about them (splitting, joining, length-prefixed encodings).  [Process]: a state and error monad
      for code that keeps its effects when it fails, with the preservation lemmas of its combinators.
    - [LiveContract] (contract/model.rs): the source descriptors.
    - [EgressPolicy] (egress/policy.rs): the effective policy among the assigned ones.
    - [SessionTypes] (session/types.rs): session records, stored names, the session state machine.
    - [Planner] (planner.rs): [plan_delivery].
    - [Recovery] (session/recovery.rs): admission window and cooldowns of source changes.
    - [Descriptor] (session/descriptor.rs): the stored form of the resolved sources.
    - [ControlLease] (lease.rs, migrations/0056): the lease row and its operations.
    - [Crypto] (crypto.rs): envelopes, delivery tokens, correlation hashes and key rings.
    - [Vault]: the interface the session repository needs of the key ring, as a class of operations with
      its laws ([VaultLaws]), and the proof that [Crypto] implements it.
    - [SessionStore] (session/repository.rs, migrations/0056): rows, CHECK constraints, transactions.
      [SessionRepo] (session/repository.rs): every method of [LiveSessionRepository].  [SessionFacts]: what
      each method found and left when it succeeded.  [SessionEvolution]: the methods as steps on the
      database, the invariant of the session table and the history of a session.  [SessionDemo]: a concrete
      world the methods run in.
    - [SessionSafety], [SessionGrants], [SessionLifetime]: the properties of the repository.
      [SessionWitness]: their instances in that world.
    - [Addresses]: IP addresses and their parser (standard library).  [UpstreamPolicy] (upstream/policy.rs):
      which URLs and addresses may be fetched.  [CookieJar], [UpstreamCredentials] (upstream/credentials.rs):
      cookies, provider headers and the authorities that may receive them.  [UpstreamFetcher]
      (upstream/fetcher.rs): the fetch loop and the body.  [UpstreamWitness]: a concrete fetch.
    - [CatalogCircuit], [CatalogCoalescer], [CatalogCache] (catalog/circuit.rs, coalesce.rs, cache.rs): what
      stands between a catalog request and the provider.  [CatalogGrants] (catalog/grants.rs): who sees a
      provider.  [CatalogService] (catalog/service.rs): requests composed of them.  [CatalogWitness]:
      concrete requests.
    - [CanonicalJson], [AdminAudit] (admin/audit.rs): canonical texts and the signed chain of administrative
      records.  [RevocationOutbox] (auth/revocation.rs, migrations/0055): events that take rights away, and
      the claims of their consumers.  [Authz] (authz.rs): capabilities and their overrides.  [GrantMutation]
      (catalog/grants.rs): grants, over the three.  [SessionLifecycle] (session/lifecycle.rs): the consumer
      that ends sessions, over the outbox, the authorization tables and the session repository.
      [AdminWitness], [LifecycleWitness]: concrete runs.
    - [HomeProfiles] (auth/home_profiles.rs, migrations/0053): homes, memberships, profiles and the bootstrap of an
      account.  [AuthSessions] (auth/sessions.rs, auth/mod.rs, migrations/0054): logins, refresh tokens, access
      tokens, principals.  [AuthSessionFacts]: the invariant of its tables and what no operation undoes.
      [AuthSafety]: their properties.  [AuthWitness]: concrete accounts.
    - [HlsResources] (relay/hls/resource.rs): the identifiers a relayed playlist carries and the resources they
      stand for.  [HlsRewrite] (relay/hls/rewrite.rs): the rewriter, from the bytes to the second reading.
      [HlsSafety]: their properties.  [HlsWitness]: a concrete playlist.
    - The provider contract (contract/wire.rs, validation.rs, model.rs).  [ProviderCalls]: the errors of a call.
      [ProviderJson]: the bounded reading of JSON.  [ProviderContract]: the wire structs and the parsers of health,
      catalogs, pages, metadata, sources and failures, and the validation of requests and filters.  [ProviderConfig]: the
      configuration of a provider.  [ContractSafety]: what accepted answers satisfy.  [ContractWitness]: concrete answers.
    - Providers (provider/directory.rs, client.rs).  [ProviderDirectory]: the snapshots of ready providers.
      [ProviderClient]: calls, over the directory and the contract.  [ProviderPermits]: how many calls run at once.
      [ClientWitness]: a concrete provider.
    - [PublicKeys] (catalog/public_keys.rs): the sealed keys a client gets instead of the ids of a provider.
    - [EgressAssignments] (egress/repository.rs, policy.rs, migrations/0056): the assigned egress policies, their
      audited writes, and the policy of a session.  [EgressWorkers] (egress/service.rs, control.rs,
      live_egress_common.rs): the containers of a protected session, from the start of the gateway to the
      readiness of the worker, and their cleanup.  [EgressBindings] (egress/service.rs, repository.rs,
      migrations/0056): the binding rows, what the service keeps in memory, and its operations.
      [EgressSafety]: their properties.  [EgressWitness]: concrete runs.
    - [RelaySessions] (relay/service.rs, http/handlers/live/delivery.rs): what the relay keeps for each session that it
      relays, when an entry fits a session, and the rejections of its errors.
    - [HttpAccess] (http/auth.rs, http/handlers/live): who sends a request and whether it may change anything.
      [HttpAdmission] (http/handlers/live/catalog.rs): how many requests of a user are let in.
    - The playback API (http/handlers/live/sessions.rs), bottom up.  [PlaybackRequest]: bodies, validation and
      rejections.  [PlaybackRecovery]: which source is played next, over the planner, the recovery state and the
      provider.  [PlaybackRuntime]: deliveries are activated, replaced and ended over the session repository and an
      egress service, an interface ([EgressService], [EgressServiceLaws]) that the bindings of [EgressBindings]
      implement ([live_egress_service_laws]); the admission of the relay and the end of its sessions are here too.  [RequestLocks]: one creation or recovery of a session at a time.
      [PlaybackHandlers]: create, get, heartbeat, refresh, failover and end.  [PlaybackSafety]: what they guarantee.
      [RequestWitness], [PlaybackWitness], [HandlersWitness]: concrete keys, policies, playbacks and requests.

    ** How code became definitions

    A Rust [Result] is [result]; a method on [&mut self] that can fail part-way is a function to a result and
    the state left behind ([Recovery.method]).  A database method is a function on the tables: the SQL
    statements are their WHERE and SET clauses, a transaction that fails leaves the tables as they were
    ([SessionStore.atomically]), and what other instances do between two transactions is explicit (the
    [later] arguments, the [step_environment] step).  Loops over rows are structural recursions, so no fuel
    is used; the retry loop of a creation counts its eight attempts down, and the fetch loop takes
    [max_redirects + 1] hops, which is proved to be enough ([fetch_requests_permitted]).  The loop of
    [SessionLifecycle.drain_revocations] ends when the outbox has nothing to claim, which other instances may
    delay for ever, so it takes fuel and says when it ran out; its compare-and-swap loop counts its eight
    attempts down.  What sockets, clocks and other fetches do during a fetch is an argument
    ([UpstreamFetcher.Env]), and so is what other instances do between the statements of an operation of the
    outbox or between the awaits of the lifecycle ([between], [others]).

    The egress service talks to the container runtime, the file system and the worker.  Their answers are functions
    of the calls made so far ([EgressWorkers.RuntimeManager]; the history of calls is part of the state), so the
    theorems hold for every runtime, and its monotone clock is the only law ([RuntimeClock]; [RuntimeNames] says
    that a container is found under the name it was asked for).  The preparation of the material, the compilation of
    the topology, the writing of secret files and the identifiers are arguments of [EgressBindings] that may answer
    differently at each use.  Other
    transactions run before each access to the tables ([others]) and other tasks while a task waits for the lock
    ([waiting]).  A wait polls at most [polls] times, which is proved to be enough for its deadline
    ([startup_waits_end]).

    A handler of the playback API is a process over the world of the egress service, which holds the database, the
    memory of the service and of the relay, and the history of the runtime.  Every access counts; before an access to the database
    [meanwhile] lets everybody else act, and what else a handler reads (clocks, keys, the fence of the lease, the
    provider, grants and rules, admission and locks) is a function of the number of the access
    ([PlaybackHandlers.HandlerEnv]), so that no two readings need agree.  The theorems ask of [meanwhile] that it keeps
    the world sound, as the service and the repository do.  An activation moves a session at most three states before
    its admission and settles in at most six, as the loops of the code are bounded.  Integers are in Z with their
    overflow written out ([i64_checked_add], [SessionStore.sql_add], the saturating operations); timestamps
    are nanoseconds in Z and uuids are N.

    Parameters stand for code outside the repository: [Planner.UrlOps] (the url crate),
    [CookieJar.DateOps] (httpdate), [CatalogCache.CacheOps] (serde_json, blake3, chrono's range), [UpstreamCredentials.HeaderOps] with [HeaderLaws] (the http crate),
    [Crypto.CryptoPrims] with [CryptoLaws] (AES-GCM, HKDF, HMAC, base64; only functional laws are assumed:
    opening inverts sealing and opens only what was sealed, lengths, canonical base64url; nothing about
    secrecy), [CanonicalJson.JsonText] (serde_json's quoting, delimited), [ProviderJson.JsonReader] (what serde_json finds in the bytes),
    [ProviderContract.WireReaders] with [ContractSafety.WireReaderLaws] (the derived readers of the wire structs),
    [ProviderConfig.ConfigOps] (lengths of JSON texts, query pairs of urls), [ProviderDirectory.DirectoryOps] (the reading of
    endpoints, the hash of revisions), [AdminAudit.AuditOps] and
    [RevocationOutbox.OutboxOps] (serde_json's parser and lengths, chrono's addition), [LiveContract.UuidText]
    (uuid; [HomeProfiles] also takes version 5 uuids), [AuthSessions.AuthOps] with [AuthLaws] (jsonwebtoken, SHA-256,
    the range of chrono), [HlsRewrite.M3u8] (the lines and tags the quick_m3u8 crate reads and writes; the numbers of
    playlists are the floats of SpecFloat), [SessionRepo.Texts] with [SessionDemo.TextsLaws] (uuid text and serde_json of the replay
    payload).  [Crypto.Demo] and [SessionDemo.World] give concrete instances of all of them, so every
    property with hypotheses is also evaluated at a concrete input.

    ** What the theorems show

    - Session table: rows stay valid and decodable, and a session's history refines the state machine,
      whatever the calls and their order ([sessions_stay_valid], [session_history]); a call under a stale
      fence changes nothing ([stale_fence_changes_nothing]); concurrent writers never overwrite each other
      ([no_lost_update]); terminal sessions are final, scrubbed and unusable ([termination_is_final]).
    - Grants: the token of a creation or rotation is accepted and the secrets read back
      ([created_session_usable], [rotation_regrants]); a retried creation whose key and request hash as before returns
      the first grant ([retried_creation_returns_first_grant]; [rehashed_retry_creates_again] is what a rotation of the
      token-hash key does to retries, a defect of the code); recoveries land in the announced revision and state
      ([recovery_replaces_source], [failed_recovery_resumes]); re-encryption keeps the secrets
      ([reencryption_keeps_secrets]).
    - Limits: capacity, purging, bounded retries, and what the rotation count sees ([SessionLifetime]).
    - Egress: the route a session gets is a worker that was verified and reported ready under its policy, or no
      protection when the policy permits the fallback and the fallback is recorded ([ensured_route_is_protected]);
      the outcome that is reported is the route that is used ([reported_outcome_is_the_route]); a release acts only
      under a fence that is not older than the binding's ([egress_release_is_fenced]) and cleanup touches only
      containers and volumes that carry the labels of the binding ([cleanup_touches_only_its_binding]); all that the
      service writes to a session is the link to its binding, under the fence of the session
      ([egress_writes_are_session_steps]);
      the waits end ([startup_waits_end]); a client cannot weaken what the administrators assigned
      ([client_cannot_weaken_egress]) and assignments are not lost ([assignment_write_not_lost]).
    - Playback: a creation that answers was authorized, its session belongs to the caller and the run that answers
      admitted it ([created_playback_is_authorized]); handlers act on the sessions of their caller only
      ([handlers_act_on_own_sessions]); a refresh or a failover hands out the next revision of its session, admitted
      anew after the old delivery was ended ([recovered_playback_is_readmitted]); the answer says how the session is really delivered
      ([response_tells_the_delivery]).  Only an admitted delivery becomes ready ([ready_delivery_is_admitted]), a
      refused one is undone ([refused_activation_is_undone]) and an ended one is over ([ended_playback_is_over]).  A
      failover takes the best source that may be tried and can be delivered, and fails only for a stored source that is
      none or for the source that was requested ([failover_takes_best_source]), and no
      recovery changes the source it was asked for or drops the protection of the session
      ([recovery_keeps_source_and_protection]).
    - Admission and locks: the requests of a user in a minute and those open at once are bounded
      ([admission_rate_is_bounded], [open_requests_are_bounded]); requests of one key exclude each other
      ([same_key_runs_alone]).
    - Provider answers: JSON is read exactly when its keys are distinct and its depth, lengths and nodes are bounded
      ([checked_value_exact]); accepted sources obey the contract ([resolved_sources_obey_contract]), a page keeps exactly
      its valid items ([catalog_page_keeps_valid_items]), accepted filters make valid requests
      ([submitted_filters_make_valid_requests]) and accepted configurations are safe ([provider_config_exact]).
      Discovered providers are fit to be asked ([discovered_providers_are_sound]); a resolution comes from a provider that
      was current throughout ([resolution_comes_from_provider]), reported failures are clean
      ([reported_failures_are_clean]), and the calls of a provider or a user are bounded ([provider_calls_are_bounded]).
      A source with its own User-Agent is accepted and never fetched ([accepted_user_agent_is_never_fetched], a defect
      of the code).
    - Requests: a mutation with a cookie needs the origin and the csrf token of the session
      ([cookie_mutations_need_proof]; [malformed_origin_matches_malformed_host] is a defect of the code); public keys
      open for their scope until they expire and for nobody else ([public_keys_open_exactly]); a body that passes
      validation is not refused by the planner or the repository ([validated_requests_fit_downstream]).
    - Control lease: at most one holder, monotone fencing tokens, refinement of the lease specification,
      takeover after a crash ([ControlLease]).
    - Planner and policies: the first deliverable source is chosen and the rejections are complete; direct
      delivery discloses nothing; protected egress is used when the policy asks; the strongest policy wins.
    - Recovery: sliding-window rate limit, cooldowns, bounded state.
    - Upstream: every request of a fetch goes to a permitted URL and permitted addresses, with credentials only
      for the authorities that may have them, and the fetch ends ([fetch_requests_permitted]); responses
      disclose no secret ([fetch_response_clean]); the address classes are the registries' networks
      ([classification_by_network]); cookies stay in their domain and the jar bounded ([CookieJar]).
    - Catalog: the breaker admits as a reference function of the recorded verdicts, however threads interleave
      ([admission_matches_reference]); identical concurrent requests share one load and each waiter is served
      ([one_load_per_key], [waiting_caller_is_served]); answers come back from the cache until they expire
      ([cached_value_returned], [answers_are_reused]); the aggregation covers the visible providers and calls
      no other ([catalogs_cover_visible_providers]); a probe without a verdict blocks its provider
      ([unreported_probe_blocks], a defect of the code).
    - Authorization: an override of a capability takes effect at once, bumps the revision and is announced to
      every consumer, and no override goes beyond the ceiling of the role ([override_takes_effect],
      [overrides_never_exceed_ceiling], [effective_authorization_exact]); a grant gives exactly the access
      set, and taking rights away leaves a pending event ([grant_takes_effect]).
    - Revocation: an event stays until every consumer acknowledged it, a claim is exclusive until its lease
      ends and pending events are claimed ([revocation_kept_until_acknowledged], [claim_is_exclusive],
      [pending_revocation_is_claimed]); events name the sessions of their subject
      ([events_name_their_sessions]); when one is applied, each session it names is over, or the run itself found its
      principal allowed, check by check ([revocation_ends_sessions], for at most [MAX_ACTIVE_SESSIONS] live sessions).  An event that cannot be applied holds up the
      later ones ([failing_revocation_blocks_later], a defect of the code).
    - Accounts: a refresh token is accepted once, and presenting it again ends the session
      ([refresh_token_single_use]); the end of a session is final ([revoked_session_is_final]); a login gives tokens
      that work and so does each refresh ([new_account_logs_in], [usable_session_refreshes]); a principal is entitled
      when it is loaded, whatever its token says ([loaded_principal_is_entitled]); the bootstrap is idempotent and
      only adds ([bootstrap_is_idempotent], [bootstrap_only_adds]), and fails for the accounts a migration created
      ([migrated_account_cannot_log_in], a defect of the code).
    - Relayed playlists: every URI of a rewritten playlist stands for a resource that passed the checks and can be
      fetched ([playlist_names_fetchable_resources]), the output is a playlist of one kind that reads back
      ([rewritten_playlist_well_formed], [rewritten_playlist_kind], [rewritten_playlist_reads_back]), resources
      outlive the grace of their revision and the map stays consistent ([resource_outlives_grace],
      [resource_map_stays_consistent]).
    - Audit: the records of a home form one signed chain that is never rewritten, and two chains that verify
      and end alike are alike unless a MAC collides ([audit_records_form_a_chain],
      [audit_chain_tamper_evident], [canonical_json_exact]).
    - Descriptor: a stored session replans like the resolved one.  Crypto: round trips under rotation,
      non-malleable envelopes, injective associated data, separated keys, exact token verification.

    ** What is not modelled

    Sockets, processes, HTTP and JSON glue, logging and redacted [Debug] output; the text codecs of uuids and
    timestamps (the order of RFC 3339 texts in UTC is the order of time).  LIKE in a CHECK constraint is a
    byte prefix test: the columns are only written with the literal prefixes.  The trigger that makes a
    session's owner immutable is not needed: no statement writes those columns ([history]).  The broadcast
    channels that wake consumers early.  What other tasks do to the memory of the egress service between two
    sessions of [cancel_all] and [reap_stale]; the transport to the worker and the worker itself (egress/worker.rs,
    connector.rs, material.rs).  What other tasks do to the entries of the relay between the awaits of a release: the
    release removes the entry first, and an admission that began before could put one back until the reaper finds it.
    The admission of the remux service, the provider client and the upstream that a direct delivery is checked against
    are arguments of the playback API; its metrics, the task that finishes an
    activation whose request was dropped, and mutexes poisoned by a panic are left out.  service.rs, which starts the
    modelled parts and holds them, the requests that the relay serves and its reaper, and the remaining administration (keys, destination rules, providers, sessions) are not modelled. *)
From Stdlib Require Export ZArith Lia Bool Ascii String.
From stdpp Require Export base option list gmap strings sorting.
From stdpp Require Import options.
#[export] Set Warnings "-notation-overridden,-clear-no-such-hyp,-notation-for-abbreviation".

(** ** Results: Rust's [Result<A, E>] and the [?] operator *)
Inductive result (E A : Type) : Type :=
| Ok (a : A)
| Err (e : E).
Arguments Ok {E A} a.
Arguments Err {E A} e.

#[export] Instance result_ret E : MRet (result E) := fun A => Ok.
#[export] Instance result_bind E : MBind (result E) := fun A B f m =>
  match m with Ok a => f a | Err e => Err e end.
#[export] Instance result_fmap E : FMap (result E) := fun A B f m =>
  match m with Ok a => Ok (f a) | Err e => Err e end.
#[export] Instance result_eq_dec E A `{EqDecision E, EqDecision A} : EqDecision (result E A).
Proof. solve_decision. Defined.

Definition map_err {E F A} (f : E -> F) (m : result E A) : result F A :=
  match m with Ok a => Ok a | Err e => Err (f e) end.
Definition ok_or {E A} (o : option A) (e : E) : result E A :=
  match o with Some a => Ok a | None => Err e end.
Definition is_ok {E A} (m : result E A) : bool :=
  match m with Ok _ => true | Err _ => false end.
Definition to_option {E A} (m : result E A) : option A :=
  match m with Ok a => Some a | Err _ => None end.
(** [if b { return Err(e); }] *)
Definition reject_if {E} (b : bool) (e : E) : result E unit :=
  if b then Err e else Ok ().
(** [Option::is_some_and] and [Option::is_none_or] *)
Definition is_some_and {A} (p : A -> bool) (o : option A) : bool :=
  match o with Some a => p a | None => false end.
Definition is_none_or {A} (p : A -> bool) (o : option A) : bool :=
  match o with Some a => p a | None => true end.
Definition is_some_b {A} (o : option A) : bool :=
  match o with Some _ => true | None => false end.
Definition is_none_b {A} (o : option A) : bool :=
  match o with Some _ => false | None => true end.

(** ** Machine integers *)
Definition i64_max : Z := 9223372036854775807.
Definition u64_max : Z := 18446744073709551615.
Definition u32_max : Z := 4294967295.
Definition i32_max : Z := 2147483647.
Definition i64_checked_add (a b : Z) : option Z :=
  let s := (a + b)%Z in
  if ((- i64_max - 1 <=? s) && (s <=? i64_max))%Z then Some s else None.
Definition u64_saturating_add (a b : Z) : Z := Z.min (a + b) u64_max.
Definition u8_saturating_add (a b : Z) : Z := Z.min (a + b) 255.
Definition u32_saturating_add (a b : Z) : Z := Z.min (a + b) u32_max.
Definition nanos_per_second : Z := 1000000000.
(** [chrono::Duration::seconds], in nanoseconds *)
Definition seconds (s : Z) : Z := (s * nanos_per_second)%Z.

(** ** Byte strings: a Rust [str] or [[u8]] is the string of its bytes *)
Definition byte_of (c : ascii) : N := Ascii.N_of_ascii c.
Definition slen (s : string) : Z := Z.of_nat (String.length s).
Definition str_empty (s : string) : bool :=
  match s with EmptyString => true | String _ _ => false end.
Definition all_bytes (p : ascii -> bool) (s : string) : bool :=
  forallb p (String.list_ascii_of_string s).
Definition any_byte (p : ascii -> bool) (s : string) : bool :=
  existsb p (String.list_ascii_of_string s).
Definition contains_char (c : ascii) (s : string) : bool := any_byte (Ascii.eqb c) s.
Definition contains_any (cs : list ascii) (s : string) : bool :=
  any_byte (fun b => existsb (Ascii.eqb b) cs) s.
Definition starts_with (p s : string) : bool := String.prefix p s.
Definition ends_with (p s : string) : bool := String.prefix (String.rev p) (String.rev s).
Fixpoint contains_sub (p s : string) : bool :=
  String.prefix p s || match s with EmptyString => false | String _ r => contains_sub p r end.
Fixpoint strip_prefix (p s : string) : option string :=
  match p, s with
  | EmptyString, _ => Some s
  | String a p', String b s' => if Ascii.eqb a b then strip_prefix p' s' else None
  | String _ _, EmptyString => None
  end.

Definition is_upper (c : ascii) : bool := ((65 <=? byte_of c) && (byte_of c <=? 90))%N.
Definition is_lower (c : ascii) : bool := ((97 <=? byte_of c) && (byte_of c <=? 122))%N.
Definition is_digit (c : ascii) : bool := ((48 <=? byte_of c) && (byte_of c <=? 57))%N.
Definition is_alnum (c : ascii) : bool := is_upper c || is_lower c || is_digit c.
Definition is_ascii_byte (c : ascii) : bool := (byte_of c <? 128)%N.
(** [u8::is_ascii_hexdigit] *)
Definition is_hexdigit (c : ascii) : bool :=
  is_digit c || ((65 <=? byte_of c) && (byte_of c <=? 70))%N
  || ((97 <=? byte_of c) && (byte_of c <=? 102))%N.
Definition lower_byte (c : ascii) : ascii :=
  if is_upper c then Ascii.ascii_of_N (byte_of c + 32) else c.
(** [str::to_ascii_lowercase] *)
Fixpoint to_lower (s : string) : string :=
  match s with EmptyString => EmptyString | String c r => String (lower_byte c) (to_lower r) end.

(** [s.chars().count()]: the bytes that do not continue a UTF-8 sequence. *)
Definition char_count (s : string) : Z :=
  Z.of_nat (length (List.filter (fun b => negb ((128 <=? byte_of b) && (byte_of b <? 192))%N)
    (String.list_ascii_of_string s))).
(** [s.chars().any(char::is_control)]: the category Cc is U+0000-001F, U+007F and
    U+0080-009F, the last encoded in UTF-8 as 0xC2 followed by 0x80-0x9F. *)
Fixpoint any_control (s : string) : bool :=
  match s with
  | EmptyString => false
  | String c r =>
      ((byte_of c <? 32) || (byte_of c =? 127))%N
      || ((byte_of c =? 194)%N
          && match r with
             | String d _ => ((128 <=? byte_of d) && (byte_of d <? 160))%N
             | EmptyString => false
             end)
      || any_control r
  end.

(** [str::trim]: the characters of Unicode's White_Space, by their UTF-8 bytes. *)
Definition ws1 (a : ascii) : bool := (((9 <=? byte_of a) && (byte_of a <=? 13)) || (byte_of a =? 32))%N.
Definition ws2 (a b : ascii) : bool :=
  ((byte_of a =? 194) && ((byte_of b =? 133) || (byte_of b =? 160)))%N.
Definition ws3 (a b c : ascii) : bool :=
  let '(x, y, z) := (byte_of a, byte_of b, byte_of c) in
  (((x =? 225) && (y =? 154) && (z =? 128))
   || ((x =? 226) && (y =? 128)
       && (((128 <=? z) && (z <=? 138)) || (z =? 168) || (z =? 169) || (z =? 175)))
   || ((x =? 226) && (y =? 129) && (z =? 159))
   || ((x =? 227) && (y =? 128) && (z =? 128)))%N.
Fixpoint trim_start (s : string) : string :=
  match s with
  | EmptyString => EmptyString
  | String a r =>
      if ws1 a then trim_start r else
      match r with
      | EmptyString => s
      | String b r2 =>
          if ws2 a b then trim_start r2 else
          match r2 with
          | EmptyString => s
          | String c r3 => if ws3 a b c then trim_start r3 else s
          end
      end
  end.
(** the same scan on the reversed bytes *)
Fixpoint trim_start_rev (s : string) : string :=
  match s with
  | EmptyString => EmptyString
  | String a r =>
      if ws1 a then trim_start_rev r else
      match r with
      | EmptyString => s
      | String b r2 =>
          if ws2 b a then trim_start_rev r2 else
          match r2 with
          | EmptyString => s
          | String c r3 => if ws3 c b a then trim_start_rev r3 else s
          end
      end
  end.
Definition trim_end (s : string) : string := String.rev (trim_start_rev (String.rev s)).
Definition trim (s : string) : string := trim_end (trim_start s).
(** [trim_start_matches(c)] and [trim_end_matches(c)] *)
Fixpoint trim_start_char (c : ascii) (s : string) : string :=
  match s with
  | EmptyString => EmptyString
  | String a r => if Ascii.eqb a c then trim_start_char c r else s
  end.
Definition trim_end_char (c : ascii) (s : string) : string :=
  String.rev (trim_start_char c (String.rev s)).

(** [s.split(c)]: always at least one part *)
Fixpoint split_char (c : ascii) (s : string) : list string :=
  match s with
  | EmptyString => [EmptyString]
  | String a r =>
      if Ascii.eqb a c then EmptyString :: split_char c r
      else match split_char c r with
           | [] => [String a EmptyString]
           | w :: ws => String a w :: ws
           end
  end.

(** ** Generic lemmas *)
Lemma result_bind_ok {E A B} (m : result E A) (f : A -> result E B) b :
  (m ≫= f) = Ok b <-> exists a, m = Ok a /\ f a = Ok b.
Proof. destruct m as [a|e]; cbn; naive_solver. Qed.

Lemma reject_if_ok {E} (b : bool) (e : E) u : reject_if b e = Ok u <-> b = false.
Proof. destruct b, u; cbn; naive_solver. Qed.

Lemma ok_or_ok {E A} (o : option A) (e : E) a : ok_or o e = Ok a <-> o = Some a.
Proof. destruct o; cbn; naive_solver. Qed.

Lemma slen_nonneg s : (0 <= slen s)%Z.
Proof. unfold slen; lia. Qed.

Lemma str_empty_false s : str_empty s = false <-> s <> EmptyString.
Proof. destruct s; cbn; naive_solver. Qed.

(** ** Automation *)
(** Split boolean conjunctions, disjunctions and comparisons in hypotheses. *)
Ltac bool_hyps :=
  repeat match goal with
  | H : _ && _ = true |- _ => apply andb_true_iff in H; destruct H
  | H : _ || _ = false |- _ => apply orb_false_iff in H; destruct H
  | H : negb _ = true |- _ => apply negb_true_iff in H
  | H : negb _ = false |- _ => apply negb_false_iff in H
  | H : bool_decide _ = true |- _ => apply bool_decide_eq_true in H
  | H : bool_decide _ = false |- _ => apply bool_decide_eq_false in H
  | H : (_ <=? _)%Z = true |- _ => apply Z.leb_le in H
  | H : (_ <=? _)%Z = false |- _ => apply Z.leb_gt in H
  | H : (_ <? _)%Z = true |- _ => apply Z.ltb_lt in H
  | H : (_ <? _)%Z = false |- _ => apply Z.ltb_ge in H
  | H : (_ =? _)%Z = true |- _ => apply Z.eqb_eq in H
  | H : (_ =? _)%Z = false |- _ => apply Z.eqb_neq in H
  end.

(** Run a monadic computation past the steps whose outcome is known. *)
Ltac run_ok := cbn [ok_or mbind result_bind reject_if map_err negb orb andb is_ok].

(** [lia] with division and remainder by constants. *)
Ltac div_lia := Z.to_euclidean_division_equations; lia.

(** Case analysis on the outermost string comparison of the goal, the string replaced when it is equal. *)
Ltac case_string :=
  match goal with
  | |- context [if String.eqb ?v ?s then _ else _] =>
      destruct (String.eqb_spec v s); [subst v|]
  end.

(** Invert a monadic computation that returned [Ok]. *)
Ltac ok_inv :=
  repeat (match goal with
  | H : Ok _ = Ok _ |- _ => injection H as H; subst
  | H : Err _ = Ok _ |- _ => discriminate H
  | H : Ok _ = Err _ |- _ => discriminate H
  | H : mbind _ _ = Ok _ |- _ => apply result_bind_ok in H as (? & ? & H)
  | H : reject_if _ _ = Ok _ |- _ => apply reject_if_ok in H
  | H : ok_or _ _ = Ok _ |- _ => apply ok_or_ok in H
  end; cbn beta iota in *).

Create HintDb live discriminated.
Create Rewrite HintDb live.
#[export] Hint Resolve slen_nonneg : live.
