(* ===== verification/Process.v ===== *)
(** * Processes: computations of the code that change a state and keep the changes when they fail

    A [tx] (SessionStore) is rolled back when it fails; an async function that makes several transactions, calls
    a runtime or changes the memory of the process is not.  The state is whatever the function can see; where
    others run between two awaits, the definitions that use [proc] change it before each access. *)
From S2P Require Import Prelude.

Definition proc (S E A : Type) : Type := S -> result E A * S.
#[export] Instance proc_ret S E : MRet (proc S E) := fun A a s => (Ok a, s).
#[export] Instance proc_bind S E : MBind (proc S E) := fun A B f m s =>
  match m s with (Ok a, s) => f a s | (Err e, s) => (Err e, s) end.
Section combinators.
Context {S E : Type}.
Definition stop {A} (e : E) : proc S E A := fun s => (Err e, s).
Definition lift {A} (m : result E A) : proc S E A := fun s => (m, s).
Definition view {A} (f : S -> A) : proc S E A := fun s => (Ok (f s), s).
Definition change (f : S -> S) : proc S E unit := fun s => (Ok (), f s).
(** the outcome as a value: [match f().await { Ok(..) => .., Err(..) => .. }] *)
Definition attempt {A} (m : proc S E A) : proc S E (result E A) := fun s => let '(r, s) := m s in (Ok r, s).
End combinators.

Lemma proc_bind_ok {S E A B} (f : A -> proc S E B) (m : proc S E A) s b s' :
  (m ≫= f) s = (Ok b, s') -> exists a s1, m s = (Ok a, s1) /\ f a s1 = (Ok b, s').
Proof. unfold mbind, proc_bind. destruct (m s) as [[a|e] s1]; intros Hf; [eauto|done]. Qed.
Lemma proc_bind_inv {S E A B} (f : A -> proc S E B) (m : proc S E A) s r s' :
  (m ≫= f) s = (r, s') ->
  (exists a s1, m s = (Ok a, s1) /\ f a s1 = (r, s')) \/ (exists e, m s = (Err e, s') /\ r = Err e).
Proof. unfold mbind, proc_bind. destruct (m s) as [[a|e] s1]; intros Hf; [left; eauto|right; exists e; naive_solver]. Qed.

(** What every step keeps, every process made of such steps keeps, however it ends. *)
Definition keeps {S E A} (P : S -> Prop) (m : proc S E A) : Prop := forall s, P s -> P (m s).2.
Section keeping.
Context {S E : Type} (P : S -> Prop).
Lemma proc_keeps_ret {A} (a : A) : keeps P (mret (M:=proc S E) a).
Proof. by intros s Hs. Qed.
Lemma proc_keeps_bind {A B} (m : proc S E A) (f : A -> proc S E B) :
  keeps P m -> (forall a, keeps P (f a)) -> keeps P (m ≫= f).
Proof.
  intros Hm Hf s Hs. unfold mbind, proc_bind. specialize (Hm s Hs). destruct (m s) as [[a|e] s1]; [by apply Hf|done].
Qed.
Lemma keeps_stop {A} e : keeps P (stop (A:=A) (E:=E) e).
Proof. by intros s Hs. Qed.
Lemma proc_keeps_lift {A} (m : result E A) : keeps P (lift m).
Proof. by intros s Hs. Qed.
Lemma keeps_view {A} (f : S -> A) : keeps P (view (E:=E) f).
Proof. by intros s Hs. Qed.
Lemma keeps_change f : (forall s, P s -> P (f s)) -> keeps P (change (E:=E) f).
Proof. intros Hf s Hs. by apply Hf. Qed.
Lemma keeps_attempt {A} (m : proc S E A) : keeps P m -> keeps P (attempt m).
Proof. intros Hm s Hs. unfold attempt. specialize (Hm s Hs). by destruct (m s). Qed.
End keeping.
Create HintDb keeps.
#[export] Hint Resolve proc_keeps_ret proc_keeps_bind keeps_stop proc_keeps_lift keeps_view keeps_attempt : keeps.

(** the steps of a process that ended well *)
Ltac proc_step :=
  match goal with
  | H : (_ ≫= _) _ = (Ok _, _) |- _ =>
      let a := fresh "a" in let s := fresh "s" in let Hm := fresh "Hstep" in
      apply proc_bind_ok in H as (a & s & Hm & H)
  | H : mret _ _ = (_, _) |- _ => injection H as ? ?; subst
  | H : view _ _ = (_, _) |- _ => injection H as ? ?; subst
  | H : change _ _ = (_, _) |- _ => injection H as ? ?; subst
  | H : stop _ _ = (Ok _, _) |- _ => discriminate H
  | H : lift _ _ = (Ok _, _) |- _ => injection H as ? ?; subst
  end.
Ltac proc_inv := repeat (proc_step; cbn beta in * ).
