(* ===== verification/Bytes.v ===== *)
(** * Byte strings: concatenation, separators, length prefixes

    The lemmas on strings that the formats of the library share: appending and cutting, splitting at a
    separator and joining back, and the big-endian length prefix of the cryptographic contexts. *)
From S2P Require Import Prelude.

(** ** Append *)
Lemma str_app_nil_l b : "" +:+ b = b.
Proof. done. Qed.
Lemma str_app_cons c a b : String c a +:+ b = String c (a +:+ b).
Proof. done. Qed.
#[export] Hint Rewrite str_app_nil_l str_app_cons : live.
Lemma str_app_assoc a b c : (a +:+ b) +:+ c = a +:+ (b +:+ c).
Proof. induction a as [|x a IH]; [done|]. by rewrite !str_app_cons, IH. Qed.
Lemma str_app_nil_r a : a +:+ "" = a.
Proof. induction a as [|x a IH]; [done|]. by rewrite !str_app_cons, IH. Qed.
Lemma str_length_app a b : String.length (a +:+ b) = String.length a + String.length b.
Proof. induction a as [|x a IH]; [done|]. rewrite str_app_cons. cbn. by rewrite IH. Qed.
Lemma slen_app a b : slen (a +:+ b) = (slen a + slen b)%Z.
Proof. unfold slen. rewrite str_length_app. lia. Qed.
Lemma slen_cons c s : slen (String c s) = (slen s + 1)%Z.
Proof. unfold slen. cbn [String.length]. lia. Qed.

Lemma str_app_inj a b x y :
  String.length a = String.length b -> a +:+ x = b +:+ y -> a = b /\ x = y.
Proof.
  revert b. induction a as [|c a IH]; intros [|d b] Hl H; try done.
  rewrite !str_app_cons in H. cbn in Hl. injection H as <- H. destruct (IH b) as [-> ->]; [lia|done|done].
Qed.
Lemma str_app_inv_head a x y : a +:+ x = a +:+ y -> x = y.
Proof. intros H. by apply str_app_inj in H as [_ ?]. Qed.
Lemma str_app_inv_tail a b y : a +:+ y = b +:+ y -> a = b.
Proof.
  intros H. assert (String.length a = String.length b) as Hl.
  { apply (f_equal String.length) in H. rewrite !str_length_app in H. lia. }
  by apply (str_app_inj _ _ _ _ Hl) in H as [? _].
Qed.

Lemma strip_prefix_some p s r : strip_prefix p s = Some r <-> s = p +:+ r.
Proof.
  revert s. induction p as [|a p IH]; intros s; [rewrite str_app_nil_l; cbn; naive_solver|].
  rewrite str_app_cons. destruct s as [|b s]; [done|]. cbn. destruct (Ascii.eqb_spec a b) as [<-|Hne].
  - rewrite IH. naive_solver.
  - naive_solver.
Qed.

Lemma starts_with_app p r : starts_with p (p +:+ r) = true.
Proof.
  unfold starts_with. induction p as [|c p IH]; [by destruct r|]. rewrite str_app_cons. cbn.
  by destruct (Ascii.ascii_dec c c).
Qed.

(** ** Predicates on every byte *)
Lemma all_bytes_app p a b : all_bytes p (a +:+ b) = all_bytes p a && all_bytes p b.
Proof.
  unfold all_bytes. induction a as [|c a IH]; [done|]. rewrite str_app_cons. cbn.
  by rewrite IH, andb_assoc.
Qed.
Lemma all_bytes_cons p c s : all_bytes p (String c s) = p c && all_bytes p s.
Proof. done. Qed.
Lemma all_bytes_impl p q s :
  (forall c, p c = true -> q c = true) -> all_bytes p s = true -> all_bytes q s = true.
Proof.
  intros Hpq. induction s as [|c s IH]; [done|]. rewrite !all_bytes_cons. intros H. bool_hyps.
  by rewrite Hpq, IH.
Qed.
Lemma any_byte_app p a b : any_byte p (a +:+ b) = any_byte p a || any_byte p b.
Proof.
  unfold any_byte. induction a as [|c a IH]; [done|]. rewrite str_app_cons. cbn.
  by rewrite IH, orb_assoc.
Qed.
Lemma all_bytes_not_any p s : all_bytes (fun c => negb (p c)) s = negb (any_byte p s).
Proof.
  induction s as [|c s IH]; [done|]. rewrite all_bytes_cons, IH. unfold any_byte. cbn.
  by rewrite negb_orb.
Qed.

(** ** Separators *)
(** the text [format!] writes for fields joined by a separator *)
Fixpoint join (c : ascii) (l : list string) : string :=
  match l with
  | [] => ""
  | [s] => s
  | s :: rest => s +:+ String c (join c rest)
  end.
Definition free_of (c : ascii) (s : string) : Prop := contains_char c s = false.

Lemma join_cons c s r l : join c (s :: r :: l) = s +:+ String c (join c (r :: l)).
Proof. done. Qed.

Lemma free_of_cons c a s : free_of c (String a s) <-> a <> c /\ free_of c s.
Proof.
  unfold free_of, contains_char, any_byte. cbn. rewrite orb_false_iff, Ascii.eqb_neq. naive_solver.
Qed.

Lemma split_char_nonempty c s : split_char c s <> [].
Proof. destruct s as [|a s]; cbn; [done|]. destruct (Ascii.eqb a c); [done|]. by destruct (split_char c s). Qed.

Lemma split_char_free c s : Forall (free_of c) (split_char c s).
Proof.
  induction s as [|a s IH]; cbn; [by apply Forall_singleton|].
  destruct (Ascii.eqb_spec a c) as [->|Hne]; [by apply Forall_cons|].
  destruct (split_char c s) as [|w ws]; [apply Forall_singleton; by apply free_of_cons|].
  apply Forall_cons in IH as [Hw Hws]. apply Forall_cons. split; [by apply free_of_cons|done].
Qed.

Lemma join_split c s : join c (split_char c s) = s.
Proof.
  induction s as [|a s IH]; [done|]. cbn. pose proof (split_char_nonempty c s) as Hne.
  destruct (Ascii.eqb_spec a c) as [->|Ha]; destruct (split_char c s) as [|w ws]; try done.
  - rewrite join_cons, str_app_nil_l. by rewrite IH.
  - destruct ws as [|v ws]; [by cbn in *; subst|]. rewrite join_cons in *. by rewrite str_app_cons, IH.
Qed.

Lemma split_char_app c a s :
  free_of c a -> split_char c (a +:+ String c s) = a :: split_char c s.
Proof.
  induction a as [|x a IH]; intros Ha; autorewrite with live; cbn; [by rewrite Ascii.eqb_refl|].
  apply free_of_cons in Ha as [Hx Ha]. by rewrite (proj2 (Ascii.eqb_neq _ _) Hx), IH.
Qed.
Lemma split_char_free_of c a : free_of c a -> split_char c a = [a].
Proof.
  induction a as [|x a IH]; [done|]. intros [Hx Ha]%free_of_cons. cbn.
  by rewrite (proj2 (Ascii.eqb_neq _ _) Hx), IH.
Qed.

Lemma split_join c l : Forall (free_of c) l -> l <> [] -> split_char c (join c l) = l.
Proof.
  induction l as [|s l IH]; [done|]. intros [Hs Hl]%Forall_cons _.
  destruct l as [|r l]; [by apply split_char_free_of|].
  rewrite join_cons, split_char_app by done. by rewrite IH.
Qed.

(** Splitting reads a text back exactly when the text is the joined one. *)
Lemma split_char_eq c s l : Forall (free_of c) l -> l <> [] -> split_char c s = l <-> s = join c l.
Proof.
  intros Hl Hne. split; [intros <-; symmetry; apply join_split|intros ->; by apply split_join].
Qed.

(** ** Length prefixes *)
(** [u32::to_be_bytes] *)
Definition be32 (n : Z) : string :=
  let byte k := Ascii.ascii_of_N (Z.to_N ((n / k) mod 256)) in
  String (byte 16777216%Z) (String (byte 65536%Z) (String (byte 256%Z) (String (byte 1%Z) ""))).

Lemma ascii_byte_inj x y :
  (0 <= x < 256)%Z -> (0 <= y < 256)%Z ->
  Ascii.ascii_of_N (Z.to_N x) = Ascii.ascii_of_N (Z.to_N y) -> x = y.
Proof.
  intros Hx Hy H. apply (f_equal Ascii.N_of_ascii) in H.
  rewrite !Ascii.N_ascii_embedding in H by lia. lia.
Qed.

Lemma be32_inj n m : (0 <= n <= u32_max)%Z -> (0 <= m <= u32_max)%Z -> be32 n = be32 m -> n = m.
Proof.
  unfold u32_max. intros Hn Hm H. injection H as H1 H2 H3 H4.
  apply ascii_byte_inj in H1, H2, H3, H4; try (apply Z.mod_pos_bound; lia).
  rewrite !Z.div_1_r in H4.
  assert (forall z k, (0 < k)%Z -> (z / k = 256 * (z / (k * 256)) + (z / k) mod 256)%Z) as Hd.
  { intros z k Hk. rewrite <- Z.div_div by lia. apply Z.div_mod. lia. }
  pose proof (Hd n 1%Z ltac:(lia)) as N1; pose proof (Hd m 1%Z ltac:(lia)) as M1.
  pose proof (Hd n 256%Z ltac:(lia)) as N2; pose proof (Hd m 256%Z ltac:(lia)) as M2.
  pose proof (Hd n 65536%Z ltac:(lia)) as N3; pose proof (Hd m 65536%Z ltac:(lia)) as M3.
  rewrite !Z.div_1_r in N1, M1. change (1 * 256)%Z with 256%Z in *. change (256 * 256)%Z with 65536%Z in *.
  change (65536 * 256)%Z with 16777216%Z in *.
  rewrite (Z.mod_small (n / 16777216)), (Z.mod_small (m / 16777216)) in H1
    by (split; [apply Z.div_pos; lia|apply Z.div_lt_upper_bound; lia]).
  lia.
Qed.

Lemma length_prefixed_inj a b x y :
  (slen a <= u32_max)%Z -> (slen b <= u32_max)%Z ->
  be32 (slen a) +:+ a +:+ x = be32 (slen b) +:+ b +:+ y -> a = b /\ x = y.
Proof.
  intros Ha Hb H. apply str_app_inj in H as [Hl H]; [|done].
  apply be32_inj in Hl; [|split; [apply slen_nonneg|done]..].
  apply str_app_inj in H; [done|]. unfold slen in Hl. lia.
Qed.

(** ** Reversal, prefixes and suffixes *)
Lemma rev_app_spec a b : String.rev_app a b = String.rev a +:+ b.
Proof.
  unfold String.rev. revert b. induction a as [|c a IH]; intros b; [done|]. cbn [String.rev_app].
  rewrite IH, (IH (String c "")), str_app_assoc. by rewrite str_app_cons, str_app_nil_l.
Qed.
Lemma str_rev_cons c s : String.rev (String c s) = String.rev s +:+ String c "".
Proof. unfold String.rev at 1. cbn [String.rev_app]. apply rev_app_spec. Qed.
Lemma str_rev_app a b : String.rev (a +:+ b) = String.rev b +:+ String.rev a.
Proof.
  induction a as [|c a IH]; [by rewrite str_app_nil_l, str_app_nil_r|].
  by rewrite str_app_cons, !str_rev_cons, IH, str_app_assoc.
Qed.
Lemma str_rev_involutive s : String.rev (String.rev s) = s.
Proof.
  induction s as [|c s IH]; [done|]. rewrite str_rev_cons, str_rev_app, IH. by rewrite str_rev_cons, str_app_nil_l.
Qed.
Lemma str_length_rev s : String.length (String.rev s) = String.length s.
Proof.
  induction s as [|c s IH]; [done|]. rewrite str_rev_cons, str_length_app, IH. cbn [String.length]. lia.
Qed.

Lemma starts_with_spec p s : starts_with p s = true <-> exists r, s = p +:+ r.
Proof.
  split; [|intros [r ->]; apply starts_with_app]. unfold starts_with. revert s.
  induction p as [|a p IH]; intros s; [by exists s; rewrite str_app_nil_l|].
  destruct s as [|b s]; [done|]. cbn [String.prefix]. destruct (Ascii.ascii_dec a b) as [<-|]; [|done].
  intros [r ->]%IH. exists r. by rewrite str_app_cons.
Qed.
Lemma ends_with_spec p s : ends_with p s = true <-> exists r, s = r +:+ p.
Proof.
  unfold ends_with. change (String.prefix (String.rev p) (String.rev s)) with (starts_with (String.rev p) (String.rev s)).
  rewrite starts_with_spec. split.
  - intros [r Hr]. exists (String.rev r). rewrite <- (str_rev_involutive s), Hr, str_rev_app.
    by rewrite str_rev_involutive.
  - intros [r ->]. exists (String.rev r). apply str_rev_app.
Qed.
Lemma str_get_app p s : String.get (String.length p) (p +:+ s) = String.get 0 s.
Proof. induction p as [|c p IH]; [by rewrite str_app_nil_l|]. by rewrite str_app_cons. Qed.
Lemma str_get_zero s c : String.get 0 s = Some c <-> exists r, s = String c r.
Proof. destruct s; cbn; naive_solver. Qed.
(** the byte before a suffix *)
Lemma str_get_before p s c :
  String.get (String.length p - 1) (p +:+ s) = Some c -> p <> "" -> exists r, p = r +:+ String c "".
Proof.
  induction p as [|a p IH]; [done|]. intros Hg _. rewrite str_app_cons in Hg. cbn [String.length] in Hg.
  destruct p as [|b p].
  - injection Hg as ->. by exists "".
  - cbn [String.length] in *. replace (S (S (String.length p)) - 1) with (S (String.length p)) in Hg by lia.
    destruct IH as [r Hr]; [by replace (S (String.length p) - 1) with (String.length p) by lia|done|].
    exists (String a r). by rewrite str_app_cons, <- Hr.
Qed.

(** ** UTF-8 (RFC 3629): what [String::from_utf8] accepts *)
Definition cont_byte (lo hi : N) (c : ascii) : bool := ((lo <=? byte_of c) && (byte_of c <=? hi))%N.
Fixpoint utf8_valid (s : string) : bool :=
  match s with
  | EmptyString => true
  | String a r =>
      let x := byte_of a in
      if (x <? 128)%N then utf8_valid r else
      match r with
      | EmptyString => false
      | String b r2 =>
          if ((194 <=? x) && (x <=? 223))%N then cont_byte 128 191 b && utf8_valid r2 else
          match r2 with
          | EmptyString => false
          | String c r3 =>
              let lo := if (x =? 224)%N then 160%N else 128%N in
              let hi := if (x =? 237)%N then 159%N else 191%N in
              if ((224 <=? x) && (x <=? 239))%N then cont_byte lo hi b && cont_byte 128 191 c && utf8_valid r3 else
              match r3 with
              | EmptyString => false
              | String d r4 =>
                  let lo := if (x =? 240)%N then 144%N else 128%N in
                  let hi := if (x =? 244)%N then 143%N else 191%N in
                  ((240 <=? x) && (x <=? 244))%N && cont_byte lo hi b && cont_byte 128 191 c && cont_byte 128 191 d
                  && utf8_valid r4
              end
          end
      end
  end.

(** ** [u64::to_be_bytes] and 64-bit length prefixes *)
Definition be64 (n : Z) : string := be32 (n / 4294967296) +:+ be32 (n mod 4294967296).
Lemma be64_inj n m : (0 <= n <= u64_max)%Z -> (0 <= m <= u64_max)%Z -> be64 n = be64 m -> n = m.
Proof.
  unfold u64_max. intros Hn Hm H. apply str_app_inj in H as [H1 H2]; [|done].
  apply be32_inj in H1, H2; unfold u32_max; div_lia.
Qed.
Lemma length_prefixed64_inj a b x y :
  (slen a <= u64_max)%Z -> (slen b <= u64_max)%Z ->
  be64 (slen a) +:+ a +:+ x = be64 (slen b) +:+ b +:+ y -> a = b /\ x = y.
Proof.
  intros Ha Hb H. apply str_app_inj in H as [Hl H]; [|done].
  apply be64_inj in Hl; [|split; [apply slen_nonneg|done]..].
  apply str_app_inj in H; [done|]. unfold slen in Hl. lia.
Qed.

(** ** Lower-case hexadecimal: [{:02x}] of each byte *)
Definition hex_digit (n : N) : ascii := Ascii.ascii_of_N (if (n <? 10)%N then 48 + n else 87 + n).
Fixpoint hex (s : string) : string :=
  match s with
  | EmptyString => EmptyString
  | String c r => String (hex_digit (byte_of c / 16)) (String (hex_digit (byte_of c mod 16)) (hex r))
  end.
Definition lower_hex_byte (c : ascii) : bool := is_hexdigit c && negb (is_upper c).
Lemma byte_of_lt c : (byte_of c < 256)%N.
Proof. destruct c as [[] [] [] [] [] [] [] []]; done. Qed.
Lemma byte_of_inj c d : byte_of c = byte_of d -> c = d.
Proof. intros H. rewrite <- (Ascii.ascii_N_embedding c), <- (Ascii.ascii_N_embedding d). by f_equal. Qed.
Lemma hex_digit_byte n : (n < 16)%N -> lower_hex_byte (hex_digit n) = true.
Proof. intros Hn. destruct n as [|p]; [done|]. do 4 (destruct p as [p|p|]; [| |done]); lia. Qed.
Lemma hex_digit_inj n m : (n < 16)%N -> (m < 16)%N -> hex_digit n = hex_digit m -> n = m.
Proof.
  intros Hn Hm H. apply (f_equal byte_of) in H. unfold hex_digit, byte_of in H.
  destruct (N.ltb_spec n 10), (N.ltb_spec m 10); rewrite !Ascii.N_ascii_embedding in H by lia; lia.
Qed.
Lemma hex_length s : slen (hex s) = (2 * slen s)%Z.
Proof. induction s as [|c s IH]; [done|]. cbn [hex]. rewrite !slen_cons, IH. lia. Qed.
Lemma hex_bytes s : all_bytes lower_hex_byte (hex s) = true.
Proof.
  induction s as [|c s IH]; [done|]. cbn [hex]. pose proof (byte_of_lt c). rewrite !all_bytes_cons, IH, !hex_digit_byte; [done| |].
  - apply N.mod_lt. lia.
  - apply N.Div0.div_lt_upper_bound. lia.
Qed.
Lemma hex_inj a b : hex a = hex b -> a = b.
Proof.
  revert b. induction a as [|c a IH]; intros [|d b] H; try done. cbn [hex] in H. injection H as H1 H2 H.
  pose proof (byte_of_lt c). pose proof (byte_of_lt d).
  apply hex_digit_inj in H1; [|apply N.Div0.div_lt_upper_bound; lia..]. apply hex_digit_inj in H2; [|apply N.mod_lt; lia..].
  f_equal; [|by apply IH]. apply byte_of_inj. rewrite (N.div_mod' (byte_of c) 16), (N.div_mod' (byte_of d) 16). congruence.
Qed.
