(* ===== verification/LiveContract.v ===== *)
(** * Contract data (src/src/live/contract/model.rs)

    The canonical source descriptors a provider resolves to: the data the planner, the stored
    session descriptor and the upstream credentials read.  [SensitiveString] only redacts
    [Debug] output, so it is the string it wraps.  A [BTreeMap] is a [gmap] whose iteration
    order is the order of its keys ([btree_iter]). *)
From S2P Require Import Prelude.

Inductive StreamProtocol := Hls | Dash | HttpProgressive | MpegTs | Rtmp | Srt.
#[export] Instance StreamProtocol_eq_dec : EqDecision StreamProtocol.
Proof. solve_decision. Defined.
Definition StreamProtocol_index (p : StreamProtocol) : nat :=
  match p with Hls => 0 | Dash => 1 | HttpProgressive => 2 | MpegTs => 3 | Rtmp => 4 | Srt => 5 end.
Definition StreamProtocol_of_index (n : nat) : option StreamProtocol :=
  match n with
  | 0 => Some Hls | 1 => Some Dash | 2 => Some HttpProgressive | 3 => Some MpegTs
  | 4 => Some Rtmp | 5 => Some Srt | _ => None
  end.
#[export] Instance StreamProtocol_countable : Countable StreamProtocol.
Proof. by apply (inj_countable StreamProtocol_index StreamProtocol_of_index); intros []. Defined.

Definition expected_scheme (p : StreamProtocol) : list string :=
  match p with
  | Hls | Dash | HttpProgressive | MpegTs => ["http"; "https"]
  | Rtmp => ["rtmp"]
  | Srt => ["srt"]
  end.

Inductive ClientDisclosure := ServerOnly | Public.
#[export] Instance ClientDisclosure_eq_dec : EqDecision ClientDisclosure.
Proof. solve_decision. Defined.

Inductive ServerEgress := NotRequired | Preferred | Required.
#[export] Instance ServerEgress_eq_dec : EqDecision ServerEgress.
Proof. solve_decision. Defined.

(** An instant is a number of nanoseconds since the Unix epoch. *)
Notation instant := Z (only parsing).
(** A uuid is a number: only its identity matters. *)
Notation uuid := N (only parsing).

(** The text of a uuid and its parser (the uuid crate). *)
Class UuidText := {
  uuid_to_string : uuid -> string;
  uuid_parse_str : string -> option uuid;
}.
Class UuidTextLaws (U : UuidText) : Prop := {
  uuid_parse_to_string u : uuid_parse_str (uuid_to_string u) = Some u;
}.

(** [DateTime::parse_from_rfc3339] and [to_rfc3339_opts(Millis, true)] *)
Class TimeText := {
  parse_from_rfc3339 : string -> option instant;
  to_rfc3339_millis : instant -> string;
}.
(** the decimal text of a [u16] *)
Class PortText := { u16_to_string : Z -> string }.

Inductive RefreshFailureCategory :=
| CatExpiryThreshold | CatUpstreamUnauthorized | CatUpstreamForbidden | CatUpstreamGone | CatTransport | CatStalled.
Inductive ProviderFailureCode :=
| PfInvalidRequest | PfItemNotFound | PfStreamNotFound | PfStreamExpired | PfAccountRequired | PfUpstreamUnavailable
| PfUpstreamRateLimited | PfUnsupportedInput | PfContractVersionUnsupported | PfInternalError.

Record CredentialAuthority := {
  ca_scheme : string;
  ca_host : string;
  ca_port : Z;
  ca_send_request_headers : bool;
  ca_send_cookies : bool;
  ca_send_origin : bool;
  ca_send_referer : bool;
}.

Record ProviderCookie := {
  pc_name : string;
  pc_value : string;
  pc_domain : option string;
  pc_path : option string;
  pc_secure : bool;
  pc_http_only : bool;
  pc_expires_at : option instant;
}.

Record TimeShift := { available : bool; window_seconds : option Z }.

Record MediaHints := {
  container : option string;
  video_codec : option string;
  audio_codec : option string;
}.

Record SourceDescriptor := {
  stream_id : string;
  label : string;
  quality : option string;
  language : option string;
  priority : Z;
  protocol : StreamProtocol;
  url : string;
  request_headers : gmap string string;
  cookies : list ProviderCookie;
  origin : option string;
  referer : option string;
  credential_authorities : list CredentialAuthority;
  client_disclosure : ClientDisclosure;
  expires_at : option instant;
  refresh_handle : option string;
  server_egress : ServerEgress;
  private_network : bool;
  time_shift : TimeShift;
  media : option MediaHints;
}.

Record ResolvedSources := {
  descriptor : SourceDescriptor;
  alternatives : list SourceDescriptor;
}.

(** Iteration of a [BTreeMap<String, V>]: its entries by increasing key. *)
Definition key_le {V} (p q : string * V) : Prop := String.le p.1 q.1.
#[export] Instance key_le_dec {V} : RelDecision (@key_le V).
Proof. intros p q. unfold key_le. apply _. Defined.
Definition btree_iter {V} (m : gmap string V) : list (string * V) :=
  merge_sort key_le (map_to_list m).

Lemma btree_iter_perm {V} (m : gmap string V) : btree_iter m ≡ₚ map_to_list m.
Proof. apply merge_sort_Permutation. Qed.

Lemma btree_iter_nodup {V} (m : gmap string V) : NoDup (btree_iter m).*1.
Proof. rewrite btree_iter_perm. apply NoDup_fst_map_to_list. Qed.

Lemma btree_iter_to_map {V} (m : gmap string V) : list_to_map (btree_iter m) = m.
Proof.
  rewrite <- (list_to_map_to_list m) at 2. apply list_to_map_proper.
  - apply btree_iter_nodup.
  - apply btree_iter_perm.
Qed.
