(* ===== verification/ProviderCalls.v ===== *)
(** * What a provider call may answer (src/src/live/provider/client.rs, contract/model.rs)

    The failures a provider reports, the ways a response violates the contract, and the errors of a call. *)
From S2P Require Import Prelude LiveContract.

Record ProviderFailure := {
  pf_code : ProviderFailureCode;
  pf_message : string;
  pf_retryable : bool;
  pf_retry_after_seconds : option Z;
}.
Inductive ContractErrorCode :=
| MalformedJson | DuplicateJsonKey | InvalidShape | LimitExceeded | InvalidContext | InvalidRequest | InvalidId
| InvalidText | InvalidDate | InvalidUrl | InvalidFilter | DuplicateId | TooManyInvalidItems | UndeclaredItemType
| UndeclaredProtocol | ForbiddenField | InvalidCredentials | DrmUnsupported | DescriptorExpired | UnsafeProviderConfig.
Inductive ProviderInvocationError :=
| NotReady | RevisionChanged | UnsupportedOperation | CallInvalidRequest (code : ContractErrorCode) | CallCancelled
| RequestTimeout | HardTimeout | Transport | RedirectRejected | InvalidContentType | ResponseTooLarge
| CallContract (code : ContractErrorCode)
| CallProvider (failure : ProviderFailure).
Definition invocation_code (e : ProviderInvocationError) : string :=
  match e with
  | NotReady => "provider_not_ready"
  | RevisionChanged => "provider_revision_changed"
  | UnsupportedOperation => "provider_operation_unsupported"
  | CallInvalidRequest _ => "provider_request_invalid"
  | CallCancelled => "provider_call_cancelled"
  | RequestTimeout => "provider_request_timeout"
  | HardTimeout => "provider_hard_timeout"
  | Transport => "provider_transport_failure"
  | RedirectRejected => "provider_redirect_rejected"
  | InvalidContentType => "provider_content_type_invalid"
  | ResponseTooLarge => "provider_response_too_large"
  | CallContract _ => "provider_contract_failure"
  | CallProvider failure =>
      match pf_code failure with PfAccountRequired => "provider_account_required" | _ => "provider_reported_failure" end
  end.
