(* ===== verification/Addresses.v ===== *)
(** * IP addresses and their text form, as the standard library of Rust reads them

    The value of an address is its 32 or 128 bits.  [parse_ip] is [str::parse::<IpAddr>]: the planner, the
    upstream client and the cookie jar use it to tell an address from a host name. *)
From S2P Require Import Prelude.

Inductive IpAddr := V4 (n : Z) | V6 (n : Z).
#[export] Instance IpAddr_eq_dec : EqDecision IpAddr.
Proof. solve_decision. Defined.
Definition ip_width (a : IpAddr) : Z := match a with V4 _ => 32 | V6 _ => 128 end.
Definition ip_value (a : IpAddr) : Z := match a with V4 n | V6 n => n end.
Definition ip_wf (a : IpAddr) : Prop := (0 <= ip_value a < 2 ^ ip_width a)%Z.
Definition is_ipv4 (a : IpAddr) : bool := match a with V4 _ => true | V6 _ => false end.
(** [Ord for IpAddr]: every V4 is below every V6 *)
Definition ip_le (a b : IpAddr) : Prop :=
  match a, b with
  | V4 x, V4 y | V6 x, V6 y => (x <= y)%Z
  | V4 _, V6 _ => True
  | V6 _, V4 _ => False
  end.
#[export] Instance ip_le_dec : RelDecision ip_le.
Proof. intros [x|x] [y|y]; cbn; apply _. Defined.

(** the [i]-th byte of an IPv4 address and the [i]-th 16-bit group of an IPv6 address *)
Definition octet (v i : Z) : Z := Z.land (Z.shiftr v (8 * (3 - i))) 255.
Definition segment (v i : Z) : Z := Z.land (Z.shiftr v (16 * (7 - i))) 65535.
Definition is_loopback (a : IpAddr) : bool :=
  match a with V4 v => (octet v 0 =? 127)%Z | V6 v => (v =? 1)%Z end.

(** ** The parser: a reader returns what it read and the rest, or fails and reads nothing *)
Definition reader (A : Type) : Type := string -> option (A * string).
Definition read_given_char (c : ascii) : reader unit :=
  fun s => match s with String a r => if Ascii.eqb a c then Some ((), r) else None | EmptyString => None end.
(** [read_separator]: the separator precedes every element but the first *)
Definition read_separator {A} (sep : ascii) (index : nat) (inner : reader A) : reader A :=
  fun s => match index with
           | O => inner s
           | S _ => match read_given_char sep s with Some (_, r) => inner r | None => None end
           end.
(** [char::to_digit] *)
Definition to_digit (radix : Z) (c : ascii) : option Z :=
  let v := Z.of_N (byte_of c) in
  let d := if is_digit c then Some (v - 48)%Z
           else if is_lower c then Some (v - 87)%Z
           else if is_upper c then Some (v - 55)%Z else None in
  match d with Some d => if (d <? radix)%Z then Some d else None | None => None end.
(** [read_number] after [count] digits of value [acc]: more than [max_digits] digits fail *)
Fixpoint read_digits (radix : Z) (max_digits count : nat) (acc : Z) (s : string) : option (Z * nat * string) :=
  match s with
  | EmptyString => Some (acc, count, s)
  | String c r =>
      match to_digit radix c with
      | None => Some (acc, count, s)
      | Some d => if Nat.ltb max_digits (S count) then None
                  else read_digits radix max_digits (S count) (acc * radix + d) r
      end
  end.
Definition read_number (radix : Z) (max_digits : nat) (allow_zero_prefix : bool) (limit : Z) : reader Z :=
  fun s =>
    match read_digits radix max_digits 0 0 s with
    | Some (n, count, r) =>
        if Nat.eqb count 0 then None
        else if negb allow_zero_prefix && starts_with "0" s && Nat.ltb 1 count then None
        else if (n <=? limit)%Z then Some (n, r) else None
    | None => None
    end.
Fixpoint read_octets (k index : nat) (acc : Z) : reader Z :=
  fun s => match k with
           | O => Some (acc, s)
           | S k =>
               match read_separator "." index (read_number 10 3 false 255) s with
               | Some (n, r) => read_octets k (S index) (acc * 256 + n) r
               | None => None
               end
           end.
Definition read_ipv4_addr : reader Z := read_octets 4 0 0.
(** [read_groups]: the groups read, whether they end with an embedded IPv4 address, and the rest *)
Fixpoint read_groups (k index : nat) (s : string) : list Z * bool * string :=
  match k with
  | O => ([], false, s)
  | S k =>
      match (if Nat.ltb 0 k then read_separator ":" index read_ipv4_addr s else None) with
      | Some (v, r) => ([v / 65536; v mod 65536]%Z, true, r)
      | None =>
          match read_separator ":" index (read_number 16 4 true 65535) s with
          | Some (g, r) => let '(gs, v4, r) := read_groups k (S index) r in (g :: gs, v4, r)
          | None => ([], false, s)
          end
      end
  end.
Definition from_groups (gs : list Z) : Z := foldl (fun acc g => acc * 65536 + g)%Z 0%Z gs.
Definition read_ipv6_addr : reader Z :=
  fun s =>
    let '(head, head_ipv4, r) := read_groups 8 0 s in
    if Nat.eqb (length head) 8 then Some (from_groups head, r)
    else if head_ipv4 then None
    else match read_given_char ":" r with
         | Some (_, r) =>
             match read_given_char ":" r with
             | Some (_, r) =>
                 let '(tail, _, r) := read_groups (8 - (length head + 1)) 0 r in
                 Some (from_groups (head ++ replicate (8 - length head - length tail) 0%Z ++ tail), r)
             | None => None
             end
         | None => None
         end.
Definition parse_ip (s : string) : option IpAddr :=
  match read_ipv4_addr s with
  | Some (v, r) => if str_empty r then Some (V4 v) else None
  | None => match read_ipv6_addr s with
            | Some (v, r) => if str_empty r then Some (V6 v) else None
            | None => None
            end
  end.
Definition parses_as_ip (s : string) : bool := is_some_b (parse_ip s).

Example parse_loopback : parse_ip "127.0.0.1" = Some (V4 2130706433).
Proof. reflexivity. Qed.
Example parse_mapped : parse_ip "::ffff:1.2.3.4" = Some (V6 281470698652420).
Proof. reflexivity. Qed.
Example parse_v6 : parse_ip "2001:DB8::1" = Some (V6 42540766411282592856903984951653826561).
Proof. reflexivity. Qed.
Example parse_not_ip :
  map parse_ip ["127.1"; "01.2.3.4"; "1.2.3.256"; "[::1]"; "1:2:3:4:5:6:7:8:9"; "::1.2.3.4:5"; ""] = replicate 7 None.
Proof. reflexivity. Qed.

(** ** A parsed address has its width *)
Lemma read_digits_bound radix m count acc s n c r : (0 <= acc)%Z -> (0 <= radix)%Z ->
  read_digits radix m count acc s = Some (n, c, r) -> (0 <= n)%Z.
Proof.
  intros Ha Hr. revert count acc Ha. induction s as [|a s IH]; intros count acc Ha; cbn [read_digits].
  - by intros [= <- _ _].
  - destruct (to_digit radix a) as [d|] eqn:Hd; [|by intros [= <- _ _]].
    destruct (m <? S count); [done|]. apply IH.
    enough (0 <= d)%Z by nia. unfold to_digit, is_digit, is_lower, is_upper in Hd.
    repeat match type of Hd with context [if ?b then _ else _] => destruct b eqn:? end; simplify_eq;
      repeat match goal with H : _ && _ = true |- _ => apply andb_true_iff in H as [? ?] end;
      repeat match goal with H : (_ <=? _)%N = true |- _ => apply N.leb_le in H end; lia.
Qed.
Lemma read_number_bound radix m z limit s n r : (0 <= radix)%Z ->
  read_number radix m z limit s = Some (n, r) -> (0 <= n <= limit)%Z.
Proof.
  intros Hr. unfold read_number. destruct (read_digits radix m 0 0 s) as [[[x c] t]|] eqn:Hd; [|done].
  apply read_digits_bound in Hd; [|done..]. repeat case_match; intros; simplify_eq. bool_hyps. lia.
Qed.
Lemma read_separator_some {A} sep index (inner : reader A) s x :
  read_separator sep index inner s = Some x -> exists s', inner s' = Some x.
Proof. unfold read_separator. repeat case_match; eauto; discriminate. Qed.
Lemma read_octets_bound k index acc s n r : (0 <= acc)%Z ->
  read_octets k index acc s = Some (n, r) -> (0 <= n < (acc + 1) * 256 ^ Z.of_nat k)%Z.
Proof.
  revert index acc s. induction k as [|k IH]; intros index acc s Ha; cbn [read_octets].
  - intros [= <- _]. cbn. lia.
  - destruct (read_separator _ _ _ _) as [[m t]|] eqn:Hs; [|done].
    apply read_separator_some in Hs as [s' Hs]. apply read_number_bound in Hs; [|done].
    intros Hn%IH; [|lia]. rewrite Nat2Z.inj_succ, Z.pow_succ_r by lia. nia.
Qed.
Lemma read_ipv4_wf s v r : read_ipv4_addr s = Some (v, r) -> ip_wf (V4 v).
Proof. intros Hr. apply read_octets_bound in Hr; [|done]. done. Qed.

Definition group_wf (g : Z) : Prop := (0 <= g < 65536)%Z.
Lemma read_groups_wf k index s gs v4 r :
  read_groups k index s = (gs, v4, r) -> Forall group_wf gs /\ length gs <= k.
Proof.
  revert index s gs v4 r. induction k as [|k IH]; intros index s gs v4 r; cbn [read_groups].
  - intros [= <- _ _]. split; [constructor|cbn; lia].
  - destruct (if 0 <? k then _ else _) as [[v t]|] eqn:Hv.
    + destruct (0 <? k) eqn:Hl; [|done]. apply Nat.ltb_lt in Hl.
      apply read_separator_some in Hv as [s' Hv]. apply read_ipv4_wf in Hv. unfold ip_wf in Hv. cbn in Hv.
      intros [= <- _ _]. split; [|cbn; lia]. repeat constructor; unfold group_wf; div_lia.
    + destruct (read_separator ":" index (read_number _ _ _ _) s) as [[g t]|] eqn:Hg;
        [|intros [= <- _ _]; split; [constructor|cbn; lia]].
      apply read_separator_some in Hg as [s' Hg]. apply read_number_bound in Hg; [|done].
      destruct (read_groups k (S index) t) as [[gs' b] t'] eqn:Hr. apply IH in Hr as [Hf Hl].
      intros [= <- _ _]. split; [constructor; [unfold group_wf; lia|done]|cbn; lia].
Qed.
Lemma from_groups_bound gs : Forall group_wf gs -> (0 <= from_groups gs < 65536 ^ Z.of_nat (length gs))%Z.
Proof.
  induction gs as [|g gs IH] using rev_ind; [done|]. intros [Hf Hg]%Forall_app. apply IH in Hf.
  rewrite Forall_singleton in Hg. unfold from_groups, group_wf in *. rewrite foldl_app, length_app. cbn [foldl length].
  replace (Z.of_nat (length gs + 1)) with (Z.succ (Z.of_nat (length gs))) by lia. rewrite Z.pow_succ_r by lia. lia.
Qed.
Lemma read_ipv6_wf s v r : read_ipv6_addr s = Some (v, r) -> ip_wf (V6 v).
Proof.
  assert (forall gs, Forall group_wf gs -> length gs = 8 -> ip_wf (V6 (from_groups gs))) as Hw.
  { intros gs Hf Hl. apply from_groups_bound in Hf. by rewrite Hl in Hf. }
  unfold read_ipv6_addr. destruct (read_groups 8 0 s) as [[head v4] t] eqn:Hh. apply read_groups_wf in Hh as [Hh Hl].
  destruct (Nat.eqb_spec (length head) 8); [intros [= <- _]; by apply Hw|].
  destruct v4; [done|]. destruct (read_given_char ":" t) as [[_ t']|]; [|done].
  destruct (read_given_char ":" t') as [[_ t'']|]; [|done].
  destruct (read_groups (8 - (length head + 1)) 0 t'') as [[tail b] u] eqn:Ht. apply read_groups_wf in Ht as [Ht Hlt].
  intros [= <- _]. apply Hw.
  - rewrite !Forall_app. split_and!; [done| |done]. by apply Forall_replicate.
  - rewrite !length_app, length_replicate. lia.
Qed.
Lemma parse_ip_wf s a : parse_ip s = Some a -> ip_wf a.
Proof.
  unfold parse_ip. destruct (read_ipv4_addr s) as [[v r]|] eqn:H4.
  - destruct (str_empty r); [|done]. intros [= <-]. by eapply read_ipv4_wf.
  - destruct (read_ipv6_addr s) as [[v r]|] eqn:H6; [|done].
    destruct (str_empty r); [|done]. intros [= <-]. by eapply read_ipv6_wf.
Qed.
