(* ===== verification/EgressPolicy.v ===== *)
(** * Selection of the effective egress policy (src/src/live/egress/policy.rs)

    The policies assigned to the server, the provider, the profile and the session are
    candidates; the strongest mode wins and, among equal strengths, the most specific source. *)
From S2P Require Import Prelude.

Inductive EgressPolicyMode := Off | PreferProtected | RequireProtected.
#[export] Instance EgressPolicyMode_eq_dec : EqDecision EgressPolicyMode.
Proof. solve_decision. Defined.

Inductive EgressPolicySource :=
| ServerConfig | ServerAssignment | ProviderAssignment | ProfileAssignment | Session.
#[export] Instance EgressPolicySource_eq_dec : EqDecision EgressPolicySource.
Proof. solve_decision. Defined.

Inductive EgressPolicySelectionError := InvalidMode | InvalidSelection | PolicyRequired.
#[export] Instance EgressPolicySelectionError_eq_dec : EqDecision EgressPolicySelectionError.
Proof. solve_decision. Defined.

Module EgressPolicyMode.
Definition as_str (m : EgressPolicyMode) : string :=
  match m with
  | Off => "off"
  | PreferProtected => "prefer_protected"
  | RequireProtected => "require_protected"
  end.
Definition parse (value : string) : result EgressPolicySelectionError EgressPolicyMode :=
  if String.eqb value "off" then Ok Off
  else if String.eqb value "prefer_protected" then Ok PreferProtected
  else if String.eqb value "require_protected" then Ok RequireProtected
  else Err InvalidMode.
Definition strength (m : EgressPolicyMode) : Z :=
  match m with Off => 0 | PreferProtected => 1 | RequireProtected => 2 end.
End EgressPolicyMode.

Module EgressPolicySource.
Definition precedence (s : EgressPolicySource) : Z :=
  match s with
  | ServerConfig => 0
  | ServerAssignment => 1
  | ProviderAssignment => 2
  | ProfileAssignment => 3
  | Session => 4
  end.
Definition as_str (s : EgressPolicySource) : string :=
  match s with
  | ServerConfig => "server_config"
  | ServerAssignment => "server_assignment"
  | ProviderAssignment => "provider_assignment"
  | ProfileAssignment => "profile_assignment"
  | Session => "session"
  end.
Definition parse (value : string) : result EgressPolicySelectionError EgressPolicySource :=
  if String.eqb value "server_config" then Ok ServerConfig
  else if String.eqb value "server_assignment" then Ok ServerAssignment
  else if String.eqb value "provider_assignment" then Ok ProviderAssignment
  else if String.eqb value "profile_assignment" then Ok ProfileAssignment
  else if String.eqb value "session" then Ok Session
  else Err InvalidSelection.
End EgressPolicySource.

(** [PolicyCandidate] and [EffectiveEgressPolicy] have the same fields; the code copies one
    into the other field by field. *)
Record PolicyCandidate := {
  mode : EgressPolicyMode;
  policy_id : option string;
  allow_fallback : bool;
  revision : Z;
  source : EgressPolicySource;
}.

Record EffectiveEgressPolicy := {
  eff_mode : EgressPolicyMode;
  eff_policy_id : option string;
  eff_allow_fallback : bool;
  eff_revision : Z;
  eff_source : EgressPolicySource;
}.

Definition protected (p : EffectiveEgressPolicy) : bool := bool_decide (eff_mode p <> Off).
Definition strict (p : EffectiveEgressPolicy) : bool := bool_decide (eff_mode p = RequireProtected).

Definition valid_policy_id (value : string) : bool :=
  negb (str_empty value) && (slen value <=? 128)%Z
  && all_bytes (fun b => is_alnum b || existsb (Ascii.eqb b) ["_"; "-"; "."]%char) value.

Definition validate_candidate (c : PolicyCandidate) : result EgressPolicySelectionError unit :=
  _ ← reject_if ((revision c <? 1)%Z || is_some_and (fun v => negb (valid_policy_id v)) (policy_id c))
        InvalidSelection;
  match mode c with
  | Off => reject_if (is_some_b (policy_id c) || allow_fallback c) InvalidSelection
  | PreferProtected => reject_if (is_none_b (policy_id c)) PolicyRequired
  | RequireProtected => reject_if (is_none_b (policy_id c) || allow_fallback c) InvalidSelection
  end.

Definition default_candidate : PolicyCandidate :=
  {| mode := Off; policy_id := None; allow_fallback := false; revision := 1;
     source := ServerConfig |}.

(** whether [candidate] replaces [current]: [selected.as_ref().is_none_or(...)] *)
Definition outranks (candidate current : PolicyCandidate) : bool :=
  (EgressPolicyMode.strength (mode current) <? EgressPolicyMode.strength (mode candidate))%Z
  || ((EgressPolicyMode.strength (mode candidate) =? EgressPolicyMode.strength (mode current))%Z
      && (EgressPolicySource.precedence (source current)
          <? EgressPolicySource.precedence (source candidate))%Z).

Definition replace_if_outranked (selected : option PolicyCandidate) (c : PolicyCandidate)
    : option PolicyCandidate :=
  if is_none_or (outranks c) selected then Some c else selected.

Fixpoint select_loop (selected : option PolicyCandidate) (candidates : list PolicyCandidate)
    : result EgressPolicySelectionError (option PolicyCandidate) :=
  match candidates with
  | [] => Ok selected
  | c :: rest =>
      _ ← validate_candidate c;
      select_loop (replace_if_outranked selected c) rest
  end.

Definition to_effective (c : PolicyCandidate) : EffectiveEgressPolicy :=
  {| eff_mode := mode c; eff_policy_id := policy_id c; eff_allow_fallback := allow_fallback c;
     eff_revision := revision c; eff_source := source c |}.

Definition select_effective_policy (candidates : list PolicyCandidate)
    : result EgressPolicySelectionError EffectiveEgressPolicy :=
  selected ← select_loop None candidates;
  Ok (to_effective (default default_candidate selected)).

Definition validate_effective_policy (p : EffectiveEgressPolicy)
    : result EgressPolicySelectionError unit :=
  validate_candidate {| mode := eff_mode p; policy_id := eff_policy_id p;
    allow_fallback := eff_allow_fallback p; revision := eff_revision p; source := eff_source p |}.

(** ** Properties *)

(** [c] is at least as strong as [d], or as strong and as specific. *)
Definition dominates (c d : PolicyCandidate) : Prop := outranks d c = false.

Lemma dominates_trans a b c : dominates a b -> dominates b c -> dominates a c.
Proof. unfold dominates, outranks. rewrite !orb_false_iff, !andb_false_iff. intros; lia. Qed.

Lemma outranks_dominates a b : outranks a b = true -> dominates a b.
Proof. unfold dominates, outranks. lia. Qed.

Lemma dominates_refl a : dominates a a.
Proof. unfold dominates, outranks. lia. Qed.

#[local] Hint Resolve dominates_refl outranks_dominates : core.

Lemma replace_if_outranked_spec sel x :
  exists k, replace_if_outranked sel x = Some k /\ (sel = Some k \/ k = x) /\
    forall c, sel = Some c \/ c = x -> dominates k c.
Proof.
  unfold replace_if_outranked. destruct sel as [s|]; cbn; [|naive_solver].
  destruct (outranks x s) eqn:E; [exists x|exists s]; naive_solver.
Qed.

(** The loop returns a candidate that dominates every candidate it has seen. *)
Lemma select_loop_some sel cs r c :
  select_loop sel cs = Ok r -> sel = Some c \/ c ∈ cs ->
  exists w, r = Some w /\ dominates w c /\ (sel = Some w \/ w ∈ cs).
Proof.
  revert sel c. induction cs as [|x cs IH]; intros sel c H Hc; cbn in H.
  - ok_inv. destruct Hc as [->|Hc]; [naive_solver|by apply elem_of_nil in Hc].
  - ok_inv. destruct (replace_if_outranked_spec sel x) as (k & Hk & Hin & Hdom).
    rewrite Hk in H.
    assert (forall w, Some k = Some w \/ w ∈ cs -> sel = Some w \/ w ∈ x :: cs) as Hmem
      by (intros w [[= <-]|?]; destruct Hin; subst; set_solver).
    rewrite elem_of_cons in Hc. destruct Hc as [Hc|[Hc|Hc]].
    1,2: destruct (IH _ k H (or_introl eq_refl)) as (w & ? & ? & ?); exists w;
      split_and!; eauto using dominates_trans.
    destruct (IH _ c H (or_intror Hc)) as (w & ? & ? & ?); naive_solver.
Qed.

Lemma select_loop_valid sel cs r :
  select_loop sel cs = Ok r -> forall c, c ∈ cs -> validate_candidate c = Ok ().
Proof.
  revert sel. induction cs as [|x cs IH]; intros sel H c Hc; cbn in H; [by apply elem_of_nil in Hc|].
  apply result_bind_ok in H as ([] & Hx & H).
  apply elem_of_cons in Hc as [->|Hc]; [done|by eapply IH].
Qed.

Lemma validate_require_protected c :
  validate_candidate c = Ok () -> mode c = RequireProtected ->
  is_Some (policy_id c) /\ allow_fallback c = false.
Proof.
  intros H Hm. unfold validate_candidate in H. rewrite Hm in H. ok_inv.
  apply orb_false_iff in H as [H ->]. by destruct (policy_id c).
Qed.

(** [select_effective_policy] returns the strongest assigned policy.  When it succeeds on a
    non-empty list of candidates the result is one of them, no candidate has a stronger mode,
    and none of the same mode comes from a more specific source; in particular a single
    [RequireProtected] candidate makes the result strict, with a policy and no fallback. *)
Theorem select_effective_policy_strongest cs p c :
  select_effective_policy cs = Ok p -> c ∈ cs ->
  (exists w, w ∈ cs /\ p = to_effective w) /\
  (EgressPolicyMode.strength (mode c) <= EgressPolicyMode.strength (eff_mode p))%Z /\
  (mode c = eff_mode p ->
   EgressPolicySource.precedence (source c) <= EgressPolicySource.precedence (eff_source p))%Z /\
  (mode c = RequireProtected ->
   strict p = true /\ is_Some (eff_policy_id p) /\ eff_allow_fallback p = false).
Proof.
  intros H Hc. unfold select_effective_policy in H.
  apply result_bind_ok in H as (r & Hr & H). ok_inv.
  pose proof (select_loop_valid _ _ _ Hr) as Hval.
  destruct (select_loop_some _ _ _ c Hr (or_intror Hc)) as (w & -> & Hdom & [?|Hw]); [done|].
  unfold dominates, outranks in Hdom. apply orb_false_iff in Hdom as [H1 H2]. cbn.
  apply Z.ltb_ge in H1. split_and!; [by eauto|done| |].
  - intros Hm. rewrite Hm, Z.eqb_refl in H2. cbn in H2. lia.
  - intros Hm. assert (mode w = RequireProtected) as Hmw
      by (rewrite Hm in H1; destruct (mode w); cbn in H1; done || lia).
    unfold strict; cbn. rewrite Hmw. split; [done|].
    by apply validate_require_protected; [apply Hval|].
Qed.

Lemma select_effective_policy_strongest_witness :
  let required := {| mode := RequireProtected; policy_id := Some "profile-vpn";
    allow_fallback := false; revision := 1; source := ProfileAssignment |} in
  let preferred := {| mode := PreferProtected; policy_id := Some "session-vpn";
    allow_fallback := true; revision := 1; source := Session |} in
  exists p, select_effective_policy [preferred; required] = Ok p /\
  (exists w, w ∈ [preferred; required] /\ p = to_effective w).
Proof.
  intros required preferred. exists (to_effective required).
  assert (select_effective_policy [preferred; required] = Ok (to_effective required)) as H
    by (vm_compute; reflexivity).
  assert (required ∈ [preferred; required]) as Hin by (apply elem_of_cons; right; left).
  split; [exact H|].
  exact (proj1 (select_effective_policy_strongest _ _ _ H Hin)).
Defined.
