(* ===== verification/SessionTypes.v ===== *)
(** * Live playback sessions: data and state machine (src/src/live/session/types.rs)

    The enumerations stored as text columns with their codecs, the twelve session states with
    [can_transition_to], and the session record.  A [Uuid] is its 128-bit value. *)
From S2P Require Import Prelude LiveContract.


(** ** Enumerations and their stored names *)
Inductive DeliveryMode := ClientDirect | ServerRelay | ServerRemux.
#[export] Instance DeliveryMode_eq_dec : EqDecision DeliveryMode.
Proof. solve_decision. Defined.

Module DeliveryMode.
Definition as_str (m : DeliveryMode) : string :=
  match m with
  | ClientDirect => "client_direct"
  | ServerRelay => "server_relay"
  | ServerRemux => "server_remux"
  end.
Definition try_from (value : string) : option DeliveryMode :=
  if String.eqb value "client_direct" then Some ClientDirect
  else if String.eqb value "server_relay" then Some ServerRelay
  else if String.eqb value "server_remux" then Some ServerRemux
  else None.
End DeliveryMode.

(** [SessionProtocol] has the constructors of [StreamProtocol]. *)
Inductive SessionProtocol := PHls | PDash | PHttpProgressive | PMpegTs | PRtmp | PSrt.
#[export] Instance SessionProtocol_eq_dec : EqDecision SessionProtocol.
Proof. solve_decision. Defined.

Module SessionProtocol.
Definition as_str (p : SessionProtocol) : string :=
  match p with
  | PHls => "hls"
  | PDash => "dash"
  | PHttpProgressive => "http_progressive"
  | PMpegTs => "mpeg_ts"
  | PRtmp => "rtmp"
  | PSrt => "srt"
  end.
Definition try_from (value : string) : option SessionProtocol :=
  if String.eqb value "hls" then Some PHls
  else if String.eqb value "dash" then Some PDash
  else if String.eqb value "http_progressive" then Some PHttpProgressive
  else if String.eqb value "mpeg_ts" then Some PMpegTs
  else if String.eqb value "rtmp" then Some PRtmp
  else if String.eqb value "srt" then Some PSrt
  else None.
End SessionProtocol.

Inductive SessionState :=
| Resolving | Planning | ProvisioningEgress | StartingRemux | Ready | Playing
| Reconnecting | Refreshing | FailingOver | Ended | Expired | Failed.
#[export] Instance SessionState_eq_dec : EqDecision SessionState.
Proof. solve_decision. Defined.

Module SessionState.
Definition as_str (s : SessionState) : string :=
  match s with
  | Resolving => "resolving"
  | Planning => "planning"
  | ProvisioningEgress => "provisioning_egress"
  | StartingRemux => "starting_remux"
  | Ready => "ready"
  | Playing => "playing"
  | Reconnecting => "reconnecting"
  | Refreshing => "refreshing"
  | FailingOver => "failing_over"
  | Ended => "ended"
  | Expired => "expired"
  | Failed => "failed"
  end.

Definition try_from (value : string) : option SessionState :=
  if String.eqb value "resolving" then Some Resolving
  else if String.eqb value "planning" then Some Planning
  else if String.eqb value "provisioning_egress" then Some ProvisioningEgress
  else if String.eqb value "starting_remux" then Some StartingRemux
  else if String.eqb value "ready" then Some Ready
  else if String.eqb value "playing" then Some Playing
  else if String.eqb value "reconnecting" then Some Reconnecting
  else if String.eqb value "refreshing" then Some Refreshing
  else if String.eqb value "failing_over" then Some FailingOver
  else if String.eqb value "ended" then Some Ended
  else if String.eqb value "expired" then Some Expired
  else if String.eqb value "failed" then Some Failed
  else None.

Definition is_terminal (s : SessionState) : bool :=
  match s with Ended | Expired | Failed => true | _ => false end.

Definition can_transition_to (self next : SessionState) : bool :=
  if is_terminal self || bool_decide (self = next) then false
  else if is_terminal next then true
  else
    match self, next with
    | Resolving, Planning
    | Planning, ProvisioningEgress
    | Planning, StartingRemux
    | Planning, Ready
    | ProvisioningEgress, StartingRemux
    | ProvisioningEgress, Ready
    | StartingRemux, Ready
    | Ready, Playing
    | Ready, Reconnecting
    | Ready, Refreshing
    | Ready, FailingOver
    | Playing, Reconnecting
    | Playing, Refreshing
    | Playing, FailingOver
    | Reconnecting, Playing
    | Reconnecting, Ready
    | Reconnecting, Refreshing
    | Reconnecting, FailingOver
    | Refreshing, Playing
    | Refreshing, Ready
    | Refreshing, FailingOver
    | FailingOver, Planning
    | FailingOver, ProvisioningEgress
    | FailingOver, StartingRemux
    | FailingOver, Ready
    | FailingOver, Playing
    | FailingOver, Refreshing => true
    | _, _ => false
    end.
End SessionState.

(** ** Session records *)
Record SessionOwner := {
  user_id : uuid;
  home_id : uuid;
  profile_id : uuid;
  account_session_id : uuid;
  provider_id : uuid;
}.
#[export] Instance SessionOwner_eq_dec : EqDecision SessionOwner.
Proof. solve_decision. Defined.

Record LiveTrackSelection := {
  track_id : string;
  track_language : option string;
  track_title : option string;
}.

Record LiveTrackPreferenceUpdate := {
  upd_audio : option LiveTrackSelection;
  upd_subtitle : option LiveTrackSelection;
}.

Definition update_is_empty (u : LiveTrackPreferenceUpdate) : bool :=
  is_none_b (upd_audio u) && is_none_b (upd_subtitle u).

Record LiveTrackPreferences := {
  pref_audio : option LiveTrackSelection;
  pref_subtitle : option LiveTrackSelection;
  pref_revision : Z;
  pref_updated_at : instant;
}.

Record NewSession := {
  new_owner : SessionOwner;
  new_item_key : string;
  new_stream_option_key : string;
  new_item_snapshot : string;
  new_descriptor : string;
  new_delivery_mode : DeliveryMode;
  new_protocol : SessionProtocol;
  new_source_index : Z;
  new_control_fencing_token : Z;
  new_now : instant;
}.

Record IdempotencyRequest := { idem_key : string; idem_request_identity : string }.

Record SessionRecord := {
  id : uuid;
  owner : SessionOwner;
  delivery_mode : DeliveryMode;
  session_protocol : SessionProtocol;
  state : SessionState;
  revision : Z;
  token_revision : Z;
  control_fencing_token : Z;
  source_index : Z;
  failover_count : Z;
  refresh_count : Z;
  egress_binding_id : option uuid;
  remux_job_id : option string;
  created_at : instant;
  last_heartbeat_at : instant;
  session_expires_at : instant;
  hard_expires_at : instant;
  ended_at : option instant;
  error_code : option string;
  error_detail_redacted : option string;
}.

Definition needs_rollover (s : SessionRecord) (now : instant) (lead_seconds : Z) : bool :=
  negb (SessionState.is_terminal (state s))
  && (0 <=? lead_seconds)%Z
  && (hard_expires_at s - seconds lead_seconds <=? now)%Z.

Record SessionSecretMaterial := { mat_item_snapshot : string; mat_descriptor : string }.

Record SessionGrant := {
  grant_session : SessionRecord;
  grant_token : string;
  replayed : bool;
}.

Record SessionMutation := { mut_session : SessionRecord; previous_revision : Z }.

Record TerminalReason := {
  reason_state : SessionState;
  reason_error_code : option string;
  reason_error_detail : option string;
}.

Definition TerminalReason_ended : TerminalReason :=
  {| reason_state := Ended; reason_error_code := None; reason_error_detail := None |}.

(** ** Lemmas and properties *)
Ltac string_cases :=
  repeat match goal with
  | H : context [String.eqb ?a ?b] |- _ => destruct (String.eqb_spec a b)
  | |- context [String.eqb ?a ?b] => destruct (String.eqb_spec a b)
  end; subst; try done; try congruence.

Lemma DeliveryMode_as_str_try_from m : DeliveryMode.try_from (DeliveryMode.as_str m) = Some m.
Proof. by destruct m. Qed.
Lemma DeliveryMode_try_from_as_str s m : DeliveryMode.try_from s = Some m -> DeliveryMode.as_str m = s.
Proof. unfold DeliveryMode.try_from. intros H. string_cases; by injection H as <-. Qed.
Lemma SessionProtocol_as_str_try_from p : SessionProtocol.try_from (SessionProtocol.as_str p) = Some p.
Proof. by destruct p. Qed.
Lemma SessionProtocol_try_from_as_str s p :
  SessionProtocol.try_from s = Some p -> SessionProtocol.as_str p = s.
Proof. unfold SessionProtocol.try_from. intros H. string_cases; by injection H as <-. Qed.
Lemma SessionState_as_str_try_from s : SessionState.try_from (SessionState.as_str s) = Some s.
Proof. by destruct s. Qed.
Lemma SessionState_try_from_as_str v s : SessionState.try_from v = Some s -> SessionState.as_str s = v.
Proof. unfold SessionState.try_from. intros H. string_cases; by injection H as <-. Qed.
#[export] Hint Rewrite DeliveryMode_as_str_try_from SessionProtocol_as_str_try_from
  SessionState_as_str_try_from : live.

#[export] Instance SessionState_as_str_inj : Inj eq eq SessionState.as_str.
Proof.
  intros a b H. apply (f_equal SessionState.try_from) in H.
  rewrite !SessionState_as_str_try_from in H. congruence.
Qed.

(** One move of the state machine, and runs of it. *)
Inductive transition_step : SessionState -> SessionState -> Prop :=
| transition_step_intro s t : SessionState.can_transition_to s t = true -> transition_step s t.

Inductive transitions : SessionState -> SessionState -> Prop :=
| transitions_refl s : transitions s s
| transitions_step s t u : transition_step s t -> transitions t u -> transitions s u.
#[export] Hint Constructors transition_step transitions : live.

Lemma transitions_trans s t u : transitions s t -> transitions t u -> transitions s u.
Proof. induction 1; eauto with live. Qed.

Lemma can_transition_terminal s t :
  SessionState.is_terminal s = true -> SessionState.can_transition_to s t = false.
Proof. unfold SessionState.can_transition_to. by intros ->. Qed.

Lemma can_transition_irrefl s : SessionState.can_transition_to s s = false.
Proof. by destruct s. Qed.

Lemma can_transition_to_terminal s t :
  SessionState.is_terminal s = false -> SessionState.is_terminal t = true ->
  SessionState.can_transition_to s t = true.
Proof. by destruct s, t. Qed.

(** Every live state can be driven to [Ready] by non-terminal moves. *)
Lemma transitions_to_ready s : SessionState.is_terminal s = false -> transitions s Ready.
Proof.
  assert (forall a b, SessionState.can_transition_to a b = true -> transitions a b)
    as step by eauto with live.
  intros H. destruct s; try done; try (by apply step); [|by constructor|].
  - apply transitions_trans with Planning; by apply step.
  - apply transitions_trans with Reconnecting; by apply step.
Qed.

(** The states the recovery actions pass through (used by the repository). *)
Lemma recovery_moves :
  SessionState.can_transition_to Refreshing Ready = true /\
  SessionState.can_transition_to FailingOver Planning = true /\
  SessionState.can_transition_to Planning Ready = true /\
  SessionState.can_transition_to Refreshing Playing = true /\
  SessionState.can_transition_to FailingOver Ready = true /\
  SessionState.can_transition_to FailingOver Playing = true.
Proof. by vm_compute. Qed.

(** The session state machine.  The three terminal states are exactly the dead ends: no
    run leaves one, every live state can end in any of them in one move, and every live state
    can be brought (back) to [Ready]; no state moves to itself, so each move is a change. *)
Theorem session_state_machine s t :
  (SessionState.is_terminal s = true -> transitions s t -> t = s) /\
  (SessionState.is_terminal s = false ->
     transitions s Ready /\
     (SessionState.is_terminal t = true -> SessionState.can_transition_to s t = true)) /\
  (SessionState.can_transition_to s t = true -> s <> t /\ SessionState.is_terminal s = false).
Proof.
  split_and!.
  - intros Hs Hrun. destruct Hrun as [|s t u [s' t' Hst] _]; [done|].
    by rewrite can_transition_terminal in Hst.
  - intros Hs. split; [by apply transitions_to_ready|]. intros Ht. by apply can_transition_to_terminal.
  - intros H. split.
    + intros ->. by rewrite can_transition_irrefl in H.
    + destruct (SessionState.is_terminal s) eqn:E; [|done]. by rewrite can_transition_terminal in H.
Qed.

(** The stored names of delivery modes, protocols and states are codecs: decoding an encoded
    value gives it back, and a name that decodes is the name of the decoded value, so no two
    stored texts mean the same state. *)
Theorem session_names_roundtrip :
  (forall m, DeliveryMode.try_from (DeliveryMode.as_str m) = Some m) /\
  (forall p, SessionProtocol.try_from (SessionProtocol.as_str p) = Some p) /\
  (forall s, SessionState.try_from (SessionState.as_str s) = Some s) /\
  (forall v m, DeliveryMode.try_from v = Some m <-> v = DeliveryMode.as_str m) /\
  (forall v p, SessionProtocol.try_from v = Some p <-> v = SessionProtocol.as_str p) /\
  (forall v s, SessionState.try_from v = Some s <-> v = SessionState.as_str s).
Proof.
  split_and!; intros; autorewrite with live; try done; split; intros; subst;
    autorewrite with live; try done; symmetry;
    eauto using DeliveryMode_try_from_as_str, SessionProtocol_try_from_as_str,
      SessionState_try_from_as_str.
Qed.
