(* ===== verification/Planner.v ===== *)
(** * Delivery planning (src/src/live/planner.rs)

    [plan_delivery] chooses, among the candidate sources of a resolved item, the first one that
    can be delivered and how: by the client directly, relayed, or remuxed.  URL parsing is the
    [url] crate's: [Url_parse] is a parameter and a parsed URL is the components the code reads. *)
From S2P Require Import Prelude Addresses LiveContract EgressPolicy SessionTypes.

(** ** The [url] crate, as the code sees it *)
Record Url := {
  u_scheme : string;
  u_username : string;
  u_password : option string;
  u_host : option string;
  u_port_or_known_default : option Z;
  u_path : string;
  u_query : option string;
  u_fragment : option string;
  u_as_str : string;
}.

(** [Url::parse] and [Url::join] succeed or fail as the crate decides. *)
Class UrlOps := {
  Url_parse : string -> option Url;
  Url_join : Url -> string -> option Url;
}.

(** ** Reasons and rejections *)
Inductive PlannerReason :=
| PublicCompatibleDirect
| DirectDisabledRequiresRelay
| DisclosureRuleMissingRequiresRelay
| ProviderServerOnlyRequiresRelay
| SensitiveHeadersRequireRelay
| SensitiveCookiesRequireRelay
| SensitiveOriginRequireRelay
| SensitiveRefererRequireRelay
| SensitiveUrlRequireRelay
| RefreshHandleRequiresRelay
| ProviderServerEgressRequiresRelay
| ProviderServerEgressPreferredRelay
| ProtectedEgressRequiresRelay
| ProtectedEgressPreferredRelay
| PrivateNetworkRequiresRelay
| DirectRecoveryRequiresServer
| CompatibleServerRelay
| ClientProtocolRequiresRemux
| UnsupportedContainerRequiresRemux.
#[export] Instance PlannerReason_eq_dec : EqDecision PlannerReason.
Proof. solve_decision. Defined.

Definition PlannerReason_as_str (r : PlannerReason) : string :=
  match r with
  | PublicCompatibleDirect => "public_compatible_direct"
  | DirectDisabledRequiresRelay => "direct_disabled_requires_relay"
  | DisclosureRuleMissingRequiresRelay => "disclosure_rule_missing_requires_relay"
  | ProviderServerOnlyRequiresRelay => "provider_server_only_requires_relay"
  | SensitiveHeadersRequireRelay => "sensitive_headers_require_relay"
  | SensitiveCookiesRequireRelay => "sensitive_cookies_require_relay"
  | SensitiveOriginRequireRelay => "sensitive_origin_requires_relay"
  | SensitiveRefererRequireRelay => "sensitive_referer_requires_relay"
  | SensitiveUrlRequireRelay => "sensitive_url_requires_relay"
  | RefreshHandleRequiresRelay => "refresh_handle_requires_relay"
  | ProviderServerEgressRequiresRelay => "provider_server_egress_requires_relay"
  | ProviderServerEgressPreferredRelay => "provider_server_egress_preferred_relay"
  | ProtectedEgressRequiresRelay => "protected_egress_requires_relay"
  | ProtectedEgressPreferredRelay => "protected_egress_preferred_relay"
  | PrivateNetworkRequiresRelay => "private_network_requires_relay"
  | DirectRecoveryRequiresServer => "direct_recovery_requires_server"
  | CompatibleServerRelay => "compatible_server_relay"
  | ClientProtocolRequiresRemux => "client_protocol_requires_remux"
  | UnsupportedContainerRequiresRemux => "unsupported_container_requires_remux"
  end.

Inductive PlannerRejectionCode :=
| InvalidInput
| MalformedDescriptor
| ProtocolMismatch
| DescriptorExpired
| TimeShiftUnavailable
| PrivateNetworkForbidden
| ProtectedEgressUnavailable
| ClientProtocolUnsupported
| ClientCodecUnsupported
| ClientContainerUnsupported
| RelayDisabled
| RelayCapacity
| RemuxDisabled
| RemuxCapacity
| RemuxProfileUnsupported.
#[export] Instance PlannerRejectionCode_eq_dec : EqDecision PlannerRejectionCode.
Proof. solve_decision. Defined.

Definition PlannerRejectionCode_as_str (c : PlannerRejectionCode) : string :=
  match c with
  | InvalidInput => "invalid_input"
  | MalformedDescriptor => "malformed_descriptor"
  | ProtocolMismatch => "protocol_mismatch"
  | DescriptorExpired => "descriptor_expired"
  | TimeShiftUnavailable => "time_shift_unavailable"
  | PrivateNetworkForbidden => "private_network_forbidden"
  | ProtectedEgressUnavailable => "protected_egress_unavailable"
  | ClientProtocolUnsupported => "client_protocol_unsupported"
  | ClientCodecUnsupported => "client_codec_unsupported"
  | ClientContainerUnsupported => "client_container_unsupported"
  | RelayDisabled => "relay_disabled"
  | RelayCapacity => "relay_capacity"
  | RemuxDisabled => "remux_disabled"
  | RemuxCapacity => "remux_capacity"
  | RemuxProfileUnsupported => "remux_profile_unsupported"
  end.

Inductive EgressMode := ServerDefault | Protected | PrivateLan.
#[export] Instance EgressMode_eq_dec : EqDecision EgressMode.
Proof. solve_decision. Defined.
Inductive TokenPolicy := NoToken | HeaderBearer.
#[export] Instance TokenPolicy_eq_dec : EqDecision TokenPolicy.
Proof. solve_decision. Defined.
Inductive RemuxProfile := DashToHlsCopy | MpegTsToHlsCopy | RtmpToHlsCopy | SrtToHlsCopy.
#[export] Instance RemuxProfile_eq_dec : EqDecision RemuxProfile.
Proof. solve_decision. Defined.

Definition RemuxProfile_as_str (p : RemuxProfile) : string :=
  match p with
  | DashToHlsCopy => "dash_to_hls_copy"
  | MpegTsToHlsCopy => "mpeg_ts_to_hls_copy"
  | RtmpToHlsCopy => "rtmp_to_hls_copy"
  | SrtToHlsCopy => "srt_to_hls_copy"
  end.

Record CandidateRejection := { rej_source_index : nat; rej_code : PlannerRejectionCode }.

Record DeliveryPlan := {
  plan_mode : DeliveryMode;
  plan_reason : PlannerReason;
  plan_egress : option EgressMode;
  selected_source_index : nat;
  plan_remux_profile : option RemuxProfile;
  plan_token_policy : TokenPolicy;
  fallback_candidates : list nat;
  rejected_candidates : list CandidateRejection;
}.

Record PlannerRejection := {
  rejection_code : PlannerRejectionCode;
  rejection_candidates : list CandidateRejection;
}.

(** ** Client capabilities *)
Record ClientCapabilities := {
  protocols : gset StreamProtocol;
  containers : gset string;
  video_codecs : gset string;
  audio_codecs : gset string;
}.

Definition normalize_name (value : string) : string := to_lower (trim value).

Definition valid_capability_name (value : string) : bool :=
  negb (str_empty value) && (slen value <=? 64)%Z
  && String.eqb value (normalize_name value)
  && all_bytes (fun b => is_alnum b || existsb (Ascii.eqb b) ["-"; "_"; "."]%char) value.

Definition set_len {A} `{Countable A} (s : gset A) : Z := Z.of_nat (size s).

Definition ClientCapabilities_validate (c : ClientCapabilities) : bool :=
  negb (bool_decide (protocols c = ∅))
  && (set_len (containers c) <=? 64)%Z
  && (set_len (video_codecs c) <=? 64)%Z
  && (set_len (audio_codecs c) <=? 64)%Z
  && forallb valid_capability_name
       (elements (containers c) ++ elements (video_codecs c) ++ elements (audio_codecs c)).

Definition supports_protocol (c : ClientCapabilities) (p : StreamProtocol) : bool :=
  bool_decide (p ∈ protocols c).

Definition supports_container (c : ClientCapabilities) (value : option string) : bool :=
  is_none_or (fun v => bool_decide (normalize_name v ∈ containers c)) value.

Definition supports_codecs (c : ClientCapabilities) (source : SourceDescriptor) : bool :=
  is_none_or (fun m =>
      is_none_or (fun v => bool_decide (normalize_name v ∈ video_codecs c)) (video_codec m)
      && is_none_or (fun v => bool_decide (normalize_name v ∈ audio_codecs c)) (audio_codec m))
    (media source).

(** ** Disclosure rules and policy *)
Record DirectDisclosureRule := {
  rule_scheme : string;
  rule_host : string;
  rule_port : Z;
  rule_exact_path : string;
  public_network : bool;
  allow_client_disclosure : bool;
}.

Definition valid_exact_path (value : string) : bool :=
  starts_with "/" value && (slen value <=? 2048)%Z
  && negb (contains_any ["*"; "?"; "#"; " "]%char value)
  && negb (any_control value).

Section planner.
Context `{UrlOps}.

Definition DirectDisclosureRule_new_inner (scheme host : string) (port : Z) (exact_path : string)
    (public_network allow_client_disclosure allow_test_loopback : bool)
    : result PlannerRejectionCode DirectDisclosureRule :=
  let scheme := to_lower scheme in
  let host := to_lower (trim_end_char "."%char host) in
  if negb (String.eqb scheme "https")
     || str_empty host
     || (253 <? slen host)%Z
     || parses_as_ip host
     || (negb allow_test_loopback && (String.eqb host "localhost" || ends_with ".localhost" host))
     || ends_with ".local" host
     || ends_with ".internal" host
     || (port =? 0)%Z
     || negb (valid_exact_path exact_path)
     || negb (all_bytes (fun b => is_lower b || is_digit b || existsb (Ascii.eqb b) ["."; "-"]%char) host)
  then Err InvalidInput
  else Ok {| rule_scheme := scheme; rule_host := host; rule_port := port;
             rule_exact_path := exact_path; public_network := public_network;
             allow_client_disclosure := allow_client_disclosure |}.

Definition DirectDisclosureRule_new (scheme host : string) (port : Z) (exact_path : string)
    (public_network allow_client_disclosure : bool)
    : result PlannerRejectionCode DirectDisclosureRule :=
  DirectDisclosureRule_new_inner scheme host port exact_path public_network
    allow_client_disclosure false.

Definition rule_permits (r : DirectDisclosureRule) (u : Url) : bool :=
  public_network r
  && allow_client_disclosure r
  && String.eqb (rule_scheme r) (u_scheme u)
  && is_some_and (fun h => String.eqb (rule_host r) (to_lower (trim_end_char "."%char h))) (u_host u)
  && (rule_port r =? default 0 (u_port_or_known_default u))%Z
  && String.eqb (rule_exact_path r) (u_path u).

Record PlannerPolicy := {
  client_direct_enabled : bool;
  relay_enabled : bool;
  remux_enabled : bool;
  relay_capacity_available : bool;
  remux_capacity_available : bool;
  protected_egress_mode : EgressPolicyMode;
  protected_egress_ready : bool;
  allow_private_lan_sources : bool;
  provider_private_network_permission : bool;
  native_dash_relay_enabled : bool;
  rtmp_remux_enabled : bool;
  srt_remux_enabled : bool;
  disclosure_rules : list DirectDisclosureRule;
}.

Definition PlannerPolicy_validate (p : PlannerPolicy) : bool :=
  (Z.of_nat (length (disclosure_rules p)) <=? 256)%Z
  && (negb (remux_enabled p) || relay_enabled p)
  && (negb (native_dash_relay_enabled p) || relay_enabled p)
  && (negb (rtmp_remux_enabled p) || remux_enabled p)
  && (negb (srt_remux_enabled p) || remux_enabled p).

Record PlaybackRequirements := { require_time_shift : bool; require_server_delivery : bool }.

Record PlannerInput := {
  sources : ResolvedSources;
  client : ClientCapabilities;
  policy : PlannerPolicy;
  requirements : PlaybackRequirements;
  now : instant;
}.

Record CandidatePlan := {
  cand_mode : DeliveryMode;
  cand_reason : PlannerReason;
  cand_egress : option EgressMode;
  cand_remux_profile : option RemuxProfile;
  cand_token_policy : TokenPolicy;
}.

(** ** Evaluation of one source *)
Definition direct_constraint (source : SourceDescriptor) (u : Url) (p : PlannerPolicy)
    (r : PlaybackRequirements) : option PlannerReason :=
  if private_network source then Some PrivateNetworkRequiresRelay else
  match protected_egress_mode p with
  | RequireProtected => Some ProtectedEgressRequiresRelay
  | PreferProtected => Some ProtectedEgressPreferredRelay
  | Off =>
      if bool_decide (server_egress source = Required) then Some ProviderServerEgressRequiresRelay
      else if bool_decide (server_egress source = Preferred) then Some ProviderServerEgressPreferredRelay
      else if negb (bool_decide (request_headers source = ∅)) then Some SensitiveHeadersRequireRelay
      else if negb (bool_decide (length (cookies source) = 0)) then Some SensitiveCookiesRequireRelay
      else if is_some_b (origin source) then Some SensitiveOriginRequireRelay
      else if is_some_b (referer source) then Some SensitiveRefererRequireRelay
      else if negb (String.eqb (u_scheme u) "https")
              || negb (str_empty (u_username u))
              || is_some_b (u_password u)
              || is_some_b (u_query u)
              || is_some_b (u_fragment u) then Some SensitiveUrlRequireRelay
      else if is_some_b (refresh_handle source) || is_some_b (expires_at source)
           then Some RefreshHandleRequiresRelay
      else if negb (bool_decide (client_disclosure source = Public))
           then Some ProviderServerOnlyRequiresRelay
      else if negb (existsb (fun rule => rule_permits rule u) (disclosure_rules p))
           then Some DisclosureRuleMissingRequiresRelay
      else if require_server_delivery r then Some DirectRecoveryRequiresServer
      else if negb (client_direct_enabled p) then Some DirectDisabledRequiresRelay
      else None
  end.

Definition relay_supported (p : StreamProtocol) (policy : PlannerPolicy) : bool :=
  match p with
  | Hls | HttpProgressive | MpegTs => true
  | Dash => native_dash_relay_enabled policy
  | Rtmp | Srt => false
  end.

Definition remux_protocol_possible (p : StreamProtocol) (policy : PlannerPolicy) : bool :=
  match p with
  | Dash | MpegTs => true
  | Rtmp => rtmp_remux_enabled policy
  | Srt => srt_remux_enabled policy
  | Hls | HttpProgressive => false
  end.

Definition source_egress (source : SourceDescriptor) (policy : PlannerPolicy) : EgressMode :=
  if private_network source then PrivateLan
  else if negb (bool_decide (protected_egress_mode policy = Off)) then Protected
  else ServerDefault.

Definition copy_compatible (source : SourceDescriptor) : bool :=
  is_none_or (fun m =>
      is_none_or (fun c => bool_decide (normalize_name c ∈ ["h264"; "hevc"; "h265"])) (video_codec m)
      && is_none_or (fun c => bool_decide (normalize_name c ∈ ["aac"; "ac3"; "eac3"; "mp3"]))
           (audio_codec m))
    (media source).

Definition remux_profile_for (p : StreamProtocol) (policy : PlannerPolicy) : option RemuxProfile :=
  match p with
  | Dash => Some DashToHlsCopy
  | MpegTs => Some MpegTsToHlsCopy
  | Rtmp => if rtmp_remux_enabled policy then Some RtmpToHlsCopy else None
  | Srt => if srt_remux_enabled policy then Some SrtToHlsCopy else None
  | _ => None
  end.

Definition plan_remux (source : SourceDescriptor) (input : PlannerInput)
    (direct_protocol direct_container : bool) : result PlannerRejectionCode CandidatePlan :=
  _ ← reject_if (negb (remux_enabled (policy input))) RemuxDisabled;
  _ ← reject_if (negb (remux_capacity_available (policy input))) RemuxCapacity;
  _ ← reject_if (negb (supports_protocol (client input) Hls)) ClientProtocolUnsupported;
  _ ← reject_if (negb (supports_container (client input) (Some "mpegts"))) ClientContainerUnsupported;
  _ ← reject_if (negb (copy_compatible source)) RemuxProfileUnsupported;
  profile ← ok_or (remux_profile_for (protocol source) (policy input)) RemuxProfileUnsupported;
  Ok {| cand_mode := ServerRemux;
        cand_reason := if direct_protocol && negb direct_container
                       then UnsupportedContainerRequiresRemux else ClientProtocolRequiresRemux;
        cand_egress := Some (source_egress source (policy input));
        cand_remux_profile := Some profile;
        cand_token_policy := HeaderBearer |}.

(** The checks of [evaluate_source] before any delivery mode is considered. *)
Definition evaluate_checks (source : SourceDescriptor) (input : PlannerInput)
    : result PlannerRejectionCode Url :=
  u ← ok_or (Url_parse (url source)) MalformedDescriptor;
  _ ← reject_if (negb (bool_decide (u_scheme u ∈ expected_scheme (protocol source)))) ProtocolMismatch;
  _ ← reject_if (is_some_and (fun e => e <=? now input)%Z (expires_at source)) DescriptorExpired;
  _ ← reject_if (require_time_shift (requirements input) && negb (available (time_shift source)))
        TimeShiftUnavailable;
  _ ← reject_if (private_network source
                 && negb (allow_private_lan_sources (policy input)
                          && provider_private_network_permission (policy input)))
        PrivateNetworkForbidden;
  _ ← reject_if (negb (private_network source)
                 && negb (bool_decide (protected_egress_mode (policy input) = Off))
                 && negb (protected_egress_ready (policy input)))
        ProtectedEgressUnavailable;
  _ ← reject_if (negb (supports_codecs (client input) source)) ClientCodecUnsupported;
  Ok u.

Definition evaluate_source (source : SourceDescriptor) (input : PlannerInput)
    : result PlannerRejectionCode CandidatePlan :=
  u ← evaluate_checks source input;
  let direct := direct_constraint source u (policy input) (requirements input) in
  let direct_protocol := supports_protocol (client input) (protocol source) in
  let direct_container := supports_container (client input) (media source ≫= container) in
  if is_none_b direct && direct_protocol && direct_container then
    Ok {| cand_mode := ClientDirect; cand_reason := PublicCompatibleDirect;
          cand_egress := None; cand_remux_profile := None; cand_token_policy := NoToken |}
  else
  let relay_reason := default CompatibleServerRelay direct in
  if relay_supported (protocol source) (policy input) && direct_protocol && direct_container then
    _ ← reject_if (negb (relay_enabled (policy input))) RelayDisabled;
    _ ← reject_if (negb (relay_capacity_available (policy input))) RelayCapacity;
    Ok {| cand_mode := ServerRelay; cand_reason := relay_reason;
          cand_egress := Some (source_egress source (policy input));
          cand_remux_profile := None; cand_token_policy := HeaderBearer |}
  else
  _ ← reject_if (negb direct_protocol && negb (remux_protocol_possible (protocol source) (policy input)))
        ClientProtocolUnsupported;
  _ ← reject_if (direct_protocol && negb direct_container
                 && negb (remux_protocol_possible (protocol source) (policy input)))
        ClientContainerUnsupported;
  plan_remux source input direct_protocol direct_container.

(** ** The plan: first deliverable source, later ones as fallbacks *)
Record plan_scan := {
  scan_selected : option (nat * CandidatePlan);
  scan_viable : list nat;
  scan_rejected : list CandidateRejection;
}.

Definition scan_source (input : PlannerInput) (st : plan_scan) (entry : nat * SourceDescriptor)
    : plan_scan :=
  let '(i, source) := entry in
  match evaluate_source source input with
  | Ok candidate =>
      match scan_selected st with
      | None => {| scan_selected := Some (i, candidate); scan_viable := scan_viable st;
                   scan_rejected := scan_rejected st |}
      | Some _ => {| scan_selected := scan_selected st; scan_viable := scan_viable st ++ [i];
                     scan_rejected := scan_rejected st |}
      end
  | Err code =>
      {| scan_selected := scan_selected st; scan_viable := scan_viable st;
         scan_rejected := scan_rejected st ++ [{| rej_source_index := i; rej_code := code |}] |}
  end.

Definition scan_sources (input : PlannerInput) (entries : list (nat * SourceDescriptor)) : plan_scan :=
  fold_left (scan_source input) entries
    {| scan_selected := None; scan_viable := []; scan_rejected := [] |}.

Definition candidate_sources (r : ResolvedSources) : list SourceDescriptor :=
  descriptor r :: alternatives r.

Definition plan_delivery (input : PlannerInput) : result PlannerRejection DeliveryPlan :=
  if negb (ClientCapabilities_validate (client input))
     || negb (PlannerPolicy_validate (policy input))
     || (15 <? Z.of_nat (length (alternatives (sources input))))%Z
  then Err {| rejection_code := InvalidInput; rejection_candidates := [] |}
  else
  let st := scan_sources input (imap pair (candidate_sources (sources input))) in
  match scan_selected st with
  | None =>
      Err {| rejection_code := from_option rej_code InvalidInput (head (scan_rejected st));
             rejection_candidates := scan_rejected st |}
  | Some (i, c) =>
      Ok {| plan_mode := cand_mode c; plan_reason := cand_reason c; plan_egress := cand_egress c;
            selected_source_index := i; plan_remux_profile := cand_remux_profile c;
            plan_token_policy := cand_token_policy c; fallback_candidates := scan_viable st;
            rejected_candidates := scan_rejected st |}
  end.
End planner.

(** ** Specification: the deliverable and the undeliverable candidates, in order *)
Section planner_proofs.
Context `{UrlOps}.

Definition deliverable (input : PlannerInput) (e : nat * SourceDescriptor) : option (nat * CandidatePlan) :=
  match evaluate_source e.2 input with Ok c => Some (e.1, c) | Err _ => None end.
Definition undeliverable (input : PlannerInput) (e : nat * SourceDescriptor) : option CandidateRejection :=
  match evaluate_source e.2 input with
  | Ok _ => None
  | Err code => Some {| rej_source_index := e.1; rej_code := code |}
  end.

Ltac case_source input i s :=
  let Hd := fresh "Hd" in let Hu := fresh "Hu" in let c := fresh "c" in let code := fresh "code" in
  assert (Hd : deliverable input (i, s) =
    match evaluate_source s input with Ok c => Some (i, c) | Err _ => None end) by done;
  assert (Hu : undeliverable input (i, s) =
    match evaluate_source s input with
    | Ok _ => None
    | Err code => Some {| rej_source_index := i; rej_code := code |}
    end) by done;
  rewrite ?Hd, ?Hu; clear Hd Hu; destruct (evaluate_source s input) as [c|code]; cbn.

Lemma scan_sources_selected input es p v r :
  fold_left (scan_source input) es
    {| scan_selected := Some p; scan_viable := v; scan_rejected := r |} =
  {| scan_selected := Some p; scan_viable := v ++ (omap (deliverable input) es).*1;
     scan_rejected := r ++ omap (undeliverable input) es |}.
Proof.
  revert v r. induction es as [|[i s] es IH]; intros v r; cbn; [by rewrite !app_nil_r|].
  case_source input i s; rewrite IH; by rewrite <- !app_assoc.
Qed.

(** The loop of [plan_delivery] computes these two lists. *)
Lemma scan_sources_spec input es :
  scan_sources input es =
  {| scan_selected := head (omap (deliverable input) es);
     scan_viable := (tail (omap (deliverable input) es)).*1;
     scan_rejected := omap (undeliverable input) es |}.
Proof.
  unfold scan_sources. change (omap (undeliverable input) es) with ([] ++ omap (undeliverable input) es).
  generalize (@nil CandidateRejection) as r.
  induction es as [|[i s] es IH]; intros r; cbn; [by rewrite app_nil_r|].
  case_source input i s.
  - by rewrite scan_sources_selected.
  - rewrite IH. by rewrite <- app_assoc.
Qed.

Lemma scan_entries_lookup (srcs : list SourceDescriptor) e :
  e ∈ imap pair srcs <-> srcs !! e.1 = Some e.2.
Proof.
  rewrite list_elem_of_lookup. split.
  - intros [i Hi]. rewrite list_lookup_imap in Hi. destruct (srcs !! i) eqn:E; naive_solver.
  - intros He. exists e.1. rewrite list_lookup_imap, He. by destruct e.
Qed.

Lemma deliverable_elem input srcs i c :
  (i, c) ∈ omap (deliverable input) (imap pair srcs) <->
  exists s, srcs !! i = Some s /\ evaluate_source s input = Ok c.
Proof.
  rewrite list_elem_of_omap. unfold deliverable. setoid_rewrite scan_entries_lookup. split.
  - intros ([j s] & Hs & Hc). cbn in *. destruct (evaluate_source s input) eqn:E; naive_solver.
  - intros (s & Hs & Hc). exists (i, s). cbn. by rewrite Hc.
Qed.

Lemma undeliverable_elem input srcs i code :
  {| rej_source_index := i; rej_code := code |} ∈ omap (undeliverable input) (imap pair srcs) <->
  exists s, srcs !! i = Some s /\ evaluate_source s input = Err code.
Proof.
  rewrite list_elem_of_omap. unfold undeliverable. setoid_rewrite scan_entries_lookup. split.
  - intros ([j s] & Hs & Hc). cbn in *. destruct (evaluate_source s input) eqn:E; naive_solver.
  - intros (s & Hs & Hc). exists (i, s). cbn. by rewrite Hc.
Qed.

(** The deliverable indices come in increasing order. *)
Lemma deliverable_sorted_gen input srcs k :
  StronglySorted lt (omap (deliverable input) (imap (fun i => pair (k + i)) srcs)).*1 /\
  Forall (le k) (omap (deliverable input) (imap (fun i => pair (k + i)) srcs)).*1.
Proof.
  revert k. induction srcs as [|s srcs IH]; intros k; [split; constructor|].
  rewrite imap_cons. cbn -[Nat.add].
  assert (imap (fun i => pair (k + S i)) srcs = imap (fun i => pair (S k + i)) srcs) as Himap
    by (apply imap_ext; intros; f_equal; lia).
  change ((λ i, pair (k + i)) ∘ S) with (fun i => @pair nat SourceDescriptor (k + S i)).
  rewrite Himap. destruct (IH (S k)) as [Hs Hf].
  assert (Forall (le k) (omap (deliverable input) (imap (λ i, pair (S k + i)) srcs)).*1)
    by (eapply Forall_impl; [exact Hf|cbn; lia]).
  rewrite Nat.add_0_r. case_source input k s; [|done].
  split; constructor; done || lia.
Qed.

Lemma deliverable_sorted input srcs :
  StronglySorted lt (omap (deliverable input) (imap pair srcs)).*1.
Proof. exact (proj1 (deliverable_sorted_gen input srcs 0)). Qed.

(** What [plan_delivery] returns, in terms of the two lists. *)
Lemma plan_delivery_ok input plan :
  plan_delivery input = Ok plan ->
  let srcs := candidate_sources (sources input) in
  ClientCapabilities_validate (client input) = true /\
  PlannerPolicy_validate (policy input) = true /\
  exists c rest,
    omap (deliverable input) (imap pair srcs) = (selected_source_index plan, c) :: rest /\
    fallback_candidates plan = rest.*1 /\
    rejected_candidates plan = omap (undeliverable input) (imap pair srcs) /\
    plan_mode plan = cand_mode c /\ plan_reason plan = cand_reason c /\
    plan_egress plan = cand_egress c /\ plan_remux_profile plan = cand_remux_profile c /\
    plan_token_policy plan = cand_token_policy c.
Proof.
  unfold plan_delivery. destruct (_ || _ || _) eqn:Hin; [done|]. bool_hyps.
  rewrite scan_sources_spec; cbn [scan_selected scan_viable scan_rejected].
  destruct (omap (deliverable input) _) as [|[i c] rest] eqn:E; cbn; [done|].
  intros [= <-]; cbn. split_and!; try done. exists c, rest. by split_and!.
Qed.

Lemma plan_selected_source input plan :
  plan_delivery input = Ok plan ->
  exists s c, candidate_sources (sources input) !! selected_source_index plan = Some s /\
    evaluate_source s input = Ok c /\
    plan_mode plan = cand_mode c /\ plan_reason plan = cand_reason c /\
    plan_egress plan = cand_egress c /\ plan_remux_profile plan = cand_remux_profile c /\
    plan_token_policy plan = cand_token_policy c.
Proof.
  intros (_ & _ & c & rest & Hd & _ & _ & Hrest)%plan_delivery_ok.
  assert ((selected_source_index plan, c) ∈
    omap (deliverable input) (imap pair (candidate_sources (sources input)))) as Hin
    by (rewrite Hd; left).
  apply deliverable_elem in Hin as (s & ? & ?). by exists s, c.
Qed.

(** ** Properties of the evaluation of a source *)
Lemma evaluate_checks_ok s input u :
  evaluate_checks s input = Ok u ->
  Url_parse (url s) = Some u /\
  u_scheme u ∈ expected_scheme (protocol s) /\
  (forall e, expires_at s = Some e -> (now input < e)%Z) /\
  (require_time_shift (requirements input) = true -> available (time_shift s) = true) /\
  (private_network s = true -> allow_private_lan_sources (policy input) = true /\
     provider_private_network_permission (policy input) = true) /\
  (private_network s = false -> protected_egress_mode (policy input) <> Off ->
     protected_egress_ready (policy input) = true) /\
  supports_codecs (client input) s = true.
Proof.
  unfold evaluate_checks. intros Hc. ok_inv. bool_hyps.
  repeat match goal with
  | H : _ && _ = false |- _ => apply andb_false_iff in H
  end.
  split_and!; try done.
  - intros e He. rewrite He in *. cbn in *. by bool_hyps.
  - intros Hr. rewrite Hr in *. by destruct (available _); naive_solver.
  - intros Hp. rewrite Hp in *. destruct (allow_private_lan_sources _),
      (provider_private_network_permission _); naive_solver.
  - intros Hp Ho. rewrite Hp in *. rewrite bool_decide_eq_false_2 in * by done.
    destruct (protected_egress_ready _); naive_solver.
Qed.

Lemma direct_constraint_none s u p r :
  direct_constraint s u p r = None ->
  private_network s = false /\ protected_egress_mode p = Off /\ server_egress s = NotRequired /\
  request_headers s = ∅ /\ cookies s = [] /\ origin s = None /\ referer s = None /\
  u_scheme u = "https" /\ u_username u = "" /\ u_password u = None /\
  u_query u = None /\ u_fragment u = None /\
  refresh_handle s = None /\ expires_at s = None /\ client_disclosure s = Public /\
  (exists rule, rule ∈ disclosure_rules p /\ rule_permits rule u = true) /\
  require_server_delivery r = false /\ client_direct_enabled p = true.
Proof.
  unfold direct_constraint. intros Hd.
  repeat case_match; try discriminate. bool_hyps.
  repeat match goal with
  | H : is_some_b ?o = false |- _ => destruct o eqn:?; [discriminate H|clear H]
  | H : str_empty ?x = true |- _ => destruct x eqn:?; [clear H|discriminate H]
  | H : length ?l = 0 |- _ => apply length_zero_iff_nil in H
  | H : existsb _ _ = true |- _ => apply existsb_exists in H as (? & ?%list_elem_of_In & ?)
  | H : String.eqb _ _ = true |- _ => apply String.eqb_eq in H
  end.
  split_and!; try done; [destruct (server_egress s); done|by eexists].
Qed.

(** A source that is served directly passed every check and has no constraint. *)
Lemma evaluate_source_ok s input c :
  evaluate_source s input = Ok c ->
  exists u, evaluate_checks s input = Ok u /\
  match cand_mode c with
  | ClientDirect =>
      direct_constraint s u (policy input) (requirements input) = None /\
      supports_protocol (client input) (protocol s) = true /\
      supports_container (client input) (media s ≫= container) = true /\
      c = {| cand_mode := ClientDirect; cand_reason := PublicCompatibleDirect;
             cand_egress := None; cand_remux_profile := None; cand_token_policy := NoToken |}
  | ServerRelay =>
      relay_enabled (policy input) = true /\ relay_capacity_available (policy input) = true /\
      relay_supported (protocol s) (policy input) = true /\
      supports_protocol (client input) (protocol s) = true /\
      supports_container (client input) (media s ≫= container) = true /\
      cand_egress c = Some (source_egress s (policy input)) /\
      cand_remux_profile c = None /\ cand_token_policy c = HeaderBearer
  | ServerRemux =>
      remux_enabled (policy input) = true /\ remux_capacity_available (policy input) = true /\
      supports_protocol (client input) Hls = true /\ copy_compatible s = true /\
      (exists p, remux_profile_for (protocol s) (policy input) = Some p /\
         cand_remux_profile c = Some p) /\
      cand_egress c = Some (source_egress s (policy input)) /\ cand_token_policy c = HeaderBearer
  end.
Proof.
  unfold evaluate_source. intros (u & Hu & Hc)%result_bind_ok. exists u. split; [done|].
  destruct (is_none_b _ && _ && _) eqn:Hdirect.
  { bool_hyps. ok_inv; cbn. split_and!; try done. by destruct (direct_constraint _ _ _ _). }
  destruct (relay_supported _ _ && _ && _) eqn:Hrelay.
  { ok_inv; cbn. bool_hyps. by split_and!. }
  unfold plan_remux in Hc. ok_inv; cbn. bool_hyps. split_and!; try done. by eexists.
Qed.

(** C37: [plan_delivery] picks the first deliverable source.  The selected index is the least
    index whose source [evaluate_source] accepts and the plan carries that candidate; the
    fallbacks are exactly the other accepted indices, in increasing order; the rejections are
    exactly the refused sources with their codes. *)
Theorem plan_delivery_first_deliverable input plan :
  plan_delivery input = Ok plan ->
  let srcs := candidate_sources (sources input) in
  (exists s c, srcs !! selected_source_index plan = Some s /\ evaluate_source s input = Ok c /\
     plan_mode plan = cand_mode c /\ plan_reason plan = cand_reason c /\
     plan_egress plan = cand_egress c /\ plan_remux_profile plan = cand_remux_profile c /\
     plan_token_policy plan = cand_token_policy c) /\
  StronglySorted lt (selected_source_index plan :: fallback_candidates plan) /\
  (forall j, j ∈ selected_source_index plan :: fallback_candidates plan <->
     exists s c, srcs !! j = Some s /\ evaluate_source s input = Ok c) /\
  (forall j code, {| rej_source_index := j; rej_code := code |} ∈ rejected_candidates plan <->
     exists s, srcs !! j = Some s /\ evaluate_source s input = Err code).
Proof.
  intros Hp srcs. split; [by apply plan_selected_source|].
  apply plan_delivery_ok in Hp as (_ & _ & c & rest & Hd & Hf & Hr & _). fold srcs in Hd, Hr.
  assert (selected_source_index plan :: fallback_candidates plan =
    (omap (deliverable input) (imap pair srcs)).*1) as -> by (by rewrite Hd, Hf).
  split_and!.
  - apply deliverable_sorted.
  - intros j. rewrite list_elem_of_fmap. split.
    + intros ([i c'] & -> & (s & ? & ?)%deliverable_elem). by exists s, c'.
    + intros (s & c' & ? & ?). exists (j, c'). split; [done|]. apply deliverable_elem. by exists s.
  - intros j code. rewrite Hr. apply undeliverable_elem.
Qed.

(** [plan_delivery] finds a plan exactly when it should: for a valid request with at most
    fifteen alternatives it fails only when every source is refused, and then reports the code of
    the primary source; it reports [InvalidInput] without looking at the sources otherwise. *)
Theorem plan_delivery_complete input :
  match plan_delivery input with
  | Ok _ =>
      ClientCapabilities_validate (client input) = true /\ PlannerPolicy_validate (policy input) = true /\
      exists s, s ∈ candidate_sources (sources input) /\ is_ok (evaluate_source s input) = true
  | Err e =>
      (ClientCapabilities_validate (client input) && PlannerPolicy_validate (policy input)
         && (Z.of_nat (length (alternatives (sources input))) <=? 15)%Z = false /\
       e = {| rejection_code := InvalidInput; rejection_candidates := [] |}) \/
      ((forall s, s ∈ candidate_sources (sources input) -> is_ok (evaluate_source s input) = false) /\
       evaluate_source (descriptor (sources input)) input = Err (rejection_code e))
  end.
Proof.
  destruct (plan_delivery input) as [plan|e] eqn:Hp.
  - pose proof (plan_delivery_ok _ _ Hp) as (? & ? & _). split; [done|]. split; [done|].
    apply plan_selected_source in Hp as (s & c & Hs & Hc & _). exists s.
    rewrite Hc. split; [by eapply list_elem_of_lookup_2|done].
  - revert Hp. unfold plan_delivery. destruct (_ || _ || _) eqn:Hin.
    { intros [= <-]. left. split; [|done].
      destruct (ClientCapabilities_validate _), (PlannerPolicy_validate _); cbn in *; lia. }
    rewrite scan_sources_spec; cbn [scan_selected scan_viable scan_rejected].
    destruct (omap (deliverable input) _) as [|[i c] rest] eqn:E; cbn -[omap imap]; [|done].
    intros [= <-]. right.
    assert (forall i s, candidate_sources (sources input) !! i = Some s ->
      is_ok (evaluate_source s input) = false) as Hall.
    { intros i s Hs. destruct (evaluate_source s input) as [c|] eqn:Hc; [|done].
      assert ((i, c) ∈ omap (deliverable input) (imap pair (candidate_sources (sources input))))
        as Hin' by (apply deliverable_elem; by exists s).
      rewrite E in Hin'. by apply elem_of_nil in Hin'. }
    split; [intros s [i Hs]%list_elem_of_lookup; by eapply Hall|].
    specialize (Hall 0 _ eq_refl). cbn.
    unfold undeliverable at 1; cbn.
    destruct (evaluate_source _ input) as [|code] eqn:Hc; [done|]. done.
Qed.

(** Direct delivery discloses nothing.  When the plan sends the client straight to the
    source, that source is public and unexpiring, carries no header, cookie, origin, referer or
    refresh handle, its URL is https without credentials, query or fragment, an administrator
    rule for a public network discloses exactly this URL, protected egress is off, direct
    delivery is enabled and the client supports the protocol; no token and no egress is planned. *)
Theorem direct_delivery_discloses_nothing input plan :
  plan_delivery input = Ok plan -> plan_mode plan = ClientDirect ->
  exists s u, candidate_sources (sources input) !! selected_source_index plan = Some s /\
    Url_parse (url s) = Some u /\
    u_scheme u = "https" /\ u_username u = "" /\ u_password u = None /\
    u_query u = None /\ u_fragment u = None /\
    private_network s = false /\ request_headers s = ∅ /\ cookies s = [] /\
    origin s = None /\ referer s = None /\ refresh_handle s = None /\ expires_at s = None /\
    client_disclosure s = Public /\ server_egress s = NotRequired /\
    protected_egress_mode (policy input) = Off /\
    client_direct_enabled (policy input) = true /\
    require_server_delivery (requirements input) = false /\
    (exists rule, rule ∈ disclosure_rules (policy input) /\ rule_permits rule u = true) /\
    supports_protocol (client input) (protocol s) = true /\
    plan_egress plan = None /\ plan_token_policy plan = NoToken /\ plan_remux_profile plan = None.
Proof.
  intros (s & c & Hs & Hc & Hm & _ & He & Hr & Ht)%plan_selected_source Hdir.
  apply evaluate_source_ok in Hc as (u & Hu & Hc). rewrite <- Hm, Hdir in Hc.
  destruct Hc as (Hd & ? & _ & ->). apply evaluate_checks_ok in Hu as (Hu & _).
  apply direct_constraint_none in Hd. cbn in *. exists s, u. destruct_and! Hd. by split_and!.
Qed.

(** Egress of server deliveries.  A plan that the server delivers carries a bearer token and
    the egress of its source: the private network only with both LAN permissions, protected
    egress whenever the policy asks for it and only when it is ready, the default otherwise; a
    remux plan names the profile of its protocol and copies only compatible codecs. *)
Theorem server_delivery_egress input plan s :
  plan_delivery input = Ok plan -> plan_mode plan <> ClientDirect ->
  candidate_sources (sources input) !! selected_source_index plan = Some s ->
  plan_token_policy plan = HeaderBearer /\
  plan_egress plan = Some (source_egress s (policy input)) /\
  (plan_egress plan = Some PrivateLan -> allow_private_lan_sources (policy input) = true /\
     provider_private_network_permission (policy input) = true) /\
  (plan_egress plan = Some Protected <->
     private_network s = false /\ protected_egress_mode (policy input) <> Off) /\
  (plan_egress plan = Some Protected -> protected_egress_ready (policy input) = true) /\
  (plan_mode plan = ServerRelay -> relay_enabled (policy input) = true /\
     relay_capacity_available (policy input) = true /\ plan_remux_profile plan = None) /\
  (plan_mode plan = ServerRemux -> remux_enabled (policy input) = true /\
     remux_capacity_available (policy input) = true /\ copy_compatible s = true /\
     is_Some (plan_remux_profile plan) /\
     plan_remux_profile plan = remux_profile_for (protocol s) (policy input)).
Proof.
  intros (s' & c & Hs & Hc & Hm & _ & He & Hr & Ht)%plan_selected_source Hdir Hs'.
  assert (s' = s) as -> by congruence.
  apply evaluate_source_ok in Hc as (u & Hu & Hc).
  apply evaluate_checks_ok in Hu as (_ & _ & _ & _ & Hp & Hprot & _).
  assert (plan_token_policy plan = HeaderBearer /\
          plan_egress plan = Some (source_egress s (policy input))) as [Htok Heg]
    by (rewrite Hm in Hdir; rewrite Ht, He; destruct (cand_mode c); [done|by destruct_and! Hc..]).
  split_and!; [done|done|..]; rewrite ?Heg; unfold source_egress.
  - intros Hl. apply Hp. destruct (private_network s); [done|]. by case_bool_decide.
  - clear. destruct (private_network s); [naive_solver|]. case_bool_decide; naive_solver.
  - intros Hl. destruct (private_network s) eqn:E; [done|]. apply Hprot; [done|].
    by case_bool_decide.
  - intros Hrelay. rewrite <- Hm, Hrelay in Hc. destruct_and! Hc. split_and!; congruence.
  - intros Hremux. rewrite <- Hm, Hremux in Hc. destruct Hc as (? & ? & ? & ? & (p & ? & ?) & _).
    split_and!; try done; [exists p|]; congruence.
Qed.
End planner_proofs.

(** ** Witnesses: a public source with a disclosure rule, and the same with protected egress *)
Definition demo_url : Url :=
  {| u_scheme := "https"; u_username := ""; u_password := None; u_host := Some "cdn.example.com";
     u_port_or_known_default := Some 443%Z; u_path := "/live.m3u8"; u_query := None;
     u_fragment := None; u_as_str := "https://cdn.example.com/live.m3u8" |}.
Definition demo_url_ops : UrlOps :=
  {| Url_parse s := if String.eqb s (u_as_str demo_url) then Some demo_url else None;
     Url_join _ _ := None |}.
Definition demo_source : SourceDescriptor :=
  {| stream_id := "s1"; label := "Main"; quality := None; language := None; priority := 0;
     protocol := Hls; url := u_as_str demo_url; request_headers := ∅; cookies := [];
     origin := None; referer := None; credential_authorities := []; client_disclosure := Public;
     expires_at := None; refresh_handle := None; server_egress := NotRequired;
     private_network := false; time_shift := {| available := false; window_seconds := None |};
     media := None |}.
Definition demo_policy (m : EgressPolicyMode) : PlannerPolicy :=
  {| client_direct_enabled := true; relay_enabled := true; remux_enabled := true;
     relay_capacity_available := true; remux_capacity_available := true;
     protected_egress_mode := m; protected_egress_ready := true;
     allow_private_lan_sources := false; provider_private_network_permission := false;
     native_dash_relay_enabled := false; rtmp_remux_enabled := false; srt_remux_enabled := false;
     disclosure_rules := [{| rule_scheme := "https"; rule_host := "cdn.example.com"; rule_port := 443;
       rule_exact_path := "/live.m3u8"; public_network := true; allow_client_disclosure := true |}] |}.
Definition demo_input (m : EgressPolicyMode) : PlannerInput :=
  {| sources := {| descriptor := demo_source; alternatives := [demo_source] |};
     client := {| protocols := {[Hls]}; containers := {["mpegts"]}; video_codecs := {["h264"]};
                  audio_codecs := {["aac"]} |};
     policy := demo_policy m;
     requirements := {| require_time_shift := false; require_server_delivery := false |};
     now := 1000 |}.
Definition demo_plan (mode : DeliveryMode) (reason : PlannerReason) (egress : option EgressMode)
    (token : TokenPolicy) : DeliveryPlan :=
  {| plan_mode := mode; plan_reason := reason; plan_egress := egress; selected_source_index := 0;
     plan_remux_profile := None; plan_token_policy := token; fallback_candidates := [1];
     rejected_candidates := [] |}.

Lemma demo_direct :
  @plan_delivery demo_url_ops (demo_input Off) =
  Ok (demo_plan ClientDirect PublicCompatibleDirect None NoToken).
Proof. vm_compute. reflexivity. Qed.
Lemma demo_protected :
  @plan_delivery demo_url_ops (demo_input RequireProtected) =
  Ok (demo_plan ServerRelay ProtectedEgressRequiresRelay (Some Protected) HeaderBearer).
Proof. vm_compute. reflexivity. Qed.

Lemma plan_delivery_first_deliverable_witness :
  StronglySorted lt [0; 1].
Proof.
  exact (proj1 (proj2 (@plan_delivery_first_deliverable demo_url_ops _ _ demo_direct))).
Defined.

Lemma direct_delivery_discloses_nothing_witness :
  exists s u, candidate_sources (sources (demo_input Off)) !! 0 = Some s /\
    @Url_parse demo_url_ops (url s) = Some u.
Proof.
  destruct (@direct_delivery_discloses_nothing demo_url_ops _ _ demo_direct eq_refl)
    as (s & u & Hs & Hu & _).
  exists s, u. split; [exact Hs|exact Hu].
Defined.

Lemma server_delivery_egress_witness :
  plan_egress (demo_plan ServerRelay ProtectedEgressRequiresRelay (Some Protected) HeaderBearer) =
  Some (source_egress demo_source (demo_policy RequireProtected)).
Proof.
  refine (proj1 (proj2 (@server_delivery_egress demo_url_ops (demo_input RequireProtected) _
    demo_source demo_protected _ eq_refl))).
  discriminate.
Defined.
