(* ===== verification/Recovery.v ===== *)
(** * Recovery state of a session (src/src/live/session/recovery.rs)

    A session remembers which sources it has tried, which ones failed recently and when it last
    changed source.  Each operation is a method on [&mut self] that may return early: it maps the
    state to a result and the state left behind, also on an error. *)
From S2P Require Import Prelude LiveContract SessionTypes Planner.

Definition MAX_STORED_EVENTS : nat := 32.
Definition MAX_STORED_SOURCE_HEALTH : nat := 16.

Inductive RecoveryAction := Refresh | Failover.
#[export] Instance RecoveryAction_eq_dec : EqDecision RecoveryAction.
Proof. solve_decision. Defined.

Module RecoveryAction.
Definition state (a : RecoveryAction) : string :=
  match a with Refresh => "refreshing" | Failover => "failing_over" end.
Definition success_revision (a : RecoveryAction) (expected_revision : Z) : option Z :=
  i64_checked_add expected_revision (match a with Refresh => 2 | Failover => 3 end).
Definition failure_revision (a : RecoveryAction) (expected_revision : Z) : option Z :=
  i64_checked_add expected_revision 2.
End RecoveryAction.

Inductive RecoveryReason :=
| ExpiryThreshold | UpstreamUnauthorized | UpstreamForbidden | UpstreamGone
| Transport | Stalled | ManualSourceSwitch.
Definition RecoveryReason_as_str (r : RecoveryReason) : string :=
  match r with
  | ExpiryThreshold => "expiry_threshold"
  | UpstreamUnauthorized => "upstream_unauthorized"
  | UpstreamForbidden => "upstream_forbidden"
  | UpstreamGone => "upstream_gone"
  | Transport => "transport"
  | Stalled => "stalled"
  | ManualSourceSwitch => "manual_source_switch"
  end.

Inductive RecoveryOutcome := Succeeded | OutcomeFailed.
Definition RecoveryOutcome_as_str (o : RecoveryOutcome) : string :=
  match o with Succeeded => "succeeded" | OutcomeFailed => "failed" end.

Inductive RequestedEgressMode := Inherit | EgressOff | EgressPreferProtected | EgressRequireProtected.

Record RecoveryEvent := {
  at_ : instant;
  event_revision : Z;
  action : RecoveryAction;
  reason : RecoveryReason;
  outcome : RecoveryOutcome;
}.

Record SourceHealth := {
  source_id : string;
  failures : Z;
  cooldown_until : instant;
}.

Record StoredRecoveryState := {
  rec_client : option ClientCapabilities;
  requested_egress : RequestedEgressMode;
  initial_source_id : option string;
  attempted_source_ids : list string;
  source_health : list SourceHealth;
  events : list RecoveryEvent;
}.

Definition StoredRecoveryState_default : StoredRecoveryState :=
  {| rec_client := None; requested_egress := Inherit; initial_source_id := None;
     attempted_source_ids := []; source_health := []; events := [] |}.

(** [LiveRecoveryLimits] and the policy read from it (durations in nanoseconds). *)
Record LiveRecoveryLimits := {
  lim_max_sources : Z;
  lim_max_transitions : Z;
  lim_window_seconds : Z;
  lim_source_cooldown_seconds : Z;
}.
Record RecoveryPolicy := {
  max_sources : nat;
  max_transitions : nat;
  window : Z;
  source_cooldown : Z;
}.
Definition RecoveryPolicy_from (l : LiveRecoveryLimits) : RecoveryPolicy :=
  {| max_sources := Z.to_nat (lim_max_sources l);
     max_transitions := Z.to_nat (lim_max_transitions l);
     window := seconds (lim_window_seconds l);
     source_cooldown := seconds (lim_source_cooldown_seconds l) |}.

Inductive RecoveryPolicyError := RecInvalidState | TransitionLimit | SourceLimit.
#[export] Instance RecoveryPolicyError_eq_dec : EqDecision RecoveryPolicyError.
Proof. solve_decision. Defined.

Definition set_attempted (f : list string -> list string) (s : StoredRecoveryState) :=
  {| rec_client := rec_client s; requested_egress := requested_egress s;
     initial_source_id := initial_source_id s; attempted_source_ids := f (attempted_source_ids s);
     source_health := source_health s; events := events s |}.
Definition set_health (f : list SourceHealth -> list SourceHealth) (s : StoredRecoveryState) :=
  {| rec_client := rec_client s; requested_egress := requested_egress s;
     initial_source_id := initial_source_id s; attempted_source_ids := attempted_source_ids s;
     source_health := f (source_health s); events := events s |}.
Definition set_events (f : list RecoveryEvent -> list RecoveryEvent) (s : StoredRecoveryState) :=
  {| rec_client := rec_client s; requested_egress := requested_egress s;
     initial_source_id := initial_source_id s; attempted_source_ids := attempted_source_ids s;
     source_health := source_health s; events := f (events s) |}.

(** A method on [&mut self]: the state after the call, and what it returns. *)
Definition method (A : Type) : Type :=
  StoredRecoveryState -> result RecoveryPolicyError A * StoredRecoveryState.
Definition and_then {A B} (m : method A) (k : A -> method B) : method B := fun s =>
  match m s with
  | (Ok a, s') => k a s'
  | (Err e, s') => (Err e, s')
  end.
Definition modify (f : StoredRecoveryState -> StoredRecoveryState) : method unit := fun s =>
  (Ok (), f s).
Definition fail_if (b : StoredRecoveryState -> bool) (e : RecoveryPolicyError) : method unit :=
  fun s => (reject_if (b s) e, s).
Notation "m ;;; k" := (and_then m (fun _ => k)) (at level 62, right associativity).

Definition valid_source_id (value : string) : bool :=
  negb (str_empty value) && (slen value <=? 512)%Z && negb (any_control value).

Definition StoredRecoveryState_new (client : ClientCapabilities) (egress : RequestedEgressMode)
    (initial : string) : result RecoveryPolicyError StoredRecoveryState :=
  _ ← reject_if (negb (valid_source_id initial)) RecInvalidState;
  Ok {| rec_client := Some client; requested_egress := egress;
        initial_source_id := Some initial; attempted_source_ids := [initial];
        source_health := []; events := [] |}.

(** number of distinct strings: the length of the [BTreeSet] the list is collected into *)
Definition distinct (l : list string) : nat := size (list_to_set l : gset string).

Definition validate (s : StoredRecoveryState) : result RecoveryPolicyError unit :=
  if is_none_or (fun c => negb (ClientCapabilities_validate c)) (rec_client s)
     || is_none_or (fun i => negb (valid_source_id i)) (initial_source_id s)
     || (MAX_STORED_SOURCE_HEALTH <? length (attempted_source_ids s))
     || (MAX_STORED_SOURCE_HEALTH <? length (source_health s))
     || (MAX_STORED_EVENTS <? length (events s))
     || existsb (fun i => negb (valid_source_id i)) (attempted_source_ids s)
     || existsb (fun h => negb (valid_source_id (source_id h)) || (failures h =? 0)%Z) (source_health s)
     || existsb (fun e => (event_revision e <? 1)%Z) (events s)
  then Err RecInvalidState
  else if negb (distinct (attempted_source_ids s) =? length (attempted_source_ids s))
          || negb (distinct (source_id <$> source_health s) =? length (source_health s))
  then Err RecInvalidState
  else Ok ().
Definition validate_m : method unit := fun s => (validate s, s).

Definition admit_transition (now : instant) (p : RecoveryPolicy) : method unit :=
  validate_m ;;;
  modify (set_events (filter (fun e => (now - window p <=? at_ e) = true)%Z)) ;;;
  modify (set_health (filter (fun h => (now <? cooldown_until h) = true)%Z)) ;;;
  fail_if (fun s => max_transitions p <=? length (events s)) TransitionLimit.

Definition may_attempt_source (s : StoredRecoveryState) (id : string) (now : instant)
    (p : RecoveryPolicy) : result RecoveryPolicyError bool :=
  if negb (valid_source_id id) then Err RecInvalidState
  else if existsb (fun h => String.eqb (source_id h) id && (now <? cooldown_until h)%Z) (source_health s)
  then Ok false
  else Ok (existsb (fun v => String.eqb v id) (attempted_source_ids s)
           || (length (attempted_source_ids s) <? max_sources p)).

Definition track_source (id : string) (p : RecoveryPolicy) : method unit := fun s =>
  if negb (valid_source_id id) then (Err RecInvalidState, s)
  else if existsb (fun v => String.eqb v id) (attempted_source_ids s) then (Ok (), s)
  else if max_sources p <=? length (attempted_source_ids s) then (Err SourceLimit, s)
  else (Ok (), set_attempted (fun l => l ++ [id]) s).

(** the first entry with this id is updated in place, or a new one is pushed *)
Fixpoint bump_health (id : string) (until : instant) (l : list SourceHealth) : list SourceHealth :=
  match l with
  | [] => [{| source_id := id; failures := 1; cooldown_until := until |}]
  | h :: r =>
      if String.eqb (source_id h) id
      then {| source_id := source_id h; failures := u8_saturating_add (failures h) 1;
              cooldown_until := until |} :: r
      else h :: bump_health id until r
  end.

Definition mark_source_failed (id : string) (now : instant) (p : RecoveryPolicy) : method unit :=
  track_source id p ;;;
  modify (set_health (bump_health id (now + source_cooldown p))) ;;;
  validate_m.

(** [self.events.push(event)], then the oldest entries beyond [MAX_STORED_EVENTS] drained *)
Definition push_event (e : RecoveryEvent) (l : list RecoveryEvent) : list RecoveryEvent :=
  drop (length (l ++ [e]) - MAX_STORED_EVENTS) (l ++ [e]).

Definition record (act : RecoveryAction) (why : RecoveryReason) (out : RecoveryOutcome)
    (id : string) (revision : Z) (now : instant) (p : RecoveryPolicy) : method unit :=
  fail_if (fun _ => (revision <? 1)%Z || negb (valid_source_id id)) RecInvalidState ;;;
  track_source id p ;;;
  match out with
  | Succeeded => modify (set_health (filter (fun h => negb (String.eqb (source_id h) id) = true)))
  | OutcomeFailed => mark_source_failed id now p
  end ;;;
  modify (set_events (push_event {| at_ := now; event_revision := revision; action := act;
                                    reason := why; outcome := out |})) ;;;
  validate_m.

(** ** The invariant [validate] checks, as a proposition *)
Record wf (s : StoredRecoveryState) : Prop := {
  wf_client : is_some_and ClientCapabilities_validate (rec_client s) = true;
  wf_initial : is_some_and valid_source_id (initial_source_id s) = true;
  wf_attempted_len : length (attempted_source_ids s) <= MAX_STORED_SOURCE_HEALTH;
  wf_health_len : length (source_health s) <= MAX_STORED_SOURCE_HEALTH;
  wf_events_len : length (events s) <= MAX_STORED_EVENTS;
  wf_attempted : Forall (fun i => valid_source_id i = true) (attempted_source_ids s);
  wf_health : Forall (fun h => valid_source_id (source_id h) = true /\ failures h <> 0%Z) (source_health s);
  wf_events : Forall (fun e => 1 <= event_revision e)%Z (events s);
  wf_attempted_nodup : NoDup (attempted_source_ids s);
  wf_health_nodup : NoDup (source_id <$> source_health s);
}.

(** Reachable states moreover keep health only of sources they track. *)
Definition tracked (s : StoredRecoveryState) : Prop :=
  forall h, h ∈ source_health s -> source_id h ∈ attempted_source_ids s.
Definition inv (s : StoredRecoveryState) : Prop := wf s /\ tracked s.

Lemma distinct_le l : distinct l <= length l.
Proof.
  unfold distinct. induction l as [|x l IH]; cbn; [by rewrite size_empty|].
  rewrite size_union_alt, size_singleton.
  assert (size ((list_to_set l : gset string) ∖ {[x]}) <= size (list_to_set l : gset string))
    by (apply subseteq_size; set_solver). lia.
Qed.

Lemma distinct_nodup l : distinct l = length l <-> NoDup l.
Proof.
  split; [|apply size_list_to_set].
  induction l as [|x l IH]; intros Hd; [constructor|]. pose proof (distinct_le l) as Hle.
  unfold distinct in *. cbn in Hd. destruct (decide (x ∈ l)) as [Hx|Hx].
  - assert ({[x]} ∪ list_to_set l =@{gset string} list_to_set l) as Heq
      by (apply set_eq; set_solver). rewrite Heq in Hd. lia.
  - rewrite size_union, size_singleton in Hd by set_solver. constructor; [done|]. apply IH. lia.
Qed.

Lemma existsb_false_Forall {A} (f : A -> bool) l :
  existsb f l = false <-> Forall (fun x => f x = false) l.
Proof.
  induction l as [|x l IH]; cbn; [by split|]. rewrite orb_false_iff, IH, Forall_cons. done.
Qed.

Lemma is_none_or_negb {A} (f : A -> bool) o :
  is_none_or (fun x => negb (f x)) o = negb (is_some_and f o).
Proof. by destruct o. Qed.

Lemma validate_wf s : validate s = Ok () <-> wf s.
Proof.
  unfold validate. rewrite !is_none_or_negb. split.
  - case_match; [done|]. case_match; [done|]. intros _. bool_hyps.
    repeat match goal with
    | H : existsb _ _ = false |- _ => rewrite existsb_false_Forall in H
    | H : (_ <? _) = false |- _ => apply Nat.ltb_ge in H
    | H : (_ =? _) = true |- _ => apply Nat.eqb_eq, distinct_nodup in H || apply Nat.eqb_eq in H
    end.
    constructor; try done.
    + eapply Forall_impl; [done|]. cbn. intros x Hx. by bool_hyps.
    + eapply Forall_impl; [done|]. cbn. intros x Hx. by bool_hyps.
    + eapply Forall_impl; [done|]. cbn. intros x Hx. by bool_hyps.
    + apply distinct_nodup. by rewrite length_fmap.
  - intros []. rewrite wf_client0, wf_initial0.
    assert (existsb (λ i : string, negb (valid_source_id i)) (attempted_source_ids s) = false) as ->.
    { apply existsb_false_Forall. eapply Forall_impl; [done|]. by intros x ->. }
    assert (existsb (λ h, negb (valid_source_id (source_id h)) || (failures h =? 0)%Z)
      (source_health s) = false) as ->.
    { apply existsb_false_Forall. eapply Forall_impl; [done|]. intros x [-> ?]. cbn. lia. }
    assert (existsb (λ e, (event_revision e <? 1)%Z) (events s) = false) as ->.
    { apply existsb_false_Forall. eapply Forall_impl; [done|]. cbn. lia. }
    repeat (rewrite (proj2 (Nat.ltb_ge _ _)) by done). cbn.
    rewrite (proj2 (Nat.eqb_eq _ _)) by (by apply distinct_nodup). cbn.
    rewrite (proj2 (Nat.eqb_eq _ _)); [done|].
    rewrite <- (length_fmap source_id). by apply distinct_nodup.
Qed.

(** ** Effect of each method *)
Lemma health_len_le_attempted s :
  NoDup (source_id <$> source_health s) -> tracked s ->
  length (source_health s) <= length (attempted_source_ids s).
Proof.
  intros Hn Ht. rewrite <- (length_fmap source_id). apply submseteq_length, NoDup_submseteq; [done|].
  intros i (h & -> & Hh)%list_elem_of_fmap. by apply Ht.
Qed.

Lemma existsb_eqb_elem (id : string) l : existsb (fun v => String.eqb v id) l = true <-> id ∈ l.
Proof.
  rewrite existsb_exists. setoid_rewrite String.eqb_eq. setoid_rewrite <- list_elem_of_In. naive_solver.
Qed.

Lemma existsb_eqb_not_elem (id : string) l : existsb (fun v => String.eqb v id) l = false <-> id ∉ l.
Proof. rewrite <- existsb_eqb_elem. by destruct (existsb _ _). Qed.

Lemma bump_health_ids id u l :
  source_id <$> bump_health id u l =
  if existsb (fun v => String.eqb v id) (source_id <$> l) then source_id <$> l
  else (source_id <$> l) ++ [id].
Proof.
  induction l as [|h l IH]; cbn; [done|]. destruct (String.eqb (source_id h) id) eqn:E; cbn; [done|].
  rewrite IH. by destruct (existsb _ _).
Qed.

Lemma bump_health_elem id u l h :
  h ∈ bump_health id u l -> source_id h = id \/ h ∈ l.
Proof.
  induction l as [|k l IH]; cbn; [set_solver|].
  destruct (String.eqb_spec (source_id k) id); rewrite !elem_of_cons; naive_solver.
Qed.

Lemma bump_health_wf id u l :
  valid_source_id id = true ->
  Forall (fun h => valid_source_id (source_id h) = true /\ (0 < failures h)%Z) l ->
  Forall (fun h => valid_source_id (source_id h) = true /\ (0 < failures h)%Z) (bump_health id u l).
Proof.
  intros Hid Hl. induction Hl as [|h l [Hv Hf] Hl IH]; cbn.
  - apply Forall_singleton. cbn. split; [done|lia].
  - destruct (String.eqb _ _); apply Forall_cons; cbn; split; try done.
    split; [done|]. unfold u8_saturating_add. lia.
Qed.

(** The failure counters are [u8]: the invariant also keeps them non-negative. *)
Record recovery_inv (s : StoredRecoveryState) : Prop := {
  ri_wf : wf s;
  ri_tracked : tracked s;
  ri_failures : Forall (fun h => (0 < failures h)%Z) (source_health s);
}.

Lemma recovery_inv_health s :
  recovery_inv s ->
  Forall (fun h => valid_source_id (source_id h) = true /\ (0 < failures h)%Z) (source_health s).
Proof.
  intros [[] _ Hf]. rewrite Forall_forall in *. intros h Hh. split; [by apply wf_health0|by apply Hf].
Qed.

Lemma recovery_inv_intro s l :
  recovery_inv s -> tracked (set_health (fun _ => l) s) ->
  Forall (fun h => valid_source_id (source_id h) = true /\ (0 < failures h)%Z) l ->
  NoDup (source_id <$> l) -> recovery_inv (set_health (fun _ => l) s).
Proof.
  intros [[] _ _] Ht Hl Hn.
  split; [|done|cbn; eapply Forall_impl; [done|by intros ? []]].
  split; cbn; try done.
  - pose proof (health_len_le_attempted (set_health (fun _ => l) s) Hn Ht) as Hlen. cbn in Hlen. lia.
  - eapply Forall_impl; [done|]. intros h []; split; [done|lia].
Qed.

Lemma recovery_inv_filter_health P `{!forall x, Decision (P x)} s :
  recovery_inv s -> recovery_inv (set_health (filter P) s).
Proof.
  intros Hs. apply (recovery_inv_intro s (filter P (source_health s)) Hs).
  - intros h [_ Hh]%list_elem_of_filter. by apply (ri_tracked _ Hs).
  - apply Forall_forall. intros h [_ Hh]%list_elem_of_filter.
    by apply (proj1 (Forall_forall _ _) (recovery_inv_health _ Hs)).
  - eapply sublist_NoDup; [apply (wf_health_nodup _ (ri_wf _ Hs))|].
    apply fmap_sublist, sublist_filter.
Qed.

Lemma recovery_inv_events s f :
  recovery_inv s -> length (f (events s)) <= MAX_STORED_EVENTS ->
  Forall (fun e => 1 <= event_revision e)%Z (f (events s)) ->
  recovery_inv (set_events f s).
Proof. intros [[] Ht Hf] Hl Hr. by repeat split. Qed.

(** When tracking [id] is refused, and why. *)
Definition track_refusal (id : string) (p : RecoveryPolicy) (s : StoredRecoveryState)
    : option RecoveryPolicyError :=
  if negb (valid_source_id id) then Some RecInvalidState
  else if bool_decide (id ∈ attempted_source_ids s) then None
  else if max_sources p <=? length (attempted_source_ids s) then Some SourceLimit
  else None.
Definition result_of (o : option RecoveryPolicyError) : result RecoveryPolicyError unit :=
  match o with Some e => Err e | None => Ok () end.

Lemma track_source_spec id p s :
  recovery_inv s -> max_sources p <= MAX_STORED_SOURCE_HEALTH ->
  exists s', track_source id p s = (result_of (track_refusal id p s), s') /\
    recovery_inv s' /\ events s' = events s /\ source_health s' = source_health s /\
    (track_refusal id p s = None -> id ∈ attempted_source_ids s' /\ valid_source_id id = true).
Proof.
  intros Hs Hp. unfold track_source, track_refusal.
  destruct (valid_source_id id) eqn:Hv; cbn; [|by exists s].
  destruct (existsb _ _) eqn:He.
  { apply existsb_eqb_elem in He. rewrite bool_decide_eq_true_2 by done. by exists s. }
  apply existsb_eqb_not_elem in He. rewrite bool_decide_eq_false_2 by done.
  destruct (max_sources p <=? _) eqn:Hl; [by exists s|]. apply Nat.leb_gt in Hl.
  eexists. split; [done|]. cbn. split_and!; try done.
  - destruct Hs as [[] Ht Hf]. split; [split; cbn; try done|..].
    + rewrite length_app. cbn. lia.
    + apply Forall_app. by split; [|apply Forall_singleton].
    + apply NoDup_app. split_and!; [done|set_solver|apply NoDup_singleton].
    + intros h Hh. cbn. apply elem_of_app. left. by apply Ht.
    + done.
  - intros _. cbn. split; [set_solver|done].
Qed.

Lemma mark_source_failed_spec id now p s :
  recovery_inv s -> max_sources p <= MAX_STORED_SOURCE_HEALTH ->
  exists s', mark_source_failed id now p s = (result_of (track_refusal id p s), s') /\
    recovery_inv s' /\ events s' = events s.
Proof.
  intros Hs Hp. destruct (track_source_spec id p s Hs Hp) as (s1 & Ht & Hs1 & He & Hh & Hin).
  unfold mark_source_failed, and_then at 1. rewrite Ht.
  destruct (track_refusal id p s) as [e|]; cbn; [by exists s1|]. destruct Hin as [Hin Hv]; [done|].
  assert (recovery_inv (set_health (bump_health id (now + source_cooldown p)) s1)) as Hs2.
  { apply (recovery_inv_intro s1 (bump_health id (now + source_cooldown p) (source_health s1)) Hs1).
    - intros h [->|Hh']%bump_health_elem; [done|by apply (ri_tracked _ Hs1)].
    - by apply bump_health_wf, recovery_inv_health.
    - rewrite bump_health_ids. pose proof (wf_health_nodup _ (ri_wf _ Hs1)).
      destruct (existsb _ _) eqn:E; [done|]. apply existsb_eqb_not_elem in E.
      apply NoDup_app. split_and!; [done|set_solver|apply NoDup_singleton]. }
  eexists. split; [|split; [exact Hs2|done]]. unfold and_then, validate_m; cbn.
  rewrite (proj2 (validate_wf _) (ri_wf _ Hs2)). done.
Qed.

Lemma push_event_spec e l :
  length (push_event e l) <= MAX_STORED_EVENTS /\
  (forall x, x ∈ push_event e l -> x = e \/ x ∈ l) /\
  (length l < MAX_STORED_EVENTS -> push_event e l = l ++ [e]).
Proof.
  unfold push_event. rewrite length_drop, length_app. cbn [length].
  split_and!; [lia| |].
  - intros x Hx. apply (subseteq_drop _ (l ++ [e])) in Hx. set_solver.
  - intros Hl. by replace (_ - _) with 0 by lia.
Qed.

Lemma and_then_ok {A B} (m : method A) (k : A -> method B) s a s' :
  m s = (Ok a, s') -> and_then m k s = k a s'.
Proof. unfold and_then. by intros ->. Qed.
Lemma and_then_err {A B} (m : method A) (k : A -> method B) s e s' :
  m s = (Err e, s') -> and_then m k s = (Err e, s').
Proof. unfold and_then. by intros ->. Qed.

(** [record] once its arguments and the tracking have been checked: the last two steps. *)
Lemma push_and_validate e s :
  recovery_inv s -> (1 <= event_revision e)%Z ->
  exists s', (modify (set_events (push_event e)) ;;; validate_m) s = (Ok (), s') /\
    recovery_inv s' /\ events s' = push_event e (events s).
Proof.
  intros Hs He. destruct (push_event_spec e (events s)) as (Hlen & Helem & _).
  assert (recovery_inv (set_events (push_event e) s)) as Hs'.
  { apply recovery_inv_events; [done|done|]. apply Forall_forall. intros x [->|Hx]%Helem; [done|].
    by apply (proj1 (Forall_forall _ _) (wf_events _ (ri_wf _ Hs))). }
  eexists. split; [|by split; [exact Hs'|]].
  unfold and_then, modify, validate_m. by rewrite (proj2 (validate_wf _) (ri_wf _ Hs')).
Qed.

(** The health update of [record], for a source that is tracked. *)
Lemma record_health_spec out id now p s :
  recovery_inv s -> max_sources p <= MAX_STORED_SOURCE_HEALTH ->
  id ∈ attempted_source_ids s -> valid_source_id id = true ->
  exists s', match out with
    | Succeeded => modify (set_health (filter (fun h => negb (String.eqb (source_id h) id) = true)))
    | OutcomeFailed => mark_source_failed id now p
    end s = (Ok (), s') /\ recovery_inv s' /\ events s' = events s.
Proof.
  intros Hs Hp Hin Hv. destruct out.
  - eexists. split; [done|]. split; [by apply recovery_inv_filter_health|done].
  - destruct (mark_source_failed_spec id now p s Hs Hp) as (s2 & Hm & ? & ?).
    exists s2. rewrite Hm. unfold track_refusal. by rewrite Hv, bool_decide_eq_true_2.
Qed.

Lemma record_spec act why out id rev now p s :
  recovery_inv s -> max_sources p <= MAX_STORED_SOURCE_HEALTH ->
  exists s', record act why out id rev now p s =
      (result_of (if (rev <? 1)%Z then Some RecInvalidState else track_refusal id p s), s') /\
    recovery_inv s' /\
    (fst (record act why out id rev now p s) = Ok () ->
     events s' = push_event {| at_ := now; event_revision := rev; action := act; reason := why;
                               outcome := out |} (events s)).
Proof.
  intros Hs Hp. set (e := {| at_ := now; event_revision := rev; action := act; reason := why;
                             outcome := out |}).
  enough (exists s', record act why out id rev now p s =
      (result_of (if (rev <? 1)%Z then Some RecInvalidState else track_refusal id p s), s') /\
    recovery_inv s' /\
    ((if (rev <? 1)%Z then Some RecInvalidState else track_refusal id p s) = None ->
     events s' = push_event e (events s))) as (s' & Hr & Hi & Hev).
  { exists s'. split_and!; [done|done|]. rewrite Hr. cbn. intros H. apply Hev.
    by destruct (rev <? 1)%Z; [|destruct (track_refusal id p s)]. }
  unfold record; fold e. destruct (rev <? 1)%Z eqn:Hrev; [by exists s|].
  destruct (valid_source_id id) eqn:Hv; [|exists s; unfold track_refusal; by rewrite Hv].
  rewrite (and_then_ok _ _ s () s) by done.
  destruct (track_source_spec id p s Hs Hp) as (s1 & Ht & Hs1 & He & _ & Hin).
  destruct (track_refusal id p s) as [er|]; cbn in Ht.
  { exists s1. rewrite (and_then_err _ _ _ _ _ Ht). done. }
  destruct Hin as [Hin _]; [done|]. rewrite (and_then_ok _ _ _ _ _ Ht).
  destruct (record_health_spec out id now p s1 Hs1 Hp Hin Hv) as (s2 & Hm & Hs2 & He2).
  rewrite (and_then_ok _ _ _ _ _ Hm).
  destruct (push_and_validate e s2 Hs2) as (s3 & Hpv & Hs3 & He3); [cbn; lia|].
  exists s3. rewrite Hpv. split_and!; [done|done|]. intros _. by rewrite He3, He2, He.
Qed.

Lemma filter_length_le {A} (P : A -> Prop) `{!forall x, Decision (P x)} l :
  length (filter P l) <= length l.
Proof. apply sublist_length, sublist_filter. Qed.

Lemma admit_transition_spec now p s :
  recovery_inv s ->
  exists s', admit_transition now p s =
      (reject_if (max_transitions p <=? length (events s')) TransitionLimit, s') /\
    recovery_inv s' /\
    events s' = filter (fun e => (now - window p <=? at_ e)%Z = true) (events s) /\
    attempted_source_ids s' = attempted_source_ids s.
Proof.
  intros Hs. unfold admit_transition.
  rewrite (and_then_ok _ _ s () s)
    by (unfold validate_m; by rewrite (proj2 (validate_wf _) (ri_wf _ Hs))).
  set (keep := fun e => (now - window p <=? at_ e)%Z = true).
  exists (set_health (filter (fun h => (now <? cooldown_until h)%Z = true))
            (set_events (filter keep) s)).
  split; [done|]. split; [|done].
  apply (recovery_inv_filter_health _ (set_events _ s)), recovery_inv_events; [done|..].
  - pose proof (wf_events_len _ (ri_wf _ Hs)). etrans; [apply filter_length_le|done].
  - apply Forall_forall. intros e [_ He]%list_elem_of_filter.
    by apply (proj1 (Forall_forall _ _) (wf_events _ (ri_wf _ Hs))).
Qed.

(** ** Runs of calls *)
Inductive recovery_call :=
| CallAdmit (now : instant)
| CallMark (id : string) (now : instant)
| CallRecord (act : RecoveryAction) (why : RecoveryReason) (out : RecoveryOutcome) (id : string)
    (rev : Z) (now : instant).
Definition run_call (c : recovery_call) (p : RecoveryPolicy) : method unit :=
  match c with
  | CallAdmit now => admit_transition now p
  | CallMark id now => mark_source_failed id now p
  | CallRecord act why out id rev now => record act why out id rev now p
  end.
(** Why a call is refused, in a state that satisfies the invariant. *)
Definition call_refusal (c : recovery_call) (p : RecoveryPolicy) (s : StoredRecoveryState)
    : option RecoveryPolicyError :=
  match c with
  | CallAdmit now =>
      if max_transitions p <=?
           length (filter (fun e => (now - window p <=? at_ e)%Z = true) (events s))
      then Some TransitionLimit else None
  | CallMark id _ => track_refusal id p s
  | CallRecord _ _ _ id rev _ => if (rev <? 1)%Z then Some RecInvalidState else track_refusal id p s
  end.
Definition run_calls (cs : list recovery_call) (p : RecoveryPolicy) (s : StoredRecoveryState) :=
  foldl (fun s c => snd (run_call c p s)) s cs.

Lemma run_call_spec c p s :
  recovery_inv s -> max_sources p <= MAX_STORED_SOURCE_HEALTH ->
  fst (run_call c p s) = result_of (call_refusal c p s) /\ recovery_inv (snd (run_call c p s)).
Proof.
  intros Hs Hp. destruct c as [now|id now|act why out id rev now]; unfold run_call, call_refusal.
  - destruct (admit_transition_spec now p s Hs) as (s' & -> & Hs' & He & _). cbn.
    rewrite <- He. split; [|done]. by destruct (_ <=? _).
  - by destruct (mark_source_failed_spec id now p s Hs Hp) as (s' & -> & Hs' & _).
  - by destruct (record_spec act why out id rev now p s Hs Hp) as (s' & -> & Hs' & _).
Qed.

(** A property of the state that a method keeps, whatever it returns. *)
Definition preserves (P : StoredRecoveryState -> Prop) {A} (m : method A) : Prop :=
  forall s, P s -> P (snd (m s)).
Lemma preserves_and_then P {A B} (m : method A) (k : A -> method B) :
  preserves P m -> (forall a, preserves P (k a)) -> preserves P (and_then m k).
Proof.
  intros Hm Hk s Hs. unfold and_then. specialize (Hm s Hs). destruct (m s) as [[a|e] s']; cbn in *.
  - by apply Hk.
  - done.
Qed.
Lemma preserves_modify P f : (forall s, P s -> P (f s)) -> preserves P (modify f).
Proof. intros Hf s Hs. by apply Hf. Qed.
Lemma preserves_fail_if P b e : preserves P (fail_if b e).
Proof. intros s Hs. exact Hs. Qed.
Lemma preserves_validate P : preserves P validate_m.
Proof. intros s Hs. exact Hs. Qed.

(** The sources tried: the first one stays, and their number stays within the limit. *)
Definition attempts_bounded (initial : string) (n : nat) (s : StoredRecoveryState) : Prop :=
  [initial] `prefix_of` attempted_source_ids s /\ length (attempted_source_ids s) <= n.

Lemma preserves_track id p initial n :
  max_sources p <= n -> preserves (attempts_bounded initial n) (track_source id p).
Proof.
  intros Hn s [Hi Hl]. unfold track_source. repeat case_match; cbn; try done.
  match goal with H : (_ <=? _) = false |- _ => apply Nat.leb_gt in H end. split; cbn.
  - by apply prefix_app_r.
  - rewrite length_app. cbn. lia.
Qed.
#[local] Hint Resolve preserves_and_then preserves_modify preserves_fail_if preserves_validate
  preserves_track : live.

Lemma preserves_run_call c p initial n :
  max_sources p <= n -> preserves (attempts_bounded initial n) (run_call c p).
Proof.
  intros Hn.
  assert (forall id now, preserves (attempts_bounded initial n) (mark_source_failed id now p)) as Hm.
  { intros. unfold mark_source_failed. auto 10 with live. }
  destruct c; unfold run_call; [unfold admit_transition|apply Hm|unfold record]; [auto 15 with live|].
  repeat (apply preserves_and_then; [|intros _]); auto with live.
  destruct out; auto with live.
Qed.

(** ** Cooldowns *)
Definition cooling (id : string) (t : instant) (l : list SourceHealth) : bool :=
  existsb (fun h => String.eqb (source_id h) id && (t <? cooldown_until h)%Z) l.

Lemma cooling_not_elem id t l : id ∉ (source_id <$> l) -> cooling id t l = false.
Proof.
  intros Hn. apply existsb_false_Forall, Forall_forall. intros h Hh.
  apply andb_false_iff. left. apply String.eqb_neq. intros <-. by apply Hn, list_elem_of_fmap_2.
Qed.

Lemma cooling_bump id u t l :
  NoDup (source_id <$> l) -> cooling id t (bump_health id u l) = (t <? u)%Z.
Proof.
  unfold cooling. induction l as [|h l IH]; cbn; intros Hn.
  - rewrite String.eqb_refl. cbn. apply orb_false_r.
  - apply NoDup_cons in Hn as [Hh Hl]. destruct (String.eqb_spec (source_id h) id) as [<-|Hne]; cbn.
    + rewrite String.eqb_refl. cbn. fold (cooling (source_id h) t l).
      rewrite cooling_not_elem by done. apply orb_false_r.
    + apply String.eqb_neq in Hne as ->. cbn. by apply IH.
Qed.

Lemma cooling_bump_other id id' u t l :
  id' <> id -> cooling id' t (bump_health id u l) = cooling id' t l.
Proof.
  intros Hne. unfold cooling. induction l as [|h l IH]; cbn.
  - by rewrite (proj2 (String.eqb_neq id id')).
  - destruct (String.eqb_spec (source_id h) id) as [->|Hh]; cbn.
    + by rewrite (proj2 (String.eqb_neq id id')).
    + by rewrite IH.
Qed.

Lemma cooling_cleared id id' t l :
  cooling id' t (filter (fun h => negb (String.eqb (source_id h) id) = true) l) =
  negb (String.eqb id' id) && cooling id' t l.
Proof.
  induction l as [|h l IH]; [by rewrite andb_false_r|]. rewrite filter_cons.
  assert (forall k, cooling id' t (h :: k) =
    (String.eqb (source_id h) id' && (t <? cooldown_until h)%Z) || cooling id' t k) as Hc by done.
  destruct (String.eqb_spec (source_id h) id) as [Hh|Hh]; case_decide; try done; rewrite !Hc, ?IH.
  - rewrite Hh. destruct (String.eqb_spec id id') as [<-|]; [|done]. by rewrite String.eqb_refl.
  - destruct (String.eqb_spec id' id) as [->|]; [|done].
    by rewrite (proj2 (String.eqb_neq _ _) Hh).
Qed.

Lemma may_attempt_tracked id t p s :
  valid_source_id id = true -> id ∈ attempted_source_ids s ->
  may_attempt_source s id t p = Ok (negb (cooling id t (source_health s))).
Proof.
  intros Hv Hin%existsb_eqb_elem. unfold may_attempt_source, cooling. rewrite Hv. cbn.
  destruct (existsb _ (source_health s)); [done|]. by rewrite Hin.
Qed.

(** What a successful [mark_source_failed] leaves, for every source. *)
Lemma mark_health id now p s s' :
  recovery_inv s -> max_sources p <= MAX_STORED_SOURCE_HEALTH ->
  mark_source_failed id now p s = (Ok (), s') ->
  valid_source_id id = true /\ id ∈ attempted_source_ids s' /\
  forall i t, cooling i t (source_health s') =
    if String.eqb i id then (t <? now + source_cooldown p)%Z else cooling i t (source_health s).
Proof.
  intros Hs Hp. destruct (track_source_spec id p s Hs Hp) as (s1 & Ht & Hs1 & _ & Hh & Hin).
  unfold mark_source_failed. destruct (track_refusal id p s) as [e|]; cbn in Ht.
  { by rewrite (and_then_err _ _ _ _ _ Ht). }
  rewrite (and_then_ok _ _ _ _ _ Ht). unfold and_then, modify, validate_m; cbn.
  destruct Hin as [Hin Hv]; [done|]. intros [= _ <-]. split_and!; [done|done|]. cbn.
  intros i t. rewrite Hh. destruct (String.eqb_spec i id) as [->|Hne].
  - by apply cooling_bump, (wf_health_nodup _ (ri_wf _ Hs)).
  - by apply cooling_bump_other.
Qed.

(** What a successful [record] leaves, for every source. *)
Lemma record_health act why out id rev now p s s' :
  recovery_inv s -> max_sources p <= MAX_STORED_SOURCE_HEALTH ->
  record act why out id rev now p s = (Ok (), s') ->
  valid_source_id id = true /\ id ∈ attempted_source_ids s' /\
  forall i t, cooling i t (source_health s') =
    if String.eqb i id
    then match out with Succeeded => false | OutcomeFailed => (t <? now + source_cooldown p)%Z end
    else cooling i t (source_health s).
Proof.
  intros Hs Hp. unfold record.
  destruct ((rev <? 1)%Z || negb (valid_source_id id)) eqn:E.
  { by rewrite (and_then_err _ _ s RecInvalidState s) by done. }
  rewrite (and_then_ok _ _ s () s) by done.
  destruct (track_source_spec id p s Hs Hp) as (s1 & Ht & Hs1 & _ & Hh & Hin).
  destruct (track_refusal id p s) as [e|]; cbn in Ht.
  { by rewrite (and_then_err _ _ _ _ _ Ht). }
  rewrite (and_then_ok _ _ _ _ _ Ht). destruct Hin as [Hin Hv]; [done|].
  destruct out.
  - unfold and_then, modify, validate_m; cbn. intros [= _ <-]. split_and!; [done|done|].
    intros i t. etrans; [apply (cooling_cleared id i t (source_health s1))|].
    rewrite Hh. by destruct (String.eqb i id).
  - destruct (mark_source_failed id now p s1) as [[[]|e] s2] eqn:Hm;
      [rewrite (and_then_ok _ _ _ _ _ Hm)|by rewrite (and_then_err _ _ _ _ _ Hm)].
    apply mark_health in Hm as (_ & Hin2 & Hc); [|done..].
    unfold and_then, modify, validate_m; cbn. intros [= _ <-]. split_and!; [done|done|].
    intros i t. etrans; [apply Hc|]. by rewrite Hh.
Qed.

(** ** Rate limit: a step relation of the recovery cycle *)
(** A session is idle, or one transition has been admitted and works on its own copy of the stored
    state; [Admitted s] remembers the stored state, which an abandoned transition leaves as it was. *)
Inductive phase := Idle | Admitted_from (stored : StoredRecoveryState).

(** [recovery_run p ph s log t]: at time [t] the working state is [s], and [log] holds the times of the
    transitions recorded so far, oldest first. *)
Inductive recovery_run (p : RecoveryPolicy) : phase -> StoredRecoveryState -> list instant -> instant -> Prop :=
| run_start client egress initial s t :
    ClientCapabilities_validate client = true ->
    StoredRecoveryState_new client egress initial = Ok s ->
    recovery_run p Idle s [] t
| run_admit s s' log t now :
    recovery_run p Idle s log t -> (t <= now)%Z ->
    admit_transition now p s = (Ok (), s') ->
    recovery_run p (Admitted_from s) s' log now
| run_mark stored s s' log t id now r :
    recovery_run p (Admitted_from stored) s log t -> (t <= now)%Z ->
    mark_source_failed id now p s = (r, s') ->
    recovery_run p (Admitted_from stored) s' log now
| run_record stored s s' log t act why out id rev now :
    recovery_run p (Admitted_from stored) s log t -> (t <= now)%Z ->
    record act why out id rev now p s = (Ok (), s') ->
    recovery_run p Idle s' (log ++ [now]) now
| run_abandon stored s log t now :
    recovery_run p (Admitted_from stored) s log t -> (t <= now)%Z ->
    recovery_run p Idle stored log now.

Definition since (from : instant) (l : list instant) : nat :=
  length (filter (fun t => (from <=? t)%Z = true) l).
Definition within (from to : instant) (l : list instant) : nat :=
  length (filter (fun t => ((from <=? t) && (t <=? to))%Z = true) l).

Lemma since_app from l k : since from (l ++ k) = since from l + since from k.
Proof. unfold since. by rewrite filter_app, length_app. Qed.
Lemma within_app from to l k : within from to (l ++ k) = within from to l + within from to k.
Proof. unfold within. by rewrite filter_app, length_app. Qed.
Lemma since_mono from from' l : (from <= from')%Z -> since from' l <= since from l.
Proof.
  intros Hle. induction l as [|x l IH]; [done|]. unfold since in *. rewrite !filter_cons.
  repeat case_decide; cbn; lia.
Qed.
Lemma within_since from to l : within from to l <= since from l.
Proof.
  induction l as [|x l IH]; [done|]. unfold since, within in *. rewrite !filter_cons.
  repeat case_decide; cbn; lia.
Qed.
Lemma since_le_length from l : since from l <= length l.
Proof. apply filter_length_le. Qed.

(** dropping what is older than [a] does not change the count since a later moment *)
Lemma since_filter_events a from (l : list RecoveryEvent) :
  (a <= from)%Z ->
  since from (at_ <$> filter (fun e => (a <=? at_ e)%Z = true) l) = since from (at_ <$> l).
Proof.
  intros Hle. unfold since. induction l as [|x l IH]; [done|]. rewrite filter_cons, fmap_cons.
  case_decide; [rewrite fmap_cons|]; rewrite !filter_cons; repeat case_decide; cbn in *; lia.
Qed.

(** What each step keeps: the stored events since any later moment are exactly the logged times. *)
Definition faithful (p : RecoveryPolicy) (s : StoredRecoveryState) (log : list instant) (t : instant) :=
  recovery_inv s /\
  forall from, (t - window p <= from)%Z -> since from (at_ <$> events s) = since from log.
Definition run_invariant (p : RecoveryPolicy) (ph : phase) (s : StoredRecoveryState)
    (log : list instant) (t : instant) : Prop :=
  faithful p s log t /\ Forall (fun c => (c <= t)%Z) log /\
  (forall from, within from (from + window p) log <= max_transitions p) /\
  match ph with
  | Idle => True
  | Admitted_from stored => faithful p stored log t /\ length (events s) < max_transitions p
  end.

Lemma faithful_later p s log t t' : (t <= t')%Z -> faithful p s log t -> faithful p s log t'.
Proof. intros Hle [Hs Hf]. split; [done|]. intros from Hfrom. apply Hf. lia. Qed.
Lemma Forall_le_later (log : list instant) t t' :
  (t <= t')%Z -> Forall (fun c => (c <= t)%Z) log -> Forall (fun c => (c <= t')%Z) log.
Proof. intros Hle Hl. eapply Forall_impl; [done|]. cbn. lia. Qed.

(** A record admitted by the rate limit keeps every window within it. *)
Lemma within_snoc p log now :
  (0 <= window p)%Z -> since (now - window p) log < max_transitions p ->
  (forall from, within from (from + window p) log <= max_transitions p) ->
  forall from, within from (from + window p) (log ++ [now]) <= max_transitions p.
Proof.
  intros Hw Hs Hall from. rewrite within_app. unfold within at 2. rewrite filter_cons, filter_nil.
  case_decide as H; cbn; [bool_hyps|specialize (Hall from); lia].
  assert (within from (from + window p) log <= since (now - window p) log)
    by (etrans; [apply within_since|apply since_mono; lia]).
  lia.
Qed.

Lemma StoredRecoveryState_new_inv client egress initial s :
  ClientCapabilities_validate client = true -> StoredRecoveryState_new client egress initial = Ok s ->
  recovery_inv s /\ events s = [] /\ source_health s = [] /\ attempted_source_ids s = [initial] /\
  valid_source_id initial = true.
Proof.
  intros Hc. unfold StoredRecoveryState_new. destruct (valid_source_id initial) eqn:Hv; [|done].
  intros [= <-]. split_and!; try done. split; [|by intros h ?%not_elem_of_nil|by apply Forall_nil].
  split; cbn -[valid_source_id]; try done; try by apply Forall_nil.
  all: first [by apply Forall_singleton|apply NoDup_singleton|apply NoDup_nil_2
             |unfold MAX_STORED_SOURCE_HEALTH, MAX_STORED_EVENTS; lia].
Qed.

Lemma run_keeps_invariant p ph s log t :
  max_sources p <= MAX_STORED_SOURCE_HEALTH -> max_transitions p <= MAX_STORED_EVENTS ->
  (0 <= window p)%Z -> recovery_run p ph s log t -> run_invariant p ph s log t.
Proof.
  intros Hms Hmt Hw. induction 1 as
    [client egress initial s t Hc Hn|s s' log t now Hr IH Hle Ha|stored s s' log t id now r Hr IH Hle Hm
    |stored s s' log t act why out id rev now Hr IH Hle Hrec|stored s log t now Hr IH Hle].
  - destruct (StoredRecoveryState_new_inv _ _ _ _ Hc Hn) as (Hi & He & _).
    split_and!; [split; [done|]|by apply Forall_nil| |done].
    + intros from _. by rewrite He.
    + intros from. apply Nat.le_0_l.
  - destruct IH as (Hf & Hl & Hwin & _), (faithful_later _ _ _ _ now Hle Hf) as [Hi Hev].
    destruct (admit_transition_spec now p s Hi) as (s2 & Ha2 & Hi2 & He2 & _).
    rewrite Ha in Ha2. injection Ha2 as Hok <-. symmetry in Hok. apply reject_if_ok, Nat.leb_gt in Hok.
    split; [split; [done|]|split_and!; [by eapply Forall_le_later|done|by eapply faithful_later|done]].
    intros from Hfrom. rewrite He2, since_filter_events by lia. by apply Hev.
  - destruct IH as (Hf & Hl & Hwin & Hst & Hlen), (faithful_later _ _ _ _ now Hle Hf) as [Hi Hev].
    destruct (mark_source_failed_spec id now p s Hi Hms) as (s2 & Hm2 & Hi2 & He2).
    rewrite Hm in Hm2. injection Hm2 as _ <-. unfold run_invariant, faithful. rewrite He2.
    destruct Hst as [Hsi Hsf]. split_and!; try done; [by eapply Forall_le_later|].
    intros from Hfrom. apply Hsf. lia.
  - destruct IH as (Hf & Hl & Hwin & _ & Hlen), (faithful_later _ _ _ _ now Hle Hf) as [Hi Hev].
    destruct (record_spec act why out id rev now p s Hi Hms) as (s2 & Hm2 & Hi2 & He2).
    rewrite Hrec in *. injection Hm2 as _ <-.
    set (e := {| at_ := now; event_revision := rev; action := act; reason := why; outcome := out |}) in He2.
    destruct (push_event_spec e (events s)) as (_ & _ & Hpush). rewrite Hpush in He2 by lia.
    split; [split; [done|]|split_and!; [| |done]].
    + intros from Hfrom. by rewrite (He2 eq_refl), fmap_app, !since_app, Hev.
    + apply Forall_app. split; [by eapply Forall_le_later|]. apply Forall_singleton. lia.
    + apply within_snoc; [done| |done]. rewrite <- Hev by lia.
      eapply Nat.le_lt_trans; [apply since_le_length|]. by rewrite length_fmap.
  - destruct IH as (_ & Hl & Hwin & Hst & _).
    split; [by eapply faithful_later|split_and!; [by eapply Forall_le_later|done|done]].
Qed.

Lemma run_calls_inv cs p s0 initial n :
  recovery_inv s0 -> max_sources p <= MAX_STORED_SOURCE_HEALTH -> max_sources p <= n ->
  attempts_bounded initial n s0 ->
  recovery_inv (run_calls cs p s0) /\ attempts_bounded initial n (run_calls cs p s0).
Proof.
  intros Hs Hp Hn Ha. unfold run_calls. revert s0 Hs Ha.
  induction cs as [|c cs IH]; intros s0 Hs Ha; [done|]. cbn.
  apply IH; [by apply run_call_spec|by apply preserves_run_call].
Qed.

(** * Properties *)

(** The recovery state is well-formed for as long as the session lives.  From a state built by
    [StoredRecoveryState::new] for a valid client, any sequence of [admit_transition],
    [mark_source_failed] and [record] calls, failing ones included, leaves a state that [validate]
    accepts, so the checks that end these methods never fail; the first source stays the first one
    tried and at most [max_sources] distinct sources are ever tried.  The next call then fails exactly
    for the reasons its arguments and the limits give ([call_refusal]). *)
Theorem recovery_calls_keep_valid_state client egress initial s0 p cs c :
  ClientCapabilities_validate client = true ->
  StoredRecoveryState_new client egress initial = Ok s0 ->
  1 <= max_sources p <= MAX_STORED_SOURCE_HEALTH ->
  let s := run_calls cs p s0 in
  validate s = Ok () /\ [initial] `prefix_of` attempted_source_ids s /\
  NoDup (attempted_source_ids s) /\ length (attempted_source_ids s) <= max_sources p /\
  fst (run_call c p s) = result_of (call_refusal c p s).
Proof.
  intros Hc Hn [H1 Hp]. destruct (StoredRecoveryState_new_inv _ _ _ _ Hc Hn) as (Hs & _ & _ & Ha & _).
  destruct (run_calls_inv cs p s0 initial (max_sources p)) as [Hi [Hpre Hlen]]; [done..| |].
  { split; rewrite Ha; [done|cbn; lia]. }
  split_and!; [by apply validate_wf, ri_wf|done|by apply wf_attempted_nodup, ri_wf|done|].
  by apply run_call_spec.
Qed.

(** The recovery rate limit is a sliding-window limit.  In every run of the recovery cycle (admit a
    transition, mark candidates that fail, record the outcome or abandon the attempt), whatever the
    clock does between the steps as long as it does not go back, any window of the configured length
    holds at most [max_transitions] recorded transitions; dropping old events on admission and the cap
    on stored events never hide one. *)
Theorem recovery_rate_limited p ph s log t from :
  recovery_run p ph s log t ->
  max_sources p <= MAX_STORED_SOURCE_HEALTH -> max_transitions p <= MAX_STORED_EVENTS ->
  (0 <= window p)%Z ->
  within from (from + window p) log <= max_transitions p.
Proof. intros Hr Hms Hmt Hw. by apply (run_keeps_invariant p ph s log t Hms Hmt Hw Hr). Qed.

(** Cooldowns.  After a failure of source [id] was recorded at [now], by [mark_source_failed] or by
    [record], [may_attempt_source] refuses [id] at exactly the times before [now + source_cooldown] and
    allows it again from then on; after a recorded success it allows [id] at once; the cooldown of any
    other source is as before. *)
Theorem recovery_cooldown p id now s s' outcome :
  recovery_inv s -> max_sources p <= MAX_STORED_SOURCE_HEALTH ->
  outcome = OutcomeFailed /\ mark_source_failed id now p s = (Ok (), s')
  \/ (exists act why rev, record act why outcome id rev now p s = (Ok (), s')) ->
  (forall t, may_attempt_source s' id t p =
    Ok match outcome with
       | OutcomeFailed => (now + source_cooldown p <=? t)%Z
       | Succeeded => true
       end)
  /\ forall other t, other <> id ->
     cooling other t (source_health s') = cooling other t (source_health s).
Proof.
  intros Hs Hp Hcall.
  assert (valid_source_id id = true /\ id ∈ attempted_source_ids s' /\
    forall i t, cooling i t (source_health s') =
      if String.eqb i id
      then match outcome with Succeeded => false | OutcomeFailed => (t <? now + source_cooldown p)%Z end
      else cooling i t (source_health s)) as (Hv & Hin & Hcool).
  { destruct Hcall as [[-> Hm]|(act & why & rev & Hr)]; [by apply mark_health|by eapply record_health]. }
  split.
  - intros t. rewrite may_attempt_tracked by done. f_equal. rewrite Hcool, String.eqb_refl.
    destruct outcome; [done|]. symmetry. apply Z.leb_antisym.
  - intros other t Hne. by rewrite Hcool, (proj2 (String.eqb_neq _ _) Hne).
Qed.

(** ** Witnesses *)
Definition demo_client : ClientCapabilities :=
  {| protocols := {[Hls]}; containers := {["mpegts"]}; video_codecs := {["h264"]};
     audio_codecs := {["aac"]} |}.
Definition demo_limits : LiveRecoveryLimits :=
  {| lim_max_sources := 2; lim_max_transitions := 1; lim_window_seconds := 60;
     lim_source_cooldown_seconds := 5 |}.
Definition demo_recovery : StoredRecoveryState :=
  {| rec_client := Some demo_client; requested_egress := Inherit; initial_source_id := Some "a";
     attempted_source_ids := ["a"]; source_health := []; events := [] |}.

Lemma recovery_calls_keep_valid_state_witness :
  fst (run_call (CallMark "c" 20) (RecoveryPolicy_from demo_limits)
    (run_calls [CallAdmit 5; CallRecord Failover Stalled Succeeded "b" 4 10]
       (RecoveryPolicy_from demo_limits) demo_recovery)) = Err SourceLimit.
Proof.
  refine (eq_trans (proj2 (proj2 (proj2 (proj2
    (recovery_calls_keep_valid_state demo_client Inherit "a" demo_recovery
      (RecoveryPolicy_from demo_limits)
      [CallAdmit 5; CallRecord Failover Stalled Succeeded "b" 4 10] (CallMark "c" 20)
      eq_refl eq_refl _))))) _).
  - cbn. unfold MAX_STORED_SOURCE_HEALTH. lia.
  - vm_compute. reflexivity.
Defined.

Lemma recovery_rate_limited_witness :
  exists s, recovery_run (RecoveryPolicy_from demo_limits) Idle s [20%Z] 20 /\
    within 0 (0 + 60000000000) [20%Z] <= 1.
Proof.
  assert (recovery_run (RecoveryPolicy_from demo_limits) Idle
    (snd (record Failover Stalled Succeeded "b" 4 20 (RecoveryPolicy_from demo_limits) demo_recovery))
    ([] ++ [20%Z]) 20) as Hr.
  { apply (run_record _ demo_recovery demo_recovery _ [] 10 Failover Stalled Succeeded "b" 4 20);
      [apply (run_admit _ demo_recovery demo_recovery _ 10 10); [eapply (run_start _ demo_client Inherit "a"); reflexivity| |]| |].
    - lia.
    - vm_compute. reflexivity.
    - lia.
    - vm_compute. reflexivity. }
  eexists. split; [exact Hr|].
  apply (recovery_rate_limited _ _ _ _ _ 0 Hr); vm_compute; lia || discriminate.
Defined.

Lemma recovery_cooldown_witness :
  exists s', mark_source_failed "a" 100 (RecoveryPolicy_from demo_limits) demo_recovery = (Ok (), s') /\
    may_attempt_source s' "a" 200 (RecoveryPolicy_from demo_limits) = Ok false.
Proof.
  eexists. split; [reflexivity|].
  refine (proj1 (recovery_cooldown (RecoveryPolicy_from demo_limits) "a" 100 demo_recovery _ OutcomeFailed
    _ _ (or_introl (conj eq_refl eq_refl))) 200%Z).
  - by eapply StoredRecoveryState_new_inv with (client := demo_client) (initial := "a").
  - vm_compute. lia.
Defined.
