(* ===== verification/Descriptor.v ===== *)
(** * The stored session descriptor (src/src/live/session/descriptor.rs)

    A session stores, encrypted, everything needed to resume delivery: the resolved sources in a flat
    serialisable form, which of them was selected, the effective egress policy and the recovery state.
    Reading it back must give the planner and the upstream client the same inputs. *)
From S2P Require Import Prelude LiveContract EgressPolicy SessionTypes Planner Recovery.

Inductive StoredDescriptorError :=
| SelectedSourceMissing | InvalidProtocol | InvalidClientDisclosure | InvalidServerEgress
| InvalidEgressPolicy | DuplicateHeader.
#[export] Instance StoredDescriptorError_eq_dec : EqDecision StoredDescriptorError.
Proof. solve_decision. Defined.

(** ** Egress policy *)
Module StoredEgressPolicy.
Record t := {
  mode : string;
  policy_id : option string;
  allow_fallback : bool;
  revision : Z;
  source : string;
}.
Definition default : t :=
  {| mode := EgressPolicyMode.as_str Off; policy_id := None; allow_fallback := false;
     revision := 1; source := EgressPolicySource.as_str ServerConfig |}.
Definition from_effective (p : EffectiveEgressPolicy) : t :=
  {| mode := EgressPolicyMode.as_str (eff_mode p); policy_id := eff_policy_id p;
     allow_fallback := eff_allow_fallback p; revision := eff_revision p;
     source := EgressPolicySource.as_str (eff_source p) |}.
Definition to_effective (s : t) : result StoredDescriptorError EffectiveEgressPolicy :=
  m ← map_err (fun _ => InvalidEgressPolicy) (EgressPolicyMode.parse (mode s));
  src ← map_err (fun _ => InvalidEgressPolicy) (EgressPolicySource.parse (source s));
  let policy := {| eff_mode := m; eff_policy_id := policy_id s;
                   eff_allow_fallback := allow_fallback s; eff_revision := revision s;
                   eff_source := src |} in
  _ ← map_err (fun _ => InvalidEgressPolicy) (validate_effective_policy policy);
  Ok policy.
End StoredEgressPolicy.

(** ** Sources *)
Record StoredCookie := {
  sc_name : string; sc_value : string; sc_domain : option string; sc_path : option string;
  sc_secure : bool; sc_http_only : bool; sc_expires_at : option instant;
}.
Record StoredAuthority := {
  sa_scheme : string; sa_host : string; sa_port : Z; sa_send_request_headers : bool;
  sa_send_cookies : bool; sa_send_origin : bool; sa_send_referer : bool;
}.
Record StoredSource := {
  ss_stream_id : string;
  ss_label : string;
  ss_quality : option string;
  ss_language : option string;
  ss_priority : Z;
  ss_protocol : string;
  ss_url : string;
  ss_request_headers : list (string * string);
  ss_cookies : list StoredCookie;
  ss_origin : option string;
  ss_referer : option string;
  ss_credential_authorities : list StoredAuthority;
  ss_client_disclosure : string;
  ss_expires_at : option instant;
  ss_refresh_handle : option string;
  ss_server_egress : string;
  ss_private_network : bool;
  ss_time_shift_available : bool;
  ss_time_shift_window_seconds : option Z;
  ss_container : option string;
  ss_video_codec : option string;
  ss_audio_codec : option string;
}.
Record StoredSessionDescriptor := {
  sd_provider_revision : string;
  sd_decision_reason : string;
  sd_playback_url : option string;
  sd_selected_source_index : nat;
  sd_sources : list StoredSource;
  sd_egress : StoredEgressPolicy.t;
  sd_recovery : StoredRecoveryState;
}.

Definition protocol_name (p : StreamProtocol) : string :=
  match p with
  | Hls => "hls" | Dash => "dash" | HttpProgressive => "http_progressive"
  | MpegTs => "mpeg_ts" | Rtmp => "rtmp" | Srt => "srt"
  end.

Definition StoredCookie_from (c : ProviderCookie) : StoredCookie :=
  {| sc_name := pc_name c; sc_value := pc_value c; sc_domain := pc_domain c; sc_path := pc_path c;
     sc_secure := pc_secure c; sc_http_only := pc_http_only c; sc_expires_at := pc_expires_at c |}.
Definition StoredCookie_to (c : StoredCookie) : ProviderCookie :=
  {| pc_name := sc_name c; pc_value := sc_value c; pc_domain := sc_domain c; pc_path := sc_path c;
     pc_secure := sc_secure c; pc_http_only := sc_http_only c; pc_expires_at := sc_expires_at c |}.
Definition StoredAuthority_from (a : CredentialAuthority) : StoredAuthority :=
  {| sa_scheme := ca_scheme a; sa_host := ca_host a; sa_port := ca_port a;
     sa_send_request_headers := ca_send_request_headers a; sa_send_cookies := ca_send_cookies a;
     sa_send_origin := ca_send_origin a; sa_send_referer := ca_send_referer a |}.
Definition StoredAuthority_to (a : StoredAuthority) : CredentialAuthority :=
  {| ca_scheme := sa_scheme a; ca_host := sa_host a; ca_port := sa_port a;
     ca_send_request_headers := sa_send_request_headers a; ca_send_cookies := sa_send_cookies a;
     ca_send_origin := sa_send_origin a; ca_send_referer := sa_send_referer a |}.

Definition from_source (s : SourceDescriptor) : StoredSource :=
  {| ss_stream_id := stream_id s; ss_label := label s; ss_quality := quality s;
     ss_language := language s; ss_priority := priority s;
     ss_protocol := protocol_name (protocol s); ss_url := url s;
     ss_request_headers := btree_iter (request_headers s);
     ss_cookies := StoredCookie_from <$> cookies s;
     ss_origin := origin s; ss_referer := referer s;
     ss_credential_authorities := StoredAuthority_from <$> credential_authorities s;
     ss_client_disclosure := match client_disclosure s with
                             | ServerOnly => "server_only" | Public => "public" end;
     ss_expires_at := expires_at s; ss_refresh_handle := refresh_handle s;
     ss_server_egress := match server_egress s with
                         | NotRequired => "not_required" | Preferred => "preferred"
                         | Required => "required" end;
     ss_private_network := private_network s;
     ss_time_shift_available := available (time_shift s);
     ss_time_shift_window_seconds := LiveContract.window_seconds (time_shift s);
     ss_container := media s ≫= container; ss_video_codec := media s ≫= video_codec;
     ss_audio_codec := media s ≫= audio_codec |}.

Definition parse_protocol (s : string) : result StoredDescriptorError StreamProtocol :=
  if String.eqb s "hls" then Ok Hls
  else if String.eqb s "dash" then Ok Dash
  else if String.eqb s "http_progressive" then Ok HttpProgressive
  else if String.eqb s "mpeg_ts" then Ok MpegTs
  else if String.eqb s "rtmp" then Ok Rtmp
  else if String.eqb s "srt" then Ok Srt
  else Err InvalidProtocol.
Definition parse_disclosure (s : string) : result StoredDescriptorError ClientDisclosure :=
  if String.eqb s "server_only" then Ok ServerOnly
  else if String.eqb s "public" then Ok Public
  else Err InvalidClientDisclosure.
Definition parse_server_egress (s : string) : result StoredDescriptorError ServerEgress :=
  if String.eqb s "not_required" then Ok NotRequired
  else if String.eqb s "preferred" then Ok Preferred
  else if String.eqb s "required" then Ok Required
  else Err InvalidServerEgress.

(** the loop that inserts the stored headers and rejects a name inserted twice *)
Fixpoint insert_headers (l : list (string * string)) (m : gmap string string)
    : result StoredDescriptorError (gmap string string) :=
  match l with
  | [] => Ok m
  | (name, value) :: rest =>
      match m !! name with
      | Some _ => Err DuplicateHeader
      | None => insert_headers rest (<[name := value]> m)
      end
  end.

Definition to_source_descriptor (s : StoredSource) : result StoredDescriptorError SourceDescriptor :=
  p ← parse_protocol (ss_protocol s);
  cd ← parse_disclosure (ss_client_disclosure s);
  se ← parse_server_egress (ss_server_egress s);
  headers ← insert_headers (ss_request_headers s) ∅;
  Ok {| stream_id := ss_stream_id s; label := ss_label s; quality := ss_quality s;
        language := ss_language s; priority := ss_priority s; protocol := p; url := ss_url s;
        request_headers := headers; cookies := StoredCookie_to <$> ss_cookies s;
        origin := ss_origin s; referer := ss_referer s;
        credential_authorities := StoredAuthority_to <$> ss_credential_authorities s;
        client_disclosure := cd; expires_at := ss_expires_at s;
        refresh_handle := ss_refresh_handle s; server_egress := se;
        private_network := ss_private_network s;
        time_shift := {| available := ss_time_shift_available s;
                         window_seconds := ss_time_shift_window_seconds s |};
        media := if is_some_b (ss_container s) || is_some_b (ss_video_codec s)
                    || is_some_b (ss_audio_codec s)
                 then Some {| container := ss_container s; video_codec := ss_video_codec s;
                              audio_codec := ss_audio_codec s |}
                 else None |}.

Definition from_resolved (resolved : ResolvedSources) (provider_revision : string)
    (plan : DeliveryPlan) (playback_url : option string)
    : result StoredDescriptorError StoredSessionDescriptor :=
  let sources := from_source <$> descriptor resolved :: alternatives resolved in
  _ ← reject_if (is_none_b (sources !! selected_source_index plan)) SelectedSourceMissing;
  Ok {| sd_provider_revision := provider_revision;
        sd_decision_reason := PlannerReason_as_str (plan_reason plan);
        sd_playback_url := playback_url;
        sd_selected_source_index := selected_source_index plan;
        sd_sources := sources; sd_egress := StoredEgressPolicy.default;
        sd_recovery := StoredRecoveryState_default |}.

Definition selected (d : StoredSessionDescriptor) : option StoredSource :=
  sd_sources d !! sd_selected_source_index d.

(** ** Round trips *)
(** What storing does to a source: media hints that hint nothing are dropped. *)
Definition normalize_media (m : option MediaHints) : option MediaHints :=
  match m with
  | Some {| container := None; video_codec := None; audio_codec := None |} => None
  | _ => m
  end.
Definition normalize_source (s : SourceDescriptor) : SourceDescriptor :=
  {| stream_id := stream_id s; label := label s; quality := quality s; language := language s;
     priority := priority s; protocol := protocol s; url := url s;
     request_headers := request_headers s; cookies := cookies s; origin := origin s;
     referer := referer s; credential_authorities := credential_authorities s;
     client_disclosure := client_disclosure s; expires_at := expires_at s;
     refresh_handle := refresh_handle s; server_egress := server_egress s;
     private_network := private_network s; time_shift := time_shift s;
     media := normalize_media (media s) |}.

Lemma insert_headers_nodup l m :
  NoDup l.*1 -> (forall k, k ∈ l.*1 -> m !! k = None) ->
  insert_headers l m = Ok (list_to_map l ∪ m).
Proof.
  revert m. induction l as [|[k v] l IH]; intros m Hn Hm; cbn.
  - by rewrite (left_id_L ∅ (∪)).
  - apply NoDup_cons in Hn as [Hk Hn]. rewrite Hm by (left; done). rewrite IH; [|done|].
    + f_equal. rewrite <- insert_union_l. symmetry. apply insert_union_r.
      by apply not_elem_of_list_to_map_1.
    + intros k' Hk'. rewrite lookup_insert_ne by set_solver. apply Hm. by right.
Qed.

Lemma insert_headers_btree m : insert_headers (btree_iter m) ∅ = Ok m.
Proof.
  rewrite insert_headers_nodup; [|apply btree_iter_nodup|by intros; apply lookup_empty].
  by rewrite btree_iter_to_map, (right_id_L ∅ (∪)).
Qed.

Lemma parse_protocol_name p : parse_protocol (protocol_name p) = Ok p.
Proof. by destruct p. Qed.

Lemma cookies_roundtrip (l : list ProviderCookie) : StoredCookie_to <$> (StoredCookie_from <$> l) = l.
Proof. rewrite <- list_fmap_compose. induction l as [|[] l IH]; [done|]. by rewrite fmap_cons, IH. Qed.
Lemma authorities_roundtrip (l : list CredentialAuthority) :
  StoredAuthority_to <$> (StoredAuthority_from <$> l) = l.
Proof. rewrite <- list_fmap_compose. induction l as [|[] l IH]; [done|]. by rewrite fmap_cons, IH. Qed.

Lemma normalize_media_hints m (f : MediaHints -> option string) :
  f {| container := None; video_codec := None; audio_codec := None |} = None ->
  normalize_media m ≫= f = m ≫= f.
Proof. by destruct m as [[[|] [|] [|]]|]. Qed.

Lemma to_from_source s : to_source_descriptor (from_source s) = Ok (normalize_source s).
Proof.
  unfold to_source_descriptor, from_source.
  cbn [ss_protocol ss_client_disclosure ss_server_egress ss_request_headers].
  rewrite parse_protocol_name, insert_headers_btree. cbn.
  replace (parse_disclosure _) with (Ok (E := StoredDescriptorError) (client_disclosure s))
    by by destruct (client_disclosure s).
  replace (parse_server_egress _) with (Ok (E := StoredDescriptorError) (server_egress s))
    by by destruct (server_egress s).
  cbn [mbind result_bind ss_stream_id ss_label ss_quality ss_language ss_priority ss_url ss_cookies
    ss_origin ss_referer ss_credential_authorities ss_expires_at ss_refresh_handle ss_private_network
    ss_time_shift_available ss_time_shift_window_seconds ss_container ss_video_codec ss_audio_codec].
  rewrite cookies_roundtrip, authorities_roundtrip. unfold normalize_source. repeat f_equal.
  - by destruct (time_shift s).
  - by destruct (media s) as [[[|] [|] [|]]|].
Qed.

(** *** The planner does not see the difference *)
Section planner.
Context `{UrlOps}.

Lemma evaluate_source_normalized s input :
  evaluate_source (normalize_source s) input = evaluate_source s input.
Proof.
  assert (forall c, supports_codecs c (normalize_source s) = supports_codecs c s) as Hc
    by (intros c; unfold supports_codecs; cbn; by destruct (media s) as [[[|] [|] [|]]|]).
  assert (copy_compatible (normalize_source s) = copy_compatible s) as Hcc
    by (unfold copy_compatible; cbn; by destruct (media s) as [[[|] [|] [|]]|]).
  unfold evaluate_source, evaluate_checks, plan_remux. rewrite Hc, Hcc. cbn.
  by rewrite normalize_media_hints.
Qed.

Definition with_sources (input : PlannerInput) (r : ResolvedSources) : PlannerInput :=
  {| sources := r; client := client input; policy := policy input;
     requirements := requirements input; now := now input |}.
Definition normalize_resolved (r : ResolvedSources) : ResolvedSources :=
  {| descriptor := normalize_source (descriptor r);
     alternatives := normalize_source <$> alternatives r |}.

Lemma evaluate_source_with_sources s input r :
  evaluate_source s (with_sources input r) = evaluate_source s input.
Proof. done. Qed.

Lemma scan_sources_normalized input r l n st :
  fold_left (scan_source (with_sources input r)) (imap (fun i s => (n + i, normalize_source s)) l) st =
  fold_left (scan_source input) (imap (fun i s => (n + i, s)) l) st.
Proof.
  revert n st. induction l as [|s l IH]; intros n st; [done|].
  rewrite !imap_cons. cbn [fold_left].
  assert (scan_source (with_sources input r) st (n + 0, normalize_source s) =
          scan_source input st (n + 0, s)) as ->
    by (unfold scan_source; by rewrite evaluate_source_with_sources, evaluate_source_normalized).
  etrans; [|etrans; [apply (IH (S n))|]]; f_equal; apply imap_ext; intros i x _; cbn; f_equal; lia.
Qed.

Lemma plan_delivery_normalized input :
  plan_delivery (with_sources input (normalize_resolved (sources input))) = plan_delivery input.
Proof.
  unfold plan_delivery. cbn [sources with_sources client policy alternatives normalize_resolved].
  rewrite length_fmap. case_match; [done|].
  assert (scan_sources (with_sources input (normalize_resolved (sources input)))
      (imap pair (candidate_sources (normalize_resolved (sources input)))) =
    scan_sources input (imap pair (candidate_sources (sources input)))) as ->; [|done].
  unfold scan_sources, candidate_sources, normalize_resolved. cbn [descriptor alternatives].
  rewrite <- fmap_cons, imap_fmap. exact (scan_sources_normalized input _ _ 0 _).
Qed.
End planner.

Lemma egress_mode_roundtrip m : EgressPolicyMode.parse (EgressPolicyMode.as_str m) = Ok m.
Proof. by destruct m. Qed.
Lemma egress_source_roundtrip s : EgressPolicySource.parse (EgressPolicySource.as_str s) = Ok s.
Proof. by destruct s. Qed.

Lemma to_from_effective p :
  StoredEgressPolicy.to_effective (StoredEgressPolicy.from_effective p) =
  if is_ok (validate_effective_policy p) then Ok p else Err InvalidEgressPolicy.
Proof.
  destruct p as [m i f r s]. unfold StoredEgressPolicy.to_effective, StoredEgressPolicy.from_effective.
  cbn [StoredEgressPolicy.mode StoredEgressPolicy.source StoredEgressPolicy.policy_id
    StoredEgressPolicy.allow_fallback StoredEgressPolicy.revision eff_mode eff_source eff_policy_id
    eff_allow_fallback eff_revision].
  rewrite egress_mode_roundtrip, egress_source_roundtrip. cbn [map_err mbind result_bind].
  by destruct (validate_effective_policy _) as [[]|e].
Qed.

Lemma parse_mode_name v m :
  map_err (fun _ => InvalidEgressPolicy) (EgressPolicyMode.parse v) = Ok m -> EgressPolicyMode.as_str m = v.
Proof.
  unfold EgressPolicyMode.parse.
  repeat case_string. all: cbn [map_err]; by intros [= <-].
Qed.
Lemma parse_source_name v m :
  map_err (fun _ => InvalidEgressPolicy) (EgressPolicySource.parse v) = Ok m ->
  EgressPolicySource.as_str m = v.
Proof.
  unfold EgressPolicySource.parse.
  repeat case_string. all: cbn [map_err]; by intros [= <-].
Qed.

Lemma select_effective_policy_valid cs p :
  select_effective_policy cs = Ok p -> is_ok (validate_effective_policy p) = true.
Proof.
  unfold select_effective_policy. intros (r & Hr & Hp)%result_bind_ok. ok_inv.
  destruct cs as [|c cs]; [by injection Hr as <-|].
  destruct (select_loop_some _ _ _ c Hr (or_intror (list_elem_of_here _ _))) as (w & -> & _ & [?|Hw]);
    [done|].
  transitivity (is_ok (validate_candidate w)); [by destruct w|].
  by rewrite (select_loop_valid _ _ _ Hr w Hw).
Qed.

(** * Properties *)

(** A stored source reads back as the source it was made from, except that media hints with no hint
    in them are dropped; header names are unique in the stored list, so [DuplicateHeader] is never
    returned.  The difference is invisible to the planner: planning over the sources read back gives the
    same plan, or the same rejection, as planning over the resolved sources. *)
Theorem stored_sources_replan_identically `{UrlOps} (input : PlannerInput) :
  exists d alts,
    to_source_descriptor (from_source (descriptor (sources input))) = Ok d /\
    mapM (M := option) to_option
      ((fun s => to_source_descriptor (from_source s)) <$> alternatives (sources input)) = Some alts /\
    plan_delivery (with_sources input {| descriptor := d; alternatives := alts |}) =
    plan_delivery input.
Proof.
  exists (normalize_source (descriptor (sources input))),
    (normalize_source <$> alternatives (sources input)).
  split; [apply to_from_source|]. split; [|apply plan_delivery_normalized].
  induction (alternatives (sources input)) as [|s l IH]; [done|].
  rewrite fmap_cons. cbn [mapM]. by rewrite to_from_source, IH.
Qed.

(** What [from_resolved] stores for a plan is the plan's selection over all the resolved sources.  It
    fails only when the plan's index names no source, which no plan made from these sources does; the
    selected entry then reads back as the source the planner selected. *)
Theorem stored_selection_is_planned `{UrlOps} (input : PlannerInput) (plan : DeliveryPlan)
    (provider_revision : string) (playback_url : option string) :
  plan_delivery input = Ok plan ->
  exists d stored s c,
    from_resolved (sources input) provider_revision plan playback_url = Ok d /\
    selected d = Some stored /\
    to_source_descriptor stored = Ok (normalize_source s) /\
    candidate_sources (sources input) !! selected_source_index plan = Some s /\
    evaluate_source s input = Ok c /\ plan_reason plan = cand_reason c /\
    length (sd_sources d) = length (candidate_sources (sources input)).
Proof.
  intros (s & c & Hs & Hev & _ & Hr & _)%plan_selected_source.
  assert ((from_source <$> candidate_sources (sources input)) !! selected_source_index plan =
    Some (from_source s)) as Hstored by (by rewrite list_lookup_fmap, Hs).
  unfold from_resolved, selected. fold (candidate_sources (sources input)). rewrite Hstored. cbn.
  eexists _, (from_source s), s, c. split; [done|]. cbn. split_and!; try done.
  - apply to_from_source.
  - by rewrite length_fmap.
Qed.

(** An effective egress policy that the selection produced survives storage unchanged, and anything
    [to_effective] accepts is a valid policy that [from_effective] stores back as the very same record;
    no stored text reads as a policy the validation of the egress module would refuse. *)
Theorem stored_egress_policy_roundtrip candidates p (stored : StoredEgressPolicy.t) q :
  (select_effective_policy candidates = Ok p ->
     StoredEgressPolicy.to_effective (StoredEgressPolicy.from_effective p) = Ok p) /\
  (StoredEgressPolicy.to_effective stored = Ok q ->
     StoredEgressPolicy.from_effective q = stored /\ is_ok (validate_effective_policy q) = true).
Proof.
  split.
  - intros Hp. by rewrite to_from_effective, (select_effective_policy_valid _ _ Hp).
  - destruct stored as [m i f r src]. unfold StoredEgressPolicy.to_effective. cbn.
    intros (m' & Hm & (src' & Hsrc & (u & Hv & Hq)%result_bind_ok)%result_bind_ok)%result_bind_ok.
    apply parse_mode_name in Hm as <-. apply parse_source_name in Hsrc as <-. ok_inv.
    split; [done|]. by destruct (validate_effective_policy _).
Qed.

(** ** Witnesses *)
Lemma stored_selection_is_planned_witness :
  exists d stored, from_resolved (sources (Planner.demo_input Off)) "rev-1"
      (demo_plan ClientDirect PublicCompatibleDirect None NoToken) None = Ok d /\
    selected d = Some stored.
Proof.
  destruct (@stored_selection_is_planned demo_url_ops _ _ "rev-1" None demo_direct)
    as (d & stored & s & c & Hd & Hs & _).
  exists d, stored. exact (conj Hd Hs).
Defined.

Lemma stored_egress_policy_roundtrip_witness :
  StoredEgressPolicy.to_effective (StoredEgressPolicy.from_effective (to_effective default_candidate))
    = Ok (to_effective default_candidate) /\
  StoredEgressPolicy.from_effective (to_effective default_candidate) = StoredEgressPolicy.default.
Proof.
  destruct (stored_egress_policy_roundtrip [] (to_effective default_candidate)
    StoredEgressPolicy.default (to_effective default_candidate)) as [H1 H2].
  split; [exact (H1 eq_refl)|exact (proj1 (H2 eq_refl))].
Defined.
