(* ===== verification/ControlLease.v ===== *)
(** * The control lease (src/src/live/lease.rs, src/migrations/0056_live_streaming.sql)

    One database row elects the server instance that may drive Live sessions.  Every change of holder
    increments its fencing token, which the session repository compares on each write.  An operation is
    one SQL statement on the row: the model gives the row before and after it, with the WHERE and CASE
    conditions of the statement.  A comparison with NULL is not true, so a condition on a nullable
    column is a test on an [option].  Timestamps are instants: the text form the statements compare has
    the order of time ([to_rfc3339] in UTC), and the codecs of uuids and timestamps are not modelled. *)
From S2P Require Import Prelude LiveContract.

Record ControlLease := {
  cl_owner_instance_id : uuid;
  cl_fencing_token : Z;
  cl_acquired_at : instant;
  cl_heartbeat_at : instant;
  cl_expires_at : instant;
}.

(** The row, and [PersistedControlLease], which has the same fields. *)
Record LeaseRow := {
  lr_owner_instance_id : option uuid;
  lr_fencing_token : Z;
  lr_acquired_at : option instant;
  lr_heartbeat_at : option instant;
  lr_expires_at : option instant;
}.
#[export] Instance LeaseRow_eq_dec : EqDecision LeaseRow.
Proof. solve_decision. Defined.

Inductive ControlLeaseError := Held | FenceExhausted | InvalidLeaseState | LeaseDatabase.
#[export] Instance ControlLeaseError_eq_dec : EqDecision ControlLeaseError.
Proof. solve_decision. Defined.

(** ** The table: its CHECK constraints and its update trigger *)
Definition lease_initial : LeaseRow :=
  {| lr_owner_instance_id := None; lr_fencing_token := 0; lr_acquired_at := None;
     lr_heartbeat_at := None; lr_expires_at := None |}.

Definition lease_check (r : LeaseRow) : bool :=
  (0 <=? lr_fencing_token r)%Z
  && ((is_none_b (lr_owner_instance_id r) && is_none_b (lr_acquired_at r)
       && is_none_b (lr_heartbeat_at r) && is_none_b (lr_expires_at r))
      || (is_some_b (lr_owner_instance_id r) && is_some_b (lr_acquired_at r)
          && is_some_b (lr_heartbeat_at r) && is_some_b (lr_expires_at r))).

(** the WHEN of [trg_live_control_lease_guard]: the update is aborted when it holds *)
Definition lease_guard (old new : LeaseRow) : bool :=
  (lr_fencing_token new <? lr_fencing_token old)%Z
  || (lr_fencing_token old + 1 <? lr_fencing_token new)%Z
  || (negb (bool_decide (lr_owner_instance_id new = lr_owner_instance_id old))
      && is_some_b (lr_owner_instance_id new)
      && negb (lr_fencing_token new =? lr_fencing_token old + 1)%Z).

(** What the database does with the row an UPDATE computed. *)
Definition apply_update (old new : LeaseRow) : result ControlLeaseError LeaseRow :=
  if lease_guard old new || negb (lease_check new) then Err LeaseDatabase else Ok new.

(** ** Reading the row *)
Definition into_persisted (r : LeaseRow) : result ControlLeaseError LeaseRow :=
  _ ← reject_if (lr_fencing_token r <? 0)%Z InvalidLeaseState;
  let timestamps_present :=
    [is_some_b (lr_acquired_at r); is_some_b (lr_heartbeat_at r); is_some_b (lr_expires_at r)] in
  _ ← reject_if
        (negb (Bool.eqb (is_some_b (lr_owner_instance_id r)) (forallb id timestamps_present))
         || (is_none_b (lr_owner_instance_id r) && existsb id timestamps_present))
        InvalidLeaseState;
  Ok r.

Definition into_active (r : LeaseRow) : result ControlLeaseError ControlLease :=
  p ← into_persisted r;
  owner ← ok_or (lr_owner_instance_id p) InvalidLeaseState;
  acquired ← ok_or (lr_acquired_at p) InvalidLeaseState;
  heartbeat ← ok_or (lr_heartbeat_at p) InvalidLeaseState;
  expires ← ok_or (lr_expires_at p) InvalidLeaseState;
  Ok {| cl_owner_instance_id := owner; cl_fencing_token := lr_fencing_token p;
        cl_acquired_at := acquired; cl_heartbeat_at := heartbeat; cl_expires_at := expires |}.

(** ** Operations *)
(** [chrono::Duration::from_std]: at most [i64::MAX] milliseconds; [ttl] is in nanoseconds *)
Definition duration_from_std (ttl : Z) : result ControlLeaseError Z :=
  _ ← reject_if (i64_max * 1000000 <? ttl)%Z InvalidLeaseState;
  Ok ttl.

Definition heartbeat_interval_secs (ttl_secs : Z) : Z := Z.max (ttl_secs / 3) 1.

Definition sql_eq {A} `{EqDecision A} (column : option A) (value : A) : bool :=
  is_some_and (fun v => bool_decide (v = value)) column.
Definition sql_gt (column : option Z) (value : Z) : bool := is_some_and (fun v => value <? v)%Z column.
Definition sql_le (column : option Z) (value : Z) : bool := is_some_and (fun v => v <=? value)%Z column.

(** the UPDATE of [acquire]: [None] when its WHERE selects no row *)
Definition acquire_update (owner : uuid) (now expires : instant) (r : LeaseRow) : option LeaseRow :=
  if (lr_fencing_token r <? i64_max)%Z
     && (is_none_b (lr_owner_instance_id r)
         || sql_eq (lr_owner_instance_id r) owner
         || sql_le (lr_expires_at r) now)
  then
    let continues := sql_eq (lr_owner_instance_id r) owner && sql_gt (lr_expires_at r) now in
    Some {| lr_fencing_token := if continues then lr_fencing_token r else lr_fencing_token r + 1;
            lr_owner_instance_id := Some owner;
            lr_acquired_at := if continues then lr_acquired_at r else Some now;
            lr_heartbeat_at := Some now;
            lr_expires_at := Some expires |}
  else None.

(** [acquire]: when the UPDATE selects no row the current row is read again; other instances may have
    changed it in between, so the later row is an argument. *)
Definition acquire (ttl : Z) (owner : uuid) (now : instant) (r later : LeaseRow)
    : result ControlLeaseError ControlLease * LeaseRow :=
  match duration_from_std ttl with
  | Err e => (Err e, r)
  | Ok ttl =>
      match acquire_update owner now (now + ttl) r with
      | Some new =>
          match apply_update r new with
          | Err e => (Err e, r)
          | Ok new => (into_active new, new)
          end
      | None =>
          (match into_persisted later with
           | Err e => Err e
           | Ok current =>
               if (lr_fencing_token current =? i64_max)%Z then Err FenceExhausted
               else if is_some_b (lr_owner_instance_id current) then Err Held
               else Err InvalidLeaseState
           end, r)
      end
  end.

Definition renew_update (lease : ControlLease) (now expires : instant) (r : LeaseRow) : option LeaseRow :=
  if sql_eq (lr_owner_instance_id r) (cl_owner_instance_id lease)
     && (lr_fencing_token r =? cl_fencing_token lease)%Z
     && sql_gt (lr_expires_at r) now
  then Some {| lr_owner_instance_id := lr_owner_instance_id r; lr_fencing_token := lr_fencing_token r;
               lr_acquired_at := lr_acquired_at r; lr_heartbeat_at := Some now;
               lr_expires_at := Some expires |}
  else None.

Definition renew (ttl : Z) (lease : ControlLease) (now : instant) (r : LeaseRow)
    : result ControlLeaseError (option ControlLease) * LeaseRow :=
  match duration_from_std ttl with
  | Err e => (Err e, r)
  | Ok ttl =>
      match renew_update lease now (now + ttl) r with
      | Some new =>
          match apply_update r new with
          | Err e => (Err e, r)
          | Ok new => (Some <$> into_active new, new)
          end
      | None => (Ok None, r)
      end
  end.

Definition release_update (lease : ControlLease) (r : LeaseRow) : option LeaseRow :=
  if sql_eq (lr_owner_instance_id r) (cl_owner_instance_id lease)
     && (lr_fencing_token r =? cl_fencing_token lease)%Z
  then Some {| lr_owner_instance_id := None; lr_fencing_token := lr_fencing_token r;
               lr_acquired_at := None; lr_heartbeat_at := None; lr_expires_at := None |}
  else None.

Definition release (lease : ControlLease) (r : LeaseRow) : result ControlLeaseError bool * LeaseRow :=
  match release_update lease r with
  | Some new =>
      match apply_update r new with
      | Err e => (Err e, r)
      | Ok new => (Ok true, new)
      end
  | None => (Ok false, r)
  end.

Definition current (r : LeaseRow) : result ControlLeaseError LeaseRow := into_persisted r.

(** ** The row invariant *)
(** The CHECK of the table, as the two shapes a row can have. *)
Inductive lease_shape : LeaseRow -> Prop :=
| shape_free k : (0 <= k)%Z ->
    lease_shape {| lr_owner_instance_id := None; lr_fencing_token := k; lr_acquired_at := None;
                   lr_heartbeat_at := None; lr_expires_at := None |}
| shape_held o k a h e : (0 <= k)%Z ->
    lease_shape {| lr_owner_instance_id := Some o; lr_fencing_token := k; lr_acquired_at := Some a;
                   lr_heartbeat_at := Some h; lr_expires_at := Some e |}.

Lemma lease_check_shape r : lease_check r = true <-> lease_shape r.
Proof.
  split.
  - destruct r as [[o|] k [a|] [h|] [e|]]; unfold lease_check; cbn; intros Hc;
      rewrite ?andb_false_r in Hc; try discriminate Hc; bool_hyps; by constructor.
  - intros []; unfold lease_check; cbn; lia.
Qed.

Lemma into_persisted_shape r : lease_shape r -> into_persisted r = Ok r.
Proof.
  intros []; unfold into_persisted; cbn; by rewrite (proj2 (Z.ltb_ge k 0)).
Qed.

Lemma into_active_held o k a h e : (0 <= k)%Z ->
  into_active {| lr_owner_instance_id := Some o; lr_fencing_token := k; lr_acquired_at := Some a;
                 lr_heartbeat_at := Some h; lr_expires_at := Some e |} =
  Ok {| cl_owner_instance_id := o; cl_fencing_token := k; cl_acquired_at := a; cl_heartbeat_at := h;
        cl_expires_at := e |}.
Proof. intros Hk. unfold into_active. rewrite into_persisted_shape by by constructor. done. Qed.

(** ** Effect of the operations *)
Section lease.
Variable ttl : Z.
Hypothesis ttl_range : (0 <= ttl <= i64_max * 1000000)%Z.

Lemma duration_from_std_ok : duration_from_std ttl = Ok ttl.
Proof. unfold duration_from_std. by rewrite (proj2 (Z.ltb_ge _ _)) by lia. Qed.

Definition grant (owner : uuid) (token : Z) (acquired now : instant) : ControlLease :=
  {| cl_owner_instance_id := owner; cl_fencing_token := token; cl_acquired_at := acquired;
     cl_heartbeat_at := now; cl_expires_at := now + ttl |}.
Definition held_row (l : ControlLease) : LeaseRow :=
  {| lr_owner_instance_id := Some (cl_owner_instance_id l); lr_fencing_token := cl_fencing_token l;
     lr_acquired_at := Some (cl_acquired_at l); lr_heartbeat_at := Some (cl_heartbeat_at l);
     lr_expires_at := Some (cl_expires_at l) |}.
Definition freed_row (token : Z) : LeaseRow :=
  {| lr_owner_instance_id := None; lr_fencing_token := token; lr_acquired_at := None;
     lr_heartbeat_at := None; lr_expires_at := None |}.

(** What [acquire] must do: continue an unexpired lease of the same owner, take over a free or expired
    one under the next token, and otherwise say why not. *)
Definition acquire_spec (owner : uuid) (now : instant) (r later : LeaseRow)
    : result ControlLeaseError ControlLease * LeaseRow :=
  let refuse :=
    (Err (if (lr_fencing_token later =? i64_max)%Z then FenceExhausted
          else if is_some_b (lr_owner_instance_id later) then Held else InvalidLeaseState), r) in
  let take l := (Ok l, held_row l) in
  if (i64_max <=? lr_fencing_token r)%Z then refuse else
  match lr_owner_instance_id r, lr_acquired_at r, lr_expires_at r with
  | Some o, Some a, Some e =>
      if (now <? e)%Z
      then if bool_decide (o = owner) then take (grant owner (lr_fencing_token r) a now) else refuse
      else take (grant owner (lr_fencing_token r + 1) now now)
  | _, _, _ => take (grant owner (lr_fencing_token r + 1) now now)
  end.

Lemma lease_shape_held l : (0 <= cl_fencing_token l)%Z -> lease_shape (held_row l).
Proof. by constructor. Qed.

Lemma into_active_held_row l : (0 <= cl_fencing_token l)%Z -> into_active (held_row l) = Ok l.
Proof. intros Hk. unfold held_row. rewrite into_active_held by done. by destruct l. Qed.

Lemma apply_update_held r l :
  (0 <= cl_fencing_token l)%Z ->
  cl_fencing_token l = (lr_fencing_token r + 1)%Z \/
    cl_fencing_token l = lr_fencing_token r /\ lr_owner_instance_id r = Some (cl_owner_instance_id l) ->
  apply_update r (held_row l) = Ok (held_row l).
Proof.
  intros Hk Hl. unfold apply_update. rewrite (proj2 (lease_check_shape _)) by by apply lease_shape_held.
  assert (lease_guard r (held_row l) = false) as ->; [|done]. unfold lease_guard; cbn.
  destruct Hl as [->|[-> ->]]; [|rewrite bool_decide_eq_true_2 by done]; cbn;
    repeat (apply orb_false_iff; split); lia.
Qed.

Lemma acquire_takes owner now r later l :
  acquire_update owner now (now + ttl) r = Some (held_row l) ->
  (0 <= cl_fencing_token l)%Z ->
  cl_fencing_token l = (lr_fencing_token r + 1)%Z \/
    cl_fencing_token l = lr_fencing_token r /\ lr_owner_instance_id r = Some (cl_owner_instance_id l) ->
  acquire ttl owner now r later = (Ok l, held_row l).
Proof.
  intros Hu Hk Hl. unfold acquire. by rewrite duration_from_std_ok, Hu, apply_update_held, into_active_held_row.
Qed.

Lemma acquire_refuses owner now r later :
  acquire_update owner now (now + ttl) r = None -> lease_shape later ->
  acquire ttl owner now r later =
  (Err (if (lr_fencing_token later =? i64_max)%Z then FenceExhausted
        else if is_some_b (lr_owner_instance_id later) then Held else InvalidLeaseState), r).
Proof.
  intros Hu Hl. unfold acquire. rewrite duration_from_std_ok, Hu, into_persisted_shape by done.
  by repeat case_match.
Qed.

Lemma acquire_correct owner now r later :
  lease_shape r -> lease_shape later -> acquire ttl owner now r later = acquire_spec owner now r later.
Proof.
  intros Hr Hl. unfold acquire_spec. destruct (i64_max <=? lr_fencing_token r)%Z eqn:Hmax.
  { apply acquire_refuses; [|done]. unfold acquire_update. by rewrite Z.ltb_antisym, Hmax. }
  apply Z.leb_gt, Z.ltb_lt in Hmax.
  destruct Hr as [k Hk|o k a h e Hk]; cbn in Hmax |- *.
  { apply acquire_takes; cbn; [|lia|by left]. unfold acquire_update; cbn. by rewrite Hmax. }
  destruct (now <? e)%Z eqn:He; [case_bool_decide as Ho|].
  - subst o. apply acquire_takes; cbn; [|lia|by right].
    unfold acquire_update; cbn. by rewrite Hmax, He, bool_decide_eq_true_2.
  - apply acquire_refuses; [|done].
    unfold acquire_update; cbn. rewrite Hmax, bool_decide_eq_false_2 by done.
    by rewrite Z.leb_antisym, He.
  - apply acquire_takes; cbn; [|lia|by left].
    unfold acquire_update; cbn. by rewrite Hmax, He, Z.leb_antisym, He, andb_false_r, orb_true_r.
Qed.

(** [renew] extends the lease it is given when it is still the current one and has not expired. *)
Definition renew_spec (l : ControlLease) (now : instant) (r : LeaseRow)
    : result ControlLeaseError (option ControlLease) * LeaseRow :=
  match lr_owner_instance_id r, lr_acquired_at r, lr_expires_at r with
  | Some o, Some a, Some e =>
      if bool_decide (o = cl_owner_instance_id l) && (lr_fencing_token r =? cl_fencing_token l)%Z
         && (now <? e)%Z
      then let l' := grant o (lr_fencing_token r) a now in (Ok (Some l'), held_row l')
      else (Ok None, r)
  | _, _, _ => (Ok None, r)
  end.

Lemma renew_takes l now r l' :
  renew_update l now (now + ttl) r = Some (held_row l') -> (0 <= cl_fencing_token l')%Z ->
  cl_fencing_token l' = lr_fencing_token r /\ lr_owner_instance_id r = Some (cl_owner_instance_id l') ->
  renew ttl l now r = (Ok (Some l'), held_row l').
Proof.
  intros Hu Hk Hl. unfold renew.
  by rewrite duration_from_std_ok, Hu, apply_update_held, into_active_held_row by auto.
Qed.

Lemma renew_correct l now r : lease_shape r -> renew ttl l now r = renew_spec l now r.
Proof.
  intros Hr. unfold renew_spec. destruct Hr as [k Hk|o k a h e Hk].
  { unfold renew. by rewrite duration_from_std_ok. }
  cbn [lr_owner_instance_id lr_acquired_at lr_expires_at lr_fencing_token]. case_match eqn:Hc.
  - apply renew_takes; [|done|done]. unfold renew_update, sql_eq, sql_gt.
    cbn [lr_owner_instance_id lr_acquired_at lr_expires_at lr_fencing_token is_some_and]. by rewrite Hc.
  - unfold renew, renew_update, sql_eq, sql_gt. rewrite duration_from_std_ok.
    cbn [lr_owner_instance_id lr_acquired_at lr_expires_at lr_fencing_token is_some_and]. by rewrite Hc.
Qed.

Definition release_spec (l : ControlLease) (r : LeaseRow) : result ControlLeaseError bool * LeaseRow :=
  if bool_decide (lr_owner_instance_id r = Some (cl_owner_instance_id l))
     && (lr_fencing_token r =? cl_fencing_token l)%Z
  then (Ok true, freed_row (lr_fencing_token r)) else (Ok false, r).

Lemma release_correct l r : lease_shape r -> release l r = release_spec l r.
Proof.
  intros Hr. unfold release, release_spec, release_update.
  replace (sql_eq (lr_owner_instance_id r) (cl_owner_instance_id l))
    with (bool_decide (lr_owner_instance_id r = Some (cl_owner_instance_id l))).
  2:{ destruct (lr_owner_instance_id r) as [o|]; cbn; [|done]. apply bool_decide_ext. naive_solver. }
  destruct (bool_decide _ && _); [|done]. unfold apply_update.
  assert (0 <= lr_fencing_token r)%Z by (by destruct Hr).
  rewrite (proj2 (lease_check_shape _)) by by constructor.
  assert (lease_guard r (freed_row (lr_fencing_token r)) = false) as Hg.
  { unfold lease_guard; cbn. repeat (apply orb_false_iff; split); lia. }
  unfold freed_row in *. by rewrite Hg.
Qed.

Lemma acquire_keeps_shape owner now r later :
  lease_shape r -> lease_shape later -> lease_shape (snd (acquire ttl owner now r later)).
Proof.
  intros Hr Hl. rewrite acquire_correct by done. unfold acquire_spec.
  assert (0 <= lr_fencing_token r)%Z by (by destruct Hr).
  repeat case_match; try done; apply lease_shape_held; cbn; lia.
Qed.
Lemma renew_keeps_shape l now r : lease_shape r -> lease_shape (snd (renew ttl l now r)).
Proof.
  intros Hr. rewrite renew_correct by done. unfold renew_spec.
  assert (0 <= lr_fencing_token r)%Z by (by destruct Hr).
  repeat case_match; try done; by apply lease_shape_held.
Qed.
Lemma release_keeps_shape l r : lease_shape r -> lease_shape (snd (release l r)).
Proof.
  intros Hr. rewrite release_correct by done. unfold release_spec.
  assert (0 <= lr_fencing_token r)%Z by (by destruct Hr).
  by case_match; [constructor|].
Qed.

(** ** Runs *)
(** The instances sharing the database: each step is one operation at the database's time, which does
    not go back.  [log] records what was issued, newest first: the leases returned by [acquire] and
    [renew], and the releases. *)
Inductive lease_event := Issued (l : ControlLease) | Released (owner : uuid) (token : Z).

Definition acquire_event (res : result ControlLeaseError ControlLease) : list lease_event :=
  match res with Ok l => [Issued l] | Err _ => [] end.
Definition renew_event (res : result ControlLeaseError (option ControlLease)) : list lease_event :=
  match res with Ok (Some l) => [Issued l] | _ => [] end.
Definition release_event (held : ControlLease) (res : result ControlLeaseError bool) : list lease_event :=
  match res with
  | Ok true => [Released (cl_owner_instance_id held) (cl_fencing_token held)]
  | _ => []
  end.

(** The leases an instance passes to [renew] and [release] are arbitrary, as is the row that a failing
    [acquire] reads afterwards, as long as it satisfies the table's CHECK. *)
Inductive lease_run : LeaseRow -> list lease_event -> instant -> Prop :=
| run_init now : lease_run lease_initial [] now
| run_acquire r log t owner now later :
    lease_run r log t -> (t <= now)%Z -> lease_check later = true ->
    lease_run (snd (acquire ttl owner now r later))
      (acquire_event (fst (acquire ttl owner now r later)) ++ log) now
| run_renew r log t held now :
    lease_run r log t -> (t <= now)%Z ->
    lease_run (snd (renew ttl held now r)) (renew_event (fst (renew ttl held now r)) ++ log) now
| run_release r log t held now :
    lease_run r log t -> (t <= now)%Z ->
    lease_run (snd (release held r)) (release_event held (fst (release held r)) ++ log) now.

Definition released (l : ControlLease) (log : list lease_event) : Prop :=
  Released (cl_owner_instance_id l) (cl_fencing_token l) ∈ log.

(** An issued lease is the row's current one, or has been released, or is over. *)
Definition lease_status (r : LeaseRow) (log : list lease_event) (t : instant) (l : ControlLease) : Prop :=
  (0 <= cl_fencing_token l <= lr_fencing_token r)%Z /\
  (lr_fencing_token r = cl_fencing_token l ->
     released l log /\ lr_owner_instance_id r = None
     \/ lr_owner_instance_id r = Some (cl_owner_instance_id l) /\
        exists e, lr_expires_at r = Some e /\ (cl_expires_at l <= e)%Z) /\
  ((cl_fencing_token l < lr_fencing_token r)%Z -> released l log \/ (cl_expires_at l <= t)%Z).
Record lease_inv (r : LeaseRow) (log : list lease_event) (t : instant) : Prop := {
  li_shape : lease_shape r;
  li_expires : forall e, lr_expires_at r = Some e -> (e <= t + ttl)%Z;
  li_status : forall l, Issued l ∈ log -> lease_status r log t l;
  li_unique : forall l l', Issued l ∈ log -> Issued l' ∈ log ->
    cl_fencing_token l = cl_fencing_token l' -> cl_owner_instance_id l = cl_owner_instance_id l';
}.

Lemma lease_inv_later r log t now : (t <= now)%Z -> lease_inv r log t -> lease_inv r log now.
Proof.
  intros Hle [Hsh He Hst Hu]. split; try done.
  - intros e Hr. specialize (He e Hr). lia.
  - intros l Hl. destruct (Hst l Hl) as (Hb & Hcur & Hold). split; [done|split; [done|]].
    intros Hlt. destruct (Hold Hlt); [by left|right; lia].
Qed.

(** A new lease is issued: it either extends the row's lease or follows one that is over. *)
Lemma lease_inv_issue r log now l :
  lease_inv r log now -> cl_expires_at l = (now + ttl)%Z ->
  (cl_fencing_token l = lr_fencing_token r /\ lr_owner_instance_id r = Some (cl_owner_instance_id l)) \/
  (cl_fencing_token l = (lr_fencing_token r + 1)%Z /\
     (lr_owner_instance_id r = None \/ exists e, lr_expires_at r = Some e /\ (e <= now)%Z)) ->
  lease_inv (held_row l) (Issued l :: log) now.
Proof.
  intros [Hsh He Hst Hu] Hexp Hcase.
  assert (0 <= cl_fencing_token l)%Z as Hk by (destruct Hsh; cbn in *; lia).
  assert (forall l', Issued l' ∈ log -> lease_status (held_row l) (Issued l :: log) now l' /\
    (cl_fencing_token l' = cl_fencing_token l -> cl_owner_instance_id l' = cl_owner_instance_id l)) as Hall.
  { intros l' Hl'. destruct (Hst l' Hl') as (Hb & Hcur & Hold). unfold lease_status, released in *.
    cbn. destruct Hcase as [[Htok Hown]|[Htok Hfree]]; rewrite Htok.
    - split; [split_and!; [lia|lia| |]|].
      + intros Heq. destruct (Hcur Heq) as [[_ Hn]|[Ho (e & He' & Hle)]]; [congruence|].
        right. split; [congruence|]. exists (cl_expires_at l). split; [done|].
        specialize (He e He'). lia.
      + intros Hlt. destruct (Hold Hlt); [left; by right|by right].
      + intros Heq. destruct (Hcur (eq_sym Heq)) as [[_ Hn]|[Ho _]]; congruence.
    - split; [split_and!; [lia|lia|lia|]|lia].
      intros _. destruct (decide (lr_fencing_token r = cl_fencing_token l')) as [Heq|Hne].
      + destruct (Hcur Heq) as [[Hrel _]|[Ho (e & He' & Hle)]]; [left; by right|].
        destruct Hfree as [Hn|(e' & He'' & Hle')]; [congruence|]. right. simplify_eq. lia.
      + destruct Hold; [lia|left; by right|by right]. }
  split.
  - by apply lease_shape_held.
  - cbn. intros e [= <-]. lia.
  - intros l' [[= ->]|Hl']%elem_of_cons; [|by apply Hall].
    unfold lease_status; cbn. split_and!; [lia|lia| |lia]. intros _. right. split; [done|]. eexists. split; [done|lia].
  - intros l1 l2 [[= ->]|H1]%elem_of_cons [[= ->]|H2]%elem_of_cons Heq; [done|..].
    + symmetry. by apply Hall.
    + by apply Hall.
    + by apply Hu.
Qed.

Lemma lease_inv_release r log now l :
  lease_inv r log now -> lr_owner_instance_id r = Some (cl_owner_instance_id l) ->
  lr_fencing_token r = cl_fencing_token l ->
  lease_inv (freed_row (lr_fencing_token r))
    (Released (cl_owner_instance_id l) (cl_fencing_token l) :: log) now.
Proof.
  intros [Hsh He Hst Hu] Ho Hk. split.
  - constructor. destruct Hsh; done.
  - done.
  - intros l' [|Hl']%elem_of_cons; [done|]. destruct (Hst l' Hl') as (Hb & Hcur & Hold).
    unfold lease_status, released in *; cbn. split_and!; [lia|lia| |].
    + intros Heq. left. split; [|done].
      destruct (Hcur Heq) as [[Hrel _]|[Ho' _]]; [by right|].
      apply elem_of_cons. left. congruence.
    + intros Hlt. destruct (Hold Hlt); [left; by right|by right].
  - intros l1 l2 [|H1]%elem_of_cons [|H2]%elem_of_cons; try done. by apply Hu.
Qed.

Lemma lease_run_inv r log t : lease_run r log t -> lease_inv r log t.
Proof.
  induction 1 as [now|r log t owner now later Hr IH Hle Hl|r log t held now Hr IH Hle
    |r log t held now Hr IH Hle].
  - split; [by constructor|done|by intros l ?%elem_of_nil|by intros l l' ?%elem_of_nil].
  - apply (lease_inv_later _ _ _ now Hle) in IH. pose proof (li_shape _ _ _ IH) as Hsh.
    rewrite acquire_correct by (done || by apply lease_check_shape). unfold acquire_spec.
    case_match; [done|]. destruct Hsh as [k Hk|o k a h e Hk]; cbn.
    { apply (lease_inv_issue _ _ _ (grant _ _ _ _) IH); [done|]. right. cbn. auto. }
    destruct (now <? e)%Z eqn:He; [case_bool_decide as Ho|]; cbn; [|done|].
    + apply (lease_inv_issue _ _ _ (grant _ _ _ _) IH); [done|]. left. cbn. by subst.
    + apply (lease_inv_issue _ _ _ (grant _ _ _ _) IH); [done|]. right. cbn. bool_hyps. eauto.
  - apply (lease_inv_later _ _ _ now Hle) in IH. pose proof (li_shape _ _ _ IH) as Hsh.
    rewrite renew_correct by done. unfold renew_spec. destruct Hsh as [k Hk|o k a h e Hk]; [done|]. cbn.
    case_match; [|done]. apply (lease_inv_issue _ _ _ (grant _ _ _ _) IH); [done|]. by left.
  - apply (lease_inv_later _ _ _ now Hle) in IH. pose proof (li_shape _ _ _ IH) as Hsh.
    rewrite release_correct by done. unfold release_spec. case_match; [|done]. bool_hyps.
    by apply lease_inv_release.
Qed.
End lease.

Definition issued_lease (e : lease_event) : option ControlLease :=
  match e with Issued l => Some l | Released _ _ => None end.
(** the leases issued so far, newest first *)
Definition issued (log : list lease_event) : list ControlLease := omap issued_lease log.

Lemma issued_elem l log : l ∈ issued log <-> Issued l ∈ log.
Proof.
  unfold issued. rewrite list_elem_of_omap. split; [|by exists (Issued l)].
  intros (e & He & Hl). destruct e; naive_solver.
Qed.

Definition fenced (newer older : ControlLease) : Prop :=
  (cl_fencing_token older <= cl_fencing_token newer)%Z /\
  (cl_owner_instance_id older <> cl_owner_instance_id newer ->
   cl_fencing_token older < cl_fencing_token newer)%Z.

Lemma fenced_cons ttl r l log t :
  lease_inv ttl r (Issued l :: log) t -> lr_fencing_token r = cl_fencing_token l ->
  StronglySorted fenced (issued log) -> StronglySorted fenced (issued (Issued l :: log)).
Proof.
  intros Hi Htok Hs. apply SSorted_cons; [done|]. apply Forall_forall. intros x Hx%issued_elem.
  destruct (li_status _ _ _ _ Hi x) as (Hb & _); [by right|]. split; [lia|]. intros Hne.
  assert (cl_fencing_token x <> cl_fencing_token l); [|lia]. intros Heq. apply Hne.
  by apply (li_unique _ _ _ _ Hi); [by right|left|].
Qed.

(** A step issues nothing, or issues the lease the row then holds. *)
Lemma acquire_issues ttl owner now r later :
  (0 <= ttl <= i64_max * 1000000)%Z -> lease_shape r -> lease_shape later ->
  acquire_event (fst (acquire ttl owner now r later)) = [] \/
  exists l, acquire_event (fst (acquire ttl owner now r later)) = [Issued l] /\
    snd (acquire ttl owner now r later) = held_row l.
Proof.
  intros Ht Hr Hl. rewrite acquire_correct by done. unfold acquire_spec. repeat case_match; eauto.
Qed.
Lemma renew_issues ttl held now r :
  (0 <= ttl <= i64_max * 1000000)%Z -> lease_shape r ->
  renew_event (fst (renew ttl held now r)) = [] \/
  exists l, renew_event (fst (renew ttl held now r)) = [Issued l] /\
    snd (renew ttl held now r) = held_row l.
Proof. intros Ht Hr. rewrite renew_correct by done. unfold renew_spec. repeat case_match; eauto. Qed.
Lemma release_issues held r : issued (release_event held (fst (release held r))) = [].
Proof. by destruct (fst (release held r)) as [[]|]. Qed.

Lemma run_fenced ttl r log t :
  (0 <= ttl <= i64_max * 1000000)%Z -> lease_run ttl r log t -> StronglySorted fenced (issued log).
Proof.
  intros Httl Hr. induction Hr as [now|r log t owner now later Hr IH Hle Hl|r log t held now Hr IH Hle
    |r log t held now Hr IH Hle].
  - apply SSorted_nil.
  - pose proof (li_shape _ _ _ _ (lease_run_inv ttl Httl _ _ _ Hr)) as Hsh.
    pose proof (lease_run_inv ttl Httl _ _ _ (run_acquire ttl _ _ _ owner _ _ Hr Hle Hl)) as Hi.
    apply lease_check_shape in Hl.
    destruct (acquire_issues ttl owner now r later Httl Hsh Hl) as [->|(l & He & Hrow)]; [done|].
    rewrite He, Hrow in *. by eapply fenced_cons.
  - pose proof (li_shape _ _ _ _ (lease_run_inv ttl Httl _ _ _ Hr)) as Hsh.
    pose proof (lease_run_inv ttl Httl _ _ _ (run_renew ttl _ _ _ held _ Hr Hle)) as Hi.
    destruct (renew_issues ttl held now r Httl Hsh) as [->|(l & He & Hrow)]; [done|].
    rewrite He, Hrow in *. by eapply fenced_cons.
  - unfold issued. rewrite omap_app. fold (issued (release_event held (release held r).1)).
    by rewrite release_issues.
Qed.

(** * Properties *)

(** C5: At most one instance holds Live control.  In every interleaving of [acquire], [renew] and
    [release] by any number of instances, two issued leases that are neither released nor past their
    expiry belong to the same instance and carry the same fencing token, and that instance and token
    are the ones the row names. *)
Theorem control_lease_exclusive ttl r log t l l' :
  (0 <= ttl <= i64_max * 1000000)%Z -> lease_run ttl r log t ->
  Issued l ∈ log -> ~ released l log -> (t < cl_expires_at l)%Z ->
  Issued l' ∈ log -> ~ released l' log -> (t < cl_expires_at l')%Z ->
  cl_owner_instance_id l = cl_owner_instance_id l' /\ cl_fencing_token l = cl_fencing_token l' /\
  lr_owner_instance_id r = Some (cl_owner_instance_id l) /\ lr_fencing_token r = cl_fencing_token l.
Proof.
  intros Httl Hr Hl Hnr Ht Hl' Hnr' Ht'. apply lease_run_inv in Hr; [|done].
  assert (forall x, Issued x ∈ log -> ~ released x log -> (t < cl_expires_at x)%Z ->
    lr_owner_instance_id r = Some (cl_owner_instance_id x) /\ lr_fencing_token r = cl_fencing_token x) as H.
  { intros x Hx Hn Hlt. destruct (li_status _ _ _ _ Hr x Hx) as (Hb & Hcur & Hold).
    destruct (decide (lr_fencing_token r = cl_fencing_token x)) as [Heq|Hne].
    - destruct (Hcur Heq) as [[? _]|[Ho _]]; done.
    - destruct Hold as [?|?]; [lia|done|lia]. }
  destruct (H l), (H l'); try done. split_and!; congruence.
Qed.

(** Fencing tokens order the holders.  Tokens never decrease over the leases issued ([issued] lists
    them newest first), a lease issued to another instance has a strictly larger token than any lease
    before it, and none exceeds the token of the row; so a token below the row's is always stale. *)
Theorem control_lease_fencing_monotone ttl r log t :
  (0 <= ttl <= i64_max * 1000000)%Z -> lease_run ttl r log t ->
  StronglySorted fenced (issued log) /\
  Forall (fun l => (cl_fencing_token l <= lr_fencing_token r)%Z) (issued log).
Proof.
  intros Httl Hr. split; [by eapply run_fenced|].
  apply Forall_forall. intros l Hl%issued_elem.
  by apply (li_status _ _ _ _ (lease_run_inv ttl Httl _ _ _ Hr)).
Qed.

(** On any row the table admits, [acquire], [renew] and [release] do exactly what their
    specifications say: [acquire] continues the caller's unexpired lease under its token, takes a free or
    expired lease under the next token and is refused otherwise; [renew] extends only the current
    unexpired lease; [release] frees only the current one.  The update trigger and the CHECK constraints
    never reject an update, and the row left behind satisfies them. *)
Theorem lease_operations_meet_spec ttl owner l now r later :
  (0 <= ttl <= i64_max * 1000000)%Z -> lease_check r = true -> lease_check later = true ->
  acquire ttl owner now r later = acquire_spec ttl owner now r later /\
  renew ttl l now r = renew_spec ttl l now r /\
  release l r = release_spec l r /\
  lease_check (snd (acquire ttl owner now r later)) = true /\
  lease_check (snd (renew ttl l now r)) = true /\
  lease_check (snd (release l r)) = true.
Proof.
  intros Ht Hr%lease_check_shape Hl%lease_check_shape. split_and!.
  - by apply acquire_correct.
  - by apply renew_correct.
  - by apply (release_correct ttl).
  - apply lease_check_shape. by apply acquire_keeps_shape.
  - apply lease_check_shape. by apply renew_keeps_shape.
  - apply lease_check_shape. by apply (release_keeps_shape ttl).
Qed.

(** A crashed holder does not block Live control for ever.  In any run, once a time-to-live has passed
    since the last operation, and as long as the fencing tokens are not exhausted, any instance's
    [acquire] succeeds and leaves the row held by that instance. *)
Theorem control_lease_taken_over ttl r log t owner now later :
  (0 <= ttl <= i64_max * 1000000)%Z -> lease_run ttl r log t ->
  (t + ttl <= now)%Z -> (lr_fencing_token r < i64_max)%Z ->
  exists l, acquire ttl owner now r later = (Ok l, held_row l) /\
    cl_owner_instance_id l = owner /\ cl_expires_at l = (now + ttl)%Z /\
    (lr_fencing_token r < cl_fencing_token l)%Z.
Proof.
  intros Httl Hr Hnow Hmax. pose proof (lease_run_inv ttl Httl _ _ _ Hr) as [Hsh He _ _].
  exists (grant ttl owner (lr_fencing_token r + 1) now now). split; [|split_and!; [done|done|cbn; lia]].
  apply acquire_takes; [done| |destruct Hsh; cbn in *; lia|by left].
  apply Z.ltb_lt in Hmax. destruct Hsh as [k Hk|o k a h e Hk]; unfold acquire_update; cbn in *.
  - by rewrite Hmax.
  - specialize (He e eq_refl). rewrite Hmax, (proj2 (Z.ltb_ge now e)), (proj2 (Z.leb_le e now)) by lia.
    by rewrite andb_false_r, orb_true_r.
Qed.

(** ** Witnesses *)
Definition demo_lease_row : LeaseRow := snd (acquire 30 7 100 lease_initial lease_initial).
Definition demo_lease : ControlLease :=
  {| cl_owner_instance_id := 7; cl_fencing_token := 1; cl_acquired_at := 100; cl_heartbeat_at := 100;
     cl_expires_at := 130 |}.
Lemma demo_lease_run : lease_run 30 demo_lease_row [Issued demo_lease] 100.
Proof.
  exact (run_acquire 30 lease_initial [] 0 7 100 lease_initial (run_init 30 0) ltac:(lia) eq_refl).
Qed.

Lemma control_lease_exclusive_witness : lr_owner_instance_id demo_lease_row = Some 7%N.
Proof.
  refine (proj1 (proj2 (proj2 (control_lease_exclusive 30 demo_lease_row _ 100 demo_lease demo_lease
    _ demo_lease_run _ _ _ _ _ _)))).
  all: first [by left|by intros ?%list_elem_of_singleton|vm_compute; split; discriminate|reflexivity].
Defined.

Lemma control_lease_fencing_monotone_witness :
  StronglySorted fenced (issued [Issued demo_lease]).
Proof.
  refine (proj1 (control_lease_fencing_monotone 30 demo_lease_row _ 100 _ demo_lease_run)).
  vm_compute; split; discriminate.
Defined.

Lemma lease_operations_meet_spec_witness :
  acquire 30 8 110 demo_lease_row demo_lease_row = (Err Held, demo_lease_row).
Proof.
  refine (proj1 (lease_operations_meet_spec 30 8 demo_lease 110 demo_lease_row demo_lease_row
    _ eq_refl eq_refl)).
  vm_compute; split; discriminate.
Defined.

Lemma control_lease_taken_over_witness :
  exists l, acquire 30 8 130 demo_lease_row demo_lease_row = (Ok l, held_row l).
Proof.
  destruct (control_lease_taken_over 30 demo_lease_row _ 100 8 130 demo_lease_row
    ltac:(vm_compute; split; discriminate) demo_lease_run ltac:(lia) eq_refl) as (l & Hl & _).
  exists l. exact Hl.
Defined.
