(* ===== verification/Crypto.v ===== *)
(** * Envelopes, delivery tokens and correlation hashes (src/src/live/crypto.rs)

    Secrets are stored as text envelopes sealed under a key derived from a master key, the purpose and the
    key id; delivery tokens are stored as keyed hashes.  The cryptographic primitives (AES-256-GCM,
    HKDF-SHA256, HMAC-SHA256) and the base64 alphabet come from crates: they are the operations of
    [CryptoPrims], and [CryptoLaws] states what their documentation promises.  The random bytes the code
    asks [OsRng] for are an argument, [None] when it fails; the read-write lock around the two primary key
    ids only serialises their updates, so an operation takes the [LiveCrypto] it sees.  Bytes and texts are
    byte strings; zeroisation and redacted printing are not modelled. *)
From S2P Require Import Prelude Bytes.

(** ** External primitives *)
Class CryptoPrims := {
  (** [Aes256Gcm::encrypt]: key, nonce, message, associated data; the tag is appended *)
  aead_seal : string -> string -> string -> string -> option string;
  (** [Aes256Gcm::decrypt] *)
  aead_open : string -> string -> string -> string -> option string;
  (** [Hkdf::<Sha256>::new(Some(salt), ikm).expand(info, 32 bytes)] *)
  hkdf : string -> string -> string -> option string;
  (** [Hmac<Sha256>]: key, message *)
  hmac : string -> string -> string;
  (** [URL_SAFE_NO_PAD] and [STANDARD] of the base64 crate *)
  b64url_encode : string -> string;
  b64url_decode : string -> option string;
  b64_decode : string -> option string;
}.

(** [A-Za-z0-9-_] *)
Definition b64url_byte (c : ascii) : bool :=
  is_alnum c || Ascii.eqb c "-"%char || Ascii.eqb c "_"%char.

Class CryptoLaws (P : CryptoPrims) : Prop := {
  seal_open k n m a c : aead_seal k n m a = Some c -> aead_open k n c a = Some m;
  open_seal k n m a c : aead_open k n c a = Some m -> aead_seal k n m a = Some c;
  seal_defined k n m a : (slen m <= 1048576)%Z -> is_Some (aead_seal k n m a);
  seal_length k n m a c : aead_seal k n m a = Some c -> slen c = (slen m + 16)%Z;
  hkdf_defined salt ikm info : is_Some (hkdf salt ikm info);
  hmac_length k m : slen (hmac k m) = 32%Z;
  b64url_roundtrip s : b64url_decode (b64url_encode s) = Some s;
  b64url_alphabet s : all_bytes b64url_byte (b64url_encode s) = true;
  b64url_length s : slen (b64url_encode s) = ((slen s * 4 + 2) / 3)%Z;
}.

(** ** Constants *)
Definition ENVELOPE_PREFIX : string := "elx-live".
Definition ENVELOPE_VERSION : string := "v1".
Definition ENVELOPE_SALT : string := "elixir.live.envelope.v1".
Definition ENVELOPE_AAD_DOMAIN : string := "elixir.live.envelope".
Definition DELIVERY_TOKEN_PREFIX : string := "elx_live_v1_".
Definition TOKEN_HASH_PREFIX : string := "elx-live-token-hash".
Definition TOKEN_HASH_VERSION : string := "v1".
Definition TOKEN_HASH_SALT : string := "elixir.live.token-hash.v1".
Definition TOKEN_HASH_INFO : string := "delivery-token".
Definition CORRELATION_HASH_PREFIX : string := "elx-live-correlation-hash".
Definition CORRELATION_HASH_VERSION : string := "v1".
Definition CORRELATION_HASH_INFO : string := "correlation-hash".
Definition AES_GCM_NONCE_BYTES : Z := 12.
Definition AES_GCM_TAG_BYTES : Z := 16.
Definition DELIVERY_TOKEN_BYTES : Z := 32.
Definition SHA256_BYTES : Z := 32.
Definition MAX_KEY_ID_BYTES : Z := 32.
Definition MAX_CONTEXT_FIELD_BYTES : Z := 512.
Definition MAX_PLAINTEXT_BYTES : Z := 1048576.
Definition MAX_ENVELOPE_TEXT_BYTES : Z := 1500000.

Inductive LiveCryptoError :=
| InvalidConfiguration (message : string)
| EncryptionFailed
| DecryptionFailed
| InvalidDeliveryToken.
#[export] Instance LiveCryptoError_eq_dec : EqDecision LiveCryptoError.
Proof. solve_decision. Defined.

(** ** Key ids, contexts *)
Definition key_id_byte (c : ascii) : bool :=
  is_alnum c || Ascii.eqb c "-"%char || Ascii.eqb c "_"%char.
Definition validate_key_id (value : string) : result string unit :=
  if str_empty value || (MAX_KEY_ID_BYTES <? slen value)%Z
  then Err "key ID must contain 1 to 32 bytes"
  else if negb (all_bytes key_id_byte value)
  then Err "key ID contains characters outside the path-safe alphabet"
  else Ok ().
Definition validate_live_key_id (value : string) : result LiveCryptoError unit :=
  map_err InvalidConfiguration (validate_key_id value).

Inductive EnvelopePurpose :=
| Descriptor | ItemSnapshot | IdempotencyResponse | WorkerDescriptor | SealedApiKey
| CatalogItemKey | CatalogCursor | StreamOptionKey | SourceKey | ArtworkKey.
#[export] Instance EnvelopePurpose_eq_dec : EqDecision EnvelopePurpose.
Proof. solve_decision. Defined.
Definition purpose_str (p : EnvelopePurpose) : string :=
  match p with
  | Descriptor => "descriptor"
  | ItemSnapshot => "item-snapshot"
  | IdempotencyResponse => "idempotency-response"
  | WorkerDescriptor => "worker-descriptor"
  | SealedApiKey => "sealed-api-key"
  | CatalogItemKey => "catalog-item-key"
  | CatalogCursor => "catalog-cursor"
  | StreamOptionKey => "stream-option-key"
  | SourceKey => "source-key"
  | ArtworkKey => "artwork-key"
  end.

Record EnvelopeContext := {
  ctx_purpose : EnvelopePurpose;
  ctx_table : string;
  ctx_record_id : string;
  ctx_column : string;
}.

Definition validate_context_field (value label : string) : result LiveCryptoError unit :=
  if str_empty value || (MAX_CONTEXT_FIELD_BYTES <? slen value)%Z
     || negb (String.eqb (trim value) value) || any_control value
  then Err (InvalidConfiguration
    (if String.eqb label "table" then "invalid envelope table context"
     else if String.eqb label "record id" then "invalid envelope record context"
     else if String.eqb label "column" then "invalid envelope column context"
     else "invalid envelope context"))
  else Ok ().

Definition EnvelopeContext_new (purpose : EnvelopePurpose) (table record_id column : string)
    : result LiveCryptoError EnvelopeContext :=
  _ ← validate_context_field table "table";
  _ ← validate_context_field record_id "record id";
  _ ← validate_context_field column "column";
  Ok {| ctx_purpose := purpose; ctx_table := table; ctx_record_id := record_id; ctx_column := column |}.

Inductive CorrelationHashPurpose :=
| CorrItemKey | CorrStreamOptionKey | CorrIdempotencyKey | CorrIdempotencyRequest.
#[export] Instance CorrelationHashPurpose_eq_dec : EqDecision CorrelationHashPurpose.
Proof. solve_decision. Defined.
Definition correlation_str (p : CorrelationHashPurpose) : string :=
  match p with
  | CorrItemKey => "item-key"
  | CorrStreamOptionKey => "stream-option-key"
  | CorrIdempotencyKey => "idempotency-key"
  | CorrIdempotencyRequest => "idempotency-request"
  end.

(** ** Master keys *)
Record LiveMasterKey := { mk_key_id : string; mk_material : string }.
Record LiveTokenHash := { th_encoded : string; th_key_id : string }.

(** [material] is a [[u8; 32]]: 32 bytes by its type *)
Definition LiveMasterKey_new (key_id material : string) : result LiveCryptoError LiveMasterKey :=
  _ ← map_err InvalidConfiguration (validate_key_id key_id);
  Ok {| mk_key_id := key_id; mk_material := material |}.

Section prims.
Context `{CryptoPrims}.

Definition LiveMasterKey_from_base64 (key_id encoded : string) : result LiveCryptoError LiveMasterKey :=
  decoded ← ok_or (b64_decode (trim encoded)) (InvalidConfiguration "master key is not base64");
  _ ← reject_if (negb (slen decoded =? 32)%Z)
        (InvalidConfiguration "master key must contain exactly 32 bytes");
  LiveMasterKey_new key_id decoded.

(** ** Contexts bound into keys and associated data *)
Definition append_length_prefixed (output value : string) : result LiveCryptoError string :=
  _ ← reject_if (u32_max <? slen value)%Z
        (InvalidConfiguration "cryptographic context field is too long");
  Ok (output +:+ be32 (slen value) +:+ value).
Fixpoint append_fields (output : string) (fields : list string) : result LiveCryptoError string :=
  match fields with
  | [] => Ok output
  | f :: rest => output ← append_length_prefixed output f; append_fields output rest
  end.

Definition derive_envelope_key (master_key key_id : string) (purpose : EnvelopePurpose)
    : result LiveCryptoError string :=
  info ← append_fields "" [key_id; purpose_str purpose];
  ok_or (hkdf ENVELOPE_SALT master_key info) (InvalidConfiguration "envelope key derivation failed").

Definition derive_token_hash_key (master_key key_id : string) : result LiveCryptoError string :=
  info ← append_fields "" [key_id; TOKEN_HASH_INFO];
  ok_or (hkdf TOKEN_HASH_SALT master_key info) (InvalidConfiguration "token hash key derivation failed").

Definition derive_correlation_hash_key (master_key key_id : string) (purpose : CorrelationHashPurpose)
    : result LiveCryptoError string :=
  info ← append_fields "" [key_id; CORRELATION_HASH_INFO; correlation_str purpose];
  ok_or (hkdf TOKEN_HASH_SALT master_key info)
    (InvalidConfiguration "correlation hash key derivation failed").

Definition envelope_aad (c : EnvelopeContext) (key_id : string) : result LiveCryptoError string :=
  append_fields "" [ENVELOPE_AAD_DOMAIN; ENVELOPE_VERSION; purpose_str (ctx_purpose c); ctx_table c;
    ctx_record_id c; ctx_column c; key_id].

(** ** Text formats *)
Definition decode_canonical_base64url (value : string) : result LiveCryptoError string :=
  _ ← reject_if (str_empty value || contains_char "="%char value) DecryptionFailed;
  decoded ← ok_or (b64url_decode value) DecryptionFailed;
  _ ← reject_if (negb (String.eqb (b64url_encode decoded) value)) DecryptionFailed;
  Ok decoded.

Record ParsedEnvelope := { pe_key_id : string; pe_nonce : string; pe_ciphertext : string }.

Definition parse_envelope (envelope : string) : result LiveCryptoError ParsedEnvelope :=
  _ ← reject_if ((MAX_ENVELOPE_TEXT_BYTES <? slen envelope)%Z || negb (all_bytes is_ascii_byte envelope))
        DecryptionFailed;
  match split_char ":"%char envelope with
  | prefix :: version :: key_id :: nonce_encoded :: ciphertext_encoded :: rest =>
      _ ← reject_if (negb (String.eqb prefix ENVELOPE_PREFIX) || negb (String.eqb version ENVELOPE_VERSION))
            DecryptionFailed;
      _ ← reject_if (negb (bool_decide (rest = [])) || negb (is_ok (validate_key_id key_id)))
            DecryptionFailed;
      nonce ← decode_canonical_base64url nonce_encoded;
      _ ← reject_if (negb (slen nonce =? AES_GCM_NONCE_BYTES)%Z) DecryptionFailed;
      ciphertext ← decode_canonical_base64url ciphertext_encoded;
      _ ← reject_if (negb ((AES_GCM_TAG_BYTES <=? slen ciphertext)%Z
                           && (slen ciphertext <=? MAX_PLAINTEXT_BYTES + AES_GCM_TAG_BYTES)%Z))
            DecryptionFailed;
      Ok {| pe_key_id := key_id; pe_nonce := nonce; pe_ciphertext := ciphertext |}
  | _ => Err DecryptionFailed
  end.

(** the [format!] of [encrypt] *)
Definition envelope_text (key_id nonce ciphertext : string) : string :=
  join ":"%char [ENVELOPE_PREFIX; ENVELOPE_VERSION; key_id; b64url_encode nonce; b64url_encode ciphertext].
Definition token_hash_text (key_id digest : string) : string :=
  join ":"%char [TOKEN_HASH_PREFIX; TOKEN_HASH_VERSION; key_id; b64url_encode digest].
Definition correlation_hash_text (key_id digest : string) : string :=
  join ":"%char [CORRELATION_HASH_PREFIX; CORRELATION_HASH_VERSION; key_id; b64url_encode digest].

Definition parse_token_hash (value : string) : option (string * string) :=
  match split_char ":"%char value with
  | prefix :: version :: key_id :: digest_encoded :: rest =>
      if negb (String.eqb prefix TOKEN_HASH_PREFIX) || negb (String.eqb version TOKEN_HASH_VERSION)
      then None
      else if negb (bool_decide (rest = [])) || negb (is_ok (validate_key_id key_id))
              || contains_char "="%char digest_encoded
      then None
      else digest ← b64url_decode digest_encoded;
        if negb (slen digest =? SHA256_BYTES)%Z || negb (String.eqb (b64url_encode digest) digest_encoded)
        then None
        else Some (key_id, digest)
  | _ => None
  end.

Definition correlation_hash_key_id (value : string) : option string :=
  match split_char ":"%char value with
  | prefix :: version :: key_id :: digest :: rest =>
      if negb (String.eqb prefix CORRELATION_HASH_PREFIX)
         || negb (String.eqb version CORRELATION_HASH_VERSION)
      then None
      else if negb (bool_decide (rest = [])) || negb (is_ok (validate_key_id key_id)) then None
      else decoded ← to_option (decode_canonical_base64url digest);
        if (slen decoded =? SHA256_BYTES)%Z then Some key_id else None
  | _ => None
  end.

(** ** Delivery tokens *)
Definition validate_delivery_token (value : string) : result LiveCryptoError unit :=
  encoded ← ok_or (strip_prefix DELIVERY_TOKEN_PREFIX value) InvalidDeliveryToken;
  decoded ← ok_or (b64url_decode encoded) InvalidDeliveryToken;
  reject_if (negb (slen decoded =? DELIVERY_TOKEN_BYTES)%Z
             || negb (String.eqb (b64url_encode decoded) encoded)) InvalidDeliveryToken.

(** a [LiveDeliveryToken] is the string it wraps *)
Definition LiveDeliveryToken_generate (random : option string) : result LiveCryptoError string :=
  random ← ok_or random EncryptionFailed;
  Ok (DELIVERY_TOKEN_PREFIX +:+ b64url_encode random).
Definition LiveDeliveryToken_parse (value : string) : result LiveCryptoError string :=
  _ ← validate_delivery_token value;
  Ok value.
End prims.

(** ** The key ring *)
Record LiveCrypto := {
  envelope_primary : string;
  token_hash_primary : string;
  envelope_keys : gmap string string;
  token_hash_keys : gmap string string;
}.

Fixpoint index_keys (keys : list LiveMasterKey) (indexed : gmap string string)
    : result LiveCryptoError (gmap string string) :=
  match keys with
  | [] => Ok indexed
  | k :: rest =>
      match indexed !! mk_key_id k with
      | Some _ => Err (InvalidConfiguration "master key IDs must be unique within each key domain")
      | None => index_keys rest (<[mk_key_id k := mk_material k]> indexed)
      end
  end.

Definition new_with_domain_keys (envelope_primary_key_id : string) (envelope : list LiveMasterKey)
    (token_hash_primary_key_id : string) (token_hash : list LiveMasterKey)
    : result LiveCryptoError LiveCrypto :=
  _ ← map_err InvalidConfiguration (validate_key_id envelope_primary_key_id);
  _ ← map_err InvalidConfiguration (validate_key_id token_hash_primary_key_id);
  envelope_keys ← index_keys envelope ∅;
  token_hash_keys ← index_keys token_hash ∅;
  _ ← reject_if (is_none_b (envelope_keys !! envelope_primary_key_id)
                 || is_none_b (token_hash_keys !! token_hash_primary_key_id))
        (InvalidConfiguration "primary key ID is not configured");
  Ok {| envelope_primary := envelope_primary_key_id; token_hash_primary := token_hash_primary_key_id;
        envelope_keys := envelope_keys; token_hash_keys := token_hash_keys |}.
Definition new_with_primaries (envelope_primary_key_id token_hash_primary_key_id : string)
    (keys : list LiveMasterKey) : result LiveCryptoError LiveCrypto :=
  new_with_domain_keys envelope_primary_key_id keys token_hash_primary_key_id keys.
Definition LiveCrypto_new (primary_key_id : string) (keys : list LiveMasterKey)
    : result LiveCryptoError LiveCrypto :=
  new_with_primaries primary_key_id primary_key_id keys.

(** [rotate_envelope_primary] and [rotate_token_hash_primary] return the previous primary. *)
Definition rotate_envelope_primary (c : LiveCrypto) (key_id : string)
    : result LiveCryptoError (string * LiveCrypto) :=
  _ ← map_err InvalidConfiguration (validate_key_id key_id);
  _ ← reject_if (is_none_b (envelope_keys c !! key_id))
        (InvalidConfiguration "envelope key ID is not configured");
  Ok (envelope_primary c,
      {| envelope_primary := key_id; token_hash_primary := token_hash_primary c;
         envelope_keys := envelope_keys c; token_hash_keys := token_hash_keys c |}).
Definition rotate_token_hash_primary (c : LiveCrypto) (key_id : string)
    : result LiveCryptoError (string * LiveCrypto) :=
  _ ← map_err InvalidConfiguration (validate_key_id key_id);
  _ ← reject_if (is_none_b (token_hash_keys c !! key_id))
        (InvalidConfiguration "token-hash key ID is not configured");
  Ok (token_hash_primary c,
      {| envelope_primary := envelope_primary c; token_hash_primary := key_id;
         envelope_keys := envelope_keys c; token_hash_keys := token_hash_keys c |}).

Definition has_envelope_key (c : LiveCrypto) (key_id : string) : bool :=
  is_ok (validate_key_id key_id) && is_some_b (envelope_keys c !! key_id).
Definition has_token_hash_key (c : LiveCrypto) (key_id : string) : bool :=
  is_ok (validate_key_id key_id) && is_some_b (token_hash_keys c !! key_id).

(** every error of a step becomes one error of the operation *)
Notation "m 'or_fail' e" := (map_err (fun _ => e) m) (at level 61).

Section ring.
Context `{CryptoPrims}.

Definition encrypt (c : LiveCrypto) (ctx : EnvelopeContext) (random : option string) (plaintext : string)
    : result LiveCryptoError string :=
  _ ← reject_if (MAX_PLAINTEXT_BYTES <? slen plaintext)%Z EncryptionFailed;
  let primary_key_id := envelope_primary c in
  master_key ← ok_or (envelope_keys c !! primary_key_id) EncryptionFailed;
  key ← derive_envelope_key master_key primary_key_id (ctx_purpose ctx) or_fail EncryptionFailed;
  nonce ← ok_or random EncryptionFailed;
  aad ← envelope_aad ctx primary_key_id or_fail EncryptionFailed;
  ciphertext ← ok_or (aead_seal key nonce plaintext aad) EncryptionFailed;
  Ok (envelope_text primary_key_id nonce ciphertext).

Definition decrypt (c : LiveCrypto) (ctx : EnvelopeContext) (envelope : string)
    : result LiveCryptoError string :=
  parsed ← parse_envelope envelope;
  master_key ← ok_or (envelope_keys c !! pe_key_id parsed) DecryptionFailed;
  key ← derive_envelope_key master_key (pe_key_id parsed) (ctx_purpose ctx) or_fail DecryptionFailed;
  aad ← envelope_aad ctx (pe_key_id parsed) or_fail DecryptionFailed;
  plaintext ← ok_or (aead_open key (pe_nonce parsed) (pe_ciphertext parsed) aad) DecryptionFailed;
  _ ← reject_if (MAX_PLAINTEXT_BYTES <? slen plaintext)%Z DecryptionFailed;
  Ok plaintext.

Definition envelope_key_id (envelope : string) : result LiveCryptoError string :=
  pe_key_id <$> parse_envelope envelope.

Definition needs_reencryption (c : LiveCrypto) (envelope : string) : result LiveCryptoError bool :=
  key_id ← envelope_key_id envelope;
  Ok (negb (String.eqb key_id (envelope_primary c))).

(** [reencrypt] reads the primary key id once to decide and once to encrypt; a rotation may fall in
    between, so [later] is the ring the second read sees. *)
Definition reencrypt (c later : LiveCrypto) (ctx : EnvelopeContext) (random : option string)
    (envelope : string) : result LiveCryptoError string :=
  needed ← needs_reencryption c envelope;
  if negb needed then Ok envelope
  else plaintext ← decrypt c ctx envelope; encrypt later ctx random plaintext.

Definition hash_delivery_token (c : LiveCrypto) (token : string) : result LiveCryptoError LiveTokenHash :=
  let key_id := token_hash_primary c in
  master_key ← ok_or (token_hash_keys c !! key_id) EncryptionFailed;
  key ← derive_token_hash_key master_key key_id or_fail EncryptionFailed;
  let digest := hmac key token in
  Ok {| th_encoded := token_hash_text key_id digest; th_key_id := key_id |}.

Definition verify_delivery_token (c : LiveCrypto) (presented stored_hash : string) : bool :=
  if negb (is_ok (validate_delivery_token presented)) then false else
  match parse_token_hash stored_hash with
  | None => false
  | Some (key_id, expected_digest) =>
      match token_hash_keys c !! key_id with
      | None => false
      | Some master_key =>
          match derive_token_hash_key master_key key_id with
          | Err _ => false
          | Ok key => String.eqb (hmac key presented) expected_digest
          end
      end
  end.

Definition hash_correlation (c : LiveCrypto) (purpose : CorrelationHashPurpose) (value : string)
    : result LiveCryptoError string :=
  _ ← reject_if (str_empty value || (65536 <? slen value)%Z) EncryptionFailed;
  let key_id := token_hash_primary c in
  master_key ← ok_or (token_hash_keys c !! key_id) EncryptionFailed;
  key ← derive_correlation_hash_key master_key key_id purpose or_fail EncryptionFailed;
  Ok (correlation_hash_text key_id (hmac key value)).

Definition token_hash_key_id (value : string) : option string := fst <$> parse_token_hash value.
End ring.

(** ** Invariants *)
(** What [new_with_domain_keys] establishes and rotation keeps. *)
Record ring_wf (c : LiveCrypto) : Prop := {
  rw_envelope_primary : is_Some (envelope_keys c !! envelope_primary c);
  rw_token_primary : is_Some (token_hash_keys c !! token_hash_primary c);
  rw_envelope_ids : forall k m, envelope_keys c !! k = Some m -> validate_key_id k = Ok ();
  rw_token_ids : forall k m, token_hash_keys c !! k = Some m -> validate_key_id k = Ok ();
}.
Definition keys_valid (keys : list LiveMasterKey) : Prop :=
  Forall (fun k => validate_key_id (mk_key_id k) = Ok ()) keys.
Definition ctx_wf (x : EnvelopeContext) : Prop :=
  (slen (ctx_table x) <= MAX_CONTEXT_FIELD_BYTES)%Z /\
  (slen (ctx_record_id x) <= MAX_CONTEXT_FIELD_BYTES)%Z /\
  (slen (ctx_column x) <= MAX_CONTEXT_FIELD_BYTES)%Z.
(** Two rings that differ by rotations of the primaries only. *)
Definition same_keys (c c' : LiveCrypto) : Prop :=
  envelope_keys c' = envelope_keys c /\ token_hash_keys c' = token_hash_keys c.

Lemma index_keys_valid keys m m' :
  keys_valid keys -> (forall k v, m !! k = Some v -> validate_key_id k = Ok ()) ->
  index_keys keys m = Ok m' -> forall k v, m' !! k = Some v -> validate_key_id k = Ok ().
Proof.
  revert m. induction keys as [|x keys IH]; intros m Hv Hm; cbn; [by intros [= <-]|].
  apply Forall_cons in Hv as [Hx Hv]. destruct (m !! mk_key_id x); [done|].
  apply IH; [done|]. intros k v. rewrite lookup_insert_Some. intros [[<- _]|[_ Hk]]; [done|by eapply Hm].
Qed.

Lemma new_with_domain_keys_wf ep ek tp tk c :
  keys_valid ek -> keys_valid tk -> new_with_domain_keys ep ek tp tk = Ok c -> ring_wf c.
Proof.
  intros Hek Htk Hn. unfold new_with_domain_keys in Hn. ok_inv.
  match goal with H : _ || _ = false |- _ => apply orb_false_iff in H as [He Ht] end.
  split; cbn.
  - by destruct (_ !! ep).
  - by destruct (_ !! tp).
  - by eapply (index_keys_valid ek ∅).
  - by eapply (index_keys_valid tk ∅).
Qed.

Lemma rotate_envelope_wf c k old c' :
  ring_wf c -> rotate_envelope_primary c k = Ok (old, c') ->
  ring_wf c' /\ same_keys c c' /\ old = envelope_primary c /\ envelope_primary c' = k.
Proof.
  intros [] Hr. unfold rotate_envelope_primary in Hr. ok_inv.
  split; [split; cbn; try done|done]. by destruct (envelope_keys c !! k).
Qed.
Lemma rotate_token_hash_wf c k old c' :
  ring_wf c -> rotate_token_hash_primary c k = Ok (old, c') ->
  ring_wf c' /\ same_keys c c' /\ old = token_hash_primary c /\ token_hash_primary c' = k.
Proof.
  intros [] Hr. unfold rotate_token_hash_primary in Hr. ok_inv.
  split; [split; cbn; try done|done]. by destruct (token_hash_keys c !! k).
Qed.

(** ** Length-prefixed contexts *)
Fixpoint fields_text (fields : list string) : string :=
  match fields with
  | [] => ""
  | f :: rest => be32 (slen f) +:+ f +:+ fields_text rest
  end.
Definition fields_bounded (fields : list string) : Prop := Forall (fun f => (slen f <= u32_max)%Z) fields.

Lemma append_fields_ok out fields :
  fields_bounded fields -> append_fields out fields = Ok (out +:+ fields_text fields).
Proof.
  revert out. induction fields as [|f fields IH]; intros out Hb; [by cbn; rewrite str_app_nil_r|].
  apply Forall_cons in Hb as [Hf Hb]. cbn [append_fields]. unfold append_length_prefixed.
  rewrite (proj2 (Z.ltb_ge _ _)) by done. cbn [reject_if mbind result_bind].
  rewrite IH by done. cbn [fields_text]. by rewrite !str_app_assoc.
Qed.

Lemma append_fields_inv out fields r :
  append_fields out fields = Ok r -> fields_bounded fields /\ r = out +:+ fields_text fields.
Proof.
  revert out. induction fields as [|f fields IH]; intros out Hr; cbn [append_fields fields_text] in *.
  { ok_inv. split; [by apply Forall_nil|]. by rewrite str_app_nil_r. }
  apply result_bind_ok in Hr as (out' & Hf & [Hb ->]%IH). unfold append_length_prefixed in Hf. ok_inv.
  bool_hyps. split; [by apply Forall_cons|]. by rewrite !str_app_assoc.
Qed.

Lemma fields_text_inj l l' :
  fields_bounded l -> fields_bounded l' -> fields_text l = fields_text l' -> l = l'.
Proof.
  revert l'. induction l as [|f l IH]; intros [|f' l'] Hl Hl' H; [done|done|done|].
  apply Forall_cons in Hl as [Hf Hl]. apply Forall_cons in Hl' as [Hf' Hl']. cbn in H.
  apply length_prefixed_inj in H as [-> H]; [|done|done]. f_equal. by apply IH.
Qed.

(** ** The alphabets *)
Lemma validate_key_id_ok k :
  validate_key_id k = Ok () <->
  str_empty k = false /\ (slen k <= MAX_KEY_ID_BYTES)%Z /\ all_bytes key_id_byte k = true.
Proof.
  unfold validate_key_id. destruct (str_empty k); cbn; [naive_solver|].
  destruct (MAX_KEY_ID_BYTES <? slen k)%Z eqn:Hl; bool_hyps; [split; [done|intros (_ & ? & _); lia]|].
  destruct (all_bytes key_id_byte k); cbn; naive_solver.
Qed.

Lemma key_id_byte_spec c : key_id_byte c = true -> c <> ":"%char /\ is_ascii_byte c = true.
Proof. destruct c as [[] [] [] [] [] [] [] []]; cbv; split; congruence. Qed.
Lemma b64url_byte_spec c :
  b64url_byte c = true -> c <> ":"%char /\ c <> "="%char /\ is_ascii_byte c = true.
Proof. destruct c as [[] [] [] [] [] [] [] []]; cbv; intros ?; split_and!; congruence. Qed.

Lemma all_bytes_free_of p c s :
  (forall b, p b = true -> b <> c) -> all_bytes p s = true -> free_of c s.
Proof.
  intros Hp. induction s as [|b s IH]; [done|]. rewrite all_bytes_cons. intros H. bool_hyps.
  apply free_of_cons. split; [by apply Hp|by apply IH].
Qed.

Lemma key_id_free_of k : validate_key_id k = Ok () -> free_of ":"%char k.
Proof. intros (_ & _ & Hk)%validate_key_id_ok. by eapply all_bytes_free_of, Hk; intros ? []%key_id_byte_spec. Qed.

Section laws.
Context `{CL : CryptoLaws}.

Lemma b64url_free_colon s : free_of ":"%char (b64url_encode s).
Proof. eapply all_bytes_free_of, b64url_alphabet. by intros ? []%b64url_byte_spec. Qed.
Lemma b64url_free_equal s : contains_char "="%char (b64url_encode s) = false.
Proof. eapply all_bytes_free_of, b64url_alphabet. by intros ? (_ & ? & _)%b64url_byte_spec. Qed.

Lemma b64url_empty s : str_empty (b64url_encode s) = true <-> slen s = 0%Z.
Proof.
  pose proof (b64url_length s) as Hl. pose proof (slen_nonneg s).
  destruct (b64url_encode s) as [|c r]; cbn.
  - split; [intros _|done]. change (slen "") with 0%Z in Hl. div_lia.
  - rewrite slen_cons in Hl. pose proof (slen_nonneg r). split; [done|]. intros Hz. rewrite Hz in Hl.
    change ((0 * 4 + 2) / 3)%Z with 0%Z in Hl. lia.
Qed.

Lemma decode_canonical_ok v d :
  decode_canonical_base64url v = Ok d <-> v = b64url_encode d /\ slen d <> 0%Z.
Proof.
  unfold decode_canonical_base64url. split.
  - intros Hd. ok_inv. bool_hyps.
    match goal with H : String.eqb _ _ = true |- _ => apply String.eqb_eq in H; subst v end.
    split; [done|]. intros Hz%b64url_empty. congruence.
  - intros [-> Hne].
    assert (str_empty (b64url_encode d) = false) as -> by (apply not_true_is_false; by rewrite b64url_empty).
    rewrite b64url_free_equal. cbn [orb reject_if mbind result_bind].
    rewrite b64url_roundtrip. cbn [ok_or mbind result_bind]. by rewrite String.eqb_refl.
Qed.

Definition envelope_fits (key_id nonce ciphertext : string) : Prop :=
  validate_key_id key_id = Ok () /\ slen nonce = AES_GCM_NONCE_BYTES /\
  (AES_GCM_TAG_BYTES <= slen ciphertext <= MAX_PLAINTEXT_BYTES + AES_GCM_TAG_BYTES)%Z.

Lemma envelope_text_fields k n c :
  validate_key_id k = Ok () ->
  Forall (free_of ":"%char)
    [ENVELOPE_PREFIX; ENVELOPE_VERSION; k; b64url_encode n; b64url_encode c].
Proof.
  intros Hk. repeat apply Forall_cons_2; [done|done|by apply key_id_free_of|apply b64url_free_colon..|].
  by apply Forall_nil.
Qed.

Lemma b64url_ascii s : all_bytes is_ascii_byte (b64url_encode s) = true.
Proof. eapply all_bytes_impl, b64url_alphabet. by intros ? (_ & _ & ?)%b64url_byte_spec. Qed.

Lemma envelope_text_limits k n c :
  envelope_fits k n c ->
  (slen (envelope_text k n c) <= MAX_ENVELOPE_TEXT_BYTES)%Z /\
  all_bytes is_ascii_byte (envelope_text k n c) = true.
Proof.
  intros (Hk & Hn & Hc). apply validate_key_id_ok in Hk as (_ & Hl & Hb).
  unfold envelope_text, join. split.
  - rewrite ?slen_app, ?slen_cons, ?slen_app, ?slen_cons, ?slen_app, ?slen_cons, ?slen_app, ?slen_cons,
      !b64url_length, Hn.
    change (slen ENVELOPE_PREFIX) with 8%Z. change (slen ENVELOPE_VERSION) with 2%Z.
    unfold MAX_ENVELOPE_TEXT_BYTES, AES_GCM_NONCE_BYTES, AES_GCM_TAG_BYTES, MAX_KEY_ID_BYTES,
      MAX_PLAINTEXT_BYTES in *.
    change ((12 * 4 + 2) / 3)%Z with 16%Z.
    assert ((slen c * 4 + 2) / 3 <= 1398123)%Z by div_lia. lia.
  - rewrite ?all_bytes_app, ?all_bytes_cons, ?all_bytes_app, ?all_bytes_cons, ?all_bytes_app,
      ?all_bytes_cons, ?all_bytes_app, ?all_bytes_cons, !b64url_ascii.
    rewrite (all_bytes_impl key_id_byte is_ascii_byte k); [done| |done].
    by intros ? []%key_id_byte_spec.
Qed.

(** [parse_envelope] accepts exactly the texts [encrypt] writes. *)
Lemma parse_envelope_ok e p :
  parse_envelope e = Ok p <->
  e = envelope_text (pe_key_id p) (pe_nonce p) (pe_ciphertext p) /\
  envelope_fits (pe_key_id p) (pe_nonce p) (pe_ciphertext p).
Proof.
  unfold parse_envelope. split.
  - intros Hp. ok_inv. pose proof (join_split ":"%char e) as Hj.
    destruct (split_char ":"%char e) as [|x1 [|x2 [|k [|nt [|ct rest]]]]]; try discriminate Hp.
    ok_inv. bool_hyps.
    repeat match goal with
    | H : decode_canonical_base64url _ = Ok _ |- _ => apply decode_canonical_ok in H as [-> _]
    | H : String.eqb _ _ = true |- _ => apply String.eqb_eq in H; subst
    end. cbn [pe_key_id pe_nonce pe_ciphertext]. split; [done|].
    unfold envelope_fits. split_and!; try done.
    match goal with H : is_ok _ = true |- _ => by destruct (validate_key_id k) as [[]|] end.
  - intros [-> Hf]. destruct p as [k n c]. cbn [pe_key_id pe_nonce pe_ciphertext] in *.
    destruct (envelope_text_limits _ _ _ Hf) as [Hl ->]. destruct Hf as (Hk & Hn & Hc).
    rewrite (proj2 (Z.ltb_ge _ _)) by done. cbn [orb negb reject_if mbind result_bind].
    unfold envelope_text at 1. rewrite split_join by (done || by apply envelope_text_fields).
    rewrite !String.eqb_refl, Hk. cbn [orb negb reject_if mbind result_bind is_ok].
    rewrite bool_decide_eq_true_2 by done. cbn [orb negb reject_if mbind result_bind].
    unfold AES_GCM_NONCE_BYTES, AES_GCM_TAG_BYTES in *.
    rewrite (proj2 (decode_canonical_ok (b64url_encode n) n)) by (split; [done|lia]).
    cbn [mbind result_bind]. rewrite Hn. cbn [Z.eqb Pos.eqb negb reject_if mbind result_bind].
    rewrite (proj2 (decode_canonical_ok (b64url_encode c) c)) by (split; [done|lia]).
    cbn [mbind result_bind]. rewrite !(proj2 (Z.leb_le _ _)) by lia. done.
Qed.

Definition hash_fits (key_id digest : string) : Prop :=
  validate_key_id key_id = Ok () /\ slen digest = SHA256_BYTES.

Lemma hash_text_fields prefix k d :
  free_of ":"%char prefix -> validate_key_id k = Ok () ->
  Forall (free_of ":"%char) [prefix; "v1"; k; b64url_encode d].
Proof.
  intros Hp Hk. repeat apply Forall_cons_2; [done|done|by apply key_id_free_of|apply b64url_free_colon|].
  by apply Forall_nil.
Qed.

(** [parse_token_hash] accepts exactly the texts [hash_delivery_token] writes. *)
Lemma parse_token_hash_ok h k d :
  parse_token_hash h = Some (k, d) <-> h = token_hash_text k d /\ hash_fits k d.
Proof.
  unfold parse_token_hash. split.
  - pose proof (join_split ":"%char h) as Hj.
    destruct (split_char ":"%char h) as [|x1 [|x2 [|k' [|dt rest]]]]; try done.
    case_match; [done|]. case_match; [done|].
    destruct (b64url_decode dt) as [d'|]; [|done]. cbn [mbind option_bind].
    case_match; [done|]. intros [= -> ->]. bool_hyps.
    repeat match goal with H : String.eqb _ _ = true |- _ => apply String.eqb_eq in H; subst end.
    split; [done|]. split; [|done].
    match goal with H : is_ok _ = true |- _ => by destruct (validate_key_id k) as [[]|] end.
  - intros [-> [Hk Hd]]. unfold token_hash_text. rewrite split_join by (done || by apply hash_text_fields).
    rewrite !String.eqb_refl, Hk, b64url_free_equal, b64url_roundtrip, bool_decide_eq_true_2 by done.
    cbn [negb orb is_ok mbind option_bind]. by rewrite Hd, String.eqb_refl.
Qed.

Lemma correlation_hash_key_id_text k d :
  hash_fits k d -> correlation_hash_key_id (correlation_hash_text k d) = Some k.
Proof.
  intros [Hk Hd]. unfold correlation_hash_key_id, correlation_hash_text.
  rewrite split_join by (done || by apply hash_text_fields).
  rewrite !String.eqb_refl, Hk, bool_decide_eq_true_2 by done. cbn [negb orb is_ok].
  rewrite (proj2 (decode_canonical_ok (b64url_encode d) d)) by (split; [done|by rewrite Hd]).
  cbn [to_option mbind option_bind]. by rewrite Hd.
Qed.

Lemma validate_delivery_token_ok v :
  validate_delivery_token v = Ok () <->
  exists d, v = DELIVERY_TOKEN_PREFIX +:+ b64url_encode d /\ slen d = DELIVERY_TOKEN_BYTES.
Proof.
  unfold validate_delivery_token. split.
  - intros Hv. ok_inv. bool_hyps.
    repeat match goal with
    | H : strip_prefix _ _ = Some _ |- _ => apply strip_prefix_some in H
    | H : String.eqb _ _ = true |- _ => apply String.eqb_eq in H
    end. subst. eauto.
  - intros (d & -> & Hd). rewrite (proj2 (strip_prefix_some _ _ _) eq_refl).
    cbn [ok_or mbind result_bind]. rewrite b64url_roundtrip. cbn [ok_or mbind result_bind].
    by rewrite Hd, String.eqb_refl.
Qed.

(** ** Key derivation *)
Lemma bounded_key_id k : validate_key_id k = Ok () -> (slen k <= u32_max)%Z.
Proof. intros (_ & Hl & _)%validate_key_id_ok. unfold MAX_KEY_ID_BYTES, u32_max in *. lia. Qed.

Lemma derive_envelope_key_ok mk k p :
  validate_key_id k = Ok () -> exists key, derive_envelope_key mk k p = Ok key.
Proof.
  intros Hk. unfold derive_envelope_key. rewrite append_fields_ok.
  - cbn [mbind result_bind]. destruct (hkdf_defined ENVELOPE_SALT mk ("" +:+ fields_text [k; purpose_str p]))
      as [key ->]. by exists key.
  - repeat apply Forall_cons_2; [by apply bounded_key_id|by destruct p|by apply Forall_nil].
Qed.
Lemma derive_token_hash_key_ok mk k :
  validate_key_id k = Ok () -> exists key, derive_token_hash_key mk k = Ok key.
Proof.
  intros Hk. unfold derive_token_hash_key. rewrite append_fields_ok.
  - cbn [mbind result_bind]. destruct (hkdf_defined TOKEN_HASH_SALT mk ("" +:+ fields_text [k; TOKEN_HASH_INFO]))
      as [key ->]. by exists key.
  - repeat apply Forall_cons_2; [by apply bounded_key_id|done|by apply Forall_nil].
Qed.
Lemma envelope_aad_ok ctx k :
  ctx_wf ctx -> validate_key_id k = Ok () -> exists aad, envelope_aad ctx k = Ok aad.
Proof.
  intros (Ht & Hr & Hc) Hk. unfold envelope_aad. eexists. apply append_fields_ok.
  unfold MAX_CONTEXT_FIELD_BYTES in *.
  repeat apply Forall_cons_2; try done; try (unfold u32_max; lia).
  - by destruct (ctx_purpose ctx).
  - by apply bounded_key_id.
Qed.

(** ** Encryption and decryption *)
Definition with_primary (c : LiveCrypto) (k : string) : LiveCrypto :=
  {| envelope_primary := k; token_hash_primary := token_hash_primary c;
     envelope_keys := envelope_keys c; token_hash_keys := token_hash_keys c |}.

(** [sealed c k ctx nonce m ct]: sealing [m] under key id [k] of ring [c] gives [ct]. *)
Definition sealed (c : LiveCrypto) (k : string) (ctx : EnvelopeContext) (nonce m ct : string) : Prop :=
  exists mk key aad, envelope_keys c !! k = Some mk /\
    derive_envelope_key mk k (ctx_purpose ctx) = Ok key /\ envelope_aad ctx k = Ok aad /\
    aead_seal key nonce m aad = Some ct.

Lemma encrypt_ok c ctx random m e :
  encrypt c ctx random m = Ok e <->
  exists nonce ct, random = Some nonce /\ (slen m <= MAX_PLAINTEXT_BYTES)%Z /\
    sealed c (envelope_primary c) ctx nonce m ct /\ e = envelope_text (envelope_primary c) nonce ct.
Proof.
  unfold encrypt, sealed. split.
  - intros He. ok_inv. bool_hyps.
    repeat match goal with
    | H : map_err _ ?m = Ok _ |- _ => destruct m eqn:?; cbn in H; ok_inv
    end. eauto 12.
  - intros (nonce & ct & -> & Hm & (mk & key & aad & Hk & Hkey & Ha & Hs) & ->).
    rewrite (proj2 (Z.ltb_ge _ _)) by done. run_ok. rewrite Hk. run_ok. rewrite Hkey. run_ok. rewrite Ha. run_ok.
    by rewrite Hs.
Qed.

Lemma encrypt_total c ctx nonce m :
  ring_wf c -> ctx_wf ctx -> (slen m <= MAX_PLAINTEXT_BYTES)%Z ->
  exists ct, encrypt c ctx (Some nonce) m = Ok (envelope_text (envelope_primary c) nonce ct) /\
    sealed c (envelope_primary c) ctx nonce m ct /\ slen ct = (slen m + AES_GCM_TAG_BYTES)%Z.
Proof.
  intros Hw Hctx Hm. destruct (rw_envelope_primary _ Hw) as [mk Hmk].
  pose proof (rw_envelope_ids _ Hw _ _ Hmk) as Hid.
  destruct (derive_envelope_key_ok mk _ (ctx_purpose ctx) Hid) as [key Hkey].
  destruct (envelope_aad_ok ctx _ Hctx Hid) as [aad Haad].
  destruct (seal_defined key nonce m aad) as [ct Hct]; [done|].
  assert (sealed c (envelope_primary c) ctx nonce m ct) as Hs by (unfold sealed; eauto 8).
  exists ct. split_and!; [|done|by eapply seal_length].
  apply encrypt_ok. eauto 8.
Qed.

Lemma decrypt_ok c ctx e m :
  decrypt c ctx e = Ok m <->
  exists k nonce ct, e = envelope_text k nonce ct /\ envelope_fits k nonce ct /\
    sealed c k ctx nonce m ct.
Proof.
  unfold decrypt, sealed. split.
  - intros Hd. ok_inv. bool_hyps.
    repeat match goal with
    | H : map_err _ ?m = Ok _ |- _ => destruct m eqn:?; cbn in H; ok_inv
    | H : parse_envelope _ = Ok _ |- _ => apply parse_envelope_ok in H as [-> ?]
    | H : aead_open _ _ _ _ = Some _ |- _ => apply open_seal in H
    end. eauto 12.
  - intros (k & nonce & ct & -> & Hf & (mk & key & aad & Hk & Hkey & Ha & Hs)).
    rewrite (proj2 (parse_envelope_ok _ {| pe_key_id := k; pe_nonce := nonce; pe_ciphertext := ct |}))
      by done. run_ok. cbn [pe_key_id pe_nonce pe_ciphertext]. rewrite Hk. run_ok. rewrite Hkey. run_ok.
    rewrite Ha. run_ok. rewrite (seal_open _ _ _ _ _ Hs). run_ok. pose proof (seal_length _ _ _ _ _ Hs) as Hl.
    destruct Hf as (_ & _ & Hct). unfold AES_GCM_TAG_BYTES in *.
    by rewrite (proj2 (Z.ltb_ge _ _)) by lia.
Qed.

Lemma sealed_same_keys c c' k ctx n m ct : same_keys c c' -> sealed c k ctx n m ct -> sealed c' k ctx n m ct.
Proof. intros [He _]. unfold sealed. by rewrite He. Qed.

Lemma envelope_key_id_text k n ct :
  envelope_fits k n ct -> envelope_key_id (envelope_text k n ct) = Ok k.
Proof.
  intros Hf. unfold envelope_key_id.
  by rewrite (proj2 (parse_envelope_ok _ {| pe_key_id := k; pe_nonce := n; pe_ciphertext := ct |})).
Qed.

Lemma sealed_fits c k ctx n m ct :
  ring_wf c -> slen n = AES_GCM_NONCE_BYTES -> (slen m <= MAX_PLAINTEXT_BYTES)%Z ->
  sealed c k ctx n m ct -> envelope_fits k n ct.
Proof.
  intros Hw Hn Hm (mk & key & aad & Hk & _ & _ & Hs). split_and!; [by eapply rw_envelope_ids|done|..];
    apply seal_length in Hs; pose proof (slen_nonneg m); unfold AES_GCM_TAG_BYTES; lia.
Qed.
Lemma hash_verifies c c' random t h :
  ring_wf c -> same_keys c c' -> slen random = DELIVERY_TOKEN_BYTES ->
  LiveDeliveryToken_generate (Some random) = Ok t -> hash_delivery_token c t = Ok h ->
  verify_delivery_token c' t (th_encoded h) = true /\ LiveDeliveryToken_parse t = Ok t.
Proof.
  intros Hw [_ Hk'] Hr Ht Hh. cbn in Ht. injection Ht as <-.
  assert (validate_delivery_token (DELIVERY_TOKEN_PREFIX +:+ b64url_encode random) = Ok ()) as Hv
    by (apply validate_delivery_token_ok; eauto).
  unfold hash_delivery_token in Hh. destruct (rw_token_primary _ Hw) as [mk Hmk]. rewrite Hmk in Hh.
  pose proof (rw_token_ids _ Hw _ _ Hmk) as Hid.
  destruct (derive_token_hash_key_ok mk _ Hid) as [key Hkey].
  cbn [ok_or mbind result_bind] in Hh. rewrite Hkey in Hh. injection Hh as <-. cbn [th_encoded].
  unfold verify_delivery_token, LiveDeliveryToken_parse. rewrite Hv. run_ok. split; [|done].
  rewrite (proj2 (parse_token_hash_ok _ (token_hash_primary c) _))
    by (split; [reflexivity|split; [done|apply hmac_length]]).
  rewrite Hk', Hmk, Hkey. apply String.eqb_refl.
Qed.

End laws.

(** ** Uses of the key-derivation function *)
Inductive derivation :=
| DeriveEnvelope (key_id : string) (p : EnvelopePurpose)
| DeriveTokenHash (key_id : string)
| DeriveCorrelation (key_id : string) (p : CorrelationHashPurpose).
Definition derivation_key_id (d : derivation) : string :=
  match d with DeriveEnvelope k _ | DeriveTokenHash k | DeriveCorrelation k _ => k end.
(** the salt and the fields of the info string each use gives to HKDF *)
Definition derivation_salt (d : derivation) : string :=
  match d with DeriveEnvelope _ _ => ENVELOPE_SALT | _ => TOKEN_HASH_SALT end.
Definition derivation_fields (d : derivation) : list string :=
  match d with
  | DeriveEnvelope k p => [k; purpose_str p]
  | DeriveTokenHash k => [k; TOKEN_HASH_INFO]
  | DeriveCorrelation k p => [k; CORRELATION_HASH_INFO; correlation_str p]
  end.
Definition derive `{CryptoPrims} (master_key : string) (d : derivation) : result LiveCryptoError string :=
  match d with
  | DeriveEnvelope k p => derive_envelope_key master_key k p
  | DeriveTokenHash k => derive_token_hash_key master_key k
  | DeriveCorrelation k p => derive_correlation_hash_key master_key k p
  end.

Lemma purpose_str_inj p q : purpose_str p = purpose_str q -> p = q.
Proof. by destruct p, q. Qed.
Lemma correlation_str_inj p q : correlation_str p = correlation_str q -> p = q.
Proof. by destruct p, q. Qed.

Lemma derivation_fields_bounded d :
  validate_key_id (derivation_key_id d) = Ok () -> fields_bounded (derivation_fields d).
Proof.
  intros Hk. pose proof (bounded_key_id _ Hk).
  destruct d as [k p|k|k p]; repeat apply Forall_cons_2; try done; try by destruct p.
Qed.

Lemma derive_hkdf `{CryptoPrims} mk d :
  validate_key_id (derivation_key_id d) = Ok () ->
  exists message, derive mk d =
    ok_or (hkdf (derivation_salt d) mk (fields_text (derivation_fields d))) (InvalidConfiguration message).
Proof.
  intros Hb%derivation_fields_bounded.
  destruct d as [k p|k|k p]; cbn [derive derivation_salt derivation_fields] in *;
    unfold derive_envelope_key, derive_token_hash_key, derive_correlation_hash_key;
    rewrite append_fields_ok by done; run_ok; eauto.
Qed.

Lemma EnvelopeContext_new_wf p t r col ctx :
  EnvelopeContext_new p t r col = Ok ctx -> ctx_wf ctx.
Proof.
  assert (forall v l, validate_context_field v l = Ok () -> (slen v <= MAX_CONTEXT_FIELD_BYTES)%Z) as Hv.
  { intros v l. unfold validate_context_field. case_match; [done|]. intros _. by bool_hyps. }
  unfold EnvelopeContext_new. intros Hn.
  destruct (validate_context_field t _) as [[]|] eqn:Ht; [|done].
  destruct (validate_context_field r _) as [[]|] eqn:Hr; [|done].
  destruct (validate_context_field col _) as [[]|] eqn:Hc; [|done].
  injection Hn as <-. split_and!; cbn; by eapply Hv.
Qed.

(** * Properties *)

(** What is sealed can be opened, now and after any rotation.  On a key ring built by
    [new_with_domain_keys], encrypting up to [MAX_PLAINTEXT_BYTES] bytes under a valid context succeeds
    whenever the random source does; every ring with the same keys, whatever its primaries, decrypts the
    envelope to the same bytes; the envelope names the primary key, so it needs no re-encryption. *)
Theorem envelope_roundtrip `{CryptoLaws} c c' ctx purpose table record_id column nonce m :
  ring_wf c -> EnvelopeContext_new purpose table record_id column = Ok ctx -> same_keys c c' ->
  slen nonce = AES_GCM_NONCE_BYTES -> (slen m <= MAX_PLAINTEXT_BYTES)%Z ->
  exists e, encrypt c ctx (Some nonce) m = Ok e /\ decrypt c' ctx e = Ok m /\
    envelope_key_id e = Ok (envelope_primary c) /\ needs_reencryption c e = Ok false.
Proof.
  intros Hw Hctx%EnvelopeContext_new_wf Hsame Hn Hm.
  destruct (encrypt_total c ctx nonce m Hw Hctx Hm) as (ct & He & Hs & _).
  assert (envelope_fits (envelope_primary c) nonce ct) as Hf by (by eapply sealed_fits).
  exists (envelope_text (envelope_primary c) nonce ct). split_and!; [done| | |].
  - apply decrypt_ok. eauto 8 using sealed_same_keys.
  - by apply envelope_key_id_text.
  - unfold needs_reencryption. rewrite envelope_key_id_text by done. run_ok. by rewrite String.eqb_refl.
Qed.

(** Envelopes are not malleable: a text that decrypts under a context is exactly the text [encrypt]
    writes for the resulting plaintext, with the same keys, under that same context, for some 12-byte
    nonce and a primary key of the ring.  Nothing longer, shorter or re-encoded decrypts. *)
Theorem decrypt_accepts_only_encryptions `{CryptoLaws} c ctx e m :
  ring_wf c -> decrypt c ctx e = Ok m ->
  exists k nonce, is_Some (envelope_keys c !! k) /\ slen nonce = AES_GCM_NONCE_BYTES /\
    (slen m <= MAX_PLAINTEXT_BYTES)%Z /\ encrypt (with_primary c k) ctx (Some nonce) m = Ok e.
Proof.
  intros Hw (k & nonce & ct & -> & Hf & Hs)%decrypt_ok. exists k, nonce.
  destruct Hf as (Hk & Hn & Hct). pose proof Hs as (mk & key & aad & Hmk & _ & _ & Hseal).
  apply seal_length in Hseal. unfold AES_GCM_TAG_BYTES, MAX_PLAINTEXT_BYTES in *.
  split_and!; [by eexists|done|lia|]. apply encrypt_ok. exists nonce, ct.
  unfold MAX_PLAINTEXT_BYTES. split_and!; [done|lia|exact Hs|done].
Qed.

(** The associated data determines what it authenticates: two envelopes whose associated data are the
    same bytes have the same purpose, table, record, column and key id, so an envelope moved to another
    record, column or key is never opened with the data it was sealed with. *)
Theorem envelope_aad_injective x y k k' aad :
  envelope_aad x k = Ok aad -> envelope_aad y k' = Ok aad -> x = y /\ k = k'.
Proof.
  intros [Hx ->]%append_fields_inv [Hy H]%append_fields_inv. apply fields_text_inj in H; [|done..].
  destruct x, y; cbn in H. simplify_eq. split; [|done]. f_equal. by apply purpose_str_inj.
Qed.

(** Keys are separated by domain: under valid key ids, two derivations give HKDF the same salt and
    info only if they are the same use (envelope, token hash or correlation hash), for the same purpose
    and key id. *)
Theorem derivations_domain_separated `{CryptoPrims} d d' :
  validate_key_id (derivation_key_id d) = Ok () -> validate_key_id (derivation_key_id d') = Ok () ->
  (forall mk, exists message, derive mk d =
    ok_or (hkdf (derivation_salt d) mk (fields_text (derivation_fields d))) (InvalidConfiguration message))
  /\ (derivation_salt d = derivation_salt d' ->
      fields_text (derivation_fields d) = fields_text (derivation_fields d') -> d = d').
Proof.
  intros Hd Hd'. split; [intros mk; by apply derive_hkdf|].
  intros Hsalt Hf%fields_text_inj; [|by apply derivation_fields_bounded..].
  destruct d, d'; cbn in Hsalt, Hf; try discriminate Hsalt; simplify_eq; f_equal.
  - by apply purpose_str_inj.
  - by apply correlation_str_inj.
Qed.

(** Delivery tokens verify: a token generated from 32 random bytes is a well-formed token, and the
    hash stored for it is accepted by every ring with the same keys, before or after rotations of the
    token-hash key; the hash names the key it was made with. *)
Theorem delivery_token_verifies `{CryptoLaws} c c' random token h :
  ring_wf c -> same_keys c c' -> slen random = DELIVERY_TOKEN_BYTES ->
  LiveDeliveryToken_generate (Some random) = Ok token -> hash_delivery_token c token = Ok h ->
  LiveDeliveryToken_parse token = Ok token /\
  verify_delivery_token c' token (th_encoded h) = true /\
  token_hash_key_id (th_encoded h) = Some (token_hash_primary c).
Proof.
  intros Hw Hsame Hr Ht Hh. destruct (hash_verifies c c' random token h) as [Hv Hp]; [done..|].
  split_and!; [done|done|]. cbn in Ht. injection Ht as <-.
  unfold hash_delivery_token in Hh. destruct (rw_token_primary _ Hw) as [mk Hmk]. rewrite Hmk in Hh.
  pose proof (rw_token_ids _ Hw _ _ Hmk) as Hid.
  destruct (derive_token_hash_key_ok mk _ Hid) as [key Hkey].
  cbn [ok_or mbind result_bind] in Hh. rewrite Hkey in Hh. injection Hh as <-. cbn [th_encoded].
  unfold token_hash_key_id. by rewrite (proj2 (parse_token_hash_ok _ (token_hash_primary c) _))
    by (split; [reflexivity|split; [done|apply hmac_length]]).
Qed.

(** Verification accepts nothing else: a presented text is accepted against a stored hash exactly when
    it is a well-formed token and the stored text is, byte for byte, the hash of that token under one of
    the configured token-hash keys. *)
Theorem verify_delivery_token_exact `{CryptoLaws} c presented stored :
  ring_wf c ->
  verify_delivery_token c presented stored = true <->
  (exists random, presented = DELIVERY_TOKEN_PREFIX +:+ b64url_encode random /\
     slen random = DELIVERY_TOKEN_BYTES) /\
  exists k mk key, token_hash_keys c !! k = Some mk /\ derive_token_hash_key mk k = Ok key /\
    stored = token_hash_text k (hmac key presented).
Proof.
  intros Hw. unfold verify_delivery_token. rewrite <- validate_delivery_token_ok. split.
  - destruct (validate_delivery_token presented) as [[]|]; cbn [is_ok negb]; [|done].
    destruct (parse_token_hash stored) as [[k d]|] eqn:Hp; [|done].
    destruct (token_hash_keys c !! k) as [mk|] eqn:Hk; [|done].
    destruct (derive_token_hash_key mk k) as [key|] eqn:Hkey; [|done].
    intros Heq%String.eqb_eq. subst d. apply parse_token_hash_ok in Hp as [-> _].
    split; [done|]. exists k, mk, key. by split_and!.
  - intros (Hv & k & mk & key & Hk & Hkey & ->). rewrite Hv. cbn [is_ok negb].
    rewrite (proj2 (parse_token_hash_ok _ k (hmac key presented))).
    + rewrite Hk, Hkey. apply String.eqb_refl.
    + split; [done|]. split; [by eapply rw_token_ids|apply hmac_length].
Qed.

(** Re-encryption keeps the plaintext: for an envelope that decrypts, [reencrypt] succeeds, its result
    decrypts to the same bytes, and it either is the same envelope, already under the primary key that was
    read first, or is under the primary key in force when it encrypts, even when a rotation falls between
    the two reads of the primary key id. *)
Theorem reencrypt_preserves_plaintext `{CryptoLaws} c later ctx nonce e m :
  ring_wf c -> ring_wf later -> same_keys c later -> ctx_wf ctx ->
  slen nonce = AES_GCM_NONCE_BYTES -> decrypt c ctx e = Ok m ->
  exists e', reencrypt c later ctx (Some nonce) e = Ok e' /\ decrypt later ctx e' = Ok m /\
    (e' = e /\ envelope_key_id e = Ok (envelope_primary c)
     \/ envelope_key_id e' = Ok (envelope_primary later)).
Proof.
  intros Hw Hl Hsame Hctx Hn Hd. pose proof Hd as (k & n & ct & -> & Hf & Hs)%decrypt_ok.
  unfold reencrypt, needs_reencryption. rewrite envelope_key_id_text by done. run_ok.
  destruct (String.eqb_spec k (envelope_primary c)) as [->|Hne]; cbn [negb].
  { eexists. split; [done|]. split; [|by left].
    apply decrypt_ok. eauto 8 using sealed_same_keys. }
  rewrite Hd. run_ok. pose proof Hs as (mk & key & aad & _ & _ & _ & Hseal).
  apply seal_length in Hseal. destruct Hf as (_ & _ & Hct).
  assert (slen m <= MAX_PLAINTEXT_BYTES)%Z as Hm by (unfold AES_GCM_TAG_BYTES in *; lia).
  destruct (encrypt_total later ctx nonce m Hl Hctx Hm) as (ct' & He & Hs' & _).
  assert (envelope_fits (envelope_primary later) nonce ct') as Hf' by (by eapply sealed_fits).
  eexists. split; [exact He|]. split; [apply decrypt_ok; eauto 8|right; by apply envelope_key_id_text].
Qed.

(** ** A concrete instance *)
(** URL-safe base64 without padding, and a stand-in for each keyed primitive: the laws can be met. *)
Module Demo.
Definition digit (n : N) : ascii :=
  Ascii.ascii_of_N
    (if n <? 26 then 65 + n else if n <? 52 then 71 + n else if n <? 62 then n - 4
     else if n =? 62 then 45 else 95)%N.
Definition undigit (c : ascii) : option N :=
  let b := byte_of c in
  (if (65 <=? b) && (b <=? 90) then Some (b - 65)
   else if (97 <=? b) && (b <=? 122) then Some (b - 71)
   else if (48 <=? b) && (b <=? 57) then Some (b + 4)
   else if b =? 45 then Some 62 else if b =? 95 then Some 63 else None)%N.
Fixpoint encode (s : string) : string :=
  match s with
  | String a (String b (String c r)) =>
      let '(a, b, c) := (byte_of a, byte_of b, byte_of c) in
      String (digit (a / 4)) (String (digit (a mod 4 * 16 + b / 16))
        (String (digit (b mod 16 * 4 + c / 64)) (String (digit (c mod 64)) (encode r))))
  | String a (String b _) =>
      let '(a, b) := (byte_of a, byte_of b) in
      String (digit (a / 4)) (String (digit (a mod 4 * 16 + b / 16)) (String (digit (b mod 16 * 4)) ""))
  | String a _ => let a := byte_of a in String (digit (a / 4)) (String (digit (a mod 4 * 16)) "")
  | _ => ""
  end%N.
Fixpoint decode (s : string) : option string :=
  match s with
  | "" => Some ""
  | String w (String x (String y (String z r))) =>
      w ← undigit w; x ← undigit x; y ← undigit y; z ← undigit z; r ← decode r;
      Some (String (Ascii.ascii_of_N (w * 4 + x / 16))
        (String (Ascii.ascii_of_N (x mod 16 * 16 + y / 4)) (String (Ascii.ascii_of_N (y mod 4 * 64 + z)) r)))
  | String w (String x (String y "")) =>
      w ← undigit w; x ← undigit x; y ← undigit y;
      Some (String (Ascii.ascii_of_N (w * 4 + x / 16)) (String (Ascii.ascii_of_N (x mod 16 * 16 + y / 4)) ""))
  | String w (String x "") =>
      w ← undigit w; x ← undigit x; Some (String (Ascii.ascii_of_N (w * 4 + x / 16)) "")
  | _ => None
  end%N.

Lemma digit_spec n : (n < 64)%N -> undigit (digit n) = Some n /\ b64url_byte (digit n) = true.
Proof.
  intros Hn.
  assert (forallb (fun k => bool_decide (undigit (digit (N.of_nat k)) = Some (N.of_nat k))
    && b64url_byte (digit (N.of_nat k))) (seq 0 64) = true) as Hall by (vm_compute; reflexivity).
  rewrite forallb_forall in Hall. specialize (Hall (N.to_nat n)). rewrite N2Nat.id in Hall.
  rewrite in_seq in Hall. apply andb_true_iff in Hall as [H1 H2]; [|lia]. by bool_hyps.
Qed.
Lemma undigit_digit n : (n < 64)%N -> undigit (digit n) = Some n.
Proof. intros Hn. by apply digit_spec. Qed.

Lemma digit_alphabet n : (n < 64)%N -> b64url_byte (digit n) = true.
Proof. intros Hn. by apply digit_spec. Qed.

Lemma byte_lt c : (byte_of c < 256)%N.
Proof. apply N_ascii_bounded. Qed.
Ltac Ndiv_lia := zify; Z.to_euclidean_division_equations; lia.

Lemma byte_again c n : n = byte_of c -> Ascii.ascii_of_N n = c.
Proof. intros ->. apply ascii_N_embedding. Qed.

(** induction three bytes at a time *)
Lemma string_ind3 (P : string -> Prop) :
  P "" -> (forall a, P (String a "")) -> (forall a b, P (String a (String b ""))) ->
  (forall a b c r, P r -> P (String a (String b (String c r)))) -> forall s, P s.
Proof.
  intros H0 H1 H2 H3. fix IH 1. intros [|a [|b [|c r]]]; [exact H0|apply H1|apply H2|apply H3, IH].
Qed.

Lemma decode_encode s : decode (encode s) = Some s.
Proof.
  induction s as [|a|a b|a b c r IH] using string_ind3; [done|..];
    pose proof (byte_lt a); try pose proof (byte_lt b); try pose proof (byte_lt c);
    cbn [encode decode]; rewrite !undigit_digit by Ndiv_lia; cbn [mbind option_bind]; rewrite ?IH;
    cbn [mbind option_bind]; apply (f_equal Some);
    repeat (apply (f_equal2 String); [apply byte_again; Ndiv_lia|]); done.
Qed.

Lemma encode_alphabet s : all_bytes b64url_byte (encode s) = true.
Proof.
  induction s as [|a|a b|a b c r IH] using string_ind3; [done|..];
    pose proof (byte_lt a); try pose proof (byte_lt b); try pose proof (byte_lt c);
    cbn [encode]; rewrite !all_bytes_cons, ?IH;
    rewrite !digit_alphabet by Ndiv_lia; done.
Qed.

Lemma encode_length s : slen (encode s) = ((slen s * 4 + 2) / 3)%Z.
Proof.
  induction s as [|a|a b|a b c r IH] using string_ind3; [done..|].
  cbn [encode]. rewrite !slen_cons, IH. div_lia.
Qed.

(** the "cipher" appends a fixed tag *)
Definition tag : string := "0123456789abcdef".
Definition seal (k n m a : string) : option string := Some (m +:+ tag).
Definition open_ (k n c a : string) : option string :=
  match (String.length c - 16)%nat with
  | len => let m := String.substring 0 len c in
           if String.eqb (m +:+ tag) c then Some m else None
  end.
Definition block : string := "0123456789abcdef0123456789abcdef".

#[export] Instance prims : CryptoPrims := {|
  aead_seal := seal; aead_open := open_; hkdf _ _ _ := Some block; hmac _ _ := block;
  b64url_encode := encode; b64url_decode := decode; b64_decode _ := None |}.

Lemma substring_app m t : String.substring 0 (String.length m) (m +:+ t) = m.
Proof. induction m as [|c m IH]; [by destruct t|]. rewrite str_app_cons. cbn. by rewrite IH. Qed.

#[export] Instance laws : CryptoLaws prims.
Proof.
  split; cbn; unfold seal, open_.
  - intros k n m a c [= <-]. rewrite str_length_app. change (String.length tag) with 16.
    rewrite Nat.add_sub, substring_app. by rewrite String.eqb_refl.
  - intros k n m a c. destruct (String.eqb_spec (String.substring 0 (String.length c - 16) c +:+ tag) c) as [Heq|];
      [intros [= <-]; by rewrite Heq|done].
  - by eexists.
  - intros k n m a c [= <-]. by rewrite slen_app.
  - by eexists.
  - done.
  - apply decode_encode.
  - apply encode_alphabet.
  - apply encode_length.
Qed.

(** ** Witnesses *)
Definition master (id : string) : LiveMasterKey := {| mk_key_id := id; mk_material := block |}.
Definition ring : LiveCrypto :=
  {| envelope_primary := "k1"; token_hash_primary := "k1";
     envelope_keys := {["k1" := block; "k2" := block]}; token_hash_keys := {["k1" := block]} |}.
Definition rotated : LiveCrypto := with_primary ring "k2".
Definition ctx : EnvelopeContext :=
  {| ctx_purpose := Descriptor; ctx_table := "live_sessions"; ctx_record_id := "42";
     ctx_column := "descriptor" |}.
Definition nonce : string := "abcdefghijkl".

Lemma ring_is_wf : ring_wf ring.
Proof.
  eapply (new_with_domain_keys_wf "k1" [master "k1"; master "k2"] "k1" [master "k1"]).
  - repeat apply Forall_cons_2; reflexivity || apply Forall_nil_2.
  - repeat apply Forall_cons_2; reflexivity || apply Forall_nil_2.
  - vm_compute. reflexivity.
Qed.
Lemma rotated_wf : ring_wf rotated.
Proof. by apply (rotate_envelope_wf ring "k2" "k1"); [apply ring_is_wf|vm_compute]. Qed.

Lemma envelope_roundtrip_witness :
  exists e, encrypt ring ctx (Some nonce) "secret" = Ok e /\ decrypt rotated ctx e = Ok "secret".
Proof.
  destruct (envelope_roundtrip ring rotated ctx Descriptor "live_sessions" "42" "descriptor" nonce "secret")
    as (e & He & Hd & _).
  - apply ring_is_wf.
  - vm_compute. reflexivity.
  - split; reflexivity.
  - reflexivity.
  - vm_compute. discriminate.
  - exists e. exact (conj He Hd).
Defined.

Definition sealed_secret : string := envelope_text "k1" nonce ("secret" +:+ tag).
Lemma sealed_secret_opens : decrypt ring ctx sealed_secret = Ok "secret".
Proof. vm_compute. reflexivity. Qed.

Lemma decrypt_accepts_only_encryptions_witness :
  exists k n, encrypt (with_primary ring k) ctx (Some n) "secret" = Ok sealed_secret.
Proof.
  destruct (decrypt_accepts_only_encryptions ring ctx sealed_secret "secret" ring_is_wf sealed_secret_opens)
    as (k & n & _ & _ & _ & He).
  exists k, n. exact He.
Defined.

Lemma envelope_aad_injective_witness : exists aad, envelope_aad ctx "k1" = Ok aad /\ ctx = ctx.
Proof.
  eexists. split; [reflexivity|].
  exact (proj1 (envelope_aad_injective ctx ctx "k1" "k1" _ eq_refl eq_refl)).
Defined.

Lemma derivations_domain_separated_witness :
  DeriveEnvelope "k1" Descriptor = DeriveEnvelope "k1" Descriptor.
Proof.
  exact (proj2 (derivations_domain_separated (DeriveEnvelope "k1" Descriptor)
    (DeriveEnvelope "k1" Descriptor) eq_refl eq_refl) eq_refl eq_refl).
Defined.

Lemma delivery_token_verifies_witness :
  exists token h, verify_delivery_token rotated token (th_encoded h) = true.
Proof.
  eexists _, _.
  exact (proj1 (proj2 (delivery_token_verifies ring rotated block _ _ ring_is_wf (conj eq_refl eq_refl)
    eq_refl eq_refl eq_refl))).
Defined.

Lemma verify_delivery_token_exact_witness :
  verify_delivery_token ring "forged" "elx-live-token-hash:v1:k1:x" = false.
Proof.
  destruct (verify_delivery_token ring "forged" "elx-live-token-hash:v1:k1:x") eqn:H; [|reflexivity].
  apply (verify_delivery_token_exact ring "forged" _ ring_is_wf) in H.
  destruct H as ((random & Hr & _) & _). discriminate Hr.
Defined.

Lemma reencrypt_preserves_plaintext_witness :
  exists e', reencrypt rotated rotated ctx (Some nonce) sealed_secret = Ok e' /\
    decrypt rotated ctx e' = Ok "secret".
Proof.
  destruct (reencrypt_preserves_plaintext rotated rotated ctx nonce sealed_secret "secret") as (e' & Hr & Hd & _).
  - apply rotated_wf.
  - apply rotated_wf.
  - split; reflexivity.
  - vm_compute. split; [discriminate|split; discriminate].
  - reflexivity.
  - vm_compute. reflexivity.
  - exists e'. exact (conj Hr Hd).
Defined.
End Demo.
