(* ===== verification/SessionStore.v ===== *)
(** * The session tables (src/src/live/session/repository.rs, src/migrations/0056_live_streaming.sql)

    The rows the session repository reads and writes, their CHECK constraints, the transaction in which a
    method runs, and the decoding of a row.  A transaction is a function on the database that returns the
    new database or fails; a failed one leaves the database as it was ([atomically]), and transactions are
    isolated from each other.  Uuids and timestamps are values: their text codecs belong to the uuid and
    chrono crates.  The enumerations are stored as the text the code writes. *)
From S2P Require Import Prelude Bytes LiveContract SessionTypes ControlLease Crypto.

Inductive SessionRepositoryError :=
| InvalidInput | OwnerUnavailable | Capacity | IdempotencyConflict | NotFound | RevisionChanged
| FenceLost | InvalidTransition | SessionExpired | InvalidState
| CryptoError (e : LiveCryptoError)
| Storage (message : string).
#[export] Instance SessionRepositoryError_eq_dec : EqDecision SessionRepositoryError.
Proof. solve_decision. Defined.

(** ** Rows *)
Record SessionRow := {
  row_id : uuid;
  row_owner : SessionOwner;
  row_item_key_hash : string;
  row_stream_option_key_hash : string;
  row_encrypted_item_snapshot : string;
  row_delivery_mode : string;
  row_protocol : string;
  row_state : string;
  row_revision : Z;
  row_token_revision : Z;
  row_control_fencing_token : Z;
  row_token_hash : string;
  row_encrypted_descriptor : string;
  row_source_index : Z;
  row_failover_count : Z;
  row_refresh_count : Z;
  row_egress_binding_id : option uuid;
  row_remux_job_id : option string;
  row_created_at : instant;
  row_last_heartbeat_at : instant;
  row_expires_at : instant;
  row_hard_expires_at : instant;
  row_ended_at : option instant;
  row_error_code : option string;
  row_error_detail_redacted : option string;
}.

Record ReplayRow := {
  rp_request_hash : string;
  rp_session_id : uuid;
  rp_encrypted_response : string;
  rp_created_at : instant;
  rp_expires_at : instant;
}.
Record TrackRow := {
  tr_audio_track_id : option string;
  tr_audio_language : option string;
  tr_audio_title : option string;
  tr_subtitle_track_id : option string;
  tr_subtitle_language : option string;
  tr_subtitle_title : option string;
  tr_revision : Z;
  tr_updated_at : instant;
}.
Record AccountSessionRow := {
  acc_user_id : uuid;
  acc_home_id : uuid;
  acc_active_profile_id : option uuid;
  acc_revoked_at : option instant;
  acc_expires_at : instant;
}.

(** primary key of [live_session_idempotency]: user, profile, key hash *)
Notation replay_key := (uuid * uuid * string)%type.

Record Db := {
  db_sessions : gmap uuid SessionRow;
  db_replays : gmap replay_key ReplayRow;
  db_tracks : gmap (uuid * uuid) TrackRow;
  db_lease : LeaseRow;
  db_users : gset uuid;
  db_homes : gset uuid;
  db_providers : gset uuid;
  db_profiles : gmap uuid uuid;                 (** profile -> home *)
  db_home_members : gmap (uuid * uuid) string;  (** (home, user) -> status *)
  db_account_sessions : gmap uuid AccountSessionRow;
}.

Definition set_sessions (f : gmap uuid SessionRow -> gmap uuid SessionRow) (db : Db) : Db :=
  {| db_sessions := f (db_sessions db); db_replays := db_replays db; db_tracks := db_tracks db;
     db_lease := db_lease db; db_users := db_users db; db_homes := db_homes db;
     db_providers := db_providers db; db_profiles := db_profiles db;
     db_home_members := db_home_members db; db_account_sessions := db_account_sessions db |}.
Definition set_replays (f : gmap replay_key ReplayRow -> gmap replay_key ReplayRow) (db : Db) : Db :=
  {| db_sessions := db_sessions db; db_replays := f (db_replays db); db_tracks := db_tracks db;
     db_lease := db_lease db; db_users := db_users db; db_homes := db_homes db;
     db_providers := db_providers db; db_profiles := db_profiles db;
     db_home_members := db_home_members db; db_account_sessions := db_account_sessions db |}.
Definition set_tracks (f : gmap (uuid * uuid) TrackRow -> gmap (uuid * uuid) TrackRow) (db : Db) : Db :=
  {| db_sessions := db_sessions db; db_replays := db_replays db; db_tracks := f (db_tracks db);
     db_lease := db_lease db; db_users := db_users db; db_homes := db_homes db;
     db_providers := db_providers db; db_profiles := db_profiles db;
     db_home_members := db_home_members db; db_account_sessions := db_account_sessions db |}.

(** ** CHECK constraints *)
(** SQL's [LENGTH] counts characters *)
Definition length_between (lo hi : Z) (s : string) : bool :=
  ((lo <=? char_count s) && (char_count s <=? hi))%Z.
Definition terminal_name (s : string) : bool :=
  existsb (String.eqb s) ["ended"; "expired"; "failed"].

Definition session_check (r : SessionRow) : bool :=
  length_between 32 128 (row_item_key_hash r)
  && length_between 32 128 (row_stream_option_key_hash r)
  && starts_with "elx-live:v1:" (row_encrypted_item_snapshot r)
  && is_some_b (DeliveryMode.try_from (row_delivery_mode r))
  && is_some_b (SessionProtocol.try_from (row_protocol r))
  && is_some_b (SessionState.try_from (row_state r))
  && (0 <? row_revision r)%Z
  && (0 <? row_token_revision r)%Z
  && (0 <? row_control_fencing_token r)%Z
  && starts_with "elx-live-token-hash:v1:" (row_token_hash r)
  && starts_with "elx-live:v1:" (row_encrypted_descriptor r)
  && (0 <=? row_source_index r)%Z
  && (0 <=? row_failover_count r)%Z
  && (0 <=? row_refresh_count r)%Z
  && is_none_or (fun c => char_count c <=? 128)%Z (row_error_code r)
  && is_none_or (fun c => char_count c <=? 4096)%Z (row_error_detail_redacted r)
  && (row_expires_at r <=? row_hard_expires_at r)%Z
  && Bool.eqb (terminal_name (row_state r)) (is_some_b (row_ended_at r)).

Definition replay_check (key : replay_key) (r : ReplayRow) : bool :=
  length_between 32 128 key.2
  && length_between 32 128 (rp_request_hash r)
  && starts_with "elx-live:v1:" (rp_encrypted_response r)
  && (rp_created_at r <? rp_expires_at r)%Z.

Definition track_check (r : TrackRow) : bool :=
  is_none_or (length_between 1 256) (tr_audio_track_id r)
  && is_none_or (length_between 1 64) (tr_audio_language r)
  && is_none_or (length_between 1 256) (tr_audio_title r)
  && is_none_or (length_between 1 256) (tr_subtitle_track_id r)
  && is_none_or (length_between 1 64) (tr_subtitle_language r)
  && is_none_or (length_between 1 256) (tr_subtitle_title r)
  && (0 <? tr_revision r)%Z
  && (is_some_b (tr_audio_track_id r) || is_some_b (tr_subtitle_track_id r))
  && (is_some_b (tr_audio_track_id r)
      || (is_none_b (tr_audio_language r) && is_none_b (tr_audio_title r)))
  && (is_some_b (tr_subtitle_track_id r)
      || (is_none_b (tr_subtitle_language r) && is_none_b (tr_subtitle_title r))).

(** ** Transactions *)
Definition tx (A : Type) : Type := Db -> result SessionRepositoryError (A * Db).
#[export] Instance tx_ret : MRet tx := fun A a db => Ok (a, db).
#[export] Instance tx_bind : MBind tx := fun A B k m db =>
  match m db with Ok (a, db') => k a db' | Err e => Err e end.
Definition lift {A} (m : result SessionRepositoryError A) : tx A := fun db =>
  match m with Ok a => Ok (a, db) | Err e => Err e end.
Definition lift_crypto {A} (m : result LiveCryptoError A) : tx A := lift (map_err CryptoError m).
Definition fail_when (b : bool) (e : SessionRepositoryError) : tx unit := lift (reject_if b e).
Definition read {A} (f : Db -> A) : tx A := fun db => Ok (f db, db).
Definition write (f : Db -> Db) : tx unit := fun db => Ok ((), f db).

(** [begin] ... [commit]: an error rolls everything back. *)
Definition atomically {A} (m : tx A) (db : Db) : result SessionRepositoryError A * Db :=
  match m db with
  | Ok (a, db') => (Ok a, db')
  | Err e => (Err e, db)
  end.

(** A BIGINT column incremented by SQL: out of range is a database error. *)
Definition sql_add (column n : Z) : result SessionRepositoryError Z :=
  ok_or (i64_checked_add column n) (Storage "integer out of range").
Definition constraint (b : bool) : result SessionRepositoryError unit :=
  reject_if (negb b) (Storage "constraint failed").

(** UPDATE live_playback_sessions SET ... WHERE id = $id AND ...: the updated row, if one matched *)
Definition update_session (id : uuid) (where_ : SessionRow -> bool)
    (set : SessionRow -> result SessionRepositoryError SessionRow) : tx (option SessionRow) := fun db =>
  match db_sessions db !! id with
  | None => Ok (None, db)
  | Some r =>
      if where_ r then
        r' ← set r;
        _ ← constraint (session_check r');
        Ok (Some r', set_sessions <[id := r']> db)
      else Ok (None, db)
  end.
Definition live_row (r : SessionRow) : bool := negb (terminal_name (row_state r)).

(** ** Decoding *)
Definition parse_state (value : string) : result SessionRepositoryError SessionState :=
  ok_or (SessionState.try_from value) InvalidState.
Definition positive (value : Z) : result SessionRepositoryError Z :=
  if (0 <? value)%Z then Ok value else Err InvalidState.
Definition nonnegative_i32 (value : Z) : result SessionRepositoryError Z :=
  _ ← reject_if (value <? 0)%Z InvalidState;
  if (value <=? i32_max)%Z then Ok value else Err InvalidState.

Definition decode_session (r : SessionRow) : result SessionRepositoryError SessionRecord :=
  mode ← ok_or (DeliveryMode.try_from (row_delivery_mode r)) InvalidState;
  protocol ← ok_or (SessionProtocol.try_from (row_protocol r)) InvalidState;
  state ← parse_state (row_state r);
  revision ← positive (row_revision r);
  token_revision ← positive (row_token_revision r);
  fencing ← positive (row_control_fencing_token r);
  source_index ← nonnegative_i32 (row_source_index r);
  failovers ← nonnegative_i32 (row_failover_count r);
  refreshes ← nonnegative_i32 (row_refresh_count r);
  Ok {| id := row_id r; owner := row_owner r; delivery_mode := mode; session_protocol := protocol;
        state := state; revision := revision; token_revision := token_revision;
        control_fencing_token := fencing; source_index := source_index; failover_count := failovers;
        refresh_count := refreshes; egress_binding_id := row_egress_binding_id r;
        remux_job_id := row_remux_job_id r; created_at := row_created_at r;
        last_heartbeat_at := row_last_heartbeat_at r; session_expires_at := row_expires_at r;
        hard_expires_at := row_hard_expires_at r; ended_at := row_ended_at r;
        error_code := row_error_code r; error_detail_redacted := row_error_detail_redacted r |}.

Definition valid_preference_text (value : string) (max_bytes : Z) : bool :=
  negb (str_empty value) && (slen value <=? max_bytes)%Z && String.eqb (trim value) value
  && negb (any_control value).
Definition valid_track_selection (s : LiveTrackSelection) : bool :=
  valid_preference_text (track_id s) 256
  && is_none_or (fun v => valid_preference_text v 64) (track_language s)
  && is_none_or (fun v => valid_preference_text v 256) (track_title s).
Definition valid_track_preference_update (u : LiveTrackPreferenceUpdate) : bool :=
  is_none_or valid_track_selection (upd_audio u) && is_none_or valid_track_selection (upd_subtitle u).

(** the closure [selection] of [decode_track_preferences] *)
Definition decode_selection (track language title : option string)
    : result SessionRepositoryError (option LiveTrackSelection) :=
  match track with
  | Some t =>
      let value := {| track_id := t; track_language := language; track_title := title |} in
      if valid_track_selection value then Ok (Some value) else Err InvalidState
  | None => if is_none_b language && is_none_b title then Ok None else Err InvalidState
  end.
Definition decode_track_preferences (r : TrackRow)
    : result SessionRepositoryError LiveTrackPreferences :=
  audio ← decode_selection (tr_audio_track_id r) (tr_audio_language r) (tr_audio_title r);
  subtitle ← decode_selection (tr_subtitle_track_id r) (tr_subtitle_language r) (tr_subtitle_title r);
  _ ← reject_if (is_none_b audio && is_none_b subtitle) InvalidState;
  revision ← positive (tr_revision r);
  Ok {| pref_audio := audio; pref_subtitle := subtitle; pref_revision := revision;
        pref_updated_at := tr_updated_at r |}.

(** ** Input checks *)
Definition MAX_BATCH : Z := 10000.
Definition MAX_ERROR_CODE_BYTES : Z := 128.
Definition MAX_ERROR_DETAIL_BYTES : Z := 4096.
Definition MAX_REPLAY_BYTES : Z := 16384.
Definition CREATE_RETRIES : nat := 8.
Definition IDEMPOTENCY_TTL_SECONDS : Z := 300.
Definition TERMINAL_RETENTION_SECONDS : Z := 604800.

Definition bounded_batch (limit : Z) : result SessionRepositoryError Z :=
  if ((1 <=? limit) && (limit <=? MAX_BATCH))%Z then Ok limit else Err InvalidInput.
Definition duration_seconds (value : Z) : result SessionRepositoryError Z :=
  if (value <=? i64_max)%Z then Ok value else Err InvalidInput.
Definition valid_remux_job_id (value : string) : bool :=
  is_some_and (fun suffix => (slen suffix =? 32)%Z && all_bytes is_hexdigit suffix)
    (strip_prefix "lrj1_" value).
Definition validate_terminal_reason (r : TerminalReason) : result SessionRepositoryError unit :=
  reject_if (negb (SessionState.is_terminal (reason_state r))
    || is_some_and (fun v => str_empty v || (MAX_ERROR_CODE_BYTES <? slen v)%Z) (reason_error_code r)
    || is_some_and (fun v => MAX_ERROR_DETAIL_BYTES <? slen v)%Z (reason_error_detail r)) InvalidInput.
Definition transient_database_conflict (message : string) : bool :=
  let text := to_lower message in
  existsb (fun p => contains_sub p text)
    ["database is locked"; "database table is locked"; "database is deadlocked";
     "serialization failure"; "deadlock detected"].
