(* ===== verification/Vault.v ===== *)
(** * What the session repository needs of the cryptography

    The repository stores envelopes, token hashes and correlation hashes; it relies on the key ring only
    through this interface.  The first instance below discharges it with the definitions of [Crypto]. *)
From S2P Require Import Prelude Bytes Crypto.

Class Vault (R : Type) := {
  vault_encrypt : R -> EnvelopeContext -> option string -> string -> result LiveCryptoError string;
  vault_decrypt : R -> EnvelopeContext -> string -> result LiveCryptoError string;
  vault_reencrypt : R -> EnvelopeContext -> option string -> string -> result LiveCryptoError string;
  vault_hash_token : R -> string -> result LiveCryptoError LiveTokenHash;
  vault_verify_token : R -> string -> string -> bool;
  vault_hash_correlation : R -> CorrelationHashPurpose -> string -> result LiveCryptoError string;
  vault_generate_token : option string -> result LiveCryptoError string;
  vault_parse_token : string -> result LiveCryptoError string;
  vault_token_key_id : string -> option string;
  vault_token_primary : R -> string;
  vault_envelope_primary : R -> string;
}.

(** [ready]: the ring is usable; [related]: the rings have the same keys, whatever their primaries. *)
Class VaultLaws (R : Type) `{Vault R} (ready : R -> Prop) (related : R -> R -> Prop) : Prop := {
  law_decrypt_encrypt r r' p t i c ctx nonce m e :
    ready r -> related r r' -> EnvelopeContext_new p t i c = Ok ctx -> slen nonce = AES_GCM_NONCE_BYTES ->
    vault_encrypt r ctx (Some nonce) m = Ok e -> vault_decrypt r' ctx e = Ok m;
  law_encrypt_total r p t i c ctx nonce m :
    ready r -> EnvelopeContext_new p t i c = Ok ctx -> (slen m <= MAX_PLAINTEXT_BYTES)%Z ->
    is_ok (vault_encrypt r ctx (Some nonce) m) = true;
  law_reencrypt r r' p t i c ctx nonce m e e' :
    ready r -> related r r' -> EnvelopeContext_new p t i c = Ok ctx -> slen nonce = AES_GCM_NONCE_BYTES ->
    vault_decrypt r ctx e = Ok m -> vault_reencrypt r ctx (Some nonce) e = Ok e' ->
    vault_decrypt r' ctx e' = Ok m;
  law_encrypt_prefix r ctx random m e :
    vault_encrypt r ctx random m = Ok e -> starts_with "elx-live:v1:" e = true;
  law_token_verifies r r' random t h :
    ready r -> related r r' -> slen random = DELIVERY_TOKEN_BYTES ->
    vault_generate_token (Some random) = Ok t -> vault_hash_token r t = Ok h ->
    vault_verify_token r' t (th_encoded h) = true /\ vault_parse_token t = Ok t;
  law_hash_prefix r t h :
    vault_hash_token r t = Ok h -> starts_with "elx-live-token-hash:v1:" (th_encoded h) = true;
}.

(** ** The key ring implements the interface *)
#[export] Instance crypto_vault `{CryptoPrims} : Vault LiveCrypto := {|
  vault_encrypt := encrypt;
  vault_decrypt := decrypt;
  vault_reencrypt c := reencrypt c c;
  vault_hash_token := hash_delivery_token;
  vault_verify_token := verify_delivery_token;
  vault_hash_correlation := hash_correlation;
  vault_generate_token := LiveDeliveryToken_generate;
  vault_parse_token := LiveDeliveryToken_parse;
  vault_token_key_id := token_hash_key_id;
  vault_token_primary := token_hash_primary;
  vault_envelope_primary := envelope_primary;
|}.

Lemma envelope_text_prefix `{CryptoPrims} k n c : starts_with "elx-live:v1:" (envelope_text k n c) = true.
Proof. exact (starts_with_app "elx-live:v1:" _). Qed.
Lemma token_hash_text_prefix `{CryptoPrims} k d :
  starts_with "elx-live-token-hash:v1:" (token_hash_text k d) = true.
Proof. exact (starts_with_app "elx-live-token-hash:v1:" _). Qed.

Section implementation.
Context `{CL : CryptoLaws}.

Lemma decrypt_encrypt c c' ctx nonce m e :
  ring_wf c -> same_keys c c' -> slen nonce = AES_GCM_NONCE_BYTES ->
  encrypt c ctx (Some nonce) m = Ok e -> decrypt c' ctx e = Ok m.
Proof.
  intros Hw Hs Hn (n & ct & [= <-] & Hm & Hseal & ->)%encrypt_ok.
  apply decrypt_ok. exists (envelope_primary c), nonce, ct. split_and!; [done| |by eapply sealed_same_keys].
  by eapply sealed_fits.
Qed.

Lemma reencrypt_decrypts c c' ctx nonce m e e' :
  ring_wf c -> same_keys c c' -> slen nonce = AES_GCM_NONCE_BYTES ->
  decrypt c ctx e = Ok m -> reencrypt c c ctx (Some nonce) e = Ok e' -> decrypt c' ctx e' = Ok m.
Proof.
  intros Hw Hs Hn Hd. unfold reencrypt. destruct (needs_reencryption c e) as [[|]|]; run_ok; [|intros [= <-]|done].
  - rewrite Hd. run_ok. by apply decrypt_encrypt.
  - apply decrypt_ok in Hd as (k & n & ct & -> & Hf & Hseal). apply decrypt_ok. eauto 8 using sealed_same_keys.
Qed.

#[export] Instance crypto_vault_laws : VaultLaws LiveCrypto ring_wf same_keys.
Proof.
  split; cbn.
  - intros. by eapply decrypt_encrypt.
  - intros r p t i c ctx nonce m Hw Hctx%EnvelopeContext_new_wf Hm.
    by destruct (encrypt_total r ctx nonce m Hw Hctx Hm) as (ct & -> & _).
  - intros. by eapply reencrypt_decrypts.
  - intros r ctx random m e (n & ct & _ & _ & _ & ->)%encrypt_ok. apply envelope_text_prefix.
  - intros. by eapply hash_verifies.
  - intros r t h. unfold hash_delivery_token. intros Hh. ok_inv.
    repeat match goal with
    | H : map_err _ ?m = Ok _ |- _ => destruct m eqn:?; cbn in H; ok_inv
    end. apply token_hash_text_prefix.
Qed.
End implementation.
