(* ===== verification/SessionRepo.v ===== *)
(** * The session repository (src/src/live/session/repository.rs)

    Every method of [LiveSessionRepository], as a function of the database.  A method that opens a
    transaction is a [tx]; the ones that only query the pool read the database they are given.  The current
    time, the key ring and the random draws are arguments; text codecs of other crates are [Texts]. *)
From S2P Require Import Prelude Bytes LiveContract SessionTypes Recovery ControlLease Crypto.
From S2P Require Import Vault SessionStore.

Record ReplayPayload := { pay_session_id : uuid; pay_token_revision : Z; pay_token : string }.

(** [Uuid::to_string], [serde_json] on [ReplayPayload], and the range of [DateTime<Utc>]. *)
Class Texts := {
  uuid_text : uuid -> string;
  replay_to_json : ReplayPayload -> option string;
  replay_of_json : string -> option ReplayPayload;
  datetime_max : instant;
}.

Record LiveSessionLimits := {
  per_user : Z;
  server_total : Z;
  lease_seconds : Z;
  max_lifetime_seconds : Z;
}.

(** The values a call draws: [Uuid::new_v4], the token's bytes, and one nonce per encryption. *)
Record Draws := {
  draw_uuid : uuid;
  draw_token : option string;
  draw_nonce : nat -> option string;
}.

Record SessionRecoveryReplacement := {
  rr_owner : SessionOwner;
  rr_session_id : uuid;
  rr_expected_revision : Z;
  rr_control_fencing_token : Z;
  rr_descriptor : string;
  rr_delivery_mode : DeliveryMode;
  rr_protocol : SessionProtocol;
  rr_source_index : Z;
  rr_action : RecoveryAction;
  rr_now : instant;
}.
Record SessionRecoveryFailure := {
  rf_owner : SessionOwner;
  rf_session_id : uuid;
  rf_expected_revision : Z;
  rf_control_fencing_token : Z;
  rf_descriptor : string;
  rf_action : RecoveryAction;
  rf_now : instant;
}.

(** ** Row updates: the SET clauses *)
Definition set_row (r : SessionRow) (snapshot : string) (mode protocol state : string)
    (revision token_revision fencing : Z) (token_hash descriptor : string)
    (source failovers refreshes : Z) (job : option string) (heartbeat expires : instant)
    : SessionRow :=
  {| row_id := row_id r; row_owner := row_owner r; row_item_key_hash := row_item_key_hash r;
     row_stream_option_key_hash := row_stream_option_key_hash r;
     row_encrypted_item_snapshot := snapshot; row_delivery_mode := mode; row_protocol := protocol;
     row_state := state; row_revision := revision; row_token_revision := token_revision;
     row_control_fencing_token := fencing; row_token_hash := token_hash;
     row_encrypted_descriptor := descriptor; row_source_index := source;
     row_failover_count := failovers; row_refresh_count := refreshes;
     row_egress_binding_id := row_egress_binding_id r; row_remux_job_id := job;
     row_created_at := row_created_at r; row_last_heartbeat_at := heartbeat;
     row_expires_at := expires; row_hard_expires_at := row_hard_expires_at r;
     row_ended_at := row_ended_at r; row_error_code := row_error_code r;
     row_error_detail_redacted := row_error_detail_redacted r |}.

(** revision = revision + 1, state = ... *)
Definition set_state (state : string) (r : SessionRow) : result SessionRepositoryError SessionRow :=
  revision ← sql_add (row_revision r) 1;
  Ok (set_row r (row_encrypted_item_snapshot r) (row_delivery_mode r) (row_protocol r) state revision
        (row_token_revision r) (row_control_fencing_token r) (row_token_hash r)
        (row_encrypted_descriptor r) (row_source_index r) (row_failover_count r) (row_refresh_count r)
        (row_remux_job_id r) (row_last_heartbeat_at r) (row_expires_at r)).
Definition set_fence (fencing : Z) (r : SessionRow) : result SessionRepositoryError SessionRow :=
  revision ← sql_add (row_revision r) 1;
  Ok (set_row r (row_encrypted_item_snapshot r) (row_delivery_mode r) (row_protocol r) (row_state r)
        revision (row_token_revision r) fencing (row_token_hash r) (row_encrypted_descriptor r)
        (row_source_index r) (row_failover_count r) (row_refresh_count r) None
        (row_last_heartbeat_at r) (row_expires_at r)).
Definition set_heartbeat (now expires : instant) (r : SessionRow)
    : result SessionRepositoryError SessionRow :=
  revision ← sql_add (row_revision r) 1;
  Ok (set_row r (row_encrypted_item_snapshot r) (row_delivery_mode r) (row_protocol r) (row_state r)
        revision (row_token_revision r) (row_control_fencing_token r) (row_token_hash r)
        (row_encrypted_descriptor r) (row_source_index r) (row_failover_count r) (row_refresh_count r)
        (row_remux_job_id r) now expires).
Definition set_token (token_hash : string) (token_revision : Z) (r : SessionRow)
    : result SessionRepositoryError SessionRow :=
  revision ← sql_add (row_revision r) 1;
  Ok (set_row r (row_encrypted_item_snapshot r) (row_delivery_mode r) (row_protocol r) (row_state r)
        revision token_revision (row_control_fencing_token r) token_hash (row_encrypted_descriptor r)
        (row_source_index r) (row_failover_count r) (row_refresh_count r) (row_remux_job_id r)
        (row_last_heartbeat_at r) (row_expires_at r)).
Definition set_job (job : option string) (r : SessionRow) : result SessionRepositoryError SessionRow :=
  Ok (set_row r (row_encrypted_item_snapshot r) (row_delivery_mode r) (row_protocol r) (row_state r)
        (row_revision r) (row_token_revision r) (row_control_fencing_token r) (row_token_hash r)
        (row_encrypted_descriptor r) (row_source_index r) (row_failover_count r) (row_refresh_count r)
        job (row_last_heartbeat_at r) (row_expires_at r)).
(** egress_binding_id = ..., which the egress service writes without a new revision *)
Definition set_binding (binding : option uuid) (r : SessionRow) : SessionRow :=
  {| row_id := row_id r; row_owner := row_owner r; row_item_key_hash := row_item_key_hash r;
     row_stream_option_key_hash := row_stream_option_key_hash r;
     row_encrypted_item_snapshot := row_encrypted_item_snapshot r; row_delivery_mode := row_delivery_mode r;
     row_protocol := row_protocol r; row_state := row_state r; row_revision := row_revision r;
     row_token_revision := row_token_revision r; row_control_fencing_token := row_control_fencing_token r;
     row_token_hash := row_token_hash r; row_encrypted_descriptor := row_encrypted_descriptor r;
     row_source_index := row_source_index r; row_failover_count := row_failover_count r;
     row_refresh_count := row_refresh_count r; row_egress_binding_id := binding;
     row_remux_job_id := row_remux_job_id r; row_created_at := row_created_at r;
     row_last_heartbeat_at := row_last_heartbeat_at r; row_expires_at := row_expires_at r;
     row_hard_expires_at := row_hard_expires_at r; row_ended_at := row_ended_at r;
     row_error_code := row_error_code r; row_error_detail_redacted := row_error_detail_redacted r |}.
Definition set_recovered (token_hash : string) (token_revision : Z) (descriptor mode protocol : string)
    (source refresh_inc failover_inc : Z) (r : SessionRow) : result SessionRepositoryError SessionRow :=
  revision ← sql_add (row_revision r) 1;
  refreshes ← sql_add (row_refresh_count r) refresh_inc;
  failovers ← sql_add (row_failover_count r) failover_inc;
  Ok (set_row r (row_encrypted_item_snapshot r) mode protocol (SessionState.as_str Ready) revision
        token_revision (row_control_fencing_token r) token_hash descriptor source failovers refreshes
        None (row_last_heartbeat_at r) (row_expires_at r)).
Definition set_recovery_failed (state descriptor : string) (refresh_inc failover_inc : Z) (r : SessionRow)
    : result SessionRepositoryError SessionRow :=
  revision ← sql_add (row_revision r) 1;
  refreshes ← sql_add (row_refresh_count r) refresh_inc;
  failovers ← sql_add (row_failover_count r) failover_inc;
  Ok (set_row r (row_encrypted_item_snapshot r) (row_delivery_mode r) (row_protocol r) state revision
        (row_token_revision r) (row_control_fencing_token r) (row_token_hash r) descriptor
        (row_source_index r) failovers refreshes (row_remux_job_id r) (row_last_heartbeat_at r)
        (row_expires_at r)).
Definition set_envelopes (snapshot descriptor : string) (r : SessionRow)
    : result SessionRepositoryError SessionRow :=
  revision ← sql_add (row_revision r) 1;
  Ok (set_row r snapshot (row_delivery_mode r) (row_protocol r) (row_state r) revision
        (row_token_revision r) (row_control_fencing_token r) (row_token_hash r) descriptor
        (row_source_index r) (row_failover_count r) (row_refresh_count r) (row_remux_job_id r)
        (row_last_heartbeat_at r) (row_expires_at r)).
Definition set_terminated (reason : TerminalReason) (token_hash snapshot descriptor : string)
    (now : instant) (r : SessionRow) : result SessionRepositoryError SessionRow :=
  revision ← sql_add (row_revision r) 1;
  token_revision ← sql_add (row_token_revision r) 1;
  Ok {| row_id := row_id r; row_owner := row_owner r; row_item_key_hash := row_item_key_hash r;
        row_stream_option_key_hash := row_stream_option_key_hash r;
        row_encrypted_item_snapshot := snapshot; row_delivery_mode := row_delivery_mode r;
        row_protocol := row_protocol r; row_state := SessionState.as_str (reason_state reason);
        row_revision := revision; row_token_revision := token_revision;
        row_control_fencing_token := row_control_fencing_token r; row_token_hash := token_hash;
        row_encrypted_descriptor := descriptor; row_source_index := row_source_index r;
        row_failover_count := row_failover_count r; row_refresh_count := row_refresh_count r;
        row_egress_binding_id := None; row_remux_job_id := None; row_created_at := row_created_at r;
        row_last_heartbeat_at := row_last_heartbeat_at r;
        row_expires_at := if (row_hard_expires_at r <? now)%Z then row_hard_expires_at r else now;
        row_hard_expires_at := row_hard_expires_at r; row_ended_at := Some now;
        row_error_code := reason_error_code reason;
        row_error_detail_redacted := reason_error_detail reason |}.

(** ** Helpers *)
Definition checked_add_signed `{Texts} (t : instant) (d : Z) : result SessionRepositoryError instant :=
  if (t + d <=? datetime_max)%Z then Ok (t + d)%Z else Err InvalidInput.

Definition recovery_state (a : RecoveryAction) : SessionState :=
  match a with Refresh => Refreshing | Failover => FailingOver end.

Definition validate_revision_and_fence (s : SessionRecord) (expected_revision control : Z)
    : result SessionRepositoryError unit :=
  _ ← reject_if ((expected_revision <? 1) || (control <? 1))%Z InvalidInput;
  _ ← reject_if (negb (control_fencing_token s =? control)%Z) FenceLost;
  reject_if (negb (revision s =? expected_revision)%Z) RevisionChanged.
Definition expired_at (s : SessionRecord) (now : instant) : bool :=
  SessionState.is_terminal (state s) || (session_expires_at s <=? now)%Z || (hard_expires_at s <=? now)%Z.
Definition validate_mutation (s : SessionRecord) (expected_revision control : Z) (now : instant)
    : result SessionRepositoryError unit :=
  _ ← validate_revision_and_fence s expected_revision control;
  reject_if (expired_at s now) SessionExpired.

Definition owned (owner : SessionOwner) (r : SessionRow) : bool := bool_decide (row_owner r = owner).
Definition session_where (id : uuid) (p : SessionRow -> bool) (db : Db) : option SessionRow :=
  match db_sessions db !! id with
  | Some r => if p r then Some r else None
  | None => None
  end.
Definition load_owned (owner : SessionOwner) (id : uuid) : tx SessionRow :=
  row ← read (session_where id (owned owner));
  lift (ok_or row NotFound).
Definition load_owned_record (owner : SessionOwner) (id : uuid) : tx SessionRecord :=
  row ← load_owned owner id;
  lift (decode_session row).

(** the row the UPDATE returned, decoded; no row means another writer came first *)
Definition updated (m : tx (option SessionRow)) : tx SessionRecord :=
  row ← m;
  row ← lift (ok_or row RevisionChanged);
  lift (decode_session row).
Definition at_revision (revision fencing : Z) (r : SessionRow) : bool :=
  ((row_revision r =? revision) && (row_control_fencing_token r =? fencing))%Z.
Definition in_state (s : SessionState) (r : SessionRow) : bool :=
  String.eqb (row_state r) (SessionState.as_str s).

(** rows of the session table in an order, at most [limit] of them *)
Definition by_created (a b : SessionRow) : Prop :=
  (row_created_at a < row_created_at b)%Z \/
  (row_created_at a = row_created_at b /\ (row_id a <= row_id b)%N).
Definition by_expiry (a b : SessionRow) : Prop :=
  (row_expires_at a < row_expires_at b)%Z \/
  (row_expires_at a = row_expires_at b /\ (row_id a <= row_id b)%N).
Definition by_ended (a b : SessionRow) : Prop :=
  (default 0%Z (row_ended_at a) < default 0%Z (row_ended_at b))%Z \/
  (default 0%Z (row_ended_at a) = default 0%Z (row_ended_at b) /\ (row_id a <= row_id b)%N).
#[export] Instance by_created_dec : RelDecision by_created.
Proof. intros a b. unfold by_created. apply _. Defined.
#[export] Instance by_expiry_dec : RelDecision by_expiry.
Proof. intros a b. unfold by_expiry. apply _. Defined.
#[export] Instance by_ended_dec : RelDecision by_ended.
Proof. intros a b. unfold by_ended. apply _. Defined.
Definition select_sessions (order : relation SessionRow) `{!RelDecision order} (limit : Z)
    (p : SessionRow -> bool) (db : Db) : list SessionRow :=
  take (Z.to_nat limit)
    (merge_sort order (filter (fun r => p r = true) (snd <$> map_to_list (db_sessions db)))).

(** ** Fence and owner checks *)
Definition fence_active (control : Z) (now : instant) (l : LeaseRow) : bool :=
  (lr_fencing_token l =? control)%Z && is_some_b (lr_owner_instance_id l)
  && is_some_and (fun e => now <? e)%Z (lr_expires_at l).
Definition assert_active_fence (control : Z) (now : instant) : tx unit :=
  _ ← fail_when (control <? 1)%Z InvalidInput;
  active ← read (fun db => fence_active control now (db_lease db));
  fail_when (negb active) FenceLost.

Definition validate_owner (o : SessionOwner) (now : instant) : tx unit := fun db =>
  let valid :=
    match db_account_sessions db !! account_session_id o with
    | None => false
    | Some a =>
        bool_decide (acc_user_id a = user_id o) && bool_decide (acc_home_id a = home_id o)
        && bool_decide (acc_active_profile_id a = Some (profile_id o))
        && is_none_b (acc_revoked_at a) && (now <? acc_expires_at a)%Z
        && bool_decide (acc_user_id a ∈ db_users db) && bool_decide (acc_home_id a ∈ db_homes db)
        && bool_decide (db_home_members db !! (acc_home_id a, acc_user_id a) = Some "active")
        && bool_decide (db_profiles db !! profile_id o = Some (acc_home_id a))
        && bool_decide (provider_id o ∈ db_providers db)
    end in
  if valid then Ok ((), db) else Err OwnerUnavailable.

Definition active_row (now : instant) (r : SessionRow) : bool :=
  live_row r && (now <? row_expires_at r)%Z && (now <? row_hard_expires_at r)%Z.
Definition count_sessions (p : SessionRow -> bool) (db : Db) : Z :=
  Z.of_nat (size (filter (fun kv : uuid * SessionRow => p kv.2 = true) (db_sessions db))).
Definition enforce_capacity (limits : LiveSessionLimits) (o : SessionOwner) (now : instant) : tx unit :=
  server_count ← read (count_sessions (active_row now));
  user_count ← read (count_sessions (fun r =>
    active_row now r && bool_decide (user_id (row_owner r) = user_id o)));
  fail_when ((server_total limits <=? server_count) || (per_user limits <=? user_count))%Z Capacity.

(** ** The methods *)
Section repository.
Context {R : Type} `{Vault R} `{Texts}.
Context (crypto : R) (limits : LiveSessionLimits).

Definition session_context (p : EnvelopePurpose) (session_id : uuid) (column : string)
    : result LiveCryptoError EnvelopeContext :=
  EnvelopeContext_new p "live_playback_sessions" (uuid_text session_id) column.
Definition replay_record_id (user profile : uuid) (key_hash : string) : string :=
  uuid_text user +:+ ":" +:+ uuid_text profile +:+ ":" +:+ key_hash.
Definition replay_context (record_id : string) : result LiveCryptoError EnvelopeContext :=
  EnvelopeContext_new IdempotencyResponse "live_session_idempotency" record_id "encrypted_response".

Definition encrypt_column (p : EnvelopePurpose) (session_id : uuid) (column : string)
    (random : option string) (plaintext : string) : tx string :=
  ctx ← lift_crypto (session_context p session_id column);
  lift_crypto (vault_encrypt crypto ctx random plaintext).

Definition encrypt_replay (user profile : uuid) (key_hash : string) (random : option string)
    (payload : ReplayPayload) : result SessionRepositoryError string :=
  encoded ← ok_or (replay_to_json payload) InvalidState;
  _ ← reject_if (MAX_REPLAY_BYTES <? slen encoded)%Z InvalidState;
  ctx ← map_err CryptoError (replay_context (replay_record_id user profile key_hash));
  map_err CryptoError (vault_encrypt crypto ctx random encoded).
Definition decrypt_replay (user profile : uuid) (key_hash envelope : string)
    : result SessionRepositoryError ReplayPayload :=
  ctx ← map_err CryptoError (replay_context (replay_record_id user profile key_hash));
  plaintext ← map_err CryptoError (vault_decrypt crypto ctx envelope);
  _ ← reject_if (MAX_REPLAY_BYTES <? slen plaintext)%Z InvalidState;
  ok_or (replay_of_json plaintext) InvalidState.

(** *** Idempotent creation *)
Definition load_replay (o : SessionOwner) (key_hash request_hash : string) (now : instant)
    : tx (option SessionGrant) :=
  let key := (user_id o, profile_id o, key_hash) in
  row ← read (fun db => db_replays db !! key);
  match row with
  | None => mret None
  | Some row =>
      if negb (String.eqb (rp_request_hash row) request_hash) then lift (Err IdempotencyConflict)
      else if (rp_expires_at row <=? now)%Z then _ ← write (set_replays (delete key)); mret None
      else
        payload ← lift (decrypt_replay (user_id o) (profile_id o) key_hash (rp_encrypted_response row));
        _ ← fail_when (negb (bool_decide (pay_session_id payload = rp_session_id row))) InvalidState;
        session_row ← read (session_where (rp_session_id row) (owned o));
        session_row ← lift (ok_or session_row InvalidState);
        session ← lift (decode_session session_row);
        _ ← fail_when (expired_at session now
                       || negb (pay_token_revision payload =? token_revision session)%Z
                       || negb (vault_verify_token crypto (pay_token payload) (row_token_hash session_row)))
              InvalidState;
        token ← lift_crypto (vault_parse_token (pay_token payload));
        mret (Some {| grant_session := session; grant_token := token; replayed := true |})
  end.

Definition validate_request (r : IdempotencyRequest) : result SessionRepositoryError unit :=
  reject_if (str_empty (idem_key r) || (512 <? slen (idem_key r))%Z
             || str_empty (idem_request_identity r) || (65536 <? slen (idem_request_identity r))%Z)
    InvalidInput.
Definition idempotency_hashes (r : IdempotencyRequest) : result SessionRepositoryError (string * string) :=
  key_hash ← map_err CryptoError (vault_hash_correlation crypto CorrIdempotencyKey (idem_key r));
  request_hash ← map_err CryptoError
    (vault_hash_correlation crypto CorrIdempotencyRequest (idem_request_identity r));
  Ok (key_hash, request_hash).

Definition lookup_idempotency (o : SessionOwner) (r : IdempotencyRequest) (now : instant)
    : tx (option SessionGrant) :=
  _ ← lift (validate_request r);
  hashes ← lift (idempotency_hashes r);
  load_replay o hashes.1 hashes.2 now.

Definition validate_create (input : NewSession) (r : option IdempotencyRequest)
    : result SessionRepositoryError unit :=
  reject_if ((new_control_fencing_token input <? 1)%Z
    || str_empty (new_item_key input) || str_empty (new_stream_option_key input)
    || str_empty (new_item_snapshot input) || str_empty (new_descriptor input)
    || (new_source_index input <? 0)%Z
    || is_some_and (fun r => negb (is_ok (validate_request r))) r) InvalidInput.

(** INSERT INTO live_playback_sessions: primary key, foreign keys and CHECKs *)
Definition insert_session (r : SessionRow) : tx unit := fun db =>
  let o := row_owner r in
  if is_none_b (db_sessions db !! row_id r)
     && bool_decide (user_id o ∈ db_users db) && bool_decide (home_id o ∈ db_homes db)
     && is_some_b (db_profiles db !! profile_id o)
     && is_some_b (db_account_sessions db !! account_session_id o)
     && bool_decide (provider_id o ∈ db_providers db) && session_check r
  then Ok ((), set_sessions <[row_id r := r]> db) else Err (Storage "constraint failed").
(** INSERT INTO live_session_idempotency ... ON CONFLICT DO NOTHING: whether a row was inserted *)
Definition insert_replay (key : replay_key) (r : ReplayRow) : tx bool := fun db =>
  match db_replays db !! key with
  | Some _ => Ok (false, db)
  | None =>
      if replay_check key r && bool_decide (key.1.1 ∈ db_users db)
         && is_some_b (db_profiles db !! key.1.2) && is_some_b (db_sessions db !! rp_session_id r)
      then Ok (true, set_replays <[key := r]> db) else Err (Storage "constraint failed")
  end.

Inductive create_outcome :=
| Replayed (g : SessionGrant)
| Created (session_id : uuid) (token : string)
| Raced.

Definition new_session_row (d : Draws) (input : NewSession) (token_hash : string)
    : tx SessionRow :=
  item_key_hash ← lift_crypto (vault_hash_correlation crypto CorrItemKey (new_item_key input));
  option_hash ← lift_crypto
    (vault_hash_correlation crypto CorrStreamOptionKey (new_stream_option_key input));
  snapshot ← encrypt_column ItemSnapshot (draw_uuid d) "encrypted_item_snapshot" (draw_nonce d 0)
    (new_item_snapshot input);
  descriptor ← encrypt_column Descriptor (draw_uuid d) "encrypted_descriptor" (draw_nonce d 1)
    (new_descriptor input);
  lease ← lift (duration_seconds (lease_seconds limits));
  hard ← lift (duration_seconds (max_lifetime_seconds limits));
  hard_expires ← lift (checked_add_signed (new_now input) (seconds hard));
  expires ← lift (checked_add_signed (new_now input) (seconds lease));
  mret {| row_id := draw_uuid d; row_owner := new_owner input; row_item_key_hash := item_key_hash;
          row_stream_option_key_hash := option_hash; row_encrypted_item_snapshot := snapshot;
          row_delivery_mode := DeliveryMode.as_str (new_delivery_mode input);
          row_protocol := SessionProtocol.as_str (new_protocol input);
          row_state := "resolving"; row_revision := 1; row_token_revision := 1;
          row_control_fencing_token := new_control_fencing_token input; row_token_hash := token_hash;
          row_encrypted_descriptor := descriptor; row_source_index := new_source_index input;
          row_failover_count := 0; row_refresh_count := 0; row_egress_binding_id := None;
          row_remux_job_id := None; row_created_at := new_now input;
          row_last_heartbeat_at := new_now input; row_expires_at := Z.min expires hard_expires;
          row_hard_expires_at := hard_expires; row_ended_at := None; row_error_code := None;
          row_error_detail_redacted := None |}.

(** the transaction of [create_once]; [Raced] is rolled back by the caller *)
Definition create_tx (d : Draws) (input : NewSession) (hashes : option (string * string))
    : tx create_outcome :=
  replay ← match hashes with
           | Some (k, rq) => load_replay (new_owner input) k rq (new_now input)
           | None => mret None
           end;
  match replay with
  | Some g => mret (Replayed g)
  | None =>
      _ ← assert_active_fence (new_control_fencing_token input) (new_now input);
      _ ← validate_owner (new_owner input) (new_now input);
      _ ← enforce_capacity limits (new_owner input) (new_now input);
      token ← lift_crypto (vault_generate_token (draw_token d));
      token_hash ← lift_crypto (vault_hash_token crypto token);
      row ← new_session_row d input (th_encoded token_hash);
      _ ← insert_session row;
      match hashes with
      | None => mret (Created (draw_uuid d) token)
      | Some (k, rq) =>
          expires ← lift (checked_add_signed (new_now input) (seconds IDEMPOTENCY_TTL_SECONDS));
          response ← lift (encrypt_replay (user_id (new_owner input)) (profile_id (new_owner input)) k
            (draw_nonce d 2)
            {| pay_session_id := draw_uuid d; pay_token_revision := 1; pay_token := token |});
          inserted ← insert_replay (user_id (new_owner input), profile_id (new_owner input), k)
            {| rp_request_hash := rq; rp_session_id := draw_uuid d; rp_encrypted_response := response;
               rp_created_at := new_now input; rp_expires_at := expires |};
          mret (if (inserted : bool) then Created (draw_uuid d) token else Raced)
      end
  end.

Definition get_owned (o : SessionOwner) (session_id : uuid) (db : Db)
    : result SessionRepositoryError (option SessionRecord) :=
  match session_where session_id (owned o) db with
  | None => Ok None
  | Some r => Some <$> decode_session r
  end.

(** [create_once]: the transaction on [db]; after it, a read of the session (or, after a race, a second
    transaction) on the database [later], which other calls may have changed in between. *)
Definition create_once (d : Draws) (input : NewSession) (hashes : option (string * string))
    (db : Db) (later : Db -> Db) : result SessionRepositoryError SessionGrant * Db :=
  match create_tx d input hashes db with
  | Err e => (Err e, db)
  | Ok (Replayed g, db') => (Ok g, db')
  | Ok (Created session_id token, db') =>
      let seen := later db' in
      (session ← get_owned (new_owner input) session_id seen;
       session ← ok_or session InvalidState;
       Ok {| grant_session := session; grant_token := token; replayed := false |}, seen)
  | Ok (Raced, _) =>
      match hashes with
      | None => (Err RevisionChanged, db)
      | Some (k, rq) =>
          atomically (g ← load_replay (new_owner input) k rq (new_now input);
                      lift (ok_or g RevisionChanged)) (later db)
      end
  end.

(** [create]: at most [CREATE_RETRIES] attempts while the database reports a transient conflict.
    [attempt] is what the [n]-th attempt does to the database. *)
Fixpoint create_loop (remaining : nat) (n : nat)
    (attempt : nat -> Db -> result SessionRepositoryError SessionGrant * Db) (db : Db)
    : result SessionRepositoryError SessionGrant * Db :=
  match remaining with
  | 0 => attempt n db
  | S remaining' =>
      match attempt n db with
      | (Err (Storage message), db') =>
          if transient_database_conflict message then create_loop remaining' (S n) attempt db'
          else (Err (Storage message), db')
      | r => r
      end
  end.
Definition create (input : NewSession) (request : option IdempotencyRequest)
    (attempt : nat -> option (string * string) -> Db -> result SessionRepositoryError SessionGrant * Db)
    (db : Db) : result SessionRepositoryError SessionGrant * Db :=
  match validate_create input request with
  | Err e => (Err e, db)
  | Ok _ =>
      match (match request with
             | None => Ok None
             | Some r => Some <$> idempotency_hashes r
             end) with
      | Err e => (Err e, db)
      | Ok hashes => create_loop (CREATE_RETRIES - 1) 0 (fun n => attempt n hashes) db
      end
  end.
(** *** Reads *)
Definition get_for_account (user home profile account session_id : uuid) (db : Db)
    : result SessionRepositoryError (option SessionRecord) :=
  match session_where session_id (fun r =>
      bool_decide (user_id (row_owner r) = user) && bool_decide (home_id (row_owner r) = home)
      && bool_decide (profile_id (row_owner r) = profile)
      && bool_decide (account_session_id (row_owner r) = account)) db with
  | None => Ok None
  | Some r => Some <$> decode_session r
  end.
Definition get_for_home (home session_id : uuid) (db : Db)
    : result SessionRepositoryError (option SessionRecord) :=
  match session_where session_id (fun r => bool_decide (home_id (row_owner r) = home)) db with
  | None => Ok None
  | Some r => Some <$> decode_session r
  end.

Definition decrypt_column (p : EnvelopePurpose) (session_id : uuid) (column envelope : string)
    : result SessionRepositoryError string :=
  ctx ← map_err CryptoError (session_context p session_id column);
  map_err CryptoError (vault_decrypt crypto ctx envelope).
Definition decrypt_secrets (o : SessionOwner) (session_id : uuid) (db : Db)
    : result SessionRepositoryError SessionSecretMaterial :=
  row ← ok_or (session_where session_id (owned o) db) NotFound;
  state ← parse_state (row_state row);
  _ ← reject_if (SessionState.is_terminal state) SessionExpired;
  snapshot ← decrypt_column ItemSnapshot session_id "encrypted_item_snapshot"
    (row_encrypted_item_snapshot row);
  descriptor ← decrypt_column Descriptor session_id "encrypted_descriptor" (row_encrypted_descriptor row);
  Ok {| mat_item_snapshot := snapshot; mat_descriptor := descriptor |}.

(** the WHERE of [verify_delivery_token]: the current fence and a valid account session *)
Definition account_session_valid (o : SessionOwner) (now : instant) (db : Db) : bool :=
  is_some_and (fun a =>
      bool_decide (acc_user_id a = user_id o) && bool_decide (acc_home_id a = home_id o)
      && bool_decide (acc_active_profile_id a = Some (profile_id o))
      && is_none_b (acc_revoked_at a) && (now <? acc_expires_at a)%Z)
    (db_account_sessions db !! account_session_id o).
Definition verify_delivery_token (session_id : uuid) (presented : string) (now : instant) (db : Db)
    : result SessionRepositoryError SessionRecord :=
  row ← ok_or (session_where session_id (fun r =>
          fence_active (row_control_fencing_token r) now (db_lease db)
          && account_session_valid (row_owner r) now db) db) NotFound;
  session ← decode_session row;
  _ ← reject_if (expired_at session now) SessionExpired;
  _ ← reject_if (negb (vault_verify_token crypto presented (row_token_hash row))) NotFound;
  Ok session.

Definition decode_all (rows : list SessionRow) : result SessionRepositoryError (list SessionRecord) :=
  foldr (fun r acc => s ← decode_session r; l ← acc; Ok (s :: l)) (Ok []) rows.
Definition list_active (now : instant) (limit : Z) (db : Db)
    : result SessionRepositoryError (list SessionRecord) :=
  limit ← bounded_batch limit;
  decode_all (select_sessions by_created limit
    (fun r => live_row r && (now <? row_hard_expires_at r)%Z) db).
Definition list_nonterminal (limit : Z) (db : Db) : result SessionRepositoryError (list SessionRecord) :=
  limit ← bounded_batch limit;
  decode_all (select_sessions by_created limit live_row db).
Definition track_preferences (user provider : uuid) (db : Db)
    : result SessionRepositoryError (option LiveTrackPreferences) :=
  match db_tracks db !! (user, provider) with
  | None => Ok None
  | Some r => Some <$> decode_track_preferences r
  end.
Definition assert_current_fence (control : Z) (now : instant) : tx unit := assert_active_fence control now.
Definition count_active_server_delivery (db : Db) : Z :=
  count_sessions (fun r => live_row r
    && existsb (String.eqb (row_delivery_mode r)) ["server_relay"; "server_remux"]) db.

(** *** Mutations *)
Definition mutation_from (expected_revision : Z) (m : tx SessionRecord) : tx SessionMutation :=
  s ← m;
  mret {| mut_session := s; previous_revision := expected_revision |}.

Definition adopt_control_fence (o : SessionOwner) (session_id : uuid) (expected_revision previous new : Z)
    (now : instant) : tx SessionMutation :=
  _ ← fail_when ((previous <? 1) || (new <=? previous))%Z InvalidInput;
  _ ← assert_active_fence new now;
  current ← load_owned_record o session_id;
  _ ← fail_when (SessionState.is_terminal (state current)) SessionExpired;
  _ ← fail_when (negb (revision current =? expected_revision)%Z) RevisionChanged;
  _ ← fail_when (negb (control_fencing_token current =? previous)%Z) FenceLost;
  mutation_from expected_revision
    (updated (update_session session_id
      (fun r => at_revision expected_revision previous r && live_row r) (set_fence new))).

(** the shared start of the mutations: the fence, the caller's session, its revision and lifetime *)
Definition begin_mutation (o : SessionOwner) (session_id : uuid) (expected_revision control : Z)
    (now : instant) : tx SessionRecord :=
  _ ← assert_active_fence control now;
  current ← load_owned_record o session_id;
  _ ← lift (validate_mutation current expected_revision control now);
  mret current.

Definition transition (o : SessionOwner) (session_id : uuid) (expected_revision control : Z)
    (next : SessionState) (now : instant) : tx SessionMutation :=
  _ ← fail_when ((expected_revision <? 1)%Z || (control <? 1)%Z || SessionState.is_terminal next)
        InvalidInput;
  current ← begin_mutation o session_id expected_revision control now;
  _ ← fail_when (negb (SessionState.can_transition_to (state current) next)) InvalidTransition;
  mutation_from expected_revision
    (updated (update_session session_id
      (fun r => at_revision expected_revision control r && in_state (state current) r && live_row r)
      (set_state (SessionState.as_str next)))).

(** INSERT ... ON CONFLICT(user_id, provider_id) DO UPDATE of the track preferences *)
Definition track_row_of (u : LiveTrackPreferenceUpdate) (now : instant) : TrackRow :=
  {| tr_audio_track_id := track_id <$> upd_audio u;
     tr_audio_language := upd_audio u ≫= track_language;
     tr_audio_title := upd_audio u ≫= track_title;
     tr_subtitle_track_id := track_id <$> upd_subtitle u;
     tr_subtitle_language := upd_subtitle u ≫= track_language;
     tr_subtitle_title := upd_subtitle u ≫= track_title;
     tr_revision := 1; tr_updated_at := now |}.
Definition merge_track_row (old excluded : TrackRow) : result SessionRepositoryError TrackRow :=
  revision ← sql_add (tr_revision old) 1;
  let keep {A} (track : option string) (mine theirs : A) := if is_none_b track then mine else theirs in
  let audio := tr_audio_track_id excluded in
  let subtitle := tr_subtitle_track_id excluded in
  Ok {| tr_audio_track_id := keep audio (tr_audio_track_id old) audio;
        tr_audio_language := keep audio (tr_audio_language old) (tr_audio_language excluded);
        tr_audio_title := keep audio (tr_audio_title old) (tr_audio_title excluded);
        tr_subtitle_track_id := keep subtitle (tr_subtitle_track_id old) subtitle;
        tr_subtitle_language := keep subtitle (tr_subtitle_language old) (tr_subtitle_language excluded);
        tr_subtitle_title := keep subtitle (tr_subtitle_title old) (tr_subtitle_title excluded);
        tr_revision := revision; tr_updated_at := tr_updated_at excluded |}.
Definition upsert_track (key : uuid * uuid) (excluded : TrackRow) : tx unit := fun db =>
  row ← match db_tracks db !! key with
        | None => Ok excluded
        | Some old => merge_track_row old excluded
        end;
  _ ← constraint (track_check row && bool_decide (key.1 ∈ db_users db)
                  && bool_decide (key.2 ∈ db_providers db));
  Ok ((), set_tracks <[key := row]> db).

Definition heartbeat_with_track_preferences (o : SessionOwner) (session_id : uuid)
    (expected_revision control : Z) (now : instant) (u : option LiveTrackPreferenceUpdate)
    : tx SessionMutation :=
  _ ← fail_when (is_some_and (fun u => update_is_empty u || negb (valid_track_preference_update u)) u)
        InvalidInput;
  current ← begin_mutation o session_id expected_revision control now;
  lease ← lift (duration_seconds (lease_seconds limits));
  expires ← lift (checked_add_signed now (seconds lease));
  let expires_at := Z.min expires (hard_expires_at current) in
  mutation ← mutation_from expected_revision
    (updated (update_session session_id
      (fun r => at_revision expected_revision control r && live_row r) (set_heartbeat now expires_at)));
  _ ← match u with
      | Some u => upsert_track (user_id o, provider_id o) (track_row_of u now)
      | None => mret ()
      end;
  mret mutation.
Definition heartbeat (o : SessionOwner) (session_id : uuid) (expected_revision control : Z)
    (now : instant) : tx SessionMutation :=
  heartbeat_with_track_preferences o session_id expected_revision control now None.

(** [prepare_rotated_token]: a new token, re-encrypted into every unexpired replay of the session *)
Definition replays_of (session_id : uuid) (now : instant) (db : Db) : list (replay_key * ReplayRow) :=
  filter (fun kv => (bool_decide (rp_session_id kv.2 = session_id) && (now <? rp_expires_at kv.2)%Z) = true)
    (map_to_list (db_replays db)).
Definition with_response (response : string) (r : ReplayRow) : ReplayRow :=
  {| rp_request_hash := rp_request_hash r; rp_session_id := rp_session_id r;
     rp_encrypted_response := response; rp_created_at := rp_created_at r;
     rp_expires_at := rp_expires_at r |}.
(** UPDATE live_session_idempotency SET encrypted_response = $1 WHERE key AND ...: rows affected *)
Definition update_replay (key : replay_key) (where_ : ReplayRow -> bool) (response : string) : tx Z := fun db =>
  match db_replays db !! key with
  | None => Ok (0%Z, db)
  | Some r =>
      if where_ r then
        _ ← constraint (replay_check key (with_response response r));
        Ok (1%Z, set_replays <[key := with_response response r]> db)
      else Ok (0%Z, db)
  end.
Fixpoint rotate_replays (session_id : uuid) (payload : ReplayPayload) (now : instant)
    (nonce : nat -> option string) (n : nat) (rows : list (replay_key * ReplayRow)) : tx unit :=
  match rows with
  | [] => mret ()
  | ((user, profile, key_hash), _) :: rest =>
      encrypted ← lift (encrypt_replay user profile key_hash (nonce n) payload);
      affected ← update_replay (user, profile, key_hash)
        (fun r => bool_decide (rp_session_id r = session_id) && (now <? rp_expires_at r)%Z) encrypted;
      _ ← fail_when (negb (affected =? 1)%Z) RevisionChanged;
      rotate_replays session_id payload now nonce (S n) rest
  end.
(** [n]: the index of the first nonce the loop may use *)
Definition prepare_rotated_token (d : Draws) (n : nat) (session_id : uuid) (current_token_revision : Z)
    (now : instant) : tx (string * string * Z) :=
  token ← lift_crypto (vault_generate_token (draw_token d));
  token_hash ← lift_crypto (vault_hash_token crypto token);
  next ← lift (ok_or (i64_checked_add current_token_revision 1) InvalidState);
  rows ← read (replays_of session_id now);
  _ ← rotate_replays session_id
        {| pay_session_id := session_id; pay_token_revision := next; pay_token := token |}
        now (draw_nonce d) n rows;
  mret (token, th_encoded token_hash, next).

Definition rotate_delivery_token (d : Draws) (o : SessionOwner) (session_id : uuid)
    (expected_revision control : Z) (now : instant) : tx SessionGrant :=
  current ← begin_mutation o session_id expected_revision control now;
  prepared ← prepare_rotated_token d 0 session_id (token_revision current) now;
  let '(token, token_hash, next) := prepared in
  session ← updated (update_session session_id
    (fun r => at_revision expected_revision control r && live_row r) (set_token token_hash next));
  mret {| grant_session := session; grant_token := token; replayed := false |}.

Definition bind_remux_job (o : SessionOwner) (session_id : uuid) (expected_revision control : Z)
    (job : string) (now : instant) : tx SessionRecord :=
  _ ← fail_when ((expected_revision <? 1)%Z || (control <? 1)%Z || negb (valid_remux_job_id job))
        InvalidInput;
  current ← begin_mutation o session_id expected_revision control now;
  _ ← fail_when (negb (bool_decide (delivery_mode current = ServerRemux))
                 || is_some_and (fun v => negb (String.eqb v job)) (remux_job_id current)) InvalidState;
  updated (update_session session_id
    (fun r => owned o r && at_revision expected_revision control r
      && String.eqb (row_delivery_mode r) "server_remux"
      && is_none_or (fun v => String.eqb v job) (row_remux_job_id r) && live_row r)
    (set_job (Some job))).

Definition clear_remux_job (o : SessionOwner) (session_id : uuid) (control : Z) (job : string)
    (now : instant) : tx unit :=
  _ ← fail_when ((control <? 1)%Z || negb (valid_remux_job_id job)) InvalidInput;
  _ ← assert_active_fence control now;
  _ ← update_session session_id
        (fun r => owned o r && (row_control_fencing_token r =? control)%Z
          && is_some_and (fun v => String.eqb v job) (row_remux_job_id r)) (set_job None);
  mret ().
(** *** Recovery *)
(** [transition_in_transaction]: one move of the state machine inside a larger transaction *)
Definition transition_in_transaction (session_id : uuid) (expected_revision control : Z)
    (current next : SessionState) : tx Z :=
  _ ← fail_when (negb (SessionState.can_transition_to current next)) InvalidTransition;
  next_revision ← lift (ok_or (i64_checked_add expected_revision 1) InvalidState);
  row ← update_session session_id
    (fun r => at_revision expected_revision control r && in_state current r && live_row r)
    (set_state (SessionState.as_str next));
  _ ← fail_when (is_none_b row) RevisionChanged;
  mret next_revision.

Definition increments (a : RecoveryAction) : Z * Z :=
  match a with Refresh => (1, 0)%Z | Failover => (0, 1)%Z end.

(** the moves of [replace_for_recovery] up to the one that reaches [Ready] *)
Definition recovery_moves_tx (session_id : uuid) (a : RecoveryAction) (expected_revision control : Z)
    (current : SessionState) : tx (Z * SessionState) :=
  let target := recovery_state a in
  _ ← fail_when (negb (SessionState.can_transition_to current target)) InvalidTransition;
  revision ← transition_in_transaction session_id expected_revision control current target;
  match a with
  | Refresh => mret (revision, target)
  | Failover =>
      revision ← transition_in_transaction session_id revision control FailingOver Planning;
      mret (revision, Planning)
  end.

Definition replace_for_recovery (d : Draws) (i : SessionRecoveryReplacement) : tx SessionGrant :=
  _ ← fail_when ((rr_expected_revision i <? 1)%Z || (rr_control_fencing_token i <? 1)%Z
                 || str_empty (rr_descriptor i) || (rr_source_index i <? 0)%Z) InvalidInput;
  current ← begin_mutation (rr_owner i) (rr_session_id i) (rr_expected_revision i)
              (rr_control_fencing_token i) (rr_now i);
  moved ← recovery_moves_tx (rr_session_id i) (rr_action i) (rr_expected_revision i)
            (rr_control_fencing_token i) (state current);
  let '(rev, before_ready) := moved in
  _ ← fail_when (negb (SessionState.can_transition_to before_ready Ready)) InvalidTransition;
  descriptor ← encrypt_column Descriptor (rr_session_id i) "encrypted_descriptor" (draw_nonce d 0)
    (rr_descriptor i);
  prepared ← prepare_rotated_token d 1 (rr_session_id i) (token_revision current) (rr_now i);
  let '(token, token_hash, token_rev) := prepared in
  let '(refresh_inc, failover_inc) := increments (rr_action i) in
  session ← updated (update_session (rr_session_id i)
    (fun r => at_revision rev (rr_control_fencing_token i) r && in_state before_ready r && live_row r)
    (set_recovered token_hash token_rev descriptor (DeliveryMode.as_str (rr_delivery_mode i))
       (SessionProtocol.as_str (rr_protocol i)) (rr_source_index i) refresh_inc failover_inc));
  mret {| grant_session := session; grant_token := token; replayed := false |}.

Definition record_recovery_failure (d : Draws) (i : SessionRecoveryFailure) : tx SessionMutation :=
  _ ← fail_when ((rf_expected_revision i <? 1)%Z || (rf_control_fencing_token i <? 1)%Z
                 || str_empty (rf_descriptor i)) InvalidInput;
  current ← begin_mutation (rf_owner i) (rf_session_id i) (rf_expected_revision i)
              (rf_control_fencing_token i) (rf_now i);
  let target := recovery_state (rf_action i) in
  _ ← fail_when (negb (SessionState.can_transition_to (state current) target)) InvalidTransition;
  rev ← transition_in_transaction (rf_session_id i) (rf_expected_revision i)
          (rf_control_fencing_token i) (state current) target;
  let resume := if bool_decide (state current = Playing) then Playing else Ready in
  _ ← fail_when (negb (SessionState.can_transition_to target resume)) InvalidTransition;
  descriptor ← encrypt_column Descriptor (rf_session_id i) "encrypted_descriptor" (draw_nonce d 0)
    (rf_descriptor i);
  let '(refresh_inc, failover_inc) := increments (rf_action i) in
  mutation_from (rf_expected_revision i)
    (updated (update_session (rf_session_id i)
      (fun r => at_revision rev (rf_control_fencing_token i) r && in_state target r && live_row r)
      (set_recovery_failed (SessionState.as_str resume) descriptor refresh_inc failover_inc))).

(** *** Termination *)
Definition delete_replays (session_id : uuid) : tx unit :=
  write (set_replays (filter (fun kv => rp_session_id kv.2 <> session_id))).

Definition terminate (d : Draws) (o : SessionOwner) (session_id : uuid) (expected_revision control : Z)
    (reason : TerminalReason) (now : instant) : tx SessionMutation :=
  _ ← lift (validate_terminal_reason reason);
  _ ← assert_active_fence control now;
  current ← load_owned_record o session_id;
  if SessionState.is_terminal (state current) then
    _ ← delete_replays session_id;
    mret {| mut_session := current; previous_revision := revision current |}
  else
    _ ← lift (validate_revision_and_fence current expected_revision control);
    snapshot ← encrypt_column ItemSnapshot session_id "encrypted_item_snapshot" (draw_nonce d 0) "";
    descriptor ← encrypt_column Descriptor session_id "encrypted_descriptor" (draw_nonce d 1) "";
    token ← lift_crypto (vault_generate_token (draw_token d));
    token_hash ← lift_crypto (vault_hash_token crypto token);
    row ← update_session session_id
      (fun r => at_revision expected_revision control r && live_row r)
      (set_terminated reason (th_encoded token_hash) snapshot descriptor now);
    row ← lift (ok_or row RevisionChanged);
    _ ← delete_replays session_id;
    session ← lift (decode_session row);
    mret {| mut_session := session; previous_revision := expected_revision |}.

(** *** Batches: a query, then one transaction per row; a row that fails is skipped or ends the batch *)
Record SessionCleanupReport := {
  expired_sessions : Z;
  deleted_idempotency_rows : Z;
  purged_terminal_sessions : Z;
}.
Record CryptoRotationReport := {
  reencrypted_sessions : Z;
  reencrypted_replays : Z;
  terminated_for_token_key_rotation : Z;
}.
Definition rotation_default : CryptoRotationReport :=
  {| reencrypted_sessions := 0; reencrypted_replays := 0; terminated_for_token_key_rotation := 0 |}.

Definition expired_reason : TerminalReason :=
  {| reason_state := Expired; reason_error_code := Some "LIVE_SESSION_EXPIRED"; reason_error_detail := None |}.
Definition key_rotated_reason : TerminalReason :=
  {| reason_state := Failed; reason_error_code := Some "LIVE_TOKEN_KEY_ROTATED"; reason_error_detail := None |}.

Definition due_sessions (control limit : Z) (now : instant) (db : Db) : list SessionRow :=
  select_sessions by_expiry limit (fun r => live_row r
    && ((row_expires_at r <=? now)%Z || (row_hard_expires_at r <=? now)%Z)
    && (row_control_fencing_token r =? control)%Z) db.

(** terminate the rows one by one; [draws n] are the draws of the [n]-th *)
Fixpoint expire_rows (draws : nat -> Draws) (control : Z) (reason : TerminalReason) (now : instant)
    (rows : list SessionRow) (n : nat) (count : Z) (db : Db) : result SessionRepositoryError Z * Db :=
  match rows with
  | [] => (Ok count, db)
  | r :: rest =>
      match decode_session r with
      | Err e => (Err e, db)
      | Ok s =>
          let '(res, db') := atomically
            (terminate (draws n) (owner s) (id s) (revision s) control reason now) db in
          expire_rows draws control reason now rest (S n)
            (if is_ok res then count + 1 else count)%Z db'
      end
  end.

Definition by_replay_expiry (a b : replay_key * ReplayRow) : Prop :=
  (rp_expires_at a.2 <= rp_expires_at b.2)%Z.
#[local] Instance by_replay_expiry_dec : RelDecision by_replay_expiry.
Proof. intros a b. unfold by_replay_expiry. apply _. Defined.
Definition expired_replays (now : instant) (limit : Z) (db : Db) : list replay_key :=
  take (Z.to_nat limit) (merge_sort by_replay_expiry
    (filter (fun kv => (rp_expires_at kv.2 <=? now)%Z = true) (map_to_list (db_replays db)))).*1.
Definition purgeable_sessions (cutoff : instant) (limit : Z) (db : Db) : list uuid :=
  row_id <$> select_sessions by_ended limit (fun r => terminal_name (row_state r)
    && is_some_and (fun e => e <=? cutoff)%Z (row_ended_at r)) db.
(** DELETE FROM live_playback_sessions: the foreign key of the replays cascades *)
Definition delete_sessions (ids : list uuid) (db : Db) : Db :=
  set_replays (filter (fun kv => rp_session_id kv.2 ∉ ids))
    (set_sessions (filter (fun kv => kv.1 ∉ ids)) db).

Definition purge (control limit : Z) (now : instant) : tx (Z * Z) :=
  _ ← assert_active_fence control now;
  old_replays ← read (expired_replays now limit);
  _ ← write (set_replays (filter (fun kv => kv.1 ∉ old_replays)));
  old_sessions ← read (purgeable_sessions (now - seconds TERMINAL_RETENTION_SECONDS) limit);
  _ ← write (delete_sessions old_sessions);
  mret (Z.of_nat (length old_replays), Z.of_nat (length old_sessions)).

Definition cleanup (draws : nat -> Draws) (control limit : Z) (now : instant) (db : Db)
    : result SessionRepositoryError SessionCleanupReport * Db :=
  match (limit ← bounded_batch limit; _ ← reject_if (control <? 1)%Z InvalidInput; Ok limit) with
  | Err e => (Err e, db)
  | Ok limit =>
      match expire_rows draws control expired_reason now (due_sessions control limit now db) 0 0 db with
      | (Err e, db') => (Err e, db')
      | (Ok expired, db') =>
          match atomically (purge control limit now) db' with
          | (Err e, db'') => (Err e, db'')
          | (Ok (replays, sessions), db'') =>
              (Ok {| expired_sessions := expired; deleted_idempotency_rows := replays;
                     purged_terminal_sessions := sessions |}, db'')
          end
      end
  end.

(** [reencrypt_session_values]: [selected] is the row the batch query read *)
Fixpoint reencrypt_replays (session_id : uuid) (nonce : nat -> option string) (n : nat)
    (rows : list (replay_key * ReplayRow)) (count : Z) : tx Z :=
  match rows with
  | [] => mret count
  | ((user, profile, key_hash), r) :: rest =>
      ctx ← lift_crypto (replay_context (replay_record_id user profile key_hash));
      new ← lift_crypto (vault_reencrypt crypto ctx (nonce n) (rp_encrypted_response r));
      affected ←
        (if negb (String.eqb new (rp_encrypted_response r))
         then update_replay (user, profile, key_hash)
                (fun x => bool_decide (rp_session_id x = session_id)
                  && String.eqb (rp_encrypted_response x) (rp_encrypted_response r)) new
         else mret 0%Z);
      reencrypt_replays session_id nonce (S n) rest (count + affected)%Z
  end.
Definition reencrypt_session_values (d : Draws) (s : SessionRecord) (selected : SessionRow)
    (control : Z) (now : instant) : tx (bool * Z) :=
  snapshot_ctx ← lift_crypto (session_context ItemSnapshot (id s) "encrypted_item_snapshot");
  new_snapshot ← lift_crypto
    (vault_reencrypt crypto snapshot_ctx (draw_nonce d 0) (row_encrypted_item_snapshot selected));
  descriptor_ctx ← lift_crypto (session_context Descriptor (id s) "encrypted_descriptor");
  new_descriptor ← lift_crypto
    (vault_reencrypt crypto descriptor_ctx (draw_nonce d 1) (row_encrypted_descriptor selected));
  let changed := negb (String.eqb new_snapshot (row_encrypted_item_snapshot selected))
                 || negb (String.eqb new_descriptor (row_encrypted_descriptor selected)) in
  _ ← assert_active_fence control now;
  _ ← fail_when (negb (control_fencing_token s =? control)%Z) FenceLost;
  rows ← read (replays_of (id s) now);
  count ← reencrypt_replays (id s) (draw_nonce d) 2 rows 0;
  _ ← (if changed : bool then
         row ← update_session (id s)
           (fun r => at_revision (revision s) control r && live_row r)
           (set_envelopes new_snapshot new_descriptor);
         fail_when (is_none_b row) RevisionChanged
       else mret ());
  mret (changed, count).

Definition add_reencrypted (rep : CryptoRotationReport) (changed : bool) (replays : Z) : CryptoRotationReport :=
  {| reencrypted_sessions := reencrypted_sessions rep + (if changed then 1 else 0);
     reencrypted_replays := reencrypted_replays rep + replays;
     terminated_for_token_key_rotation := terminated_for_token_key_rotation rep |}.
Definition add_terminated (rep : CryptoRotationReport) (n : Z) : CryptoRotationReport :=
  {| reencrypted_sessions := reencrypted_sessions rep; reencrypted_replays := reencrypted_replays rep;
     terminated_for_token_key_rotation := terminated_for_token_key_rotation rep + n |}.

Fixpoint reencrypt_rows (terminate_stale : bool) (draws : nat -> Draws) (control : Z) (now : instant)
    (rows : list SessionRow) (n : nat) (rep : CryptoRotationReport) (db : Db)
    : result SessionRepositoryError CryptoRotationReport * Db :=
  match rows with
  | [] => (Ok rep, db)
  | r :: rest =>
      match decode_session r with
      | Err e => (Err e, db)
      | Ok s =>
          if terminate_stale
             && negb (bool_decide (vault_token_key_id (row_token_hash r) = Some (vault_token_primary crypto)))
          then
            let '(res, db') := atomically
              (terminate (draws n) (owner s) (id s) (revision s) control key_rotated_reason now) db in
            reencrypt_rows terminate_stale draws control now rest (S n)
              (add_terminated rep (if is_ok res then 1 else 0)) db'
          else
            match atomically (reencrypt_session_values (draws n) s r control now) db with
            | (Err e, db') => (Err e, db')
            | (Ok (changed, count), db') =>
                reencrypt_rows terminate_stale draws control now rest (S n)
                  (add_reencrypted rep changed count) db'
            end
      end
  end.
Definition rotate_encryption_keys (draws : nat -> Draws) (control limit : Z) (now : instant) (db : Db)
    : result SessionRepositoryError CryptoRotationReport * Db :=
  match bounded_batch limit with
  | Err e => (Err e, db)
  | Ok limit =>
      reencrypt_rows true draws control now
        (select_sessions by_created limit (fun r => live_row r && (now <? row_hard_expires_at r)%Z) db)
        0 rotation_default db
  end.
End repository.

(** ** Queries by key id *)
(** SQL's [LIKE]: ['%'] matches any text, ['_'] any one character; letters match without case when
    [fold] (the default of SQLite; PostgreSQL compares case).  Both sides are ASCII here. *)
Fixpoint sql_like (fold : bool) (pattern : string) : string -> bool :=
  match pattern with
  | EmptyString => str_empty
  | String p pattern' =>
      fix like_tail (s : string) : bool :=
        if Ascii.eqb p "%"%char
        then sql_like fold pattern' s || match s with EmptyString => false | String _ s' => like_tail s' end
        else match s with
             | EmptyString => false
             | String c s' =>
                 (Ascii.eqb p "_"%char
                  || (if fold then Ascii.eqb (lower_byte p) (lower_byte c) else Ascii.eqb p c))
                 && sql_like fold pattern' s'
             end
  end.
Definition primary_pattern (key_id : string) : string := "elx-live:v1:" +:+ key_id +:+ ":%".

Section key_queries.
Context {R : Type} `{Vault R} `{Texts}.
Context (crypto : R) (fold : bool).

Definition not_like (envelope key_id : string) : bool := negb (sql_like fold (primary_pattern key_id) envelope).
Definition stale_session (key_id : string) (now : instant) (r : SessionRow) : bool :=
  live_row r && (now <? row_hard_expires_at r)%Z
  && (not_like (row_encrypted_item_snapshot r) key_id || not_like (row_encrypted_descriptor r) key_id).
Definition stale_replay (key_id : string) (now : instant) (db : Db) (r : ReplayRow) : bool :=
  is_some_and (fun s => live_row s && (now <? row_hard_expires_at s)%Z) (db_sessions db !! rp_session_id r)
  && (now <? rp_expires_at r)%Z && not_like (rp_encrypted_response r) key_id.

Definition count_active_envelopes_not_using (key_id : string) (now : instant) (db : Db)
    : result SessionRepositoryError Z :=
  _ ← map_err CryptoError (validate_live_key_id key_id);
  Ok (count_sessions (stale_session key_id now) db
      + Z.of_nat (size (filter (fun kv : replay_key * ReplayRow => stale_replay key_id now db kv.2 = true)
          (db_replays db))))%Z.

Definition reencrypt_active_envelopes (draws : nat -> Draws) (control limit : Z) (now : instant) (db : Db)
    : result SessionRepositoryError CryptoRotationReport * Db :=
  match bounded_batch limit with
  | Err e => (Err e, db)
  | Ok limit =>
      match atomically (assert_current_fence control now) db with
      | (Err e, db') => (Err e, db')
      | (Ok _, db') =>
          let key_id := vault_envelope_primary crypto in
          let stale r :=
            live_row r && (now <? row_hard_expires_at r)%Z
            && (not_like (row_encrypted_item_snapshot r) key_id
                || not_like (row_encrypted_descriptor r) key_id
                || existsb (fun kv => bool_decide (rp_session_id kv.2 = row_id r)
                      && (now <? rp_expires_at kv.2)%Z && not_like (rp_encrypted_response kv.2) key_id)
                     (map_to_list (db_replays db'))) in
          reencrypt_rows crypto false draws control now (select_sessions by_created limit stale db')
            0 rotation_default db'
      end
  end.

(** [terminate_server_delivery_for_token_rotation]: a failing termination ends the batch *)
Fixpoint terminate_rows (draws : nat -> Draws) (control : Z) (now : instant) (rows : list SessionRow)
    (n : nat) (count : Z) (db : Db) : result SessionRepositoryError Z * Db :=
  match rows with
  | [] => (Ok count, db)
  | r :: rest =>
      match decode_session r with
      | Err e => (Err e, db)
      | Ok s =>
          match atomically (terminate crypto (draws n) (owner s) (id s) (revision s) control
                              key_rotated_reason now) db with
          | (Err e, db') => (Err e, db')
          | (Ok _, db') => terminate_rows draws control now rest (S n) (count + 1)%Z db'
          end
      end
  end.
Definition terminate_server_delivery_for_token_rotation (draws : nat -> Draws) (control limit : Z)
    (now : instant) (db : Db) : result SessionRepositoryError Z * Db :=
  match bounded_batch limit with
  | Err e => (Err e, db)
  | Ok limit =>
      terminate_rows draws control now
        (select_sessions by_created limit (fun r => live_row r
           && existsb (String.eqb (row_delivery_mode r)) ["server_relay"; "server_remux"]) db) 0 0 db
  end.
End key_queries.
