(* ===== verification/SessionFacts.v ===== *)
(** * What the session methods do when they succeed

    Inversion lemmas for transactions and, for each method of [SessionRepo] that changes a session, the
    row it found, the row it left and the rest of the database.  The properties of [SessionProperties] and
    [SessionEvolution] are read off these. *)
From S2P Require Import Prelude Bytes LiveContract SessionTypes Recovery ControlLease Crypto.
From S2P Require Import Vault SessionStore SessionRepo.

(** ** Transactions *)
Lemma tx_bind_ok {A B} (m : tx A) (k : A -> tx B) db b db' :
  (m ≫= k) db = Ok (b, db') <-> exists a db1, m db = Ok (a, db1) /\ k a db1 = Ok (b, db').
Proof. unfold mbind, tx_bind. destruct (m db) as [[a db1]|e]; naive_solver. Qed.
Lemma tx_ret_ok {A} (a b : A) db db' : (mret a : tx A) db = Ok (b, db') <-> a = b /\ db' = db.
Proof. unfold mret, tx_ret. naive_solver. Qed.
Lemma lift_ok {A} (m : result SessionRepositoryError A) db a db' :
  lift m db = Ok (a, db') <-> m = Ok a /\ db' = db.
Proof. unfold lift. destruct m; naive_solver. Qed.
Lemma lift_crypto_ok {A} (m : result LiveCryptoError A) db a db' :
  lift_crypto m db = Ok (a, db') <-> m = Ok a /\ db' = db.
Proof. unfold lift_crypto. rewrite lift_ok. destruct m; cbn; naive_solver. Qed.
Lemma fail_when_ok b e db u db' : fail_when b e db = Ok (u, db') <-> b = false /\ db' = db.
Proof. unfold fail_when. rewrite lift_ok, reject_if_ok. done. Qed.
Lemma read_ok {A} (f : Db -> A) db a db' : read f db = Ok (a, db') <-> a = f db /\ db' = db.
Proof. unfold read. naive_solver. Qed.
Lemma write_ok f db u db' : write f db = Ok (u, db') <-> db' = f db.
Proof. unfold write. destruct u. naive_solver. Qed.

(** Run a transaction whose steps are known to succeed. *)
Lemma tx_lift {A B} (m : result SessionRepositoryError A) (k : A -> tx B) db a :
  m = Ok a -> (lift m ≫= k) db = k a db.
Proof. by intros ->. Qed.
Lemma tx_lift_crypto {A B} (m : result LiveCryptoError A) (k : A -> tx B) db a :
  m = Ok a -> (lift_crypto m ≫= k) db = k a db.
Proof. by intros ->. Qed.
Lemma tx_pass {B} b e (k : unit -> tx B) db : b = false -> (fail_when b e ≫= k) db = k () db.
Proof. by intros ->. Qed.
Lemma tx_read {A B} (f : Db -> A) (k : A -> tx B) db : (read f ≫= k) db = k (f db) db.
Proof. done. Qed.
Lemma tx_then {A B} (m : tx A) (k : A -> tx B) db a db' : m db = Ok (a, db') -> (m ≫= k) db = k a db'.
Proof. intros Hm. unfold mbind, tx_bind. by rewrite Hm. Qed.

(** Invert a transaction that committed. *)
Ltac tx_inv :=
  repeat (match goal with
  | H : (_ ≫= _) _ = Ok (_, _) |- _ => apply tx_bind_ok in H as (? & ? & ? & H)
  | H : mret _ _ = Ok (_, _) |- _ => apply tx_ret_ok in H as [? ->]; subst
  | H : lift _ _ = Ok (_, _) |- _ => apply lift_ok in H as [? ->]
  | H : lift_crypto _ _ = Ok (_, _) |- _ => apply lift_crypto_ok in H as [? ->]
  | H : fail_when _ _ _ = Ok (_, _) |- _ => apply fail_when_ok in H as [? ->]
  | H : read _ _ = Ok (_, _) |- _ => apply read_ok in H as [-> ->]
  | H : write _ _ = Ok (_, _) |- _ => apply write_ok in H as ->
  end).

Lemma atomically_ok {A} (m : tx A) db a db' :
  atomically m db = (Ok a, db') -> m db = Ok (a, db').
Proof. unfold atomically. destruct (m db) as [[a' db1]|e]; naive_solver. Qed.

(** ** The statements *)
Lemma update_session_some id p f db r' db' :
  update_session id p f db = Ok (Some r', db') ->
  exists r, db_sessions db !! id = Some r /\ p r = true /\ f r = Ok r' /\ session_check r' = true /\
    db' = set_sessions <[id := r']> db.
Proof.
  unfold update_session. destruct (db_sessions db !! id) as [r|] eqn:Hr; [|naive_solver].
  destruct (p r) eqn:Hp; [|naive_solver]. intros Hu. ok_inv. unfold constraint in *. ok_inv. bool_hyps.
  naive_solver.
Qed.
Lemma update_session_none id p f db db' : update_session id p f db = Ok (None, db') -> db' = db.
Proof.
  unfold update_session. destruct (db_sessions db !! id) as [r|]; [|naive_solver].
  destruct (p r); [|naive_solver]. intros Hu. by ok_inv.
Qed.

Lemma sql_add_ok a b c : sql_add a b = Ok c -> c = (a + b)%Z.
Proof. unfold sql_add, i64_checked_add. cbn. case_match; cbn; naive_solver. Qed.

Lemma positive_ok v x : positive v = Ok x <-> x = v /\ (0 < v)%Z.
Proof. unfold positive. destruct (Z.ltb_spec 0 v); naive_solver lia. Qed.
Lemma nonnegative_i32_ok v x : nonnegative_i32 v = Ok x <-> x = v /\ (0 <= v <= i32_max)%Z.
Proof.
  unfold nonnegative_i32. destruct (Z.ltb_spec v 0); run_ok; [naive_solver lia|].
  destruct (Z.leb_spec v i32_max); naive_solver lia.
Qed.

(** ** Decoding *)
Record decodes (r : SessionRow) (s : SessionRecord) : Prop := {
  dec_mode : DeliveryMode.try_from (row_delivery_mode r) = Some (delivery_mode s);
  dec_protocol : SessionProtocol.try_from (row_protocol r) = Some (session_protocol s);
  dec_state : SessionState.try_from (row_state r) = Some (state s);
  dec_id : id s = row_id r;
  dec_owner : owner s = row_owner r;
  dec_revision : revision s = row_revision r /\ (0 < row_revision r)%Z;
  dec_token_revision : token_revision s = row_token_revision r /\ (0 < row_token_revision r)%Z;
  dec_fencing : control_fencing_token s = row_control_fencing_token r /\ (0 < row_control_fencing_token r)%Z;
  dec_source : source_index s = row_source_index r /\ (0 <= row_source_index r <= i32_max)%Z;
  dec_failovers : failover_count s = row_failover_count r /\ (0 <= row_failover_count r <= i32_max)%Z;
  dec_refreshes : refresh_count s = row_refresh_count r /\ (0 <= row_refresh_count r <= i32_max)%Z;
  dec_binding : egress_binding_id s = row_egress_binding_id r;
  dec_job : remux_job_id s = row_remux_job_id r;
  dec_created : created_at s = row_created_at r;
  dec_heartbeat : last_heartbeat_at s = row_last_heartbeat_at r;
  dec_expires : session_expires_at s = row_expires_at r;
  dec_hard : hard_expires_at s = row_hard_expires_at r;
  dec_ended : ended_at s = row_ended_at r;
  dec_error : error_code s = row_error_code r;
  dec_detail : error_detail_redacted s = row_error_detail_redacted r;
}.

Lemma decode_session_ok r s : decode_session r = Ok s <-> decodes r s.
Proof.
  unfold decode_session, parse_state. split.
  - intros Hd. ok_inv.
    repeat match goal with
    | H : positive _ = Ok _ |- _ => apply positive_ok in H as [-> ?]
    | H : nonnegative_i32 _ = Ok _ |- _ => apply nonnegative_i32_ok in H as [-> ?]
    end. by split.
  - intros []. destruct s; cbn in *. destruct_and!. subst.
    rewrite dec_mode0. run_ok. rewrite dec_protocol0. run_ok. rewrite dec_state0. run_ok.
    rewrite !(proj2 (positive_ok _ _)) by done. run_ok.
    by rewrite !(proj2 (nonnegative_i32_ok _ _)) by done.
Qed.

Lemma terminal_name_spec v s :
  SessionState.try_from v = Some s -> terminal_name v = SessionState.is_terminal s.
Proof. intros <-%SessionState_try_from_as_str. by destruct s. Qed.
Lemma terminal_name_as_str s : terminal_name (SessionState.as_str s) = SessionState.is_terminal s.
Proof. by destruct s. Qed.

Lemma in_state_decodes r s t : decodes r s -> in_state t r = true -> state s = t.
Proof.
  intros Hd. unfold in_state. intros Ht%String.eqb_eq. pose proof (dec_state _ _ Hd) as Hs.
  rewrite Ht, SessionState_as_str_try_from in Hs. by injection Hs.
Qed.

Lemma session_where_some id p db r :
  session_where id p db = Some r <-> db_sessions db !! id = Some r /\ p r = true.
Proof.
  unfold session_where. destruct (db_sessions db !! id) as [x|]; [destruct (p x) eqn:Hp|];
    (split; [intros [= <-]|intros [[= <-] ?]]); try done; congruence.
Qed.

(** ** The fence and the session a mutation starts from *)
Lemma assert_active_fence_ok control now db u db' :
  assert_active_fence control now db = Ok (u, db') ->
  db' = db /\ (1 <= control)%Z /\ fence_active control now (db_lease db) = true.
Proof. unfold assert_active_fence. intros Hf. tx_inv. bool_hyps. done. Qed.

Lemma load_owned_record_ok o id db s db' :
  load_owned_record o id db = Ok (s, db') ->
  db' = db /\ exists r, db_sessions db !! id = Some r /\ row_owner r = o /\ decodes r s.
Proof.
  unfold load_owned_record, load_owned. intros Hl. tx_inv. split; [done|]. eexists.
  repeat match goal with
  | H : ok_or _ _ = Ok _ |- _ => apply ok_or_ok, session_where_some in H as [? ?]
  | H : decode_session _ = Ok _ |- _ => apply decode_session_ok in H
  end. unfold owned in *. bool_hyps. done.
Qed.

(** A session its owner may change: found, live, at the expected revision, under the active fence. *)
Record mutable (o : SessionOwner) (id : uuid) (expected_revision control : Z) (now : instant) (db : Db)
    (r : SessionRow) (s : SessionRecord) : Prop := {
  mu_row : db_sessions db !! id = Some r;
  mu_owner : row_owner r = o;
  mu_decodes : decodes r s;
  mu_revision : row_revision r = expected_revision;
  mu_fence : row_control_fencing_token r = control;
  mu_active : fence_active control now (db_lease db) = true;
  mu_live : SessionState.is_terminal (state s) = false;
  mu_expires : (now < row_expires_at r)%Z;
  mu_hard : (now < row_hard_expires_at r)%Z;
}.

Lemma validate_revision_and_fence_ok s n c :
  validate_revision_and_fence s n c = Ok () ->
  control_fencing_token s = c /\ revision s = n /\ (1 <= n)%Z /\ (1 <= c)%Z.
Proof. unfold validate_revision_and_fence. intros Hv. ok_inv. bool_hyps. done. Qed.
Lemma expired_at_false s now :
  expired_at s now = false <->
  SessionState.is_terminal (state s) = false /\ (now < session_expires_at s)%Z /\ (now < hard_expires_at s)%Z.
Proof. unfold expired_at. rewrite !orb_false_iff, !Z.leb_gt. tauto. Qed.

Lemma begin_mutation_ok o id n c now db s db' :
  begin_mutation o id n c now db = Ok (s, db') ->
  db' = db /\ exists r, mutable o id n c now db r s.
Proof.
  unfold begin_mutation. intros Hb. tx_inv.
  match goal with H : assert_active_fence _ _ _ = _ |- _ => apply assert_active_fence_ok in H as (-> & ? & ?) end.
  match goal with H : load_owned_record _ _ _ = _ |- _ => apply load_owned_record_ok in H as (-> & r & ? & ? & Hd) end.
  unfold validate_mutation in *. ok_inv.
  match goal with H : validate_revision_and_fence _ _ _ = Ok ?u |- _ =>
    destruct u; apply validate_revision_and_fence_ok in H as (? & ? & ? & ?) end.
  match goal with H : expired_at _ _ = _ |- _ => apply expired_at_false in H as (? & ? & ?) end.
  split; [done|]. exists r. destruct Hd. destruct_and!. split; try done; congruence.
Qed.

(** ** Rows *)
(** What an update of a session may change, and how: everything that identifies the session stays, the
    revision grows, the token revision and the fence do not shrink and the state moves along the state
    machine.  An update that does not increase the revision ([bump] is false) changes the
    remux job and the egress binding only. *)
Record row_evolves (bump : bool) (r r' : SessionRow) : Prop := {
  ev_id : row_id r' = row_id r;
  ev_owner : row_owner r' = row_owner r;
  ev_item : row_item_key_hash r' = row_item_key_hash r;
  ev_created : row_created_at r' = row_created_at r;
  ev_hard : row_hard_expires_at r' = row_hard_expires_at r;
  ev_option : row_stream_option_key_hash r' = row_stream_option_key_hash r;
  ev_revision : if bump then (row_revision r < row_revision r')%Z
    else set_job (row_remux_job_id r') (set_binding (row_egress_binding_id r') r) = Ok r';
  ev_token : (row_token_revision r <= row_token_revision r')%Z;
  ev_fence : (row_control_fencing_token r <= row_control_fencing_token r')%Z;
  ev_state : forall s, SessionState.try_from (row_state r) = Some s ->
    exists s', SessionState.try_from (row_state r') = Some s' /\ transitions s s';
}.
Lemma state_stays (r r' : SessionRow) :
  row_state r' = row_state r ->
  forall s, SessionState.try_from (row_state r) = Some s ->
    exists s', SessionState.try_from (row_state r') = Some s' /\ transitions s s'.
Proof. intros -> s Hs. exists s. split; [done|constructor]. Qed.
Lemma state_moves (r r' : SessionRow) s s' :
  SessionState.try_from (row_state r) = Some s -> row_state r' = SessionState.as_str s' ->
  transitions s s' ->
  forall x, SessionState.try_from (row_state r) = Some x ->
    exists x', SessionState.try_from (row_state r') = Some x' /\ transitions x x'.
Proof. intros Hs -> Ht x Hx. exists s'. rewrite SessionState_as_str_try_from. split; congruence. Qed.

Lemma updated_ok id p f db s db' :
  updated (update_session id p f) db = Ok (s, db') ->
  exists r r', db_sessions db !! id = Some r /\ p r = true /\ f r = Ok r' /\ session_check r' = true /\
    decodes r' s /\ db' = set_sessions <[id := r']> db.
Proof.
  unfold updated. intros Hu. tx_inv.
  match goal with H : ok_or _ _ = Ok _ |- _ => apply ok_or_ok in H as -> end.
  match goal with H : update_session _ _ _ _ = _ |- _ => apply update_session_some in H as (r & ? & ? & ? & ? & ->) end.
  match goal with H : decode_session _ = Ok _ |- _ => apply decode_session_ok in H end.
  eauto 10.
Qed.
Lemma mutation_from_ok n id p f db mu db' :
  mutation_from n (updated (update_session id p f)) db = Ok (mu, db') ->
  previous_revision mu = n /\
  exists r r', db_sessions db !! id = Some r /\ p r = true /\ f r = Ok r' /\ session_check r' = true /\
    decodes r' (mut_session mu) /\ db' = set_sessions <[id := r']> db.
Proof. unfold mutation_from. intros Hm. tx_inv. split; [done|]. by apply updated_ok. Qed.

(** A method replaced the row of one session: [upd] is the SET clause, [s'] the record returned. *)
Record replaces (o : SessionOwner) (id : uuid) (n c : Z) (now : instant)
    (upd : SessionRow -> SessionRecord -> SessionRow -> Prop) (db : Db) (s' : SessionRecord) (db' : Db)
    : Prop := {
  re_found : exists r s r', mutable o id n c now db r s /\ upd r s r' /\ session_check r' = true /\
    decodes r' s' /\ db_sessions db' = <[id := r']> (db_sessions db);
  re_lease : db_lease db' = db_lease db;
}.

Ltac method_inv :=
  tx_inv;
  repeat match goal with
  | H : begin_mutation _ _ _ _ _ _ = Ok _ |- _ =>
      let r := fresh "r" in apply begin_mutation_ok in H as (-> & r & ?)
  | H : assert_active_fence _ _ _ = Ok _ |- _ => apply assert_active_fence_ok in H as (-> & ? & ?)
  | H : load_owned_record _ _ _ = Ok _ |- _ =>
      let r := fresh "r" in apply load_owned_record_ok in H as (-> & r & ? & ? & ?)
  end; bool_hyps.

(** the row an UPDATE found is the one the method had read *)
Ltac same_row r' r :=
  match goal with Hm : mutable _ _ _ _ _ _ r _, Hr : _ !! _ = Some r' |- _ =>
    let H := fresh in pose proof (mu_row _ _ _ _ _ _ _ _ Hm) as H;
    assert (r' = r) as -> by congruence; clear H end.

Section facts.
Context {R : Type} `{Vault R} `{Texts}.
Context (crypto : R) (limits : LiveSessionLimits).

Lemma transition_replaces o id n c next now db mu db' :
  transition o id n c next now db = Ok (mu, db') ->
  previous_revision mu = n /\
  replaces o id n c now (fun r s r' => SessionState.can_transition_to (state s) next = true /\
    SessionState.is_terminal next = false /\ set_state (SessionState.as_str next) r = Ok r')
    db (mut_session mu) db'.
Proof.
  unfold transition. intros Ht. method_inv.
  apply mutation_from_ok in Ht as (? & r' & r'' & Hr & Hp & Hs & ? & ? & ->).
  split; [done|]. split; [|done]. same_row r' r. by eexists r, _, r''.
Qed.

Lemma adopt_ok o id n prev new now db mu db' :
  adopt_control_fence o id n prev new now db = Ok (mu, db') ->
  previous_revision mu = n /\ (prev < new)%Z /\ fence_active new now (db_lease db) = true /\
  exists r s r', db_sessions db !! id = Some r /\ row_owner r = o /\ decodes r s /\ row_revision r = n /\
    row_control_fencing_token r = prev /\ SessionState.is_terminal (state s) = false /\
    set_fence new r = Ok r' /\ session_check r' = true /\ decodes r' (mut_session mu) /\
    db' = set_sessions <[id := r']> db.
Proof.
  unfold adopt_control_fence. intros Ha. method_inv.
  apply mutation_from_ok in Ha as (? & r' & r'' & Hr & Hp & Hs & ? & ? & ->).
  unfold at_revision in Hp. bool_hyps. split_and!; try done.
  assert (r' = r) as -> by congruence. eexists _, _, r''. by split_and!.
Qed.

Lemma checked_add_ok t d x :
  checked_add_signed t d = Ok x -> x = (t + d)%Z /\ (t + d <= datetime_max)%Z.
Proof. unfold checked_add_signed. case_match; [|done]. intros [= <-]. by bool_hyps. Qed.

Lemma upsert_track_ok key u db x db' :
  upsert_track key u db = Ok (x, db') ->
  db_sessions db' = db_sessions db /\ db_lease db' = db_lease db /\ db_replays db' = db_replays db.
Proof. unfold upsert_track. intros Hu. ok_inv. done. Qed.

Lemma heartbeat_replaces o id n c now u db mu db' :
  heartbeat_with_track_preferences limits o id n c now u db = Ok (mu, db') ->
  previous_revision mu = n /\ db_replays db' = db_replays db /\
  replaces o id n c now (fun r s r' => exists lease, duration_seconds (lease_seconds limits) = Ok lease /\
    (now + seconds lease <= datetime_max)%Z /\
    set_heartbeat now (Z.min (now + seconds lease) (row_hard_expires_at r)) r = Ok r')
    db (mut_session mu) db'.
Proof.
  unfold heartbeat_with_track_preferences. intros Hh. method_inv.
  match goal with Hm : mutation_from _ _ _ = Ok _ |- _ =>
    apply mutation_from_ok in Hm as (? & r' & r'' & Hr & Hp & Hs & ? & ? & ->) end.
  match goal with Ha : checked_add_signed _ _ = Ok _ |- _ => apply checked_add_ok in Ha as [-> ?] end.
  match goal with Hm : mutable _ _ _ _ _ _ r ?s |- _ =>
    rewrite (dec_hard _ _ (mu_decodes _ _ _ _ _ _ _ _ Hm)) in * end.
  same_row r' r. split; [done|].
  assert (forall d, db_sessions d = db_sessions (set_sessions <[id:=r'']> db) -> db_lease d = db_lease db ->
    replaces o id n c now (fun r s r' => exists lease, duration_seconds (lease_seconds limits) = Ok lease /\
      (now + seconds lease <= datetime_max)%Z /\
      set_heartbeat now (Z.min (now + seconds lease) (row_hard_expires_at r)) r = Ok r')
      db (mut_session mu) d) as Hrep.
  { intros d Hd Hl. split; [|done]. eexists r, _, r''. split_and!; eauto. }
  destruct u as [u|]; [|tx_inv; split; [done|by apply Hrep]].
  match goal with Hu : upsert_track _ _ _ = Ok _ |- _ => apply upsert_track_ok in Hu as (Hs1 & Hl1 & Hr1) end.
  split; [done|by apply Hrep].
Qed.

(** ** Token rotation *)
Lemma update_replay_ok key p resp db n db' :
  update_replay key p resp db = Ok (n, db') ->
  db_sessions db' = db_sessions db /\ db_lease db' = db_lease db /\
  (n = 0%Z /\ db' = db \/
   n = 1%Z /\ exists r, db_replays db !! key = Some r /\ p r = true /\
     replay_check key (with_response resp r) = true /\
     db_replays db' = <[key := with_response resp r]> (db_replays db)).
Proof.
  unfold update_replay. destruct (db_replays db !! key) as [r|]; [|intros [= <- <-]; by auto].
  destruct (p r) eqn:Hp; [|intros [= <- <-]; by auto].
  unfold constraint. intros Hu. ok_inv. bool_hyps. split_and!; try done. right. eauto 8.
Qed.

(** the replay of [key] after its session's token was rotated *)
Definition rotated_replay (session_id : uuid) (payload : ReplayPayload) (now : instant)
    (nonce : nat -> option string) (key : replay_key) (db db' : Db) : Prop :=
  exists r k resp, db_replays db !! key = Some r /\ rp_session_id r = session_id /\
    (now < rp_expires_at r)%Z /\
    encrypt_replay crypto key.1.1 key.1.2 key.2 (nonce k) payload = Ok resp /\
    db_replays db' !! key = Some (with_response resp r).

Lemma rotate_replays_ok session_id payload now nonce n rows db u db' :
  rotate_replays crypto session_id payload now nonce n rows db = Ok (u, db') -> NoDup rows.*1 ->
  db_sessions db' = db_sessions db /\ db_lease db' = db_lease db /\
  (forall key, key ∉ rows.*1 -> db_replays db' !! key = db_replays db !! key) /\
  (forall key, key ∈ rows.*1 -> rotated_replay session_id payload now nonce key db db').
Proof.
  revert n db. induction rows as [|[[[usr profile] key_hash] row] rows IH]; intros n db Hr Hn;
    cbn [rotate_replays] in Hr.
  { tx_inv. split_and!; [done|done|done|by intros ? ?%elem_of_nil]. }
  rewrite fmap_cons in Hn. apply NoDup_cons in Hn as [Hkey Hn]. cbn [fst] in Hkey. tx_inv. bool_hyps.
  match goal with Hu : update_replay _ _ _ _ = Ok _ |- _ =>
    apply update_replay_ok in Hu as (Hs1 & Hl1 & [[-> _]|(_ & r & Hr1 & Hp & Hc & Hdb)]) end; [done|].
  apply IH in Hr as (Hs2 & Hl2 & Hother & Hrows); [|done]. bool_hyps.
  split_and!; [congruence|congruence|..].
  - intros key Hk. rewrite fmap_cons, not_elem_of_cons in Hk. destruct Hk as [Hne Hk].
    rewrite Hother by done. rewrite Hdb. by apply lookup_insert_ne.
  - intros key [->|Hk]%elem_of_cons.
    + exists r, n, x. split_and!; try done. rewrite Hother by done. rewrite Hdb.
      by rewrite lookup_insert_eq.
    + destruct (Hrows key Hk) as (r2 & k & resp & Hr2 & G1 & G2 & G3 & G4).
      exists r2, k, resp. split_and!; try done. rewrite Hdb, lookup_insert_ne in Hr2; [done|].
      intros <-. by apply Hkey.
Qed.

Lemma prepare_rotated_token_ok d n session_id cur now db token h next db' :
  prepare_rotated_token crypto d n session_id cur now db = Ok (token, h, next, db') ->
  next = (cur + 1)%Z /\ db_sessions db' = db_sessions db /\ db_lease db' = db_lease db /\
  (exists th, vault_generate_token (draw_token d) = Ok token /\ vault_hash_token crypto token = Ok th /\
     h = th_encoded th) /\
  forall key r, db_replays db !! key = Some r ->
    if bool_decide (rp_session_id r = session_id) && (now <? rp_expires_at r)%Z
    then rotated_replay session_id
           {| pay_session_id := session_id; pay_token_revision := next; pay_token := token |} now
           (draw_nonce d) key db db'
    else db_replays db' !! key = Some r.
Proof.
  unfold prepare_rotated_token. intros Hp. tx_inv.
  match goal with Hx : ok_or (i64_checked_add _ _) _ = Ok _ |- _ =>
    apply ok_or_ok in Hx; unfold i64_checked_add in Hx; case_match; [|done]; injection Hx as Hx end.
  match goal with Hx : (_, _, _) = (_, _, _) |- _ => injection Hx as -> <- -> end.
  match goal with Hx : rotate_replays _ _ _ _ _ _ _ _ = Ok _ |- _ =>
    apply rotate_replays_ok in Hx as (Hs & Hl & Hother & Hrows) end.
  2:{ unfold replays_of. eapply sublist_NoDup; [apply (NoDup_fst_map_to_list (db_replays db))|].
      apply fmap_sublist, sublist_filter. }
  split_and!; [done|done|done|by eauto|].
  intros key r Hr.
  destruct (bool_decide (rp_session_id r = session_id) && (now <? rp_expires_at r)%Z) eqn:Hcond.
  - apply Hrows. apply list_elem_of_fmap. exists (key, r). split; [done|].
    unfold replays_of. apply list_elem_of_filter. split; [done|]. by apply elem_of_map_to_list.
  - rewrite Hother; [done|]. intros ([k' r'] & -> & Hin)%list_elem_of_fmap.
    unfold replays_of in Hin. apply list_elem_of_filter in Hin as [Hcond' Hin].
    apply elem_of_map_to_list in Hin. cbn in *. rewrite Hr in Hin. injection Hin as ->. congruence.
Qed.

Lemma rotate_delivery_token_replaces d o id n c now db g db' :
  rotate_delivery_token crypto d o id n c now db = Ok (g, db') ->
  replayed g = false /\
  replaces o id n c now (fun r s r' => exists th,
      vault_generate_token (draw_token d) = Ok (grant_token g) /\
      vault_hash_token crypto (grant_token g) = Ok th /\
      set_token (th_encoded th) (row_token_revision r + 1) r = Ok r') db (grant_session g) db' /\
  (forall key r, db_replays db !! key = Some r ->
    if bool_decide (rp_session_id r = id) && (now <? rp_expires_at r)%Z
    then exists tr, rotated_replay id {| pay_session_id := id; pay_token_revision := tr;
           pay_token := grant_token g |} now (draw_nonce d) key db db' /\
           token_revision (grant_session g) = tr
    else db_replays db' !! key = Some r).
Proof.
  unfold rotate_delivery_token. intros Hr. method_inv.
  match goal with Hp : prepare_rotated_token _ _ _ _ _ _ _ = Ok (?p, _) |- _ => destruct p as [[token h] next];
    apply prepare_rotated_token_ok in Hp as (-> & Hs & Hl & (th & Hg & Hh & ->) & Hrep) end.
  tx_inv.
  match goal with Hu : updated _ _ = Ok _ |- _ =>
    apply updated_ok in Hu as (r' & r'' & Hr & Hp & Hset & Hc & Hd & ->) end.
  rewrite Hs in Hr. same_row r' r.
  match goal with Hm : mutable _ _ _ _ _ _ r ?s |- _ =>
    pose proof (proj1 (dec_token_revision _ _ (mu_decodes _ _ _ _ _ _ _ _ Hm))) as Htok end.
  rewrite Htok in *. cbn [grant_token grant_session replayed]. split_and!; [done| |].
  - split; [|done]. eexists r, _, r''. split_and!; eauto. cbn. by rewrite Hs.
  - intros key k Hk. specialize (Hrep key k Hk).
    destruct (bool_decide (rp_session_id k = id) && (now <? rp_expires_at k)%Z); [|done]. eexists. split; [exact Hrep|].
    rewrite (proj1 (dec_token_revision _ _ Hd)). unfold set_token in Hset. ok_inv. done.
Qed.

(** ** Remux jobs *)
Lemma bind_remux_job_replaces o id n c job now db s' db' :
  bind_remux_job o id n c job now db = Ok (s', db') ->
  db_replays db' = db_replays db /\
  replaces o id n c now (fun r s r' => valid_remux_job_id job = true /\ delivery_mode s = ServerRemux /\
    (row_remux_job_id r = None \/ row_remux_job_id r = Some job) /\ set_job (Some job) r = Ok r') db s' db'.
Proof.
  unfold bind_remux_job. intros Hb. method_inv.
  apply updated_ok in Hb as (r' & r'' & Hr & Hp & Hset & Hc & Hd & ->). bool_hyps.
  same_row r' r. split; [done|]. split; [|done]. eexists r, _, r''. split_and!; eauto.
  destruct (row_remux_job_id r) as [v|]; cbn in *; [|by left].
  right. f_equal. by apply String.eqb_eq.
Qed.

Lemma clear_remux_job_ok o id c job now db u db' :
  clear_remux_job o id c job now db = Ok (u, db') ->
  fence_active c now (db_lease db) = true /\ db_replays db' = db_replays db /\ db_lease db' = db_lease db /\
  (db' = db \/ exists r r', db_sessions db !! id = Some r /\ row_owner r = o /\
    row_control_fencing_token r = c /\ row_remux_job_id r = Some job /\ set_job None r = Ok r' /\
    session_check r' = true /\ db_sessions db' = <[id := r']> (db_sessions db)).
Proof.
  unfold clear_remux_job. intros Hc. method_inv.
  match goal with Hu : update_session _ _ _ _ = Ok (?o, _) |- _ => destruct o as [r'|];
    [apply update_session_some in Hu as (r & Hr & Hp & Hset & Hck & ->)|apply update_session_none in Hu as ->] end.
  - split_and!; try done. right. exists r, r'. unfold owned, is_some_and in Hp. bool_hyps.
    destruct (row_remux_job_id r) as [v|]; [|done].
    match goal with He : String.eqb v job = true |- _ => apply String.eqb_eq in He as -> end. by split_and!.
  - split_and!; auto.
Qed.

(** ** Moves of the state machine inside a transaction *)
Lemma in_state_eq r s : in_state s r = true <-> row_state r = SessionState.as_str s.
Proof. unfold in_state. apply String.eqb_eq. Qed.

Lemma transition_in_transaction_ok id n c cur next db m db' :
  transition_in_transaction id n c cur next db = Ok (m, db') ->
  SessionState.can_transition_to cur next = true /\ m = (n + 1)%Z /\
  exists r r', db_sessions db !! id = Some r /\ at_revision n c r = true /\ in_state cur r = true /\
    set_state (SessionState.as_str next) r = Ok r' /\ session_check r' = true /\
    db' = set_sessions <[id := r']> db.
Proof.
  unfold transition_in_transaction. intros Ht. tx_inv. bool_hyps.
  match goal with Hx : ok_or (i64_checked_add _ _) _ = Ok _ |- _ =>
    apply ok_or_ok in Hx; unfold i64_checked_add in Hx; case_match; [|done]; injection Hx as <- end.
  match goal with Hu : update_session _ _ _ _ = Ok (?o, _) |- _ => destruct o as [r'|]; [|done];
    apply update_session_some in Hu as (r & Hr & Hp & Hset & Hck & ->) end.
  bool_hyps. split_and!; try done. exists r, r'. by split_and!.
Qed.

(** the row after [k] moves, the first into [recovery_state a] and a second to [Planning] on failover *)
Definition moved_row (a : RecoveryAction) (r r1 : SessionRow) : Prop :=
  exists r0, set_state (SessionState.as_str (recovery_state a)) r = Ok r0 /\
    match a with
    | Refresh => r1 = r0
    | Failover => set_state (SessionState.as_str Planning) r0 = Ok r1
    end.
Definition before_ready (a : RecoveryAction) : SessionState :=
  match a with Refresh => Refreshing | Failover => Planning end.
Definition moves (a : RecoveryAction) : Z := match a with Refresh => 1 | Failover => 2 end.

Lemma recovery_moves_ok id a n c cur db m st db' r :
  recovery_moves_tx id a n c cur db = Ok (m, st, db') -> db_sessions db !! id = Some r ->
  SessionState.can_transition_to cur (recovery_state a) = true /\ st = before_ready a /\
  m = (n + moves a)%Z /\ in_state cur r = true /\
  exists r1, moved_row a r r1 /\ db' = set_sessions <[id := r1]> db.
Proof.
  unfold recovery_moves_tx. intros Hm Hr. tx_inv. bool_hyps.
  match goal with Ht : transition_in_transaction _ _ _ _ _ db = Ok _ |- _ =>
    apply transition_in_transaction_ok in Ht as (Hcan & -> & r' & r0 & Hr' & Hat & Hin & Hset & _ & ->) end.
  assert (r' = r) as -> by congruence. destruct a; tx_inv.
  - match goal with Hx : (_, _) = (_, _) |- _ => injection Hx as <- <- end.
    split_and!; try done. exists r0. split; [by exists r0|done].
  - match goal with Ht : transition_in_transaction _ _ _ _ _ _ = Ok _ |- _ =>
      apply transition_in_transaction_ok in Ht as (_ & -> & r2 & r1 & Hr2 & _ & _ & Hset2 & _ & ->) end.
    match goal with Hx : (_, _) = (_, _) |- _ => injection Hx as <- <- end.
    cbn in Hr2. rewrite lookup_insert_eq in Hr2. injection Hr2 as <-.
    split_and!; try done; [cbn; lia|]. exists r1. split; [by exists r0|].
    unfold set_sessions. cbn. by rewrite insert_insert_eq.
Qed.

Lemma encrypt_column_ok p id col rnd m db e db' :
  encrypt_column crypto p id col rnd m db = Ok (e, db') ->
  db' = db /\ exists ctx, session_context p id col = Ok ctx /\ vault_encrypt crypto ctx rnd m = Ok e.
Proof. unfold encrypt_column. intros He. tx_inv. eauto. Qed.

Lemma replace_for_recovery_replaces d i db g db' :
  replace_for_recovery crypto d i db = Ok (g, db') ->
  replaces (rr_owner i) (rr_session_id i) (rr_expected_revision i) (rr_control_fencing_token i) (rr_now i)
    (fun r s r' => SessionState.can_transition_to (state s) (recovery_state (rr_action i)) = true /\
      exists r1 ctx e th, moved_row (rr_action i) r r1 /\
        session_context Descriptor (rr_session_id i) "encrypted_descriptor" = Ok ctx /\
        vault_encrypt crypto ctx (draw_nonce d 0) (rr_descriptor i) = Ok e /\
        vault_generate_token (draw_token d) = Ok (grant_token g) /\
        vault_hash_token crypto (grant_token g) = Ok th /\
        set_recovered (th_encoded th) (row_token_revision r + 1) e
          (DeliveryMode.as_str (rr_delivery_mode i)) (SessionProtocol.as_str (rr_protocol i))
          (rr_source_index i) (increments (rr_action i)).1 (increments (rr_action i)).2 r1 = Ok r')
    db (grant_session g) db'.
Proof.
  unfold replace_for_recovery. intros Hr. method_inv.
  match goal with Hp : recovery_moves_tx _ _ _ _ _ _ = Ok (?p, _) |- _ => destruct p as [rev st] end.
  match goal with Hm : mutable _ _ _ _ _ _ _ _ |- _ => pose proof (mu_row _ _ _ _ _ _ _ _ Hm) as Hrow end.
  match goal with Hp : recovery_moves_tx _ _ _ _ _ _ = Ok _ |- _ =>
    apply (recovery_moves_ok _ _ _ _ _ _ _ _ _ _ Hp) in Hrow as (Hcan & -> & -> & Hin & r1 & Hmoved & ->) end.
  tx_inv. match goal with He : encrypt_column _ _ _ _ _ _ _ = Ok _ |- _ =>
    apply encrypt_column_ok in He as (-> & ctx & Hctx & Henc) end.
  match goal with Hp : prepare_rotated_token _ _ _ _ _ _ _ = Ok (?p, _) |- _ => destruct p as [[token h] next];
    apply prepare_rotated_token_ok in Hp as (-> & Hs & Hl & (th & Hg & Hh & ->) & _) end.
  destruct (increments (rr_action i)) as [ri fi] eqn:Hinc. tx_inv.
  match goal with Hu : updated _ _ = Ok _ |- _ =>
    apply updated_ok in Hu as (r' & r'' & Hr & Hp & Hset & Hc & Hd & ->) end.
  rewrite Hs in Hr. cbn in Hr. rewrite lookup_insert_eq in Hr. injection Hr as <-.
  match goal with Hm : mutable _ _ _ _ _ _ r ?s |- _ =>
    rewrite (proj1 (dec_token_revision _ _ (mu_decodes _ _ _ _ _ _ _ _ Hm))) in Hset end.
  split; [|done]. eexists r, _, r''. split; [eassumption|]. split; [|split_and!; [done|done|]].
  - split; [done|]. exists r1, ctx. eexists _, th. by split_and!.
  - cbn. rewrite Hs. cbn. by rewrite insert_insert_eq.
Qed.

Lemma record_recovery_failure_replaces d i db mu db' :
  record_recovery_failure crypto d i db = Ok (mu, db') ->
  previous_revision mu = rf_expected_revision i /\ db_replays db' = db_replays db /\
  replaces (rf_owner i) (rf_session_id i) (rf_expected_revision i) (rf_control_fencing_token i) (rf_now i)
    (fun r s r' => SessionState.can_transition_to (state s) (recovery_state (rf_action i)) = true /\
      let resume := if bool_decide (state s = Playing) then Playing else Ready in
      SessionState.can_transition_to (recovery_state (rf_action i)) resume = true /\
      exists r1 e, set_state (SessionState.as_str (recovery_state (rf_action i))) r = Ok r1 /\
        set_recovery_failed (SessionState.as_str resume) e (increments (rf_action i)).1
          (increments (rf_action i)).2 r1 = Ok r')
    db (mut_session mu) db'.
Proof.
  unfold record_recovery_failure. intros Hr. method_inv.
  match goal with Hm : mutable _ _ _ _ _ _ _ _ |- _ => pose proof (mu_row _ _ _ _ _ _ _ _ Hm) as Hrow end.
  match goal with Ht : transition_in_transaction _ _ _ _ _ _ = Ok _ |- _ =>
    apply transition_in_transaction_ok in Ht as (Hcan & -> & r' & r1 & Hr' & _ & _ & Hset1 & _ & ->) end.
  assert (r' = r) as -> by congruence. tx_inv.
  match goal with He : encrypt_column _ _ _ _ _ _ _ = Ok _ |- _ =>
    apply encrypt_column_ok in He as (-> & ctx & Hctx & Henc) end.
  destruct (increments (rf_action i)) as [ri fi] eqn:Hinc.
  apply mutation_from_ok in Hr as (Hprev & r2 & r'' & Hr2 & Hp & Hset & Hc & Hd & ->).
  cbn in Hr2. rewrite lookup_insert_eq in Hr2. injection Hr2 as <-.
  split_and!; [done|done|]. split; [|done]. eexists r, _, r''. split; [eassumption|].
  split; [|split_and!; [done|done|cbn; by rewrite insert_insert_eq]].
  split; [done|]. split; [done|]. eexists r1, _. by split.
Qed.

(** ** Termination *)
Lemma delete_replays_ok id db u db' :
  delete_replays id db = Ok (u, db') ->
  db_sessions db' = db_sessions db /\ db_lease db' = db_lease db /\
  forall key r, db_replays db' !! key = Some r <-> db_replays db !! key = Some r /\ rp_session_id r <> id.
Proof.
  unfold delete_replays. intros Hd. tx_inv. split_and!; [done|done|]. intros key r. cbn.
  by rewrite map_lookup_filter_Some.
Qed.

Lemma terminate_ok d o id n c reason now db mu db' :
  terminate crypto d o id n c reason now db = Ok (mu, db') ->
  validate_terminal_reason reason = Ok () /\ fence_active c now (db_lease db) = true /\
  (forall key r, db_replays db' !! key = Some r <-> db_replays db !! key = Some r /\ rp_session_id r <> id) /\
  db_lease db' = db_lease db /\
  exists r s, db_sessions db !! id = Some r /\ row_owner r = o /\ decodes r s /\
    if SessionState.is_terminal (state s) then
      mut_session mu = s /\ previous_revision mu = revision s /\ db_sessions db' = db_sessions db
    else
      row_revision r = n /\ row_control_fencing_token r = c /\ previous_revision mu = n /\
      exists r' snapshot_ctx descriptor_ctx snapshot descriptor token th,
        session_context ItemSnapshot id "encrypted_item_snapshot" = Ok snapshot_ctx /\
        session_context Descriptor id "encrypted_descriptor" = Ok descriptor_ctx /\
        vault_encrypt crypto snapshot_ctx (draw_nonce d 0) "" = Ok snapshot /\
        vault_encrypt crypto descriptor_ctx (draw_nonce d 1) "" = Ok descriptor /\
        vault_generate_token (draw_token d) = Ok token /\ vault_hash_token crypto token = Ok th /\
        set_terminated reason (th_encoded th) snapshot descriptor now r = Ok r' /\
        session_check r' = true /\ decodes r' (mut_session mu) /\
        db_sessions db' = <[id := r']> (db_sessions db).
Proof.
  unfold terminate. intros Ht. method_inv.
  match goal with Hv : validate_terminal_reason _ = Ok ?u |- _ => destruct u end.
  destruct (SessionState.is_terminal (state _)) eqn:Hterm; method_inv.
  - match goal with Hx : delete_replays _ _ = Ok _ |- _ => apply delete_replays_ok in Hx as (Hs & Hl & Hrep) end.
    split_and!; try done. eexists r, _. split_and!; try done. by rewrite Hterm.
  - repeat match goal with He : encrypt_column _ _ _ _ _ _ _ = Ok _ |- _ =>
      apply encrypt_column_ok in He as (-> & ? & ? & ?) end.
    match goal with Hv : validate_revision_and_fence _ _ _ = Ok ?u |- _ =>
      destruct u; apply validate_revision_and_fence_ok in Hv as (? & ? & ? & ?) end.
    match goal with Hx : ok_or _ RevisionChanged = Ok _ |- _ => apply ok_or_ok in Hx as -> end.
    match goal with Hu : update_session _ _ _ _ = Ok _ |- _ =>
      apply update_session_some in Hu as (r2 & Hr2 & Hp & Hset & Hck & ->) end.
    match goal with Hx : delete_replays _ _ = Ok _ |- _ => apply delete_replays_ok in Hx as (Hs & Hl & Hrep) end.
    match goal with Hx : decode_session _ = Ok _ |- _ => apply decode_session_ok in Hx end.
    assert (r2 = r) as -> by congruence.
    match goal with Hd : decodes r ?s |- _ =>
      pose proof (proj1 (dec_revision _ _ Hd)); pose proof (proj1 (dec_fencing _ _ Hd)) end.
    split_and!; try done. eexists r, _. split; [done|]. split; [done|]. split; [eassumption|].
    rewrite Hterm. split; [congruence|]. split; [congruence|]. split; [done|].
    do 7 eexists. split_and!; eauto.
Qed.

(** ** Creation *)
Lemma load_replay_none o k rq now db db' :
  load_replay crypto o k rq now db = Ok (None, db') ->
  db_sessions db' = db_sessions db /\ db_lease db' = db_lease db /\ db_users db' = db_users db /\
  db_replays db' !! (user_id o, profile_id o, k) = None /\
  (forall key r, db_replays db' !! key = Some r -> db_replays db !! key = Some r) /\
  (db_account_sessions db' = db_account_sessions db).
Proof.
  unfold load_replay. intros Hl. tx_inv.
  destruct (db_replays db !! (user_id o, profile_id o, k)) as [row|] eqn:Hrow; tx_inv; [|by split_and!].
  destruct (negb (String.eqb _ _)); [by unfold lift in Hl|].
  destruct (rp_expires_at row <=? now)%Z; tx_inv; [|done].
  cbn. split_and!; try done; [apply lookup_delete_eq|]. intros key r [_ Hr]%lookup_delete_Some. done.
Qed.

Lemma load_replay_some o k rq now db g db' :
  load_replay crypto o k rq now db = Ok (Some g, db') ->
  db' = db /\ replayed g = true /\ exists row r payload,
    db_replays db !! (user_id o, profile_id o, k) = Some row /\ rp_request_hash row = rq /\
    (now < rp_expires_at row)%Z /\
    decrypt_replay crypto (user_id o) (profile_id o) k (rp_encrypted_response row) = Ok payload /\
    pay_session_id payload = rp_session_id row /\ db_sessions db !! rp_session_id row = Some r /\
    row_owner r = o /\ decodes r (grant_session g) /\ expired_at (grant_session g) now = false /\
    pay_token_revision payload = token_revision (grant_session g) /\
    vault_verify_token crypto (pay_token payload) (row_token_hash r) = true /\
    vault_parse_token (pay_token payload) = Ok (grant_token g).
Proof.
  unfold load_replay. intros Hl. tx_inv.
  destruct (db_replays db !! (user_id o, profile_id o, k)) as [row|] eqn:Hrow; tx_inv; [|done].
  destruct (negb (String.eqb _ _)) eqn:Hrq; [by unfold lift in Hl|].
  destruct (rp_expires_at row <=? now)%Z eqn:Hexp; tx_inv; [done|]. bool_hyps.
  match goal with Hx : Some _ = Some _ |- _ => injection Hx as <- end.
  repeat match goal with
  | Hx : String.eqb _ _ = true |- _ => apply String.eqb_eq in Hx
  | Hx : ok_or _ _ = Ok _ |- _ => apply ok_or_ok, session_where_some in Hx as [? ?]
  | Hx : decode_session _ = Ok _ |- _ => apply decode_session_ok in Hx
  end. unfold owned in *. bool_hyps. cbn [grant_session grant_token replayed].
  split_and!; try done. exists row. do 2 eexists. split_and!; eauto.
Qed.

Lemma validate_owner_ok o now db u db' :
  validate_owner o now db = Ok (u, db') -> db' = db /\ account_session_valid o now db = true.
Proof.
  unfold validate_owner, account_session_valid. destruct (db_account_sessions db !! _) as [a|]; [|done].
  case_match; [|done]. intros [= _ <-]. split; [done|]. cbn [is_some_and]. bool_hyps.
  repeat (apply andb_true_iff; split); try (by apply bool_decide_eq_true_2); try done. by apply Z.ltb_lt.
Qed.

Lemma enforce_capacity_ok o now db u db' :
  enforce_capacity limits o now db = Ok (u, db') ->
  db' = db /\ (count_sessions (active_row now) db < server_total limits)%Z /\
  (count_sessions (fun r => active_row now r && bool_decide (user_id (row_owner r) = user_id o)) db
   < per_user limits)%Z.
Proof. unfold enforce_capacity. intros He. tx_inv. bool_hyps. done. Qed.

Lemma new_session_row_ok d input th db row db' :
  new_session_row crypto limits d input th db = Ok (row, db') ->
  db' = db /\ row_id row = draw_uuid d /\ row_owner row = new_owner input /\ row_state row = "resolving" /\
  row_delivery_mode row = DeliveryMode.as_str (new_delivery_mode input) /\
  row_protocol row = SessionProtocol.as_str (new_protocol input) /\
  row_revision row = 1%Z /\ row_token_revision row = 1%Z /\
  row_control_fencing_token row = new_control_fencing_token input /\ row_token_hash row = th /\
  row_source_index row = new_source_index input /\ row_failover_count row = 0%Z /\
  row_refresh_count row = 0%Z /\ row_remux_job_id row = None /\
  row_hard_expires_at row = (new_now input + seconds (max_lifetime_seconds limits))%Z /\
  row_expires_at row = Z.min (new_now input + seconds (lease_seconds limits)) (row_hard_expires_at row) /\
  exists ctx1 ctx2, session_context ItemSnapshot (draw_uuid d) "encrypted_item_snapshot" = Ok ctx1 /\
    vault_encrypt crypto ctx1 (draw_nonce d 0) (new_item_snapshot input) = Ok (row_encrypted_item_snapshot row) /\
    session_context Descriptor (draw_uuid d) "encrypted_descriptor" = Ok ctx2 /\
    vault_encrypt crypto ctx2 (draw_nonce d 1) (new_descriptor input) = Ok (row_encrypted_descriptor row).
Proof.
  unfold new_session_row. intros Hn. tx_inv.
  repeat match goal with
  | He : encrypt_column _ _ _ _ _ _ _ = Ok _ |- _ => apply encrypt_column_ok in He as (-> & ? & ? & ?)
  | Hd : duration_seconds _ = Ok _ |- _ => unfold duration_seconds in Hd; case_match; [|done]; ok_inv
  | Ha : checked_add_signed _ _ = Ok _ |- _ => apply checked_add_ok in Ha as [-> ?]
  end. cbn. split_and!; try done. eauto 8.
Qed.

Lemma insert_session_ok r db u db' :
  insert_session r db = Ok (u, db') ->
  db_sessions db !! row_id r = None /\ session_check r = true /\ db' = set_sessions <[row_id r := r]> db.
Proof.
  unfold insert_session. case_match; [|done]. intros [= _ <-]. bool_hyps.
  by destruct (db_sessions db !! row_id r).
Qed.

Lemma insert_replay_ok key r db b db' :
  insert_replay key r db = Ok (b, db') ->
  if b then db_replays db !! key = None /\ db' = set_replays <[key := r]> db
  else is_Some (db_replays db !! key) /\ db' = db.
Proof.
  unfold insert_replay. destruct (db_replays db !! key); [intros [= <- <-]; by split; [eexists|]|].
  case_match; [|done]. by intros [= <- <-].
Qed.

Lemma create_tx_created d input hashes db session_id token db' :
  create_tx crypto limits d input hashes db = Ok (Created session_id token, db') ->
  session_id = draw_uuid d /\
  fence_active (new_control_fencing_token input) (new_now input) (db_lease db) = true /\
  account_session_valid (new_owner input) (new_now input) db = true /\
  (count_sessions (active_row (new_now input)) db < server_total limits)%Z /\
  (count_sessions (fun r => active_row (new_now input) r
     && bool_decide (user_id (row_owner r) = user_id (new_owner input))) db < per_user limits)%Z /\
  vault_generate_token (draw_token d) = Ok token /\
  db_lease db' = db_lease db /\
  exists row th, vault_hash_token crypto token = Ok th /\
    (exists db1, new_session_row crypto limits d input (th_encoded th) db1 = Ok (row, db1)) /\
    db_sessions db !! session_id = None /\ session_check row = true /\
    db_sessions db' = <[session_id := row]> (db_sessions db) /\
    (forall k rq, hashes = Some (k, rq) ->
      let key := (user_id (new_owner input), profile_id (new_owner input), k) in
      exists response, encrypt_replay crypto (user_id (new_owner input)) (profile_id (new_owner input)) k
          (draw_nonce d 2)
          {| pay_session_id := session_id; pay_token_revision := 1; pay_token := token |} = Ok response /\
        db_replays db' !! key = Some {| rp_request_hash := rq; rp_session_id := session_id;
          rp_encrypted_response := response; rp_created_at := new_now input;
          rp_expires_at := (new_now input + seconds IDEMPOTENCY_TTL_SECONDS)%Z |}).
Proof.
  unfold create_tx. intros Hc. apply tx_bind_ok in Hc as (r & d1 & Hx & Hc).
  assert (r = None -> db_sessions d1 = db_sessions db /\ db_lease d1 = db_lease db /\
    db_account_sessions d1 = db_account_sessions db) as Hsame.
  { intros ->. destruct hashes as [[k rq]|]; [apply load_replay_none in Hx as (? & ? & _ & _ & _ & ?)|tx_inv];
      done. }
  destruct r as [g|]; [tx_inv; done|]. destruct (Hsame eq_refl) as (Hs1 & Hl1 & Ha1). clear Hx Hsame.
  method_inv.
  match goal with Hv : validate_owner _ _ _ = Ok _ |- _ => apply validate_owner_ok in Hv as [-> Hvalid] end.
  match goal with Hv : enforce_capacity _ _ _ _ = Ok _ |- _ => apply enforce_capacity_ok in Hv as (-> & Hsrv & Husr) end.
  match goal with Hv : new_session_row _ _ _ _ _ _ = Ok (?row, _) |- _ =>
    pose proof Hv as Hnew; apply new_session_row_ok in Hnew as (-> & Hid & _); rename Hv into Hrow end.
  match goal with Hv : insert_session _ _ = Ok _ |- _ => apply insert_session_ok in Hv as (Hfresh & Hck & ->) end.
  unfold account_session_valid, count_sessions in *. rewrite Hs1, Hl1, Ha1, Hid in *.
  match goal with Hg : vault_generate_token _ = Ok ?t, Hh : vault_hash_token _ ?t = Ok ?h |- _ =>
    rename t into tok, h into th end.
  match type of Hrow with _ = Ok (?r, _) => rename r into row end.
  destruct hashes as [[k rq]|]; tx_inv.
  - match goal with Hi : insert_replay _ _ _ = Ok (?b, _) |- _ => destruct b; [|by tx_inv];
      apply insert_replay_ok in Hi as [Hnone ->] end.
    match goal with Hx : Created _ _ = Created _ _ |- _ => injection Hx as <- <- end.
    match goal with Ha : checked_add_signed _ _ = Ok _ |- _ => apply checked_add_ok in Ha as [-> _] end.
    split_and!; try done. exists row, th. split_and!; eauto; [cbn; by rewrite Hs1|].
    intros k' rq' [= <- <-]. eexists. split; [eassumption|]. cbn. by rewrite lookup_insert_eq.
  - match goal with Hx : Created _ _ = Created _ _ |- _ => injection Hx as <- <- end.
    split_and!; try done. exists row, th. split_and!; eauto; [cbn; by rewrite Hs1|]. by intros ? ? [=].
Qed.

(** ** Re-encryption *)
Lemma reencrypt_replays_ok id nonce n rows count db m db' :
  reencrypt_replays crypto id nonce n rows count db = Ok (m, db') ->
  db_sessions db' = db_sessions db /\ db_lease db' = db_lease db.
Proof.
  revert n count db. induction rows as [|[[[usr profile] key_hash] row] rows IH]; intros n count db Hr;
    cbn [reencrypt_replays] in Hr; tx_inv; [done|].
  apply IH in Hr as [-> ->]. case_match; [|by tx_inv].
  match goal with Hu : update_replay _ _ _ _ = Ok _ |- _ => by apply update_replay_ok in Hu as (-> & -> & _) end.
Qed.

Lemma reencrypt_session_values_ok d s selected c now db changed count db' :
  reencrypt_session_values crypto d s selected c now db = Ok (changed, count, db') ->
  fence_active c now (db_lease db) = true /\ control_fencing_token s = c /\ db_lease db' = db_lease db /\
  exists snapshot_ctx descriptor_ctx snapshot descriptor,
    session_context ItemSnapshot (id s) "encrypted_item_snapshot" = Ok snapshot_ctx /\
    session_context Descriptor (id s) "encrypted_descriptor" = Ok descriptor_ctx /\
    vault_reencrypt crypto snapshot_ctx (draw_nonce d 0) (row_encrypted_item_snapshot selected) = Ok snapshot /\
    vault_reencrypt crypto descriptor_ctx (draw_nonce d 1) (row_encrypted_descriptor selected) = Ok descriptor /\
    if changed then
      exists r r', db_sessions db !! id s = Some r /\ row_revision r = revision s /\
        row_control_fencing_token r = c /\ live_row r = true /\
        set_envelopes snapshot descriptor r = Ok r' /\ session_check r' = true /\
        db_sessions db' = <[id s := r']> (db_sessions db)
    else snapshot = row_encrypted_item_snapshot selected /\
      descriptor = row_encrypted_descriptor selected /\ db_sessions db' = db_sessions db.
Proof.
  unfold reencrypt_session_values. intros Hr. method_inv.
  match goal with Hx : reencrypt_replays _ _ _ _ _ _ _ = Ok _ |- _ => apply reencrypt_replays_ok in Hx as [Hs Hl] end.
  match goal with Hx : (_, _) = (_, _) |- _ => injection Hx as <- <- end.
  match goal with Hx : (if ?b then _ else _) _ = Ok _ |- _ => destruct b eqn:Hch; tx_inv end.
  2:{ bool_hyps. repeat match goal with Hx : String.eqb _ _ = true |- _ => apply String.eqb_eq in Hx as -> end.
      split_and!; try done. do 4 eexists. split_and!; eauto. }
  match goal with Hu : update_session _ _ _ _ = Ok (?o, _) |- _ => destruct o as [r'|]; [|done];
    apply update_session_some in Hu as (r & Hrow & Hp & Hset & Hck & ->) end.
  unfold at_revision in *. bool_hyps. rewrite Hs in Hrow.
  split_and!; try done. do 4 eexists. do 4 (split; [eassumption|]). exists r, r'. split_and!; eauto. cbn. by rewrite Hs.
Qed.

(** ** Purging *)
Definition keyed (db : Db) : Prop := forall id r, db_sessions db !! id = Some r -> row_id r = id.

Lemma select_sessions_elem order `{!RelDecision order} limit p db r :
  r ∈ select_sessions order limit p db ->
  p r = true /\ exists id, db_sessions db !! id = Some r.
Proof.
  unfold select_sessions. intros Hr%(subseteq_take _ _). rewrite merge_sort_Permutation in Hr.
  apply list_elem_of_filter in Hr as [Hp Hr]. split; [done|].
  apply list_elem_of_fmap in Hr as ([id r'] & -> & Hr). exists id. by apply elem_of_map_to_list in Hr.
Qed.

Lemma purge_ok c limit now db m db' :
  keyed db -> purge c limit now db = Ok (m, db') ->
  fence_active c now (db_lease db) = true /\ db_lease db' = db_lease db /\
  (forall id r, db_sessions db !! id = Some r ->
    db_sessions db' !! id = Some r \/
    db_sessions db' !! id = None /\ terminal_name (row_state r) = true /\
      exists e, row_ended_at r = Some e /\ (e <= now - seconds TERMINAL_RETENTION_SECONDS)%Z) /\
  (forall id r, db_sessions db' !! id = Some r -> db_sessions db !! id = Some r).
Proof.
  intros Hkey. unfold purge. intros Hp. method_inv.
  match goal with Hx : (_, _) = _ |- _ => clear Hx | Hx : _ = (_, _) |- _ => clear Hx | _ => idtac end.
  set (d1 := set_replays _ db) in *.
  set (ids := purgeable_sessions (now - seconds TERMINAL_RETENTION_SECONDS) limit d1).
  split_and!; [done|done| |].
  - intros id r Hr. cbn. destruct (decide (id ∈ ids)) as [Hin|Hout].
    + right. split; [apply map_lookup_filter_None; right; by intros ? _ []|].
      unfold ids, purgeable_sessions in Hin. apply list_elem_of_fmap in Hin as (r' & -> & Hin).
      apply select_sessions_elem in Hin as [Hpr (k & Hk)]. cbn in Hk.
      rewrite (Hkey _ _ Hk) in Hr. simplify_eq. bool_hyps. split; [done|].
      destruct (row_ended_at r) as [e|]; [|done]. cbn in *. bool_hyps. by exists e.
    + left. apply map_lookup_filter_Some. done.
  - intros id r. cbn. by intros [? _]%map_lookup_filter_Some.
Qed.
End facts.
