(* ===== verification/SessionEvolution.v ===== *)
(** * How the sessions of the database evolve

    Every method that writes is a step on the database; other components may change the remaining tables
    between two steps.  The steps refine the session state machine: whatever the calls and their order, a
    session keeps its identity and owner, its revision grows, its tokens and fences never go back, its
    state only moves along [can_transition_to], and a terminal session never changes again. *)
From S2P Require Import Prelude Bytes LiveContract SessionTypes Recovery ControlLease Crypto.
From S2P Require Import Vault SessionStore SessionRepo SessionFacts.

(** ** The invariant of a stored session *)
Record row_inv (id : uuid) (r : SessionRow) : Prop := {
  ri_key : row_id r = id;
  ri_check : session_check r = true;
  ri_decodes : exists s, decodes r s;
  ri_job : terminal_name (row_state r) = true -> row_remux_job_id r = None /\ row_egress_binding_id r = None;
}.
Definition db_inv (db : Db) : Prop := forall id r, db_sessions db !! id = Some r -> row_inv id r.

Lemma db_inv_keyed db : db_inv db -> keyed db.
Proof. intros Hi id r Hr. by apply (Hi id r). Qed.

(** ** The SET clauses *)
Ltac set_inv :=
  repeat match goal with
  | H : set_state _ _ = Ok _ |- _ => unfold set_state in H
  | H : set_fence _ _ = Ok _ |- _ => unfold set_fence in H
  | H : set_heartbeat _ _ _ = Ok _ |- _ => unfold set_heartbeat in H
  | H : set_token _ _ _ = Ok _ |- _ => unfold set_token in H
  | H : set_job _ _ = Ok _ |- _ => unfold set_job in H
  | H : set_recovered _ _ _ _ _ _ _ _ _ = Ok _ |- _ => unfold set_recovered in H
  | H : set_recovery_failed _ _ _ _ _ = Ok _ |- _ => unfold set_recovery_failed in H
  | H : set_envelopes _ _ _ = Ok _ |- _ => unfold set_envelopes in H
  | H : set_terminated _ _ _ _ _ _ = Ok _ |- _ => unfold set_terminated in H
  end; ok_inv;
  repeat match goal with H : sql_add _ _ = Ok _ |- _ => apply sql_add_ok in H as -> end.

(** everything but the state clause of [row_evolves] is arithmetic on the fields *)
Ltac evolve := set_inv; split; [cbn; first [done|lia] ..|].

Lemma set_state_evolves r s next r' :
  SessionState.try_from (row_state r) = Some s -> SessionState.can_transition_to s next = true ->
  set_state (SessionState.as_str next) r = Ok r' -> row_evolves true r r'.
Proof. intros Hs Hcan Hset. evolve. eapply state_moves; eauto with live. Qed.
Lemma set_fence_evolves r new r' :
  (row_control_fencing_token r <= new)%Z -> set_fence new r = Ok r' -> row_evolves true r r'.
Proof. intros Hle Hset. evolve. by apply state_stays. Qed.
Lemma set_heartbeat_evolves r now e r' : set_heartbeat now e r = Ok r' -> row_evolves true r r'.
Proof. intros Hset. evolve. by apply state_stays. Qed.
Lemma set_token_evolves r h r' :
  set_token h (row_token_revision r + 1) r = Ok r' -> row_evolves true r r'.
Proof. intros Hset. evolve. by apply state_stays. Qed.
Lemma set_job_evolves r j r' : set_job j r = Ok r' -> row_evolves false r r'.
Proof. intros Hset. evolve. by apply state_stays. Qed.
Lemma set_envelopes_evolves r a b r' : set_envelopes a b r = Ok r' -> row_evolves true r r'.
Proof. intros Hset. evolve. by apply state_stays. Qed.
Lemma set_recovered_evolves r h tr e m p src ri fi s r' :
  SessionState.try_from (row_state r) = Some s -> SessionState.can_transition_to s Ready = true ->
  (row_token_revision r <= tr)%Z -> set_recovered h tr e m p src ri fi r = Ok r' -> row_evolves true r r'.
Proof. intros Hs Hcan Htr Hset. evolve. apply (state_moves _ _ s Ready); eauto with live. Qed.
Lemma set_recovery_failed_evolves r st e ri fi s r' :
  SessionState.try_from (row_state r) = Some s -> SessionState.can_transition_to s st = true ->
  set_recovery_failed (SessionState.as_str st) e ri fi r = Ok r' -> row_evolves true r r'.
Proof. intros Hs Hcan Hset. evolve. eapply state_moves; eauto with live. Qed.
Lemma set_terminated_evolves r reason h a b now s r' :
  SessionState.try_from (row_state r) = Some s -> SessionState.is_terminal s = false ->
  SessionState.is_terminal (reason_state reason) = true ->
  set_terminated reason h a b now r = Ok r' -> row_evolves true r r'.
Proof.
  intros Hs Hl Ht Hset. evolve. eapply state_moves; eauto using can_transition_to_terminal with live.
Qed.

Lemma row_evolves_trans r1 r2 r3 :
  row_evolves true r1 r2 -> row_evolves true r2 r3 -> row_evolves true r1 r3.
Proof.
  intros [] []. split; try congruence; try lia. intros s Hs.
  destruct (ev_state s Hs) as (s2 & Hs2 & H12). destruct (ev_state0 s2 Hs2) as (s3 & Hs3 & H23).
  exists s3. split; [done|by eapply transitions_trans].
Qed.

Lemma moved_row_evolves a r s r1 :
  SessionState.try_from (row_state r) = Some s ->
  SessionState.can_transition_to s (recovery_state a) = true -> moved_row a r r1 ->
  row_evolves true r r1 /\ row_state r1 = SessionState.as_str (before_ready a) /\
  row_revision r1 = (row_revision r + moves a)%Z /\ row_token_revision r1 = row_token_revision r /\
  row_control_fencing_token r1 = row_control_fencing_token r /\
  row_refresh_count r1 = row_refresh_count r /\ row_failover_count r1 = row_failover_count r.
Proof.
  intros Hs Hcan (r0 & Hset & Hr1).
  assert (row_evolves true r r0) as He by (by eapply set_state_evolves).
  destruct a; subst.
  - split; [done|]. set_inv. cbn. split_and!; done || lia.
  - assert (row_evolves true r0 r1) as He1.
    { eapply (set_state_evolves _ FailingOver Planning); [|done|done].
      set_inv. cbn. done. }
    split; [by eapply row_evolves_trans|]. set_inv. cbn. split_and!; done || lia.
Qed.

(** ** Steps *)
(** A live row was replaced by one it evolves to, or nothing happened to it. *)
Definition row_progress (r r' : SessionRow) : Prop :=
  r' = r \/ live_row r = true /\ exists bump, row_evolves bump r r'.
Definition db_progress (db db' : Db) : Prop :=
  forall id r, db_sessions db !! id = Some r ->
    db_sessions db' !! id = None \/ exists r', db_sessions db' !! id = Some r' /\ row_progress r r'.
Definition step_ok (db db' : Db) : Prop := db_inv db' /\ db_progress db db'.

Lemma step_ok_same db db' : db_inv db -> db_sessions db' ⊆ db_sessions db -> step_ok db db'.
Proof.
  intros Hi Hsub. split.
  - intros id r Hr. apply (Hi id r). by eapply lookup_weaken.
  - intros id r Hr. destruct (db_sessions db' !! id) as [r'|] eqn:Hr'; [|by left]. right. exists r'.
    split; [done|]. left. eapply lookup_weaken in Hr'; [|done]. congruence.
Qed.
Lemma step_ok_eq db db' : db_inv db -> db_sessions db' = db_sessions db -> step_ok db db'.
Proof. intros Hi Heq. apply step_ok_same; [done|by rewrite Heq]. Qed.

Lemma step_ok_insert db db' id r r' b :
  db_inv db -> db_sessions db !! id = Some r -> live_row r = true -> row_evolves b r r' ->
  session_check r' = true -> (exists s, decodes r' s) ->
  (terminal_name (row_state r') = true -> row_remux_job_id r' = None /\ row_egress_binding_id r' = None) ->
  db_sessions db' = <[id := r']> (db_sessions db) -> step_ok db db'.
Proof.
  intros Hi Hr Hlive Hev Hck Hd Hj Hdb. split.
  - intros k x. rewrite Hdb, lookup_insert_Some. intros [[<- <-]|[_ Hx]]; [|by apply (Hi k x)].
    split; try done. rewrite (ev_id _ _ _ Hev). apply (Hi id r Hr).
  - intros k x Hx. right. rewrite Hdb. destruct (decide (id = k)) as [<-|Hne].
    + exists r'. rewrite lookup_insert_eq. split; [done|]. right. assert (x = r) as -> by congruence.
      split; [done|by exists b].
    + exists x. rewrite lookup_insert_ne by done. split; [done|by left].
Qed.

Lemma live_row_mutable o id n c now db r s : mutable o id n c now db r s -> live_row r = true.
Proof.
  intros Hm. unfold live_row. rewrite (terminal_name_spec _ (state s)); [|by eapply dec_state, mu_decodes].
  by rewrite (mu_live _ _ _ _ _ _ _ _ Hm).
Qed.
Lemma mutable_state o id n c now db r s :
  mutable o id n c now db r s -> SessionState.try_from (row_state r) = Some (state s).
Proof. intros Hm. by eapply dec_state, mu_decodes. Qed.

Lemma replaces_step_ok o id n c now upd db s' db' b :
  db_inv db -> replaces o id n c now upd db s' db' ->
  (forall r s r', mutable o id n c now db r s -> upd r s r' ->
     row_evolves b r r' /\ terminal_name (row_state r') = false) ->
  step_ok db db'.
Proof.
  intros Hi [(r & s & r' & Hm & Hu & Hck & Hd & Hdb) _] Hupd. destruct (Hupd r s r' Hm Hu) as [He Ht].
  eapply step_ok_insert; eauto using live_row_mutable, mu_row. by rewrite Ht.
Qed.

Lemma mutable_not_terminal o id n c now db r s :
  mutable o id n c now db r s -> terminal_name (row_state r) = false.
Proof. intros Hm%live_row_mutable. unfold live_row in Hm. by bool_hyps. Qed.

Section steps.
Context {R : Type} `{Vault R} `{Texts}.

(** One committed transaction, or a change made by another component: the egress service links a live
    session, under the fence of the record it was given, to its binding and removes the link, without a new revision; the others may delete sessions
    (foreign keys cascade) but do not write to them. *)
Inductive repo_step : Db -> Db -> Prop :=
| step_create (crypto : R) limits d input hashes out db db' :
    (new_source_index input <= i32_max)%Z ->     (** the field is an [i32] *)
    create_tx crypto limits d input hashes db = Ok (out, db') -> out <> Raced -> repo_step db db'
| step_lookup (crypto : R) o r now g db db' :
    lookup_idempotency crypto o r now db = Ok (g, db') -> repo_step db db'
| step_adopt o id n prev new now mu db db' :
    adopt_control_fence o id n prev new now db = Ok (mu, db') -> repo_step db db'
| step_transition o id n c next now mu db db' :
    transition o id n c next now db = Ok (mu, db') -> repo_step db db'
| step_heartbeat limits o id n c now u mu db db' :
    heartbeat_with_track_preferences limits o id n c now u db = Ok (mu, db') -> repo_step db db'
| step_rotate (crypto : R) d o id n c now g db db' :
    rotate_delivery_token crypto d o id n c now db = Ok (g, db') -> repo_step db db'
| step_bind_job o id n c job now s db db' :
    bind_remux_job o id n c job now db = Ok (s, db') -> repo_step db db'
| step_clear_job o id c job now u db db' :
    clear_remux_job o id c job now db = Ok (u, db') -> repo_step db db'
| step_replace (crypto : R) d i g db db' :
    replace_for_recovery crypto d i db = Ok (g, db') -> repo_step db db'
| step_recovery_failure (crypto : R) d i mu db db' :
    record_recovery_failure crypto d i db = Ok (mu, db') -> repo_step db db'
| step_terminate (crypto : R) d o id n c reason now mu db db' :
    terminate crypto d o id n c reason now db = Ok (mu, db') -> repo_step db db'
| step_reencrypt (crypto : R) d s selected c now res db db' :
    reencrypt_session_values crypto d s selected c now db = Ok (res, db') -> repo_step db db'
| step_purge c limit now counts db db' :
    purge c limit now db = Ok (counts, db') -> repo_step db db'
| step_link_egress session binding r db :
    db_sessions db !! id session = Some r -> row_control_fencing_token r = control_fencing_token session -> live_row r = true ->
    repo_step db (set_sessions <[id session := set_binding (Some binding) r]> db)
| step_unlink_egress id r db :
    db_sessions db !! id = Some r -> repo_step db (set_sessions <[id := set_binding None r]> db)
| step_environment db db' : db_sessions db' ⊆ db_sessions db -> repo_step db db'.

Lemma load_replay_sessions (crypto : R) o k rq now db g db' :
  load_replay crypto o k rq now db = Ok (g, db') -> db_sessions db' = db_sessions db.
Proof.
  destruct g as [g|]; intros Hl.
  - by apply load_replay_some in Hl as [-> _].
  - by apply load_replay_none in Hl as [-> _].
Qed.

(** the CHECKs and the column widths make a row decodable *)
Lemma checked_decodes r :
  session_check r = true -> (row_source_index r <= i32_max)%Z -> (row_failover_count r <= i32_max)%Z ->
  (row_refresh_count r <= i32_max)%Z -> exists s, decodes r s.
Proof.
  unfold session_check. intros Hc Hs Hf Hr. bool_hyps.
  destruct (DeliveryMode.try_from (row_delivery_mode r)) as [m|] eqn:Hm; [|done].
  destruct (SessionProtocol.try_from (row_protocol r)) as [p|] eqn:Hp; [|done].
  destruct (SessionState.try_from (row_state r)) as [st|] eqn:Hst; [|done].
  eexists {| id := row_id r; delivery_mode := m; session_protocol := p; state := st |}. by split.
Qed.

Lemma create_step_ok (crypto : R) limits d input hashes out db db' :
  db_inv db -> (new_source_index input <= i32_max)%Z ->
  create_tx crypto limits d input hashes db = Ok (out, db') -> out <> Raced -> step_ok db db'.
Proof.
  intros Hi Hsrc Hc Hout. destruct out as [g|session_id token|]; [| |done].
  - apply step_ok_eq; [done|]. unfold create_tx in Hc. apply tx_bind_ok in Hc as (r & d1 & Hx & Hc).
    destruct r as [g'|].
    + tx_inv. destruct hashes as [[k rq]|]; [by eapply load_replay_sessions|by tx_inv].
    + tx_inv. destruct hashes as [[k rq]|]; tx_inv; [|done]. by case_match.
  - apply create_tx_created in Hc as (-> & Hf & _ & _ & _ & _ & _ & row & th & _ & (db1 & Hrow) & Hnone & Hck & Hs & _).
    apply new_session_row_ok in Hrow as (_ & Hid & Hown & Hst & Hmode & Hproto & Hrev & Htok & Hfence & _ & Hs0
      & Hfo & Hrf & Hjob & _).
    split.
    + intros k x. rewrite Hs, lookup_insert_Some. intros [[<- <-]|[_ Hx]]; [|by apply (Hi k x)].
      split; [done|done| |by rewrite Hst]. apply checked_decodes; [done|congruence| |]; unfold i32_max; lia.
    + intros k x Hx. right. exists x. rewrite Hs, lookup_insert_ne by congruence. split; [done|by left].
Qed.

Lemma set_token_state h tr r r' : set_token h tr r = Ok r' -> row_state r' = row_state r.
Proof. intros Hset. by set_inv. Qed.

Lemma recovered_step_ok a r r1 s th e m p src r' :
  SessionState.try_from (row_state r) = Some s ->
  SessionState.can_transition_to s (recovery_state a) = true -> moved_row a r r1 ->
  set_recovered th (row_token_revision r + 1) e m p src (increments a).1 (increments a).2 r1 = Ok r' ->
  row_evolves true r r' /\ row_state r' = SessionState.as_str Ready /\
  row_revision r' = (row_revision r + moves a + 1)%Z /\
  row_refresh_count r' = (row_refresh_count r + (increments a).1)%Z /\
  row_failover_count r' = (row_failover_count r + (increments a).2)%Z /\
  row_token_revision r' = (row_token_revision r + 1)%Z.
Proof.
  intros Hs Hcan Hm Hset. destruct (moved_row_evolves a r s r1) as (He & Hst & Hrev & Htok & _ & Hrf & Hfo); try done.
  split.
  - eapply row_evolves_trans; [done|]. eapply (set_recovered_evolves r1 _ _ _ _ _ _ _ _ (before_ready a)); eauto.
    + rewrite Hst. by destruct a.
    + by destruct a.
    + lia.
  - set_inv. cbn. split_and!; done || lia.
Qed.

Lemma decodes_kept r s r' :
  decodes r s -> session_check r' = true -> row_source_index r' = row_source_index r ->
  row_failover_count r' = row_failover_count r -> row_refresh_count r' = row_refresh_count r ->
  exists s', decodes r' s'.
Proof.
  intros Hd Hc Hs Hf Hr. destruct Hd; destruct_and!. apply checked_decodes; [done|congruence..].
Qed.

Lemma terminate_step_ok (crypto : R) d o id n c reason now mu db db' :
  db_inv db -> terminate crypto d o id n c reason now db = Ok (mu, db') -> step_ok db db'.
Proof.
  intros Hi Ht. apply terminate_ok in Ht as (Hreason & _ & _ & _ & r & s & Hr & _ & Hd & Ht).
  destruct (SessionState.is_terminal (state s)) eqn:Hlive; [by destruct Ht as (_ & _ & Heq); apply step_ok_eq|].
  destruct Ht as (_ & _ & _ & r' & ? & ? & sn & de & tok & th & _ & _ & _ & _ & _ & _ & Hset & Hck & Hd' & Hdb).
  unfold validate_terminal_reason in Hreason. ok_inv. bool_hyps.
  assert (row_evolves true r r') as He by (eapply (set_terminated_evolves r reason _ _ _ _ (state s)); [by apply dec_state|done|done|exact Hset]).
  eapply (step_ok_insert db db' id r r'); eauto.
  - unfold live_row. by rewrite (terminal_name_spec _ _ (dec_state _ _ Hd)), Hlive.
  - intros _. by set_inv.
Qed.

Lemma live_name r s : decodes r s -> SessionState.is_terminal (state s) = false -> live_row r = true.
Proof. intros Hd Hl. unfold live_row. by rewrite (terminal_name_spec _ _ (dec_state _ _ Hd)), Hl. Qed.

Lemma live_stays r r' (P : Prop) :
  live_row r = true -> row_state r' = row_state r -> terminal_name (row_state r') = true -> P.
Proof. unfold live_row. intros Hl ->. bool_hyps. congruence. Qed.

Lemma adopt_step_ok o id n prev new now mu db db' :
  db_inv db -> adopt_control_fence o id n prev new now db = Ok (mu, db') -> step_ok db db'.
Proof.
  intros Hi Ha.
  apply adopt_ok in Ha as (_ & Hlt & _ & r & s & r' & Hr & _ & Hd & _ & Hprev & Hlive & Hset & Hck & Hd' & ->).
  pose proof (live_name _ _ Hd Hlive) as Hl. eapply (step_ok_insert db _ id r r' true); eauto.
  - eapply set_fence_evolves; [|done]. lia.
  - apply (live_stays r); [done|by set_inv].
Qed.

Lemma clear_job_step_ok o id c job now u db db' :
  db_inv db -> clear_remux_job o id c job now db = Ok (u, db') -> step_ok db db'.
Proof.
  intros Hi Hc. apply clear_remux_job_ok in Hc
    as (_ & _ & _ & [->|(r & r' & Hr & _ & _ & Hj & Hset & Hck & Hdb)]); [by apply step_ok_eq|].
  destruct (Hi id r Hr) as [_ _ [s Hd] Hjob].
  assert (live_row r = true) as Hl.
  { unfold live_row. destruct (terminal_name (row_state r)); [|done]. destruct (Hjob eq_refl) as [Hnone _]. congruence. }
  eapply (step_ok_insert db db' id r r' false); eauto.
  - by eapply set_job_evolves.
  - eapply decodes_kept; [done|done|by set_inv..].
  - apply (live_stays r); [done|by set_inv].
Qed.

Lemma failure_step_ok (crypto : R) d i mu db db' :
  db_inv db -> record_recovery_failure crypto d i db = Ok (mu, db') -> step_ok db db'.
Proof.
  intros Hi Ht. apply record_recovery_failure_replaces in Ht as (_ & _ & Hrep).
  eapply replaces_step_ok; [done..|]. intros r s r' Hm (Hcan & Hresume & r1 & e & Hset1 & Hset).
  assert (row_state r1 = SessionState.as_str (recovery_state (rf_action i))) as Hs1 by by set_inv.
  split.
  - eapply row_evolves_trans; [eapply set_state_evolves, Hset1; [by eapply mutable_state|done]|].
    eapply set_recovery_failed_evolves; [|exact Hresume|done]. by rewrite Hs1, SessionState_as_str_try_from.
  - set_inv. cbn. by case_bool_decide.
Qed.

Lemma reencrypt_step_ok (crypto : R) d s selected c now changed count db db' :
  db_inv db -> reencrypt_session_values crypto d s selected c now db = Ok (changed, count, db') ->
  step_ok db db'.
Proof.
  intros Hi Ht. apply reencrypt_session_values_ok in Ht as (_ & _ & _ & ? & ? & sn & de & _ & _ & _ & _ & Hch).
  destruct changed; [|by destruct Hch as (_ & _ & ?); apply step_ok_eq].
  destruct Hch as (r & r' & Hr & _ & _ & Hl & Hset & Hck & Hdb).
  destruct (Hi (id s) r Hr) as [_ _ [s0 Hd] Hjob].
  eapply (step_ok_insert db db' (id s) r r' true); eauto.
  - by eapply set_envelopes_evolves.
  - eapply decodes_kept; [done|done|by set_inv..].
  - intros Ht. set_inv. apply Hjob, Ht.
Qed.

Lemma set_binding_evolves r b : row_evolves false r (set_binding b r).
Proof. split; try done. by apply state_stays. Qed.
Lemma link_step_ok id b r db :
  db_inv db -> db_sessions db !! id = Some r -> live_row r = true ->
  step_ok db (set_sessions <[id := set_binding b r]> db).
Proof.
  intros Hi Hr Hl. destruct (Hi id r Hr) as [_ Hc [s Hd] _].
  eapply (step_ok_insert db _ id r _ false); eauto using set_binding_evolves.
  - by eapply decodes_kept.
  - by apply (live_stays r).
Qed.
(** removing the link of a terminal session changes nothing: the termination removed it *)
Lemma unlink_step_ok id r db :
  db_inv db -> db_sessions db !! id = Some r -> step_ok db (set_sessions <[id := set_binding None r]> db).
Proof.
  intros Hi Hr. destruct (live_row r) eqn:Hl; [by apply link_step_ok|]. unfold live_row in Hl.
  apply negb_false_iff in Hl. destruct (ri_job _ _ (Hi id r Hr) Hl) as [_ Hnone].
  assert (set_binding None r = r) as -> by (destruct r; cbn in *; by subst).
  apply step_ok_eq; [done|]. cbn. by rewrite insert_id.
Qed.

Lemma repo_step_ok db db' : db_inv db -> repo_step db db' -> step_ok db db'.
Proof.
  intros Hi Hstep. destruct Hstep as [crypto limits d input hashes out db db' Hsrc Hc Hout
    |crypto o r now g db db' Hl|o id n prev new now mu db db' Ha|o id n c next now mu db db' Ht
    |limits o id n c now u mu db db' Hh|crypto d o id n c now g db db' Ht|o id n c job now s db db' Hb
    |o id c job now u db db' Hc|crypto d i g db db' Ht|crypto d i mu db db' Ht
    |crypto d o id n c reason now mu db db' Ht|crypto d s selected c now [changed count] db db' Ht
    |c limit now counts db db' Hp|id binding r db Hr Hl|id r db Hr|db db' Hsub];
    try (by eauto using create_step_ok, adopt_step_ok, clear_job_step_ok, failure_step_ok, terminate_step_ok,
      reencrypt_step_ok, step_ok_same, link_step_ok, unlink_step_ok).
  - apply step_ok_eq; [done|]. unfold lookup_idempotency in Hl. tx_inv. by eapply load_replay_sessions.
  - apply transition_replaces in Ht as [_ Hrep]. eapply replaces_step_ok; [done..|].
    intros r s r' Hm (Hcan & Hterm & Hset). split; [by eapply set_state_evolves, Hset; [eapply mutable_state|]|].
    assert (row_state r' = SessionState.as_str next) as -> by by set_inv. by rewrite terminal_name_as_str.
  - apply heartbeat_replaces in Hh as (_ & _ & Hrep). eapply replaces_step_ok; [done..|].
    intros r s r' Hm (lease & _ & _ & Hset). split; [by eapply set_heartbeat_evolves|].
    apply mutable_not_terminal in Hm. by set_inv.
  - apply rotate_delivery_token_replaces in Ht as (_ & Hrep & _). eapply replaces_step_ok; [done..|].
    intros r s r' Hm (th & _ & _ & Hset). split; [by eapply set_token_evolves|].
    rewrite (set_token_state _ _ _ _ Hset). by eapply mutable_not_terminal.
  - apply bind_remux_job_replaces in Hb as [_ Hrep]. eapply replaces_step_ok; [done..|].
    intros r s' r' Hm (_ & _ & _ & Hset). split; [by eapply set_job_evolves|].
    apply mutable_not_terminal in Hm. by set_inv.
  - apply replace_for_recovery_replaces in Ht. eapply replaces_step_ok; [done..|].
    intros r s r' Hm (Hcan & r1 & ctx & e & th & Hmoved & _ & _ & _ & _ & Hset).
    eapply recovered_step_ok in Hset as (He & Hst & _); [|by eapply mutable_state|done|done].
    split; [done|]. by rewrite Hst.
  - apply purge_ok in Hp as (_ & _ & _ & Hold); [|by apply db_inv_keyed]. apply step_ok_same; [done|].
    by apply map_subseteq_spec.
Qed.
End steps.

(** ** Histories *)
(** How a session that stays in the database has changed over any number of steps. *)
Record history (r r' : SessionRow) : Prop := {
  hi_id : row_id r' = row_id r;
  hi_owner : row_owner r' = row_owner r;
  hi_item : row_item_key_hash r' = row_item_key_hash r;
  hi_option : row_stream_option_key_hash r' = row_stream_option_key_hash r;
  hi_created : row_created_at r' = row_created_at r;
  hi_hard : row_hard_expires_at r' = row_hard_expires_at r;
  hi_revision : (row_revision r <= row_revision r')%Z;
  hi_same : row_revision r' = row_revision r ->
    set_job (row_remux_job_id r') (set_binding (row_egress_binding_id r') r) = Ok r';
  hi_token : (row_token_revision r <= row_token_revision r')%Z;
  hi_fence : (row_control_fencing_token r <= row_control_fencing_token r')%Z;
  hi_state : forall s, SessionState.try_from (row_state r) = Some s ->
    exists s', SessionState.try_from (row_state r') = Some s' /\ transitions s s';
  hi_terminal : terminal_name (row_state r) = true -> r' = r;
}.

Lemma set_own_job r : set_job (row_remux_job_id r) (set_binding (row_egress_binding_id r) r) = Ok r.
Proof. by destruct r. Qed.
Lemma set_job_twice a b x y r1 r2 r3 :
  set_job a (set_binding x r1) = Ok r2 -> set_job b (set_binding y r2) = Ok r3 ->
  set_job b (set_binding y r1) = Ok r3.
Proof. intros H1 H2. by set_inv. Qed.

Lemma set_job_revision j b r r' : set_job j (set_binding b r) = Ok r' -> row_revision r' = row_revision r.
Proof. intros Hset. by set_inv. Qed.

Lemma history_refl r : history r r.
Proof. split; try done. - by rewrite set_own_job. - by apply state_stays. Qed.
Lemma history_trans r1 r2 r3 : history r1 r2 -> history r2 r3 -> history r1 r3.
Proof.
  intros [] []. split; try congruence; try lia.
  - intros Heq. eapply set_job_twice; [apply hi_same0; lia|]. apply hi_same1. lia.
  - intros s Hs. destruct (hi_state0 s Hs) as (s2 & Hs2 & H12). destruct (hi_state1 s2 Hs2) as (s3 & ? & H23).
    exists s3. split; [done|by eapply transitions_trans].
  - intros Ht. specialize (hi_terminal0 Ht) as ->. by apply hi_terminal1.
Qed.
Lemma progress_history r r' : row_progress r r' -> history r r'.
Proof.
  intros [->|[Hl (b & [Hid Ho Hit Hop Hcr Hh Hrev Htok Hf Hst])]]; [apply history_refl|].
  unfold live_row in Hl. bool_hyps.
  destruct b; split; try done; intros; try congruence; first [lia|exfalso; lia|idtac].
  by rewrite (set_job_revision _ _ _ _ Hrev).
Qed.

Section runs.
Context {R : Type} `{Vault R} `{Texts}.

Lemma run_inv db db' : db_inv db -> rtc (repo_step (R:=R)) db db' -> db_inv db'.
Proof. intros Hi Hrun. induction Hrun as [|db1 db2 db3 Hs _ IH]; [done|]. apply IH. by destruct (repo_step_ok _ _ Hi Hs). Qed.

(** steps over which the session [id] is not deleted *)
Definition keeping (id : uuid) (db db' : Db) : Prop :=
  repo_step (R:=R) db db' /\ is_Some (db_sessions db' !! id).

Lemma run_history id db db' r :
  db_inv db -> rtc (keeping id) db db' -> db_sessions db !! id = Some r ->
  exists r', db_sessions db' !! id = Some r' /\ history r r'.
Proof.
  intros Hi Hrun. revert r Hi. induction Hrun as [|db1 db2 db3 [Hs [r2 Hr2]] _ IH]; intros r Hi Hr.
  - exists r. split; [done|apply history_refl].
  - destruct (repo_step_ok _ _ Hi Hs) as [Hi2 Hp]. destruct (Hp id r Hr) as [|(r2' & Hr2' & Hprog)]; [congruence|].
    destruct (IH r2' Hi2 Hr2') as (r3 & Hr3 & Hh). exists r3. split; [done|].
    eapply history_trans; [by apply progress_history|done].
Qed.
End runs.
