(* ===== verification/SessionDemo.v ===== *)
(** * A concrete world for the session repository

    A codec, a database with one account, and the key ring of [Crypto.Demo], on which the methods compute.
    The properties of [SessionProperties] are instantiated here. *)
From S2P Require Import Prelude Bytes LiveContract SessionTypes Recovery ControlLease Crypto.
From S2P Require Import Vault SessionStore SessionRepo.

(** What the repository needs of the payload codec: [serde_json] reads back what it wrote. *)
Class TextsLaws (T : Texts) : Prop := {
  replay_json_roundtrip p j : replay_to_json p = Some j -> replay_of_json j = Some p;
}.

Module World.
#[export] Existing Instance Demo.prims.
#[export] Existing Instance Demo.laws.

(** ** A reversible text for payloads: the binary digits of stdpp's encoding *)
Fixpoint bits (p : BinNums.positive) : string :=
  match p with
  | xH => ""
  | xO p => String "0" (bits p)
  | xI p => String "1" (bits p)
  end.
Fixpoint unbits (s : string) : BinNums.positive :=
  match s with
  | "" => xH
  | String c r => if Ascii.eqb c "0" then xO (unbits r) else xI (unbits r)
  end.
Lemma unbits_bits p : unbits (bits p) = p.
Proof. induction p as [p IH|p IH|]; cbn; by rewrite ?IH. Qed.

Definition to_json (p : ReplayPayload) : option string :=
  Some (bits (encode (pay_session_id p, pay_token_revision p, pay_token p))).
Definition of_json (s : string) : option ReplayPayload :=
  '(a, b, c) ← decode (unbits s); Some {| pay_session_id := a; pay_token_revision := b; pay_token := c |}.

#[export] Instance texts : Texts := {|
  uuid_text u := bits (encode u) +:+ "-";
  replay_to_json := to_json; replay_of_json := of_json;
  datetime_max := (8210266876799 * nanos_per_second)%Z |}.
#[export] Instance texts_laws : TextsLaws texts.
Proof.
  split. intros [a b c] j [= <-]. cbn. unfold of_json, to_json. by rewrite unbits_bits, decode_encode.
Qed.

(** ** One account with a profile, and the control lease held with token 7 *)
Definition owner : SessionOwner :=
  {| user_id := 1; home_id := 2; profile_id := 3; account_session_id := 4; provider_id := 5 |}.
Definition limits : LiveSessionLimits :=
  {| per_user := 2; server_total := 4; lease_seconds := 60; max_lifetime_seconds := 3600 |}.
Definition start : Db := {|
  db_sessions := ∅; db_replays := ∅; db_tracks := ∅;
  db_lease := {| lr_owner_instance_id := Some 9%N; lr_fencing_token := 7; lr_acquired_at := Some 0%Z;
                 lr_heartbeat_at := Some 0%Z; lr_expires_at := Some (seconds 1000) |};
  db_users := {[1%N]}; db_homes := {[2%N]}; db_providers := {[5%N]}; db_profiles := {[3%N := 2%N]};
  db_home_members := {[(2%N, 1%N) := "active"]};
  db_account_sessions := {[4%N := {| acc_user_id := 1; acc_home_id := 2; acc_active_profile_id := Some 3%N;
    acc_revoked_at := None; acc_expires_at := seconds 100000 |}]} |}.

Definition nonces (n : nat) : option string := Some Demo.nonce.
Definition draws (session_id : uuid) : Draws :=
  {| draw_uuid := session_id; draw_token := Some Demo.block; draw_nonce := nonces |}.
Definition input : NewSession :=
  {| new_owner := owner; new_item_key := "item"; new_stream_option_key := "option";
     new_item_snapshot := "snapshot"; new_descriptor := "descriptor"; new_delivery_mode := ServerRemux;
     new_protocol := PHls; new_source_index := 0; new_control_fencing_token := 7; new_now := seconds 10 |}.
Definition request : IdempotencyRequest := {| idem_key := "retry-1"; idem_request_identity := "body" |}.
Definition hashes : option (string * string) := to_option (idempotency_hashes Demo.ring request).

(** the database after a transaction that must succeed *)
Definition after {A} (m : tx A) (db : Db) : Db := (atomically m db).2.
Definition result_of {A} (m : tx A) (db : Db) : option A := to_option (atomically m db).1.
Lemma after_ok {A} (m : tx A) db : is_ok (m db) = true -> exists a, m db = Ok (a, after m db).
Proof. unfold after, atomically. destruct (m db) as [[a db']|e]; [by eexists|done]. Qed.
Lemma runs {A} (m : tx A) db a : result_of m db = Some a -> m db = Ok (a, after m db).
Proof. unfold result_of, after, atomically. destruct (m db) as [[a' db']|e]; [by intros [= ->]|done]. Qed.

Definition created_tx : tx create_outcome := create_tx Demo.ring limits (draws 100) input hashes.
Definition created : Db := after created_tx start.
(** two state moves, and a heartbeat *)
Definition planned : Db := after (transition owner 100 1 7 Planning (seconds 11)) created.
Definition ready : Db := after (transition owner 100 2 7 Ready (seconds 12)) planned.
Definition beaten : Db :=
  after (heartbeat limits owner 100 3 7 (seconds 20)) ready.

Definition token_of (out : option create_outcome) : string :=
  match out with Some (Created _ token) => token | _ => "" end.
Definition first_token : string := token_of (result_of created_tx start).

Example created_runs : is_ok (created_tx start) = true.
Proof. vm_compute. reflexivity. Qed.
Example ready_runs :
  is_ok (transition owner 100 1 7 Planning (seconds 11) created) = true /\
  is_ok (transition owner 100 2 7 Ready (seconds 12) planned) = true /\
  is_ok (heartbeat limits owner 100 3 7 (seconds 20) ready) = true.
Proof. vm_compute. auto. Qed.
End World.
