(* ===== verification/SessionSafety.v ===== *)
(** * Safety of the session table: validity, history, fencing and optimistic concurrency

    The properties that hold whatever the calls and their order, over the steps of [SessionEvolution]. *)
From S2P Require Import Prelude Bytes LiveContract SessionTypes Recovery ControlLease Crypto.
From S2P Require Import Vault SessionStore SessionRepo SessionFacts SessionEvolution SessionDemo.

(** ** The calls that change one session, with their result dropped *)
Inductive session_call :=
| CallAdopt (previous : Z)
| CallTransition (next : SessionState)
| CallHeartbeat (update : option LiveTrackPreferenceUpdate)
| CallRotateToken
| CallBindJob (job : string)
| CallClearJob (job : string)
| CallReplace (descriptor : string) (mode : DeliveryMode) (protocol : SessionProtocol) (source : Z)
    (action : RecoveryAction)
| CallRecoveryFailure (descriptor : string) (action : RecoveryAction)
| CallTerminate (reason : TerminalReason).

Section calls.
Context {R : Type} `{Vault R} `{Texts}.
Context (crypto : R) (limits : LiveSessionLimits).

Definition forget {A} (m : tx A) : tx unit := _ ← m; mret ().
Definition run_call (d : Draws) (o : SessionOwner) (session_id : uuid) (expected_revision control : Z)
    (now : instant) (c : session_call) : tx unit :=
  match c with
  | CallAdopt previous => forget (adopt_control_fence o session_id expected_revision previous control now)
  | CallTransition next => forget (transition o session_id expected_revision control next now)
  | CallHeartbeat u =>
      forget (heartbeat_with_track_preferences limits o session_id expected_revision control now u)
  | CallRotateToken => forget (rotate_delivery_token crypto d o session_id expected_revision control now)
  | CallBindJob job => forget (bind_remux_job o session_id expected_revision control job now)
  | CallClearJob job => forget (clear_remux_job o session_id control job now)
  | CallReplace descriptor mode protocol source action =>
      forget (replace_for_recovery crypto d
        {| rr_owner := o; rr_session_id := session_id; rr_expected_revision := expected_revision;
           rr_control_fencing_token := control; rr_descriptor := descriptor; rr_delivery_mode := mode;
           rr_protocol := protocol; rr_source_index := source; rr_action := action; rr_now := now |})
  | CallRecoveryFailure descriptor action =>
      forget (record_recovery_failure crypto d
        {| rf_owner := o; rf_session_id := session_id; rf_expected_revision := expected_revision;
           rf_control_fencing_token := control; rf_descriptor := descriptor; rf_action := action;
           rf_now := now |})
  | CallTerminate reason =>
      forget (terminate crypto d o session_id expected_revision control reason now)
  end.

Lemma forget_ok {A} (m : tx A) db u db' : forget m db = Ok (u, db') -> exists a, m db = Ok (a, db').
Proof. unfold forget. intros Hf. tx_inv. eauto. Qed.

Lemma run_call_step d o id n c now call db u db' :
  run_call d o id n c now call db = Ok (u, db') -> repo_step (R:=R) db db'.
Proof. destruct call; intros [a Ha]%forget_ok.
  - exact (step_adopt _ _ _ _ _ _ _ _ _ Ha).
  - exact (step_transition _ _ _ _ _ _ _ _ _ Ha).
  - exact (step_heartbeat _ _ _ _ _ _ _ _ _ _ Ha).
  - exact (step_rotate _ _ _ _ _ _ _ _ _ _ Ha).
  - exact (step_bind_job _ _ _ _ _ _ _ _ _ Ha).
  - exact (step_clear_job _ _ _ _ _ _ _ _ Ha).
  - exact (step_replace _ _ _ _ _ _ Ha).
  - exact (step_recovery_failure _ _ _ _ _ _ Ha).
  - exact (step_terminate _ _ _ _ _ _ _ _ _ _ _ Ha).
 Qed.

(** *** Fencing *)
Definition fence_error (e : SessionRepositoryError) : bool :=
  match e with InvalidInput | FenceLost => true | _ => false end.
Definition fence_rejects {A} (control : Z) (now : instant) (m : tx A) : Prop :=
  forall db, fence_active control now (db_lease db) = false -> exists e, m db = Err e /\ fence_error e = true.

Lemma rejects_assert {A} control now (k : unit -> tx A) :
  fence_rejects control now (assert_active_fence control now ≫= k).
Proof.
  intros db Hf. unfold assert_active_fence, mbind, tx_bind, fail_when, lift, reject_if, read.
  destruct (control <? 1)%Z; [by exists InvalidInput|]. rewrite Hf. by exists FenceLost.
Qed.
Lemma rejects_begin {A} o id n control now (k : SessionRecord -> tx A) :
  fence_rejects control now (begin_mutation o id n control now ≫= k).
Proof.
  intros db Hf. unfold begin_mutation. unfold mbind at 1, tx_bind at 1.
  destruct (rejects_assert control now (fun _ => current ← load_owned_record o id;
    _ ← lift (validate_mutation current n control now); mret current) db Hf) as (e & -> & He). eauto.
Qed.
Lemma rejects_fail {A} control now b (k : unit -> tx A) :
  fence_rejects control now (k ()) -> fence_rejects control now (fail_when b InvalidInput ≫= k).
Proof.
  intros Hk db Hf. unfold mbind, tx_bind, fail_when, lift, reject_if.
  destruct b; [by exists InvalidInput|]. by apply Hk.
Qed.
Lemma rejects_forget {A} control now (m : tx A) :
  fence_rejects control now m -> fence_rejects control now (forget m).
Proof. intros Hm db Hf. unfold forget, mbind, tx_bind. destruct (Hm db Hf) as (e & -> & He). eauto. Qed.
Lemma rejects_reason {A} control now reason (k : unit -> tx A) :
  fence_rejects control now (k ()) ->
  fence_rejects control now (lift (validate_terminal_reason reason) ≫= k).
Proof.
  intros Hk. eapply rejects_fail in Hk. exact Hk.
Qed.

Lemma run_call_fenced d o id n c now call : fence_rejects c now (run_call d o id n c now call).
Proof.
  destruct call; cbn [run_call]; apply (rejects_forget (A:=_));
    unfold adopt_control_fence, transition, heartbeat_with_track_preferences, rotate_delivery_token,
      bind_remux_job, clear_remux_job, replace_for_recovery, record_recovery_failure, terminate;
    try apply rejects_reason; repeat apply rejects_fail; first [apply rejects_begin|apply rejects_assert].
Qed.

(** *** Revisions *)
(** the calls that increase the revision; binding a remux job keeps it and clearing one ignores it *)
Definition call_bumps (c : session_call) : bool :=
  match c with CallBindJob _ | CallClearJob _ => false | _ => true end.
Definition call_clears (c : session_call) : bool :=
  match c with CallClearJob _ => true | _ => false end.

(** what a successful call that checks the revision found, and the revision it left *)
Definition call_fence (c : session_call) (control : Z) : Z :=
  match c with CallAdopt previous => previous | _ => control end.
Definition found_and_left (id : uuid) (n fence : Z) (bump : bool) (db db' : Db) : Prop :=
  exists r r', db_sessions db !! id = Some r /\ live_row r = true /\ row_revision r = n /\
    row_control_fencing_token r = fence /\ db_sessions db' !! id = Some r' /\
    if bump then (n < row_revision r')%Z else True.

Lemma replaces_found o id n c now (upd : SessionRow -> SessionRecord -> SessionRow -> Prop) db s' db' (bump : bool) :
  replaces o id n c now upd db s' db' ->
  (forall r s r', mutable o id n c now db r s -> upd r s r' ->
    if bump then (row_revision r < row_revision r')%Z else True) ->
  found_and_left id n c bump db db'.
Proof.
  intros [(r & s & r' & Hm & Hu & _ & _ & Hdb) _] Hb. exists r, r'. pose proof (mu_revision _ _ _ _ _ _ _ _ Hm).
  split_and!; [by eapply mu_row|by eapply live_row_mutable|done|by eapply mu_fence|by rewrite Hdb, lookup_insert_eq|].
  specialize (Hb r s r' Hm Hu). destruct bump; [lia|done].
Qed.

Lemma run_call_found d o id n c now call db u db' :
  run_call d o id n c now call db = Ok (u, db') -> call_clears call = false ->
  found_and_left id n (call_fence call c) (call_bumps call) db db' \/
  db_sessions db' = db_sessions db /\ (exists reason, call = CallTerminate reason) /\
    exists r, db_sessions db !! id = Some r /\ live_row r = false.
Proof.
  destruct call; intros [a Ha]%forget_ok Hclear; [left|left|left|left|left|done|left|left|].
  - apply adopt_ok in Ha as (_ & _ & _ & r & s & r' & Hr & _ & Hd & Hrev & Hfence & Hlive & Hset & _ & _ & ->).
    exists r, r'. split_and!; [done|by eapply live_name|done|done|by apply lookup_insert_eq|].
    set_inv. cbn. lia.
  - apply transition_replaces in Ha as [_ Hrep]. eapply replaces_found; [done|]. cbn.
    intros r s r' _ (_ & _ & Hset). set_inv. cbn. lia.
  - apply heartbeat_replaces in Ha as (_ & _ & Hrep). eapply replaces_found; [done|]. cbn.
    intros r s r' _ (? & _ & _ & Hset). set_inv. cbn. lia.
  - apply rotate_delivery_token_replaces in Ha as (_ & Hrep & _). eapply replaces_found; [done|]. cbn.
    intros r s r' _ (? & _ & _ & Hset). set_inv. cbn. lia.
  - apply bind_remux_job_replaces in Ha as [_ Hrep]. by eapply replaces_found.
  - apply replace_for_recovery_replaces in Ha. eapply replaces_found; [done|]. cbn.
    intros r s r' Hm (Hcan & r1 & ? & ? & ? & Hmoved & _ & _ & _ & _ & Hset).
    eapply recovered_step_ok in Hset as (_ & _ & Hrev & _); [|by eapply mutable_state|done|done].
    rewrite Hrev. destruct action; cbn; lia.
  - apply record_recovery_failure_replaces in Ha as (_ & _ & Hrep). eapply replaces_found; [done|]. cbn.
    intros r s r' _ (_ & _ & r1 & ? & Hset1 & Hset). set_inv. cbn. lia.
  - apply terminate_ok in Ha as (_ & _ & _ & _ & r & s & Hr & _ & Hd & Ht).
    destruct (SessionState.is_terminal (state s)) eqn:Hterm.
    + right. destruct Ht as (_ & _ & Hdb). split_and!; [done|by eexists|]. exists r. split; [done|].
      unfold live_row. by rewrite (terminal_name_spec _ _ (dec_state _ _ Hd)), Hterm.
    + left. destruct Ht as (Hrev & Hfence & _ & r' & ? & ? & ? & ? & ? & ? & _ & _ & _ & _ & _ & _ & Hset & _ & _ & Hdb).
      exists r, r'. split_and!; [done|by eapply live_name|done|done|by rewrite Hdb, lookup_insert_eq|].
      set_inv. cbn. lia.
Qed.
End calls.

(** ** Properties *)
(** C2: every stored session stays valid.  Starting from a table whose rows are valid, after any number of
    committed calls of the repository in any order (creations, mutations, recoveries, terminations,
    re-encryption and purges, with rows deleted by other components in between) every row satisfies the
    CHECK constraints of the table and decodes to a session with its own id, and a terminal session has an
    end time, no remux job and no egress binding. *)
Theorem sessions_stay_valid {R : Type} `{Vault R} `{Texts} db db' id r :
  db_inv db -> rtc (repo_step (R:=R)) db db' -> db_sessions db' !! id = Some r ->
  session_check r = true /\
  exists s, decode_session r = Ok s /\ SessionTypes.id s = id /\
    (SessionState.is_terminal (state s) = true -> is_Some (ended_at s) /\ remux_job_id s = None /\
       egress_binding_id s = None).
Proof.
  intros Hi Hrun Hr. destruct (run_inv _ _ Hi Hrun id r Hr) as [Hk Hc [s Hd] Hj]. split; [done|].
  exists s. split; [by apply decode_session_ok|]. split; [by rewrite (dec_id _ _ Hd)|]. intros Ht.
  rewrite <- (terminal_name_spec _ _ (dec_state _ _ Hd)) in Ht. rewrite (dec_ended _ _ Hd), (dec_job _ _ Hd), (dec_binding _ _ Hd).
  split; [|by apply Hj]. unfold session_check in Hc. bool_hyps.
  match goal with He : Bool.eqb _ _ = true |- _ => apply Bool.eqb_prop in He; rewrite Ht in He end.
  destruct (row_ended_at r); [by eexists|done].
Qed.

(** C1: the repository refines the session state machine.  Over any number of committed calls that do not
    delete it, a session keeps its identity, owner, item, stream option, creation time and hard expiry; its
    revision, token revision and control fence never decrease; two observations with the same revision
    differ in the remux job and the egress binding at most; its state moves along [can_transition_to] only; and once it is
    terminal it never changes again. *)
Theorem session_history {R : Type} `{Vault R} `{Texts} id db db' r :
  db_inv db -> rtc (keeping (R:=R) id) db db' -> db_sessions db !! id = Some r ->
  exists r', db_sessions db' !! id = Some r' /\ history r r'.
Proof. apply run_history. Qed.

(** C3: fencing.  A call under a fencing token that is not the active lease's (another server took the
    lease over, or the lease expired) fails with [FenceLost], or with [InvalidInput] when its arguments
    are rejected first, and leaves the database as it was; and a call never writes to a session whose own
    fencing token is not the one it presents (for an adoption: the one it takes the session over from). *)
Theorem stale_fence_changes_nothing {R : Type} `{Vault R} `{Texts} (crypto : R) limits d o id n control now
    call db :
  let outcome := atomically (run_call crypto limits d o id n control now call) db in
  (fence_active control now (db_lease db) = false ->
     exists e, outcome = (Err e, db) /\ (e = FenceLost \/ e = InvalidInput)) /\
  (forall r, db_sessions db !! id = Some r -> row_control_fencing_token r <> call_fence call control ->
     db_sessions outcome.2 = db_sessions db).
Proof.
  unfold atomically. split.
  - intros Hf. destruct (run_call_fenced crypto limits d o id n control now call db Hf) as (e & -> & Hk).
    exists e. split; [done|]. destruct e; auto; done.
  - intros r Hr Hne. destruct (run_call _ _ _ _ _ _ _ _ _ _) as [[u db']|] eqn:Hrun; [cbn|done].
    destruct (call_clears call) eqn:Hcl.
    + destruct call; try done. cbn in Hrun. apply forget_ok in Hrun as [? Hrun].
      apply clear_remux_job_ok in Hrun as (_ & _ & _ & [->|(r0 & ? & Hr0 & _ & Hf & _)]); [done|].
      cbn in Hne. congruence.
    + apply run_call_found in Hrun as [(r0 & _ & Hr0 & _ & _ & Hf & _)|[? _]]; [congruence|done|done].
Qed.

(** C4: no lost update.  Once a call that checks and increases the revision has succeeded, a call of any
    client that expects the revision the first one started from never writes to the session, whatever
    happened in between: it fails with the database unchanged, or it is a termination of a session that is
    terminal already. *)
Theorem no_lost_update {R : Type} `{Vault R} `{Texts} (crypto : R) limits id n db db1 db2
    d o control now call r d2 o2 control2 now2 call2 :
  db_inv db -> db_sessions db !! id = Some r -> live_row r = true -> call_bumps call = true ->
  run_call crypto limits d o id n control now call db = Ok ((), db1) ->
  rtc (keeping (R:=R) id) db1 db2 -> call_clears call2 = false ->
  let '(res, db3) := atomically (run_call crypto limits d2 o2 id n control2 now2 call2) db2 in
  db_sessions db3 = db_sessions db2 /\
  (db3 = db2 \/ exists reason, call2 = CallTerminate reason /\
     exists r2, db_sessions db2 !! id = Some r2 /\ live_row r2 = false).
Proof.
  intros Hi Hr Hl Hb Hrun Hsteps Hc2. pose proof (run_call_step _ _ _ _ _ _ _ _ _ _ _ _ Hrun) as Hstep.
  destruct (repo_step_ok _ _ Hi Hstep) as [Hi1 _].
  apply run_call_found in Hrun as [(r0 & r1 & Hr0 & _ & _ & _ & Hr1 & Hlt)|(_ & _ & r0 & Hr0 & Hdead)];
    [|congruence|by destruct call].
  rewrite Hb in Hlt. destruct (run_history id db1 db2 r1 Hi1 Hsteps Hr1) as (r2 & Hr2 & Hh).
  unfold atomically. destruct (run_call crypto limits d2 o2 id n control2 now2 call2 db2) as [[u db3]|e] eqn:Hrun2;
    [|by auto].
  apply run_call_found in Hrun2 as [(r3 & r4 & Hr3 & _ & Hrev & _)|(Heq & (reason & ->) & Hdead)]; [|by eauto 8|done].
  pose proof (hi_revision _ _ Hh). simplify_eq. lia.
Qed.

(** ** Witnesses *)
Module Witness.
Import World.

Lemma start_inv : db_inv start.
Proof. intros id r Hr. cbn in Hr. by rewrite lookup_empty in Hr. Qed.

Lemma creation_step : repo_step (R:=LiveCrypto) start created.
Proof.
  destruct (after_ok created_tx start created_runs) as [out Hout].
  apply (step_create Demo.ring limits (draws 100) input hashes out); [by vm_compute|done|].
  intros ->. assert (result_of created_tx start = Some Raced) as Hraced by by (unfold result_of, atomically; rewrite Hout).
  vm_compute in Hraced. discriminate.
Qed.
Lemma call_step (call : session_call) n now db db' :
  (exists u, run_call Demo.ring limits (draws 1) owner 100 n 7 now call db = Ok (u, db')) ->
  is_Some (db_sessions db' !! 100%N) -> keeping (R:=LiveCrypto) 100 db db'.
Proof. intros [u Hrun] Hs. split; [by eapply run_call_step|done]. Qed.

Definition first_call : tx unit := run_call Demo.ring limits (draws 1) owner 100 1 7 (seconds 11) (CallTransition Planning).
Definition called : Db := after first_call created.
Definition second_call : tx unit := run_call Demo.ring limits (draws 1) owner 100 2 7 (seconds 12) (CallTransition Ready).
Definition called_twice : Db := after second_call called.

Lemma some_row db : is_some_b (db_sessions db !! 100%N) = true -> exists r, db_sessions db !! 100%N = Some r.
Proof. destruct (db_sessions db !! 100%N) as [r|]; [by exists r|done]. Qed.

Lemma second_step : keeping (R:=LiveCrypto) 100 called called_twice.
Proof.
  apply (call_step (CallTransition Ready) 2 (seconds 12)); [|apply some_row; by vm_compute].
  apply (after_ok second_call called). by vm_compute.
Qed.
Lemma calls_run : rtc (keeping (R:=LiveCrypto) 100) created called_twice.
Proof.
  eapply rtc_l; [|apply rtc_once, second_step].
  apply (call_step (CallTransition Planning) 1 (seconds 11)); [|apply some_row; by vm_compute].
  apply (after_ok first_call created). by vm_compute.
Qed.
Lemma steps_run : rtc (repo_step (R:=LiveCrypto)) start called_twice.
Proof.
  eapply rtc_l; [apply creation_step|]. eapply (rtc_subrel (keeping 100)); [|apply calls_run]. by intros ? ? [? _].
Qed.
Lemma created_inv : db_inv created.
Proof. by destruct (repo_step_ok _ _ start_inv creation_step). Qed.

Lemma sessions_stay_valid_witness :
  exists r, db_sessions called_twice !! 100%N = Some r /\ session_check r = true.
Proof.
  destruct (some_row called_twice ltac:(by vm_compute)) as [r Hr]. exists r. split; [exact Hr|].
  apply (sessions_stay_valid start called_twice 100 r start_inv steps_run Hr).
Defined.

Lemma session_history_witness :
  exists r r', db_sessions created !! 100%N = Some r /\ db_sessions called_twice !! 100%N = Some r' /\
    row_state r = "resolving" /\ row_state r' = "ready" /\ history r r'.
Proof.
  destruct (some_row created ltac:(by vm_compute)) as [r Hr].
  destruct (session_history 100 created called_twice r created_inv calls_run Hr) as (r' & Hr' & Hh).
  exists r, r'. split_and!; [exact Hr|exact Hr'| | |exact Hh].
  - vm_compute in Hr. by injection Hr as <-.
  - vm_compute in Hr'. by injection Hr' as <-.
Defined.

Lemma stale_fence_witness :
  exists e, atomically (run_call Demo.ring limits (draws 1) owner 100 1 6 (seconds 11) CallRotateToken) created
    = (Err e, created) /\ (e = FenceLost \/ e = InvalidInput).
Proof.
  apply (proj1 (stale_fence_changes_nothing Demo.ring limits (draws 1) owner 100 1 6 (seconds 11)
    CallRotateToken created)). by vm_compute.
Defined.

(** a second client that still expects revision 1 *)
Lemma no_lost_update_witness :
  db_sessions (atomically (run_call Demo.ring limits (draws 2) owner 100 1 7 (seconds 13) CallRotateToken)
    called_twice).2 = db_sessions called_twice.
Proof.
  destruct (some_row created ltac:(by vm_compute)) as [r Hr].
  destruct (after_ok first_call created ltac:(by vm_compute)) as [[] Hfirst].
  assert (live_row r = true) as Hl by (vm_compute in Hr; by injection Hr as <-).
  pose proof (no_lost_update Demo.ring limits 100 1 created called called_twice (draws 1) owner 7 (seconds 11)
    (CallTransition Planning) r (draws 2) owner 7 (seconds 13) CallRotateToken created_inv Hr Hl eq_refl Hfirst
    (rtc_once _ _ second_step) eq_refl) as Hno.
  destruct (atomically _ _) as [res db3]. apply Hno.
Defined.
End Witness.
