(* ===== verification/SessionGrants.v ===== *)
(** * Grants: tokens, secrets and idempotent replays of a session

    What a client gets back from the session methods, under the laws of the key ring ([VaultLaws]) and of
    the payload codec ([TextsLaws]): the token it was granted is accepted, the secrets it stored come back,
    and a retried creation returns the grant of the first one. *)
From S2P Require Import Prelude Bytes LiveContract SessionTypes Recovery ControlLease Crypto.
From S2P Require Import Vault SessionStore SessionRepo SessionFacts SessionEvolution SessionDemo.

(** The random source delivers what it was asked for: 12-byte nonces and a 32-byte token. *)
Record draws_ok (d : Draws) : Prop := {
  draws_nonces n : exists nonce, draw_nonce d n = Some nonce /\ slen nonce = AES_GCM_NONCE_BYTES;
  draws_token : exists random, draw_token d = Some random /\ slen random = DELIVERY_TOKEN_BYTES;
}.

Section grants.
Context {R : Type} `{HL : VaultLaws R ready related} `{TL : TextsLaws}.
Implicit Types crypto later : R.

Lemma encrypted_reads_back crypto later p table record column ctx d n m e :
  ready crypto -> related crypto later -> draws_ok d ->
  EnvelopeContext_new p table record column = Ok ctx ->
  vault_encrypt crypto ctx (draw_nonce d n) m = Ok e -> vault_decrypt later ctx e = Ok m.
Proof.
  intros Hr Hrel Hd Hctx He. destruct (draws_nonces _ Hd n) as (nonce & Hn & Hlen). rewrite Hn in He.
  by eapply law_decrypt_encrypt.
Qed.

Lemma column_reads_back crypto later p id column ctx d n m e :
  ready crypto -> related crypto later -> draws_ok d -> session_context p id column = Ok ctx ->
  vault_encrypt crypto ctx (draw_nonce d n) m = Ok e -> decrypt_column later p id column e = Ok m.
Proof.
  intros Hr Hrel Hd Hctx He. unfold decrypt_column. rewrite Hctx. run_ok.
  unfold session_context in Hctx. by rewrite (encrypted_reads_back _ _ _ _ _ _ _ _ _ _ _ Hr Hrel Hd Hctx He).
Qed.

Lemma replay_reads_back crypto later usr profile key d n payload e :
  ready crypto -> related crypto later -> draws_ok d ->
  encrypt_replay crypto usr profile key (draw_nonce d n) payload = Ok e ->
  decrypt_replay later usr profile key e = Ok payload.
Proof.
  intros Hr Hrel Hd. unfold encrypt_replay, decrypt_replay, replay_context. intros He. ok_inv.
  match goal with Hc : map_err _ (EnvelopeContext_new ?p ?t ?i ?c) = Ok _ |- _ =>
    destruct (EnvelopeContext_new p t i c) as [ctx|] eqn:Hctx; [|done] end. cbn in *. ok_inv.
  match goal with Hv : map_err _ ?m = Ok _ |- _ => destruct m as [e'|] eqn:Henc; [|done] end. cbn in *. ok_inv.
  rewrite (encrypted_reads_back _ _ _ _ _ _ _ _ _ _ _ Hr Hrel Hd Hctx Henc). run_ok.
  match goal with Hb : (_ <? _)%Z = false |- _ => rewrite Hb end. run_ok.
  match goal with Hj : replay_to_json _ = Some _ |- _ => by rewrite (replay_json_roundtrip _ _ Hj) end.
Qed.

Lemma token_accepted crypto later d token th :
  ready crypto -> related crypto later -> draws_ok d ->
  vault_generate_token (draw_token d) = Ok token -> vault_hash_token crypto token = Ok th ->
  vault_verify_token later token (th_encoded th) = true /\ vault_parse_token token = Ok token.
Proof.
  intros Hr Hrel Hd Hg Hh. destruct (draws_token _ Hd) as (random & Hrnd & Hlen). rewrite Hrnd in Hg.
  by eapply law_token_verifies.
Qed.

(** the session a row decodes to is usable with the token whose hash it stores *)
Lemma verify_usable later id token now db r s :
  db_sessions db !! id = Some r -> decodes r s ->
  fence_active (row_control_fencing_token r) now (db_lease db) = true ->
  account_session_valid (row_owner r) now db = true -> expired_at s now = false ->
  vault_verify_token later token (row_token_hash r) = true ->
  verify_delivery_token later id token now db = Ok s.
Proof.
  intros Hr Hd Hf Ha He Hv. unfold verify_delivery_token, session_where. rewrite Hr, Hf, Ha. run_ok.
  rewrite (proj2 (decode_session_ok r s) Hd). run_ok. rewrite He. run_ok. by rewrite Hv.
Qed.

Lemma secrets_of later id o db r s snapshot descriptor :
  db_sessions db !! id = Some r -> row_owner r = o -> decodes r s ->
  SessionState.is_terminal (state s) = false ->
  decrypt_column later ItemSnapshot id "encrypted_item_snapshot" (row_encrypted_item_snapshot r) = Ok snapshot ->
  decrypt_column later Descriptor id "encrypted_descriptor" (row_encrypted_descriptor r) = Ok descriptor ->
  decrypt_secrets later o id db = Ok {| mat_item_snapshot := snapshot; mat_descriptor := descriptor |}.
Proof.
  intros Hr Ho Hd Hl Hs He. unfold decrypt_secrets, session_where. rewrite Hr. unfold owned.
  rewrite bool_decide_true by done. run_ok. unfold parse_state. rewrite (dec_state _ _ Hd). run_ok.
  rewrite Hl. run_ok. rewrite Hs. run_ok. by rewrite He.
Qed.

(** a stored replay of a live session answers with the token it holds *)
Lemma replay_answers later o k rq now db row r s payload token :
  db_replays db !! (user_id o, profile_id o, k) = Some row -> rp_request_hash row = rq ->
  (now < rp_expires_at row)%Z ->
  decrypt_replay later (user_id o) (profile_id o) k (rp_encrypted_response row) = Ok payload ->
  pay_session_id payload = rp_session_id row -> db_sessions db !! rp_session_id row = Some r ->
  row_owner r = o -> decodes r s -> expired_at s now = false ->
  pay_token_revision payload = token_revision s ->
  vault_verify_token later (pay_token payload) (row_token_hash r) = true ->
  vault_parse_token (pay_token payload) = Ok token ->
  load_replay later o k rq now db =
    Ok (Some {| grant_session := s; grant_token := token; replayed := true |}, db).
Proof.
  intros Hrow Hrq Hexp Hdec Hid Hr Ho Hd Hlive Htr Hv Hp.
  unfold load_replay. rewrite tx_read, Hrow, Hrq, String.eqb_refl, (proj2 (Z.leb_gt _ _) Hexp). cbn [negb].
  rewrite (tx_lift _ _ _ _ Hdec), tx_pass by (by rewrite bool_decide_true).
  rewrite tx_read. rewrite (tx_lift _ _ _ r).
  2:{ unfold session_where, owned. by rewrite Hr, bool_decide_true. }
  rewrite (tx_lift _ _ _ _ (proj2 (decode_session_ok r s) Hd)).
  rewrite tx_pass by (by rewrite Hlive, Htr, Z.eqb_refl, Hv). by rewrite (tx_lift_crypto _ _ _ _ Hp).
Qed.

Lemma load_replay_conflict later o k rq now db row :
  db_replays db !! (user_id o, profile_id o, k) = Some row -> rp_request_hash row <> rq ->
  load_replay later o k rq now db = Err IdempotencyConflict.
Proof.
  intros Hrow Hne. unfold load_replay, read, mbind, tx_bind. rewrite Hrow.
  by rewrite (proj2 (String.eqb_neq _ _) Hne).
Qed.
End grants.

(** ** Properties *)
Section properties.
Context {R : Type} `{HL : VaultLaws R ready related} `{TL : TextsLaws}.
Implicit Types crypto later : R.

Lemma created_row crypto limits d input hashes db session_id token db' :
  create_tx crypto limits d input hashes db = Ok (Created session_id token, db') ->
  (new_source_index input <= i32_max)%Z ->
  exists row s th db1, db_sessions db' !! session_id = Some row /\ decodes row s /\
    session_id = draw_uuid d /\ vault_generate_token (draw_token d) = Ok token /\
    vault_hash_token crypto token = Ok th /\ row_token_hash row = th_encoded th /\
    new_session_row crypto limits d input (th_encoded th) db1 = Ok (row, db1) /\
    (forall k rq, hashes = Some (k, rq) ->
      exists response, encrypt_replay crypto (user_id (new_owner input)) (profile_id (new_owner input)) k
          (draw_nonce d 2)
          {| pay_session_id := session_id; pay_token_revision := 1; pay_token := token |} = Ok response /\
        db_replays db' !! (user_id (new_owner input), profile_id (new_owner input), k) =
          Some {| rp_request_hash := rq; rp_session_id := session_id;
            rp_encrypted_response := response; rp_created_at := new_now input;
            rp_expires_at := (new_now input + seconds IDEMPOTENCY_TTL_SECONDS)%Z |}).
Proof.
  intros Hc Hsrc. apply create_tx_created in Hc as (Hid & _ & _ & _ & _ & Htok & _ & row & th & Hth & (db1 & Hrow)
    & _ & Hck & Hs & Hrep).
  pose proof Hrow as Hnew. apply new_session_row_ok in Hnew as (_ & _ & _ & _ & _ & _ & _ & _ & _ & Hhash & Hsi
    & Hfo & Hrf & _).
  destruct (checked_decodes row Hck) as [s Hd]; [congruence|rewrite Hfo|rewrite Hrf|]; [unfold i32_max; lia..|].
  exists row, s, th, db1. rewrite Hs, lookup_insert_eq. by split_and!.
Qed.

(** C7: a created session can be used.  Until its lease ends, while the control fence it was created under
    is active and its account session is valid, the token the creation returned is accepted for the new
    session, which belongs to the caller, is at revision 1 and in state [Resolving]; and the owner reads back
    exactly the item snapshot and the descriptor given, also after the primary keys were rotated. *)
Theorem created_session_usable crypto later limits d input hashes db session_id token db' now :
  ready crypto -> related crypto later -> draws_ok d -> (new_source_index input <= i32_max)%Z ->
  create_tx crypto limits d input hashes db = Ok (Created session_id token, db') ->
  fence_active (new_control_fencing_token input) now (db_lease db') = true ->
  account_session_valid (new_owner input) now db' = true ->
  (now < new_now input + seconds (lease_seconds limits))%Z ->
  (now < new_now input + seconds (max_lifetime_seconds limits))%Z ->
  (exists s, verify_delivery_token later session_id token now db' = Ok s /\ id s = session_id /\
     owner s = new_owner input /\ state s = Resolving /\ revision s = 1%Z) /\
  decrypt_secrets later (new_owner input) session_id db' =
    Ok {| mat_item_snapshot := new_item_snapshot input; mat_descriptor := new_descriptor input |}.
Proof.
  intros Hready Hrel Hdr Hsrc Hc Hf Ha Hl1 Hl2.
  apply created_row in Hc as (row & s & th & db1 & Hr & Hd & Hid & Htok & Hth & Hhash & Hnew & _); [|done].
  apply new_session_row_ok in Hnew as (_ & Hrid & Ho & Hst & _ & _ & Hrev & _ & Hfence & _ & _ & _ & _ & _ & Hhard
    & Hexp & ctx1 & ctx2 & Hctx1 & He1 & Hctx2 & He2).
  assert (state s = Resolving) as Hs by (pose proof (dec_state _ _ Hd) as Hx; rewrite Hst in Hx; by injection Hx).
  split.
  - exists s. rewrite (dec_id _ _ Hd), (dec_owner _ _ Hd), (proj1 (dec_revision _ _ Hd)). split_and!; try done; [|congruence].
    apply (verify_usable later session_id token now db' row s); try done; [congruence|congruence| |].
    + apply expired_at_false. rewrite Hs, (dec_expires _ _ Hd), (dec_hard _ _ Hd). split_and!; try done; lia.
    + rewrite Hhash. by eapply token_accepted.
  - subst session_id. eapply (secrets_of _ _ _ _ row s); try done; [by rewrite Hs|..];
      eapply (column_reads_back crypto); eauto.
Qed.

(** two rings give the same correlation hashes: they have the same primary key for token hashes *)
Definition hashes_alike crypto later : Prop :=
  forall purpose value, vault_hash_correlation later purpose value = vault_hash_correlation crypto purpose value.
Lemma hashes_of_retry crypto later r r2 hashes : hashes_alike crypto later ->
  idempotency_hashes crypto r = Ok hashes -> idem_key r2 = idem_key r ->
  (idem_request_identity r2 = idem_request_identity r -> idempotency_hashes later r2 = Ok hashes) /\
  (forall hashes2, idempotency_hashes later r2 = Ok hashes2 -> hashes2.1 = hashes.1).
Proof.
  intros Ha. unfold idempotency_hashes. rewrite !Ha. intros Hh ->. split; [by intros ->|]. intros hashes2.
  destruct (map_err _ (vault_hash_correlation crypto CorrIdempotencyKey _)) as [k|e]; [|done].
  destruct (map_err _ (vault_hash_correlation crypto _ (idem_request_identity r))) as [rq|e]; [|done].
  destruct (map_err _ _) as [rq2|e]; [|done]. cbn in *. by injection Hh as <-; intros [= <-].
Qed.


(** Rotating the delivery token.  The session moves to the next revision and the next token revision
    and nothing else of it changes; the new token is accepted from then on; and every idempotent replay of
    the session that has not expired answers with the new token, so a client that lost the response of its
    creation is not locked out. *)
Theorem rotation_regrants crypto later d o session_id n c now db g db' :
  ready crypto -> related crypto later -> draws_ok d ->
  rotate_delivery_token crypto d o session_id n c now db = Ok (g, db') ->
  let s := grant_session g in
  revision s = (n + 1)%Z /\ owner s = o /\ expired_at s now = false /\
  (exists s0, get_owned o session_id db = Ok (Some s0) /\ token_revision s = (token_revision s0 + 1)%Z /\
     state s = state s0 /\ session_expires_at s = session_expires_at s0) /\
  (account_session_valid o now db' = true ->
     verify_delivery_token later session_id (grant_token g) now db' = Ok s) /\
  (forall k row, db_replays db !! (user_id o, profile_id o, k) = Some row ->
     rp_session_id row = session_id -> (now < rp_expires_at row)%Z ->
     load_replay later o k (rp_request_hash row) now db' =
       Ok (Some {| grant_session := s; grant_token := grant_token g; replayed := true |}, db')).
Proof.
  intros Hready Hrel Hdr Hrot. cbn zeta.
  apply rotate_delivery_token_replaces in Hrot as (_ & [(r & s & r' & Hm & (th & Htok & Hth & Hset) & _ & Hd' & Hs)
    Hlease] & Hreplays).
  destruct (token_accepted crypto later d _ th Hready Hrel Hdr Htok Hth) as [Hv Hp].
  destruct Hm as [Hr Ho Hd Hrev Hf Hact Hlive Hexp Hhard].
  assert (row_owner r' = o /\ row_token_hash r' = th_encoded th /\ row_revision r' = (n + 1)%Z /\
    row_state r' = row_state r /\ row_expires_at r' = row_expires_at r /\
    row_hard_expires_at r' = row_hard_expires_at r /\ row_control_fencing_token r' = c /\
    row_token_revision r' = (row_token_revision r + 1)%Z) as (Ho' & Hh' & Hrev' & Hst' & Hex' & Hhd' & Hf' & Htr')
    by (set_inv; by subst).
  assert (state (grant_session g) = state s) as Hst.
  { pose proof (dec_state _ _ Hd) as H1. pose proof (dec_state _ _ Hd') as H2. congruence. }
  assert (expired_at (grant_session g) now = false) as Hnot.
  { apply expired_at_false. rewrite Hst, (dec_expires _ _ Hd'), (dec_hard _ _ Hd'), Hex', Hhd'. by split_and!. }
  assert (db_sessions db' !! session_id = Some r') as Hr' by by rewrite Hs, lookup_insert_eq.
  split_and!.
  - by rewrite (proj1 (dec_revision _ _ Hd')).
  - by rewrite (dec_owner _ _ Hd').
  - done.
  - exists s. unfold get_owned, session_where, owned. rewrite Hr, bool_decide_true by done.
    rewrite (proj2 (decode_session_ok r s) Hd). split; [done|].
    rewrite (proj1 (dec_token_revision _ _ Hd')), (proj1 (dec_token_revision _ _ Hd)), Hst, (dec_expires _ _ Hd'),
      (dec_expires _ _ Hd). by split_and!.
  - intros Ha. apply (verify_usable later session_id _ now db' r' (grant_session g)); try done; congruence.
  - intros k row Hrow Hid Hnow. specialize (Hreplays _ _ Hrow).
    rewrite bool_decide_true, (proj2 (Z.ltb_lt _ _) Hnow) in Hreplays by done. cbn [andb] in Hreplays.
    destruct Hreplays as (tr & (row0 & i & resp & Hrow0 & _ & _ & Henc & Hnew) & Htr).
    assert (row0 = row) as -> by congruence.
    apply (replay_answers later o k _ now db' _ r' (grant_session g) _ _ Hnew eq_refl Hnow
      (replay_reads_back crypto later _ _ _ d i _ _ Hready Hrel Hdr Henc)); try done; cbn; congruence.
Qed.

Lemma sql_add_in_range a b c : sql_add a b = Ok c -> i64_checked_add a b = Some c.
Proof. unfold sql_add. by intros ?%ok_or_ok. Qed.

(** what the two or three UPDATEs of a recovery leave alone *)
Lemma recovered_row a r r1 th tr e m p src ri fi r' :
  moved_row a r r1 ->
  set_recovered th tr e m p src ri fi r1 = Ok r' ->
  row_owner r' = row_owner r /\ row_encrypted_item_snapshot r' = row_encrypted_item_snapshot r /\
  row_encrypted_descriptor r' = e /\ row_token_hash r' = th /\ row_expires_at r' = row_expires_at r /\
  row_hard_expires_at r' = row_hard_expires_at r /\ row_delivery_mode r' = m /\ row_protocol r' = p /\
  row_source_index r' = src /\ row_remux_job_id r' = None /\
  row_control_fencing_token r' = row_control_fencing_token r.
Proof. intros (r0 & Hr0 & Hr1) Hset. destruct a; subst; set_inv; cbn; by subst. Qed.

Lemma recovered_revision a r r1 th tr e m p src ri fi r' :
  moved_row a r r1 -> (0 < row_revision r)%Z -> set_recovered th tr e m p src ri fi r1 = Ok r' ->
  RecoveryAction.success_revision a (row_revision r) = Some (row_revision r').
Proof.
  intros (r0 & Hr0 & Hr1) Hpos Hset. unfold set_recovered, set_state in *. ok_inv.
  match goal with Hx : sql_add (row_revision r1) 1 = Ok _ |- _ =>
    pose proof (sql_add_ok _ _ _ Hx); apply sql_add_in_range in Hx; rename Hx into Hlast end.
  match goal with Hx : sql_add (row_revision r) 1 = Ok _ |- _ => pose proof (sql_add_ok _ _ _ Hx) end.
  unfold RecoveryAction.success_revision, i64_checked_add in *. destruct a; subst; ok_inv; cbn in *;
    repeat match goal with Hx : sql_add _ _ = Ok _ |- _ => apply sql_add_ok in Hx; subst end;
    repeat case_match; try done; bool_hyps; try (f_equal; lia); simplify_eq; lia.
Qed.

(** A successful recovery.  Replacing the source of a session by a refresh or a failover leaves it
    [Ready] under the protocol, delivery mode and source that were given, without a remux job, at exactly the
    revision [RecoveryAction::success_revision] announces and one recovery of its kind later; the returned
    token is accepted and the stored descriptor is the new one. *)
Theorem recovery_replaces_source crypto later d i db g db' :
  ready crypto -> related crypto later -> draws_ok d -> replace_for_recovery crypto d i db = Ok (g, db') ->
  let s := grant_session g in
  (exists s0, get_owned (rr_owner i) (rr_session_id i) db = Ok (Some s0) /\
     revision s0 = rr_expected_revision i /\
     RecoveryAction.success_revision (rr_action i) (revision s0) = Some (revision s) /\
     token_revision s = (token_revision s0 + 1)%Z /\
     (refresh_count s, failover_count s) = match rr_action i with
       | Refresh => (refresh_count s0 + 1, failover_count s0)%Z
       | Failover => (refresh_count s0, failover_count s0 + 1)%Z end) /\
  state s = Ready /\ delivery_mode s = rr_delivery_mode i /\ session_protocol s = rr_protocol i /\
  source_index s = rr_source_index i /\ remux_job_id s = None /\
  (account_session_valid (rr_owner i) (rr_now i) db' = true ->
     verify_delivery_token later (rr_session_id i) (grant_token g) (rr_now i) db' = Ok s) /\
  (forall secrets, decrypt_secrets later (rr_owner i) (rr_session_id i) db = Ok secrets ->
     decrypt_secrets later (rr_owner i) (rr_session_id i) db' =
       Ok {| mat_item_snapshot := mat_item_snapshot secrets; mat_descriptor := rr_descriptor i |}).
Proof.
  intros Hready Hrel Hdr Hrec. cbn zeta.
  apply replace_for_recovery_replaces in Hrec as [(r & s & r' & Hm & (Hcan & r1 & ctx & e & th & Hmoved & Hctx & Henc
    & Htok & Hth & Hset) & _ & Hd' & Hs) Hlease].
  destruct (token_accepted crypto later d _ th Hready Hrel Hdr Htok Hth) as [Hv _].
  destruct (recovered_row _ _ _ _ _ _ _ _ _ _ _ _ Hmoved Hset) as (Ho' & Hsn' & He' & Hh' & Hex' & Hhd' & Hmo' & Hpr'
    & Hsrc' & Hjob' & Hf').
  pose proof (mutable_state _ _ _ _ _ _ _ _ Hm) as Hstate.
  destruct Hm as [Hr Ho Hd Hrev Hf Hact Hlive Hexp Hhard].
  pose proof (recovered_revision _ _ _ _ _ _ _ _ _ _ _ _ Hmoved (proj2 (dec_revision _ _ Hd)) Hset) as Hsucc.
  eapply recovered_step_ok in Hset as (_ & Hst' & _ & Hrf' & Hfo' & Htr'); [|done..].
  assert (db_sessions db' !! rr_session_id i = Some r') as Hr' by by rewrite Hs, lookup_insert_eq.
  assert (state (grant_session g) = Ready) as Hready'.
  { pose proof (dec_state _ _ Hd') as Hx. rewrite Hst' in Hx. by injection Hx. }
  split_and!.
  - exists s. unfold get_owned, session_where, owned. rewrite Hr, bool_decide_true by done.
    rewrite (proj2 (decode_session_ok r s) Hd).
    rewrite (proj1 (dec_token_revision _ _ Hd')), (proj1 (dec_token_revision _ _ Hd)), (proj1 (dec_revision _ _ Hd)),
      (proj1 (dec_revision _ _ Hd')), (proj1 (dec_refreshes _ _ Hd)), (proj1 (dec_refreshes _ _ Hd')),
      (proj1 (dec_failovers _ _ Hd)), (proj1 (dec_failovers _ _ Hd')), Hrf', Hfo'.
    split_and!; try done. destruct (rr_action i); cbn; f_equal; lia.
  - done.
  - pose proof (dec_mode _ _ Hd') as Hx. rewrite Hmo', DeliveryMode_as_str_try_from in Hx. by injection Hx.
  - pose proof (dec_protocol _ _ Hd') as Hx. rewrite Hpr', SessionProtocol_as_str_try_from in Hx. by injection Hx.
  - by rewrite (proj1 (dec_source _ _ Hd')).
  - by rewrite (dec_job _ _ Hd').
  - intros Ha. apply (verify_usable later _ _ _ db' r' (grant_session g)); try done; try congruence.
    apply expired_at_false. rewrite Hready', (dec_expires _ _ Hd'), (dec_hard _ _ Hd'), Hex', Hhd'. done.
  - intros secrets Hsec. unfold decrypt_secrets in Hsec. ok_inv.
    match goal with Hw : session_where _ _ _ = Some _ |- _ => apply session_where_some in Hw as [Hw _] end.
    simplify_eq. apply (secrets_of later _ _ db' r' (grant_session g)); try done; [congruence|by rewrite Hready'| |].
    + by rewrite Hsn'.
    + by eapply (column_reads_back crypto).
Qed.

Lemma failed_row r st1 r1 st e ri fi r' :
  set_state st1 r = Ok r1 -> set_recovery_failed st e ri fi r1 = Ok r' ->
  row_state r' = st /\ row_refresh_count r' = (row_refresh_count r + ri)%Z /\
  row_failover_count r' = (row_failover_count r + fi)%Z /\ row_token_revision r' = row_token_revision r /\
  row_delivery_mode r' = row_delivery_mode r /\ row_protocol r' = row_protocol r /\
  row_source_index r' = row_source_index r /\ row_remux_job_id r' = row_remux_job_id r /\
  ((0 < row_revision r)%Z -> forall a, RecoveryAction.failure_revision a (row_revision r) = Some (row_revision r')).
Proof.
  unfold set_state, set_recovery_failed. intros H1 H2. ok_inv. cbn in *.
  match goal with Hx : sql_add ?a 1 = Ok ?b, Hy : sql_add ?b 1 = Ok _ |- _ =>
    pose proof (sql_add_ok _ _ _ Hx); pose proof (sql_add_ok _ _ _ Hy); apply sql_add_in_range in Hy; rename Hy into Hlast end.
  repeat match goal with Hx : sql_add _ _ = Ok _ |- _ => apply sql_add_ok in Hx; subst end.
  split_and!; try done. intros Hpos a. unfold RecoveryAction.failure_revision. rewrite <- Hlast.
  unfold i64_checked_add. cbn. replace (row_revision r + 1 + 1)%Z with (row_revision r + 2)%Z by lia. done.
Qed.

(** A failed recovery.  Recording a failure brings the session back to [Playing] when it was playing and
    to [Ready] otherwise, at exactly the revision [RecoveryAction::failure_revision] announces, with one
    recovery of its kind counted; the token, delivery mode, protocol, source and remux job it had are kept. *)
Theorem failed_recovery_resumes crypto d i db mu db' :
  record_recovery_failure crypto d i db = Ok (mu, db') ->
  let s := mut_session mu in
  exists s0, get_owned (rf_owner i) (rf_session_id i) db = Ok (Some s0) /\
    revision s0 = rf_expected_revision i /\
    RecoveryAction.failure_revision (rf_action i) (revision s0) = Some (revision s) /\
    state s = (if bool_decide (state s0 = Playing) then Playing else Ready) /\
    (refresh_count s, failover_count s) = match rf_action i with
       | Refresh => (refresh_count s0 + 1, failover_count s0)%Z
       | Failover => (refresh_count s0, failover_count s0 + 1)%Z end /\
    token_revision s = token_revision s0 /\ delivery_mode s = delivery_mode s0 /\
    session_protocol s = session_protocol s0 /\ source_index s = source_index s0 /\
    remux_job_id s = remux_job_id s0.
Proof.
  intros Hrec. cbn zeta.
  apply record_recovery_failure_replaces in Hrec as (_ & _ & [(r & s & r' & Hm & (Hcan & _ & r1 & e & Hset1 & Hset) & _
    & Hd' & Hs) _]).
  destruct Hm as [Hr Ho Hd Hrev _ _ _ _ _]. exists s.
  unfold get_owned, session_where, owned. rewrite Hr, bool_decide_true by done.
  rewrite (proj2 (decode_session_ok r s) Hd). destruct (failed_row _ _ _ _ _ _ _ _ Hset1 Hset) as (Hst & Hrf & Hfo & Htr &
    Hmo & Hpr & Hsrc & Hjob & Hrange). specialize (Hrange (proj2 (dec_revision _ _ Hd))).
  rewrite (proj1 (dec_token_revision _ _ Hd')), (proj1 (dec_token_revision _ _ Hd)), (proj1 (dec_revision _ _ Hd)),
    (proj1 (dec_revision _ _ Hd')), (proj1 (dec_refreshes _ _ Hd)), (proj1 (dec_refreshes _ _ Hd')),
    (proj1 (dec_failovers _ _ Hd)), (proj1 (dec_failovers _ _ Hd')), (dec_job _ _ Hd), (dec_job _ _ Hd'),
    (proj1 (dec_source _ _ Hd)), (proj1 (dec_source _ _ Hd')), Hrf, Hfo.
  pose proof (dec_mode _ _ Hd) as Hm1. pose proof (dec_mode _ _ Hd') as Hm2.
  pose proof (dec_protocol _ _ Hd) as Hp1. pose proof (dec_protocol _ _ Hd') as Hp2.
  pose proof (dec_state _ _ Hd') as Hs2. rewrite Hst, SessionState_as_str_try_from in Hs2.
  split_and!; try done; try congruence. destruct (rf_action i); cbn; f_equal; lia.
Qed.
End properties.
