(* ===== verification/SessionLifetime.v ===== *)
(** * Capacity, termination, purging, key rotation and the create retries of the session repository *)
From S2P Require Import Prelude Bytes LiveContract SessionTypes Recovery ControlLease Crypto.
From S2P Require Import Vault SessionStore SessionRepo SessionFacts SessionEvolution SessionDemo.
From S2P Require Import SessionGrants.

(** ** Counting *)
Lemma count_sessions_insert p (db db' : Db) id r :
  db_sessions db' = <[id := r]> (db_sessions db) -> db_sessions db !! id = None ->
  (count_sessions p db' <= count_sessions p db + 1)%Z.
Proof.
  intros Hs Hn. unfold count_sessions. rewrite Hs, map_filter_insert. case_decide.
  - rewrite map_size_insert_None; [lia|]. apply map_lookup_filter_None. by left.
  - rewrite delete_id by done. lia.
Qed.

(** ** Reads of a terminal session *)
Section terminal.
Context {R : Type} `{Vault R} `{Texts}.

Lemma terminal_reads (crypto : R) o id token now db r s :
  db_sessions db !! id = Some r -> decodes r s -> SessionState.is_terminal (state s) = true ->
  is_ok (verify_delivery_token crypto id token now db) = false /\
  is_ok (decrypt_secrets crypto o id db) = false.
Proof.
  intros Hr Hd Ht. split.
  - unfold verify_delivery_token, session_where. rewrite Hr. case_match; [|done]. run_ok.
    rewrite (proj2 (decode_session_ok r s) Hd). run_ok. unfold expired_at. by rewrite Ht.
  - unfold decrypt_secrets, session_where. rewrite Hr. case_match; [|done]. run_ok.
    unfold parse_state. rewrite (dec_state _ _ Hd). run_ok. by rewrite Ht.
Qed.

Lemma terminate_again (crypto : R) d o id n c reason now db r s :
  db_sessions db !! id = Some r -> row_owner r = o -> decodes r s ->
  SessionState.is_terminal (state s) = true -> validate_terminal_reason reason = Ok () ->
  (1 <= c)%Z -> fence_active c now (db_lease db) = true ->
  exists db', terminate crypto d o id n c reason now db =
    Ok ({| mut_session := s; previous_revision := revision s |}, db') /\ db_sessions db' = db_sessions db.
Proof.
  intros Hr Ho Hd Ht Hv Hc Hf. unfold terminate. rewrite (tx_lift _ _ _ _ Hv).
  rewrite (tx_then _ _ _ () db).
  2:{ unfold assert_active_fence. rewrite tx_pass by (by apply Z.ltb_ge). rewrite tx_read. by rewrite Hf. }
  rewrite (tx_then _ _ _ s db).
  2:{ unfold load_owned_record, load_owned. rewrite (tx_then _ _ _ r db).
      - unfold lift. by rewrite (proj2 (decode_session_ok r s) Hd).
      - rewrite tx_read. unfold session_where, owned. by rewrite Hr, bool_decide_true. }
  rewrite Ht. by eexists.
Qed.
End terminal.

(** ** Retries *)
Section retries.
Context (attempt : nat -> Db -> result SessionRepositoryError SessionGrant * Db).

(** the database before the [n]-th attempt, when all the earlier ones were made *)
Fixpoint before_attempt (start n : nat) (db : Db) : Db :=
  match n with
  | 0 => db
  | S n => before_attempt (S start) n (attempt start db).2
  end.
Definition transient (r : result SessionRepositoryError SessionGrant * Db) : bool :=
  match r.1 with Err (Storage m) => transient_database_conflict m | _ => false end.

Lemma create_loop_succ k start db :
  create_loop (S k) start attempt db =
    if transient (attempt start db) then create_loop k (S start) attempt (attempt start db).2
    else attempt start db.
Proof.
  cbn [create_loop]. unfold transient. destruct (attempt start db) as [[g|[]] db1]; try done.
Qed.

Lemma create_loop_attempts remaining start db :
  exists n, n <= remaining /\
    create_loop remaining start attempt db = attempt (start + n) (before_attempt start n db) /\
    (forall m, m < n -> transient (attempt (start + m) (before_attempt start m db)) = true) /\
    (n < remaining -> transient (attempt (start + n) (before_attempt start n db)) = false).
Proof.
  revert start db. induction remaining as [|k IH]; intros start db.
  - exists 0. rewrite Nat.add_0_r. split_and!; [lia|done|lia|lia].
  - destruct (transient (attempt start db)) eqn:Ht.
    + destruct (IH (S start) (attempt start db).2) as (n & Hle & Heq & Hall & Hlast). exists (S n).
      rewrite Nat.add_succ_r. split_and!; [lia| | |].
      * by rewrite create_loop_succ, Ht.
      * intros [|m] Hm; [by rewrite Nat.add_0_r|]. rewrite Nat.add_succ_r. apply Hall. lia.
      * intros Hn. apply Hlast. lia.
    + exists 0. rewrite Nat.add_0_r. split_and!; [lia| |lia|done]. by rewrite create_loop_succ, Ht.
Qed.
End retries.

(** ** Patterns *)
(** [pattern] matched byte by byte: ['_'] is any byte *)
Definition like_byte (fold : bool) (p c : ascii) : bool :=
  Ascii.eqb p "_"%char || (if fold then Ascii.eqb (lower_byte p) (lower_byte c) else Ascii.eqb p c).
Fixpoint like_prefix (fold : bool) (p s : string) : bool :=
  match p, s with
  | EmptyString, _ => true
  | String a p', String b s' => like_byte fold a b && like_prefix fold p' s'
  | String _ _, EmptyString => false
  end.

Lemma sql_like_any fold s : sql_like fold "%" s = true.
Proof. induction s as [|c s IH]; [done|]. exact IH. Qed.
Lemma contains_char_cons c a p : contains_char c (String a p) = Ascii.eqb c a || contains_char c p.
Proof. done. Qed.
Lemma sql_like_prefix fold p s :
  contains_char "%" p = false -> sql_like fold (p +:+ "%") s = like_prefix fold p s.
Proof.
  revert s. induction p as [|a p IH]; intros s Hp; [apply sql_like_any|].
  rewrite str_app_cons. rewrite contains_char_cons in Hp. apply orb_false_iff in Hp as [Ha Hp].
  rewrite Ascii.eqb_sym in Ha. destruct s as [|c s]; cbn [sql_like like_prefix]; rewrite Ha; [done|].
  by rewrite IH.
Qed.
Lemma like_prefix_exact p s :
  contains_char "_" p = false -> like_prefix false p s = starts_with p s.
Proof.
  unfold starts_with. revert s. induction p as [|a p IH]; intros [|c s] Hp; try done.
  rewrite contains_char_cons in Hp. apply orb_false_iff in Hp as [Ha Hp]. rewrite Ascii.eqb_sym in Ha.
  cbn [like_prefix String.prefix]. unfold like_byte. rewrite Ha. cbn [orb].
  destruct (Ascii.eqb_spec a c) as [->|Hne]; destruct (ascii_dec _ _); try done. by apply IH.
Qed.

Lemma terminated_row reason h sn de now r r' :
  set_terminated reason h sn de now r = Ok r' ->
  row_owner r' = row_owner r /\ row_state r' = SessionState.as_str (reason_state reason) /\
  row_ended_at r' = Some now /\ row_revision r' = (row_revision r + 1)%Z /\
  sn = row_encrypted_item_snapshot r' /\ de = row_encrypted_descriptor r'.
Proof. intros Hset. by set_inv. Qed.
Lemma reencrypted_row sn de r r' :
  set_envelopes sn de r = Ok r' ->
  row_owner r' = row_owner r /\ row_state r' = row_state r /\
  row_encrypted_item_snapshot r' = sn /\ row_encrypted_descriptor r' = de.
Proof. intros Hset. by set_inv. Qed.

(** ** Properties *)
Section properties.
Context {R : Type} `{HL : VaultLaws R ready related} `{TL : TextsLaws}.
Implicit Types crypto later : R.

(** C8: termination.  Terminating a live session moves it to the terminal state of the reason at the next
    revision, with its end time, and replaces both stored secrets by encryptions of the empty text; whether
    or not it was terminal already, afterwards no idempotent replay of it is left, no delivery token of any
    kind is accepted for it and nobody can read secrets from it, under any key ring; and terminating it
    again, with whatever revision and reason, succeeds and leaves it as it is. *)
Theorem termination_is_final crypto later d o session_id n c reason now db mu db' :
  ready crypto -> related crypto later -> draws_ok d ->
  terminate crypto d o session_id n c reason now db = Ok (mu, db') ->
  let s := mut_session mu in
  (forall s0, get_owned o session_id db = Ok (Some s0) -> SessionState.is_terminal (state s0) = false ->
     state s = reason_state reason /\ ended_at s = Some now /\ revision s = (n + 1)%Z /\ revision s0 = n /\
     exists r, db_sessions db' !! session_id = Some r /\
       decrypt_column later ItemSnapshot session_id "encrypted_item_snapshot" (row_encrypted_item_snapshot r) = Ok "" /\
       decrypt_column later Descriptor session_id "encrypted_descriptor" (row_encrypted_descriptor r) = Ok "") /\
  SessionState.is_terminal (state s) = true /\
  (forall key row, db_replays db' !! key = Some row -> rp_session_id row <> session_id) /\
  (forall (ring : R) o2 token t, is_ok (verify_delivery_token ring session_id token t db') = false /\
     is_ok (decrypt_secrets ring o2 session_id db') = false) /\
  (forall d2 n2 c2 reason2 t, validate_terminal_reason reason2 = Ok () -> (1 <= c2)%Z ->
     fence_active c2 t (db_lease db') = true ->
     exists db'', terminate crypto d2 o session_id n2 c2 reason2 t db' =
       Ok ({| mut_session := s; previous_revision := revision s |}, db'') /\
       db_sessions db'' = db_sessions db').
Proof.
  intros Hready Hrel Hdr Ht. cbn zeta.
  apply terminate_ok in Ht as (Hreason & _ & Hrep & _ & r & s & Hr & Ho & Hd & Ht).
  assert (forall s0, get_owned o session_id db = Ok (Some s0) -> s0 = s) as Hget.
  { intros s0. unfold get_owned, session_where, owned. rewrite Hr, bool_decide_true by done.
    rewrite (proj2 (decode_session_ok r s) Hd). by intros [= <-]. }
  assert (exists r', db_sessions db' !! session_id = Some r' /\ row_owner r' = o /\ decodes r' (mut_session mu) /\
    SessionState.is_terminal (state (mut_session mu)) = true) as (r' & Hr' & Ho' & Hd' & Hterm).
  { destruct (SessionState.is_terminal (state s)) eqn:Hs.
    - destruct Ht as (-> & _ & ->). by exists r.
    - destruct Ht as (_ & _ & _ & r' & ? & ? & sn & de & tok & th & _ & _ & _ & _ & _ & _ & Hset & _ & Hd' & Hdb).
      destruct (terminated_row _ _ _ _ _ _ _ Hset) as (Hown & Hst & _).
      exists r'. rewrite Hdb, lookup_insert_eq. split_and!; [done|congruence|done|].
      pose proof (dec_state _ _ Hd') as Hst'. rewrite Hst, SessionState_as_str_try_from in Hst'. injection Hst' as <-.
      unfold validate_terminal_reason in Hreason. ok_inv. by bool_hyps. }
  split_and!.
  - intros s0 ->%Hget Hlive. rewrite Hlive in Ht.
    destruct Ht as (Hrev & _ & _ & r2 & ctx1 & ctx2 & sn & de & tok & th & Hc1 & Hc2 & He1 & He2 & _ & _ & Hset & _ & Hd2
      & Hdb).
    destruct (terminated_row _ _ _ _ _ _ _ Hset) as (_ & Hst & Hend & Hrev2 & -> & ->).
    rewrite Hdb, lookup_insert_eq in Hr'. injection Hr' as ->.
    rewrite (proj1 (dec_revision _ _ Hd')), (proj1 (dec_revision _ _ Hd)), (dec_ended _ _ Hd'), Hend, Hrev2.
    pose proof (dec_state _ _ Hd') as Hst'. rewrite Hst, SessionState_as_str_try_from in Hst'.
    injection Hst' as Hst'. split_and!; [done|done|lia|done|]. exists r'. split; [by rewrite Hdb, lookup_insert_eq|].
    split; by eapply (column_reads_back crypto).
  - done.
  - by intros key row [_ Hne]%Hrep.
  - intros ring o2 token t. by eapply terminal_reads.
  - intros d2 n2 c2 reason2 t Hv Hc Hf. by eapply terminate_again.
Qed.

(** Capacity.  A creation that opened a new session leaves at most [server_total] active sessions and at
    most [per_user] active sessions of its user. *)
Theorem creation_respects_capacity crypto limits d input hashes db session_id token db' :
  create_tx crypto limits d input hashes db = Ok (Created session_id token, db') ->
  (count_sessions (active_row (new_now input)) db' <= server_total limits)%Z /\
  (count_sessions (fun r => active_row (new_now input) r
     && bool_decide (user_id (row_owner r) = user_id (new_owner input))) db' <= per_user limits)%Z.
Proof.
  intros (_ & _ & _ & Hserver & Huser & _ & _ & row & th & _ & _ & Hnone & _ & Hs & _)%create_tx_created.
  split; (etrans; [by apply (count_sessions_insert _ _ _ _ _ Hs)|]); lia.
Qed.

(** Re-encryption keeps the secrets.  The batch reads a session, other calls may run, then its envelopes
    are re-encrypted.  If that commits, the owner reads the same secrets as before, also under the rotated
    ring: the revision check makes sure that the envelopes re-encrypted are the current ones. *)
Theorem reencryption_keeps_secrets crypto later d s selected c now earlier db changed count db' secrets :
  ready crypto -> related crypto later -> draws_ok d -> db_inv earlier ->
  db_sessions earlier !! id s = Some selected -> decodes selected s ->
  rtc (keeping (R:=R) (id s)) earlier db ->
  reencrypt_session_values crypto d s selected c now db = Ok (changed, count, db') -> changed = true ->
  decrypt_secrets crypto (owner s) (id s) db = Ok secrets ->
  decrypt_secrets later (owner s) (id s) db' = Ok secrets.
Proof.
  intros Hready Hrel Hdr Hinv Hsel Hds Hrun Hre -> Hsec.
  apply reencrypt_session_values_ok in Hre
    as (_ & _ & _ & ctx1 & ctx2 & sn & de & Hc1 & Hc2 & He1 & He2 & r & r' & Hr & Hrev & _ & _ & Hset & Hck & Hdb).
  destruct (run_history _ _ _ _ Hinv Hrun Hsel) as (r0 & Hr0 & Hh). assert (r0 = r) as -> by congruence.
  assert (set_job (row_remux_job_id r) (set_binding (row_egress_binding_id r) selected) = Ok r) as Hsame.
  { apply (hi_same _ _ Hh). rewrite Hrev. apply (dec_revision _ _ Hds). }
  assert (row_encrypted_item_snapshot r = row_encrypted_item_snapshot selected /\
    row_encrypted_descriptor r = row_encrypted_descriptor selected) as [Hs1 Hs2].
  { clear -Hsame. unfold set_job in Hsame. injection Hsame as <-. done. }
  destruct (draws_nonces _ Hdr 0) as (n0 & Hn0 & Hl0). destruct (draws_nonces _ Hdr 1) as (n1 & Hn1 & Hl1).
  rewrite Hn0 in He1. rewrite Hn1 in He2. rewrite <- Hs1 in He1. rewrite <- Hs2 in He2.
  destruct (reencrypted_row _ _ _ _ Hset) as (Ho' & Hst' & Hsn' & Hde').
  unfold decrypt_secrets in *. unfold session_where, owned in *. rewrite Hr in Hsec.
  rewrite Hdb, lookup_insert_eq, Ho'. case_match; [|by cbn in Hsec]. cbn [ok_or mbind result_bind] in *.
  rewrite Hst'. destruct (parse_state (row_state r)); [|done]. cbn [mbind result_bind] in *.
  destruct (reject_if _ _); [|done]. cbn [mbind result_bind] in *.
  unfold decrypt_column in *. rewrite Hc1, Hc2, Hsn', Hde' in *. cbn [mbind result_bind map_err] in *. ok_inv.
  repeat match goal with Hm : map_err _ ?m = Ok _ |- _ => destruct m eqn:?; cbn in Hm; ok_inv end.
  unfold session_context in *.
  match goal with H1 : vault_decrypt crypto ctx1 _ = Ok _, H2 : vault_decrypt crypto ctx2 _ = Ok _ |- _ =>
    rewrite (law_reencrypt crypto later _ _ _ _ ctx1 n0 _ _ _ Hready Hrel Hc1 Hl0 H1 He1),
      (law_reencrypt crypto later _ _ _ _ ctx2 n1 _ _ _ Hready Hrel Hc2 Hl1 H2 He2) end.
  done.
Qed.
End properties.

(** Purging deletes only sessions that are terminal and ended at least seven days ago; every other
    session is exactly as it was, and purging needs the active control fence. *)
Theorem purge_deletes_old_terminal_sessions db c limit now counts db' id r :
  db_inv db -> purge c limit now db = Ok (counts, db') -> db_sessions db !! id = Some r ->
  fence_active c now (db_lease db) = true /\
  (db_sessions db' !! id = Some r \/
   db_sessions db' !! id = None /\
   exists s e, decode_session r = Ok s /\ SessionState.is_terminal (state s) = true /\ ended_at s = Some e /\
     (e + seconds 604800 <= now)%Z).
Proof.
  intros Hi Hp Hr. destruct (purge_ok c limit now db counts db' (db_inv_keyed _ Hi) Hp) as (Hf & _ & Hall & _).
  split; [done|]. destruct (Hall id r Hr) as [|(Hn & Ht & e & He & Hle)]; [by left|right]. split; [done|].
  destruct (ri_decodes _ _ (Hi id r Hr)) as [s Hd]. exists s, e. split; [by apply decode_session_ok|].
  rewrite <- (terminal_name_spec _ _ (dec_state _ _ Hd)), (dec_ended _ _ Hd). split_and!; try done.
  unfold seconds, TERMINAL_RETENTION_SECONDS in *. lia.
Qed.

(** The retry loop of a creation ends.  It makes at most eight attempts; its result is that of the last
    one it made, all the earlier ones having failed with a transient database conflict; and before the
    eighth it goes on only after such a conflict. *)
Theorem creation_retries_bounded attempt db :
  exists n, n < CREATE_RETRIES /\
    create_loop (CREATE_RETRIES - 1) 0 attempt db = attempt n (before_attempt attempt 0 n db) /\
    (forall m, m < n -> transient (attempt m (before_attempt attempt 0 m db)) = true) /\
    (n < CREATE_RETRIES - 1 -> transient (attempt n (before_attempt attempt 0 n db)) = false).
Proof.
  destruct (create_loop_attempts attempt (CREATE_RETRIES - 1) 0 db) as (n & Hle & Heq & Hall & Hlast).
  exists n. unfold CREATE_RETRIES in *. split_and!; [lia|done|done|done].
Qed.

(** *** What the rotation count sees *)
Definition key_prefix (key_id : string) : string := "elx-live:v1:" +:+ key_id +:+ ":".
Definition under_key (key_id envelope : string) : bool := starts_with (key_prefix key_id) envelope.
Definition retained (now : instant) (r : SessionRow) : Prop :=
  live_row r = true /\ (now < row_hard_expires_at r)%Z.

Lemma not_like_exact key_id envelope :
  is_ok (validate_live_key_id key_id) = true -> contains_char "_" key_id = false ->
  not_like false envelope key_id = negb (under_key key_id envelope).
Proof.
  intros Hk Hu. unfold not_like, under_key, key_prefix, primary_pattern. f_equal.
  unfold validate_live_key_id, validate_key_id in Hk. case_match; [done|]. case_match; [done|].
  match goal with Hx : negb (all_bytes _ _) = false |- _ => apply negb_false_iff in Hx; rename Hx into Hall end.
  replace ("elx-live:v1:" +:+ key_id +:+ ":%") with (("elx-live:v1:" +:+ key_id +:+ ":") +:+ "%")
    by (by rewrite !str_app_assoc).
  assert (contains_char "%" key_id = false) as Hp.
  { rewrite <- Bool.negb_true_iff. unfold contains_char. rewrite <- all_bytes_not_any.
    apply (all_bytes_impl key_id_byte); [|done]. intros x Hx. destruct (Ascii.eqb_spec "%" x) as [<-|]; done. }
  rewrite sql_like_prefix, like_prefix_exact; [done|..]; unfold contains_char in *; by rewrite !any_byte_app, ?Hu, ?Hp.
Qed.

Lemma size_filter_zero `{Countable K} {A} (p : A -> bool) (m : gmap K A) :
  size (filter (fun kv : K * A => p kv.2 = true) m) = 0 <-> forall k x, m !! k = Some x -> p x = false.
Proof.
  rewrite map_size_empty_iff. split.
  - intros He k x Hx. destruct (p x) eqn:Hp; [|done].
    assert (filter (fun kv : K * A => p kv.2 = true) m !! k = Some x) as Hf by by apply map_lookup_filter_Some.
    by rewrite He, lookup_empty in Hf.
  - intros Hall. apply map_empty. intros k. apply map_lookup_filter_None. right. intros x Hx. cbn.
    by rewrite (Hall k x Hx).
Qed.

Lemma stale_session_false key_id now r :
  is_ok (validate_live_key_id key_id) = true -> contains_char "_" key_id = false ->
  stale_session false key_id now r = false <->
  (retained now r -> under_key key_id (row_encrypted_item_snapshot r) = true /\
     under_key key_id (row_encrypted_descriptor r) = true).
Proof.
  intros Hk Hu. unfold stale_session, retained. rewrite !not_like_exact by done.
  destruct (live_row r), (Z.ltb_spec now (row_hard_expires_at r)),
    (under_key key_id (row_encrypted_item_snapshot r)), (under_key key_id (row_encrypted_descriptor r));
    cbn; naive_solver lia.
Qed.
Lemma stale_replay_false key_id now db row r :
  is_ok (validate_live_key_id key_id) = true -> contains_char "_" key_id = false ->
  db_sessions db !! rp_session_id row = Some r ->
  stale_replay false key_id now db row = false <->
  ((now < rp_expires_at row)%Z -> retained now r -> under_key key_id (rp_encrypted_response row) = true).
Proof.
  intros Hk Hu Hr. unfold stale_replay, retained. rewrite Hr, !not_like_exact by done. cbn [is_some_and].
  destruct (live_row r), (Z.ltb_spec now (row_hard_expires_at r)), (Z.ltb_spec now (rp_expires_at row)),
    (under_key key_id (rp_encrypted_response row)); cbn; naive_solver lia.
Qed.

(** The count of envelopes still to rotate.  On a database whose LIKE compares case, and for a key id
    without an underscore, the count is zero exactly when every envelope of a live session, and every
    unexpired replay of one, is under that key. *)
Theorem rotation_count_exact key_id now db n :
  contains_char "_" key_id = false ->
  count_active_envelopes_not_using false key_id now db = Ok n ->
  n = 0%Z <->
  (forall id r, db_sessions db !! id = Some r -> retained now r ->
     under_key key_id (row_encrypted_item_snapshot r) = true /\ under_key key_id (row_encrypted_descriptor r) = true) /\
  (forall key row r, db_replays db !! key = Some row -> (now < rp_expires_at row)%Z ->
     db_sessions db !! rp_session_id row = Some r -> retained now r ->
     under_key key_id (rp_encrypted_response row) = true).
Proof.
  intros Hu. unfold count_active_envelopes_not_using. intros Hc. ok_inv.
  destruct (validate_live_key_id key_id) as [[]|] eqn:Hk; [|done].
  assert (is_ok (validate_live_key_id key_id) = true) as Hok by by rewrite Hk.
  unfold count_sessions. rewrite <- Nat2Z.inj_add. change 0%Z with (Z.of_nat 0). rewrite Nat2Z.inj_iff, Nat.eq_add_0.
  rewrite !size_filter_zero. f_equiv.
  - split; intros Hall id r Hr; specialize (Hall id r Hr); by apply stale_session_false.
  - split.
    + intros Hall key row r Hrow Hnow Hr.
      exact (proj1 (stale_replay_false key_id now db row r Hok Hu Hr) (Hall key row Hrow) Hnow).
    + intros Hall key row Hrow. destruct (db_sessions db !! rp_session_id row) as [r|] eqn:Hr.
      * apply (stale_replay_false key_id now db row r Hok Hu Hr). intros. by eapply Hall.
      * unfold stale_replay. by rewrite Hr.
Qed.

(** ** Witnesses *)
Module LifetimeWitness.
Import World.

(** [LIKE]'s ['_'] is a wildcard and SQLite folds case: every envelope of this database is under the key
    "k1", and the count of envelopes that still have to be rotated to the configurable keys "k_" (any
    database) and "K1" (SQLite) is zero. *)
Lemma rotation_count_misses_keys :
  count_active_envelopes_not_using false "k_" (seconds 20) ready = Ok 0%Z /\
  count_active_envelopes_not_using true "K1" (seconds 20) ready = Ok 0%Z /\
  exists r, db_sessions ready !! 100%N = Some r /\ retained (seconds 20) r /\
    under_key "k1" (row_encrypted_item_snapshot r) = true /\
    under_key "k_" (row_encrypted_item_snapshot r) = false /\
    under_key "K1" (row_encrypted_item_snapshot r) = false.
Proof. vm_compute. split_and!; [done..|]. eexists. by split_and!. Qed.
End LifetimeWitness.
