(* ===== verification/SessionWitness.v ===== *)
(** * The session properties at concrete inputs: the world of [SessionDemo] and the key ring of [Crypto] *)
From S2P Require Import Prelude Bytes LiveContract SessionTypes Recovery ControlLease Crypto.
From S2P Require Import Vault SessionStore SessionRepo SessionFacts SessionEvolution SessionDemo.
From S2P Require Import SessionSafety SessionGrants SessionLifetime.
Import World.

Notation ring := Demo.ring.
Notation rotated := Demo.rotated.

Lemma ring_related : same_keys ring rotated.
Proof. by split. Qed.
Lemma ring_self : same_keys ring ring.
Proof. by split. Qed.
Lemma rotated_related : same_keys rotated ring.
Proof. by split. Qed.
Lemma demo_draws id : draws_ok (draws id).
Proof. split; [intros n|]; by eexists. Qed.
Lemma row_present db : is_some_b (db_sessions db !! 100%N) = true -> exists r, db_sessions db !! 100%N = Some r.
Proof. destruct (db_sessions db !! 100%N) as [r|]; [by exists r|done]. Qed.

Lemma creation : create_tx ring limits (draws 100) input hashes start = Ok (Created 100%N first_token, created).
Proof. apply (runs created_tx). vm_compute. reflexivity. Qed.

Lemma created_session_usable_witness :
  is_ok (verify_delivery_token rotated 100 first_token (seconds 30) created) = true /\
  decrypt_secrets rotated owner 100 created =
    Ok {| mat_item_snapshot := "snapshot"; mat_descriptor := "descriptor" |}.
Proof.
  destruct (created_session_usable (H:=crypto_vault) (ready:=ring_wf) (related:=same_keys) (T:=texts) ring rotated limits (draws 100) input hashes
    start 100 first_token created (seconds 30) Demo.ring_is_wf ring_related (demo_draws 100)
    ltac:(vm_compute; discriminate) creation ltac:(vm_compute; reflexivity) ltac:(vm_compute; reflexivity)
    ltac:(vm_compute; reflexivity) ltac:(vm_compute; reflexivity)) as [(s & Hv & _) Hd].
  split; [by rewrite Hv|exact Hd].
Defined.

(** *** A retry, after two state moves and a key rotation *)
Definition retry : NewSession :=
  {| new_owner := owner; new_item_key := "item"; new_stream_option_key := "option";
     new_item_snapshot := "snapshot"; new_descriptor := "descriptor"; new_delivery_mode := ServerRemux;
     new_protocol := PHls; new_source_index := 0; new_control_fencing_token := 7; new_now := seconds 40 |}.
Definition demo_hashes : string * string := default ("", "") hashes.
Lemma creation_keyed :
  create_tx ring limits (draws 100) input (Some (demo_hashes.1, demo_hashes.2)) start =
    Ok (Created 100%N first_token, created).
Proof.
  assert (hashes = Some (demo_hashes.1, demo_hashes.2)) as <- by (vm_compute; reflexivity). exact creation.
Qed.

Lemma decoded db r : db_sessions db !! 100%N = Some r -> is_ok (decode_session r) = true -> exists s, decodes r s.
Proof.
  intros _ Hd. destruct (decode_session r) as [s|e] eqn:Hs; [|done]. exists s. by apply decode_session_ok.
Qed.
(** evaluate what is known of the row of a computed database *)
Ltac row_fact H := vm_compute in H; injection H as <-; vm_compute; reflexivity.

Lemma ring_hashes_alike : hashes_alike (H:=crypto_vault) ring rotated.
Proof. done. Qed.
Lemma request_hashes : idempotency_hashes ring request = Ok (demo_hashes.1, demo_hashes.2).
Proof. vm_compute. reflexivity. Qed.
(** After the primary key of token hashes was rotated, the hash of the same key is another one: the retry finds no replay. *)
Definition rehashed : LiveCrypto :=
  {| envelope_primary := envelope_primary ring; token_hash_primary := "k2"; envelope_keys := envelope_keys ring;
     token_hash_keys := envelope_keys ring |}.
Lemma rehashed_retry_creates_again :
  match idempotency_hashes rehashed request with
  | Ok hashes2 => hashes2.1 <> demo_hashes.1 /\
      match create_tx rehashed limits (draws 200) retry (Some hashes2) ready with Ok (Created i _, _) => i = 200%N | _ => False end
  | Err _ => False
  end.
Proof. vm_compute. split; [discriminate|reflexivity]. Qed.

(** *** Rotation of the delivery token *)
Definition rotation : tx SessionGrant := rotate_delivery_token ring (draws 1) owner 100 3 7 (seconds 20).
Lemma rotation_regrants_witness :
  exists g db', rotation ready = Ok (g, db') /\ revision (grant_session g) = 4%Z.
Proof.
  destruct (after_ok rotation ready ltac:(vm_compute; reflexivity)) as [g Hg]. pose proof Hg as Hrun.
  unfold rotation at 1 in Hrun. exists g, (after rotation ready).
  split; [exact Hg|].
  destruct (rotation_regrants (H:=crypto_vault) (ready:=ring_wf) (related:=same_keys) (T:=texts) ring rotated (draws 1) owner 100 3 7 (seconds 20)
    ready g (after rotation ready) Demo.ring_is_wf ring_related (demo_draws 1) Hrun) as [Hrev _]. exact Hrev.
Defined.

(** *** Recoveries *)
Definition replacement : SessionRecoveryReplacement :=
  {| rr_owner := owner; rr_session_id := 100; rr_expected_revision := 3; rr_control_fencing_token := 7;
     rr_descriptor := "descriptor 2"; rr_delivery_mode := ServerRelay; rr_protocol := PMpegTs;
     rr_source_index := 1; rr_action := Failover; rr_now := seconds 20 |}.
Definition recovery : tx SessionGrant := replace_for_recovery ring (draws 1) replacement.
Lemma recovery_replaces_source_witness :
  exists g db', recovery ready = Ok (g, db') /\ state (grant_session g) = Ready /\
    delivery_mode (grant_session g) = ServerRelay.
Proof.
  destruct (after_ok recovery ready ltac:(vm_compute; reflexivity)) as [g Hg]. pose proof Hg as Hrun.
  unfold recovery at 1 in Hrun. exists g, (after recovery ready).
  split; [exact Hg|].
  destruct (recovery_replaces_source (H:=crypto_vault) (ready:=ring_wf) (related:=same_keys) (T:=texts) ring rotated (draws 1) replacement
    ready g (after recovery ready) Demo.ring_is_wf ring_related (demo_draws 1) Hrun) as (_ & Hs & Hm & _).
  split; [exact Hs|exact Hm].
Defined.

Definition failure : SessionRecoveryFailure :=
  {| rf_owner := owner; rf_session_id := 100; rf_expected_revision := 3; rf_control_fencing_token := 7;
     rf_descriptor := "descriptor 2"; rf_action := Refresh; rf_now := seconds 20 |}.
Definition failed_recovery : tx SessionMutation := record_recovery_failure ring (draws 1) failure.
Lemma failed_recovery_resumes_witness :
  exists mu db' s0, failed_recovery ready = Ok (mu, db') /\
    get_owned owner 100 ready = Ok (Some s0) /\ token_revision (mut_session mu) = token_revision s0.
Proof.
  destruct (after_ok failed_recovery ready ltac:(vm_compute; reflexivity)) as [mu Hmu]. pose proof Hmu as Hrun.
  unfold failed_recovery at 1 in Hrun.
  destruct (failed_recovery_resumes ring (draws 1) failure ready mu (after failed_recovery ready) Hrun)
    as (s0 & Hs0 & _ & _ & _ & _ & Ht & _).
  exists mu, (after failed_recovery ready), s0. split; [exact Hmu|]. split; [exact Hs0|exact Ht].
Defined.

(** *** Termination, capacity, re-encryption, purging, rotation count *)
Definition ending : tx SessionMutation := terminate ring (draws 1) owner 100 3 7 TerminalReason_ended (seconds 20).
Lemma termination_is_final_witness :
  exists mu, ending ready = Ok (mu, after ending ready) /\ SessionState.is_terminal (state (mut_session mu)) = true.
Proof.
  destruct (after_ok ending ready ltac:(vm_compute; reflexivity)) as [mu Hmu]. pose proof Hmu as Hrun.
  unfold ending at 1 in Hrun. exists mu. split; [exact Hmu|].
  destruct (termination_is_final (H:=crypto_vault) (ready:=ring_wf) (related:=same_keys) (T:=texts) ring rotated
    (draws 1) owner 100 3 7 TerminalReason_ended (seconds 20) ready mu (after ending ready) Demo.ring_is_wf ring_related
    (demo_draws 1) Hrun) as (_ & Ht & _). exact Ht.
Defined.

Lemma creation_respects_capacity_witness :
  (count_sessions (active_row (seconds 10)) created <= 4)%Z.
Proof. apply (creation_respects_capacity ring limits (draws 100) input hashes start 100 first_token created creation). Defined.

Lemma called_twice_inv : db_inv Witness.called_twice.
Proof. exact (run_inv _ _ Witness.start_inv Witness.steps_run). Qed.
Definition purging : tx (Z * Z) := purge 7 10 (seconds 20).
Lemma purge_witness : fence_active 7 (seconds 20) (db_lease Witness.called_twice) = true.
Proof.
  destruct (row_present Witness.called_twice ltac:(by vm_compute)) as [r Hr].
  destruct (after_ok purging Witness.called_twice ltac:(vm_compute; reflexivity)) as [counts Hp].
  pose proof Hp as Hrun. unfold purging at 1 in Hrun.
  destruct (purge_deletes_old_terminal_sessions Witness.called_twice 7 10 (seconds 20) counts _ 100 r called_twice_inv
    Hrun Hr) as [Hf _].
  exact Hf.
Defined.

Lemma rotation_count_exact_witness :
  exists r, db_sessions ready !! 100%N = Some r /\ under_key "k1" (row_encrypted_descriptor r) = true.
Proof.
  assert (count_active_envelopes_not_using false "k1" (seconds 20) ready = Ok 0%Z) as Hc by (vm_compute; reflexivity).
  destruct (row_present ready ltac:(by vm_compute)) as [r Hr]. exists r. split; [exact Hr|].
  assert (retained (seconds 20) r) as Hlive.
  { vm_compute in Hr. injection Hr as <-. split; vm_compute; reflexivity. }
  destruct (rotation_count_exact "k1" (seconds 20) ready 0 eq_refl Hc) as [Hall _].
  destruct (Hall eq_refl) as [Hrows _]. exact (proj2 (Hrows 100%N r Hr Hlive)).
Defined.

Definition rotating (s : SessionRecord) (selected : SessionRow) : tx (bool * Z) :=
  reencrypt_session_values rotated (draws 1) s selected 7 (seconds 20).
Lemma reencryption_keeps_secrets_witness :
  exists s selected out, rotating s selected created = Ok (out, after (rotating s selected) created) /\
    decrypt_secrets ring (SessionTypes.owner s) (id s) (after (rotating s selected) created) =
      Ok {| mat_item_snapshot := "snapshot"; mat_descriptor := "descriptor" |}.
Proof.
  destruct (row_present created ltac:(by vm_compute)) as [r Hr].
  assert (exists s, decode_session r = Ok s /\ is_ok (rotating s r created) = true /\ id s = 100%N /\
    SessionTypes.owner s = World.owner /\ (fst <$> to_option (rotating s r created)) ≫= Some ∘ fst = Some true)
    as (s & Hs & Hok & Hid & Ho & Hch).
  { vm_compute in Hr. injection Hr as <-. eexists. split; [vm_compute; reflexivity|]. vm_compute. auto. }
  destruct (after_ok (rotating s r) created Hok) as [[changed count] Hrun].
  rewrite Hrun in Hch. injection Hch as ->.
  exists s, r, (true, count). split; [exact Hrun|]. unfold rotating at 1 in Hrun. apply decode_session_ok in Hs.
  rewrite <- Hid in Hr.
  apply (reencryption_keeps_secrets (H:=crypto_vault) (ready:=ring_wf) (related:=same_keys) (T:=texts) rotated ring
    (draws 1) s r 7 (seconds 20) created created true count _ _ Demo.rotated_wf rotated_related (demo_draws 1)
    Witness.created_inv Hr Hs (rtc_refl _ _) Hrun eq_refl).
  rewrite Hid, Ho. vm_compute. reflexivity.
Defined.
