(* ===== verification/UpstreamPolicy.v ===== *)
(** * The destination policy of upstream requests (src/src/live/upstream/policy.rs)

    Every URL the server fetches for a session, the first one and each redirect, passes [validate_parsed];
    every address it resolves to passes [resolve_target].  Together they keep provider-chosen URLs away from
    the server's own network.  URL parsing is [Planner.UrlOps]. *)
From S2P Require Import Prelude Bytes Addresses LiveContract EgressPolicy SessionTypes Planner.

Inductive UpstreamErrorCode :=
| InvalidUrl | SchemeForbidden | PortForbidden | HostForbidden | DestinationForbidden | RedirectInvalid
| RedirectLoop | RedirectLimit | RedirectDowngrade | DnsFailed | DnsTimeout | DnsEmpty | DnsMixedScope
| AddressForbidden | PrivateLanUnauthorized | NetworkScopeMismatch | HeaderRejected | CookieRejected
| EgressRejected | PeerUnverified | ConnectTimeout | HeaderTimeout | IdleTimeout | TotalTimeout | Cancelled
| UpstreamConnect | UpstreamProtocol | ResponseHeadersTooLarge | BodyTooLarge | SensitiveResponse.
#[export] Instance UpstreamErrorCode_eq_dec : EqDecision UpstreamErrorCode.
Proof. solve_decision. Defined.

Definition MAX_URL_BYTES : Z := 4096.
Definition MAX_RULES : Z := 256.

(** ** Addresses *)
(** iteration over a [BTreeSet<IpAddr>] *)
Definition btree_set (l : list IpAddr) : list IpAddr := merge_sort ip_le (remove_dups l).

Inductive NetworkScope := ScopePublic | ScopePrivateLan.
#[export] Instance NetworkScope_eq_dec : EqDecision NetworkScope.
Proof. solve_decision. Defined.

Inductive AddressClass := ClassPublic | ClassPrivateLan | ClassForbidden.
#[export] Instance AddressClass_eq_dec : EqDecision AddressClass.
Proof. solve_decision. Defined.

Definition between (lo v hi : Z) : bool := ((lo <=? v) && (v <=? hi))%Z.
Definition classify_v4 (v : Z) : AddressClass :=
  let o := octet v in
  if ((o 0 =? 10) || ((o 0 =? 172) && between 16 (o 1) 31) || ((o 0 =? 192) && (o 1 =? 168)))%Z
  then ClassPrivateLan
  else if ((o 0 =? 0) || (o 0 =? 127) || (224 <=? o 0)
           || ((o 0 =? 100) && between 64 (o 1) 127)
           || ((o 0 =? 169) && (o 1 =? 254))
           || ((o 0 =? 192) && (o 1 =? 0) && (o 2 =? 0))
           || ((o 0 =? 192) && (o 1 =? 0) && (o 2 =? 2))
           || ((o 0 =? 192) && (o 1 =? 88) && (o 2 =? 99))
           || ((o 0 =? 198) && ((o 1 =? 18) || (o 1 =? 19)))
           || ((o 0 =? 198) && (o 1 =? 51) && (o 2 =? 100))
           || ((o 0 =? 203) && (o 1 =? 0) && (o 2 =? 113)))%Z
  then ClassForbidden else ClassPublic.

Definition classify_v6 (v : Z) : AddressClass :=
  let s := segment v in
  if (Z.land (s 0) 65024 =? 64512)%Z then ClassPrivateLan
  else if ((v =? 0) || (v =? 1) || (Z.land (s 0) 65280 =? 65280) || (Z.shiftr v 32 =? 65535)
           || (Z.land (s 0) 65472 =? 65152) || (Z.land (s 0) 65472 =? 65216)
           || ((s 0 =? 100) && (s 1 =? 65435))
           || ((s 0 =? 256) && (s 1 =? 0) && (s 2 =? 0) && (s 3 =? 0))
           || ((s 0 =? 8193) && (s 1 <? 512))
           || ((s 0 =? 8193) && (s 1 =? 3512))
           || (s 0 =? 8194) || (Z.land (s 0) 65520 =? 16368)
           || negb (Z.land (s 0) 57344 =? 8192))%Z
  then ClassForbidden else ClassPublic.
Definition classify (a : IpAddr) : AddressClass :=
  match a with V4 v => classify_v4 v | V6 v => classify_v6 v end.

(** [u32::MAX << (32 - prefix)] and [u128::MAX << (128 - prefix)], zero for prefix 0 *)
Definition mask_address (a : IpAddr) (prefix : Z) : IpAddr :=
  let mask w := if (prefix =? 0)%Z then 0%Z else Z.land (Z.shiftl (2 ^ w - 1) (w - prefix)) (2 ^ w - 1) in
  match a with
  | V4 v => V4 (Z.land v (mask 32%Z))
  | V6 v => V6 (Z.land v (mask 128%Z))
  end.

Record BlockedNetwork := { bn_network : IpAddr; bn_prefix : Z }.
Definition BlockedNetwork_new (network : IpAddr) (prefix : Z) : result UpstreamErrorCode BlockedNetwork :=
  _ ← reject_if (ip_width network <? prefix)%Z AddressForbidden;
  Ok {| bn_network := mask_address network prefix; bn_prefix := prefix |}.
Definition network_contains (b : BlockedNetwork) (a : IpAddr) : bool :=
  Bool.eqb (is_ipv4 a) (is_ipv4 (bn_network b)) && bool_decide (mask_address a (bn_prefix b) = bn_network b).

Record LocalDestinationDenylist := { deny_addresses : list IpAddr; deny_networks : list BlockedNetwork }.
Definition LocalDestinationDenylist_new (addresses : list IpAddr) (networks : list BlockedNetwork)
    : result UpstreamErrorCode LocalDestinationDenylist :=
  _ ← reject_if ((256 <? Z.of_nat (length addresses)) || (256 <? Z.of_nat (length networks)))%Z AddressForbidden;
  Ok {| deny_addresses := btree_set addresses; deny_networks := networks |}.
Definition denylist_is_empty (d : LocalDestinationDenylist) : bool :=
  bool_decide (deny_addresses d = []) && Nat.eqb (length (deny_networks d)) 0.
Definition denylist_contains (d : LocalDestinationDenylist) (a : IpAddr) : bool :=
  bool_decide (a ∈ deny_addresses d) || existsb (fun n => network_contains n a) (deny_networks d).

Record PrivateLanGate := {
  server_enabled : bool;
  provider_permission : bool;
  descriptor_requested : bool;
  destination_authorized : bool;
}.
Definition gate_default : PrivateLanGate :=
  {| server_enabled := false; provider_permission := false; descriptor_requested := false;
     destination_authorized := false |}.
Definition gate_permits (g : PrivateLanGate) : bool :=
  server_enabled g && provider_permission g && descriptor_requested g && destination_authorized g.

(** ** Hosts and paths *)
Definition normalize_host_lossy (value : string) : string :=
  to_lower (trim_end_char "." (trim_end_char "]" (trim_start_char "[" value))).
Definition normalize_host (value : string) : result UpstreamErrorCode string :=
  let normalized := normalize_host_lossy value in
  _ ← reject_if (str_empty normalized || (253 <? slen normalized)%Z || any_control normalized
                 || contains_any ["/"; "\"; "@"; "#"; "?"]%char normalized) HostForbidden;
  Ok normalized.
Definition hard_forbidden_hostname (host : string) : bool :=
  String.eqb host "localhost" || ends_with ".localhost" host
  || existsb (String.eqb host)
       ["metadata.google.internal"; "metadata.aws.internal"; "kubernetes.default.svc"].
Definition private_gateway_hostname (host : string) : bool :=
  existsb (String.eqb host) ["host.docker.internal"; "gateway.docker.internal"].

Definition hex (b : ascii) : option N :=
  let v := byte_of b in
  if ((48 <=? v) && (v <=? 57))%N then Some (v - 48)%N
  else if ((97 <=? v) && (v <=? 102))%N then Some (v - 97 + 10)%N
  else if ((65 <=? v) && (v <=? 70))%N then Some (v - 65 + 10)%N
  else None.
(** an escape that decodes to a control byte, and whether the bytes are an escape at all *)
Definition escape (h l : ascii) : option N :=
  high ← hex h; low ← hex l; Some (high * 16 + low)%N.
Definition control_byte (n : N) : bool := ((n <? 32) || (n =? 127))%N.
(** the [while] loop; after an escape it skips three bytes *)
Fixpoint contains_encoded_control (s : string) : bool :=
  match s with
  | String c rest =>
      match rest with
      | String h (String l rest') =>
          if Ascii.eqb c "%"%char then
            match escape h l with
            | Some decoded => control_byte decoded || contains_encoded_control rest'
            | None => contains_encoded_control rest
            end
          else contains_encoded_control rest
      | _ => false
      end
  | EmptyString => false
  end.
Definition valid_exact_path (path : string) : bool :=
  negb (str_empty path) && (slen path <=? 2048)%Z && starts_with "/" path
  && negb (contains_any ["?"; "#"]%char path) && negb (any_control path)
  && negb (contains_encoded_control path).

(** ** Rules and URLs *)
Record ValidatedUrl := { vu_url : Url; vu_scheme : string; vu_host : string; vu_port : Z }.
Definition authority_matches (v : ValidatedUrl) (scheme host : string) (port : Z) : bool :=
  String.eqb (vu_scheme v) scheme && String.eqb (vu_host v) (normalize_host_lossy host)
  && (vu_port v =? port)%Z.
Definition canonical_visit_key (v : ValidatedUrl) : string := u_as_str (vu_url v).
Record ResponseOrigin := { or_scheme : string; or_host : string; or_port : Z }.
Definition origin_of (v : ValidatedUrl) : ResponseOrigin :=
  {| or_scheme := vu_scheme v; or_host := vu_host v; or_port := vu_port v |}.

Record DestinationRule := {
  dr_scheme : string;
  dr_host : string;
  dr_port : Z;
  dr_exact_path : string;
  dr_network_scope : NetworkScope;
  dr_allow_fetch : bool;
  dr_authority_wide : bool;
  dr_allow_local_destination : bool;
}.
Definition DestinationRule_new (scheme host : string) (port : Z) (exact_path : string)
    (network_scope : NetworkScope) (allow_fetch : bool) : result UpstreamErrorCode DestinationRule :=
  let scheme := to_lower scheme in
  _ ← reject_if (negb (existsb (String.eqb scheme) ["http"; "https"])) SchemeForbidden;
  host ← normalize_host host;
  _ ← reject_if (port =? 0)%Z PortForbidden;
  _ ← reject_if (negb (valid_exact_path exact_path)) InvalidUrl;
  Ok {| dr_scheme := scheme; dr_host := host; dr_port := port; dr_exact_path := exact_path;
        dr_network_scope := network_scope; dr_allow_fetch := allow_fetch; dr_authority_wide := false;
        dr_allow_local_destination := false |}.
Definition for_private_provider_authority (scheme host : string) (port : Z)
    : result UpstreamErrorCode DestinationRule :=
  let scheme := to_lower scheme in
  _ ← reject_if (negb (existsb (String.eqb scheme) ["http"; "https"])) SchemeForbidden;
  host ← normalize_host host;
  _ ← reject_if (hard_forbidden_hostname host) HostForbidden;
  _ ← reject_if (port =? 0)%Z PortForbidden;
  Ok {| dr_scheme := scheme; dr_host := host; dr_port := port; dr_exact_path := "/";
        dr_network_scope := ScopePrivateLan; dr_allow_fetch := true; dr_authority_wide := true;
        dr_allow_local_destination := true |}.
Definition rule_same_authority (r : DestinationRule) (v : ValidatedUrl) : bool :=
  String.eqb (dr_scheme r) (vu_scheme v) && String.eqb (dr_host r) (vu_host v) && (dr_port r =? vu_port v)%Z.
Definition rule_matches (r : DestinationRule) (v : ValidatedUrl) : bool :=
  dr_allow_fetch r && rule_same_authority r v
  && (dr_authority_wide r || String.eqb (dr_exact_path r) (u_path (vu_url v))).
Definition permits_private_gateway_hostname (r : DestinationRule) (v : ValidatedUrl) : bool :=
  dr_allow_local_destination r && bool_decide (dr_network_scope r = ScopePrivateLan)
  && rule_same_authority r v.

(** ** The policy *)
Record DestinationPolicy := {
  dp_rules : list DestinationRule;
  dp_private_lan : PrivateLanGate;
  dp_allow_http : bool;
  dp_allow_public_discovery : bool;
  dp_local_denylist : LocalDestinationDenylist;
}.
Definition DestinationPolicy_build (rules : list DestinationRule) (private_lan : PrivateLanGate)
    (allow_http allow_public_discovery : bool) (local_denylist : LocalDestinationDenylist)
    : result UpstreamErrorCode DestinationPolicy :=
  _ ← reject_if ((MAX_RULES <? Z.of_nat (length rules))%Z
        || (bool_decide (length rules = 0) && negb allow_public_discovery)) DestinationForbidden;
  _ ← reject_if (existsb (fun r => bool_decide (dr_network_scope r = ScopePrivateLan)) rules
        && denylist_is_empty local_denylist) DestinationForbidden;
  Ok {| dp_rules := rules; dp_private_lan := private_lan; dp_allow_http := allow_http;
        dp_allow_public_discovery := allow_public_discovery; dp_local_denylist := local_denylist |}.
Definition DestinationPolicy_new (rules : list DestinationRule) (private_lan : PrivateLanGate)
    (allow_http : bool) (local_denylist : LocalDestinationDenylist) : result UpstreamErrorCode DestinationPolicy :=
  DestinationPolicy_build rules private_lan allow_http false local_denylist.
Definition for_public_session (rules : list DestinationRule) (allow_http : bool)
    (local_denylist : LocalDestinationDenylist) : result UpstreamErrorCode DestinationPolicy :=
  DestinationPolicy_build rules gate_default allow_http true local_denylist.

Definition matching_rule (p : DestinationPolicy) (v : ValidatedUrl) : option DestinationRule :=
  List.find (fun r => rule_matches r v) (dp_rules p).

Section validation.
Context `{UrlOps}.

Definition validate_parsed (p : DestinationPolicy) (url : Url) (previous : option ValidatedUrl)
    : result UpstreamErrorCode ValidatedUrl :=
  let scheme := to_lower (u_scheme url) in
  _ ← reject_if (negb (String.eqb scheme "https") && negb (String.eqb scheme "http" && dp_allow_http p))
        SchemeForbidden;
  _ ← reject_if (is_some_and (fun v => String.eqb (vu_scheme v) "https" && String.eqb scheme "http") previous)
        RedirectDowngrade;
  _ ← reject_if (negb (str_empty (u_username url)) || is_some_b (u_password url)
                 || is_some_b (u_fragment url)) InvalidUrl;
  _ ← reject_if (contains_encoded_control (u_path url)
                 || is_some_and contains_encoded_control (u_query url)) InvalidUrl;
  raw_host ← ok_or (u_host url) HostForbidden;
  host ← normalize_host raw_host;
  port ← ok_or (u_port_or_known_default url) PortForbidden;
  let candidate := {| vu_url := url; vu_scheme := scheme; vu_host := host; vu_port := port |} in
  let rule := matching_rule p candidate in
  _ ← reject_if (hard_forbidden_hostname host
        || (private_gateway_hostname host
            && negb (is_some_and (fun r => permits_private_gateway_hostname r candidate) rule))) HostForbidden;
  _ ← reject_if (negb (dp_allow_public_discovery p) && is_none_b rule) DestinationForbidden;
  Ok candidate.
Definition validate_url (p : DestinationPolicy) (raw : string) (previous : option ValidatedUrl)
    : result UpstreamErrorCode ValidatedUrl :=
  _ ← reject_if (str_empty raw || (MAX_URL_BYTES <? slen raw)%Z || any_control raw) InvalidUrl;
  url ← ok_or (Url_parse raw) InvalidUrl;
  validate_parsed p url previous.
Definition validate_initial (p : DestinationPolicy) (raw : string) : result UpstreamErrorCode ValidatedUrl :=
  validate_url p raw None.
Definition validate_redirect (p : DestinationPolicy) (current : ValidatedUrl) (location : string)
    : result UpstreamErrorCode ValidatedUrl :=
  _ ← reject_if (str_empty location || (MAX_URL_BYTES <? slen location)%Z || any_control location)
        RedirectInvalid;
  joined ← ok_or (Url_join (vu_url current) location) RedirectInvalid;
  validate_parsed p joined (Some current).
End validation.

Record ResolvedTarget := { rt_target : ValidatedUrl; rt_socket_addresses : list (IpAddr * Z) }.

Definition authorized_local_destination (p : DestinationPolicy) (v : ValidatedUrl) : bool :=
  is_some_and (fun r => dr_allow_local_destination r && bool_decide (dr_network_scope r = ScopePrivateLan)
                        && gate_permits (dp_private_lan p)) (matching_rule p v).
(** the class the loop gives an address: a loopback address of an authorised Docker gateway counts as LAN *)
Definition effective_class (p : DestinationPolicy) (v : ValidatedUrl) (a : IpAddr) : AddressClass :=
  let current := classify a in
  if bool_decide (current = ClassForbidden) && is_loopback a && private_gateway_hostname (vu_host v)
     && authorized_local_destination p v
  then ClassPrivateLan else current.
Fixpoint address_scope (p : DestinationPolicy) (v : ValidatedUrl) (addresses : list IpAddr)
    (scope : option AddressClass) : result UpstreamErrorCode (option AddressClass) :=
  match addresses with
  | [] => Ok scope
  | a :: rest =>
      _ ← reject_if (denylist_contains (dp_local_denylist p) a && negb (authorized_local_destination p v))
            AddressForbidden;
      let current := effective_class p v a in
      _ ← reject_if (bool_decide (current = ClassForbidden)) AddressForbidden;
      _ ← reject_if (is_some_and (fun existing => negb (bool_decide (existing = current))) scope) DnsMixedScope;
      address_scope p v rest (Some current)
  end.
Definition resolve_target (p : DestinationPolicy) (v : ValidatedUrl) (addresses : list IpAddr)
    : result UpstreamErrorCode ResolvedTarget :=
  _ ← reject_if (bool_decide (length addresses = 0)) DnsEmpty;
  let unique := btree_set addresses in
  scope ← address_scope p v unique None;
  expected ← ok_or (match matching_rule p v with
                    | Some r => Some (dr_network_scope r)
                    | None => if dp_allow_public_discovery p then Some ScopePublic else None
                    end) DestinationForbidden;
  scope ← ok_or scope DnsEmpty;
  _ ← match scope with
      | ClassPublic => reject_if (negb (bool_decide (expected = ScopePublic))) NetworkScopeMismatch
      | ClassPrivateLan =>
          _ ← reject_if (negb (bool_decide (expected = ScopePrivateLan))) NetworkScopeMismatch;
          reject_if (negb (gate_permits (dp_private_lan p))) PrivateLanUnauthorized
      | ClassForbidden => Err AddressForbidden
      end;
  Ok {| rt_target := v; rt_socket_addresses := (fun a => (a, vu_port v)) <$> unique |}.

(** ** Escapes *)
Lemma hex_not_percent b : is_Some (hex b) -> b <> "%"%char.
Proof. intros [n Hn] ->. done. Qed.
Lemma escape_hex h l d : escape h l = Some d -> h <> "%"%char /\ l <> "%"%char.
Proof.
  unfold escape. intros Hd. destruct (hex h) as [x|] eqn:Hh; [|done]. destruct (hex l) as [y|] eqn:Hl; [|done].
  split; apply hex_not_percent; eauto.
Qed.

Definition escaped_control (s : string) : Prop :=
  exists a h l b d, s = a +:+ String "%" (String h (String l b)) /\ escape h l = Some d /\ control_byte d = true.
Lemma escaped_control_cons c s : escaped_control s -> escaped_control (String c s).
Proof. intros (a & h & l & b & d & -> & He & Hd). by exists (String c a), h, l, b, d. Qed.
(** an escape that starts at the first byte, or later *)
Lemma escaped_control_inv c s :
  escaped_control (String c s) ->
  escaped_control s \/
  c = "%"%char /\ exists h l b d, s = String h (String l b) /\ escape h l = Some d /\ control_byte d = true.
Proof.
  intros ([|c' a] & h & l & b & d & Heq & He & Hd).
  - right. rewrite str_app_nil_l in Heq. injection Heq as -> ->. eauto 10.
  - left. rewrite str_app_cons in Heq. injection Heq as -> ->. by exists a, h, l, b, d.
Qed.
Lemma escaped_control_head c s : c <> "%"%char -> escaped_control (String c s) -> escaped_control s.
Proof. intros Hc [|[-> _]]%escaped_control_inv; done. Qed.
Lemma escaped_control_length s : escaped_control s -> 3 <= String.length s.
Proof. intros (a & h & l & b & d & -> & _). rewrite str_length_app. cbn. lia. Qed.

Lemma contains_encoded_control_spec s : contains_encoded_control s = true <-> escaped_control s.
Proof.
  remember (String.length s) as n eqn:Hn. revert s Hn. induction (lt_wf n) as [n _ IH]. intros s ->.
  assert (forall r, String.length r < String.length s ->
    contains_encoded_control r = true <-> escaped_control r) as IHr by (intros r Hr; by eapply IH). clear IH.
  destruct s as [|c [|h [|l rest]]];
    try (split; [done|]; intros He%escaped_control_length; cbn in He; lia).
  cbn [contains_encoded_control]. destruct (Ascii.eqb_spec c "%") as [->|Hc].
  2:{ change (contains_encoded_control (String h (String l rest)) = true <-> escaped_control (String c (String h (String l rest)))).
      rewrite IHr by (cbn; lia). split; [apply escaped_control_cons|by apply escaped_control_head]. }
  destruct (escape h l) as [d|] eqn:He.
  - rewrite orb_true_iff, IHr by (cbn; lia). destruct (escape_hex h l d He) as [Hh Hl]. split.
    + intros [Hd|Hr]; [|by do 3 apply escaped_control_cons]. by exists "", h, l, rest, d.
    + intros [Hr|(_ & h' & l' & b & d' & [= -> -> ->] & He' & Hd)]%escaped_control_inv; [right|left; congruence].
      by apply (escaped_control_head l), (escaped_control_head h).
  - change (contains_encoded_control (String h (String l rest)) = true <-> escaped_control (String "%" (String h (String l rest)))).
    rewrite IHr by (cbn; lia). split; [apply escaped_control_cons|].
    intros [Hr|(_ & h' & l' & b & d' & [= -> -> ->] & He' & Hd)]%escaped_control_inv; [done|congruence].
Qed.

(** ** Resolution *)
Lemma btree_set_elem a l : a ∈ btree_set l <-> a ∈ l.
Proof. unfold btree_set. by rewrite merge_sort_Permutation, elem_of_remove_dups. Qed.
Lemma btree_set_nodup l : NoDup (btree_set l).
Proof. unfold btree_set. rewrite merge_sort_Permutation. apply NoDup_remove_dups. Qed.

Lemma address_scope_ok p v l scope0 scope :
  address_scope p v l scope0 = Ok scope ->
  (forall a, a ∈ l -> Some (effective_class p v a) = scope /\ effective_class p v a <> ClassForbidden /\
     (denylist_contains (dp_local_denylist p) a = true -> authorized_local_destination p v = true)) /\
  (forall c, scope0 = Some c -> scope = Some c) /\ (l = [] -> scope = scope0).
Proof.
  revert scope0. induction l as [|a l IH]; intros scope0 Hs; cbn [address_scope] in Hs.
  - ok_inv. split_and!; [by intros ? ?%elem_of_nil|done|done].
  - ok_inv. bool_hyps.
    match goal with H : address_scope _ _ _ _ = Ok _ |- _ => apply IH in H as (Hall & Hsome & _) end.
    specialize (Hsome _ eq_refl). split_and!; [|intros c ->|done].
    + intros y [->|Hy]%elem_of_cons; [|by apply Hall]. split_and!; [by symmetry|done|].
      intros Hd. match goal with H : _ && _ = false |- _ => rewrite Hd in H; cbn in H end. by bool_hyps.
    + cbn [is_some_and] in *. bool_hyps. congruence.
Qed.

Lemma matching_rule_some p v r :
  matching_rule p v = Some r -> r ∈ dp_rules p /\ rule_matches r v = true.
Proof. intros [Hin Hm]%List.find_some. by rewrite list_elem_of_In. Qed.

Lemma effective_class_cases p v a :
  effective_class p v a = classify a \/
  effective_class p v a = ClassPrivateLan /\ classify a = ClassForbidden /\ is_loopback a = true /\
    private_gateway_hostname (vu_host v) = true /\ authorized_local_destination p v = true.
Proof.
  unfold effective_class. case_match eqn:Hc; [|by left]. bool_hyps. right. by split_and!.
Qed.

Lemma is_some_b_false {A} (o : option A) : is_some_b o = false <-> o = None.
Proof. by destruct o. Qed.
Lemma encoded_control_false s : contains_encoded_control s = false -> ~ escaped_control s.
Proof. rewrite <- contains_encoded_control_spec. congruence. Qed.
Lemma normalize_host_ok raw host :
  normalize_host raw = Ok host -> host = normalize_host_lossy raw /\ host <> "".
Proof.
  unfold normalize_host. intros Hn. ok_inv. bool_hyps. split; [done|]. by apply str_empty_false.
Qed.

(** ** Network prefixes *)
Lemma testbit_above w x i : (0 <= x < 2 ^ w)%Z -> (w <= i)%Z -> Z.testbit x i = false.
Proof.
  intros Hx Hi. destruct (Z.eq_dec x 0%Z) as [->|]; [apply Z.bits_0|].
  apply Z.bits_above_log2; [lia|]. apply Z.lt_le_trans with w; [apply Z.log2_lt_pow2; lia|lia].
Qed.
Lemma mask_high w k x : (0 <= k <= w)%Z -> (0 <= x < 2 ^ w)%Z ->
  Z.land x (Z.land (Z.shiftl (2 ^ w - 1) k) (2 ^ w - 1)) = (x / 2 ^ k * 2 ^ k)%Z.
Proof.
  intros Hk Hx. rewrite <- Z.shiftl_mul_pow2, <- Z.shiftr_div_pow2 by lia.
  replace (2 ^ w - 1)%Z with (Z.ones w) by (rewrite Z.ones_equiv; lia).
  apply Z.bits_inj'. intros i Hi. rewrite !Z.land_spec, Z.testbit_ones_nonneg by lia.
  destruct (Z.ltb_spec i w).
  - rewrite andb_true_r. destruct (Z.lt_ge_cases i k).
    + rewrite !Z.shiftl_spec_low by lia. apply andb_false_r.
    + rewrite !Z.shiftl_spec by lia. rewrite Z.testbit_ones_nonneg, Z.shiftr_spec by lia.
      replace (i - k <? w)%Z with true by (symmetry; apply Z.ltb_lt; lia).
      rewrite andb_true_r. f_equal. lia.
  - rewrite !andb_false_r. rewrite Z.shiftl_spec, Z.shiftr_spec by lia.
    symmetry. replace (i - k + k)%Z with i by lia. by apply (testbit_above w).
Qed.
Lemma mask_value a prefix : ip_wf a -> (0 <= prefix <= ip_width a)%Z ->
  ip_value (mask_address a prefix) = (ip_value a / 2 ^ (ip_width a - prefix) * 2 ^ (ip_width a - prefix))%Z.
Proof.
  intros Hw Hp. destruct a as [v|v]; unfold ip_wf, mask_address in *; cbn [ip_value ip_width] in *.
  all: destruct (Z.eqb_spec prefix 0%Z) as [->|]; [|apply mask_high; lia].
  all: rewrite Z.land_0_r, Z.sub_0_r, Z.div_small by lia; done.
Qed.
Lemma mask_same_family a prefix : is_ipv4 (mask_address a prefix) = is_ipv4 a.
Proof. by destruct a. Qed.
Lemma ip_ext a b : a = b <-> is_ipv4 a = is_ipv4 b /\ ip_value a = ip_value b.
Proof. destruct a, b; cbn; naive_solver. Qed.
Lemma div_pow_testbit w k x y : (0 <= k <= w)%Z -> (0 <= x < 2 ^ w)%Z -> (0 <= y < 2 ^ w)%Z ->
  (x / 2 ^ k = y / 2 ^ k)%Z <-> forall i, (k <= i < w)%Z -> Z.testbit x i = Z.testbit y i.
Proof.
  intros Hk Hx Hy. rewrite <- !Z.shiftr_div_pow2 by lia. split.
  - intros Heq i Hi. apply (f_equal (fun z => Z.testbit z (i - k))) in Heq.
    rewrite !Z.shiftr_spec in Heq by lia. by replace (i - k + k)%Z with i in Heq by lia.
  - intros Hb. apply Z.bits_inj'. intros i Hi. rewrite !Z.shiftr_spec by lia.
    destruct (Z.lt_ge_cases (i + k) w); [apply Hb; lia|].
    by rewrite !(testbit_above w).
Qed.
Lemma mask_equal_bits a b prefix : ip_wf a -> ip_wf b -> is_ipv4 a = is_ipv4 b -> (0 <= prefix <= ip_width a)%Z ->
  mask_address a prefix = mask_address b prefix <->
  forall i, (ip_width a - prefix <= i < ip_width a)%Z -> Z.testbit (ip_value a) i = Z.testbit (ip_value b) i.
Proof.
  intros Ha Hb Hf Hp. assert (ip_width a = ip_width b) as Hw by (by destruct a, b).
  rewrite ip_ext, !mask_same_family, !mask_value, <- Hw by (congruence || done || lia).
  rewrite Z.mul_cancel_r by lia. rewrite div_pow_testbit; [naive_solver| |done|rewrite Hw; done]. lia.
Qed.

(** ** Classification by network prefixes *)
Definition net4 (a b c d prefix : Z) : BlockedNetwork :=
  {| bn_network := V4 (((a * 256 + b) * 256 + c) * 256 + d); bn_prefix := prefix |}.
(** the network of the first four groups, the other four zero, and of a 128-bit value *)
Definition net6 (a b c d prefix : Z) : BlockedNetwork :=
  {| bn_network := V6 ((((a * 65536 + b) * 65536 + c) * 65536 + d) * 2 ^ 64); bn_prefix := prefix |}.
Definition net6_low (v prefix : Z) : BlockedNetwork := {| bn_network := V6 v; bn_prefix := prefix |}.

(** RFC 1918 and RFC 4193 *)
Definition private_networks : list BlockedNetwork :=
  [net4 10 0 0 0 8; net4 172 16 0 0 12; net4 192 168 0 0 16; net6 64512 0 0 0 7]%Z.
Definition forbidden_v4 : list BlockedNetwork :=
  [net4 0 0 0 0 8; net4 127 0 0 0 8; net4 224 0 0 0 3; net4 100 64 0 0 10; net4 169 254 0 0 16;
   net4 192 0 0 0 24; net4 192 0 2 0 24; net4 192 88 99 0 24; net4 198 18 0 0 15; net4 198 51 100 0 24;
   net4 203 0 113 0 24]%Z.
(** ::, ::1, multicast, ::ffff:0:0/96, link-local, site-local, 64:ff9b::/32, 100::/64, 2001::/23,
    2001:db8::/32, 2002::/16, 3ff0::/12 *)
Definition forbidden_v6 : list BlockedNetwork :=
  [net6_low 0 128; net6_low 1 128; net6 65280 0 0 0 8; net6_low 281470681743360 96; net6 65152 0 0 0 10;
   net6 65216 0 0 0 10; net6 100 65435 0 0 32; net6 256 0 0 0 64; net6 8193 0 0 0 23; net6 8193 3512 0 0 32;
   net6 8194 0 0 0 16; net6 16368 0 0 0 12]%Z.
(** 2000::/3 *)
Definition global_unicast_v6 : BlockedNetwork := net6 8192 0 0 0 3.
Definition in_networks (l : list BlockedNetwork) (a : IpAddr) : bool :=
  existsb (fun n => network_contains n a) l.

Lemma network_contains_v4 n prefix v : (0 <= prefix <= 32)%Z -> (0 <= v < 2 ^ 32)%Z ->
  network_contains {| bn_network := V4 n; bn_prefix := prefix |} (V4 v)
  = (v / 2 ^ (32 - prefix) * 2 ^ (32 - prefix) =? n)%Z.
Proof.
  intros Hp Hv. apply eq_true_iff_eq. rewrite Z.eqb_eq. unfold network_contains. cbn [bn_network bn_prefix is_ipv4].
  rewrite andb_true_iff, bool_decide_eq_true, ip_ext, mask_same_family, mask_value by (unfold ip_wf; done).
  cbn [is_ipv4 ip_value ip_width]. naive_solver.
Qed.
Lemma network_contains_v6 n prefix v : (0 <= prefix <= 128)%Z -> (0 <= v < 2 ^ 128)%Z ->
  network_contains {| bn_network := V6 n; bn_prefix := prefix |} (V6 v)
  = (v / 2 ^ (128 - prefix) * 2 ^ (128 - prefix) =? n)%Z.
Proof.
  intros Hp Hv. apply eq_true_iff_eq. rewrite Z.eqb_eq. unfold network_contains. cbn [bn_network bn_prefix is_ipv4].
  rewrite andb_true_iff, bool_decide_eq_true, ip_ext, mask_same_family, mask_value by (unfold ip_wf; done).
  cbn [is_ipv4 ip_value ip_width]. naive_solver.
Qed.
Lemma octet_div v i : octet v i = (Z.shiftr v (8 * (3 - i)) mod 256)%Z.
Proof. unfold octet. by rewrite <- (Z.land_ones _ 8). Qed.
Lemma segment_div v i : segment v i = (Z.shiftr v (16 * (7 - i)) mod 65536)%Z.
Proof. unfold segment. by rewrite <- (Z.land_ones _ 16). Qed.
(** the masks of the first group *)
Lemma segment_mask v i k mask : (0 <= k <= 16)%Z -> mask = Z.land (Z.shiftl (2 ^ 16 - 1) k) (2 ^ 16 - 1) ->
  Z.land (segment v i) mask = (segment v i / 2 ^ k * 2 ^ k)%Z.
Proof.
  intros Hk ->. apply mask_high; [done|]. rewrite segment_div. apply Z.mod_pos_bound. done.
Qed.

Lemma octets v : (0 <= v < 2 ^ 32)%Z ->
  v = (((octet v 0 * 256 + octet v 1) * 256 + octet v 2) * 256 + octet v 3)%Z /\
  forall i, (0 <= octet v i < 256)%Z.
Proof.
  intros Hv. split; [|intros i; rewrite octet_div; by apply Z.mod_pos_bound].
  rewrite !octet_div. cbn [Z.sub Z.opp Z.add Z.mul Pos.mul Z.pos_sub Pos.pred_double]. rewrite !Z.shiftr_div_pow2 by lia. div_lia.
Qed.
Lemma segments v : (0 <= v < 2 ^ 128)%Z ->
  exists low, v = ((((segment v 0 * 65536 + segment v 1) * 65536 + segment v 2) * 65536 + segment v 3) * 2 ^ 64 + low)%Z /\
  (0 <= low < 2 ^ 64)%Z /\ forall i, (0 <= segment v i < 65536)%Z.
Proof.
  intros Hv. exists (v mod 2 ^ 64)%Z. split_and!; [|by apply Z.mod_pos_bound..|intros i; rewrite segment_div; by apply Z.mod_pos_bound].
  rewrite !segment_div, !Z.shiftr_div_pow2 by lia. cbn [Z.sub Z.opp Z.add Z.mul Pos.mul Z.pos_sub Pos.pred_double]. div_lia.
Qed.

(** decide an equation of comparisons on quotients by constants *)
Ltac net_tac :=
  apply eq_true_iff_eq; unfold between;
  rewrite ?andb_true_iff, ?orb_true_iff, ?Z.eqb_eq, ?Z.leb_le, ?Z.ltb_lt; div_lia.
(** compare two disjunctions of conditions, one by one *)
Ltac networks_tac :=
  rewrite <- ?orb_assoc, ?orb_false_r; repeat (apply (f_equal2 orb); [net_tac|]); net_tac.

(** the address as its four octets, or as its four first groups and the rest *)
Ltac to_octets v Hv :=
  let Heq := fresh in let Hb := fresh in
  destruct (octets v Hv) as [Heq Hb]; pose proof (Hb 0%Z); pose proof (Hb 1%Z); pose proof (Hb 2%Z);
  pose proof (Hb 3%Z); clear Hb; generalize dependent (octet v 3); generalize dependent (octet v 2);
  generalize dependent (octet v 1); generalize dependent (octet v 0); intros; subst v.
Ltac to_segments v Hv :=
  let low := fresh in let Heq := fresh in let Hl := fresh in let Hb := fresh in
  destruct (segments v Hv) as (low & Heq & Hl & Hb); pose proof (Hb 0%Z); pose proof (Hb 1%Z);
  pose proof (Hb 2%Z); pose proof (Hb 3%Z); clear Hb; generalize dependent (segment v 3);
  generalize dependent (segment v 2); generalize dependent (segment v 1); generalize dependent (segment v 0);
  intros; subst v.

Lemma private_v4 v : (0 <= v < 2 ^ 32)%Z ->
  ((octet v 0 =? 10) || ((octet v 0 =? 172) && between 16 (octet v 1) 31)
   || ((octet v 0 =? 192) && (octet v 1 =? 168)))%Z = in_networks private_networks (V4 v).
Proof.
  intros Hv. unfold in_networks, private_networks, net4. cbn [existsb]. rewrite !network_contains_v4 by done.
  change (network_contains (net6 _ _ _ _ _) (V4 v)) with false. to_octets v Hv. networks_tac.
Qed.
Lemma forbidden_v4_spec v : (0 <= v < 2 ^ 32)%Z ->
  ((octet v 0 =? 0) || (octet v 0 =? 127) || (224 <=? octet v 0)
   || ((octet v 0 =? 100) && between 64 (octet v 1) 127)
   || ((octet v 0 =? 169) && (octet v 1 =? 254))
   || ((octet v 0 =? 192) && (octet v 1 =? 0) && (octet v 2 =? 0))
   || ((octet v 0 =? 192) && (octet v 1 =? 0) && (octet v 2 =? 2))
   || ((octet v 0 =? 192) && (octet v 1 =? 88) && (octet v 2 =? 99))
   || ((octet v 0 =? 198) && ((octet v 1 =? 18) || (octet v 1 =? 19)))
   || ((octet v 0 =? 198) && (octet v 1 =? 51) && (octet v 2 =? 100))
   || ((octet v 0 =? 203) && (octet v 1 =? 0) && (octet v 2 =? 113)))%Z = in_networks forbidden_v4 (V4 v).
Proof.
  intros Hv. unfold in_networks, forbidden_v4, net4. cbn [existsb]. rewrite !network_contains_v4 by done.
  to_octets v Hv. networks_tac.
Qed.
Lemma segment_masks v :
  (Z.land (segment v 0) 65024 = segment v 0 / 512 * 512 /\ Z.land (segment v 0) 65280 = segment v 0 / 256 * 256 /\
   Z.land (segment v 0) 65472 = segment v 0 / 64 * 64 /\ Z.land (segment v 0) 65520 = segment v 0 / 16 * 16 /\
   Z.land (segment v 0) 57344 = segment v 0 / 8192 * 8192)%Z.
Proof.
  split_and!; [apply (segment_mask _ _ 9)|apply (segment_mask _ _ 8)|apply (segment_mask _ _ 6)
              |apply (segment_mask _ _ 4)|apply (segment_mask _ _ 13)]; done.
Qed.
Lemma private_v6 v : (0 <= v < 2 ^ 128)%Z ->
  (Z.land (segment v 0) 65024 =? 64512)%Z = in_networks private_networks (V6 v).
Proof.
  intros Hv. destruct (segment_masks v) as (-> & _). unfold in_networks, private_networks, net6. cbn [existsb].
  rewrite network_contains_v6 by done. change (network_contains (net4 _ _ _ _ _) (V6 v)) with false.
  to_segments v Hv. cbn [orb]. networks_tac.
Qed.
Lemma forbidden_v6_spec v : (0 <= v < 2 ^ 128)%Z ->
  let s := segment v in
  ((v =? 0) || (v =? 1) || (Z.land (s 0) 65280 =? 65280) || (Z.shiftr v 32 =? 65535)
   || (Z.land (s 0) 65472 =? 65152) || (Z.land (s 0) 65472 =? 65216)
   || ((s 0 =? 100) && (s 1 =? 65435))
   || ((s 0 =? 256) && (s 1 =? 0) && (s 2 =? 0) && (s 3 =? 0))
   || ((s 0 =? 8193) && (s 1 <? 512))
   || ((s 0 =? 8193) && (s 1 =? 3512))
   || (s 0 =? 8194) || (Z.land (s 0) 65520 =? 16368)
   || negb (Z.land (s 0) 57344 =? 8192))%Z
  = in_networks forbidden_v6 (V6 v) || negb (network_contains global_unicast_v6 (V6 v)).
Proof.
  intros Hv s. subst s. destruct (segment_masks v) as (_ & -> & -> & -> & ->).
  unfold in_networks, forbidden_v6, net6_low, net6, global_unicast_v6. cbn [existsb].
  unfold net6. rewrite !network_contains_v6 by done. rewrite Z.shiftr_div_pow2 by lia. apply (f_equal2 orb).
  - to_segments v Hv. networks_tac.
  - f_equal. to_segments v Hv. net_tac.
Qed.

Lemma classify_v4_networks v : (0 <= v < 2 ^ 32)%Z ->
  classify_v4 v = if in_networks private_networks (V4 v) then ClassPrivateLan
                  else if in_networks forbidden_v4 (V4 v) then ClassForbidden else ClassPublic.
Proof. intros Hv. by rewrite <- private_v4, <- forbidden_v4_spec by done. Qed.
Lemma classify_v6_networks v : (0 <= v < 2 ^ 128)%Z ->
  classify_v6 v = if in_networks private_networks (V6 v) then ClassPrivateLan
                  else if in_networks forbidden_v6 (V6 v) || negb (network_contains global_unicast_v6 (V6 v))
                  then ClassForbidden else ClassPublic.
Proof. intros Hv. by rewrite <- private_v6, <- forbidden_v6_spec by done. Qed.

(** ** Properties *)
(** what a resolution may connect to *)
Definition permitted_address (p : DestinationPolicy) (v : ValidatedUrl) (scope : NetworkScope) (a : IpAddr) : Prop :=
  (classify a = ClassPublic /\ scope = ScopePublic \/
   classify a = ClassPrivateLan /\ scope = ScopePrivateLan \/
   classify a = ClassForbidden /\ scope = ScopePrivateLan /\ is_loopback a = true /\
     private_gateway_hostname (vu_host v) = true /\ authorized_local_destination p v = true) /\
  (denylist_contains (dp_local_denylist p) a = true -> authorized_local_destination p v = true).

(** what a resolution lets the connector do *)
Definition resolution_permitted (p : DestinationPolicy) (v : ValidatedUrl) (addresses : list IpAddr)
    (rt : ResolvedTarget) : Prop :=
  rt_target rt = v /\ addresses <> [] /\ NoDup (rt_socket_addresses rt).*1 /\
  (forall a port, (a, port) ∈ rt_socket_addresses rt <-> a ∈ addresses /\ port = vu_port v) /\
  exists scope, (forall a, a ∈ addresses -> permitted_address p v scope a) /\
    match scope with
    | ScopePrivateLan => gate_permits (dp_private_lan p) = true /\
        exists r, matching_rule p v = Some r /\ dr_network_scope r = ScopePrivateLan
    | ScopePublic => (exists r, matching_rule p v = Some r /\ dr_network_scope r = ScopePublic) \/
        matching_rule p v = None /\ dp_allow_public_discovery p = true
    end.
Lemma resolve_target_ok p v addresses rt :
  resolve_target p v addresses = Ok rt -> resolution_permitted p v addresses rt.
Proof.
  unfold resolve_target, resolution_permitted. intros Hr. ok_inv. bool_hyps.
  match goal with H : address_scope _ _ _ _ = Ok _ |- _ => apply address_scope_ok in H as (Hall & _ & _) end.
  match goal with H : match matching_rule p v with _ => _ end = Some ?e |- _ => rename H into Hexp, e into expected end.
  match goal with H : context [match ?c with ClassPublic => _ | _ => _ end] |- _ => rename H into Hmatch, c into class end.
  cbn [rt_target rt_socket_addresses]. split_and!; [done|by intros ->| | |].
  - rewrite <- list_fmap_compose. change (fst ∘ (fun a : IpAddr => (a, vu_port v))) with (@Datatypes.id IpAddr).
    rewrite list_fmap_id. apply btree_set_nodup.
  - intros a port. rewrite list_elem_of_fmap. setoid_rewrite btree_set_elem. naive_solver.
  - assert (forall a, a ∈ addresses -> effective_class p v a = class /\
      (denylist_contains (dp_local_denylist p) a = true -> authorized_local_destination p v = true)) as Hclass.
    { intros a Ha. apply btree_set_elem in Ha. destruct (Hall a Ha) as (Heq & _ & Hd). split; [congruence|done]. }
    exists expected. destruct class; [| |done]; ok_inv; bool_hyps; subst expected.
    + split.
      * intros a Ha. destruct (Hclass a Ha) as [Hc Hd]. split; [|done]. left. split; [|done].
        destruct (effective_class_cases p v a) as [<-|(Hx & _)]; congruence.
      * destruct (matching_rule p v) as [r|]; [left; exists r; split; congruence|right].
        destruct (dp_allow_public_discovery p); done.
    + split.
      * intros a Ha. destruct (Hclass a Ha) as [Hc Hd]. split; [|done]. right.
        destruct (effective_class_cases p v a) as [Hx|(_ & Hx)]; [left; split; congruence|right; naive_solver].
      * split; [done|]. destruct (matching_rule p v) as [r|]; [exists r; split; congruence|].
        destruct (dp_allow_public_discovery p); done.
Qed.

(** what a URL must be to be fetched after [previous] *)
Definition url_permitted (p : DestinationPolicy) (previous : option ValidatedUrl) (v : ValidatedUrl) : Prop :=
  (vu_scheme v = "https" \/ vu_scheme v = "http" /\ dp_allow_http p = true) /\
  (forall prev, previous = Some prev -> vu_scheme prev = "https" -> vu_scheme v = "https") /\
  u_username (vu_url v) = "" /\ u_password (vu_url v) = None /\ u_fragment (vu_url v) = None /\
  ~ escaped_control (u_path (vu_url v)) /\ (forall q, u_query (vu_url v) = Some q -> ~ escaped_control q) /\
  (exists host, u_host (vu_url v) = Some host /\ vu_host v = normalize_host_lossy host /\ vu_host v <> "") /\
  hard_forbidden_hostname (vu_host v) = false /\
  (private_gateway_hostname (vu_host v) = true -> exists r, r ∈ dp_rules p /\ rule_matches r v = true /\
     dr_allow_local_destination r = true /\ dr_network_scope r = ScopePrivateLan) /\
  (dp_allow_public_discovery p = false -> exists r, r ∈ dp_rules p /\ rule_matches r v = true).
Lemma validate_parsed_ok p url previous v :
  validate_parsed p url previous = Ok v -> vu_url v = url /\ url_permitted p previous v.
Proof.
  unfold url_permitted.
  unfold validate_parsed. intros Hv. ok_inv. cbn [vu_url vu_scheme vu_host].
  match goal with H : normalize_host _ = _ |- _ => apply normalize_host_ok in H as [-> Hne] end. bool_hyps.
  repeat match goal with H : is_some_b _ = false |- _ => apply is_some_b_false in H end.
  match goal with |- context [matching_rule p ?c] => set (v := c) in * | |- context [rule_matches _ ?c] => set (v := c) in * end.
  assert (forall r, matching_rule p v = Some r -> r ∈ dp_rules p /\ rule_matches r v = true) as Hrule
    by (intros r; apply matching_rule_some).
  assert (to_lower (u_scheme url) = "https" \/ to_lower (u_scheme url) = "http" /\ dp_allow_http p = true) as Hscheme.
  { destruct (String.eqb_spec (to_lower (u_scheme url)) "https"); [by left|right].
    destruct (String.eqb_spec (to_lower (u_scheme url)) "http"); [|done]. by destruct (dp_allow_http p). }
  split_and!; try done.
  - intros prev -> Hp. destruct Hscheme as [?|[Hs _]]; [done|]. cbn [is_some_and] in *.
    rewrite Hp, Hs in *. done.
  - by destruct (u_username url).
  - by apply encoded_control_false.
  - intros q Hq. rewrite Hq in *. by apply encoded_control_false.
  - eauto.
  - intros Hg. rewrite Hg in *. destruct (matching_rule p v) as [r|]; [|done]. cbn [andb is_some_and] in *.
    unfold permits_private_gateway_hostname in *. bool_hyps. destruct (Hrule r eq_refl). exists r. by split_and!.
  - intros Hd. rewrite Hd in *. destruct (matching_rule p v) as [r|]; [|done]. eauto.
Qed.
Lemma validate_initial_ok `{UrlOps} p raw v :
  validate_initial p raw = Ok v -> Url_parse raw = Some (vu_url v) /\ url_permitted p None v.
Proof. unfold validate_initial, validate_url. intros Hv. ok_inv. apply validate_parsed_ok in Hv as [-> Hp]. done. Qed.
Lemma validate_redirect_ok `{UrlOps} p current location v :
  validate_redirect p current location = Ok v ->
  Url_join (vu_url current) location = Some (vu_url v) /\ url_permitted p (Some current) v.
Proof. unfold validate_redirect. intros Hv. ok_inv. apply validate_parsed_ok in Hv as [-> Hp]. done. Qed.

(** A resolved target is safe to connect to.  When [resolve_target] accepts the addresses a host
    resolved to, it keeps each of them once with the port of the URL, and they are either all public, or all
    private-LAN addresses, in which case the four LAN permissions are set and the rule that matches the URL
    has LAN scope.  No other class of address (loopback, link-local and metadata, multicast, documentation,
    carrier-grade NAT, ...) is ever accepted, except loopback for a Docker gateway name that a rule
    authorises; and an address of the server's own denylist needs such an authorised local destination. *)
Theorem resolved_target_permitted p v addresses rt :
  resolve_target p v addresses = Ok rt -> resolution_permitted p v addresses rt.
Proof. apply resolve_target_ok. Qed.

(** A validated URL is permitted.  [validate_parsed], which checks the first URL of a fetch and every
    redirect, accepts only https, or http where the policy allows it and never after https; no user name,
    password or fragment, and no control character hidden in an escape of the path or query; never a
    localhost or cloud-metadata name, and a Docker gateway name only under a LAN rule for its authority;
    and without public discovery only a URL that a rule of the policy matches. *)
Theorem validated_url_permitted p url previous v :
  validate_parsed p url previous = Ok v -> vu_url v = url /\ url_permitted p previous v.
Proof. apply validate_parsed_ok. Qed.

(** The classes are the networks of the registries.  The class of every address of either family, which
    the code computes from octets and masked groups, is the one the lists of network prefixes give: private
    for RFC 1918 and RFC 4193, forbidden for the special-purpose networks and for every IPv6 address outside
    2000::/3, public otherwise. *)
Theorem classification_by_network a :
  ip_wf a ->
  classify a =
    if in_networks private_networks a then ClassPrivateLan
    else if in_networks (forbidden_v4 ++ forbidden_v6) a || negb (is_ipv4 a || network_contains global_unicast_v6 a)
    then ClassForbidden else ClassPublic.
Proof.
  unfold in_networks at 2. rewrite existsb_app. fold (in_networks forbidden_v4 a) (in_networks forbidden_v6 a).
  intros Hw. destruct a as [v|v]; cbn [classify is_ipv4 orb negb].
  - rewrite classify_v4_networks by done. change (in_networks forbidden_v6 (V4 v)) with false. by rewrite !orb_false_r.
  - rewrite classify_v6_networks by done. by change (in_networks forbidden_v4 (V6 v)) with false.
Qed.

(** A denied network is a prefix.  A network of the denylist, built from any address in it and a prefix
    length, contains exactly the addresses of its family that agree with it on the bits of the prefix; a
    prefix longer than an address is refused. *)
Theorem blocked_network_is_prefix network prefix a :
  ip_wf network -> ip_wf a -> (0 <= prefix)%Z ->
  match BlockedNetwork_new network prefix with
  | Ok b => network_contains b a = true <->
      is_ipv4 a = is_ipv4 network /\
      forall i, (ip_width network - prefix <= i < ip_width network)%Z ->
        Z.testbit (ip_value a) i = Z.testbit (ip_value network) i
  | Err e => (ip_width network < prefix)%Z /\ e = AddressForbidden
  end.
Proof.
  intros Hn Ha Hp. unfold BlockedNetwork_new. destruct (Z.ltb_spec (ip_width network) prefix) as [Hl|Hl]; [done|].
  run_ok. unfold network_contains. cbn [bn_network bn_prefix].
  rewrite mask_same_family, andb_true_iff, bool_decide_eq_true, eqb_true_iff.
  assert (is_ipv4 a = is_ipv4 network -> ip_width a = ip_width network) as Hw by (by destruct a, network).
  split; intros [Hf He]; (split; [done|]).
  - rewrite <- Hw by done. apply mask_equal_bits; [done..|rewrite Hw; done|done].
  - apply mask_equal_bits; [done..|rewrite Hw by done; lia|]. by rewrite Hw.
Qed.

(** ** Witnesses *)
Definition docker_url (scheme host path : string) : Url :=
  {| u_scheme := scheme; u_username := ""; u_password := None; u_host := Some host;
     u_port_or_known_default := Some 8080%Z; u_path := path; u_query := Some "q=%41"; u_fragment := None;
     u_as_str := scheme +:+ "://" +:+ host +:+ ":8080" +:+ path +:+ "?q=%41" |}.
Definition docker_rule : DestinationRule :=
  {| dr_scheme := "http"; dr_host := "host.docker.internal"; dr_port := 8080; dr_exact_path := "/";
     dr_network_scope := ScopePrivateLan; dr_allow_fetch := true; dr_authority_wide := true;
     dr_allow_local_destination := true |}.
Definition docker_policy : DestinationPolicy :=
  {| dp_rules := [docker_rule];
     dp_private_lan := {| server_enabled := true; provider_permission := true; descriptor_requested := true;
                          destination_authorized := true |};
     dp_allow_http := true; dp_allow_public_discovery := false;
     dp_local_denylist := {| deny_addresses := [V4 2130706433]; deny_networks := [] |} |}.
Definition docker_target : ValidatedUrl :=
  {| vu_url := docker_url "http" "Host.Docker.Internal." "/live"; vu_scheme := "http";
     vu_host := "host.docker.internal"; vu_port := 8080 |}.
(** 192.168.1.7 twice and 127.0.0.1, on the denylist, for an authorised gateway *)
Definition docker_addresses : list IpAddr := [V4 3232235783; V4 2130706433; V4 3232235783].

Lemma resolved_target_permitted_witness :
  permitted_address docker_policy docker_target ScopePrivateLan (V4 2130706433).
Proof.
  destruct (resolved_target_permitted docker_policy docker_target docker_addresses
    {| rt_target := docker_target; rt_socket_addresses := [(V4 2130706433, 8080); (V4 3232235783, 8080)]%Z |})
    as (_ & _ & _ & _ & [|] & Hall & Hscope); [by vm_compute| |].
  - exfalso. destruct Hscope as [(r & [= <-] & Hr)|(Hr & _)]; discriminate.
  - apply Hall. set_solver.
Defined.

Lemma validated_url_permitted_witness :
  ~ escaped_control "q=%41" /\ dp_allow_http docker_policy = true.
Proof.
  destruct (validated_url_permitted docker_policy (docker_url "http" "Host.Docker.Internal." "/live") None docker_target)
    as (_ & Hs & _ & _ & _ & _ & _ & Hq & _); [by vm_compute|].
  split; [by apply Hq|]. by destruct Hs as [?|[_ ?]].
Defined.

Lemma classification_by_network_witness : classify (V4 2851995905) = ClassForbidden.
Proof. rewrite (classification_by_network (V4 2851995905)) by done. by vm_compute. Defined.

Lemma blocked_network_is_prefix_witness :
  network_contains {| bn_network := V4 167772160; bn_prefix := 8 |} (V4 167772417) = true <->
  true = true /\ forall i, (24 <= i < 32)%Z -> Z.testbit 167772417 i = Z.testbit 167838208 i.
Proof. exact (blocked_network_is_prefix (V4 167838208) 8 (V4 167772417) ltac:(done) ltac:(done) ltac:(done)). Defined.
