(* ===== verification/CookieJar.v ===== *)
(** * The cookie jar of an upstream fetch (src/src/live/upstream/credentials.rs, [CookieJar])

    Cookies a provider hands out with a source, and cookies upstream servers set, are kept in a bounded jar
    and sent back only where their domain, path and secure attribute allow.  Instants are nanoseconds since
    the Unix epoch; a call takes the reading [now] of the clock. *)
From S2P Require Import Prelude Bytes Addresses LiveContract EgressPolicy SessionTypes Planner UpstreamPolicy.

Definition MAX_COOKIES : Z := 32.
Definition MAX_COOKIE_BYTES : Z := 16384.

(** [httpdate::parse_http_date] *)
Class DateOps := { parse_http_date : string -> option instant }.

(** ** Standard library: [split_once], [rfind], [i64::from_str], [SystemTime::checked_add] *)
Fixpoint split_once (c : ascii) (s : string) : option (string * string) :=
  match s with
  | EmptyString => None
  | String a r =>
      if Ascii.eqb a c then Some (EmptyString, r)
      else match split_once c r with Some (x, y) => Some (String a x, y) | None => None end
  end.
Fixpoint rfind (c : ascii) (s : string) : option nat :=
  match s with
  | EmptyString => None
  | String a r =>
      match rfind c r with
      | Some i => Some (S i)
      | None => if Ascii.eqb a c then Some 0 else None
      end
  end.
Fixpoint decimal (acc : Z) (s : string) : option Z :=
  match s with
  | EmptyString => Some acc
  | String c r => if is_digit c then decimal (acc * 10 + Z.of_N (byte_of c - 48)) r else None
  end.
Definition parse_i64 (s : string) : option Z :=
  let '(negative, digits) := match s with
                             | String "+" r => (false, r)
                             | String "-" r => (true, r)
                             | _ => (false, s)
                             end in
  if str_empty digits then None else
  match decimal 0 digits with
  | Some n => let n := if (negative : bool) then (- n)%Z else n in
              if ((- i64_max - 1 <=? n) && (n <=? i64_max))%Z then Some n else None
  | None => None
  end.
(** a [SystemTime] holds its seconds in an [i64] *)
Definition time_checked_add (now : instant) (secs : Z) : option instant :=
  let t := (now + seconds secs)%Z in
  if (t / nanos_per_second <=? i64_max)%Z then Some t else None.

(** ** Validation *)
Definition separator_byte (c : ascii) : bool :=
  existsb (N.eqb (byte_of c)) [40; 41; 60; 62; 64; 44; 59; 58; 92; 34; 47; 91; 93; 63; 61; 123; 125]%N.
Definition valid_cookie_name (s : string) : bool :=
  negb (str_empty s) && (slen s <=? 128)%Z
  && all_bytes (fun c => ((32 <? byte_of c) && (byte_of c <? 127))%N && negb (separator_byte c)) s.
Definition valid_cookie_value (s : string) : bool :=
  (slen s <=? 4096)%Z
  && all_bytes (fun c => ((32 <=? byte_of c) && (byte_of c <? 127))%N && negb (Ascii.eqb c ";")) s.
Definition valid_cookie_path (s : string) : bool :=
  negb (str_empty s) && (slen s <=? 1024)%Z && starts_with "/" s && negb (any_control s).
Definition domain_matches (host domain : string) : bool :=
  String.eqb host domain
  || ((String.length domain <? String.length host) && ends_with domain host
      && bool_decide (String.get (String.length host - String.length domain - 1) host = Some "."%char)).
Definition default_cookie_path (request_path : string) : string :=
  if negb (starts_with "/" request_path) || String.eqb request_path "/" then "/"
  else match rfind "/" request_path with
       | Some index => if 0 <? index then String.substring 0 index request_path else "/"
       | None => "/"
       end.
Definition path_matches (request_path cookie_path : string) : bool :=
  String.eqb request_path cookie_path
  || (starts_with cookie_path request_path
      && (ends_with "/" cookie_path
          || bool_decide (String.get (String.length cookie_path) request_path = Some "/"%char))).

(** ** The jar *)
Record StoredCookie := {
  sc_name : string;
  sc_value : string;
  sc_domain : string;
  sc_path : string;
  sc_host_only : bool;
  sc_secure : bool;
  sc_expires_at : option instant;
  sc_sequence : Z;
}.
Record CookieJar := { jar_values : list StoredCookie; jar_next : Z }.
Definition jar_default : CookieJar := {| jar_values := []; jar_next := 0 |}.

Definition same_cookie (name domain path : string) (c : StoredCookie) : bool :=
  String.eqb (sc_name c) name && String.eqb (sc_domain c) domain && String.eqb (sc_path c) path.
(** [values.retain(|cookie| !(...))] *)
Definition forget_cookie (name domain path : string) (values : list StoredCookie) : list StoredCookie :=
  List.filter (fun c => negb (same_cookie name domain path c)) values.
Definition cookie_bytes (c : StoredCookie) : Z :=
  (slen (sc_name c) + slen (sc_value c) + slen (sc_domain c) + slen (sc_path c))%Z.
(** the fold in [insert]; [usize] is 64 bits wide *)
Definition total_bytes (values : list StoredCookie) : Z :=
  foldl (fun total c =>
    u64_saturating_add (u64_saturating_add (u64_saturating_add (u64_saturating_add total
      (slen (sc_name c))) (slen (sc_value c))) (slen (sc_domain c))) (slen (sc_path c))) 0%Z values.
Definition jar_insert (jar : CookieJar) (c : StoredCookie) : result UpstreamErrorCode CookieJar :=
  let values := forget_cookie (sc_name c) (sc_domain c) (sc_path c) (jar_values jar) ++ [c] in
  _ ← reject_if ((MAX_COOKIES <? Z.of_nat (length values)) || (MAX_COOKIE_BYTES <? total_bytes values))%Z
        CookieRejected;
  Ok {| jar_values := values; jar_next := jar_next jar |}.
Definition next_sequence (jar : CookieJar) : Z * CookieJar :=
  (jar_next jar, {| jar_values := jar_values jar; jar_next := u64_saturating_add (jar_next jar) 1 |}).
Definition contains_secret (jar : CookieJar) (value : string) : bool :=
  existsb (fun c => (8 <=? slen (sc_value c))%Z && contains_sub (sc_value c) value) (jar_values jar).

(** ** Cookies of the provider *)
Definition provider_expiry (e : instant) : instant :=
  let secs := (e / nanos_per_second)%Z in
  if (secs <? 0)%Z then 0%Z else seconds secs.
Definition provider_cookie (host request_path : string) (jar : CookieJar) (value : ProviderCookie)
    : result UpstreamErrorCode CookieJar :=
  let domain := match pc_domain value with
                | Some domain => to_lower (trim_start_char "." domain)
                | None => host
                end in
  let host_only := is_none_b (pc_domain value) in
  _ ← reject_if (negb (valid_cookie_name (pc_name value)) || negb (valid_cookie_value (pc_value value))
                 || negb (domain_matches host domain)) CookieRejected;
  let path := match pc_path value with Some path => path | None => default_cookie_path request_path end in
  _ ← reject_if (negb (valid_cookie_path path)) CookieRejected;
  let '(sequence, jar) := next_sequence jar in
  jar_insert jar {| sc_name := pc_name value; sc_value := pc_value value; sc_domain := domain; sc_path := path;
                    sc_host_only := host_only; sc_secure := pc_secure value;
                    sc_expires_at := provider_expiry <$> pc_expires_at value; sc_sequence := sequence |}.
Fixpoint provider_cookies (host request_path : string) (jar : CookieJar) (values : list ProviderCookie)
    : result UpstreamErrorCode CookieJar :=
  match values with
  | [] => Ok jar
  | value :: values =>
      jar ← provider_cookie host request_path jar value;
      provider_cookies host request_path jar values
  end.
Definition from_provider (values : list ProviderCookie) (host request_path : string)
    : result UpstreamErrorCode CookieJar :=
  _ ← reject_if (MAX_COOKIES <? Z.of_nat (length values))%Z CookieRejected;
  provider_cookies host request_path jar_default values.

(** ** Sending *)
Definition unexpired (now : instant) (c : StoredCookie) : bool :=
  is_none_or (fun expires => (now <? expires)%Z) (sc_expires_at c).
Definition cookie_selected (target : ValidatedUrl) (c : StoredCookie) : bool :=
  (negb (sc_secure c) || String.eqb (vu_scheme target) "https")
  && (if sc_host_only c then String.eqb (vu_host target) (sc_domain c)
      else domain_matches (vu_host target) (sc_domain c))
  && path_matches (u_path (vu_url target)) (sc_path c).
(** the order of the key [(Reverse(path.len()), sequence)] *)
Definition cookie_before (a b : StoredCookie) : Prop :=
  String.length (sc_path b) < String.length (sc_path a)
  \/ String.length (sc_path a) = String.length (sc_path b) /\ (sc_sequence a <= sc_sequence b)%Z.
#[export] Instance cookie_before_dec : RelDecision cookie_before.
Proof. intros a b. unfold cookie_before. apply _. Defined.
Fixpoint join_str (sep : string) (l : list string) : string :=
  match l with
  | [] => ""
  | [s] => s
  | s :: rest => s +:+ sep +:+ join_str sep rest
  end.
Definition cookie_text (c : StoredCookie) : string := sc_name c +:+ "=" +:+ sc_value c.
Definition selected_cookies (jar : CookieJar) (target : ValidatedUrl) : list StoredCookie :=
  merge_sort cookie_before (List.filter (cookie_selected target) (jar_values jar)).
Definition header_value (now : instant) (target : ValidatedUrl) (jar : CookieJar) : option string * CookieJar :=
  let jar := {| jar_values := List.filter (unexpired now) (jar_values jar); jar_next := jar_next jar |} in
  match selected_cookies jar target with
  | [] => (None, jar)
  | selected => (Some (join_str "; " (cookie_text <$> selected)), jar)
  end.

(** ** Receiving *)
Section ingest.
Context `{DateOps}.

(** the variables of the loop over the attributes *)
Record Attributes := {
  at_domain : string;
  at_host_only : bool;
  at_path : string;
  at_secure : bool;
  at_expires_at : option instant;
  at_remove : bool;
}.
Definition split_attribute (attribute : string) : string * option string :=
  let attribute := trim attribute in
  match split_once "=" attribute with
  | Some (name, value) => (to_lower (trim name), Some (trim value))
  | None => (to_lower (trim attribute), None)
  end.
Definition read_attribute (now : instant) (target : ValidatedUrl) (a : Attributes) (attribute : string)
    : result UpstreamErrorCode Attributes :=
  let '(name, value) := split_attribute attribute in
  if String.eqb name "domain" then
    value ← ok_or value CookieRejected;
    let candidate := to_lower (trim_start_char "." value) in
    _ ← reject_if (parses_as_ip candidate || negb (domain_matches (vu_host target) candidate)) CookieRejected;
    Ok {| at_domain := candidate; at_host_only := false; at_path := at_path a; at_secure := at_secure a;
          at_expires_at := at_expires_at a; at_remove := at_remove a |}
  else if String.eqb name "path" then
    candidate ← ok_or value CookieRejected;
    _ ← reject_if (negb (valid_cookie_path candidate)) CookieRejected;
    Ok {| at_domain := at_domain a; at_host_only := at_host_only a; at_path := candidate;
          at_secure := at_secure a; at_expires_at := at_expires_at a; at_remove := at_remove a |}
  else if String.eqb name "secure" then
    Ok {| at_domain := at_domain a; at_host_only := at_host_only a; at_path := at_path a;
          at_secure := true; at_expires_at := at_expires_at a; at_remove := at_remove a |}
  else if String.eqb name "max-age" then
    value ← ok_or value CookieRejected;
    secs ← ok_or (parse_i64 value) CookieRejected;
    if (secs <=? 0)%Z then
      Ok {| at_domain := at_domain a; at_host_only := at_host_only a; at_path := at_path a;
            at_secure := at_secure a; at_expires_at := at_expires_at a; at_remove := true |}
    else
      Ok {| at_domain := at_domain a; at_host_only := at_host_only a; at_path := at_path a;
            at_secure := at_secure a; at_expires_at := time_checked_add now secs; at_remove := at_remove a |}
  else if String.eqb name "expires" then
    match value with
    | Some value =>
        Ok {| at_domain := at_domain a; at_host_only := at_host_only a; at_path := at_path a;
              at_secure := at_secure a; at_expires_at := parse_http_date value; at_remove := at_remove a |}
    | None => Ok a
    end
  else Ok a.
Fixpoint read_attributes (now : instant) (target : ValidatedUrl) (a : Attributes) (parts : list string)
    : result UpstreamErrorCode Attributes :=
  match parts with
  | [] => Ok a
  | part :: parts => a ← read_attribute now target a part; read_attributes now target a parts
  end.
(** everything [ingest] checks before it touches the jar: the name, the value and the attributes *)
Definition parse_set_cookie (now : instant) (target : ValidatedUrl) (raw : string)
    : result UpstreamErrorCode (string * string * Attributes) :=
  _ ← reject_if (str_empty raw || (4096 <? slen raw)%Z || contains_any ["013"; "010"]%char raw) CookieRejected;
  let parts := split_char ";" raw in
  first ← ok_or (head parts) CookieRejected;
  '(name, value) ← ok_or (split_once "=" first) CookieRejected;
  let name := trim name in
  let value := trim value in
  _ ← reject_if (negb (valid_cookie_name name) || negb (valid_cookie_value value)) CookieRejected;
  a ← read_attributes now target
        {| at_domain := vu_host target; at_host_only := true;
           at_path := default_cookie_path (u_path (vu_url target));
           at_secure := false; at_expires_at := None; at_remove := false |} (tail parts);
  _ ← reject_if (at_secure a && negb (String.eqb (vu_scheme target) "https")) CookieRejected;
  _ ← reject_if ((starts_with "__Secure-" name && negb (at_secure a))
        || (starts_with "__Host-" name
            && (negb (at_secure a) || negb (at_host_only a) || negb (String.eqb (at_path a) "/")))) CookieRejected;
  Ok (name, value, a).
(** an [insert] that fails leaves the jar without the cookie that was to be replaced *)
Definition ingest (now : instant) (target : ValidatedUrl) (raw : string) (jar : CookieJar)
    : result UpstreamErrorCode unit * CookieJar :=
  match parse_set_cookie now target raw with
  | Err e => (Err e, jar)
  | Ok (name, value, a) =>
      let jar := {| jar_values := forget_cookie name (at_domain a) (at_path a) (jar_values jar);
                    jar_next := jar_next jar |} in
      if at_remove a || is_some_and (fun expires => (expires <=? now)%Z) (at_expires_at a) then (Ok (), jar)
      else
        let '(sequence, jar) := next_sequence jar in
        match jar_insert jar {| sc_name := name; sc_value := value; sc_domain := at_domain a;
                sc_path := at_path a; sc_host_only := at_host_only a; sc_secure := at_secure a;
                sc_expires_at := at_expires_at a; sc_sequence := sequence |} with
        | Ok jar => (Ok (), jar)
        | Err e => (Err e, jar)
        end
  end.
End ingest.

(** ** Domains and paths *)
(** [domain] is [host] or one of its parent domains *)
Definition covers (domain host : string) : Prop :=
  host = domain \/ exists label, host = label +:+ String "." domain.
Lemma domain_matches_spec host domain : domain_matches host domain = true <-> covers domain host.
Proof.
  unfold domain_matches, covers. rewrite orb_true_iff, !andb_true_iff, bool_decide_eq_true, ends_with_spec, Nat.ltb_lt.
  destruct (String.eqb_spec host domain) as [->|Hne]; [naive_solver|]. split.
  - intros [?|((Hl & r & ->) & Hg)]; [done|]. right. rewrite str_length_app in *.
    replace (String.length r + String.length domain - String.length domain - 1) with (String.length r - 1) in Hg by lia.
    apply str_get_before in Hg as [r' ->]; [|intros ->; cbn in Hl; lia].
    exists r'. by rewrite str_app_assoc, str_app_cons, str_app_nil_l.
  - intros [?|[r ->]]; [done|]. right. rewrite str_length_app. cbn [String.length]. split_and!; [lia| |].
    + exists (r +:+ "."). by rewrite str_app_assoc, str_app_cons, str_app_nil_l.
    + replace (String.length r + S (String.length domain) - String.length domain - 1) with (String.length r) by lia.
      by rewrite str_get_app.
Qed.
(** [cookie_path] is [path] or a directory above it *)
Definition path_below (path cookie_path : string) : Prop :=
  path = cookie_path \/
  exists rest, path = cookie_path +:+ rest /\
    ((exists dir, cookie_path = dir +:+ "/") \/ exists rest', rest = String "/" rest').
Lemma path_matches_spec path cookie_path : path_matches path cookie_path = true <-> path_below path cookie_path.
Proof.
  unfold path_matches, path_below.
  rewrite orb_true_iff, !andb_true_iff, orb_true_iff, bool_decide_eq_true, ends_with_spec, starts_with_spec, String.eqb_eq.
  split; (intros [?|Hp]; [by left|right]).
  - destruct Hp as [[rest ->] Hp]. exists rest. split; [done|].
    rewrite str_get_app, str_get_zero in Hp. done.
  - destruct Hp as (rest & -> & Hp). split; [by exists rest|]. by rewrite str_get_app, str_get_zero.
Qed.
Lemma rfind_some c s i : rfind c s = Some i ->
  exists b, s = String.substring 0 i s +:+ String c b /\ String.length (String.substring 0 i s) = i.
Proof.
  revert i. induction s as [|a s IH]; intros i; [done|]. cbn [rfind].
  destruct (rfind c s) as [j|] eqn:Hj.
  - intros [= <-]. destruct (IH j eq_refl) as (b & Hs & Hl). exists b. cbn [String.substring].
    rewrite str_app_cons, <- Hs. cbn [String.length]. by rewrite Hl.
  - destruct (Ascii.eqb_spec a c) as [->|]; [|done]. intros [= <-]. exists s. by destruct s.
Qed.
(** a cookie without a path goes back to the URL that set it *)
Lemma default_cookie_path_matches path :
  starts_with "/" path = true -> path_matches path (default_cookie_path path) = true.
Proof.
  intros Hp. apply path_matches_spec. unfold default_cookie_path. rewrite Hp.
  destruct (String.eqb_spec path "/") as [->|Hne]; [by left|]. cbn [negb orb].
  assert (path_below path "/") as Hroot.
  { right. apply starts_with_spec in Hp as [r ->]. exists r. split; [done|]. left. by exists "". }
  destruct (rfind "/" path) as [i|] eqn:Hi; [|done]. destruct (0 <? i); [|done].
  apply rfind_some in Hi as (b & Hb & _). right. eexists. split; [exact Hb|]. right. eauto.
Qed.

(** ** The invariant of the jar *)
Definition cookie_key (c : StoredCookie) : string * string * string := (sc_name c, sc_domain c, sc_path c).
Definition cookie_wf (c : StoredCookie) : Prop :=
  valid_cookie_name (sc_name c) = true /\ valid_cookie_value (sc_value c) = true.
Definition sum_bytes (l : list StoredCookie) : Z := foldr (fun c n => cookie_bytes c + n)%Z 0%Z l.
Record jar_wf (jar : CookieJar) : Prop := {
  jar_count : (Z.of_nat (length (jar_values jar)) <= MAX_COOKIES)%Z;
  jar_bytes : (sum_bytes (jar_values jar) <= MAX_COOKIE_BYTES)%Z;
  jar_distinct : NoDup (cookie_key <$> jar_values jar);
  jar_valid : Forall cookie_wf (jar_values jar);
  jar_ordered : StronglySorted Z.le (sc_sequence <$> jar_values jar);
  jar_below_next : Forall (fun c => sc_sequence c <= jar_next jar)%Z (jar_values jar);
  jar_next_u64 : (0 <= jar_next jar <= u64_max)%Z;
}.
Lemma jar_default_wf : jar_wf jar_default.
Proof. split; cbn; try constructor; unfold MAX_COOKIES, MAX_COOKIE_BYTES, u64_max; lia. Qed.

Lemma cookie_bytes_nonneg c : (0 <= cookie_bytes c)%Z.
Proof. unfold cookie_bytes, slen. lia. Qed.
Lemma sum_bytes_app a b : sum_bytes (a ++ b) = (sum_bytes a + sum_bytes b)%Z.
Proof. unfold sum_bytes. induction a as [|c a IH]; cbn; lia. Qed.
Lemma sum_bytes_nonneg l : (0 <= sum_bytes l)%Z.
Proof. unfold sum_bytes. induction l as [|c l IH]; cbn; [lia|]. pose proof (cookie_bytes_nonneg c). lia. Qed.
Lemma sum_bytes_filter p l : (sum_bytes (List.filter p l) <= sum_bytes l)%Z.
Proof.
  unfold sum_bytes. induction l as [|c l IH]; cbn; [lia|]. pose proof (cookie_bytes_nonneg c). destruct (p c); cbn; lia.
Qed.
Lemma total_bytes_from l : forall acc, (0 <= acc <= u64_max)%Z ->
  foldl (fun total c =>
    u64_saturating_add (u64_saturating_add (u64_saturating_add (u64_saturating_add total
      (slen (sc_name c))) (slen (sc_value c))) (slen (sc_domain c))) (slen (sc_path c))) acc l
  = Z.min (acc + sum_bytes l) u64_max.
Proof.
  induction l as [|c l IH]; intros acc Ha; unfold sum_bytes in *; cbn [foldl foldr]; [lia|].
  pose proof (slen_nonneg (sc_name c)). pose proof (slen_nonneg (sc_value c)). pose proof (slen_nonneg (sc_domain c)).
  pose proof (slen_nonneg (sc_path c)). pose proof (sum_bytes_nonneg l) as Hl. unfold sum_bytes in Hl.
  rewrite IH by (unfold u64_saturating_add; lia). revert Hl. generalize (foldr (fun c n => cookie_bytes c + n)%Z 0%Z l).
  unfold u64_saturating_add, cookie_bytes. lia.
Qed.
(** the saturating sum decides the bound exactly *)
Lemma total_bytes_spec l : total_bytes l = Z.min (sum_bytes l) u64_max.
Proof. unfold total_bytes. rewrite total_bytes_from by done. done. Qed.

Lemma sorted_snoc l x : StronglySorted Z.le l -> Forall (fun y => y <= x)%Z l -> StronglySorted Z.le (l ++ [x]).
Proof.
  induction l as [|a l IH]; intros Hs Hf; [by repeat constructor|]. apply StronglySorted_inv in Hs as [Hs Ha].
  inversion_clear Hf. cbn. constructor; [by apply IH|]. apply Forall_app. split; [done|by constructor].
Qed.
Lemma forall_filter {A} (P : A -> Prop) (p : A -> bool) l : Forall P l -> Forall P (List.filter p l).
Proof.
  rewrite !Forall_forall. intros Hf x Hx. apply list_elem_of_In, filter_In in Hx as [Hx _].
  apply Hf. by apply list_elem_of_In.
Qed.
Lemma sorted_filter (p : StoredCookie -> bool) l :
  StronglySorted Z.le (sc_sequence <$> l) -> StronglySorted Z.le (sc_sequence <$> List.filter p l).
Proof.
  induction l as [|c l IH]; intros Hs; [done|]. rewrite fmap_cons in Hs. apply StronglySorted_inv in Hs as [Hs Hf]. cbn.
  destruct (p c); [|by apply IH]. cbn. constructor; [by apply IH|].
  rewrite Forall_fmap. rewrite Forall_fmap in Hf. by apply forall_filter.
Qed.
Lemma nodup_filter (p : StoredCookie -> bool) l :
  NoDup (cookie_key <$> l) -> NoDup (cookie_key <$> List.filter p l).
Proof.
  induction l as [|c l IH]; intros Hs; [done|]. rewrite fmap_cons in Hs. apply NoDup_cons in Hs as [Hn Hs]. cbn.
  destruct (p c); [|by apply IH]. cbn. constructor; [|by apply IH]. contradict Hn.
  apply list_elem_of_fmap in Hn as (x & -> & Hx). apply list_elem_of_fmap. exists x. split; [done|].
  apply list_elem_of_In, filter_In in Hx as [Hx _]. by apply list_elem_of_In.
Qed.
(** dropping cookies keeps the invariant *)
Lemma jar_filter_wf p jar : jar_wf jar ->
  jar_wf {| jar_values := List.filter p (jar_values jar); jar_next := jar_next jar |}.
Proof.
  intros []. split; cbn [jar_values jar_next].
  - pose proof (List.filter_length_le p (jar_values jar)). lia.
  - pose proof (sum_bytes_filter p (jar_values jar)). lia.
  - by apply nodup_filter.
  - by apply forall_filter.
  - by apply sorted_filter.
  - by apply forall_filter.
  - done.
Qed.
Lemma same_cookie_spec name domain path c :
  same_cookie name domain path c = true <-> cookie_key c = (name, domain, path).
Proof. unfold same_cookie, cookie_key. rewrite !andb_true_iff, !String.eqb_eq. naive_solver. Qed.
Lemma forget_cookie_elem name domain path l c :
  c ∈ forget_cookie name domain path l <-> c ∈ l /\ cookie_key c <> (name, domain, path).
Proof.
  unfold forget_cookie. rewrite !list_elem_of_In, filter_In, negb_true_iff.
  rewrite <- same_cookie_spec. rewrite not_true_iff_false. done.
Qed.
(** [next_sequence] followed by [insert] *)
Lemma jar_insert_wf jar c jar' : jar_wf jar -> cookie_wf c -> sc_sequence c = jar_next jar ->
  jar_insert (next_sequence jar).2 c = Ok jar' -> jar_wf jar'.
Proof.
  intros Hw Hc Hseq Hi. unfold jar_insert in Hi. ok_inv. bool_hyps. cbn [next_sequence snd jar_values jar_next] in *.
  destruct (jar_filter_wf (fun x => negb (same_cookie (sc_name c) (sc_domain c) (sc_path c) x)) jar Hw) as [].
  change (List.filter _ _) with (forget_cookie (sc_name c) (sc_domain c) (sc_path c) (jar_values jar)) in *.
  cbn [jar_values jar_next] in *. split; cbn [jar_values jar_next].
  - done.
  - match goal with H : (total_bytes _ <= _)%Z |- _ => rewrite total_bytes_spec in H end. unfold MAX_COOKIE_BYTES, u64_max in *. lia.
  - rewrite fmap_app. apply NoDup_app. split_and!; [done| |apply NoDup_singleton].
    intros k Hk ->%list_elem_of_singleton. apply list_elem_of_fmap in Hk as (y & Hy & [_ Hne]%forget_cookie_elem).
    by apply Hne.
  - apply Forall_app. split; [done|by constructor].
  - rewrite fmap_app. apply sorted_snoc; [done|]. rewrite Hseq. by apply Forall_fmap.
  - apply Forall_app. unfold u64_saturating_add. split; [|constructor; [lia|done]].
    eapply Forall_impl; [done|]. intros y Hy. cbn in Hy. lia.
  - unfold u64_saturating_add. lia.
Qed.

(** ** What the operations keep *)
Lemma header_value_values now target jar :
  (header_value now target jar).2 = {| jar_values := List.filter (unexpired now) (jar_values jar); jar_next := jar_next jar |}.
Proof. unfold header_value. by destruct (selected_cookies _ target). Qed.

(** the cookie a provider's cookie is stored as *)
Definition from_provider_cookie (host : string) (pc : ProviderCookie) (c : StoredCookie) : Prop :=
  sc_name c = pc_name pc /\ sc_value c = pc_value pc /\ covers (sc_domain c) host /\
  (sc_host_only c = true <-> pc_domain pc = None) /\ (sc_host_only c = true -> sc_domain c = host) /\
  sc_secure c = pc_secure pc.
Lemma provider_cookie_ok host path jar pc jar' :
  provider_cookie host path jar pc = Ok jar' ->
  exists c, cookie_wf c /\ sc_sequence c = jar_next jar /\ from_provider_cookie host pc c /\
    jar_insert (next_sequence jar).2 c = Ok jar'.
Proof.
  unfold provider_cookie. intros Hp. ok_inv. bool_hyps. cbn [next_sequence] in Hp.
  eexists. split_and!; [| | |exact Hp]; [by split|done|].
  unfold from_provider_cookie. cbn [sc_name sc_value sc_domain sc_host_only sc_secure]. split_and!; try done.
  - by apply domain_matches_spec.
  - by destruct (pc_domain pc).
  - by destruct (pc_domain pc).
Qed.
Lemma jar_insert_elem jar c jar' x :
  jar_insert jar c = Ok jar' -> x ∈ jar_values jar' -> x ∈ jar_values jar \/ x = c.
Proof.
  unfold jar_insert. intros Hi. ok_inv. cbn [jar_values]. intros [Hx|Hx%list_elem_of_singleton]%elem_of_app; [left|by right].
  by apply forget_cookie_elem in Hx as [? _].
Qed.
Lemma provider_cookies_ok host path values jar jar' :
  jar_wf jar -> provider_cookies host path jar values = Ok jar' ->
  jar_wf jar' /\
  (forall c, c ∈ jar_values jar' -> c ∈ jar_values jar \/ exists pc, pc ∈ values /\ from_provider_cookie host pc c).
Proof.
  revert jar. induction values as [|pc values IH]; intros jar Hw Hp; cbn [provider_cookies] in Hp; ok_inv; [eauto|].
  match goal with H : provider_cookie _ _ _ _ = Ok _ |- _ => apply provider_cookie_ok in H as (c & Hc & Hs & Hf & Hi) end.
  pose proof (jar_insert_wf _ _ _ Hw Hc Hs Hi) as Hw'. apply IH in Hp as [? Hall]; [|done]. split; [done|].
  intros y [Hy|(pc' & Hin & Hy)]%Hall; [|right; exists pc'; split; [by right|done]].
  apply (jar_insert_elem _ _ _ _ Hi) in Hy as [Hy| ->]; [by left|]. right. exists pc. split; [by left|done].
Qed.
Lemma from_provider_ok values host path jar :
  from_provider values host path = Ok jar ->
  jar_wf jar /\ forall c, c ∈ jar_values jar -> exists pc, pc ∈ values /\ from_provider_cookie host pc c.
Proof.
  unfold from_provider. intros Hf. ok_inv. apply provider_cookies_ok in Hf as [Hw Hc]; [|apply jar_default_wf].
  split; [done|]. intros c [Hx%elem_of_nil|?]%Hc; done.
Qed.

Section receiving.
Context `{DateOps}.

Definition attributes_ok (target : ValidatedUrl) (a : Attributes) : Prop :=
  covers (at_domain a) (vu_host target) /\ (at_host_only a = true -> at_domain a = vu_host target).
Lemma read_attribute_ok now target a part a' :
  attributes_ok target a -> read_attribute now target a part = Ok a' -> attributes_ok target a'.
Proof.
  intros Ha. unfold read_attribute. destruct (split_attribute part) as [name value].
  repeat case_string; try (destruct (String.eqb _ _)); intros Hr; ok_inv; try done.
  - bool_hyps. split; [by apply domain_matches_spec|done].
  - by destruct (_ <=? 0)%Z; ok_inv.
  - by destruct value; ok_inv.
Qed.
Lemma read_attributes_ok now target parts a a' :
  attributes_ok target a -> read_attributes now target a parts = Ok a' -> attributes_ok target a'.
Proof.
  revert a. induction parts as [|part parts IH]; intros a Ha Hr; cbn [read_attributes] in Hr; ok_inv; [done|].
  eapply IH; [|done]. by eapply read_attribute_ok.
Qed.
(** what a stored cookie owes to the response that set it *)
Definition set_by (target : ValidatedUrl) (c : StoredCookie) : Prop :=
  covers (sc_domain c) (vu_host target) /\ (sc_host_only c = true -> sc_domain c = vu_host target) /\
  (sc_secure c = true -> vu_scheme target = "https") /\
  (starts_with "__Secure-" (sc_name c) = true -> sc_secure c = true) /\
  (starts_with "__Host-" (sc_name c) = true ->
     sc_secure c = true /\ sc_domain c = vu_host target /\ sc_host_only c = true /\ sc_path c = "/").
Definition new_cookie (name value : string) (a : Attributes) (sequence : Z) : StoredCookie :=
  {| sc_name := name; sc_value := value; sc_domain := at_domain a; sc_path := at_path a;
     sc_host_only := at_host_only a; sc_secure := at_secure a; sc_expires_at := at_expires_at a;
     sc_sequence := sequence |}.
Lemma parse_set_cookie_ok now target raw name value a :
  parse_set_cookie now target raw = Ok (name, value, a) ->
  valid_cookie_name name = true /\ valid_cookie_value value = true /\
  forall sequence, set_by target (new_cookie name value a sequence).
Proof.
  unfold parse_set_cookie. intros Hp. ok_inv. bool_hyps. destruct x1 as [n v]. ok_inv. bool_hyps.
  match goal with H : read_attributes _ _ _ _ = Ok _ |- _ => apply read_attributes_ok in H as [Hd Hh] end;
    [|by split; [left|]]. split_and!; [done..|]. intros sequence. unfold set_by. cbn [new_cookie sc_domain sc_host_only sc_secure sc_name sc_path].
  split_and!; [done|done| | |]; intros Hx; rewrite Hx in *; cbn [andb] in *; bool_hyps.
  - by apply String.eqb_eq.
  - done.
  - split_and!; [done|by apply Hh|done|by apply String.eqb_eq].
Qed.
Lemma ingest_ok now target raw jar r jar' :
  jar_wf jar -> ingest now target raw jar = (r, jar') ->
  jar_wf jar' /\ forall c, c ∈ jar_values jar' -> c ∈ jar_values jar \/ set_by target c.
Proof.
  intros Hw. unfold ingest. destruct (parse_set_cookie now target raw) as [[[name value] a]|e] eqn:Hp; [|intros [= _ <-]; eauto].
  apply parse_set_cookie_ok in Hp as (Hn & Hv & Hset).
  pose proof (jar_filter_wf (fun c => negb (same_cookie name (at_domain a) (at_path a) c)) jar Hw) as Hw'.
  fold (forget_cookie name (at_domain a) (at_path a) (jar_values jar)) in Hw'. cbn [jar_next] in *.
  set (jar1 := {| jar_values := forget_cookie _ _ _ _ ; jar_next := _ |}) in *.
  assert (forall c, c ∈ jar_values jar1 -> c ∈ jar_values jar) as Hin by (intros c [? _]%forget_cookie_elem; done).
  clearbody jar1.
  destruct (_ || _); [intros [= _ <-]; eauto|]. destruct (next_sequence jar1) as [sequence jar2] eqn:Hs.
  assert (jar_wf jar2) as Hw2.
  { injection Hs as _ <-. pose proof (jar_next_u64 _ Hw'). split; try apply Hw'; cbn [jar_next]; unfold u64_saturating_add; [|lia].
    eapply Forall_impl; [apply (jar_below_next _ Hw')|]. intros y Hy. cbn in Hy. lia. }
  fold (new_cookie name value a sequence). destruct (jar_insert jar2 _) as [jar3|e] eqn:Hi.
  - intros [= _ <-]. injection Hs as <- <-. split.
    + by eapply (jar_insert_wf jar1); [..|exact Hi].
    + intros c [Hc| ->]%(jar_insert_elem _ _ _ c Hi); [left; by apply Hin|right; apply Hset].
  - intros [= _ <-]. injection Hs as <- <-. eauto.
Qed.

(** ** Calls on the jar of a fetch: sending to a target, and receiving a header of its response *)
Inductive jar_call :=
| Send (now : instant) (target : ValidatedUrl)
| Receive (now : instant) (target : ValidatedUrl) (raw : string).
Definition run_jar_call (jar : CookieJar) (call : jar_call) : CookieJar :=
  match call with
  | Send now target => (header_value now target jar).2
  | Receive now target raw => (ingest now target raw jar).2
  end.
Definition run_jar (jar : CookieJar) (calls : list jar_call) : CookieJar := foldl run_jar_call jar calls.
Definition receives_from (call : jar_call) (c : StoredCookie) : Prop :=
  match call with Send _ _ => False | Receive _ target _ => set_by target c end.

Lemma run_jar_ok calls jar : jar_wf jar ->
  jar_wf (run_jar jar calls) /\
  forall c, c ∈ jar_values (run_jar jar calls) ->
    c ∈ jar_values jar \/ exists call, call ∈ calls /\ receives_from call c.
Proof.
  unfold run_jar. revert jar. induction calls as [|call calls IH]; intros jar Hw; cbn [foldl]; [eauto|].
  assert (jar_wf (run_jar_call jar call) /\ forall c, c ∈ jar_values (run_jar_call jar call) ->
    c ∈ jar_values jar \/ receives_from call c) as [Hw1 Hc1].
  { destruct call as [now target|now target raw]; cbn [run_jar_call receives_from].
    - rewrite header_value_values. split; [by apply jar_filter_wf|]. cbn [jar_values]. intros c Hc.
      apply list_elem_of_In, filter_In in Hc as [Hc _]. left. by apply list_elem_of_In.
    - destruct (ingest now target raw jar) as [r jar'] eqn:Hi. by eapply ingest_ok. }
  destruct (IH _ Hw1) as [Hw2 Hc2]. split; [done|].
  intros c [[Hc|Hc]%Hc1|(call' & Hin & Hc)]%Hc2; [by left|right..].
  - exists call. split; [by left|done].
  - exists call'. split; [by right|done].
Qed.
End receiving.

(** ** The header *)
#[export] Instance cookie_before_total : Total cookie_before.
Proof. intros a b. unfold cookie_before. lia. Qed.
#[export] Instance cookie_before_transitive : Transitive cookie_before.
Proof. intros a b c. unfold cookie_before. lia. Qed.
Definition printable (c : ascii) : bool := ((32 <=? byte_of c) && (byte_of c <? 127))%N.
Lemma printable_cookie c : cookie_wf c -> all_bytes printable (cookie_text c) = true.
Proof.
  intros [Hn Hv]. unfold cookie_text. rewrite !all_bytes_app. unfold valid_cookie_name, valid_cookie_value in *. bool_hyps.
  rewrite !andb_true_iff. split_and!; [|done|].
  - eapply all_bytes_impl; [|done]. intros x Hx. cbn beta in Hx. bool_hyps. unfold printable.
    apply andb_true_iff. split; [|done]. apply N.leb_le.
    match goal with H : (32 <? _)%N = true |- _ => apply N.ltb_lt in H end. lia.
  - eapply all_bytes_impl; [|done]. intros x Hx. by apply andb_true_iff in Hx as [Hx _].
Qed.
Lemma printable_join l : Forall (fun s => all_bytes printable s = true) l -> all_bytes printable (join_str "; " l) = true.
Proof.
  induction 1 as [|s l Hs Hl IH]; [done|]. cbn [join_str]. destruct l; [done|].
  by rewrite !all_bytes_app, Hs, IH.
Qed.
Lemma selected_cookies_elem jar target c :
  c ∈ selected_cookies jar target <-> c ∈ jar_values jar /\ cookie_selected target c = true.
Proof. unfold selected_cookies. rewrite merge_sort_Permutation. by rewrite !list_elem_of_In, filter_In. Qed.
Lemma header_value_printable now target jar text :
  jar_wf jar -> (header_value now target jar).1 = Some text -> all_bytes printable text = true.
Proof.
  intros Hw Ht. apply (jar_filter_wf (unexpired now)) in Hw. unfold header_value in Ht.
  set (jar' := {| jar_values := _; jar_next := _ |}) in *.
  assert (Forall (fun s => all_bytes printable s = true) (cookie_text <$> selected_cookies jar' target)) as Hf.
  { rewrite Forall_fmap, Forall_forall. intros c [Hc _]%selected_cookies_elem. apply printable_cookie.
    by eapply (Forall_forall cookie_wf); [apply Hw|]. }
  apply printable_join in Hf. destruct (selected_cookies jar' target); [done|]. by injection Ht as <-.
Qed.

(** ** Properties *)
(** The jar stays bounded and well formed.  Whatever the provider's cookies and whatever the sequence of
    requests and of responses, whose headers may be malformed or rejected, the jar of a fetch holds at most
    32 cookies and 16 KiB, no two with the same name, domain and path, only names and values of printable
    characters without separators, in the order of their sequence numbers. *)
Theorem jar_stays_valid `{DateOps} values host path jar calls :
  from_provider values host path = Ok jar -> jar_wf (run_jar jar calls).
Proof. intros [Hw _]%from_provider_ok. by apply run_jar_ok. Qed.

(** Cookies stay in their domain.  A cookie that the jar sends to a target was either in the provider's
    list or set by an earlier response; its domain is the host of that source or response or a parent of it,
    and the target's host is that domain or below it, the same host when the cookie had no domain attribute;
    a secure cookie is sent over https only, and a response that is not https cannot set one; [__Host-] and
    [__Secure-] names keep their promises; and the target's path is the cookie's path or below it. *)
Theorem cookies_stay_in_their_domain `{DateOps} values host path jar calls now target c :
  from_provider values host path = Ok jar ->
  c ∈ selected_cookies (header_value now target (run_jar jar calls)).2 target ->
  ((exists pc, pc ∈ values /\ from_provider_cookie host pc c) \/ exists call, call ∈ calls /\ receives_from call c) /\
  covers (sc_domain c) (vu_host target) /\
  (sc_host_only c = true -> vu_host target = sc_domain c) /\
  (sc_secure c = true -> vu_scheme target = "https") /\
  path_below (u_path (vu_url target)) (sc_path c) /\
  (forall expires, sc_expires_at c = Some expires -> (now < expires)%Z).
Proof.
  intros [Hw Hp]%from_provider_ok [Hc Hs]%selected_cookies_elem. rewrite header_value_values in Hc. cbn [jar_values] in Hc.
  apply list_elem_of_In, filter_In in Hc as [Hc Hu]. apply list_elem_of_In in Hc.
  split; [|clear Hp].
  - apply run_jar_ok in Hc as [Hc|?]; [left; by apply Hp|by right|done].
  - unfold cookie_selected, unexpired in *. bool_hyps.
    match goal with H : path_matches _ _ = true |- _ => apply path_matches_spec in H end. split_and!; [| | |done|].
    + destruct (sc_host_only c); [left; by apply String.eqb_eq|by apply domain_matches_spec].
    + intros Hh. rewrite Hh in *. by apply String.eqb_eq.
    + intros Hh. rewrite Hh in *. by apply String.eqb_eq.
    + intros e He. rewrite He in Hu. cbn in Hu. by bool_hyps.
Qed.

(** The cookie header is complete and in order.  Sending drops exactly the expired cookies from the jar;
    the header lists every remaining cookie that may go to the target, each once, longer paths first and
    older cookies first among equals, separated by a semicolon and a space; there is no header exactly when
    there is no such cookie; and the header holds only printable ASCII. *)
Theorem cookie_header_complete now target jar :
  jar_wf jar ->
  exists selected,
    (forall c, c ∈ selected <-> c ∈ jar_values jar /\ unexpired now c = true /\ cookie_selected target c = true) /\
    NoDup selected /\ StronglySorted cookie_before selected /\
    (forall c, c ∈ jar_values (header_value now target jar).2 <-> c ∈ jar_values jar /\ unexpired now c = true) /\
    match (header_value now target jar).1 with
    | None => selected = []
    | Some text => selected <> [] /\ text = join_str "; " (cookie_text <$> selected) /\
        all_bytes printable text = true
    end.
Proof.
  intros Hw. rewrite header_value_values. unfold header_value. pose proof (jar_filter_wf (unexpired now) jar Hw) as Hw'.
  cbn [jar_values]. set (jar' := {| jar_values := _; jar_next := _ |}) in *.
  assert (forall c, c ∈ jar_values jar' <-> c ∈ jar_values jar /\ unexpired now c = true) as Hin
    by (intros c; subst jar'; cbn [jar_values]; by rewrite !list_elem_of_In, filter_In).
  pose proof (header_value_printable now target jar) as Hprint. unfold header_value in Hprint. fold jar' in Hprint.
  exists (selected_cookies jar' target). split_and!.
  - intros c. rewrite selected_cookies_elem, Hin. tauto.
  - unfold selected_cookies. rewrite merge_sort_Permutation. eapply NoDup_fmap_1, nodup_filter, Hw'.
  - apply (StronglySorted_merge_sort _).
  - intros c. apply Hin.
  - destruct (selected_cookies jar' target) as [|c l] eqn:Hl; cbn [fst]; [done|]. split_and!; [done|done|].
    by apply Hprint.
Qed.

(** A cookie that a response sets goes back.  When a Set-Cookie header parses, is not a removal and fits
    the jar, the next request to the same target under its path sends the cookie with its value, and no
    other cookie of its name, domain and path. *)
Theorem set_cookie_sent_back `{DateOps} now target raw jar jar' name value a :
  parse_set_cookie now target raw = Ok (name, value, a) ->
  ingest now target raw jar = (Ok (), jar') ->
  at_remove a = false -> is_none_or (fun e => now <? e)%Z (at_expires_at a) = true ->
  path_matches (u_path (vu_url target)) (at_path a) = true ->
  exists c, sc_name c = name /\ sc_value c = value /\ c ∈ selected_cookies (header_value now target jar').2 target /\
    forall c', c' ∈ jar_values jar' -> cookie_key c' = cookie_key c -> c' = c.
Proof.
  intros Hp Hi Hr He Hpath. unfold ingest in Hi. rewrite Hp in Hi. rewrite Hr in Hi.
  assert (is_some_and (fun expires => expires <=? now)%Z (at_expires_at a) = false) as He'.
  { destruct (at_expires_at a) as [e|]; [|done]. cbn in *. bool_hyps. by apply Z.leb_gt. }
  rewrite He' in Hi. cbn [orb] in Hi. destruct (next_sequence _) as [sequence jar1] eqn:Hs.
  fold (new_cookie name value a sequence) in Hi. destruct (jar_insert jar1 _) as [jar2|] eqn:Hins; [|done].
  injection Hi as <-. apply parse_set_cookie_ok in Hp as (_ & _ & Hset). specialize (Hset sequence).
  destruct Hset as (Hd & Hh & Hsec & _). cbn [new_cookie sc_domain sc_host_only sc_secure] in *.
  unfold jar_insert in Hins. ok_inv. exists (new_cookie name value a sequence). split_and!; [done..| |].
  - apply selected_cookies_elem. rewrite header_value_values. cbn [jar_values]. split.
    + apply list_elem_of_In, filter_In. split; [apply in_or_app; right; by left|done].
    + unfold cookie_selected. cbn [new_cookie sc_domain sc_host_only sc_secure sc_path].
      rewrite Hpath, andb_true_r. apply andb_true_iff. split.
      * destruct (at_secure a); [|done]. by rewrite Hsec.
      * destruct (at_host_only a); [apply String.eqb_eq; by rewrite Hh|by apply domain_matches_spec].
  - cbn [jar_values]. intros c' [[_ Hne]%forget_cookie_elem|Hc'%list_elem_of_singleton]%elem_of_app Hk; [done|done].
Qed.
