(* ===== verification/UpstreamCredentials.v ===== *)
(** * Headers and credentials of upstream requests (src/src/live/upstream/credentials.rs)

    [SafeRequestHeaders] are the headers the server itself forwards.  A [CredentialSet] holds what the
    provider attached to a source (headers, cookies, origin, referer) and the authorities that may receive
    each of them.  The mutex around the jar is explicit state; a poisoned lock is not modelled, as nothing
    panics while it is held. *)
From S2P Require Import Prelude Bytes Addresses LiveContract EgressPolicy SessionTypes Planner UpstreamPolicy CookieJar.

Definition USER_AGENT_VALUE : string := "Elixir-Live/1".
Definition MAX_SAFE_HEADER_VALUE : Z := 1024.
Definition MAX_PROVIDER_HEADERS : Z := 32.
Definition MAX_PROVIDER_HEADER_BYTES : Z := 16384.

(** ** The [http] crate: which texts are header names and values, and a multimap of headers *)
Class HeaderOps := {
  header_name_ok : string -> bool;     (* [HeaderName::from_bytes], on lower-case names *)
  header_value_ok : string -> bool;    (* [HeaderValue::from_str] *)
  header_to_str_ok : string -> bool;   (* [HeaderValue::to_str] *)
}.
(** documented: visible ASCII makes a header value *)
Class HeaderLaws (O : HeaderOps) : Prop := {
  printable_is_value s : all_bytes printable s = true -> header_value_ok s = true;
}.
Notation HeaderMap := (gmap string (list string)).
Definition hm_insert (name value : string) (h : HeaderMap) : HeaderMap := <[name := [value]]> h.
Definition hm_get_all (h : HeaderMap) (name : string) : list string := default [] (h !! name).
Definition hm_get (h : HeaderMap) (name : string) : option string := head (hm_get_all h name).
Definition hm_append (name value : string) (h : HeaderMap) : HeaderMap := <[name := hm_get_all h name ++ [value]]> h.

Section credentials.
Context `{UrlOps} `{DateOps} `{HeaderOps}.

(** ** Safe headers *)
Definition valid_range (value : string) : bool :=
  match strip_prefix "bytes=" value with
  | None => false
  | Some range =>
      if contains_char "," range then false
      else match split_once "-" range with
           | None => false
           | Some (start, end_) =>
               (negb (str_empty start) || negb (str_empty end_))
               && all_bytes is_digit start && all_bytes is_digit end_
           end
  end.
Definition safe_insert (headers : gmap string string) (name value : string)
    : result UpstreamErrorCode (gmap string string) :=
  let normalized := to_lower name in
  _ ← reject_if (negb (existsb (String.eqb normalized) ["accept"; "accept-language"; "range"])
                 || str_empty value || (MAX_SAFE_HEADER_VALUE <? slen value)%Z
                 || negb (header_value_ok value)) HeaderRejected;
  _ ← reject_if (String.eqb normalized "range" && negb (valid_range value)) HeaderRejected;
  Ok (<[normalized := value]> headers).
Fixpoint insert_safe (values : list (string * string)) (output : HeaderMap) : result UpstreamErrorCode HeaderMap :=
  match values with
  | [] => Ok output
  | (name, value) :: values =>
      _ ← reject_if (negb (header_name_ok name)) HeaderRejected;
      _ ← reject_if (negb (header_value_ok value)) HeaderRejected;
      insert_safe values (hm_insert name value output)
  end.
Definition to_header_map (headers : gmap string string) : result UpstreamErrorCode HeaderMap :=
  let output := hm_insert "user-agent" USER_AGENT_VALUE ∅ in
  let output := hm_insert "accept-encoding" "identity" output in
  let output := if bool_decide (is_Some (headers !! "accept")) then output else hm_insert "accept" "*/*" output in
  insert_safe (btree_iter headers) output.

(** ** Authorities *)
Record NormalizedAuthority := {
  na_scheme : string;
  na_host : string;
  na_port : Z;
  na_send_request_headers : bool;
  na_send_cookies : bool;
  na_send_origin : bool;
  na_send_referer : bool;
}.
Definition authority_try_from (value : CredentialAuthority) : result UpstreamErrorCode NormalizedAuthority :=
  _ ← reject_if (negb (existsb (String.eqb (ca_scheme value)) ["http"; "https"]) || (ca_port value =? 0)%Z)
        HeaderRejected;
  let host := to_lower (trim_end_char "." (ca_host value)) in
  _ ← reject_if (str_empty host || (253 <? slen host)%Z || any_control host) HeaderRejected;
  Ok {| na_scheme := ca_scheme value; na_host := host; na_port := ca_port value;
        na_send_request_headers := ca_send_request_headers value; na_send_cookies := ca_send_cookies value;
        na_send_origin := ca_send_origin value; na_send_referer := ca_send_referer value |}.
Definition na_matches (a : NormalizedAuthority) (target : ValidatedUrl) : bool :=
  authority_matches target (na_scheme a) (na_host a) (na_port a).
Fixpoint collect_authorities (values : list CredentialAuthority)
    : result UpstreamErrorCode (list NormalizedAuthority) :=
  match values with
  | [] => Ok []
  | value :: values =>
      a ← authority_try_from value;
      l ← collect_authorities values;
      Ok (a :: l)
  end.
Definition authority_key (a : NormalizedAuthority) : string * string * Z := (na_scheme a, na_host a, na_port a).
(** whether some insertion into [unique_authorities] finds its key there *)
Fixpoint repeated_authority (seen : list (string * string * Z)) (l : list NormalizedAuthority) : bool :=
  match l with
  | [] => false
  | a :: l => bool_decide (authority_key a ∈ seen) || repeated_authority (authority_key a :: seen) l
  end.

(** ** The set *)
Record CredentialSet := {
  cs_request_headers : list (string * string);
  cs_cookies : CookieJar;
  cs_origin : option string;
  cs_referer : option string;
  cs_authorities : list NormalizedAuthority;
  cs_sensitive_values : list string;
}.
Definition forbidden_provider_header (name : string) : bool :=
  starts_with "proxy-" name
  || existsb (String.eqb name)
       ["host"; "connection"; "keep-alive"; "transfer-encoding"; "te"; "trailer"; "upgrade";
        "content-length"; "cookie"; "set-cookie"; "origin"; "referer"; "via"; "forwarded";
        "x-forwarded-for"; "x-forwarded-host"; "x-forwarded-proto"; "user-agent"; "accept-encoding";
        "accept"; "accept-language"; "range"].
Definition validate_sensitive_header (value : string) : result UpstreamErrorCode unit :=
  _ ← reject_if (str_empty value || (2048 <? slen value)%Z || negb (header_value_ok value)) HeaderRejected;
  parsed ← ok_or (Url_parse value) HeaderRejected;
  reject_if (negb (existsb (String.eqb (u_scheme parsed)) ["http"; "https"]) || is_none_b (u_host parsed)
             || negb (str_empty (u_username parsed)) || is_some_b (u_password parsed)
             || is_some_b (u_fragment parsed)) HeaderRejected.
Definition u64_add_len (total : Z) (s : string) : Z := u64_saturating_add total (slen s).
Fixpoint provider_headers (aggregate : Z) (values : list (string * string))
    : result UpstreamErrorCode (list (string * string)) :=
  match values with
  | [] => Ok []
  | (name, value) :: values =>
      let normalized := to_lower name in
      _ ← reject_if (forbidden_provider_header normalized || (4096 <? slen value)%Z
                     || negb (header_value_ok value)) HeaderRejected;
      let aggregate := u64_add_len (u64_add_len aggregate normalized) value in
      _ ← reject_if (MAX_PROVIDER_HEADER_BYTES <? aggregate)%Z HeaderRejected;
      _ ← reject_if (negb (header_name_ok normalized)) HeaderRejected;
      l ← provider_headers aggregate values;
      Ok ((normalized, value) :: l)
  end.
Definition validate_optional (value : option string) : result UpstreamErrorCode unit :=
  match value with Some value => validate_sensitive_header value | None => Ok () end.
Definition from_descriptor (d : SourceDescriptor) : result UpstreamErrorCode CredentialSet :=
  initial ← ok_or (Url_parse (url d)) InvalidUrl;
  raw_host ← ok_or (u_host initial) HostForbidden;
  let initial_host := to_lower (trim_end_char "." raw_host) in
  let initial_path := u_path initial in
  _ ← reject_if (MAX_PROVIDER_HEADERS <? Z.of_nat (size (request_headers d)))%Z HeaderRejected;
  headers ← provider_headers 0 (btree_iter (request_headers d));
  authorities ← collect_authorities (credential_authorities d);
  _ ← reject_if (32 <? Z.of_nat (length authorities))%Z HeaderRejected;
  _ ← reject_if (repeated_authority [] authorities) HeaderRejected;
  jar ← from_provider (cookies d) initial_host initial_path;
  _ ← validate_optional (origin d);
  _ ← validate_optional (referer d);
  Ok {| cs_request_headers := headers; cs_cookies := jar; cs_origin := origin d; cs_referer := referer d;
        cs_authorities := authorities;
        cs_sensitive_values :=
          (btree_iter (request_headers d)).*2 ++ (pc_value <$> cookies d) ++ option_list (origin d)
          ++ option_list (referer d) ++ option_list (refresh_handle d) ++ [url d] |}.

(** ** Applying and ingesting *)
Definition find_authority (c : CredentialSet) (target : ValidatedUrl) : option NormalizedAuthority :=
  List.find (fun a => na_matches a target) (cs_authorities c).
Fixpoint insert_headers (values : list (string * string)) (output : HeaderMap) : result UpstreamErrorCode HeaderMap :=
  match values with
  | [] => Ok output
  | (name, value) :: values =>
      _ ← reject_if (negb (header_value_ok value)) HeaderRejected;
      insert_headers values (hm_insert name value output)
  end.
Definition insert_optional (send : bool) (name : string) (value : option string) (e : UpstreamErrorCode)
    (output : HeaderMap) : result UpstreamErrorCode HeaderMap :=
  match (if send then value else None) with
  | Some value => _ ← reject_if (negb (header_value_ok value)) e; Ok (hm_insert name value output)
  | None => Ok output
  end.
Definition with_cookies (c : CredentialSet) (jar : CookieJar) : CredentialSet :=
  {| cs_request_headers := cs_request_headers c; cs_cookies := jar; cs_origin := cs_origin c;
     cs_referer := cs_referer c; cs_authorities := cs_authorities c;
     cs_sensitive_values := cs_sensitive_values c |}.
(** the result, and the set with the jar as the call left it *)
Definition apply (now : instant) (c : CredentialSet) (target : ValidatedUrl) (output : HeaderMap)
    : result UpstreamErrorCode HeaderMap * CredentialSet :=
  match find_authority c target with
  | None => (Ok output, c)
  | Some a =>
      match (if na_send_request_headers a then insert_headers (cs_request_headers c) output else Ok output) with
      | Err e => (Err e, c)
      | Ok output =>
          let '(cookie, c) := if na_send_cookies a
                              then let '(value, jar) := header_value now target (cs_cookies c) in
                                   (value, with_cookies c jar)
                              else (None, c) in
          (output ← insert_optional true "cookie" cookie CookieRejected output;
           output ← insert_optional (na_send_origin a) "origin" (cs_origin c) HeaderRejected output;
           insert_optional (na_send_referer a) "referer" (cs_referer c) HeaderRejected output, c)
      end
  end.
Fixpoint ingest_all (now : instant) (target : ValidatedUrl) (values : list string) (jar : CookieJar)
    : result UpstreamErrorCode unit * CookieJar :=
  match values with
  | [] => (Ok (), jar)
  | value :: values =>
      if header_to_str_ok value then
        match ingest now target value jar with
        | (Ok _, jar) => ingest_all now target values jar
        | (Err e, jar) => (Err e, jar)
        end
      else (Err CookieRejected, jar)
  end.
Definition ingest_response (now : instant) (c : CredentialSet) (target : ValidatedUrl) (headers : HeaderMap)
    : result UpstreamErrorCode unit * CredentialSet :=
  if existsb (fun a => na_matches a target && na_send_cookies a) (cs_authorities c) then
    let '(r, jar) := ingest_all now target (hm_get_all headers "set-cookie") (cs_cookies c) in
    (r, with_cookies c jar)
  else (Ok (), c).
Definition value_is_sensitive (c : CredentialSet) (value : string) : bool :=
  contains_sub "ELIXIR_LIVE_CANARY_" value
  || existsb (fun secret => (8 <=? slen secret)%Z && contains_sub secret value) (cs_sensitive_values c)
  || contains_secret (cs_cookies c) value.
End credentials.

(** ** What a set holds *)
Section credential_facts.
Context `{U : UrlOps} `{D : DateOps} `{O : HeaderOps} {OL : HeaderLaws O}.

(** the invariant of a set built from the descriptor [d], in any later state of its jar *)
Record set_wf (d : SourceDescriptor) (c : CredentialSet) : Prop := {
  sw_headers : Forall (fun '(name, value) => forbidden_provider_header name = false /\
                         header_value_ok value = true /\
                         exists original, request_headers d !! original = Some value /\ name = to_lower original)
                      (cs_request_headers c);
  sw_headers_all : forall original value, request_headers d !! original = Some value ->
    (to_lower original, value) ∈ cs_request_headers c;
  sw_origin : cs_origin c = origin d /\ forall value, origin d = Some value -> header_value_ok value = true;
  sw_referer : cs_referer c = referer d /\ forall value, referer d = Some value -> header_value_ok value = true;
  sw_authorities : Forall2 (fun value a => authority_try_from value = Ok a)
                           (credential_authorities d) (cs_authorities c);
  sw_jar : jar_wf (cs_cookies c);
  sw_secrets : forall secret,
    (exists name, request_headers d !! name = Some secret) \/ (exists pc, pc ∈ cookies d /\ pc_value pc = secret) \/
    origin d = Some secret \/ referer d = Some secret \/ refresh_handle d = Some secret \/ url d = secret ->
    secret ∈ cs_sensitive_values c;
}.

Lemma provider_headers_ok aggregate values l :
  provider_headers aggregate values = Ok l ->
  Forall (fun '(name, value) => forbidden_provider_header name = false /\ header_value_ok value = true /\
            exists original, (original, value) ∈ values /\ name = to_lower original) l /\
  forall original value, (original, value) ∈ values -> (to_lower original, value) ∈ l.
Proof.
  revert aggregate l. induction values as [|[name value] values IH]; intros aggregate l Hp; cbn [provider_headers] in Hp; ok_inv.
  { split; [constructor|]. by intros o v ?%elem_of_nil. }
  bool_hyps. match goal with H : provider_headers _ _ = Ok _ |- _ => apply IH in H as [Hf Hall] end. split.
  - constructor; [split_and!; [done..|]; exists name; split; [by left|done]|].
    eapply Forall_impl; [exact Hf|]. intros [n v] (? & ? & o & Ho & ?). split_and!; [done..|].
    exists o. split; [by right|done].
  - intros o v [[= -> ->]|Hin]%elem_of_cons; [by left|right; by apply Hall].
Qed.
Lemma collect_authorities_ok values l :
  collect_authorities values = Ok l -> Forall2 (fun value a => authority_try_from value = Ok a) values l.
Proof.
  revert l. induction values as [|value values IH]; intros l Hc; cbn [collect_authorities] in Hc; ok_inv; constructor; auto.
Qed.
Lemma validate_optional_ok value u :
  validate_optional value = Ok u -> forall v, value = Some v -> header_value_ok v = true.
Proof.
  intros Hv v ->. cbn [validate_optional] in Hv. unfold validate_sensitive_header in Hv. ok_inv. by bool_hyps.
Qed.
Lemma btree_iter_elem {V} (m : gmap string V) k v : (k, v) ∈ btree_iter m <-> m !! k = Some v.
Proof. by rewrite btree_iter_perm, elem_of_map_to_list. Qed.
Lemma option_list_elem {A} (o : option A) x : x ∈ option_list o <-> o = Some x.
Proof. destruct o as [y|]; cbn; [rewrite list_elem_of_singleton|rewrite elem_of_nil]; naive_solver. Qed.
Lemma from_descriptor_wf d c : from_descriptor d = Ok c -> set_wf d c.
Proof.
  unfold from_descriptor. intros Hf. ok_inv. split; cbn [cs_request_headers cs_origin cs_referer cs_authorities cs_cookies cs_sensitive_values].
  - match goal with H : provider_headers _ _ = Ok _ |- _ => apply provider_headers_ok in H as [Hh _] end.
    eapply Forall_impl; [exact Hh|]. intros [n v] (? & ? & o & Ho & ?). split_and!; [done..|].
    exists o. split; [by apply btree_iter_elem|done].
  - match goal with H : provider_headers _ _ = Ok _ |- _ => apply provider_headers_ok in H as [_ Hh] end.
    intros o v Ho. by apply Hh, btree_iter_elem.
  - split; [done|]. by eapply validate_optional_ok.
  - split; [done|]. by eapply validate_optional_ok.
  - by apply collect_authorities_ok.
  - match goal with H : from_provider _ _ _ = Ok _ |- _ => by apply from_provider_ok in H as [Hw _] end.
  - intros secret Hs. rewrite !elem_of_app, !list_elem_of_fmap, !option_list_elem, list_elem_of_singleton.
    destruct Hs as [[name Hn]|[(pc & Hpc & Hv)|Hs]]; [left|right; left|naive_solver].
    + exists (name, secret). split; [done|]. by apply btree_iter_elem.
    + by exists pc.
Qed.
Lemma with_cookies_wf d c jar : set_wf d c -> jar_wf jar -> set_wf d (with_cookies c jar).
Proof. intros [] Hj. by split. Qed.

(** ** What [apply] writes *)
Lemma insert_headers_ok values output :
  Forall (fun '(_, value) => header_value_ok value = true) values ->
  exists out, insert_headers values output = Ok out /\
    forall name, (exists value, (name, value) ∈ values /\ out !! name = Some [value]) \/
                 ((name ∉ values.*1) /\ out !! name = output !! name).
Proof.
  intros Hf. revert output. induction Hf as [|[n v] values Hv Hf IH]; intros output; cbn [insert_headers].
  - exists output. split; [done|]. intros name. right. split; [apply not_elem_of_nil|done].
  - rewrite Hv. run_ok. destruct (IH (hm_insert n v output)) as (out & Ho & Hall). exists out. split; [done|].
    intros name. destruct (Hall name) as [(v' & Hin & Hl)|[Hn Hl]]; [left; exists v'; split; [by right|done]|].
    unfold hm_insert in Hl. destruct (decide (n = name)) as [<-|Hne].
    + left. exists v. rewrite lookup_insert_eq in Hl. split; [by left|done].
    + right. rewrite lookup_insert_ne in Hl by done. split; [|done]. cbn. rewrite not_elem_of_cons. done.
Qed.
Lemma insert_optional_ok send name value e output :
  (forall v, value = Some v -> header_value_ok v = true) ->
  insert_optional send name value e output
  = Ok (match (if send then value else None) with Some v => (hm_insert name v output) | None => output end).
Proof.
  intros Hv. unfold insert_optional. destruct (if send then value else None) as [v|] eqn:Hs; [|done].
  destruct send; [|done]. by rewrite (Hv v).
Qed.
Lemma cookie_header_value_ok now target jar v :
  jar_wf jar -> (header_value now target jar).1 = Some v -> header_value_ok v = true.
Proof.
  intros Hw Hv. apply printable_is_value. by eapply header_value_printable.
Qed.
Lemma find_authority_some d c target a :
  set_wf d c -> find_authority c target = Some a ->
  na_matches a target = true /\ exists value, value ∈ credential_authorities d /\ authority_try_from value = Ok a.
Proof.
  intros Hw [Hin Hm]%List.find_some. split; [done|]. apply list_elem_of_In, list_elem_of_lookup in Hin as [i Hi].
  eapply Forall2_lookup_r in Hi as (value & Hv & Ha); [|apply Hw]. exists value. split; [by eapply list_elem_of_lookup_2|done].
Qed.
(** headers the server sets itself, and those with a rule of their own, are not the provider's *)
Lemma own_header d c name :
  set_wf d c -> forbidden_provider_header name = true -> name ∉ (cs_request_headers c).*1.
Proof.
  intros Hw Hf ([n v] & -> & Hin)%list_elem_of_fmap. pose proof (sw_headers _ _ Hw) as Hh.
  rewrite Forall_forall in Hh. apply Hh in Hin as (Hn & _). cbn in *. congruence.
Qed.
(** the three headers with a flag of their own *)
Definition sent (send : bool) (value : option string) (before : option (list string)) : option (list string) :=
  match (if send then value else None) with Some v => Some [v] | None => before end.
Definition optional_insert (send : bool) (name : string) (value : option string) (h : HeaderMap) : HeaderMap :=
  match (if send then value else None) with Some v => hm_insert name v h | None => h end.
Lemma lookup_optional_insert send name value h :
  optional_insert send name value h !! name = sent send value (h !! name).
Proof. unfold optional_insert, sent, hm_insert. destruct (if send then value else None); [by rewrite lookup_insert_eq|done]. Qed.
Lemma lookup_optional_insert_ne send name value h name' :
  name <> name' -> optional_insert send name value h !! name' = h !! name'.
Proof. intros Hn. unfold optional_insert, hm_insert. destruct (if send then value else None); [by rewrite lookup_insert_ne|done]. Qed.

(** [apply] never fails, and what it writes is the provider's headers and then the three *)
Lemma apply_ok now d c target output a :
  set_wf d c -> find_authority c target = Some a ->
  exists h c', (if na_send_request_headers a then insert_headers (cs_request_headers c) output else Ok output) = Ok h /\
    apply now c target output =
      (Ok (optional_insert (na_send_referer a) "referer" (referer d)
            (optional_insert (na_send_origin a) "origin" (origin d)
              (optional_insert (na_send_cookies a) "cookie" (header_value now target (cs_cookies c)).1 h))), c') /\
    c' = (if na_send_cookies a then with_cookies c (header_value now target (cs_cookies c)).2 else c).
Proof.
  intros Hw Ha. unfold apply. rewrite Ha. destruct (sw_origin _ _ Hw) as [Ho Hov]. destruct (sw_referer _ _ Hw) as [Hr Hrv].
  assert (exists h, (if na_send_request_headers a then insert_headers (cs_request_headers c) output else Ok output) = Ok h) as [h Hh].
  { destruct (na_send_request_headers a); [|eauto]. destruct (insert_headers_ok (cs_request_headers c) output) as (h & Hh & _); [|eauto].
    eapply Forall_impl; [apply Hw|]. intros [n v] (_ & Hv & _). exact Hv. }
  exists h. eexists. split; [exact Hh|]. rewrite Hh. split; [|reflexivity].
  pose proof (cookie_header_value_ok now target (cs_cookies c)) as Hc. destruct (header_value now target (cs_cookies c)) as [cookie jar].
  cbn [fst snd] in *. destruct (na_send_cookies a).
  - rewrite insert_optional_ok by (intros v Hv; apply Hc; [apply Hw|done]). run_ok.
    cbn [cs_origin cs_referer with_cookies]. rewrite Ho, Hr. rewrite insert_optional_ok by done. run_ok.
    rewrite insert_optional_ok by done. done.
  - cbn [insert_optional]. run_ok. rewrite Ho, Hr. rewrite insert_optional_ok by done. run_ok.
    rewrite insert_optional_ok by done. done.
Qed.
Lemma apply_no_authority now c target output :
  find_authority c target = None -> apply now c target output = (Ok output, c).
Proof. intros Ha. unfold apply. by rewrite Ha. Qed.
Lemma apply_wf now d c target output : set_wf d c ->
  exists out c', apply now c target output = (Ok out, c') /\ set_wf d c'.
Proof.
  intros Hw. destruct (find_authority c target) as [a|] eqn:Ha; [|rewrite apply_no_authority by done; eauto].
  destruct (apply_ok now d c target output a Hw Ha) as (h & c' & _ & Hr & Hc'). do 2 eexists. split; [exact Hr|]. subst c'.
  destruct (na_send_cookies a); [|done]. apply with_cookies_wf; [done|]. rewrite header_value_values.
  by apply jar_filter_wf, (sw_jar d).
Qed.
Lemma ingest_all_wf now target values jar : jar_wf jar -> jar_wf (ingest_all now target values jar).2.
Proof.
  revert jar. induction values as [|v values IH]; intros jar Hw; cbn [ingest_all]; [done|].
  destruct (header_to_str_ok v); [|done]. destruct (ingest now target v jar) as [[u|e] jar'] eqn:Hi.
  - apply IH. by apply ingest_ok in Hi as [? _].
  - by apply ingest_ok in Hi as [? _].
Qed.
Lemma ingest_response_wf now d c target headers : set_wf d c -> set_wf d (ingest_response now c target headers).2.
Proof.
  intros Hw. unfold ingest_response. destruct (existsb _ _); [|done].
  pose proof (ingest_all_wf now target (hm_get_all headers "set-cookie") (cs_cookies c) (sw_jar _ _ Hw)) as Hj.
  destruct (ingest_all _ _ _ _) as [r jar]. by apply with_cookies_wf.
Qed.

(** ** Where credentials go *)
(** the headers a request to [target] carries on top of [output] *)
Definition credentials_sent (d : SourceDescriptor) (cookie : option string) (target : ValidatedUrl)
    (output out : HeaderMap) (a : NormalizedAuthority) : Prop :=
  out !! "cookie" = sent (na_send_cookies a) cookie (output !! "cookie") /\
  out !! "origin" = sent (na_send_origin a) (origin d) (output !! "origin") /\
  out !! "referer" = sent (na_send_referer a) (referer d) (output !! "referer") /\
  (forall name, name ∉ ["cookie"; "origin"; "referer"] ->
     out !! name = output !! name \/
     na_send_request_headers a = true /\ forbidden_provider_header name = false /\
     exists original value, request_headers d !! original = Some value /\ to_lower original = name /\
       out !! name = Some [value]) /\
  (na_send_request_headers a = true -> forall original value, request_headers d !! original = Some value ->
     exists original' value', request_headers d !! original' = Some value' /\
       to_lower original' = to_lower original /\ out !! to_lower original = Some [value']).

Lemma request_headers_written d c output :
  set_wf d c -> exists h, insert_headers (cs_request_headers c) output = Ok h /\
  (forall name, h !! name = output !! name \/ forbidden_provider_header name = false /\
     exists original value, request_headers d !! original = Some value /\ to_lower original = name /\
       h !! name = Some [value]) /\
  (forall original value, request_headers d !! original = Some value ->
     exists original' value', request_headers d !! original' = Some value' /\
       to_lower original' = to_lower original /\ h !! to_lower original = Some [value']).
Proof.
  intros Hw. destruct (insert_headers_ok (cs_request_headers c) output) as (h & Hh & Hall).
  { eapply Forall_impl; [apply Hw|]. intros [n v] (_ & Hv & _). exact Hv. }
  pose proof (sw_headers _ _ Hw) as Hhs. rewrite Forall_forall in Hhs. exists h. split_and!; [done| |].
  - intros name. destruct (Hall name) as [(v & Hin & Hl)|[_ Hl]]; [right|by left].
    apply Hhs in Hin as (Hf & _ & o & Ho & ->). split; [done|]. by exists o, v.
  - intros o v Ho. apply (sw_headers_all _ _ Hw) in Ho.
    destruct (Hall (to_lower o)) as [(v' & Hin & Hl)|[Hn _]].
    + apply Hhs in Hin as (_ & _ & o' & Ho' & Heq). by exists o', v'.
    + destruct Hn. apply list_elem_of_fmap. by exists (to_lower o, v).
Qed.
Lemma apply_sends now d c target output a :
  set_wf d c -> find_authority c target = Some a ->
  exists out c', apply now c target output = (Ok out, c') /\
    credentials_sent d (header_value now target (cs_cookies c)).1 target output out a.
Proof.
  intros Hw Ha. destruct (apply_ok now d c target output a Hw Ha) as (h & c' & Hh & Hr & _).
  do 2 eexists. split; [exact Hr|]. clear Hr. set (cookie := (header_value now target (cs_cookies c)).1). clearbody cookie.
  assert (forall name, forbidden_provider_header name = true -> h !! name = output !! name) as Hown.
  { intros name Hf. destruct (na_send_request_headers a); [|by injection Hh as ->].
    destruct (request_headers_written d c output Hw) as (h' & Hh' & Hall & _). rewrite Hh in Hh'. injection Hh' as <-.
    destruct (Hall name) as [?|[Hf' _]]; [done|congruence]. }
  unfold credentials_sent. split_and!.
  - rewrite !lookup_optional_insert_ne, lookup_optional_insert by done. by rewrite Hown.
  - rewrite lookup_optional_insert_ne, lookup_optional_insert, lookup_optional_insert_ne by done. by rewrite Hown.
  - rewrite lookup_optional_insert, !lookup_optional_insert_ne by done. by rewrite Hown.
  - intros name Hn. rewrite !lookup_optional_insert_ne by set_solver.
    destruct (na_send_request_headers a); [|left; by injection Hh as ->].
    destruct (request_headers_written d c output Hw) as (h' & Hh' & Hall & _). rewrite Hh in Hh'. injection Hh' as <-.
    destruct (Hall name) as [?|[? ?]]; [by left|by right].
  - intros Hs o v Ho. rewrite Hs in Hh.
    destruct (request_headers_written d c output Hw) as (h' & Hh' & _ & Hall). rewrite Hh in Hh'. injection Hh' as <-.
    destruct (Hall o v Ho) as (o' & v' & Ho' & Heq & Hl). exists o', v'. split_and!; [done..|].
    pose proof (sw_headers_all _ _ Hw o v Ho) as Hin. pose proof (sw_headers _ _ Hw) as Hf. rewrite Forall_forall in Hf.
    apply Hf in Hin as [Hf' _]. rewrite !lookup_optional_insert_ne; [done|..]; intros Heq'; by rewrite <- Heq' in Hf'.
Qed.

(** Credentials only go to their authorities.  In every state of a set built from a descriptor, adding
    the credentials to a request never fails.  When no credential authority of the descriptor has the
    scheme, host and port of the target, the headers stay as they were.  Otherwise the first such authority
    decides: cookies, origin and referer are exactly those its flags allow, any other header changes only
    to a header of the provider, which its flag must allow and which is never one of the forbidden ones, and
    no provider header is left out. *)
Theorem credentials_go_to_their_authorities now d c target output :
  set_wf d c ->
  exists out c', apply now c target output = (Ok out, c') /\ set_wf d c' /\
    match find_authority c target with
    | None => out = output /\ c' = c
    | Some a =>
        (exists value, value ∈ credential_authorities d /\ authority_try_from value = Ok a) /\
        vu_scheme target = na_scheme a /\ vu_host target = normalize_host_lossy (na_host a) /\
        vu_port target = na_port a /\
        credentials_sent d (header_value now target (cs_cookies c)).1 target output out a
    end.
Proof.
  intros Hw. destruct (apply_wf now d c target output Hw) as (out & c' & Hr & Hw'). exists out, c'. split_and!; [done..|].
  destruct (find_authority c target) as [a|] eqn:Ha.
  - destruct (apply_sends now d c target output a Hw Ha) as (out' & c'' & Hr' & Hs). rewrite Hr in Hr'. injection Hr' as <- <-.
    destruct (find_authority_some _ _ _ _ Hw Ha) as [Hm Hv]. split; [done|].
    unfold na_matches, authority_matches in Hm. bool_hyps. split_and!; [by apply String.eqb_eq..|done|done].
  - rewrite apply_no_authority in Hr by done. by injection Hr as <- <-.
Qed.
End credential_facts.

(** ** Cookies of a source whose host is an IPv6 literal *)
Lemma trim_start_char_suffix c s : exists p, s = p +:+ trim_start_char c s.
Proof.
  induction s as [|a s [p Hp]]; [by exists ""|]. cbn [trim_start_char]. destruct (Ascii.eqb a c); [|by exists ""].
  exists (String a p). by rewrite str_app_cons, <- Hp.
Qed.
Lemma trim_start_char_head c s r : trim_start_char c s <> String c r.
Proof.
  induction s as [|a s IH]; [done|]. cbn [trim_start_char]. destruct (Ascii.eqb_spec a c); [done|congruence].
Qed.
Lemma trim_end_char_prefix c s : exists r, s = trim_end_char c s +:+ r.
Proof.
  unfold trim_end_char. destruct (trim_start_char_suffix c (String.rev s)) as [p Hp]. exists (String.rev p).
  rewrite <- str_rev_app, <- Hp. by rewrite str_rev_involutive.
Qed.
Lemma trim_end_char_cons c a s : a <> c -> exists r, trim_end_char c (String a s) = String a r.
Proof.
  intros Hne. unfold trim_end_char. rewrite str_rev_cons.
  assert (forall t, trim_start_char c (t +:+ String a "") = trim_start_char c t +:+ String a "") as Ht.
  { induction t as [|b t IH]; [rewrite str_app_nil_l; cbn; by destruct (Ascii.eqb_spec a c)|].
    rewrite str_app_cons. cbn [trim_start_char]. by destruct (Ascii.eqb b c). }
  rewrite Ht, str_rev_app. cbn. by rewrite str_app_cons; eexists.
Qed.
Lemma lower_byte_bracket b : lower_byte b = "["%char -> b = "["%char.
Proof. destruct b as [[] [] [] [] [] [] [] []]; vm_compute; intros Hb; congruence. Qed.
Lemma normalize_host_no_bracket raw r : normalize_host_lossy raw <> String "[" r.
Proof.
  unfold normalize_host_lossy. intros Hn. destruct (trim_end_char "." _) as [|b t] eqn:Ht; [done|].
  cbn [to_lower] in Hn. injection Hn as Hb _. apply lower_byte_bracket in Hb. subst b.
  destruct (trim_end_char_prefix "." (trim_end_char "]" (trim_start_char "[" raw))) as [x Hx]. rewrite Ht in Hx.
  destruct (trim_end_char_prefix "]" (trim_start_char "[" raw)) as [y Hy]. rewrite Hx in Hy.
  rewrite !str_app_cons in Hy. by apply trim_start_char_head in Hy.
Qed.
(** The URL of such a source has the host [[::1]], a target the host [::1]: a provider cookie without a
    domain attribute is stored under the bracketed host and is never sent, not even to the source itself. *)
Lemma ipv6_provider_cookie_never_sent values rest path jar c raw target :
  from_provider values (to_lower (trim_end_char "." (String "[" rest))) path = Ok jar ->
  c ∈ jar_values jar -> sc_host_only c = true -> vu_host target = normalize_host_lossy raw ->
  cookie_selected target c = false.
Proof.
  intros [_ Hp]%from_provider_ok (pc & _ & _ & _ & _ & _ & Hd & _)%Hp Hh Ht. unfold cookie_selected. rewrite Hh, Hd, Ht by done.
  destruct (trim_end_char_cons "." "[" rest) as [r ->]; [done|]. cbn [to_lower].
  change (lower_byte "[") with "["%char.
  assert (String.eqb (normalize_host_lossy raw) (String "[" (to_lower r)) = false) as ->
    by apply String.eqb_neq, normalize_host_no_bracket.
  by rewrite andb_false_r.
Qed.
