(* ===== verification/UpstreamFetcher.v ===== *)
(** * Fetching an upstream URL (src/src/live/upstream/fetcher.rs)

    [fetch] validates the URL, resolves its host, sends the request and follows redirects, each hop under the
    same policy.  The resolver and the connector are trait objects, the clock and the cancellation token are
    outside: an [Env] gives what they answer at each hop, and what other fetches that share the credential
    set do to its jar in between.  The model also returns the requests it handed to the connector. *)
From S2P Require Import Prelude Bytes Addresses LiveContract EgressPolicy SessionTypes Planner UpstreamPolicy CookieJar UpstreamCredentials.

Inductive UpstreamMethod := Get | Head.
#[export] Instance UpstreamMethod_eq_dec : EqDecision UpstreamMethod.
Proof. solve_decision. Defined.

(** durations in nanoseconds *)
Record UpstreamLimits := {
  connect_timeout : Z;
  header_timeout : Z;
  idle_timeout : Z;
  total_timeout : Z;
  max_response_bytes : Z;
  max_response_headers : Z;
  max_response_header_bytes : Z;
  max_redirects : nat;
}.
Definition limits_default : UpstreamLimits :=
  {| connect_timeout := seconds 5; header_timeout := seconds 10; idle_timeout := seconds 15;
     total_timeout := seconds 120; max_response_bytes := 64 * 1024 * 1024; max_response_headers := 64;
     max_response_header_bytes := 32 * 1024; max_redirects := 5 |}.
Definition limits_validate (l : UpstreamLimits) : result UpstreamErrorCode unit :=
  reject_if
    (existsb (fun t => t =? 0) [connect_timeout l; header_timeout l; idle_timeout l; total_timeout l]
     || (seconds 60 <? connect_timeout l) || (seconds 60 <? header_timeout l)
     || (seconds 300 <? idle_timeout l) || (seconds (24 * 60 * 60) <? total_timeout l)
     || (max_response_bytes l =? 0) || (4 * 1024 * 1024 * 1024 <? max_response_bytes l)
     || negb (between 1 (max_response_headers l) 256)
     || negb (between 1024 (max_response_header_bytes l) (256 * 1024))
     || Nat.ltb 10 (max_redirects l))%Z EgressRejected.

(** [reqwest::Response], as far as the fetcher reads it *)
Record Response := { rp_status : Z; rp_headers : HeaderMap; rp_content_length : option Z }.
Record FetchRequest := {
  fr_url : string;
  fr_method : UpstreamMethod;
  fr_policy : DestinationPolicy;
  fr_safe_headers : gmap string string;
}.
Record UpstreamResponse := {
  ur_status : Z;
  ur_headers : HeaderMap;
  ur_origin : ResponseOrigin;
  ur_final_url : Url;
  ur_redirects : nat;
  ur_total_deadline : instant;
  ur_idle_timeout : Z;
  ur_max_response_bytes : Z;
}.

(** how a [tokio::select!] of the cancellation and a call under a timeout ends *)
Inductive outcome (A : Type) := Settled (r : result UpstreamErrorCode A) | Elapsed | WasCancelled.
Arguments Settled {A} r.
Arguments Elapsed {A}.
Arguments WasCancelled {A}.

(** what the environment answers at hop [n] *)
Record Env := {
  env_started : instant;
  env_resolve_clock : nat -> instant;
  env_execute_clock : nat -> instant;
  env_cookie_clock : nat -> instant;
  env_ingest_clock : nat -> instant;
  env_resolve : nat -> string -> Z -> outcome (list IpAddr);
  env_execute : nat -> ResolvedTarget -> UpstreamMethod -> HeaderMap -> outcome Response;
  env_others : nat -> list jar_call;          (* before the cookies of hop [n] are read *)
  env_others_ingest : nat -> list jar_call;   (* before its response is ingested *)
  env_others_sanitize : list jar_call;        (* before the final response is checked *)
}.

Definition is_redirect (status : Z) : bool := existsb (Z.eqb status) [301; 302; 303; 307; 308]%Z.
Definition remaining (deadline now : instant) : result UpstreamErrorCode Z :=
  if (now <? deadline)%Z then Ok (deadline - now)%Z else Err TotalTimeout.

Section fetch.
Context `{UrlOps} `{DateOps} `{HeaderOps}.

(** the pairs an iteration over a [HeaderMap] yields *)
Definition header_pairs (h : HeaderMap) : list (string * string) :=
  concat ((fun entry : string * list string => (fun value => (entry.1, value)) <$> entry.2) <$> map_to_list h).
Fixpoint check_raw_headers (l : UpstreamLimits) (count bytes : Z) (pairs : list (string * string))
    : result UpstreamErrorCode unit :=
  match pairs with
  | [] => Ok ()
  | (name, value) :: pairs =>
      let count := u64_saturating_add count 1 in
      let bytes := u64_add_len (u64_add_len bytes name) value in
      _ ← reject_if ((max_response_headers l <? count) || (max_response_header_bytes l <? bytes))%Z
            ResponseHeadersTooLarge;
      check_raw_headers l count bytes pairs
  end.
Definition validate_raw_headers (headers : HeaderMap) (l : UpstreamLimits) : result UpstreamErrorCode unit :=
  check_raw_headers l 0 0 (header_pairs headers).

Definition allowed_response_headers : list string :=
  ["accept-ranges"; "age"; "cache-control"; "content-length"; "content-range"; "content-type"; "date";
   "etag"; "expires"; "last-modified"; "retry-after"].
Fixpoint sanitize_values (credentials : option CredentialSet) (name : string) (values : list string)
    (output : HeaderMap) : result UpstreamErrorCode HeaderMap :=
  match values with
  | [] => Ok output
  | value :: values =>
      _ ← reject_if (negb (header_to_str_ok value)) UpstreamProtocol;
      _ ← reject_if (contains_sub "ELIXIR_LIVE_CANARY_" value
                     || is_some_and (fun set => value_is_sensitive set value) credentials) SensitiveResponse;
      sanitize_values credentials name values (hm_append name value output)
  end.
Fixpoint sanitize_names (credentials : option CredentialSet) (headers : HeaderMap) (names : list string)
    (output : HeaderMap) : result UpstreamErrorCode HeaderMap :=
  match names with
  | [] => Ok output
  | name :: names =>
      output ← sanitize_values credentials name (hm_get_all headers name) output;
      sanitize_names credentials headers names output
  end.
Definition sanitize_response_headers (headers : HeaderMap) (credentials : option CredentialSet)
    : result UpstreamErrorCode HeaderMap :=
  sanitize_names credentials headers allowed_response_headers ∅.

(** what other fetches do to the shared set *)
Definition interfere (calls : list jar_call) (credentials : option CredentialSet) : option CredentialSet :=
  (fun c => with_cookies c (run_jar (cs_cookies c) calls)) <$> credentials.

Definition resolve (env : Env) (hop : nat) (request : FetchRequest) (target : ValidatedUrl)
    (total_deadline : instant) : result UpstreamErrorCode ResolvedTarget :=
  addresses ← match parse_ip (vu_host target) with
              | Some address => Ok [address]
              | None =>
                  _ ← remaining total_deadline (env_resolve_clock env hop);
                  match env_resolve env hop (vu_host target) (vu_port target) with
                  | WasCancelled => Err Cancelled
                  | Settled value => value
                  | Elapsed => Err TotalTimeout
                  end
              end;
  resolve_target (fr_policy request) target addresses.

(** the headers of the request of a hop, and the credential set afterwards *)
Definition request_headers_of (env : Env) (hop : nat) (request : FetchRequest) (target : ValidatedUrl)
    (credentials : option CredentialSet) : result UpstreamErrorCode HeaderMap * option CredentialSet :=
  match to_header_map (fr_safe_headers request) with
  | Err e => (Err e, credentials)
  | Ok headers =>
      match credentials with
      | None => (Ok headers, None)
      | Some c => let '(r, c) := apply (env_cookie_clock env hop) c target headers in (r, Some c)
      end
  end.
Definition ingest_of (env : Env) (hop : nat) (target : ValidatedUrl) (response : Response)
    (credentials : option CredentialSet) : result UpstreamErrorCode unit * option CredentialSet :=
  match credentials with
  | None => (Ok (), None)
  | Some c => let '(r, c) := ingest_response (env_ingest_clock env hop) c target (rp_headers response) in (r, Some c)
  end.

(** a request handed to the connector *)
Record Contact := { ct_target : ResolvedTarget; ct_headers : HeaderMap }.
(** [execute]: no request is made when the deadline has passed *)
Definition execute (env : Env) (hop : nat) (l : UpstreamLimits) (request : FetchRequest) (target : ResolvedTarget)
    (headers : HeaderMap) (total_deadline : instant) : list Contact * result UpstreamErrorCode Response :=
  match remaining total_deadline (env_execute_clock env hop) with
  | Err e => ([], Err e)
  | Ok total_remaining =>
      let header_is_total := (total_remaining <=? header_timeout l)%Z in
      ([{| ct_target := target; ct_headers := headers |}],
       match env_execute env hop target (fr_method request) headers with
       | WasCancelled => Err Cancelled
       | Settled value => value
       | Elapsed => Err (if header_is_total then TotalTimeout else HeaderTimeout)
       end)
  end.
(** the target a redirect names *)
Definition redirect_target (l : UpstreamLimits) (request : FetchRequest) (target : ValidatedUrl)
    (redirects : nat) (response : Response) : result UpstreamErrorCode ValidatedUrl :=
  _ ← reject_if (Nat.leb (max_redirects l) redirects) RedirectLimit;
  location ← match hm_get_all (rp_headers response) "location" with
             | [value] => if header_to_str_ok value then Ok value else Err RedirectInvalid
             | _ => Err RedirectInvalid
             end;
  validate_redirect (fr_policy request) target location.
(** the response of a hop that is not a redirect *)
Definition final_response (l : UpstreamLimits) (request : FetchRequest) (target : ResolvedTarget)
    (redirects : nat) (total_deadline : instant) (credentials : option CredentialSet) (response : Response)
    : result UpstreamErrorCode UpstreamResponse :=
  _ ← reject_if (bool_decide (fr_method request = Get)
                 && is_some_and (fun length => max_response_bytes l <? length)%Z (rp_content_length response))
        BodyTooLarge;
  _ ← reject_if (is_some_and (fun value => negb (header_to_str_ok value && String.eqb (to_lower (trim value)) "identity"))
                   (hm_get (rp_headers response) "content-encoding")) UpstreamProtocol;
  headers ← sanitize_response_headers (rp_headers response) credentials;
  Ok {| ur_status := rp_status response; ur_headers := headers; ur_origin := origin_of (rt_target target);
        ur_final_url := vu_url (rt_target target); ur_redirects := redirects;
        ur_total_deadline := total_deadline; ur_idle_timeout := idle_timeout l;
        ur_max_response_bytes := max_response_bytes l |}.

(** what the loop returns: the requests made, the result unless the fuel ran out, the credential set *)
Definition fetched : Type := list Contact * option (result UpstreamErrorCode UpstreamResponse) * option CredentialSet.
Fixpoint fetch_loop (fuel : nat) (env : Env) (l : UpstreamLimits) (request : FetchRequest)
    (total_deadline : instant) (credentials : option CredentialSet) (target : ValidatedUrl)
    (visited : list string) (redirects : nat) : fetched :=
  match fuel with
  | O => ([], None, credentials)
  | S fuel =>
      if bool_decide (canonical_visit_key target ∈ visited) then ([], Some (Err RedirectLoop), credentials) else
      match resolve env redirects request target total_deadline with
      | Err e => ([], Some (Err e), credentials)
      | Ok resolved =>
          let credentials := interfere (env_others env redirects) credentials in
          match request_headers_of env redirects request (rt_target resolved) credentials with
          | (Err e, credentials) => ([], Some (Err e), credentials)
          | (Ok headers, credentials) =>
              match execute env redirects l request resolved headers total_deadline with
              | (contacts, Err e) => (contacts, Some (Err e), credentials)
              | (contacts, Ok response) =>
                  match validate_raw_headers (rp_headers response) l with
                  | Err e => (contacts, Some (Err e), credentials)
                  | Ok _ =>
                      let credentials := interfere (env_others_ingest env redirects) credentials in
                      match ingest_of env redirects (rt_target resolved) response credentials with
                      | (Err e, credentials) => (contacts, Some (Err e), credentials)
                      | (Ok _, credentials) =>
                          if is_redirect (rp_status response) then
                            match redirect_target l request (rt_target resolved) redirects response with
                            | Err e => (contacts, Some (Err e), credentials)
                            | Ok next =>
                                let '(more, result, credentials) :=
                                  fetch_loop fuel env l request total_deadline credentials next
                                    (canonical_visit_key target :: visited) (S redirects) in
                                (contacts ++ more, result, credentials)
                            end
                          else
                            let credentials := interfere (env_others_sanitize env) credentials in
                            (contacts, Some (final_response l request resolved redirects total_deadline credentials response),
                             credentials)
                      end
                  end
              end
          end
      end
  end.
Definition fetch (env : Env) (l : UpstreamLimits) (request : FetchRequest) (credentials : option CredentialSet) : fetched :=
  match validate_initial (fr_policy request) (fr_url request) with
  | Err e => ([], Some (Err e), credentials)
  | Ok target =>
      fetch_loop (S (max_redirects l)) env l request (env_started env + total_timeout l) credentials target [] 0
  end.
End fetch.

(** ** The credential set during a fetch *)
Section sets.
Context `{U : UrlOps} `{D : DateOps} `{O : HeaderOps} {OL : HeaderLaws O}.

(** the set after [calls] on its jar *)
Definition set_after (c : CredentialSet) (calls : list jar_call) : CredentialSet :=
  with_cookies c (run_jar (cs_cookies c) calls).
Lemma set_after_nil c : set_after c [] = c.
Proof. by destruct c. Qed.
Lemma set_after_app c a b : set_after (set_after c a) b = set_after c (a ++ b).
Proof. unfold set_after, run_jar. cbn [with_cookies cs_cookies]. by rewrite foldl_app. Qed.
Lemma interfere_some calls c : interfere calls (Some c) = Some (set_after c calls).
Proof. done. Qed.
Lemma set_after_wf d c calls : set_wf d c -> set_wf d (set_after c calls).
Proof. intros Hw. apply with_cookies_wf; [done|]. by apply run_jar_ok, (sw_jar d). Qed.

Lemma apply_calls now c target output : exists calls, (apply now c target output).2 = set_after c calls.
Proof.
  unfold apply. destruct (find_authority c target) as [a|]; [|exists []; by rewrite set_after_nil].
  destruct (if na_send_request_headers a then _ else _) as [h|e]; [|exists []; by rewrite set_after_nil].
  destruct (na_send_cookies a); [|exists []; by rewrite set_after_nil].
  exists [Send now target]. unfold set_after, run_jar. cbn [foldl run_jar_call].
  by destruct (header_value now target (cs_cookies c)).
Qed.
Lemma ingest_all_calls now target values jar : exists calls, (ingest_all now target values jar).2 = run_jar jar calls.
Proof.
  revert jar. induction values as [|v values IH]; intros jar; cbn [ingest_all]; [by exists []|].
  destruct (header_to_str_ok v); [|by exists []].
  assert ((ingest now target v jar).2 = run_jar jar [Receive now target v]) as Hone by done.
  destruct (ingest now target v jar) as [[u|e] jar']; cbn [snd] in Hone; [|by exists [Receive now target v]].
  destruct (IH jar') as [calls Hc]. exists (Receive now target v :: calls). rewrite Hc, Hone. done.
Qed.
Lemma ingest_response_calls now c target headers :
  exists calls, (ingest_response now c target headers).2 = set_after c calls.
Proof.
  unfold ingest_response. destruct (existsb _ _); [|exists []; by rewrite set_after_nil].
  destruct (ingest_all_calls now target (hm_get_all headers "set-cookie") (cs_cookies c)) as [calls Hc].
  exists calls. unfold set_after. rewrite <- Hc. by destruct (ingest_all _ _ _ _).
Qed.

(** ** One hop *)
(** the headers of a request: the server's own, and what the authorities allow of the credentials *)
Definition headers_scoped (d : SourceDescriptor) (request : FetchRequest) (credentials : option CredentialSet)
    (target : ValidatedUrl) (headers : HeaderMap) : Prop :=
  exists base, to_header_map (fr_safe_headers request) = Ok base /\
    (headers = base \/
     exists c value a now calls, credentials = Some c /\ value ∈ credential_authorities d /\
       authority_try_from value = Ok a /\ na_matches a target = true /\
       credentials_sent d (header_value now target (run_jar (cs_cookies c) calls)).1 target base headers a).
Definition descriptor_of (d : SourceDescriptor) (credentials : option CredentialSet) : Prop :=
  forall c, credentials = Some c -> set_wf d c.
Lemma descriptor_of_some d c : set_wf d c -> descriptor_of d (Some c).
Proof. by intros Hw ? [= <-]. Qed.
(** [later] is the set of the fetch at a later moment *)
Definition later (first now : option CredentialSet) : Prop :=
  match first, now with
  | Some c, Some c' => exists calls, c' = set_after c calls
  | None, None => True
  | _, _ => False
  end.
Lemma later_refl x : later x x.
Proof. destruct x as [c|]; [|done]. exists []. by rewrite set_after_nil. Qed.
Lemma later_trans x y z : later x y -> later y z -> later x z.
Proof.
  destruct x, y, z; cbn; try done. intros [a ->] [b ->]. exists (a ++ b). apply set_after_app.
Qed.
Lemma later_interfere x calls : later x (interfere calls x).
Proof. destruct x as [c|]; [|done]. by exists calls. Qed.
Lemma later_wf d x y : later x y -> descriptor_of d x -> descriptor_of d y.
Proof.
  intros Hl Hd c ->. destruct x as [c0|]; [|done]. destruct Hl as [calls ->]. by apply set_after_wf, Hd.
Qed.
Lemma request_headers_of_ok d env hop request target first credentials r credentials' :
  descriptor_of d first -> later first credentials ->
  request_headers_of env hop request target credentials = (r, credentials') ->
  later first credentials' /\ forall headers, r = Ok headers -> headers_scoped d request first target headers.
Proof.
  intros Hd Hl. unfold request_headers_of, headers_scoped.
  destruct (to_header_map (fr_safe_headers request)) as [base|e]; [|intros [= <- <-]; split; [done|discriminate]].
  destruct credentials as [c|]; [|intros [= <- <-]; split; [done|intros headers [= <-]; eauto]].
  destruct first as [c0|]; [|done]. destruct Hl as [calls ->]. pose proof (Hd c0 eq_refl) as Hw0.
  pose proof (set_after_wf d c0 calls Hw0) as Hw. set (c := set_after c0 calls) in *.
  assert (later (Some c0) (Some (apply (env_cookie_clock env hop) c target base).2)) as Hl'.
  { destruct (apply_calls (env_cookie_clock env hop) c target base) as [calls' ->]. subst c.
    exists (calls ++ calls'). by rewrite set_after_app. }
  destruct (find_authority c target) as [a|] eqn:Ha.
  - destruct (apply_sends (env_cookie_clock env hop) d c target base a Hw Ha) as (out & c' & Hr & Hs).
    destruct (find_authority_some _ _ _ _ Hw Ha) as (Hm & value & Hv & Hav). rewrite Hr in *.
    intros [= <- <-]. split; [done|]. intros headers [= <-]. exists base. split; [done|]. right.
    exists c0, value, a, (env_cookie_clock env hop), calls. by split_and!.
  - rewrite apply_no_authority in * by done. intros [= <- <-]. split; [done|]. intros headers [= <-]. eauto.
Qed.
Lemma ingest_of_ok env hop target response credentials r credentials' :
  ingest_of env hop target response credentials = (r, credentials') -> later credentials credentials'.
Proof.
  unfold ingest_of. destruct credentials as [c|]; [|by intros [= _ <-]].
  destruct (ingest_response_calls (env_ingest_clock env hop) c target (rp_headers response)) as [calls Hc].
  destruct (ingest_response _ _ _ _) as [r' c'] eqn:Hi. intros [= _ <-]. cbn in *. exists calls. done.
Qed.
Lemma resolve_ok env hop request target deadline rt :
  resolve env hop request target deadline = Ok rt ->
  exists addresses, resolution_permitted (fr_policy request) target addresses rt.
Proof. unfold resolve. intros Hr. ok_inv. eexists. by apply resolve_target_ok. Qed.
Lemma execute_ok env hop l request target headers deadline contacts r :
  execute env hop l request target headers deadline = (contacts, r) ->
  (contacts = [] \/ contacts = [{| ct_target := target; ct_headers := headers |}]) /\
  (is_ok r = true -> contacts = [{| ct_target := target; ct_headers := headers |}]).
Proof.
  unfold execute. destruct (remaining _ _) as [rem|e]; intros [= <- <-]; [by auto|].
  split; [by left|done].
Qed.
Lemma redirect_target_ok l request target redirects response next :
  redirect_target l request target redirects response = Ok next ->
  redirects < max_redirects l /\ url_permitted (fr_policy request) (Some target) next.
Proof.
  unfold redirect_target. intros Hr. ok_inv. match goal with H : (_ <=? _) = false |- _ => apply Nat.leb_gt in H end.
  split; [done|]. by apply validate_redirect_ok in Hr as [_ ?].
Qed.

(** ** The chain of requests *)
Definition contact_ok (d : SourceDescriptor) (request : FetchRequest) (first : option CredentialSet)
    (previous : option ValidatedUrl) (ct : Contact) : Prop :=
  let target := rt_target (ct_target ct) in
  url_permitted (fr_policy request) previous target /\
  (exists addresses, resolution_permitted (fr_policy request) target addresses (ct_target ct)) /\
  headers_scoped d request first target (ct_headers ct).
Fixpoint contacts_ok (d : SourceDescriptor) (request : FetchRequest) (first : option CredentialSet)
    (previous : option ValidatedUrl) (contacts : list Contact) : Prop :=
  match contacts with
  | [] => True
  | ct :: contacts =>
      contact_ok d request first previous ct /\
      contacts_ok d request first (Some (rt_target (ct_target ct))) contacts
  end.
Definition visit_key (ct : Contact) : string := canonical_visit_key (rt_target (ct_target ct)).

(** what the loop guarantees from any point on *)
Record loop_ok (d : SourceDescriptor) (l : UpstreamLimits) (request : FetchRequest) (first : option CredentialSet)
    (previous : option ValidatedUrl) (visited : list string) (redirects : nat) (f : fetched) : Prop := {
  lo_contacts : contacts_ok d request first previous f.1.1;
  lo_fresh : forall ct, ct ∈ f.1.1 -> visit_key ct ∉ visited;
  lo_distinct : NoDup (visit_key <$> f.1.1);
  lo_bounded : redirects + length f.1.1 <= S (max_redirects l);
  lo_returns : is_Some f.1.2;
  lo_later : later first f.2;
}.
Lemma loop_stops d l request first previous visited redirects contacts r credentials ct :
  contacts = [] \/ contacts = [ct] -> redirects <= max_redirects l ->
  contact_ok d request first previous ct -> visit_key ct ∉ visited -> later first credentials ->
  loop_ok d l request first previous visited redirects (contacts, Some r, credentials).
Proof.
  intros [-> | ->] Hr Hc Hv Hl; split; cbn; try done.
  - by intros x Hx%elem_of_nil.
  - constructor.
  - lia.
  - by intros x ->%list_elem_of_singleton.
  - apply NoDup_singleton.
  - lia.
Qed.
Lemma loop_fails d l request first previous visited redirects r credentials :
  redirects <= max_redirects l -> later first credentials ->
  loop_ok d l request first previous visited redirects ([], Some r, credentials).
Proof. intros Hr Hl. split; cbn; try done; [by intros x Hx%elem_of_nil|constructor|lia]. Qed.
Lemma loop_continues d l request first previous visited redirects ct f :
  contact_ok d request first previous ct -> visit_key ct ∉ visited ->
  loop_ok d l request first (Some (rt_target (ct_target ct))) (visit_key ct :: visited) (S redirects) f ->
  loop_ok d l request first previous visited redirects ([ct] ++ f.1.1, f.1.2, f.2).
Proof.
  intros Hc Hv []. split; cbn [fst snd app length]; try done.
  - intros x [->|Hx]%elem_of_cons; [done|]. apply lo_fresh0 in Hx. set_solver.
  - rewrite fmap_cons. constructor; [|done]. intros (x & Hx & Hin)%list_elem_of_fmap.
    apply lo_fresh0 in Hin. apply Hin, elem_of_cons. by left.
  - lia.
Qed.

Lemma fetch_loop_ok d env l request deadline first fuel : descriptor_of d first ->
  forall credentials target visited redirects previous,
  later first credentials -> url_permitted (fr_policy request) previous target ->
  redirects <= max_redirects l -> max_redirects l < redirects + fuel ->
  loop_ok d l request first previous visited redirects
    (fetch_loop fuel env l request deadline credentials target visited redirects).
Proof.
  intros Hd. induction fuel as [|fuel IH]; intros credentials target visited redirects previous Hl Hu Hr Hf; [lia|].
  cbn [fetch_loop]. case_bool_decide as Hv; [by apply loop_fails|].
  destruct (resolve env redirects request target deadline) as [resolved|e] eqn:Hres; [|by apply loop_fails].
  apply resolve_ok in Hres as [addresses Hres]. pose proof Hres as [Ht _].
  pose proof (later_trans _ _ _ Hl (later_interfere credentials (env_others env redirects))) as Hl1.
  set (c1 := interfere (env_others env redirects) credentials) in *. clearbody c1.
  destruct (request_headers_of env redirects request (rt_target resolved) c1) as [rh c2] eqn:Hh.
  apply (request_headers_of_ok d _ _ _ _ first) in Hh as [Hl2 Hh]; [|done..].
  destruct rh as [headers|e]; [|by apply loop_fails]. specialize (Hh headers eq_refl).
  set (ct := {| ct_target := resolved; ct_headers := headers |}).
  assert (contact_ok d request first previous ct) as Hct.
  { unfold contact_ok. cbn [ct ct_target ct_headers]. rewrite Ht in *. split_and!; eauto. }
  assert (visit_key ct ∉ visited) as Hfresh by (unfold visit_key; cbn [ct ct_target]; by rewrite Ht).
  destruct (execute env redirects l request resolved headers deadline) as [contacts [response|e]] eqn:He;
    apply execute_ok in He as [He1 He2]; [specialize (He2 eq_refl)|by apply (loop_stops _ _ _ _ _ _ _ _ _ _ ct)].
  destruct (validate_raw_headers (rp_headers response) l) as [u|e]; [|by apply (loop_stops _ _ _ _ _ _ _ _ _ _ ct)].
  pose proof (later_trans _ _ _ Hl2 (later_interfere c2 (env_others_ingest env redirects))) as Hl3.
  set (c3 := interfere (env_others_ingest env redirects) c2) in *. clearbody c3.
  destruct (ingest_of env redirects (rt_target resolved) response c3) as [ri c4] eqn:Hi. apply ingest_of_ok in Hi.
  pose proof (later_trans _ _ _ Hl3 Hi) as Hl4. clear Hi.
  destruct ri as [u'|e]; [|by apply (loop_stops _ _ _ _ _ _ _ _ _ _ ct)].
  destruct (is_redirect (rp_status response)).
  - destruct (redirect_target l request (rt_target resolved) redirects response) as [next|e] eqn:Hn;
      [|by apply (loop_stops _ _ _ _ _ _ _ _ _ _ ct)].
    apply redirect_target_ok in Hn as [Hlt Hn].
    specialize (IH c4 next (canonical_visit_key target :: visited) (S redirects) (Some (rt_target resolved))
      Hl4 Hn ltac:(lia) ltac:(lia)).
    assert (canonical_visit_key target = visit_key ct) as Hkey by (unfold visit_key; cbn [ct ct_target]; by rewrite Ht).
    rewrite Hkey in IH |- *.
    destruct (fetch_loop fuel env l request deadline c4 next (visit_key ct :: visited) (S redirects)) as [[more result] c5].
    subst contacts. by apply (loop_continues d l request first previous visited redirects ct (more, result, c5)).
  - apply (loop_stops _ _ _ _ _ _ _ _ _ _ ct); [done..|]. eapply later_trans; [exact Hl4|apply later_interfere].
Qed.

(** ** The response *)
(** nothing in [value] that [credentials] or the canary marks as secret *)
Definition clean_value (credentials : option CredentialSet) (value : string) : Prop :=
  contains_sub "ELIXIR_LIVE_CANARY_" value = false /\
  forall c, credentials = Some c -> value_is_sensitive c value = false.
Lemma hm_append_get_all name value h name' :
  hm_get_all (hm_append name value h) name' = if decide (name = name') then hm_get_all h name ++ [value] else hm_get_all h name'.
Proof.
  unfold hm_append, hm_get_all. case_decide as Hn; [subst; by rewrite lookup_insert_eq|by rewrite lookup_insert_ne].
Qed.
Lemma sanitize_values_ok credentials name values output out :
  sanitize_values credentials name values output = Ok out ->
  Forall (clean_value credentials) values /\
  forall name', hm_get_all out name' = if decide (name = name') then hm_get_all output name' ++ values else hm_get_all output name'.
Proof.
  revert output. induction values as [|v values IH]; intros output Hs; cbn [sanitize_values] in Hs; ok_inv.
  { split; [constructor|]. intros name'. case_decide; [by rewrite app_nil_r|done]. }
  bool_hyps. apply IH in Hs as [Hf Hs]. split.
  - constructor; [|done]. split; [done|]. by intros c ->.
  - intros name'. rewrite Hs, hm_append_get_all. case_decide as Hn; [subst|done]. by rewrite <- app_assoc.
Qed.
Lemma sanitize_names_ok credentials headers names output out :
  sanitize_names credentials headers names output = Ok out ->
  forall name value, value ∈ hm_get_all out name ->
    value ∈ hm_get_all output name \/ name ∈ names /\ value ∈ hm_get_all headers name /\ clean_value credentials value.
Proof.
  revert output. induction names as [|n names IH]; intros output Hs name value Hv; cbn [sanitize_names] in Hs; ok_inv; [by left|].
  match goal with H : sanitize_values _ _ _ _ = Ok _ |- _ => apply sanitize_values_ok in H as [Hf Ha] end.
  destruct (IH _ Hs name value Hv) as [Hin|(Hn & Hin & Hc)]; [|right; split_and!; [by right|done..]].
  rewrite Ha in Hin. case_decide as Hn; [subst n|by left]. apply elem_of_app in Hin as [Hin|Hin]; [by left|right].
  rewrite Forall_forall in Hf. split_and!; [by left|done|by apply Hf].
Qed.
Lemma sanitize_response_headers_ok headers credentials out :
  sanitize_response_headers headers credentials = Ok out ->
  forall name value, value ∈ hm_get_all out name ->
    name ∈ allowed_response_headers /\ value ∈ hm_get_all headers name /\ clean_value credentials value.
Proof.
  intros Hs name value Hv. destruct (sanitize_names_ok _ _ _ _ _ Hs name value Hv) as [Hin|?]; [|done].
  unfold hm_get_all in Hin. rewrite lookup_empty in Hin. by apply elem_of_nil in Hin.
Qed.

Lemma fetch_loop_final d env l request deadline first fuel : descriptor_of d first ->
  forall credentials target visited redirects contacts resp credentials',
  later first credentials ->
  fetch_loop fuel env l request deadline credentials target visited redirects = (contacts, Some (Ok resp), credentials') ->
  exists ct response, last contacts = Some ct /\ later first credentials' /\ is_redirect (rp_status response) = false /\
    final_response l request (ct_target ct) (redirects + length contacts - 1) deadline credentials' response = Ok resp.
Proof.
  intros Hd. induction fuel as [|fuel IH]; intros credentials target visited redirects contacts resp credentials' Hl Hf; [done|].
  cbn [fetch_loop] in Hf. case_bool_decide; [done|].
  destruct (resolve env redirects request target deadline) as [resolved|e]; [|done].
  pose proof (later_trans _ _ _ Hl (later_interfere credentials (env_others env redirects))) as Hl1.
  set (c1 := interfere (env_others env redirects) credentials) in *. clearbody c1.
  destruct (request_headers_of env redirects request (rt_target resolved) c1) as [[headers|e] c2] eqn:Hh; [|done].
  apply (request_headers_of_ok d _ _ _ _ first) in Hh as [Hl2 _]; [|done..].
  destruct (execute env redirects l request resolved headers deadline) as [cs [response|e]] eqn:He; [|done].
  apply execute_ok in He as [_ He]. specialize (He eq_refl). subst cs.
  destruct (validate_raw_headers (rp_headers response) l) as [u|e]; [|done].
  pose proof (later_trans _ _ _ Hl2 (later_interfere c2 (env_others_ingest env redirects))) as Hl3.
  set (c3 := interfere (env_others_ingest env redirects) c2) in *. clearbody c3.
  destruct (ingest_of env redirects (rt_target resolved) response c3) as [[u'|e] c4] eqn:Hi; [|done]. apply ingest_of_ok in Hi.
  pose proof (later_trans _ _ _ Hl3 Hi) as Hl4. clear Hi Hl Hl1 Hl2 Hl3.
  destruct (is_redirect (rp_status response)) eqn:Hred.
  - destruct (redirect_target l request (rt_target resolved) redirects response) as [next|e]; [|done].
    destruct (fetch_loop fuel env l request deadline c4 next _ _) as [[more result] c5] eqn:Hloop. injection Hf as <- -> ->.
    apply IH in Hloop as (ct & r & Hlast & Hl' & Hr & Hfin); [|done]. exists ct, r. split_and!; [|done|done|].
    + destruct more; [done|]. rewrite <- Hlast. done.
    + destruct more; [done|]. cbn [app length] in *. rewrite <- Hfin. f_equal. lia.
  - injection Hf as <- Hf <-. eexists _, response. split_and!; [done| |done|].
    + eapply later_trans; [exact Hl4|apply later_interfere].
    + cbn [length ct_target]. by replace (redirects + 1 - 1) with redirects by lia.
Qed.
End sets.

(** ** Reading the body *)
(** what the connection yields at each read, with the reading of the clock before it *)
Inductive stream_outcome := StreamChunk (bytes : string) | StreamEnd | StreamError | StreamElapsed | StreamCancelled.
Record ChunkEvent := { ce_clock : instant; ce_outcome : stream_outcome }.
(** [next_chunk]: the result and the counter [bytes_received], which wraps *)
Definition next_chunk (r : UpstreamResponse) (received : Z) (e : ChunkEvent)
    : result UpstreamErrorCode (option string) * Z :=
  match remaining (ur_total_deadline r) (ce_clock e) with
  | Err e => (Err e, received)
  | Ok total_remaining =>
      let total_wins := (total_remaining <=? ur_idle_timeout r)%Z in
      match ce_outcome e with
      | StreamCancelled => (Err Cancelled, received)
      | StreamError => (Err UpstreamProtocol, received)
      | StreamElapsed => (Err (if total_wins then TotalTimeout else IdleTimeout), received)
      | StreamEnd => (Ok None, received)
      | StreamChunk bytes =>
          let received' := ((received + slen bytes) mod (u64_max + 1))%Z in
          if (ur_max_response_bytes r <? u64_saturating_add received (slen bytes))%Z
          then (Err BodyTooLarge, received') else (Ok (Some bytes), received')
      end
  end.
(** the loop of [collect_bounded] over the events; [None] while the body has not ended *)
Fixpoint collect_loop (r : UpstreamResponse) (maximum : Z) (received : Z) (output : string)
    (events : list ChunkEvent) : option (result UpstreamErrorCode string) :=
  match events with
  | [] => None
  | e :: events =>
      match next_chunk r received e with
      | (Err e, _) => Some (Err e)
      | (Ok None, _) => Some (Ok output)
      | (Ok (Some chunk), received) =>
          if (maximum <? u64_saturating_add (slen output) (slen chunk))%Z then Some (Err BodyTooLarge)
          else collect_loop r maximum received (output +:+ chunk) events
      end
  end.
Definition collect_bounded (r : UpstreamResponse) (content_length : option Z) (received maximum : Z)
    (events : list ChunkEvent) : option (result UpstreamErrorCode string) :=
  if ((maximum =? 0) || (ur_max_response_bytes r <? maximum))%Z then Some (Err BodyTooLarge)
  else if is_some_and (fun length => maximum <? length)%Z content_length then Some (Err BodyTooLarge)
  else collect_loop r maximum received "" events.
Definition collect (r : UpstreamResponse) (content_length : option Z) (received : Z) (events : list ChunkEvent)
    : option (result UpstreamErrorCode string) :=
  collect_bounded r content_length received (ur_max_response_bytes r) events.

(** the reads that deliver [chunks] before the deadline, and the one that ends the body *)
Definition delivers (r : UpstreamResponse) (chunks : list string) (reads : list ChunkEvent) : Prop :=
  Forall2 (fun chunk e => (ce_clock e < ur_total_deadline r)%Z /\ ce_outcome e = StreamChunk chunk) chunks reads.
Definition ends_body (r : UpstreamResponse) (e : ChunkEvent) : Prop :=
  (ce_clock e < ur_total_deadline r)%Z /\ ce_outcome e = StreamEnd.
Fixpoint concat_str (l : list string) : string :=
  match l with [] => "" | s :: l => s +:+ concat_str l end.

Lemma next_chunk_end r received e : (next_chunk r received e).1 = Ok None <-> ends_body r e.
Proof.
  unfold next_chunk, ends_body, remaining. destruct (Z.ltb_spec (ce_clock e) (ur_total_deadline r)); [|cbn; naive_solver lia].
  destruct (ce_outcome e); try (cbn; naive_solver). destruct (_ <? _)%Z; cbn; naive_solver.
Qed.
Lemma next_chunk_some r received e chunk : (0 <= received <= u64_max)%Z -> (ur_max_response_bytes r < u64_max)%Z ->
  (next_chunk r received e).1 = Ok (Some chunk) <->
  (ce_clock e < ur_total_deadline r)%Z /\ ce_outcome e = StreamChunk chunk /\
    (received + slen chunk <= ur_max_response_bytes r)%Z.
Proof.
  intros Hr Hm. unfold next_chunk, remaining. destruct (Z.ltb_spec (ce_clock e) (ur_total_deadline r)); [|cbn; naive_solver lia].
  destruct (ce_outcome e) as [bytes| | | |]; try (cbn; naive_solver).
  unfold u64_saturating_add. destruct (Z.ltb_spec (ur_max_response_bytes r) (Z.min (received + slen bytes) u64_max)); cbn.
  - split; [done|]. intros (_ & [= ->] & ?). lia.
  - split; [intros [= ->]; split_and!; [done|done|lia]|by intros (_ & [= ->] & _)].
Qed.

Lemma slen_concat_nonneg l : (0 <= slen (concat_str l))%Z.
Proof. apply slen_nonneg. Qed.
Lemma collect_loop_ok r maximum received output events body :
  (0 <= received <= u64_max)%Z -> (ur_max_response_bytes r < u64_max)%Z -> (maximum < u64_max)%Z ->
  (received <= ur_max_response_bytes r)%Z -> (slen output <= maximum)%Z ->
  collect_loop r maximum received output events = Some (Ok body) <->
  exists chunks reads last rest, events = reads ++ last :: rest /\ delivers r chunks reads /\ ends_body r last /\
    body = output +:+ concat_str chunks /\ (slen body <= maximum)%Z /\
    (received + slen (concat_str chunks) <= ur_max_response_bytes r)%Z.
Proof.
  intros Hr Hm Hx Hle Ho. revert received output Hr Hle Ho. induction events as [|e events IH]; intros received output Hr Hle Ho; cbn [collect_loop].
  { split; [done|]. by intros (chunks & [|] & last & rest & ? & _). }
  pose proof (next_chunk_end r received e) as Hend. pose proof (fun chunk => next_chunk_some r received e chunk Hr Hm) as Hsome.
  destruct (next_chunk r received e) as [[[chunk|]|err] received'] eqn:Hn; cbn [fst] in *.
  - destruct (proj1 (Hsome chunk) eq_refl) as (Hc & Hoc & Hb). pose proof (slen_nonneg chunk). pose proof (slen_nonneg output).
    assert (received' = received + slen chunk)%Z as Hrec.
    { unfold next_chunk, remaining in Hn. destruct (_ <? _)%Z; [|done]. rewrite Hoc in Hn.
      destruct (_ <? u64_saturating_add _ _)%Z; [done|]. injection Hn as <-. apply Z.mod_small. lia. }
    assert (slen (output +:+ chunk) = slen output + slen chunk)%Z as Hl by apply slen_app.
    assert (forall chunks reads last rest, e :: events = reads ++ last :: rest -> delivers r chunks reads -> ends_body r last ->
      exists chunks' reads', chunks = chunk :: chunks' /\ reads = e :: reads' /\ delivers r chunks' reads' /\ events = reads' ++ last :: rest) as Hsplit.
    { intros chunks reads last rest Heq Hd He. destruct reads as [|e' reads].
      - injection Heq as <- <-. destruct He as [_ He]. congruence.
      - injection Heq as <- ->. inversion Hd as [|c ? chunks' ? [_ Hc'] Hd']; subst.
        rewrite Hoc in Hc'. injection Hc' as <-. by exists chunks', reads. }
    unfold u64_saturating_add. destruct (Z.ltb_spec maximum (Z.min (slen output + slen chunk) u64_max)).
    + split; [done|]. intros (chunks & reads & last & rest & Heq & Hd & He & -> & Hlen & _).
      destruct (Hsplit _ _ _ _ Heq Hd He) as (chunks' & reads' & -> & _). cbn [concat_str] in Hlen.
      rewrite !slen_app in Hlen. pose proof (slen_concat_nonneg chunks'). lia.
    + rewrite IH by lia. split.
      * intros (chunks & reads & last & rest & -> & Hd & He & -> & Hlen & Hrecv).
        exists (chunk :: chunks), (e :: reads), last, rest. cbn [concat_str].
        split_and!; [done|by constructor|done|by rewrite str_app_assoc|done|rewrite slen_app; lia].
      * intros (chunks & reads & last & rest & Heq & Hd & He & -> & Hlen & Hrecv).
        destruct (Hsplit _ _ _ _ Heq Hd He) as (chunks' & reads' & -> & -> & Hd' & ->). cbn [concat_str] in *.
        exists chunks', reads', last, rest. rewrite slen_app in Hrecv.
        split_and!; [done|done|done|by rewrite str_app_assoc|done|lia].
  - destruct (proj1 Hend eq_refl) as [Hc Hoc]. split.
    + intros [= <-]. exists [], [], e, events. cbn [concat_str]. rewrite str_app_nil_r.
      split_and!; [done|by apply Forall2_nil_2|done|done|done|change (slen "") with 0%Z; lia].
    + intros (chunks & [|e' reads] & last & rest & Heq & Hd & He & -> & _).
      * inversion Hd; subst. cbn [concat_str]. by rewrite str_app_nil_r.
      * injection Heq as <- _. inversion Hd as [|? ? ? ? [_ Hc'] _]; subst. congruence.
  - split; [done|]. intros (chunks & reads & last & rest & Heq & Hd & He & -> & Hlen & Hrecv). exfalso.
    destruct reads as [|e' reads].
    + injection Heq as <- _. by apply Hend in He.
    + injection Heq as <- ->. inversion Hd as [|c ? chunks' ? [Hc Hoc] Hd']; subst. cbn [concat_str] in *.
      pose proof (slen_concat_nonneg chunks'). rewrite slen_app in Hrecv.
      enough (@Err UpstreamErrorCode (option string) err = Ok (Some c)) by done. apply Hsome. split_and!; [done..|lia].
Qed.

(** ** Properties *)
(** C38: every request of a fetch is permitted, and the fetch ends.  Whatever the resolver, the connector, the
    clock and other fetches that share the credentials do, each request handed to the connector is for a URL
    the policy permits after the previous one (so never http after https), to addresses the policy permits,
    with the server's own headers plus only what the credential authorities allow for that very URL; no URL
    is requested twice, there are at most [max_redirects + 1] requests, and the loop always returns. *)
Theorem fetch_requests_permitted `{UrlOps} `{DateOps} `{O : HeaderOps} {OL : HeaderLaws O} d env l request credentials :
  descriptor_of d credentials ->
  match fetch env l request credentials with
  | (contacts, result, credentials') =>
      contacts_ok d request credentials None contacts /\ NoDup (visit_key <$> contacts) /\
      length contacts <= S (max_redirects l) /\ is_Some result /\ later credentials credentials'
  end.
Proof.
  intros Hd. unfold fetch. destruct (validate_initial (fr_policy request) (fr_url request)) as [target|e] eqn:Hv.
  - apply validate_initial_ok in Hv as [_ Hv].
    pose proof (fetch_loop_ok d env l request (env_started env + total_timeout l) credentials (S (max_redirects l)) Hd
      credentials target [] 0 None (later_refl _) Hv ltac:(lia) ltac:(lia)) as Hok.
    destruct (fetch_loop _ _ _ _ _ _ _ _ _) as [[contacts result] c']. by destruct Hok.
  - split_and!; [done|constructor|cbn; lia|done|apply later_refl].
Qed.

(** The response of a fetch discloses no secret.  A successful fetch ends with its last request, whose
    origin and URL the response carries, after as many redirects as there were requests before it; the
    response is no redirect, and its headers are among eleven harmless ones, with values that hold neither
    the canary nor, as a substring, any secret of the descriptor of eight bytes or more (headers, cookies,
    origin, referer, refresh handle, the source URL) nor a cookie of the jar. *)
Theorem fetch_response_clean `{UrlOps} `{DateOps} `{O : HeaderOps} {OL : HeaderLaws O} d env l request c contacts resp credentials' :
  set_wf d c ->
  fetch env l request (Some c) = (contacts, Some (Ok resp), credentials') ->
  exists ct c', last contacts = Some ct /\ credentials' = Some c' /\ set_wf d c' /\
    ur_origin resp = origin_of (rt_target (ct_target ct)) /\ ur_final_url resp = vu_url (rt_target (ct_target ct)) /\
    length contacts = S (ur_redirects resp) /\ is_redirect (ur_status resp) = false /\
    forall name value, value ∈ hm_get_all (ur_headers resp) name ->
      name ∈ allowed_response_headers /\ contains_sub "ELIXIR_LIVE_CANARY_" value = false /\
      contains_secret (cs_cookies c') value = false /\
      forall secret, secret ∈ cs_sensitive_values c' -> (8 <= slen secret)%Z -> contains_sub secret value = false.
Proof.
  intros Hw Hf. pose proof (descriptor_of_some d c Hw) as Hd.
  unfold fetch in Hf. destruct (validate_initial _ _) as [target|e]; [|done].
  apply (fetch_loop_final d _ _ _ _ (Some c)) in Hf as (ct & response & Hlast & Hl & Hr & Hfin); [|done|apply later_refl].
  destruct credentials' as [c'|]; [|done]. exists ct, c'.
  pose proof (later_wf d _ _ Hl Hd) as Hd'. unfold final_response in Hfin. ok_inv.
  cbn [ur_origin ur_final_url ur_redirects ur_status ur_headers].
  split_and!; [done..|by apply Hd'|done|done| |done|].
  - destruct contacts; [done|]. cbn [length]. lia.
  - intros name value Hv.
    match goal with H : sanitize_response_headers _ _ = Ok _ |- _ =>
      destruct (sanitize_response_headers_ok _ _ _ H name value Hv) as (Hn & _ & Hc & Hs) end.
    specialize (Hs c' eq_refl). unfold value_is_sensitive in Hs. bool_hyps. split_and!; [done..|].
    intros secret Hin Hlen. match goal with H : existsb _ _ = false |- _ => rename H into He end.
    destruct (contains_sub secret value) eqn:Hsub; [|done]. exfalso.
    enough (existsb (fun secret => (8 <=? slen secret)%Z && contains_sub secret value) (cs_sensitive_values c') = true) by congruence.
    apply existsb_exists. exists secret. split; [by apply list_elem_of_In|]. rewrite Hsub, andb_true_r. by apply Z.leb_le.
Qed.

(** Collecting a body is exact and bounded.  [collect_bounded] returns a body exactly when the limit is
    positive and within the response's, the announced length is within the limit, and the reads before the
    deadline deliver chunks and then the end; the body is then the concatenation of these chunks, and fits
    both the limit and, with what was read before, the limit of the response.  The counter never wraps. *)
Theorem collected_body_exact r content_length received maximum events body :
  (0 <= received <= ur_max_response_bytes r)%Z -> (ur_max_response_bytes r < u64_max)%Z -> (0 <= maximum)%Z ->
  collect_bounded r content_length received maximum events = Some (Ok body) <->
  (0 < maximum <= ur_max_response_bytes r)%Z /\ (forall n, content_length = Some n -> (n <= maximum)%Z) /\
  exists chunks reads last rest, events = reads ++ last :: rest /\ delivers r chunks reads /\ ends_body r last /\
    body = concat_str chunks /\ (slen body <= maximum)%Z /\ (received + slen body <= ur_max_response_bytes r)%Z.
Proof.
  intros Hr Hm Hx. unfold collect_bounded.
  destruct (Z.eqb_spec maximum 0); cbn [orb]; [split; [done|lia]|].
  destruct (Z.ltb_spec (ur_max_response_bytes r) maximum); [split; [done|lia]|].
  destruct (is_some_and _ content_length) eqn:Hc.
  { split; [done|]. intros (_ & Hn & _). destruct content_length as [n'|]; [|done]. specialize (Hn n' eq_refl).
    cbn in Hc. bool_hyps. lia. }
  rewrite collect_loop_ok by (change (slen "") with 0%Z; lia). split.
  - intros (chunks & reads & last & rest & -> & Hd & He & -> & Hlen & Hrecv). rewrite str_app_nil_l in *.
    split_and!; [lia..| |by eauto 10]. intros n' ->. cbn in Hc. by bool_hyps.
  - intros (_ & _ & chunks & reads & last & rest & -> & Hd & He & -> & Hlen & Hrecv). by eauto 12.
Qed.
