(* ===== verification/UpstreamWitness.v ===== *)
(** * A concrete fetch: instances of the theorems about the upstream client

    A source on a.example with a header, a cookie and one credential authority is fetched; the server
    redirects to b.example, which gets none of the credentials. *)
From S2P Require Import Prelude Addresses LiveContract EgressPolicy SessionTypes Planner UpstreamPolicy CookieJar UpstreamCredentials UpstreamFetcher.

Definition web_url (host path : string) : Url :=
  {| u_scheme := "https"; u_username := ""; u_password := None; u_host := Some host;
     u_port_or_known_default := Some 443%Z; u_path := path; u_query := None; u_fragment := None;
     u_as_str := "https://" +:+ host +:+ path |}.
Definition web : list Url := [web_url "a.example" "/live"; web_url "b.example" "/seg"].
Definition web_parse (s : string) : option Url := List.find (fun u => String.eqb (u_as_str u) s) web.
#[export] Instance web_url_ops : UrlOps := {| Url_parse := web_parse; Url_join _ := web_parse |}.
#[export] Instance web_date_ops : DateOps := {| parse_http_date _ := None |}.
#[export] Instance web_header_ops : HeaderOps :=
  {| header_name_ok _ := true; header_value_ok := all_bytes printable; header_to_str_ok := all_bytes printable |}.
#[export] Instance web_header_laws : HeaderLaws web_header_ops.
Proof. by split. Qed.

Definition web_cookie : ProviderCookie :=
  {| pc_name := "sid"; pc_value := "abc123456"; pc_domain := None; pc_path := None; pc_secure := true;
     pc_http_only := true; pc_expires_at := None |}.
Definition web_source : SourceDescriptor :=
  {| stream_id := "s1"; label := "Main"; quality := None; language := None; priority := 0;
     protocol := Hls; url := "https://a.example/live"; request_headers := {["X-Key" := "secret-key"]};
     cookies := [web_cookie]; origin := None; referer := None;
     credential_authorities := [{| ca_scheme := "https"; ca_host := "A.example"; ca_port := 443;
       ca_send_request_headers := true; ca_send_cookies := true; ca_send_origin := true; ca_send_referer := true |}];
     client_disclosure := ServerOnly; expires_at := None; refresh_handle := None; server_egress := NotRequired;
     private_network := false; time_shift := {| available := false; window_seconds := None |}; media := None |}.
Definition web_target (host path : string) : ValidatedUrl :=
  {| vu_url := web_url host path; vu_scheme := "https"; vu_host := host; vu_port := 443 |}.
Definition a_target : ValidatedUrl := web_target "a.example" "/live".
Definition b_target : ValidatedUrl := web_target "b.example" "/seg".

Definition ok_or_default {E A} (x : result E A) (d : A) : A := match x with Ok a => a | Err _ => d end.
Definition empty_set : CredentialSet :=
  {| cs_request_headers := []; cs_cookies := jar_default; cs_origin := None; cs_referer := None;
     cs_authorities := []; cs_sensitive_values := [] |}.
Definition web_set : CredentialSet := ok_or_default (from_descriptor web_source) empty_set.
Lemma web_set_built : from_descriptor web_source = Ok web_set.
Proof. by vm_compute. Qed.
Lemma web_set_wf : set_wf web_source web_set.
Proof. apply from_descriptor_wf, web_set_built. Qed.

(** ** Cookies *)
Definition web_jar : CookieJar := ok_or_default (from_provider [web_cookie] "a.example" "/live") jar_default.
Lemma web_jar_built : from_provider [web_cookie] "a.example" "/live" = Ok web_jar.
Proof. by vm_compute. Qed.
Definition web_calls : list jar_call :=
  [Receive 5 a_target "theme=dark; Domain=.example; Path=/; Secure"; Send 6 a_target;
   Receive 7 a_target "broken"; Receive 8 a_target "theme=light; Domain=.example; Path=/; Secure"].
Definition theme_cookie : StoredCookie :=
  {| sc_name := "theme"; sc_value := "light"; sc_domain := "example"; sc_path := "/"; sc_host_only := false;
     sc_secure := true; sc_expires_at := None; sc_sequence := 2 |}.

Lemma jar_stays_valid_witness : jar_wf (run_jar web_jar web_calls).
Proof. exact (jar_stays_valid _ _ _ _ web_calls web_jar_built). Defined.
Lemma cookies_stay_in_their_domain_witness : covers (sc_domain theme_cookie) (vu_host b_target).
Proof.
  assert (theme_cookie ∈ selected_cookies (header_value 9 b_target (run_jar web_jar web_calls)).2 b_target) as Hin
    by (apply (list_elem_of_lookup_2 _ 0); vm_compute; reflexivity).
  destruct (cookies_stay_in_their_domain _ _ _ _ web_calls 9 b_target theme_cookie web_jar_built Hin) as (_ & Hc & _).
  exact Hc.
Defined.
Lemma cookie_header_complete_witness :
  (header_value 9 a_target (run_jar web_jar web_calls)).1 = Some "sid=abc123456; theme=light" /\
  all_bytes printable "sid=abc123456; theme=light" = true.
Proof.
  split; [by vm_compute|].
  destruct (cookie_header_complete 9 a_target (run_jar web_jar web_calls)) as (selected & _ & _ & _ & _ & Hm).
  { apply run_jar_ok. by destruct (from_provider_ok _ _ _ _ web_jar_built). }
  destruct (header_value 9 a_target (run_jar web_jar web_calls)).1 as [text|] eqn:Ht; [|vm_compute in Ht; discriminate].
  destruct Hm as (_ & _ & Hp). vm_compute in Ht. injection Ht as <-. exact Hp.
Defined.
Lemma set_cookie_sent_back_witness :
  exists c, sc_name c = "n" /\ sc_value c = "v" /\
    c ∈ selected_cookies (header_value 5 a_target (ingest 5 a_target "n=v; Max-Age=60" web_jar).2).2 a_target.
Proof.
  destruct (parse_set_cookie 5 a_target "n=v; Max-Age=60") as [[[name value] at_]|e] eqn:Hp; [|vm_compute in Hp; discriminate].
  pose proof Hp as Hv. vm_compute in Hv. injection Hv as <- <- Ha.
  destruct (ingest 5 a_target "n=v; Max-Age=60" web_jar) as [[[]|e] jar'] eqn:Hi; [|vm_compute in Hi; discriminate].
  destruct (set_cookie_sent_back 5 a_target "n=v; Max-Age=60" web_jar jar' "n" "v" at_ Hp Hi) as (c & Hn & Hv & Hs & _);
    try (subst at_; vm_compute; reflexivity).
  exists c. split; [exact Hn|]. split; [exact Hv|exact Hs].
Defined.

(** ** Credentials *)
Lemma credentials_go_to_their_authorities_witness :
  exists out c', apply 5 web_set b_target ∅ = (Ok out, c') /\ out = ∅.
Proof.
  destruct (credentials_go_to_their_authorities 5 web_source web_set b_target ∅ web_set_wf) as (out & c' & Ha & _ & Hm).
  exists out, c'. split; [exact Ha|]. assert (find_authority web_set b_target = None) as Hn by (vm_compute; reflexivity).
  rewrite Hn in Hm. exact (proj1 Hm).
Defined.

(** ** The fetch *)
Definition web_policy : DestinationPolicy :=
  {| dp_rules := []; dp_private_lan := gate_default; dp_allow_http := false; dp_allow_public_discovery := true;
     dp_local_denylist := {| deny_addresses := []; deny_networks := [] |} |}.
Definition web_request : FetchRequest :=
  {| fr_url := "https://a.example/live"; fr_method := Get; fr_policy := web_policy; fr_safe_headers := ∅ |}.
Definition web_env : Env :=
  {| env_started := 0; env_resolve_clock _ := 1%Z; env_execute_clock _ := 2%Z; env_cookie_clock _ := 3%Z;
     env_ingest_clock _ := 4%Z; env_resolve _ _ _ := Settled (Ok [V4 1572395042]);
     env_execute hop _ _ _ :=
       Settled (Ok (if Nat.eqb hop 0
                    then {| rp_status := 302; rp_headers := {["location" := ["https://b.example/seg"]]}; rp_content_length := None |}
                    else {| rp_status := 200; rp_headers := {["content-type" := ["video/mp4"]]}; rp_content_length := Some 5%Z |}));
     env_others _ := []; env_others_ingest _ := []; env_others_sanitize := [] |}.
Definition web_fetch : fetched := fetch web_env limits_default web_request (Some web_set).
Definition fetched_ok (f : fetched) : bool :=
  match f.1.2 with Some (Ok _) => bool_decide (length f.1.1 = 2) | _ => false end.
Example web_fetch_succeeds : fetched_ok web_fetch = true.
Proof. by vm_compute. Qed.

Lemma fetch_requests_permitted_witness :
  NoDup (visit_key <$> web_fetch.1.1) /\ contacts_ok web_source web_request (Some web_set) None web_fetch.1.1.
Proof.
  pose proof (fetch_requests_permitted web_source web_env limits_default web_request (Some web_set)
    (descriptor_of_some _ _ web_set_wf)) as Hf. unfold web_fetch. destruct (fetch _ _ _ _) as [[contacts result] c']. destruct Hf as (Hc & Hn & _).
  split; [exact Hn|exact Hc].
Defined.
Definition web_response : UpstreamResponse :=
  {| ur_status := 200; ur_headers := ∅; ur_origin := origin_of a_target; ur_final_url := web_url "a.example" "/live";
     ur_redirects := 0; ur_total_deadline := 100; ur_idle_timeout := 10; ur_max_response_bytes := 8 |}.
Definition web_result : UpstreamResponse :=
  match web_fetch.1.2 with Some (Ok resp) => resp | _ => web_response end.
Lemma web_fetch_result :
  fetch web_env limits_default web_request (Some web_set) = (web_fetch.1.1, Some (Ok web_result), web_fetch.2).
Proof. vm_compute. reflexivity. Qed.
Lemma fetch_response_clean_witness : is_redirect (ur_status web_result) = false.
Proof.
  destruct (fetch_response_clean web_source web_env limits_default web_request web_set _ _ _ web_set_wf web_fetch_result)
    as (ct & c'' & _ & _ & _ & _ & _ & _ & Hr & _). exact Hr.
Defined.

Definition web_reads : list ChunkEvent :=
  [{| ce_clock := 1; ce_outcome := StreamChunk "abc" |}; {| ce_clock := 2; ce_outcome := StreamChunk "de" |};
   {| ce_clock := 3; ce_outcome := StreamEnd |}].
Lemma collected_body_exact_witness :
  exists chunks reads last rest, web_reads = reads ++ last :: rest /\ delivers web_response chunks reads /\
    ends_body web_response last /\ "abcde" = concat_str chunks.
Proof.
  destruct (collected_body_exact web_response (Some 5%Z) 0 6 web_reads "abcde") as [Hf _];
    [cbn; lia|cbn; unfold u64_max; lia|lia|].
  destruct (Hf ltac:(vm_compute; reflexivity)) as (_ & _ & chunks & reads & last & rest & He & Hd & Hl & Hb & _).
  exists chunks, reads, last, rest. split; [exact He|]. split; [exact Hd|]. split; [exact Hl|exact Hb].
Defined.
