(* ===== verification/CatalogCircuit.v ===== *)
(** * The circuit breakers of provider calls (src/src/live/catalog/circuit.rs)

    A breaker per provider and operation stops calling a provider that keeps failing, and lets one probe
    through after a pause.  A cell is the [Arc<Mutex<CircuitState>>] of an entry: an operation first finds
    its cell, then locks it, and other operations may run in between and evict the entry; the cell then
    lives on for those that hold it.  [call] is an operation that nothing interrupts, [step] interleaves.  [tokio::time::Instant] is in nanoseconds. *)
From S2P Require Import Prelude LiveContract.

(** ** Operations of a provider (src/src/live/catalog/cache.rs) *)
Inductive CacheOperation := OpCatalogs | OpCatalog | OpMeta.
#[export] Instance CacheOperation_eq_dec : EqDecision CacheOperation.
Proof. solve_decision. Defined.
#[export] Instance CacheOperation_countable : Countable CacheOperation.
Proof.
  apply (inj_countable' (fun o => match o with OpCatalogs => 0 | OpCatalog => 1 | OpMeta => 2 end)
    (fun n : nat => match n with 0 => OpCatalogs | 1 => OpCatalog | _ => OpMeta end)). by intros [].
Defined.
Module CacheOperation.
Definition as_str (o : CacheOperation) : string :=
  match o with OpCatalogs => "catalogs" | OpCatalog => "catalog" | OpMeta => "meta" end.
Definition try_from (value : string) : option CacheOperation :=
  if String.eqb value "catalogs" then Some OpCatalogs
  else if String.eqb value "catalog" then Some OpCatalog
  else if String.eqb value "meta" then Some OpMeta
  else None.
Lemma try_from_as_str o : try_from (as_str o) = Some o.
Proof. by destruct o. Qed.
End CacheOperation.

(** ** One cell *)
Inductive CircuitAdmission := Allowed | Probe | Open.
#[export] Instance CircuitAdmission_eq_dec : EqDecision CircuitAdmission.
Proof. solve_decision. Defined.
Inductive CircuitMode := Closed | OpenUntil (until : instant) | HalfOpen.
Record CircuitState := { failures : Z; mode : CircuitMode }.
Definition circuit_default : CircuitState := {| failures := 0; mode := Closed |}.

Record BreakerConfig := { failure_threshold : Z; open_duration : Z; max_entries : nat }.
(** [ProviderCircuitBreakers::default] *)
Definition breaker_default : BreakerConfig :=
  {| failure_threshold := 5; open_duration := seconds 30; max_entries := 4096 |}.

(** the critical sections of [breaker_admit], [record_success] and [record_failure] *)
Definition admit_state (now : instant) (s : CircuitState) : CircuitAdmission * CircuitState :=
  match mode s with
  | Closed => (Allowed, s)
  | OpenUntil until =>
      if (now <? until)%Z then (Open, s) else (Probe, {| failures := failures s; mode := HalfOpen |})
  | HalfOpen => (Open, s)
  end.
Definition success_state (s : CircuitState) : CircuitState := {| failures := 0; mode := Closed |}.
Definition failure_state (cfg : BreakerConfig) (now : instant) (s : CircuitState) : CircuitState :=
  let n := u32_saturating_add (failures s) 1 in
  let half_open := match mode s with HalfOpen => true | _ => false end in
  {| failures := n;
     mode := if (failure_threshold cfg <=? n)%Z || half_open then OpenUntil (now + open_duration cfg) else mode s |}.

(** ** The map of cells *)
Notation CircuitKey := (uuid * CacheOperation)%type.
(** [cells] are the allocated [Arc]s, [entries] the map from keys to them *)
Record Breakers := { entries : gmap CircuitKey nat; cells : list CircuitState }.
Definition breakers_new : Breakers := {| entries := ∅; cells := [] |}.
(** [state]: [victim] is the first entry of the map's iteration order, evicted when the map is full *)
Definition state_of (cfg : BreakerConfig) (victim : option CircuitKey) (key : CircuitKey) (b : Breakers)
    : nat * Breakers :=
  match entries b !! key with
  | Some cell => (cell, b)
  | None =>
      let kept := if Nat.leb (max_entries cfg) (size (entries b))
                  then match victim with Some k => delete k (entries b) | None => entries b end
                  else entries b in
      let cell := length (cells b) in
      (cell, {| entries := <[key := cell]> kept; cells := cells b ++ [circuit_default] |})
  end.
Definition on_cell (cell : nat) (s : CircuitState) (b : Breakers) : Breakers :=
  {| entries := entries b; cells := <[cell := s]> (cells b) |}.

(** what a caller does with the cell it found *)
Inductive cell_op := Admit (now : instant) | Succeed | Fail_ (now : instant).
Definition run_cell_op (cfg : BreakerConfig) (op : cell_op) (s : CircuitState) : option CircuitAdmission * CircuitState :=
  match op with
  | Admit now => let '(a, s) := admit_state now s in (Some a, s)
  | Succeed => (None, success_state s)
  | Fail_ now => (None, failure_state cfg now s)
  end.
(** a call that runs without interleaving: find the cell, then lock it *)
Definition call (cfg : BreakerConfig) (victim : option CircuitKey) (key : CircuitKey) (op : cell_op) (b : Breakers)
    : option CircuitAdmission * Breakers :=
  let '(cell, b) := state_of cfg victim key b in
  match cells b !! cell with
  | Some s => let '(a, s) := run_cell_op cfg op s in (a, on_cell cell s b)
  | None => (None, b)
  end.
Definition breaker_admit (cfg : BreakerConfig) (victim : option CircuitKey) (provider_id : uuid) (operation : CacheOperation)
    (now : instant) (b : Breakers) : CircuitAdmission * Breakers :=
  let '(a, b) := call cfg victim (provider_id, operation) (Admit now) b in (default Open a, b).
Definition record_success (cfg : BreakerConfig) (victim : option CircuitKey) (provider_id : uuid)
    (operation : CacheOperation) (b : Breakers) : Breakers :=
  (call cfg victim (provider_id, operation) Succeed b).2.
Definition record_failure (cfg : BreakerConfig) (victim : option CircuitKey) (provider_id : uuid)
    (operation : CacheOperation) (now : instant) (b : Breakers) : Breakers :=
  (call cfg victim (provider_id, operation) (Fail_ now) b).2.

(** ** The reference: admission as a function of what was recorded *)
(** a history lists the operations on a cell, the newest first *)
Fixpoint run_history (cfg : BreakerConfig) (h : list cell_op) : CircuitState :=
  match h with
  | [] => circuit_default
  | op :: h => (run_cell_op cfg op (run_history cfg h)).2
  end.
(** failures since the last success *)
Fixpoint trailing_failures (h : list cell_op) : Z :=
  match h with
  | [] => 0
  | Admit _ :: h => trailing_failures h
  | Succeed :: _ => 0
  | Fail_ _ :: h => 1 + trailing_failures h
  end.
(** the last failure, and the admissions asked for since *)
Fixpoint last_failure (h : list cell_op) : option (instant * list instant) :=
  match h with
  | [] => None
  | Admit now :: h => match last_failure h with Some (t, l) => Some (t, now :: l) | None => None end
  | Succeed :: _ => None
  | Fail_ now :: _ => Some (now, [])
  end.
(** Below the threshold everything is allowed.  From the threshold on, the pause after the last failure is
    refused, the first request after the pause is the probe, and all others wait for its verdict. *)
Definition reference_admission (cfg : BreakerConfig) (h : list cell_op) (now : instant) : CircuitAdmission :=
  if (trailing_failures h <? failure_threshold cfg)%Z then Allowed
  else match last_failure h with
       | None => Allowed
       | Some (t, asked) =>
           let until := (t + open_duration cfg)%Z in
           if existsb (fun a => until <=? a)%Z asked then Open
           else if (now <? until)%Z then Open else Probe
       end.

Definition cfg_wf (cfg : BreakerConfig) : Prop := (0 < failure_threshold cfg <= u32_max)%Z.

Lemma trailing_nonneg h : (0 <= trailing_failures h)%Z.
Proof. induction h as [|[now| |now] h IH]; cbn [trailing_failures]; lia. Qed.
Lemma trailing_last h : last_failure h = None <-> trailing_failures h = 0%Z.
Proof.
  induction h as [|[now| |now] h IH]; cbn [trailing_failures last_failure]; [done| |done|].
  - destruct (last_failure h) as [[t l]|]; [|tauto]. split; [done|]. intros Hz. by apply IH in Hz.
  - pose proof (trailing_nonneg h). split; [done|lia].
Qed.

(** the state a history leads to *)
Definition reference_mode (cfg : BreakerConfig) (h : list cell_op) : CircuitMode :=
  if (trailing_failures h <? failure_threshold cfg)%Z then Closed
  else match last_failure h with
       | None => Closed
       | Some (t, asked) =>
           let until := (t + open_duration cfg)%Z in
           if existsb (fun a => until <=? a)%Z asked then HalfOpen else OpenUntil until
       end.
Lemma run_history_state cfg h : cfg_wf cfg ->
  failures (run_history cfg h) = Z.min (trailing_failures h) u32_max /\ mode (run_history cfg h) = reference_mode cfg h.
Proof.
  intros Hc. unfold cfg_wf in Hc. unfold reference_mode.
  induction h as [|[now| |now] h [IHf IHm]]; cbn [run_history run_cell_op].
  - cbn. destruct (Z.ltb_spec 0 (failure_threshold cfg)); [done|lia].
  - unfold admit_state. rewrite IHm. cbn [trailing_failures last_failure].
    destruct (Z.ltb_spec (trailing_failures h) (failure_threshold cfg)); [cbn; by rewrite IHf, IHm|].
    destruct (last_failure h) as [[t l]|]; [|cbn; by rewrite IHf, IHm]. cbn [existsb].
    destruct (existsb _ l) eqn:He; [cbn; rewrite IHf, IHm, orb_true_r; done|]. rewrite orb_false_r.
    destruct (Z.ltb_spec now (t + open_duration cfg)); cbn; rewrite IHf.
    + rewrite IHm. destruct (Z.leb_spec (t + open_duration cfg) now); [lia|done].
    + destruct (Z.leb_spec (t + open_duration cfg) now); [done|lia].
  - cbn. destruct (Z.ltb_spec 0 (failure_threshold cfg)); [done|lia].
  - pose proof (trailing_nonneg h). unfold failure_state. cbn [snd failures mode trailing_failures last_failure existsb].
    rewrite IHf. unfold u32_saturating_add. split; [lia|].
    destruct (Z.leb_spec (failure_threshold cfg) (Z.min (Z.min (trailing_failures h) u32_max + 1) u32_max)); cbn [orb].
    + destruct (Z.ltb_spec (1 + trailing_failures h) (failure_threshold cfg)); [lia|done].
    + rewrite IHm. destruct (Z.ltb_spec (trailing_failures h) (failure_threshold cfg)); [|lia].
      destruct (Z.ltb_spec (1 + trailing_failures h) (failure_threshold cfg)); [done|lia].
Qed.
Lemma admission_reference cfg h now : cfg_wf cfg ->
  (admit_state now (run_history cfg h)).1 = reference_admission cfg h now.
Proof.
  intros Hc. unfold admit_state, reference_admission. destruct (run_history_state cfg h Hc) as [_ ->]. unfold reference_mode.
  destruct (_ <? _)%Z; [done|]. destruct (last_failure h) as [[t l]|]; [|done]. destruct (existsb _ l); [done|].
  by destruct (now <? _)%Z.
Qed.

(** ** Interleavings *)
(** The lookup, the eviction and the insertion of [state] are separate accesses to the map, and a thread
    enters the cell it found later still.  A thread that missed may evict the entry it once saw first,
    whatever has happened since, so the model lets it evict any. *)
Inductive held := Missed (key : CircuitKey) | Found (cell : nat).
Inductive circuit_event :=
| Look (thread : nat) (key : CircuitKey)
| Evict (thread : nat) (victim : CircuitKey)
| Insert_ (thread : nat)
| Enter (thread : nat) (op : cell_op).
Record World := {
  w_breakers : Breakers;
  w_held : gmap nat held;             (* how far each thread is *)
  w_log : list (nat * cell_op);       (* the operations entered so far, the newest first *)
}.
Definition world_new : World := {| w_breakers := breakers_new; w_held := ∅; w_log := [] |}.
Definition with_breakers (b : Breakers) (w : World) : World :=
  {| w_breakers := b; w_held := w_held w; w_log := w_log w |}.
Definition hold (thread : nat) (h : held) (w : World) : World :=
  {| w_breakers := w_breakers w; w_held := <[thread := h]> (w_held w); w_log := w_log w |}.
Definition evict (victim : CircuitKey) (b : Breakers) : Breakers :=
  {| entries := delete victim (entries b); cells := cells b |}.
Definition allocate (key : CircuitKey) (b : Breakers) : Breakers :=
  {| entries := <[key := length (cells b)]> (entries b); cells := cells b ++ [circuit_default] |}.
Definition step (cfg : BreakerConfig) (w : World) (e : circuit_event) : option CircuitAdmission * World :=
  match e with
  | Look thread key =>
      (None, hold thread (match entries (w_breakers w) !! key with Some cell => Found cell | None => Missed key end) w)
  | Evict thread victim =>
      match w_held w !! thread with
      | Some (Missed _) => (None, with_breakers (evict victim (w_breakers w)) w)
      | _ => (None, w)
      end
  | Insert_ thread =>
      match w_held w !! thread with
      | Some (Missed key) =>
          match entries (w_breakers w) !! key with
          | Some cell => (None, hold thread (Found cell) w)
          | None => (None, hold thread (Found (length (cells (w_breakers w)))) (with_breakers (allocate key (w_breakers w)) w))
          end
      | _ => (None, w)
      end
  | Enter thread op =>
      match w_held w !! thread with
      | Some (Found cell) =>
          match cells (w_breakers w) !! cell with
          | None => (None, w)
          | Some s =>
              let '(a, s) := run_cell_op cfg op s in
              (a, {| w_breakers := on_cell cell s (w_breakers w); w_held := w_held w;
                     w_log := (cell, op) :: w_log w |})
          end
      | _ => (None, w)
      end
  end.
Definition run_events (cfg : BreakerConfig) (es : list circuit_event) (w : World) : World :=
  foldl (fun w e => (step cfg w e).2) w es.
Definition history_of (cell : nat) (log : list (nat * cell_op)) : list cell_op :=
  snd <$> List.filter (fun p => Nat.eqb p.1 cell) log.

Record world_wf (cfg : BreakerConfig) (w : World) : Prop := {
  ww_cells : forall cell s, cells (w_breakers w) !! cell = Some s -> s = run_history cfg (history_of cell (w_log w));
  ww_held : forall thread cell, w_held w !! thread = Some (Found cell) -> cell < length (cells (w_breakers w));
  ww_entries : forall key cell, entries (w_breakers w) !! key = Some cell -> cell < length (cells (w_breakers w));
  ww_injective : forall k k' cell, entries (w_breakers w) !! k = Some cell -> entries (w_breakers w) !! k' = Some cell -> k = k';
  ww_log : forall cell op, (cell, op) ∈ w_log w -> cell < length (cells (w_breakers w));
}.
Lemma history_of_fresh cell log : (forall c op, (c, op) ∈ log -> c <> cell) -> history_of cell log = [].
Proof.
  unfold history_of. induction log as [|[c op] log IH]; intros Hf; [done|]. cbn.
  destruct (Nat.eqb_spec c cell) as [->|]; [|apply IH; intros c' op' ?; apply (Hf c' op'); by right].
  exfalso. apply (Hf cell op); [by left|done].
Qed.
Lemma look_wf cfg w thread key : world_wf cfg w -> world_wf cfg (step cfg w (Look thread key)).2.
Proof.
  intros []. cbn [step snd]. split; cbn [hold w_breakers w_held w_log]; try done.
  intros th c. rewrite lookup_insert_Some. intros [[_ Hc]|[_ Hc]]; [|by eauto].
  destruct (entries _ !! key) eqn:He; [|done]. injection Hc as <-. by eapply ww_entries0.
Qed.
Lemma evict_wf cfg w thread victim : world_wf cfg w -> world_wf cfg (step cfg w (Evict thread victim)).2.
Proof.
  intros Hw. cbn [step]. destruct (w_held w !! thread) as [[key|cell]|]; [|done..]. destruct Hw.
  split; cbn [snd with_breakers w_breakers w_held w_log evict entries cells]; try done.
  - intros k c [_ Hk]%lookup_delete_Some. by eapply ww_entries0.
  - intros k k' c [_ Hk]%lookup_delete_Some [_ Hk']%lookup_delete_Some. by eauto.
Qed.
Lemma allocate_wf cfg w thread key :
  world_wf cfg w -> entries (w_breakers w) !! key = None ->
  world_wf cfg (hold thread (Found (length (cells (w_breakers w)))) (with_breakers (allocate key (w_breakers w)) w)).
Proof.
  intros [] He. split; cbn [hold with_breakers allocate w_breakers w_held w_log entries cells].
  - intros c s. rewrite lookup_app_Some. intros [?|[Hl Hs]]; [by apply ww_cells0|].
    apply list_lookup_singleton_Some in Hs as [Hz <-]. rewrite history_of_fresh; [done|].
    intros c' op Hin. apply ww_log0 in Hin. lia.
  - intros th c. rewrite length_app, lookup_insert_Some. cbn. intros [[_ Hc]|[_ Hc]]; [injection Hc as <-; lia|apply ww_held0 in Hc; lia].
  - intros k c. rewrite length_app, lookup_insert_Some. cbn. intros [[_ <-]|[_ Hc]]; [lia|apply ww_entries0 in Hc; lia].
  - intros k k' c. rewrite !lookup_insert_Some. intros [[<- <-]|[Hk Hc]] [[<- Hc']|[Hk' Hc']]; [done| | |by eauto].
    + apply ww_entries0 in Hc'. lia.
    + subst c. apply ww_entries0 in Hc. lia.
  - intros c op Hin. rewrite length_app. apply ww_log0 in Hin. cbn. lia.
Qed.
Lemma insert_wf cfg w thread : world_wf cfg w -> world_wf cfg (step cfg w (Insert_ thread)).2.
Proof.
  intros Hw. cbn [step]. destruct (w_held w !! thread) as [[key|cell]|]; [|done..].
  destruct (entries (w_breakers w) !! key) as [cell|] eqn:He; [|by apply allocate_wf]. destruct Hw.
  split; cbn [snd hold w_breakers w_held w_log]; try done.
  intros th c. rewrite lookup_insert_Some. intros [[_ Hc]|[_ Hc]]; [injection Hc as <-; by eapply ww_entries0|by eauto].
Qed.
Lemma circuit_enter_wf cfg w thread op : world_wf cfg w -> world_wf cfg (step cfg w (Enter thread op)).2.
Proof.
  intros Hw. cbn [step]. destruct (w_held w !! thread) as [[key|cell]|] eqn:Hh; [done| |done].
  destruct (cells (w_breakers w) !! cell) as [s|] eqn:Hc; [|done]. destruct (run_cell_op cfg op s) as [a s'] eqn:Hr.
  destruct Hw. split; cbn [snd w_breakers w_held w_log entries cells on_cell]; rewrite ?length_insert; try done.
  - intros c s''. rewrite list_lookup_insert_Some. unfold history_of. cbn.
    intros [(<- & <- & Hlt)|[Hne Hs]].
    + rewrite Nat.eqb_refl. cbn. rewrite (ww_cells0 _ _ Hc) in Hr. unfold history_of in Hr. by rewrite Hr.
    + apply Nat.eqb_neq in Hne. rewrite Hne. by apply ww_cells0.
  - intros c o [[= -> ->]|Hin]%elem_of_cons; [by eapply lookup_lt_Some|by eapply ww_log0].
Qed.
Lemma run_events_wf cfg es w : world_wf cfg w -> world_wf cfg (run_events cfg es w).
Proof.
  unfold run_events. revert w. induction es as [|e es IH]; intros w Hw; [done|]. cbn [foldl]. apply IH.
  destruct e; [by apply look_wf|by apply evict_wf|by apply insert_wf|by apply circuit_enter_wf].
Qed.
Lemma world_new_wf cfg : world_wf cfg world_new.
Proof. split; cbn; try done; intros; set_solver. Qed.

(** ** Calls that do not interleave, seen from one key *)
Record breakers_wf (b : Breakers) : Prop := {
  bw_cells : forall k cell, entries b !! k = Some cell -> is_Some (cells b !! cell);
  bw_injective : forall k k' cell, entries b !! k = Some cell -> entries b !! k' = Some cell -> k = k';
}.
Lemma breakers_new_wf : breakers_wf breakers_new.
Proof. by split. Qed.
Definition breaker (b : Breakers) (key : CircuitKey) : CircuitState :=
  match entries b !! key with
  | Some cell => default circuit_default (cells b !! cell)
  | None => circuit_default
  end.
Lemma state_of_breakers cfg victim key b : breakers_wf b ->
  let '(cell, b') := state_of cfg victim key b in
  breakers_wf b' /\ entries b' !! key = Some cell /\ cells b' !! cell = Some (breaker b key) /\
  (is_Some (entries b !! key) -> b' = b).
Proof.
  intros Hw. unfold state_of, breaker. destruct (entries b !! key) as [cell|] eqn:He.
  - destruct (bw_cells b Hw key cell He) as [s Hs]. by rewrite Hs.
  - set (kept := if (max_entries cfg <=? size (entries b)) then _ else _).
    assert (forall k c, kept !! k = Some c -> entries b !! k = Some c /\ c < length (cells b)) as Hkept.
    { intros k c Hk. assert (entries b !! k = Some c) as Hb by (revert Hk; subst kept; repeat case_match; rewrite ?lookup_delete_Some; naive_solver).
      split; [done|]. by eapply lookup_lt_is_Some, bw_cells. }
    clearbody kept. split_and!; cbn [entries cells].
    + split; cbn [entries cells].
      * intros k c. rewrite lookup_insert_Some. intros [[_ <-]|[_ Hc]].
        -- rewrite lookup_app_r, Nat.sub_diag by done. by eexists.
        -- apply Hkept in Hc as [_ Hc]. apply lookup_lt_is_Some. rewrite length_app. lia.
      * intros k k' c. rewrite !lookup_insert_Some. intros [[<- <-]|[Hk Hc]] [[<- Hc']|[Hk' Hc']]; [done| | |].
        -- apply Hkept in Hc'. lia.
        -- subst c. apply Hkept in Hc. lia.
        -- apply Hkept in Hc as [Hc _], Hc' as [Hc' _]. by eapply bw_injective.
    + apply lookup_insert_eq.
    + rewrite lookup_app_r, Nat.sub_diag by done. done.
    + intros [? Hx]. done.
Qed.
(** a call acts on the breaker of its key; with no eviction, on nothing else *)
Lemma call_breaker cfg victim key op b : breakers_wf b ->
  let '(a, b') := call cfg victim key op b in
  breakers_wf b' /\ is_Some (entries b' !! key) /\ a = (run_cell_op cfg op (breaker b key)).1 /\
  breaker b' key = (run_cell_op cfg op (breaker b key)).2 /\
  (is_Some (entries b !! key) -> entries b' = entries b /\ forall k, k <> key -> breaker b' k = breaker b k).
Proof.
  intros Hw. unfold call. pose proof (state_of_breakers cfg victim key b Hw) as Hs.
  destruct (state_of cfg victim key b) as [cell b1]. destruct Hs as (Hw1 & He & Hc & Hsame). rewrite Hc.
  destruct (run_cell_op cfg op (breaker b key)) as [a s] eqn:Hr. cbn [fst snd]. split_and!.
  - split; cbn [on_cell entries cells].
    + intros k c Hk. destruct (bw_cells b1 Hw1 k c Hk) as [x Hx]. apply lookup_lt_is_Some. rewrite length_insert.
      by eapply lookup_lt_Some.
    + apply (bw_injective b1 Hw1).
  - cbn. by eexists.
  - done.
  - unfold breaker. cbn [on_cell entries cells]. rewrite He. rewrite list_lookup_insert_eq; [done|]. by eapply lookup_lt_Some.
  - intros Hin. rewrite (Hsame Hin) in *. split; [done|]. intros k Hk. unfold breaker. cbn [on_cell entries cells].
    destruct (entries b !! k) as [c|] eqn:Hkc; [|done]. rewrite list_lookup_insert_ne; [done|]. intros <-.
    apply Hk. by eapply (bw_injective b Hw).
Qed.

(** calls that do not interleave: each with the victim it would evict *)
Record BreakerCall := { bc_victim : option CircuitKey; bc_key : CircuitKey; bc_op : cell_op }.
Definition run_calls (cfg : BreakerConfig) (l : list BreakerCall) (b : Breakers) : Breakers :=
  foldl (fun b c => (call cfg (bc_victim c) (bc_key c) (bc_op c) b).2) b l.
(** the iteration that picks a victim yields an entry of the map, if there is one *)
Definition victim_ok (b : Breakers) (c : BreakerCall) : Prop :=
  entries b <> ∅ -> exists k, bc_victim c = Some k /\ is_Some (entries b !! k).
Fixpoint victims_ok (cfg : BreakerConfig) (b : Breakers) (l : list BreakerCall) : Prop :=
  match l with
  | [] => True
  | c :: l => victim_ok b c /\ victims_ok cfg (call cfg (bc_victim c) (bc_key c) (bc_op c) b).2 l
  end.
Lemma call_entries cfg victim key op b : entries (call cfg victim key op b).2 = entries (state_of cfg victim key b).2.
Proof.
  unfold call. destruct (state_of cfg victim key b) as [cell b']. destruct (cells b' !! cell); [|done].
  by destruct (run_cell_op _ _ _).
Qed.
Lemma call_bounded cfg c b : 0 < max_entries cfg -> size (entries b) <= max_entries cfg -> victim_ok b c ->
  size (entries (call cfg (bc_victim c) (bc_key c) (bc_op c) b).2) <= max_entries cfg.
Proof.
  intros Hmax Hs Hv. rewrite call_entries. unfold state_of. destruct (entries b !! bc_key c) eqn:Hk; [done|]. cbn [snd entries].
  destruct (Nat.leb_spec (max_entries cfg) (size (entries b))) as [Hfull|Hroom].
  - destruct Hv as (k & -> & Hin); [intros He; rewrite He, map_size_empty in Hfull; lia|].
    rewrite map_size_insert_None by (rewrite lookup_delete_None; by right).
    rewrite map_size_delete_Some by done. lia.
  - rewrite map_size_insert_None by done. lia.
Qed.
(** a call is the events of its thread in a row *)
Lemma call_events cfg thread victim key op w : world_wf cfg w ->
  let es := Look thread key :: (if is_some_b (entries (w_breakers w) !! key) then []
      else (if Nat.leb (max_entries cfg) (size (entries (w_breakers w)))
            then match victim with Some k => [Evict thread k] | None => [] end else []) ++ [Insert_ thread])
    ++ [Enter thread op] in
  w_breakers (run_events cfg es w) = (call cfg victim key op (w_breakers w)).2.
Proof.
  intros Hw. unfold run_events, call, state_of. destruct (entries (w_breakers w) !! key) as [cell|] eqn:He; cbn [is_some_b].
  - cbn [foldl app step snd]. rewrite He. cbn [hold w_held w_breakers w_log]. rewrite lookup_insert_eq.
    destruct (cells (w_breakers w) !! cell); [|done]. by destruct (run_cell_op _ _ _).
  - set (full := max_entries cfg <=? _). destruct full, victim as [k|]; cbn [foldl app step snd]; rewrite He;
      repeat (cbn [hold with_breakers w_held w_breakers w_log evict allocate entries cells snd]; rewrite ?lookup_insert_eq);
      rewrite ?He; try (rewrite (proj2 (lookup_delete_None _ _ _)) by (by right));
      repeat (cbn [hold with_breakers w_held w_breakers w_log evict allocate entries cells snd]; rewrite ?lookup_insert_eq);
      rewrite lookup_app_r, Nat.sub_diag by done; cbn [lookup list_lookup]; by destruct (run_cell_op _ _ _).
Qed.

(** ** Properties *)
(** The circuit breaker decides as its reference.  Whatever the interleaving of threads that find a cell
    and enter it later, with evictions in between, a request for admission gets exactly the answer that the
    operations entered on its cell so far determine: everything is allowed below the threshold of failures
    since the last success; from then on requests during the pause after the last failure are refused, the
    first after it is the probe, and all others are refused until a success or a failure is recorded. *)
Theorem admission_matches_reference cfg es thread cell now :
  cfg_wf cfg ->
  let w := run_events cfg es world_new in
  w_held w !! thread = Some (Found cell) ->
  (step cfg w (Enter thread (Admit now))).1 = Some (reference_admission cfg (history_of cell (w_log w)) now).
Proof.
  intros Hc w Hh. pose proof (run_events_wf cfg es world_new (world_new_wf cfg)) as Hw. fold w in Hw. destruct Hw.
  cbn [step]. rewrite Hh. apply ww_held0 in Hh as Hlt. apply lookup_lt_is_Some in Hlt as [s Hs]. rewrite Hs.
  cbn [run_cell_op]. rewrite (ww_cells0 _ _ Hs). pose proof (admission_reference cfg (history_of cell (w_log w)) now Hc) as Ha.
  destruct (admit_state now _) as [a s']. cbn [fst] in *. by rewrite Ha.
Qed.

(** Breakers are bounded.  As long as the calls do not interleave, and the evicted entry is one of the map's,
    the map never holds more than [max_entries] breakers. *)
Theorem breakers_bounded cfg calls :
  0 < max_entries cfg -> victims_ok cfg breakers_new calls ->
  size (entries (run_calls cfg calls breakers_new)) <= max_entries cfg.
Proof.
  intros Hm. assert (size (entries breakers_new) <= max_entries cfg) as Hs by (cbn; rewrite map_size_empty; lia). revert Hs.
  unfold run_calls. generalize breakers_new. induction calls as [|c l IH]; intros b Hs Hv; [done|].
  destruct Hv as [Hv Hvs]. cbn [foldl]. apply IH; [by apply call_bounded|done].
Qed.

(** ** Concrete runs *)
Module Demo.
Definition small : BreakerConfig := {| failure_threshold := 2; open_duration := seconds 30; max_entries := 2 |}.
Definition key (n : N) : CircuitKey := (n, OpCatalog).
(** two threads that missed insert although only one place is left: nothing holds the bound for interleaved calls *)
Lemma interleaved_inserts_exceed_the_bound :
  let w := run_events small [Look 0 (key 1); Insert_ 0; Look 1 (key 2); Look 2 (key 3); Insert_ 1; Insert_ 2] world_new in
  size (entries (w_breakers w)) = 3.
Proof. vm_compute. reflexivity. Qed.
(** two failures open the breaker, a third call is refused, the first one after the pause is the probe *)
Definition failing : list circuit_event :=
  [Look 0 (key 1); Insert_ 0; Look 1 (key 1); Enter 0 (Fail_ 0%Z); Enter 1 (Fail_ 5%Z); Enter 0 (Admit 9%Z)].
Lemma admission_matches_reference_witness :
  (step small (run_events small failing world_new) (Enter 1 (Admit (seconds 31)))).1 = Some Probe.
Proof.
  rewrite (admission_matches_reference small failing 1 0 (seconds 31));
    [vm_compute; reflexivity|unfold cfg_wf; vm_compute; split; done|vm_compute; reflexivity].
Defined.
Definition three_calls : list BreakerCall :=
  [{| bc_victim := None; bc_key := key 1; bc_op := Succeed |}; {| bc_victim := Some (key 1); bc_key := key 2; bc_op := Fail_ 1%Z |};
   {| bc_victim := Some (key 2); bc_key := key 3; bc_op := Admit 2%Z |}].
Lemma breakers_bounded_witness : size (entries (run_calls small three_calls breakers_new)) <= 2.
Proof.
  apply (breakers_bounded small three_calls); [vm_compute; lia|]. repeat split.
  - intros He. by contradiction He.
  - intros _. exists (key 1). split; [done|]. eexists. vm_compute. reflexivity.
  - intros _. exists (key 2). split; [done|]. eexists. vm_compute. reflexivity.
Defined.
End Demo.
