(* ===== verification/CatalogCoalescer.v ===== *)
(** * One provider call for concurrent identical requests (src/src/live/catalog/coalesce.rs)

    Requests with the same cache key share a flight: the first one spawns the load, all wait for its result,
    and the last one to leave cancels the load.  The code runs on several threads, so the model is a step
    relation whose steps are the atomic accesses: the locked entry of the map, the atomic counter, the flag,
    the watch channel. *)
From S2P Require Import Prelude LiveContract.

Inductive CoalescedLoadError := LoadCancelled | LoadFailed (code : string).

Section coalescer.
Context {V : Type}.
Notation LoadResult := (result CoalescedLoadError V).

(** how far the spawned task of a flight is: loading, loaded, [completed] stored, result sent, entry removed *)
Inductive task_state :=
| Loading
| Loaded (r : LoadResult)
| Completed (r : LoadResult)
| Published (r : LoadResult)
| Removed (r : LoadResult).
Record Flight := {
  fl_key : string;
  fl_sender : option LoadResult;
  fl_upstream_cancelled : bool;
  fl_waiters : nat;
  fl_completed : bool;
  fl_task : task_state;
}.
Definition new_flight (key : string) : Flight :=
  {| fl_key := key; fl_sender := None; fl_upstream_cancelled := false; fl_waiters := 1;
     fl_completed := false; fl_task := Loading |}.
Definition add_waiter (f : Flight) : Flight :=
  {| fl_key := fl_key f; fl_sender := fl_sender f; fl_upstream_cancelled := fl_upstream_cancelled f;
     fl_waiters := S (fl_waiters f); fl_completed := fl_completed f; fl_task := fl_task f |}.
(** the [fetch_sub] of [remove_waiter] *)
Definition sub_waiter (f : Flight) : Flight :=
  {| fl_key := fl_key f; fl_sender := fl_sender f; fl_upstream_cancelled := fl_upstream_cancelled f;
     fl_waiters := fl_waiters f - 1; fl_completed := fl_completed f; fl_task := fl_task f |}.
(** the rest of [remove_waiter] after a [fetch_sub] that returned one *)
Definition cancel_unless_completed (f : Flight) : Flight :=
  {| fl_key := fl_key f; fl_sender := fl_sender f;
     fl_upstream_cancelled := fl_upstream_cancelled f || negb (fl_completed f);
     fl_waiters := fl_waiters f; fl_completed := fl_completed f; fl_task := fl_task f |}.
Definition with_task (t : task_state) (f : Flight) : Flight :=
  {| fl_key := fl_key f;
     fl_sender := match t with Published r | Removed r => Some r | _ => fl_sender f end;
     fl_upstream_cancelled := fl_upstream_cancelled f; fl_waiters := fl_waiters f;
     fl_completed := match t with Completed _ | Published _ | Removed _ => true | _ => fl_completed f end;
     fl_task := t |}.

(** a caller of [run]: waiting, past the [fetch_sub] as the last waiter, or done; [None] is a dropped future *)
Inductive caller :=
| Waiting (flight : nat)
| LeavingLast (flight : nat) (outcome : option LoadResult)
| Done (flight : nat) (outcome : option LoadResult).
Record Coalescer := {
  flights : gmap string nat;      (* the map of active flights, to allocated flights *)
  heap : list Flight;
  callers : gmap nat caller;
}.
Definition coalescer_new : Coalescer := {| flights := ∅; heap := []; callers := ∅ |}.
Definition on_flight (i : nat) (f : Flight) (s : Coalescer) : Coalescer :=
  {| flights := flights s; heap := <[i := f]> (heap s); callers := callers s |}.
Definition set_caller (c : nat) (x : caller) (s : Coalescer) : Coalescer :=
  {| flights := flights s; heap := heap s; callers := <[c := x]> (callers s) |}.
(** the guard of a caller is dropped: one waiter less, and a second step if it was the last *)
Definition leave (c i : nat) (f : Flight) (outcome : option LoadResult) (s : Coalescer) : Coalescer :=
  set_caller c (if Nat.eqb (fl_waiters f) 1 then LeavingLast i outcome else Done i outcome) (on_flight i (sub_waiter f) s).
(** the entry of [run], under the lock of the map's entry *)
Definition enter (c : nat) (key : string) (s : Coalescer) : Coalescer :=
  match flights s !! key with
  | Some i =>
      match heap s !! i with
      | Some f => set_caller c (Waiting i) (on_flight i (add_waiter f) s)
      | None => s
      end
  | None =>
      set_caller c (Waiting (length (heap s)))
        {| flights := <[key := length (heap s)]> (flights s); heap := heap s ++ [new_flight key]; callers := callers s |}
  end.

Inductive cstep : Coalescer -> Coalescer -> Prop :=
| step_enter c key s : callers s !! c = None -> cstep s (enter c key s)
| step_receive c i f r s :
    callers s !! c = Some (Waiting i) -> heap s !! i = Some f -> fl_sender f = Some r ->
    cstep s (leave c i f (Some r) s)
| step_cancelled c i f s :           (* the token of the waiter is cancelled *)
    callers s !! c = Some (Waiting i) -> heap s !! i = Some f ->
    cstep s (leave c i f (Some (Err LoadCancelled)) s)
| step_dropped c i f s :             (* the future of the waiter is dropped *)
    callers s !! c = Some (Waiting i) -> heap s !! i = Some f ->
    cstep s (leave c i f None s)
| step_last c i f o s :
    callers s !! c = Some (LeavingLast i o) -> heap s !! i = Some f ->
    cstep s (set_caller c (Done i o) (on_flight i (cancel_unless_completed f) s))
| step_loaded i f r s :              (* the loader returns, cancelled or not *)
    heap s !! i = Some f -> fl_task f = Loading -> cstep s (on_flight i (with_task (Loaded r) f) s)
| step_completed i f r s :
    heap s !! i = Some f -> fl_task f = Loaded r -> cstep s (on_flight i (with_task (Completed r) f) s)
| step_published i f r s :
    heap s !! i = Some f -> fl_task f = Completed r -> cstep s (on_flight i (with_task (Published r) f) s)
| step_removed i f r s :
    heap s !! i = Some f -> fl_task f = Published r ->
    cstep s {| flights := delete (fl_key f) (flights s);
               heap := <[i := with_task (Removed r) f]> (heap s); callers := callers s |}.
Definition reachable (s : Coalescer) : Prop := rtc cstep coalescer_new s.

(** ** The invariant *)
Definition active (f : Flight) : Prop := match fl_task f with Removed _ => False | _ => True end.
Definition waits_on (i : nat) (x : caller) : bool := match x with Waiting j => Nat.eqb i j | _ => false end.
Definition waiting_on (i : nat) (s : Coalescer) : gmap nat caller := filter (fun p => waits_on i p.2 = true) (callers s).
Definition task_ok (f : Flight) : Prop :=
  match fl_task f with
  | Loading | Loaded _ => fl_sender f = None /\ fl_completed f = false
  | Completed _ => fl_sender f = None /\ fl_completed f = true
  | Published r | Removed r => fl_sender f = Some r /\ fl_completed f = true
  end.
Definition caller_flight (x : caller) : nat := match x with Waiting i | LeavingLast i _ | Done i _ => i end.
(** an outcome is the caller's own cancellation, or the result its flight published *)
Definition outcome_ok (s : Coalescer) (x : caller) : Prop :=
  match x with
  | Waiting _ => True
  | LeavingLast i o | Done i o =>
      o = None \/ o = Some (Err LoadCancelled) \/ exists f r, heap s !! i = Some f /\ fl_sender f = Some r /\ o = Some r
  end.
Record coalescer_wf (s : Coalescer) : Prop := {
  cw_map : forall key i, flights s !! key = Some i <-> exists f, heap s !! i = Some f /\ fl_key f = key /\ active f;
  cw_task : forall i f, heap s !! i = Some f -> task_ok f;
  cw_waiters : forall i f, heap s !! i = Some f -> fl_waiters f = size (waiting_on i s);
  cw_callers : forall c x, callers s !! c = Some x -> caller_flight x < length (heap s);
  cw_outcomes : forall c x, callers s !! c = Some x -> outcome_ok s x;
}.
Lemma coalescer_new_wf : coalescer_wf coalescer_new.
Proof. split; cbn; intros; set_solver. Qed.

Lemma waiting_on_insert c x i s :
  waiting_on i (set_caller c x s) = if waits_on i x then <[c := x]> (waiting_on i s) else delete c (waiting_on i s).
Proof.
  unfold waiting_on, set_caller. cbn [callers]. destruct (waits_on i x) eqn:Hx.
  - by rewrite map_filter_insert_True.
  - rewrite map_filter_insert_False by (cbn; congruence). by rewrite map_filter_delete.
Qed.
Lemma waiting_on_lookup c i s x : waiting_on i s !! c = Some x <-> callers s !! c = Some x /\ waits_on i x = true.
Proof. unfold waiting_on. by rewrite map_lookup_filter_Some. Qed.
Lemma waiting_on_callers i s s' : callers s = callers s' -> waiting_on i s = waiting_on i s'.
Proof. unfold waiting_on. by intros ->. Qed.
Lemma outcome_ok_mono s s' x :
  (forall i f r, heap s !! i = Some f -> fl_sender f = Some r -> exists f', heap s' !! i = Some f' /\ fl_sender f' = Some r) ->
  outcome_ok s x -> outcome_ok s' x.
Proof.
  intros Hs. destruct x as [i|i o|i o]; cbn; [done|..];
    (intros [?|[?|(f & r & Hf & Hr & ->)]]; [by left|by right; left|right; right];
     destruct (Hs i f r Hf Hr) as (f' & ? & ?); by exists f', r).
Qed.
(** one flight changes, and the callers *)
Lemma flight_step_wf s i f f' cs :
  coalescer_wf s -> heap s !! i = Some f -> fl_key f' = fl_key f -> (active f' <-> active f) -> task_ok f' ->
  (forall r, fl_sender f = Some r -> fl_sender f' = Some r) ->
  let s' := {| flights := flights s; heap := <[i := f']> (heap s); callers := cs |} in
  fl_waiters f' = size (waiting_on i s') ->
  (forall j, j <> i -> waiting_on j s' = waiting_on j s) ->
  (forall c x, cs !! c = Some x -> caller_flight x < length (heap s)) ->
  (forall c x, cs !! c = Some x -> outcome_ok s x \/ outcome_ok s' x) -> coalescer_wf s'.
Proof.
  intros Hw Hf Hk Ha Ht Hsend s' Hwait Hother Hcall Hout. pose proof (lookup_lt_Some _ _ _ Hf) as Hlt.
  assert (forall j g, heap s' !! j = Some g -> j = i /\ g = f' \/ j <> i /\ heap s !! j = Some g) as Hheap.
  { intros j g. subst s'. cbn [heap]. rewrite list_lookup_insert_Some. naive_solver. }
  assert (heap s' !! i = Some f') as Hi by (subst s'; cbn [heap]; by apply list_lookup_insert_eq).
  split.
  - intros key j. subst s'. cbn [flights]. rewrite (cw_map s Hw). split.
    + intros (g & Hg & Hgk & Hga). destruct (decide (j = i)) as [->|Hne].
      * rewrite Hf in Hg. injection Hg as <-. exists f'. split; [done|]. split; [congruence|by apply Ha].
      * exists g. cbn [heap]. rewrite list_lookup_insert_ne by done. done.
    + intros (g & Hg & Hgk & Hga). apply Hheap in Hg as [[-> ->]|[Hne Hg]].
      * exists f. split; [done|]. split; [congruence|by apply Ha].
      * by exists g.
  - intros j g Hg. apply Hheap in Hg as [[-> ->]|[Hne Hg]]; [done|by eapply cw_task].
  - intros j g Hg. apply Hheap in Hg as [[-> ->]|[Hne Hg]]; [done|]. rewrite Hother by done. by eapply cw_waiters.
  - intros c x Hc. subst s'. cbn [heap]. rewrite length_insert. by eapply Hcall.
  - intros c x Hc. destruct (Hout c x Hc) as [Ho|Ho]; [|done]. eapply outcome_ok_mono; [|exact Ho].
    intros j g r Hg Hr. destruct (decide (j = i)) as [->|Hne].
    + rewrite Hf in Hg. injection Hg as <-. exists f'. split; [done|by apply Hsend].
    + exists g. subst s'. cbn [heap]. by rewrite list_lookup_insert_ne.
Qed.
(** the task of a flight moves, its entry stays *)
Lemma task_step_wf s i f t :
  coalescer_wf s -> heap s !! i = Some f -> (active (with_task t f) <-> active f) -> task_ok (with_task t f) ->
  fl_sender f = None -> coalescer_wf (on_flight i (with_task t f) s).
Proof.
  intros Hw Hf Ha Ht Hn. apply (flight_step_wf s i f); try done.
  - intros r Hr. congruence.
  - exact (cw_waiters s Hw i f Hf).
  - apply (cw_callers s Hw).
  - intros c x Hc. left. by eapply cw_outcomes.
Qed.
Lemma waiting_caller c i s : callers s !! c = Some (Waiting i) -> waiting_on i s !! c = Some (Waiting i).
Proof. intros Hc. apply waiting_on_lookup. split; [done|]. cbn. apply Nat.eqb_refl. Qed.
Lemma not_waiting c j s x : callers s !! c = Some x -> waits_on j x = false -> delete c (waiting_on j s) = waiting_on j s.
Proof.
  intros Hc Hx. apply delete_id. destruct (waiting_on j s !! c) as [y|] eqn:Hy; [|done].
  apply waiting_on_lookup in Hy as [Hy Hyx]. congruence.
Qed.
Lemma leave_wf s c i f o :
  coalescer_wf s -> callers s !! c = Some (Waiting i) -> heap s !! i = Some f ->
  (o = None \/ o = Some (Err LoadCancelled) \/ o = fl_sender f) -> coalescer_wf (leave c i f o s).
Proof.
  intros Hw Hc Hf Ho. unfold leave. set (x := if fl_waiters f =? 1 then _ else _).
  assert (forall j, waits_on j x = false) as Hx by (intros j; subst x; by destruct (_ =? _)).
  apply (flight_step_wf s i f (sub_waiter f)); try done.
  - exact (cw_task s Hw i f Hf).
  - change ({| flights := flights s; heap := _; callers := _ |}) with (set_caller c x (on_flight i (sub_waiter f) s)).
    rewrite waiting_on_insert, Hx. rewrite (waiting_on_callers i _ s) by done.
    rewrite map_size_delete_Some by (eexists; by apply waiting_caller). cbn [sub_waiter fl_waiters].
    rewrite (cw_waiters s Hw i f Hf). lia.
  - intros j Hj. change ({| flights := flights s; heap := _; callers := _ |}) with (set_caller c x (on_flight i (sub_waiter f) s)).
    rewrite waiting_on_insert, Hx. rewrite (waiting_on_callers j _ s) by done.
    apply (not_waiting _ _ _ _ Hc). cbn. by apply Nat.eqb_neq.
  - intros c' y. rewrite lookup_insert_Some. intros [[_ <-]|[_ Hy]]; [|by eapply cw_callers].
    pose proof (cw_callers s Hw c _ Hc) as Hlt. subst x. by destruct (_ =? _).
  - intros c' y. rewrite lookup_insert_Some. intros [[_ <-]|[_ Hy]]; [|left; by eapply cw_outcomes].
    left. assert (outcome_ok s (Done i o)) as Hd.
    { cbn. destruct Ho as [ -> | [ -> | -> ]]; [by left|by right; left|].
      destruct (fl_sender f) as [r|] eqn:Hr; [|by left]. right; right. by exists f, r. }
    subst x. by destruct (_ =? _).
Qed.
Lemma enter_wf s c key : coalescer_wf s -> callers s !! c = None -> coalescer_wf (enter c key s).
Proof.
  intros Hw Hc. unfold enter. destruct (flights s !! key) as [i|] eqn:Hk.
  - destruct (heap s !! i) as [f|] eqn:Hf; [|done].
    assert (forall j, callers s !! c = None -> waiting_on j s !! c = None) as Hn.
    { intros j _. destruct (waiting_on j s !! c) as [y|] eqn:Hy; [|done]. apply waiting_on_lookup in Hy as [Hy _]. congruence. }
    apply (flight_step_wf s i f (add_waiter f)); try done.
    + exact (cw_task s Hw i f Hf).
    + change ({| flights := flights s; heap := _; callers := _ |}) with (set_caller c (Waiting i) (on_flight i (add_waiter f) s)).
      rewrite waiting_on_insert. cbn [waits_on]. rewrite Nat.eqb_refl, (waiting_on_callers i _ s) by done.
      rewrite map_size_insert_None by auto. cbn [add_waiter fl_waiters]. by rewrite (cw_waiters s Hw i f Hf).
    + intros j Hj. change ({| flights := flights s; heap := _; callers := _ |}) with (set_caller c (Waiting i) (on_flight i (add_waiter f) s)).
      rewrite waiting_on_insert. cbn [waits_on]. apply Nat.eqb_neq in Hj. rewrite Hj, (waiting_on_callers j _ s) by done.
      apply delete_id. auto.
    + intros c' y. rewrite lookup_insert_Some. intros [[_ <-]|[_ Hy]]; [by eapply lookup_lt_Some|by eapply cw_callers].
    + intros c' y. rewrite lookup_insert_Some. intros [[_ <-]|[_ Hy]]; [by left|left; by eapply cw_outcomes].
  - set (n := length (heap s)).
    assert (forall key', flights s !! key' <> Some n) as Hfresh.
    { intros key' Hx. apply (cw_map s Hw) in Hx as (f & Hf & _). apply lookup_lt_Some in Hf. subst n. lia. }
    assert (forall j g, (heap s ++ [new_flight key]) !! j = Some g <-> heap s !! j = Some g \/ j = n /\ g = new_flight key) as Hheap.
    { intros j g. rewrite lookup_app_Some. split.
      - intros [?|[Hl Hs]]; [by left|right]. apply list_lookup_singleton_Some in Hs as [? <-]. subst n. split; [lia|done].
      - intros [?|[-> ->]]; [by left|right]. subst n. by rewrite Nat.sub_diag. }
    assert (forall c' x, callers s !! c' = Some x -> caller_flight x < n) as Hcall by apply (cw_callers s Hw).
    split; cbn [set_caller flights heap callers].
    + intros key' j. rewrite lookup_insert_Some. setoid_rewrite Hheap. split.
      * intros [[<- <-]|[Hne Hj]].
        -- exists (new_flight key). split; [by right|done].
        -- apply (cw_map s Hw) in Hj as (f & Hf & ? & ?). exists f. split; [by left|done].
      * intros (g & [Hg|[-> ->]] & Hgk & Hga); [|by left]. right.
        assert (flights s !! key' = Some j) as Hj by (apply (cw_map s Hw); by exists g). split; [congruence|done].
    + intros j g [Hg|[-> ->]]%Hheap; [by eapply cw_task|done].
    + intros j g Hg. change (fl_waiters g = size (waiting_on j (set_caller c (Waiting n) s))).
      rewrite waiting_on_insert. cbn [waits_on].
      assert (waiting_on j s !! c = None) as Hn.
      { destruct (waiting_on j s !! c) as [y|] eqn:Hy; [|done]. apply waiting_on_lookup in Hy as [Hy _]. congruence. }
      apply Hheap in Hg as [Hg|[-> ->]].
      * pose proof (lookup_lt_Some _ _ _ Hg). destruct (Nat.eqb_spec j n); [subst n; lia|].
        rewrite delete_id by done. by eapply cw_waiters.
      * rewrite Nat.eqb_refl, map_size_insert_None by done. cbn [new_flight fl_waiters].
        enough (waiting_on n s = ∅) as -> by by rewrite map_size_empty.
        apply map_empty. intros c'. destruct (waiting_on n s !! c') as [y|] eqn:Hy; [|done].
        apply waiting_on_lookup in Hy as [Hy Hyn]. apply Hcall in Hy. destruct y; [|done..]. cbn in *. apply Nat.eqb_eq in Hyn. lia.
    + intros c' y. rewrite lookup_insert_Some, length_app. cbn. intros [[_ <-]|[_ Hy]]; [cbn; subst n; lia|apply Hcall in Hy; subst n; lia].
    + intros c' y. rewrite lookup_insert_Some. intros [[_ <-]|[_ Hy]]; [done|]. eapply outcome_ok_mono; [|by eapply cw_outcomes].
      intros j g r Hg Hr. exists g. cbn [heap]. split; [apply Hheap; by left|done].
Qed.
Lemma last_wf s c i f o :
  coalescer_wf s -> callers s !! c = Some (LeavingLast i o) -> heap s !! i = Some f ->
  coalescer_wf (set_caller c (Done i o) (on_flight i (cancel_unless_completed f) s)).
Proof.
  intros Hw Hc Hf. assert (forall j, waiting_on j (set_caller c (Done i o) (on_flight i (cancel_unless_completed f) s)) = waiting_on j s) as Hs.
  { intros j. rewrite waiting_on_insert. cbn [waits_on]. rewrite (waiting_on_callers j _ s) by done. by eapply not_waiting. }
  apply (flight_step_wf s i f (cancel_unless_completed f)); try done.
  - exact (cw_task s Hw i f Hf).
  - rewrite Hs. exact (cw_waiters s Hw i f Hf).
  - intros c' y. rewrite lookup_insert_Some. intros [[_ <-]|[_ Hy]]; [by eapply lookup_lt_Some|by eapply cw_callers].
  - intros c' y. rewrite lookup_insert_Some. intros [[_ <-]|[_ Hy]]; [|left; by eapply cw_outcomes].
    left. exact (cw_outcomes s Hw c _ Hc).
Qed.
Lemma removed_wf s i f r :
  coalescer_wf s -> heap s !! i = Some f -> fl_task f = Published r ->
  coalescer_wf {| flights := delete (fl_key f) (flights s); heap := <[i := with_task (Removed r) f]> (heap s); callers := callers s |}.
Proof.
  intros Hw Hf Ht. pose proof (lookup_lt_Some _ _ _ Hf) as Hlt. pose proof (cw_task s Hw i f Hf) as Hok. unfold task_ok in Hok. rewrite Ht in Hok.
  assert (flights s !! fl_key f = Some i) as Hmap.
  { apply (cw_map s Hw). exists f. split; [done|]. split; [done|]. unfold active. by rewrite Ht. }
  split; cbn [flights heap callers].
  - intros key j. rewrite lookup_delete_Some, (cw_map s Hw). split.
    + intros (Hne & g & Hg & Hk & Ha). exists g. rewrite list_lookup_insert_ne; [done|]. intros ->. congruence.
    + intros (g & Hg & Hk & Ha). apply list_lookup_insert_Some in Hg as [(<- & <- & _)|[Hne Hg]]; [done|].
      split; [|by exists g]. intros <-. apply Hne.
      assert (flights s !! fl_key f = Some j) as Hj by (apply (cw_map s Hw); by exists g). congruence.
  - intros j g [(<- & <- & _)|[_ Hg]]%list_lookup_insert_Some; [done|by eapply cw_task].
  - intros j g [(<- & <- & _)|[_ Hg]]%list_lookup_insert_Some; [exact (cw_waiters s Hw i f Hf)|exact (cw_waiters s Hw j g Hg)].
  - intros c y Hy. rewrite length_insert. by eapply cw_callers.
  - intros c y Hy. eapply outcome_ok_mono; [|by eapply cw_outcomes]. cbn [heap]. intros j g r' Hg Hr.
    destruct (decide (j = i)) as [->|]; [|exists g; by rewrite list_lookup_insert_ne]. rewrite Hf in Hg. injection Hg as <-.
    exists (with_task (Removed r) f). split; [by apply list_lookup_insert_eq|]. cbn. destruct Hok. congruence.
Qed.
Lemma cstep_wf s s' : coalescer_wf s -> cstep s s' -> coalescer_wf s'.
Proof.
  intros Hw Hs. destruct Hs as [c key s Hc|c i f r s Hc Hf Hr|c i f s Hc Hf|c i f s Hc Hf|c i f o s Hc Hf
    |i f r s Hf Ht|i f r s Hf Ht|i f r s Hf Ht|i f r s Hf Ht].
  - by apply enter_wf.
  - apply leave_wf; auto.
  - apply leave_wf; auto.
  - apply leave_wf; auto.
  - by apply last_wf.
  - pose proof (cw_task s Hw i f Hf) as Hok. unfold task_ok in Hok. rewrite Ht in Hok. destruct Hok.
    apply task_step_wf; try done. unfold active. cbn. by rewrite Ht.
  - pose proof (cw_task s Hw i f Hf) as Hok. unfold task_ok in Hok. rewrite Ht in Hok. destruct Hok.
    apply task_step_wf; try done. unfold active. cbn. by rewrite Ht.
  - pose proof (cw_task s Hw i f Hf) as Hok. unfold task_ok in Hok. rewrite Ht in Hok. destruct Hok.
    apply task_step_wf; try done. unfold active. cbn. by rewrite Ht.
  - by apply removed_wf.
Qed.
Lemma reachable_wf s : reachable s -> coalescer_wf s.
Proof.
  unfold reachable. intros Hr. revert Hr. generalize coalescer_new_wf. generalize coalescer_new. intros s0 Hw Hr.
  induction Hr as [|s1 s2 s3 Hs _ IH]; [done|]. apply IH. by eapply cstep_wf.
Qed.

(** ** Progress of a flight *)
Definition received (c i : nat) (r : LoadResult) (s : Coalescer) : Prop :=
  callers s !! c = Some (LeavingLast i (Some r)) \/ callers s !! c = Some (Done i (Some r)).
Lemma receive_step s c i f r :
  callers s !! c = Some (Waiting i) -> heap s !! i = Some f -> fl_sender f = Some r ->
  exists s', cstep s s' /\ received c i r s'.
Proof.
  intros Hc Hf Hr. exists (leave c i f (Some r) s). split; [by apply step_receive|].
  unfold received, leave, set_caller. cbn [callers]. rewrite lookup_insert_eq. destruct (_ =? _); auto.
Qed.
Lemma served_from_completed s c i f r :
  callers s !! c = Some (Waiting i) -> heap s !! i = Some f -> fl_task f = Completed r ->
  exists s', rtc cstep s s' /\ received c i r s'.
Proof.
  intros Hc Hf Ht. set (s1 := on_flight i (with_task (Published r) f) s).
  destruct (receive_step s1 c i (with_task (Published r) f) r) as (s' & Hs & Hr); [done| |done|].
  - cbn. apply list_lookup_insert_eq. by eapply lookup_lt_Some.
  - exists s'. split; [|done]. eapply rtc_l; [by apply step_published|]. by apply rtc_once.
Qed.
Lemma served_from_loaded s c i f r :
  callers s !! c = Some (Waiting i) -> heap s !! i = Some f -> fl_task f = Loaded r ->
  exists s', rtc cstep s s' /\ received c i r s'.
Proof.
  intros Hc Hf Ht. destruct (served_from_completed (on_flight i (with_task (Completed r) f) s) c i (with_task (Completed r) f) r)
    as (s' & Hs & Hr); [done| |done|].
  - cbn. apply list_lookup_insert_eq. by eapply lookup_lt_Some.
  - exists s'. split; [|done]. eapply rtc_l; [by apply step_completed|done].
Qed.

(** ** Properties *)
(** C40: one load per key, one result for all.  In every reachable state, however threads interleave, at most
    one flight per key is active and it is the one new requests join; its counter is the number of callers
    that wait on it; and whoever is no longer waiting was dropped, was cancelled by its own token, or has the
    very result that its flight published. *)
Theorem one_load_per_key s :
  reachable s ->
  (forall i j f g, heap s !! i = Some f -> heap s !! j = Some g -> fl_key f = fl_key g -> active f -> active g -> i = j) /\
  (forall key i, flights s !! key = Some i <-> exists f, heap s !! i = Some f /\ fl_key f = key /\ active f) /\
  (forall i f, heap s !! i = Some f -> fl_waiters f = size (waiting_on i s)) /\
  (forall c x, callers s !! c = Some x -> outcome_ok s x).
Proof.
  intros Hr%reachable_wf. split_and!; [|apply (cw_map s Hr)|apply (cw_waiters s Hr)|apply (cw_outcomes s Hr)].
  intros i j f g Hf Hg Hk Ha Hb.
  assert (flights s !! fl_key f = Some i) as Hi by (apply (cw_map s Hr); by exists f).
  assert (flights s !! fl_key f = Some j) as Hj by (apply (cw_map s Hr); by exists g). congruence.
Qed.

(** Every waiting caller can be served.  From every reachable state in which a caller waits, the flight it
    waits on can run to the end whatever its load returns, and the caller then has a result: the one already
    loaded if there is one.  Nothing else needs to move, so callers never wait for each other. *)
Theorem waiting_caller_is_served s c i returned :
  reachable s -> callers s !! c = Some (Waiting i) ->
  exists s' f r, rtc cstep s s' /\ received c i r s' /\ heap s !! i = Some f /\
    match fl_task f with Loading => r = returned | Loaded x | Completed x | Published x | Removed x => r = x end.
Proof.
  intros Hw%reachable_wf Hc. pose proof (cw_callers s Hw c _ Hc) as Hlt. cbn in Hlt.
  apply lookup_lt_is_Some in Hlt as [f Hf]. pose proof (cw_task s Hw i f Hf) as Hok. unfold task_ok in Hok.
  destruct (fl_task f) as [|r|r|r|r] eqn:Ht.
  - destruct (served_from_loaded (on_flight i (with_task (Loaded returned) f) s) c i (with_task (Loaded returned) f) returned)
      as (s' & Hs & Hr); [done| |done|].
    + cbn. apply list_lookup_insert_eq. by eapply lookup_lt_Some.
    + exists s', f, returned. rewrite Ht. split_and!; [|done..]. eapply rtc_l; [by apply step_loaded|done].
  - destruct (served_from_loaded s c i f r Hc Hf Ht) as (s' & Hs & Hr). exists s', f, r. by rewrite Ht.
  - destruct (served_from_completed s c i f r Hc Hf Ht) as (s' & Hs & Hr). exists s', f, r. by rewrite Ht.
  - destruct Hok as [Hr _]. destruct (receive_step s c i f r Hc Hf Hr) as (s' & Hs & Hrec). exists s', f, r. rewrite Ht.
    split_and!; [by apply rtc_once|done..].
  - destruct Hok as [Hr _]. destruct (receive_step s c i f r Hc Hf Hr) as (s' & Hs & Hrec). exists s', f, r. rewrite Ht.
    split_and!; [by apply rtc_once|done..].
Qed.

(** ** A request that joins a cancelled load *)
(** after the only caller leaves, the load is cancelled but its flight stays in the map until the load returns *)
Definition abandoned (key : string) : Coalescer :=
  let f := cancel_unless_completed (sub_waiter (new_flight key)) in
  {| flights := {[key := 0]}; heap := [f]; callers := {[0 := Done 0 (Some (Err LoadCancelled))]} |}.
Lemma abandoned_reachable (key : string) : reachable (abandoned key).
Proof.
  unfold reachable. eapply rtc_l; [by apply (step_enter 0 key)|].
  eapply rtc_l; [by apply (step_cancelled 0 0 (new_flight key))|].
  eapply rtc_l; [by apply (step_last 0 0 (sub_waiter (new_flight key)) (Some (Err LoadCancelled)))|].
  unfold abandoned, leave, set_caller, on_flight, enter. cbn. rewrite !insert_insert_eq. apply rtc_refl.
Qed.
(** The next request for the key, although nobody cancelled it, waits on the cancelled load and gets whatever
    that load returns, typically the error of its cancellation. *)
Lemma late_caller_joins_cancelled_load (key : string) (r : LoadResult) :
  exists s s' f, reachable s /\ callers s !! 1 = Some (Waiting 0) /\ heap s !! 0 = Some f /\
    fl_upstream_cancelled f = true /\ rtc cstep s s' /\ received 1 0 r s'.
Proof.
  set (s := enter 1 key (abandoned key)).
  assert (reachable s) as Hs.
  { eapply rtc_r; [apply abandoned_reachable|]. by apply step_enter. }
  assert (enter 1 key (abandoned key) = set_caller 1 (Waiting 0)
    (on_flight 0 (add_waiter (cancel_unless_completed (sub_waiter (new_flight key)))) (abandoned key))) as Heq.
  { unfold enter. cbn [flights abandoned]. by rewrite lookup_singleton_eq. }
  exists s. set (f := add_waiter (cancel_unless_completed (sub_waiter (new_flight key)))).
  assert (callers s !! 1 = Some (Waiting 0)) as Hc by (subst s; by rewrite Heq).
  assert (heap s !! 0 = Some f) as Hf by (subst s; by rewrite Heq).
  destruct (served_from_loaded (on_flight 0 (with_task (Loaded r) f) s) 1 0 (with_task (Loaded r) f) r)
    as (s' & Hsteps & Hrec); [done| |done|].
  - cbn. apply list_lookup_insert_eq. by eapply lookup_lt_Some.
  - exists s', f. split_and!; [done..| |done]. eapply rtc_l; [by apply step_loaded|done].
Qed.
End coalescer.
