(* ===== verification/CatalogCache.v ===== *)
(** * The cache of provider answers (src/src/live/catalog/cache.rs)

    Catalogs, catalog pages and item metadata are kept in the table live_provider_cache until their cache
    hint runs out, artwork locations sealed by the key ring.  The JSON codec, the hash of cache keys and the
    bounds of chrono's [DateTime] are the parameter [CacheOps].  A timestamp column holds the RFC 3339 text
    of an instant in UTC, whose order is the order of time up to the year 9999 and which parses again up to
    then ([in_rfc3339]). *)
From stdpp Require Import pretty.
From S2P Require Import Prelude Bytes LiveContract Crypto Vault SessionStore CatalogCircuit.

(** ** Catalog data (src/src/live/contract/model.rs) *)
Inductive LiveItemType := ItemEvent | ItemChannel.
#[export] Instance LiveItemType_eq_dec : EqDecision LiveItemType.
Proof. solve_decision. Defined.
#[export] Instance LiveItemType_countable : Countable LiveItemType.
Proof.
  apply (inj_countable' (fun t => match t with ItemEvent => true | ItemChannel => false end)
    (fun b : bool => if b then ItemEvent else ItemChannel)). by intros [].
Defined.
Inductive LiveItemStatus := StatusScheduled | StatusLive | StatusEnded | StatusUnavailable | StatusUnknown.
Inductive CatalogPresentation := Landscape | Poster | CompactList.
Inductive FilterKind := KindToggle | KindSingleSelect | KindMultiSelect | KindSearch | KindDate.
Inductive FilterValue := FilterToggle (b : bool) | FilterText (s : string) | FilterMultiple (l : list string).
Record CacheHint := {
  max_age_seconds : Z;
  stale_while_revalidate_seconds : Z;
  etag : option string;
}.
Record FilterOption := { fo_value : string; fo_label : string }.
Record FilterDefinition := {
  fd_id : string;
  fd_label : string;
  fd_kind : FilterKind;
  fd_required : bool;
  fd_default : option FilterValue;
  fd_options : list FilterOption;
}.
Record CatalogDefinition := {
  cd_id : string;
  cd_name : string;
  cd_description : option string;
  cd_item_types : gset LiveItemType;
  cd_presentation : CatalogPresentation;
  cd_order : Z;
  cd_filters : list FilterDefinition;
}.
Record CatalogSet := { cs_catalogs : list CatalogDefinition; cs_cache : CacheHint }.
Record Fact := { fact_label : string; fact_value : string }.
(** the artwork fields, of the type [A] of an artwork: [ArtworkSource] or its envelope *)
Record Item (A : Type) := {
  it_id : string;
  it_item_type : LiveItemType;
  it_title : string;
  it_subtitle : option string;
  it_description : option string;
  it_status : LiveItemStatus;
  it_starts_at : option instant;
  it_ends_at : option instant;
  it_poster : option A;
  it_background : option A;
  it_logo : option A;
  it_categories : list string;
  it_badges : list string;
  it_facts : list Fact;
}.
Arguments it_id {A}. Arguments it_item_type {A}. Arguments it_title {A}. Arguments it_subtitle {A}.
Arguments it_description {A}. Arguments it_status {A}. Arguments it_starts_at {A}. Arguments it_ends_at {A}.
Arguments it_poster {A}. Arguments it_background {A}. Arguments it_logo {A}. Arguments it_categories {A}.
Arguments it_badges {A}. Arguments it_facts {A}.
Record ArtworkSource := { artwork_expose : string }.
Definition LiveItem : Type := Item ArtworkSource.
Inductive ItemDiagnosticReason :=
| ReasonInvalidShape | ReasonInvalidId | ReasonInvalidText | ReasonInvalidDate | ReasonInvalidArtwork
| ReasonUndeclaredItemType | ReasonForbiddenField.
Record ItemDiagnostic := { diag_index : Z; diag_reason : ItemDiagnosticReason }.
Record CatalogPage := {
  cp_items : list LiveItem;
  cp_next_cursor : option string;
  cp_cache : CacheHint;
  cp_diagnostics : list ItemDiagnostic;
}.
Record StreamChoice := {
  sc_id : string;
  sc_label : string;
  sc_quality : option string;
  sc_language : option string;
  sc_protocol_hint : option StreamProtocol;
  sc_priority : Z;
}.
Record ItemMetadata := { im_item : LiveItem; im_streams : list StreamChoice; im_cache : CacheHint }.

(** ** Requests and values *)
Record CatalogPageRequest := {
  pr_catalog_id : string;
  pr_cursor : option string;
  pr_limit : Z;
  pr_filters : gmap string FilterValue;
}.
Record MetaRequest := { mr_item_id : string }.
Inductive CacheRequest := ReqCatalogs | ReqCatalog (request : CatalogPageRequest) | ReqMeta (request : MetaRequest).
Definition request_operation (r : CacheRequest) : CacheOperation :=
  match r with ReqCatalogs => OpCatalogs | ReqCatalog _ => OpCatalog | ReqMeta _ => OpMeta end.
Inductive LiveProviderAccess := Browse | Play.
Record VisibilityPartition := {
  vp_home_id : uuid;
  vp_profile_id : uuid;
  vp_authorization_revision : Z;
  vp_access : LiveProviderAccess;
}.
(** the fields of a snapshot that the catalog reads *)
Record LiveProviderSnapshot := { ps_provider_id : uuid; ps_revision : string }.
Inductive CatalogCacheValue :=
| ValCatalogs (value : CatalogSet)
| ValCatalog (value : CatalogPage)
| ValMeta (value : ItemMetadata).
Definition value_operation (v : CatalogCacheValue) : CacheOperation :=
  match v with ValCatalogs _ => OpCatalogs | ValCatalog _ => OpCatalog | ValMeta _ => OpMeta end.
Definition cache_hint (v : CatalogCacheValue) : CacheHint :=
  match v with ValCatalogs v => cs_cache v | ValCatalog v => cp_cache v | ValMeta v => im_cache v end.

Inductive CacheFreshness := Fresh | Stale.
Record CatalogCacheEntry := {
  ce_key : string;
  ce_provider_id : uuid;
  ce_operation : CacheOperation;
  ce_value : CatalogCacheValue;
  ce_etag : option string;
  ce_fresh_until : instant;
  ce_stale_until : instant;
  ce_freshness : CacheFreshness;
}.
Inductive CatalogCacheError :=
| InvalidInput | InvalidState | PayloadTooLarge | KeyCollision
| CacheCrypto (e : LiveCryptoError)
| CacheStorage.
Definition CACHE_PREFIX : string := "live-cache-v1:".
Definition MAX_CACHE_PAYLOAD_BYTES : Z := 2097152.

(** ** The stored form *)
(** [StoredLiveItem]: each artwork is the text of its envelope *)
Definition StoredLiveItem : Type := Item string.
Inductive StoredPayload :=
| StoredCatalogs (schema_version : Z) (catalogs : list CatalogDefinition) (cache : CacheHint)
| StoredCatalog (schema_version : Z) (items : list StoredLiveItem) (next_cursor : option string) (cache : CacheHint)
    (diagnostics : list ItemDiagnostic)
| StoredMeta (schema_version : Z) (item : StoredLiveItem) (streams : list StreamChoice) (cache : CacheHint).
(** the material of a cache key *)
Record Material := {
  ma_version : Z;
  ma_provider_id : uuid;
  ma_provider_revision : string;
  ma_request : CacheRequest;
  ma_locale : string;
  ma_timezone : string;
  ma_visibility : VisibilityPartition;
}.
Class CacheOps := {
  payload_to_string : StoredPayload -> option string;        (* serde_json *)
  payload_from_slice : string -> option StoredPayload;
  material_to_vec : Material -> option string;
  revision_hex : string -> string;                             (* the hash of a revision in hexadecimal *)
  hash_base64 : string -> string;                              (* blake3, then base64url without padding *)
  checked_add_seconds : instant -> Z -> option instant;        (* [DateTime::checked_add_signed] *)
}.
(** the last instant of the year 9999 *)
Definition rfc3339_end : instant := seconds 253402300800.
Definition in_rfc3339 (t : instant) : bool := (t <? rfc3339_end)%Z.
Class CacheOpsLaws (O : CacheOps) : Prop := {
  payload_roundtrip p s : payload_to_string p = Some s -> payload_from_slice s = Some p;
  checked_add_value t d t' : checked_add_seconds t d = Some t' -> t' = (t + seconds d)%Z;
  checked_add_total t d : in_rfc3339 (t + seconds d) = true -> (0 <= t)%Z -> (0 <= d)%Z -> checked_add_seconds t d <> None;
}.
(** [<=] on the texts: a year from 10000 on is written with a sign, which sorts before the digits *)
Definition timestamp_le (a b : instant) : bool :=
  match in_rfc3339 a, in_rfc3339 b with
  | true, false => false
  | false, true => true
  | _, _ => (a <=? b)%Z
  end.
Definition timestamp_lt (a b : instant) : bool := negb (timestamp_le b a).
Definition parse_timestamp (t : instant) : result CatalogCacheError instant :=
  if in_rfc3339 t then Ok t else Err InvalidState.

(** ** Cache keys *)
Definition derive `{CacheOps} (provider : LiveProviderSnapshot) (request : CacheRequest) (locale timezone : string)
    (visibility : VisibilityPartition) : result CatalogCacheError string :=
  _ ← reject_if (str_empty locale || (64 <? slen locale)%Z || str_empty timezone || (128 <? slen timezone)%Z
    || (vp_authorization_revision visibility <? 1)%Z) InvalidInput;
  encoded ← ok_or (material_to_vec {|
    ma_version := 1; ma_provider_id := ps_provider_id provider; ma_provider_revision := revision_hex (ps_revision provider);
    ma_request := request; ma_locale := locale; ma_timezone := timezone; ma_visibility := visibility |}) InvalidInput;
  Ok (CACHE_PREFIX +:+ hash_base64 encoded).

(** ** Artwork *)
Definition artwork_column (index : nat) (kind : string) : string :=
  "item-" +:+ pretty (N.of_nat index) +:+ "-" +:+ kind.
(** what seals the artworks of a value: a nonce for each column *)
Notation nonces := (string -> option string) (only parsing).

Section vault.
Context `{VR : Vault R} `{CO : CacheOps}.

Definition seal_artwork (crypto : R) (random : nonces) (key : string) (index : nat) (kind : string)
    (artwork : option ArtworkSource) : result CatalogCacheError (option string) :=
  match artwork with
  | None => Ok None
  | Some artwork =>
      let column := artwork_column index kind in
      context ← map_err CacheCrypto (EnvelopeContext_new ArtworkKey "live_provider_cache" key column);
      envelope ← map_err CacheCrypto (vault_encrypt crypto context (random column) (artwork_expose artwork));
      Ok (Some envelope)
  end.
Definition open_artwork (crypto : R) (key : string) (index : nat) (kind : string) (envelope : option string)
    : result CatalogCacheError (option ArtworkSource) :=
  match envelope with
  | None => Ok None
  | Some envelope =>
      let column := artwork_column index kind in
      context ← map_err CacheCrypto (EnvelopeContext_new ArtworkKey "live_provider_cache" key column);
      plaintext ← map_err CacheCrypto (vault_decrypt crypto context envelope);
      _ ← reject_if (negb (utf8_valid plaintext)) InvalidState;
      Ok (Some {| artwork_expose := plaintext |})
  end.
(** an item with other artworks *)
Definition with_artworks {A B} (item : Item A) (poster background logo : option B) : Item B :=
  {| it_id := it_id item; it_item_type := it_item_type item; it_title := it_title item;
     it_subtitle := it_subtitle item; it_description := it_description item; it_status := it_status item;
     it_starts_at := it_starts_at item; it_ends_at := it_ends_at item;
     it_poster := poster; it_background := background; it_logo := logo;
     it_categories := it_categories item; it_badges := it_badges item; it_facts := it_facts item |}.
Definition seal_item (crypto : R) (random : nonces) (key : string) (index : nat) (item : LiveItem)
    : result CatalogCacheError StoredLiveItem :=
  poster ← seal_artwork crypto random key index "poster" (it_poster item);
  background ← seal_artwork crypto random key index "background" (it_background item);
  logo ← seal_artwork crypto random key index "logo" (it_logo item);
  Ok (with_artworks item poster background logo).
Definition open_item (crypto : R) (key : string) (index : nat) (item : StoredLiveItem)
    : result CatalogCacheError LiveItem :=
  poster ← open_artwork crypto key index "poster" (it_poster item);
  background ← open_artwork crypto key index "background" (it_background item);
  logo ← open_artwork crypto key index "logo" (it_logo item);
  Ok (with_artworks item poster background logo).
(** [enumerate().map(f).collect::<Result<_, _>>()] *)
Fixpoint try_enumerate {E A B} (f : nat -> A -> result E B) (index : nat) (l : list A) : result E (list B) :=
  match l with
  | [] => Ok []
  | x :: l => y ← f index x; ys ← try_enumerate f (S index) l; Ok (y :: ys)
  end.

Definition encode_payload (crypto : R) (random : nonces) (key : string) (value : CatalogCacheValue)
    : result CatalogCacheError string :=
  payload ← match value with
    | ValCatalogs v => Ok (StoredCatalogs 1 (cs_catalogs v) (cs_cache v))
    | ValCatalog v =>
        items ← try_enumerate (seal_item crypto random key) 0 (cp_items v);
        Ok (StoredCatalog 1 items (cp_next_cursor v) (cp_cache v) (cp_diagnostics v))
    | ValMeta v =>
        item ← seal_item crypto random key 0 (im_item v);
        Ok (StoredMeta 1 item (im_streams v) (im_cache v))
    end;
  ok_or (payload_to_string payload) InvalidState.
Definition decode_payload (crypto : R) (key : string) (operation : CacheOperation) (payload : string)
    : result CatalogCacheError CatalogCacheValue :=
  _ ← reject_if (MAX_CACHE_PAYLOAD_BYTES <? slen payload)%Z PayloadTooLarge;
  payload ← ok_or (payload_from_slice payload) InvalidState;
  match operation, payload with
  | OpCatalogs, StoredCatalogs 1 catalogs cache => Ok (ValCatalogs {| cs_catalogs := catalogs; cs_cache := cache |})
  | OpCatalog, StoredCatalog 1 items next_cursor cache diagnostics =>
      items ← try_enumerate (open_item crypto key) 0 items;
      Ok (ValCatalog {| cp_items := items; cp_next_cursor := next_cursor; cp_cache := cache; cp_diagnostics := diagnostics |})
  | OpMeta, StoredMeta 1 item streams cache =>
      item ← open_item crypto key 0 item;
      Ok (ValMeta {| im_item := item; im_streams := streams; im_cache := cache |})
  | _, _ => Err InvalidState
  end.
End vault.

(** ** The table live_provider_cache (migrations/0056_live_streaming.sql) *)
(** the column [cache_key] is the key of the map; [operation] holds the text the code writes *)
Record CacheRow := {
  cr_provider_id : uuid;
  cr_operation : string;
  cr_payload_json : string;
  cr_etag : option string;
  cr_fresh_until : instant;
  cr_stale_until : instant;
}.
Notation CacheTable := (gmap string CacheRow).
(** the CHECK constraints; the reference to [providers] is checked against the rows that exist *)
Definition cache_check (providers : gset uuid) (key : string) (r : CacheRow) : bool :=
  length_between 16 128 key
  && (char_count (cr_payload_json r) <=? MAX_CACHE_PAYLOAD_BYTES)%Z
  && is_none_or (fun e => char_count e <=? 512)%Z (cr_etag r)
  && is_some_b (CacheOperation.try_from (cr_operation r))
  && timestamp_le (cr_fresh_until r) (cr_stale_until r)
  && bool_decide (cr_provider_id r ∈ providers).

Section operations.
Context `{VR : Vault R} `{CO : CacheOps}.

Definition delete (key : string) (t : CacheTable) : bool * CacheTable :=
  (is_some_b (t !! key), base.delete key t).
(** the row that is found has the key it was searched by, so [get] never reports a collision *)
Definition get (crypto : R) (key : string) (now : instant) (t : CacheTable)
    : result CatalogCacheError (option CatalogCacheEntry) * CacheTable :=
  match t !! key with
  | None => (Ok None, t)
  | Some row =>
      match parse_timestamp (cr_stale_until row) with
      | Err e => (Err e, t)
      | Ok stale_until =>
          if (stale_until <? now)%Z then (Ok None, (delete key t).2) else
          (operation ← ok_or (CacheOperation.try_from (cr_operation row)) InvalidState;
           fresh_until ← parse_timestamp (cr_fresh_until row);
           value ← decode_payload crypto key operation (cr_payload_json row);
           Ok (Some {| ce_key := key; ce_provider_id := cr_provider_id row; ce_operation := operation;
             ce_value := value; ce_etag := cr_etag row; ce_fresh_until := fresh_until; ce_stale_until := stale_until;
             ce_freshness := if (now <=? fresh_until)%Z then Fresh else Stale |}), t)
      end
  end.
(** the INSERT with its ON CONFLICT clause, and the number of rows it affects *)
Definition upsert (providers : gset uuid) (key : string) (row : CacheRow) (t : CacheTable)
    : result CatalogCacheError (Z * CacheTable) :=
  if negb (cache_check providers key row) then Err CacheStorage else
  match t !! key with
  | None => Ok (1%Z, <[key := row]> t)
  | Some old =>
      if bool_decide (cr_provider_id old = cr_provider_id row) && String.eqb (cr_operation old) (cr_operation row)
      then Ok (1%Z, <[key := row]> t)
      else Ok (0%Z, t)
  end.
Definition put (crypto : R) (random : nonces) (providers : gset uuid) (key : string) (provider_id : uuid)
    (value : CatalogCacheValue) (now : instant) (t : CacheTable) : result CatalogCacheError (CatalogCacheEntry * CacheTable) :=
  let hint := cache_hint value in
  fresh_until ← ok_or (checked_add_seconds now (max_age_seconds hint)) InvalidInput;
  stale_until ← ok_or (checked_add_seconds fresh_until (stale_while_revalidate_seconds hint)) InvalidInput;
  payload ← encode_payload crypto random key value;
  _ ← reject_if (MAX_CACHE_PAYLOAD_BYTES <? slen payload)%Z PayloadTooLarge;
  let operation := value_operation value in
  '(rows_affected, t) ← upsert providers key {|
    cr_provider_id := provider_id; cr_operation := CacheOperation.as_str operation; cr_payload_json := payload;
    cr_etag := etag hint; cr_fresh_until := fresh_until; cr_stale_until := stale_until |} t;
  _ ← reject_if (negb (rows_affected =? 1)%Z) KeyCollision;
  Ok ({| ce_key := key; ce_provider_id := provider_id; ce_operation := operation; ce_value := value;
         ce_etag := etag hint; ce_fresh_until := fresh_until; ce_stale_until := stale_until; ce_freshness := Fresh |}, t).
End operations.
Definition delete_provider (provider_id : uuid) (t : CacheTable) : nat * CacheTable :=
  (size (filter (fun kv : string * CacheRow => cr_provider_id kv.2 = provider_id) t),
   filter (fun kv : string * CacheRow => cr_provider_id kv.2 <> provider_id) t).
(** ORDER BY stale_until, cache_key *)
Definition expires_before (p q : string * CacheRow) : Prop :=
  timestamp_lt (cr_stale_until p.2) (cr_stale_until q.2) = true
  \/ (cr_stale_until p.2 = cr_stale_until q.2 /\ String.le p.1 q.1).
#[export] Instance expires_before_dec : RelDecision expires_before.
Proof. intros p q. unfold expires_before. apply _. Defined.
Definition expired_rows (now : instant) (t : CacheTable) : list (string * CacheRow) :=
  merge_sort expires_before
    (List.filter (fun kv : string * CacheRow => timestamp_lt (cr_stale_until kv.2) now) (map_to_list t)).
Definition cleanup_expired (now : instant) (limit : Z) (t : CacheTable) : result CatalogCacheError (nat * CacheTable) :=
  _ ← reject_if (negb ((1 <=? limit) && (limit <=? 1000))%Z) InvalidInput;
  let selected := (take (Z.to_nat limit) (expired_rows now t)).*1 in
  Ok (length selected, foldr base.delete t selected).

(** ** Sealed values open again *)
Lemma try_enumerate_inverse {E A B} (f : nat -> A -> result E B) (g : nat -> B -> result E A) i l l' :
  (forall i x y, x ∈ l -> f i x = Ok y -> g i y = Ok x) -> try_enumerate f i l = Ok l' -> try_enumerate g i l' = Ok l.
Proof.
  revert i l'. induction l as [|x l IH]; intros i l' Hfg; cbn; [by intros [= <-]|].
  intros H. ok_inv. cbn. rewrite (Hfg i x) by (done || by left). run_ok.
  erewrite IH; [done| |done]. intros j z w Hz. apply Hfg. by right.
Qed.
Definition artworks {A} (item : Item A) : list A :=
  option_list (it_poster item) ++ option_list (it_background item) ++ option_list (it_logo item).
Definition value_artworks (v : CatalogCacheValue) : list ArtworkSource :=
  match v with
  | ValCatalogs _ => []
  | ValCatalog v => cp_items v ≫= artworks
  | ValMeta v => artworks (im_item v)
  end.
(** a Rust [String] is valid UTF-8 *)
Definition artworks_utf8 (l : list ArtworkSource) : Prop := Forall (fun a => utf8_valid (artwork_expose a) = true) l.
Definition nonces_ok (random : nonces) : Prop := forall column, exists nonce, random column = Some nonce /\ slen nonce = AES_GCM_NONCE_BYTES.

Section laws.
Context `{VL : VaultLaws R ready related} `{CO : CacheOps} {CL : CacheOpsLaws CO}.

Lemma seal_opens c c' random key i kind a e :
  ready c -> related c c' -> nonces_ok random -> artworks_utf8 (option_list a) ->
  seal_artwork c random key i kind a = Ok e -> open_artwork c' key i kind e = Ok a.
Proof.
  intros Hc Hr Hn Hu. destruct a as [a|]; cbn; [|by intros [= <-]]. intros Hs. ok_inv.
  repeat match goal with H : map_err _ ?m = Ok _ |- _ => destruct m eqn:?; cbn in H; ok_inv end.
  cbn. match goal with H : EnvelopeContext_new _ _ _ _ = _ |- _ => rewrite H; pose proof H as Hctx end. run_ok.
  destruct (Hn (artwork_column i kind)) as (nonce & Hrandom & Hlen).
  match goal with H : vault_encrypt _ _ _ _ = _ |- _ => rewrite Hrandom in H; pose proof H as Henc end.
  erewrite law_decrypt_encrypt by eauto. run_ok. assert (utf8_valid (artwork_expose a) = true) as -> by (by inversion Hu). cbn. by destruct a.
Qed.
Lemma seal_item_opens c c' random key i item e :
  ready c -> related c c' -> nonces_ok random -> artworks_utf8 (artworks item) ->
  seal_item c random key i item = Ok e -> open_item c' key i e = Ok item.
Proof.
  intros Hc Hr Hn Hu. unfold artworks_utf8, artworks in Hu. rewrite !Forall_app in Hu. destruct Hu as (H1 & H2 & H3).
  unfold seal_item. intros Hs. ok_inv. unfold open_item. cbn [it_poster it_background it_logo with_artworks].
  repeat (erewrite seal_opens; [|done|done|done| |done]; [run_ok|done]). by destruct item.
Qed.
Lemma decode_encoded_payload c c' random key value s :
  ready c -> related c c' -> nonces_ok random -> artworks_utf8 (value_artworks value) ->
  encode_payload c random key value = Ok s -> (slen s <= MAX_CACHE_PAYLOAD_BYTES)%Z ->
  decode_payload c' key (value_operation value) s = Ok value.
Proof.
  intros Hc Hr Hn Hu He Hl. unfold encode_payload in He. apply result_bind_ok in He as (p & Hp & Hs).
  apply ok_or_ok, payload_roundtrip in Hs. unfold decode_payload.
  destruct (Z.ltb_spec MAX_CACHE_PAYLOAD_BYTES (slen s)); [lia|]. run_ok. rewrite Hs. run_ok.
  destruct value as [v|v|v]; cbn beta iota in Hp; ok_inv; cbn [value_operation value_artworks] in Hu |- *.
  - by destruct v.
  - assert (try_enumerate (open_item c' key) 0 x = Ok (cp_items v)) as ->; [|by destruct v].
    eapply try_enumerate_inverse; [|eassumption]. intros i y z Hy. eapply seal_item_opens; [done..|].
    unfold artworks_utf8 in *. rewrite Forall_forall in Hu |- *. intros a Ha. apply Hu. apply list_elem_of_bind. eauto.
  - rewrite (seal_item_opens c c' random key 0 (im_item v) _ Hc Hr Hn Hu ltac:(eassumption)). run_ok. by destruct v.
Qed.
End laws.

(** ** What the table keeps *)
Lemma upsert_ok providers key row t n t' :
  upsert providers key row t = Ok (n, t') ->
  cache_check providers key row = true /\
  (n = 1%Z /\ t' = <[key := row]> t \/ n = 0%Z /\ t' = t /\
    exists old, t !! key = Some old /\ (cr_provider_id old <> cr_provider_id row \/ cr_operation old <> cr_operation row)).
Proof.
  unfold upsert. destruct (cache_check providers key row); [|done]. cbn [negb]. destruct (t !! key) as [old|] eqn:Ht.
  - destruct (bool_decide_reflect (cr_provider_id old = cr_provider_id row)); cbn [andb];
      [destruct (String.eqb_spec (cr_operation old) (cr_operation row))|]; intros [= <- <-]; eauto 10.
  - intros [= <- <-]. auto.
Qed.
(** what a successful [put] has written *)
Definition row_of (e : CatalogCacheEntry) (payload : string) : CacheRow :=
  {| cr_provider_id := ce_provider_id e; cr_operation := CacheOperation.as_str (ce_operation e);
     cr_payload_json := payload; cr_etag := ce_etag e; cr_fresh_until := ce_fresh_until e;
     cr_stale_until := ce_stale_until e |}.
Definition entry_of `{CacheOps} (key : string) (provider_id : uuid) (value : CatalogCacheValue) (now : instant) : CatalogCacheEntry :=
  let fresh_until := (now + seconds (max_age_seconds (cache_hint value)))%Z in
  {| ce_key := key; ce_provider_id := provider_id; ce_operation := value_operation value; ce_value := value;
     ce_etag := etag (cache_hint value); ce_fresh_until := fresh_until;
     ce_stale_until := (fresh_until + seconds (stale_while_revalidate_seconds (cache_hint value)))%Z; ce_freshness := Fresh |}.
Definition at_freshness (now : instant) (e : CatalogCacheEntry) : CatalogCacheEntry :=
  {| ce_key := ce_key e; ce_provider_id := ce_provider_id e; ce_operation := ce_operation e; ce_value := ce_value e;
     ce_etag := ce_etag e; ce_fresh_until := ce_fresh_until e; ce_stale_until := ce_stale_until e;
     ce_freshness := if (now <=? ce_fresh_until e)%Z then Fresh else Stale |}.

Section laws2.
Context `{VL : VaultLaws R ready related} `{CO : CacheOps} {CL : CacheOpsLaws CO}.

Lemma put_ok c random providers key pid value now t e t' :
  put c random providers key pid value now t = Ok (e, t') ->
  e = entry_of key pid value now /\ exists payload,
    encode_payload c random key value = Ok payload /\ (slen payload <= MAX_CACHE_PAYLOAD_BYTES)%Z /\
    cache_check providers key (row_of e payload) = true /\ t' = <[key := row_of e payload]> t.
Proof.
  unfold put. intros Hp. ok_inv. destruct x3 as [n t'']. ok_inv.
  repeat match goal with H : checked_add_seconds _ _ = Some _ |- _ => apply checked_add_value in H as -> end.
  bool_hyps. subst n.
  match goal with H : upsert _ _ _ _ = _ |- _ => apply upsert_ok in H as (Hck & [(_ & ->)|(? & _)]) end; [|done].
  split; [done|]. eexists. split_and!; [eassumption|lia|exact Hck|done].
Qed.
(** reading a row back *)
Lemma get_row c c' random key pid value now later t payload :
  ready c -> related c c' -> nonces_ok random -> artworks_utf8 (value_artworks value) ->
  encode_payload c random key value = Ok payload -> (slen payload <= MAX_CACHE_PAYLOAD_BYTES)%Z ->
  let e := entry_of key pid value now in
  (ce_fresh_until e <= ce_stale_until e)%Z -> in_rfc3339 (ce_stale_until e) = true ->
  t !! key = Some (row_of e payload) ->
  get c' key later t = if (ce_stale_until e <? later)%Z then (Ok None, base.delete key t)
                       else (Ok (Some (at_freshness later e)), t).
Proof.
  intros Hc Hr Hn Hu He Hl e Hle Hin Ht. unfold get. rewrite Ht. cbn [row_of cr_stale_until cr_fresh_until cr_operation cr_payload_json].
  assert (in_rfc3339 (ce_fresh_until e) = true) as Hin' by (unfold in_rfc3339 in *; bool_hyps; apply Z.ltb_lt; lia).
  unfold parse_timestamp. rewrite Hin, Hin'. cbn iota beta. destruct (_ <? later)%Z; [done|].
  rewrite CacheOperation.try_from_as_str. run_ok. cbn [e entry_of ce_operation].
  erewrite decode_encoded_payload by eassumption. run_ok. done.
Qed.
End laws2.

Lemma foldr_delete_lookup (ks : list string) (t : CacheTable) k :
  foldr base.delete t ks !! k = if decide (k ∈ ks) then None else t !! k.
Proof.
  induction ks as [|x ks IH]; cbn [foldr]; [destruct (decide _) as [Hx|]; [inversion Hx|done]|].
  destruct (decide (k = x)) as [->|Hne].
  - rewrite lookup_delete_eq. by rewrite decide_True by set_solver.
  - rewrite lookup_delete_ne, IH by done. apply decide_ext. set_solver.
Qed.

(** the order of a cleanup *)
Lemma timestamp_le_spec a b :
  timestamp_le a b = true <-> ((a < rfc3339_end <-> b < rfc3339_end) /\ a <= b \/ rfc3339_end <= a /\ b < rfc3339_end)%Z.
Proof.
  unfold timestamp_le, in_rfc3339. destruct (Z.ltb_spec a rfc3339_end), (Z.ltb_spec b rfc3339_end); rewrite ?Z.leb_le; intuition (try lia).
Qed.
Lemma timestamp_le_trans a b c : timestamp_le a b = true -> timestamp_le b c = true -> timestamp_le a c = true.
Proof. rewrite !timestamp_le_spec. lia. Qed.
Lemma timestamp_le_total a b : timestamp_le a b = true \/ timestamp_le b a = true.
Proof. rewrite !timestamp_le_spec. lia. Qed.
Lemma timestamp_le_antisymm a b : timestamp_le a b = true -> timestamp_le b a = true -> a = b.
Proof. rewrite !timestamp_le_spec. lia. Qed.
Lemma timestamp_lt_spec a b : timestamp_lt a b = true <-> timestamp_le a b = true /\ a <> b.
Proof.
  unfold timestamp_lt. rewrite negb_true_iff. destruct (timestamp_le b a) eqn:Hba; split; try done.
  - intros [Hab Hne]. by destruct Hne; apply timestamp_le_antisymm.
  - intros _. split; [by destruct (timestamp_le_total a b); [|congruence]|]. intros ->.
    by destruct (timestamp_le_total b b); congruence.
Qed.
#[local] Instance expires_before_total : Total expires_before.
Proof.
  intros p q. unfold expires_before. rewrite !timestamp_lt_spec.
  destruct (decide (cr_stale_until p.2 = cr_stale_until q.2)) as [He|Hne].
  - rewrite He. destruct (total String.le p.1 q.1); auto.
  - destruct (timestamp_le_total (cr_stale_until p.2) (cr_stale_until q.2)); auto.
Qed.
#[local] Instance expires_before_trans : Transitive expires_before.
Proof.
  intros p q r. unfold expires_before. rewrite !timestamp_lt_spec. intros [[H1 N1]|[E1 L1]] [[H2 N2]|[E2 L2]].
  - left. split; [by eapply timestamp_le_trans|]. intros He. apply N1. apply timestamp_le_antisymm; [done|]. by rewrite He.
  - left. by rewrite <- E2.
  - left. by rewrite E1.
  - right. split; [congruence|by etrans].
Qed.
Lemma expired_rows_elem now t k r :
  (k, r) ∈ expired_rows now t <-> t !! k = Some r /\ timestamp_lt (cr_stale_until r) now = true.
Proof. unfold expired_rows. by rewrite merge_sort_Permutation, list_elem_of_In, filter_In, <- list_elem_of_In, elem_of_map_to_list. Qed.
Lemma expired_rows_nodup now t : NoDup (expired_rows now t).*1.
Proof.
  unfold expired_rows. rewrite merge_sort_Permutation. pose proof (NoDup_fst_map_to_list t) as Hn.
  induction (map_to_list t) as [|[k r] l IH]; [done|]. cbn in *. apply NoDup_cons in Hn as [Hk Hn].
  destruct (timestamp_lt _ _); [|by apply IH]. cbn. apply NoDup_cons. split; [|by apply IH]. intros Hin. apply Hk.
  apply list_elem_of_fmap in Hin as ([k' r'] & -> & Hin). apply list_elem_of_fmap. exists (k', r'). split; [done|].
  apply list_elem_of_In in Hin. apply filter_In in Hin as [Hin _]. by apply list_elem_of_In.
Qed.
Lemma foldr_delete_size (ks : list string) (t : CacheTable) :
  NoDup ks -> (forall k, k ∈ ks -> is_Some (t !! k)) -> size t = length ks + size (foldr base.delete t ks).
Proof.
  induction ks as [|k ks IH]; intros Hn Hs; [done|]. apply NoDup_cons in Hn as [Hk Hn]. cbn [foldr length].
  destruct (Hs k (list_elem_of_here k ks)) as [r Hr].
  rewrite map_size_delete_Some by (exists r; rewrite foldr_delete_lookup, decide_False by done; done).
  rewrite (IH Hn) by set_solver. enough (size (foldr base.delete t ks) <> 0) by lia.
  intros Hz. apply map_size_empty_inv in Hz. assert (foldr base.delete t ks !! k = Some r) as Hl by (by rewrite foldr_delete_lookup, decide_False by done).
  rewrite Hz in Hl. done.
Qed.

(** what a [put] stored, a [get] finds *)
Section put_get.
Context `{VL : VaultLaws R ready related} `{CO : CacheOps} {CL : CacheOpsLaws CO}.
Lemma put_then_get c c' random providers key pid value now later t e t' t2 :
  ready c -> related c c' -> nonces_ok random -> artworks_utf8 (value_artworks value) ->
  put c random providers key pid value now t = Ok (e, t') ->
  (0 <= stale_while_revalidate_seconds (cache_hint value))%Z -> in_rfc3339 (ce_stale_until e) = true ->
  t2 !! key = t' !! key ->
  e = entry_of key pid value now /\
  get c' key later t2 = (if (ce_stale_until e <? later)%Z then (Ok None, base.delete key t2)
                         else (Ok (Some (at_freshness later e)), t2)).
Proof.
  intros Hc Hr Hn Hu Hp Hage Hin Ht2. apply put_ok in Hp as (-> & payload & He & Hl & Hck & ->). split; [done|].
  eapply get_row; [exact Hc|exact Hr|exact Hn|exact Hu|exact He|exact Hl| |done|by rewrite Ht2, lookup_insert_eq].
  cbn. unfold seconds, nanos_per_second. lia.
Qed.
End put_get.

(** ** Properties *)
Section properties.
Context `{VL : VaultLaws R ready related} `{CO : CacheOps} {CL : CacheOpsLaws CO}.

(** A cached answer comes back until it expires.  After a successful [put], as long as nothing else
    writes the row, [get] returns the very value, under any rotation of the key ring, with its ETag and
    times: fresh up to the hint's max age, stale up to its stale time, and then nothing, and the row is gone.
    No other row is touched, and a row of another provider or operation is never overwritten. *)
Theorem cached_value_returned c c' random providers key pid value now later t e t' t2 :
  ready c -> related c c' -> nonces_ok random -> artworks_utf8 (value_artworks value) ->
  put c random providers key pid value now t = Ok (e, t') ->
  (0 <= stale_while_revalidate_seconds (cache_hint value))%Z -> in_rfc3339 (ce_stale_until e) = true ->
  t2 !! key = t' !! key ->
  e = entry_of key pid value now /\
  get c' key later t2 = (if (ce_stale_until e <? later)%Z then (Ok None, base.delete key t2)
                         else (Ok (Some (at_freshness later e)), t2)) /\
  (forall k, k <> key -> t' !! k = t !! k) /\
  (forall old, t !! key = Some old -> cr_provider_id old = pid /\ cr_operation old = CacheOperation.as_str (value_operation value)).
Proof.
  intros Hc Hr Hn Hu Hp Hage Hin Ht2. pose proof Hp as Hput.
  destruct (put_then_get c c' random providers key pid value now later t e t' t2 Hc Hr Hn Hu Hp Hage Hin Ht2) as [He Hg].
  apply put_ok in Hp as (_ & payload & _ & _ & _ & ->). split_and!; [done|done| |].
  - intros k Hk. by rewrite lookup_insert_ne.
  - intros old Hold. unfold put in Hput. ok_inv. destruct x3 as [n t'']. ok_inv. bool_hyps. subst n.
    match goal with H : upsert _ _ _ _ = _ |- _ => revert H end. unfold upsert.
    destruct (negb _); [done|]. rewrite Hold. cbn [cr_provider_id cr_operation].
    destruct (bool_decide_reflect (cr_provider_id old = pid)); cbn [andb]; [|done].
    by destruct (String.eqb_spec (cr_operation old) (CacheOperation.as_str (value_operation value))).
Qed.
End properties.

(** A cleanup deletes the oldest expired answers.  It deletes [limit] expired rows, or all if there are
    fewer; no row that has not expired, and no expired row while an older one stays. *)
Theorem cleanup_deletes_oldest_expired now limit t n t' :
  cleanup_expired now limit t = Ok (n, t') ->
  let expired (r : CacheRow) := timestamp_lt (cr_stale_until r) now = true in
  n = Nat.min (Z.to_nat limit) (length (expired_rows now t)) /\ size t = n + size t' /\
  (forall k r, t' !! k = Some r -> t !! k = Some r) /\
  (forall k r, t !! k = Some r -> t' !! k = None -> expired r /\
    forall k2 r2, t' !! k2 = Some r2 -> expired r2 -> expires_before (k, r) (k2, r2)).
Proof.
  intros Hc expired. unfold cleanup_expired in Hc. ok_inv. set (l := expired_rows now t) in *. set (m := Z.to_nat limit) in *.
  set (ks := (take m l).*1).
  assert (NoDup ks) as Hn by (subst ks; pose proof (expired_rows_nodup now t) as Hn; fold l in Hn; rewrite <- (take_drop m l), fmap_app, NoDup_app in Hn; tauto).
  assert (forall k, k ∈ ks -> exists r, (k, r) ∈ take m l) as Hks.
  { intros k ([k' r] & -> & Hin)%list_elem_of_fmap. by exists r. }
  assert (forall k r, (k, r) ∈ take m l -> t !! k = Some r /\ expired r) as Hin.
  { intros k r Hkr. apply expired_rows_elem. fold l. apply elem_of_take in Hkr as (i & Hi & _).
    by eapply list_elem_of_lookup_2. }
  split_and!.
  - unfold ks. by rewrite length_fmap, length_take.
  - apply foldr_delete_size; [done|]. intros k (r & Hr)%Hks. apply Hin in Hr as [Hr _]. by exists r.
  - intros k r. rewrite foldr_delete_lookup. by destruct (decide _).
  - intros k r Hr. rewrite foldr_delete_lookup. destruct (decide (k ∈ ks)) as [Hk|]; [intros _|congruence].
    apply Hks in Hk as (r' & Hk). destruct (Hin k r' Hk) as [Hr' He]. assert (r' = r) as -> by congruence. split; [done|].
    intros k2 r2. rewrite foldr_delete_lookup. destruct (decide (k2 ∈ ks)) as [|Hk2]; [done|]. intros Hr2 He2.
    assert ((k2, r2) ∈ drop m l) as Hd.
    { assert ((k2, r2) ∈ l) as Hl by (by apply expired_rows_elem). rewrite <- (take_drop m l) in Hl.
      apply elem_of_app in Hl as [Hl|]; [|done]. destruct Hk2. apply list_elem_of_fmap. by exists (k2, r2). }
    assert (StronglySorted expires_before (take m l ++ drop m l)) as Hs.
    { rewrite take_drop. apply StronglySorted_merge_sort; apply _. }
    by apply (StronglySorted_app_1_elem_of expires_before (take m l) (drop m l)).
Qed.
