(* ===== verification/CatalogGrants.v ===== *)
(** * Who may see a provider (src/src/live/catalog/grants.rs)

    Grants give a profile access to a provider; every change bumps the profile's authorization revision, so
    that whatever was authorised before is refused.  The tables are those of migrations/0055 and 0056;
    uuid and timestamp columns hold what the code wrote, so reading them back cannot fail. *)
From S2P Require Import Prelude LiveContract CatalogCircuit CatalogCache.

(** ** Roles (src/src/auth/home_profiles.rs) *)
Inductive HomeRole := Owner | Admin | Manager | Viewer.
#[export] Instance HomeRole_eq_dec : EqDecision HomeRole.
Proof. solve_decision. Defined.
Inductive ProfileType := Account | Managed.
#[export] Instance ProfileType_eq_dec : EqDecision ProfileType.
Proof. solve_decision. Defined.

(** ** Tables *)
Record RevisionRow := { rv_home_id : uuid; rv_revision : Z }.
Record GrantRow := {
  gr_id : uuid;
  gr_can_browse : bool;
  gr_can_play : bool;
  gr_created_by_user_id : option uuid;
  gr_created_by_actor_snapshot : string;
  gr_created_at : instant;
  gr_updated_at : instant;
}.
Record LiveProviderGrant := {
  lg_id : uuid;
  lg_profile_id : uuid;
  lg_provider_id : uuid;
  lg_can_browse : bool;
  lg_can_play : bool;
  lg_created_by_user_id : option uuid;
  lg_created_at : instant;
  lg_updated_at : instant;
}.
Definition decode_grant (key : uuid * uuid) (r : GrantRow) : LiveProviderGrant :=
  {| lg_id := gr_id r; lg_profile_id := key.1; lg_provider_id := key.2; lg_can_browse := gr_can_browse r;
     lg_can_play := gr_can_play r; lg_created_by_user_id := gr_created_by_user_id r;
     lg_created_at := gr_created_at r; lg_updated_at := gr_updated_at r |}.
(** profile_authorization_revisions by profile, live_provider_grants by its unique (profile, provider) *)
Record GrantTables := {
  gt_revisions : gmap uuid RevisionRow;
  gt_grants : gmap (uuid * uuid) GrantRow;
}.
Inductive LiveProviderGrantError :=
| GrantInvalidInput | TargetUnavailable | GrantForbidden | GrantRevisionChanged | GrantInvalidState | GrantStorage.
Record VisibilityDecision := {
  vd_allowed : bool;
  vd_authorization_revision : Z;
  vd_grant : option LiveProviderGrant;
}.

Definition visibility (home_id profile_id : uuid) (role : HomeRole) (profile_type : ProfileType) (provider_id : uuid)
    (access : LiveProviderAccess) (t : GrantTables) : result LiveProviderGrantError VisibilityDecision :=
  row ← ok_or (match gt_revisions t !! profile_id with
               | Some r => if decide (rv_home_id r = home_id) then Some r else None
               | None => None
               end) TargetUnavailable;
  _ ← reject_if (rv_revision row <? 1)%Z GrantInvalidState;
  let grant := decode_grant (profile_id, provider_id) <$> gt_grants t !! (profile_id, provider_id) in
  let unrestricted := negb (bool_decide (profile_type = Managed)) && match role with Owner | Admin => true | _ => false end in
  let allowed := unrestricted || is_some_and (fun g => match access with Browse => lg_can_browse g | Play => lg_can_play g end) grant in
  Ok {| vd_allowed := allowed; vd_authorization_revision := rv_revision row; vd_grant := grant |}.
