(* ===== verification/CatalogService.v ===== *)
(** * The catalog service (src/src/live/catalog/service.rs)

    A request is answered from the cache, or by the provider if its circuit breaker admits the call; what
    the provider answers is an argument, and so is what other threads do during the call. *)
From stdpp Require Import pretty.
From S2P Require Import Prelude Bytes LiveContract Crypto Vault SessionStore CatalogCircuit CatalogCoalescer CatalogCache CatalogGrants ProviderCalls.

Definition circuit_failure (e : ProviderInvocationError) : bool :=
  match e with
  | CallProvider failure => match pf_code failure with PfAccountRequired => false | _ => true end
  | RequestTimeout | HardTimeout | Transport | RedirectRejected | InvalidContentType | ResponseTooLarge
  | CallContract _ => true
  | _ => false
  end.

Inductive CatalogServiceError :=
| Forbidden | AuthorizationChanged | ProviderUnavailable | CatalogNotFound
| ProviderError (code : string)
| CircuitOpen | Cancelled
| CacheError (e : CatalogCacheError)
| GrantError (e : LiveProviderGrantError).
Definition service_code (e : CatalogServiceError) : string :=
  match e with
  | Forbidden => "live_browse_forbidden"
  | AuthorizationChanged => "authorization_revision_changed"
  | ProviderUnavailable => "provider_unavailable"
  | CatalogNotFound => "catalog_not_found"
  | ProviderError code => code
  | CircuitOpen => "provider_circuit_open"
  | Cancelled => "request_cancelled"
  | CacheError _ => "catalog_cache_failure"
  | GrantError _ => "provider_visibility_failure"
  end.

(** ** Who asks *)
Record LiveCatalogAccessContext := {
  ac_user_id : uuid;
  ac_home_id : uuid;
  ac_profile_id : uuid;
  ac_role : HomeRole;
  ac_profile_type : ProfileType;
  ac_authorization_revision : Z;
  ac_can_browse_live : bool;
  ac_locale : string;
  ac_timezone : string;
  ac_now : instant;
}.
(** [ProviderRequestContext] and its [validate] (contract/model.rs); [chars().count()] counts characters *)
Record ProviderRequestContext := { rc_locale : string; rc_timezone : string; rc_now : instant }.
Definition provider_context (c : LiveCatalogAccessContext) : ProviderRequestContext :=
  {| rc_locale := ac_locale c; rc_timezone := ac_timezone c; rc_now := ac_now c |}.
Definition context_validate (c : ProviderRequestContext) : result ContractErrorCode unit :=
  if negb (length_between 2 64 (rc_locale c)) || any_control (rc_locale c)
     || negb (length_between 1 128 (rc_timezone c)) || any_control (rc_timezone c)
  then Err InvalidContext else Ok ().
Definition partition_of (c : LiveCatalogAccessContext) : VisibilityPartition :=
  {| vp_home_id := ac_home_id c; vp_profile_id := ac_profile_id c;
     vp_authorization_revision := ac_authorization_revision c; vp_access := Browse |}.
(** the nil uuid is zero *)
Definition validate_context (c : LiveCatalogAccessContext) : result CatalogServiceError unit :=
  _ ← reject_if (negb (ac_can_browse_live c)) Forbidden;
  reject_if ((ac_authorization_revision c <? 1)%Z || (ac_home_id c =? 0)%N || (ac_profile_id c =? 0)%N
    || (ac_user_id c =? 0)%N || negb (is_ok (context_validate (provider_context c)))) AuthorizationChanged.
Definition require_visibility (c : LiveCatalogAccessContext) (provider_id : uuid) (t : GrantTables)
    : result CatalogServiceError unit :=
  decision ← map_err GrantError
    (visibility (ac_home_id c) (ac_profile_id c) (ac_role c) (ac_profile_type c) provider_id Browse t);
  _ ← reject_if (negb (vd_authorization_revision decision =? ac_authorization_revision c)%Z) AuthorizationChanged;
  reject_if (negb (vd_allowed decision)) Forbidden.

(** ** The service and what surrounds a call *)
Record Catalog := { ct_breakers : Breakers; ct_table : CacheTable }.
Definition with_breakers (s : Catalog) (b : Breakers) : Catalog := {| ct_breakers := b; ct_table := ct_table s |}.
Definition with_table (s : Catalog) (t : CacheTable) : Catalog := {| ct_breakers := ct_breakers s; ct_table := t |}.
(** [LiveProviderClient]: what it answers to a call *)
Record ProviderClient := {
  client_catalogs : result ProviderInvocationError CatalogSet;
  client_catalog : CatalogPageRequest -> result ProviderInvocationError CatalogPage;
  client_meta : MetaRequest -> result ProviderInvocationError ItemMetadata;
}.
Record CallEnv := {
  env_client : ProviderClient;
  env_admitted_at : instant;                    (* the clock of the breaker *)
  env_ended_at : instant;
  env_admit_victim : option CircuitKey;
  env_record_victim : option CircuitKey;
  env_during : Catalog -> Catalog;              (* what others do while the provider answers *)
  env_providers : gset uuid;
  env_random : string -> option string;
}.
Definition invoke (client : ProviderClient) (request : CacheRequest) : result ProviderInvocationError CatalogCacheValue :=
  match request with
  | ReqCatalogs => ValCatalogs <$> client_catalogs client
  | ReqCatalog request => ValCatalog <$> client_catalog client request
  | ReqMeta request => ValMeta <$> client_meta client request
  end.

(** the result of an operation, whether it called the provider, and the state it leaves *)
Record Outcome (A : Type) := {
  out_result : result CatalogServiceError A;
  out_called : bool;
  out_state : Catalog;
}.
Arguments out_result {A}. Arguments out_called {A}. Arguments out_state {A}.

Section service.
Context `{VR : Vault R} `{CO : CacheOps}.
Variable cfg : BreakerConfig.
Variable crypto : R.

Definition load_provider (env : CallEnv) (context : LiveCatalogAccessContext) (provider : LiveProviderSnapshot)
    (request : CacheRequest) (key : string) (s : Catalog) : Outcome CatalogCacheValue :=
  let operation := request_operation request in
  let '(admission, b) := breaker_admit cfg (env_admit_victim env) (ps_provider_id provider) operation (env_admitted_at env) (ct_breakers s) in
  let s := with_breakers s b in
  if decide (admission = Open) then {| out_result := Err CircuitOpen; out_called := false; out_state := s |} else
  let result := invoke (env_client env) request in
  let s := env_during env s in
  match result with
  | Ok value =>
      let s := with_breakers s (record_success cfg (env_record_victim env) (ps_provider_id provider) operation (ct_breakers s)) in
      match put crypto (env_random env) (env_providers env) key (ps_provider_id provider) value (ac_now context) (ct_table s) with
      | Ok (entry, t) => {| out_result := Ok (ce_value entry); out_called := true; out_state := with_table s t |}
      | Err e => {| out_result := Err (CacheError e); out_called := true; out_state := s |}
      end
  | Err error =>
      let s := if circuit_failure error
               then with_breakers s (record_failure cfg (env_record_victim env) (ps_provider_id provider) operation
                      (env_ended_at env) (ct_breakers s))
               else s in
      {| out_result := Err (match error with CallCancelled => Cancelled | _ => ProviderError (invocation_code error) end);
         out_called := true; out_state := s |}
  end.
(** what the coalescer hands to each waiter of a load, and what a waiter makes of it *)
Definition coalesced_load (r : result CatalogServiceError CatalogCacheValue) : result CoalescedLoadError CatalogCacheValue :=
  map_err (fun e => LoadFailed (service_code e)) r.
Definition coalesced_result (r : result CoalescedLoadError CatalogCacheValue) : result CatalogServiceError CatalogCacheValue :=
  match r with
  | Ok value => Ok value
  | Err LoadCancelled => Err Cancelled
  | Err (LoadFailed code) => if String.eqb code "provider_circuit_open" then Err CircuitOpen else Err (ProviderError code)
  end.
(** [load_coalesced] when no other request has the key in flight and the waiter stays *)
Definition load_coalesced (env : CallEnv) (context : LiveCatalogAccessContext) (provider : LiveProviderSnapshot)
    (request : CacheRequest) (key : string) (s : Catalog) : Outcome CatalogCacheValue :=
  let o := load_provider env context provider request key s in
  {| out_result := coalesced_result (coalesced_load (out_result o)); out_called := out_called o; out_state := out_state o |}.

Definition as_fresh (o : Outcome CatalogCacheValue) : Outcome (CatalogCacheValue * CacheFreshness) :=
  {| out_result := (fun value => (value, Fresh)) <$> out_result o; out_called := out_called o; out_state := out_state o |}.
(** a stale answer is returned at once; the spawned refresh is the last argument's business *)
Record Refresh := { rf_context : LiveCatalogAccessContext; rf_provider : LiveProviderSnapshot; rf_request : CacheRequest; rf_key : string }.
Definition cached_call (env : CallEnv) (context : LiveCatalogAccessContext) (provider : LiveProviderSnapshot)
    (request : CacheRequest) (s : Catalog) : Outcome (CatalogCacheValue * CacheFreshness) * option Refresh :=
  match derive provider request (ac_locale context) (ac_timezone context) (partition_of context) with
  | Err e => ({| out_result := Err (CacheError e); out_called := false; out_state := s |}, None)
  | Ok key =>
      let '(found, t) := get crypto key (ac_now context) (ct_table s) in
      let s := with_table s t in
      match found with
      | Err e => ({| out_result := Err (CacheError e); out_called := false; out_state := s |}, None)
      | Ok (Some entry) =>
          match ce_freshness entry with
          | Fresh => ({| out_result := Ok (ce_value entry, Fresh); out_called := false; out_state := s |}, None)
          | Stale =>
              ({| out_result := Ok (ce_value entry, Stale); out_called := false; out_state := s |},
               Some {| rf_context := context; rf_provider := provider; rf_request := request; rf_key := key |})
          end
      | Ok None =>
          (as_fresh (load_coalesced env context provider request key s), None)
      end
  end.
(** the spawned task *)
Definition run_refresh (env : CallEnv) (r : Refresh) (s : Catalog) : Catalog :=
  out_state (load_coalesced env (rf_context r) (rf_provider r) (rf_request r) (rf_key r) s).
End service.

(** ** Operations *)
(** [ProviderDirectory]: what it discovers and finds *)
Record Directory := {
  dir_discover : option (list LiveProviderSnapshot);
  dir_get : uuid -> option LiveProviderSnapshot;
}.
Record ProviderCatalog := { pcat_provider_id : uuid; pcat_catalogs : CatalogSet; pcat_freshness : CacheFreshness }.
Record ProviderScopedError := { pse_provider_id : uuid; pse_code : string }.
Record AggregatedCatalogs := {
  ag_providers : list ProviderCatalog;
  ag_errors : list ProviderScopedError;
  ag_generated_at : instant;
}.
(** what happened during an operation: the state, the refreshes spawned, the providers called *)
Record Trace := { tr_state : Catalog; tr_refreshes : list Refresh; tr_called : list uuid }.
Definition trace_step (tr : Trace) (provider_id : uuid) {A} (o : Outcome A) (r : option Refresh) : Trace :=
  {| tr_state := out_state o; tr_refreshes := tr_refreshes tr ++ option_list r;
     tr_called := tr_called tr ++ (if out_called o then [provider_id] else []) |}.

Section operations.
Context `{VR : Vault R} `{CO : CacheOps}.
Variable cfg : BreakerConfig.
Variable crypto : R.
(** at each provider of the loop: the environment of its call, the token, the grants *)
Variable env : nat -> CallEnv.
Variable is_cancelled : nat -> bool.
Variable tables : nat -> GrantTables.

Fixpoint catalogs_loop (context : LiveCatalogAccessContext) (n : nat) (providers : list LiveProviderSnapshot)
    (output : list ProviderCatalog) (errors : list ProviderScopedError) (tr : Trace)
    : result CatalogServiceError (list ProviderCatalog * list ProviderScopedError) * Trace :=
  match providers with
  | [] => (Ok (output, errors), tr)
  | provider :: rest =>
      if is_cancelled n then (Err Cancelled, tr) else
      let provider_id := ps_provider_id provider in
      match require_visibility context provider_id (tables n) with
      | Err Forbidden => catalogs_loop context (S n) rest output errors tr
      | Err error => (Err error, tr)
      | Ok _ =>
          let '(o, r) := cached_call cfg crypto (env n) context provider ReqCatalogs (tr_state tr) in
          let tr := trace_step tr provider_id o r in
          match out_result o with
          | Ok (ValCatalogs catalogs, freshness) =>
              catalogs_loop context (S n) rest
                (output ++ [{| pcat_provider_id := provider_id; pcat_catalogs := catalogs; pcat_freshness := freshness |}]) errors tr
          | Ok _ =>
              catalogs_loop context (S n) rest output
                (errors ++ [{| pse_provider_id := provider_id; pse_code := "catalog_cache_type_mismatch" |}]) tr
          | Err Cancelled => (Err Cancelled, tr)
          | Err error =>
              catalogs_loop context (S n) rest output
                (errors ++ [{| pse_provider_id := provider_id; pse_code := service_code error |}]) tr
          end
      end
  end.
Definition catalogs (context : LiveCatalogAccessContext) (directory : Directory) (s : Catalog)
    : result CatalogServiceError AggregatedCatalogs * Trace :=
  let tr := {| tr_state := s; tr_refreshes := []; tr_called := [] |} in
  match validate_context context with
  | Err e => (Err e, tr)
  | Ok _ =>
      match dir_discover directory with
      | None => (Err ProviderUnavailable, tr)
      | Some providers =>
          let '(r, tr) := catalogs_loop context 0 providers [] [] tr in
          ('(output, errors) ← r;
           Ok {| ag_providers := output; ag_errors := errors; ag_generated_at := ac_now context |}, tr)
      end
  end.

Definition provider_for (context : LiveCatalogAccessContext) (directory : Directory) (provider_id : uuid)
    : result CatalogServiceError LiveProviderSnapshot :=
  _ ← require_visibility context provider_id (tables 0);
  ok_or (dir_get directory provider_id) ProviderUnavailable.
(** the common part of [catalog], [catalog_definition] and [meta]: one provider, one request, one kind of value *)
Definition ask {A} (context : LiveCatalogAccessContext) (directory : Directory) (provider_id : uuid) (request : CacheRequest)
    (select : CatalogCacheValue -> result CatalogServiceError A) (s : Catalog)
    : result CatalogServiceError (A * CacheFreshness) * Trace :=
  let tr := {| tr_state := s; tr_refreshes := []; tr_called := [] |} in
  match (_ ← validate_context context; provider_for context directory provider_id) with
  | Err e => (Err e, tr)
  | Ok provider =>
      let '(o, r) := cached_call cfg crypto (env 0) context provider request s in
      ('(value, freshness) ← out_result o; a ← select value; Ok (a, freshness), trace_step tr provider_id o r)
  end.
Definition type_mismatch {A} : result CatalogServiceError A := Err (ProviderError "catalog_cache_type_mismatch").
Definition catalog (context : LiveCatalogAccessContext) (directory : Directory) (provider_id : uuid)
    (request : CatalogPageRequest) (s : Catalog) : result CatalogServiceError (CatalogPage * CacheFreshness) * Trace :=
  ask context directory provider_id (ReqCatalog request)
    (fun value => match value with ValCatalog page => Ok page | _ => type_mismatch end) s.
Definition catalog_definition (context : LiveCatalogAccessContext) (directory : Directory) (provider_id : uuid)
    (catalog_id : string) (s : Catalog) : result CatalogServiceError (CatalogDefinition * CacheFreshness) * Trace :=
  ask context directory provider_id ReqCatalogs
    (fun value => match value with
      | ValCatalogs catalogs =>
          ok_or (List.find (fun c => String.eqb (cd_id c) catalog_id) (cs_catalogs catalogs)) CatalogNotFound
      | _ => type_mismatch
      end) s.
Definition meta (context : LiveCatalogAccessContext) (directory : Directory) (provider_id : uuid)
    (request : MetaRequest) (s : Catalog) : result CatalogServiceError (ItemMetadata * CacheFreshness) * Trace :=
  ask context directory provider_id (ReqMeta request)
    (fun value => match value with ValMeta metadata => Ok metadata | _ => type_mismatch end) s.
End operations.

(** ** Loads of one provider and operation, one after another *)
Record Load := {
  ld_env : CallEnv;
  ld_context : LiveCatalogAccessContext;
  ld_request : CacheRequest;
  ld_key : string;
}.
(** others leave the breakers alone during the call *)
Definition quiet (l : Load) : Prop := forall s, ct_breakers (env_during (ld_env l) s) = ct_breakers s.
(** what the load records of the provider's answer *)
Definition verdict (l : Load) : list cell_op :=
  match invoke (env_client (ld_env l)) (ld_request l) with
  | Ok _ => [Succeed]
  | Err e => if circuit_failure e then [Fail_ (env_ended_at (ld_env l))] else []
  end.
(** the operations on the breaker after a load, the newest first *)
Definition load_history (cfg : BreakerConfig) (l : Load) (h : list cell_op) : list cell_op :=
  let now := env_admitted_at (ld_env l) in
  (if decide (reference_admission cfg h now = Open) then [] else verdict l) ++ Admit now :: h.
Definition loads_history (cfg : BreakerConfig) (ls : list Load) (h : list cell_op) : list cell_op :=
  foldl (fun h l => load_history cfg l h) h ls.

Section loads.
Context `{VR : Vault R} `{CO : CacheOps}.
Variable cfg : BreakerConfig.
Hypothesis cfg_ok : cfg_wf cfg.
Variable crypto : R.
Variable provider : LiveProviderSnapshot.
Variable operation : CacheOperation.
Notation key := (ps_provider_id provider, operation).

Definition load (l : Load) (s : Catalog) : Outcome CatalogCacheValue :=
  load_provider cfg crypto (ld_env l) (ld_context l) provider (ld_request l) (ld_key l) s.
Definition run_loads (ls : list Load) (s : Catalog) : Catalog := foldl (fun s l => out_state (load l s)) s ls.
(** the breaker of the provider is where a history led it *)
Definition follows (s : Catalog) (h : list cell_op) : Prop :=
  breakers_wf (ct_breakers s) /\ breaker (ct_breakers s) key = run_history cfg h.

Lemma record_follows victim op s h :
  follows s h -> follows (with_breakers s (call cfg victim key op (ct_breakers s)).2) (op :: h).
Proof.
  intros [Hw Hb]. pose proof (call_breaker cfg victim key op (ct_breakers s) Hw) as Hc.
  destruct (call _ _ _ _ _) as [a b]. destruct Hc as (? & _ & _ & Hb' & _). split; [done|]. cbn [with_breakers ct_breakers snd].
  rewrite Hb', Hb. done.
Qed.
Lemma load_follows l s h :
  request_operation (ld_request l) = operation -> quiet l -> follows s h ->
  let o := load l s in
  follows (out_state o) (load_history cfg l h) /\
  out_called o = bool_decide (reference_admission cfg h (env_admitted_at (ld_env l)) <> Open) /\
  (out_called o = false -> out_result o = Err CircuitOpen).
Proof.
  intros Hop Hq Hs o. subst o. unfold load, load_provider, load_history. rewrite Hop.
  set (now := env_admitted_at (ld_env l)). unfold breaker_admit.
  pose proof (record_follows (env_admit_victim (ld_env l)) (Admit now) s h Hs) as Hs1.
  pose proof (call_breaker cfg (env_admit_victim (ld_env l)) key (Admit now) (ct_breakers s) (proj1 Hs)) as Hc.
  destruct (call _ _ _ _ _) as [a b]. destruct Hc as (_ & _ & -> & _). destruct Hs as [Hw Hb]. cbn [snd] in Hs1.
  rewrite Hb. cbn [run_cell_op].
  pose proof (admission_reference cfg h now cfg_ok) as Ha. destruct (admit_state now _) as [a' s']. cbn [fst] in *. subst a'. cbn [from_option Datatypes.id].
  destruct (decide (reference_admission cfg h now = Open)) as [Ho|Ho]; [rewrite bool_decide_false by tauto; split_and!; [exact Hs1|done|done]|].
  rewrite bool_decide_true by done. unfold verdict. set (s1 := with_breakers s b) in *.
  assert (follows (env_during (ld_env l) s1) (Admit now :: h)) as Hs2 by (split; rewrite (Hq s1); apply Hs1).
  destruct (invoke _ _) as [value|e].
  - destruct (put _ _ _ _ _ _ _ _) as [[entry t]|e]; cbn [out_state out_called out_result app]; split_and!; try done;
      apply (record_follows (env_record_victim (ld_env l)) Succeed) in Hs2; exact Hs2.
  - destruct (circuit_failure e); cbn [out_state out_called app]; split_and!; try done.
    by apply (record_follows (env_record_victim (ld_env l)) (Fail_ (env_ended_at (ld_env l)))).
Qed.
Lemma run_loads_follow ls s h :
  Forall (fun l => request_operation (ld_request l) = operation /\ quiet l) ls -> follows s h ->
  follows (run_loads ls s) (loads_history cfg ls h).
Proof.
  unfold run_loads, loads_history. intros Hl. revert s h. induction Hl as [|l ls [Hop Hq] _ IH]; intros s h Hs; [done|]. cbn [foldl].
  apply IH. by apply load_follows.
Qed.
End loads.
(** after the probe, nothing is admitted before a verdict *)
Definition probed (cfg : BreakerConfig) (h : list cell_op) : Prop :=
  (failure_threshold cfg <= trailing_failures h)%Z /\
  exists t asked, last_failure h = Some (t, asked) /\ existsb (fun a => t + open_duration cfg <=? a)%Z asked = true.
Lemma probed_open cfg h now : probed cfg h -> reference_admission cfg h now = Open /\ probed cfg (Admit now :: h).
Proof.
  intros (Hf & t & asked & Hl & He). split.
  - unfold reference_admission. destruct (Z.ltb_spec (trailing_failures h) (failure_threshold cfg)); [lia|]. by rewrite Hl, He.
  - split; [done|]. exists t, (now :: asked). cbn. rewrite Hl, He, orb_true_r. done.
Qed.
Lemma probe_probed cfg h now : reference_admission cfg h now = Probe -> probed cfg (Admit now :: h).
Proof.
  unfold reference_admission, probed. cbn [trailing_failures last_failure].
  destruct (Z.ltb_spec (trailing_failures h) (failure_threshold cfg)); [done|].
  destruct (last_failure h) as [[t asked]|]; [|done]. destruct (existsb _ asked) eqn:He; [done|].
  destruct (Z.ltb_spec now (t + open_duration cfg)); [done|]. intros _. split; [done|]. exists t, (now :: asked). split; [done|].
  cbn. by apply Z.leb_le in H0 as ->.
Qed.
Lemma probed_loads cfg ls h : probed cfg h -> probed cfg (loads_history cfg ls h).
Proof.
  unfold loads_history. revert h. induction ls as [|l ls IH]; intros h Hp; [done|]. cbn [foldl]. apply IH.
  unfold load_history. destruct (probed_open cfg h (env_admitted_at (ld_env l)) Hp) as [-> Hp']. by rewrite decide_True.
Qed.

(** ** Properties *)
(** The breaker shields a failing provider.  Of any sequence of loads of one provider and operation, each
    calls the provider exactly if the reference admits it given the verdicts of the earlier ones, and a load
    that does not call answers CircuitOpen.  So after [failure_threshold] failures nothing is called until the
    pause is over, and a success lets everything through again. *)
Theorem loads_follow_reference `{VR : Vault R} `{CO : CacheOps} cfg (crypto : R) provider operation ls l table :
  cfg_wf cfg -> Forall (fun l => request_operation (ld_request l) = operation /\ quiet l) (ls ++ [l]) ->
  let s := run_loads cfg crypto provider ls {| ct_breakers := breakers_new; ct_table := table |} in
  let o := load cfg crypto provider l s in
  out_called o = bool_decide (reference_admission cfg (loads_history cfg ls []) (env_admitted_at (ld_env l)) <> Open) /\
  (out_called o = false -> out_result o = Err CircuitOpen).
Proof.
  intros Hc Hl s. apply Forall_app in Hl as [Hls Hl]. rewrite Forall_singleton in Hl. destruct Hl as [Hop Hq].
  apply (load_follows cfg Hc crypto provider operation); [done|done|]. apply run_loads_follow; [done|done|]. by split.
Qed.

(** A probe that ends without a verdict blocks the provider for good.  When the load admitted as the probe
    ends in an error that is not a circuit failure (the caller left, or the provider asks for an account),
    every later load of the provider and operation answers CircuitOpen without calling, however much later. *)
Theorem unreported_probe_blocks `{VR : Vault R} `{CO : CacheOps} cfg (crypto : R) provider operation s h probe ls l :
  cfg_wf cfg -> follows cfg provider operation s h ->
  Forall (fun l => request_operation (ld_request l) = operation /\ quiet l) (probe :: ls ++ [l]) ->
  reference_admission cfg h (env_admitted_at (ld_env probe)) = Probe -> verdict probe = [] ->
  let o := load cfg crypto provider l (run_loads cfg crypto provider ls (out_state (load cfg crypto provider probe s))) in
  out_called o = false /\ out_result o = Err CircuitOpen.
Proof.
  intros Hc Hs Hall Hprobe Hv. apply Forall_cons in Hall as [[Hop Hq] Hall]. apply Forall_app in Hall as [Hls Hl].
  rewrite Forall_singleton in Hl. destruct Hl as [Hop' Hq'].
  pose proof (load_follows cfg Hc crypto provider operation probe s h Hop Hq Hs) as (Hs1 & _ & _).
  assert (load_history cfg probe h = Admit (env_admitted_at (ld_env probe)) :: h) as Hh.
  { unfold load_history. rewrite Hprobe, Hv. by rewrite decide_False. }
  rewrite Hh in Hs1. apply (run_loads_follow cfg Hc crypto provider operation ls) in Hs1; [|done].
  pose proof (load_follows cfg Hc crypto provider operation l _ _ Hop' Hq' Hs1) as (_ & Hcalled & Hres).
  set (o := load cfg crypto provider l _) in *.
  pose proof (probed_loads cfg ls _ (probe_probed cfg h _ Hprobe)) as Hp.
  apply (probed_open cfg _ (env_admitted_at (ld_env l))) in Hp as [Ho _]. rewrite Ho in Hcalled.
  cbn zeta. rewrite bool_decide_false in Hcalled by tauto. split; [done|]. by apply Hres.
Qed.

(** ** Answers and the cache *)
Section answers.
Context `{VL : VaultLaws R ready related} `{CO : CacheOps} {CL : CacheOpsLaws CO}.

Lemma coalesced_err e v : coalesced_result (coalesced_load (Err e)) <> Ok v.
Proof. cbn. by destruct (String.eqb _ _). Qed.
Lemma load_ok cfg (c : R) env context provider request key s v :
  out_result (load_coalesced cfg c env context provider request key s) = Ok v ->
  let o := load_coalesced cfg c env context provider request key s in
  out_called o = true /\ invoke (env_client env) request = Ok v /\
  exists t t' e, put c (env_random env) (env_providers env) key (ps_provider_id provider) v (ac_now context) t = Ok (e, t') /\
    ct_table (out_state o) = t'.
Proof.
  unfold load_coalesced, load_provider. destruct (breaker_admit _ _ _ _ _ _) as [a b]. cbn [out_result out_called out_state].
  destruct (decide (a = Open)); [done|]. destruct (invoke _ _) as [value|e]; [|intros Hx; by apply coalesced_err in Hx]. set (s1 := with_breakers _ (record_success _ _ _ _ _)).
  destruct (put _ _ _ _ _ _ _ _) as [[entry t]|e] eqn:Hp; [|intros Hx; by apply coalesced_err in Hx]. cbn [out_result out_called out_state]. intros [= <-].
  pose proof (put_ok _ _ _ _ _ _ _ _ _ _ Hp) as (He & _).
  assert (ce_value entry = value) as Hv by (by subst entry). rewrite Hv. split_and!; [done..|].
  exists (ct_table s1), t, entry. split; [done|]. done.
Qed.
Lemma invoke_operation client request v : invoke client request = Ok v -> value_operation v = request_operation request.
Proof. destruct request; cbn; [destruct (client_catalogs client)|destruct (client_catalog client _)|destruct (client_meta client _)]; cbn; by intros [= <-]. Qed.

(** An answer is reused while it is fresh, and refreshed once while it is stale.  After a request whose
    answer the provider gave, the same question from the same partition, with the row untouched, gets the same
    answer without a call up to the hint's max age; then the same answer with one refresh spawned, up to the
    stale time; and after that the row is deleted and the provider, if admitted, is asked again. *)
Theorem answers_are_reused cfg c c' env env' context context' provider request s s' v :
  ready c -> related c c' -> nonces_ok (env_random env) -> artworks_utf8 (value_artworks v) ->
  let o := (cached_call cfg c env context provider request s).1 in
  out_result o = Ok (v, Fresh) -> out_called o = true ->
  ac_locale context' = ac_locale context -> ac_timezone context' = ac_timezone context ->
  partition_of context' = partition_of context ->
  (forall key, ct_table s' !! key = ct_table (out_state o) !! key) ->
  (0 <= stale_while_revalidate_seconds (cache_hint v))%Z ->
  let fresh_until := (ac_now context + seconds (max_age_seconds (cache_hint v)))%Z in
  let stale_until := (fresh_until + seconds (stale_while_revalidate_seconds (cache_hint v)))%Z in
  in_rfc3339 stale_until = true ->
  exists key,
  let '(o', refresh) := cached_call cfg c' env' context' provider request s' in
  if (stale_until <? ac_now context')%Z then
    o' = as_fresh (load_coalesced cfg c' env' context' provider request key (with_table s' (base.delete key (ct_table s'))))
    /\ refresh = None
  else out_called o' = false /\ out_state o' = s' /\
    if (ac_now context' <=? fresh_until)%Z then out_result o' = Ok (v, Fresh) /\ refresh = None
    else out_result o' = Ok (v, Stale) /\
         refresh = Some {| rf_context := context'; rf_provider := provider; rf_request := request; rf_key := key |}.
Proof.
  intros Hc Hr Hn Hu o Ho Hcalled Hl Htz Hp Htable Hage fresh_until stale_until Hin. subst o. unfold cached_call in *.
  rewrite Hl, Htz, Hp. destruct (derive _ _ _ _ _) as [key|e]; [|done]. exists key.
  destruct (get c key (ac_now context) (ct_table s)) as [[[entry|]|e] t]; [by destruct (ce_freshness entry)| |done].
  cbn [fst as_fresh out_result out_called out_state] in *.
  set (l := load_coalesced cfg c env context provider request key (with_table s t)) in *.
  destruct (out_result l) as [v'|e] eqn:Hv; [|done]. injection Ho as ->.
  apply load_ok in Hv as (_ & _ & t1 & t2 & e & Hput & Ht2).
  destruct (put_then_get c c' _ _ _ _ _ _ (ac_now context') _ _ _ (ct_table s') Hc Hr Hn Hu Hput Hage) as [He Hg].
  { apply put_ok in Hput as (-> & _). exact Hin. }
  { rewrite Htable. fold l in Ht2. by rewrite Ht2. }
  rewrite Hg, He. cbn [entry_of ce_stale_until at_freshness ce_fresh_until ce_freshness ce_value]. fold fresh_until stale_until.
  destruct (stale_until <? ac_now context')%Z; [done|]. cbn [at_freshness ce_freshness].
  assert (with_table s' (ct_table s') = s') as Hs by (by destruct s').
  change (ce_fresh_until (entry_of key (ps_provider_id provider) v (ac_now context))) with fresh_until.
  destruct (ac_now context' <=? fresh_until)%Z; cbn [at_freshness entry_of ce_value]; rewrite Hs; done.
Qed.
End answers.

(** ** The aggregation *)
(** the providers, from the [n]th on, that the grants show to the context *)
Fixpoint visible_from (tables : nat -> GrantTables) (context : LiveCatalogAccessContext) (n : nat)
    (providers : list LiveProviderSnapshot) : list uuid :=
  match providers with
  | [] => []
  | p :: rest =>
      (if is_ok (require_visibility context (ps_provider_id p) (tables n)) then [ps_provider_id p] else [])
      ++ visible_from tables context (S n) rest
  end.
Lemma catalogs_loop_visible `{VR : Vault R} `{CO : CacheOps} cfg (c : R) env is_cancelled tables context providers n out errs tr r tr' :
  catalogs_loop cfg c env is_cancelled tables context n providers out errs tr = (r, tr') ->
  (exists called, tr_called tr' = tr_called tr ++ called /\ called ⊆+ visible_from tables context n providers) /\
  forall out' errs', r = Ok (out', errs') ->
    (pcat_provider_id <$> out') ++ (pse_provider_id <$> errs') ≡ₚ
    (pcat_provider_id <$> out) ++ (pse_provider_id <$> errs) ++ visible_from tables context n providers.
Proof.
  revert n out errs tr. induction providers as [|p rest IH]; intros n out errs tr; cbn [catalogs_loop visible_from].
  { intros [= <- <-]. split; [exists []; by rewrite app_nil_r|]. intros out' errs' [= -> ->]. by rewrite app_nil_r. }
  destruct (is_cancelled n); [intros [= <- <-]; split; [exists []; rewrite app_nil_r; split; [done|apply submseteq_nil_l]|done]|].
  destruct (require_visibility _ _ _) as [u|e] eqn:Hv; cbn [is_ok app].
  2: { destruct e; try (intros [= <- <-]; split; [exists []; rewrite app_nil_r; split; [done|apply submseteq_nil_l]|done]). apply IH. }
  destruct (cached_call _ _ _ _ _ _ _) as [o rf]. set (tr1 := trace_step tr (ps_provider_id p) o rf).
  assert (forall called, called ⊆+ visible_from tables context (S n) rest -> exists called0,
    tr_called tr1 ++ called = tr_called tr ++ called0 /\ called0 ⊆+ ps_provider_id p :: visible_from tables context (S n) rest) as Hcalls.
  { intros called Hs. exists ((if out_called o then [ps_provider_id p] else []) ++ called). subst tr1. cbn. split; [by rewrite app_assoc|].
    destruct (out_called o); cbn; [by apply submseteq_skip|by apply submseteq_cons]. }
  assert (forall out1 errs1, (pcat_provider_id <$> out1) ++ (pse_provider_id <$> errs1) ≡ₚ
      (pcat_provider_id <$> out) ++ (pse_provider_id <$> errs) ++ [ps_provider_id p] ->
    catalogs_loop cfg c env is_cancelled tables context (S n) rest out1 errs1 tr1 = (r, tr') ->
    (exists called, tr_called tr' = tr_called tr ++ called /\ called ⊆+ ps_provider_id p :: visible_from tables context (S n) rest) /\
    forall out' errs', r = Ok (out', errs') -> (pcat_provider_id <$> out') ++ (pse_provider_id <$> errs') ≡ₚ
      (pcat_provider_id <$> out) ++ (pse_provider_id <$> errs) ++ ps_provider_id p :: visible_from tables context (S n) rest) as Hnext.
  { intros out1 errs1 Hperm Hloop. apply IH in Hloop as [(called & Heq & Hs) Hr]. split.
    - destruct (Hcalls called Hs) as (called0 & Heq0 & Hs0). exists called0. by rewrite Heq.
    - intros out' errs' Hok. rewrite (Hr out' errs' Hok). rewrite app_assoc, Hperm. rewrite <- !app_assoc. done. }
  destruct (out_result o) as [[v fr]|e].
  - destruct v; apply Hnext; rewrite fmap_app; cbn; rewrite ?fmap_app; solve_Permutation.
  - destruct e; try (apply Hnext; rewrite fmap_app; cbn; solve_Permutation).
    intros [= <- <-]. split; [|done]. destruct (Hcalls [] (submseteq_nil_l _)) as (called0 & Heq0 & Hs0). exists called0.
    by rewrite app_nil_r in Heq0.
Qed.

(** The aggregation shows each visible provider exactly once and never calls another.  However it ends, only
    providers that the grants show to the caller are called, each at most once; and if it returns, the providers
    and the errors together name exactly the visible providers, each as often as it was discovered. *)
Theorem catalogs_cover_visible_providers `{VR : Vault R} `{CO : CacheOps} cfg (c : R) env is_cancelled tables context providers dir_get s r tr :
  catalogs cfg c env is_cancelled tables context {| dir_discover := Some providers; dir_get := dir_get |} s = (r, tr) ->
  tr_called tr ⊆+ visible_from tables context 0 providers /\
  forall a, r = Ok a ->
    (pcat_provider_id <$> ag_providers a) ++ (pse_provider_id <$> ag_errors a) ≡ₚ visible_from tables context 0 providers.
Proof.
  unfold catalogs. destruct (validate_context context); [|intros [= <- <-]; split; [apply submseteq_nil_l|done]].
  cbn [dir_discover]. destruct (catalogs_loop _ _ _ _ _ _ _ _ _ _ _) as [r' tr'] eqn:Hl. intros [= <- <-].
  apply catalogs_loop_visible in Hl as [(called & Hc & Hs) Hr]. split; [by rewrite Hc|].
  intros ag Ha. destruct r' as [[out errs]|e]; [|done]. cbn in Ha. injection Ha as <-. exact (Hr out errs eq_refl).
Qed.
