(* ===== verification/CatalogWitness.v ===== *)
(** * Concrete runs of the catalog

    An item with a poster, its stored form, a codec that knows just that payload, and a context whose profile
    may browse provider 5. *)
From stdpp Require Import pretty.
From S2P Require Import Prelude Bytes LiveContract ProviderCalls Crypto Vault SessionStore CatalogCircuit CatalogCoalescer CatalogCache CatalogGrants CatalogService.
#[local] Existing Instance Demo.prims.
#[local] Existing Instance Demo.laws.

Definition demo_item : LiveItem :=
  {| it_id := "match-1"; it_item_type := ItemEvent; it_title := "Match"; it_subtitle := None; it_description := None;
     it_status := StatusLive; it_starts_at := None; it_ends_at := None;
     it_poster := Some {| artwork_expose := "https://cdn.example/p.png" |}; it_background := None; it_logo := None;
     it_categories := ["sport"]; it_badges := []; it_facts := [] |}.
Definition demo_hint : CacheHint := {| max_age_seconds := 60; stale_while_revalidate_seconds := 240; etag := Some "v1" |}.
Definition demo_value : CatalogCacheValue := ValMeta {| im_item := demo_item; im_streams := []; im_cache := demo_hint |}.
Definition demo_random (column : string) : option string := Some Demo.nonce.
(** every key is the key of this request *)
Definition demo_key : string := CACHE_PREFIX +:+ "demo".
Definition demo_envelope : string := envelope_text "k1" Demo.nonce ("https://cdn.example/p.png" +:+ Demo.tag).
Definition demo_payload : StoredPayload :=
  StoredMeta 1 (with_artworks demo_item (Some demo_envelope) None None) [] demo_hint.

#[local] Instance FilterValue_eq_dec : EqDecision FilterValue. Proof. solve_decision. Defined.
#[local] Instance CacheHint_eq_dec : EqDecision CacheHint. Proof. solve_decision. Defined.
#[local] Instance FilterOption_eq_dec : EqDecision FilterOption. Proof. solve_decision. Defined.
#[local] Instance FilterKind_eq_dec : EqDecision FilterKind. Proof. solve_decision. Defined.
#[local] Instance CatalogPresentation_eq_dec : EqDecision CatalogPresentation. Proof. solve_decision. Defined.
#[local] Instance FilterDefinition_eq_dec : EqDecision FilterDefinition. Proof. solve_decision. Defined.
#[local] Instance CatalogDefinition_eq_dec : EqDecision CatalogDefinition. Proof. solve_decision. Defined.
#[local] Instance LiveItemStatus_eq_dec : EqDecision LiveItemStatus. Proof. solve_decision. Defined.
#[local] Instance Fact_eq_dec : EqDecision Fact. Proof. solve_decision. Defined.
#[local] Instance StoredLiveItem_eq_dec : EqDecision (Item string). Proof. solve_decision. Defined.
#[local] Instance ItemDiagnosticReason_eq_dec : EqDecision ItemDiagnosticReason. Proof. solve_decision. Defined.
#[local] Instance ItemDiagnostic_eq_dec : EqDecision ItemDiagnostic. Proof. solve_decision. Defined.
#[local] Instance StreamChoice_eq_dec : EqDecision StreamChoice. Proof. solve_decision. Defined.
#[local] Instance StoredPayload_eq_dec : EqDecision StoredPayload. Proof. unfold StoredLiveItem. solve_decision. Defined.

Module World.
#[export] Instance ops : CacheOps := {|
  payload_to_string p := if decide (p = demo_payload) then Some "payload" else None;
  payload_from_slice s := if String.eqb s "payload" then Some demo_payload else None;
  material_to_vec m := Some (ma_locale m);
  revision_hex s := s;
  hash_base64 s := "demo";
  checked_add_seconds t d := Some (t + seconds d)%Z |}.
#[export] Instance ops_laws : CacheOpsLaws ops.
Proof.
  split; cbn.
  - intros p s. destruct (decide (p = demo_payload)) as [->|]; [|done]. by intros [= <-].
  - by intros t d t' [= <-].
  - done.
Qed.
End World.
Import World.

Lemma demo_nonces : nonces_ok demo_random.
Proof. intros column. exists Demo.nonce. split; [done|]. vm_compute. reflexivity. Qed.
Lemma demo_artworks : artworks_utf8 (value_artworks demo_value).
Proof. repeat constructor. Qed.
Definition demo_now : instant := seconds 1700000000.
Definition put_result := put Demo.ring demo_random {[5%N]} demo_key 5 demo_value demo_now ∅.
Definition demo_entry : CatalogCacheEntry := entry_of demo_key 5 demo_value demo_now.
Definition demo_row : CacheRow := row_of demo_entry "payload".
Lemma put_result_ok : put_result = Ok (demo_entry, {[demo_key := demo_row]}).
Proof. vm_compute. reflexivity. Qed.
Lemma demo_rings : same_keys Demo.ring Demo.rotated.
Proof. by split. Qed.
(** read back under the rotated ring while it is stale *)
Lemma cached_value_returned_witness :
  get Demo.rotated demo_key (demo_now + seconds 100) {[demo_key := demo_row]} =
  (Ok (Some (at_freshness (demo_now + seconds 100) demo_entry)), {[demo_key := demo_row]}).
Proof.
  exact (proj1 (proj2 (cached_value_returned Demo.ring Demo.rotated demo_random {[5%N]} demo_key 5 demo_value demo_now
    (demo_now + seconds 100) ∅ demo_entry {[demo_key := demo_row]} {[demo_key := demo_row]} Demo.ring_is_wf demo_rings
    demo_nonces demo_artworks put_result_ok ltac:(done) ltac:(vm_compute; reflexivity) eq_refl))).
Defined.
(** two rows, one expired *)
Definition expired_row : CacheRow :=
  {| cr_provider_id := 5; cr_operation := "meta"; cr_payload_json := "payload"; cr_etag := None; cr_fresh_until := 0; cr_stale_until := 1 |}.
Definition two_rows : gmap string CacheRow := {[demo_key := demo_row; CACHE_PREFIX +:+ "old" := expired_row]}.
Lemma cleanup_result : cleanup_expired demo_now 10 two_rows = Ok (1, {[demo_key := demo_row]}).
Proof. vm_compute. reflexivity. Qed.
Lemma cleanup_deletes_oldest_expired_witness : size two_rows = 1 + size ({[demo_key := demo_row]} : gmap string CacheRow).
Proof. exact (proj1 (proj2 (cleanup_deletes_oldest_expired demo_now 10 two_rows 1 _ cleanup_result))). Defined.

(** ** The service *)
Definition demo_context (now : instant) : LiveCatalogAccessContext :=
  {| ac_user_id := 1; ac_home_id := 2; ac_profile_id := 3; ac_role := Viewer; ac_profile_type := Managed;
     ac_authorization_revision := 4; ac_can_browse_live := true; ac_locale := "en-US"; ac_timezone := "UTC"; ac_now := now |}.
Definition demo_provider : LiveProviderSnapshot := {| ps_provider_id := 5; ps_revision := "r1" |}.
Definition demo_request : CacheRequest := ReqMeta {| mr_item_id := "match-1" |}.
Definition answering (r : result ProviderInvocationError CatalogCacheValue) : ProviderClient :=
  {| client_catalogs := v ← r; match v with ValCatalogs v => Ok v | _ => Err Transport end;
     client_catalog _ := v ← r; match v with ValCatalog v => Ok v | _ => Err Transport end;
     client_meta _ := v ← r; match v with ValMeta v => Ok v | _ => Err Transport end |}.
Definition demo_env (r : result ProviderInvocationError CatalogCacheValue) (at_ : instant) : CallEnv :=
  {| env_client := answering r; env_admitted_at := at_; env_ended_at := at_; env_admit_victim := None;
     env_record_victim := None; env_during s := s; env_providers := {[5%N]}; env_random := demo_random |}.
Definition demo_load (r : result ProviderInvocationError CatalogCacheValue) (at_ : instant) : Load :=
  {| ld_env := demo_env r at_; ld_context := demo_context demo_now; ld_request := demo_request; ld_key := demo_key |}.
Definition small : BreakerConfig := {| failure_threshold := 2; open_duration := seconds 30; max_entries := 2 |}.
Lemma small_wf : cfg_wf small.
Proof. by split. Qed.
Lemma demo_loads_ok rs : Forall (fun l => request_operation (ld_request l) = OpMeta /\ quiet l) ((fun p => demo_load p.1 p.2) <$> rs).
Proof. induction rs; [done|]. constructor; [|done]. split; [done|]. by intros s. Qed.
(** two timeouts, and a third request five seconds later *)
Definition two_timeouts : list Load := [demo_load (Err RequestTimeout) 0; demo_load (Err RequestTimeout) 1].
Lemma loads_follow_reference_witness :
  out_called (load small Demo.ring demo_provider (demo_load (Ok demo_value) (seconds 5))
    (run_loads small Demo.ring demo_provider two_timeouts {| ct_breakers := breakers_new; ct_table := ∅ |})) = false.
Proof.
  destruct (loads_follow_reference small Demo.ring demo_provider OpMeta two_timeouts (demo_load (Ok demo_value) (seconds 5)) ∅
    small_wf (demo_loads_ok [(Err RequestTimeout, 0%Z); (Err RequestTimeout, 1%Z); (Ok demo_value, seconds 5)])) as [-> _].
  vm_compute. reflexivity.
Defined.
(** the breaker is open, its pause is over, and the caller of the probe leaves: the provider stays blocked, a
    day later even a healthy one *)
Definition open_state : Catalog := run_loads small Demo.ring demo_provider two_timeouts {| ct_breakers := breakers_new; ct_table := ∅ |}.
Lemma unreported_probe_blocks_witness :
  out_result (load small Demo.ring demo_provider (demo_load (Ok demo_value) (seconds 86400))
    (out_state (load small Demo.ring demo_provider (demo_load (Err CallCancelled) (seconds 40)) open_state))) = Err CircuitOpen.
Proof.
  apply (unreported_probe_blocks small Demo.ring demo_provider OpMeta open_state (loads_history small two_timeouts [])
    (demo_load (Err CallCancelled) (seconds 40)) [] (demo_load (Ok demo_value) (seconds 86400)) small_wf).
  - apply (run_loads_follow small small_wf); [|by split].
    exact (demo_loads_ok [(Err RequestTimeout, 0%Z); (Err RequestTimeout, 1%Z)]).
  - exact (demo_loads_ok [(Err CallCancelled, seconds 40); (Ok demo_value, seconds 86400)]).
  - vm_compute. reflexivity.
  - vm_compute. reflexivity.
Defined.

(** a miss that calls the provider, and the same question within the hour, of a failing provider *)
Definition first_call := (cached_call small Demo.ring (demo_env (Ok demo_value) 0) (demo_context demo_now) demo_provider demo_request
  {| ct_breakers := breakers_new; ct_table := ∅ |}).1.
Lemma first_call_ok : out_result first_call = Ok (demo_value, Fresh).
Proof. vm_compute. reflexivity. Qed.
Lemma first_call_called : out_called first_call = true.
Proof. vm_compute. reflexivity. Qed.
Lemma answers_are_reused_witness :
  let '(o, refresh) := cached_call small Demo.rotated (demo_env (Err Transport) 9) (demo_context (demo_now + seconds 100))
    demo_provider demo_request (out_state first_call) in
  out_called o = false /\ out_result o = Ok (demo_value, Stale) /\ is_some_b refresh = true.
Proof.
  destruct (answers_are_reused small Demo.ring Demo.rotated (demo_env (Ok demo_value) 0) (demo_env (Err Transport) 9)
    (demo_context demo_now) (demo_context (demo_now + seconds 100)) demo_provider demo_request
    {| ct_breakers := breakers_new; ct_table := ∅ |} (out_state first_call) demo_value Demo.ring_is_wf demo_rings demo_nonces
    demo_artworks first_call_ok first_call_called eq_refl eq_refl eq_refl (fun _ => eq_refl) ltac:(vm_compute; discriminate)
    ltac:(vm_compute; reflexivity)) as [key Hk].
  destruct (cached_call _ _ _ _ _ _ _) as [o refresh]. destruct Hk as (Hc & _ & Hr & ->). by rewrite Hc, Hr.
Defined.
Definition demo_grants : GrantTables :=
  {| gt_revisions := {[3%N := {| rv_home_id := 2; rv_revision := 4 |}]};
     gt_grants := {[(3%N, 5%N) := {| gr_id := 8; gr_can_browse := true; gr_can_play := false; gr_created_by_user_id := None; gr_created_by_actor_snapshot := "{}";
                                     gr_created_at := 0; gr_updated_at := 0 |}]} |}.
(** provider 5 is visible and fails, provider 6 is not visible *)
Definition demo_discovered : list LiveProviderSnapshot := [demo_provider; {| ps_provider_id := 6; ps_revision := "r1" |}].
Definition demo_aggregation := catalogs small Demo.ring (fun _ => demo_env (Err Transport) 0) (fun _ => false) (fun _ => demo_grants)
  (demo_context demo_now) {| dir_discover := Some demo_discovered; dir_get _ := None |} {| ct_breakers := breakers_new; ct_table := ∅ |}.
Lemma catalogs_cover_visible_providers_witness :
  tr_called demo_aggregation.2 ⊆+ [5%N] /\
  demo_aggregation.1 = Ok {| ag_providers := []; ag_errors := [{| pse_provider_id := 5; pse_code := "provider_transport_failure" |}];
                             ag_generated_at := demo_now |}.
Proof.
  split; [|vm_compute; reflexivity].
  assert (visible_from (fun _ => demo_grants) (demo_context demo_now) 0 demo_discovered = [5%N]) as <- by (vm_compute; reflexivity).
  apply (catalogs_cover_visible_providers small Demo.ring (fun _ => demo_env (Err Transport) 0) (fun _ => false) (fun _ => demo_grants)
    (demo_context demo_now) demo_discovered (fun _ => None) {| ct_breakers := breakers_new; ct_table := ∅ |}
    demo_aggregation.1 demo_aggregation.2). apply surjective_pairing.
Defined.

(** ** The coalescer: two requests for a key, the load returns, both are served *)
Definition both_wait : @Coalescer nat := enter 1 "k" (enter 0 "k" coalescer_new).
Lemma both_wait_reachable : reachable both_wait.
Proof. eapply rtc_l; [by apply (step_enter 0 "k")|]. eapply rtc_l; [by apply (step_enter 1 "k")|]. apply rtc_refl. Qed.
Lemma one_load_per_key_witness : flights both_wait !! "k" = Some 0 <-> exists f, heap both_wait !! 0 = Some f /\ fl_key f = "k" /\ active f.
Proof. exact (proj1 (proj2 (one_load_per_key both_wait both_wait_reachable)) "k" 0). Defined.
Lemma waiting_caller_is_served_witness :
  exists s' f r, rtc cstep both_wait s' /\ received 1 0 r s' /\ heap both_wait !! 0 = Some f /\
    match fl_task f with Loading => r = Ok 7 | Loaded x | Completed x | Published x | Removed x => r = x end.
Proof. exact (waiting_caller_is_served both_wait 1 0 (Ok 7) both_wait_reachable eq_refl). Defined.
