(* ===== verification/CanonicalJson.v ===== *)
(** * Canonical JSON (src/src/live/admin/audit.rs)

    The text that audit records sign: objects with their keys in order, no white space.  Strings are quoted
    by serde_json ([JsonText]); a number is the text serde_json prints for it. *)
From S2P Require Import Prelude Bytes.
#[local] Set Warnings "-register-all".

(** ** Values: serde_json's [Value] *)
Inductive json :=
| JNull
| JBool (b : bool)
| JNumber (text : string)
| JString (s : string)
| JArray (l : list json)
| JObject (fields : list (string * json)).   (* in the order of the map *)

Class JsonText := {
  quote : string -> string;                  (* [serde_json::to_string] of a [str] *)
}.
(** a quoted text starts with a quotation mark and ends where it says *)
Class JsonTextLaws (T : JsonText) : Prop := {
  quote_mark s : exists r, quote s = String "034" r;
  quote_delimited s s' r r' : quote s +:+ r = quote s' +:+ r' -> s = s' /\ r = r';
}.

(** collecting into a [BTreeMap<&String, _>]: by key, a later entry replaces an earlier one *)
Fixpoint btree_insert {V} (k : string) (v : V) (l : list (string * V)) : list (string * V) :=
  match l with
  | [] => [(k, v)]
  | (k', v') :: rest =>
      match String.compare k k' with
      | Lt => (k, v) :: l
      | Eq => (k, v) :: rest
      | Gt => (k', v') :: btree_insert k v rest
      end
  end.
Definition btree_collect {V} (l : list (string * V)) : list (string * V) :=
  foldl (fun m kv => btree_insert kv.1 kv.2 m) [] l.

Section text.
Context `{JsonText}.
Definition field_text (kt : string * string) : string := quote kt.1 +:+ ":" +:+ kt.2.
(** [write_canonical] *)
Fixpoint write_canonical (value : json) : string :=
  match value with
  | JNull => "null"
  | JBool b => if b then "true" else "false"
  | JNumber text => text
  | JString s => quote s
  | JArray values => "[" +:+ join "," (write_canonical <$> values) +:+ "]"
  | JObject fields =>
      "{" +:+ join "," (field_text <$> btree_collect ((fun kv => (kv.1, write_canonical kv.2)) <$> fields)) +:+ "}"
  end.
End text.

(** ** The value a canonical text determines: keys in order, everywhere *)
Fixpoint normalize (value : json) : json :=
  match value with
  | JArray values => JArray (normalize <$> values)
  | JObject fields => JObject (btree_collect ((fun kv => (kv.1, normalize kv.2)) <$> fields))
  | _ => value
  end.
(** numbers as JSON writes them *)
Definition number_byte (c : ascii) : bool :=
  is_digit c || existsb (Ascii.eqb c) ["-"%char; "+"%char; "."%char; "e"%char; "E"%char].
Definition number_start (c : ascii) : bool := is_digit c || Ascii.eqb c "-"%char.
Definition number_text (s : string) : bool :=
  match s with EmptyString => false | String c _ => number_start c && all_bytes number_byte s end.
Fixpoint json_wf (value : json) : bool :=
  match value with
  | JNumber text => number_text text
  | JArray values => forallb json_wf values
  | JObject fields => forallb (fun kv => json_wf kv.2) fields
  | _ => true
  end.

(** ** Induction through the nested lists *)
Section induction.
Variable P : json -> Prop.
Hypothesis P_null : P JNull.
Hypothesis P_bool : forall b, P (JBool b).
Hypothesis P_number : forall text, P (JNumber text).
Hypothesis P_string : forall s, P (JString s).
Hypothesis P_array : forall l, Forall P l -> P (JArray l).
Hypothesis P_object : forall l, Forall (fun kv => P kv.2) l -> P (JObject l).
Fixpoint json_ind_nested (v : json) : P v :=
  match v with
  | JNull => P_null
  | JBool b => P_bool b
  | JNumber text => P_number text
  | JString s => P_string s
  | JArray l =>
      P_array l ((fix go (l : list json) : Forall P l :=
        match l with [] => Forall_nil_2 P | x :: l => Forall_cons_2 P x l (json_ind_nested x) (go l) end) l)
  | JObject l =>
      P_object l ((fix go (l : list (string * json)) : Forall (fun kv => P kv.2) l :=
        match l with
        | [] => Forall_nil_2 (fun kv : string * json => P kv.2)
        | kv :: l => Forall_cons_2 (fun kv : string * json => P kv.2) kv l (json_ind_nested kv.2) (go l)
        end) l)
  end.
End induction.

(** ** Maps of fields *)
Definition on_value {V W} (f : V -> W) (kv : string * V) : string * W := (kv.1, f kv.2).
Lemma btree_insert_map {V W} (f : V -> W) k v l :
  btree_insert k (f v) (on_value f <$> l) = on_value f <$> btree_insert k v l.
Proof.
  induction l as [|[k' v'] l IH]; [done|]. cbn. destruct (String.compare k k'); [done|done|]. cbn. by rewrite <- IH.
Qed.
Lemma btree_collect_map {V W} (f : V -> W) l : btree_collect (on_value f <$> l) = on_value f <$> btree_collect l.
Proof.
  unfold btree_collect. change (@nil (string * W)) with (on_value f <$> @nil (string * V)) at 1. generalize (@nil (string * V)).
  induction l as [|[k v] l IH]; intros m; [done|]. cbn. by rewrite btree_insert_map, IH.
Qed.
Lemma btree_insert_forall {V} (Q : string * V -> Prop) k v l : Q (k, v) -> Forall Q l -> Forall Q (btree_insert k v l).
Proof.
  intros Hq. induction 1 as [|[k' v'] l Hx Hl IH]; cbn; [by constructor|]. destruct (String.compare k k'); by repeat constructor.
Qed.
Lemma btree_collect_forall {V} (Q : string * V -> Prop) l : Forall Q l -> Forall Q (btree_collect l).
Proof.
  unfold btree_collect. assert (Forall Q []) as Hm by constructor. revert Hm. generalize (@nil (string * V)).
  induction l as [|[k v] l IH]; intros m Hm Hl; [done|]. apply Forall_cons in Hl as [Hkv Hl]. cbn. apply IH; [|done].
  by apply btree_insert_forall.
Qed.
Lemma json_wf_fields l : json_wf (JObject l) = true <-> Forall (fun kv => json_wf kv.2 = true) l.
Proof. cbn. rewrite forallb_forall, Forall_forall. setoid_rewrite list_elem_of_In. done. Qed.
Lemma json_wf_values l : json_wf (JArray l) = true <-> Forall (fun v => json_wf v = true) l.
Proof. cbn. rewrite forallb_forall, Forall_forall. setoid_rewrite list_elem_of_In. done. Qed.
Lemma normalize_wf v : json_wf v = true -> json_wf (normalize v) = true.
Proof.
  induction v as [ |b|t|s|l IH|l IH] using json_ind_nested; try done.
  - rewrite json_wf_values. cbn [normalize]. rewrite json_wf_values. intros Hl. rewrite Forall_fmap.
    rewrite Forall_forall in *. cbn. auto.
  - rewrite json_wf_fields. cbn [normalize]. rewrite json_wf_fields. intros Hl.
    change (fun kv : string * json => (kv.1, normalize kv.2)) with (on_value normalize).
    apply btree_collect_forall. rewrite Forall_fmap. rewrite Forall_forall in *. cbn. auto.
Qed.

Section delimited.
Context `{JL : JsonTextLaws}.

(** the text of a value whose keys are in order already *)
Fixpoint render (value : json) : string :=
  match value with
  | JNull => "null"
  | JBool b => if b then "true" else "false"
  | JNumber text => text
  | JString s => quote s
  | JArray values => "[" +:+ join "," (render <$> values) +:+ "]"
  | JObject fields => "{" +:+ join "," ((fun kv => field_text (kv.1, render kv.2)) <$> fields) +:+ "}"
  end.
Lemma write_canonical_render v : write_canonical v = render (normalize v).
Proof.
  induction v as [ |b|t|s|l IH|l IH] using json_ind_nested; try done; cbn [write_canonical normalize render].
  - do 3 f_equal. rewrite <- list_fmap_compose. by apply Forall_fmap_ext_1.
  - do 3 f_equal. change (fun kv : string * json => (kv.1, normalize kv.2)) with (on_value normalize).
    change (fun kv : string * json => (kv.1, write_canonical kv.2)) with (on_value write_canonical).
    rewrite !btree_collect_map, <- !list_fmap_compose.
    apply Forall_fmap_ext_1. apply btree_collect_forall. eapply Forall_impl; [exact IH|]. intros [k v] Hv. unfold compose, on_value. cbn in *. by rewrite Hv.
Qed.

(** what may follow a value *)
Definition delim (r : string) : Prop := match r with EmptyString => True | String c _ => number_byte c = false end.
Definition delimited {A} (f : A -> string) (ok : A -> Prop) (x : A) : Prop :=
  forall y r r', ok y -> delim r -> delim r' -> f x +:+ r = f y +:+ r' -> x = y /\ r = r'.
Lemma number_delimited s s' r r' :
  all_bytes number_byte s = true -> all_bytes number_byte s' = true -> delim r -> delim r' ->
  s +:+ r = s' +:+ r' -> s = s' /\ r = r'.
Proof.
  revert s'. induction s as [|c s IH]; intros [|c' s'] Hs Hs' Hr Hr' Heq; rewrite ?str_app_nil_l, ?str_app_cons in Heq; [done| | |].
  - subst r. rewrite all_bytes_cons in Hs'. bool_hyps. cbn in Hr. congruence.
  - subst r'. rewrite all_bytes_cons in Hs. bool_hyps. cbn in Hr'. congruence.
  - rewrite all_bytes_cons in Hs, Hs'. bool_hyps. injection Heq as <- Heq. destruct (IH s') as [-> ->]; done.
Qed.
(** the items of an array or object, up to its closing character *)
Lemma items_delimited {A} (f : A -> string) (ok : A -> Prop) close l l' r r' :
  number_byte close = false -> close <> ","%char ->
  (forall x, ok x -> exists c t, f x = String c t /\ c <> close) ->
  Forall (delimited f ok) l -> Forall ok l -> Forall ok l' ->
  join "," (f <$> l) +:+ String close r = join "," (f <$> l') +:+ String close r' -> l = l' /\ r = r'.
Proof.
  intros Hclose Hcomma Hstart.
  set (rest := fun (l : list A) r => match l with [] => String close r | _ => String "," (join "," (f <$> l) +:+ String close r) end).
  assert (forall x l r, join "," (f <$> x :: l) +:+ String close r = f x +:+ rest l r) as Hjoin.
  { intros x [|y m] q; cbn; [done|]. by rewrite str_app_assoc, str_app_cons. }
  assert (forall l r, delim (rest l r)) as Hdelim by (intros [|] ?; [exact Hclose|done]).
  assert (forall x l q q', ok x -> String close q = join "," (f <$> x :: l) +:+ String close q' -> False) as Hne.
  { intros x m q q' Hx. rewrite Hjoin. destruct (Hstart x Hx) as (c & t & -> & Hc). rewrite str_app_cons. congruence. }
  intros Hf. revert l'. induction Hf as [|x l Hx Hl IH]; intros [|x' l'] Hok Hok' Heq; [by injection Heq as ->| | |].
  - apply Forall_cons in Hok' as [Hx' _]. change (join "," (f <$> []) +:+ String close r) with (String close r) in Heq.
    by destruct (Hne _ _ _ _ Hx' Heq).
  - apply Forall_cons in Hok as [Hx' _]. symmetry in Heq. change (join "," (f <$> []) +:+ String close r') with (String close r') in Heq.
    by destruct (Hne _ _ _ _ Hx' Heq).
  - apply Forall_cons in Hok as [Hokx Hok], Hok' as [Hokx' Hok']. rewrite !Hjoin in Heq.
    apply Hx in Heq as [<- Heq]; [|done|apply Hdelim|apply Hdelim]. enough (l = l' /\ r = r') as [-> ->] by done.
    destruct l as [|y l], l' as [|y' l']; cbn [rest] in Heq.
    + by injection Heq as ->.
    + destruct Hcomma. by injection Heq.
    + destruct Hcomma. by injection Heq.
    + injection Heq as Heq. by apply IH.
Qed.

(** the first character tells the kind of a value *)
Definition starts (v : json) (c : ascii) : Prop :=
  match v with
  | JNull => c = "n"%char
  | JBool b => c = (if b then "t" else "f")%char
  | JNumber _ => number_start c = true
  | JString _ => c = "034"%char
  | JArray _ => c = "["%char
  | JObject _ => c = "{"%char
  end.
Lemma render_starts v : json_wf v = true -> exists c t, render v = String c t /\ starts v c.
Proof.
  destruct v as [ |[]|[|c t]|s|l|l]; cbn [json_wf render starts]; intros Hw; try done; try (by eexists _, _).
  - exists c, t. split; [done|]. cbn in Hw. by bool_hyps.
  - destruct (quote_mark s) as [r ->]. by eexists _, _.
Qed.
Lemma starts_not_closing v c : starts v c -> c <> "]"%char.
Proof. intros Hs ->. by destruct v as [ |[]| | | | ]. Qed.
Lemma starts_inj v v' c : starts v c -> starts v' c ->
  match v, v' with
  | JNull, JNull | JNumber _, JNumber _ | JString _, JString _ | JArray _, JArray _ | JObject _, JObject _ => True
  | JBool b, JBool b' => b = b'
  | _, _ => False
  end.
Proof. destruct v as [ |[]| | | | ], v' as [ |[]| | | | ]; cbn; intros H1 H2; try done; subst; try done. Qed.
Lemma render_delimited v : json_wf v = true -> delimited render (fun v => json_wf v = true) v.
Proof.
  induction v as [ |b|t|s|l IH|l IH] using json_ind_nested; intros Hw v' r r' Hw' Hr Hr' Heq;
    destruct (render_starts _ Hw) as (c & x & Hc & Hs), (render_starts _ Hw') as (c' & x' & Hc' & Hs');
    assert (c' = c) as -> by (rewrite Hc, Hc', !str_app_cons in Heq; congruence);
    pose proof (starts_inj _ _ _ Hs Hs') as Hkind; destruct v' as [ |b'|t'|s'|l'|l']; try done; clear Hc Hc' Hs Hs'; cbn [render] in Heq.
  - split; [done|]. by apply str_app_inv_head in Heq.
  - subst b'. split; [done|]. by apply str_app_inv_head in Heq.
  - cbn in Hw, Hw'. destruct t as [|c1 t]; [done|]. destruct t' as [|c2 t']; [done|]. cbn [number_text] in Hw, Hw'. bool_hyps.
    apply number_delimited in Heq as [-> ->]; done.
  - apply quote_delimited in Heq as [-> ->]. done.
  - rewrite json_wf_values in Hw, Hw'. rewrite !str_app_assoc in Heq. apply str_app_inv_head in Heq.
    apply (items_delimited render (fun v => json_wf v = true)) in Heq as [-> ->]; try done.
    + intros v Hv. destruct (render_starts v Hv) as (c1 & t1 & Ht & Hs). exists c1, t1. split; [done|]. by eapply starts_not_closing.
    + rewrite Forall_forall in *. auto.
  - rewrite json_wf_fields in Hw, Hw'. rewrite !str_app_assoc in Heq. apply str_app_inv_head in Heq.
    apply (items_delimited _ (fun kv : string * json => json_wf kv.2 = true)) in Heq as [-> ->]; try done.
    + intros [k v] Hv. unfold field_text. cbn. destruct (quote_mark k) as [q ->]. by eexists _, _.
    + rewrite Forall_forall in *. intros [k v] Hin [k' v'] q q' Hv' Hq Hq'. unfold field_text. cbn [fst snd] in *. rewrite !str_app_assoc.
      intros [-> Heq']%quote_delimited. apply str_app_inv_head in Heq'.
      destruct (IH (k', v) Hin (Hw _ Hin) v' q q' Hv' Hq Hq' Heq') as [Hv ->]. cbn in Hv. by subst v'.
Qed.
Lemma canonical_normal v v' :
  json_wf v = true -> json_wf v' = true -> write_canonical v = write_canonical v' <-> normalize v = normalize v'.
Proof.
  intros Hw Hw'. rewrite !write_canonical_render. split; [|by intros ->]. intros Heq.
  apply (render_delimited _ (normalize_wf _ Hw) (normalize v') "" ""); [by apply normalize_wf|done|done|].
  by rewrite !str_app_nil_r.
Qed.
End delimited.
