(* ===== verification/ProviderJson.v ===== *)
(** * The bounded reading of provider responses (src/src/live/contract/validation.rs)

    [parse_checked_json]: a visitor follows serde_json's reader and limits depth, nodes and lengths while it builds
    the value, and refuses repeated keys.  The reader is serde_json's: what it finds in the bytes, up to the place
    where it fails, is the parameter [JsonReader]. *)
From S2P Require Import Prelude LiveContract ProviderCalls CanonicalJson.
#[local] Set Warnings "-register-all".

Definition MAX_JSON_DEPTH : Z := 32.
Definition MAX_JSON_NODES : Z := 20000.
Definition MAX_UNKNOWN_ARRAY_ITEMS : Z := 256.
Definition MAX_OBJECT_FIELDS : Z := 512.
Definition MAX_PROVIDER_RESPONSE_BYTES : Z := 2 * 1024 * 1024.

(** ** What the reader finds *)
Inductive Raw :=
| RawNull
| RawBool (b : bool)
| RawNumber (text : string)
| RawString (s : string)
| RawArray (l : list (option Raw))                             (* [None]: no element can be read *)
| RawObject (l : list (option (string * option Raw)))          (* no key, or no value after the key *)
| RawBroken.                                                    (* no value begins here *)
Class JsonReader := {
  read_json : string -> Raw * bool;     (* and whether nothing follows the value *)
}.

(** ** The visitor: the markers of [de::Error::custom], or serde_json's own error *)
Inductive JsonFault := DuplicateKeyMarker | LimitMarker | ReaderFault.
Definition sequence_limit_for_key (key : string) : Z :=
  if String.eqb key "catalogs" then 50
  else if String.eqb key "items" then 100
  else if existsb (String.eqb key) ["streams"; "categories"; "badges"; "facts"; "details"] then 20
  else if String.eqb key "alternatives" then 10
  else if String.eqb key "filters" then 12
  else if String.eqb key "options" then 200
  else if String.eqb key "cookies" then 32
  else if String.eqb key "credentialAuthorities" then 8
  else if String.eqb key "itemTypes" then 2
  else MAX_UNKNOWN_ARRAY_ITEMS.
Definition has_key {V} (key : string) (fields : list (string * V)) : bool :=
  existsb (fun kv => String.eqb kv.1 key) fields.
Definition zlen {A} (l : list A) : Z := Z.of_nat (length l).
Section visitor.
(** the seed of an element: its limit on the length of an array, what was read, and the counter of nodes *)
Variable seed : Z -> Raw -> Z -> result JsonFault (json * Z).
Fixpoint visit_seq (limit : Z) (values : list json) (l : list (option Raw)) (nodes : Z) : result JsonFault (json * Z) :=
  match l with
  | [] => Ok (JArray values, nodes)
  | None :: _ => Err ReaderFault
  | Some raw :: l =>
      read ← seed MAX_UNKNOWN_ARRAY_ITEMS raw nodes;
      _ ← reject_if (limit <=? zlen values)%Z LimitMarker;
      visit_seq limit (values ++ [read.1]) l read.2
  end.
Fixpoint visit_map (values : list (string * json)) (l : list (option (string * option Raw))) (nodes : Z)
    : result JsonFault (json * Z) :=
  match l with
  | [] => Ok (JObject values, nodes)
  | None :: _ => Err ReaderFault
  | Some (key, raw) :: l =>
      _ ← reject_if (has_key key values) DuplicateKeyMarker;
      _ ← reject_if (MAX_OBJECT_FIELDS <=? zlen values)%Z LimitMarker;
      match raw with
      | None => Err ReaderFault
      | Some raw =>
          read ← seed (sequence_limit_for_key key) raw nodes;
          visit_map (btree_insert key read.1 values) l read.2
      end
  end.
End visitor.
(** [CheckedValueSeed] with its [depth] and [sequence_limit]; the counter of nodes is returned with the value *)
Fixpoint checked_value (depth limit : Z) (raw : Raw) (nodes : Z) : result JsonFault (json * Z) :=
  let nodes := u64_saturating_add nodes 1 in
  if (MAX_JSON_DEPTH <? depth)%Z || (MAX_JSON_NODES <? nodes)%Z then Err LimitMarker else
  match raw with
  | RawNull => Ok (JNull, nodes)
  | RawBool b => Ok (JBool b, nodes)
  | RawNumber text => Ok (JNumber text, nodes)
  | RawString s => Ok (JString s, nodes)
  | RawBroken => Err ReaderFault
  | RawArray l => visit_seq (checked_value (depth + 1)) limit [] l nodes
  | RawObject l => visit_map (checked_value (depth + 1)) [] l nodes
  end.
Definition fault_code (e : JsonFault) : ContractErrorCode :=
  match e with DuplicateKeyMarker => DuplicateJsonKey | LimitMarker => LimitExceeded | ReaderFault => MalformedJson end.
Definition parse_checked_json `{JsonReader} (body : string) : result ContractErrorCode json :=
  if str_empty body then Err MalformedJson
  else if (MAX_PROVIDER_RESPONSE_BYTES <? slen body)%Z then Err LimitExceeded
  else
    let '(raw, ended) := read_json body in
    read ← map_err fault_code (checked_value 0 MAX_UNKNOWN_ARRAY_ITEMS raw 0);
    _ ← reject_if (negb ended) MalformedJson;
    Ok read.1.

(** ** The values that are read: every key once, nothing missing *)
Fixpoint strict (raw : Raw) : option json :=
  match raw with
  | RawNull => Some JNull
  | RawBool b => Some (JBool b)
  | RawNumber text => Some (JNumber text)
  | RawString s => Some (JString s)
  | RawBroken => None
  | RawArray l => JArray <$> mapM (fun x => match x with Some raw => strict raw | None => None end) l
  | RawObject l =>
      fields ← mapM (fun x => match x with Some (key, Some raw) => pair key <$> strict raw | _ => None end) l;
      if bool_decide (NoDup fields.*1) then Some (JObject (btree_collect fields)) else None
  end.
(** ** Bounded values *)
Fixpoint json_nodes (v : json) : Z :=
  match v with
  | JArray l => 1 + foldr (fun x n => json_nodes x + n) 0 l
  | JObject l => 1 + foldr (fun kv n => json_nodes kv.2 + n) 0 l
  | _ => 1
  end%Z.
(** the depth and the lengths of a value at depth [d], of which an array may have [n] elements *)
Fixpoint within (d n : Z) (v : json) : Prop :=
  (d <= MAX_JSON_DEPTH)%Z /\
  match v with
  | JArray l => (zlen l <= n)%Z /\ foldr (fun x P => within (d + 1) MAX_UNKNOWN_ARRAY_ITEMS x /\ P) True l
  | JObject l => (zlen l <= MAX_OBJECT_FIELDS)%Z /\ foldr (fun kv P => within (d + 1) (sequence_limit_for_key kv.1) kv.2 /\ P) True l
  | _ => True
  end.

(** ** Facts *)
Section raw_induction.
Variable P : Raw -> Prop.
Hypothesis P_null : P RawNull.
Hypothesis P_bool : forall b, P (RawBool b).
Hypothesis P_number : forall t, P (RawNumber t).
Hypothesis P_string : forall s, P (RawString s).
Hypothesis P_broken : P RawBroken.
Hypothesis P_array : forall l, Forall (fun x => match x with Some raw => P raw | None => True end) l -> P (RawArray l).
Hypothesis P_object : forall l, Forall (fun x => match x with Some (_, Some raw) => P raw | _ => True end) l -> P (RawObject l).
Fixpoint raw_ind' (raw : Raw) : P raw :=
  match raw with
  | RawNull => P_null
  | RawBool b => P_bool b
  | RawNumber t => P_number t
  | RawString s => P_string s
  | RawBroken => P_broken
  | RawArray l => P_array l
      ((fix all l := match l return Forall _ l with
        | [] => Forall_nil_2 _
        | Some raw :: l => Forall_cons_2 _ (Some raw) l (raw_ind' raw) (all l)
        | None :: l => Forall_cons_2 _ None l I (all l)
        end) l)
  | RawObject l => P_object l
      ((fix all l := match l return Forall _ l with
        | [] => Forall_nil_2 _
        | Some (key, Some raw) :: l => Forall_cons_2 _ (Some (key, Some raw)) l (raw_ind' raw) (all l)
        | Some (key, None) :: l => Forall_cons_2 _ (Some (key, None)) l I (all l)
        | None :: l => Forall_cons_2 _ None l I (all l)
        end) l)
  end.
End raw_induction.
Definition nodes_of (l : list json) : Z := foldr (fun x n => json_nodes x + n)%Z 0%Z l.
Lemma json_nodes_pos v : (1 <= json_nodes v)%Z.
Proof.
  induction v as [ |b|t|s|l IH|l IH] using json_ind_nested; cbn; try lia.
  - assert (0 <= foldr (fun x n => json_nodes x + n) 0 l)%Z; [|lia]. induction IH; cbn; lia.
  - assert (0 <= foldr (fun kv n => json_nodes kv.2 + n) 0 l)%Z; [|lia]. induction IH; cbn; lia.
Qed.
Lemma nodes_of_pos l : (0 <= nodes_of l)%Z.
Proof. induction l as [|v l IH]; cbn; [done|]. pose proof (json_nodes_pos v). unfold nodes_of in *. lia. Qed.
Lemma nodes_of_perm l l' : l ≡ₚ l' -> nodes_of l = nodes_of l'.
Proof. induction 1; cbn; unfold nodes_of in *; cbn; lia. Qed.
Lemma json_nodes_object l : json_nodes (JObject l) = (1 + nodes_of l.*2)%Z.
Proof. cbn. f_equal. unfold nodes_of. induction l as [|kv l IH]; [done|]. cbn. by rewrite IH. Qed.
Lemma within_array d n l : within d n (JArray l) <->
  (d <= MAX_JSON_DEPTH)%Z /\ (zlen l <= n)%Z /\ Forall (within (d + 1) MAX_UNKNOWN_ARRAY_ITEMS) l.
Proof.
  cbn. assert (foldr (fun x P => within (d + 1) MAX_UNKNOWN_ARRAY_ITEMS x /\ P) True l <-> Forall (within (d + 1) MAX_UNKNOWN_ARRAY_ITEMS) l)
    as ->; [|done]. induction l as [|x l IH]; cbn; [by rewrite Forall_nil|]. by rewrite Forall_cons, IH.
Qed.
Definition field_within (d : Z) (kv : string * json) : Prop := within d (sequence_limit_for_key kv.1) kv.2.
Lemma within_object d n l : within d n (JObject l) <->
  (d <= MAX_JSON_DEPTH)%Z /\ (zlen l <= MAX_OBJECT_FIELDS)%Z /\ Forall (field_within (d + 1)) l.
Proof.
  cbn. assert (foldr (fun kv P => within (d + 1) (sequence_limit_for_key kv.1) kv.2 /\ P) True l <-> Forall (field_within (d + 1)) l)
    as ->; [|done]. induction l as [|x l IH]; cbn; [by rewrite Forall_nil|]. by rewrite Forall_cons, IH.
Qed.
Lemma within_depth d n v : within d n v -> (d <= MAX_JSON_DEPTH)%Z.
Proof. by destruct v; intros [? _]. Qed.
Lemma zlen_app {A} (l l' : list A) : zlen (l ++ l') = (zlen l + zlen l')%Z.
Proof. unfold zlen. rewrite length_app. lia. Qed.
Lemma zlen_cons {A} (x : A) l : zlen (x :: l) = (1 + zlen l)%Z.
Proof. unfold zlen. cbn. lia. Qed.
Lemma zlen_pos {A} (l : list A) : (0 <= zlen l)%Z.
Proof. unfold zlen. lia. Qed.

Lemma has_key_spec {V} key (fields : list (string * V)) : has_key key fields = true <-> key ∈ fields.*1.
Proof.
  unfold has_key. rewrite existsb_exists, list_elem_of_fmap. setoid_rewrite list_elem_of_In. setoid_rewrite String.eqb_eq. naive_solver.
Qed.
Lemma btree_insert_new {V} k (v : V) l : k ∉ l.*1 -> btree_insert k v l ≡ₚ (k, v) :: l.
Proof.
  induction l as [|[k' v'] l IH]; intros Hk; [done|]. cbn. destruct (String.compare k k') eqn:Hc.
  - apply String.compare_eq_iff in Hc as ->. cbn in Hk. set_solver.
  - done.
  - rewrite IH by (cbn in Hk; set_solver). apply Permutation_swap.
Qed.
Lemma collect_perm {V} (l m : list (string * V)) : NoDup (l.*1 ++ m.*1) ->
  foldl (fun m kv => btree_insert kv.1 kv.2 m) m l ≡ₚ l ++ m.
Proof.
  revert m. induction l as [|[k v] l IH]; intros m Hn; [done|]. cbn in *. apply NoDup_cons in Hn as [Hk Hn].
  assert (k ∉ m.*1) as Hkm by set_solver. pose proof (btree_insert_new k v m Hkm) as Hp. rewrite IH.
  - rewrite Hp. by rewrite <- Permutation_middle.
  - rewrite Hp. cbn. rewrite <- Permutation_middle. by constructor.
Qed.
(** what a seed accepts, and the value and count it returns *)
Definition exact (strict_of : option json) (d n k : Z) (r : result JsonFault (json * Z)) : Prop :=
  forall v k', r = Ok (v, k') <->
    strict_of = Some v /\ within d n v /\ k' = (k + json_nodes v)%Z /\ (k' <= MAX_JSON_NODES)%Z.
Notation element := (fun x : option Raw => match x with Some raw => strict raw | None => None end).
Notation entry := (fun x : option (string * option Raw) => match x with Some (key, Some raw) => pair key <$> strict raw | _ => None end).
Section loops.
Variable seed : Z -> Raw -> Z -> result JsonFault (json * Z).
Variable d : Z.
Notation seeded raw := (forall n k, (0 <= n)%Z -> (0 <= k <= MAX_JSON_NODES)%Z -> exact (strict raw) d n k (seed n raw k)).
Lemma seed_err n v k e : exact (Some v) d n k (Err e) -> within d n v -> (k + json_nodes v <= MAX_JSON_NODES)%Z -> False.
Proof. intros Hs Hw Hb. destruct (Hs v (k + json_nodes v)%Z) as [_ Hok]. discriminate Hok. done. Qed.
Lemma visit_seq_exact limit l values k v k' :
  Forall (fun x => match x with Some raw => seeded raw | None => True end) l ->
  (0 <= k <= MAX_JSON_NODES)%Z -> (zlen values <= limit)%Z ->
  visit_seq seed limit values l k = Ok (v, k') <->
  exists vs, mapM element l = Some vs /\ v = JArray (values ++ vs) /\ Forall (within d MAX_UNKNOWN_ARRAY_ITEMS) vs /\
    (zlen (values ++ vs) <= limit)%Z /\ k' = (k + nodes_of vs)%Z /\ (k' <= MAX_JSON_NODES)%Z.
Proof.
  intros Hl. revert values k. induction Hl as [|[raw|] l Hx Hl IH]; intros values k Hk Hlen; cbn.
  - split; [intros [= <- <-]; exists []; rewrite app_nil_r; split_and!; cbn; done || lia|].
    intros ([|? ?] & [= ] & -> & _ & _ & -> & _). rewrite app_nil_r. cbn. by rewrite Z.add_0_r.
  - assert (0 <= MAX_UNKNOWN_ARRAY_ITEMS)%Z as H256 by done.
    destruct (seed MAX_UNKNOWN_ARRAY_ITEMS raw k) as [[y k1]|e] eqn:Hs; cbn.
    + pose proof (proj1 (Hx _ _ H256 Hk y k1) Hs) as (Hy & Hwy & -> & Hb). rewrite Hy. cbn.
      destruct (Z.leb_spec limit (zlen values)) as [Hfull|Hroom]; cbn.
      { split; [done|]. intros (vs & Hvs & -> & _ & Hlim & _). destruct (mapM element l) as [vs'|]; [|done]. injection Hvs as <-.
        rewrite zlen_app, zlen_cons in Hlim. pose proof (zlen_pos vs'). lia. }
      pose proof (json_nodes_pos y). rewrite IH; [|lia|rewrite zlen_app, zlen_cons; unfold zlen at 2; cbn; lia].
      destruct (mapM element l) as [vs|]; cbn; [|by split; intros (? & ? & _)]. split.
      * intros (vs' & [= <-] & -> & Hw & Hlim & -> & Hb'). exists (y :: vs). rewrite <- app_assoc in *. cbn. split_and!; try done; [by constructor|].
        unfold nodes_of. cbn. lia.
      * intros (vs' & [= <-] & -> & Hw & Hlim & -> & Hb'). apply Forall_cons in Hw as [_ Hw]. exists vs. rewrite <- app_assoc. cbn in *.
        split_and!; try done. unfold nodes_of. cbn. lia.
    + split; [done|]. intros (vs & Hvs & -> & Hw & _ & -> & Hb). destruct (strict raw) as [y|] eqn:Hy; [|done].
      cbn in Hvs. destruct (mapM element l) as [vs'|]; [|done]. injection Hvs as <-. apply Forall_cons in Hw as [Hwy _].
      specialize (Hx _ _ H256 Hk). rewrite Hs in Hx. exfalso. eapply seed_err; [exact Hx|done|]. pose proof (nodes_of_pos vs'). unfold nodes_of in *. cbn in Hb. lia.
  - split; [done|]. by intros (? & ? & _).
Qed.
Lemma visit_map_exact l values k v k' :
  Forall (fun x => match x with Some (_, Some raw) => seeded raw | _ => True end) l ->
  (0 <= k <= MAX_JSON_NODES)%Z -> (zlen values <= MAX_OBJECT_FIELDS)%Z -> NoDup values.*1 ->
  visit_map seed values l k = Ok (v, k') <->
  exists vs, mapM entry l = Some vs /\ v = JObject (foldl (fun m kv => btree_insert kv.1 kv.2 m) values vs) /\
    NoDup (vs.*1 ++ values.*1) /\ Forall (field_within d) vs /\ (zlen (values ++ vs) <= MAX_OBJECT_FIELDS)%Z /\
    k' = (k + nodes_of vs.*2)%Z /\ (k' <= MAX_JSON_NODES)%Z.
Proof.
  intros Hl. revert values k. induction Hl as [|[[key [raw|]]|] l Hx Hl IH]; intros values k Hk Hlen Hnv; cbn.
  - split; [intros [= <- <-]; exists []; rewrite app_nil_r; split_and!; cbn; auto; lia|].
    intros ([|? ?] & [= ] & -> & _ & _ & _ & -> & _). cbn. by rewrite Z.add_0_r.
  - destruct (has_key key values) eqn:Hkey; cbn.
    { split; [done|]. intros (vs & Hvs & _ & Hn & _). destruct (strict raw); [|done]. cbn in Hvs. destruct (mapM entry l) as [vs'|]; [|done].
      injection Hvs as <-. apply has_key_spec in Hkey. cbn in Hn. apply NoDup_cons in Hn as [Hn _]. set_solver. }
    assert (key ∉ values.*1) as Hnew by (intros Hin; apply has_key_spec in Hin; congruence).
    destruct (Z.leb_spec MAX_OBJECT_FIELDS (zlen values)) as [Hfull|Hroom]; cbn.
    { split; [done|]. intros (vs & Hvs & _ & _ & _ & Hlim & _). destruct (strict raw); [|done]. cbn in Hvs. destruct (mapM entry l) as [vs'|]; [|done].
      injection Hvs as <-. rewrite zlen_app, zlen_cons in Hlim. pose proof (zlen_pos vs'). lia. }
    assert (0 <= sequence_limit_for_key key)%Z as Hn by (unfold sequence_limit_for_key; repeat case_match; done).
    destruct (seed (sequence_limit_for_key key) raw k) as [[y k1]|e] eqn:Hs; cbn.
    + pose proof (proj1 (Hx _ _ Hn Hk y k1) Hs) as (Hy & Hwy & -> & Hb). rewrite Hy. cbn. pose proof (json_nodes_pos y).
      pose proof (btree_insert_new key y values Hnew) as Hperm.
      assert (forall vs, zlen (btree_insert key y values ++ vs) = zlen (values ++ (key, y) :: vs)) as Hlen'
        by (intros vs; unfold zlen; rewrite !length_app, Hperm; cbn; lia).
      assert (forall vs : list (string * json), NoDup (vs.*1 ++ (btree_insert key y values).*1) <-> NoDup (key :: vs.*1 ++ values.*1)) as Hnd'
        by (intros vs; rewrite Hperm; cbn; by rewrite <- Permutation_middle).
      specialize (Hlen' []) as Hlen0. rewrite app_nil_r, zlen_app, zlen_cons in Hlen0. change (zlen []) with 0%Z in Hlen0.
      rewrite IH; [|lia|lia|by apply (Hnd' []), NoDup_cons].
      destruct (mapM entry l) as [vs|]; cbn; [|by split; intros (? & ? & _)]. split.
      * intros (vs' & [= <-] & -> & Hnd & Hw & Hlim & -> & Hb'). exists ((key, y) :: vs). cbn. rewrite <- Hnd', <- Hlen'. split_and!; try done.
        -- by constructor.
        -- unfold nodes_of. cbn. lia.
      * intros (vs' & [= <-] & -> & Hnd & Hw & Hlim & -> & Hb'). apply Forall_cons in Hw as [_ Hw]. exists vs. rewrite Hnd', Hlen'.
        split_and!; try done; unfold nodes_of in *; cbn in *; lia.
    + split; [done|]. intros (vs & Hvs & -> & _ & Hw & _ & -> & Hb). destruct (strict raw) as [y|] eqn:Hy; [|done].
      cbn in Hvs. destruct (mapM entry l) as [vs'|]; [|done]. injection Hvs as <-. apply Forall_cons in Hw as [Hwy _].
      specialize (Hx _ _ Hn Hk). rewrite Hs in Hx. exfalso. eapply seed_err; [exact Hx|done|]. pose proof (nodes_of_pos vs'.*2). unfold nodes_of in *. cbn in Hb. lia.
  - split; [by destruct (has_key key values), (MAX_OBJECT_FIELDS <=? zlen values)%Z|]. by intros (? & ? & _).
  - split; [done|]. by intros (? & ? & _).
Qed.
End loops.

(** C22: Bounded JSON.  From a counter within its limit, the seed accepts exactly the values that can be read with every key
    once and nothing missing, whose depth, arrays and objects are within their limits (an array by the key it stands
    under), as long as the nodes counted so far do not pass 20000; it returns the value and counts exactly its nodes. *)
Theorem checked_value_exact raw depth limit nodes v nodes' :
  (0 <= limit)%Z -> (0 <= nodes <= MAX_JSON_NODES)%Z ->
  checked_value depth limit raw nodes = Ok (v, nodes') <->
  strict raw = Some v /\ within depth limit v /\ nodes' = (nodes + json_nodes v)%Z /\ (nodes' <= MAX_JSON_NODES)%Z.
Proof.
  revert depth limit nodes v nodes'.
  induction raw as [ |b|t|s| |l IH|l IH] using raw_ind'; intros d n k v k' Hn Hk.
  all: assert (u64_saturating_add k 1 = k + 1)%Z as Hadd by (unfold u64_saturating_add, MAX_JSON_NODES, u64_max in *; lia).
  all: cbn [checked_value]; rewrite Hadd; destruct (Z.ltb_spec MAX_JSON_DEPTH d) as [Hd|Hd]; cbn [orb].
  all: try (split; [done|]; intros (_ & Hw%within_depth & _); lia).
  all: destruct (Z.ltb_spec MAX_JSON_NODES (k + 1)) as [Hfull|Hroom];
    [split; [done|]; intros (_ & _ & -> & ?); pose proof (json_nodes_pos v); lia|].
  1-4: cbn [strict]; split; [by intros [= <- <-]|by intros ([= <-] & _ & -> & _)].
  - split; [done|by intros [? _]].
  - rewrite (visit_seq_exact _ (d + 1)); [|eapply Forall_impl; [exact IH|]; intros [raw|] Hraw; [|done];
      intros n' k0 Hn' Hk0 v' k''; by apply Hraw|lia|unfold zlen; cbn; lia]. cbn [strict].
    destruct (mapM _ l) as [vs|]; cbn [fmap option_fmap option_map].
    2: { split; [by intros (? & ? & _)|by intros [? _]]. }
    split.
    + intros (vs' & [= <-] & -> & Hw & Hlim & -> & Hb). split_and!; [done|by apply within_array|cbn; unfold nodes_of; lia|done].
    + intros ([= <-] & (_ & Hlim & Hw)%within_array & -> & Hb). exists vs. split_and!; try done. cbn. unfold nodes_of. lia.
  - rewrite (visit_map_exact _ (d + 1)); [|eapply Forall_impl; [exact IH|]; intros [[key [raw|]]|] Hraw; [|done..];
      intros n' k0 Hn' Hk0 v' k''; by apply Hraw|lia|done|constructor]. cbn [strict].
    destruct (mapM _ l) as [vs|]; cbn [mbind option_bind].
    2: { split; [by intros (? & ? & _)|by intros [? _]]. }
    assert (NoDup vs.*1 -> btree_collect vs ≡ₚ vs) as Hperm.
    { intros Hnd. pose proof (collect_perm vs []) as Hp. cbn in Hp. rewrite !app_nil_r in Hp. by apply Hp. }
    case_bool_decide as Hnd.
    2: { split; [intros (vs' & [= <-] & _ & Hnd' & _)|by intros [? _]]. cbn in Hnd'. by rewrite app_nil_r in Hnd'. }
    specialize (Hperm Hnd). assert (forall d, Forall (field_within d) (btree_collect vs) <-> Forall (field_within d) vs) as Hf by (intros; by rewrite Hperm).
    assert (zlen (btree_collect vs) = zlen vs) as Hz by (unfold zlen; by rewrite Hperm).
    assert (nodes_of (btree_collect vs).*2 = nodes_of vs.*2) as Hc by (apply nodes_of_perm; by rewrite Hperm). split.
    + intros (vs' & [= <-] & -> & _ & Hw & Hlim & -> & Hb). change (foldl _ [] vs) with (btree_collect vs).
      split_and!; [done|apply within_object; rewrite Hz, Hf; done|rewrite json_nodes_object; lia|done].
    + intros ([= <-] & (_ & Hlim & Hw)%within_object & -> & Hb). rewrite json_nodes_object in *. exists vs. rewrite app_nil_r.
      split_and!; [done..|by apply Hf|change ([] ++ vs) with vs; by rewrite <- Hz|lia|done].
Qed.

(** Fifty catalogs are read, fifty-one are too many, and so is a key that is repeated. *)
Definition some_catalogs (n : nat) : Raw :=
  RawObject [Some ("cache", Some (RawObject [])); Some ("catalogs", Some (RawArray (replicate n (Some (RawString "c")))))].
Definition fifty_catalogs : json :=
  JObject [("cache", JObject []); ("catalogs", JArray (replicate 50 (JString "c")))].
Example checked_value_exact_witness :
  checked_value 0 MAX_UNKNOWN_ARRAY_ITEMS (some_catalogs 50) 0 = Ok (fifty_catalogs, 53%Z) /\
  checked_value 0 MAX_UNKNOWN_ARRAY_ITEMS (some_catalogs 51) 0 = Err LimitMarker /\
  checked_value 0 MAX_UNKNOWN_ARRAY_ITEMS (RawObject [Some ("a", Some RawNull); Some ("a", Some RawBroken)]) 0 = Err DuplicateKeyMarker.
Proof.
  split_and!; [|reflexivity..].
  assert (0 <= MAX_UNKNOWN_ARRAY_ITEMS)%Z as Hn by (unfold MAX_UNKNOWN_ARRAY_ITEMS; lia).
  assert (0 <= 0 <= MAX_JSON_NODES)%Z as Hk by (unfold MAX_JSON_NODES; lia).
  apply (checked_value_exact (some_catalogs 50) 0 MAX_UNKNOWN_ARRAY_ITEMS 0 fifty_catalogs 53 Hn Hk).
  split_and!; [vm_compute; reflexivity| |vm_compute; reflexivity|unfold MAX_JSON_NODES; lia].
  vm_compute. repeat (split; try discriminate).
Defined.
