(* ===== verification/ProviderContract.v ===== *)
(** * What a provider may answer (src/src/live/contract/validation.rs, wire.rs, model.rs)

    The responses of a provider: bounded JSON ([ProviderJson]), then a wire struct, then the rules that turn it into
    the data of the contract.  serde's derived readers of the wire structs are the parameter [WireReaders]; url, http
    and chrono are those of the planner, the upstream credentials and [TimeText]. *)
From S2P Require Import Prelude Bytes LiveContract CanonicalJson Crypto Vault SessionStore Planner UpstreamPolicy CookieJar.
From S2P Require Import UpstreamCredentials CatalogCircuit CatalogCache ProviderCalls ProviderJson.
#[local] Set Warnings "-register-all".

(** ** What a provider declares to serve *)
Record ProviderContract := { pc_item_types : gset LiveItemType; pc_protocols : gset StreamProtocol }.
Definition ProviderContract_new (item_types : list LiveItemType) (protocols : list StreamProtocol)
    : result ContractErrorCode ProviderContract :=
  let item_types : gset LiveItemType := list_to_set item_types in
  let protocols : gset StreamProtocol := list_to_set protocols in
  _ ← reject_if (bool_decide (item_types = ∅) || (2 <? size item_types)%nat || bool_decide (protocols = ∅)) InvalidShape;
  Ok {| pc_item_types := item_types; pc_protocols := protocols |}.

(** ** The structs of wire.rs *)
Record WireHealthResponse := { wh_status : string; wh_contract_versions : list Z; wh_details : list string }.
Record WireCacheHint := { wc_max_age_seconds : Z; wc_stale_while_revalidate_seconds : Z; wc_etag : option string }.
Record WireFilterOption := { wo_value : string; wo_label : string }.
Record WireFilterDefinition := {
  wf_id : string;
  wf_label : string;
  wf_kind : FilterKind;
  wf_required : bool;
  wf_default : option FilterValue;
  wf_options : list WireFilterOption;
}.
Record WireCatalogDefinition := {
  wd_id : string;
  wd_name : string;
  wd_description : option string;
  wd_item_types : list LiveItemType;
  wd_presentation : CatalogPresentation;
  wd_order : Z;
  wd_filters : list WireFilterDefinition;
}.
Record WireCatalogsResponse := { wcs_catalogs : list WireCatalogDefinition; wcs_cache : WireCacheHint }.
Record WireCatalogPage := { wp_items : list json; wp_next_cursor : option string; wp_cache : WireCacheHint }.
Record WireFact := { wfa_label : string; wfa_value : string }.
Record WireItem := {
  wi_id : string;
  wi_item_type : LiveItemType;
  wi_title : string;
  wi_subtitle : option string;
  wi_description : option string;
  wi_status : LiveItemStatus;
  wi_starts_at : option string;
  wi_ends_at : option string;
  wi_poster_url : option string;
  wi_background_url : option string;
  wi_logo_url : option string;
  wi_categories : list string;
  wi_badges : list string;
  wi_facts : list WireFact;
  wi_extra : list (string * json);
}.
Record WireMetaResponse := { wm_item : json; wm_streams : list json; wm_cache : WireCacheHint }.
Record WireStreamChoice := {
  wsc_id : string;
  wsc_label : string;
  wsc_quality : option string;
  wsc_language : option string;
  wsc_protocol_hint : option StreamProtocol;
  wsc_priority : Z;
  wsc_extra : list (string * json);
}.
Record WireResolveResponse := { wr_descriptor : json; wr_alternatives : list json }.
Inductive DrmKind := DrmNone | Widevine | Fairplay | Playready | DrmUnknown.
#[export] Instance DrmKind_eq_dec : EqDecision DrmKind.
Proof. solve_decision. Defined.
Record WireTimeShift := { wt_available : bool; wt_window_seconds : option Z }.
(** [WireCredentialAuthority] and [WireMediaHints] have the fields of [CredentialAuthority] and [MediaHints] *)
Record WireSourceDescriptor := {
  ws_stream_id : string;
  ws_label : string;
  ws_quality : option string;
  ws_language : option string;
  ws_priority : Z;
  ws_protocol : StreamProtocol;
  ws_url : string;
  ws_request_headers : gmap string string;
  ws_cookies : list json;
  ws_origin : option string;
  ws_referer : option string;
  ws_credential_authorities : list CredentialAuthority;
  ws_client_disclosure : ClientDisclosure;
  ws_expires_at : option string;
  ws_refresh_handle : option string;
  ws_server_egress : ServerEgress;
  ws_private_network : bool;
  ws_drm : DrmKind;
  ws_time_shift : WireTimeShift;
  ws_media : option MediaHints;
  ws_extra : list (string * json);
}.
Record WireCookie := {
  wk_name : string;
  wk_value : string;
  wk_domain : option string;
  wk_path : option string;
  wk_secure : bool;
  wk_http_only : bool;
  wk_expires_at : option string;
}.
Record WireProviderError := {
  we_code : string;
  we_message : string;
  we_retryable : bool;
  we_retry_after_seconds : option Z;
}.
(** the derived [Deserialize] of each struct, from a JSON value *)
Class WireReaders := {
  read_health : json -> option WireHealthResponse;
  read_catalogs : json -> option WireCatalogsResponse;
  read_catalog_page : json -> option WireCatalogPage;
  read_item : json -> option WireItem;
  read_meta : json -> option WireMetaResponse;
  read_stream_choice : json -> option WireStreamChoice;
  read_resolve : json -> option WireResolveResponse;
  read_source : json -> option WireSourceDescriptor;
  read_cookie : json -> option WireCookie;
  read_provider_error : json -> option WireProviderError;     (* the error of a [WireProviderErrorEnvelope] *)
}.

(** ** Loops of validators *)
(** [if let Some(x) = o { f(x)?; }] and [for x in l { f(x)?; }] *)
Definition check_opt {E A} (f : A -> result E unit) (o : option A) : result E unit :=
  match o with Some x => f x | None => Ok () end.
Fixpoint check_all {E A} (f : A -> result E unit) (l : list A) : result E unit :=
  match l with [] => Ok () | x :: l => _ ← f x; check_all f l end.
(** [o.map(f).transpose()] *)
Definition transpose_map {E A B} (f : A -> result E B) (o : option A) : result E (option B) :=
  match o with Some x => y ← f x; Ok (Some y) | None => Ok None end.
(** [for x in l { let y = f(x)?; if !ids.insert(key(y)) { return Err(e); } out.push(y); }] *)
Fixpoint unique_map {E A B K} `{Countable K} (f : A -> result E B) (key : B -> K) (e : E) (ids : gset K) (l : list A)
    : result E (list B) :=
  match l with
  | [] => Ok []
  | x :: l =>
      y ← f x;
      _ ← reject_if (bool_decide (key y ∈ ids)) e;
      ys ← unique_map f key e ({[key y]} ∪ ids) l;
      Ok (y :: ys)
  end.

(** ** Values and texts *)
Definition json_get (field : string) (v : json) : option json :=
  match v with JObject fields => snd <$> List.find (fun kv => String.eqb kv.1 field) fields | _ => None end.
Definition as_array (v : json) : option (list json) := match v with JArray l => Some l | _ => None end.
Definition as_str (v : json) : option string := match v with JString s => Some s | _ => None end.
Definition require_fields (v : json) (fields : list string) : result ContractErrorCode unit :=
  match v with
  | JObject object => reject_if (negb (forallb (fun field => has_key field object) fields)) InvalidShape
  | _ => Err InvalidShape
  end.
Definition decode {T} (read : json -> option T) (v : json) : result ContractErrorCode T := ok_or (read v) InvalidShape.
(** a control character other than a tab or a line break: [any_control], with those exempt *)
Fixpoint any_unsafe_control (s : string) : bool :=
  match s with
  | EmptyString => false
  | String c r =>
      (((byte_of c <? 32) || (byte_of c =? 127)) && negb ((byte_of c =? 9) || (byte_of c =? 10) || (byte_of c =? 13)))%N
      || ((byte_of c =? 194)%N && match r with String d _ => ((128 <=? byte_of d) && (byte_of d <? 160))%N | EmptyString => false end)
      || any_unsafe_control r
  end.
Definition validate_provider_id (value : string) : result ContractErrorCode unit :=
  reject_if (str_empty value || (512 <? slen value)%Z || any_unsafe_control value) InvalidId.
Definition catalog_id_byte (c : ascii) : bool := is_alnum c || existsb (Ascii.eqb c) ["."; "_"; "-"; "~"]%char.
Definition validate_catalog_id (value : string) : result ContractErrorCode unit :=
  reject_if (str_empty value || (128 <? slen value)%Z || negb (all_bytes catalog_id_byte value)) InvalidId.
Definition validate_short_text (value : string) : result ContractErrorCode unit :=
  reject_if ((256 <? char_count value)%Z || any_unsafe_control value) InvalidText.
Definition validate_plain_text (value : string) : result ContractErrorCode unit :=
  reject_if (any_unsafe_control value) InvalidText.
Definition validate_description (value : string) : result ContractErrorCode unit :=
  _ ← reject_if (4000 <? char_count value)%Z InvalidText;
  validate_plain_text value.
Definition normalize_key (value : string) : string :=
  to_lower (String.string_of_list_ascii (List.filter is_alnum (String.list_ascii_of_string value))).
(** the language of a choice and of a source, the hints of the media *)
Definition validate_tag (value : string) : result ContractErrorCode unit :=
  _ ← reject_if (64 <? char_count value)%Z LimitExceeded;
  validate_plain_text value.
Definition priority_ok (priority : Z) : bool := ((-100000 <=? priority) && (priority <=? 100000))%Z.

(** ** Filters, and the requests of a client *)
Definition validate_filter_text (value : string) : result ContractErrorCode unit :=
  _ ← reject_if (512 <? slen value)%Z LimitExceeded;
  validate_plain_text value.
Definition validate_filter_value (value : FilterValue) : result ContractErrorCode unit :=
  match value with
  | FilterToggle _ => Ok ()
  | FilterText value => validate_filter_text value
  | FilterMultiple values =>
      _ ← reject_if (200 <? zlen values)%Z LimitExceeded;
      _ ← unique_map (fun value => _ ← validate_filter_text value; Ok value) id DuplicateId (∅ : gset string) values;
      Ok ()
  end.
(** whether a value fits the kind of a filter whose options are [known] *)
Definition fits_kind (known : string -> bool) (kind : FilterKind) (value : FilterValue) : bool :=
  match kind, value with
  | KindToggle, FilterToggle _ => true
  | KindSingleSelect, FilterText value => known value
  | KindMultiSelect, FilterMultiple values => forallb known values
  | (KindSearch | KindDate), FilterText _ => true
  | _, _ => false
  end.
Definition known_option (d : FilterDefinition) (candidate : string) : bool :=
  existsb (fun item => String.eqb (fo_value item) candidate) (fd_options d).
Definition validate_value (d : FilterDefinition) (value : FilterValue) : result ContractErrorCode unit :=
  _ ← validate_filter_value value;
  reject_if (negb (fits_kind (known_option d) (fd_kind d) value)) InvalidFilter.
Definition validate_filter_submission (c : CatalogDefinition) (values : gmap string FilterValue)
    : result ContractErrorCode unit :=
  _ ← reject_if (length (cd_filters c) <? size values)%nat InvalidFilter;
  _ ← check_all (fun d =>
        match values !! fd_id d with
        | None => reject_if (fd_required d) InvalidFilter
        | Some value => validate_value d value
        end) (cd_filters c);
  reject_if (existsb (fun kv => negb (existsb (fun d => String.eqb (fd_id d) kv.1) (cd_filters c))) (btree_iter values))
    InvalidFilter.
Definition CatalogPageRequest_validate (r : CatalogPageRequest) : result ContractErrorCode unit :=
  _ ← validate_catalog_id (pr_catalog_id r);
  _ ← reject_if (negb ((1 <=? pr_limit r) && (pr_limit r <=? 100))%Z
                 || is_some_and (fun cursor => 2048 <? slen cursor)%Z (pr_cursor r)
                 || (12 <? size (pr_filters r))%nat) LimitExceeded;
  check_all (fun kv => _ ← validate_catalog_id kv.1; validate_filter_value kv.2) (btree_iter (pr_filters r)).
Definition MetaRequest_validate (r : MetaRequest) : result ContractErrorCode unit := validate_provider_id (mr_item_id r).
Record ResolveRequest := { rr_item_id : string; rr_stream_id : string }.
Definition ResolveRequest_validate (r : ResolveRequest) : result ContractErrorCode unit :=
  _ ← validate_provider_id (rr_item_id r);
  validate_provider_id (rr_stream_id r).
Record RefreshRequest := {
  rf_item_id : string;
  rf_stream_id : string;
  rf_refresh_handle : string;
  rf_category : RefreshFailureCategory;
  rf_http_status : option Z;
  rf_started_at : instant;
  rf_source_attempt : Z;
}.
Definition RefreshRequest_validate (r : RefreshRequest) : result ContractErrorCode unit :=
  _ ← validate_provider_id (rf_item_id r);
  _ ← validate_provider_id (rf_stream_id r);
  reject_if (str_empty (rf_refresh_handle r) || (2048 <? slen (rf_refresh_handle r))%Z
    || negb ((1 <=? rf_source_attempt r) && (rf_source_attempt r <=? 10))%Z
    || is_some_and (fun status => negb ((100 <=? status) && (status <=? 599))%Z) (rf_http_status r)) InvalidRequest.

Section responses.
Context `{TT : TimeText} `{PT : PortText} `{UO : UrlOps} `{HO : HeaderOps} `{JR : JsonReader} `{WR : WireReaders}.

(** ** Pieces *)
Definition parse_utc (value : string) : result ContractErrorCode instant :=
  _ ← reject_if (negb (ends_with "Z" value)) InvalidDate;
  ok_or (parse_from_rfc3339 value) InvalidDate.
Definition seconds_of_day (s : Z) : bool := ((0 <=? s) && (s <=? 86400))%Z.
Definition validate_cache (wire : WireCacheHint) : result ContractErrorCode CacheHint :=
  _ ← reject_if (negb (seconds_of_day (wc_max_age_seconds wire)) || negb (seconds_of_day (wc_stale_while_revalidate_seconds wire))
                 || is_some_and (fun etag => 512 <? slen etag)%Z (wc_etag wire)) LimitExceeded;
  _ ← check_opt validate_plain_text (wc_etag wire);
  Ok {| max_age_seconds := wc_max_age_seconds wire; stale_while_revalidate_seconds := wc_stale_while_revalidate_seconds wire;
        etag := wc_etag wire |}.
Definition has_userinfo (u : Url) : bool := negb (str_empty (u_username u)) || is_some_b (u_password u).
Definition is_http (scheme : string) : bool := existsb (String.eqb scheme) ["http"; "https"].
Definition validate_artwork_url (value : string) : result ContractErrorCode ArtworkSource :=
  _ ← reject_if (8192 <? slen value)%Z LimitExceeded;
  parsed ← ok_or (Url_parse value) InvalidUrl;
  _ ← reject_if (negb (is_http (u_scheme parsed)) || has_userinfo parsed || is_none_b (u_host parsed)
                 || is_some_b (u_fragment parsed)) InvalidUrl;
  Ok {| artwork_expose := value |}.

(** ** Health *)
Inductive ProviderHealthStatus := Healthy | Degraded | Unhealthy.
Record ProviderHealth := { ph_status : ProviderHealthStatus; ph_contract_versions : gset Z; ph_details : list string }.
Definition parse_health_response (body : string) : result ContractErrorCode ProviderHealth :=
  value ← parse_checked_json body;
  _ ← require_fields value ["status"; "contractVersions"];
  wire ← decode read_health value;
  _ ← reject_if (bool_decide (wh_contract_versions wire = [])) InvalidShape;
  let contract_versions : gset Z := list_to_set (wh_contract_versions wire) in
  _ ← reject_if (negb (size contract_versions =? length (wh_contract_versions wire))%nat
                 || existsb (fun version => negb (version =? 1)%Z) (elements contract_versions)
                 || (20 <? zlen (wh_details wire))%Z) InvalidShape;
  _ ← check_all validate_short_text (wh_details wire);
  status ← (if String.eqb (wh_status wire) "healthy" then Ok Healthy
            else if String.eqb (wh_status wire) "degraded" then Ok Degraded
            else if String.eqb (wh_status wire) "unhealthy" then Ok Unhealthy
            else Err InvalidShape);
  Ok {| ph_status := status; ph_contract_versions := contract_versions; ph_details := wh_details wire |}.

(** ** Catalogs *)
Definition validate_option (option : WireFilterOption) : result ContractErrorCode FilterOption :=
  _ ← reject_if (str_empty (wo_value option) || (512 <? slen (wo_value option))%Z) InvalidFilter;
  _ ← validate_plain_text (wo_value option);
  _ ← validate_short_text (wo_label option);
  Ok {| fo_value := wo_value option; fo_label := wo_label option |}.
Definition takes_options (kind : FilterKind) : bool :=
  match kind with KindToggle | KindSearch | KindDate => false | KindSingleSelect | KindMultiSelect => true end.
Definition validate_filter_definition (wire : WireFilterDefinition) : result ContractErrorCode FilterDefinition :=
  _ ← validate_catalog_id (wf_id wire);
  _ ← validate_short_text (wf_label wire);
  _ ← reject_if (200 <? zlen (wf_options wire))%Z LimitExceeded;
  options ← unique_map validate_option fo_value DuplicateId (∅ : gset string) (wf_options wire);
  _ ← check_opt validate_filter_value (wf_default wire);
  let option_values : gset string := list_to_set (fo_value <$> options) in
  let default_valid := is_none_or (fits_kind (fun value => bool_decide (value ∈ option_values)) (wf_kind wire)) (wf_default wire) in
  let option_shape_valid := takes_options (wf_kind wire) || bool_decide (options = []) in
  _ ← reject_if (negb default_valid || negb option_shape_valid) InvalidFilter;
  Ok {| fd_id := wf_id wire; fd_label := wf_label wire; fd_kind := wf_kind wire; fd_required := wf_required wire;
        fd_default := wf_default wire; fd_options := options |}.
Definition validate_catalog_definition (scope : ProviderContract) (wire : WireCatalogDefinition)
    : result ContractErrorCode CatalogDefinition :=
  _ ← validate_catalog_id (wd_id wire);
  _ ← validate_short_text (wd_name wire);
  _ ← check_opt validate_description (wd_description wire);
  let item_types : gset LiveItemType := list_to_set (wd_item_types wire) in
  _ ← reject_if (bool_decide (item_types = ∅) || negb (size item_types =? length (wd_item_types wire))%nat
                 || (2 <? size item_types)%nat || negb (bool_decide (item_types ⊆ pc_item_types scope))) UndeclaredItemType;
  _ ← reject_if (negb (priority_ok (wd_order wire)) || (12 <? zlen (wd_filters wire))%Z) LimitExceeded;
  filters ← unique_map validate_filter_definition fd_id DuplicateId (∅ : gset string) (wd_filters wire);
  Ok {| cd_id := wd_id wire; cd_name := wd_name wire; cd_description := wd_description wire; cd_item_types := item_types;
        cd_presentation := wd_presentation wire; cd_order := wd_order wire; cd_filters := filters |}.
Definition parse_catalogs_response (body : string) (scope : ProviderContract) : result ContractErrorCode CatalogSet :=
  value ← parse_checked_json body;
  _ ← require_fields value ["catalogs"; "cache"];
  wire ← decode read_catalogs value;
  _ ← reject_if (50 <? zlen (wcs_catalogs wire))%Z LimitExceeded;
  catalogs ← unique_map (validate_catalog_definition scope) cd_id DuplicateId (∅ : gset string) (wcs_catalogs wire);
  cache ← validate_cache (wcs_cache wire);
  Ok {| cs_catalogs := catalogs; cs_cache := cache |}.

(** ** Items *)
Definition ITEM_FORBIDDEN : list string :=
  ["url"; "stream"; "streams"; "source"; "sources"; "descriptor"; "descriptors"; "requestheaders"; "headers"; "cookies";
   "origin"; "referer"; "refreshhandle"; "token"; "credentialauthorities"; "drm"; "magnet"; "infohash"; "player"; "iframe"; "html"].
Definition reject_item_sensitive_fields (keys : list string) : result ItemDiagnosticReason unit :=
  reject_if (existsb (fun key => existsb (String.eqb (normalize_key key)) ITEM_FORBIDDEN) keys) ReasonForbiddenField.
Definition as_reason {A} (reason : ItemDiagnosticReason) (r : result ContractErrorCode A) : result ItemDiagnosticReason A :=
  map_err (fun _ => reason) r.
Definition validate_fact (wire : WireFact) : result ItemDiagnosticReason Fact :=
  _ ← as_reason ReasonInvalidText (validate_short_text (wfa_label wire));
  _ ← as_reason ReasonInvalidText (validate_short_text (wfa_value wire));
  Ok {| fact_label := wfa_label wire; fact_value := wfa_value wire |}.
Fixpoint collect_facts (l : list WireFact) : result ItemDiagnosticReason (list Fact) :=
  match l with
  | [] => Ok []
  | wire :: l => fact ← validate_fact wire; facts ← collect_facts l; Ok (fact :: facts)
  end.
Definition ends_before (starts_at ends_at : option instant) : bool :=
  match starts_at, ends_at with Some start, Some end_ => (end_ <? start)%Z | _, _ => false end.
Definition item_fields : list string := ["id"; "itemType"; "title"; "status"; "categories"; "badges"; "facts"].
Definition validate_item_value (value : json) (scope : ProviderContract) : result ItemDiagnosticReason LiveItem :=
  _ ← as_reason ReasonInvalidShape (require_fields value item_fields);
  wire ← as_reason ReasonInvalidShape (decode read_item value);
  _ ← reject_item_sensitive_fields (wi_extra wire).*1;
  _ ← as_reason ReasonInvalidId (validate_provider_id (wi_id wire));
  _ ← reject_if (negb (bool_decide (wi_item_type wire ∈ pc_item_types scope))) ReasonUndeclaredItemType;
  _ ← as_reason ReasonInvalidText (validate_short_text (wi_title wire));
  _ ← as_reason ReasonInvalidText (check_opt validate_short_text (wi_subtitle wire));
  _ ← as_reason ReasonInvalidText (check_opt validate_description (wi_description wire));
  _ ← reject_if ((20 <? zlen (wi_categories wire)) || (20 <? zlen (wi_badges wire)) || (20 <? zlen (wi_facts wire)))%Z
        ReasonInvalidShape;
  _ ← as_reason ReasonInvalidText (check_all validate_short_text (wi_categories wire ++ wi_badges wire));
  facts ← collect_facts (wi_facts wire);
  starts_at ← as_reason ReasonInvalidDate (transpose_map parse_utc (wi_starts_at wire));
  ends_at ← as_reason ReasonInvalidDate (transpose_map parse_utc (wi_ends_at wire));
  _ ← reject_if (ends_before starts_at ends_at) ReasonInvalidDate;
  poster ← as_reason ReasonInvalidArtwork (transpose_map validate_artwork_url (wi_poster_url wire));
  background ← as_reason ReasonInvalidArtwork (transpose_map validate_artwork_url (wi_background_url wire));
  logo ← as_reason ReasonInvalidArtwork (transpose_map validate_artwork_url (wi_logo_url wire));
  Ok {| it_id := wi_id wire; it_item_type := wi_item_type wire; it_title := wi_title wire; it_subtitle := wi_subtitle wire;
        it_description := wi_description wire; it_status := wi_status wire; it_starts_at := starts_at; it_ends_at := ends_at;
        it_poster := poster; it_background := background; it_logo := logo; it_categories := wi_categories wire;
        it_badges := wi_badges wire; it_facts := facts |}.
Definition item_reason_code (reason : ItemDiagnosticReason) : ContractErrorCode :=
  match reason with
  | ReasonInvalidShape => InvalidShape
  | ReasonInvalidId => InvalidId
  | ReasonInvalidText => InvalidText
  | ReasonInvalidDate => InvalidDate
  | ReasonInvalidArtwork => InvalidUrl
  | ReasonUndeclaredItemType => UndeclaredItemType
  | ReasonForbiddenField => ForbiddenField
  end.
(** the ids that can be read, each once *)
Fixpoint repeated_id (raw_ids : gset string) (items : list json) : bool :=
  match items with
  | [] => false
  | item :: items =>
      match json_get "id" item ≫= as_str with
      | Some id => bool_decide (id ∈ raw_ids) || repeated_id ({[id]} ∪ raw_ids) items
      | None => repeated_id raw_ids items
      end
  end.
(** the items that are kept, and why the others are not *)
Fixpoint sort_items (scope : ProviderContract) (index : Z) (items : list json) : list LiveItem * list ItemDiagnostic :=
  match items with
  | [] => ([], [])
  | item :: rest =>
      let '(kept, diagnostics) := sort_items scope (index + 1) rest in
      match validate_item_value item scope with
      | Ok item => (item :: kept, diagnostics)
      | Err reason => (kept, {| diag_index := index; diag_reason := reason |} :: diagnostics)
      end
  end.
Definition allowed_invalid (total : Z) : Z := Z.min (total / 10) 10.
Definition parse_catalog_page_response (body : string) (scope : ProviderContract) : result ContractErrorCode CatalogPage :=
  value ← parse_checked_json body;
  _ ← require_fields value ["items"; "nextCursor"; "cache"];
  wire ← decode read_catalog_page value;
  _ ← reject_if ((100 <? zlen (wp_items wire))%Z || is_some_and (fun cursor => 2048 <? slen cursor)%Z (wp_next_cursor wire))
        LimitExceeded;
  _ ← check_opt validate_plain_text (wp_next_cursor wire);
  _ ← reject_if (repeated_id ∅ (wp_items wire)) DuplicateId;
  let '(items, diagnostics) := sort_items scope 0 (wp_items wire) in
  _ ← reject_if (allowed_invalid (zlen (wp_items wire)) <? zlen diagnostics)%Z TooManyInvalidItems;
  cache ← validate_cache (wp_cache wire);
  Ok {| cp_items := items; cp_next_cursor := wp_next_cursor wire; cp_cache := cache; cp_diagnostics := diagnostics |}.

(** ** Metadata *)
Definition names_forbidden (forbidden : list string) (keys : list string) : bool :=
  existsb (fun key => existsb (fun value => contains_sub value (normalize_key key)) forbidden) keys.
Definition CHOICE_FORBIDDEN : list string :=
  ["url"; "headers"; "requestheaders"; "cookies"; "origin"; "referer"; "refreshhandle"; "token"; "credential";
   "credentialauthorities"; "account"; "descriptor"; "source"].
Definition reject_choice_sensitive_fields (keys : list string) : result ContractErrorCode unit :=
  reject_if (names_forbidden CHOICE_FORBIDDEN keys) ForbiddenField.
Definition validate_stream_choice (scope : ProviderContract) (value : json) : result ContractErrorCode StreamChoice :=
  _ ← require_fields value ["id"; "label"; "priority"];
  choice ← decode read_stream_choice value;
  _ ← reject_choice_sensitive_fields (wsc_extra choice).*1;
  _ ← validate_provider_id (wsc_id choice);
  _ ← validate_short_text (wsc_label choice);
  _ ← check_opt validate_short_text (wsc_quality choice);
  _ ← check_opt validate_tag (wsc_language choice);
  _ ← reject_if (negb (priority_ok (wsc_priority choice))) LimitExceeded;
  _ ← reject_if (is_some_and (fun protocol => negb (bool_decide (protocol ∈ pc_protocols scope))) (wsc_protocol_hint choice))
        UndeclaredProtocol;
  Ok {| sc_id := wsc_id choice; sc_label := wsc_label choice; sc_quality := wsc_quality choice;
        sc_language := wsc_language choice; sc_protocol_hint := wsc_protocol_hint choice; sc_priority := wsc_priority choice |}.
Definition parse_meta_response (body : string) (scope : ProviderContract) (expected_item_id : string)
    : result ContractErrorCode ItemMetadata :=
  _ ← validate_provider_id expected_item_id;
  value ← parse_checked_json body;
  _ ← require_fields value ["item"; "streams"; "cache"];
  wire ← decode read_meta value;
  _ ← reject_if (20 <? zlen (wm_streams wire))%Z LimitExceeded;
  item ← map_err item_reason_code (validate_item_value (wm_item wire) scope);
  _ ← reject_if (negb (String.eqb (it_id item) expected_item_id)) InvalidId;
  streams ← unique_map (validate_stream_choice scope) sc_id DuplicateId (∅ : gset string) (wm_streams wire);
  cache ← validate_cache (wm_cache wire);
  Ok {| im_item := item; im_streams := streams; im_cache := cache |}.

(** ** Sources *)
Definition DESCRIPTOR_FORBIDDEN : list string :=
  ["license"; "licenseurl"; "magnet"; "torrent"; "infohash"; "webtorrent"; "webrtc"; "iframe"; "player"; "html"; "javascript";
   "challenge"; "executable"; "browser"].
Definition reject_descriptor_fields (keys : list string) : result ContractErrorCode unit :=
  reject_if (names_forbidden DESCRIPTOR_FORBIDDEN keys) ForbiddenField.
Definition STREAM_FORBIDDEN : list string :=
  ["magnet:"; "urn:btih"; "webtorrent"; "webrtc"; "info_hash="; "infohash="; "javascript:"; "data:"; "file:"].
Definition contains_forbidden_stream_material (value : string) : bool :=
  existsb (fun needle => contains_sub needle (to_lower value)) STREAM_FORBIDDEN.
Definition validate_source_url (value : string) (protocol : StreamProtocol) : result ContractErrorCode Url :=
  _ ← reject_if ((8192 <? slen value)%Z || contains_forbidden_stream_material value) InvalidUrl;
  parsed ← ok_or (Url_parse value) InvalidUrl;
  _ ← reject_if (negb (existsb (String.eqb (u_scheme parsed)) (expected_scheme protocol)) || has_userinfo parsed
                 || is_none_b (u_host parsed) || is_some_b (u_fragment parsed)) InvalidUrl;
  Ok parsed.
Definition FORBIDDEN_HEADERS : list string :=
  ["host"; "connection"; "keep-alive"; "transfer-encoding"; "te"; "trailer"; "upgrade"; "content-length"; "cookie"; "set-cookie";
   "origin"; "referer"; "via"; "forwarded"; "x-forwarded-for"; "x-forwarded-host"; "x-forwarded-proto"].
Definition forbidden_header (name : string) : bool :=
  starts_with "proxy-" name || existsb (String.eqb name) FORBIDDEN_HEADERS.
Fixpoint collect_headers (values : list (string * string)) (output : gmap string string)
    : result ContractErrorCode (gmap string string) :=
  match values with
  | [] => Ok output
  | (name, value) :: values =>
      _ ← reject_if (str_empty name || (128 <? slen name)%Z || (4096 <? slen value)%Z || negb (header_name_ok name)
                     || negb (header_value_ok value)) InvalidCredentials;
      let normalized := to_lower name in
      _ ← reject_if (forbidden_header normalized || bool_decide (is_Some (output !! normalized))) InvalidCredentials;
      collect_headers values (<[normalized := value]> output)
  end.
Definition validate_headers (values : gmap string string) : result ContractErrorCode (gmap string string) :=
  _ ← reject_if (32 <? size values)%nat LimitExceeded;
  collect_headers (btree_iter values) ∅.

Definition cookie_value_byte (c : ascii) : bool := negb ((byte_of c <? 32) || (byte_of c =? 127) || (byte_of c =? 59))%N.
Definition ascii_whitespace (c : ascii) : bool :=
  ((byte_of c =? 32) || (byte_of c =? 9) || (byte_of c =? 10) || (byte_of c =? 12) || (byte_of c =? 13))%N.
Definition authority_url (scheme host : string) (port : Z) : string :=
  let formatted := if contains_char ":" host && negb (starts_with "[" host) then "[" +:+ host +:+ "]" else host in
  scheme +:+ "://" +:+ formatted +:+ ":" +:+ u16_to_string port +:+ "/".
(** the host of an authority as the url crate writes it *)
Definition validate_authority_host (scheme host : string) (port : Z) : result ContractErrorCode string :=
  _ ← reject_if (negb (all_bytes is_ascii_byte host) || str_empty host || (253 <? slen host)%Z || contains_char "*" host
                 || ends_with "." host) InvalidCredentials;
  parsed ← ok_or (Url_parse (authority_url scheme host port)) InvalidCredentials;
  normalized_host ← ok_or (u_host parsed) InvalidCredentials;
  Ok (to_lower normalized_host).
Definition normalize_cookie_domain (value : string) : result ContractErrorCode string :=
  let value := to_lower (trim_start_char "." value) in
  _ ← reject_if (str_empty value || (253 <? slen value)%Z || negb (all_bytes is_ascii_byte value) || contains_char "*" value
                 || ends_with "." value || any_byte (fun c => ascii_whitespace c || Ascii.eqb c "/") value) InvalidCredentials;
  validate_authority_host "https" value 443.
Definition cookie_path_ok (path : string) : bool :=
  negb ((1024 <? slen path)%Z || negb (starts_with "/" path) || any_control path).
Definition validate_cookie (value : json) : result ContractErrorCode ProviderCookie :=
  wire ← decode read_cookie value;
  _ ← reject_if (negb (valid_cookie_name (wk_name wire)) || (4096 <? slen (wk_value wire))%Z
                 || negb (all_bytes cookie_value_byte (wk_value wire))) InvalidCredentials;
  domain ← transpose_map normalize_cookie_domain (wk_domain wire);
  _ ← reject_if (is_some_and (fun path => negb (cookie_path_ok path)) (wk_path wire)) InvalidCredentials;
  expires_at ← transpose_map parse_utc (wk_expires_at wire);
  Ok {| pc_name := wk_name wire; pc_value := wk_value wire; pc_domain := domain; pc_path := wk_path wire;
        pc_secure := wk_secure wire; pc_http_only := wk_http_only wire; pc_expires_at := expires_at |}.
Definition cookie_key (c : ProviderCookie) : string * option string * option string := (pc_name c, pc_domain c, pc_path c).
Definition opt_len (o : option string) : Z := match o with Some s => slen s | None => 0 end.
Definition add_cookie_len (aggregate : Z) (c : ProviderCookie) : Z :=
  u64_saturating_add (u64_saturating_add (u64_saturating_add (u64_saturating_add aggregate (slen (pc_name c))) (slen (pc_value c)))
    (opt_len (pc_domain c))) (opt_len (pc_path c)).
Fixpoint collect_cookies (aggregate : Z) (unique : gset (string * option string * option string)) (values : list json)
    : result ContractErrorCode (list ProviderCookie) :=
  match values with
  | [] => Ok []
  | value :: values =>
      cookie ← validate_cookie value;
      let aggregate := add_cookie_len aggregate cookie in
      _ ← reject_if ((16 * 1024 <? aggregate)%Z || bool_decide (cookie_key cookie ∈ unique)) InvalidCredentials;
      output ← collect_cookies aggregate ({[cookie_key cookie]} ∪ unique) values;
      Ok (cookie :: output)
  end.
Definition validate_cookies (values : list json) : result ContractErrorCode (list ProviderCookie) :=
  _ ← reject_if (32 <? zlen values)%Z LimitExceeded;
  collect_cookies 0 ∅ values.

Definition sends_anything (a : CredentialAuthority) : bool :=
  ca_send_request_headers a || ca_send_cookies a || ca_send_origin a || ca_send_referer a.
Definition validate_authority (value : CredentialAuthority) : result ContractErrorCode CredentialAuthority :=
  _ ← reject_if (negb (is_http (ca_scheme value))) InvalidCredentials;
  host ← validate_authority_host (ca_scheme value) (ca_host value) (ca_port value);
  _ ← reject_if (sends_anything value && negb (String.eqb (ca_scheme value) "https")) InvalidCredentials;
  Ok {| ca_scheme := ca_scheme value; ca_host := host; ca_port := ca_port value;
        ca_send_request_headers := ca_send_request_headers value; ca_send_cookies := ca_send_cookies value;
        ca_send_origin := ca_send_origin value; ca_send_referer := ca_send_referer value |}.
Definition contract_authority_key (a : CredentialAuthority) : string * string * Z := (ca_scheme a, ca_host a, ca_port a).
Definition validate_authorities (values : list CredentialAuthority) : result ContractErrorCode (list CredentialAuthority) :=
  _ ← reject_if (8 <? zlen values)%Z LimitExceeded;
  unique_map validate_authority contract_authority_key DuplicateId (∅ : gset (string * string * Z)) values.
Definition require_initial_credential_authority (source : Url) (authorities : list CredentialAuthority)
    (headers cookies origin referer : bool) : result ContractErrorCode unit :=
  if negb (headers || cookies || origin || referer) then Ok () else
  _ ← reject_if (negb (is_http (u_scheme source))) InvalidCredentials;
  source_host ← ok_or (u_host source) InvalidCredentials;
  source_port ← ok_or (u_port_or_known_default source) InvalidCredentials;
  let authority := List.find (fun a => String.eqb (ca_scheme a) (u_scheme source) && String.eqb (ca_host a) (to_lower source_host)
                                       && (ca_port a =? source_port)%Z) authorities in
  reject_if (negb (is_some_and (fun a => (negb headers || ca_send_request_headers a) && (negb cookies || ca_send_cookies a)
                                         && (negb origin || ca_send_origin a) && (negb referer || ca_send_referer a)) authority))
    InvalidCredentials.
Definition validate_http_reference (value : string) : result ContractErrorCode Url :=
  parsed ← ok_or (Url_parse value) InvalidUrl;
  _ ← reject_if (negb (is_http (u_scheme parsed)) || has_userinfo parsed || is_none_b (u_host parsed)) InvalidCredentials;
  Ok parsed.
Definition validate_origin (value : string) : result ContractErrorCode string :=
  _ ← reject_if (2048 <? slen value)%Z LimitExceeded;
  parsed ← validate_http_reference value;
  _ ← reject_if (negb (String.eqb (u_path parsed) "/") || is_some_b (u_query parsed) || is_some_b (u_fragment parsed)) InvalidCredentials;
  Ok value.
Definition validate_referer (value : string) : result ContractErrorCode string :=
  _ ← reject_if (8192 <? slen value)%Z LimitExceeded;
  parsed ← validate_http_reference value;
  _ ← reject_if (is_some_b (u_fragment parsed)) InvalidCredentials;
  Ok value.
Definition validate_refresh_handle (value : string) : result ContractErrorCode string :=
  _ ← reject_if (str_empty value || (2048 <? slen value)%Z) LimitExceeded;
  Ok value.
Definition validate_time_shift (available : bool) (window : option Z) : result ContractErrorCode TimeShift :=
  match available, window with
  | false, None => Ok {| LiveContract.available := false; window_seconds := None |}
  | true, Some window =>
      if ((1 <=? window) && (window <=? 86400))%Z then Ok {| LiveContract.available := true; window_seconds := Some window |}
      else Err InvalidShape
  | _, _ => Err InvalidShape
  end.
Definition validate_media_hints (wire : MediaHints) : result ContractErrorCode MediaHints :=
  _ ← check_opt validate_tag (container wire);
  _ ← check_opt validate_tag (video_codec wire);
  _ ← check_opt validate_tag (audio_codec wire);
  Ok wire.

Definition descriptor_fields : list string :=
  ["streamId"; "label"; "priority"; "protocol"; "url"; "requestHeaders"; "cookies"; "origin"; "referer"; "credentialAuthorities";
   "clientDisclosure"; "expiresAt"; "refreshHandle"; "serverEgress"; "privateNetwork"; "drm"; "timeShift"].
Definition cookie_fields : list string := ["name"; "value"; "domain"; "path"; "secure"; "httpOnly"; "expiresAt"].
Definition require_descriptor_fields (value : json) : result ContractErrorCode unit :=
  _ ← require_fields value descriptor_fields;
  _ ← check_opt (check_all (fun cookie => require_fields cookie cookie_fields)) (json_get "cookies" value ≫= as_array);
  check_opt (fun time_shift => require_fields time_shift ["available"; "windowSeconds"]) (json_get "timeShift" value).
(** what a source carries for the upstream *)
Definition carries_nothing (s : SourceDescriptor) : bool :=
  bool_decide (request_headers s = ∅) && bool_decide (cookies s = []) && is_none_b (origin s) && is_none_b (referer s).
Definition server_only (s : SourceDescriptor) : bool := bool_decide (client_disclosure s = ServerOnly).
(** the three last checks: [Rtmp] and [Srt], private networks, public sources *)
Definition validate_disclosure (source_url : Url) (s : SourceDescriptor) : result ContractErrorCode unit :=
  _ ← reject_if (bool_decide (protocol s = Rtmp \/ protocol s = Srt)
        && (negb (carries_nothing s) || negb (bool_decide (credential_authorities s = [])) || negb (server_only s))) InvalidCredentials;
  _ ← reject_if (private_network s && (negb (server_only s) || negb (bool_decide (server_egress s = Required)))) InvalidCredentials;
  reject_if (bool_decide (client_disclosure s = Public)
    && (negb (String.eqb (u_scheme source_url) "https") || is_some_b (u_query source_url) || negb (carries_nothing s)
        || negb (bool_decide (credential_authorities s = [])) || is_some_b (expires_at s) || is_some_b (refresh_handle s)
        || negb (bool_decide (server_egress s = NotRequired)) || private_network s)) InvalidCredentials.
Definition validate_descriptor_value (scope : ProviderContract) (now : instant) (value : json)
    : result ContractErrorCode SourceDescriptor :=
  _ ← require_descriptor_fields value;
  wire ← decode read_source value;
  _ ← reject_descriptor_fields (ws_extra wire).*1;
  _ ← validate_provider_id (ws_stream_id wire);
  _ ← validate_short_text (ws_label wire);
  _ ← check_opt validate_short_text (ws_quality wire);
  _ ← check_opt validate_tag (ws_language wire);
  _ ← reject_if (negb (priority_ok (ws_priority wire))) LimitExceeded;
  _ ← reject_if (negb (bool_decide (ws_protocol wire ∈ pc_protocols scope))) UndeclaredProtocol;
  _ ← reject_if (negb (bool_decide (ws_drm wire = DrmNone))) DrmUnsupported;
  source_url ← validate_source_url (ws_url wire) (ws_protocol wire);
  headers ← validate_headers (ws_request_headers wire);
  cookies ← validate_cookies (ws_cookies wire);
  authorities ← validate_authorities (ws_credential_authorities wire);
  origin ← transpose_map validate_origin (ws_origin wire);
  referer ← transpose_map validate_referer (ws_referer wire);
  _ ← require_initial_credential_authority source_url authorities (negb (bool_decide (headers = ∅)))
        (negb (bool_decide (cookies = []))) (is_some_b origin) (is_some_b referer);
  expires_at ← transpose_map parse_utc (ws_expires_at wire);
  _ ← reject_if (is_some_and (fun expires_at => expires_at <=? now)%Z expires_at) DescriptorExpired;
  refresh_handle ← transpose_map validate_refresh_handle (ws_refresh_handle wire);
  time_shift ← validate_time_shift (wt_available (ws_time_shift wire)) (wt_window_seconds (ws_time_shift wire));
  media ← transpose_map validate_media_hints (ws_media wire);
  let source := {|
    stream_id := ws_stream_id wire; label := ws_label wire; quality := ws_quality wire; language := ws_language wire;
    priority := ws_priority wire; protocol := ws_protocol wire; url := ws_url wire; request_headers := headers;
    cookies := cookies; origin := origin; referer := referer; credential_authorities := authorities;
    client_disclosure := ws_client_disclosure wire; expires_at := expires_at; refresh_handle := refresh_handle;
    server_egress := ws_server_egress wire; private_network := ws_private_network wire; time_shift := time_shift; media := media |} in
  _ ← validate_disclosure source_url source;
  Ok source.
Definition parse_resolved_sources (body : string) (scope : ProviderContract) (expected_stream_id : option string) (now : instant)
    : result ContractErrorCode ResolvedSources :=
  value ← parse_checked_json body;
  _ ← require_fields value ["descriptor"; "alternatives"];
  wire ← decode read_resolve value;
  _ ← reject_if (10 <? zlen (wr_alternatives wire))%Z LimitExceeded;
  descriptor ← validate_descriptor_value scope now (wr_descriptor wire);
  _ ← reject_if (is_some_and (fun expected => negb (String.eqb (stream_id descriptor) expected)) expected_stream_id) InvalidId;
  alternatives ← unique_map (validate_descriptor_value scope now) stream_id DuplicateId ({[stream_id descriptor]} : gset string)
    (wr_alternatives wire);
  Ok {| descriptor := descriptor; alternatives := alternatives |}.
Definition parse_resolve_response (body : string) (scope : ProviderContract) (expected_stream_id : string) (now : instant)
    : result ContractErrorCode ResolvedSources :=
  _ ← validate_provider_id expected_stream_id;
  parse_resolved_sources body scope (Some expected_stream_id) now.
Definition parse_refresh_response (body : string) (scope : ProviderContract) (now : instant) : result ContractErrorCode ResolvedSources :=
  parse_resolved_sources body scope None now.

(** ** Failures *)
Definition failure_code (code : string) : result ContractErrorCode ProviderFailureCode :=
  if String.eqb code "invalid_request" then Ok PfInvalidRequest
  else if String.eqb code "item_not_found" then Ok PfItemNotFound
  else if String.eqb code "stream_not_found" then Ok PfStreamNotFound
  else if String.eqb code "stream_expired" then Ok PfStreamExpired
  else if String.eqb code "account_required" then Ok PfAccountRequired
  else if String.eqb code "upstream_unavailable" then Ok PfUpstreamUnavailable
  else if String.eqb code "upstream_rate_limited" then Ok PfUpstreamRateLimited
  else if String.eqb code "unsupported_input" then Ok PfUnsupportedInput
  else if String.eqb code "provider_contract_version_unsupported" then Ok PfContractVersionUnsupported
  else if String.eqb code "internal_error" then Ok PfInternalError
  else Err InvalidShape.
(** [clean]: the scan of the redactor finds nothing (src/src/live/diagnostics.rs) *)
Definition parse_provider_failure (body : string) (clean : string -> bool) : result ContractErrorCode ProviderFailure :=
  value ← parse_checked_json body;
  _ ← require_fields value ["error"];
  error_value ← ok_or (json_get "error" value) InvalidShape;
  _ ← require_fields error_value ["code"; "message"; "retryable"];
  wire ← decode read_provider_error value;
  _ ← validate_short_text (we_message wire);
  _ ← reject_if (negb (clean (we_message wire))
        || is_some_and (fun seconds => negb ((1 <=? seconds) && (seconds <=? 3600))%Z) (we_retry_after_seconds wire)) ForbiddenField;
  code ← failure_code (we_code wire);
  Ok {| pf_code := code; pf_message := we_message wire; pf_retryable := we_retryable wire;
        pf_retry_after_seconds := we_retry_after_seconds wire |}.
End responses.
