(* ===== verification/ContractSafety.v ===== *)
(** * What accepted provider answers satisfy

    The rules of resolved sources, of catalog pages and of filters, over [ProviderContract]. *)
From S2P Require Import Prelude Bytes LiveContract CanonicalJson Crypto Vault SessionStore Planner UpstreamPolicy CookieJar.
From S2P Require Import UpstreamCredentials CatalogCircuit CatalogCache ProviderCalls ProviderJson ProviderContract.
#[local] Set Warnings "-register-all".

(** ** The loops *)
Lemma check_all_ok {E A} (f : A -> result E unit) l u : check_all f l = Ok u <-> Forall (fun x => f x = Ok ()) l.
Proof.
  destruct u. induction l as [|x l IH]; cbn; [by rewrite Forall_nil|]. rewrite Forall_cons, result_bind_ok, <- IH.
  split; [intros ([] & ? & ?)|intros []; exists ()]; done.
Qed.
Lemma check_opt_ok {E A} (f : A -> result E unit) o u : check_opt f o = Ok u <-> forall x, o = Some x -> f x = Ok ().
Proof. destruct u, o; cbn; naive_solver. Qed.
Lemma transpose_map_ok {E A B} (f : A -> result E B) o o' : transpose_map f o = Ok o' ->
  match o, o' with Some x, Some y => f x = Ok y | None, None => True | _, _ => False end.
Proof. destruct o as [x|]; cbn; intros Ht; ok_inv; done. Qed.
Lemma unique_map_ok {E A B K} `{Countable K} (f : A -> result E B) (key : B -> K) (e : E) ids l ys :
  unique_map f key e ids l = Ok ys <->
  Forall2 (fun x y => f x = Ok y) l ys /\ NoDup (key <$> ys) /\ (forall y, y ∈ ys -> key y ∉ ids).
Proof.
  revert ids ys. induction l as [|x l IH]; intros ids ys; cbn.
  - split; [intros [= <-]; split_and!; [constructor..|set_solver]|]. by intros (Hf%Forall2_nil_inv_l & _); subst.
  - split.
    + intros Hu. ok_inv. bool_hyps. match goal with Hu : unique_map _ _ _ _ _ = Ok _ |- _ => apply IH in Hu as (Hf & Hn & Hi) end.
      split_and!; [by constructor| |].
      * cbn. constructor; [|done]. intros (y & Hy & Hin)%list_elem_of_fmap. apply (Hi y Hin). rewrite <- Hy. set_solver.
      * intros y [->|Hy]%elem_of_cons; [done|]. specialize (Hi y Hy). set_solver.
    + intros (Hf & Hn & Hi). inversion Hf as [|? y ? ys' Hxy Hf']; subst. rewrite Hxy. run_ok. cbn in Hn. apply NoDup_cons in Hn as [Hy Hn].
      rewrite bool_decide_eq_false_2 by (apply Hi; set_solver). run_ok. replace (unique_map f key e _ l) with (@Ok E _ ys'); [done|].
      symmetry. apply IH. split_and!; [done..|]. intros y' Hy'. assert (key y' ∉ ids) by (apply Hi; set_solver).
      assert (key y' <> key y); [|set_solver]. intros He. apply Hy. rewrite <- He. by apply list_elem_of_fmap_2.
Qed.

(** ** The rules of a source *)
Definition carries_credentials (s : SourceDescriptor) : Prop :=
  request_headers s <> ∅ \/ cookies s <> [] \/ is_Some (origin s) \/ is_Some (referer s).
(** the authority of a url may be sent what the source carries *)
Definition authority_grants (s : SourceDescriptor) (u : Url) (a : CredentialAuthority) : Prop :=
  (ca_scheme a = u_scheme u /\ (exists host, u_host u = Some host /\ ca_host a = to_lower host) /\
   u_port_or_known_default u = Some (ca_port a)) /\
  (request_headers s <> ∅ -> ca_send_request_headers a = true) /\
  (cookies s <> [] -> ca_send_cookies a = true) /\
  (is_Some (origin s) -> ca_send_origin a = true) /\
  (is_Some (referer s) -> ca_send_referer a = true).
Definition cookie_bytes (l : list ProviderCookie) : Z :=
  foldr (fun c n => slen (pc_name c) + slen (pc_value c) + opt_len (pc_domain c) + opt_len (pc_path c) + n)%Z 0%Z l.
Section rules.
Context `{TT : TimeText} `{PT : PortText} `{UO : UrlOps} `{HO : HeaderOps} `{JR : JsonReader} `{WR : WireReaders}.
Record headers_obey (h : gmap string string) : Prop := {
  ho_few : size h <= 32;
  ho_each name value : h !! name = Some value ->
    to_lower name = name /\ forbidden_header name = false /\ (slen value <= 4096)%Z /\ header_value_ok value = true;
}.
Record cookies_obey (l : list ProviderCookie) : Prop := {
  co_few : length l <= 32;
  co_small : (cookie_bytes l <= 16 * 1024)%Z;
  co_distinct : NoDup (cookie_key <$> l);
  co_each c : c ∈ l -> valid_cookie_name (pc_name c) = true /\ all_bytes cookie_value_byte (pc_value c) = true;
}.
Record authorities_obey (l : list CredentialAuthority) : Prop := {
  ao_few : length l <= 8;
  ao_distinct : NoDup (contract_authority_key <$> l);
  ao_each a : a ∈ l -> is_http (ca_scheme a) = true /\ (sends_anything a = true -> ca_scheme a = "https");
}.
(** what may be told to clients *)
Record disclosure_obeys (s : SourceDescriptor) (u : Url) : Prop := {
  do_pushed : protocol s = Rtmp \/ protocol s = Srt ->
    ~ carries_credentials s /\ credential_authorities s = [] /\ client_disclosure s = ServerOnly;
  do_private : private_network s = true -> client_disclosure s = ServerOnly /\ server_egress s = Required;
  do_public : client_disclosure s = Public ->
    u_scheme u = "https" /\ u_query u = None /\ ~ carries_credentials s /\ credential_authorities s = [] /\
    expires_at s = None /\ refresh_handle s = None /\ server_egress s = NotRequired /\ private_network s = false;
}.
Record source_obeys (scope : ProviderContract) (now : instant) (s : SourceDescriptor) (u : Url) : Prop := {
  so_url : Url_parse (url s) = Some u;
  so_scheme : u_scheme u ∈ expected_scheme (protocol s) /\ has_userinfo u = false /\ is_Some (u_host u) /\ u_fragment u = None;
  so_protocol : protocol s ∈ pc_protocols scope;
  so_headers : headers_obey (request_headers s);
  so_cookies : cookies_obey (cookies s);
  so_authorities : authorities_obey (credential_authorities s);
  so_credentials : carries_credentials s ->
    u_scheme u = "https" /\ exists a, a ∈ credential_authorities s /\ authority_grants s u a;
  so_fresh t : expires_at s = Some t -> (now < t)%Z;
  so_handle h : refresh_handle s = Some h -> (1 <= slen h <= 2048)%Z;
  so_window : if available (time_shift s) then exists w, window_seconds (time_shift s) = Some w /\ (1 <= w <= 86400)%Z
              else window_seconds (time_shift s) = None;
  so_disclosure : disclosure_obeys s u;
}.

(** ** The pieces obey *)
Lemma to_lower_lower name : to_lower (to_lower name) = to_lower name.
Proof.
  induction name as [|c r IH]; [done|]. cbn. f_equal; [|done]. unfold lower_byte at 1 2.
  by destruct c as [[] [] [] [] [] [] [] []].
Qed.
Lemma collect_headers_ok values out h :
  collect_headers values out = Ok h -> size h = size out + length values /\
  forall name value, h !! name = Some value -> out !! name = Some value \/
    to_lower name = name /\ forbidden_header name = false /\ (slen value <= 4096)%Z /\ header_value_ok value = true.
Proof.
  revert out. induction values as [|[name value] values IH]; intros out; cbn [collect_headers]; intros Hc; ok_inv; [split; [cbn; lia|by left]|].
  bool_hyps. apply IH in Hc as [Hs Hall]. match goal with Hn : ~ is_Some _ |- _ => apply eq_None_not_Some in Hn; rename Hn into Hnew end.
  split; [rewrite Hs, map_size_insert_None by done; cbn; lia|].
  intros n v Hv. destruct (Hall n v Hv) as [Hv'|?]; [|by right]. rewrite lookup_insert_Some in Hv'.
  destruct Hv' as [[<- <-]|[_ ?]]; [right|by left]. split_and!; [apply to_lower_lower|done..].
Qed.
Lemma validate_headers_ok values h : validate_headers values = Ok h -> headers_obey h.
Proof.
  unfold validate_headers. intros Hv. ok_inv. match goal with Hs : (_ <? _)%nat = false |- _ => apply Nat.ltb_ge in Hs; rename Hs into Hs' end.
  apply collect_headers_ok in Hv as [Hs Hall]. split.
  - rewrite Hs, map_size_empty. cbn. rewrite btree_iter_perm, length_map_to_list. done.
  - intros name value Hn. destruct (Hall name value Hn) as [He|?]; [by rewrite lookup_empty in He|done].
Qed.
Lemma opt_len_pos o : (0 <= opt_len o)%Z.
Proof. destruct o; cbn; [apply slen_nonneg|lia]. Qed.
Lemma cookie_bytes_pos l : (0 <= cookie_bytes l)%Z.
Proof.
  induction l as [|c l IH]; cbn; [lia|]. pose proof (slen_nonneg (pc_name c)). pose proof (slen_nonneg (pc_value c)).
  pose proof (opt_len_pos (pc_domain c)). pose proof (opt_len_pos (pc_path c)). unfold cookie_bytes in IH. lia.
Qed.
(** an aggregate within the limit did not saturate *)
Lemma add_cookie_len_ok aggregate c : (0 <= aggregate)%Z -> (add_cookie_len aggregate c <= 16 * 1024)%Z ->
  add_cookie_len aggregate c = (aggregate + cookie_bytes [c])%Z.
Proof.
  unfold add_cookie_len, u64_saturating_add, u64_max. cbn. pose proof (slen_nonneg (pc_name c)). pose proof (slen_nonneg (pc_value c)).
  pose proof (opt_len_pos (pc_domain c)). pose proof (opt_len_pos (pc_path c)). lia.
Qed.
Lemma validate_cookie_ok value c : validate_cookie value = Ok c ->
  valid_cookie_name (pc_name c) = true /\ all_bytes cookie_value_byte (pc_value c) = true.
Proof. unfold validate_cookie. intros Hv. ok_inv. bool_hyps. done. Qed.
Lemma collect_cookies_ok aggregate unique values l :
  (0 <= aggregate <= 16 * 1024)%Z -> collect_cookies aggregate unique values = Ok l ->
  length l = length values /\ (aggregate + cookie_bytes l <= 16 * 1024)%Z /\ NoDup (cookie_key <$> l) /\
  forall c, c ∈ l -> (cookie_key c ∉ unique) /\ valid_cookie_name (pc_name c) = true /\ all_bytes cookie_value_byte (pc_value c) = true.
Proof.
  revert aggregate unique l. induction values as [|value values IH]; intros aggregate unique l Ha; cbn [collect_cookies]; intros Hc; ok_inv.
  { split_and!; [done|cbn; lia|constructor|set_solver]. }
  bool_hyps. rename x into c.
  assert (add_cookie_len aggregate c = aggregate + cookie_bytes [c])%Z as Hadd by (apply add_cookie_len_ok; lia).
  pose proof (cookie_bytes_pos [c]) as Hpos.
  match goal with Hr : collect_cookies _ _ _ = Ok _ |- _ => apply IH in Hr as (Hlen & Hb & Hn & Hall); [|lia] end.
  split_and!.
  - cbn. by rewrite Hlen.
  - rewrite Hadd in Hb. unfold cookie_bytes in *. cbn in *. lia.
  - cbn. constructor; [|done]. intros (c' & Hk & Hin)%list_elem_of_fmap. destruct (Hall c' Hin) as [Hc' _]. rewrite <- Hk in Hc'. set_solver.
  - intros c' [->|Hin]%elem_of_cons.
    + split; [done|]. by eapply validate_cookie_ok.
    + destruct (Hall c' Hin) as (? & ? & ?). split_and!; [set_solver|done..].
Qed.
Lemma validate_cookies_ok values l : validate_cookies values = Ok l -> cookies_obey l.
Proof.
  unfold validate_cookies. intros Hv. ok_inv. bool_hyps. apply collect_cookies_ok in Hv as (Hlen & Hb & Hn & Hall); [|lia].
  split; [unfold zlen in *; lia|lia|done|]. intros c Hc. by apply Hall.
Qed.
Lemma validate_authority_ok value a : validate_authority value = Ok a ->
  is_http (ca_scheme a) = true /\ (sends_anything a = true -> ca_scheme a = "https").
Proof.
  unfold validate_authority. intros Hv. ok_inv. bool_hyps. cbn. split; [done|]. intros Hs.
  match goal with Hn : (sends_anything value && _) = false |- _ => unfold sends_anything in *; cbn in Hs; rewrite Hs in Hn; cbn in Hn; bool_hyps; by apply String.eqb_eq in Hn end.
Qed.
Lemma validate_authorities_ok values l : validate_authorities values = Ok l -> authorities_obey l.
Proof.
  unfold validate_authorities. intros Hv. ok_inv. bool_hyps. apply unique_map_ok in Hv as (Hf & Hn & _). split; [|done|].
  - apply Forall2_length in Hf. unfold zlen in *. lia.
  - intros a Ha. apply list_elem_of_lookup in Ha as [i Hi]. destruct (Forall2_lookup_r _ _ _ _ _ Hf Hi) as (wire & _ & Hx).
    by eapply validate_authority_ok.
Qed.
Lemma is_some_b_spec {A} (o : option A) : is_some_b o = true <-> is_Some o.
Proof. rewrite <- not_eq_None_Some. by destruct o. Qed.
Lemma is_none_b_spec {A} (o : option A) : is_none_b o = true <-> o = None.
Proof. by destruct o. Qed.
Lemma carries_nothing_spec s : carries_nothing s = true <-> ~ carries_credentials s.
Proof.
  unfold carries_nothing, carries_credentials. rewrite !andb_true_iff, !bool_decide_eq_true, !is_none_b_spec, <- !not_eq_None_Some.
  destruct (origin s), (referer s), (decide (request_headers s = ∅)), (decide (cookies s = [])); naive_solver.
Qed.
Lemma require_authority_ok s u authorities x :
  require_initial_credential_authority u authorities (negb (bool_decide (request_headers s = ∅)))
    (negb (bool_decide (cookies s = []))) (is_some_b (origin s)) (is_some_b (referer s)) = Ok x ->
  carries_credentials s -> exists a, a ∈ authorities /\ authority_grants s u a.
Proof.
  unfold require_initial_credential_authority. intros Hr Hc. destruct (negb (_ || _ || _ || _)) eqn:Hnone.
  { exfalso. revert Hc. apply carries_nothing_spec. unfold carries_nothing. bool_hyps.
    rewrite !andb_true_iff, !bool_decide_eq_true, !is_none_b_spec. bool_hyps. destruct (origin s), (referer s); done. }
  clear Hnone. ok_inv. bool_hyps. destruct (List.find _ authorities) as [a|] eqn:Hf; [|done]. cbn in Hr.
  apply find_some in Hf as [Ha Hm]. bool_hyps. exists a. split; [by apply list_elem_of_In|].
  repeat match goal with H : String.eqb _ _ = true |- _ => apply String.eqb_eq in H end.
  split; [split_and!; [done|eauto|congruence]|].
  split_and!; intros Hx; [by rewrite bool_decide_eq_false_2 in * by done|by rewrite bool_decide_eq_false_2 in * by done| |];
    apply is_some_b_spec in Hx; rewrite Hx in *; done.
Qed.
Lemma validate_disclosure_ok u s x : validate_disclosure u s = Ok x -> disclosure_obeys s u.
Proof.
  unfold validate_disclosure. intros Hv. ok_inv. split.
  - intros Hp. rewrite bool_decide_eq_true_2 in * by done. cbn [andb] in *. unfold server_only in *. bool_hyps.
    split_and!; [by apply carries_nothing_spec|done..].
  - intros Hp. rewrite Hp in *. cbn [andb] in *. unfold server_only in *. bool_hyps. done.
  - intros Hp. rewrite (bool_decide_eq_true_2 (client_disclosure s = Public)) in * by done. cbn [andb] in *. bool_hyps.
    split_and!; try done; [by apply String.eqb_eq|by destruct (u_query u)|by apply carries_nothing_spec|by destruct (expires_at s)|
      by destruct (refresh_handle s)].
Qed.
Lemma validate_time_shift_ok b window t : validate_time_shift b window = Ok t ->
  if available t then exists w, window_seconds t = Some w /\ (1 <= w <= 86400)%Z else window_seconds t = None.
Proof.
  unfold validate_time_shift. destruct b, window as [w|]; try done.
  - destruct (_ && _) eqn:Hw; [|done]. intros [= <-]. bool_hyps. cbn. eauto.
  - by intros [= <-].
Qed.
Lemma granting_is_https s u a : authorities_obey (credential_authorities s) -> a ∈ credential_authorities s ->
  authority_grants s u a -> carries_credentials s -> u_scheme u = "https".
Proof.
  intros Hobey Ha ((Hs & _) & Hh & Hk & Ho & Hr) Hc. rewrite <- Hs. apply (ao_each _ Hobey a Ha). unfold sends_anything.
  destruct Hc as [Hc|[Hc|[Hc|Hc]]]; [rewrite (Hh Hc)|rewrite (Hk Hc)|rewrite (Ho Hc)|rewrite (Hr Hc)]; by rewrite ?orb_true_r.
Qed.
Lemma validate_source_url_ok value p u : validate_source_url value p = Ok u ->
  Url_parse value = Some u /\ u_scheme u ∈ expected_scheme p /\ has_userinfo u = false /\ is_Some (u_host u) /\ u_fragment u = None.
Proof.
  unfold validate_source_url. intros Hv. ok_inv. bool_hyps. split_and!; [done| |done| |].
  - match goal with He : existsb _ _ = true |- _ => apply existsb_exists in He as (scheme & Hx & He); apply String.eqb_eq in He as -> end.
    by apply list_elem_of_In.
  - destruct (u_host u); [eauto|done].
  - by destruct (u_fragment u).
Qed.
Lemma handle_ok o o' h : transpose_map validate_refresh_handle o = Ok o' -> o' = Some h -> (1 <= slen h <= 2048)%Z.
Proof.
  intros Ht%transpose_map_ok ->. destruct o; [|done]. unfold validate_refresh_handle in Ht. ok_inv. bool_hyps.
  match goal with He : str_empty h = false |- _ => destruct h; [done|]; unfold slen in *; cbn in *; lia end.
Qed.
Lemma validate_descriptor_ok scope now value s :
  validate_descriptor_value scope now value = Ok s -> exists u, source_obeys scope now s u.
Proof.
  unfold validate_descriptor_value. intros Hv. ok_inv.
  repeat match goal with
  | H : validate_source_url _ _ = Ok _ |- _ => apply validate_source_url_ok in H
  | H : validate_authorities _ = Ok _ |- _ => apply validate_authorities_ok in H
  | H : validate_time_shift _ _ = Ok _ |- _ => apply validate_time_shift_ok in H
  | H : validate_disclosure _ _ = Ok _ |- _ => apply validate_disclosure_ok in H
  end.
  bool_hyps. match goal with H : _ /\ _ |- _ => destruct H as [Hu Hscheme] end. match type of Hu with _ = Some ?u => exists u end.
  match goal with H : disclosure_obeys ?s _ |- _ => set (source := s) in * end.
  match goal with H : require_initial_credential_authority _ _ _ _ _ _ = Ok _ |- _ => pose proof (require_authority_ok source _ _ _ H) as Hcred end.
  split; try done.
  - by eapply validate_headers_ok.
  - by eapply validate_cookies_ok.
  - intros Hc. destruct (Hcred Hc) as (a & Ha & Hg). split; [by eapply (granting_is_https source)|eauto].
  - intros t Ht. match goal with H : is_some_and _ ?e = false |- _ => change (e = Some t) in Ht; rewrite Ht in H; cbn in H; by bool_hyps end.
  - intros h. by eapply handle_ok.
Qed.
Lemma descriptors_ok scope now values ys :
  Forall2 (fun x y => validate_descriptor_value scope now x = Ok y) values ys -> Forall (fun s => exists u, source_obeys scope now s u) ys.
Proof. induction 1; constructor; [by eapply validate_descriptor_ok|done]. Qed.
End rules.

(** what [parse_resolved_sources] takes from an answer *)
Lemma parse_resolved_ok `{TimeText, PortText, UrlOps, HeaderOps, JsonReader, WireReaders} body scope expected now r :
  parse_resolved_sources body scope expected now = Ok r ->
  let sources := descriptor r :: alternatives r in
  length sources <= 11 /\ NoDup (stream_id <$> sources) /\
  (forall id, expected = Some id -> stream_id (descriptor r) = id) /\
  Forall (fun s => exists u, source_obeys scope now s u) sources.
Proof.
  unfold parse_resolved_sources. intros Hp. ok_inv. bool_hyps. cbn [descriptor alternatives].
  match goal with Hu : unique_map _ _ _ _ _ = Ok _ |- _ => apply unique_map_ok in Hu as (Hf & Hn & Hi) end.
  match goal with Hd : validate_descriptor_value _ _ _ = Ok _ |- _ => apply validate_descriptor_ok in Hd end. split_and!.
  - apply Forall2_length in Hf. cbn. unfold zlen in *. lia.
  - rewrite fmap_cons. constructor; [|done]. intros (y & Hy & Hin)%list_elem_of_fmap. specialize (Hi y Hin). set_solver.
  - intros id ->. match goal with He : is_some_and _ _ = false |- _ => cbn in He; bool_hyps; by apply String.eqb_eq in He end.
  - constructor; [done|]. by eapply descriptors_ok.
Qed.

(** C17: Accepted sources obey the contract.  Whatever a provider sends, the sources that are taken from its answer are at most
    eleven, with distinct ids, the first with the id that was asked for; each has a declared protocol and a url of that
    protocol with a host and no user information; what it sends upstream (headers, cookies, origin, referer) goes to an
    https url only, whose authority the source names and permits each of it; headers are few and none is reserved for the
    connection, cookies are few, small and distinct, authorities that receive anything are https; it has not expired; a
    source in a private network is relayed under protected egress, and a public one discloses nothing. *)
Theorem resolved_sources_obey_contract `{TimeText, PortText, UrlOps, HeaderOps, JsonReader, WireReaders} body scope expected now r :
  parse_resolved_sources body scope expected now = Ok r ->
  let sources := descriptor r :: alternatives r in
  length sources <= 11 /\ NoDup (stream_id <$> sources) /\
  (forall id, expected = Some id -> stream_id (descriptor r) = id) /\
  Forall (fun s => exists u, source_obeys scope now s u) sources.
Proof. apply parse_resolved_ok. Qed.

(** ** Filters *)
Section filters.
Context `{TT : TimeText} `{PT : PortText} `{UO : UrlOps} `{HO : HeaderOps} `{JR : JsonReader} `{WR : WireReaders}.
Record filter_obeys (d : FilterDefinition) : Prop := {
  fo_id : validate_catalog_id (fd_id d) = Ok ();
  fo_distinct : NoDup (fo_value <$> fd_options d);
  fo_shape : takes_options (fd_kind d) = true \/ fd_options d = [];
  fo_default value : fd_default d = Some value -> validate_value d value = Ok ();
}.
Record catalog_obeys (scope : ProviderContract) (c : CatalogDefinition) : Prop := {
  ca_id : validate_catalog_id (cd_id c) = Ok ();
  ca_types : cd_item_types c <> ∅ /\ cd_item_types c ⊆ pc_item_types scope;
  ca_few : length (cd_filters c) <= 12;
  ca_distinct : NoDup (fd_id <$> cd_filters c);
  ca_filters d : d ∈ cd_filters c -> filter_obeys d;
}.
Lemma fits_kind_ext known known' kind value : (forall v, known v = known' v) -> fits_kind known kind value = fits_kind known' kind value.
Proof. intros Hk. destruct kind, value; cbn; try done. induction l as [|v l IH]; cbn; [done|]. by rewrite Hk, IH. Qed.
Lemma known_option_eq d v : bool_decide (v ∈ (list_to_set (fo_value <$> fd_options d) : gset string)) = known_option d v.
Proof.
  apply eq_true_iff_eq. rewrite bool_decide_eq_true, elem_of_list_to_set, list_elem_of_fmap. unfold known_option.
  rewrite existsb_exists. setoid_rewrite list_elem_of_In. setoid_rewrite String.eqb_eq. naive_solver.
Qed.
Lemma validate_filter_definition_ok wire d : validate_filter_definition wire = Ok d -> filter_obeys d.
Proof.
  unfold validate_filter_definition. intros Hv. ok_inv. bool_hyps.
  match goal with Hu : unique_map _ _ _ _ _ = Ok _ |- _ => apply unique_map_ok in Hu as (Hf & Hn & _) end.
  match goal with Hi : validate_catalog_id _ = Ok ?x |- _ => destruct x end. split; cbn; [done..| |].
  - match goal with Ho : takes_options _ || _ = true |- _ => apply orb_true_iff in Ho as [?|?]; [by left|right]; by bool_hyps end.
  - intros value Hd. match goal with Hc : check_opt _ _ = Ok _ |- _ => pose proof (proj1 (check_opt_ok _ _ _) Hc value Hd) as Hc' end.
    unfold validate_value. rewrite Hc'. run_ok. match goal with Hk : is_none_or _ _ = true |- _ => rewrite Hd in Hk; cbn in Hk; rename Hk into Hk' end.
    match goal with |- reject_if (negb (fits_kind (known_option ?d) _ _)) _ = _ => rewrite <- (fits_kind_ext _ _ _ _ (known_option_eq d)) end.
    cbn. by rewrite Hk'.
Qed.
Lemma forall2_image {A B} (P : B -> Prop) (f : A -> result ContractErrorCode B) l ys :
  (forall x y, f x = Ok y -> P y) -> Forall2 (fun x y => f x = Ok y) l ys -> forall y, y ∈ ys -> P y.
Proof. intros Hp. induction 1 as [|x y l ys Hxy _ IH]; intros z [->|Hz]%elem_of_cons || intros z Hz%elem_of_nil; eauto; done. Qed.
Lemma validate_catalog_definition_ok scope wire c : validate_catalog_definition scope wire = Ok c -> catalog_obeys scope c.
Proof.
  unfold validate_catalog_definition. intros Hv. ok_inv. bool_hyps.
  match goal with Hu : unique_map _ _ _ _ _ = Ok _ |- _ => apply unique_map_ok in Hu as (Hf & Hn & _) end.
  match goal with Hi : validate_catalog_id _ = Ok ?x |- _ => destruct x end. split; cbn; [done..| |done|].
  - apply Forall2_length in Hf. unfold zlen in *. lia.
  - eapply forall2_image; [|exact Hf]. intros wx wy. apply validate_filter_definition_ok.
Qed.
Lemma parse_catalogs_ok body scope s c : parse_catalogs_response body scope = Ok s -> c ∈ cs_catalogs s -> catalog_obeys scope c.
Proof.
  unfold parse_catalogs_response. intros Hp. ok_inv. bool_hyps.
  match goal with Hu : unique_map _ _ _ _ _ = Ok _ |- _ => apply unique_map_ok in Hu as (Hf & _ & _) end.
  revert c. eapply forall2_image; [|exact Hf]. intros wx wy. apply validate_catalog_definition_ok.
Qed.
Lemma known_ids c (values : gmap string FilterValue) :
  existsb (fun kv => negb (existsb (fun d => String.eqb (fd_id d) kv.1) (cd_filters c))) (btree_iter values) = false <->
  forall id, is_Some (values !! id) -> exists d, d ∈ cd_filters c /\ fd_id d = id.
Proof.
  rewrite <- not_true_iff_false, existsb_exists. setoid_rewrite <- list_elem_of_In. setoid_rewrite negb_true_iff.
  setoid_rewrite <- not_true_iff_false. setoid_rewrite existsb_exists. setoid_rewrite <- list_elem_of_In. setoid_rewrite String.eqb_eq.
  split.
  - intros He id [value Hv]. destruct (decide (Exists (fun d => fd_id d = id) (cd_filters c))) as [Hd|Hd]; [by apply Exists_exists|].
    exfalso. apply He. exists (id, value). split; [by apply btree_iter_elem|]. intros Hk. by apply Hd, Exists_exists.
  - intros Hall ([id value] & Hin%btree_iter_elem & Hn). destruct (Hall id) as (d & ? & ?); [eauto|]. apply Hn. by exists d.
Qed.
(** what a submission gives *)
Lemma submission_ok c values : validate_filter_submission c values = Ok () <->
  size values <= length (cd_filters c) /\
  (forall d, d ∈ cd_filters c -> match values !! fd_id d with None => fd_required d = false | Some value => validate_value d value = Ok () end) /\
  (forall id, is_Some (values !! id) -> exists d, d ∈ cd_filters c /\ fd_id d = id).
Proof.
  unfold validate_filter_submission. split.
  - intros Hv. ok_inv. match goal with Hs : (_ <? _)%nat = false |- _ => apply Nat.ltb_ge in Hs end.
    match goal with Hc : check_all _ _ = Ok _ |- _ => apply check_all_ok in Hc; rewrite Forall_forall in Hc; rename Hc into Hd end.
    split_and!; [done| |by apply known_ids]. intros d Hin. specialize (Hd d Hin). cbn in Hd.
    destruct (values !! fd_id d); [done|]. by apply reject_if_ok in Hd.
  - intros (Hs & Hd & Hi). rewrite (proj2 (Nat.ltb_ge _ _) Hs). run_ok. rewrite (proj2 (known_ids c values) Hi).
    replace (check_all _ _) with (@Ok ContractErrorCode unit ()); [done|]. symmetry. apply check_all_ok, Forall_forall.
    intros d Hin. specialize (Hd d Hin). cbn. destruct (values !! fd_id d); [done|]. by rewrite Hd.
Qed.
Lemma validate_value_fits d value : validate_value d value = Ok () ->
  validate_filter_value value = Ok () /\ fits_kind (known_option d) (fd_kind d) value = true.
Proof. unfold validate_value. intros Hv. ok_inv. bool_hyps. by destruct x. Qed.
(** one value for each filter that has a default *)
Definition default_values (c : CatalogDefinition) : gmap string FilterValue :=
  list_to_map (omap (fun d => pair (fd_id d) <$> fd_default d) (cd_filters c)).
Lemma valid_entry scope c (Hobey : catalog_obeys scope c) values id value :
  validate_filter_submission c values = Ok () -> values !! id = Some value ->
  (_ ← validate_catalog_id id; validate_filter_value value) = Ok ().
Proof.
  intros (_ & Hd & Hi)%submission_ok Hv. destruct (Hi id) as (d & Hin & <-); [eauto|]. rewrite (fo_id _ (ca_filters _ _ Hobey d Hin)).
  specialize (Hd d Hin). rewrite Hv in Hd. by apply validate_value_fits in Hd as [? _].
Qed.
Lemma default_entries (l : list FilterDefinition) : NoDup (fd_id <$> l) ->
  NoDup (omap (fun d => pair (fd_id d) <$> fd_default d) l).*1 /\
  length (omap (fun d => pair (fd_id d) <$> fd_default d) l) <= length l /\
  forall id, id ∈ (omap (fun d => pair (fd_id d) <$> fd_default d) l).*1 -> id ∈ fd_id <$> l.
Proof.
  induction l as [|d l IH]; cbn; [intros _; split_and!; [constructor|done|done]|]. intros [Hd Hn]%NoDup_cons. destruct (IH Hn) as (Hn' & Hlen & Hin).
  destruct (fd_default d) as [value|]; cbn; split_and!; try lia; try done; try (constructor; [|done]; by intros ?%Hin).
  - intros id [->|Hid]%elem_of_cons; [by left|]. right. by apply Hin.
  - intros id Hid. right. by apply Hin.
Qed.
Lemma default_values_lookup c d : NoDup (fd_id <$> cd_filters c) -> d ∈ cd_filters c ->
  default_values c !! fd_id d = fd_default d.
Proof.
  intros Hn Hd. unfold default_values. destruct (default_entries _ Hn) as (Hne & _ & _). destruct (fd_default d) as [value|] eqn:Hv.
  - apply elem_of_list_to_map_1; [done|]. apply list_elem_of_omap. exists d. split; [done|]. by rewrite Hv.
  - apply not_elem_of_list_to_map_1. intros ([id value] & Hk & Hin)%list_elem_of_fmap. apply list_elem_of_omap in Hin as (d' & Hd' & He).
    destruct (fd_default d') as [v'|] eqn:Hv'; [|done]. injection He as Hid _. assert (d' = d) as ->; [|congruence].
    cbn in Hk. apply list_elem_of_lookup in Hd as [i Hi], Hd' as [j Hj].
    assert (i = j) as ->; [|congruence]. eapply (NoDup_lookup _ _ _ (fd_id d) Hn); rewrite list_lookup_fmap; [by rewrite Hi|rewrite Hj; cbn; congruence].
Qed.
Lemma defaults_submit scope c : catalog_obeys scope c ->
  (forall d, d ∈ cd_filters c -> fd_required d = true -> is_Some (fd_default d)) -> validate_filter_submission c (default_values c) = Ok ().
Proof.
  intros Hobey Hr. pose proof (ca_distinct _ _ Hobey) as Hn. destruct (default_entries _ Hn) as (Hne & Hlen & Hin). apply submission_ok. split_and!.
  - unfold default_values. rewrite <- map_size_list_to_map in Hlen by done. done.
  - intros d Hd. rewrite default_values_lookup by done. destruct (fd_default d) as [value|] eqn:Hv.
    + by apply (ca_filters _ _ Hobey d Hd).
    + destruct (fd_required d) eqn:Hq; [|done]. destruct (Hr d Hd Hq). congruence.
  - intros id [value Hv]. apply elem_of_list_to_map_2 in Hv. apply (list_elem_of_fmap_2 fst) in Hv. apply Hin in Hv.
    apply list_elem_of_fmap in Hv as (d & Hk & Hd). by exists d.
Qed.
End filters.

(** C21: Filters fit the requests they are for.  For a catalog taken from a provider's answer, the values that a client submits
    and that the catalog accepts make a valid page request, together with any limit of 1 to 100 and any bounded cursor;
    each value fits the kind and the options of its filter and no required filter is missing.  And when every required
    filter has a default, submitting just the defaults is accepted. *)
Theorem submitted_filters_make_valid_requests `{TimeText, PortText, UrlOps, HeaderOps, JsonReader, WireReaders} body scope set c :
  parse_catalogs_response body scope = Ok set -> c ∈ cs_catalogs set ->
  (forall values cursor limit, validate_filter_submission c values = Ok () ->
     (1 <= limit <= 100)%Z -> (forall s, cursor = Some s -> (slen s <= 2048)%Z) ->
     CatalogPageRequest_validate {| pr_catalog_id := cd_id c; pr_cursor := cursor; pr_limit := limit; pr_filters := values |} = Ok () /\
     (forall id value, values !! id = Some value ->
        exists d, d ∈ cd_filters c /\ fd_id d = id /\ fits_kind (known_option d) (fd_kind d) value = true) /\
     (forall d, d ∈ cd_filters c -> fd_required d = true -> is_Some (values !! fd_id d))) /\
  ((forall d, d ∈ cd_filters c -> fd_required d = true -> is_Some (fd_default d)) ->
   validate_filter_submission c (default_values c) = Ok ()).
Proof.
  intros Hp Hc. pose proof (parse_catalogs_ok _ _ _ _ Hp Hc) as Hobey. split; [|by eapply defaults_submit].
  intros values cursor limit Hv Hl Hcur. pose proof Hv as (Hs & Hd & Hi)%submission_ok. split_and!.
  - unfold CatalogPageRequest_validate. cbn [pr_catalog_id pr_limit pr_cursor pr_filters]. rewrite (ca_id _ _ Hobey). run_ok.
    rewrite (proj2 (Z.leb_le 1 limit)), (proj2 (Z.leb_le limit 100)) by lia. pose proof (ca_few _ _ Hobey).
    rewrite (proj2 (Nat.ltb_ge 12 _)) by lia. destruct cursor as [s|]; cbn; [rewrite (proj2 (Z.ltb_ge 2048 (slen s))) by (by apply Hcur); cbn|];
      (apply check_all_ok, Forall_forall; intros [id value] Hin%btree_iter_elem; by eapply (valid_entry _ _ Hobey values)).
  - intros id value Hin. destruct (Hi id) as (d & Hdin & <-); [eauto|]. exists d. split_and!; [done..|].
    specialize (Hd d Hdin). rewrite Hin in Hd. by apply validate_value_fits.
  - intros d Hdin Hr. specialize (Hd d Hdin). destruct (values !! fd_id d); [done|congruence].
Qed.

(** ** Pages *)
(** documented behaviour of derived readers: a field is read under its name, and what has no field is kept in [extra] *)
Definition ITEM_FIELDS : list string :=
  ["id"; "itemType"; "title"; "subtitle"; "description"; "status"; "startsAt"; "endsAt"; "posterUrl"; "backgroundUrl"; "logoUrl";
   "categories"; "badges"; "facts"].
Class WireReaderLaws (WR : WireReaders) : Prop := {
  page_items fields w : read_catalog_page (JObject fields) = Some w -> json_get "items" (JObject fields) = Some (JArray (wp_items w));
  item_id v w : read_item v = Some w -> json_get "id" v = Some (JString (wi_id w));
  item_extra fields w key : read_item (JObject fields) = Some w ->
    key ∈ (wi_extra w).*1 <-> key ∈ fields.*1 /\ key ∉ ITEM_FIELDS;
}.
Section pages.
Context `{TT : TimeText} `{PT : PortText} `{UO : UrlOps} `{HO : HeaderOps} `{JR : JsonReader} `{WR : WireReaders}.
Definition artwork_obeys (a : ArtworkSource) : Prop :=
  exists u, Url_parse (artwork_expose a) = Some u /\ is_http (u_scheme u) = true /\ has_userinfo u = false /\ is_Some (u_host u).
(** an item that is kept, and the value it was read from *)
Record item_obeys (scope : ProviderContract) (v : json) (i : LiveItem) : Prop := {
  io_id : json_get "id" v = Some (JString (it_id i));
  io_fields fields key : v = JObject fields -> key ∈ fields.*1 -> normalize_key key ∉ ITEM_FORBIDDEN;
  io_type : it_item_type i ∈ pc_item_types scope;
  io_times start end_ : it_starts_at i = Some start -> it_ends_at i = Some end_ -> (start <= end_)%Z;
  io_artwork a : a ∈ [it_poster i; it_background i; it_logo i] -> match a with Some a => artwork_obeys a | None => True end;
  io_few : length (it_categories i) <= 20 /\ length (it_badges i) <= 20 /\ length (it_facts i) <= 20;
}.
Lemma as_reason_ok {A} reason (r : result ContractErrorCode A) x : as_reason reason r = Ok x <-> r = Ok x.
Proof. unfold as_reason. destruct r; cbn; naive_solver. Qed.
Lemma collect_facts_length l facts : collect_facts l = Ok facts -> length facts = length l.
Proof. revert facts. induction l as [|f l IH]; cbn; intros facts Hc; ok_inv; [done|]. cbn. f_equal. eauto. Qed.
Lemma artwork_ok o a : transpose_map validate_artwork_url o = Ok a -> match a with Some a => artwork_obeys a | None => True end.
Proof.
  intros Ht%transpose_map_ok. destruct o, a as [a|]; try done. unfold validate_artwork_url in Ht. ok_inv. bool_hyps.
  eexists. split_and!; [done..|]. destruct (u_host _); [eauto|done].
Qed.
Lemma known_fields_allowed : Forall (fun key => normalize_key key ∉ ITEM_FORBIDDEN) ITEM_FIELDS.
Proof. apply (bool_decide_unpack _). vm_compute. exact I. Qed.
Lemma item_keys_allowed `{!WireReaderLaws WR} fields w u key :
  read_item (JObject fields) = Some w -> reject_item_sensitive_fields (wi_extra w).*1 = Ok u ->
  key ∈ fields.*1 -> normalize_key key ∉ ITEM_FORBIDDEN.
Proof.
  unfold reject_item_sensitive_fields. intros Hr Hf%reject_if_ok Hk Hin.
  destruct (decide (key ∈ ITEM_FIELDS)) as [Hknown|Hextra].
  { by apply (proj1 (Forall_forall _ _) known_fields_allowed key Hknown). }
  assert (existsb (fun key => existsb (String.eqb (normalize_key key)) ITEM_FORBIDDEN) (wi_extra w).*1 = true); [|congruence].
  apply existsb_exists. exists key. split; [by apply list_elem_of_In, (item_extra _ _ _ Hr)|].
  apply existsb_exists. exists (normalize_key key). split; [by apply list_elem_of_In|apply String.eqb_refl].
Qed.
Lemma validate_item_ok `{!WireReaderLaws WR} v scope i : validate_item_value v scope = Ok i -> item_obeys scope v i.
Proof.
  unfold validate_item_value. intros Hv. ok_inv.
  repeat match goal with H : as_reason _ _ = Ok _ |- _ => apply as_reason_ok in H end. bool_hyps.
  match goal with H : decode read_item v = Ok _ |- _ => apply ok_or_ok in H as Hread end. split; cbn.
  - by apply item_id.
  - intros fields key -> Hk. by eapply item_keys_allowed.
  - done.
  - intros start end_ -> ->. match goal with H : ends_before _ _ = false |- _ => cbn in H; by bool_hyps end.
  - intros a Ha. repeat (apply elem_of_cons in Ha as [->|Ha]; [by eapply artwork_ok|]). by apply elem_of_nil in Ha.
  - match goal with H : collect_facts _ = Ok _ |- _ => apply collect_facts_length in H as Hlen end. unfold zlen in *. lia.
Qed.
(** how a list of values is sorted *)
Lemma sort_items_spec scope index l kept diagnostics : sort_items scope index l = (kept, diagnostics) ->
  kept = omap (fun v => to_option (validate_item_value v scope)) l /\
  zlen l = (zlen kept + zlen diagnostics)%Z /\
  forall d, d ∈ diagnostics <-> exists n v, l !! n = Some v /\ diag_index d = (index + Z.of_nat n)%Z /\
    validate_item_value v scope = Err (diag_reason d).
Proof.
  revert index kept diagnostics. induction l as [|v l IH]; intros index kept diagnostics; cbn [sort_items].
  { intros [= <- <-]. split_and!; [done..|]. intros d. split; [by intros ?%elem_of_nil|]. intros (n & w & Hn & _). by rewrite lookup_nil in Hn. }
  destruct (sort_items scope (index + 1) l) as [kept' diags'] eqn:Hs. destruct (IH _ _ _ Hs) as (Hk & Hlen & Hd).
  assert (forall d, d ∈ diags' <-> exists n w, (v :: l) !! (S n) = Some w /\ diag_index d = (index + Z.of_nat (S n))%Z /\
    validate_item_value w scope = Err (diag_reason d)) as Hd'.
  { intros d. rewrite Hd. split; intros (n & w & Hn & Hi & He); exists n, w; split_and!; try done; lia. }
  cbn [omap list_omap]. destruct (validate_item_value v scope) as [item|reason] eqn:Hv; intros [= <- <-]; cbn [to_option]; rewrite Hk.
  - split_and!; [done|rewrite !zlen_cons, <- Hk; lia|]. intros d. rewrite Hd'. split; [intros (n & w & ?); by exists (S n), w|].
    intros ([|n] & w & Hn & Hi & He); [|by exists n, w]. injection Hn as <-. congruence.
  - split_and!; [done|rewrite !zlen_cons, <- Hk; lia|]. intros d. rewrite elem_of_cons, Hd'. split.
    + intros [->|(n & w & ?)]; [exists 0, v; cbn; split_and!; [done|lia|done]|by exists (S n), w].
    + intros ([|n] & w & Hn & Hi & He); [left|right; by exists n, w]. injection Hn as <-. destruct d as [di dr]. cbn in *. f_equal; [lia|congruence].
Qed.
Lemma repeated_id_spec ids l : repeated_id ids l = false ->
  NoDup (omap (fun v => json_get "id" v ≫= as_str) l) /\ forall id, id ∈ omap (fun v => json_get "id" v ≫= as_str) l -> id ∉ ids.
Proof.
  revert ids. induction l as [|v l IH]; intros ids; cbn [repeated_id omap list_omap].
  { intros _. split; [constructor|set_solver]. }
  destruct (json_get "id" v ≫= as_str) as [id|]; [|apply IH]. intros Hr. bool_hyps. match goal with H : repeated_id _ _ = false |- _ => apply IH in H as [Hn Hi] end.
  split.
  - constructor; [|done]. intros Hin. specialize (Hi id Hin). set_solver.
  - intros id' [->|Hin]%elem_of_cons; [done|]. specialize (Hi id' Hin). set_solver.
Qed.
Lemma omap_sublist {A B C} (f : A -> option B) (g : A -> option C) (h : B -> C) l :
  (forall x y, f x = Some y -> g x = Some (h y)) -> sublist (h <$> omap f l) (omap g l).
Proof.
  intros Hfg. induction l as [|x l IH]; [constructor|]. cbn. destruct (f x) as [y|] eqn:Hf.
  - rewrite (Hfg x y Hf). cbn. by apply sublist_skip.
  - destruct (g x); [by apply sublist_cons|done].
Qed.
End pages.

(** C20: A page keeps exactly the valid items.  The items of an accepted page are, in order, the elements of the array "items"
    of the answer that pass validation, with distinct ids; its diagnostics name exactly the other elements, each by its
    index and the rule it breaks, and are at most a tenth of the elements and at most ten.  A kept item has the id and only
    fields that the contract permits, a declared type, a start before its end, and artwork behind http urls without user
    information. *)
Theorem catalog_page_keeps_valid_items `{TimeText, PortText, UrlOps, HeaderOps, JsonReader, WR : WireReaders} `{!WireReaderLaws WR}
    body scope page :
  parse_catalog_page_response body scope = Ok page ->
  exists value elements, parse_checked_json body = Ok value /\ json_get "items" value = Some (JArray elements) /\
    cp_items page = omap (fun v => to_option (validate_item_value v scope)) elements /\
    NoDup (it_id <$> cp_items page) /\
    (forall d, d ∈ cp_diagnostics page <-> exists n v, elements !! n = Some v /\ diag_index d = Z.of_nat n /\
       validate_item_value v scope = Err (diag_reason d)) /\
    length elements = length (cp_items page) + length (cp_diagnostics page) /\ length elements <= 100 /\
    10 * length (cp_diagnostics page) <= length elements /\ length (cp_diagnostics page) <= 10 /\
    (forall i, i ∈ cp_items page -> exists v, v ∈ elements /\ item_obeys scope v i).
Proof.
  unfold parse_catalog_page_response. intros Hp. ok_inv. destruct (sort_items _ _ _) as [kept diagnostics] eqn:Hs. ok_inv. bool_hyps.
  match goal with Hj : parse_checked_json _ = Ok ?v, Hd : decode _ ?v = Ok ?w |- _ => exists v, (wp_items w); apply ok_or_ok in Hd; rename Hd into Hread, Hj into Hjson end.
  apply sort_items_spec in Hs as (Hk & Hlen & Hd). match goal with Hr : repeated_id _ _ = false |- _ => apply repeated_id_spec in Hr as [Hn _] end.
  cbn [cp_items cp_diagnostics]. unfold allowed_invalid, zlen in *. split_and!; try done; try div_lia.
  - match goal with Hf : require_fields ?v _ = Ok _ |- _ => destruct v; try discriminate Hf end. by apply page_items.
  - eapply sublist_NoDup; [exact Hn|]. rewrite Hk. apply omap_sublist. intros v i Hi. destruct (validate_item_value v scope) eqn:Hv; [|done].
    injection Hi as ->. apply validate_item_ok in Hv. by rewrite (io_id _ _ _ Hv).
  - intros i Hi. rewrite Hk in Hi. apply list_elem_of_omap in Hi as (v & Hv & Hi). exists v. split; [done|].
    destruct (validate_item_value v scope) eqn:Hok; [|done]. injection Hi as ->. by apply validate_item_ok.
Qed.
