(* ===== verification/ContractWitness.v ===== *)
(** * Concrete provider answers

    Readers of the wire structs that satisfy the laws of [WireReaderLaws], and answers that are accepted and refused. *)
From stdpp Require Import pretty.
From S2P Require Import Prelude Bytes LiveContract CanonicalJson Crypto Vault SessionStore Planner UpstreamPolicy CookieJar.
From S2P Require Import UpstreamCredentials CatalogCircuit CatalogCache ProviderCalls ProviderJson ProviderContract ContractSafety.
#[local] Set Warnings "-register-all".

(** ** Fields *)
Definition str (k : string) (v : json) : option string := json_get k v ≫= as_str.
Definition nullable {A} (f : json -> option A) (k : string) (v : json) : option (option A) :=
  match json_get k v with None | Some JNull => Some None | Some x => Some <$> f x end.
Definition as_bool (v : json) : option bool := match v with JBool b => Some b | _ => None end.
Fixpoint digits (acc : Z) (s : string) : option Z :=
  match s with
  | EmptyString => Some acc
  | String c s => if is_digit c then digits (10 * acc + (Z.of_N (byte_of c) - 48)) s else None
  end.
Definition as_int (v : json) : option Z :=
  match v with
  | JNumber (String "-" s) => Z.opp <$> digits 0 s
  | JNumber s => if str_empty s then None else digits 0 s
  | _ => None
  end.
Definition list_of {A} (f : json -> option A) (v : json) : option (list A) := as_array v ≫= mapM f.
Definition choice {A} (table : list (string * A)) (v : json) : option A :=
  s ← as_str v; snd <$> List.find (fun kv => String.eqb kv.1 s) table.
Definition field {A} (f : json -> option A) (k : string) (v : json) : option A := json_get k v ≫= f.
Definition extra (known : list string) (v : json) : list (string * json) :=
  match v with JObject fields => List.filter (fun kv => negb (existsb (String.eqb kv.1) known)) fields | _ => [] end.
Definition item_types : list (string * LiveItemType) := [("event", ItemEvent); ("channel", ItemChannel)].
Definition statuses : list (string * LiveItemStatus) :=
  [("scheduled", StatusScheduled); ("live", StatusLive); ("ended", StatusEnded); ("unavailable", StatusUnavailable); ("unknown", StatusUnknown)].
Definition protocols : list (string * StreamProtocol) :=
  [("hls", Hls); ("dash", Dash); ("http_progressive", HttpProgressive); ("mpeg_ts", MpegTs); ("rtmp", Rtmp); ("srt", Srt)].

(** ** The readers *)
Definition cache_reader (v : json) : option WireCacheHint :=
  a ← field as_int "maxAgeSeconds" v; b ← field as_int "staleWhileRevalidateSeconds" v; e ← nullable as_str "etag" v;
  Some {| wc_max_age_seconds := a; wc_stale_while_revalidate_seconds := b; wc_etag := e |}.
Definition option_reader (v : json) : option WireFilterOption :=
  a ← str "value" v; b ← str "label" v; Some {| wo_value := a; wo_label := b |}.
Definition filter_value_reader (v : json) : option FilterValue :=
  match v with
  | JBool b => Some (FilterToggle b)
  | JString s => Some (FilterText s)
  | JArray _ => FilterMultiple <$> list_of as_str v
  | _ => None
  end.
Definition filter_reader (v : json) : option WireFilterDefinition :=
  a ← str "id" v; b ← str "label" v;
  k ← field (choice [("toggle", KindToggle); ("single_select", KindSingleSelect); ("multi_select", KindMultiSelect);
                     ("search", KindSearch); ("date", KindDate)]) "type" v;
  r ← field as_bool "required" v; d ← nullable filter_value_reader "default" v;
  o ← (match json_get "options" v with None => Some [] | Some o => list_of option_reader o end);
  Some {| wf_id := a; wf_label := b; wf_kind := k; wf_required := r; wf_default := d; wf_options := o |}.
Definition catalog_reader (v : json) : option WireCatalogDefinition :=
  a ← str "id" v; b ← str "name" v; d ← nullable as_str "description" v; t ← field (list_of (choice item_types)) "itemTypes" v;
  p ← field (choice [("landscape", Landscape); ("poster", Poster); ("compact_list", CompactList)]) "presentation" v;
  o ← field as_int "order" v; f ← field (list_of filter_reader) "filters" v;
  Some {| wd_id := a; wd_name := b; wd_description := d; wd_item_types := t; wd_presentation := p; wd_order := o; wd_filters := f |}.
Definition catalogs_reader (v : json) : option WireCatalogsResponse :=
  a ← field (list_of catalog_reader) "catalogs" v; c ← field cache_reader "cache" v;
  Some {| wcs_catalogs := a; wcs_cache := c |}.
Definition health_reader (v : json) : option WireHealthResponse :=
  a ← str "status" v; b ← field (list_of as_int) "contractVersions" v;
  d ← (match json_get "details" v with None => Some [] | Some d => list_of as_str d end);
  Some {| wh_status := a; wh_contract_versions := b; wh_details := d |}.
Definition page_reader (v : json) : option WireCatalogPage :=
  a ← field as_array "items" v; b ← nullable as_str "nextCursor" v; c ← field cache_reader "cache" v;
  Some {| wp_items := a; wp_next_cursor := b; wp_cache := c |}.
Definition fact_reader (v : json) : option WireFact :=
  a ← str "label" v; b ← str "value" v; Some {| wfa_label := a; wfa_value := b |}.
Definition item_reader (v : json) : option WireItem :=
  a ← str "id" v; t ← field (choice item_types) "itemType" v; b ← str "title" v; s ← nullable as_str "subtitle" v;
  d ← nullable as_str "description" v; st ← field (choice statuses) "status" v; t1 ← nullable as_str "startsAt" v;
  t2 ← nullable as_str "endsAt" v; u1 ← nullable as_str "posterUrl" v; u2 ← nullable as_str "backgroundUrl" v;
  u3 ← nullable as_str "logoUrl" v; c ← field (list_of as_str) "categories" v; ba ← field (list_of as_str) "badges" v;
  f ← field (list_of fact_reader) "facts" v;
  Some {| wi_id := a; wi_item_type := t; wi_title := b; wi_subtitle := s; wi_description := d; wi_status := st; wi_starts_at := t1;
          wi_ends_at := t2; wi_poster_url := u1; wi_background_url := u2; wi_logo_url := u3; wi_categories := c; wi_badges := ba;
          wi_facts := f; wi_extra := extra ITEM_FIELDS v |}.
Definition meta_reader (v : json) : option WireMetaResponse :=
  a ← json_get "item" v; b ← field as_array "streams" v; c ← field cache_reader "cache" v;
  Some {| wm_item := a; wm_streams := b; wm_cache := c |}.
Definition stream_reader (v : json) : option WireStreamChoice :=
  a ← str "id" v; b ← str "label" v; q ← nullable as_str "quality" v; l ← nullable as_str "language" v;
  p ← nullable (choice protocols) "protocolHint" v; n ← field as_int "priority" v;
  Some {| wsc_id := a; wsc_label := b; wsc_quality := q; wsc_language := l; wsc_protocol_hint := p; wsc_priority := n;
          wsc_extra := extra ["id"; "label"; "quality"; "language"; "protocolHint"; "priority"] v |}.
Definition resolve_reader (v : json) : option WireResolveResponse :=
  a ← json_get "descriptor" v; b ← field as_array "alternatives" v; Some {| wr_descriptor := a; wr_alternatives := b |}.
Definition authority_reader (v : json) : option CredentialAuthority :=
  s ← str "scheme" v; h ← str "host" v; p ← field as_int "port" v; a ← field as_bool "sendRequestHeaders" v;
  b ← field as_bool "sendCookies" v; c ← field as_bool "sendOrigin" v; d ← field as_bool "sendReferer" v;
  Some {| ca_scheme := s; ca_host := h; ca_port := p; ca_send_request_headers := a; ca_send_cookies := b; ca_send_origin := c;
          ca_send_referer := d |}.
Definition string_map (v : json) : option (gmap string string) :=
  match v with JObject fields => list_to_map <$> mapM (fun kv => pair kv.1 <$> as_str kv.2) fields | _ => None end.
Definition shift_reader (v : json) : option WireTimeShift :=
  a ← field as_bool "available" v; w ← nullable as_int "windowSeconds" v; Some {| wt_available := a; wt_window_seconds := w |}.
Definition media_reader (v : json) : option MediaHints :=
  a ← nullable as_str "container" v; b ← nullable as_str "videoCodec" v; c ← nullable as_str "audioCodec" v;
  Some {| container := a; video_codec := b; audio_codec := c |}.
Definition SOURCE_FIELDS : list string := descriptor_fields ++ ["quality"; "language"; "media"].
Definition source_reader (v : json) : option WireSourceDescriptor :=
  a ← str "streamId" v; b ← str "label" v; q ← nullable as_str "quality" v; l ← nullable as_str "language" v;
  n ← field as_int "priority" v; p ← field (choice protocols) "protocol" v; u ← str "url" v; h ← field string_map "requestHeaders" v;
  k ← field as_array "cookies" v; o ← nullable as_str "origin" v; r ← nullable as_str "referer" v;
  c ← field (list_of authority_reader) "credentialAuthorities" v;
  cd ← field (choice [("server_only", ServerOnly); ("public", Public)]) "clientDisclosure" v; e ← nullable as_str "expiresAt" v;
  rh ← nullable as_str "refreshHandle" v;
  se ← field (choice [("not_required", NotRequired); ("preferred", Preferred); ("required", Required)]) "serverEgress" v;
  pn ← field as_bool "privateNetwork" v;
  dr ← field (field (choice [("none", DrmNone); ("widevine", Widevine); ("fairplay", Fairplay); ("playready", Playready);
                             ("unknown", DrmUnknown)]) "kind") "drm" v;
  ts ← field shift_reader "timeShift" v; m ← nullable media_reader "media" v;
  Some {| ws_stream_id := a; ws_label := b; ws_quality := q; ws_language := l; ws_priority := n; ws_protocol := p; ws_url := u;
          ws_request_headers := h; ws_cookies := k; ws_origin := o; ws_referer := r; ws_credential_authorities := c;
          ws_client_disclosure := cd; ws_expires_at := e; ws_refresh_handle := rh; ws_server_egress := se; ws_private_network := pn;
          ws_drm := dr; ws_time_shift := ts; ws_media := m; ws_extra := extra SOURCE_FIELDS v |}.
Definition cookie_reader (v : json) : option WireCookie :=
  a ← str "name" v; b ← str "value" v; d ← nullable as_str "domain" v; p ← nullable as_str "path" v; s ← field as_bool "secure" v;
  h ← field as_bool "httpOnly" v; e ← nullable as_str "expiresAt" v;
  Some {| wk_name := a; wk_value := b; wk_domain := d; wk_path := p; wk_secure := s; wk_http_only := h; wk_expires_at := e |}.
Definition error_reader (v : json) : option WireProviderError :=
  v ← json_get "error" v; a ← str "code" v; b ← str "message" v; r ← field as_bool "retryable" v;
  s ← nullable as_int "retryAfterSeconds" v;
  Some {| we_code := a; we_message := b; we_retryable := r; we_retry_after_seconds := s |}.
#[export] Instance readers : WireReaders := {|
  read_health := health_reader; read_catalogs := catalogs_reader; read_catalog_page := page_reader; read_item := item_reader;
  read_meta := meta_reader; read_stream_choice := stream_reader; read_resolve := resolve_reader; read_source := source_reader;
  read_cookie := cookie_reader; read_provider_error := error_reader |}.
Lemma field_some {A} (f : json -> option A) k v x : field f k v = Some x -> exists y, json_get k v = Some y /\ f y = Some x.
Proof. unfold field. intros Hf. by apply bind_Some in Hf. Qed.
#[export] Instance reader_laws : WireReaderLaws readers.
Proof.
  split; cbn [read_catalog_page read_item readers].
  - intros fields w Hr. unfold page_reader in Hr. apply bind_Some in Hr as (a & (x & -> & Ha)%field_some & Hr).
    repeat apply bind_Some in Hr as (? & _ & Hr). injection Hr as <-. destruct x; cbn in *; congruence.
  - intros v w Hr. unfold item_reader in Hr. apply bind_Some in Hr as (a & (x & -> & Ha)%bind_Some & Hr).
    repeat apply bind_Some in Hr as (? & _ & Hr). injection Hr as <-. destruct x; cbn in *; congruence.
  - intros fields w key Hr. unfold item_reader in Hr. repeat apply bind_Some in Hr as (? & _ & Hr). injection Hr as <-.
    cbn [wi_extra extra]. rewrite !list_elem_of_fmap. setoid_rewrite list_elem_of_In. setoid_rewrite filter_In.
    assert (forall k, negb (existsb (String.eqb k) ITEM_FIELDS) = true <-> ~ In k ITEM_FIELDS) as Hk.
    { intros k. rewrite negb_true_iff, <- not_true_iff_false, existsb_exists. setoid_rewrite String.eqb_eq.
      split; intros Hn Hi; apply Hn; [by exists k|by destruct Hi as (y & ? & ->)]. }
    setoid_rewrite Hk. naive_solver.
Qed.

(** ** The crates *)
Definition web_url (scheme host path : string) (query : option string) (text : string) : Url :=
  {| u_scheme := scheme; u_username := ""; u_password := None; u_host := Some host;
     u_port_or_known_default := Some (if String.eqb scheme "https" then 443 else 80)%Z; u_path := path; u_query := query;
     u_fragment := None; u_as_str := text |}.
Definition known_urls : list Url :=
  [web_url "https" "a.example" "/live" None "https://a.example/live"; web_url "https" "b.example" "/seg" None "https://b.example/seg";
   web_url "http" "c.example" "/live" None "http://c.example/live"; web_url "http" "c.example" "/" None "http://c.example:80/";
   web_url "https" "a.example" "/" None "https://A.example:443/"; web_url "https" "img.example" "/p" None "https://img.example/p";
   web_url "http" "10.0.0.5" "/" None "http://10.0.0.5:8080/"].
#[export] Instance contract_urls : UrlOps :=
  {| Url_parse s := List.find (fun u => String.eqb (u_as_str u) s) known_urls; Url_join _ _ := None |}.
#[export] Instance contract_headers : HeaderOps :=
  {| header_name_ok _ := true; header_value_ok := all_bytes printable; header_to_str_ok := all_bytes printable |}.
#[export] Instance contract_times : TimeText := {|
  parse_from_rfc3339 s := if String.eqb s "2030-01-01T00:00:00Z" then Some (seconds 1893456000)
                          else if String.eqb s "2020-01-01T00:00:00Z" then Some (seconds 1577836800) else None;
  to_rfc3339_millis _ := "" |}.
#[export] Instance contract_ports : PortText := {| u16_to_string z := pretty z |}.
Definition now_2026 : instant := seconds 1767225600.

(** ** Answers *)
Fixpoint raw_of (v : json) : Raw :=
  match v with
  | JNull => RawNull
  | JBool b => RawBool b
  | JNumber t => RawNumber t
  | JString s => RawString s
  | JArray l => RawArray (Some ∘ raw_of <$> l)
  | JObject fields => RawObject ((fun kv => Some (kv.1, Some (raw_of kv.2))) <$> fields)
  end.
Definition cache_json : json := JObject [("maxAgeSeconds", JNumber "60"); ("staleWhileRevalidateSeconds", JNumber "300"); ("etag", JNull)].
Definition authority_json (scheme host port : string) : json :=
  JObject [("scheme", JString scheme); ("host", JString host); ("port", JNumber port); ("sendRequestHeaders", JBool true);
           ("sendCookies", JBool true); ("sendOrigin", JBool false); ("sendReferer", JBool false)].
Definition cookie_json : json :=
  JObject [("name", JString "sid"); ("value", JString "abc123"); ("domain", JNull); ("path", JNull); ("secure", JBool true);
           ("httpOnly", JBool true); ("expiresAt", JNull)].
Definition source_json (id url : string) (headers : list (string * json)) (cookies authorities : list json) (disclosure : string)
    (expires : json) : json :=
  JObject [("streamId", JString id); ("label", JString "Main"); ("priority", JNumber "-5"); ("protocol", JString "hls");
           ("url", JString url); ("requestHeaders", JObject headers); ("cookies", JArray cookies); ("origin", JNull);
           ("referer", JNull); ("credentialAuthorities", JArray authorities); ("clientDisclosure", JString disclosure);
           ("expiresAt", expires); ("refreshHandle", JNull); ("serverEgress", JString "not_required"); ("privateNetwork", JBool false);
           ("drm", JObject [("kind", JString "none")]); ("timeShift", JObject [("available", JBool false); ("windowSeconds", JNull)])].
Definition main_json (headers : list (string * json)) : json :=
  source_json "s1" "https://a.example/live" headers [cookie_json] [authority_json "https" "A.example" "443"] "server_only"
    (JString "2030-01-01T00:00:00Z").
Definition resolve_json (descriptor : json) (alternatives : list json) : json :=
  JObject [("descriptor", descriptor); ("alternatives", JArray alternatives)].
Definition key_header : list (string * json) := [("X-Key", JString "k1")].
Definition public_json (id : string) : json := source_json id "https://b.example/seg" [] [] [] "public" JNull.
Definition plain_http_json : json :=
  source_json "s1" "http://c.example/live" key_header [] [authority_json "http" "c.example" "80"] "server_only" JNull.
Definition item_json (id : string) (fields : list (string * json)) : json :=
  JObject ([("id", JString id); ("itemType", JString "event"); ("title", JString "Final"); ("status", JString "live");
            ("posterUrl", JString "https://img.example/p"); ("categories", JArray []); ("badges", JArray []); ("facts", JArray [])] ++ fields).
Definition page_json (items : list json) : json := JObject [("items", JArray items); ("nextCursor", JNull); ("cache", cache_json)].
Definition ten_items : list json :=
  ((fun n : nat => item_json ("i" +:+ pretty (N.of_nat n)) []) <$> seq 0 9) ++ [item_json "i9" [("stream_url", JNull); ("Stream", JNull)]].
Definition filter_json (id kind : string) (default : json) (options : list string) : json :=
  JObject [("id", JString id); ("label", JString "Filter"); ("type", JString kind); ("required", JBool true); ("default", default);
           ("options", JArray ((fun o => JObject [("value", JString o); ("label", JString o)]) <$> options))].
Definition catalogs_json : json :=
  JObject [("catalogs", JArray [JObject [("id", JString "sports"); ("name", JString "Sports"); ("itemTypes", JArray [JString "event"]);
              ("presentation", JString "poster"); ("order", JNumber "1");
              ("filters", JArray [filter_json "league" "single_select" (JString "nba") ["nba"; "nfl"]; filter_json "hd" "toggle" (JBool true) []])]]);
           ("cache", cache_json)].
Definition bodies : list (string * json) :=
  [("resolve", resolve_json (main_json key_header) [public_json "s2"]);
   ("same ids", resolve_json (main_json key_header) [public_json "s1"]);
   ("plain http", resolve_json plain_http_json []);
   ("user agent", resolve_json (main_json [("User-Agent", JString "Player")]) []);
   ("page", page_json ten_items); ("short page", page_json (drop 1 ten_items)); ("catalogs", catalogs_json);
   ("account", JObject [("error", JObject [("code", JString "account_required"); ("message", JString "Connect your account");
                                           ("retryable", JBool false); ("retryAfterSeconds", JNumber "30")])])].
#[export] Instance bodies_reader : JsonReader :=
  {| read_json body := match List.find (fun kv => String.eqb kv.1 body) bodies with
                       | Some (_, v) => (raw_of v, true) | None => (RawBroken, false) end |}.
Definition scope : ProviderContract := {| pc_item_types := {[ItemEvent]}; pc_protocols := {[Hls]} |}.
Definition ok_or_default {E A} (d : A) (r : result E A) : A := match r with Ok a => a | Err _ => d end.

(** ** Sources *)
Definition no_source : SourceDescriptor :=
  {| stream_id := ""; label := ""; quality := None; language := None; priority := 0; protocol := Hls; url := ""; request_headers := ∅;
     cookies := []; origin := None; referer := None; credential_authorities := []; client_disclosure := ServerOnly; expires_at := None;
     refresh_handle := None; server_egress := NotRequired; private_network := false;
     time_shift := {| available := false; window_seconds := None |}; media := None |}.
Definition resolved : ResolvedSources :=
  ok_or_default {| descriptor := no_source; alternatives := [] |} (parse_resolved_sources "resolve" scope (Some "s1") now_2026).
Lemma resolved_answer : parse_resolved_sources "resolve" scope (Some "s1") now_2026 = Ok resolved.
Proof. vm_compute. reflexivity. Qed.
Lemma resolved_sources_obey_contract_witness :
  (stream_id <$> descriptor resolved :: alternatives resolved) = ["s1"; "s2"] /\
  Forall (fun s => exists u, source_obeys scope now_2026 s u) (descriptor resolved :: alternatives resolved) /\
  parse_resolved_sources "same ids" scope (Some "s1") now_2026 = Err DuplicateId /\
  parse_resolved_sources "plain http" scope (Some "s1") now_2026 = Err InvalidCredentials /\
  parse_resolved_sources "resolve" scope (Some "s1") (seconds 1900000000) = Err DescriptorExpired.
Proof.
  split_and!; [vm_compute; reflexivity| |vm_compute; reflexivity..].
  exact (proj2 (proj2 (proj2 (resolved_sources_obey_contract "resolve" scope (Some "s1") now_2026 resolved resolved_answer)))).
Defined.
(** a source with its own User-Agent is accepted, and its credentials are refused when it is to be fetched *)
Definition with_user_agent : ResolvedSources :=
  ok_or_default {| descriptor := no_source; alternatives := [] |} (parse_resolved_sources "user agent" scope (Some "s1") now_2026).
Lemma accepted_user_agent_is_never_fetched :
  parse_resolved_sources "user agent" scope (Some "s1") now_2026 = Ok with_user_agent /\
  from_descriptor (descriptor with_user_agent) = Err UpstreamPolicy.HeaderRejected.
Proof. split; vm_compute; reflexivity. Qed.

(** ** Pages *)
Definition empty_page : CatalogPage :=
  {| cp_items := []; cp_next_cursor := None; cp_cache := {| max_age_seconds := 0; stale_while_revalidate_seconds := 0; etag := None |};
     cp_diagnostics := [] |}.
Definition page : CatalogPage := ok_or_default empty_page (parse_catalog_page_response "page" scope).
Lemma page_answer : parse_catalog_page_response "page" scope = Ok page.
Proof. vm_compute. reflexivity. Qed.
Lemma catalog_page_keeps_valid_items_witness :
  (exists value elements, parse_checked_json "page" = Ok value /\ json_get "items" value = Some (JArray elements) /\
     cp_items page = omap (fun v => to_option (validate_item_value v scope)) elements) /\
  (it_id <$> cp_items page) = ["i0"; "i1"; "i2"; "i3"; "i4"; "i5"; "i6"; "i7"; "i8"] /\
  cp_diagnostics page = [{| diag_index := 9; diag_reason := ReasonForbiddenField |}] /\
  parse_catalog_page_response "short page" scope = Err TooManyInvalidItems.
Proof.
  split_and!; [|vm_compute; reflexivity..].
  destruct (catalog_page_keeps_valid_items "page" scope page page_answer) as (value & elements & Hj & Hi & Hk & _).
  exists value, elements. split_and!; assumption.
Defined.

(** ** Filters *)
Definition set : CatalogSet :=
  ok_or_default {| cs_catalogs := []; cs_cache := cp_cache empty_page |} (parse_catalogs_response "catalogs" scope).
Lemma set_answer : parse_catalogs_response "catalogs" scope = Ok set.
Proof. vm_compute. reflexivity. Qed.
Definition sports : CatalogDefinition :=
  default {| cd_id := ""; cd_name := ""; cd_description := None; cd_item_types := ∅; cd_presentation := Poster; cd_order := 0; cd_filters := [] |}
    (head (cs_catalogs set)).
Lemma sports_listed : sports ∈ cs_catalogs set.
Proof. assert (cs_catalogs set = [sports]) as -> by (vm_compute; reflexivity). apply list_elem_of_singleton. reflexivity. Qed.
Definition submitted : gmap string FilterValue := {["league" := FilterText "nfl"; "hd" := FilterToggle false]}.
Lemma submitted_filters_make_valid_requests_witness :
  CatalogPageRequest_validate {| pr_catalog_id := cd_id sports; pr_cursor := Some "c2"; pr_limit := 50; pr_filters := submitted |} = Ok () /\
  validate_filter_submission sports (default_values sports) = Ok () /\
  validate_filter_submission sports {["league" := FilterText "mlb"; "hd" := FilterToggle false]} = Err InvalidFilter /\
  validate_filter_submission sports {["league" := FilterText "nfl"]} = Err InvalidFilter.
Proof.
  destruct (submitted_filters_make_valid_requests "catalogs" scope set sports set_answer sports_listed) as [Hs Hd].
  split_and!; [| |vm_compute; reflexivity..].
  - refine (proj1 (Hs submitted (Some "c2") 50%Z _ _ _)); [vm_compute; reflexivity|lia|intros s [= <-]; vm_compute; discriminate].
  - apply Hd. intros d Hd' _. assert (Forall (fun d => is_Some (fd_default d)) (cd_filters sports)) as Hall.
    { assert (forallb (fun d => is_some_b (fd_default d)) (cd_filters sports) = true) as Hall by (vm_compute; reflexivity).
      apply Forall_forall. intros f Hf. apply is_some_b_spec. exact (proj1 (forallb_forall _ _) Hall f (proj1 (list_elem_of_In _ _) Hf)). }
    exact (proj1 (Forall_forall _ _) Hall d Hd').
Defined.
