(* ===== verification/ProviderConfig.v ===== *)
(** * The configuration of a provider (src/src/live/contract/validation.rs)

    [validate_provider_config]: what an administrator may give a provider as its configuration: a bounded object without
    keys or values that look like secrets or host paths.  The length of its JSON text and the query pairs of a url are
    serde_json's and the url crate's. *)
From S2P Require Import Prelude LiveContract CanonicalJson Planner Crypto Vault SessionStore UpstreamPolicy CookieJar.
From S2P Require Import UpstreamCredentials CatalogCircuit CatalogCache ProviderCalls ProviderJson ProviderContract.
#[local] Set Warnings "-register-all".

Definition MAX_PROVIDER_CONFIG_BYTES : Z := 64 * 1024.
Definition MAX_PROVIDER_CONFIG_DEPTH : Z := 8.
Definition MAX_PROVIDER_CONFIG_NODES : Z := 2048.
Definition SENSITIVE_CONFIG_KEYS : list string :=
  ["password"; "passphrase"; "secret"; "token"; "cookie"; "authorization"; "credential"; "apikey"; "privatekey"; "accesskey";
   "encrypted"; "refreshhandle"; "hostpath"; "hostdirectory"; "hostdir"; "volume"; "mount"; "librarypath"; "mediapath"; "downloadpath"].
Definition sensitive_config_key (key : string) : bool :=
  existsb (fun needle => contains_sub needle (normalize_key key)) SENSITIVE_CONFIG_KEYS.
Class ConfigOps := {
  json_vec_len : json -> option Z;            (* the length of [serde_json::to_vec] *)
  url_query_keys : Url -> list string;        (* the keys of [Url::query_pairs] *)
}.
Section config.
Context `{UO : UrlOps} `{CO : ConfigOps}.
Definition contains_secret_material (value : string) : bool :=
  let lowered := to_lower value in
  if starts_with "bearer " lowered || contains_sub "-----begin private key-----" lowered
     || contains_sub "-----begin rsa private key-----" lowered || contains_sub "elx_live_v1_" lowered
  then true
  else is_some_and (fun u => has_userinfo u || existsb sensitive_config_key (url_query_keys u)) (Url_parse value).
Definition config_key_ok (key : string) : bool :=
  negb (str_empty key || (128 <? slen key)%Z || any_control key || sensitive_config_key key).
Definition config_text_ok (value : string) : bool :=
  negb ((4096 <? slen value)%Z || contains_char "000" value || contains_secret_material value).
Section fields.
Variable validate : json -> Z -> result ContractErrorCode Z.
Fixpoint validate_fields (l : list (string * json)) (nodes : Z) : result ContractErrorCode Z :=
  match l with
  | [] => Ok nodes
  | (key, child) :: l =>
      _ ← reject_if (negb (config_key_ok key)) UnsafeProviderConfig;
      nodes ← validate child nodes;
      validate_fields l nodes
  end.
Fixpoint validate_elements (l : list json) (nodes : Z) : result ContractErrorCode Z :=
  match l with
  | [] => Ok nodes
  | child :: l => nodes ← validate child nodes; validate_elements l nodes
  end.
End fields.
(** the counter of nodes is returned *)
Fixpoint validate_config_value (depth : Z) (v : json) (nodes : Z) : result ContractErrorCode Z :=
  let nodes := u64_saturating_add nodes 1 in
  if (MAX_PROVIDER_CONFIG_DEPTH <? depth)%Z || (MAX_PROVIDER_CONFIG_NODES <? nodes)%Z then Err UnsafeProviderConfig else
  match v with
  | JObject object =>
      if (128 <? zlen object)%Z then Err UnsafeProviderConfig else validate_fields (validate_config_value (depth + 1)) object nodes
  | JArray values =>
      if (MAX_UNKNOWN_ARRAY_ITEMS <? zlen values)%Z then Err UnsafeProviderConfig
      else validate_elements (validate_config_value (depth + 1)) values nodes
  | JString value => if config_text_ok value then Ok nodes else Err UnsafeProviderConfig
  | JNull | JBool _ | JNumber _ => Ok nodes
  end.
Definition is_object (v : json) : bool := match v with JObject _ => true | _ => false end.
Definition validate_provider_config (value : json) : result ContractErrorCode unit :=
  _ ← reject_if (negb (is_object value)) UnsafeProviderConfig;
  len ← ok_or (json_vec_len value) UnsafeProviderConfig;
  _ ← reject_if (MAX_PROVIDER_CONFIG_BYTES <? len)%Z UnsafeProviderConfig;
  _ ← validate_config_value 0 value 0;
  Ok ().

(** ** Safe values *)
Fixpoint config_safe (d : Z) (v : json) : Prop :=
  (d <= MAX_PROVIDER_CONFIG_DEPTH)%Z /\
  match v with
  | JObject l => (zlen l <= 128)%Z /\ foldr (fun kv P => (config_key_ok kv.1 = true /\ config_safe (d + 1) kv.2) /\ P) True l
  | JArray l => (zlen l <= MAX_UNKNOWN_ARRAY_ITEMS)%Z /\ foldr (fun x P => config_safe (d + 1) x /\ P) True l
  | JString s => config_text_ok s = true
  | _ => True
  end.
Definition exact_config (d : Z) (v : json) (validate : json -> Z -> result ContractErrorCode Z) : Prop :=
  forall k k', (0 <= k <= MAX_PROVIDER_CONFIG_NODES)%Z ->
    validate v k = Ok k' <-> config_safe d v /\ k' = (k + json_nodes v)%Z /\ (k' <= MAX_PROVIDER_CONFIG_NODES)%Z.
Lemma validate_elements_exact d validate l k k' : Forall (fun v => exact_config d v validate) l ->
  (0 <= k <= MAX_PROVIDER_CONFIG_NODES)%Z ->
  validate_elements validate l k = Ok k' <->
  foldr (fun x P => config_safe d x /\ P) True l /\ k' = (k + nodes_of l)%Z /\ (k' <= MAX_PROVIDER_CONFIG_NODES)%Z.
Proof.
  intros Hl. revert k. induction Hl as [|v l Hv Hl IH]; intros k Hk; cbn [validate_elements foldr nodes_of].
  - split; [intros [= <-]; split_and!; cbn; done || lia|intros (_ & -> & _); cbn; f_equal; lia].
  - pose proof (nodes_of_pos l) as Hpos. pose proof (json_nodes_pos v). unfold nodes_of in *. rewrite result_bind_ok. split.
    + intros (k1 & Hk1 & Hr). apply Hv in Hk1 as (Hs & -> & Hb); [|done]. apply IH in Hr as (Ha & -> & Hb'); [|lia]. split_and!; try done; lia.
    + intros ((Hs & Ha) & -> & Hb). exists (k + json_nodes v)%Z. split; [apply Hv; split_and!; try done; lia|].
      apply IH; [lia|]. split_and!; try done; lia.
Qed.
Lemma validate_fields_ok validate l k k' :
  validate_fields validate l k = Ok k' <->
  foldr (fun kv P => config_key_ok kv.1 = true /\ P) True l /\ validate_elements validate l.*2 k = Ok k'.
Proof.
  revert k. induction l as [|[key v] l IH]; intros k; cbn; [naive_solver|]. destruct (config_key_ok key); cbn; [|naive_solver].
  destruct (validate v k); cbn; [rewrite IH|]; naive_solver.
Qed.
Lemma fields_safe d (l : list (string * json)) :
  foldr (fun kv P => (config_key_ok kv.1 = true /\ config_safe d kv.2) /\ P) True l <->
  foldr (fun kv P => config_key_ok kv.1 = true /\ P) True l /\ foldr (fun x P => config_safe d x /\ P) True l.*2.
Proof. induction l as [|kv l IH]; cbn; [done|]. rewrite IH. tauto. Qed.
Lemma safe_depth d v : config_safe d v -> (d <= MAX_PROVIDER_CONFIG_DEPTH)%Z.
Proof. by destruct v; intros [? _]. Qed.
Lemma validate_config_value_exact v d : exact_config d v (validate_config_value d).
Proof.
  revert d. induction v as [ |b|t|s|l IH|l IH] using json_ind_nested; intros d k k' Hk.
  all: assert (u64_saturating_add k 1 = k + 1)%Z as Hadd by (unfold u64_saturating_add, MAX_PROVIDER_CONFIG_NODES, u64_max in *; lia).
  all: cbn [validate_config_value]; rewrite Hadd; destruct (Z.ltb_spec MAX_PROVIDER_CONFIG_DEPTH d) as [Hd|Hd]; cbn [orb].
  all: try (split; [done|]; intros (Hw%safe_depth & _); lia).
  all: destruct (Z.ltb_spec MAX_PROVIDER_CONFIG_NODES (k + 1)) as [Hfull|Hroom];
    [split; [done|]; intros (_ & -> & ?); exfalso;
     match goal with H : (_ + json_nodes ?v <= _)%Z |- _ => pose proof (json_nodes_pos v); lia end|].
  1-3: cbn; split; [intros [= <-]; done|by intros (_ & -> & _)].
  - cbn. destruct (config_text_ok s); split; [intros [= <-]; done|by intros (_ & -> & _)|done|by intros ((_ & ?) & _)].
  - destruct (Z.ltb_spec MAX_UNKNOWN_ARRAY_ITEMS (zlen l)) as [Hl|Hl].
    { split; [done|]. intros ((_ & ? & _) & _). lia. }
    rewrite (validate_elements_exact (d + 1)); [|eapply Forall_impl; [exact IH|]; intros v Hv; apply Hv|lia]. cbn [config_safe json_nodes].
    unfold nodes_of. split; [intros (? & -> & ?)|intros ((_ & _ & ?) & -> & ?)]; split_and!; try done; lia.
  - destruct (Z.ltb_spec 128 (zlen l)) as [Hl|Hl].
    { split; [done|]. intros ((_ & ? & _) & _). lia. }
    rewrite validate_fields_ok, (validate_elements_exact (d + 1)).
    2: { rewrite Forall_fmap. eapply Forall_impl; [exact IH|]. intros v Hv. apply Hv. }
    2: lia.
    rewrite json_nodes_object. cbn [config_safe]. rewrite fields_safe.
    split; [intros (? & ? & -> & ?)|intros ((_ & _ & ? & ?) & -> & ?)]; split_and!; try done; lia.
Qed.
End config.

(** C23: Accepted configurations are safe, exactly.  A configuration is accepted when and only when it is an object whose JSON
    text is at most 64 KiB, with at most 2048 nodes, at most eight levels deep, with bounded objects and arrays, in which no
    key at any depth is empty, long, has control characters or looks like a secret or a host path, and no text is long,
    holds a null character, a bearer token, a private key, a delivery token, or a url with credentials. *)
Theorem provider_config_exact `{UrlOps, ConfigOps} value u :
  validate_provider_config value = Ok u <->
  is_object value = true /\ (exists len, json_vec_len value = Some len /\ (len <= MAX_PROVIDER_CONFIG_BYTES)%Z) /\
  config_safe 0 value /\ (json_nodes value <= MAX_PROVIDER_CONFIG_NODES)%Z.
Proof.
  assert (0 <= 0 <= MAX_PROVIDER_CONFIG_NODES)%Z as Hzero by (unfold MAX_PROVIDER_CONFIG_NODES; lia).
  pose proof (fun k' => validate_config_value_exact value 0%Z 0%Z k' Hzero) as Hx. unfold validate_provider_config. split.
  - intros Hv. ok_inv. bool_hyps. match goal with Hc : validate_config_value _ _ _ = Ok _ |- _ => apply Hx in Hc as (? & -> & ?) end.
    split_and!; [done|by eexists|done|done].
  - intros (Ho & (len & Hlen & Hb) & Hs & Hn). rewrite Ho, Hlen. run_ok. rewrite (proj2 (Z.ltb_ge _ _) Hb). run_ok. destruct u.
    by rewrite (proj2 (Hx (0 + json_nodes value)%Z)).
Qed.
