(* ===== verification/ProviderDirectory.v ===== *)
(** * The directory of providers (src/src/live/provider/directory.rs)

    What the extension store knows of a provider that is ready becomes a snapshot: where it is reached, what it may be asked
    and the revision that tells two snapshots apart.  What the store answers, serde_json's reading of an endpoint and the
    hash of a revision are parameters. *)
From S2P Require Import Prelude Bytes Addresses LiveContract CanonicalJson Crypto Vault SessionStore Planner UpstreamPolicy CookieJar.
From S2P Require Import UpstreamCredentials CatalogCircuit CatalogCache ProviderCalls ProviderJson ProviderContract ProviderConfig ContractSafety.
#[local] Set Warnings "-register-all".

Inductive ProviderOperation := PoHealth | PoCatalogs | PoCatalog | PoMeta | PoResolve | PoRefresh.
#[export] Instance ProviderOperation_eq_dec : EqDecision ProviderOperation.
Proof. solve_decision. Defined.
Definition operation_index (o : ProviderOperation) : nat :=
  match o with PoHealth => 0 | PoCatalogs => 1 | PoCatalog => 2 | PoMeta => 3 | PoResolve => 4 | PoRefresh => 5 end.
Definition operation_of_index (n : nat) : option ProviderOperation :=
  match n with
  | 0 => Some PoHealth | 1 => Some PoCatalogs | 2 => Some PoCatalog | 3 => Some PoMeta | 4 => Some PoResolve | 5 => Some PoRefresh
  | _ => None
  end.
#[export] Instance ProviderOperation_countable : Countable ProviderOperation.
Proof. by apply (inj_countable operation_index operation_of_index); intros []. Defined.
Definition operation_path (o : ProviderOperation) : string :=
  match o with
  | PoHealth => "/health"
  | PoCatalogs => "/v1/live/catalogs"
  | PoCatalog => "/v1/live/catalog"
  | PoMeta => "/v1/live/meta"
  | PoResolve => "/v1/live/resolve"
  | PoRefresh => "/v1/live/refresh"
  end.

(** ** What the store knows of a provider *)
Record ProviderEndpoint := {
  pe_scheme : string;
  pe_host : string;
  pe_port : Z;
  pe_base_path : string;
  pe_network : option string;
}.
(** the fields of [ReadyLiveCatalogProvider] that are read, those of its provider, scope, endpoint and healthcheck included *)
Record ReadyLiveCatalogProvider := {
  rp_provider_id : uuid;
  rp_instance_id : uuid;
  rp_implementation : option string;
  rp_endpoint_json : option json;
  rp_scope_json : json;
  rp_extension_id : string;
  rp_extension_version : string;
  rp_extension_installed_at : instant;
  rp_instance_updated_at : instant;
  rp_trust_level : string;
  rp_contract_version : Z;
  rp_permissions : list string;
  rp_instance_config : option json;
  rp_scope_actions : list string;
  rp_scope_item_types : list string;
  rp_scope_protocols : list string;
  rp_endpoint_scheme : option string;
  rp_endpoint_port : option Z;
  rp_endpoint_base_path : option string;
  rp_healthcheck_path : option string;
}.
(** what the revision is the hash of *)
Record RevisionMaterial := {
  rm_ready : uuid * uuid * string * string * instant * instant;     (* provider, instance, extension, version, the two times *)
  rm_implementation : string;
  rm_trust : string;
  rm_contract_version : Z;
  rm_permissions : gset string;
  rm_scope : json;
  rm_endpoint : json;
  rm_config : json;
}.
Class DirectoryOps := {
  endpoint_from_value : json -> option ProviderEndpoint;
  revision_hash : RevisionMaterial -> option string;      (* serde_json, then blake3 *)
}.
Record ProviderRuntimeEndpoint := { re_origin : Url; re_base_path : string; re_health_path : string }.
Record ProviderSnapshot := {
  sn_provider_id : uuid;
  sn_instance_id : uuid;
  sn_extension_id : string;
  sn_extension_version : string;
  sn_implementation : string;
  sn_trust_level : string;
  sn_contract : ProviderContract;
  sn_revision : string;
  sn_actions : gset ProviderOperation;
  sn_permissions : gset string;
  sn_config : json;
  sn_endpoint : ProviderRuntimeEndpoint;
}.
Definition LIVE_CATALOG_READ_PERMISSION : string := "live.catalog.read".
Definition LIVE_STREAM_RESOLVE_PERMISSION : string := "live.stream.resolve".
Definition LIVE_NETWORK_PRIVATE_PERMISSION : string := "live.network.private".
Definition HOST_RUNTIME_NETWORK : string := "elixir_host".
(** the action that stands for an operation, and the permission it takes *)
Definition permits (s : ProviderSnapshot) (o : ProviderOperation) : bool :=
  let holds action permission := bool_decide (action ∈ sn_actions s) && bool_decide (permission ∈ sn_permissions s) in
  match o with
  | PoHealth => true
  | PoCatalogs | PoCatalog => holds PoCatalog LIVE_CATALOG_READ_PERMISSION
  | PoMeta => holds PoMeta LIVE_CATALOG_READ_PERMISSION
  | PoResolve => holds PoResolve LIVE_STREAM_RESOLVE_PERMISSION
  | PoRefresh => holds PoRefresh LIVE_STREAM_RESOLVE_PERMISSION
  end.
Definition permits_private_network (s : ProviderSnapshot) : bool := bool_decide (LIVE_NETWORK_PRIVATE_PERMISSION ∈ sn_permissions s).

(** ** Endpoints *)
Inductive ProviderDirectoryErrorCode := StoreUnavailable | DirectoryNotReady | InvalidSnapshot | DirectoryRevisionChanged.
Fixpoint trim_start_by (p : ascii -> bool) (s : string) : string :=
  match s with String c r => if p c then trim_start_by p r else s | EmptyString => s end.
(** [str::trim_matches] *)
Definition trim_by (p : ascii -> bool) (s : string) : string := String.rev (trim_start_by p (String.rev (trim_start_by p s))).
Definition bracket (c : ascii) : bool := Ascii.eqb c "[" || Ascii.eqb c "]".
Definition forbidden_runtime_host (host : string) : bool :=
  let normalized := to_lower (trim_end_char "." (trim_by bracket host)) in
  existsb (String.eqb normalized) ["localhost"; "host.docker.internal"; "host.containers.internal"; "gateway.docker.internal"]
  || ends_with ".localhost" normalized
  || is_some_and (fun a => is_loopback a || (ip_value a =? 0)%Z) (parse_ip normalized).
Definition is_host_runtime_endpoint (e : ProviderEndpoint) : bool :=
  bool_decide (pe_network e = Some HOST_RUNTIME_NETWORK) && is_some_and is_loopback (parse_ip (trim_by bracket (pe_host e))).
Definition path_refused (value : string) : bool :=
  str_empty value || (256 <? slen value)%Z || negb (starts_with "/" value) || any_control value
  || contains_any ["?"; "#"; "\"]%char value
  || existsb (fun encoded => contains_sub encoded (to_lower value)) ["%00"; "%2e"; "%2f"; "%5c"]
  || existsb (fun segment => String.eqb segment "." || String.eqb segment "..") (split_char "/" value).
Definition normalize_path (value : string) : result ProviderDirectoryErrorCode string :=
  _ ← reject_if (path_refused value) InvalidSnapshot;
  Ok (if String.eqb value "/" then "/" else trim_end_char "/" value).
Definition join_paths (base suffix : string) : string :=
  if String.eqb base "/" then suffix else trim_end_char "/" base +:+ suffix.
Definition operation_url_path (e : ProviderRuntimeEndpoint) (o : ProviderOperation) : string :=
  join_paths (re_base_path e) (if bool_decide (o = PoHealth) then re_health_path e else operation_path o).

Section directory.
Context `{UO : UrlOps} `{PT : PortText} `{CO : ConfigOps} `{DO : DirectoryOps}.
Definition host_byte_refused (c : ascii) : bool := ascii_whitespace c || existsb (Ascii.eqb c) ["/"; "\"; "@"; "?"; "#"]%char.
Definition validate_runtime_endpoint (e : ProviderEndpoint) (health_path : string) (allow_loopback : bool)
    : result ProviderDirectoryErrorCode ProviderRuntimeEndpoint :=
  _ ← reject_if (negb (is_http (pe_scheme e)) || str_empty (pe_host e) || (253 <? slen (pe_host e))%Z || any_control (pe_host e)
                 || any_byte host_byte_refused (pe_host e)) InvalidSnapshot;
  _ ← reject_if (negb allow_loopback && negb (is_host_runtime_endpoint e) && forbidden_runtime_host (pe_host e)) InvalidSnapshot;
  base_path ← normalize_path (pe_base_path e);
  health_path ← normalize_path health_path;
  origin ← ok_or (Url_parse (authority_url (pe_scheme e) (pe_host e) (pe_port e))) InvalidSnapshot;
  _ ← reject_if (has_userinfo origin || is_none_b (u_host origin)) InvalidSnapshot;
  Ok {| re_origin := origin; re_base_path := base_path; re_health_path := health_path |}.
Definition read_action (action : string) : result ProviderDirectoryErrorCode ProviderOperation :=
  if String.eqb action "catalog" then Ok PoCatalog
  else if String.eqb action "meta" then Ok PoMeta
  else if String.eqb action "resolve" then Ok PoResolve
  else if String.eqb action "refresh" then Ok PoRefresh
  else Err InvalidSnapshot.
Definition read_item_type (value : string) : result ProviderDirectoryErrorCode LiveItemType :=
  if String.eqb value "event" then Ok ItemEvent else if String.eqb value "channel" then Ok ItemChannel else Err InvalidSnapshot.
Definition read_protocol (value : string) : result ProviderDirectoryErrorCode StreamProtocol :=
  if String.eqb value "hls" then Ok Hls
  else if String.eqb value "dash" then Ok Dash
  else if String.eqb value "http_progressive" then Ok HttpProgressive
  else if String.eqb value "mpeg_ts" then Ok MpegTs
  else if String.eqb value "rtmp" then Ok Rtmp
  else if String.eqb value "srt" then Ok Srt
  else Err InvalidSnapshot.
(** [.map(f).collect::<Result<Vec<_>, _>>()] *)
Fixpoint collect_all {A B} (f : A -> result ProviderDirectoryErrorCode B) (l : list A) : result ProviderDirectoryErrorCode (list B) :=
  match l with [] => Ok [] | x :: l => y ← f x; ys ← collect_all f l; Ok (y :: ys) end.
(** the configuration without its key "runtime" *)
Definition without_runtime (config : option json) : json :=
  match config with
  | None => JObject []
  | Some (JObject fields) => JObject (List.filter (fun kv => negb (String.eqb kv.1 "runtime")) fields)
  | Some v => v
  end.
Definition endpoint_declared (ready : ReadyLiveCatalogProvider) (e : ProviderEndpoint) (scheme : string) (port : Z) (base_path : string)
    : result ProviderDirectoryErrorCode unit :=
  _ ← reject_if (negb (String.eqb (pe_scheme e) scheme) || (negb (is_host_runtime_endpoint e) && negb (pe_port e =? port)%Z)) InvalidSnapshot;
  ours ← normalize_path (pe_base_path e);
  declared ← normalize_path base_path;
  reject_if (negb (String.eqb ours declared)) InvalidSnapshot.
Definition snapshot_from_ready (ready : ReadyLiveCatalogProvider) (allow_loopback : bool)
    : result ProviderDirectoryErrorCode ProviderSnapshot :=
  implementation ← ok_or (rp_implementation ready) InvalidSnapshot;
  endpoint_value ← ok_or (rp_endpoint_json ready) InvalidSnapshot;
  persisted ← ok_or (endpoint_from_value endpoint_value) InvalidSnapshot;
  declared_scheme ← ok_or (rp_endpoint_scheme ready) InvalidSnapshot;
  declared_port ← ok_or (rp_endpoint_port ready) InvalidSnapshot;
  declared_base_path ← ok_or (rp_endpoint_base_path ready) InvalidSnapshot;
  _ ← endpoint_declared ready persisted declared_scheme declared_port declared_base_path;
  health_path ← ok_or (rp_healthcheck_path ready) InvalidSnapshot;
  endpoint ← validate_runtime_endpoint persisted health_path allow_loopback;
  actions ← unique_map read_action id InvalidSnapshot (∅ : gset ProviderOperation) (rp_scope_actions ready);
  let actions : gset ProviderOperation := list_to_set actions in
  _ ← reject_if (negb (bool_decide ({[PoCatalog; PoMeta; PoResolve]} ⊆ actions))) InvalidSnapshot;
  item_types ← collect_all read_item_type (rp_scope_item_types ready);
  protocols ← collect_all read_protocol (rp_scope_protocols ready);
  contract ← map_err (fun _ => InvalidSnapshot) (ProviderContract_new item_types protocols);
  let permissions : gset string := list_to_set (rp_permissions ready) in
  _ ← reject_if (negb (bool_decide ({[LIVE_CATALOG_READ_PERMISSION; LIVE_STREAM_RESOLVE_PERMISSION]} ⊆ permissions))) InvalidSnapshot;
  let config := without_runtime (rp_instance_config ready) in
  _ ← map_err (fun _ => InvalidSnapshot) (validate_provider_config config);
  revision ← ok_or (revision_hash {|
    rm_ready := (rp_provider_id ready, rp_instance_id ready, rp_extension_id ready, rp_extension_version ready,
                 rp_extension_installed_at ready, rp_instance_updated_at ready);
    rm_implementation := implementation; rm_trust := rp_trust_level ready; rm_contract_version := rp_contract_version ready;
    rm_permissions := permissions; rm_scope := rp_scope_json ready; rm_endpoint := endpoint_value; rm_config := config |}) InvalidSnapshot;
  Ok {| sn_provider_id := rp_provider_id ready; sn_instance_id := rp_instance_id ready; sn_extension_id := rp_extension_id ready;
        sn_extension_version := rp_extension_version ready; sn_implementation := implementation; sn_trust_level := rp_trust_level ready;
        sn_contract := contract; sn_revision := revision; sn_actions := actions; sn_permissions := permissions; sn_config := config;
        sn_endpoint := endpoint |}.

(** ** The directory, over what the store answers: [None] when it fails *)
Record StoreAnswers := {
  st_list_ready : option (list ReadyLiveCatalogProvider);
  st_get_ready : uuid -> option (option ReadyLiveCatalogProvider);
}.
Definition discover (allow_loopback : bool) (store : StoreAnswers) : result ProviderDirectoryErrorCode (list ProviderSnapshot) :=
  ready ← ok_or (st_list_ready store) StoreUnavailable;
  Ok (omap (M:=list) (fun provider => to_option (snapshot_from_ready provider allow_loopback)) ready).
Definition get_provider (allow_loopback : bool) (store : StoreAnswers) (provider_id : uuid)
    : result ProviderDirectoryErrorCode ProviderSnapshot :=
  ready ← ok_or (st_get_ready store provider_id) StoreUnavailable;
  ready ← ok_or ready DirectoryNotReady;
  snapshot_from_ready ready allow_loopback.
Definition verify (allow_loopback : bool) (store : StoreAnswers) (snapshot : ProviderSnapshot) : result ProviderDirectoryErrorCode unit :=
  current ← get_provider allow_loopback store (sn_provider_id snapshot);
  reject_if (negb (String.eqb (sn_revision current) (sn_revision snapshot))) DirectoryRevisionChanged.
End directory.

(** ** What a snapshot satisfies *)
(** a path below which nothing climbs, without slashes at its end *)
Record path_obeys (p : string) : Prop := {
  po_rooted : p = "" \/ starts_with "/" p = true;
  po_segments segment : segment ∈ split_char "/" p -> segment <> "." /\ segment <> "..";
  po_tail : p = "/" \/ ends_with "/" p = false;
}.
Fixpoint repeat_char (n : nat) (c : ascii) : string := match n with 0 => "" | S n => String c (repeat_char n c) end.
Lemma repeat_char_snoc n c : repeat_char n c +:+ String c "" = String c (repeat_char n c).
Proof. induction n as [|n IH]; cbn [repeat_char]; [by rewrite str_app_nil_l|]. by rewrite str_app_cons, IH. Qed.
Lemma rev_repeat_char n c : String.rev (repeat_char n c) = repeat_char n c.
Proof. induction n as [|n IH]; cbn [repeat_char]; [done|]. by rewrite str_rev_cons, IH, repeat_char_snoc. Qed.
Lemma trim_start_char_spec c s : exists n, s = repeat_char n c +:+ trim_start_char c s.
Proof.
  induction s as [|a s (n & Hs)]; [by exists 0|]. cbn [trim_start_char]. destruct (Ascii.eqb_spec a c) as [->|Ha].
  - exists (S n). cbn [repeat_char]. by rewrite str_app_cons, <- Hs.
  - by exists 0.
Qed.
Lemma trim_end_char_spec c s : exists n, s = trim_end_char c s +:+ repeat_char n c.
Proof.
  destruct (trim_start_char_spec c (String.rev s)) as [n Hn]. exists n. unfold trim_end_char.
  rewrite <- (str_rev_involutive s) at 1. rewrite Hn at 1. by rewrite str_rev_app, rev_repeat_char.
Qed.
Lemma trim_end_char_tail s : ends_with "/" (trim_end_char "/" s) = false.
Proof.
  unfold ends_with, trim_end_char. rewrite str_rev_involutive. pose proof (trim_start_char_head "/" (String.rev s)) as Hh.
  destruct (trim_start_char "/" (String.rev s)) as [|a r]; [done|]. change (String.rev "/") with "/". cbn [String.prefix].
  destruct (ascii_dec "/" a) as [<-|]; [by destruct (Hh r)|done].
Qed.
Lemma split_char_app_sep c s r : split_char c (s +:+ String c r) = split_char c s ++ split_char c r.
Proof.
  induction s as [|a s IH]; [rewrite str_app_nil_l; cbn; by rewrite Ascii.eqb_refl|]. rewrite str_app_cons. cbn [split_char].
  destruct (Ascii.eqb a c); [by rewrite IH|]. rewrite IH. pose proof (split_char_nonempty c s). by destruct (split_char c s).
Qed.
Lemma trimmed_segments s segment : segment ∈ split_char "/" (trim_end_char "/" s) -> segment ∈ split_char "/" s.
Proof.
  destruct (trim_end_char_spec "/" s) as [[|n] Hn]; rewrite Hn at 2; cbn [repeat_char].
  - by rewrite str_app_nil_r.
  - rewrite split_char_app_sep. intros Hs. apply elem_of_app. by left.
Qed.
Lemma normalize_path_ok p q : normalize_path p = Ok q -> path_obeys q.
Proof.
  unfold normalize_path, path_refused. intros Hn. ok_inv. bool_hyps.
  assert (forall segment, segment ∈ split_char "/" p -> segment <> "." /\ segment <> "..") as Hsegments.
  { match goal with H : existsb _ (split_char _ _) = false |- _ => rename H into He end. intros segment Hs.
    assert (String.eqb segment "." || String.eqb segment ".." = false) as Hd.
    { apply not_true_is_false. intros Ht. apply (eq_true_false_abs _ (proj2 (existsb_exists _ _) (ex_intro _ segment (conj (proj1 (list_elem_of_In _ _) Hs) Ht))) He). }
    bool_hyps. split; by apply String.eqb_neq. }
  destruct (String.eqb_spec p "/") as [->|Hne]; [split; [by right|done|by left]|]. split.
  - match goal with H : starts_with "/" p = true |- _ => rename H into Hroot end. destruct (trim_end_char_spec "/" p) as [n Hn'].
    destruct (trim_end_char "/" p) as [|c r] eqn:Ht; [by left|right]. rewrite Hn', str_app_cons in Hroot.
    unfold starts_with in *. cbn [String.prefix] in *. destruct (ascii_dec "/" c); [by destruct r|done].
  - intros segment Hs. by apply Hsegments, trimmed_segments.
  - right. apply trim_end_char_tail.
Qed.
(** what the endpoint of a snapshot is *)
Section snapshots.
Context `{UO : UrlOps} `{PT : PortText} `{CO : ConfigOps} `{DO : DirectoryOps}.
Record endpoint_obeys (e : ProviderEndpoint) (r : ProviderRuntimeEndpoint) : Prop := {
  eo_scheme : is_http (pe_scheme e) = true;
  eo_host : is_host_runtime_endpoint e = true \/ forbidden_runtime_host (pe_host e) = false;
  eo_origin : Url_parse (authority_url (pe_scheme e) (pe_host e) (pe_port e)) = Some (re_origin r) /\
    has_userinfo (re_origin r) = false /\ is_Some (u_host (re_origin r));
  eo_paths : path_obeys (re_base_path r) /\ path_obeys (re_health_path r);
}.
Lemma validate_runtime_endpoint_ok e health r : validate_runtime_endpoint e health false = Ok r -> endpoint_obeys e r.
Proof.
  unfold validate_runtime_endpoint. intros Hv. ok_inv. bool_hyps. cbn [negb andb] in *. split; cbn [re_origin re_base_path re_health_path]; [done| | |].
  - match goal with H : _ && forbidden_runtime_host _ = false |- _ => apply andb_false_iff in H as [H|H]; bool_hyps; auto end.
  - split_and!; [done|done|]. destruct (u_host _); [eauto|done].
  - split; by eapply normalize_path_ok.
Qed.
(** a provider as it may be asked *)
Record snapshot_obeys (ready : ReadyLiveCatalogProvider) (s : ProviderSnapshot) : Prop := {
  sb_ids : sn_provider_id s = rp_provider_id ready /\ sn_instance_id s = rp_instance_id ready;
  sb_actions : {[PoCatalog; PoMeta; PoResolve]} ⊆ sn_actions s;
  sb_permissions : {[LIVE_CATALOG_READ_PERMISSION; LIVE_STREAM_RESOLVE_PERMISSION]} ⊆ sn_permissions s /\
    sn_permissions s = list_to_set (rp_permissions ready);
  sb_contract : pc_item_types (sn_contract s) <> ∅ /\ pc_protocols (sn_contract s) <> ∅;
  sb_config : config_safe 0 (sn_config s) /\ json_get "runtime" (sn_config s) = None;
  sb_endpoint : exists e value, rp_endpoint_json ready = Some value /\ endpoint_from_value value = Some e /\
    rp_endpoint_scheme ready = Some (pe_scheme e) /\
    (is_host_runtime_endpoint e = true \/ rp_endpoint_port ready = Some (pe_port e)) /\ endpoint_obeys e (sn_endpoint s);
}.
Lemma without_runtime_ok config : json_get "runtime" (without_runtime config) = None.
Proof.
  destruct config as [[]|]; try done. cbn. destruct (List.find _ _) as [kv|] eqn:Hf; [|done].
  apply find_some in Hf as [Hin Hk]. apply filter_In in Hin as [_ Hin]. by rewrite Hk in Hin.
Qed.
Lemma endpoint_declared_ok ready e scheme port base x : endpoint_declared ready e scheme port base = Ok x ->
  scheme = pe_scheme e /\ (is_host_runtime_endpoint e = true \/ port = pe_port e).
Proof.
  unfold endpoint_declared. intros Hd. ok_inv. bool_hyps. split.
  - match goal with H : String.eqb (pe_scheme e) _ = true |- _ => by apply String.eqb_eq in H end.
  - match goal with H : _ && _ = false |- _ => apply andb_false_iff in H as [H|H]; bool_hyps; auto end.
Qed.
Lemma config_ok config x : validate_provider_config config = Ok x -> config_safe 0 config.
Proof.
  unfold validate_provider_config. intros Hv. ok_inv.
  match goal with H : validate_config_value _ _ _ = Ok _ |- _ => apply validate_config_value_exact in H as (? & _); [done|unfold MAX_PROVIDER_CONFIG_NODES; lia] end.
Qed.
Lemma map_err_ok {E F A} (f : E -> F) (r : result E A) x : map_err f r = Ok x <-> r = Ok x.
Proof. destruct r; cbn; naive_solver. Qed.
Lemma snapshot_from_ready_ok ready s : snapshot_from_ready ready false = Ok s -> snapshot_obeys ready s.
Proof.
  unfold snapshot_from_ready. intros Hs. ok_inv. bool_hyps. repeat match goal with H : map_err _ _ = Ok _ |- _ => apply map_err_ok in H end.
  split; cbn [sn_provider_id sn_instance_id sn_actions sn_permissions sn_contract sn_config sn_endpoint]; try done.
  - match goal with H : ProviderContract_new _ _ = Ok _ |- _ => unfold ProviderContract_new in H; ok_inv; bool_hyps; done end.
  - split; [by eapply config_ok|apply without_runtime_ok].
  - match goal with H : endpoint_declared _ _ _ _ _ = Ok _ |- _ => apply endpoint_declared_ok in H as [-> Hport] end.
    eexists _, _. split_and!; [done|done|done| |by eapply validate_runtime_endpoint_ok].
    destruct Hport as [?| ->]; [by left|by right].
Qed.
End snapshots.

(** A discovered provider is fit to be asked.  Whatever the extension store answers, the providers of a discovery are its
    answers that make a snapshot, in order, and each snapshot declares catalogs, metadata and resolution with the
    permissions they take, at least one item type and one protocol; its configuration is safe and holds no runtime section;
    and it is reached over http where it was declared, at no loopback name or address unless it runs on the host network, and
    below paths that do not climb. *)
Theorem discovered_providers_are_sound `{UrlOps, PortText, ConfigOps, DirectoryOps} store providers :
  discover false store = Ok providers ->
  exists ready, st_list_ready store = Some ready /\
    providers = omap (M:=list) (fun r => to_option (snapshot_from_ready r false)) ready /\
    forall s, s ∈ providers -> exists r, r ∈ ready /\ snapshot_obeys r s.
Proof.
  unfold discover. intros Hd. ok_inv. eexists. split_and!; [done|done|]. intros s (r & Hr & Hs)%list_elem_of_omap.
  exists r. split; [done|]. destruct (snapshot_from_ready r false) eqn:Hok; [|done]. injection Hs as ->. by apply snapshot_from_ready_ok.
Qed.
