(* ===== verification/ProviderClient.v ===== *)
(** * The client of providers (src/src/live/provider/client.rs)

    A call is checked, sent to the provider of a snapshot that is still current, and its answer is read and parsed within
    bounds.  What the store answers at each reading, what the HTTP client brings back and when the call is cut short are the
    environment of a call. *)
From S2P Require Import Prelude Bytes Addresses LiveContract CanonicalJson Crypto Vault SessionStore Planner UpstreamPolicy CookieJar.
From S2P Require Import UpstreamCredentials CatalogCircuit CatalogCache CatalogGrants CatalogCoalescer ProviderCalls CatalogService.
From S2P Require Import ProviderJson ProviderContract ProviderConfig ContractSafety ProviderDirectory.
#[local] Set Warnings "-register-all".

Definition MAX_PROVIDER_REQUEST_BYTES : Z := 1024 * 1024.
Inductive ProviderClientBuildError := InvalidLimits | HttpClient.
Record LiveProviderLimits := {
  lp_request_timeout_seconds : Z;
  lp_hard_timeout_seconds : Z;
  lp_response_bytes : Z;
  lp_concurrency_per_provider : Z;
  lp_concurrency_per_user : Z;
}.
Definition within_limits (lo hi n : Z) : bool := ((lo <=? n) && (n <=? hi))%Z.
(** the limits of a client: the length of a response and the permits of its two registries *)
Record LiveProviderClient := { lc_response_limit : Z; lc_provider_permits : Z; lc_user_permits : Z }.
Definition LiveProviderClient_new (limits : LiveProviderLimits) (http_built : bool) : result ProviderClientBuildError LiveProviderClient :=
  _ ← reject_if (negb (within_limits 1 60 (lp_request_timeout_seconds limits)
      && within_limits (lp_request_timeout_seconds limits) 120 (lp_hard_timeout_seconds limits)
      && within_limits 1024 (16 * 1024 * 1024) (lp_response_bytes limits)
      && within_limits 1 64 (lp_concurrency_per_provider limits) && within_limits 1 256 (lp_concurrency_per_user limits))) InvalidLimits;
  _ ← reject_if (negb http_built) HttpClient;
  Ok {| lc_response_limit := Z.min (lp_response_bytes limits) MAX_PROVIDER_RESPONSE_BYTES;
        lc_provider_permits := lp_concurrency_per_provider limits; lc_user_permits := lp_concurrency_per_user limits |}.

(** ** Responses *)
(** an error of reqwest, by what [map_transport_error] asks of it *)
Record TransportError := { te_timeout : bool; te_redirect : bool }.
Definition map_transport_error (e : TransportError) : ProviderInvocationError :=
  if te_timeout e then RequestTimeout else if te_redirect e then RedirectRejected else Transport.
Record Response := {
  rs_status : Z;
  rs_content_type : option string;          (* the header, when it is text *)
  rs_content_length : option Z;
  rs_chunks : list (result TransportError string);     (* what [chunk] gives, one after the other *)
}.
Definition first_part (value : string) : string := default "" (head (split_char ";" value)).
Definition validate_content_type (r : Response) : result ProviderInvocationError unit :=
  reject_if (negb (is_some_and (fun value => String.eqb (to_lower (trim (first_part value))) "application/json") (rs_content_type r)))
    InvalidContentType.
Fixpoint read_chunks (limit : Z) (body : string) (chunks : list (result TransportError string)) : result ProviderInvocationError string :=
  match chunks with
  | [] => Ok body
  | Err e :: _ => Err (map_transport_error e)
  | Ok chunk :: chunks =>
      _ ← reject_if (Z.max (limit - slen body) 0 <? slen chunk)%Z ResponseTooLarge;
      read_chunks limit (body +:+ chunk) chunks
  end.
Definition read_bounded_body (r : Response) (limit : Z) : result ProviderInvocationError string :=
  _ ← reject_if (is_some_and (fun length => limit <? length)%Z (rs_content_length r)) ResponseTooLarge;
  read_chunks limit "" (rs_chunks r).
Definition map_directory_error (e : ProviderDirectoryErrorCode) : ProviderInvocationError :=
  match e with
  | DirectoryRevisionChanged => RevisionChanged
  | DirectoryNotReady | StoreUnavailable | InvalidSnapshot => NotReady
  end.

(** ** Calls *)
(** the request that is sent: a GET without a body, a POST of JSON with one *)
Record SentRequest := { sr_origin : Url; sr_path : string; sr_body : option string }.
Record ClientEnv := {
  ce_store_before : StoreAnswers;
  ce_store_after : StoreAnswers;
  ce_send : SentRequest -> result TransportError Response;
  ce_cut_short : option ProviderInvocationError;      (* [Cancelled] or [HardTimeout], when either comes first *)
}.
Section client.
Context `{TT : TimeText} `{PT : PortText} `{UO : UrlOps} `{HO : HeaderOps} `{JR : JsonReader} `{WR : WireReaders}.
Context `{CO : ConfigOps} `{DO : DirectoryOps}.
Variable client : LiveProviderClient.
(** the scan of the redactor finds nothing *)
Variable clean : string -> bool.
Definition is_redirection (status : Z) : bool := ((300 <=? status) && (status <? 400))%Z.
Definition call_inner (env : ClientEnv) (provider : ProviderSnapshot) (operation : ProviderOperation) (body : option string)
    : result ProviderInvocationError string :=
  _ ← map_err map_directory_error (verify false (ce_store_before env) provider);
  let request := {| sr_origin := re_origin (sn_endpoint provider); sr_path := operation_url_path (sn_endpoint provider) operation; sr_body := body |} in
  response ← map_err map_transport_error (ce_send env request);
  _ ← reject_if (is_redirection (rs_status response)) RedirectRejected;
  _ ← validate_content_type response;
  body ← read_bounded_body response (lc_response_limit client);
  _ ← map_err map_directory_error (verify false (ce_store_after env) provider);
  if (rs_status response =? 200)%Z then Ok body
  else
    failure ← map_err CallContract (parse_provider_failure body clean);
    Err (CallProvider failure).
Definition bounded_call (env : ClientEnv) (provider : ProviderSnapshot) (operation : ProviderOperation) (body : option string)
    : result ProviderInvocationError string :=
  match ce_cut_short env with Some e => Err e | None => call_inner env provider operation body end.
(** [envelope]: the text of the request envelope, when serde_json can write it *)
Definition invoke (env : ClientEnv) (provider : ProviderSnapshot) (context : ProviderRequestContext) (operation : ProviderOperation)
    (validated : result ContractErrorCode unit) (envelope : option string) : result ProviderInvocationError string :=
  _ ← map_err CallInvalidRequest (_ ← context_validate context; validated);
  _ ← reject_if (negb (permits provider operation)) UnsupportedOperation;
  body ← ok_or envelope (CallInvalidRequest InvalidShape);
  _ ← reject_if (MAX_PROVIDER_REQUEST_BYTES <? slen body)%Z (CallInvalidRequest LimitExceeded);
  bounded_call env provider operation (Some body).
Definition health (env : ClientEnv) (provider : ProviderSnapshot) : result ProviderInvocationError ProviderHealth :=
  body ← bounded_call env provider PoHealth None;
  map_err CallContract (parse_health_response body).
Definition catalogs (env : ClientEnv) (provider : ProviderSnapshot) (context : ProviderRequestContext) (envelope : option string)
    : result ProviderInvocationError CatalogSet :=
  body ← invoke env provider context PoCatalogs (Ok ()) envelope;
  map_err CallContract (parse_catalogs_response body (sn_contract provider)).
Definition catalog (env : ClientEnv) (provider : ProviderSnapshot) (context : ProviderRequestContext) (request : CatalogPageRequest)
    (envelope : option string) : result ProviderInvocationError CatalogPage :=
  body ← invoke env provider context PoCatalog (CatalogPageRequest_validate request) envelope;
  map_err CallContract (parse_catalog_page_response body (sn_contract provider)).
Definition meta (env : ClientEnv) (provider : ProviderSnapshot) (context : ProviderRequestContext) (request : MetaRequest)
    (envelope : option string) : result ProviderInvocationError ItemMetadata :=
  body ← invoke env provider context PoMeta (MetaRequest_validate request) envelope;
  map_err CallContract (parse_meta_response body (sn_contract provider) (mr_item_id request)).
Definition resolve (env : ClientEnv) (provider : ProviderSnapshot) (context : ProviderRequestContext) (request : ResolveRequest)
    (envelope : option string) : result ProviderInvocationError ResolvedSources :=
  body ← invoke env provider context PoResolve (ResolveRequest_validate request) envelope;
  map_err CallContract (parse_resolve_response body (sn_contract provider) (rr_stream_id request) (rc_now context)).
Definition refresh (env : ClientEnv) (provider : ProviderSnapshot) (context : ProviderRequestContext) (request : RefreshRequest)
    (envelope : option string) : result ProviderInvocationError ResolvedSources :=
  body ← invoke env provider context PoRefresh (RefreshRequest_validate request) envelope;
  map_err CallContract (parse_refresh_response body (sn_contract provider) (rc_now context)).
End client.

(** ** Bodies *)
Definition concat_chunks (l : list string) : string := foldr String.append "" l.
Lemma read_chunks_exact limit body chunks out : (slen body <= limit)%Z ->
  read_chunks limit body chunks = Ok out <->
  exists texts, chunks = Ok <$> texts /\ out = body +:+ concat_chunks texts /\ (slen out <= limit)%Z.
Proof.
  revert body. induction chunks as [|[chunk|e] chunks IH]; intros body Hb; cbn [read_chunks].
  - split; [intros [= <-]; exists []; cbn; rewrite str_app_nil_r; done|]. intros ([|? ?] & [= ] & -> & _). cbn. by rewrite str_app_nil_r.
  - pose proof (slen_nonneg chunk) as Hc. destruct (Z.ltb_spec (Z.max (limit - slen body) 0) (slen chunk)) as [Hlarge|Hfits]; cbn.
    + split; [done|]. intros ([|text texts] & [= <- ->] & -> & Hl). rewrite slen_app in Hl. cbn in Hl. rewrite slen_app in Hl.
      pose proof (slen_nonneg (concat_chunks texts)). unfold concat_chunks in *. lia.
    + rewrite IH by (rewrite slen_app; lia). split.
      * intros (texts & -> & -> & Hl). exists (chunk :: texts). rewrite str_app_assoc in *. split_and!; [by rewrite fmap_cons|done|done].
      * intros ([|text texts] & [= <- ->] & -> & Hl). exists texts. rewrite str_app_assoc. done.
  - split; [done|]. by intros ([|? ?] & [= ] & _).
Qed.

Lemma read_bounded_body_exact r limit out : (0 <= limit)%Z ->
  read_bounded_body r limit = Ok out <->
  is_none_or (fun length => length <=? limit)%Z (rs_content_length r) = true /\
  exists texts, rs_chunks r = Ok <$> texts /\ out = concat_chunks texts /\ (slen out <= limit)%Z.
Proof.
  intros Hl. unfold read_bounded_body.
  assert (is_some_and (fun length => limit <? length)%Z (rs_content_length r) = false <->
    is_none_or (fun length => length <=? limit)%Z (rs_content_length r) = true) as Hlen.
  { destruct (rs_content_length r) as [n|]; cbn; [|done]. by rewrite Z.ltb_ge, Z.leb_le. }
  rewrite <- Hlen, result_bind_ok. setoid_rewrite reject_if_ok. setoid_rewrite (read_chunks_exact limit "" (rs_chunks r) out Hl).
  setoid_rewrite str_app_nil_l. split; [by intros (_ & ? & ?)|intros [? ?]; by exists ()].
Qed.

(** ** What an answer came through *)
Section vetted.
Context `{TT : TimeText} `{PT : PortText} `{UO : UrlOps} `{HO : HeaderOps} `{JR : JsonReader} `{WR : WireReaders}.
Context `{CO : ConfigOps} `{DO : DirectoryOps}.
Variable client : LiveProviderClient.
Variable clean : string -> bool.
Hypothesis limit_pos : (0 <= lc_response_limit client)%Z.
(** the store has a ready provider of the snapshot's id and revision *)
Definition current (store : StoreAnswers) (s : ProviderSnapshot) : Prop :=
  exists ready now_current, st_get_ready store (sn_provider_id s) = Some (Some ready) /\
    snapshot_from_ready ready false = Ok now_current /\ sn_revision now_current = sn_revision s.
(** what was sent and what came back *)
Record exchanged (env : ClientEnv) (s : ProviderSnapshot) (operation : ProviderOperation) (sent : option string) (r : Response)
    (body : string) : Prop := {
  ex_current : current (ce_store_before env) s /\ current (ce_store_after env) s;
  ex_sent : ce_send env {| sr_origin := re_origin (sn_endpoint s); sr_path := operation_url_path (sn_endpoint s) operation; sr_body := sent |} = Ok r;
  ex_direct : is_redirection (rs_status r) = false;
  ex_json : exists value, rs_content_type r = Some value /\ to_lower (trim (first_part value)) = "application/json";
  ex_body : exists texts, rs_chunks r = Ok <$> texts /\ body = concat_chunks texts /\ (slen body <= lc_response_limit client)%Z;
}.
Lemma verify_current store s x : verify false store s = Ok x -> current store s.
Proof.
  unfold verify, get_provider. intros Hv. ok_inv. bool_hyps. match goal with H : String.eqb _ _ = true |- _ => apply String.eqb_eq in H end.
  subst. eexists _, _. eauto.
Qed.
Lemma call_exchanged env s operation sent out : call_inner client clean env s operation sent = out ->
  match out with
  | Ok body => exists r, exchanged env s operation sent r body /\ rs_status r = 200%Z
  | Err (CallProvider failure) => exists r body, exchanged env s operation sent r body /\ rs_status r <> 200%Z /\
      parse_provider_failure body clean = Ok failure
  | Err _ => True
  end.
Proof.
  unfold call_inner. destruct (verify false (ce_store_before env) s) as [[]|[]] eqn:Hbefore; cbn; intros <-; try done.
  destruct (ce_send env _) as [r|te] eqn:Hsend; cbn; [|by destruct te as [[] []]].
  destruct (is_redirection (rs_status r)) eqn:Hdir; cbn; [done|].
  destruct (validate_content_type r) as [[]|e] eqn:Htype; cbn; [|unfold validate_content_type in Htype; by destruct (negb _); [injection Htype as <-|]].
  destruct (read_bounded_body r (lc_response_limit client)) as [body|e] eqn:Hbody; cbn.
  2: { assert (forall l b e, read_chunks (lc_response_limit client) b l = Err e -> match e with CallProvider _ => False | _ => True end) as Hc.
    { induction l as [|[c|te] l IH]; cbn; intros b e'; [done| |].
      - destruct (_ <? _)%Z; cbn; [by intros [= <-]|apply IH].
      - intros [= <-]. by destruct te as [[] []]. }
    unfold read_bounded_body in Hbody. destruct (is_some_and _ _); cbn in Hbody; [by injection Hbody as <-|]. apply Hc in Hbody. by destruct e. }
  destruct (verify false (ce_store_after env) s) as [[]|[]] eqn:Hafter; cbn; try done.
  assert (exchanged env s operation sent r body) as Hex.
  { split; [split; by eapply verify_current|done|done| |by apply read_bounded_body_exact in Hbody as [_ ?]].
    unfold validate_content_type in Htype. apply reject_if_ok in Htype. bool_hyps. destruct (rs_content_type r) as [value|]; [|done].
    cbn in Htype. exists value. split; [done|by apply String.eqb_eq]. }
  destruct (Z.eqb_spec (rs_status r) 200) as [Hok|Hok]; [by exists r|].
  destruct (parse_provider_failure body clean) as [failure|e] eqn:Hf; cbn; [by exists r, body|done].
Qed.
(** a request that was valid, permitted and small *)
Record requested (s : ProviderSnapshot) (context : ProviderRequestContext) (operation : ProviderOperation) (envelope : option string) : Prop := {
  rq_context : context_validate context = Ok ();
  rq_permitted : permits s operation = true;
  rq_small : exists text, envelope = Some text /\ (slen text <= MAX_PROVIDER_REQUEST_BYTES)%Z;
}.
Lemma invoke_ok env s context operation validated envelope body :
  invoke client clean env s context operation validated envelope = Ok body ->
  requested s context operation envelope /\ validated = Ok () /\ ce_cut_short env = None /\
  exists r, exchanged env s operation envelope r body /\ rs_status r = 200%Z.
Proof.
  unfold invoke, bounded_call. intros Hi. ok_inv. bool_hyps.
  match goal with H : map_err _ _ = Ok _ |- _ => apply map_err_ok in H; ok_inv end.
  destruct (ce_cut_short env) eqn:Hcut; [done|]. apply call_exchanged in Hi as (r & Hex & Hs).
  repeat match goal with H : _ = Ok ?x |- _ => is_var x; destruct x end. subst.
  split_and!; [split; [done|done|by eexists]|done|done|by exists r].
Qed.
End vetted.

Lemma client_limit limits built client : LiveProviderClient_new limits built = Ok client ->
  (0 <= lc_response_limit client <= MAX_PROVIDER_RESPONSE_BYTES)%Z.
Proof. unfold LiveProviderClient_new, within_limits, MAX_PROVIDER_RESPONSE_BYTES. intros Hn. ok_inv. bool_hyps. cbn. lia. Qed.

(** C18: A resolution comes from the provider.  Sources are returned only when the context and the request are valid, the
    snapshot permits the operation, the request fits its limit, the store has a ready provider of the snapshot's id and
    revision before the request is sent and after the answer is read, the answer came from the snapshot's endpoint without a
    redirect, with status 200 and JSON content, and its whole body fits the limit of at most 2 MiB; and then the sources
    are those of the requested stream and obey the contract of the snapshot. *)
Theorem resolution_comes_from_provider
    `{TimeText, PortText, UrlOps, HeaderOps, JsonReader, WireReaders, ConfigOps, DirectoryOps}
    limits built client clean env provider context request envelope sources :
  LiveProviderClient_new limits built = Ok client ->
  resolve client clean env provider context request envelope = Ok sources ->
  requested provider context PoResolve envelope /\ ResolveRequest_validate request = Ok () /\ ce_cut_short env = None /\
  (exists r body, exchanged client env provider PoResolve envelope r body /\ rs_status r = 200%Z /\
     (slen body <= MAX_PROVIDER_RESPONSE_BYTES)%Z) /\
  stream_id (descriptor sources) = rr_stream_id request /\
  Forall (fun s => exists u, source_obeys (sn_contract provider) (rc_now context) s u) (descriptor sources :: alternatives sources).
Proof.
  intros Hc%client_limit Hr. unfold resolve in Hr. ok_inv. apply map_err_ok in Hr. unfold parse_resolve_response in Hr. ok_inv.
  match goal with Hi : invoke _ _ _ _ _ _ _ _ = Ok _ |- _ => apply invoke_ok in Hi as (Hreq & Hv & Hcut & r & Hex & Hs); [|lia] end.
  apply parse_resolved_ok in Hr as (_ & _ & Hid & Hall). split_and!; [done|done|done| |by apply Hid|done].
  eexists r, _. split_and!; [done|done|]. destruct (ex_body _ _ _ _ _ _ _ Hex) as (_ & _ & _ & Hb). lia.
Qed.

(** A reported failure is clean.  A call returns a failure of the provider only when the provider was current throughout and
    answered itself, with another status than 200, and then the message is a short text in which the redactor finds
    nothing, and the time to wait is at most an hour. *)
Theorem reported_failures_are_clean
    `{TimeText, PortText, UrlOps, HeaderOps, JsonReader, WireReaders, ConfigOps, DirectoryOps}
    limits built client clean env provider operation sent failure :
  LiveProviderClient_new limits built = Ok client ->
  call_inner client clean env provider operation sent = Err (CallProvider failure) ->
  (exists r body, exchanged client env provider operation sent r body /\ rs_status r <> 200%Z) /\
  clean (pf_message failure) = true /\ (char_count (pf_message failure) <= 256)%Z /\ any_unsafe_control (pf_message failure) = false /\
  (forall seconds, pf_retry_after_seconds failure = Some seconds -> (1 <= seconds <= 3600)%Z).
Proof.
  intros Hc%client_limit Hr. apply call_exchanged in Hr as (r & body & Hex & Hs & Hf); [|lia].
  unfold parse_provider_failure in Hf. ok_inv. bool_hyps. cbn.
  match goal with H : validate_short_text _ = Ok _ |- _ => unfold validate_short_text in H; apply reject_if_ok in H; bool_hyps end.
  split_and!; [by exists r, body|done|done|done|]. intros seconds Hsec.
  match goal with H : is_some_and _ _ = false |- _ => rewrite Hsec in H; cbn in H; bool_hyps end. lia.
Qed.
