(* ===== verification/ProviderPermits.v ===== *)
(** * The permits of provider calls (src/src/live/provider/client.rs)

    [SemaphoreRegistry]: the calls of one provider, and those of one user, share a semaphore, which the registry refers to
    weakly, so that it is gone with the last call that waits for a permit or holds one.  The registry is behind a mutex;
    the strong count of a semaphore is the number of calls that use it. *)
From S2P Require Import Prelude LiveContract.

Notation SemaphoreId := nat.
Notation Entries := (gmap uuid SemaphoreId).
(** the part under the registry's mutex: the semaphore of the key, or the new one *)
Definition get_semaphore (alive : SemaphoreId -> bool) (new : SemaphoreId) (key : uuid) (entries : Entries) : SemaphoreId * Entries :=
  let entries := filter (fun kv => alive kv.2 = true) entries in
  match entries !! key with
  | Some semaphore => (semaphore, entries)
  | None => (new, <[key := new]> entries)
  end.

(** ** The calls that use permits *)
Record PermitUse := { pu_key : uuid; pu_semaphore : SemaphoreId; pu_holds : bool }.
Record PermitWorld := { pw_entries : Entries; pw_uses : gmap nat PermitUse }.
Definition used (uses : gmap nat PermitUse) (l : SemaphoreId) : bool :=
  existsb (fun kv => (pu_semaphore kv.2 =? l)%nat) (map_to_list uses).
Definition permit_start : PermitWorld := {| pw_entries := ∅; pw_uses := ∅ |}.
(** the calls that hold a permit of a semaphore, and those of a key *)
Definition holders (uses : gmap nat PermitUse) (l : SemaphoreId) : gmap nat PermitUse :=
  filter (fun kv => pu_semaphore kv.2 = l /\ pu_holds kv.2 = true) uses.
Definition running (uses : gmap nat PermitUse) (key : uuid) : gmap nat PermitUse :=
  filter (fun kv => pu_key kv.2 = key /\ pu_holds kv.2 = true) uses.

Section steps.
Variable permits : nat.
(** a call finds its semaphore, gets a permit, or is over (or cut short) and lets go *)
Inductive permit_step : PermitWorld -> PermitWorld -> Prop :=
| permit_enter w call key new semaphore entries :
    pw_uses w !! call = None -> (forall k, pw_entries w !! k <> Some new) -> used (pw_uses w) new = false ->
    get_semaphore (used (pw_uses w)) new key (pw_entries w) = (semaphore, entries) ->
    permit_step w {| pw_entries := entries;
                     pw_uses := <[call := {| pu_key := key; pu_semaphore := semaphore; pu_holds := false |}]> (pw_uses w) |}
| permit_grant w call u :
    pw_uses w !! call = Some u -> pu_holds u = false -> size (holders (pw_uses w) (pu_semaphore u)) < permits ->
    permit_step w {| pw_entries := pw_entries w;
                     pw_uses := <[call := {| pu_key := pu_key u; pu_semaphore := pu_semaphore u; pu_holds := true |}]> (pw_uses w) |}
| permit_leave w call u :
    pw_uses w !! call = Some u -> permit_step w {| pw_entries := pw_entries w; pw_uses := delete call (pw_uses w) |}.

Lemma used_spec uses l : used uses l = true <-> exists c u, uses !! c = Some u /\ pu_semaphore u = l.
Proof.
  unfold used. rewrite existsb_exists. split.
  - intros ([c u] & Hin & He%Nat.eqb_eq). apply list_elem_of_In, elem_of_map_to_list in Hin. by exists c, u.
  - intros (c & u & Hu & He). exists (c, u). split; [|by apply Nat.eqb_eq]. by apply list_elem_of_In, elem_of_map_to_list.
Qed.
Record permit_inv (w : PermitWorld) : Prop := {
  pi_registered c u : pw_uses w !! c = Some u -> pw_entries w !! pu_key u = Some (pu_semaphore u);
  pi_distinct k k' l : pw_entries w !! k = Some l -> pw_entries w !! k' = Some l -> k = k';
  pi_bounded l : size (holders (pw_uses w) l) <= permits;
}.
Lemma get_semaphore_spec w new key semaphore entries : permit_inv w -> (forall k, pw_entries w !! k <> Some new) ->
  get_semaphore (used (pw_uses w)) new key (pw_entries w) = (semaphore, entries) ->
  entries !! key = Some semaphore /\
  (forall c u, pw_uses w !! c = Some u -> entries !! pu_key u = Some (pu_semaphore u)) /\
  (forall k k' l, entries !! k = Some l -> entries !! k' = Some l -> k = k').
Proof.
  intros [Hr Hd _] Hnew. unfold get_semaphore. set (kept := filter _ _).
  assert (forall c u, pw_uses w !! c = Some u -> kept !! pu_key u = Some (pu_semaphore u)) as Hkept.
  { intros c u Hu. apply map_lookup_filter_Some. split; [by eapply Hr|]. cbn. apply used_spec. eauto. }
  assert (forall k l, kept !! k = Some l -> pw_entries w !! k = Some l) as Hsub by (intros k l [? _]%map_lookup_filter_Some; done).
  destruct (kept !! key) as [s|] eqn:Hk; intros [= <- <-].
  - split_and!; [done|done|]. intros k k' l ?%Hsub ?%Hsub. by eapply Hd.
  - split_and!; [by rewrite lookup_insert_eq| |].
    + intros c u Hu. rewrite lookup_insert_ne; [by eapply Hkept|]. intros ->. specialize (Hkept c u Hu). congruence.
    + intros k k' l [[<- <-]|[_ Hl]]%lookup_insert_Some [[<- Heq]|[_ Hl']]%lookup_insert_Some; try done.
      * by apply Hsub, Hnew in Hl'.
      * subst. by apply Hsub, Hnew in Hl.
      * eapply Hd; by apply Hsub.
Qed.
Lemma holders_insert uses c u l : uses !! c = None \/ (exists v, uses !! c = Some v /\ pu_holds v = false) ->
  size (holders (<[c := u]> uses) l) =
  size (holders uses l) + (if bool_decide (pu_semaphore u = l /\ pu_holds u = true) then 1 else 0).
Proof.
  intros Hc. unfold holders. case_bool_decide as Hu.
  - rewrite map_filter_insert_True by done. rewrite map_size_insert_None; [lia|]. apply map_lookup_filter_None. right.
    intros v Hv [_ Hh]. cbn in Hh. destruct Hc as [Hc|(v' & Hc & Hv')]; congruence.
  - rewrite map_filter_insert_False by done. rewrite Nat.add_0_r. f_equal. apply map_eq. intros c'.
    destruct (decide (c = c')) as [<-|Hne].
    + rewrite (map_lookup_filter_None_2 _ _ c); [|left; by rewrite lookup_delete_eq]. symmetry. apply map_lookup_filter_None. right.
      intros v Hv [_ Hh]. cbn in Hh. destruct Hc as [Hc|(v' & Hc & Hv')]; congruence.
    + by rewrite !map_lookup_filter, lookup_delete_ne.
Qed.
Lemma holders_delete uses c l : size (holders (delete c uses) l) <= size (holders uses l).
Proof.
  apply map_subseteq_size. unfold holders. apply map_subseteq_spec. intros c' u [Hu Hh]%map_lookup_filter_Some.
  apply map_lookup_filter_Some. split; [|done]. by apply lookup_delete_Some in Hu as [_ ?].
Qed.
Lemma permit_step_inv w w' : permit_step w w' -> permit_inv w -> permit_inv w'.
Proof.
  intros Hs Hi. destruct Hs as [w call key new semaphore entries Hfree Hnew _ Hg|w call u Hu Hh Hroom|w call u Hu].
  - destruct (get_semaphore_spec _ _ _ _ _ Hi Hnew Hg) as (Hk & Hkept & Hd). split; cbn; [|done|].
    + intros c u [[<- <-]|[_ Hu]]%lookup_insert_Some; [done|by eapply Hkept].
    + intros l. rewrite holders_insert by auto. cbn. rewrite bool_decide_eq_false_2 by (by intros [_ ?]). pose proof (pi_bounded _ Hi l). lia.
  - destruct Hi as [Hr Hd Hb]. split; cbn; [|done|].
    + intros c v [[<- <-]|[_ Hv]]%lookup_insert_Some; cbn; by eapply Hr.
    + intros l. rewrite holders_insert by eauto. cbn. case_bool_decide as Hl; [destruct Hl as [<- _]|specialize (Hb l)]; lia.
  - destruct Hi as [Hr Hd Hb]. split; cbn; [|done|].
    + intros c v [_ Hv]%lookup_delete_Some. by eapply Hr.
    + intros l. pose proof (holders_delete (pw_uses w) call l). specialize (Hb l). lia.
Qed.
Lemma permit_inv_reachable w : rtc permit_step permit_start w -> permit_inv w.
Proof.
  assert (permit_inv permit_start) as H0 by (split; cbn; [intros *; by rewrite lookup_empty..|intros l; unfold holders; rewrite map_filter_empty, map_size_empty; lia]).
  intros Hr. revert H0. induction Hr as [|w0 w1 w2 Hs _ IH]; [done|]. intros Hi. by eapply IH, permit_step_inv.
Qed.
End steps.

(** C19: The calls of a provider are bounded.  However calls arrive, wait, are cut short and end, and whenever the registry forgets
    unused semaphores: at most [permits] calls of one key (a provider, or a user) hold a permit at the same time; calls of
    different keys never share a semaphore; and a call that waits can go on as soon as fewer than [permits] calls of its own
    key hold one. *)
Theorem provider_calls_are_bounded permits w : rtc (permit_step permits) permit_start w ->
  (forall key, size (running (pw_uses w) key) <= permits) /\
  (forall c u c' u', pw_uses w !! c = Some u -> pw_uses w !! c' = Some u' -> pu_key u <> pu_key u' -> pu_semaphore u <> pu_semaphore u') /\
  (forall c u, pw_uses w !! c = Some u -> pu_holds u = false -> size (running (pw_uses w) (pu_key u)) < permits ->
     exists w', permit_step permits w w' /\ (pu_holds <$> pw_uses w' !! c) = Some true).
Proof.
  intros Hi%permit_inv_reachable. destruct Hi as [Hr Hd Hb].
  assert (forall c u, pw_uses w !! c = Some u -> running (pw_uses w) (pu_key u) = holders (pw_uses w) (pu_semaphore u)) as Hsame.
  { intros c u Hu. unfold running, holders. apply map_filter_ext. intros c' u' Hu'. cbn. pose proof (Hr _ _ Hu) as H1. pose proof (Hr _ _ Hu') as H2. split.
    - intros [Hk ?]. split; [congruence|done].
    - intros [Hs ?]. split; [|done]. eapply Hd; [exact H2|]. by rewrite Hs. }
  split_and!.
  - intros key. destruct (decide (running (pw_uses w) key = ∅)) as [->|Hne]; [rewrite map_size_empty; lia|].
    apply map_choose in Hne as (c & u & [Hu [Hk _]]%map_lookup_filter_Some). cbn in Hk. by rewrite <- Hk, (Hsame c u Hu).
  - intros c u c' u' Hu Hu' Hne Heq. apply Hne. eapply Hd; [by eapply Hr|]. rewrite Heq. by eapply Hr.
  - intros c u Hu Hh Hroom. eexists. split; [eapply permit_grant; [done|done|]|cbn; by rewrite lookup_insert_eq].
    by rewrite <- (Hsame c u Hu).
Qed.

(** ** Two calls of one provider, one permit: the second waits *)
Module PermitDemo.
Definition waiting : PermitUse := {| pu_key := 5; pu_semaphore := 7; pu_holds := false |}.
Definition holding : PermitUse := {| pu_key := 5; pu_semaphore := 7; pu_holds := true |}.
Definition entered : PermitWorld := {| pw_entries := {[5%N := 7]}; pw_uses := {[1 := waiting]} |}.
Definition granted : PermitWorld := {| pw_entries := {[5%N := 7]}; pw_uses := <[1 := holding]> {[1 := waiting]} |}.
Definition both : PermitWorld := {| pw_entries := {[5%N := 7]}; pw_uses := <[2 := waiting]> (pw_uses granted) |}.
End PermitDemo.
Import PermitDemo.
Lemma permit_demo_run : rtc (permit_step 1) permit_start both.
Proof.
  eapply rtc_l; [|eapply rtc_l; [|apply rtc_once]].
  - apply (permit_enter _ permit_start 1 5 7 7 {[5%N := 7]}); [done|done|done|vm_compute; reflexivity].
  - apply (permit_grant _ entered 1 waiting); [done|done|vm_compute; lia].
  - apply (permit_enter _ granted 2 5 8 7 {[5%N := 7]}); [done| |done|vm_compute; reflexivity].
    intros k Hk. cbn in Hk. by apply lookup_singleton_Some in Hk as [_ Hk].
Qed.
Lemma provider_calls_are_bounded_witness : size (running (pw_uses both) 5) <= 1 /\ size (running (pw_uses both) 5) = 1.
Proof.
  split; [|vm_compute; reflexivity]. exact (proj1 (provider_calls_are_bounded 1 both permit_demo_run) 5%N).
Defined.
