(* ===== verification/ClientWitness.v ===== *)
(** * A concrete provider

    A provider that is discovered, answers a resolution and reports a failure, over the answers of [ContractWitness]. *)
From stdpp Require Import pretty.
From S2P Require Import Prelude Bytes Addresses LiveContract CanonicalJson Crypto Vault SessionStore Planner UpstreamPolicy CookieJar.
From S2P Require Import UpstreamCredentials CatalogCircuit CatalogCache CatalogGrants CatalogCoalescer ProviderCalls CatalogService.
From S2P Require Import ProviderJson ProviderContract ProviderConfig ContractSafety ContractWitness ProviderDirectory ProviderClient.
#[local] Set Warnings "-register-all".

#[export] Instance config_ops : ConfigOps := {| json_vec_len v := Some (json_nodes v); url_query_keys _ := [] |}.
#[export] Instance directory_ops : DirectoryOps := {|
  endpoint_from_value v :=
    s ← str "scheme" v; h ← str "host" v; p ← field as_int "port" v; b ← str "basePath" v; n ← nullable as_str "network" v;
    Some {| pe_scheme := s; pe_host := h; pe_port := p; pe_base_path := b; pe_network := n |};
  revision_hash m := Some (rm_implementation m) |}.
Definition endpoint_json (host : string) : json :=
  JObject [("scheme", JString "http"); ("host", JString host); ("port", JNumber "8080"); ("basePath", JString "/live/"); ("network", JNull)].
Definition ready (id : uuid) (host : string) (config : option json) : ReadyLiveCatalogProvider := {|
  rp_provider_id := id; rp_instance_id := 9; rp_implementation := Some "sports"; rp_endpoint_json := Some (endpoint_json host);
  rp_scope_json := JNull; rp_extension_id := "ext"; rp_extension_version := "1.0.0"; rp_extension_installed_at := 0;
  rp_instance_updated_at := 0; rp_trust_level := "verified"; rp_contract_version := 1;
  rp_permissions := [LIVE_CATALOG_READ_PERMISSION; LIVE_STREAM_RESOLVE_PERMISSION]; rp_instance_config := config;
  rp_scope_actions := ["catalog"; "meta"; "resolve"]; rp_scope_item_types := ["event"]; rp_scope_protocols := ["hls"];
  rp_endpoint_scheme := Some "http"; rp_endpoint_port := Some 8080%Z; rp_endpoint_base_path := Some "/live";
  rp_healthcheck_path := Some "/health" |}.
Definition region_config : json := JObject [("region", JString "eu"); ("runtime", JObject [("token", JString "t")])].
Definition store : StoreAnswers := {|
  st_list_ready := Some [ready 5 "10.0.0.5" (Some region_config); ready 6 "localhost" None;
                         ready 7 "10.0.0.5" (Some (JObject [("apiToken", JString "t")]))];
  st_get_ready id := if (id =? 5)%N then Some (Some (ready 5 "10.0.0.5" (Some region_config))) else Some None |}.
Definition discovered : list ProviderSnapshot := ok_or_default [] (discover false store).
Lemma discovery : discover false store = Ok discovered.
Proof. vm_compute. reflexivity. Qed.
Lemma discovered_providers_are_sound_witness :
  (sn_provider_id <$> discovered) = [5%N] /\
  (exists ready, st_list_ready store = Some ready /\ discovered = omap (M:=list) (fun r => to_option (snapshot_from_ready r false)) ready).
Proof.
  split; [vm_compute; reflexivity|]. destruct (discovered_providers_are_sound store discovered discovery) as (ready & Hr & Hd & _).
  exists ready. split; assumption.
Defined.

(** ** A resolution *)
Definition no_provider : ProviderSnapshot := {|
  sn_provider_id := 0; sn_instance_id := 0; sn_extension_id := ""; sn_extension_version := ""; sn_implementation := "";
  sn_trust_level := ""; sn_contract := scope; sn_revision := ""; sn_actions := ∅; sn_permissions := ∅; sn_config := JNull;
  sn_endpoint := {| re_origin := web_url "" "" "" None ""; re_base_path := ""; re_health_path := "" |} |}.
Definition provider : ProviderSnapshot := default no_provider (head discovered).
Definition limits : LiveProviderLimits :=
  {| lp_request_timeout_seconds := 10; lp_hard_timeout_seconds := 20; lp_response_bytes := 1048576; lp_concurrency_per_provider := 8;
     lp_concurrency_per_user := 4 |}.
Definition client : LiveProviderClient := {| lc_response_limit := 1048576; lc_provider_permits := 8; lc_user_permits := 4 |}.
Lemma client_built : LiveProviderClient_new limits true = Ok client.
Proof. vm_compute. reflexivity. Qed.
Definition answering (status : Z) (chunks : list string) : ClientEnv := {|
  ce_store_before := store; ce_store_after := store;
  ce_send request :=
    if String.eqb (sr_path request) "/live/v1/live/resolve"
    then Ok {| rs_status := status; rs_content_type := Some "Application/JSON; charset=utf-8"; rs_content_length := None;
               rs_chunks := Ok <$> chunks |}
    else Err {| te_timeout := true; te_redirect := false |};
  ce_cut_short := None |}.
Definition context : ProviderRequestContext := {| rc_locale := "en-GB"; rc_timezone := "Europe/London"; rc_now := now_2026 |}.
Definition request : ResolveRequest := {| rr_item_id := "i1"; rr_stream_id := "s1" |}.
Definition clean (s : string) : bool := negb (contains_sub "://" s).
Lemma resolution : resolve client clean (answering 200 ["res"; "olve"]) provider context request (Some "{}") = Ok resolved.
Proof. vm_compute. reflexivity. Qed.
Definition changed : ClientEnv := {|
  ce_store_before := store; ce_store_after := {| st_list_ready := None; st_get_ready _ := None |};
  ce_send := ce_send (answering 200 ["resolve"]); ce_cut_short := None |}.
Lemma resolution_comes_from_provider_witness :
  stream_id (descriptor resolved) = "s1" /\
  (exists r body, exchanged client (answering 200 ["res"; "olve"]) provider PoResolve (Some "{}") r body /\ rs_status r = 200%Z /\
     (slen body <= MAX_PROVIDER_RESPONSE_BYTES)%Z) /\
  resolve client clean changed provider context request (Some "{}") = Err NotReady.
Proof.
  destruct (resolution_comes_from_provider limits true client clean (answering 200 ["res"; "olve"]) provider context request (Some "{}") resolved
    client_built resolution) as (_ & _ & _ & Hex & Hid & _).
  split_and!; [exact Hid|exact Hex|vm_compute; reflexivity].
Defined.
Definition account_failure : ProviderFailure :=
  {| pf_code := PfAccountRequired; pf_message := "Connect your account"; pf_retryable := false; pf_retry_after_seconds := Some 30%Z |}.
Lemma failing_call : call_inner client clean (answering 409 ["account"]) provider PoResolve (Some "{}") = Err (CallProvider account_failure).
Proof. vm_compute. reflexivity. Qed.
Lemma reported_failures_are_clean_witness :
  (exists r body, exchanged client (answering 409 ["account"]) provider PoResolve (Some "{}") r body /\ rs_status r <> 200%Z) /\
  clean (pf_message account_failure) = true.
Proof.
  destruct (reported_failures_are_clean limits true client clean (answering 409 ["account"]) provider PoResolve (Some "{}") account_failure
    client_built failing_call) as (Hex & Hc & _).
  split; [exact Hex|exact Hc].
Defined.
