(* ===== verification/AdminAudit.v ===== *)
(** * The administrative audit chain (src/src/live/admin/audit.rs, migrations/0056)

    Every administrative change of Live appends a record to the chain of its home, in the transaction of the
    change.  A record is signed together with the hash of the one before it.  The JSON parser and the text of
    timestamps are the parameter [AuditOps]. *)
From S2P Require Import Prelude Bytes LiveContract Crypto SessionStore CatalogGrants CanonicalJson.

Definition AUDIT_DOMAIN : string := "elixir.live.audit.v1".
Definition RETENTION_DAYS : Z := 365.
Definition MAX_ACTOR_BYTES : Z := 4096.
Definition MAX_SNAPSHOT_BYTES : Z := 65536.

Inductive AdminAction :=
| DestinationRuleCreate | DestinationRuleUpdate | DestinationRuleDelete | ProviderDisable | ProviderGrantSet
| ProviderGrantRevoke | SessionTerminate | EnvelopeKeyRotate | AuditKeyRotate | TokenHashKeyRotate
| EgressPolicySet | EgressDirectFallback.
Definition action_str (a : AdminAction) : string :=
  match a with
  | DestinationRuleCreate => "destination_rule_create"
  | DestinationRuleUpdate => "destination_rule_update"
  | DestinationRuleDelete => "destination_rule_delete"
  | ProviderDisable => "provider_disable"
  | ProviderGrantSet => "provider_grant_set"
  | ProviderGrantRevoke => "provider_grant_revoke"
  | SessionTerminate => "session_terminate"
  | EnvelopeKeyRotate => "envelope_key_rotate"
  | AuditKeyRotate => "audit_key_rotate"
  | TokenHashKeyRotate => "token_hash_key_rotate"
  | EgressPolicySet => "egress_policy_set"
  | EgressDirectFallback => "egress_direct_fallback"
  end.
Inductive LiveAuditError :=
| AuditInvalidInput | AuditInvalidKey | AuditInvalidState | AuditRevisionChanged | AuditStorage | AuditSerialization.

Record ActorSnapshot := { as_actor_user_id : uuid; as_display_name : string; as_home_role : HomeRole }.
Definition ActorSnapshot_new (actor_user_id : uuid) (display_name : string) (home_role : HomeRole)
    : result LiveAuditError ActorSnapshot :=
  _ ← reject_if (str_empty (trim display_name) || (256 <? slen display_name)%Z || any_control display_name) AuditInvalidInput;
  Ok {| as_actor_user_id := actor_user_id; as_display_name := display_name; as_home_role := home_role |}.
Definition role_str (r : HomeRole) : string :=
  match r with Owner => "owner" | Admin => "admin" | Manager => "manager" | Viewer => "viewer" end.

Record LiveAuditKey := { ak_key_id : string; ak_material : string }.
Definition LiveAuditKey_new (key_id material : string) : result LiveAuditError LiveAuditKey :=
  _ ← reject_if (str_empty key_id || (32 <? slen key_id)%Z || negb (all_bytes b64url_byte key_id)) AuditInvalidKey;
  Ok {| ak_key_id := key_id; ak_material := material |}.

(** ** Tables: live_admin_audit_chain_heads by home, live_admin_audit_events by id *)
Record HeadRow := { hd_last_record_hash : option string; hd_revision : Z }.
Record AuditRow := {
  ar_home_id : uuid;
  ar_action : string;
  ar_target_type : string;
  ar_target_id : string;
  ar_actor_user_id : uuid;
  ar_actor_snapshot_json : string;
  ar_before_json : option string;
  ar_after_json : option string;
  ar_tombstone_json : option string;
  ar_audit_key_id : string;
  ar_previous_hash : option string;
  ar_record_hash : string;
  ar_occurred_at : instant;
  ar_retain_until : instant;
}.
Record AuditTables := {
  at_heads : gmap uuid HeadRow;
  at_events : gmap uuid AuditRow;
  at_users : gset uuid;
}.
Record AuditReference := {
  ref_audit_id : uuid;
  ref_action : string;
  ref_target_type : string;
  ref_target_id : string;
  ref_actor : ActorSnapshot;
  ref_occurred_at : instant;
  ref_record_hash : string;
}.
Class AuditOps := {
  parse_json : string -> option json;            (* [serde_json::from_str] *)
  millis_text : instant -> string;               (* [to_rfc3339_opts(Millis, true)] *)
  checked_add_days : instant -> Z -> option instant;
}.

(** ** Checks *)
Definition validate_identifier (value : string) (max : Z) : result LiveAuditError unit :=
  reject_if (str_empty (trim value) || (max <? slen value)%Z || any_control value) AuditInvalidInput.
Definition valid_hash (value : string) : bool :=
  (slen value =? 64)%Z && all_bytes (fun b => is_hexdigit b && negb (is_upper b)) value.
(** SQL's [TRIM] removes spaces *)
Definition sql_trim (s : string) : string := trim_end_char " " (trim_start_char " " s).
(** the CHECK constraints, the reference to users, the primary key and the unique pair of home and hash *)
Definition audit_check (t : AuditTables) (id : uuid) (r : AuditRow) : bool :=
  length_between 1 128 (sql_trim (ar_action r))
  && length_between 1 64 (sql_trim (ar_target_type r))
  && length_between 1 512 (sql_trim (ar_target_id r))
  && bool_decide (ar_actor_user_id r ∈ at_users t)
  && length_between 2 4096 (sql_trim (ar_actor_snapshot_json r))
  && forallb (is_none_or (fun j => char_count j <=? 65536)%Z) [ar_before_json r; ar_after_json r; ar_tombstone_json r]
  && length_between 1 32 (ar_audit_key_id r) && all_bytes b64url_byte (ar_audit_key_id r)
  && is_none_or valid_hash (ar_previous_hash r)
  && valid_hash (ar_record_hash r)
  && (ar_occurred_at r <? ar_retain_until r)%Z
  && existsb is_some_b [ar_before_json r; ar_after_json r; ar_tombstone_json r]
  && is_none_b (at_events t !! id)
  && negb (existsb (fun kv : uuid * AuditRow => (ar_home_id kv.2 =? ar_home_id r)%N && String.eqb (ar_record_hash kv.2) (ar_record_hash r))
      (map_to_list (at_events t))).

Section chain.
Context `{CryptoPrims} `{JsonText} `{UuidText} `{AuditOps}.

Definition canonical_json (value : json) : string := write_canonical value.
Definition canonical_optional (value : option json) : result LiveAuditError (option string) :=
  match value with
  | None => Ok None
  | Some value =>
      let encoded := canonical_json value in
      _ ← reject_if (MAX_SNAPSHOT_BYTES <? slen encoded)%Z AuditInvalidInput;
      Ok (Some encoded)
  end.
Definition parse_optional (value : option string) : result LiveAuditError json :=
  match value with
  | None => Ok JNull
  | Some text => ok_or (parse_json text) AuditSerialization
  end.
(** [serde_json::to_value(actor)] *)
Definition actor_value (a : ActorSnapshot) : json :=
  JObject [("actorUserId", JString (uuid_to_string (as_actor_user_id a))); ("displayName", JString (as_display_name a));
           ("homeRole", JString (role_str (as_home_role a)))].

Definition length_prefixed (value : string) : string := be64 (slen value) +:+ value.
Definition signed_text (key_id : string) (previous_hash : option string) (canonical_event : string) : string :=
  AUDIT_DOMAIN +:+ length_prefixed key_id +:+ length_prefixed (default "" previous_hash) +:+ length_prefixed canonical_event.
Definition sign (primary : LiveAuditKey) (previous_hash : option string) (canonical_event : string) : string :=
  hex (hmac (ak_material primary) (signed_text (ak_key_id primary) previous_hash canonical_event)).

(** the JSON event of a record, from its columns *)
Definition event_value (id home_id : uuid) (action target_type target_id : string) (actor_user_id : uuid)
    (occurred_at retain_until : instant) (actor before after tombstone : json) : json :=
  JObject [("action", JString action); ("actorSnapshot", actor); ("actorUserId", JString (uuid_to_string actor_user_id));
           ("after", after); ("auditId", JString (uuid_to_string id)); ("before", before);
           ("homeId", JString (uuid_to_string home_id)); ("occurredAt", JString (millis_text occurred_at));
           ("retainUntil", JString (millis_text retain_until)); ("targetId", JString target_id);
           ("targetType", JString target_type); ("tombstone", tombstone)].
(** INSERT ... ON CONFLICT DO NOTHING *)
Definition ensure_head (home_id : uuid) (t : AuditTables) : AuditTables :=
  match at_heads t !! home_id with
  | Some _ => t
  | None => {| at_heads := <[home_id := {| hd_last_record_hash := None; hd_revision := 0 |}]> (at_heads t);
               at_events := at_events t; at_users := at_users t |}
  end.
Definition set_head (home_id : uuid) (h : HeadRow) (t : AuditTables) : AuditTables :=
  {| at_heads := <[home_id := h]> (at_heads t); at_events := at_events t; at_users := at_users t |}.
Definition insert_event (id : uuid) (r : AuditRow) (t : AuditTables) : result LiveAuditError AuditTables :=
  _ ← reject_if (negb (audit_check t id r)) AuditStorage;
  Ok {| at_heads := at_heads t; at_events := <[id := r]> (at_events t); at_users := at_users t |}.
(** UPDATE ... SET revision = revision + 1 WHERE revision = $3, and the number of rows it changed *)
Definition advance_head (home_id : uuid) (record_hash : string) (head_revision : Z) (t : AuditTables)
    : result LiveAuditError (Z * AuditTables) :=
  match at_heads t !! home_id with
  | Some h =>
      if (hd_revision h =? head_revision)%Z then
        revision ← map_err (fun _ => AuditStorage) (sql_add (hd_revision h) 1);
        Ok (1%Z, set_head home_id {| hd_last_record_hash := Some record_hash; hd_revision := revision |} t)
      else Ok (0%Z, t)
  | None => Ok (0%Z, t)
  end.

(** [append] in the caller's transaction, with the primary key and a fresh id *)
Definition append (primary : LiveAuditKey) (audit_id home_id : uuid) (action : AdminAction) (target_type target_id : string)
    (actor : ActorSnapshot) (before after tombstone : option json) (occurred_at : instant) (t : AuditTables)
    : result LiveAuditError (AuditReference * AuditTables) :=
  _ ← validate_identifier target_type 64;
  _ ← validate_identifier target_id 512;
  _ ← reject_if (is_none_b before && is_none_b after && is_none_b tombstone) AuditInvalidInput;
  let actor_json := canonical_json (actor_value actor) in
  _ ← reject_if (MAX_ACTOR_BYTES <? slen actor_json)%Z AuditInvalidInput;
  before_json ← canonical_optional before;
  after_json ← canonical_optional after;
  tombstone_json ← canonical_optional tombstone;
  let t := ensure_head home_id t in
  head ← ok_or (at_heads t !! home_id) AuditInvalidState;
  let previous_hash := hd_last_record_hash head in
  _ ← reject_if ((hd_revision head <? 0)%Z || is_some_and (fun h => negb (valid_hash h)) previous_hash) AuditInvalidState;
  retain_until ← ok_or (checked_add_days occurred_at RETENTION_DAYS) AuditInvalidInput;
  actor_snapshot ← ok_or (parse_json actor_json) AuditSerialization;
  after_value ← parse_optional after_json;
  before_value ← parse_optional before_json;
  tombstone_value ← parse_optional tombstone_json;
  let event := event_value audit_id home_id (action_str action) target_type target_id (as_actor_user_id actor)
    occurred_at retain_until actor_snapshot before_value after_value tombstone_value in
  let record_hash := sign primary previous_hash (canonical_json event) in
  t ← insert_event audit_id {|
    ar_home_id := home_id; ar_action := action_str action; ar_target_type := target_type; ar_target_id := target_id;
    ar_actor_user_id := as_actor_user_id actor; ar_actor_snapshot_json := actor_json; ar_before_json := before_json;
    ar_after_json := after_json; ar_tombstone_json := tombstone_json; ar_audit_key_id := ak_key_id primary;
    ar_previous_hash := previous_hash; ar_record_hash := record_hash; ar_occurred_at := occurred_at;
    ar_retain_until := retain_until |} t;
  '(rows_affected, t) ← advance_head home_id record_hash (hd_revision head) t;
  _ ← reject_if (negb (rows_affected =? 1)%Z) AuditRevisionChanged;
  Ok ({| ref_audit_id := audit_id; ref_action := action_str action; ref_target_type := target_type; ref_target_id := target_id;
         ref_actor := actor; ref_occurred_at := occurred_at; ref_record_hash := record_hash |}, t).
End chain.

(** ** What a chain proves *)
Class AuditOpsLaws `(O : AuditOps) : Prop := {
  parse_wf s v : parse_json s = Some v -> json_wf v = true;    (* numbers are printed as numbers *)
}.
Definition new_head : HeadRow := {| hd_last_record_hash := None; hd_revision := 0 |}.
Definition head_of (home_id : uuid) (t : AuditTables) : HeadRow := default new_head (at_heads t !! home_id).
Notation record := (uuid * AuditRow)%type.
(** the records from the head down, each naming the hash of the next *)
Fixpoint linked (head : option string) (l : list record) : Prop :=
  match l with
  | [] => head = None
  | (id, r) :: l => head = Some (ar_record_hash r) /\ linked (ar_previous_hash r) l
  end.

Section facts.
Context `{CryptoPrims} `{JL : JsonTextLaws} `{UuidText} `{AL : AuditOpsLaws}.

(** the event a stored record stands for *)
Definition row_value (id : uuid) (r : AuditRow) : option json :=
  to_option (
    actor ← ok_or (parse_json (ar_actor_snapshot_json r)) AuditSerialization;
    after ← parse_optional (ar_after_json r);
    before ← parse_optional (ar_before_json r);
    tombstone ← parse_optional (ar_tombstone_json r);
    Ok (event_value id (ar_home_id r) (ar_action r) (ar_target_type r) (ar_target_id r) (ar_actor_user_id r)
          (ar_occurred_at r) (ar_retain_until r) actor before after tombstone)).
(** its hash is the signature of that event and of the previous hash, under the key it names *)
Definition verifies (keys : gmap string string) (p : record) : Prop :=
  exists material v, keys !! ar_audit_key_id p.2 = Some material /\ row_value p.1 p.2 = Some v /\
    ar_record_hash p.2 = sign {| ak_key_id := ar_audit_key_id p.2; ak_material := material |} (ar_previous_hash p.2) (canonical_json v) /\
    (slen (ar_audit_key_id p.2) <= 32)%Z /\ is_none_or valid_hash (ar_previous_hash p.2) = true.
(** its text has a length that is a usize *)
Definition in_memory (p : record) : Prop :=
  forall v, row_value p.1 p.2 = Some v -> (slen (canonical_json v) <= u64_max)%Z.
(** the same event, as JSON, under the same key and after the same record *)
Definition same_record (p q : record) : Prop :=
  (exists v w, row_value p.1 p.2 = Some v /\ row_value q.1 q.2 = Some w /\ normalize v = normalize w) /\
  ar_audit_key_id p.2 = ar_audit_key_id q.2 /\ ar_previous_hash p.2 = ar_previous_hash q.2 /\
  ar_record_hash p.2 = ar_record_hash q.2.
(** two different (key, text) pairs of the ring with one MAC *)
Definition collision (keys : gmap string string) : Prop :=
  exists i j k l m n, keys !! i = Some k /\ keys !! j = Some l /\ (k, m) <> (l, n) /\ hmac k m = hmac l n.

Lemma parse_optional_wf s v : parse_optional s = Ok v -> json_wf v = true.
Proof. destruct s as [s|]; cbn; [|by intros [= <-]]. destruct (parse_json s) eqn:Hp; [|done]. intros [= <-]. by eapply parse_wf. Qed.
Lemma row_value_wf id r v : row_value id r = Some v -> json_wf v = true.
Proof.
  unfold row_value. destruct (parse_json _) as [a|] eqn:Ha; [|done]. run_ok.
  destruct (parse_optional (ar_after_json r)) as [x|] eqn:Hx; [|done]. run_ok.
  destruct (parse_optional (ar_before_json r)) as [y|] eqn:Hy; [|done]. run_ok.
  destruct (parse_optional (ar_tombstone_json r)) as [z|] eqn:Hz; [|done]. intros [= <-]. cbn.
  rewrite (parse_wf _ _ Ha), (parse_optional_wf _ _ Hx), (parse_optional_wf _ _ Hy), (parse_optional_wf _ _ Hz). done.
Qed.
Lemma valid_previous p q :
  is_none_or valid_hash p = true -> is_none_or valid_hash q = true -> default "" p = default "" q -> p = q.
Proof.
  destruct p as [p|], q as [q|]; cbn; try done; [by intros _ _ ->|intros Hp _ ->; done|intros _ Hq <-; done].
Qed.
Lemma valid_previous_fits p : is_none_or valid_hash p = true -> (slen (default "" p) <= u64_max)%Z.
Proof. destruct p as [p|]; cbn; [|done]. unfold valid_hash, u64_max. intros Hp. bool_hyps. lia. Qed.
Lemma signed_text_inj k p e k' p' e' :
  (slen k <= u64_max)%Z -> (slen k' <= u64_max)%Z -> is_none_or valid_hash p = true -> is_none_or valid_hash p' = true ->
  (slen e <= u64_max)%Z -> (slen e' <= u64_max)%Z -> signed_text k p e = signed_text k' p' e' -> k = k' /\ p = p' /\ e = e'.
Proof.
  unfold signed_text, length_prefixed. intros Hk Hk' Hp Hp' He He' Heq. apply str_app_inv_head in Heq.
  rewrite !str_app_assoc in Heq. apply length_prefixed64_inj in Heq as [-> Heq]; [|done..].
  apply length_prefixed64_inj in Heq as [Hpp Heq]; [|by apply valid_previous_fits..].
  apply valid_previous in Hpp as ->; [|done..].
  assert (be64 (slen e) +:+ e +:+ "" = be64 (slen e') +:+ e' +:+ "") as Heq2 by (rewrite !str_app_nil_r; exact Heq).
  by apply length_prefixed64_inj in Heq2 as [-> _].
Qed.
Lemma record_determined keys p q :
  verifies keys p -> verifies keys q -> in_memory p -> in_memory q -> ar_record_hash p.2 = ar_record_hash q.2 ->
  same_record p q \/ collision keys.
Proof.
  intros (k & v & Hk & Hv & Hsign & Hlen & Hprev) (k' & v' & Hk' & Hv' & Hsign' & Hlen' & Hprev') Hm Hm' Heq.
  pose proof Heq as Hhash. rewrite Hsign, Hsign' in Heq. unfold sign in Heq. cbn [ak_material ak_key_id] in Heq. apply hex_inj in Heq.
  set (m := signed_text _ _ (canonical_json v)) in *. set (m' := signed_text _ _ (canonical_json v')) in *.
  destruct (decide ((k, m) = (k', m'))) as [Hsame|Hdiff]; [left|right; by exists (ar_audit_key_id p.2), (ar_audit_key_id q.2), k, k', m, m'].
  pose proof (f_equal snd Hsame) as Hmm. cbn [snd] in Hmm. apply signed_text_inj in Hmm as (Hid & Hpp & Hcanon); [| | |done|done|by apply Hm|by apply Hm'];
    [|unfold u64_max; lia..].
  split; [|done]. exists v, v'. split_and!; [done..|]. apply canonical_normal in Hcanon; [done|by eapply row_value_wf|by eapply row_value_wf].
Qed.
Lemma chain_determined keys l l' head :
  linked head l -> linked head l' -> Forall (verifies keys) l -> Forall (verifies keys) l' ->
  Forall in_memory l -> Forall in_memory l' -> Forall2 same_record l l' \/ collision keys.
Proof.
  revert l' head. induction l as [|[id r] l IH]; intros [|[id' r'] l'] head; cbn [linked];
    [by left|by intros -> [? _]|by intros [-> _] ?|].
  intros [-> Hl] [Hh Hl'] [Hv Hvs]%Forall_cons [Hv' Hvs']%Forall_cons [Hm Hms]%Forall_cons [Hm' Hms']%Forall_cons.
  injection Hh as Hh. destruct (record_determined keys (id, r) (id', r')) as [Hsame|?]; [done..| |by right].
  pose proof Hsame as (_ & _ & Hprev & _). cbn in Hprev.
  destruct (IH l' (ar_previous_hash r)) as [?|?]; [done|by rewrite Hprev|done..| |by right]. left. by constructor.
Qed.
End facts.

(** ** Appending *)
Record AuditCall := {
  call_key : LiveAuditKey;
  call_id : uuid;
  call_home_id : uuid;
  call_action : AdminAction;
  call_target_type : string;
  call_target_id : string;
  call_actor : ActorSnapshot;
  call_before : option json;
  call_after : option json;
  call_tombstone : option json;
  call_occurred_at : instant;
}.
Section appending.
Context `{CryptoPrims} `{JsonText} `{UuidText} `{AuditOps}.
Definition run_append (c : AuditCall) (t : AuditTables) : result LiveAuditError (AuditReference * AuditTables) :=
  append (call_key c) (call_id c) (call_home_id c) (call_action c) (call_target_type c) (call_target_id c) (call_actor c)
    (call_before c) (call_after c) (call_tombstone c) (call_occurred_at c) t.
(** the transaction commits, or leaves nothing *)
Definition committed (c : AuditCall) (t : AuditTables) : AuditTables :=
  match run_append c t with Ok (_, t') => t' | Err _ => t end.
Definition run_appends (cs : list AuditCall) (t : AuditTables) : AuditTables := foldl (fun t c => committed c t) t cs.
(** what all chains satisfy *)
Definition chain_inv (keys : gmap string string) (t : AuditTables) : Prop :=
  forall home, exists l, NoDup l.*1 /\ linked (hd_last_record_hash (head_of home t)) l /\
    hd_revision (head_of home t) = Z.of_nat (length l) /\
    (forall id r, (id, r) ∈ l <-> at_events t !! id = Some r /\ ar_home_id r = home) /\ Forall (verifies keys) l.

Lemma append_ok c t ref t' :
  run_append c t = Ok (ref, t') ->
  let head := head_of (call_home_id c) t in
  exists r v, t' = {| at_heads := <[call_home_id c := {| hd_last_record_hash := Some (ar_record_hash r); hd_revision := hd_revision head + 1 |}]> (at_heads t);
                      at_events := <[call_id c := r]> (at_events t); at_users := at_users t |} /\
    ar_home_id r = call_home_id c /\ ar_previous_hash r = hd_last_record_hash head /\ ar_audit_key_id r = ak_key_id (call_key c) /\
    row_value (call_id c) r = Some v /\ ar_record_hash r = sign (call_key c) (ar_previous_hash r) (canonical_json v) /\
    at_events t !! call_id c = None /\ is_none_or valid_hash (ar_previous_hash r) = true /\
    ar_action r = action_str (call_action c) /\ ar_target_id r = call_target_id c.
Proof.
  intros Ha head. unfold run_append, append in Ha. ok_inv.
  set (t0 := ensure_head (call_home_id c) t) in *.
  assert (at_heads t0 !! call_home_id c = Some head /\ at_events t0 = at_events t /\ at_users t0 = at_users t /\
    forall h, <[call_home_id c := h]> (at_heads t0) = <[call_home_id c := h]> (at_heads t)) as (Hhead & Hev & Hus & Hset).
  { subst t0 head. unfold ensure_head, head_of. destruct (at_heads t !! call_home_id c) as [h|] eqn:Hh; [by rewrite Hh|].
    cbn. split_and!; [apply lookup_insert_eq|done|done|]. intros h. by rewrite insert_insert_eq. }
  match goal with Hx : at_heads t0 !! _ = Some ?x |- _ => assert (x = head) as -> by congruence end.
  match goal with Hx : insert_event _ ?row _ = Ok _ |- _ => set (r := row) in *; unfold insert_event in Hx; ok_inv end.
  match goal with Hx : negb (audit_check _ _ _) = false |- _ => unfold audit_check in Hx; apply negb_false_iff in Hx; rename Hx into Hck end.
  repeat match goal with Hx : (_ * AuditTables)%type |- _ => destruct Hx end. ok_inv.
  match goal with Hx : advance_head _ _ _ _ = Ok _ |- _ => unfold advance_head in Hx; cbn [at_heads] in Hx; rewrite Hhead, Z.eqb_refl in Hx end.
  ok_inv. match goal with Hx : map_err _ (sql_add _ _) = Ok _ |- _ =>
    unfold sql_add, i64_checked_add in Hx; destruct (_ && _)%bool eqn:Hb in Hx; [|done]; cbn in Hx; ok_inv end.
  eexists r, _. split_and!; [|done|done|done| | | | |done|done].
  - unfold set_head. cbn [at_heads at_events at_users]. rewrite Hset, Hev, Hus. done.
  - unfold row_value. subst r. cbn [ar_actor_snapshot_json ar_after_json ar_before_json ar_tombstone_json].
    repeat match goal with Hx : parse_json _ = Some _ |- _ => rewrite Hx; clear Hx | Hx : parse_optional _ = Ok _ |- _ => rewrite Hx; clear Hx end.
    run_ok. done.
  - done.
  - bool_hyps. rewrite Hev in *. by destruct (at_events t !! call_id c).
  - bool_hyps. done.
Qed.
(** the row an append leaves *)
Lemma append_row c t ref t' :
  run_append c t = Ok (ref, t') ->
  exists r, at_events t' !! call_id c = Some r /\ ar_home_id r = call_home_id c /\ ar_action r = action_str (call_action c) /\
    ar_target_id r = call_target_id c.
Proof.
  intros (r & v & -> & Hh & _ & _ & _ & _ & _ & _ & Hact & Htgt)%append_ok. exists r. cbn [at_events]. by rewrite lookup_insert_eq.
Qed.
End appending.

Section properties.
Context `{CryptoPrims} `{JL : JsonTextLaws} `{UuidText} `{AL : AuditOpsLaws}.
(** the primary key of a call is one of the ring *)
Definition key_ok (keys : gmap string string) (c : AuditCall) : Prop :=
  keys !! ak_key_id (call_key c) = Some (ak_material (call_key c)) /\ (slen (ak_key_id (call_key c)) <= 32)%Z.
Lemma committed_inv keys c t : chain_inv keys t -> key_ok keys c -> chain_inv keys (committed c t).
Proof.
  intros Hinv [Hkey Hlen]. unfold committed. destruct (run_append c t) as [[ref t']|] eqn:Ha; [|done].
  apply append_ok in Ha as (r & v & -> & Hhome & Hprev & Hid & Hv & Hsign & Hfresh & Hvalid & _ & _).
  intros home. destruct (Hinv home) as (l & Hnd & Hl & Hrev & Hmem & Hver). unfold head_of. cbn [at_heads at_events].
  destruct (decide (home = call_home_id c)) as [->|Hne].
  - rewrite lookup_insert_eq. cbn [default hd_last_record_hash hd_revision]. exists ((call_id c, r) :: l). cbn [fmap list_fmap fst].
    assert (forall r', (call_id c, r') ∉ l) as Hnew by (intros r' Hin; apply Hmem in Hin as [Hin _]; congruence).
    split_and!.
    + apply NoDup_cons. split; [|done]. intros ([id' r'] & Heq & Hin)%list_elem_of_fmap. cbn in Heq. subst id'. by eapply Hnew.
    + cbn [linked]. rewrite Hprev. done.
    + cbn [from_option hd_revision length]. fold (head_of (call_home_id c) t). unfold Datatypes.id. cbn [hd_revision]. rewrite Hrev. lia.
    + intros id r'. rewrite elem_of_cons, Hmem, lookup_insert_Some. split.
      * intros [[= -> ->]|[Hin ?]]; [by split; [left|]|]. split; [right; split; [congruence|done]|done].
      * intros [[[<- <-]|[? ?]] ?]; [by left|by right].
    + constructor; [|done]. exists (ak_material (call_key c)), v. cbn [fst snd]. rewrite Hid. split_and!; try done.
  - rewrite lookup_insert_ne by done. exists l. split_and!; try done. intros id r'. rewrite Hmem, lookup_insert_Some. split.
    + intros [Hin ?]. split; [right; split; [congruence|done]|done].
    + intros [[[<- <-]|[? ?]] ?]; [congruence|done].
Qed.
Lemma run_appends_inv keys cs t : Forall (key_ok keys) cs -> chain_inv keys t -> chain_inv keys (run_appends cs t).
Proof.
  unfold run_appends. revert t. induction cs as [|c cs IH]; intros t Hk Hinv; [done|]. apply Forall_cons in Hk as [Hc Hk]. cbn.
  apply IH; [done|]. by apply committed_inv.
Qed.
Definition no_records (users : gset uuid) : AuditTables := {| at_heads := ∅; at_events := ∅; at_users := users |}.
Lemma no_records_inv keys users : chain_inv keys (no_records users).
Proof.
  intros home. exists []. split_and!; try done; [constructor|]. intros id r. cbn. rewrite lookup_empty. split; [intros Hx; inversion Hx|by intros [? _]].
Qed.
Lemma appends_keep_rows cs t id r : at_events t !! id = Some r -> at_events (run_appends cs t) !! id = Some r.
Proof.
  unfold run_appends. revert t. induction cs as [|c cs IH]; intros t Hr; [done|]. cbn. apply IH. unfold committed.
  destruct (run_append c t) as [[ref t']|] eqn:Ha; [|done]. apply append_ok in Ha as (r' & v & -> & _ & _ & _ & _ & _ & Hfresh & _).
  cbn. rewrite lookup_insert_ne; [done|]. intros <-. congruence.
Qed.

(** C36: The records of a home form one signed chain.  Whatever is appended, for any homes and under any keys of
    the ring as it rotates, the records of a home are, from its head down, linked each to the previous one by
    its hash; their number is the head's revision; each hash is the signature of the event the row stores and
    of the previous hash, under the key the row names; and no record is ever changed or removed. *)
Theorem audit_records_form_a_chain keys users cs later :
  Forall (key_ok keys) cs ->
  let t := run_appends cs (no_records users) in
  (forall home, exists l, NoDup l.*1 /\ linked (hd_last_record_hash (head_of home t)) l /\
    hd_revision (head_of home t) = Z.of_nat (length l) /\
    (forall id r, (id, r) ∈ l <-> at_events t !! id = Some r /\ ar_home_id r = home) /\ Forall (verifies keys) l) /\
  (forall id r, at_events t !! id = Some r -> at_events (run_appends later t) !! id = Some r).
Proof.
  intros Hk t. split; [|intros id r; apply appends_keep_rows]. apply run_appends_inv; [done|]. apply no_records_inv.
Qed.

(** A chain is tamper evident.  Two chains of records that verify under the ring and end in the same hash
    are the same: as many records, in the same order, with the same events as JSON, under the same keys; unless
    someone found two different texts with one MAC under keys of the ring. *)
Theorem audit_chain_tamper_evident keys l l' head :
  linked head l -> linked head l' -> Forall (verifies keys) l -> Forall (verifies keys) l' ->
  Forall in_memory l -> Forall in_memory l' ->
  (length l = length l' /\ Forall2 same_record l l') \/ collision keys.
Proof.
  intros Hl Hl' Hv Hv' Hm Hm'. destruct (chain_determined keys l l' head) as [Hs|?]; [done..| |by right].
  left. split; [by eapply Forall2_length|done].
Qed.

(** The canonical text of a JSON value is canonical.  Two values have the same text exactly when they are
    equal up to the order of keys in objects, at every depth. *)
Theorem canonical_json_exact v v' :
  json_wf v = true -> json_wf v' = true -> canonical_json v = canonical_json v' <-> normalize v = normalize v'.
Proof. apply canonical_normal. Qed.
End properties.
