(* ===== verification/RevocationOutbox.v ===== *)
(** * The authorization revocation outbox (src/src/auth/revocation.rs, migrations/0055)

    A change that takes rights away appends an event in its own transaction; each registered consumer has a
    receipt for each event, claims it under a lease, applies it and acknowledges it.  Other instances run
    between the SELECT and the UPDATE of an operation, so the theorems are about the two separately.  Columns
    of uuids, timestamps and enumerations hold what the code wrote. *)
From S2P Require Import Prelude Bytes LiveContract CanonicalJson.

Definition DEFAULT_RETENTION_DAYS : Z := 30.
Definition MAX_CLAIM_SCAN : nat := 64.
Definition MAX_LEASE_SECONDS : Z := 300.

Inductive AuthorizationRevocationEventType :=
| AccountSessionRevoked | AccountRevoked | ProfileSwitched | ProfileDisabled | AuthorizationContextChanged
| ProviderDisabled | ProviderPolicyChanged | ProviderGrantRevoked.
Inductive AuthorizationSubjectType :=
| SubjectAccountSession | SubjectAccount | SubjectProfile | SubjectProvider | SubjectProviderGrant.
#[export] Instance AuthorizationSubjectType_eq_dec : EqDecision AuthorizationSubjectType.
Proof. solve_decision. Defined.
Definition event_type_str (e : AuthorizationRevocationEventType) : string :=
  match e with
  | AccountSessionRevoked => "account_session_revoked"
  | AccountRevoked => "account_revoked"
  | ProfileSwitched => "profile_switched"
  | ProfileDisabled => "profile_disabled"
  | AuthorizationContextChanged => "authorization_context_changed"
  | ProviderDisabled => "provider_disabled"
  | ProviderPolicyChanged => "provider_policy_changed"
  | ProviderGrantRevoked => "provider_grant_revoked"
  end.
Definition event_type_try_from (s : string) : option AuthorizationRevocationEventType :=
  List.find (fun e => String.eqb (event_type_str e) s)
    [AccountSessionRevoked; AccountRevoked; ProfileSwitched; ProfileDisabled; AuthorizationContextChanged;
     ProviderDisabled; ProviderPolicyChanged; ProviderGrantRevoked].
Lemma event_type_try_from_str e : event_type_try_from (event_type_str e) = Some e.
Proof. by destruct e. Qed.

(** an event before it is appended; the row of the outbox is the event with its id, times and publication *)
Record NewAuthorizationRevocation := {
  nr_home_id : uuid;
  nr_event_type : AuthorizationRevocationEventType;
  nr_subject_type : AuthorizationSubjectType;
  nr_subject_id : string;
  nr_actor_user_id : option uuid;
  nr_account_session_id : option uuid;
  nr_profile_id : option uuid;
  nr_provider_id : option uuid;
  nr_grant_id : option uuid;
  nr_reason_code : string;
  nr_payload : json;
}.
Record EventRow := {
  ev_event : NewAuthorizationRevocation;
  ev_occurred_at : instant;
  ev_retain_until : instant;
  ev_published_at : option instant;
  ev_publish_attempts : Z;
  ev_last_error_redacted : option string;
}.
Record ReceiptRow := {
  rp_lease_owner : option string;
  rp_lease_expires_at : option instant;
  rp_attempts : Z;
  rp_acknowledged_at : option instant;
  rp_last_error_redacted : option string;
}.
Record ConsumerRow := { cn_last_seen_at : option instant }.
Record Outbox := {
  ob_events : gmap uuid EventRow;
  ob_consumers : gmap string ConsumerRow;
  ob_receipts : gmap (uuid * string) ReceiptRow;
  ob_registry : Z;
}.
Record ClaimedAuthorizationRevocation := {
  cl_event_id : uuid;
  cl_event : EventRow;
  cl_consumer_name : string;
  cl_lease_owner : string;
  cl_lease_expires_at : instant;
  cl_attempts : Z;
}.
Inductive RevocationError :=
| RevInvalidInput (what : string) | RevInvalidState (what : string) | ConsumerNotRegistered | LeaseLost
| RegistryRevisionOverflow | RevStorage | RevSerialization.
#[export] Instance RevocationError_eq_dec : EqDecision RevocationError.
Proof. solve_decision. Defined.

(** ** The kinds of events *)
Section constructors.
Context `{UuidText}.
Definition empty_payload : json := JObject [].
Definition account_session (home_id account_session_id : uuid) (profile_id : option uuid) (reason_code : string)
    : NewAuthorizationRevocation :=
  {| nr_home_id := home_id; nr_event_type := AccountSessionRevoked; nr_subject_type := SubjectAccountSession;
     nr_subject_id := uuid_to_string account_session_id; nr_actor_user_id := None;
     nr_account_session_id := Some account_session_id; nr_profile_id := profile_id; nr_provider_id := None;
     nr_grant_id := None; nr_reason_code := reason_code; nr_payload := empty_payload |}.
Definition account (home_id user_id : uuid) (reason_code : string) : NewAuthorizationRevocation :=
  {| nr_home_id := home_id; nr_event_type := AccountRevoked; nr_subject_type := SubjectAccount;
     nr_subject_id := uuid_to_string user_id; nr_actor_user_id := None; nr_account_session_id := None;
     nr_profile_id := None; nr_provider_id := None; nr_grant_id := None; nr_reason_code := reason_code;
     nr_payload := empty_payload |}.
Definition profile_switched (home_id user_id account_session_id previous_profile_id selected_profile_id : uuid)
    : NewAuthorizationRevocation :=
  {| nr_home_id := home_id; nr_event_type := ProfileSwitched; nr_subject_type := SubjectAccountSession;
     nr_subject_id := uuid_to_string account_session_id; nr_actor_user_id := Some user_id;
     nr_account_session_id := Some account_session_id; nr_profile_id := Some previous_profile_id;
     nr_provider_id := None; nr_grant_id := None; nr_reason_code := "profile_selected";
     nr_payload := JObject [("previous_profile_id", JString (uuid_to_string previous_profile_id));
                            ("selected_profile_id", JString (uuid_to_string selected_profile_id))] |}.
Definition rights (r : bool * bool) : json := JObject [("can_browse", JBool r.1); ("can_play", JBool r.2)].
Definition provider_grant_revoked (home_id actor_user_id profile_id provider_id grant_id : uuid) (reason_code : string)
    (before after : bool * bool) : NewAuthorizationRevocation :=
  {| nr_home_id := home_id; nr_event_type := ProviderGrantRevoked; nr_subject_type := SubjectProviderGrant;
     nr_subject_id := uuid_to_string grant_id; nr_actor_user_id := Some actor_user_id; nr_account_session_id := None;
     nr_profile_id := Some profile_id; nr_provider_id := Some provider_id; nr_grant_id := Some grant_id;
     nr_reason_code := reason_code; nr_payload := JObject [("before", rights before); ("after", rights after)] |}.
Definition provider_event (kind : AuthorizationRevocationEventType) (home_id actor_user_id provider_id : uuid)
    (reason_code : string) (payload : json) : NewAuthorizationRevocation :=
  {| nr_home_id := home_id; nr_event_type := kind; nr_subject_type := SubjectProvider;
     nr_subject_id := uuid_to_string provider_id; nr_actor_user_id := Some actor_user_id; nr_account_session_id := None;
     nr_profile_id := None; nr_provider_id := Some provider_id; nr_grant_id := None; nr_reason_code := reason_code;
     nr_payload := payload |}.
Definition provider_policy_changed (home_id actor_user_id provider_id : uuid) (reason_code revision_text : string) :=
  provider_event ProviderPolicyChanged home_id actor_user_id provider_id reason_code
    (JObject [("provider_revision", JNumber revision_text)]).
Definition provider_disabled (home_id actor_user_id provider_id : uuid) (reason_code : string) :=
  provider_event ProviderDisabled home_id actor_user_id provider_id reason_code empty_payload.
End constructors.

(** ** Checks *)
Definition ascii_control (b : ascii) : bool := ((byte_of b <? 32) || (byte_of b =? 127))%N.
Definition rev_validate_identifier (value label : string) (max_len : Z) : result RevocationError unit :=
  reject_if (negb (String.eqb (trim value) value) || str_empty value || (max_len <? slen value)%Z
    || any_byte ascii_control value) (RevInvalidInput label).
Definition consumer_byte (b : ascii) : bool :=
  is_alnum b || existsb (Ascii.eqb b) ["."%char; "_"%char; "-"%char; ":"%char].
Definition validate_consumer_identity (value label : string) : result RevocationError unit :=
  _ ← rev_validate_identifier value label 128;
  reject_if (negb (all_bytes consumer_byte value)) (RevInvalidInput label).
Definition bounded_redacted_error (value : string) : result RevocationError string :=
  let value := trim value in
  _ ← reject_if (str_empty value || (512 <? slen value)%Z || any_byte ascii_control value) (RevInvalidInput "redacted consumer error");
  Ok value.
Definition is_object (v : json) : bool := match v with JObject _ => true | _ => false end.
Class OutboxOps := {
  payload_bytes : json -> option Z;             (* the length [serde_json::to_vec] gives *)
  outbox_add_days : instant -> Z -> option instant;     (* [DateTime::checked_add_signed] *)
  outbox_add_nanos : instant -> Z -> option instant;
}.
Definition MAX_PAYLOAD_BYTES : Z := 16384.
Definition revocation_validate `{OutboxOps} (event : NewAuthorizationRevocation) : result RevocationError unit :=
  _ ← rev_validate_identifier (nr_subject_id event) "subject id" 512;
  _ ← rev_validate_identifier (nr_reason_code event) "reason code" 128;
  _ ← reject_if (negb (is_object (nr_payload event))) (RevInvalidInput "revocation payload must be an object");
  encoded ← ok_or (payload_bytes (nr_payload event)) RevSerialization;
  reject_if (MAX_PAYLOAD_BYTES <? encoded)%Z (RevInvalidInput "revocation payload exceeds 16 KiB").

(** ** Statements *)
Definition with_events (e : gmap uuid EventRow) (db : Outbox) : Outbox :=
  {| ob_events := e; ob_consumers := ob_consumers db; ob_receipts := ob_receipts db; ob_registry := ob_registry db |}.
Definition with_consumers (c : gmap string ConsumerRow) (db : Outbox) : Outbox :=
  {| ob_events := ob_events db; ob_consumers := c; ob_receipts := ob_receipts db; ob_registry := ob_registry db |}.
Definition with_receipts (r : gmap (uuid * string) ReceiptRow) (db : Outbox) : Outbox :=
  {| ob_events := ob_events db; ob_consumers := ob_consumers db; ob_receipts := r; ob_registry := ob_registry db |}.
(** the registry row is written first in every transaction that changes events or consumers *)
Definition serialize_registry (db : Outbox) : result RevocationError Outbox :=
  if (ob_registry db <? i64_max)%Z
  then Ok {| ob_events := ob_events db; ob_consumers := ob_consumers db; ob_receipts := ob_receipts db;
             ob_registry := ob_registry db + 1 |}
  else Err RegistryRevisionOverflow.
Definition new_receipt : ReceiptRow :=
  {| rp_lease_owner := None; rp_lease_expires_at := None; rp_attempts := 0; rp_acknowledged_at := None;
     rp_last_error_redacted := None |}.
(** INSERT ... SELECT ... ON CONFLICT DO NOTHING *)
Definition add_receipts (keys : list (uuid * string)) (db : Outbox) : Outbox :=
  with_receipts (foldr (fun k m => match m !! k with Some _ => m | None => <[k := new_receipt]> m end) (ob_receipts db) keys) db.

Section operations.
Context `{OutboxOps}.

(** [append_authorization_revocation_in_transaction] *)
Definition append_revocation (id : uuid) (occurred_at : instant) (event : NewAuthorizationRevocation) (db : Outbox)
    : result RevocationError (EventRow * Outbox) :=
  _ ← revocation_validate event;
  db ← serialize_registry db;
  retain_until ← ok_or (outbox_add_days occurred_at DEFAULT_RETENTION_DAYS) (RevInvalidInput "retention expiration overflow");
  _ ← reject_if (is_some_b (ob_events db !! id)) RevStorage;
  let row := {| ev_event := event; ev_occurred_at := occurred_at; ev_retain_until := retain_until; ev_published_at := None;
                ev_publish_attempts := 0; ev_last_error_redacted := None |} in
  let db := with_events (<[id := row]> (ob_events db)) db in
  Ok (row, add_receipts ((fun c => (id, c)) <$> (map_to_list (ob_consumers db)).*1) db).

Definition register_consumer (consumer_name : string) (now : instant) (db : Outbox) : result RevocationError Outbox :=
  _ ← validate_consumer_identity consumer_name "consumer name";
  db ← serialize_registry db;
  let row := match ob_consumers db !! consumer_name with
             | Some _ => {| cn_last_seen_at := Some now |}
             | None => {| cn_last_seen_at := None |}
             end in
  let db := with_consumers (<[consumer_name := row]> (ob_consumers db)) db in
  Ok (add_receipts ((fun e => (e, consumer_name)) <$> (map_to_list (ob_events db)).*1) db).

(** the row a scan found, with the lease it had *)
Record ClaimCandidate := {
  cc_event_id : uuid;
  cc_event : EventRow;
  cc_previous_owner : option string;
  cc_previous_expires_at : option instant;
  cc_attempts : Z;
}.
Notation pending_row := (uuid * (EventRow * ReceiptRow))%type.
Definition occurs_before (p q : pending_row) : Prop :=
  (ev_occurred_at p.2.1 < ev_occurred_at q.2.1)%Z \/ (ev_occurred_at p.2.1 = ev_occurred_at q.2.1 /\ (p.1 <= q.1)%N).
#[local] Instance occurs_before_dec : RelDecision occurs_before.
Proof. intros p q. unfold occurs_before. apply _. Defined.
Definition pending_of (consumer_name : string) (kv : (uuid * string) * ReceiptRow) (db : Outbox) : option pending_row :=
  if String.eqb kv.1.2 consumer_name && is_none_b (rp_acknowledged_at kv.2)
  then (fun e => (kv.1.1, (e, kv.2))) <$> ob_events db !! kv.1.1
  else None.
Definition pending (consumer_name : string) (db : Outbox) : list pending_row :=
  merge_sort occurs_before (omap (fun kv => pending_of consumer_name kv db) (map_to_list (ob_receipts db))).
Definition claimable (now : instant) (r : ReceiptRow) : result RevocationError bool :=
  match rp_lease_owner r, rp_lease_expires_at r with
  | None, None => Ok true
  | Some _, Some expires_at => Ok (expires_at <=? now)%Z
  | _, _ => Err (RevInvalidState "receipt lease pair")
  end.
Fixpoint first_claimable (now : instant) (rows : list pending_row) : result RevocationError (option ClaimCandidate) :=
  match rows with
  | [] => Ok None
  | (id, (e, r)) :: rows =>
      ok ← claimable now r;
      if negb ok then first_claimable now rows else
      _ ← reject_if (rp_attempts r =? i32_max)%Z (RevInvalidState "receipt attempt overflow");
      Ok (Some {| cc_event_id := id; cc_event := e; cc_previous_owner := rp_lease_owner r;
                  cc_previous_expires_at := rp_lease_expires_at r; cc_attempts := rp_attempts r |})
  end.
Definition load_claim_candidate (consumer_name : string) (now : instant) (db : Outbox)
    : result RevocationError (option ClaimCandidate) :=
  first_claimable now (take MAX_CLAIM_SCAN (pending consumer_name db)).
(** the UPDATE of [claim_candidate]: NULL never equals, so a free row must still be free, and a leased one must
    still have that lease *)
Definition claim_matches (c : ClaimCandidate) (r : ReceiptRow) : bool :=
  is_none_b (rp_acknowledged_at r) && (rp_attempts r <? i32_max)%Z
  && bool_decide (rp_lease_owner r = cc_previous_owner c) && bool_decide (rp_lease_expires_at r = cc_previous_expires_at c).
Definition claim_candidate (c : ClaimCandidate) (consumer_name lease_owner : string) (lease_expires_at : instant) (db : Outbox)
    : option ClaimedAuthorizationRevocation * Outbox :=
  let key := (cc_event_id c, consumer_name) in
  match ob_receipts db !! key with
  | Some r =>
      if claim_matches c r then
        (Some {| cl_event_id := cc_event_id c; cl_event := cc_event c; cl_consumer_name := consumer_name;
                 cl_lease_owner := lease_owner; cl_lease_expires_at := lease_expires_at; cl_attempts := cc_attempts c + 1 |},
         with_receipts (<[key := {| rp_lease_owner := Some lease_owner; rp_lease_expires_at := Some lease_expires_at;
           rp_attempts := rp_attempts r + 1; rp_acknowledged_at := rp_acknowledged_at r; rp_last_error_redacted := None |}]>
           (ob_receipts db)) db)
      else (None, db)
  | None => (None, db)
  end.
(** one attempt of [claim_next]; [between] is what others do between its SELECT and its UPDATE *)
Definition claim_attempt (consumer_name lease_owner : string) (lease_duration now : instant) (between : Outbox -> Outbox)
    (db : Outbox) : result RevocationError (option (option ClaimedAuthorizationRevocation)) * Outbox :=
  match ob_consumers db !! consumer_name with
  | None => (Err ConsumerNotRegistered, db)
  | Some _ =>
      match load_claim_candidate consumer_name now db with
      | Err e => (Err e, db)
      | Ok None => (Ok None, db)
      | Ok (Some c) =>
          match outbox_add_nanos now lease_duration with
          | None => (Err (RevInvalidInput "claim lease expiration overflow"), db)
          | Some expires_at =>
              let '(claimed, db) := claim_candidate c consumer_name lease_owner expires_at (between db) in
              (Ok (Some claimed), db)
          end
      end
  end.
Fixpoint claim_loop (tries : nat) (consumer_name lease_owner : string) (lease_duration : Z)
    (world : nat -> instant * (Outbox -> Outbox)) (db : Outbox)
    : result RevocationError (option ClaimedAuthorizationRevocation) * Outbox :=
  match tries with
  | O => (Ok None, db)
  | S n =>
      let '(now, between) := world n in
      match claim_attempt consumer_name lease_owner lease_duration now between db with
      | (Err e, db) => (Err e, db)
      | (Ok None, db) => (Ok None, db)
      | (Ok (Some (Some claimed)), db) => (Ok (Some claimed), db)
      | (Ok (Some None), db) => claim_loop n consumer_name lease_owner lease_duration world db
      end
  end.
(** a [Duration] is zero or more nanoseconds *)
Definition claim_next (consumer_name lease_owner : string) (lease_duration : Z)
    (world : nat -> instant * (Outbox -> Outbox)) (db : Outbox)
    : result RevocationError (option ClaimedAuthorizationRevocation) * Outbox :=
  match (_ ← validate_consumer_identity consumer_name "consumer name";
         _ ← validate_consumer_identity lease_owner "lease owner";
         reject_if ((lease_duration =? 0)%Z || (MAX_LEASE_SECONDS <? lease_duration / nanos_per_second)%Z)
           (RevInvalidInput "claim lease must be between 1 and 300 seconds")) with
  | Err e => (Err e, db)
  | Ok _ => claim_loop 3 consumer_name lease_owner lease_duration world db
  end.

(** [finish_claim]: the lease it reads, and the UPDATE under that lease *)
Definition read_lease (event_id : uuid) (consumer_name lease_owner : string) (now : instant) (db : Outbox)
    : result RevocationError instant :=
  expires_at ← ok_or (match ob_receipts db !! (event_id, consumer_name) with
    | Some r => if bool_decide (rp_lease_owner r = Some lease_owner) && is_none_b (rp_acknowledged_at r)
                then rp_lease_expires_at r else None
    | None => None
    end) LeaseLost;
  _ ← reject_if (expires_at <=? now)%Z LeaseLost;
  Ok expires_at.
Definition release_receipt (db_now : instant) (error_redacted : option string) (r : ReceiptRow) : ReceiptRow :=
  {| rp_lease_owner := None; rp_lease_expires_at := None; rp_attempts := rp_attempts r;
     rp_acknowledged_at := match error_redacted with Some _ => rp_acknowledged_at r | None => Some db_now end;
     rp_last_error_redacted := error_redacted |}.
Definition write_finish (event_id : uuid) (consumer_name lease_owner : string) (expires_at db_now : instant)
    (error_redacted : option string) (db : Outbox) : result RevocationError Outbox :=
  match ob_receipts db !! (event_id, consumer_name) with
  | Some r =>
      if bool_decide (rp_lease_owner r = Some lease_owner) && bool_decide (rp_lease_expires_at r = Some expires_at)
         && is_none_b (rp_acknowledged_at r)
      then Ok (with_consumers (alter (fun _ => {| cn_last_seen_at := Some db_now |}) consumer_name (ob_consumers db))
             (with_receipts (<[(event_id, consumer_name) := release_receipt db_now error_redacted r]> (ob_receipts db)) db))
      else Err LeaseLost
  | None => Err LeaseLost
  end.
Definition finish_claim (event_id : uuid) (consumer_name lease_owner : string) (error_redacted : option string)
    (now db_now : instant) (between : Outbox -> Outbox) (db : Outbox) : result RevocationError unit * Outbox :=
  match (_ ← validate_consumer_identity consumer_name "consumer name";
         _ ← validate_consumer_identity lease_owner "lease owner";
         read_lease event_id consumer_name lease_owner now db) with
  | Err e => (Err e, db)
  | Ok expires_at =>
      let db := between db in
      match write_finish event_id consumer_name lease_owner expires_at db_now error_redacted db with
      | Ok db => (Ok (), db)
      | Err e => (Err e, db)
      end
  end.
Definition acknowledge (event_id : uuid) (consumer_name lease_owner : string) := finish_claim event_id consumer_name lease_owner None.
Definition fail_claim (event_id : uuid) (consumer_name lease_owner error_redacted : string) (now db_now : instant)
    (between : Outbox -> Outbox) (db : Outbox) : result RevocationError unit * Outbox :=
  match bounded_redacted_error error_redacted with
  | Err e => (Err e, db)
  | Ok error => finish_claim event_id consumer_name lease_owner (Some error) now db_now between db
  end.

Definition record_publish_result (event_id : uuid) (error_redacted : option string) (db_now : instant) (db : Outbox)
    : result RevocationError unit * Outbox :=
  match (match error_redacted with Some e => Some <$> bounded_redacted_error e | None => Ok None end) with
  | Err e => (Err e, db)
  | Ok error =>
      match ob_events db !! event_id with
      | Some e =>
          if (ev_publish_attempts e <? i32_max)%Z then
            (Ok (), with_events (<[event_id := {| ev_event := ev_event e; ev_occurred_at := ev_occurred_at e;
               ev_retain_until := ev_retain_until e;
               ev_published_at := match error, ev_published_at e with None, None => Some db_now | _, p => p end;
               ev_publish_attempts := ev_publish_attempts e + 1; ev_last_error_redacted := error |}]> (ob_events db)) db)
          else (Err (RevInvalidState "event missing or publish attempt overflow"), db)
      | None => (Err (RevInvalidState "event missing or publish attempt overflow"), db)
      end
  end.

(** NOT EXISTS a consumer without an acknowledged receipt *)
Definition acknowledged_by_all (db : Outbox) (id : uuid) : bool :=
  forallb (fun c => match ob_receipts db !! (id, c) with Some r => is_some_b (rp_acknowledged_at r) | None => false end)
    (map_to_list (ob_consumers db)).*1.
Definition deletable (db : Outbox) (cutoff : instant) (kv : uuid * EventRow) : Prop :=
  (ev_retain_until kv.2 <= cutoff)%Z /\ acknowledged_by_all db kv.1 = true.
#[local] Instance deletable_dec db cutoff kv : Decision (deletable db cutoff kv).
Proof. unfold deletable. apply _. Defined.
(** the receipts of a deleted event go with it (ON DELETE CASCADE) *)
Definition cleanup_acknowledged_before (cutoff now : instant) (db : Outbox) : result RevocationError (nat * Outbox) :=
  let cutoff := Z.min cutoff now in
  db ← serialize_registry db;
  let gone := filter (fun kv => deletable db cutoff kv) (ob_events db) in
  let kept := filter (fun kv => ~ deletable db cutoff kv) (ob_events db) in
  Ok (size gone, with_receipts (filter (fun kr => gone !! kr.1.1 = None) (ob_receipts db)) (with_events kept db)).
End operations.

(** ** Steps of any instances: the writes of the operations, in any order *)
Inductive outbox_step :=
| SAppend (id : uuid) (occurred_at : instant) (event : NewAuthorizationRevocation)
| SRegister (consumer_name : string) (now : instant)
| SClaim (c : ClaimCandidate) (consumer_name lease_owner : string) (lease_expires_at now : instant)
| SFinish (event_id : uuid) (consumer_name lease_owner : string) (expires_at db_now : instant) (error : option string)
| SPublish (event_id : uuid) (error : option string) (db_now : instant)
| SCleanup (cutoff now : instant).
Definition step_clock (s : outbox_step) : option instant :=
  match s with SClaim _ _ _ _ now => Some now | _ => None end.
(** a candidate is free, or its lease had expired when it was read *)
Definition candidate_ok (c : ClaimCandidate) (now : instant) : Prop :=
  match cc_previous_owner c, cc_previous_expires_at c with
  | None, None => True
  | Some _, Some expires_at => (expires_at <= now)%Z
  | _, _ => False
  end.
Definition step_ok (s : outbox_step) : Prop :=
  match s with SClaim c _ _ _ now => candidate_ok c now | _ => True end.
Definition or_unchanged {A} (r : result RevocationError A) (f : A -> Outbox) (db : Outbox) : Outbox :=
  match r with Ok a => f a | Err _ => db end.
Definition run_step `{OutboxOps} (db : Outbox) (s : outbox_step) : Outbox :=
  match s with
  | SAppend id occurred_at event => or_unchanged (append_revocation id occurred_at event db) snd db
  | SRegister consumer_name now => or_unchanged (register_consumer consumer_name now db) (fun db => db) db
  | SClaim c consumer_name lease_owner expires_at _ => (claim_candidate c consumer_name lease_owner expires_at db).2
  | SFinish id consumer_name lease_owner expires_at db_now error =>
      or_unchanged (write_finish id consumer_name lease_owner expires_at db_now error db) (fun db => db) db
  | SPublish id error db_now => (record_publish_result id error db_now db).2
  | SCleanup cutoff now => or_unchanged (cleanup_acknowledged_before cutoff now db) snd db
  end.
Definition run_steps `{OutboxOps} (ss : list outbox_step) (db : Outbox) : Outbox := foldl run_step db ss.
Definition outbox_empty (registry : Z) : Outbox :=
  {| ob_events := ∅; ob_consumers := ∅; ob_receipts := ∅; ob_registry := registry |}.

(** exactly the pairs of an event and a consumer have a receipt, and a lease has an owner and an end *)
Record outbox_wf (db : Outbox) : Prop := {
  ow_receipts : forall id c, is_Some (ob_receipts db !! (id, c)) <-> is_Some (ob_events db !! id) /\ is_Some (ob_consumers db !! c);
  ow_leases : forall k r, ob_receipts db !! k = Some r -> is_some_b (rp_lease_owner r) = is_some_b (rp_lease_expires_at r);
}.
Lemma add_receipts_lookup keys db k :
  ob_receipts (add_receipts keys db) !! k =
  match ob_receipts db !! k with Some r => Some r | None => if decide (k ∈ keys) then Some new_receipt else None end.
Proof.
  unfold add_receipts. cbn [with_receipts ob_receipts]. induction keys as [|k' keys IH]; cbn [foldr].
  - destruct (ob_receipts db !! k); [done|]. destruct (decide _) as [Hx|]; [inversion Hx|done].
  - set (m := foldr _ _ keys) in *. destruct (decide (k = k')) as [->|Hne].
    + destruct (m !! k') as [r|] eqn:Hm; [rewrite Hm|rewrite lookup_insert_eq].
      * rewrite IH in Hm. destruct (ob_receipts db !! k'); [done|]. rewrite decide_True by set_solver.
        by destruct (decide _); [|done].
      * rewrite IH in Hm. destruct (ob_receipts db !! k'); [done|]. by rewrite decide_True by set_solver.
    + assert ((match m !! k' with Some _ => m | None => <[k' := new_receipt]> m end) !! k = m !! k) as ->
        by (destruct (m !! k'); [done|by rewrite lookup_insert_ne]).
      rewrite IH. destruct (ob_receipts db !! k); [done|]. apply decide_ext. set_solver.
Qed.
Lemma event_keys db id : id ∈ (map_to_list (ob_events db)).*1 <-> is_Some (ob_events db !! id).
Proof.
  rewrite list_elem_of_fmap. split.
  - intros ([k e] & -> & Hin%elem_of_map_to_list). by exists e.
  - intros [e He]. exists (id, e). split; [done|]. by apply elem_of_map_to_list.
Qed.
Lemma consumer_keys db c : c ∈ (map_to_list (ob_consumers db)).*1 <-> is_Some (ob_consumers db !! c).
Proof.
  rewrite list_elem_of_fmap. split.
  - intros ([k e] & -> & Hin%elem_of_map_to_list). by exists e.
  - intros [e He]. exists (c, e). split; [done|]. by apply elem_of_map_to_list.
Qed.
(** what a step leaves of a receipt *)
Section steps.
Context `{OutboxOps}.
Lemma serialize_registry_ok db db' : serialize_registry db = Ok db' ->
  ob_events db' = ob_events db /\ ob_consumers db' = ob_consumers db /\ ob_receipts db' = ob_receipts db.
Proof. unfold serialize_registry. destruct (_ <? _)%Z; [|done]. by intros [= <-]. Qed.
Lemma append_revocation_ok id now event db row db' :
  append_revocation id now event db = Ok (row, db') ->
  ob_events db !! id = None /\ ob_events db' = <[id := row]> (ob_events db) /\ ob_consumers db' = ob_consumers db /\
  ev_event row = event /\ ev_occurred_at row = now /\
  forall k, ob_receipts db' !! k = match ob_receipts db !! k with Some r => Some r
    | None => if decide (k.1 = id /\ is_Some (ob_consumers db !! k.2)) then Some new_receipt else None end.
Proof.
  unfold append_revocation. intros Ha. ok_inv.
  match goal with Hs : serialize_registry db = Ok ?d |- _ => apply serialize_registry_ok in Hs as (He & Hc & Hr) end.
  match goal with Hf : is_some_b _ = false |- _ => rewrite He in Hf; destruct (ob_events db !! id) eqn:Hid; [done|] end.
  split_and!; [done| | |done|done|].
  - cbn. by rewrite He.
  - cbn. by rewrite Hc.
  - intros [id' c]. rewrite add_receipts_lookup. cbn [with_events ob_receipts fst snd]. rewrite Hr.
    destruct (ob_receipts db !! (id', c)); [done|]. apply decide_ext. cbn [with_events ob_consumers]. rewrite Hc. rewrite list_elem_of_fmap. split.
    + intros (c' & [= -> ->] & Hin). split; [done|]. by apply consumer_keys.
    + intros [-> Hin]. exists c. split; [done|]. by apply consumer_keys.
Qed.
Lemma register_consumer_ok c now db db' :
  register_consumer c now db = Ok db' ->
  ob_events db' = ob_events db /\ (forall c', is_Some (ob_consumers db' !! c') <-> c' = c \/ is_Some (ob_consumers db !! c')) /\
  forall k, ob_receipts db' !! k = match ob_receipts db !! k with Some r => Some r
    | None => if decide (k.2 = c /\ is_Some (ob_events db !! k.1)) then Some new_receipt else None end.
Proof.
  unfold register_consumer. intros Ha. ok_inv.
  match goal with Hs : serialize_registry db = Ok ?d |- _ => apply serialize_registry_ok in Hs as (He & Hc & Hr) end.
  split_and!; [done| |].
  - intros c'. cbn. rewrite Hc. rewrite lookup_insert_is_Some. destruct (decide (c' = c)); naive_solver.
  - intros [id c']. rewrite add_receipts_lookup. cbn [with_consumers ob_receipts fst snd]. rewrite Hr.
    destruct (ob_receipts db !! (id, c')); [done|]. apply decide_ext. cbn [with_consumers ob_events]. rewrite He, list_elem_of_fmap. split.
    + intros (e & [= -> ->] & Hin). split; [done|]. by apply event_keys.
    + intros [-> Hin]. exists id. split; [done|]. by apply event_keys.
Qed.
Lemma claim_candidate_ok c consumer owner expires db :
  (claim_candidate c consumer owner expires db).2 = db \/ exists r,
    ob_receipts db !! (cc_event_id c, consumer) = Some r /\ claim_matches c r = true /\
    (claim_candidate c consumer owner expires db).2 =
      with_receipts (<[(cc_event_id c, consumer) := {| rp_lease_owner := Some owner; rp_lease_expires_at := Some expires;
        rp_attempts := rp_attempts r + 1; rp_acknowledged_at := rp_acknowledged_at r; rp_last_error_redacted := None |}]> (ob_receipts db)) db.
Proof.
  unfold claim_candidate. destruct (ob_receipts db !! _) as [r|] eqn:Hr; [|by left]. destruct (claim_matches c r) eqn:Hm; [|by left].
  right. by exists r.
Qed.
Lemma write_finish_ok id consumer owner expires now error db db' :
  write_finish id consumer owner expires now error db = Ok db' ->
  exists r, ob_receipts db !! (id, consumer) = Some r /\ rp_lease_owner r = Some owner /\ rp_lease_expires_at r = Some expires /\
    rp_acknowledged_at r = None /\ ob_events db' = ob_events db /\
    (forall c, is_Some (ob_consumers db' !! c) <-> is_Some (ob_consumers db !! c)) /\
    ob_receipts db' = <[(id, consumer) := release_receipt now error r]> (ob_receipts db).
Proof.
  unfold write_finish. destruct (ob_receipts db !! _) as [r|] eqn:Hr; [|done].
  destruct (_ && _ && _)%bool eqn:Hb; [|done]. intros [= <-]. bool_hyps. exists r. split_and!; try done.
  - by destruct (rp_acknowledged_at r).
  - intros c. cbn. rewrite lookup_alter_is_Some. done.
Qed.
Lemma publish_keeps id error now db :
  let db' := (record_publish_result id error now db).2 in
  ob_consumers db' = ob_consumers db /\ ob_receipts db' = ob_receipts db /\
  forall i, is_Some (ob_events db' !! i) <-> is_Some (ob_events db !! i).
Proof.
  unfold record_publish_result. cbn zeta. destruct (match error with Some _ => _ | None => _ end); [|done].
  destruct (ob_events db !! id) as [e|] eqn:He; [|done]. destruct (_ <? _)%Z; [|done]. split_and!; [done..|].
  intros i. cbn. rewrite lookup_insert_is_Some. split; [intros [<-|[_ ?]]; [by exists e|done]|]. intros ?. destruct (decide (id = i)); auto.
Qed.
Lemma cleanup_ok cutoff now db n db' :
  cleanup_acknowledged_before cutoff now db = Ok (n, db') ->
  ob_consumers db' = ob_consumers db /\
  (forall id e, ob_events db' !! id = Some e <-> ob_events db !! id = Some e /\ ~ deletable db (Z.min cutoff now) (id, e)) /\
  forall k r, ob_receipts db' !! k = Some r <->
    ob_receipts db !! k = Some r /\ forall e, ob_events db !! k.1 = Some e -> ~ deletable db (Z.min cutoff now) (k.1, e).
Proof.
  unfold cleanup_acknowledged_before. intros Ha. ok_inv.
  match goal with Hs : serialize_registry db = Ok ?d |- _ => pose proof (serialize_registry_ok _ _ Hs) as (He & Hc & Hr) end.
  assert (forall kv, deletable x (Z.min cutoff now) kv <-> deletable db (Z.min cutoff now) kv) as Hd.
  { intros kv. unfold deletable, acknowledged_by_all. by rewrite Hc, Hr. }
  cbn [with_receipts with_events ob_events ob_consumers ob_receipts]. split_and!; [done| |].
  - intros id e. rewrite map_lookup_filter_Some, He, Hd. done.
  - intros k r. rewrite map_lookup_filter_Some, Hr, map_lookup_filter_None, He. cbn [fst]. setoid_rewrite Hd. split.
    + intros [? [Hn|Hn]]; (split; [done|]); intros e Hk; [congruence|by apply Hn].
    + intros [? Hn]. split; [done|]. by right.
Qed.
End steps.

(** ** Invariants *)
Section invariants.
Context `{OutboxOps}.
Lemma outbox_empty_wf n : outbox_wf (outbox_empty n).
Proof. split; cbn; [|done]. intros id c. rewrite !lookup_empty. split; [by intros [? ?]|by intros [[? ?] _]]. Qed.
(** changing one receipt that exists *)
Lemma set_receipt_wf db k r r' :
  outbox_wf db -> ob_receipts db !! k = Some r -> is_some_b (rp_lease_owner r') = is_some_b (rp_lease_expires_at r') ->
  forall ev cs, (forall i, is_Some (ev !! i) <-> is_Some (ob_events db !! i)) -> (forall c, is_Some (cs !! c) <-> is_Some (ob_consumers db !! c)) ->
  outbox_wf {| ob_events := ev; ob_consumers := cs; ob_receipts := <[k := r']> (ob_receipts db); ob_registry := ob_registry db |}.
Proof.
  intros [Hrec Hlease] Hk Hr' ev cs Hev Hcs. split; cbn.
  - intros id c. rewrite Hev, Hcs, <- Hrec, lookup_insert_is_Some. split; [|intros Hx; destruct (decide (k = (id, c))); [by left|by right]].
    intros [<-|[_ ?]]; [by exists r|done].
  - intros k' r0. rewrite lookup_insert_Some. intros [[<- <-]|[_ Hk']]; [done|by eapply Hlease].
Qed.
Lemma run_step_wf db s : outbox_wf db -> outbox_wf (run_step db s).
Proof.
  intros Hw. pose proof Hw as [Hrec Hlease]. destruct s as [id now event|c now|cc c owner expires now|id c owner expires now error|id error now|cutoff now]; cbn [run_step].
  - destruct (append_revocation _ _ _ _) as [[row db']|] eqn:Ha; [|done]. cbn [or_unchanged snd].
    apply append_revocation_ok in Ha as (Hnew & He & Hc & _ & _ & Hr). split.
    + intros id' c. rewrite Hr, He, Hc. cbn [fst snd]. destruct (decide (id' = id)) as [->|Hne].
      * assert (ob_receipts db !! (id, c) = None) as ->.
        { destruct (ob_receipts db !! (id, c)) eqn:Hx; [|done]. assert (is_Some (ob_receipts db !! (id, c))) as [[e ?] _]%Hrec by (by eexists). congruence. }
        rewrite lookup_insert_eq. destruct (decide _) as [[_ ?]|Hn]; [split; [by split; [eexists|]|by eexists]|].
        split; [by intros [? ?]|]. intros [_ ?]. by destruct Hn.
      * rewrite lookup_insert_ne by done. rewrite <- Hrec. destruct (ob_receipts db !! (id', c)); [done|].
        rewrite decide_False by naive_solver. done.
    + intros k r. rewrite Hr. destruct (ob_receipts db !! k) eqn:Hk; [intros [= <-]; by eapply Hlease|].
      destruct (decide _); [by intros [= <-]|done].
  - destruct (register_consumer _ _ _) as [db'|] eqn:Ha; [|done]. cbn [or_unchanged].
    apply register_consumer_ok in Ha as (He & Hc & Hr). split.
    + intros id c'. rewrite Hr, He, Hc. cbn [fst snd]. destruct (ob_receipts db !! (id, c')) as [r|] eqn:Hx.
      * assert (is_Some (ob_receipts db !! (id, c'))) as [? ?]%Hrec by (by eexists). split; [auto|by eexists].
      * assert (~ (is_Some (ob_events db !! id) /\ is_Some (ob_consumers db !! c'))) as Hno.
        { intros Hy%Hrec. rewrite Hx in Hy. by destruct Hy. }
        destruct (decide _) as [[-> ?]|Hn]; [split; [auto|by eexists]|]. split; [by intros [? ?]|].
        intros [He' [->|?]]; [by destruct Hn|by destruct Hno].
    + intros k r. rewrite Hr. destruct (ob_receipts db !! k) eqn:Hk; [intros [= <-]; by eapply Hlease|].
      destruct (decide _); [by intros [= <-]|done].
  - destruct (claim_candidate_ok cc c owner expires db) as [->|(r & Hk & _ & ->)]; [done|]. by eapply set_receipt_wf.
  - destruct (write_finish _ _ _ _ _ _ _) as [db'|] eqn:Hf; [|done]. cbn [or_unchanged].
    apply write_finish_ok in Hf as (r & Hk & _ & _ & _ & He & Hc & Hr).
    destruct (set_receipt_wf db (id, c) r (release_receipt now error r) Hw Hk eq_refl (ob_events db') (ob_consumers db')) as [Hrec' Hlease'];
      [by intros i; rewrite He|done|]. cbn in *. rewrite <- Hr in *. by split.
  - destruct (publish_keeps id error now db) as (Hc & Hr & He). split.
    + intros i c. by rewrite Hr, Hc, He.
    + intros k r. rewrite Hr. apply Hlease.
  - destruct (cleanup_acknowledged_before _ _ _) as [[n db']|] eqn:Ha; [|done]. cbn [or_unchanged snd].
    apply cleanup_ok in Ha as (Hc & He & Hr). split.
    + intros id c. rewrite Hc. split.
      * intros [r Hx]. apply Hr in Hx as [Hx Hn]. cbn in Hn. assert (is_Some (ob_receipts db !! (id, c))) as [[e Hid] ?]%Hrec by (by eexists).
        split; [|done]. exists e. apply He. auto.
      * intros [[e Hid] Hcs]. apply He in Hid as [Hid Hn]. assert (is_Some (ob_receipts db !! (id, c))) as [r Hx] by (apply Hrec; split; [by eexists|done]).
        exists r. apply Hr. split; [done|]. cbn. intros e' He'. congruence.
    + intros k r Hx. apply Hr in Hx as [Hx _]. by eapply Hlease.
Qed.
Lemma run_steps_wf ss db : outbox_wf db -> outbox_wf (run_steps ss db).
Proof. unfold run_steps. revert db. induction ss as [|s ss IH]; intros db Hw; [done|]. cbn. by apply IH, run_step_wf. Qed.

(** a receipt that is not acknowledged keeps its event *)
Lemma unacknowledged_not_deletable db id c r cutoff e :
  outbox_wf db -> ob_receipts db !! (id, c) = Some r -> rp_acknowledged_at r = None -> ~ deletable db cutoff (id, e).
Proof.
  intros [Hrec _] Hr Ha [_ Hall]. unfold acknowledged_by_all in Hall. cbn [fst] in Hall. rewrite forallb_forall in Hall.
  assert (is_Some (ob_receipts db !! (id, c))) as [_ Hc]%Hrec by (by eexists).
  specialize (Hall c). rewrite Hr, Ha in Hall. cbn in Hall. discriminate Hall. apply list_elem_of_In. by apply consumer_keys.
Qed.
Definition acknowledges (id : uuid) (c : string) (s : outbox_step) : Prop :=
  match s with SFinish id' c' _ _ _ None => id' = id /\ c' = c | _ => False end.
(** an unacknowledged receipt stays until it is acknowledged *)
Lemma step_keeps_pending db s id c r :
  outbox_wf db -> ob_receipts db !! (id, c) = Some r -> rp_acknowledged_at r = None -> ~ acknowledges id c s ->
  exists r', ob_receipts (run_step db s) !! (id, c) = Some r' /\ rp_acknowledged_at r' = None.
Proof.
  intros Hw Hr Ha Hs. destruct s as [id' now event|c' now|cc c' owner expires now|id' c' owner expires now error|id' error now|cutoff now]; cbn [run_step].
  - destruct (append_revocation _ _ _ _) as [[row db']|] eqn:Hx; [|eauto]. cbn [or_unchanged snd].
    apply append_revocation_ok in Hx as (_ & _ & _ & _ & _ & Hx). rewrite Hx, Hr. eauto.
  - destruct (register_consumer _ _ _) as [db'|] eqn:Hx; [|eauto]. cbn [or_unchanged].
    apply register_consumer_ok in Hx as (_ & _ & Hx). rewrite Hx, Hr. eauto.
  - destruct (claim_candidate_ok cc c' owner expires db) as [->|(r0 & Hk & _ & ->)]; [eauto|]. cbn [with_receipts ob_receipts].
    destruct (decide ((cc_event_id cc, c') = (id, c))) as [Heq|Hne].
    + rewrite Heq in *. rewrite lookup_insert_eq. eexists. split; [done|]. cbn. congruence.
    + rewrite lookup_insert_ne by done. eauto.
  - destruct (write_finish _ _ _ _ _ _ _) as [db'|] eqn:Hf; [|eauto]. cbn [or_unchanged].
    apply write_finish_ok in Hf as (r0 & Hk & _ & _ & _ & _ & _ & ->). destruct (decide ((id', c') = (id, c))) as [Heq|Hne].
    + rewrite Heq, lookup_insert_eq. eexists. split; [done|]. injection Heq as -> ->. cbn. destruct error; [congruence|by destruct Hs].
    + rewrite lookup_insert_ne by done. eauto.
  - destruct (publish_keeps id' error now db) as (_ & -> & _). eauto.
  - destruct (cleanup_acknowledged_before _ _ _) as [[n db']|] eqn:Hx; [|eauto]. cbn [or_unchanged snd].
    apply cleanup_ok in Hx as (_ & _ & Hx). exists r. split; [|done]. apply Hx. split; [done|]. cbn. intros e _.
    by eapply unacknowledged_not_deletable.
Qed.
Lemma steps_keep_pending ss db id c r :
  outbox_wf db -> ob_receipts db !! (id, c) = Some r -> rp_acknowledged_at r = None -> Forall (fun s => ~ acknowledges id c s) ss ->
  exists r', ob_receipts (run_steps ss db) !! (id, c) = Some r' /\ rp_acknowledged_at r' = None.
Proof.
  unfold run_steps. revert db r. induction ss as [|s ss IH]; intros db r Hw Hr Ha Hs; [eauto|].
  apply Forall_cons in Hs as [Hs Hss]. cbn. destruct (step_keeps_pending db s id c r) as (r' & Hr' & Ha'); [done..|].
  eapply IH; [by apply run_step_wf|done..].
Qed.
(** a lease that has not expired is left alone by all but its owner *)
Definition finishes (id : uuid) (c owner : string) (s : outbox_step) : Prop :=
  match s with SFinish id' c' owner' _ _ _ => id' = id /\ c' = c /\ owner' = owner | _ => False end.
Lemma step_keeps_lease db s id c r owner expires :
  outbox_wf db -> ob_receipts db !! (id, c) = Some r -> rp_acknowledged_at r = None ->
  rp_lease_owner r = Some owner -> rp_lease_expires_at r = Some expires ->
  step_ok s -> (forall now, step_clock s = Some now -> (now < expires)%Z) -> ~ finishes id c owner s ->
  ob_receipts (run_step db s) !! (id, c) = Some r.
Proof.
  intros Hw Hr Ha Ho He Hok Hclock Hs.
  destruct s as [id' now event|c' now|cc c' owner' expires' now|id' c' owner' expires' now error|id' error now|cutoff now]; cbn [run_step].
  - destruct (append_revocation _ _ _ _) as [[row db']|] eqn:Hx; [|done]. cbn [or_unchanged snd].
    apply append_revocation_ok in Hx as (_ & _ & _ & _ & _ & Hx). by rewrite Hx, Hr.
  - destruct (register_consumer _ _ _) as [db'|] eqn:Hx; [|done]. cbn [or_unchanged].
    apply register_consumer_ok in Hx as (_ & _ & Hx). by rewrite Hx, Hr.
  - destruct (claim_candidate_ok cc c' owner' expires' db) as [->|(r0 & Hk & Hm & ->)]; [done|]. cbn [with_receipts ob_receipts].
    destruct (decide ((cc_event_id cc, c') = (id, c))) as [Heq|Hne]; [|by rewrite lookup_insert_ne].
    exfalso. rewrite Heq, Hr in Hk. injection Hk as <-. unfold claim_matches in Hm. bool_hyps.
    specialize (Hclock now eq_refl). cbn [step_ok] in Hok. unfold candidate_ok in Hok.
    destruct (cc_previous_owner cc), (cc_previous_expires_at cc) as [x|]; try congruence. assert (x = expires) as -> by congruence. lia.
  - destruct (write_finish _ _ _ _ _ _ _) as [db'|] eqn:Hf; [|done]. cbn [or_unchanged].
    apply write_finish_ok in Hf as (r0 & Hk & Ho0 & _ & _ & _ & _ & ->).
    destruct (decide ((id', c') = (id, c))) as [Heq|Hne]; [|by rewrite lookup_insert_ne].
    injection Heq as -> ->. destruct Hs. cbn. split_and!; [done|done|]. congruence.
  - destruct (publish_keeps id' error now db) as (_ & -> & _). done.
  - destruct (cleanup_acknowledged_before _ _ _) as [[n db']|] eqn:Hx; [|done]. cbn [or_unchanged snd].
    apply cleanup_ok in Hx as (_ & _ & Hx). apply Hx. split; [done|]. cbn. intros e _. by eapply unacknowledged_not_deletable.
Qed.
Lemma steps_keep_lease ss db id c r owner expires :
  outbox_wf db -> ob_receipts db !! (id, c) = Some r -> rp_acknowledged_at r = None ->
  rp_lease_owner r = Some owner -> rp_lease_expires_at r = Some expires ->
  Forall (fun s => step_ok s /\ (forall now, step_clock s = Some now -> (now < expires)%Z) /\ ~ finishes id c owner s) ss ->
  ob_receipts (run_steps ss db) !! (id, c) = Some r.
Proof.
  unfold run_steps. revert db. induction ss as [|s ss IH]; intros db Hw Hr Ha Ho He Hs; [done|].
  apply Forall_cons in Hs as [(? & ? & ?) Hss]. cbn. apply IH; [by apply run_step_wf| |done..]. by eapply step_keeps_lease.
Qed.
End invariants.

(** an appended event is pending for every consumer *)
Lemma append_revocation_new `{OutboxOps} id now event db row db' :
  outbox_wf db -> append_revocation id now event db = Ok (row, db') ->
  ob_events db' !! id = Some row /\ ev_event row = event /\
  forall c, is_Some (ob_consumers db !! c) -> ob_receipts db' !! (id, c) = Some new_receipt.
Proof.
  intros Hw (Hfresh & He & _ & Hev & _ & Hrec)%append_revocation_ok. split_and!; [by rewrite He, lookup_insert_eq|done|].
  intros c Hc. rewrite Hrec. destruct (ob_receipts db !! (id, c)) as [x|] eqn:Hx; [|by rewrite decide_True].
  exfalso. destruct (proj1 (ow_receipts _ Hw id c)) as [[? ?] _]; [by exists x|congruence].
Qed.

(** ** Claiming *)
Section claiming.
Context `{OutboxOps}.
Lemma pending_elem consumer db id e r :
  (id, (e, r)) ∈ pending consumer db <->
  ob_receipts db !! (id, consumer) = Some r /\ rp_acknowledged_at r = None /\ ob_events db !! id = Some e.
Proof.
  unfold pending. rewrite merge_sort_Permutation, list_elem_of_omap. unfold pending_of. split.
  - intros ([[id' c'] r'] & Hin%elem_of_map_to_list & Hp). cbn [fst snd] in Hp. destruct (String.eqb_spec c' consumer) as [->|]; [|done].
    destruct (rp_acknowledged_at r') eqn:Ha; [done|]. cbn in Hp. destruct (ob_events db !! id') eqn:He; [|done]. by injection Hp as -> -> ->.
  - intros (Hr & Ha & He). exists ((id, consumer), r). split; [by apply elem_of_map_to_list|]. cbn. by rewrite String.eqb_refl, Ha, He.
Qed.
Definition ready_row (now : instant) (p : uuid * (EventRow * ReceiptRow)) : Prop :=
  claimable now p.2.2 = Ok true /\ (rp_attempts p.2.2 < i32_max)%Z.
Definition busy_row (now : instant) (p : uuid * (EventRow * ReceiptRow)) : Prop := claimable now p.2.2 = Ok false.
Lemma first_claimable_ok now rows :
  Forall (fun p => ready_row now p \/ busy_row now p) rows -> Exists (ready_row now) rows ->
  exists id e r, first_claimable now rows = Ok (Some {| cc_event_id := id; cc_event := e; cc_previous_owner := rp_lease_owner r;
    cc_previous_expires_at := rp_lease_expires_at r; cc_attempts := rp_attempts r |}) /\ (id, (e, r)) ∈ rows /\ ready_row now (id, (e, r)).
Proof.
  induction rows as [|[id [e r]] rows IH]; intros Hall Hex; [inversion Hex|]. apply Forall_cons in Hall as [[Hr|Hb] Hall]; cbn [first_claimable].
  - pose proof Hr as [Hc Ha]. cbn in Hc, Ha. rewrite Hc. run_ok. destruct (Z.eqb_spec (rp_attempts r) i32_max); [lia|]. run_ok.
    exists id, e, r. split; [done|]. split; [by left|done].
  - unfold busy_row in Hb. cbn in Hb. rewrite Hb. run_ok. destruct IH as (id' & e' & r' & ? & ? & ?); [done| |].
    + apply Exists_cons in Hex as [[Hx _]|?]; [cbn in Hx; congruence|done].
    + exists id', e', r'. split; [done|]. split; [by right|done].
Qed.
Definition names_ok (consumer owner : string) : Prop :=
  validate_consumer_identity consumer "consumer name" = Ok () /\ validate_consumer_identity owner "lease owner" = Ok ().

Lemma claimed_row cc c owner expires db cl db1 :
  claim_candidate cc c owner expires db = (Some cl, db1) ->
  exists r, ob_receipts db !! (cc_event_id cc, c) = Some r /\ rp_acknowledged_at r = None /\ cl_event_id cl = cc_event_id cc /\
    db1 = with_receipts (<[(cc_event_id cc, c) := {| rp_lease_owner := Some owner; rp_lease_expires_at := Some expires;
        rp_attempts := rp_attempts r + 1; rp_acknowledged_at := rp_acknowledged_at r; rp_last_error_redacted := None |}]> (ob_receipts db)) db.
Proof.
  unfold claim_candidate. destruct (ob_receipts db !! _) as [r|] eqn:Hr; [|done]. destruct (claim_matches cc r) eqn:Hm; [|done].
  intros [= <- <-]. exists r. unfold claim_matches in Hm. bool_hyps. split_and!; try done. by destruct (rp_acknowledged_at r).
Qed.
Lemma read_lease_held db id c owner now r expires :
  ob_receipts db !! (id, c) = Some r -> rp_lease_owner r = Some owner -> rp_lease_expires_at r = Some expires ->
  rp_acknowledged_at r = None -> (now < expires)%Z -> read_lease id c owner now db = Ok expires.
Proof.
  intros Hr Ho He Ha Hnow. unfold read_lease. rewrite Hr, Ho, He, Ha, bool_decide_true by done. cbn.
  destruct (Z.leb_spec expires now); [lia|done].
Qed.
Lemma write_finish_held db id c owner expires db_now error r :
  ob_receipts db !! (id, c) = Some r -> rp_lease_owner r = Some owner -> rp_lease_expires_at r = Some expires ->
  rp_acknowledged_at r = None ->
  write_finish id c owner expires db_now error db =
    Ok (with_consumers (alter (fun _ => {| cn_last_seen_at := Some db_now |}) c (ob_consumers db))
      (with_receipts (<[(id, c) := release_receipt db_now error r]> (ob_receipts db)) db)).
Proof. intros Hr Ho He Ha. unfold write_finish. by rewrite Hr, Ho, He, Ha, !bool_decide_true. Qed.

(** the oldest pending event comes first *)
#[local] Instance occurs_before_trans : Transitive occurs_before.
Proof. intros p q r [?|[? ?]] [?|[? ?]]; unfold occurs_before; lia. Qed.
#[local] Instance occurs_before_total : Total occurs_before.
Proof. intros p q. unfold occurs_before. lia. Qed.
Lemma pending_head c db id e r :
  (id, (e, r)) ∈ pending c db -> (forall p, p ∈ pending c db -> occurs_before (id, (e, r)) p) ->
  exists rest, pending c db = (id, (e, r)) :: rest.
Proof.
  intros Hin Hmin. assert (StronglySorted occurs_before (pending c db)) as Hs by apply (StronglySorted_merge_sort occurs_before).
  destruct (pending c db) as [|[id' [e' r']] rest] eqn:Hp; [inversion Hin|]. exists rest. f_equal.
  assert (id' = id) as ->.
  { apply elem_of_cons in Hin as [Heq|Hin]; [congruence|]. apply StronglySorted_inv in Hs as [_ Hall]. rewrite Forall_forall in Hall.
    specialize (Hall _ Hin). specialize (Hmin (id', (e', r')) ltac:(by left)). unfold occurs_before in *. cbn in *. lia. }
  assert ((id, (e', r')) ∈ pending c db) as Hin' by (rewrite Hp; by left). rewrite <- Hp in Hin.
  apply pending_elem in Hin as (? & _ & ?), Hin' as (? & _ & ?). congruence.
Qed.
Definition free_receipt (attempts : Z) (error : option string) : ReceiptRow :=
  {| rp_lease_owner := None; rp_lease_expires_at := None; rp_attempts := attempts; rp_acknowledged_at := None; rp_last_error_redacted := error |}.
(** a free event at the head is claimed *)
Lemma claim_next_head c db owner duration world now id e attempts error rest expires :
  names_ok c owner -> (1 <= duration <= seconds 300)%Z -> is_Some (ob_consumers db !! c) -> world 2%nat = (now, fun db => db) ->
  pending c db = (id, (e, free_receipt attempts error)) :: rest -> (attempts < i32_max)%Z -> outbox_add_nanos now duration = Some expires ->
  exists cl, claim_next c owner duration world db = (Ok (Some cl), with_receipts
    (<[(id, c) := {| rp_lease_owner := Some owner; rp_lease_expires_at := Some expires; rp_attempts := attempts + 1;
       rp_acknowledged_at := None; rp_last_error_redacted := None |}]> (ob_receipts db)) db) /\
    cl_event_id cl = id /\ cl_event cl = e.
Proof.
  intros [Hn1 Hn2] Hd [row Hc] Hworld Hp Hatt Hexp. unfold claim_next. rewrite Hn1, Hn2. run_ok.
  unfold seconds, nanos_per_second, MAX_LEASE_SECONDS in *. destruct (Z.eqb_spec duration 0); [lia|].
  destruct (Z.ltb_spec 300 (duration / 1000000000)); [div_lia|]. run_ok. cbn [claim_loop]. rewrite Hworld. unfold claim_attempt. rewrite Hc.
  unfold load_claim_candidate. rewrite Hp. cbn [take first_claimable MAX_CLAIM_SCAN]. unfold claimable. cbn [free_receipt rp_lease_owner rp_lease_expires_at rp_attempts]. run_ok.
  destruct (Z.eqb_spec attempts i32_max); [lia|]. run_ok. rewrite Hexp.
  assert ((id, (e, free_receipt attempts error)) ∈ pending c db) as Hin by (rewrite Hp; by left).
  apply pending_elem in Hin as (Hr & _ & _). unfold claim_candidate. cbn [cc_event_id]. rewrite Hr. unfold claim_matches. cbn.
  destruct (Z.ltb_spec attempts i32_max); [|lia]. cbn. rewrite !bool_decide_true by done. cbn. eexists. by split_and!.
Qed.
End claiming.

(** ** Properties *)
(** C30: A revocation reaches every consumer.  Whatever instances do and in whatever order, an event of the outbox
    has a receipt for each registered consumer, registered before it or after; and as long as a consumer has not
    acknowledged it, the event is neither deleted nor marked, however often its claims fail or expire. *)
Theorem revocation_kept_until_acknowledged `{OutboxOps} n earlier later id c :
  let db := run_steps earlier (outbox_empty n) in
  is_Some (ob_events db !! id) -> is_Some (ob_consumers db !! c) ->
  exists r, ob_receipts db !! (id, c) = Some r /\
    (rp_acknowledged_at r = None -> Forall (fun s => ~ acknowledges id c s) later ->
     exists e r', ob_events (run_steps later db) !! id = Some e /\ ob_receipts (run_steps later db) !! (id, c) = Some r' /\
       rp_acknowledged_at r' = None).
Proof.
  intros db He Hc. assert (outbox_wf db) as Hw by (apply run_steps_wf, outbox_empty_wf).
  destruct (proj2 (ow_receipts db Hw id c) (conj He Hc)) as [r Hr]. exists r. split; [done|]. intros Ha Hs.
  destruct (steps_keep_pending later db id c r) as (r' & Hr' & Ha'); [done..|].
  assert (is_Some (ob_receipts (run_steps later db) !! (id, c))) as Hx by (by exists r').
  apply (ow_receipts _ (run_steps_wf later db Hw)) in Hx as [[e Hx] _]. eauto.
Qed.

(** A claim is exclusive until it expires.  Once an instance has claimed an event, whatever others do while
    their clocks are before the end of the lease, nobody else finishes the claim, and the instance itself can
    acknowledge it, also if others write between the two statements of its acknowledgement. *)
Theorem claim_is_exclusive `{OutboxOps} n earlier cc c owner expires cl db1 ss ss2 now db_now :
  let db := run_steps earlier (outbox_empty n) in
  let others := Forall (fun s => step_ok s /\ (forall t, step_clock s = Some t -> (t < expires)%Z) /\ ~ finishes (cc_event_id cc) c owner s) in
  claim_candidate cc c owner expires db = (Some cl, db1) -> names_ok c owner -> others ss -> others ss2 -> (now < expires)%Z ->
  let db2 := run_steps ss db1 in
  (exists db3 r, acknowledge (cc_event_id cc) c owner now db_now (run_steps ss2) db2 = (Ok (), db3) /\
     ob_receipts db3 !! (cc_event_id cc, c) = Some r /\ rp_acknowledged_at r = Some db_now) /\
  forall other error db3, other <> owner ->
    (finish_claim (cc_event_id cc) c other error now db_now (run_steps ss2) db2) <> (Ok (), db3).
Proof.
  intros db others Hclaim [Hn1 Hn2] Hss Hss2 Hnow db2.
  assert (outbox_wf db) as Hw by (apply run_steps_wf, outbox_empty_wf).
  apply claimed_row in Hclaim as (r & Hr & Ha & _ & ->). set (r1 := {| rp_lease_owner := Some owner |}) in *.
  set (db1 := with_receipts _ db) in *.
  assert (outbox_wf db1) as Hw1 by (by eapply set_receipt_wf).
  assert (ob_receipts db1 !! (cc_event_id cc, c) = Some r1) as Hr1 by (cbn; apply lookup_insert_eq).
  assert (ob_receipts db2 !! (cc_event_id cc, c) = Some r1) as Hr2 by (by eapply steps_keep_lease).
  assert (ob_receipts (run_steps ss2 db2) !! (cc_event_id cc, c) = Some r1) as Hr3 by (eapply steps_keep_lease; [by apply run_steps_wf|done..]).
  split.
  - unfold acknowledge, finish_claim. rewrite Hn1, Hn2. run_ok.
    rewrite (read_lease_held _ _ _ _ _ r1 expires) by done. rewrite (write_finish_held _ _ _ _ _ _ _ r1) by done.
    eexists _, _. split; [reflexivity|]. split; [cbn; apply lookup_insert_eq|done].
  - intros other error db3 Hne. unfold finish_claim. destruct (validate_consumer_identity c _) as [[]|]; [|done]. run_ok.
    destruct (validate_consumer_identity other _) as [[]|]; [|done]. run_ok. unfold read_lease. rewrite Hr2. cbn [r1 rp_lease_owner].
    rewrite bool_decide_false by congruence. done.
Qed.

(** Pending revocations are claimed.  When, of the oldest 64 events a registered consumer has not
    acknowledged, some is free or its lease has expired, and none has been tried 2^31-1 times, [claim_next] claims
    one of them, leased to the caller for the asked duration. *)
Theorem pending_revocation_is_claimed `{OutboxOps} n earlier c owner duration now expires :
  let db := run_steps earlier (outbox_empty n) in
  let oldest := take MAX_CLAIM_SCAN (pending c db) in
  names_ok c owner -> (1 <= duration <= seconds 300)%Z -> outbox_add_nanos now duration = Some expires ->
  is_Some (ob_consumers db !! c) ->
  Forall (fun p => ready_row now p \/ busy_row now p) oldest -> Exists (ready_row now) oldest ->
  exists cl db' r, claim_next c owner duration (fun _ => (now, fun db => db)) db = (Ok (Some cl), db') /\
    (cl_event_id cl, (cl_event cl, r)) ∈ oldest /\ ready_row now (cl_event_id cl, (cl_event cl, r)) /\
    cl_lease_owner cl = owner /\ cl_lease_expires_at cl = expires /\
    ob_receipts db' !! (cl_event_id cl, c) = Some {| rp_lease_owner := Some owner; rp_lease_expires_at := Some expires;
      rp_attempts := rp_attempts r + 1; rp_acknowledged_at := None; rp_last_error_redacted := None |}.
Proof.
  intros db oldest [Hn1 Hn2] Hd Hexp [row Hc] Hall Hex. unfold claim_next. rewrite Hn1, Hn2. run_ok.
  unfold seconds, nanos_per_second, MAX_LEASE_SECONDS in *. destruct (Z.eqb_spec duration 0); [lia|].
  destruct (Z.ltb_spec 300 (duration / 1000000000)); [div_lia|]. run_ok. cbn [claim_loop]. unfold claim_attempt. rewrite Hc.
  unfold load_claim_candidate. fold oldest.
  destruct (first_claimable_ok now oldest Hall Hex) as (id & e & r & -> & Hin & Hready). rewrite Hexp.
  assert ((id, (e, r)) ∈ pending c db) as Hp by (apply elem_of_take in Hin as (i & Hi & _); by eapply list_elem_of_lookup_2).
  apply pending_elem in Hp as (Hr & Ha & He). unfold claim_candidate. cbn [cc_event_id]. rewrite Hr.
  unfold claim_matches. cbn [cc_previous_owner cc_previous_expires_at]. rewrite Ha, !bool_decide_true by done.
  pose proof Hready as [_ Hatt]. cbn in Hatt. apply Z.ltb_lt in Hatt. rewrite Hatt. cbn [is_none_b andb].
  eexists _, _, r. split; [done|]. cbn [cl_event_id cl_event cl_lease_owner cl_lease_expires_at]. split_and!; try done.
  cbn. apply lookup_insert_eq.
Qed.
