(* ===== verification/Authz.v ===== *)
(** * Capabilities and their overrides (src/src/authz.rs, migrations/0055)

    A profile has the capabilities of its role, changed by overrides that stay within a ceiling.  Every change
    of an override bumps the authorization revision of the profile and appends a revocation event, in one
    transaction.  Columns of uuids and timestamps hold what the code wrote; names of roles, profile types and
    capabilities are text. *)
From stdpp Require Import pretty.
From S2P Require Import Prelude Bytes LiveContract CatalogGrants CanonicalJson RevocationOutbox.

(** ** Capabilities *)
Inductive Capability :=
| ServerAdmin | UsersManage | SharingManage | DevicesManageOwn | DevicesManageAll | LibraryRead | MediaPlay | MediaDelete
| LibraryScan | ReviewQueueManage | AcquisitionRequest | AcquisitionManage | ExtensionsView | ExtensionsManage
| SecretsManage | SettingsView | SettingsManage | LiveBrowse | LivePlay | LiveManage.
#[export] Instance Capability_eq_dec : EqDecision Capability.
Proof. solve_decision. Defined.
Module Capability.
Definition ALL : list Capability :=
  [ServerAdmin; UsersManage; SharingManage; DevicesManageOwn; DevicesManageAll; LibraryRead; MediaPlay; MediaDelete;
   LibraryScan; ReviewQueueManage; AcquisitionRequest; AcquisitionManage; ExtensionsView; ExtensionsManage;
   SecretsManage; SettingsView; SettingsManage; LiveBrowse; LivePlay; LiveManage].
Definition as_str (c : Capability) : string :=
  match c with
  | ServerAdmin => "server_admin"
  | UsersManage => "users_manage"
  | SharingManage => "sharing_manage"
  | DevicesManageOwn => "devices_manage_own"
  | DevicesManageAll => "devices_manage_all"
  | LibraryRead => "library_read"
  | MediaPlay => "media_play"
  | MediaDelete => "media_delete"
  | LibraryScan => "library_scan"
  | ReviewQueueManage => "review_queue_manage"
  | AcquisitionRequest => "acquisition_request"
  | AcquisitionManage => "acquisition_manage"
  | ExtensionsView => "extensions_view"
  | ExtensionsManage => "extensions_manage"
  | SecretsManage => "secrets_manage"
  | SettingsView => "settings_view"
  | SettingsManage => "settings_manage"
  | LiveBrowse => "live_browse"
  | LivePlay => "live_play"
  | LiveManage => "live_manage"
  end.
(** the discriminant of [#[repr(u8)]] *)
Definition discriminant (c : Capability) : N :=
  match c with
  | ServerAdmin => 0 | UsersManage => 1 | SharingManage => 2 | DevicesManageOwn => 3 | DevicesManageAll => 4
  | LibraryRead => 5 | MediaPlay => 6 | MediaDelete => 7 | LibraryScan => 8 | ReviewQueueManage => 9
  | AcquisitionRequest => 10 | AcquisitionManage => 11 | ExtensionsView => 12 | ExtensionsManage => 13
  | SecretsManage => 14 | SettingsView => 15 | SettingsManage => 16 | LiveBrowse => 17 | LivePlay => 18
  | LiveManage => 19
  end.
Definition bit (c : Capability) : N := N.shiftl 1 (discriminant c).
Definition try_from (value : string) : option Capability := List.find (fun c => String.eqb (as_str c) value) ALL.
End Capability.

(** a set is the 64-bit word of the bits of its members *)
Definition CapabilitySet := N.
Module CapabilitySet.
Definition empty : CapabilitySet := 0%N.
Definition contains (s : CapabilitySet) (c : Capability) : bool := negb (N.land s (Capability.bit c) =? 0)%N.
Definition insert (c : Capability) (s : CapabilitySet) : CapabilitySet := N.lor s (Capability.bit c).
Definition remove (c : Capability) (s : CapabilitySet) : CapabilitySet := N.ldiff s (Capability.bit c).
Definition from_iter (values : list Capability) : CapabilitySet := foldl (fun s c => insert c s) empty values.
Definition all : CapabilitySet := from_iter Capability.ALL.
Definition iter (s : CapabilitySet) : list Capability := List.filter (contains s) Capability.ALL.
End CapabilitySet.

Record EffectiveAuthorization := { ea_revision : Z; ea_capabilities : CapabilitySet }.
Inductive AuthorizationError :=
| OverrideExceedsRoleCeiling | OwnerOverrideForbidden | OverrideActorNotAuthorized | AuthzRevisionOverflow
| ProfileUnavailable | AuthzInvalidInput (what : string) | AuthzInvalidState (what : string)
| AuthzRevocation (e : RevocationError).

Definition role_default_capabilities (role : HomeRole) (profile_type : ProfileType) : CapabilitySet :=
  match profile_type with
  | Managed => CapabilitySet.from_iter [DevicesManageOwn; LibraryRead; MediaPlay; LiveBrowse; LivePlay]
  | Account =>
      match role with
      | Owner => CapabilitySet.all
      | Admin => CapabilitySet.from_iter
          [UsersManage; SharingManage; DevicesManageOwn; DevicesManageAll; LibraryRead; MediaPlay; MediaDelete; LibraryScan;
           ReviewQueueManage; AcquisitionRequest; AcquisitionManage; ExtensionsView; ExtensionsManage; SettingsView;
           SettingsManage; LiveBrowse; LivePlay]
      | Manager => CapabilitySet.from_iter
          [DevicesManageOwn; LibraryRead; MediaPlay; MediaDelete; LibraryScan; ReviewQueueManage; AcquisitionRequest;
           AcquisitionManage; ExtensionsView; LiveBrowse; LivePlay]
      | Viewer => CapabilitySet.from_iter [DevicesManageOwn; LibraryRead; MediaPlay; LiveBrowse; LivePlay]
      end
  end.
Definition override_ceiling (role : HomeRole) (profile_type : ProfileType) : CapabilitySet :=
  match profile_type with
  | Managed => role_default_capabilities role profile_type
  | Account =>
      match role with
      | Owner => CapabilitySet.all
      | Admin => CapabilitySet.insert SecretsManage (CapabilitySet.insert LiveManage (role_default_capabilities role profile_type))
      | Manager | Viewer => role_default_capabilities role profile_type
      end
  end.

(** ** Tables *)
Definition HomeRole_try_from (value : string) : option HomeRole :=
  if String.eqb value "owner" then Some Owner
  else if String.eqb value "admin" then Some Admin
  else if String.eqb value "manager" then Some Manager
  else if String.eqb value "viewer" then Some Viewer
  else None.
Definition ProfileType_try_from (value : string) : option ProfileType :=
  if String.eqb value "account" then Some Account
  else if String.eqb value "managed" then Some Managed
  else None.
Record ProfileRow := { pf_home_id : uuid; pf_user_id : option uuid; pf_profile_type : string }.
Record MemberRow := { mb_role : string; mb_status : string }.
Record OverrideRow := { ov_allowed : bool; ov_created_by_user_id : option uuid; ov_created_by_actor_snapshot : string }.
Record AuthzTables := {
  az_profiles : gmap uuid ProfileRow;
  az_members : gmap (uuid * uuid) MemberRow;            (* (home, user) *)
  az_revisions : gmap uuid RevisionRow;
  az_overrides : gmap (uuid * string) OverrideRow;      (* (profile, capability) *)
  az_outbox : Outbox;
}.
Definition with_revisions (r : gmap uuid RevisionRow) (t : AuthzTables) : AuthzTables :=
  {| az_profiles := az_profiles t; az_members := az_members t; az_revisions := r; az_overrides := az_overrides t; az_outbox := az_outbox t |}.
Definition with_overrides (o : gmap (uuid * string) OverrideRow) (t : AuthzTables) : AuthzTables :=
  {| az_profiles := az_profiles t; az_members := az_members t; az_revisions := az_revisions t; az_overrides := o; az_outbox := az_outbox t |}.
Definition with_outbox (o : Outbox) (t : AuthzTables) : AuthzTables :=
  {| az_profiles := az_profiles t; az_members := az_members t; az_revisions := az_revisions t; az_overrides := az_overrides t; az_outbox := o |}.

(** ** [load_effective]: the overrides of the profile in the order of their names *)
Definition override_row := (string * bool)%type.
Definition name_le (p q : override_row) : Prop := String.compare p.1 q.1 <> Gt.
#[local] Instance name_le_dec : RelDecision name_le.
Proof. intros p q. unfold name_le. destruct (String.compare p.1 q.1); [left|left|right]; congruence. Defined.
Definition override_of (profile_id : uuid) (kv : (uuid * string) * OverrideRow) : option override_row :=
  if (kv.1.1 =? profile_id)%N then Some (kv.1.2, ov_allowed kv.2) else None.
Definition override_rows (profile_id : uuid) (t : AuthzTables) : list override_row :=
  merge_sort name_le (omap (override_of profile_id) (map_to_list (az_overrides t))).
Fixpoint apply_overrides (ceiling : CapabilitySet) (rows : list override_row) (capabilities : CapabilitySet)
    : result AuthorizationError CapabilitySet :=
  match rows with
  | [] => Ok capabilities
  | (name, allowed) :: rows =>
      capability ← ok_or (Capability.try_from name) (AuthzInvalidState "capability name");
      if (allowed : bool) then
        _ ← reject_if (negb (CapabilitySet.contains ceiling capability)) (AuthzInvalidState "capability override exceeds role ceiling");
        apply_overrides ceiling rows (CapabilitySet.insert capability capabilities)
      else apply_overrides ceiling rows (CapabilitySet.remove capability capabilities)
  end.
Definition unrestricted_owner (role : HomeRole) (profile_type : ProfileType) : bool :=
  match role, profile_type with Owner, Account => true | _, _ => false end.
Definition decode_effective_authorization (revision : option Z) (rows : list override_row) (role : HomeRole) (profile_type : ProfileType)
    : result AuthorizationError EffectiveAuthorization :=
  revision ← ok_or revision ProfileUnavailable;
  _ ← reject_if (revision <=? 0)%Z (AuthzInvalidState "profile authorization revision");
  let capabilities := role_default_capabilities role profile_type in
  capabilities ← (if negb (unrestricted_owner role profile_type)
                  then apply_overrides (override_ceiling role profile_type) rows capabilities
                  else Ok capabilities);
  Ok {| ea_revision := revision; ea_capabilities := capabilities |}.
Definition load_effective (profile_id : uuid) (role : HomeRole) (profile_type : ProfileType) (t : AuthzTables)
    : result AuthorizationError EffectiveAuthorization :=
  decode_effective_authorization (rv_revision <$> az_revisions t !! profile_id) (override_rows profile_id t) role profile_type.

(** ** Changing an override *)
Record OverrideTarget := { ot_home_id : uuid; ot_role : HomeRole; ot_profile_type : ProfileType; ot_revision : Z }.
Definition active_member (home_id user_id : uuid) (t : AuthzTables) : option MemberRow :=
  match az_members t !! (home_id, user_id) with
  | Some m => if String.eqb (mb_status m) "active" then Some m else None
  | None => None
  end.
Definition load_override_target (profile_id : uuid) (t : AuthzTables) : result AuthorizationError OverrideTarget :=
  '(profile, revision) ← ok_or (match az_profiles t !! profile_id, az_revisions t !! profile_id with
    | Some p, Some r => if (rv_home_id r =? pf_home_id p)%N then Some (p, r) else None
    | _, _ => None
    end) ProfileUnavailable;
  profile_type ← ok_or (ProfileType_try_from (pf_profile_type profile)) (AuthzInvalidState "profile type");
  role ← match profile_type with
         | Managed => Ok Viewer
         | Account =>
             member ← ok_or (pf_user_id profile ≫= fun u => active_member (pf_home_id profile) u t) ProfileUnavailable;
             ok_or (HomeRole_try_from (mb_role member)) (AuthzInvalidState "home role")
         end;
  Ok {| ot_home_id := pf_home_id profile; ot_role := role; ot_profile_type := profile_type; ot_revision := rv_revision revision |}.
Definition validate_override (target : OverrideTarget) (capability : Capability) (allowed : bool) : result AuthorizationError unit :=
  _ ← reject_if (unrestricted_owner (ot_role target) (ot_profile_type target)) OwnerOverrideForbidden;
  reject_if (allowed && negb (CapabilitySet.contains (override_ceiling (ot_role target) (ot_profile_type target)) capability))
    OverrideExceedsRoleCeiling.
Definition validate_actor_snapshot (value : string) : result AuthorizationError unit :=
  reject_if (negb (String.eqb (trim value) value) || str_empty value || (512 <? slen value)%Z || any_byte ascii_control value)
    (AuthzInvalidInput "actor snapshot").
Definition require_override_owner (home_id actor_user_id : uuid) (t : AuthzTables) : result AuthorizationError unit :=
  reject_if (negb (is_some_and (fun m => String.eqb (mb_role m) "owner") (active_member home_id actor_user_id t)))
    OverrideActorNotAuthorized.
(** [bump_profile_authorization_revision_in_transaction] *)
Definition bump_profile_authorization_revision (profile_id : uuid) (t : AuthzTables) : result AuthorizationError (Z * AuthzTables) :=
  match az_revisions t !! profile_id with
  | Some r =>
      if (rv_revision r <? i64_max)%Z
      then Ok (rv_revision r + 1, with_revisions (<[profile_id := {| rv_home_id := rv_home_id r; rv_revision := rv_revision r + 1 |}]> (az_revisions t)) t)%Z
      else Err AuthzRevisionOverflow
  | None => Err AuthzRevisionOverflow
  end.
(** [bump_home_authorization_revisions_in_transaction] *)
Definition bump_home_authorization_revisions (home_id : uuid) (t : AuthzTables) : result AuthorizationError (list (uuid * Z) * AuthzTables) :=
  let of_home := filter (fun kv => rv_home_id kv.2 = home_id) (az_revisions t) in
  let bumped := (fun r => {| rv_home_id := rv_home_id r; rv_revision := rv_revision r + 1 |}) <$>
                filter (fun kv => (rv_revision kv.2 < i64_max)%Z) of_home in
  _ ← reject_if (negb (size bumped =? size of_home)%nat) AuthzRevisionOverflow;
  Ok ((fun kv => (kv.1, rv_revision kv.2)) <$> map_to_list bumped, with_revisions (bumped ∪ az_revisions t) t).

Section changes.
Context `{UuidText} `{OutboxOps}.
Definition context_changed (home_id actor_user_id profile_id : uuid) (reason_code : string) (payload : json) : NewAuthorizationRevocation :=
  {| nr_home_id := home_id; nr_event_type := AuthorizationContextChanged; nr_subject_type := SubjectProfile;
     nr_subject_id := uuid_to_string profile_id; nr_actor_user_id := Some actor_user_id; nr_account_session_id := None;
     nr_profile_id := Some profile_id; nr_provider_id := None; nr_grant_id := None; nr_reason_code := reason_code;
     nr_payload := payload |}.
Definition append_event (event_id : uuid) (now : instant) (event : NewAuthorizationRevocation) (t : AuthzTables)
    : result AuthorizationError AuthzTables :=
  '(_, outbox) ← map_err AuthzRevocation (append_revocation event_id now event (az_outbox t));
  Ok (with_outbox outbox t).
(** the transactions, with the id and the time of the event; after the commit the notifier only wakes listeners *)
Definition set_profile_override (actor_user_id : uuid) (actor_snapshot : string) (profile_id : uuid) (capability : Capability)
    (allowed : bool) (event_id : uuid) (now : instant) (t : AuthzTables) : result AuthorizationError (Z * AuthzTables) :=
  _ ← validate_actor_snapshot actor_snapshot;
  target ← load_override_target profile_id t;
  _ ← require_override_owner (ot_home_id target) actor_user_id t;
  _ ← validate_override target capability allowed;
  let key := (profile_id, Capability.as_str capability) in
  if bool_decide (ov_allowed <$> az_overrides t !! key = Some allowed) then Ok (ot_revision target, t)
  else
    let row := {| ov_allowed := allowed; ov_created_by_user_id := Some actor_user_id; ov_created_by_actor_snapshot := actor_snapshot |} in
    let t := with_overrides (<[key := row]> (az_overrides t)) t in
    '(revision, t) ← bump_profile_authorization_revision profile_id t;
    t ← append_event event_id now (context_changed (ot_home_id target) actor_user_id profile_id "profile_capability_override_changed"
          (JObject [("allowed", JBool allowed); ("capability", JString (Capability.as_str capability)); ("revision", JNumber (pretty revision))])) t;
    Ok (revision, t).
Definition remove_profile_override (actor_user_id profile_id : uuid) (capability : Capability) (event_id : uuid) (now : instant)
    (t : AuthzTables) : result AuthorizationError (option Z * AuthzTables) :=
  target ← load_override_target profile_id t;
  _ ← require_override_owner (ot_home_id target) actor_user_id t;
  let key := (profile_id, Capability.as_str capability) in
  if is_none_b (az_overrides t !! key) then Ok (None, t)
  else
    let t := with_overrides (delete key (az_overrides t)) t in
    '(revision, t) ← bump_profile_authorization_revision profile_id t;
    t ← append_event event_id now (context_changed (ot_home_id target) actor_user_id profile_id "profile_capability_override_removed"
          (JObject [("capability", JString (Capability.as_str capability)); ("revision", JNumber (pretty revision))])) t;
    Ok (Some revision, t).
End changes.

(** ** Sets of capabilities *)
Lemma discriminant_inj c c' : Capability.discriminant c = Capability.discriminant c' -> c = c'.
Proof. destruct c, c'; by intros. Qed.
Lemma as_str_inj c c' : Capability.as_str c = Capability.as_str c' -> c = c'.
Proof. destruct c, c'; by intros. Qed.
Lemma Capability_try_from_as_str c : Capability.try_from (Capability.as_str c) = Some c.
Proof. by destruct c. Qed.
Lemma Capability_try_from_some name c : Capability.try_from name = Some c -> name = Capability.as_str c.
Proof. intros H. apply List.find_some in H as [_ H]. by apply String.eqb_eq in H. Qed.
Lemma contains_testbit s c : CapabilitySet.contains s c = N.testbit s (Capability.discriminant c).
Proof.
  unfold CapabilitySet.contains, Capability.bit. rewrite N.shiftl_1_l. set (n := Capability.discriminant c).
  destruct (N.testbit s n) eqn:Hb.
  - destruct (N.eqb_spec (N.land s (2 ^ n)) 0) as [Hz|]; [|done].
    assert (N.testbit (N.land s (2 ^ n)) n = true) as Hx by (by rewrite N.land_spec, Hb, N.pow2_bits_true).
    by rewrite Hz, N.bits_0 in Hx.
  - assert (N.land s (2 ^ n) = 0%N) as ->; [|done]. apply N.bits_inj. intros m. rewrite N.land_spec, N.bits_0, N.pow2_bits_eqb.
    destruct (N.eqb_spec n m) as [<-|]; [by rewrite Hb|by rewrite andb_false_r].
Qed.
Lemma bit_testbit c c' : N.testbit (Capability.bit c) (Capability.discriminant c') = bool_decide (c = c').
Proof.
  unfold Capability.bit. rewrite N.shiftl_1_l, N.pow2_bits_eqb. destruct (N.eqb_spec (Capability.discriminant c) (Capability.discriminant c')) as [Heq|Hne].
  - apply discriminant_inj in Heq as ->. by rewrite bool_decide_true.
  - rewrite bool_decide_false; [done|]. by intros ->.
Qed.
Lemma contains_insert c s c' : CapabilitySet.contains (CapabilitySet.insert c s) c' = bool_decide (c = c') || CapabilitySet.contains s c'.
Proof. rewrite !contains_testbit. unfold CapabilitySet.insert. rewrite N.lor_spec, bit_testbit. apply orb_comm. Qed.
Lemma contains_remove c s c' : CapabilitySet.contains (CapabilitySet.remove c s) c' = negb (bool_decide (c = c')) && CapabilitySet.contains s c'.
Proof. rewrite !contains_testbit. unfold CapabilitySet.remove. rewrite N.ldiff_spec, bit_testbit. apply andb_comm. Qed.
#[local] Opaque CapabilitySet.contains CapabilitySet.insert CapabilitySet.remove.
Lemma default_within_ceiling role ty c :
  CapabilitySet.contains (role_default_capabilities role ty) c = true -> CapabilitySet.contains (override_ceiling role ty) c = true.
Proof.
  destruct ty, role; try done; cbn [override_ceiling]. rewrite !contains_insert. intros ->. by rewrite !orb_true_r.
Qed.

(** ** Overrides *)
Definition row_within (ceiling : CapabilitySet) (row : override_row) : Prop :=
  exists c, Capability.try_from row.1 = Some c /\ (row.2 = true -> CapabilitySet.contains ceiling c = true).
Lemma apply_overrides_is_ok ceiling rows s :
  is_ok (apply_overrides ceiling rows s) = true <-> Forall (row_within ceiling) rows.
Proof.
  revert s. induction rows as [|[name allowed] rows IH]; intros s; cbn [apply_overrides].
  { split; [by constructor|done]. }
  rewrite Forall_cons. unfold row_within at 1. cbn [fst snd].
  destruct (Capability.try_from name) as [c|]; run_ok; [|by split; [|intros [(? & ? & _) _]]].
  destruct allowed; [destruct (CapabilitySet.contains ceiling c) eqn:Hc; run_ok|].
  - rewrite IH. split; [intros ?; split; [by exists c|done]|by intros [_ ?]].
  - split; [done|]. intros [(c' & [= <-] & Hx) _]. by rewrite Hx in Hc.
  - rewrite IH. split; [intros ?; split; [by exists c|done]|by intros [_ ?]].
Qed.
Lemma apply_overrides_contains ceiling rows s s' c :
  NoDup rows.*1 -> apply_overrides ceiling rows s = Ok s' ->
  CapabilitySet.contains s' c =
    match (list_to_map rows : gmap string bool) !! Capability.as_str c with Some allowed => allowed | None => CapabilitySet.contains s c end.
Proof.
  revert s. induction rows as [|[name allowed] rows IH]; intros s Hnd Ha; cbn [apply_overrides] in Ha; [by injection Ha as ->|].
  cbn [fmap list_fmap fst] in Hnd. apply NoDup_cons in Hnd as [Hfresh Hnd].
  destruct (Capability.try_from name) as [c0|] eqn:Hc0; [|done]. cbn [ok_or mbind result_bind] in Ha. apply Capability_try_from_some in Hc0 as ->.
  cbn [list_to_map foldr curry].
  assert (exists s0, apply_overrides ceiling rows s0 = Ok s' /\
    CapabilitySet.contains s0 c = if bool_decide (c0 = c) then allowed else CapabilitySet.contains s c) as (s0 & Hs0 & Hc).
  { destruct allowed; [ok_inv|]; (eexists; split; [exact Ha|]); rewrite ?contains_insert, ?contains_remove; by case_bool_decide. }
  rewrite (IH s0) by done. destruct (decide (c0 = c)) as [->|Hne].
  - cbn. rewrite lookup_insert_eq. rewrite bool_decide_true in Hc by done.
    assert ((list_to_map rows : gmap string bool) !! Capability.as_str c = None) as ->; [|done]. by apply not_elem_of_list_to_map.
  - cbn. rewrite lookup_insert_ne; [|by intros ?%as_str_inj]. rewrite bool_decide_false in Hc by done. by rewrite Hc.
Qed.
Lemma override_names_nodup profile_id l : NoDup l.*1 -> NoDup (omap (override_of profile_id) l).*1.
Proof.
  induction l as [|[[p name] row] l IH]; [intros _; constructor|]. intros [Hfresh Hnd]%NoDup_cons. cbn [omap list_omap]. unfold override_of at 1. cbn [fst snd].
  destruct (N.eqb_spec p profile_id) as [->|]; [|by apply IH]. cbn. apply NoDup_cons. split; [|by apply IH].
  intros ([n b] & -> & Hin)%list_elem_of_fmap. apply list_elem_of_omap in Hin as ([[p' n'] row'] & Hin & Ho).
  unfold override_of in Ho. cbn in Ho. destruct (N.eqb_spec p' profile_id) as [->|]; [|done]. injection Ho as -> _.
  apply Hfresh. apply list_elem_of_fmap. by exists ((profile_id, n), row').
Qed.
Lemma override_rows_elem profile_id t name allowed :
  (name, allowed) ∈ override_rows profile_id t <-> ov_allowed <$> az_overrides t !! (profile_id, name) = Some allowed.
Proof.
  unfold override_rows. rewrite merge_sort_Permutation, list_elem_of_omap. split.
  - intros ([[p n] row] & Hin%elem_of_map_to_list & Ho). unfold override_of in Ho. cbn in Ho.
    destruct (N.eqb_spec p profile_id) as [->|]; [|done]. injection Ho as -> <-. by rewrite Hin.
  - intros Ho. destruct (az_overrides t !! (profile_id, name)) as [row|] eqn:Hr; [|done]. injection Ho as <-.
    exists ((profile_id, name), row). split; [by apply elem_of_map_to_list|]. unfold override_of. cbn. by rewrite N.eqb_refl.
Qed.
Lemma override_rows_nodup profile_id t : NoDup (override_rows profile_id t).*1.
Proof.
  unfold override_rows. rewrite merge_sort_Permutation. apply override_names_nodup, NoDup_fst_map_to_list.
Qed.
Lemma override_rows_lookup profile_id t name :
  (list_to_map (override_rows profile_id t) : gmap string bool) !! name = ov_allowed <$> az_overrides t !! (profile_id, name).
Proof.
  destruct (ov_allowed <$> az_overrides t !! (profile_id, name)) as [b|] eqn:Ho.
  - apply elem_of_list_to_map; [apply override_rows_nodup|]. by apply override_rows_elem.
  - apply not_elem_of_list_to_map. intros ([n b] & -> & Hin)%list_elem_of_fmap. apply override_rows_elem in Hin. cbn in Ho. congruence.
Qed.

(** ** Effective capabilities *)
Definition overrides_within (profile_id : uuid) (role : HomeRole) (ty : ProfileType) (t : AuthzTables) : Prop :=
  forall name row, az_overrides t !! (profile_id, name) = Some row -> row_within (override_ceiling role ty) (name, ov_allowed row).
Definition effective (profile_id : uuid) (role : HomeRole) (ty : ProfileType) (t : AuthzTables) (c : Capability) : bool :=
  if unrestricted_owner role ty then true
  else match ov_allowed <$> az_overrides t !! (profile_id, Capability.as_str c) with
       | Some allowed => allowed
       | None => CapabilitySet.contains (role_default_capabilities role ty) c
       end.
Lemma rows_within profile_id role ty t :
  Forall (row_within (override_ceiling role ty)) (override_rows profile_id t) <-> overrides_within profile_id role ty t.
Proof.
  rewrite Forall_forall. split.
  - intros H name row Hr. apply H, override_rows_elem. by rewrite Hr.
  - intros H [name b] Hin. apply override_rows_elem in Hin. destruct (az_overrides t !! (profile_id, name)) as [row|] eqn:Hr; [|done].
    injection Hin as <-. by apply H.
Qed.
Lemma all_contains c : CapabilitySet.contains CapabilitySet.all c = true.
Proof. destruct c; vm_compute; reflexivity. Qed.
Lemma load_effective_is_ok profile_id role ty t :
  is_ok (load_effective profile_id role ty t) = true <->
  (exists r, az_revisions t !! profile_id = Some r /\ (0 < rv_revision r)%Z) /\
  (unrestricted_owner role ty = true \/ overrides_within profile_id role ty t).
Proof.
  unfold load_effective, decode_effective_authorization. rewrite <- rows_within.
  destruct (az_revisions t !! profile_id) as [r|]; cbn [fmap option_fmap option_map ok_or mbind result_bind]; [|by split; [|intros [(? & ? & _) _]]].
  destruct (Z.leb_spec (rv_revision r) 0) as [Hle|Hlt]; run_ok.
  { split; [done|]. intros [(r' & [= <-] & ?) _]. lia. }
  destruct (unrestricted_owner role ty); cbn [negb]; run_ok.
  { split; [intros _; split; [by exists r|by left]|done]. }
  rewrite <- (apply_overrides_is_ok _ _ (role_default_capabilities role ty)).
  destruct (apply_overrides _ _ _) as [s|]; cbn [is_ok mbind result_bind].
  - split; [intros _; split; [by exists r|by right]|done].
  - split; [done|by intros [_ [?|?]]].
Qed.
Lemma load_effective_contains profile_id role ty t ea c :
  load_effective profile_id role ty t = Ok ea ->
  rv_revision <$> az_revisions t !! profile_id = Some (ea_revision ea) /\
  CapabilitySet.contains (ea_capabilities ea) c = effective profile_id role ty t c.
Proof.
  unfold load_effective, decode_effective_authorization, effective. intros Hl. ok_inv. split; [done|].
  destruct (unrestricted_owner role ty) eqn:Ho; cbn [negb] in *.
  - ok_inv. destruct role, ty; try done. apply all_contains.
  - cbn [ea_capabilities]. match goal with Ha : apply_overrides _ _ _ = Ok _ |- _ =>
      rewrite (apply_overrides_contains _ _ _ _ c (override_rows_nodup profile_id t) Ha) end.
    by rewrite override_rows_lookup.
Qed.

(** ** Changes *)
Section effects.
Context `{UuidText} `{OutboxOps}.
Lemma append_event_ok id now event t t' :
  append_event id now event t = Ok t' ->
  az_profiles t' = az_profiles t /\ az_members t' = az_members t /\ az_revisions t' = az_revisions t /\ az_overrides t' = az_overrides t /\
  exists row, append_revocation id now event (az_outbox t) = Ok (row, az_outbox t').
Proof.
  unfold append_event. destruct (append_revocation _ _ _ _) as [[row o]|]; [|done]. cbn. intros [= <-]. split_and!; try done. by exists row.
Qed.
Lemma bump_ok profile_id t rev t' :
  bump_profile_authorization_revision profile_id t = Ok (rev, t') ->
  exists r, az_revisions t !! profile_id = Some r /\ rev = (rv_revision r + 1)%Z /\ (rev <= i64_max)%Z /\
    t' = with_revisions (<[profile_id := {| rv_home_id := rv_home_id r; rv_revision := rev |}]> (az_revisions t)) t.
Proof.
  unfold bump_profile_authorization_revision. destruct (az_revisions t !! profile_id) as [r|]; [|done].
  destruct (Z.ltb_spec (rv_revision r) i64_max); [|done]. intros [= <- <-]. exists r. split_and!; [done..|lia|done].
Qed.
(** the target of an override depends only on profiles and members, and on the home of the revision *)
Lemma target_kept profile_id t t' target :
  load_override_target profile_id t = Ok target -> az_profiles t' = az_profiles t -> az_members t' = az_members t ->
  (forall r, az_revisions t !! profile_id = Some r -> exists r', az_revisions t' !! profile_id = Some r' /\ rv_home_id r' = rv_home_id r) ->
  exists target', load_override_target profile_id t' = Ok target' /\ ot_home_id target' = ot_home_id target /\
    ot_role target' = ot_role target /\ ot_profile_type target' = ot_profile_type target /\
    rv_revision <$> az_revisions t' !! profile_id = Some (ot_revision target').
Proof.
  unfold load_override_target, active_member. intros Hl Hp Hm Hr. rewrite Hp, Hm.
  destruct (az_profiles t !! profile_id) as [p|]; [|done]. destruct (az_revisions t !! profile_id) as [r|]; [|done].
  destruct (Hr r eq_refl) as (r' & -> & ->). destruct (rv_home_id r =? pf_home_id p)%N; [|done]. cbn [ok_or mbind result_bind] in *.
  destruct (ProfileType_try_from (pf_profile_type p)) as [ty|]; [|done]. cbn [ok_or mbind result_bind] in *.
  destruct (match ty with Managed => _ | Account => _ end) as [role|]; [|done]. cbn [mbind result_bind] in *. injection Hl as <-.
  eexists. split; [done|]. by split_and!.
Qed.
(** what a change that is not a no-op leaves *)
Definition changed (profile_id : uuid) (overrides : gmap (uuid * string) OverrideRow) (id : uuid) (now : instant)
    (event : NewAuthorizationRevocation) (rev : Z) (t t' : AuthzTables) : Prop :=
  az_profiles t' = az_profiles t /\ az_members t' = az_members t /\ az_overrides t' = overrides /\
  (exists r, az_revisions t !! profile_id = Some r /\ rev = (rv_revision r + 1)%Z /\
     az_revisions t' = <[profile_id := {| rv_home_id := rv_home_id r; rv_revision := rev |}]> (az_revisions t)) /\
  exists row, append_revocation id now event (az_outbox t) = Ok (row, az_outbox t').
Lemma changed_intro profile_id overrides id now event t t1 rev t' :
  bump_profile_authorization_revision profile_id (with_overrides overrides t) = Ok (rev, t1) ->
  append_event id now event t1 = Ok t' -> changed profile_id overrides id now event rev t t'.
Proof.
  intros (r & Hr & -> & _ & ->)%bump_ok (Hp & Hm & Hv & Ho & Hrow)%append_event_ok. cbn in *. split_and!; try done. by exists r.
Qed.
Lemma set_profile_override_ok actor snapshot profile_id c allowed id now t rev t' :
  set_profile_override actor snapshot profile_id c allowed id now t = Ok (rev, t') ->
  exists target, load_override_target profile_id t = Ok target /\ unrestricted_owner (ot_role target) (ot_profile_type target) = false /\
    (allowed = true -> CapabilitySet.contains (override_ceiling (ot_role target) (ot_profile_type target)) c = true) /\
    ((t' = t /\ rev = ot_revision target /\ ov_allowed <$> az_overrides t !! (profile_id, Capability.as_str c) = Some allowed) \/
     exists row payload, ov_allowed row = allowed /\
       changed profile_id (<[(profile_id, Capability.as_str c) := row]> (az_overrides t)) id now
         (context_changed (ot_home_id target) actor profile_id "profile_capability_override_changed" payload) rev t t').
Proof.
  unfold set_profile_override. intros Hs. ok_inv. exists x0. unfold validate_override in *. ok_inv.
  split_and!; [done|done|intros ->; match goal with Hb : (true && negb _)%bool = false |- _ => by apply negb_false_iff in Hb end|]. case_bool_decide; [left; by simplify_eq|right].
  ok_inv. match goal with Hx : (Z * AuthzTables)%type |- _ => destruct Hx as [rev' t1] end. ok_inv.
  eexists _, _. split; [|by eapply changed_intro]. done.
Qed.
Lemma remove_profile_override_ok actor profile_id c id now t rev t' :
  remove_profile_override actor profile_id c id now t = Ok (rev, t') ->
  t' = t \/ exists target payload rev', load_override_target profile_id t = Ok target /\
    changed profile_id (delete (profile_id, Capability.as_str c) (az_overrides t)) id now
      (context_changed (ot_home_id target) actor profile_id "profile_capability_override_removed" payload) rev' t t'.
Proof.
  unfold remove_profile_override. intros Hs. ok_inv. destruct (is_none_b _); [left; by simplify_eq|right].
  ok_inv. match goal with Hx : (Z * AuthzTables)%type |- _ => destruct Hx as [rev' t1] end. ok_inv. eexists _, _, _. split; [done|by eapply changed_intro].
Qed.
Lemma changed_target profile_id overrides id now event rev t t' p :
  changed profile_id overrides id now event rev t t' ->
  (forall target, load_override_target p t' = Ok target -> exists target0, load_override_target p t = Ok target0 /\
     ot_role target0 = ot_role target /\ ot_profile_type target0 = ot_profile_type target).
Proof.
  intros (Hp & Hm & _ & (r & Hr & _ & Hrev) & _) target Ht.
  destruct (target_kept p t' t target) as (target0 & ? & _ & ? & ? & _); [done..| |by exists target0].
  intros r'. rewrite Hrev. destruct (decide (p = profile_id)) as [->|Hne].
  - rewrite lookup_insert_eq. intros [= <-]. by exists r.
  - rewrite lookup_insert_ne by done. intros ?. by exists r'.
Qed.
End effects.

Lemma changed_effective `{OutboxOps} profile_id overrides id now event rev t t' ea role ty :
  changed profile_id overrides id now event rev t t' -> load_effective profile_id role ty t = Ok ea ->
  overrides_within profile_id role ty t' ->
  exists ea', load_effective profile_id role ty t' = Ok ea' /\ ea_revision ea' = rev /\ rev = (ea_revision ea + 1)%Z.
Proof.
  intros (_ & _ & _ & (r & Hr & -> & Hrev) & _) Hl Hw.
  assert (is_ok (load_effective profile_id role ty t) = true) as Hok by (by rewrite Hl).
  apply load_effective_is_ok in Hok as [(r0 & Hr0 & Hpos) _].
  destruct (load_effective_contains _ _ _ _ _ LivePlay Hl) as [Hea _]. rewrite Hr in Hea, Hr0. injection Hr0 as <-. cbn in Hea. injection Hea as Hea.
  assert (is_ok (load_effective profile_id role ty t') = true) as Hok.
  { apply load_effective_is_ok. split; [|by right]. rewrite Hrev, lookup_insert_eq. eexists. split; [done|]. cbn. lia. }
  destruct (load_effective profile_id role ty t') as [ea'|] eqn:Hl'; [|done]. exists ea'. split; [done|].
  destruct (load_effective_contains _ _ _ _ _ LivePlay Hl') as [Hea' _]. rewrite Hrev, lookup_insert_eq in Hea'. cbn in Hea'.
  injection Hea' as Hea'. lia.
Qed.

Inductive override_call :=
| SetOverride (actor_user_id : uuid) (actor_snapshot : string) (profile_id : uuid) (capability : Capability) (allowed : bool)
    (event_id : uuid) (now : instant)
| RemoveOverride (actor_user_id profile_id : uuid) (capability : Capability) (event_id : uuid) (now : instant).
Section calls.
Context `{UuidText} `{OutboxOps}.
Definition run_call (t : AuthzTables) (c : override_call) : AuthzTables :=
  match c with
  | SetOverride a s p c allowed id now => match set_profile_override a s p c allowed id now t with Ok (_, t') => t' | Err _ => t end
  | RemoveOverride a p c id now => match remove_profile_override a p c id now t with Ok (_, t') => t' | Err _ => t end
  end.
Definition run_calls (cs : list override_call) (t : AuthzTables) : AuthzTables := foldl run_call t cs.
(** every override is one the role of its profile allows *)
Record authz_inv (t : AuthzTables) : Prop := {
  ai_revisions : forall p r, az_revisions t !! p = Some r -> (0 < rv_revision r)%Z;
  ai_overrides : forall p target, load_override_target p t = Ok target -> unrestricted_owner (ot_role target) (ot_profile_type target) = false ->
    overrides_within p (ot_role target) (ot_profile_type target) t;
}.
Lemma changed_inv profile_id overrides id now event rev t t' :
  authz_inv t -> changed profile_id overrides id now event rev t t' ->
  (forall p target name row, load_override_target p t = Ok target -> unrestricted_owner (ot_role target) (ot_profile_type target) = false ->
     overrides !! (p, name) = Some row ->
     az_overrides t !! (p, name) = Some row \/ row_within (override_ceiling (ot_role target) (ot_profile_type target)) (name, ov_allowed row)) ->
  authz_inv t'.
Proof.
  intros [Hpos Hin] Hch Hnew. pose proof Hch as (_ & _ & Hov & (r & Hr & -> & Hrev) & _). split.
  - intros p r'. rewrite Hrev, lookup_insert_Some. intros [[<- <-]|[_ Hp]]; [|by eapply Hpos]. apply Hpos in Hr. cbn. lia.
  - intros p target Ht Ho name row Hrow. destruct (changed_target _ _ _ _ _ _ _ _ p Hch target Ht) as (target0 & Ht0 & Hrole & Hty).
    rewrite <- Hrole, <- Hty in *. rewrite Hov in Hrow. destruct (Hnew p target0 name row) as [?|?]; [done..| |done]. by eapply Hin.
Qed.
Lemma run_call_inv t c : authz_inv t -> authz_inv (run_call t c).
Proof.
  intros Hi. destruct c as [a s p c allowed id now|a p c id now]; cbn [run_call].
  - destruct (set_profile_override _ _ _ _ _ _ _ _) as [[rev t']|] eqn:Hs; [|done].
    apply set_profile_override_ok in Hs as (target & Ht & Ho & Hc & [(-> & _)|(row & payload & Hrow & Hch)]); [done|].
    eapply changed_inv; [done..|]. intros p' target' name row' Ht' Ho' Hl. apply lookup_insert_Some in Hl as [[Hk <-]|[_ ?]]; [|by left]. right.
    injection Hk as <- <-. assert (target' = target) as -> by congruence. exists c. cbn. split; [apply Capability_try_from_as_str|]. by rewrite Hrow.
  - destruct (remove_profile_override _ _ _ _ _ _) as [[rev t']|] eqn:Hs; [|done].
    apply remove_profile_override_ok in Hs as [->|(target & payload & rev' & Ht & Hch)]; [done|].
    eapply changed_inv; [done..|]. intros p' target' name row' _ _ Hl. apply lookup_delete_Some in Hl as [_ ?]. by left.
Qed.
Lemma run_overrides_inv cs t : authz_inv t -> authz_inv (run_calls cs t).
Proof. unfold run_calls. revert t. induction cs as [|c cs IH]; intros t Hi; [done|]. by apply IH, run_call_inv. Qed.
Lemma target_revision p t target : load_override_target p t = Ok target -> exists r, az_revisions t !! p = Some r.
Proof. unfold load_override_target. intros Ht. ok_inv. destruct (az_profiles t !! p), (az_revisions t !! p); by eauto. Qed.

(** all revisions of the home, or none *)
Lemma bump_home_ok home t l t' :
  bump_home_authorization_revisions home t = Ok (l, t') ->
  forall p r, az_revisions t !! p = Some r ->
    az_revisions t' !! p = Some {| rv_home_id := rv_home_id r;
      rv_revision := if (rv_home_id r =? home)%N then rv_revision r + 1 else rv_revision r |}%Z.
Proof.
  unfold bump_home_authorization_revisions. intros Hb p r Hr.
  set (of_home := filter (fun kv : uuid * RevisionRow => rv_home_id kv.2 = home) (az_revisions t)) in *.
  set (small := filter (fun kv : uuid * RevisionRow => (rv_revision kv.2 < i64_max)%Z) of_home) in *.
  destruct (Nat.eqb_spec (size ((fun r => {| rv_home_id := rv_home_id r; rv_revision := rv_revision r + 1 |}) <$> small)) (size of_home)) as [Hsize|]; [|done].
  cbn in Hb. injection Hb as _ <-. cbn [with_revisions az_revisions]. rewrite map_size_fmap in Hsize.
  assert (small = of_home) as Heq.
  { apply map_subseteq_size_eq; [apply map_filter_subseteq|lia]. }
  rewrite Heq, lookup_union, lookup_fmap. unfold of_home. rewrite map_lookup_filter, Hr. cbn.
  destruct (N.eqb_spec (rv_home_id r) home) as [He|Hne].
  - rewrite option_guard_True by done. cbn. by rewrite He.
  - rewrite option_guard_False by done. cbn. by destruct r.
Qed.

(** ** Properties *)
(** The capabilities of a profile are those of its role, changed by its overrides.  They load exactly when
    the profile has a revision and its overrides stay within the ceiling of the role; then a capability is there
    when an override allows it, or the role has it and no override denies it; owners have them all. *)
Theorem effective_authorization_exact profile_id role ty t :
  (is_ok (load_effective profile_id role ty t) = true <->
    (exists r, az_revisions t !! profile_id = Some r /\ (0 < rv_revision r)%Z) /\
    (unrestricted_owner role ty = true \/ overrides_within profile_id role ty t)) /\
  (forall ea, load_effective profile_id role ty t = Ok ea ->
    rv_revision <$> az_revisions t !! profile_id = Some (ea_revision ea) /\
    forall c, CapabilitySet.contains (ea_capabilities ea) c = effective profile_id role ty t c).
Proof.
  split; [apply load_effective_is_ok|]. intros ea Hl. split; [by apply (load_effective_contains _ _ _ _ _ LivePlay Hl)|].
  intros c. by apply (load_effective_contains _ _ _ _ _ c Hl).
Qed.

(** An override takes effect, with a revocation.  After [set_profile_override] the profile has the capability
    exactly when it was allowed, and the others as before; and unless the override was there already, the
    revision that principals carry is one higher and every registered consumer has a pending event that names
    the profile, in the same transaction. *)
Theorem override_takes_effect actor snapshot profile_id c allowed id now t rev t' target ea :
  outbox_wf (az_outbox t) -> set_profile_override actor snapshot profile_id c allowed id now t = Ok (rev, t') ->
  load_override_target profile_id t = Ok target ->
  let role := ot_role target in let ty := ot_profile_type target in
  load_effective profile_id role ty t = Ok ea ->
  exists ea', load_effective profile_id role ty t' = Ok ea' /\ ea_revision ea' = rev /\
    CapabilitySet.contains (ea_capabilities ea') c = allowed /\
    (forall c', c' <> c -> CapabilitySet.contains (ea_capabilities ea') c' = CapabilitySet.contains (ea_capabilities ea) c') /\
    (t' = t \/ rev = (ea_revision ea + 1)%Z /\ exists e payload, ob_events (az_outbox t') !! id = Some e /\
       ev_event e = context_changed (ot_home_id target) actor profile_id "profile_capability_override_changed" payload /\
       forall consumer, is_Some (ob_consumers (az_outbox t) !! consumer) ->
         ob_receipts (az_outbox t') !! (id, consumer) = Some new_receipt).
Proof.
  intros Hw Hs Htarget role ty Hl.
  apply set_profile_override_ok in Hs as (target' & Ht & Ho & Hc & Hcase). assert (target' = target) as -> by congruence.
  assert (is_ok (load_effective profile_id role ty t) = true) as Hok by (by rewrite Hl).
  apply load_effective_is_ok in Hok as [(r & Hr & _) [?|Hwithin]]; [subst role ty; congruence|].
  destruct Hcase as [(-> & -> & Hov)|(row & payload & Hrow & Hch)].
  - destruct (target_kept _ _ _ _ Ht eq_refl eq_refl) as (target2 & Ht2 & _ & _ & _ & Hrev); [by intros ? ?; eauto|].
    assert (target2 = target) as -> by congruence.
    exists ea. destruct (load_effective_contains _ _ _ _ _ c Hl) as [Hea Hcon]. split_and!; [done|congruence| |done|by left].
    rewrite Hcon. unfold effective, role, ty. by rewrite Ho, Hov.
  - destruct (changed_effective _ _ _ _ _ _ _ _ _ role ty Hch Hl) as (ea' & Hl' & Hrev' & Hplus).
    { pose proof Hch as (_ & _ & Hov & _). intros name row'. rewrite Hov, lookup_insert_Some. intros [[Hk <-]|[_ ?]]; [|by apply Hwithin].
      injection Hk as <-. exists c. cbn. split; [apply Capability_try_from_as_str|]. by rewrite Hrow. }
    pose proof Hch as (_ & _ & Hov & _ & (e & Happ)). exists ea'. split_and!; [done|done| | |right; split; [done|]].
    + destruct (load_effective_contains _ _ _ _ _ c Hl') as [_ ->]. unfold effective. fold role ty in Ho. by rewrite Ho, Hov, lookup_insert_eq, <- Hrow.
    + intros c' Hne. destruct (load_effective_contains _ _ _ _ _ c' Hl') as [_ ->]. destruct (load_effective_contains _ _ _ _ _ c' Hl) as [_ ->].
      unfold effective. rewrite Hov, lookup_insert_ne; [done|]. intros [= Hk]. by apply Hne, as_str_inj.
    + apply append_revocation_new in Happ as (He & Hev & Hrec); [|done]. exists e, payload. by split_and!.
Qed.

(** Overrides never exceed the ceiling.  Whatever overrides actors set and remove, in whatever order, the
    authorization of every profile loads under its role, and has no capability beyond the ceiling of the role. *)
Theorem overrides_never_exceed_ceiling cs t profile_id target :
  (forall p r, az_revisions t !! p = Some r -> (0 < rv_revision r)%Z) -> az_overrides t = ∅ ->
  let t' := run_calls cs t in
  load_override_target profile_id t' = Ok target ->
  exists ea, load_effective profile_id (ot_role target) (ot_profile_type target) t' = Ok ea /\
    forall c, CapabilitySet.contains (ea_capabilities ea) c = true ->
      CapabilitySet.contains (override_ceiling (ot_role target) (ot_profile_type target)) c = true.
Proof.
  intros Hpos Hnone t' Ht. assert (authz_inv t') as [Hpos' Hin].
  { apply run_overrides_inv. split; [done|]. intros p target0 _ _ name row. by rewrite Hnone, lookup_empty. }
  destruct (target_revision _ _ _ Ht) as [r Hr].
  assert (is_ok (load_effective profile_id (ot_role target) (ot_profile_type target) t') = true) as Hok.
  { apply load_effective_is_ok. split; [exists r; eauto|]. destruct (unrestricted_owner _ _) eqn:Ho; [by left|right; by apply Hin]. }
  destruct (load_effective profile_id _ _ t') as [ea|] eqn:Hl; [|done]. exists ea. split; [done|]. intros c.
  destruct (load_effective_contains _ _ _ _ _ c Hl) as [_ ->]. unfold effective.
  destruct (unrestricted_owner _ _) eqn:Ho.
  { destruct (ot_role target), (ot_profile_type target); try done. intros _. apply all_contains. }
  destruct (az_overrides t' !! (profile_id, Capability.as_str c)) as [row|] eqn:Hrow; cbn; [|apply default_within_ceiling].
  intros Ha. destruct (Hin profile_id target Ht Ho _ _ Hrow) as (c' & Hc' & Hx). cbn [fst snd] in Hc', Hx.
  rewrite Capability_try_from_as_str in Hc'. injection Hc' as <-. auto.
Qed.
End calls.
