(* ===== verification/SessionLifecycle.v ===== *)
(** * Reconciliation and revocation of sessions (src/src/live/session/lifecycle.rs)

    The holder of the control lease ends the sessions that are no longer allowed: all of them when it starts,
    and those an authorization event names when it consumes the outbox.  Every await is a point where other
    instances run: a computation is threaded through the world, which the argument [others] changes before
    each access. *)
From S2P Require Import Prelude Bytes LiveContract SessionTypes ControlLease Crypto Vault SessionStore SessionRepo SessionFacts SessionEvolution.
From S2P Require Import CatalogCache CatalogGrants CanonicalJson RevocationOutbox Authz.

Definition CONSUMER_NAME : string := "live-session-revoker-v1".
Definition CLAIM_SECONDS : Z := 300.
Definition MAX_ACTIVE_SESSIONS : Z := 10000.
Definition MAX_CAS_RETRIES : nat := 8.

Inductive ProviderDirectoryErrorCode := StoreUnavailable | DirNotReady | DirInvalidSnapshot | DirRevisionChanged.
Inductive SessionLifecycleError :=
| LcSession (e : SessionRepositoryError) | LcAuthorization (e : AuthorizationError) | LcGrant (e : LiveProviderGrantError)
| LcProvider (code : ProviderDirectoryErrorCode) | LcRevocation (e : RevocationError) | LcInvalidState.

(** ** The world: the session tables, the tables of authorization with the outbox, the grants, and the provider
    directory of the process, which gives the revision of a provider as the text [{:?}] prints *)
Record World := {
  w_db : Db;
  w_authz : AuthzTables;
  w_grants : gmap (uuid * uuid) GrantRow;
  w_directory : uuid -> result ProviderDirectoryErrorCode string;
}.
Definition with_db (db : Db) (w : World) : World :=
  {| w_db := db; w_authz := w_authz w; w_grants := w_grants w; w_directory := w_directory w |}.
Definition with_world_outbox (o : Outbox) (w : World) : World :=
  {| w_db := w_db w; w_authz := with_outbox o (w_authz w); w_grants := w_grants w; w_directory := w_directory w |}.
Definition grant_tables (w : World) : GrantTables :=
  {| gt_revisions := az_revisions (w_authz w); gt_grants := w_grants w |}.

(** ** Computations: the number of accesses so far and the world after them *)
Definition life (A : Type) : Type := nat * World -> result SessionLifecycleError A * (nat * World).
#[export] Instance life_ret : MRet life := fun A a st => (Ok a, st).
#[export] Instance life_bind : MBind life := fun A B k m st =>
  match m st with (Ok a, st) => k a st | (Err e, st) => (Err e, st) end.
Definition fail {A} (e : SessionLifecycleError) : life A := fun st => (Err e, st).
Definition lift_life {A} (m : result SessionLifecycleError A) : life A := fun st => (m, st).

Record SessionReconciliationReport := { inspected : Z; rep_adopted : Z; rep_terminated : Z; revocations_consumed : Z }.
Record ReconcileOutcome := { adopted : bool; terminated : bool }.

(** ** Which sessions an event is about *)
Section events.
Context `{UuidText}.
Definition required (value : option uuid) : result SessionLifecycleError uuid := ok_or value LcInvalidState.
Definition parse_subject_uuid (event : NewAuthorizationRevocation) : result SessionLifecycleError uuid :=
  ok_or (uuid_parse_str (nr_subject_id event)) LcInvalidState.
(** the field is there and is the subject; [&&] stops at a subject of another type *)
Definition is_subject (subject : AuthorizationSubjectType) (field : option uuid) (event : NewAuthorizationRevocation)
    : result SessionLifecycleError bool :=
  if bool_decide (nr_subject_type event = subject) then
    id ← parse_subject_uuid event;
    Ok (bool_decide (field = Some id))
  else Ok false.
Definition validate_event_subject (event : NewAuthorizationRevocation) : result SessionLifecycleError unit :=
  valid ← match nr_event_type event with
    | AccountSessionRevoked => is_subject SubjectAccountSession (nr_account_session_id event) event
    | AccountRevoked =>
        Ok (bool_decide (nr_subject_type event = SubjectAccount) && is_none_b (nr_account_session_id event)
            && is_none_b (nr_profile_id event) && is_none_b (nr_provider_id event) && is_none_b (nr_grant_id event)
            && is_ok (parse_subject_uuid event))
    | ProfileSwitched =>
        ok ← is_subject SubjectAccountSession (nr_account_session_id event) event;
        Ok (ok && is_some_b (nr_profile_id event))
    | ProfileDisabled | AuthorizationContextChanged => is_subject SubjectProfile (nr_profile_id event) event
    | ProviderDisabled | ProviderPolicyChanged => is_subject SubjectProvider (nr_provider_id event) event
    | ProviderGrantRevoked =>
        ok ← is_subject SubjectProviderGrant (nr_grant_id event) event;
        Ok (ok && is_some_b (nr_profile_id event) && is_some_b (nr_provider_id event))
    end;
  reject_if (negb valid) LcInvalidState.
Definition event_matches_session (event : NewAuthorizationRevocation) (session : SessionRecord) : result SessionLifecycleError bool :=
  _ ← validate_event_subject event;
  let o := owner session in
  if negb (home_id o =? nr_home_id event)%N then Ok false
  else match nr_event_type event with
    | AccountSessionRevoked => id ← required (nr_account_session_id event); Ok (account_session_id o =? id)%N
    | AccountRevoked => id ← parse_subject_uuid event; Ok (user_id o =? id)%N
    | ProfileSwitched | ProfileDisabled | AuthorizationContextChanged =>
        id ← required (nr_profile_id event); Ok (profile_id o =? id)%N
    | ProviderDisabled | ProviderPolicyChanged => id ← required (nr_provider_id event); Ok (provider_id o =? id)%N
    | ProviderGrantRevoked =>
        profile ← required (nr_profile_id event);
        if (profile_id o =? profile)%N then provider ← required (nr_provider_id event); Ok (provider_id o =? provider)%N else Ok false
    end.
End events.

(** ** Reconciliation *)
Section lifecycle.
Context {R : Type} `{Vault R} `{Texts} `{UuidText} `{OutboxOps}.
Variable crypto : R.
Variable binding_revision : string -> option string.     (* [serde_json::from_slice] of the descriptor: its provider_revision *)
Variable others : nat -> World -> World.                 (* what others do before the n-th access *)
Variable clock : nat -> instant.                         (* [Utc::now] after n accesses *)
Variable draws : nat -> Draws.                           (* the randomness of the n-th access *)
Variable lease_owner : string.
Variable within : nat -> nat -> Outbox -> Outbox.        (* what others write to the outbox inside the n-th access *)
Variable cancelled : nat -> bool.                        (* is the shutdown token cancelled after n accesses *)

(** the world at the next access *)
Definition await : life World := fun '(n, w) => let w := others n w in (Ok w, (S n, w)).
Definition now : life instant := fun '(n, w) => (Ok (clock n), (n, w)).
(** a transaction of the session repository *)
Definition call {A} (m : Draws -> tx A) : life (result SessionRepositoryError A) := fun '(n, w) =>
  let w := others n w in
  let '(r, db) := atomically (m (draws n)) (w_db w) in
  (Ok r, (S n, with_db db w)).
Definition query {A} (m : Db -> result SessionRepositoryError A) : life A :=
  w ← await; lift_life (map_err LcSession (m (w_db w))).

(** the SELECT of [current_invalid_reason] *)
Definition load_principal (o : SessionOwner) (at_ : instant) (w : World) : option (string * string) :=
  if account_session_valid o at_ (w_db w) then
    member ← active_member (home_id o) (user_id o) (w_authz w);
    profile ← az_profiles (w_authz w) !! profile_id o;
    if (pf_home_id profile =? home_id o)%N
       && ((String.eqb (pf_profile_type profile) "account" && bool_decide (pf_user_id profile = Some (user_id o)))
           || (String.eqb (pf_profile_type profile) "managed" && is_none_b (pf_user_id profile)))
    then Some (mb_role member, pf_profile_type profile) else None
  else None.
Definition current_invalid_reason (s : SessionRecord) (at_ : instant) : life (option string) :=
  if (session_expires_at s <=? at_)%Z || (hard_expires_at s <=? at_)%Z then mret (Some "LIVE_SESSION_EXPIRED") else
  w ← await;
  match load_principal (owner s) at_ w with
  | None => mret (Some "LIVE_AUTHORIZATION_REVOKED")
  | Some (role, profile_type) =>
      role ← lift_life (ok_or (HomeRole_try_from role) LcInvalidState);
      profile_type ← lift_life (ok_or (ProfileType_try_from profile_type) LcInvalidState);
      w ← await;
      authorization ← lift_life (map_err LcAuthorization (load_effective (profile_id (owner s)) role profile_type (w_authz w)));
      if negb (CapabilitySet.contains (ea_capabilities authorization) LivePlay) then mret (Some "LIVE_AUTHORIZATION_REVOKED") else
      w ← await;
      visibility ← lift_life (map_err LcGrant (visibility (home_id (owner s)) (profile_id (owner s)) role profile_type
                                (provider_id (owner s)) Play (grant_tables w)));
      if negb (vd_allowed visibility) then mret (Some "LIVE_PROVIDER_GRANT_REVOKED") else
      w ← await;
      match w_directory w (provider_id (owner s)) with
      | Err (DirNotReady | DirInvalidSnapshot | DirRevisionChanged) => mret (Some "LIVE_PROVIDER_UNAVAILABLE")
      | Err e => fail (LcProvider e)
      | Ok provider =>
          secrets ← query (decrypt_secrets crypto (owner s) (id s));
          binding ← lift_life (ok_or (binding_revision (mat_descriptor secrets)) LcInvalidState);
          if negb (String.eqb binding provider) then mret (Some "LIVE_PROVIDER_REVISION_CHANGED") else mret None
      end
  end.
Definition reload (s : SessionRecord) : life SessionRecord :=
  r ← query (get_owned (owner s) (id s));
  lift_life (ok_or r LcInvalidState).
Definition reason_for (code : string) : TerminalReason :=
  {| reason_state := if String.eqb code "LIVE_SESSION_EXPIRED" then Expired else Failed; reason_error_code := Some code;
     reason_error_detail := None |}.
(** the loop of [reconcile_session_with_reason], with the iterations left *)
Fixpoint reconcile_loop (tries : nat) (s : SessionRecord) (control : Z) (at_ : instant) (forced : option string)
    (outcome : ReconcileOutcome) : life ReconcileOutcome :=
  match tries with
  | O => fail (LcSession RevisionChanged)
  | S tries =>
      if SessionState.is_terminal (state s) then mret outcome else
      if (control <? control_fencing_token s)%Z then fail (LcSession FenceLost) else
      (* the adopted session, or none when someone changed it first *)
      step ← (if (control_fencing_token s <? control)%Z then
                r ← call (fun _ => adopt_control_fence (owner s) (id s) (revision s) (control_fencing_token s) control at_);
                match r with
                | Ok mu => mret (Some (mut_session mu, {| adopted := true; terminated := terminated outcome |}))
                | Err RevisionChanged => mret None
                | Err e => fail (LcSession e)
                end
              else mret (Some (s, outcome)));
      match step with
      | None => s ← reload s; reconcile_loop tries s control at_ forced outcome
      | Some (s, outcome) =>
          invalid ← match forced with Some code => mret (Some code) | None => current_invalid_reason s at_ end;
          match invalid with
          | None => mret outcome
          | Some code =>
              r ← call (fun d => terminate crypto d (owner s) (id s) (revision s) control (reason_for code) at_);
              match r with
              | Ok _ => mret {| adopted := adopted outcome; terminated := true |}
              | Err RevisionChanged => s ← reload s; reconcile_loop tries s control at_ forced outcome
              | Err e => fail (LcSession e)
              end
          end
      end
  end.
Definition reconcile_session_with_reason (s : SessionRecord) (control : Z) (at_ : instant) (forced : option string) : life ReconcileOutcome :=
  reconcile_loop MAX_CAS_RETRIES s control at_ forced {| adopted := false; terminated := false |}.
Definition reconcile_session (s : SessionRecord) (control : Z) (at_ : instant) : life ReconcileOutcome :=
  reconcile_session_with_reason s control at_ None.

Definition forced_error_code (event : NewAuthorizationRevocation) : option string :=
  match nr_event_type event with ProviderPolicyChanged => Some "LIVE_DESTINATION_POLICY_CHANGED" | _ => None end.
Fixpoint apply_to_sessions (event : NewAuthorizationRevocation) (control : Z) (sessions : list SessionRecord) : life unit :=
  match sessions with
  | [] => mret ()
  | s :: rest =>
      matches ← lift_life (event_matches_session event s);
      _ ← (if (matches : bool) then
             at_ ← now;
             _ ← reconcile_session_with_reason s control at_ (forced_error_code event);
             mret ()
           else mret ());
      apply_to_sessions event control rest
  end.
Definition apply_revocation (event : NewAuthorizationRevocation) (control : Z) : life unit :=
  sessions ← query (list_nonterminal MAX_ACTIVE_SESSIONS);
  apply_to_sessions event control sessions.

(** ** Consuming the outbox *)
(** a call of the outbox, with the clock and what others write inside it *)
Definition outbox_call {A} (f : (nat -> instant * (Outbox -> Outbox)) -> Outbox -> result RevocationError A * Outbox)
    : life (result RevocationError A) := fun '(n, w) =>
  let w := others n w in
  let '(r, o) := f (fun k => (clock n, within n k)) (az_outbox (w_authz w)) in
  (Ok r, (S n, with_world_outbox o w)).
Definition finish (f : instant -> instant -> (Outbox -> Outbox) -> Outbox -> result RevocationError unit * Outbox)
    : life (result RevocationError unit) :=
  outbox_call (fun attempts => let '(at_, between) := attempts 0%nat in f at_ at_ between).
Definition or_revocation {A} (m : life (result RevocationError A)) : life A :=
  r ← m; lift_life (map_err LcRevocation r).
Definition catch {A} (m : life A) : life (result SessionLifecycleError A) := fun st =>
  let '(r, st) := m st in (Ok r, st).
Definition is_cancelled (shutdown : bool) : life bool := fun '(n, w) => (Ok (shutdown && cancelled n), (n, w)).
(** [drain_revocations], with fuel for its loop; none when the fuel ran out *)
Fixpoint drain_loop (fuel : nat) (control : Z) (shutdown : bool) (consumed : Z) : life (option Z) :=
  match fuel with
  | O => mret None
  | S fuel =>
      stop ← is_cancelled shutdown;
      if (stop : bool) then mret (Some consumed) else
      claim ← or_revocation (outbox_call (claim_next CONSUMER_NAME lease_owner (seconds CLAIM_SECONDS)));
      match claim with
      | None => mret (Some consumed)
      | Some claim =>
          r ← catch (apply_revocation (ev_event (cl_event claim)) control);
          match r with
          | Ok _ =>
              _ ← or_revocation (finish (acknowledge (cl_event_id claim) CONSUMER_NAME lease_owner));
              drain_loop fuel control shutdown (consumed + 1)
          | Err e =>
              _ ← finish (fail_claim (cl_event_id claim) CONSUMER_NAME lease_owner "live_session_revocation_failed");
              fail e
          end
      end
  end.
Definition drain_revocations (fuel : nat) (control : Z) (shutdown : bool) : life (option Z) := drain_loop fuel control shutdown 0.

(** ** Starting *)
Fixpoint reconcile_all (control : Z) (at_ : instant) (sessions : list SessionRecord) (report : SessionReconciliationReport)
    : life SessionReconciliationReport :=
  match sessions with
  | [] => mret report
  | s :: rest =>
      outcome ← reconcile_session s control at_;
      reconcile_all control at_ rest {| inspected := inspected report + 1;
        rep_adopted := rep_adopted report + (if adopted outcome then 1 else 0);
        rep_terminated := rep_terminated report + (if terminated outcome then 1 else 0);
        revocations_consumed := revocations_consumed report |}%Z
  end.
Definition expect {A} (m : life (result SessionRepositoryError A)) : life A :=
  r ← m; lift_life (map_err LcSession r).
Definition clean_up (control : Z) (at_ : instant) : life SessionCleanupReport := fun '(n, w) =>
  let w := others n w in
  let '(r, db) := cleanup crypto (fun k => draws (n + k)%nat) control MAX_ACTIVE_SESSIONS at_ (w_db w) in
  (map_err LcSession r, (S n, with_db db w)).
Definition register : life unit := or_revocation (outbox_call (fun attempts o =>
  match register_consumer CONSUMER_NAME (attempts 0%nat).1 o with Ok o => (Ok (), o) | Err e => (Err e, o) end)).
Definition reconcile_startup (fuel : nat) (control : Z) : life (option SessionReconciliationReport) :=
  _ ← register;
  at_ ← now;
  _ ← expect (call (fun _ => assert_current_fence control at_));
  sessions ← query (list_nonterminal MAX_ACTIVE_SESSIONS);
  report ← reconcile_all control at_ sessions {| inspected := 0; rep_adopted := 0; rep_terminated := 0; revocations_consumed := 0 |};
  consumed ← drain_revocations fuel control false;
  match consumed with
  | None => mret None
  | Some consumed =>
      _ ← clean_up control at_;
      mret (Some {| inspected := inspected report; rep_adopted := rep_adopted report; rep_terminated := rep_terminated report;
                    revocations_consumed := consumed |})
  end.
(** one turn of the loop of [run] *)
Definition run_turn (fuel : nat) (control : Z) : life (option Z) :=
  at_ ← now;
  _ ← expect (call (fun _ => assert_current_fence control at_));
  drain_revocations fuel control true.
End lifecycle.

(** ** What a computation does to the world *)
(** the sessions evolve as their repository lets them, and no known id is given to a new session *)
Definition world_step (known : uuid -> Prop) (w w' : World) : Prop :=
  SessionEvolution.step_ok (w_db w) (w_db w') /\ forall id, known id -> db_sessions (w_db w) !! id = None -> db_sessions (w_db w') !! id = None.
Definition reached (known : uuid -> Prop) : World -> World -> Prop := rtc (world_step known).
(** the session is over, or gone *)
Definition settled (id : uuid) (w : World) : Prop :=
  forall r, db_sessions (w_db w) !! id = Some r -> live_row r = false.
(** a row of the world has that record *)
Definition stored (s : SessionRecord) (w : World) : Prop :=
  exists r, db_sessions (w_db w) !! id s = Some r /\ decodes r s.
Lemma step_settled known id w w' : known id -> world_step known w w' -> settled id w -> settled id w'.
Proof.
  intros Hk [[_ Hp] Hn] Hs r' Hr'. destruct (db_sessions (w_db w) !! id) as [r|] eqn:Hr; [|by rewrite (Hn id Hk Hr) in Hr'].
  destruct (Hp id r Hr) as [?|(r1 & Hr1 & Hprog)]; [congruence|]. assert (r1 = r') as -> by congruence.
  specialize (Hs r Hr). destruct Hprog as [->|[? _]]; [done|congruence].
Qed.
Lemma reached_settled known id w w' : known id -> reached known w w' -> settled id w -> settled id w'.
Proof. intros Hk. induction 1 as [|w w1 w2 Hs _ IH]; [done|]. intros ?. apply IH. by eapply step_settled. Qed.
Lemma reached_trans known w1 w2 w3 : reached known w1 w2 -> reached known w2 w3 -> reached known w1 w3.
Proof. unfold reached. intros ??. by etrans. Qed.
Lemma terminal_settled known s w w' :
  known (id s) -> stored s w -> reached known w w' -> SessionState.is_terminal (state s) = true -> settled (id s) w'.
Proof.
  intros Hk (r & Hr & Hd) Hw Ht. eapply reached_settled; [done..|]. intros r' Hr'. assert (r' = r) as -> by congruence.
  unfold live_row. by rewrite (terminal_name_spec _ _ (dec_state _ _ Hd)), Ht.
Qed.

Section runs.
Context {R : Type} `{Vault R} `{Texts} `{UuidText} `{OutboxOps}.
Context (crypto : R) (binding_revision : string -> option string) (others : nat -> World -> World) (clock : nat -> instant)
  (draws : nat -> Draws).
Context (known : uuid -> Prop) (start : nat).
Hypothesis others_step : forall n w, (start <= n)%nat -> db_inv (w_db w) -> world_step known w (others n w).
Definition good (st : nat * World) : Prop := db_inv (w_db st.2) /\ (start <= st.1)%nat.
(** the moments of a run, one access after the other: the others go on, and the run reads or commits a transaction of
    the repository, which creates no session *)
Inductive run_step : nat * World -> nat * World -> Prop :=
| run_read n w : run_step (n, w) (S n, others n w)
| run_commit n w db :
    SessionEvolution.step_ok (w_db (others n w)) db ->
    (forall id, db_sessions (w_db (others n w)) !! id = None -> db_sessions db !! id = None) ->
    run_step (n, w) (S n, with_db db (others n w)).
Notation ran := (rtc run_step).
Definition reaches (st st' : nat * World) : Prop := ran st st' /\ good st'.
Lemma run_step_reached st st' : good st -> run_step st st' -> reached known st.2 st'.2 /\ good st'.
Proof.
  intros [Hi Hn] Hs. destruct Hs as [n w|n w db Hs Hnone]; cbn in *; pose proof (others_step n w Hn Hi) as Ho.
  - split; [by apply rtc_once|]. split; [apply Ho|cbn; lia].
  - split; [|split; [apply Hs|cbn; lia]]. eapply rtc_l; [exact Ho|]. apply rtc_once. split; [done|]. intros id _. apply Hnone.
Qed.
Lemma ran_reached st st' : good st -> ran st st' -> reached known st.2 st'.2.
Proof.
  intros Hg Hr. induction Hr as [|st st1 st2 Hs _ IH]; [apply rtc_refl|]. destruct (run_step_reached _ _ Hg Hs) as [Hr Hg1].
  eapply reached_trans; [exact Hr|by apply IH].
Qed.
(** whatever a computation returns, it takes a good world to a good one it reaches *)
Definition keeps {A} (m : life A) : Prop := forall st, good st -> reaches st (m st).2.

Lemma reached_inv w w' : reached known w w' -> db_inv (w_db w) -> db_inv (w_db w').
Proof. induction 1 as [|w w1 w2 [[? _] _] _ IH]; auto. Qed.
Lemma keeps_ret {A} (a : A) : keeps (mret a).
Proof. intros st Hst. split; [apply rtc_refl|done]. Qed.
Lemma keeps_lift {A} (m : result SessionLifecycleError A) : keeps (lift_life m).
Proof. intros st Hst. split; [apply rtc_refl|done]. Qed.
Lemma keeps_fail {A} e : keeps (@fail A e).
Proof. intros st Hst. split; [apply rtc_refl|done]. Qed.
Lemma keeps_now : keeps (now clock).
Proof. intros [n w] Hst. split; [apply rtc_refl|done]. Qed.
Lemma keeps_bind {A B} (m : life A) (k : A -> life B) : keeps m -> (forall a, keeps (k a)) -> keeps (m ≫= k).
Proof.
  intros Hm Hk st Hst. destruct (Hm st Hst) as [Hr Hst1]. unfold mbind, life_bind. destruct (m st) as [[a|e] st1]; [|done].
  destruct (Hk a st1 Hst1) as [Hr2 ?]. split; [by etrans|done].
Qed.
Lemma keeps_await : keeps (await others).
Proof.
  intros [n w] Hst. pose proof (run_step_reached _ _ Hst (run_read n w)) as [_ Hg]. split; [apply rtc_once, run_read|exact Hg].
Qed.
Lemma keeps_query {A} (m : Db -> result SessionRepositoryError A) : keeps (query others m).
Proof. apply keeps_bind; [apply keeps_await|intros w; apply keeps_lift]. Qed.
(** a transaction of the repository that is a step and creates nothing *)
Lemma keeps_call {A} (m : Draws -> tx A) :
  (forall d db a db', db_inv db -> m d db = Ok (a, db') -> SessionEvolution.step_ok db db' /\
     forall id, db_sessions db !! id = None -> db_sessions db' !! id = None) ->
  keeps (call others draws m).
Proof.
  intros Hm [n w] Hst. destruct (keeps_await (n, w) Hst) as [Hr Hst1]. cbn in Hr, Hst1. unfold call, atomically.
  destruct (m (draws n) (w_db (others n w))) as [[a db']|e] eqn:Hx; [|by destruct (others n w)].
  destruct (Hm _ _ _ _ (proj1 Hst1) Hx) as [Hs Hn]. pose proof (run_commit n w db' Hs Hn) as Hstep.
  split; [by apply rtc_once|]. by apply (run_step_reached _ _ Hst Hstep).
Qed.
Lemma terminate_call_ok d o id n c reason at_ db mu db' :
  db_inv db -> terminate crypto d o id n c reason at_ db = Ok (mu, db') ->
  SessionEvolution.step_ok db db' /\ forall i, db_sessions db !! i = None -> db_sessions db' !! i = None.
Proof.
  intros Hi Ht. split; [by eapply terminate_step_ok|]. apply terminate_ok in Ht as (_ & _ & _ & _ & r & s & Hr & _ & _ & Ht).
  intros i Hn. destruct (SessionState.is_terminal (state s)); [by destruct Ht as (_ & _ & ->)|].
  destruct Ht as (_ & _ & _ & r' & ? & ? & ? & ? & ? & ? & _ & _ & _ & _ & _ & _ & _ & _ & _ & ->). rewrite lookup_insert_ne; [done|congruence].
Qed.
Lemma adopt_call_ok o id n prev new at_ db mu db' :
  db_inv db -> adopt_control_fence o id n prev new at_ db = Ok (mu, db') ->
  SessionEvolution.step_ok db db' /\ forall i, db_sessions db !! i = None -> db_sessions db' !! i = None.
Proof.
  intros Hi Ha. split; [by eapply adopt_step_ok|].
  apply adopt_ok in Ha as (_ & _ & _ & r & s & r' & Hr & _ & _ & _ & _ & _ & _ & _ & _ & ->).
  intros i Hn. cbn. rewrite lookup_insert_ne; [done|congruence].
Qed.
Lemma keeps_invalid_reason s at_ : keeps (current_invalid_reason crypto binding_revision others s at_).
Proof.
  unfold current_invalid_reason. case_match; [apply keeps_ret|].
  repeat first [apply keeps_bind; [first [apply keeps_await|apply keeps_lift|apply keeps_query]|intros ?]
               |apply keeps_ret|apply keeps_fail|case_match].
Qed.
Lemma keeps_reload s : keeps (reload others s).
Proof. apply keeps_bind; [apply keeps_query|intros ?; apply keeps_lift]. Qed.
Lemma keeps_terminate o id n c reason at_ : keeps (call others draws (fun d => terminate crypto d o id n c reason at_)).
Proof. apply keeps_call. intros d db a db' Hi Hx. by eapply terminate_call_ok. Qed.
Lemma keeps_adopt o id n prev new at_ : keeps (call others draws (fun _ => adopt_control_fence o id n prev new at_)).
Proof. apply keeps_call. intros d db a db' Hi Hx. by eapply adopt_call_ok. Qed.
Lemma keeps_reconcile tries s control at_ forced outcome :
  keeps (reconcile_loop crypto binding_revision others draws tries s control at_ forced outcome).
Proof.
  revert s outcome. induction tries as [|tries IH]; intros s outcome; cbn [reconcile_loop]; [apply keeps_fail|].
  destruct (SessionState.is_terminal (state s)); [apply keeps_ret|]. destruct (control <? control_fencing_token s)%Z; [apply keeps_fail|].
  apply keeps_bind.
  { case_match; [|apply keeps_ret]. apply keeps_bind; [apply keeps_adopt|]. intros r. repeat case_match; first [apply keeps_ret|apply keeps_fail]. }
  intros [[s1 o1]|]; [|apply keeps_bind; [apply keeps_reload|intros s1; apply IH]].
  apply keeps_bind; [destruct forced; [apply keeps_ret|apply keeps_invalid_reason]|]. intros [code|]; [|apply keeps_ret].
  apply keeps_bind; [apply keeps_terminate|]. intros r.
  repeat case_match; try apply keeps_ret; try apply keeps_fail. apply keeps_bind; [apply keeps_reload|intros s2; apply IH].
Qed.

(** ** What a reconciliation that succeeds has found *)
Lemma life_bind_ok {A B} (m : life A) (k : A -> life B) st b st' :
  (m ≫= k) st = (Ok b, st') -> exists a st1, m st = (Ok a, st1) /\ k a st1 = (Ok b, st').
Proof. unfold mbind, life_bind. destruct (m st) as [[a|e] st1]; [|done]. intros Hk. by exists a, st1. Qed.
Lemma keeps_ok {A} (m : life A) st a st1 : keeps m -> good st -> m st = (Ok a, st1) -> reaches st st1.
Proof. intros Hm Hst He. specialize (Hm st Hst). by rewrite He in Hm. Qed.
Lemma await_ok st w st' : good st -> await others st = (Ok w, st') -> w = st'.2 /\ reaches st st'.
Proof. intros Hst He. split; [|by eapply (keeps_ok (await others)); [apply keeps_await|..]]. destruct st as [n w0]. cbn in He. by injection He as <- <-. Qed.
Lemma lift_life_ok {A} (m : result SessionLifecycleError A) st a st' : lift_life m st = (Ok a, st') -> m = Ok a /\ st' = st.
Proof. unfold lift_life. by intros [= -> ->]. Qed.
Lemma query_ok {A} (m : Db -> result SessionRepositoryError A) st a st' :
  good st -> query others m st = (Ok a, st') -> m (w_db st'.2) = Ok a /\ reaches st st'.
Proof.
  intros Hst Hq. apply life_bind_ok in Hq as (w & st1 & Ha & Hl). apply await_ok in Ha as [-> Hr]; [|done].
  apply lift_life_ok in Hl as [Hm ->]. split; [|done]. by destruct (m (w_db st1.2)); [|done]; injection Hm as ->.
Qed.
(** the principal may play: found, with the capability, the grant, and the provider as it was resolved, at
    moments of the run from [st] to [st'], one after the other *)
Definition allowed_during (s : SessionRecord) (at_ : instant) (st st' : nat * World) : Prop :=
  (at_ < session_expires_at s)%Z /\ (at_ < hard_expires_at s)%Z /\
  exists sa sb sc sd se role ty rolename tyname ea vd provider secrets,
    ran st sa /\ ran sa sb /\ ran sb sc /\ ran sc sd /\ ran sd se /\ ran se st' /\
    load_principal (owner s) at_ sa.2 = Some (rolename, tyname) /\ HomeRole_try_from rolename = Some role /\ ProfileType_try_from tyname = Some ty /\
    load_effective (profile_id (owner s)) role ty (w_authz sb.2) = Ok ea /\ CapabilitySet.contains (ea_capabilities ea) LivePlay = true /\
    visibility (home_id (owner s)) (profile_id (owner s)) role ty (provider_id (owner s)) Play (grant_tables sc.2) = Ok vd /\ vd_allowed vd = true /\
    w_directory sd.2 (provider_id (owner s)) = Ok provider /\
    decrypt_secrets crypto (owner s) (id s) (w_db se.2) = Ok secrets /\ binding_revision (mat_descriptor secrets) = Some provider.
Lemma mret_ok {A} (a b : A) (st st' : nat * World) : (mret a : life A) st = (Ok b, st') -> a = b /\ st' = st.
Proof. unfold mret, life_ret. by intros [= -> ->]. Qed.
Lemma no_invalid_reason s at_ st st' :
  good st -> current_invalid_reason crypto binding_revision others s at_ st = (Ok None, st') -> allowed_during s at_ st st'.
Proof.
  intros Hst Hc. unfold current_invalid_reason in Hc.
  destruct ((session_expires_at s <=? at_) || (hard_expires_at s <=? at_))%Z eqn:Hexp; [by apply mret_ok in Hc as [? _]|].
  apply life_bind_ok in Hc as (wa & sta & Ha & Hc). apply await_ok in Ha as [-> [Hra Hga]]; [|done].
  destruct (load_principal (owner s) at_ sta.2) as [[rolename tyname]|] eqn:Hp; [|by apply mret_ok in Hc as [? _]].
  apply life_bind_ok in Hc as (role & ? & Hl & Hc). apply lift_life_ok in Hl as [Hrole%ok_or_ok ->].
  apply life_bind_ok in Hc as (ty & ? & Hl & Hc). apply lift_life_ok in Hl as [Hty%ok_or_ok ->].
  apply life_bind_ok in Hc as (wb & stb & Ha & Hc). apply await_ok in Ha as [-> [Hrb Hgb]]; [|done].
  apply life_bind_ok in Hc as (ea & ? & Hl & Hc). apply lift_life_ok in Hl as [Hea ->].
  destruct (CapabilitySet.contains (ea_capabilities ea) LivePlay) eqn:Hcap; cbn [negb] in Hc; [|by apply mret_ok in Hc as [? _]].
  apply life_bind_ok in Hc as (wc & stc & Ha & Hc). apply await_ok in Ha as [-> [Hrc Hgc]]; [|done].
  apply life_bind_ok in Hc as (vd & ? & Hl & Hc). apply lift_life_ok in Hl as [Hvd ->].
  destruct (vd_allowed vd) eqn:Hallowed; cbn [negb] in Hc; [|by apply mret_ok in Hc as [? _]].
  apply life_bind_ok in Hc as (wd & std & Ha & Hc). apply await_ok in Ha as [-> [Hrd Hgd]]; [|done].
  destruct (w_directory std.2 (provider_id (owner s))) as [provider|[]] eqn:Hdir; try by apply mret_ok in Hc as [? _]. 2: done.
  apply life_bind_ok in Hc as (secrets & ste & Hq & Hc). apply query_ok in Hq as [Hsec [Hre Hge]]; [|done].
  apply life_bind_ok in Hc as (binding & ? & Hl & Hc). apply lift_life_ok in Hl as [Hb%ok_or_ok ->].
  destruct (String.eqb_spec binding provider) as [->|]; cbn [negb] in Hc; apply mret_ok in Hc as [? ->]; [|done].
  apply orb_false_iff in Hexp as [He1 He2]. unfold map_err in *.
  apply Z.leb_gt in He1, He2. split; [done|]. split; [done|]. exists sta, stb, stc, std, ste, role, ty, rolename, tyname, ea, vd, provider, secrets.
  split_and!; try done.
  - by destruct (load_effective _ _ _ _); [|done]; injection Hea as ->.
  - by destruct (visibility _ _ _ _ _ _ _); [|done]; injection Hvd as ->.
Qed.
Lemma allowed_later s at_ st st1 st' : ran st st1 -> allowed_during s at_ st1 st' -> allowed_during s at_ st st'.
Proof.
  intros Hr (? & ? & sa & sb & sc & sd & se & role & ty & rn & tn & ea & vd & pr & sec & Ha & Hrest).
  split; [done|]. split; [done|]. exists sa, sb, sc, sd, se, role, ty, rn, tn, ea, vd, pr, sec. split; [by etrans|done].
Qed.

(** a record read from a row at a moment of the run *)
Definition was_stored (s : SessionRecord) (st : nat * World) : Prop := exists st0, good st0 /\ stored s st0.2 /\ ran st0 st.
Definition same_session (s s' : SessionRecord) : Prop := id s' = id s /\ owner s' = owner s.
Lemma was_stored_later s st st' : was_stored s st -> reaches st st' -> was_stored s st'.
Proof. intros (st0 & Hg & Hs & Hw) [Hr _]. exists st0. split_and!; [done..|by etrans]. Qed.
Lemma stored_now s r st : good st -> db_sessions (w_db st.2) !! row_id r = Some r -> decodes r s -> was_stored s st.
Proof. intros Hg Hr Hd. exists st. split_and!; [done| |apply rtc_refl]. exists r. by rewrite (dec_id _ _ Hd). Qed.
Lemma reload_ok s st s' st' :
  good st -> reload others s st = (Ok s', st') -> same_session s s' /\ was_stored s' st' /\ reaches st st'.
Proof.
  intros Hst Hl. apply life_bind_ok in Hl as (o & st1 & Hq & Hl). apply query_ok in Hq as [Hq Hr]; [|done].
  apply lift_life_ok in Hl as [->%ok_or_ok ->]. unfold get_owned, session_where in Hq.
  destruct (db_sessions (w_db st1.2) !! id s) as [r|] eqn:Hrow; [|done]. destruct (owned (owner s) r) eqn:Ho; [|done].
  destruct (decode_session r) as [x|] eqn:Hd; [|done]. cbn in Hq. injection Hq as ->. apply decode_session_ok in Hd.
  unfold owned in Ho. bool_hyps. pose proof (ri_key _ _ (proj1 (proj2 Hr) _ _ Hrow)) as Hkey.
  split; [|split; [|done]].
  - split; [by rewrite (dec_id _ _ Hd)|by rewrite (dec_owner _ _ Hd)].
  - eapply stored_now; [apply Hr|by rewrite Hkey|done].
Qed.
Lemma call_ok {A} (m : Draws -> tx A) st r st' :
  call others draws m st = (Ok (Ok r), st') ->
  m (draws st.1) (w_db (others st.1 st.2)) = Ok (r, w_db st'.2).
Proof.
  destruct st as [n w]. unfold call, atomically. cbn. destruct (m (draws n) (w_db (others n w))) as [[a db]|e]; [|done]. by intros [= <- <-].
Qed.
Lemma adopted_ok s control at_ st mu st' :
  good st -> call others draws (fun _ => adopt_control_fence (owner s) (id s) (revision s) (control_fencing_token s) control at_) st = (Ok (Ok mu), st') ->
  same_session s (mut_session mu) /\ was_stored (mut_session mu) st' /\ reaches st st'.
Proof.
  intros Hst Hc. assert (reaches st st') as Hr by (eapply keeps_ok; [apply keeps_adopt|done|exact Hc]). split; [|split; [|done]].
  - apply call_ok in Hc as Ha. apply adopt_ok in Ha as (_ & _ & _ & r & s0 & r' & Hrow & Ho & Hd & _ & _ & _ & Hset & _ & Hd' & _).
    assert (row_id r' = row_id r /\ row_owner r' = row_owner r) as [Hi' Ho'] by by set_inv.
    pose proof (keeps_await st Hst) as [_ Hg]. destruct st as [n w]. cbn in Hrow, Hg. pose proof (ri_key _ _ (proj1 Hg _ _ Hrow)) as Hkey.
    split; [rewrite (dec_id _ _ Hd'); congruence|rewrite (dec_owner _ _ Hd'); congruence].
  - apply call_ok in Hc as Ha. apply adopt_ok in Ha as (_ & _ & _ & r & s0 & r' & Hrow & Ho & Hd & _ & _ & _ & Hset & _ & Hd' & Hdb).
    assert (row_id r' = row_id r) as Hi' by by set_inv.
    pose proof (keeps_await st Hst) as [_ Hg]. destruct st as [n w]. cbn in Hrow, Hg. pose proof (ri_key _ _ (proj1 Hg _ _ Hrow)) as Hkey.
    eapply stored_now; [apply Hr| |exact Hd']. rewrite Hdb, Hi', Hkey. cbn. apply lookup_insert_eq.
Qed.
Lemma terminated_ok s control code at_ st mu st' :
  good st -> call others draws (fun d => terminate crypto d (owner s) (id s) (revision s) control (reason_for code) at_) st = (Ok (Ok mu), st') ->
  settled (id s) st'.2.
Proof.
  intros Hst Hc. apply call_ok in Hc as Ha. apply terminate_ok in Ha as (_ & _ & _ & _ & r & s0 & Hr & _ & Hd & Ht).
  intros r1 Hr1. destruct (SessionState.is_terminal (state s0)) eqn:Hterm.
  - destruct Ht as (_ & _ & Heq). rewrite Heq, Hr in Hr1. injection Hr1 as <-. unfold live_row. by rewrite (terminal_name_spec _ _ (dec_state _ _ Hd)), Hterm.
  - destruct Ht as (_ & _ & _ & r' & ? & ? & sn & de & tok & th & _ & _ & _ & _ & _ & _ & Hset & _ & _ & Heq).
    rewrite Heq, lookup_insert_eq in Hr1. injection Hr1 as <-. set_inv. unfold live_row. cbn [row_state]. rewrite terminal_name_as_str.
    unfold reason_for. cbn [reason_state]. by case_match.
Qed.
Lemma loop_settles tries s control at_ forced outcome st out st' :
  good st -> was_stored s st -> known (id s) ->
  reconcile_loop crypto binding_revision others draws tries s control at_ forced outcome st = (Ok out, st') ->
  settled (id s) st'.2 \/ (forced = None /\ exists s', same_session s s' /\ was_stored s' st' /\ allowed_during s' at_ st st').
Proof.
  revert s outcome st. induction tries as [|tries IH]; intros s outcome st Hst Hw Hk Hl; cbn [reconcile_loop] in Hl; [done|].
  destruct (SessionState.is_terminal (state s)) eqn:Hterm.
  { apply mret_ok in Hl as [_ ->]. left. destruct Hw as (st0 & Hg & Hs & Hr). eapply terminal_settled; [done..| |done]. by apply ran_reached. }
  destruct (control <? control_fencing_token s)%Z; [done|]. apply life_bind_ok in Hl as (step & st1 & Hstep & Hl).
  (* reading again, and the rest of the loop *)
  assert (forall st1 s2 o2, reaches st st1 -> same_session s s2 ->
    (s3 ← reload others s2; reconcile_loop crypto binding_revision others draws tries s3 control at_ forced o2) st1 = (Ok out, st') ->
    settled (id s) st'.2 \/ forced = None /\ exists s', same_session s s' /\ was_stored s' st' /\ allowed_during s' at_ st st') as Hagain.
  { intros st2 s2 o2 [Hr2 Hg2] [Hi2 Ho2] Hx. apply life_bind_ok in Hx as (s3 & st3 & Hre & Hx).
    apply reload_ok in Hre as ([Hi3 Ho3] & Hs3 & [Hr3 Hg3]); [|done].
    apply IH in Hx as [Hx|(-> & s' & [Hi Ho] & Hws & Hx)]; [| |done|done|by rewrite Hi3, Hi2].
    - left. by rewrite <- Hi2, <- Hi3.
    - right. split; [done|]. exists s'. split; [split; congruence|]. split; [done|]. eapply allowed_later; [|exact Hx]. by etrans. }
  assert (match step with Some (s1, _) => same_session s s1 /\ was_stored s1 st1 | None => True end /\ reaches st st1) as [Hsame Hr1].
  { destruct (control_fencing_token s <? control)%Z.
    - apply life_bind_ok in Hstep as (r & st2 & Hc & Hstep). destruct r as [mu|e].
      + apply mret_ok in Hstep as [<- ->]. apply adopted_ok in Hc as (? & ? & ?); [|done]. by split_and!.
      + assert (reaches st st2) as Hr by (eapply keeps_ok; [apply keeps_adopt|done|exact Hc]).
        destruct e; try done. by apply mret_ok in Hstep as [<- ->].
    - apply mret_ok in Hstep as [<- ->]. split; [done|]. split; [apply rtc_refl|done]. }
  destruct step as [[s1 o1]|]; [|by eapply (Hagain st1 s)].
  apply life_bind_ok in Hl as (invalid & st2 & Hinv & Hl).
  assert (reaches st1 st2) as Hr2.
  { eapply keeps_ok; [|apply Hr1|exact Hinv]. destruct forced; [apply keeps_ret|apply keeps_invalid_reason]. }
  assert (reaches st st2) as Hr12 by (split; [etrans; [apply Hr1|apply Hr2]|apply Hr2]).
  destruct invalid as [code|].
  - apply life_bind_ok in Hl as (r & st3 & Hc & Hl). destruct r as [mu|e].
    + apply mret_ok in Hl as [_ ->]. left. destruct Hsame as [[<- _] _]. eapply terminated_ok; [apply Hr2|exact Hc].
    + assert (reaches st2 st3) as Hr3 by (eapply keeps_ok; [apply keeps_terminate|apply Hr2|exact Hc]).
      destruct e; try done. eapply (Hagain st3 s1); [|apply Hsame|exact Hl]. split; [etrans; [apply Hr12|apply Hr3]|apply Hr3].
  - apply mret_ok in Hl as [_ ->]. destruct forced as [code|]; [by apply mret_ok in Hinv as [? _]|]. right. split; [done|].
    exists s1. split; [apply Hsame|]. split; [eapply was_stored_later; [apply Hsame|apply Hr2]|]. eapply allowed_later; [apply Hr1|].
    eapply no_invalid_reason; [apply Hr1|exact Hinv].
Qed.

(** ** All sessions of an event *)
Lemma keeps_apply event control l : keeps (apply_to_sessions crypto binding_revision others clock draws event control l).
Proof.
  induction l as [|s l IH]; cbn [apply_to_sessions]; [apply keeps_ret|]. apply keeps_bind; [apply keeps_lift|]. intros matches.
  apply keeps_bind; [|intros _; apply IH]. destruct matches; [|apply keeps_ret]. apply keeps_bind; [apply keeps_now|]. intros at_.
  apply keeps_bind; [apply keeps_reconcile|intros _; apply keeps_ret].
Qed.
Lemma allowed_earlier s at_ st st1 st' : ran st1 st' -> allowed_during s at_ st st1 -> allowed_during s at_ st st'.
Proof.
  intros Hr (? & ? & sa & sb & sc & sd & se & role & ty & rn & tn & ea & vd & pr & sec & ? & ? & ? & ? & ? & He & Hrest).
  split; [done|]. split; [done|]. exists sa, sb, sc, sd, se, role, ty, rn, tn, ea, vd, pr, sec. split_and!; try done; try apply Hrest. by etrans.
Qed.
Lemma forced_none event : forced_error_code event = None -> nr_event_type event <> ProviderPolicyChanged.
Proof. unfold forced_error_code. by destruct (nr_event_type event). Qed.
(** it is over, or allowed at the time the clock showed at a moment of the run *)
Definition ended_or_allowed (event : NewAuthorizationRevocation) (s : SessionRecord) (st st' : nat * World) : Prop :=
  settled (id s) st'.2 \/
  (nr_event_type event <> ProviderPolicyChanged /\
   exists s' st0, same_session s s' /\ was_stored s' st' /\ ran st st0 /\ allowed_during s' (clock st0.1) st0 st').
Lemma ended_or_allowed_reached event s st st1 st2 st3 :
  known (id s) -> good st2 -> ran st st1 -> reaches st2 st3 -> ended_or_allowed event s st1 st2 -> ended_or_allowed event s st st3.
Proof.
  intros Hk Hg Hr Hr' [Hx|(? & s' & st0 & ? & ? & ? & Hx)]; [left; eapply reached_settled; [done| |done]; by apply ran_reached, Hr'|right].
  split; [done|]. exists s', st0. split; [done|]. split; [by eapply was_stored_later|]. split; [by etrans|]. eapply allowed_earlier; [apply Hr'|done].
Qed.
Lemma apply_settles event control l st st' s :
  good st -> (forall s, s ∈ l -> was_stored s st /\ known (id s)) ->
  apply_to_sessions crypto binding_revision others clock draws event control l st = (Ok (), st') ->
  s ∈ l -> event_matches_session event s = Ok true -> ended_or_allowed event s st st'.
Proof.
  revert st. induction l as [|s0 l IH]; intros st Hst Hl Ha Hin Hm; [inversion Hin|]. cbn [apply_to_sessions] in Ha.
  apply life_bind_ok in Ha as (matches & st1 & Hx & Ha). apply lift_life_ok in Hx as [Hmatch ->].
  apply life_bind_ok in Ha as ([] & st2 & Hone & Ha).
  assert (reaches st st2 /\ (matches = true -> ended_or_allowed event s0 st st2)) as [Hr Hs0].
  { destruct matches; [|apply mret_ok in Hone as [_ ->]; split; [split; [apply rtc_refl|done]|done]].
    apply life_bind_ok in Hone as (at_ & st3 & Hnow & Hone). assert (st3 = st) as -> by (destruct st; cbn in Hnow; by injection Hnow as _ <-).
    apply life_bind_ok in Hone as (out & st4 & Hrec & Hone). apply mret_ok in Hone as [_ ->]. split.
    - eapply keeps_ok; [|done|exact Hrec]. apply keeps_reconcile.
    - intros _. destruct (Hl s0) as [Hw Hk]; [by left|]. assert (at_ = clock st.1) as -> by (destruct st; cbn in Hnow; by injection Hnow).
      apply loop_settles in Hrec as [?|(Hf & s' & ? & ? & ?)]; [by left|right|done..].
      split; [by apply forced_none|]. exists s', st. by split_and!. }
  assert (reaches st2 st') as Hr2 by (eapply keeps_ok; [apply keeps_apply|apply Hr|exact Ha]).
  apply elem_of_cons in Hin as [->|Hin].
  - assert (matches = true) as -> by congruence. destruct (Hl s0) as [_ Hk]; [by left|].
    eapply ended_or_allowed_reached; [done|apply Hr|apply rtc_refl|apply Hr2|by apply Hs0].
  - destruct (Hl s) as [_ Hk]; [by right|].
    eapply ended_or_allowed_reached; [done|apply Hr2|apply Hr|split; [apply rtc_refl|apply Hr2]|]. apply (IH st2); [apply Hr| |done..].
    intros s1 Hs1. destruct (Hl s1) as [Hw1 ?]; [by right|]. split; [by eapply was_stored_later|done].
Qed.
End runs.

Lemma decode_all_elem rows l : decode_all rows = Ok l ->
  (forall r, r ∈ rows -> exists s, s ∈ l /\ decodes r s) /\ (forall s, s ∈ l -> exists r, r ∈ rows /\ decodes r s).
Proof.
  revert l. induction rows as [|r rows IH]; intros l Hd; cbn [decode_all foldr] in Hd.
  - injection Hd as <-. split; intros x Hx; inversion Hx.
  - apply result_bind_ok in Hd as (s & Hs%decode_session_ok & Hd). apply result_bind_ok in Hd as (l' & Hl & Hd). injection Hd as <-.
    destruct (IH l' Hl) as [H1 H2]. split; intros x [->|Hx]%elem_of_cons; [exists s; split; [by left|done]| |exists r; split; [by left|done]|].
    + destruct (H1 x Hx) as (y & ? & ?). exists y. split; [by right|done].
    + destruct (H2 x Hx) as (y & ? & ?). exists y. split; [by right|done].
Qed.
Lemma filter_values_length {K} (p : SessionRow -> bool) (l : list (K * SessionRow)) :
  length (filter (fun r => p r = true) (snd <$> l)) = length (filter (fun kv : K * SessionRow => p kv.2 = true) l).
Proof.
  induction l as [|[k r] l IH]; [done|]. cbn [fmap list_fmap snd]. rewrite !filter_cons. cbn [snd]. destruct (decide _); cbn; lia.
Qed.
Lemma select_all order `{!RelDecision order} limit p db id r :
  (count_sessions p db <= limit)%Z -> db_sessions db !! id = Some r -> p r = true -> r ∈ select_sessions order limit p db.
Proof.
  intros Hc Hr Hp. unfold select_sessions. set (l := filter _ _). assert (r ∈ l) as Hin.
  { apply list_elem_of_filter. split; [done|]. apply list_elem_of_fmap. exists (id, r). split; [done|]. by apply elem_of_map_to_list. }
  assert (length l = Z.to_nat (count_sessions p db)) as Hlen.
  { unfold count_sessions. rewrite Nat2Z.id, <- length_map_to_list, map_filter_alt, map_to_list_to_map.
    - apply filter_values_length.
    - apply NoDup_fmap_fst; [|apply NoDup_filter, NoDup_map_to_list].
      intros k v v' [_ Hv%elem_of_map_to_list]%list_elem_of_filter [_ Hv'%elem_of_map_to_list]%list_elem_of_filter. congruence. }
  rewrite take_ge; [by rewrite merge_sort_Permutation|]. rewrite merge_sort_Permutation. lia.
Qed.

(** ** Properties *)
(** C29: A revocation ends the sessions it names.  Let the others change the sessions only by steps of the session
    repository, not bring a session back that is gone, and let at most [MAX_ACTIVE_SESSIONS] sessions be live when
    [apply_revocation] reads them.  When it succeeds, each session that was not over at this reading and that the event
    names is over or gone; or, unless the destination policy changed, the run itself found its principal allowed
    to play: at moments of the run, one after the other, the account session was valid, the capability
    effective, the grant there, and the provider as in the descriptor of the session's secrets, and the session was not
    expired at the time the clock showed when its turn came. *)
Theorem revocation_ends_sessions {R : Type} `{Vault R} `{Texts} `{UuidText} `{OutboxOps} (crypto : R) binding_revision others clock draws
    event control n w st' s :
  let w0 := others n w in
  let known id := is_Some (db_sessions (w_db w0) !! id) in
  db_inv (w_db w0) -> (forall k w', (n < k)%nat -> db_inv (w_db w') -> world_step known w' (others k w')) ->
  (count_sessions live_row (w_db w0) <= MAX_ACTIVE_SESSIONS)%Z ->
  apply_revocation crypto binding_revision others clock draws event control (n, w) = (Ok (), st') ->
  stored s w0 -> SessionState.is_terminal (state s) = false -> event_matches_session event s = Ok true ->
  settled (id s) st'.2 \/
  (nr_event_type event <> ProviderPolicyChanged /\
   exists s' st0, same_session s s' /\ was_stored others (S n) s' st' /\ rtc (run_step others) (S n, w0) st0 /\
     allowed_during crypto binding_revision others s' (clock st0.1) st0 st').
Proof.
  intros w0 known Hinv Hothers Hcount Ha Hs Hlive Hm. apply life_bind_ok in Ha as (l & st1 & Hq & Ha).
  unfold query in Hq. apply life_bind_ok in Hq as (w1 & st2 & Hw & Hq). cbn in Hw. injection Hw as <- <-.
  apply lift_life_ok in Hq as [Hlist ->]. fold w0 in Hlist, Ha.
  change (list_nonterminal MAX_ACTIVE_SESSIONS (w_db w0)) with (decode_all (select_sessions by_created MAX_ACTIVE_SESSIONS live_row (w_db w0))) in Hlist.
  assert (decode_all (select_sessions by_created MAX_ACTIVE_SESSIONS live_row (w_db w0)) = Ok l) as Hdec
    by (destruct (decode_all _) as [x|]; cbn in Hlist; [injection Hlist as ->; reflexivity|discriminate Hlist]).
  apply decode_all_elem in Hdec as [Hall Hrows]. destruct Hs as (r & Hr & Hd).
  destruct (Hall r) as (s1 & Hin & Hd1); [eapply select_all; [done..|by eapply live_name]|].
  assert (s1 = s) as -> by (apply decode_session_ok in Hd, Hd1; congruence).
  apply (apply_settles crypto binding_revision others clock draws known (S n)) with (s := s) in Ha; [done| | | |done|done].
  - intros k w' Hk. apply Hothers. lia.
  - split; [done|cbn; lia].
  - intros s2 Hs2. apply Hrows in Hs2 as (r2 & Hr2 & Hd2). apply select_sessions_elem in Hr2 as [_ [i Hi]].
    pose proof (ri_key _ _ (Hinv _ _ Hi)) as Hkey. rewrite <- Hkey in Hi. split.
    + by eapply (stored_now others (S n)).
    + rewrite (dec_id _ _ Hd2). by exists r2.
Qed.

(** ** Events and the sessions they name *)
Section naming.
Context `{UT : UuidText} `{UL : !UuidTextLaws UT} `{OutboxOps}.
Lemma is_subject_self subject field event id :
  nr_subject_type event = subject -> nr_subject_id event = uuid_to_string id -> field = Some id -> is_subject subject field event = Ok true.
Proof.
  intros <- Hid ->. unfold is_subject, parse_subject_uuid. rewrite bool_decide_true, Hid, uuid_parse_to_string by done. cbn. by rewrite bool_decide_true.
Qed.
Ltac named s home := unfold event_matches_session, validate_event_subject; cbn -[is_subject];
  erewrite ?is_subject_self by reflexivity; cbn; destruct (N.eqb (home_id (owner s)) home); cbn; rewrite ?uuid_parse_to_string; cbn; try done.
(** Every event that is appended names the sessions of its subject: those of the account session, the
    account, the profile, the provider, or the profile at the provider, in the home of the event. *)
Theorem events_name_their_sessions s home account_id profile provider grant actor reason payload revision before after :
  let o := owner s in
  let in_home (b : bool) := Ok (E := SessionLifecycleError) (if (home_id o =? home)%N then b else false) in
  event_matches_session (account_session home account_id profile reason) s = in_home (account_session_id o =? account_id)%N /\
  event_matches_session (account home actor reason) s = in_home (user_id o =? actor)%N /\
  (forall previous selected, event_matches_session (profile_switched home actor account_id previous selected) s = in_home (profile_id o =? previous)%N) /\
  (forall p, event_matches_session (context_changed home actor p reason payload) s = in_home (profile_id o =? p)%N) /\
  event_matches_session (provider_disabled home actor provider reason) s = in_home (provider_id o =? provider)%N /\
  event_matches_session (provider_policy_changed home actor provider reason revision) s = in_home (provider_id o =? provider)%N /\
  (forall p, event_matches_session (provider_grant_revoked home actor p provider grant reason before after) s =
     in_home ((profile_id o =? p)%N && (provider_id o =? provider)%N)).
Proof.
  cbn zeta. split_and!; [| | |intros p|..|intros p].
  - named s home.
  - unfold event_matches_session, validate_event_subject, parse_subject_uuid. cbn. rewrite uuid_parse_to_string. cbn. by destruct (N.eqb _ home).
  - intros previous selected. named s home.
  - named s home.
  - named s home.
  - named s home.
  - named s home. by case_match.
Qed.
End naming.

(** ** A revocation that cannot be applied *)
Section blocked.
Context {R : Type} `{Vault R} `{Texts} `{UuidText} `{OutboxOps}.
Context (crypto : R) (binding_revision : string -> option string) (clock : nat -> instant) (draws : nat -> Draws)
  (lease_owner : string) (cancelled : nat -> bool).
(** nobody else runs *)
Definition alone (n : nat) (w : World) : World := w.
Definition quiet (n k : nat) (o : Outbox) : Outbox := o.
Definition authz_same {A} (m : life A) : Prop := forall st, w_authz (m st).2.2 = w_authz st.2.
Lemma same_bind {A B} (m : life A) (k : A -> life B) : authz_same m -> (forall a, authz_same (k a)) -> authz_same (m ≫= k).
Proof. intros Hm Hk st. unfold mbind, life_bind. rewrite <- (Hm st). destruct (m st) as [[a|e] st1]; [apply Hk|done]. Qed.
Lemma same_query {A} (m : Db -> result SessionRepositoryError A) : authz_same (query alone m).
Proof. apply same_bind; [by intros [n w]|intros w st; done]. Qed.
Lemma same_call {A} (m : Draws -> tx A) : authz_same (call alone draws m).
Proof. intros [n w]. unfold call, atomically. by destruct (m (draws n) (w_db (alone n w))) as [[a db]|e]. Qed.
Lemma same_reload s : authz_same (reload alone s).
Proof. apply same_bind; [apply same_query|done]. Qed.
Lemma same_invalid_reason s at_ : authz_same (current_invalid_reason crypto binding_revision alone s at_).
Proof.
  unfold current_invalid_reason. case_match; [done|].
  repeat first [apply same_bind; [first [apply same_query|by intros [n w]|done]|intros ?]|by intros [? ?]|done|case_match].
Qed.
Lemma same_loop tries s control at_ forced outcome :
  authz_same (reconcile_loop crypto binding_revision alone draws tries s control at_ forced outcome).
Proof.
  revert s outcome. induction tries as [|tries IH]; intros s outcome; cbn [reconcile_loop]; [done|].
  destruct (SessionState.is_terminal (state s)); [done|]. destruct (control <? control_fencing_token s)%Z; [done|].
  apply same_bind.
  { case_match; [|done]. apply same_bind; [apply same_call|]. intros [mu|[]]; done. }
  intros [[s1 o1]|]; [|apply same_bind; [apply same_reload|intros s1; apply IH]].
  apply same_bind; [destruct forced; [done|apply same_invalid_reason]|]. intros [code|]; [|done].
  apply same_bind; [apply same_call|]. intros [mu|[]]; try done. apply same_bind; [apply same_reload|intros s2; apply IH].
Qed.
Lemma same_apply event control : authz_same (apply_revocation crypto binding_revision alone clock draws event control).
Proof.
  apply same_bind; [apply same_query|]. intros l. induction l as [|s l IH]; cbn [apply_to_sessions]; [done|].
  apply same_bind; [done|]. intros matches. apply same_bind; [|intros _; apply IH]. destruct matches; [|done].
  apply same_bind; [by intros [n w]|]. intros at_. apply same_bind; [apply same_loop|done].
Qed.

(** the outbox of [o0] but for the receipt of the event [id], which is pending and free again *)
Record stuck (id : uuid) (e : EventRow) (attempts : Z) (o0 o : Outbox) : Prop := {
  sk_events : ob_events o = ob_events o0;
  sk_consumer : is_Some (ob_consumers o !! CONSUMER_NAME);
  sk_others : forall k, k <> (id, CONSUMER_NAME) -> ob_receipts o !! k = ob_receipts o0 !! k;
  sk_event : ob_events o0 !! id = Some e;
  sk_receipt : exists error, ob_receipts o !! (id, CONSUMER_NAME) = Some (free_receipt attempts error);
}.
Definition oldest (id : uuid) (e : EventRow) (o0 : Outbox) : Prop :=
  forall id' e' r', (id', (e', r')) ∈ pending CONSUMER_NAME o0 ->
    (ev_occurred_at e < ev_occurred_at e')%Z \/ (ev_occurred_at e = ev_occurred_at e' /\ (id <= id')%N).
Definition clock_ok : Prop := forall n, exists expires,
  outbox_add_nanos (clock n) (seconds CLAIM_SECONDS) = Some expires /\ forall m, (clock m < expires)%Z.
Lemma stuck_pending id e attempts o0 o r0 :
  oldest id e o0 -> ob_receipts o0 !! (id, CONSUMER_NAME) = Some r0 -> rp_acknowledged_at r0 = None -> stuck id e attempts o0 o ->
  exists error rest, pending CONSUMER_NAME o = (id, (e, free_receipt attempts error)) :: rest.
Proof.
  intros Hold Hr0 Ha0 [He _ Ho Hev [error Hr]]. exists error. apply pending_head.
  - apply pending_elem. by rewrite He.
  - intros [id' [e' r']] Hin. apply pending_elem in Hin as (Hr' & Ha' & He'). rewrite He in He'. unfold occurs_before. cbn.
    destruct (decide (id' = id)) as [->|Hne].
    + assert (e' = e) as -> by congruence. right. split; [done|lia].
    + apply (Hold id' e' r'), pending_elem. rewrite Ho in Hr' by congruence. done.
Qed.
(** worlds, whatever their outbox, in which applying the event fails and leaves such a world *)
Definition fails_in (bad : World -> Prop) (event : NewAuthorizationRevocation) (control : Z) : Prop :=
  (forall w o, bad w -> bad (with_world_outbox o w)) /\
  forall n w, bad w -> let '(res, st') := apply_revocation crypto binding_revision alone clock draws event control (n, w) in
    is_ok res = false /\ bad st'.2.
Lemma drain_stuck bad fuel control id e attempts o0 r0 st :
  oldest id e o0 -> ob_receipts o0 !! (id, CONSUMER_NAME) = Some r0 -> rp_acknowledged_at r0 = None ->
  stuck id e attempts o0 (az_outbox (w_authz st.2)) -> (0 <= attempts < i32_max)%Z -> names_ok CONSUMER_NAME lease_owner -> clock_ok ->
  fails_in bad (ev_event e) control -> bad st.2 ->
  let '(res, st') := drain_revocations crypto binding_revision alone clock draws lease_owner quiet cancelled (S fuel) control false st in
  is_ok res = false /\ stuck id e (attempts + 1) o0 (az_outbox (w_authz st'.2)) /\ bad st'.2.
Proof.
  intros Hold Hr0 Ha0 Hst Hatt Hnames Hclock [Hbo Hfail] Hbad. destruct (stuck_pending id e attempts o0 _ r0 Hold Hr0 Ha0 Hst) as (error & rest & Hp).
  pose proof Hst as [He Hc Ho Hev _]. destruct st as [n w]. cbn [fst snd] in *. set (o := az_outbox (w_authz w)) in *.
  unfold drain_revocations. cbn [drain_loop]. unfold mbind at 1, life_bind at 1. cbn [is_cancelled andb].
  destruct (Hclock n) as (expires & Hexp & Hlater).
  destruct (claim_next_head CONSUMER_NAME o lease_owner (seconds CLAIM_SECONDS) (fun k => (clock n, quiet n k)) (clock n) id e attempts error rest expires)
    as (cl & Hclaim & Hid & Hcl); [done|split; vm_compute; discriminate|done|done|done|lia|done|].
  set (o1 := with_receipts _ o) in Hclaim. set (st1 := (S n, with_world_outbox o1 w)).
  assert (or_revocation (outbox_call alone clock quiet (claim_next CONSUMER_NAME lease_owner (seconds CLAIM_SECONDS))) (n, w) = (Ok (Some cl), st1)) as Hone.
  { unfold or_revocation, outbox_call, mbind at 1, life_bind at 1. unfold alone. fold o. by rewrite Hclaim. }
  unfold mbind at 1, life_bind at 1. rewrite Hone. rewrite Hcl. unfold mbind at 1, life_bind at 1, catch.
  pose proof (Hfail (S n) (with_world_outbox o1 w) (Hbo _ _ Hbad)) as Hf. fold st1 in Hf. pose proof (same_apply (ev_event e) control st1) as Hsame.
  destruct (apply_revocation _ _ _ _ _ _ _ st1) as [[u|err] [m w2]]; [by destruct Hf|]. destruct Hf as [_ Hbad2]. cbn [fst snd] in Hsame.
  unfold mbind at 1, life_bind at 1. unfold finish, outbox_call, alone. rewrite Hsame. cbn [st1 snd with_world_outbox with_outbox w_authz az_outbox].
  pose proof Hnames as [Hn1 Hn2].
  assert (ob_receipts o1 !! (id, CONSUMER_NAME) = Some {| rp_lease_owner := Some lease_owner; rp_lease_expires_at := Some expires;
    rp_attempts := attempts + 1; rp_acknowledged_at := None; rp_last_error_redacted := None |}) as Hr1 by apply lookup_insert_eq.
  assert (fail_claim id CONSUMER_NAME lease_owner "live_session_revocation_failed" (clock m) (clock m) (quiet m 0) o1 =
    (Ok (), with_consumers (alter (fun _ => {| cn_last_seen_at := Some (clock m) |}) CONSUMER_NAME (ob_consumers o1))
      (with_receipts (<[(id, CONSUMER_NAME) := free_receipt (attempts + 1) (Some "live_session_revocation_failed")]> (ob_receipts o1)) o1))) as Hfin.
  { unfold fail_claim. change (bounded_redacted_error "live_session_revocation_failed") with (Ok (E := RevocationError) "live_session_revocation_failed").
    cbn iota. unfold finish_claim. rewrite Hn1, Hn2. run_ok. by rewrite (read_lease_held _ _ _ _ _ _ expires Hr1), (write_finish_held _ _ _ _ _ _ _ _ Hr1). }
  rewrite Hid, Hfin. cbn [fst snd is_ok fail]. split; [done|]. split; [|by apply Hbo].
  cbn [with_world_outbox with_outbox w_authz az_outbox]. split; cbn [with_consumers with_receipts ob_events ob_consumers ob_receipts].
  - done.
  - by apply lookup_alter_is_Some.
  - intros k Hk. rewrite lookup_insert_ne by done. unfold o1. cbn. rewrite lookup_insert_ne by done. by apply Ho.
  - done.
  - eexists. apply lookup_insert_eq.
Qed.

Fixpoint drains (k fuel : nat) (control : Z) (st : nat * World) : nat * World :=
  match k with
  | O => st
  | S k => drains k fuel control (drain_revocations crypto binding_revision alone clock draws lease_owner quiet cancelled (S fuel) control false st).2
  end.
Lemma drains_stuck bad k fuel control id e attempts o0 r0 st :
  oldest id e o0 -> ob_receipts o0 !! (id, CONSUMER_NAME) = Some r0 -> rp_acknowledged_at r0 = None ->
  stuck id e attempts o0 (az_outbox (w_authz st.2)) -> (0 <= attempts)%Z -> (attempts + Z.of_nat k <= i32_max)%Z ->
  names_ok CONSUMER_NAME lease_owner -> clock_ok ->
  fails_in bad (ev_event e) control -> bad st.2 ->
  stuck id e (attempts + Z.of_nat k) o0 (az_outbox (w_authz (drains k fuel control st).2)) /\ bad (drains k fuel control st).2.
Proof.
  intros Hold Hr0 Ha0. revert attempts st. induction k as [|k IH]; intros attempts st Hst Hpos Hmax Hn Hclock Hf Hbad; cbn [drains].
  - by rewrite Z.add_0_r.
  - pose proof (drain_stuck bad fuel control id e attempts o0 r0 st Hold Hr0 Ha0 Hst ltac:(lia) Hn Hclock Hf Hbad) as Hd.
    destruct (drain_revocations _ _ _ _ _ _ _ _ _ _ _ st) as [res st'] eqn:Heq. destruct Hd as (_ & Hd & Hbad'). cbn [snd].
    replace (attempts + Z.of_nat (S k))%Z with (attempts + 1 + Z.of_nat k)%Z by lia. apply IH; [done|lia|lia|done..].
Qed.
(** A revocation that cannot be applied holds up the later ones.  While applying the oldest pending event
    fails, each drain of the outbox ends with its error, releases it and claims it first again: however many
    drains follow, no receipt of another event changes, so no later revocation is consumed. *)
Theorem failing_revocation_blocks_later bad k fuel control id e attempts error st :
  let o := az_outbox (w_authz st.2) in
  (id, (e, free_receipt attempts error)) ∈ pending CONSUMER_NAME o -> oldest id e o -> is_Some (ob_consumers o !! CONSUMER_NAME) ->
  (0 <= attempts)%Z -> (attempts + Z.of_nat k < i32_max)%Z -> names_ok CONSUMER_NAME lease_owner -> clock_ok ->
  fails_in bad (ev_event e) control -> bad st.2 ->
  let st' := drains k fuel control st in
  let o' := az_outbox (w_authz st'.2) in
  is_ok (drain_revocations crypto binding_revision alone clock draws lease_owner quiet cancelled (S fuel) control false st').1 = false /\
  ob_events o' = ob_events o /\ (forall key, key <> (id, CONSUMER_NAME) -> ob_receipts o' !! key = ob_receipts o !! key) /\
  exists error' rest, pending CONSUMER_NAME o' = (id, (e, free_receipt (attempts + Z.of_nat k) error')) :: rest.
Proof.
  intros o Hin Hold Hc Hpos Hmax Hn Hclock Hf Hbad st' o'. apply pending_elem in Hin as (Hr & Ha & He).
  assert (stuck id e (attempts + Z.of_nat k) o o' /\ bad st'.2) as [Hst Hbad'].
  { eapply drains_stuck; try done; [|lia]. split; try done. by exists error. }
  pose proof (drain_stuck bad fuel control id e _ o _ st' Hold Hr Ha Hst ltac:(lia) Hn Hclock Hf Hbad') as Hd.
  destruct (drain_revocations _ _ _ _ _ _ _ _ _ _ _ st') as [res st2]. destruct Hd as [Hd _].
  split_and!; [done|apply Hst|apply Hst|]. by eapply stuck_pending.
Qed.
End blocked.
