(* ===== verification/GrantMutation.v ===== *)
(** * Changing grants (src/src/live/catalog/grants.rs)

    [set_grant_once] is one transaction over the grants, the authorization revision of the profile, the
    revocation outbox and, when an administrator acts, the audit chain and the revision of the grant list.  It
    composes [Authz], [RevocationOutbox] and [AdminAudit]. *)
From stdpp Require Import pretty.
From S2P Require Import Prelude Bytes LiveContract Crypto SessionStore CatalogCache CatalogGrants CanonicalJson AdminAudit RevocationOutbox Authz.

Definition MAX_ACTOR_SNAPSHOT_BYTES : Z := 4096.
Inductive GrantMutationError :=
| GmGrant (e : LiveProviderGrantError) | GmAuthorization (e : AuthorizationError) | GmRevocation (e : RevocationError)
| GmAudit (e : LiveAuditError).
Record GrantMutationResult := {
  gm_grant : option LiveProviderGrant;
  gm_authorization_revision : Z;
  gm_revocation_event_id : option uuid;
}.
Record GrantWrite := {
  gw_mutation : GrantMutationResult;
  gw_audit : option AuditReference;
  gw_admin_revision : option Z;
}.
Record AuditedGrantMutation := {
  am_provider_id : uuid;
  am_profile_id : uuid;
  am_can_browse : bool;
  am_can_play : bool;
  am_revision : Z;
  am_audit : AuditReference;
  am_revocation_event_id : option uuid;
}.
(** ** Tables: those of authorization, live_provider_grants, providers, the grant_revision of
    live_provider_admin_state by (home, provider), and the audit chain *)
Record GrantDb := {
  gd_authz : AuthzTables;
  gd_grants : gmap (uuid * uuid) GrantRow;
  gd_providers : gset uuid;
  gd_admin : gmap (uuid * uuid) Z;
  gd_audit : AuditTables;
}.
Definition set_authz (a : AuthzTables) (d : GrantDb) : GrantDb :=
  {| gd_authz := a; gd_grants := gd_grants d; gd_providers := gd_providers d; gd_admin := gd_admin d; gd_audit := gd_audit d |}.
Definition set_grants (g : gmap (uuid * uuid) GrantRow) (d : GrantDb) : GrantDb :=
  {| gd_authz := gd_authz d; gd_grants := g; gd_providers := gd_providers d; gd_admin := gd_admin d; gd_audit := gd_audit d |}.
Definition set_admin (a : gmap (uuid * uuid) Z) (d : GrantDb) : GrantDb :=
  {| gd_authz := gd_authz d; gd_grants := gd_grants d; gd_providers := gd_providers d; gd_admin := a; gd_audit := gd_audit d |}.
Definition set_audit (a : AuditTables) (d : GrantDb) : GrantDb :=
  {| gd_authz := gd_authz d; gd_grants := gd_grants d; gd_providers := gd_providers d; gd_admin := gd_admin d; gd_audit := a |}.
Definition grants_view (d : GrantDb) : GrantTables := {| gt_revisions := az_revisions (gd_authz d); gt_grants := gd_grants d |}.

(** what a transaction draws: fresh ids, the time of the server and of the database *)
Record GrantDraws := { new_grant_id : uuid; new_event_id : uuid; new_audit_id : uuid; server_now : instant; db_now : instant }.

(** the grants of a profile, by provider *)
Definition grant_le (p q : (uuid * uuid) * GrantRow) : Prop := (p.1.2 <= q.1.2)%N.
#[local] Instance grant_le_dec : RelDecision grant_le.
Proof. intros p q. unfold grant_le. apply _. Defined.
Definition list_for_profile (profile_id : uuid) (d : GrantDb) : list LiveProviderGrant :=
  (fun kv => decode_grant kv.1 kv.2) <$> merge_sort grant_le (filter (fun kv => kv.1.1 = profile_id) (map_to_list (gd_grants d))).
Definition lock_admin_grant_revision (home_id provider_id : uuid) (expected : Z) (d : GrantDb) : result GrantMutationError (Z * GrantDb) :=
  _ ← reject_if (expected <? 1)%Z (GmGrant GrantInvalidInput);
  let admin := match gd_admin d !! (home_id, provider_id) with Some _ => gd_admin d | None => <[(home_id, provider_id) := 1%Z]> (gd_admin d) end in
  let revision := default 1%Z (admin !! (home_id, provider_id)) in
  _ ← reject_if (negb (revision =? expected)%Z) (GmGrant GrantRevisionChanged);
  Ok (revision, set_admin admin d).
Definition bump_admin_grant_revision (home_id provider_id : uuid) (expected revision : Z) (d : GrantDb) : result GrantMutationError GrantDb :=
  _ ← reject_if (negb (bool_decide (gd_admin d !! (home_id, provider_id) = Some expected))) (GmGrant GrantRevisionChanged);
  Ok (set_admin (<[(home_id, provider_id) := revision]> (gd_admin d)) d).
(** INSERT ... ON CONFLICT(profile_id, provider_id) DO UPDATE; the id is unique *)
Definition upsert_grant (grant_id profile_id provider_id : uuid) (can_browse can_play : bool) (actor_user_id : uuid)
    (actor_snapshot : string) (db_now : instant) (d : GrantDb) : result GrantMutationError GrantDb :=
  let key := (profile_id, provider_id) in
  row ← match gd_grants d !! key with
        | Some r => Ok {| gr_id := gr_id r; gr_can_browse := can_browse; gr_can_play := can_play;
                          gr_created_by_user_id := gr_created_by_user_id r;
                          gr_created_by_actor_snapshot := gr_created_by_actor_snapshot r; gr_created_at := gr_created_at r; gr_updated_at := db_now |}
        | None =>
            _ ← reject_if (existsb (fun kv => (gr_id kv.2 =? grant_id)%N) (map_to_list (gd_grants d))) (GmGrant GrantStorage);
            Ok {| gr_id := grant_id; gr_can_browse := can_browse; gr_can_play := can_play; gr_created_by_user_id := Some actor_user_id;
                  gr_created_by_actor_snapshot := actor_snapshot; gr_created_at := db_now; gr_updated_at := db_now |}
        end;
  Ok (set_grants (<[key := row]> (gd_grants d)) d).
Definition delete_grant (grant_id : uuid) (d : GrantDb) : GrantDb :=
  set_grants (filter (fun kv => gr_id kv.2 <> grant_id) (gd_grants d)) d.

Section mutation.
Context `{CryptoPrims} `{JsonText} `{UuidText} `{AuditOps} `{OutboxOps}.
Definition validate_snapshot (value : string) : result GrantMutationError unit :=
  _ ← reject_if (str_empty (trim value) || (MAX_ACTOR_SNAPSHOT_BYTES <? slen value)%Z) (GmGrant GrantInvalidInput);
  value ← ok_or (parse_json value) (GmGrant GrantInvalidInput);
  reject_if (negb (is_object value)) (GmGrant GrantInvalidInput).
Definition grant_json (provider_id profile_id : uuid) (rights : bool * bool) (more : list (string * json)) : json :=
  JObject ([("canBrowse", JBool rights.1); ("canPlay", JBool rights.2); ("profileId", JString (uuid_to_string profile_id));
            ("providerId", JString (uuid_to_string provider_id))] ++ more).
Definition append_grant_audit (dr : GrantDraws) (audit : option (LiveAuditKey * ActorSnapshot)) (home_id profile_id provider_id grant_id : uuid)
    (before after : bool * bool) (revision : Z) (d : GrantDb) : result GrantMutationError (option AuditReference * GrantDb) :=
  match audit with
  | None => Ok (None, d)
  | Some (key, actor) =>
      let before_value := grant_json provider_id profile_id before [] in
      let after_value := grant_json provider_id profile_id after [("revision", JNumber (pretty revision))] in
      let revoke := negb after.1 && negb after.2 in
      '(reference, tables) ← map_err GmAudit (append key (new_audit_id dr) home_id
         (if revoke then ProviderGrantRevoke else ProviderGrantSet) "provider_grant" (uuid_to_string grant_id) actor
         (if revoke then None else Some before_value) (if revoke then None else Some after_value)
         (if revoke then Some before_value else None) (server_now dr) (gd_audit d));
      Ok (Some reference, set_audit tables d)
  end.
Definition authorized (home_id actor_user_id : uuid) (audit : option (LiveAuditKey * ActorSnapshot * Z)) (d : GrantDb) : bool :=
  is_some_and (fun m => match audit with
                        | Some (_, actor, _) => String.eqb (mb_role m) (role_str (as_home_role actor))
                        | None => String.eqb (mb_role m) "owner"
                        end) (active_member home_id actor_user_id (gd_authz d)).
(** the writes of a change, after the checks *)
Definition write_grant (dr : GrantDraws) (actor_user_id : uuid) (actor_snapshot : string) (home_id profile_id provider_id grant_id : uuid)
    (before after : bool * bool) (d : GrantDb) : result GrantMutationError GrantDb :=
  if after.1 || after.2 then upsert_grant grant_id profile_id provider_id after.1 after.2 actor_user_id actor_snapshot (db_now dr) d
  else Ok (delete_grant grant_id d).
Definition contraction (before after : bool * bool) : bool := (negb after.1 && before.1) || (negb after.2 && before.2).
Definition append_contraction (dr : GrantDraws) (actor_user_id home_id profile_id provider_id grant_id : uuid) (before after : bool * bool)
    (d : GrantDb) : result GrantMutationError (option uuid * GrantDb) :=
  if contraction before after then
    '(_, outbox) ← map_err GmRevocation (append_revocation (new_event_id dr) (server_now dr)
      (provider_grant_revoked home_id actor_user_id profile_id provider_id grant_id "live_provider_grant_contracted" before after)
      (az_outbox (gd_authz d)));
    Ok (Some (new_event_id dr), set_authz (with_outbox outbox (gd_authz d)) d)
  else Ok (None, d).
Definition bump_admin (home_id provider_id : uuid) (current : option Z) (d : GrantDb) : result GrantMutationError (option Z * GrantDb) :=
  match current with
  | None => Ok (None, d)
  | Some current =>
      next ← ok_or (i64_checked_add current 1) (GmGrant GrantInvalidState);
      d ← bump_admin_grant_revision home_id provider_id current next d;
      Ok (Some next, d)
  end.
Definition set_grant_once (dr : GrantDraws) (actor_user_id : uuid) (actor_snapshot : string) (profile_id provider_id : uuid)
    (can_browse can_play : bool) (expected_authorization_revision : option Z) (audit : option (LiveAuditKey * ActorSnapshot * Z))
    (d : GrantDb) : result GrantMutationError (GrantWrite * GrantDb) :=
  _ ← validate_snapshot actor_snapshot;
  _ ← reject_if ((can_play && negb can_browse) || is_some_and (fun r => r <? 1)%Z expected_authorization_revision) (GmGrant GrantInvalidInput);
  target ← ok_or (az_revisions (gd_authz d) !! profile_id) (GmGrant TargetUnavailable);
  let home_id := rv_home_id target in
  let current_revision := rv_revision target in
  _ ← reject_if (is_some_and (fun e => negb (e =? current_revision)%Z) expected_authorization_revision) (GmGrant GrantRevisionChanged);
  _ ← reject_if (negb (authorized home_id actor_user_id audit d)) (GmGrant GrantForbidden);
  _ ← reject_if (bool_decide (provider_id ∉ gd_providers d)) (GmGrant TargetUnavailable);
  '(current_admin_revision, d) ← match audit with
    | Some (_, _, expected) => '(r, d) ← lock_admin_grant_revision home_id provider_id expected d; Ok (Some r, d)
    | None => Ok (None, d)
    end;
  let existing := decode_grant (profile_id, provider_id) <$> gd_grants d !! (profile_id, provider_id) in
  let before := match existing with Some g => (lg_can_browse g, lg_can_play g) | None => (false, false) end in
  let after := (can_browse, can_play) in
  let grant_id := match existing with Some g => lg_id g | None => new_grant_id dr end in
  if bool_decide (before = after) then
    '(reference, d) ← append_grant_audit dr (fst <$> audit) home_id profile_id provider_id grant_id before after
      (default current_revision current_admin_revision) d;
    Ok ({| gw_mutation := {| gm_grant := existing; gm_authorization_revision := current_revision; gm_revocation_event_id := None |};
           gw_audit := reference; gw_admin_revision := current_admin_revision |}, d)
  else
    d ← write_grant dr actor_user_id actor_snapshot home_id profile_id provider_id grant_id before after d;
    '(revision, authz) ← map_err GmAuthorization (bump_profile_authorization_revision profile_id (gd_authz d));
    let d := set_authz authz d in
    '(admin_revision, d) ← bump_admin home_id provider_id current_admin_revision d;
    '(event_id, d) ← append_contraction dr actor_user_id home_id profile_id provider_id grant_id before after d;
    grant ← (if can_browse || can_play then
               g ← ok_or (gd_grants d !! (profile_id, provider_id)) (GmGrant GrantInvalidState);
               Ok (Some (decode_grant (profile_id, provider_id) g))
             else Ok None);
    '(reference, d) ← append_grant_audit dr (fst <$> audit) home_id profile_id provider_id grant_id before after
      (default revision admin_revision) d;
    Ok ({| gw_mutation := {| gm_grant := grant; gm_authorization_revision := revision; gm_revocation_event_id := event_id |};
           gw_audit := reference; gw_admin_revision := admin_revision |}, d).

(** the retries: a database conflict rolls an attempt back; [conflicts n] says how attempt [n] fared with the
    database: no error, a transient conflict, or another error *)
Inductive weather := Fair | Conflict | Broken.
Fixpoint grant_loop {A} (tries : nat) (attempt : nat) (conflicts : nat -> weather) (once : nat -> GrantDb -> result GrantMutationError (A * GrantDb))
    (d : GrantDb) : result GrantMutationError A * GrantDb :=
  match conflicts attempt with
  | Fair => match once attempt d with Ok (a, d) => (Ok a, d) | Err e => (Err e, d) end
  | Broken => (Err (GmGrant GrantStorage), d)
  | Conflict =>
      match tries with
      | O => (Err (GmGrant GrantStorage), d)
      | S tries => grant_loop tries (S attempt) conflicts once d
      end
  end.
Definition set_grant (dr : nat -> GrantDraws) (conflicts : nat -> weather) (actor_user_id : uuid) (actor_snapshot : string)
    (profile_id provider_id : uuid) (can_browse can_play : bool) (expected_authorization_revision : option Z) (d : GrantDb)
    : result GrantMutationError GrantMutationResult * GrantDb :=
  let '(r, d) := grant_loop 7 0 conflicts (fun n => set_grant_once (dr n) actor_user_id actor_snapshot profile_id provider_id can_browse can_play
      expected_authorization_revision None) d in
  (gw_mutation <$> r, d).
Definition set_grant_audited (dr : nat -> GrantDraws) (conflicts : nat -> weather) (key : LiveAuditKey) (actor : ActorSnapshot)
    (profile_id provider_id : uuid) (can_browse can_play : bool) (expected_admin_revision : Z) (d : GrantDb)
    : result GrantMutationError AuditedGrantMutation * GrantDb :=
  let '(r, d) := grant_loop 7 0 conflicts (fun n => set_grant_once (dr n) (as_actor_user_id actor) (canonical_json (actor_value actor))
      profile_id provider_id can_browse can_play None (Some (key, actor, expected_admin_revision))) d in
  (write ← r;
   audit ← ok_or (gw_audit write) (GmGrant GrantInvalidState);
   revision ← ok_or (gw_admin_revision write) (GmGrant GrantInvalidState);
   let grant := gm_grant (gw_mutation write) in
   Ok {| am_provider_id := provider_id; am_profile_id := profile_id; am_can_browse := is_some_and lg_can_browse grant;
         am_can_play := is_some_and lg_can_play grant; am_revision := revision; am_audit := audit;
         am_revocation_event_id := gm_revocation_event_id (gw_mutation write) |}, d).
End mutation.

(** ** What a change leaves *)
Definition rights_of (key : uuid * uuid) (d : GrantDb) : bool * bool :=
  match gd_grants d !! key with Some g => (gr_can_browse g, gr_can_play g) | None => (false, false) end.
Definition access_of (access : LiveProviderAccess) (rights : bool * bool) : bool :=
  match access with Browse => rights.1 | Play => rights.2 end.
(** the primary key *)
Definition grant_ids_unique (d : GrantDb) : Prop :=
  forall k k' g g', gd_grants d !! k = Some g -> gd_grants d !! k' = Some g' -> gr_id g = gr_id g' -> k = k'.
Definition restricted (role : HomeRole) (ty : ProfileType) : bool :=
  negb (negb (bool_decide (ty = Managed)) && match role with Owner | Admin => true | _ => false end).

Section effects.
Context `{CryptoPrims} `{JsonText} `{UuidText} `{AuditOps} `{OutboxOps}.
Lemma lock_admin_ok home v expected d r d' :
  lock_admin_grant_revision home v expected d = Ok (r, d') -> exists a, d' = set_admin a d.
Proof. unfold lock_admin_grant_revision. intros Hl. ok_inv. by eexists. Qed.
Lemma bump_admin_ok home v current d next d' :
  bump_admin home v current d = Ok (next, d') -> (exists a, d' = set_admin a d) /\ is_some_b next = is_some_b current.
Proof.
  unfold bump_admin, bump_admin_grant_revision. destruct current as [c|]; intros Hb; [ok_inv; split; [by eexists|done]|].
  injection Hb as <- <-. split; [exists (gd_admin d); by destruct d|done].
Qed.
Lemma append_grant_audit_ok dr audit home p v id before after rev d ref d' :
  append_grant_audit dr audit home p v id before after rev d = Ok (ref, d') ->
  (exists a, d' = set_audit a d) /\ is_some_b ref = is_some_b audit /\
  match audit with
  | None => d' = d
  | Some _ => exists row, at_events (gd_audit d') !! new_audit_id dr = Some row /\ ar_home_id row = home /\
      ar_action row = action_str (if negb after.1 && negb after.2 then ProviderGrantRevoke else ProviderGrantSet) /\
      ar_target_id row = uuid_to_string id
  end.
Proof.
  unfold append_grant_audit. destruct audit as [[key actor]|]; [|intros [= <- <-]; split; [exists (gd_audit d); by destruct d|done]].
  set (action := if negb after.1 && negb after.2 then ProviderGrantRevoke else ProviderGrantSet).
  destruct (append _ _ _ _ _ _ _ _ _ _ _ _) as [[reference tables]|] eqn:Ha; [|done]. intros [= <- <-].
  split; [by eexists|]. split; [done|]. cbn [set_audit gd_audit].
  pose proof (append_row {| call_key := key; call_id := new_audit_id dr; call_home_id := home; call_action := action; call_target_type := "provider_grant";
    call_target_id := uuid_to_string id; call_actor := actor; call_before := _; call_after := _; call_tombstone := _; call_occurred_at := server_now dr |}
    (gd_audit d) reference tables Ha) as (row & Hrow & ? & ? & ?). by exists row.
Qed.
Lemma write_grant_ok dr actor snapshot home p v id before after d d' :
  grant_ids_unique d -> before <> after -> before = rights_of (p, v) d ->
  (forall g, gd_grants d !! (p, v) = Some g -> id = gr_id g) ->
  write_grant dr actor snapshot home p v id before after d = Ok d' ->
  (exists g, d' = set_grants g d) /\ rights_of (p, v) d' = after /\ (forall key, key <> (p, v) -> gd_grants d' !! key = gd_grants d !! key).
Proof.
  unfold write_grant, upsert_grant, delete_grant, rights_of. intros Hu Hne Hb Hid Hw.
  destruct (after.1 || after.2) eqn:Hon.
  - ok_inv. split; [by eexists|]. cbn [set_grants gd_grants]. split; [|intros key Hk; by rewrite lookup_insert_ne].
    rewrite lookup_insert_eq. destruct (gd_grants d !! (p, v)); ok_inv; by destruct after.
  - injection Hw as <-. split; [by eexists|]. cbn [set_grants gd_grants]. apply orb_false_iff in Hon as [Ha1 Ha2].
    assert (after = (false, false)) as -> by (destruct after; cbn in *; by subst). split.
    + destruct (gd_grants d !! (p, v)) as [g|] eqn:Hg; [|by rewrite map_lookup_filter, Hg].
      rewrite (proj2 (map_lookup_filter_None _ _ _)); [done|]. right. intros g' Hg' Hx. apply Hx. cbn. rewrite (Hid g); congruence.
    + intros key Hk. rewrite map_lookup_filter. destruct (gd_grants d !! key) as [g'|] eqn:Hg'; [|done]. cbn.
      rewrite option_guard_True; [done|]. intros Heq.
      destruct (gd_grants d !! (p, v)) as [g|] eqn:Hg; [|by subst before].
      apply Hk. eapply Hu; [done..|]. cbn in Heq. rewrite Heq. by apply Hid.
Qed.
Lemma append_contraction_ok dr actor home p v id before after d event d' :
  outbox_wf (az_outbox (gd_authz d)) -> append_contraction dr actor home p v id before after d = Ok (event, d') ->
  event = (if contraction before after then Some (new_event_id dr) else None) /\
  (exists o, d' = set_authz (with_outbox o (gd_authz d)) d) /\
  if contraction before after then
    exists e, ob_events (az_outbox (gd_authz d')) !! new_event_id dr = Some e /\
      ev_event e = provider_grant_revoked home actor p v id "live_provider_grant_contracted" before after /\
      forall consumer, is_Some (ob_consumers (az_outbox (gd_authz d)) !! consumer) ->
        ob_receipts (az_outbox (gd_authz d')) !! (new_event_id dr, consumer) = Some new_receipt
  else az_outbox (gd_authz d') = az_outbox (gd_authz d).
Proof.
  unfold append_contraction. intros Hw Ha. destruct (contraction before after).
  - destruct (append_revocation _ _ _ _) as [[row o]|] eqn:Hap; [|done]. cbn in Ha. injection Ha as <- <-. split; [done|]. split; [by eexists|].
    apply append_revocation_new in Hap as (He & Hev & Hrec); [|done]. exists row. by split_and!.
  - injection Ha as <- <-. split; [done|]. split; [exists (az_outbox (gd_authz d)); destruct d as [[] ? ? ? ?]; done|done].
Qed.
End effects.

Section properties.
Context `{CryptoPrims} `{JsonText} `{UuidText} `{AuditOps} `{OutboxOps}.
Lemma contraction_same x : contraction x x = false.
Proof. by destruct x as [[] []]. Qed.
Lemma visibility_of home p role ty v access d r :
  az_revisions (gd_authz d) !! p = Some r -> rv_home_id r = home -> (0 < rv_revision r)%Z -> restricted role ty = true ->
  exists vd, visibility home p role ty v access (grants_view d) = Ok vd /\ vd_allowed vd = access_of access (rights_of (p, v) d) /\
    vd_authorization_revision vd = rv_revision r.
Proof.
  intros Hr Hh Hpos Hres. unfold visibility, grants_view. cbn [gt_revisions gt_grants]. rewrite Hr, decide_True by done. run_ok.
  destruct (Z.ltb_spec (rv_revision r) 1); [lia|]. run_ok. eexists. split; [done|]. cbn [vd_allowed vd_authorization_revision]. split; [|done].
  unfold restricted in Hres. apply negb_true_iff in Hres. rewrite Hres. unfold rights_of, access_of.
  destruct (gd_grants d !! (p, v)) as [g|]; by destruct access.
Qed.
(** what [set_grant_once] did to the access of the profile, its revision, the outbox and the audit chain *)
Lemma set_grant_once_ok dr actor snapshot p v b pl expected audit d write d' :
  outbox_wf (az_outbox (gd_authz d)) -> grant_ids_unique d ->
  set_grant_once dr actor snapshot p v b pl expected audit d = Ok (write, d') ->
  let before := rights_of (p, v) d in let after := (b, pl) in
  exists r id, az_revisions (gd_authz d) !! p = Some r /\ authorized (rv_home_id r) actor audit d = true /\
    (forall g, gd_grants d !! (p, v) = Some g -> id = gr_id g) /\
    rights_of (p, v) d' = after /\ (forall key, key <> (p, v) -> gd_grants d' !! key = gd_grants d !! key) /\
    gm_authorization_revision (gw_mutation write) = (if bool_decide (before = after) then rv_revision r else rv_revision r + 1)%Z /\
    az_revisions (gd_authz d') = <[p := {| rv_home_id := rv_home_id r; rv_revision := gm_authorization_revision (gw_mutation write) |}]> (az_revisions (gd_authz d)) /\
    gm_revocation_event_id (gw_mutation write) = (if contraction before after then Some (new_event_id dr) else None) /\
    (if contraction before after then
      exists e, ob_events (az_outbox (gd_authz d')) !! new_event_id dr = Some e /\
        ev_event e = provider_grant_revoked (rv_home_id r) actor p v id "live_provider_grant_contracted" before after /\
        forall consumer, is_Some (ob_consumers (az_outbox (gd_authz d)) !! consumer) ->
          ob_receipts (az_outbox (gd_authz d')) !! (new_event_id dr, consumer) = Some new_receipt
     else az_outbox (gd_authz d') = az_outbox (gd_authz d)) /\
    match audit with
    | None => gd_audit d' = gd_audit d
    | Some _ => exists row, at_events (gd_audit d') !! new_audit_id dr = Some row /\ ar_home_id row = rv_home_id r /\
        ar_action row = action_str (if negb b && negb pl then ProviderGrantRevoke else ProviderGrantSet) /\ ar_target_id row = uuid_to_string id
    end.
Proof.
  intros Hw Hu Hs before after. unfold set_grant_once in Hs. ok_inv.
  match goal with Hx : az_revisions (gd_authz d) !! p = Some ?x |- _ => rename x into r; rename Hx into Hr end.
  match goal with Hx : negb (authorized _ _ _ _) = false |- _ => apply negb_false_iff in Hx; rename Hx into Hauth end.
  match goal with Hx : match audit with Some _ => _ | None => _ end = Ok ?x |- _ => destruct x as [admin d1]; rename Hx into Hlock end.
  assert (exists a, d1 = set_admin a d) as [a ->].
  { destruct audit as [[[key act] e]|].
    - apply result_bind_ok in Hlock as ([r1 d2] & Hl & Hlock). injection Hlock as <- <-. by eapply lock_admin_ok.
    - injection Hlock as <- <-. exists (gd_admin d). by destruct d. }
  cbn beta iota zeta in Hs. cbn [set_admin gd_grants] in Hs.
  set (existing := decode_grant (p, v) <$> gd_grants d !! (p, v)) in *.
  assert ((match existing with Some g => (lg_can_browse g, lg_can_play g) | None => (false, false) end) = before) as Hbefore
    by (unfold existing, before, rights_of; by destruct (gd_grants d !! (p, v))).
  rewrite Hbefore in Hs.
  set (id := match existing with Some g => lg_id g | None => new_grant_id dr end) in *.
  assert (forall g, gd_grants d !! (p, v) = Some g -> id = gr_id g) as Hid by (intros g Hg; unfold id, existing; by rewrite Hg).
  exists r, id. split; [done|]. split; [done|]. split; [done|].
  destruct (decide (before = after)) as [Heq|Hne].
  - rewrite !bool_decide_true in * by done. apply result_bind_ok in Hs as ([ref d2] & Hau & Hs). injection Hs as <- <-.
    apply append_grant_audit_ok in Hau as ([a' Hd2] & _ & Haudit). cbn [gw_mutation gm_authorization_revision gm_revocation_event_id].
    assert (contraction before after = false) as -> by (rewrite Heq; apply contraction_same).
    split_and!; [subst d2; exact Heq|by subst d2|done| |done|by subst d2|].
    + subst d2. cbn. symmetry. apply insert_id. rewrite Hr. by destruct r.
    + destruct audit as [[[key act] e]|]; cbn in Haudit; [exact Haudit|by rewrite Haudit].
  - rewrite !bool_decide_false in * by done. apply result_bind_ok in Hs as (d2 & Hwr & Hs).
    apply write_grant_ok in Hwr as ([g ->] & Hrights & Hothers); [|done|done|done|exact Hid].
    apply result_bind_ok in Hs as ([rev authz] & Hb & Hs). cbn [set_grants set_admin gd_authz] in Hb.
    assert (bump_profile_authorization_revision p (gd_authz d) = Ok (rev, authz)) as Hbump
      by (destruct (bump_profile_authorization_revision p (gd_authz d)) as [[? ?]|]; [|done]; by injection Hb as -> ->).
    apply bump_ok in Hbump as (r' & Hr' & -> & _ & ->). assert (r' = r) as -> by congruence.
    apply result_bind_ok in Hs as ([next d3] & Hba & Hs). apply bump_admin_ok in Hba as [[a1 ->] _].
    apply result_bind_ok in Hs as ([event d4] & Hc & Hs). apply append_contraction_ok in Hc as (-> & [o ->] & Hevent); [|done].
    apply result_bind_ok in Hs as (grant & _ & Hs). apply result_bind_ok in Hs as ([ref d5] & Hau & Hs). injection Hs as <- <-.
    apply append_grant_audit_ok in Hau as ([a' Hd5] & _ & Haudit). cbn [gw_mutation gm_authorization_revision gm_revocation_event_id].
    split_and!; [by subst d5|by subst d5|done|by subst d5|done|by subst d5|].
    destruct audit as [[[key act] e]|]; cbn in Haudit; [exact Haudit|by rewrite Haudit].
Qed.

(** C31: A grant takes effect, and taking rights away is revoked.  When [set_grant_once] succeeds, the actor was an
    active member of the home with the required role; a profile that is not unrestricted then has exactly the
    access that was set, no other grant changed, and the authorization revision is one higher if the rights
    changed; a revocation that names the profile and provider is pending for every consumer exactly when rights
    were taken away; and with an audit chain the change is on it. *)
Theorem grant_takes_effect dr actor snapshot p v b pl expected audit d write d' :
  outbox_wf (az_outbox (gd_authz d)) -> grant_ids_unique d -> (forall r, az_revisions (gd_authz d) !! p = Some r -> (0 < rv_revision r)%Z) ->
  set_grant_once dr actor snapshot p v b pl expected audit d = Ok (write, d') ->
  let before := rights_of (p, v) d in let after := (b, pl) in
  let revision := gm_authorization_revision (gw_mutation write) in
  exists r id, az_revisions (gd_authz d) !! p = Some r /\ authorized (rv_home_id r) actor audit d = true /\
    revision = (if bool_decide (before = after) then rv_revision r else rv_revision r + 1)%Z /\
    (forall role ty access, restricted role ty = true -> exists vd,
       visibility (rv_home_id r) p role ty v access (grants_view d') = Ok vd /\ vd_allowed vd = access_of access after /\
       vd_authorization_revision vd = revision) /\
    (forall key, key <> (p, v) -> gd_grants d' !! key = gd_grants d !! key) /\
    gm_revocation_event_id (gw_mutation write) = (if contraction before after then Some (new_event_id dr) else None) /\
    (if contraction before after then
      exists e, ob_events (az_outbox (gd_authz d')) !! new_event_id dr = Some e /\
        ev_event e = provider_grant_revoked (rv_home_id r) actor p v id "live_provider_grant_contracted" before after /\
        forall consumer, is_Some (ob_consumers (az_outbox (gd_authz d)) !! consumer) ->
          ob_receipts (az_outbox (gd_authz d')) !! (new_event_id dr, consumer) = Some new_receipt
     else az_outbox (gd_authz d') = az_outbox (gd_authz d)) /\
    match audit with
    | None => gd_audit d' = gd_audit d
    | Some _ => exists row, at_events (gd_audit d') !! new_audit_id dr = Some row /\ ar_home_id row = rv_home_id r /\
        ar_action row = action_str (if negb b && negb pl then ProviderGrantRevoke else ProviderGrantSet)
    end.
Proof.
  intros Hw Hu Hpos Hs before after revision.
  destruct (set_grant_once_ok _ _ _ _ _ _ _ _ _ _ _ _ Hw Hu Hs) as (r & id & Hr & Hauth & _ & Hrights & Hothers & Hrev & Hrevs & Hid & Hevent & Haudit).
  fold before after revision in Hrights, Hrev, Hrevs, Hid, Hevent. exists r, id. split_and!; try done.
  - intros role ty access Hres. destruct (visibility_of (rv_home_id r) p role ty v access d' {| rv_home_id := rv_home_id r; rv_revision := revision |})
      as (vd & Hvd & Hall & Hrv); [by rewrite Hrevs, lookup_insert_eq|done| |done|].
    + apply Hpos in Hr. cbn. rewrite Hrev. case_bool_decide; lia.
    + exists vd. rewrite Hrights in Hall. by split_and!.
  - destruct audit; [|done]. destruct Haudit as (row & ? & ? & ? & _). by exists row.
Qed.
End properties.
