(* ===== verification/AdminWitness.v ===== *)
(** * Concrete runs of the audit chain, the revocation outbox and a change of a grant

    Two records of one home signed under two keys, and an outbox with two consumers.  The MAC of the example
    tells apart texts of different lengths or sums of bytes; strings are quoted in hexadecimal. *)
From stdpp Require Import pretty.
From S2P Require Import Prelude Bytes LiveContract Crypto SessionStore CatalogCache CatalogGrants CanonicalJson AdminAudit RevocationOutbox Authz GrantMutation.

Module AuditDemo.
Fixpoint byte_sum (s : string) : Z :=
  match s with EmptyString => 0 | String c r => Z.of_N (byte_of c) + byte_sum r end.
#[export] Instance prims : CryptoPrims := {|
  aead_seal := Demo.seal; aead_open := Demo.open_; hkdf _ _ _ := Some Demo.block;
  hmac _ m := be64 (slen m) +:+ be64 (byte_sum m) +:+ Demo.tag;
  b64url_encode := Demo.encode; b64url_decode := Demo.decode; b64_decode _ := None |}.
#[export] Instance json_text : JsonText := {| quote s := String "034" (hex s +:+ String "034" "") |}.
#[export] Instance uuid_text : UuidText := {|
  uuid_to_string u := pretty u; uuid_parse_str s := List.find (fun u => String.eqb (pretty u) s) [1; 2; 3; 4; 5]%N |}.
Definition actor : ActorSnapshot := {| as_actor_user_id := 1; as_display_name := "Ada"; as_home_role := Owner |}.
Definition granted : json := JObject [("canPlay", JBool true); ("canBrowse", JBool true)].
Definition refused : json := JObject [("canPlay", JBool false); ("canBrowse", JBool false)].
Definition known_values : list json := [actor_value actor; granted; refused].
#[export] Instance ops : AuditOps := {|
  parse_json s := List.find (fun v => String.eqb (write_canonical v) s) known_values;
  millis_text t := pretty t;
  checked_add_days t d := Some (t + seconds (86400 * d))%Z |}.

Lemma hex_delimited s s' r r' :
  hex s +:+ String "034" r = hex s' +:+ String "034" r' -> s = s' /\ r = r'.
Proof.
  revert s'. induction s as [|c s IH]; intros [|c' s'] Heq; cbn [hex] in Heq; rewrite ?str_app_nil_l, ?str_app_cons in Heq.
  - by injection Heq as ->.
  - injection Heq as Hc _. exfalso. pose proof (hex_bytes (String c' "")) as Hb. cbn [hex] in Hb. rewrite <- Hc in Hb. done.
  - injection Heq as Hc _. exfalso. pose proof (hex_bytes (String c "")) as Hb. cbn [hex] in Hb. rewrite Hc in Hb. done.
  - injection Heq as H1 H2 Heq. apply IH in Heq as [-> ->]. split; [|done].
    assert (hex (String c "") = hex (String c' "")) as Hx by (cbn [hex]; by rewrite H1, H2). apply hex_inj in Hx. by injection Hx as ->.
Qed.
#[export] Instance json_laws : JsonTextLaws json_text.
Proof.
  split; cbn [quote json_text].
  - intros s. by eexists.
  - intros s s' r r' Heq. rewrite !str_app_cons, !str_app_assoc in Heq. injection Heq as Heq. by apply hex_delimited.
Qed.
#[export] Instance ops_laws : AuditOpsLaws ops.
Proof.
  split. intros s v Hv. apply List.find_some in Hv as [Hin _]. cbn in Hin. by destruct Hin as [<-|[<-|[<-|[]]]].
Qed.

Definition ring : gmap string string := <["k1" := "first"]> (<["k2" := "second"]> ∅).
Definition call (key : LiveAuditKey) (id : uuid) (action : AdminAction) (before after : option json) (at_ : instant) : AuditCall :=
  {| call_key := key; call_id := id; call_home_id := 5; call_action := action; call_target_type := "provider_grant";
     call_target_id := "grant-1"; call_actor := actor; call_before := before; call_after := after; call_tombstone := None;
     call_occurred_at := at_ |}.
(** a grant is set under the first key and revoked under the second *)
Definition calls : list AuditCall :=
  [call {| ak_key_id := "k1"; ak_material := "first" |} 10 ProviderGrantSet None (Some granted) 1000;
   call {| ak_key_id := "k2"; ak_material := "second" |} 11 ProviderGrantRevoke (Some granted) (Some refused) 2000].
Definition tables : AuditTables := run_appends calls (no_records {[1%N]}).
End AuditDemo.
Import AuditDemo.

Lemma calls_keys : Forall (key_ok ring) calls.
Proof. repeat first [apply Forall_cons_2|apply Forall_nil_2]; (split; [vm_compute; reflexivity|vm_compute; discriminate]). Qed.
Lemma audit_records_form_a_chain_witness :
  hd_revision (head_of 5 tables) = 2%Z /\ is_some_b (at_events tables !! 10%N) = true /\ is_some_b (at_events tables !! 11%N) = true /\
  exists l, length l = 2%nat /\ linked (hd_last_record_hash (head_of 5 tables)) l /\ Forall (verifies ring) l.
Proof.
  assert (hd_revision (head_of 5 tables) = 2%Z) as Hrev by (vm_compute; reflexivity).
  split_and!; [exact Hrev|vm_compute; reflexivity|vm_compute; reflexivity|].
  destruct (audit_records_form_a_chain ring {[1%N]} calls [] calls_keys) as [Hchain _].
  destruct (Hchain 5%N) as (l & _ & Hl & Hlen & _ & Hv). fold tables in Hl, Hlen. exists l. split; [|by split].
  rewrite Hrev in Hlen. lia.
Defined.

(** the record of the first call, alone on its chain *)
Definition first_record : uuid * AuditRow :=
  (10%N, default {| ar_home_id := 0; ar_action := ""; ar_target_type := ""; ar_target_id := ""; ar_actor_user_id := 0;
     ar_actor_snapshot_json := ""; ar_before_json := None; ar_after_json := None; ar_tombstone_json := None;
     ar_audit_key_id := ""; ar_previous_hash := None; ar_record_hash := ""; ar_occurred_at := 0; ar_retain_until := 0 |}
    (at_events tables !! 10%N)).
Lemma first_verifies : verifies ring first_record.
Proof.
  destruct (run_appends_inv ring calls (no_records {[1%N]}) calls_keys (no_records_inv ring _) 5%N) as (l & _ & _ & _ & Hmem & Hv).
  rewrite Forall_forall in Hv. apply Hv. apply Hmem. split; vm_compute; reflexivity.
Qed.
Lemma first_in_memory : in_memory first_record.
Proof. intros v Hv. assert (row_value 10%N first_record.2 = Some v) as Hx by done. vm_compute in Hx. injection Hx as <-. vm_compute. discriminate. Qed.
Lemma audit_chain_tamper_evident_witness :
  Forall2 same_record [first_record] [first_record] \/ collision ring.
Proof.
  assert (linked (Some (ar_record_hash first_record.2)) [first_record]) as Hl by (split; vm_compute; reflexivity).
  assert (Forall (verifies ring) [first_record]) as Hv by (repeat constructor; apply first_verifies).
  assert (Forall in_memory [first_record]) as Hm by (repeat constructor; apply first_in_memory).
  destruct (audit_chain_tamper_evident ring [first_record] [first_record] _ Hl Hl Hv Hv Hm Hm) as [[_ H]|H]; [by left|by right].
Defined.
Definition regranted : json := JObject [("canBrowse", JBool true); ("canPlay", JBool true)].
Lemma canonical_json_exact_witness : canonical_json granted = canonical_json regranted.
Proof. apply (canonical_json_exact granted regranted eq_refl eq_refl). vm_compute. reflexivity. Defined.

(** ** The outbox *)
Module OutboxDemo.
#[export] Instance outbox_ops : OutboxOps := {|
  payload_bytes v := Some (slen (write_canonical v)); outbox_add_days t d := Some (t + seconds (86400 * d))%Z;
  outbox_add_nanos t d := Some (t + d)%Z |}.
Definition first : NewAuthorizationRevocation := account_session 1 3 (Some 2%N) "logout".
Definition second : NewAuthorizationRevocation := account 1 4 "removed".
Definition revoker : string := "live-session-revoker-v1".
Definition setup : list outbox_step :=
  [SRegister revoker 0; SAppend 100 (seconds 1) first; SRegister "audit" 2; SAppend 101 (seconds 2) second].
Definition outbox : Outbox := run_steps setup (outbox_empty 0).
Definition alone (now : instant) (_ : nat) : instant * (Outbox -> Outbox) := (now, fun db => db).
End OutboxDemo.
Import OutboxDemo.

(** someone else's acknowledgement, another consumer's, and a clean-up after the retention *)
Definition later : list outbox_step :=
  [SFinish 101 revoker "other" (seconds 400) (seconds 20) None; SFinish 100 "audit" "other" (seconds 400) (seconds 20) None;
   SCleanup (seconds 9000000) (seconds 8000000)].
Lemma is_some_b_is {A} (o : option A) : is_some_b o = true -> is_Some o.
Proof. destruct o; [by eexists|done]. Qed.
Lemma event_present : is_Some (ob_events outbox !! 100%N).
Proof. apply is_some_b_is. vm_compute. reflexivity. Qed.
Lemma consumer_present : is_Some (ob_consumers outbox !! revoker).
Proof. apply is_some_b_is. vm_compute. reflexivity. Qed.
Lemma receipt_present : ob_receipts outbox !! (100%N, revoker) = Some new_receipt.
Proof. vm_compute. reflexivity. Qed.
Lemma later_spares : Forall (fun s => ~ acknowledges 100 revoker s) later.
Proof.
  apply Forall_cons_2; [intros [Hc _]; vm_compute in Hc; discriminate|].
  apply Forall_cons_2; [intros [_ Hc]; vm_compute in Hc; discriminate|].
  apply Forall_cons_2; [intros []|apply Forall_nil_2].
Qed.
Definition kept_row (id : uuid) (c : string) (db : Outbox) : bool :=
  is_some_b (ob_events db !! id) && match ob_receipts db !! (id, c) with Some r => is_none_b (rp_acknowledged_at r) | None => false end.
Lemma revocation_kept_until_acknowledged_witness : kept_row 100 revoker (run_steps later outbox) = true.
Proof.
  destruct (revocation_kept_until_acknowledged 0 setup later 100%N revoker event_present consumer_present) as (r & Hr & Hkept).
  assert (rp_acknowledged_at r = None) as Ha.
  { pose proof (eq_trans (eq_sym Hr) receipt_present) as Heq. injection Heq as ->. reflexivity. }
  destruct (Hkept Ha later_spares) as (e & r' & He & Hr' & Ha'). fold outbox in He, Hr'.
  unfold kept_row. rewrite He, Hr', Ha'. reflexivity.
Defined.

Definition claimed : result RevocationError (option ClaimedAuthorizationRevocation) * Outbox :=
  claim_next revoker "one" (seconds 300) (alone (seconds 10)) outbox.
Lemma revoker_names owner : validate_consumer_identity owner "lease owner" = Ok () -> names_ok revoker owner.
Proof. intros H. split; [vm_compute; reflexivity|exact H]. Qed.
Definition free_row (now : instant) (p : uuid * (EventRow * ReceiptRow)) : bool :=
  is_none_b (rp_lease_owner p.2.2) && is_none_b (rp_lease_expires_at p.2.2) && (rp_attempts p.2.2 <? i32_max)%Z.
Lemma free_row_ready now p : free_row now p = true -> ready_row now p.
Proof.
  unfold free_row, ready_row, claimable. intros H. bool_hyps. destruct (rp_lease_owner _), (rp_lease_expires_at _); try done.
Qed.
Lemma oldest_free : forallb (free_row (seconds 10)) (take MAX_CLAIM_SCAN (pending revoker outbox)) = true.
Proof. vm_compute. reflexivity. Qed.
Lemma pending_revocation_is_claimed_witness :
  exists cl db', claimed = (Ok (Some cl), db') /\ cl_lease_owner cl = "one" /\ cl_lease_expires_at cl = seconds 310.
Proof.
  pose proof oldest_free as Hf. rewrite forallb_forall in Hf.
  destruct (pending_revocation_is_claimed 0 setup revoker "one" (seconds 300) (seconds 10) (seconds 310)) as (cl & db' & r & Hc & _ & _ & Ho & He & _).
  - apply revoker_names. vm_compute. reflexivity.
  - split; vm_compute; discriminate.
  - vm_compute. reflexivity.
  - exact consumer_present.
  - apply Forall_forall. intros p Hp. left. apply free_row_ready, Hf. by apply list_elem_of_In.
  - fold outbox. destruct (take MAX_CLAIM_SCAN (pending revoker outbox)) as [|p l] eqn:Hl; [vm_compute in Hl; discriminate|].
    constructor. apply free_row_ready, Hf. by left.
  - exists cl, db'. by split_and!.
Defined.

Definition event_row (id : uuid) (db : Outbox) : option EventRow := ob_events db !! id.
Definition candidate : option ClaimCandidate :=
  (fun e => {| cc_event_id := 100; cc_event := e; cc_previous_owner := None; cc_previous_expires_at := None; cc_attempts := 0 |})
    <$> event_row 100 outbox.
(** while [one] holds the event, [two] takes the other one and a publisher reports *)
Definition others : list outbox_step := [SPublish 100 None (seconds 11); SFinish 100 revoker "two" (seconds 310) (seconds 12) None].
Lemma claim_is_exclusive_witness :
  (acknowledge 100 revoker "one" (seconds 20) (seconds 21) (fun db => db) (run_steps others claimed.2)).1 = Ok ().
Proof.
  destruct candidate as [cc|] eqn:Hcc; [|vm_compute in Hcc; discriminate].
  assert (cc_event_id cc = 100%N) as Hid by (vm_compute in Hcc; injection Hcc as <-; reflexivity).
  destruct (claim_candidate cc revoker "one" (seconds 310) outbox) as [[cl|] db1] eqn:Hclaim;
    [|vm_compute in Hcc; injection Hcc as <-; vm_compute in Hclaim; discriminate].
  assert (db1 = claimed.2) as Hdb1 by (vm_compute in Hcc; injection Hcc as <-; apply (f_equal snd) in Hclaim; cbn [snd] in Hclaim; rewrite <- Hclaim; vm_compute; reflexivity).
  destruct (claim_is_exclusive 0 setup cc revoker "one" (seconds 310) cl db1 others [] (seconds 20) (seconds 21)) as [(db3 & r & Hack & _) _].
  - exact Hclaim.
  - apply revoker_names. vm_compute. reflexivity.
  - apply Forall_cons_2; [split; [exact I|split; [intros t Ht; discriminate Ht|intros []]]|].
    apply Forall_cons_2; [|apply Forall_nil_2]. split; [exact I|split; [intros t Ht; discriminate Ht|]]. intros (_ & _ & Ho). vm_compute in Ho. discriminate Ho.
  - apply Forall_nil_2.
  - vm_compute. reflexivity.
  - rewrite Hid, Hdb1 in Hack. change (run_steps []) with (fun db : Outbox => db) in Hack. by rewrite Hack.
Defined.

(** ** A viewer loses a provider *)
(** user 1 owns home 5; profile 6 may browse and play provider 7 *)
Definition granted_db : GrantDb := {|
  gd_authz := {|
    az_profiles := {[6%N := {| pf_home_id := 5; pf_user_id := None; pf_profile_type := "managed" |}]};
    az_members := {[(5%N, 1%N) := {| mb_role := "owner"; mb_status := "active" |}]};
    az_revisions := {[6%N := {| rv_home_id := 5; rv_revision := 3 |}]}; az_overrides := ∅; az_outbox := outbox |};
  gd_grants := {[(6%N, 7%N) := {| gr_id := 8; gr_can_browse := true; gr_can_play := true; gr_created_by_user_id := Some 1%N; gr_created_by_actor_snapshot := "{}";
    gr_created_at := 0; gr_updated_at := 0 |}]};
  gd_providers := {[7%N]}; gd_admin := ∅; gd_audit := no_records {[1%N]} |}.
Definition grant_draws : GrantDraws :=
  {| new_grant_id := 90; new_event_id := 200; new_audit_id := 12; server_now := seconds 30; db_now := seconds 30 |}.
Definition revoking : result GrantMutationError (GrantWrite * GrantDb) :=
  set_grant_once grant_draws 1 (write_canonical (actor_value actor)) 6 7 false false (Some 3%Z) None granted_db.
Definition ungranted_db : GrantDb := match revoking with Ok (_, d) => d | Err _ => granted_db end.
Lemma grant_takes_effect_witness :
  exists vd, visibility 5 6 Viewer Managed 7 Play (grants_view ungranted_db) = Ok vd /\ vd_allowed vd = false /\
    is_some_b (ob_events (az_outbox (gd_authz ungranted_db)) !! 200%N) = true.
Proof.
  destruct revoking as [[w d']|] eqn:Hs; [|vm_compute in Hs; discriminate].
  assert (ungranted_db = d') as -> by (unfold ungranted_db; by rewrite Hs).
  destruct (grant_takes_effect grant_draws 1 (write_canonical (actor_value actor)) 6 7 false false (Some 3%Z) None granted_db w d') as
    (r & id & Hr & _ & _ & Hvis & _ & _ & Hevent & _).
  - apply run_steps_wf, outbox_empty_wf.
  - intros k k' g g' Hk Hk' _. cbn [granted_db gd_grants] in Hk, Hk'. apply lookup_singleton_Some in Hk as [<- _]. by apply lookup_singleton_Some in Hk' as [<- _].
  - intros r Hr. cbn [granted_db gd_authz az_revisions] in Hr. apply lookup_singleton_Some in Hr as [_ <-]. vm_compute. reflexivity.
  - exact Hs.
  - cbn [granted_db gd_authz az_revisions] in Hr. apply lookup_singleton_Some in Hr as [_ <-]. destruct (Hvis Viewer Managed Play eq_refl) as (vd & Hv & Ha & _).
    exists vd. split; [exact Hv|]. split; [exact Ha|].
    assert (contraction (rights_of (6%N, 7%N) granted_db) (false, false) = true) as Hc by (vm_compute; reflexivity).
    rewrite Hc in Hevent. destruct Hevent as (e & He & _). cbn [new_event_id grant_draws] in He. by rewrite He.
Defined.
