(* ===== verification/LifecycleWitness.v ===== *)
(** * Concrete runs of overrides and of the session lifecycle

    The home of [SessionDemo], its owner, a viewer with a managed profile, and the session 100 that [SessionDemo]
    created and planned. *)
From S2P Require Import Prelude Bytes LiveContract SessionTypes ControlLease Crypto Vault SessionStore SessionRepo SessionFacts SessionEvolution.
From S2P Require Import SessionDemo CatalogCache CatalogGrants CanonicalJson RevocationOutbox Authz SessionLifecycle.
Import World.

Module LifecycleDemo.
#[export] Instance uuid_text : UuidText := {|
  uuid_to_string u := String "u" (bits (encode u));
  uuid_parse_str s := match s with String "u" r => decode (unbits r) | _ => None end |}.
#[export] Instance uuid_laws : UuidTextLaws uuid_text.
Proof. split. intros u. cbn. by rewrite unbits_bits, decode_encode. Qed.
#[export] Instance outbox_ops : OutboxOps := {|
  payload_bytes v := Some 2%Z; outbox_add_days t d := Some (t + seconds (86400 * d))%Z; outbox_add_nanos t d := Some (t + d)%Z |}.

(** user 1 owns home 2 with profile 3; profile 6 is managed *)
Definition tables : AuthzTables := {|
  az_profiles := <[3%N := {| pf_home_id := 2; pf_user_id := Some 1%N; pf_profile_type := "account" |}]>
    {[6%N := {| pf_home_id := 2; pf_user_id := None; pf_profile_type := "managed" |}]};
  az_members := {[(2%N, 1%N) := {| mb_role := "owner"; mb_status := "active" |}]};
  az_revisions := <[3%N := {| rv_home_id := 2; rv_revision := 1 |}]> {[6%N := {| rv_home_id := 2; rv_revision := 1 |}]};
  az_overrides := ∅;
  az_outbox := run_steps [SRegister CONSUMER_NAME 0] (outbox_empty 0) |}.
Definition denial : result AuthorizationError (Z * AuthzTables) := set_profile_override 1 "owner" 6 LivePlay false 50 (seconds 5) tables.
Definition denied : AuthzTables := match denial with Ok (_, t) => t | Err _ => tables end.
Definition managed_target : OverrideTarget := {| ot_home_id := 2; ot_role := Viewer; ot_profile_type := Managed; ot_revision := 1 |}.
Definition managed_before : EffectiveAuthorization :=
  {| ea_revision := 1; ea_capabilities := role_default_capabilities Viewer Managed |}.
End LifecycleDemo.
Import LifecycleDemo.

Lemma effective_authorization_exact_witness :
  effective 6 Viewer Managed denied LivePlay = false /\ effective 6 Viewer Managed denied LiveBrowse = true.
Proof.
  destruct (load_effective 6 Viewer Managed denied) as [ea|] eqn:Hl; [|vm_compute in Hl; discriminate].
  destruct (effective_authorization_exact 6 Viewer Managed denied) as [_ Hexact]. destruct (Hexact ea Hl) as [_ Hc].
  rewrite <- !Hc. vm_compute in Hl. injection Hl as <-. split; vm_compute; reflexivity.
Defined.
Lemma override_takes_effect_witness :
  exists ea, load_effective 6 Viewer Managed denied = Ok ea /\ ea_revision ea = 2%Z /\ CapabilitySet.contains (ea_capabilities ea) LivePlay = false.
Proof.
  assert (denial = Ok (2%Z, denied)) as Hs by (vm_compute; reflexivity).
  assert (outbox_wf (az_outbox tables)) as Hw by (apply run_steps_wf, outbox_empty_wf).
  destruct (override_takes_effect 1 "owner" 6 LivePlay false 50 (seconds 5) tables 2 denied managed_target managed_before Hw Hs
    ltac:(vm_compute; reflexivity) ltac:(vm_compute; reflexivity)) as (ea & Hl & Hrev & Hc & _).
  exists ea. by split_and!.
Defined.
Definition override_calls : list override_call :=
  [SetOverride 1 "owner" 6 LivePlay false 50 (seconds 5); SetOverride 1 "owner" 6 LiveManage true 51 (seconds 6);
   RemoveOverride 1 6 LivePlay 52 (seconds 7)].
Lemma overrides_never_exceed_ceiling_witness :
  exists ea, load_effective 6 Viewer Managed (run_calls override_calls tables) = Ok ea /\ ea_revision ea = 3%Z /\
    CapabilitySet.contains (ea_capabilities ea) LiveManage = false.
Proof.
  assert (forall p r, az_revisions tables !! p = Some r -> (0 < rv_revision r)%Z) as Hpos.
  { intros p r Hr. unfold tables in Hr. cbn [az_revisions] in Hr. apply lookup_insert_Some in Hr as [[_ <-]|[_ Hr]]; [vm_compute; reflexivity|].
    apply lookup_singleton_Some in Hr as [_ <-]. vm_compute. reflexivity. }
  assert (load_override_target 6 (run_calls override_calls tables) = Ok {| ot_home_id := 2; ot_role := Viewer; ot_profile_type := Managed; ot_revision := 3 |})
    as Ht by (vm_compute; reflexivity).
  destruct (overrides_never_exceed_ceiling override_calls tables 6 _ Hpos eq_refl Ht) as (ea & Hl & Hc). cbn [ot_role ot_profile_type] in *.
  exists ea. split; [exact Hl|]. split.
  - destruct (load_effective_contains _ _ _ _ _ LivePlay Hl) as [Hr _]. assert (rv_revision <$> az_revisions (run_calls override_calls tables) !! 6%N = Some 3%Z) as Hx by (vm_compute; reflexivity).
    rewrite Hx in Hr. injection Hr as Hr. by rewrite <- Hr.
  - specialize (Hc LiveManage). destruct (CapabilitySet.contains _ LiveManage); [|reflexivity]. specialize (Hc eq_refl). vm_compute in Hc. discriminate.
Defined.

(** ** The session 100 loses its account session *)
Definition world (authz : AuthzTables) : World :=
  {| w_db := ready; w_authz := authz; w_grants := ∅; w_directory _ := Ok "rev-1" |}.
Definition frozen (n : nat) : instant := seconds 20.
Definition random (n : nat) : Draws := draws 1.
Definition logout : NewAuthorizationRevocation := account_session 2 4 (Some 3%N) "logout".
Definition no_binding (descriptor : string) : option string := None.
Definition ready_row : SessionRow := default {| row_id := 0; row_owner := owner; row_item_key_hash := ""; row_stream_option_key_hash := "";
  row_encrypted_item_snapshot := ""; row_delivery_mode := ""; row_protocol := ""; row_state := ""; row_revision := 0; row_token_revision := 0;
  row_control_fencing_token := 0; row_token_hash := ""; row_encrypted_descriptor := ""; row_source_index := 0; row_failover_count := 0;
  row_refresh_count := 0; row_egress_binding_id := None; row_remux_job_id := None; row_created_at := 0; row_last_heartbeat_at := 0;
  row_expires_at := 0; row_hard_expires_at := 0; row_ended_at := None; row_error_code := None; row_error_detail_redacted := None |}
  (db_sessions ready !! 100%N).
Lemma ready_sessions : db_sessions ready = {[100%N := ready_row]}.
Proof. vm_compute. reflexivity. Qed.
Lemma ready_decodes : exists s, decodes ready_row s /\ id s = 100%N /\ SessionTypes.owner s = World.owner /\ state s = Ready.
Proof.
  destruct (decode_session ready_row) as [s|] eqn:Hs; [|vm_compute in Hs; discriminate]. exists s. split; [by apply decode_session_ok|].
  vm_compute in Hs. injection Hs as <-. vm_compute. auto.
Qed.
Lemma ready_inv : db_inv ready.
Proof.
  intros i r Hr. rewrite ready_sessions in Hr. apply lookup_singleton_Some in Hr as [<- <-]. split.
  - vm_compute. reflexivity.
  - vm_compute. reflexivity.
  - destruct ready_decodes as (s & Hs & _). by exists s.
  - intros Ht. vm_compute in Ht. discriminate.
Qed.

(** the account session is gone from the tables of the members: [tables] of a home without members *)
Definition no_members : AuthzTables :=
  {| az_profiles := az_profiles tables; az_members := ∅; az_revisions := az_revisions tables; az_overrides := ∅; az_outbox := az_outbox tables |}.
Definition revoking : result SessionLifecycleError unit * (nat * SessionLifecycle.World) :=
  apply_revocation Demo.ring no_binding alone frozen random logout 7 (0%nat, world no_members).
Lemma alone_step known k w : db_inv (w_db w) -> world_step known w (alone k w).
Proof. intros Hi. split; [by apply step_ok_eq|done]. Qed.
Lemma revoking_result : revoking.1 = Ok ().
Proof. vm_compute. reflexivity. Qed.
Lemma logout_names s : SessionTypes.owner s = World.owner -> event_matches_session logout s = Ok true.
Proof.
  intros Ho. unfold event_matches_session. rewrite Ho. vm_compute. reflexivity.
Qed.
Lemma revocation_ends_sessions_witness :
  exists r, db_sessions (w_db revoking.2.2) !! 100%N = Some r /\ row_state r = "failed".
Proof.
  destruct ready_decodes as (s & Hd & Hid & Ho & Hst).
  destruct (revocation_ends_sessions Demo.ring no_binding alone frozen random logout 7 0 (world no_members) revoking.2 s) as [Hend|(_ & s' & st0 & Hsame & _ & _ & Ha)].
  - exact ready_inv.
  - intros k w' _ Hi. by apply alone_step.
  - vm_compute. discriminate.
  - fold revoking. rewrite (surjective_pairing revoking) at 1. by rewrite revoking_result.
  - exists ready_row. rewrite Hid. split; [vm_compute; reflexivity|exact Hd].
  - rewrite Hst. reflexivity.
  - by apply logout_names.
  - rewrite Hid in Hend. destruct (db_sessions (w_db revoking.2.2) !! 100%N) as [r|] eqn:Hr; [|vm_compute in Hr; discriminate].
    exists r. split; [reflexivity|]. vm_compute in Hr. injection Hr as <-. vm_compute. reflexivity.
  - exfalso. destruct Ha as (_ & _ & sa & sb & sc & sd & se & role & ty & rn & tn & ea & vd & pr & sec & Ha).
    repeat match type of Ha with _ /\ _ => destruct Ha as [_ Ha] end. discriminate Ha.
Defined.
Lemma events_name_their_sessions_witness :
  forall s, SessionTypes.owner s = World.owner -> event_matches_session (provider_disabled 2 1 5 "maintenance") s = Ok true.
Proof.
  intros s Ho. destruct (events_name_their_sessions s 2 4 None 5 9 1 "maintenance" (JObject []) "1" (true, true) (false, false)) as (_ & _ & _ & _ & Hd & _).
  rewrite Ho in Hd. exact Hd.
Defined.

(** ** A session whose secrets do not open blocks the outbox *)
(** the key the session was sealed under is no longer in the ring *)
Definition newer : LiveCrypto :=
  {| envelope_primary := "k3"; token_hash_primary := "k1"; envelope_keys := {["k3" := Demo.block]};
     token_hash_keys := {["k1" := Demo.block]} |}.
Definition regrant : NewAuthorizationRevocation := provider_grant_revoked 2 1 3 5 9 "grant_changed" (true, true) (true, false).
(** the grant event of the owner comes first, the log-out of someone else second *)
Definition two_events : AuthzTables := with_outbox
  (run_steps [SRegister CONSUMER_NAME 0; SAppend 60 (seconds 1) regrant; SAppend 61 (seconds 2) (account_session 2 8 None "logout")] (outbox_empty 0)) tables.
Definition bad_world (w : SessionLifecycle.World) : Prop := exists o, w = with_world_outbox o (world two_events).
Definition grant_row : EventRow := default {| ev_event := regrant; ev_occurred_at := 0; ev_retain_until := 0; ev_published_at := None;
  ev_publish_attempts := 0; ev_last_error_redacted := None |} (ob_events (az_outbox two_events) !! 60%N).
Lemma regrant_fails : fails_in newer no_binding frozen random bad_world (ev_event grant_row) 7.
Proof.
  split.
  - intros w o [o' ->]. exists o. reflexivity.
  - intros n w [o ->]. vm_compute. split; [reflexivity|]. exists o. reflexivity.
Qed.
Lemma two_events_wf : outbox_wf (az_outbox two_events).
Proof. apply run_steps_wf, outbox_empty_wf. Qed.
Lemma event_60 : ob_events (az_outbox two_events) !! 60%N = Some grant_row.
Proof. vm_compute. reflexivity. Qed.
Lemma grant_oldest : oldest 60 grant_row (az_outbox two_events).
Proof.
  assert (forallb (fun p : uuid * (EventRow * ReceiptRow) => (ev_occurred_at grant_row <? ev_occurred_at p.2.1)%Z
    || ((ev_occurred_at grant_row =? ev_occurred_at p.2.1)%Z && (60 <=? p.1)%N)) (pending CONSUMER_NAME (az_outbox two_events)) = true) as Hall
    by (vm_compute; reflexivity).
  intros id' e' r' Hin. rewrite forallb_forall in Hall. apply list_elem_of_In in Hin. specialize (Hall _ Hin). cbn [fst snd] in Hall.
  apply orb_true_iff in Hall as [Hx|Hx]; [left; by apply Z.ltb_lt|right]. apply andb_true_iff in Hx as [H1 H2].
  split; [by apply Z.eqb_eq|by apply N.leb_le].
Qed.
Definition drained_thrice : nat * SessionLifecycle.World :=
  drains newer no_binding frozen random "me" (fun _ => false) 3 5 7 (0%nat, world two_events).
(** the log-out is still as it was appended, however often the loop ran *)
Lemma failing_revocation_blocks_later_witness :
  ob_receipts (az_outbox (w_authz drained_thrice.2)) !! (61%N, CONSUMER_NAME) = Some (free_receipt 0 None).
Proof.
  destruct (failing_revocation_blocks_later newer no_binding frozen random "me" (fun _ => false) bad_world 3 5 7 60 grant_row 0 None (0%nat, world two_events))
    as (_ & _ & Hothers & _).
  - apply pending_elem. split; [vm_compute; reflexivity|split; [reflexivity|exact event_60]].
  - exact grant_oldest.
  - vm_compute. by eexists.
  - lia.
  - vm_compute. reflexivity.
  - split; vm_compute; reflexivity.
  - intros n. exists (seconds 320). split; [vm_compute; reflexivity|]. intros m. vm_compute. reflexivity.
  - exact regrant_fails.
  - exists (az_outbox two_events). vm_compute. reflexivity.
  - assert ((61%N, CONSUMER_NAME) <> (60%N, CONSUMER_NAME)) as Hne by (intros Heq; injection Heq as Heq; discriminate Heq).
    pose proof (Hothers _ Hne) as Hk. unfold drained_thrice. rewrite Hk. vm_compute. reflexivity.
Defined.
