(* ===== verification/PublicKeys.v ===== *)
(** * Opaque public keys (src/src/live/catalog/public_keys.rs)

    Clients name catalogue items, cursors, stream options, sources and artwork by opaque keys: an envelope of
    a JSON payload, base64url-encoded.  A key is bound to its purpose and to a record (the provider, the
    session or the caller's scope) by the envelope's associated data, and carries the scope it was issued
    for, an expiry and the local ids.  The JSON text of a payload is serde's ([PayloadText]); the random
    nonce is an argument. *)
From S2P Require Import Prelude Bytes LiveContract Crypto Vault.

Definition MAX_OPAQUE_KEY_BYTES : Z := 2048.
Definition MAX_LOCAL_ID_BYTES : Z := 2048.
Definition ITEM_KEY_SECONDS : Z := 6 * 3600.
Definition CURSOR_KEY_SECONDS : Z := 15 * 60.
Definition STREAM_KEY_SECONDS : Z := 15 * 60.
Definition ARTWORK_KEY_SECONDS : Z := 24 * 3600.

Inductive LiveArtworkKind := Poster | Background | Logo.
#[export] Instance LiveArtworkKind_eq_dec : EqDecision LiveArtworkKind.
Proof. solve_decision. Defined.
Definition LiveArtworkKind_as_str (k : LiveArtworkKind) : string :=
  match k with Poster => "poster" | Background => "background" | Logo => "logo" end.

Record LivePublicKeyScope := {
  sco_home_id : uuid;
  sco_profile_id : uuid;
  sco_authorization_revision : Z;
}.
#[export] Instance LivePublicKeyScope_eq_dec : EqDecision LivePublicKeyScope.
Proof. solve_decision. Defined.

Record OpenedArtworkKey := {
  oak_provider_id : uuid;
  oak_item_id : string;
  oak_kind : LiveArtworkKind;
  oak_source : string;
}.

Inductive LivePublicKeyError := KeyInvalidInput | InvalidKey | KeyCrypto (e : LiveCryptoError).

(** [PublicKeyPayload]; [StoredScope] has the fields of [LivePublicKeyScope] *)
Inductive PublicKeyPayload :=
| ItemPayload (provider_id : uuid) (scope : LivePublicKeyScope) (item_id : string) (expires_at : instant)
| CursorPayload (provider_id : uuid) (scope : LivePublicKeyScope) (catalog_id cursor : string) (expires_at : instant)
| StreamPayload (provider_id : uuid) (scope : LivePublicKeyScope) (item_id stream_id : string) (expires_at : instant)
| SourcePayload (session_id provider_id : uuid) (provider_revision source_id : string) (session_revision : Z)
    (expires_at : instant)
| ArtworkPayload (provider_id : uuid) (scope : LivePublicKeyScope) (item_id : string) (kind : LiveArtworkKind)
    (source : string) (expires_at : instant).
#[export] Instance PublicKeyPayload_eq_dec : EqDecision PublicKeyPayload.
Proof. solve_decision. Defined.

Definition payload_expires_at (p : PublicKeyPayload) : instant :=
  match p with
  | ItemPayload _ _ _ e | CursorPayload _ _ _ _ e | StreamPayload _ _ _ _ e
  | SourcePayload _ _ _ _ _ e | ArtworkPayload _ _ _ _ _ e => e
  end.

(** [serde_json] on the payload, the decimal text of an [i64], and the range of [DateTime<Utc>]. *)
Class PayloadText := {
  payload_to_json : PublicKeyPayload -> option string;
  payload_of_json : string -> option PublicKeyPayload;
  i64_to_string : Z -> string;
  key_datetime_max : instant;
}.
Class PayloadTextLaws (T : PayloadText) : Prop := {
  payload_json_roundtrip p j : payload_to_json p = Some j -> payload_of_json j = Some p;
}.

Definition bounded_id (value : string) : result LivePublicKeyError string :=
  if str_empty value || (MAX_LOCAL_ID_BYTES <? slen value)%Z || any_control value
  then Err KeyInvalidInput else Ok value.

(** the characters [open_with_record] lets through before it decodes *)
Definition opaque_key_byte (c : ascii) : bool :=
  is_alnum c || existsb (Ascii.eqb c) ["-"; "_"; "."; "~"]%char.

Section codec.
Context `{CryptoPrims} `{UuidText} `{PayloadText}.

Definition key_expires (now : instant) (duration_seconds : Z) : result LivePublicKeyError instant :=
  if (now + seconds duration_seconds <=? key_datetime_max)%Z then Ok (now + seconds duration_seconds)%Z
  else Err KeyInvalidInput.

Definition seal_with_record (c : LiveCrypto) (random : option string) (purpose : EnvelopePurpose)
    (record_id column : string) (payload : PublicKeyPayload) : result LivePublicKeyError string :=
  encoded ← ok_or (payload_to_json payload) KeyInvalidInput;
  context ← map_err KeyCrypto (EnvelopeContext_new purpose "live_public_keys" record_id column);
  envelope ← map_err KeyCrypto (encrypt c context random encoded);
  let key := b64url_encode envelope in
  _ ← reject_if (MAX_OPAQUE_KEY_BYTES <? slen key)%Z KeyInvalidInput;
  Ok key.

Definition open_with_record (c : LiveCrypto) (purpose : EnvelopePurpose) (record_id column key : string)
    (now : instant) : result LivePublicKeyError PublicKeyPayload :=
  _ ← reject_if ((slen key <? 16) || (MAX_OPAQUE_KEY_BYTES <? slen key))%Z InvalidKey;
  _ ← reject_if (negb (all_bytes opaque_key_byte key)) InvalidKey;
  envelope ← ok_or (b64url_decode key) InvalidKey;
  _ ← reject_if (negb (utf8_valid envelope)) InvalidKey;
  context ← EnvelopeContext_new purpose "live_public_keys" record_id column or_fail InvalidKey;
  plaintext ← decrypt c context envelope or_fail InvalidKey;
  payload ← ok_or (payload_of_json plaintext) InvalidKey;
  _ ← reject_if (payload_expires_at payload <? now)%Z InvalidKey;
  Ok payload.

Definition seal (c : LiveCrypto) (random : option string) (purpose : EnvelopePurpose) (provider_id : uuid)
    (column : string) (payload : PublicKeyPayload) : result LivePublicKeyError string :=
  seal_with_record c random purpose (uuid_to_string provider_id) column payload.
Definition open (c : LiveCrypto) (purpose : EnvelopePurpose) (provider_id : uuid) (column key : string)
    (now : instant) : result LivePublicKeyError PublicKeyPayload :=
  open_with_record c purpose (uuid_to_string provider_id) column key now.

Definition seal_item (c : LiveCrypto) (random : option string) (provider_id : uuid) (item_id : string)
    (scope : LivePublicKeyScope) (now : instant) : result LivePublicKeyError string :=
  item ← bounded_id item_id;
  expires ← key_expires now ITEM_KEY_SECONDS;
  seal c random CatalogItemKey provider_id "item" (ItemPayload provider_id scope item expires).
Definition open_item (c : LiveCrypto) (key : string) (provider_id : uuid) (scope : LivePublicKeyScope)
    (now : instant) : result LivePublicKeyError string :=
  payload ← open c CatalogItemKey provider_id "item" key now;
  match payload with
  | ItemPayload actual_provider actual_scope item_id _ =>
      if bool_decide (actual_provider = provider_id) && bool_decide (actual_scope = scope)
      then Ok item_id else Err InvalidKey
  | _ => Err InvalidKey
  end.

Definition seal_cursor (c : LiveCrypto) (random : option string) (provider_id : uuid)
    (catalog_id cursor : string) (scope : LivePublicKeyScope) (now : instant) : result LivePublicKeyError string :=
  catalog ← bounded_id catalog_id;
  position ← bounded_id cursor;
  expires ← key_expires now CURSOR_KEY_SECONDS;
  seal c random CatalogCursor provider_id "cursor" (CursorPayload provider_id scope catalog position expires).
Definition open_cursor (c : LiveCrypto) (key : string) (provider_id : uuid) (catalog_id : string)
    (scope : LivePublicKeyScope) (now : instant) : result LivePublicKeyError string :=
  payload ← open c CatalogCursor provider_id "cursor" key now;
  match payload with
  | CursorPayload actual_provider actual_scope actual_catalog cursor _ =>
      if bool_decide (actual_provider = provider_id) && bool_decide (actual_scope = scope)
         && String.eqb actual_catalog catalog_id
      then Ok cursor else Err InvalidKey
  | _ => Err InvalidKey
  end.

Definition seal_stream (c : LiveCrypto) (random : option string) (provider_id : uuid)
    (item_id stream_id : string) (scope : LivePublicKeyScope) (now : instant) : result LivePublicKeyError string :=
  item ← bounded_id item_id;
  stream ← bounded_id stream_id;
  expires ← key_expires now STREAM_KEY_SECONDS;
  seal c random StreamOptionKey provider_id "stream" (StreamPayload provider_id scope item stream expires).
Definition open_stream (c : LiveCrypto) (key : string) (provider_id : uuid) (scope : LivePublicKeyScope)
    (now : instant) : result LivePublicKeyError (string * string) :=
  payload ← open c StreamOptionKey provider_id "stream" key now;
  match payload with
  | StreamPayload actual_provider actual_scope item_id stream_id _ =>
      if bool_decide (actual_provider = provider_id) && bool_decide (actual_scope = scope)
      then Ok (item_id, stream_id) else Err InvalidKey
  | _ => Err InvalidKey
  end.

Definition seal_source (c : LiveCrypto) (random : option string) (session_id provider_id : uuid)
    (provider_revision source_id : string) (session_revision : Z) (expires_at : instant)
    : result LivePublicKeyError string :=
  _ ← reject_if ((session_revision <? 1)%Z || negb (slen provider_revision =? 64)%Z
                 || negb (all_bytes is_hexdigit provider_revision)) KeyInvalidInput;
  source ← bounded_id source_id;
  seal_with_record c random SourceKey (uuid_to_string session_id) "source"
    (SourcePayload session_id provider_id (to_lower provider_revision) source session_revision expires_at).
Definition open_source (c : LiveCrypto) (key : string) (session_id provider_id : uuid)
    (provider_revision : string) (session_revision : Z) (now : instant) : result LivePublicKeyError string :=
  payload ← open_with_record c SourceKey (uuid_to_string session_id) "source" key now;
  match payload with
  | SourcePayload actual_session actual_provider actual_revision source_id actual_session_revision _ =>
      if bool_decide (actual_session = session_id) && bool_decide (actual_provider = provider_id)
         && String.eqb actual_revision provider_revision && (actual_session_revision =? session_revision)%Z
      then Ok source_id else Err InvalidKey
  | _ => Err InvalidKey
  end.

Definition artwork_record_id (scope : LivePublicKeyScope) : string :=
  uuid_to_string (sco_home_id scope) +:+ ":" +:+ uuid_to_string (sco_profile_id scope) +:+ ":"
  +:+ i64_to_string (sco_authorization_revision scope).
Definition seal_artwork (c : LiveCrypto) (random : option string) (provider_id : uuid) (item_id : string)
    (kind : LiveArtworkKind) (source : string) (scope : LivePublicKeyScope) (now : instant)
    : result LivePublicKeyError string :=
  _ ← reject_if (str_empty source || (8192 <? slen source)%Z) KeyInvalidInput;
  item ← bounded_id item_id;
  expires ← key_expires now ARTWORK_KEY_SECONDS;
  seal_with_record c random ArtworkKey (artwork_record_id scope) "artwork"
    (ArtworkPayload provider_id scope item kind source expires).
Definition open_artwork (c : LiveCrypto) (key : string) (scope : LivePublicKeyScope) (now : instant)
    : result LivePublicKeyError OpenedArtworkKey :=
  payload ← open_with_record c ArtworkKey (artwork_record_id scope) "artwork" key now;
  match payload with
  | ArtworkPayload actual_provider actual_scope item_id kind source _ =>
      if bool_decide (actual_scope = scope)
      then Ok {| oak_provider_id := actual_provider; oak_item_id := item_id; oak_kind := kind; oak_source := source |}
      else Err InvalidKey
  | _ => Err InvalidKey
  end.
End codec.

(** ** What a sealed key opens to *)
Lemma bounded_id_ok v x : bounded_id v = Ok x -> x = v.
Proof. unfold bounded_id. case_match; by intros [= ->]. Qed.

Lemma ascii_utf8 s : all_bytes is_ascii_byte s = true -> utf8_valid s = true.
Proof.
  induction s as [|c s IH]; [done|]. rewrite all_bytes_cons. intros [Hc Hs]%andb_true_iff. cbn.
  unfold is_ascii_byte in Hc. rewrite Hc. by apply IH.
Qed.


Section facts.
Context `{CL : CryptoLaws} `{UuidText} `{PTL : PayloadTextLaws}.

Lemma opaque_b64url s : all_bytes opaque_key_byte (b64url_encode s) = true.
Proof.
  eapply all_bytes_impl, b64url_alphabet. intros a. unfold b64url_byte, opaque_key_byte. cbn.
  intros [[->| ->]%orb_true_iff| ->]%orb_true_iff; by rewrite ?orb_true_r.
Qed.

Lemma encrypt_text c ctx nonce m e :
  ring_wf c -> slen nonce = AES_GCM_NONCE_BYTES -> encrypt c ctx (Some nonce) m = Ok e ->
  utf8_valid e = true /\ (12 <= slen e)%Z.
Proof.
  intros Hw Hn (n & ct & [= <-] & Hm & Hs & ->)%encrypt_ok. split.
  - apply ascii_utf8. apply envelope_text_limits. by eapply sealed_fits.
  - destruct (proj1 (starts_with_spec _ _) (envelope_text_prefix (envelope_primary c) nonce ct)) as [r ->].
    rewrite slen_app. change (slen "elx-live:v1:") with 12%Z. pose proof (slen_nonneg r). lia.
Qed.

(** A key that was sealed opens, for the same purpose and record, to its payload until it expires. *)
Lemma open_sealed c c' nonce purpose record_id column payload key now :
  ring_wf c -> same_keys c c' -> slen nonce = AES_GCM_NONCE_BYTES ->
  seal_with_record c (Some nonce) purpose record_id column payload = Ok key ->
  open_with_record c' purpose record_id column key now =
    if (payload_expires_at payload <? now)%Z then Err InvalidKey else Ok payload.
Proof.
  intros Hw Hk Hn Hs. unfold seal_with_record in Hs. ok_inv.
  repeat match goal with H : map_err _ ?m = Ok _ |- _ => destruct m eqn:?; cbn in H; ok_inv end.
  match goal with He : encrypt _ _ _ _ = Ok ?e |- _ => destruct (encrypt_text _ _ _ _ _ Hw Hn He) as [Hu Hl] end.
  match goal with _ : encrypt _ _ _ _ = Ok ?e |- _ => pose proof (b64url_length e) as Hlen end.
  bool_hyps. unfold open_with_record.
  rewrite (proj2 (orb_false_iff _ _)); [run_ok|split; apply Z.ltb_ge; [div_lia|lia]].
  rewrite opaque_b64url. run_ok. rewrite b64url_roundtrip. run_ok. rewrite Hu. run_ok.
  match goal with Hc : EnvelopeContext_new _ _ _ _ = _ |- _ => rewrite Hc end. run_ok.
  erewrite decrypt_encrypt by eauto. run_ok.
  erewrite payload_json_roundtrip by done. run_ok. by destruct (_ <? _)%Z.
Qed.

(** Only envelopes this ring sealed for the purpose and the record open. *)
Lemma open_with_record_ok c purpose record_id column key now payload :
  open_with_record c purpose record_id column key now = Ok payload ->
  exists ctx k nonce ct plain, EnvelopeContext_new purpose "live_public_keys" record_id column = Ok ctx /\
    b64url_decode key = Some (envelope_text k nonce ct) /\ sealed c k ctx nonce plain ct /\
    payload_of_json plain = Some payload /\ (now <= payload_expires_at payload)%Z.
Proof.
  unfold open_with_record. intros Ho. ok_inv.
  repeat match goal with H : map_err _ ?m = Ok _ |- _ => destruct m eqn:?; cbn in H; ok_inv end. bool_hyps.
  match goal with Hd : decrypt _ _ _ = Ok _ |- _ => apply decrypt_ok in Hd as (k & n & ct & -> & _ & Hs) end.
  eauto 12.
Qed.
End facts.

(** * Properties *)

(** A public key opens exactly where it was issued for.  Under any ring with the keys of the issuing one,
    a key opens to the ids it was sealed with when the caller's scope, catalogue, provider revision and session
    revision are the issued ones and the key has not expired, and is refused as [InvalidKey] otherwise. *)
Theorem public_keys_open_exactly `{CL : CryptoLaws} `{UuidText} `{PTL : PayloadTextLaws} c c' nonce p sc key :
  ring_wf c -> same_keys c c' -> slen nonce = AES_GCM_NONCE_BYTES ->
  (forall item now, seal_item c (Some nonce) p item sc now = Ok key -> forall sc' now',
     open_item c' key p sc' now' =
       if decide (sc' = sc /\ (now' <= now + seconds ITEM_KEY_SECONDS)%Z) then Ok item else Err InvalidKey) /\
  (forall cat cur now, seal_cursor c (Some nonce) p cat cur sc now = Ok key -> forall cat' sc' now',
     open_cursor c' key p cat' sc' now' =
       if decide (sc' = sc /\ cat' = cat /\ (now' <= now + seconds CURSOR_KEY_SECONDS)%Z)
       then Ok cur else Err InvalidKey) /\
  (forall item stream now, seal_stream c (Some nonce) p item stream sc now = Ok key -> forall sc' now',
     open_stream c' key p sc' now' =
       if decide (sc' = sc /\ (now' <= now + seconds STREAM_KEY_SECONDS)%Z)
       then Ok (item, stream) else Err InvalidKey) /\
  (forall session rev source n exp, seal_source c (Some nonce) session p rev source n exp = Ok key ->
     forall p' rev' n' now', open_source c' key session p' rev' n' now' =
       if decide (p' = p /\ rev' = to_lower rev /\ n' = n /\ (now' <= exp)%Z)
       then Ok source else Err InvalidKey) /\
  (forall item kind source now, seal_artwork c (Some nonce) p item kind source sc now = Ok key -> forall now',
     open_artwork c' key sc now' =
       if decide (now' <= now + seconds ARTWORK_KEY_SECONDS)%Z
       then Ok {| oak_provider_id := p; oak_item_id := item; oak_kind := kind; oak_source := source |}
       else Err InvalidKey).
Proof.
  intros Hw Hk Hn. split_and!; intros.
  all: unfold seal_item, seal_cursor, seal_stream, seal_source, seal_artwork, seal, key_expires in *; ok_inv.
  all: repeat match goal with
       | Hb : bounded_id _ = Ok _ |- _ => apply bounded_id_ok in Hb as ->
       | He : (if ?b then Ok _ else Err _) = Ok _ |- _ => destruct b; ok_inv
       end.
  all: unfold open_item, open_cursor, open_stream, open_source, open_artwork, open;
       erewrite open_sealed by eauto; cbn [payload_expires_at].
  all: match goal with |- context [(?e <? ?t)%Z] => destruct (Z.ltb_spec e t) end; run_ok.
  all: repeat match goal with
       | |- context [String.eqb ?a ?b] => destruct (String.eqb_spec a b)
       | |- context [(?a =? ?b)%Z] => destruct (Z.eqb_spec a b)
       | _ => case_bool_decide || case_decide
       end; run_ok; first [done | exfalso; naive_solver lia].
Qed.
