(* ===== verification/HlsResources.v ===== *)
(** * The resources of a relayed HLS session (src/src/live/relay/hls/resource.rs)

    A relayed playlist names no upstream URL: each one is registered in the [HlsResourceMap] of its session
    under a random identifier, and the playlist carries the identifier.  The map remembers in which revision
    of which manifest a resource was last seen, drops what has not been seen for a grace of revisions, and is
    emptied when another instance takes the session over.  Parameters: the base64 functions of
    [Crypto.CryptoPrims], the bytes each call of the operating system's generator returns ([rng]) and the
    BLAKE3 hash. *)
From S2P Require Import Prelude Bytes Planner Crypto.

(** ** Errors of the HLS code (src/src/live/relay/hls/rewrite.rs) *)
Inductive HlsRewriteError :=
| InvalidResourceMapConfiguration | EmptyBody | BodyLimitExceeded | InvalidUtf8 | ByteOrderMark | ControlCharacter
| BareCarriageReturn | LineLimitExceeded | LineLengthExceeded | MissingHeader | ParseFailed | UnsupportedTag
| DuplicateTag | MixedPlaylistKinds | InvalidTagOrder | MissingResource | MissingTargetDuration
| InvalidNumericValue | UnsupportedEncryption | InvalidResourceUri | InvalidRouteBase | ResourceLimitExceeded
| ResourceIdGenerationFailed | ResourceRevisionExhausted | InvalidManifestScope | ResourceMapInvariant
| UnknownResource | StaleControlFence | OutputLimitExceeded | OutputVerificationFailed.
#[export] Instance HlsRewriteError_eq_dec : EqDecision HlsRewriteError.
Proof. solve_decision. Defined.

(** ** Data *)
Definition RESOURCE_ID_BYTES : Z := 24.
Definition RESOURCE_ID_PREFIX : string := "lr1_".

Definition HlsResourceId : Type := string.
Definition HlsManifestScope : Type := string.

Inductive HlsResourceKind := KindPlaylist | KindMediaSegment | KindInitializationSegment | KindEncryptionKey | KindPartialSegment.
#[export] Instance HlsResourceKind_eq_dec : EqDecision HlsResourceKind.
Proof. solve_decision. Defined.
Definition kind_code (k : HlsResourceKind) : nat :=
  match k with
  | KindPlaylist => 0 | KindMediaSegment => 1 | KindInitializationSegment => 2 | KindEncryptionKey => 3
  | KindPartialSegment => 4
  end.
Definition kind_of_code (n : nat) : HlsResourceKind :=
  match n with
  | 0 => KindPlaylist | 1 => KindMediaSegment | 2 => KindInitializationSegment | 3 => KindEncryptionKey
  | _ => KindPartialSegment
  end.
#[export] Instance HlsResourceKind_countable : Countable HlsResourceKind.
Proof. apply (inj_countable' kind_code kind_of_code). by intros []. Defined.

Record HlsByteRange := { br_length : Z; br_offset : option Z }.
#[export] Instance HlsByteRange_eq_dec : EqDecision HlsByteRange.
Proof. solve_decision. Defined.
#[export] Instance HlsByteRange_countable : Countable HlsByteRange.
Proof.
  apply (inj_countable' (fun b => (br_length b, br_offset b)) (fun p => {| br_length := p.1; br_offset := p.2 |})).
  by intros [].
Defined.

Record HlsResourceDescriptor := {
  rd_url : Url;
  rd_kind : HlsResourceKind;
  rd_byte_range : option HlsByteRange;
}.
Definition new_for_relay_root (url : Url) (kind : HlsResourceKind) : HlsResourceDescriptor :=
  {| rd_url := url; rd_kind := kind; rd_byte_range := None |}.

Record HlsResourceLimits := { max_resources : nat; retired_revision_grace : Z }.
Definition HlsResourceLimits_default : HlsResourceLimits := {| max_resources := 4096; retired_revision_grace := 2 |}.

(** Urls are compared and hashed by their serialization. *)
Definition ResourceKey : Type := string * HlsResourceKind * option HlsByteRange.
Definition resource_key (url : Url) (kind : HlsResourceKind) (range : option HlsByteRange) : ResourceKey :=
  (u_as_str url, kind, range).

Record ResourceEntry := {
  re_descriptor : HlsResourceDescriptor;
  last_seen_by_scope : gmap HlsManifestScope Z;
}.
Definition entry_key (e : ResourceEntry) : ResourceKey :=
  resource_key (rd_url (re_descriptor e)) (rd_kind (re_descriptor e)) (rd_byte_range (re_descriptor e)).

Record HlsResourceMap := {
  hm_session_id : N;
  hm_fence : Z;
  hm_limits : HlsResourceLimits;
  scope_revisions : gmap HlsManifestScope Z;
  active_revision : option (HlsManifestScope * Z);
  entries : gmap HlsResourceId ResourceEntry;
  reverse : gmap ResourceKey HlsResourceId;
}.

(** ** Identifiers and scopes *)
Section Identifiers.
Context `{CryptoPrims}.

Definition HlsResourceId_parse (value : string) : option HlsResourceId :=
  encoded ← strip_prefix RESOURCE_ID_PREFIX value;
  decoded ← b64url_decode encoded;
  if negb (slen decoded =? RESOURCE_ID_BYTES)%Z || negb (String.eqb (b64url_encode decoded) encoded)
  then None else Some value.
(** the identifier of the bytes the generator filled *)
Definition HlsResourceId_generate (bytes : string) : HlsResourceId := RESOURCE_ID_PREFIX +:+ b64url_encode bytes.
End Identifiers.

Definition from_stable_key (blake3 : string -> string) (key : string) : result HlsRewriteError HlsManifestScope :=
  if str_empty key || (4096 <? slen key)%Z then Err InvalidManifestScope else Ok (blake3 key).

(** ** Operations *)
Definition HlsResourceMap_new (session_id : N) (control_fencing_token : Z) (limits : HlsResourceLimits)
    : result HlsRewriteError HlsResourceMap :=
  if (control_fencing_token <=? 0)%Z || (max_resources limits =? 0)
  then Err InvalidResourceMapConfiguration
  else Ok {| hm_session_id := session_id; hm_fence := control_fencing_token; hm_limits := limits;
             scope_revisions := ∅; active_revision := None; entries := ∅; reverse := ∅ |}.

Definition require_fence (m : HlsResourceMap) (control_fencing_token : Z) : result HlsRewriteError unit :=
  reject_if (negb (control_fencing_token =? hm_fence m)%Z) StaleControlFence.

Definition resolve (m : HlsResourceMap) (resource_id : HlsResourceId) (control_fencing_token : Z)
    : result HlsRewriteError HlsResourceDescriptor :=
  _ ← require_fence m control_fencing_token;
  ok_or (re_descriptor <$> entries m !! resource_id) UnknownResource.

Definition hls_take_over (m : HlsResourceMap) (expected_fencing_token new_fencing_token : Z)
    : result HlsRewriteError HlsResourceMap :=
  _ ← require_fence m expected_fencing_token;
  _ ← reject_if (new_fencing_token <=? hm_fence m)%Z StaleControlFence;
  Ok {| hm_session_id := hm_session_id m; hm_fence := new_fencing_token; hm_limits := hm_limits m;
        scope_revisions := ∅; active_revision := None; entries := ∅; reverse := ∅ |}.

Definition rebuild_reverse (es : gmap HlsResourceId ResourceEntry) : gmap ResourceKey HlsResourceId :=
  list_to_map ((fun p => (entry_key p.2, p.1)) <$> map_to_list es).

(** what [entries.retain] leaves of an entry *)
Definition retain_entry (scope : HlsManifestScope) (oldest : Z) (e : ResourceEntry) : option ResourceEntry :=
  let seen := filter (fun p : HlsManifestScope * Z => p.1 <> scope \/ (oldest <= p.2)%Z) (last_seen_by_scope e) in
  if bool_decide (seen = ∅) then None
  else Some {| re_descriptor := re_descriptor e; last_seen_by_scope := seen |}.

Definition u64_checked_add (a b : Z) : option Z := if (a + b <=? u64_max)%Z then Some (a + b)%Z else None.
Definition u64_saturating_sub (a b : Z) : Z := Z.max 0 (a - b).

Definition begin_revision (m : HlsResourceMap) (scope : HlsManifestScope) (control_fencing_token : Z)
    : result HlsRewriteError HlsResourceMap :=
  _ ← require_fence m control_fencing_token;
  _ ← reject_if (is_some_b (active_revision m)) ResourceMapInvariant;
  _ ← reject_if (is_none_b (scope_revisions m !! scope)
                 && (max_resources (hm_limits m) <=? size (scope_revisions m))) ResourceLimitExceeded;
  revision ← ok_or (u64_checked_add (default 0%Z (scope_revisions m !! scope)) 1) ResourceRevisionExhausted;
  let oldest := u64_saturating_sub revision (retired_revision_grace (hm_limits m)) in
  let kept := omap (retain_entry scope oldest) (entries m) in
  Ok {| hm_session_id := hm_session_id m; hm_fence := hm_fence m; hm_limits := hm_limits m;
        scope_revisions := <[scope := revision]> (scope_revisions m);
        active_revision := Some (scope, revision); entries := kept; reverse := rebuild_reverse kept |}.

(** some resource was seen in a manifest *)
Definition scope_in_use (m : HlsResourceMap) (scope : HlsManifestScope) : bool :=
  existsb (fun p => is_some_b (last_seen_by_scope p.2 !! scope)) (map_to_list (entries m)).

Definition finish_revision (m : HlsResourceMap) : result HlsRewriteError HlsResourceMap :=
  _ ← ok_or (active_revision m) ResourceMapInvariant;
  Ok {| hm_session_id := hm_session_id m; hm_fence := hm_fence m; hm_limits := hm_limits m;
        scope_revisions := filter (fun p => scope_in_use m p.1 = true) (scope_revisions m);
        active_revision := None; entries := entries m; reverse := reverse m |}.

(** [validate_active_resources]; the order is the hash map's, here that of [map_to_list] *)
Definition validate_active_resources (m : HlsResourceMap)
    (validator : HlsResourceDescriptor -> result HlsRewriteError unit) : result HlsRewriteError unit :=
  '(scope, revision) ← ok_or (active_revision m) ResourceMapInvariant;
  foldr (fun p rest =>
    if bool_decide (last_seen_by_scope p.2 !! scope = Some revision)
    then _ ← validator (re_descriptor p.2); rest
    else rest) (Ok ()) (map_to_list (entries m)).

Section Register.
Context `{CryptoPrims} (rng : nat -> string).

(** [(0..n).map(generate).find(unused)]: the identifier and the number of calls of the generator so far *)
Fixpoint find_unused (es : gmap HlsResourceId ResourceEntry) (tries drawn : nat) : option (HlsResourceId * nat) :=
  match tries with
  | O => None
  | S tries =>
      let candidate := HlsResourceId_generate (rng drawn) in
      if is_none_b (es !! candidate) then Some (candidate, S drawn) else find_unused es tries (S drawn)
  end.

Definition set_entries (m : HlsResourceMap) (es : gmap HlsResourceId ResourceEntry)
    (rev : gmap ResourceKey HlsResourceId) : HlsResourceMap :=
  {| hm_session_id := hm_session_id m; hm_fence := hm_fence m; hm_limits := hm_limits m;
     scope_revisions := scope_revisions m; active_revision := active_revision m; entries := es; reverse := rev |}.

Definition register (m : HlsResourceMap) (drawn : nat) (url : Url) (kind : HlsResourceKind)
    (byte_range : option HlsByteRange) : result HlsRewriteError (HlsResourceId * HlsResourceMap * nat) :=
  '(scope, revision) ← ok_or (active_revision m) ResourceMapInvariant;
  let key := resource_key url kind byte_range in
  match reverse m !! key with
  | Some resource_id =>
      entry ← ok_or (entries m !! resource_id) ResourceMapInvariant;
      let entry := {| re_descriptor := re_descriptor entry;
                      last_seen_by_scope := <[scope := revision]> (last_seen_by_scope entry) |} in
      Ok (resource_id, set_entries m (<[resource_id := entry]> (entries m)) (reverse m), drawn)
  | None =>
      _ ← reject_if (max_resources (hm_limits m) <=? size (entries m)) ResourceLimitExceeded;
      '(resource_id, drawn) ← ok_or (find_unused (entries m) 16 drawn) ResourceIdGenerationFailed;
      let entry := {| re_descriptor := {| rd_url := url; rd_kind := kind; rd_byte_range := byte_range |};
                      last_seen_by_scope := {[scope := revision]} |} in
      Ok (resource_id, set_entries m (<[resource_id := entry]> (entries m)) (<[key := resource_id]> (reverse m)), drawn)
  end.
End Register.

(** ** Consistency of the map *)
Section Consistency.
Context `{CL : CryptoLaws}.

(** The reverse map is the inverse of the entries, the limits hold, every identifier parses, and what was seen
    was seen in a revision of a manifest the map knows. *)
Record map_ok (m : HlsResourceMap) : Prop := {
  ok_fence : (0 < hm_fence m)%Z;
  ok_size : size (entries m) <= max_resources (hm_limits m);
  ok_scopes : size (scope_revisions m) <= max_resources (hm_limits m);
  ok_ids id e : entries m !! id = Some e -> HlsResourceId_parse id = Some id;
  ok_reverse key id : reverse m !! key = Some id <-> exists e, entries m !! id = Some e /\ entry_key e = key;
  ok_in_use id e : entries m !! id = Some e -> last_seen_by_scope e <> ∅;
  ok_seen id e scope seen : entries m !! id = Some e -> last_seen_by_scope e !! scope = Some seen ->
    exists revision, scope_revisions m !! scope = Some revision /\ (1 <= seen <= revision)%Z;
  ok_active scope revision : active_revision m = Some (scope, revision) -> scope_revisions m !! scope = Some revision;
  ok_revision scope revision : scope_revisions m !! scope = Some revision -> (1 <= revision <= u64_max)%Z;
}.

Lemma strip_prefix_app p s : strip_prefix p (p +:+ s) = Some s.
Proof. induction p as [|a p IH]; [done|]. rewrite str_app_cons. cbn. by rewrite Ascii.eqb_refl. Qed.

Lemma generated_id_parses bytes :
  slen bytes = RESOURCE_ID_BYTES -> HlsResourceId_parse (HlsResourceId_generate bytes) = Some (HlsResourceId_generate bytes).
Proof.
  intros Hl. unfold HlsResourceId_parse, HlsResourceId_generate. rewrite strip_prefix_app. cbn [mbind option_bind].
  rewrite b64url_roundtrip. cbn [mbind option_bind]. by rewrite Hl, String.eqb_refl.
Qed.

Lemma parsed_id value id : HlsResourceId_parse value = Some id -> id = value.
Proof.
  unfold HlsResourceId_parse. destruct (strip_prefix _ value) as [encoded|]; [cbn [mbind option_bind]|done].
  destruct (b64url_decode encoded); [cbn [mbind option_bind]|done]. case_match; [done|]. by intros [= <-].
Qed.

(** two entries of one key are one *)
Lemma key_unique m id id' e e' :
  map_ok m -> entries m !! id = Some e -> entries m !! id' = Some e' -> entry_key e = entry_key e' -> id = id'.
Proof.
  intros Hm He He' Hk. assert (reverse m !! entry_key e = Some id) as H1 by (apply (ok_reverse _ Hm); eauto).
  assert (reverse m !! entry_key e = Some id') as H2 by (apply (ok_reverse _ Hm); eauto). congruence.
Qed.

Lemma rebuild_reverse_spec (es : gmap HlsResourceId ResourceEntry) key id :
  (forall i i' e e', es !! i = Some e -> es !! i' = Some e' -> entry_key e = entry_key e' -> i = i') ->
  rebuild_reverse es !! key = Some id <-> exists e, es !! id = Some e /\ entry_key e = key.
Proof.
  intros Hinj. unfold rebuild_reverse. rewrite <- elem_of_list_to_map.
  - rewrite list_elem_of_fmap. split.
    + intros ([i e] & [= -> ->] & Hi%elem_of_map_to_list). eauto.
    + intros (e & He & <-). exists (id, e). by rewrite elem_of_map_to_list.
  - rewrite <- list_fmap_compose. apply NoDup_fmap_2_strong; [|apply NoDup_map_to_list].
    intros [i e] [i' e'] Hi%elem_of_map_to_list Hi'%elem_of_map_to_list Hk. cbn in Hk.
    assert (i = i') as -> by eauto. congruence.
Qed.

Lemma retain_entry_some scope oldest e e' :
  retain_entry scope oldest e = Some e' <->
  e' = {| re_descriptor := re_descriptor e;
          last_seen_by_scope := filter (fun p : HlsManifestScope * Z => p.1 <> scope \/ (oldest <= p.2)%Z) (last_seen_by_scope e) |}
  /\ last_seen_by_scope e' <> ∅.
Proof. unfold retain_entry. case_bool_decide; naive_solver. Qed.

Lemma retained_lookup (es : gmap HlsResourceId ResourceEntry) scope oldest id e' :
  (omap (retain_entry scope oldest) es : gmap HlsResourceId ResourceEntry) !! id = Some e' ->
  exists e, es !! id = Some e /\ re_descriptor e' = re_descriptor e /\ last_seen_by_scope e' <> ∅ /\
    (forall s seen, last_seen_by_scope e' !! s = Some seen <->
                    last_seen_by_scope e !! s = Some seen /\ (s <> scope \/ (oldest <= seen)%Z)).
Proof.
  rewrite lookup_omap. destruct (es !! id) as [e|]; [cbn|done]. intros [-> Hne]%retain_entry_some.
  exists e. split_and!; [done..|]. intros s seen. cbn. by rewrite map_lookup_filter_Some.
Qed.

Lemma size_omap_le {A B} (f : A -> option B) (m : gmap string A) : size (omap f m) <= size m.
Proof.
  rewrite <- !size_dom. apply subseteq_size. intros i [b Hb]%elem_of_dom. rewrite lookup_omap in Hb.
  apply elem_of_dom. destruct (m !! i); [eauto|done].
Qed.
Lemma size_filter_le {A} (keep : string * A -> Prop) `{!forall x, Decision (keep x)} (m : gmap string A) :
  size (filter keep m) <= size m.
Proof.
  rewrite <- !size_dom. apply subseteq_size. intros i [b Hb]%elem_of_dom.
  apply map_lookup_filter_Some in Hb as [Hb _]. apply elem_of_dom. eauto.
Qed.

Lemma new_map_ok session fence limits m : HlsResourceMap_new session fence limits = Ok m -> map_ok m.
Proof.
  unfold HlsResourceMap_new. destruct (_ || _) eqn:Hb; [done|]. bool_hyps. intros ?. ok_inv.
  split; cbn; try set_solver; try lia; rewrite ?map_size_empty; try lia.
Qed.

Lemma take_over_ok m expected new m' : map_ok m -> hls_take_over m expected new = Ok m' -> map_ok m'.
Proof.
  intros Hm. unfold hls_take_over, require_fence. intros ?. ok_inv. bool_hyps. pose proof (ok_fence _ Hm).
  split; cbn; try set_solver; try lia; rewrite ?map_size_empty; try lia.
Qed.

Lemma begin_revision_ok m scope fence m' : map_ok m -> begin_revision m scope fence = Ok m' -> map_ok m'.
Proof.
  intros Hm. unfold begin_revision. intros Hb. ok_inv. subst.
  match goal with H : u64_checked_add _ _ = Some ?r |- _ => rename r into revision, H into Hr end.
  assert (default 0%Z (scope_revisions m !! scope) + 1 = revision /\ revision <= u64_max)%Z as [<- Hmax].
  { unfold u64_checked_add in Hr. case_match; bool_hyps; naive_solver. }
  assert (0 <= default 0%Z (scope_revisions m !! scope))%Z as Hpos.
  { destruct (scope_revisions m !! scope) eqn:Hs; cbn; [|lia]. apply (ok_revision _ Hm) in Hs. lia. }
  split; cbn [entries hm_limits hm_fence reverse scope_revisions active_revision].
  - apply (ok_fence _ Hm).
  - etrans; [apply size_omap_le|apply (ok_size _ Hm)].
  - destruct (scope_revisions m !! scope) as [r|] eqn:Hs.
    + rewrite map_size_insert_Some by eauto. apply (ok_scopes _ Hm).
    + rewrite map_size_insert_None by done. cbn in *.
      match goal with H : (_ <=? _) = false |- _ => apply Nat.leb_gt in H; lia end.
  - intros id e' (e & He & _)%retained_lookup. eapply (ok_ids _ Hm); eauto.
  - intros key id. apply rebuild_reverse_spec.
    intros i i' e e' (f & Hf & Hd & _)%retained_lookup (f' & Hf' & Hd' & _)%retained_lookup Hk.
    eapply (key_unique _ _ _ f f'); eauto. unfold entry_key in *. by rewrite Hd, Hd' in Hk.
  - intros id e' (e & _ & _ & Hne & _)%retained_lookup. done.
  - intros id e' s seen (e & He & _ & _ & Hs)%retained_lookup [Hl _]%Hs.
    destruct (ok_seen _ Hm _ _ _ _ He Hl) as (r & Hr' & Hle).
    destruct (decide (s = scope)) as [->|Hne].
    + exists (default 0%Z (scope_revisions m !! scope) + 1)%Z. rewrite lookup_insert_eq. split; [done|].
      rewrite Hr'. cbn. lia.
    + exists r. rewrite lookup_insert_ne; done.
  - intros s r [= <- <-]. apply lookup_insert_eq.
  - intros s r. destruct (decide (s = scope)) as [->|Hne].
    + rewrite lookup_insert_eq. intros [= <-]. lia.
    + rewrite lookup_insert_ne by done. eapply (ok_revision _ Hm).
Qed.

Lemma scope_in_use_spec m scope :
  scope_in_use m scope = true <-> exists id e, entries m !! id = Some e /\ is_Some (last_seen_by_scope e !! scope).
Proof.
  unfold scope_in_use. rewrite existsb_exists. split.
  - intros ([id e] & Hin & Hs). rewrite <- list_elem_of_In, elem_of_map_to_list in Hin. exists id, e.
    split; [done|]. cbn in Hs. destruct (_ !! scope); [eauto|done].
  - intros (id & e & He & [r Hr]). exists (id, e). rewrite <- list_elem_of_In, elem_of_map_to_list. cbn. by rewrite Hr.
Qed.

Lemma finish_revision_ok m m' : map_ok m -> finish_revision m = Ok m' -> map_ok m'.
Proof.
  intros Hm. unfold finish_revision. intros Hb. ok_inv.
  split; cbn [entries hm_limits hm_fence reverse scope_revisions active_revision]; try apply Hm; try done.
  - etrans; [apply size_filter_le|apply (ok_scopes _ Hm)].
  - intros id e scope seen He Hs. destruct (ok_seen _ Hm _ _ _ _ He Hs) as (r & Hr & Hle).
    exists r. split; [|done]. apply map_lookup_filter_Some. split; [done|]. apply scope_in_use_spec. eauto.
  - intros s r [Hr _]%map_lookup_filter_Some. by eapply (ok_revision _ Hm).
Qed.

Context (rng : nat -> string).

Lemma find_unused_some es tries drawn id drawn' :
  find_unused rng es tries drawn = Some (id, drawn') ->
  es !! id = None /\ exists k, id = HlsResourceId_generate (rng k).
Proof.
  revert drawn. induction tries as [|tries IH]; intros drawn; [done|]. cbn.
  destruct (es !! HlsResourceId_generate (rng drawn)) eqn:Hu; cbn; [apply IH|]. intros [= <- <-]. eauto.
Qed.

(** what [register] found and left *)
Lemma register_spec m drawn url kind range id m' drawn' :
  map_ok m -> register rng m drawn url kind range = Ok (id, m', drawn') ->
  exists scope revision e,
    active_revision m = Some (scope, revision) /\
    m' = set_entries m (<[id := e]> (entries m)) (<[resource_key url kind range := id]> (reverse m)) /\
    entry_key e = resource_key url kind range /\ last_seen_by_scope e !! scope = Some revision /\
    ((exists old, entries m !! id = Some old /\ re_descriptor e = re_descriptor old /\
        last_seen_by_scope e = <[scope := revision]> (last_seen_by_scope old))
     \/ (entries m !! id = None /\ reverse m !! resource_key url kind range = None /\
         size (entries m) < max_resources (hm_limits m) /\
         re_descriptor e = {| rd_url := url; rd_kind := kind; rd_byte_range := range |} /\
         last_seen_by_scope e = {[scope := revision]} /\ exists k, id = HlsResourceId_generate (rng k))).
Proof.
  intros Hm. unfold register. intros Hr. ok_inv.
  match goal with x : HlsManifestScope * Z |- _ => destruct x as [scope revision] end.
  destruct (reverse m !! _) as [rid|] eqn:Hrev.
  - ok_inv. match goal with H : entries m !! _ = Some ?old |- _ => rename old into old, H into Ho end.
    exists scope, revision. eexists. split_and!; [done|by rewrite (insert_id (reverse m))| | |].
    + apply (ok_reverse _ Hm) in Hrev as (e & He & Hk). rewrite Ho in He. injection He as <-. done.
    + apply lookup_insert_eq.
    + left. eauto.
  - ok_inv. match goal with x : HlsResourceId * nat |- _ => destruct x as [rid d] end. ok_inv.
    match goal with H : find_unused _ _ _ _ = _ |- _ => apply find_unused_some in H as [Hn Hk] end.
    exists scope, revision. eexists. split_and!; [done|done|done|apply lookup_singleton_eq|].
    right. cbn. split_and!; try done. by apply Nat.leb_gt.
Qed.

Lemma register_ok m drawn url kind range id m' drawn' :
  (forall k, slen (rng k) = RESOURCE_ID_BYTES) ->
  map_ok m -> register rng m drawn url kind range = Ok (id, m', drawn') -> map_ok m'.
Proof.
  intros Hrng Hm Hr. destruct (register_spec _ _ _ _ _ _ _ _ Hm Hr) as (scope & revision & e & Ha & -> & Hk & Hs & Hcase).
  assert (forall i e', entries m !! i = Some e' -> entry_key e' = resource_key url kind range -> i = id) as Huniq.
  { intros i e' Hi He'. destruct Hcase as [(old & Ho & Hd & _)|(_ & Hn & _)].
    - eapply key_unique; eauto. rewrite He', <- Hk. unfold entry_key. by rewrite Hd.
    - assert (reverse m !! resource_key url kind range = Some i) as Hi' by (apply (ok_reverse _ Hm); eauto). congruence. }
  split; cbn [set_entries entries hm_limits hm_fence reverse scope_revisions active_revision]; try apply Hm.
  - destruct Hcase as [(old & Ho & _)|(Hn & _ & Hlt & _)].
    + rewrite map_size_insert_Some by eauto. apply (ok_size _ Hm).
    + rewrite map_size_insert_None by done. lia.
  - intros i e' [[<- <-]|[Hne Hi]]%lookup_insert_Some; [|by eapply (ok_ids _ Hm)].
    destruct Hcase as [(old & Ho & _)|(_ & _ & _ & _ & _ & k & ->)]; [by eapply (ok_ids _ Hm)|].
    by apply generated_id_parses.
  - intros key i. rewrite lookup_insert_Some. rewrite (ok_reverse _ Hm). split.
    + intros [[<- <-]|[Hne (e' & Hi & He')]]; [exists e; by rewrite lookup_insert_eq|].
      exists e'. split; [|done]. rewrite lookup_insert_ne; [done|]. intros ->.
      destruct Hcase as [(old & Ho & Hd & _)|(Hn & _)]; [|congruence].
      apply Hne. rewrite <- Hk, <- He'. unfold entry_key. rewrite Hd. congruence.
    + intros (e' & [[<- <-]|[Hne Hi]]%lookup_insert_Some & He'); [left; by rewrite <- Hk|].
      right. split; [|eauto]. intros <-. apply Hne. symmetry. by apply (Huniq i e').
  - intros i e' [[<- <-]|[Hne Hi]]%lookup_insert_Some; [|by eapply (ok_in_use _ Hm)].
    intros Hemp. by rewrite Hemp in Hs.
  - intros i e' s seen [[<- <-]|[Hne Hi]]%lookup_insert_Some Hl; [|by eapply (ok_seen _ Hm)].
    pose proof (ok_active _ Hm _ _ Ha) as Hrev.
    destruct (decide (s = scope)) as [->|Hn]; [rewrite Hs in Hl; injection Hl as <-; exists revision; split; [done|]; apply (ok_revision _ Hm) in Hrev; lia|].
    destruct Hcase as [(old & Ho & _ & Hls)|(_ & _ & _ & _ & Hls & _)]; rewrite Hls in Hl.
    + rewrite lookup_insert_ne in Hl by done. by eapply (ok_seen _ Hm).
    + rewrite lookup_singleton_ne in Hl by done. done.
Qed.
End Consistency.

(** ** Any sequence of operations *)
Inductive ResourceOp :=
| OpTakeOver (expected_fencing_token new_fencing_token : Z)
| OpBegin (scope : HlsManifestScope) (control_fencing_token : Z)
| OpRegister (url : Url) (kind : HlsResourceKind) (byte_range : option HlsByteRange)
| OpFinish.

Section Operations.
Context `{CL : CryptoLaws} (rng : nat -> string).

(** An operation that fails leaves the map as it was: every guard comes before the first write. *)
Definition apply_op (op : ResourceOp) (s : HlsResourceMap * nat) : HlsResourceMap * nat :=
  let keep (r : result HlsRewriteError HlsResourceMap) := (match r with Ok m => m | Err _ => s.1 end, s.2) in
  match op with
  | OpTakeOver expected new => keep (hls_take_over s.1 expected new)
  | OpBegin scope fence => keep (begin_revision s.1 scope fence)
  | OpRegister url kind range =>
      match register rng s.1 s.2 url kind range with Ok (_, m, drawn) => (m, drawn) | Err _ => s end
  | OpFinish => keep (finish_revision s.1)
  end.
Definition apply_ops (ops : list ResourceOp) (s : HlsResourceMap * nat) : HlsResourceMap * nat :=
  foldl (fun s op => apply_op op s) s ops.

Definition begins (scope : HlsManifestScope) (op : ResourceOp) : nat :=
  match op with OpBegin s _ => if String.eqb s scope then 1 else 0 | _ => 0 end.
Definition begin_count (scope : HlsManifestScope) (ops : list ResourceOp) : nat :=
  sum_list_with (begins scope) ops.
Definition is_take_over (op : ResourceOp) : bool := match op with OpTakeOver _ _ => true | _ => false end.

Lemma apply_op_ok op s :
  (forall k, slen (rng k) = RESOURCE_ID_BYTES) -> map_ok s.1 -> map_ok (apply_op op s).1.
Proof.
  intros Hrng Hm. destruct op; cbn [apply_op fst].
  - destruct (hls_take_over _ _ _) eqn:E; [by eapply take_over_ok|done].
  - destruct (begin_revision _ _ _) eqn:E; [by eapply begin_revision_ok|done].
  - destruct (register _ _ _ _ _ _) as [[[id m] d]|] eqn:E; [by eapply register_ok|done].
  - destruct (finish_revision _) eqn:E; [by eapply finish_revision_ok|done].
Qed.

Lemma apply_ops_ok ops s :
  (forall k, slen (rng k) = RESOURCE_ID_BYTES) -> map_ok s.1 -> map_ok (apply_ops ops s).1.
Proof. intros Hrng. revert s. induction ops as [|op ops IH]; intros s Hm; [done|]. by apply IH, apply_op_ok. Qed.

(** a resource seen in [scope] at most [age] revisions of it ago *)
Definition seen_within (m : HlsResourceMap) (id : HlsResourceId) (d : HlsResourceDescriptor)
    (scope : HlsManifestScope) (age : Z) : Prop :=
  exists e seen, entries m !! id = Some e /\ re_descriptor e = d /\ last_seen_by_scope e !! scope = Some seen /\
    (forall revision, scope_revisions m !! scope = Some revision -> (revision <= seen + age)%Z).

Lemma seen_within_weaken m id d scope age age' :
  (age <= age')%Z -> seen_within m id d scope age -> seen_within m id d scope age'.
Proof.
  intros Hle (e & seen & He & Hd & Hs & Hrev). exists e, seen. split_and!; [done..|]. intros r Hr%Hrev. lia.
Qed.

Lemma begin_seen m scope' fence m' id d scope age :
  map_ok m -> (0 <= age)%Z -> begin_revision m scope' fence = Ok m' ->
  (age + (if String.eqb scope' scope then 1 else 0) <= retired_revision_grace (hm_limits m))%Z ->
  seen_within m id d scope age ->
  seen_within m' id d scope (age + (if String.eqb scope' scope then 1 else 0))%Z.
Proof.
  intros Hm Hage E Hgrace (e & seen & He & Hd & Hs & Hrev).
  destruct (ok_seen _ Hm _ _ _ _ He Hs) as (r & Hr & Hle). specialize (Hrev r Hr).
  unfold begin_revision in E. ok_inv. subst.
  match goal with H : u64_checked_add _ _ = Some ?x |- _ => rename x into revision, H into Hc end.
  assert (String.eqb scope' scope = true -> revision = (r + 1)%Z) as Hnew.
  { intros ->%String.eqb_eq. rewrite Hr in Hc. unfold u64_checked_add in Hc. cbn in Hc. case_match; congruence. }
  assert (scope <> scope' \/ (u64_saturating_sub revision (retired_revision_grace (hm_limits m)) <= seen)%Z) as Hkept.
  { destruct (String.eqb_spec scope' scope) as [->|Hne]; [right|by left].
    rewrite Hnew by done. pose proof (ok_revision _ Hm _ _ Hr). unfold u64_saturating_sub. lia. }
  set (kept := {| re_descriptor := re_descriptor e; last_seen_by_scope :=
    filter (fun p : HlsManifestScope * Z => p.1 <> scope' \/
      (u64_saturating_sub revision (retired_revision_grace (hm_limits m)) <= p.2)%Z) (last_seen_by_scope e) |}).
  assert (last_seen_by_scope kept !! scope = Some seen) as Hk by by apply map_lookup_filter_Some.
  exists kept, seen. cbn [entries scope_revisions]. split_and!; [|done|done|].
  - rewrite lookup_omap, He. apply retain_entry_some. split; [done|]. intros Hemp. by rewrite Hemp in Hk.
  - intros y. destruct (String.eqb_spec scope' scope) as [->|Hne].
    + rewrite lookup_insert_eq. intros [= <-]. rewrite Hnew by done. lia.
    + rewrite lookup_insert_ne by done. rewrite Hr. intros [= <-]. lia.
Qed.

Lemma register_seen m drawn url kind range rid m' drawn' id d scope age :
  map_ok m -> (0 <= age)%Z -> register rng m drawn url kind range = Ok (rid, m', drawn') ->
  seen_within m id d scope age -> seen_within m' id d scope age.
Proof.
  intros Hm Hage E (e & seen & He & Hd & Hs & Hrev).
  destruct (register_spec _ _ _ _ _ _ _ _ _ Hm E) as (sc & revision & e' & Ha & -> & Hk & Hls & Hcase).
  unfold seen_within. cbn [entries scope_revisions set_entries].
  destruct (decide (rid = id)) as [->|Hne]; [|exists e, seen; by rewrite lookup_insert_ne].
  destruct Hcase as [(old & Ho & Hd' & Hls')|(Hn & _)]; [|congruence].
  assert (old = e) as -> by congruence. exists e'. rewrite Hls', lookup_insert_eq.
  destruct (decide (sc = scope)) as [->|Hsc].
  - exists revision. rewrite lookup_insert_eq. split_and!; [done|congruence|done|].
    intros x Hx. pose proof (ok_active _ Hm _ _ Ha). assert (x = revision) as -> by congruence. lia.
  - exists seen. rewrite lookup_insert_ne by done. split_and!; [done|congruence|done..].
Qed.

Lemma finish_seen m m' id d scope age :
  finish_revision m = Ok m' -> seen_within m id d scope age -> seen_within m' id d scope age.
Proof.
  intros E (e & seen & He & Hd & Hs & Hrev). unfold finish_revision in E. ok_inv.
  exists e, seen. split_and!; [done..|]. intros y [Hy _]%map_lookup_filter_Some. by apply Hrev.
Qed.

Lemma apply_op_seen op s id d scope age :
  map_ok s.1 -> is_take_over op = false -> (0 <= age)%Z ->
  (age + Z.of_nat (begins scope op) <= retired_revision_grace (hm_limits s.1))%Z ->
  seen_within s.1 id d scope age ->
  seen_within (apply_op op s).1 id d scope (age + Z.of_nat (begins scope op)).
Proof.
  intros Hm Hop Hage Hgrace Hseen.
  assert (seen_within s.1 id d scope (age + Z.of_nat (begins scope op))) as Hkeep
    by (eapply seen_within_weaken; [|done]; lia).
  destruct s as [m drawn]. destruct op as [|scope' fence|url kind range|]; [done| | |]; cbn [apply_op fst snd begins] in *.
  - destruct (begin_revision m scope' fence) as [m'|] eqn:E; [|done].
    assert (Z.of_nat (if String.eqb scope' scope then 1 else 0) = if String.eqb scope' scope then 1 else 0)%Z as Heq
      by by destruct (String.eqb _ _).
    rewrite Heq in *. by eapply begin_seen.
  - destruct (register rng m drawn url kind range) as [[[rid m'] drawn']|] eqn:E; [|exact Hkeep]. by eapply register_seen; [|lia| |].
  - destruct (finish_revision m) as [m'|] eqn:E; [|done]. by eapply finish_seen.
Qed.

Lemma apply_op_frame op s :
  is_take_over op = false ->
  hm_limits (apply_op op s).1 = hm_limits s.1 /\ hm_fence (apply_op op s).1 = hm_fence s.1.
Proof.
  destruct s as [m drawn]. destruct op; [done|intros _..]; cbn [apply_op fst snd].
  - destruct (begin_revision _ _ _) eqn:E; [|done]. unfold begin_revision in E. by ok_inv.
  - destruct (register _ _ _ _ _ _) as [[[? ?] ?]|] eqn:E; [|done]. unfold register in E.
    apply result_bind_ok in E as ([? ?] & _ & E). destruct (reverse m !! _); ok_inv; [done|].
    match goal with x : HlsResourceId * nat |- _ => destruct x end. by ok_inv.
  - destruct (finish_revision _) eqn:E; [|done]. unfold finish_revision in E. by ok_inv.
Qed.

Lemma apply_ops_seen ops s id d scope age :
  (forall k, slen (rng k) = RESOURCE_ID_BYTES) ->
  map_ok s.1 -> forallb (fun op => negb (is_take_over op)) ops = true -> (0 <= age)%Z ->
  (age + Z.of_nat (begin_count scope ops) <= retired_revision_grace (hm_limits s.1))%Z ->
  seen_within s.1 id d scope age ->
  seen_within (apply_ops ops s).1 id d scope (age + Z.of_nat (begin_count scope ops)) /\
  hm_fence (apply_ops ops s).1 = hm_fence s.1.
Proof.
  intros Hrng. revert s age. induction ops as [|op ops IH]; intros s age Hm Hops Hage Hgrace Hseen.
  - cbn. by rewrite Z.add_0_r.
  - cbn in Hops. bool_hyps. unfold begin_count in *. cbn [sum_list_with] in *.
    destruct (apply_op_frame op s) as [Hl Hf]; [done|].
    destruct (IH (apply_op op s) (age + Z.of_nat (begins scope op))%Z) as [Hs Hfe]; [by apply apply_op_ok|done|lia|rewrite Hl; lia| | ].
    + apply apply_op_seen; try done; lia.
    + split; [|by rewrite <- Hf]. replace (age + Z.of_nat (_ + _))%Z
        with (age + Z.of_nat (begins scope op) + Z.of_nat (sum_list_with (begins scope) ops))%Z by lia. done.
Qed.
End Operations.
