(* ===== verification/HlsRewrite.v ===== *)
(** * Rewriting HLS playlists (src/src/live/relay/hls/rewrite.rs)

    [HlsRewriter] turns a provider's playlist into one that names only the server's own routes: it checks the
    bytes, reads the lines, lets through the tags it knows in the order it accepts, registers every URI in the
    session's [HlsResourceMap] and writes the route of the resource in its place.  Nothing reaches the caller's
    map unless the whole playlist was rewritten and what was written passed a second reading.

    The reader and the writer are the quick_m3u8 crate's ([M3u8]); a tag is the attributes the code looks at
    and the rest of its text.  [f64] is IEEE binary64 ([SpecFloat]). *)
From Stdlib Require Import SpecFloat.
From S2P Require Import Prelude Bytes Planner Crypto HlsResources.

(** ** [f64] *)
Definition f64 : Type := spec_float.
(** [n as f64], to nearest *)
Definition f64_of_Z (n : Z) : f64 := binary_normalize 53 1024 n 0 false.
Definition is_finite (x : f64) : bool := match x with S754_zero _ | S754_finite _ _ _ => true | _ => false end.
(** [f64::round]: to the nearest integer, ties away from zero *)
Definition f64_round (x : f64) : f64 :=
  match x with
  | S754_finite s m e =>
      if (0 <=? e)%Z then x else
      let n := ((Z.pos m + 2 ^ (- e - 1)) / 2 ^ (- e))%Z in
      binary_normalize 53 1024 (if s then - n else n)%Z 0 s
  | _ => x
  end.

(** ** Constants *)
Definition MAX_HLS_VERSION : Z := 100.
Definition MAX_TARGET_DURATION_SECONDS : Z := 86400.
Definition MAX_SEGMENT_DURATION_SECONDS : f64 := f64_of_Z 86400.
Definition MAX_BYTE_RANGE_LENGTH : Z := 8 * 1024 * 1024 * 1024.
Definition RESOURCE_ID_SENTINEL : string := "__RESOURCE_ID__".

(** ** Lines of a playlist *)
Inductive Method := MethodNone | Aes128 | SampleAes | SampleAesCtr.
#[export] Instance Method_eq_dec : EqDecision Method.
Proof. solve_decision. Defined.
(** the media types other than closed captions are treated alike *)
Inductive MediaType := ClosedCaptions | OtherMediaType (name : string).

Record KeyAttributes := {
  key_method : option Method;
  key_iv : option string;
  keyformat : string;
  keyformatversions : option string;
  key_rest : string;
}.

Inductive Tag :=
| M3u (rest : string)
| Version (version : Z) (rest : string)
| IndependentSegments (rest : string)
| Start (time_offset : f64) (rest : string)
| Define (rest : string)
| Targetduration (target_duration : Z) (rest : string)
| MediaSequence (media_sequence : Z) (rest : string)
| DiscontinuitySequence (rest : string)
| Endlist (rest : string)
| PlaylistType (rest : string)
| IFramesOnly (rest : string)
| PartInf (part_target : f64) (rest : string)
| ServerControl (can_skip_until hold_back part_hold_back : option f64) (rest : string)
| Part (duration : f64) (uri : string) (byterange : option HlsByteRange) (rest : string)
| Skip (skipped_segments : Z) (rest : string)
| PreloadHint (hint_type_known : bool) (uri : string) (byterange_start : Z) (byterange_length : option Z) (rest : string)
| RenditionReport (uri : string) (rest : string)
| Inf (duration : f64) (rest : string)
| Byterange (length : Z) (offset : option Z) (rest : string)
| Discontinuity (rest : string)
| Key (uri : option string) (attributes : KeyAttributes)
| Map (uri : string) (byterange : option (Z * Z)) (rest : string)
| ProgramDateTime (rest : string)
| Gap (rest : string)
| Bitrate (bitrate : Z) (rest : string)
| Daterange (rest : string)
| Media (media_type : option MediaType) (uri : option string) (rest : string)
| StreamInf (rest : string)
| IFrameStreamInf (uri : string) (rest : string)
| SessionData (uri : option string) (rest : string)
| ContentSteering (server_uri : string) (rest : string)
| SessionKey (uri : string) (attributes : KeyAttributes).

Inductive HlsLine :=
| LineTag (tag : Tag)
| LineOtherKnownTag (text : string)
| LineUnknownTag (bytes : string) (validation_error : bool)
| LineUri (uri : string)
| LineComment (text : string)
| LineBlank.

(** [Reader::from_str] and what its [read_line] returns until the end ([None]: an error); [Writer::write_line]:
    the bytes it appends ([None]: an error). *)
Class M3u8 := {
  read_lines : string -> list (option HlsLine);
  render_line : HlsLine -> option string;
}.

(** ** Configuration, state and result *)
Record HlsRewriteConfig := {
  max_body_bytes : Z; max_output_bytes : Z; max_lines : Z; max_line_bytes : Z; max_uri_bytes : Z;
}.
Definition HlsRewriteConfig_default : HlsRewriteConfig :=
  {| max_body_bytes := 1048576; max_output_bytes := 2097152; max_lines := 10000; max_line_bytes := 8192;
     max_uri_bytes := 4096 |}.
Definition HlsRewriter_new (c : HlsRewriteConfig) : result HlsRewriteError HlsRewriteConfig :=
  if ((max_body_bytes c =? 0) || (max_output_bytes c =? 0) || (max_lines c =? 0) || (max_line_bytes c =? 0)
      || (max_uri_bytes c =? 0))%Z
  then Err InvalidResourceMapConfiguration else Ok c.

Inductive HlsManifestKind := Master | MediaManifest.

Record HlsRewriteResult := {
  rr_body : string;
  rr_kind : HlsManifestKind;
  rr_resource_count : nat;
  rr_target_duration_seconds : option Z;
  rr_media_sequence : option Z;
  rr_end_list : bool;
}.

Inductive PendingUri := PendingPlaylist | PendingMediaSegment.
#[export] Instance PendingUri_eq_dec : EqDecision PendingUri.
Proof. solve_decision. Defined.

(** the [bool] fields of [RewriteState] that [mark_singleton] sets *)
Inductive Singleton :=
| SHeader | SVersion | SIndependentSegments | SStart | STargetDuration | SMediaSequence | SDiscontinuitySequence
| SAllowCache | SPlaylistType | SIFramesOnly | SPartInf | SServerControl | SEndList.
#[export] Instance Singleton_eq_dec : EqDecision Singleton.
Proof. solve_decision. Defined.

Record RewriteState := {
  line_count : Z;
  seen : list Singleton;
  saw_master : bool;
  saw_media : bool;
  pending_uri : option PendingUri;
  pending_byte_range : option HlsByteRange;
  st_target_duration : option Z;
  st_media_sequence : option Z;
  st_skipped_segments : option Z;
  segment_durations : list f64;
  touched_resources : gset string;
  last_segment_range : option (Url * Z);
}.
Definition RewriteState_default (skipped : option Z) : RewriteState :=
  {| line_count := 0; seen := []; saw_master := false; saw_media := false; pending_uri := None;
     pending_byte_range := None; st_target_duration := None; st_media_sequence := None;
     st_skipped_segments := skipped; segment_durations := []; touched_resources := ∅; last_segment_range := None |}.

Definition set_line_count (s : RewriteState) (n : Z) : RewriteState :=
  {| line_count := n; seen := seen s; saw_master := saw_master s; saw_media := saw_media s;
     pending_uri := pending_uri s; pending_byte_range := pending_byte_range s;
     st_target_duration := st_target_duration s; st_media_sequence := st_media_sequence s;
     st_skipped_segments := st_skipped_segments s; segment_durations := segment_durations s;
     touched_resources := touched_resources s; last_segment_range := last_segment_range s |}.
Definition set_flags (s : RewriteState) (flags : list Singleton) (master media : bool) : RewriteState :=
  {| line_count := line_count s; seen := flags; saw_master := master; saw_media := media;
     pending_uri := pending_uri s; pending_byte_range := pending_byte_range s;
     st_target_duration := st_target_duration s; st_media_sequence := st_media_sequence s;
     st_skipped_segments := st_skipped_segments s; segment_durations := segment_durations s;
     touched_resources := touched_resources s; last_segment_range := last_segment_range s |}.
Definition set_pending (s : RewriteState) (uri : option PendingUri) (range : option HlsByteRange) : RewriteState :=
  {| line_count := line_count s; seen := seen s; saw_master := saw_master s; saw_media := saw_media s;
     pending_uri := uri; pending_byte_range := range;
     st_target_duration := st_target_duration s; st_media_sequence := st_media_sequence s;
     st_skipped_segments := st_skipped_segments s; segment_durations := segment_durations s;
     touched_resources := touched_resources s; last_segment_range := last_segment_range s |}.
Definition set_numbers (s : RewriteState) (target sequence : option Z) (durations : list f64) : RewriteState :=
  {| line_count := line_count s; seen := seen s; saw_master := saw_master s; saw_media := saw_media s;
     pending_uri := pending_uri s; pending_byte_range := pending_byte_range s;
     st_target_duration := target; st_media_sequence := sequence;
     st_skipped_segments := st_skipped_segments s; segment_durations := durations;
     touched_resources := touched_resources s; last_segment_range := last_segment_range s |}.
Definition set_touched (s : RewriteState) (touched : gset string) (range : option (Url * Z)) : RewriteState :=
  {| line_count := line_count s; seen := seen s; saw_master := saw_master s; saw_media := saw_media s;
     pending_uri := pending_uri s; pending_byte_range := pending_byte_range s;
     st_target_duration := st_target_duration s; st_media_sequence := st_media_sequence s;
     st_skipped_segments := st_skipped_segments s; segment_durations := segment_durations s;
     touched_resources := touched; last_segment_range := range |}.

(** what a rewrite works on: the staged map, the calls of the random generator so far, the state and the
    writer, with the lines it was given and the bytes it appended for them *)
Record Progress := {
  pg_map : HlsResourceMap;
  pg_drawn : nat;
  pg_state : RewriteState;
  pg_lines : list HlsLine;
  pg_output : string;
}.
Definition with_state (p : Progress) (s : RewriteState) : Progress :=
  {| pg_map := pg_map p; pg_drawn := pg_drawn p; pg_state := s; pg_lines := pg_lines p; pg_output := pg_output p |}.

(** ** The methods of [RewriteState] *)
Definition mark_master (p : Progress) : result HlsRewriteError Progress :=
  let s := pg_state p in
  if saw_media s then Err MixedPlaylistKinds else Ok (with_state p (set_flags s (seen s) true (saw_media s))).
Definition mark_media (p : Progress) : result HlsRewriteError Progress :=
  let s := pg_state p in
  if saw_master s then Err MixedPlaylistKinds else Ok (with_state p (set_flags s (seen s) (saw_master s) true)).
Definition mark_singleton (f : Singleton) (p : Progress) : result HlsRewriteError Progress :=
  let s := pg_state p in
  if bool_decide (f ∈ seen s) then Err DuplicateTag
  else Ok (with_state p (set_flags s (f :: seen s) (saw_master s) (saw_media s))).
Definition require_no_pending (p : Progress) : result HlsRewriteError unit :=
  reject_if (is_some_b (pending_uri (pg_state p)) || is_some_b (pending_byte_range (pg_state p))) InvalidTagOrder.

Definition state_finish (s : RewriteState) : result HlsRewriteError HlsManifestKind :=
  _ ← reject_if (negb (bool_decide (SHeader ∈ seen s))) MissingHeader;
  _ ← reject_if (is_some_b (pending_uri s) || is_some_b (pending_byte_range s)) InvalidTagOrder;
  _ ← reject_if (bool_decide (touched_resources s = ∅)) MissingResource;
  _ ← reject_if (Bool.eqb (saw_master s) (saw_media s)) MixedPlaylistKinds;
  if saw_media s then
    target ← ok_or (st_target_duration s) MissingTargetDuration;
    _ ← reject_if (existsb (fun d => SFltb (f64_of_Z target) (f64_round d)) (segment_durations s)) InvalidNumericValue;
    Ok MediaManifest
  else Ok Master.

(** ** Checks of values *)
Definition valid_ignored_duration (d : f64) : bool :=
  is_finite d && SFltb (f64_of_Z 0) d && SFleb d MAX_SEGMENT_DURATION_SECONDS.
Definition valid_keyformat_versions (v : option string) : bool := is_none_or (String.eqb "1") v.
Definition valid_iv (v : option string) : bool :=
  is_none_or (fun v => match strip_prefix "0x" v with
                       | Some digits => (slen v =? 34)%Z && all_bytes is_hexdigit digits
                       | None => false
                       end) v.
Definition validate_identity_key (k : KeyAttributes) : result HlsRewriteError unit :=
  reject_if (negb (String.eqb (keyformat k) "identity") || negb (valid_keyformat_versions (keyformatversions k))
             || negb (valid_iv (key_iv k))) UnsupportedEncryption.

Definition hex_value (c : ascii) : option N :=
  let b := byte_of c in
  (if (48 <=? b) && (b <=? 57) then Some (b - 48)
   else if (97 <=? b) && (b <=? 102) then Some (b - 97 + 10)
   else if (65 <=? b) && (b <=? 70) then Some (b - 65 + 10) else None)%N.
Fixpoint contains_percent_encoded_control (s : string) : bool :=
  match s with
  | String p s1 =>
      match s1 with
      | String h (String l s3) =>
          match Ascii.eqb p "%", hex_value h, hex_value l with
          | true, Some high, Some low =>
              let decoded := N.lor (N.shiftl high 4) low in
              if ((decoded <=? 31) || (decoded =? 127))%N then true else contains_percent_encoded_control s3
          | _, _, _ => contains_percent_encoded_control s1
          end
      | _ => false
      end
  | EmptyString => false
  end.

(** [s.chars().any(char::is_whitespace)] *)
Fixpoint any_whitespace (s : string) : bool :=
  match s with
  | EmptyString => false
  | String a r =>
      ws1 a
      || match r with
         | String b r2 => ws2 a b || match r2 with String c _ => ws3 a b c | EmptyString => false end
         | EmptyString => false
         end
      || any_whitespace r
  end.

Definition validate_url (url : Url) (max_uri : Z) : result HlsRewriteError unit :=
  reject_if (negb (String.eqb (u_scheme url) "http" || String.eqb (u_scheme url) "https")
             || is_none_b (u_host url)
             || negb (str_empty (u_username url))
             || is_some_b (u_password url)
             || is_some_b (u_fragment url)
             || (max_uri <? slen (u_as_str url))%Z
             || contains_percent_encoded_control (u_as_str url)) InvalidResourceUri.

Definition validate_route_base (base : string) : result HlsRewriteError unit :=
  reject_if (negb (starts_with "/" base) || ends_with "/" base || contains_sub "//" base || contains_sub ".." base
             || contains_any ["?"; "#"; "%"; "\"]%char base || any_whitespace base || any_control base) InvalidRouteBase.

Definition resource_route (base : string) (id : HlsResourceId) : string := base +:+ "/resources/" +:+ id.

Section Resolve.
Context `{UrlOps}.
Definition resolve_resource_uri (parent_url : Url) (raw_uri : string) (max_uri : Z) : result HlsRewriteError Url :=
  _ ← reject_if (str_empty raw_uri || (max_uri <? slen raw_uri)%Z || negb (String.eqb (trim raw_uri) raw_uri)
                 || contains_char "\" raw_uri || any_whitespace raw_uri || any_control raw_uri
                 || contains_percent_encoded_control raw_uri) InvalidResourceUri;
  url ← ok_or (Url_join parent_url raw_uri) InvalidResourceUri;
  _ ← validate_url url max_uri;
  Ok url.
End Resolve.

(** ** The bytes of the playlist: [preflight] *)
Fixpoint check_bytes (s : string) : result HlsRewriteError unit :=
  match s with
  | EmptyString => Ok ()
  | String c r =>
      let b := byte_of c in
      if (b =? 10)%N then check_bytes r
      else if (b =? 13)%N then
        match r with
        | String d _ => if (byte_of d =? 10)%N then check_bytes r else Err BareCarriageReturn
        | EmptyString => Err BareCarriageReturn
        end
      else if ((b <? 32) || (b =? 127))%N then Err ControlCharacter else check_bytes r
  end.
(** [chars().any(|c| c.is_control() && !matches!(c, '\r' | '\n'))] *)
Fixpoint any_control_but_newline (s : string) : bool :=
  match s with
  | EmptyString => false
  | String c r =>
      ((byte_of c <? 32) && negb (byte_of c =? 13) && negb (byte_of c =? 10) || (byte_of c =? 127))%N
      || ((byte_of c =? 194)%N
          && match r with
             | String d _ => ((128 <=? byte_of d) && (byte_of d <? 160))%N
             | EmptyString => false
             end)
      || any_control_but_newline r
  end.
Definition LF : ascii := "010".
Definition CR : ascii := "013".
(** [strip_suffix('\r').unwrap_or(line)] *)
Definition strip_cr (line : string) : string :=
  match String.rev line with
  | String c r => if Ascii.eqb c CR then String.rev r else line
  | EmptyString => line
  end.
(** [text.split_terminator('\n')] *)
Definition split_terminator (text : string) : list string :=
  let parts := split_char LF text in
  if String.eqb (List.last parts "") "" then removelast parts else parts.
(** [text.lines().next()] *)
Definition first_line (text : string) : option string :=
  match text, split_char LF text with
  | EmptyString, _ | _, [] => None
  | _, [line] => Some line
  | _, line :: _ => Some (strip_cr line)
  end.
Fixpoint check_lines (c : HlsRewriteConfig) (lines : list string) (count : Z) : result HlsRewriteError Z :=
  match lines with
  | [] => Ok count
  | line :: rest =>
      let count := (count + 1)%Z in
      _ ← reject_if (max_lines c <? count)%Z LineLimitExceeded;
      _ ← reject_if (max_line_bytes c <? slen (strip_cr line))%Z LineLengthExceeded;
      check_lines c rest count
  end.
Definition BOM : string := String "239" (String "187" (String "191" EmptyString)).
Definition preflight (c : HlsRewriteConfig) (body : string) : result HlsRewriteError string :=
  _ ← reject_if (str_empty body) EmptyBody;
  _ ← reject_if (max_body_bytes c <? slen body)%Z BodyLimitExceeded;
  _ ← reject_if (starts_with BOM body) ByteOrderMark;
  _ ← reject_if (negb (utf8_valid body)) InvalidUtf8;
  _ ← check_bytes body;
  _ ← reject_if (any_control_but_newline body) ControlCharacter;
  lines ← check_lines c (split_terminator body) 0;
  let lines := if ends_with (String LF "") body && (lines =? 0)%Z then 1%Z else lines in
  _ ← reject_if ((lines =? 0)%Z || negb (bool_decide (first_line body = Some "#EXTM3U"))) MissingHeader;
  Ok body.

(** ** The rewriter *)
Section Rewriter.
Context `{CryptoPrims} `{UrlOps} `{M3u8} (rng : nat -> string) (c : HlsRewriteConfig).
Variables (parent_url : Url) (route_base : string).

Definition write_line (line : HlsLine) (p : Progress) : result HlsRewriteError Progress :=
  text ← ok_or (render_line line) OutputVerificationFailed;
  Ok {| pg_map := pg_map p; pg_drawn := pg_drawn p; pg_state := pg_state p;
        pg_lines := pg_lines p ++ [line]; pg_output := pg_output p +:+ text |}.

(** the byte range of a media segment with its offset, and where it ends *)
Definition resolve_range (s : RewriteState) (url : Url) (range : HlsByteRange)
    : result HlsRewriteError (HlsByteRange * Z) :=
  range ← match br_offset range with
          | Some _ => Ok range
          | None =>
              '(previous_url, previous_end) ← ok_or (last_segment_range s) InvalidTagOrder;
              _ ← reject_if (negb (String.eqb (u_as_str previous_url) (u_as_str url))) InvalidTagOrder;
              Ok {| br_length := br_length range; br_offset := Some previous_end |}
          end;
  range_end ← ok_or (offset ← br_offset range; u64_checked_add offset (br_length range)) InvalidNumericValue;
  Ok (range, range_end).

Definition register_uri (raw_uri : string) (kind : HlsResourceKind) (byte_range : option HlsByteRange) (p : Progress)
    : result HlsRewriteError (string * Progress) :=
  url ← resolve_resource_uri parent_url raw_uri (max_uri_bytes c);
  '(byte_range, last) ←
    (if bool_decide (kind = KindMediaSegment) then
       match byte_range with
       | Some range =>
           '(range, range_end) ← resolve_range (pg_state p) url range;
           Ok (Some range, Some (url, range_end))
       | None => Ok (None, None)
       end
     else Ok (byte_range, last_segment_range (pg_state p)));
  '(id, m, drawn) ← register rng (pg_map p) (pg_drawn p) url kind byte_range;
  Ok (resource_route route_base id,
      {| pg_map := m; pg_drawn := drawn;
         pg_state := set_touched (pg_state p) ({[id]} ∪ touched_resources (pg_state p)) last;
         pg_lines := pg_lines p; pg_output := pg_output p |}).

(** [offset.checked_add(length).is_none()] *)
Definition overflows (offset length : Z) : bool := is_none_b (u64_checked_add offset length).
Definition bad_length (length : Z) : bool := ((length =? 0) || (MAX_BYTE_RANGE_LENGTH <? length))%Z.

(** [state.mark_media()?; state.require_no_pending()?] *)
Definition media_tag (p : Progress) : result HlsRewriteError Progress :=
  p ← mark_media p; _ ← require_no_pending p; Ok p.
Definition master_tag (p : Progress) : result HlsRewriteError Progress :=
  p ← mark_master p; _ ← require_no_pending p; Ok p.
(** the arms that only check the order of a singleton of a media playlist *)
Definition media_singleton (f : Singleton) (tag : Tag) (p : Progress) : result HlsRewriteError Progress :=
  p ← mark_media p; p ← mark_singleton f p; _ ← require_no_pending p; write_line (LineTag tag) p.

Definition rewrite_tag (tag : Tag) (p : Progress) : result HlsRewriteError Progress :=
  _ ← reject_if (bool_decide (SEndList ∈ seen (pg_state p))) InvalidTagOrder;
  match tag with
  | M3u _ =>
      p ← mark_singleton SHeader p;
      _ ← reject_if (negb (line_count (pg_state p) =? 1)%Z) MissingHeader;
      write_line (LineTag tag) p
  | Version version _ =>
      p ← mark_singleton SVersion p;
      _ ← reject_if ((version =? 0) || (MAX_HLS_VERSION <? version))%Z InvalidNumericValue;
      _ ← require_no_pending p;
      write_line (LineTag tag) p
  | IndependentSegments _ =>
      p ← mark_singleton SIndependentSegments p; _ ← require_no_pending p; write_line (LineTag tag) p
  | Start time_offset _ =>
      p ← mark_singleton SStart p;
      _ ← reject_if (negb (is_finite time_offset) || SFltb MAX_SEGMENT_DURATION_SECONDS (SFabs time_offset))
            InvalidNumericValue;
      _ ← require_no_pending p;
      write_line (LineTag tag) p
  | Define _ => Err UnsupportedTag
  | Targetduration target _ =>
      p ← mark_media p;
      p ← mark_singleton STargetDuration p;
      _ ← reject_if ((target =? 0) || (MAX_TARGET_DURATION_SECONDS <? target))%Z InvalidNumericValue;
      let s := pg_state p in
      let p := with_state p (set_numbers s (Some target) (st_media_sequence s) (segment_durations s)) in
      _ ← require_no_pending p;
      write_line (LineTag tag) p
  | MediaSequence media_sequence rest =>
      p ← mark_media p;
      p ← mark_singleton SMediaSequence p;
      let s := pg_state p in
      media_sequence ← match st_skipped_segments s with
                       | Some skipped => ok_or (u64_checked_add media_sequence skipped) InvalidNumericValue
                       | None => Ok media_sequence
                       end;
      let p := with_state p (set_numbers s (st_target_duration s) (Some media_sequence) (segment_durations s)) in
      _ ← require_no_pending p;
      write_line (LineTag (MediaSequence media_sequence rest)) p
  | DiscontinuitySequence _ => media_singleton SDiscontinuitySequence tag p
  | Endlist _ => media_singleton SEndList tag p
  | PlaylistType _ => media_singleton SPlaylistType tag p
  | IFramesOnly _ => media_singleton SIFramesOnly tag p
  | PartInf part_target _ =>
      p ← media_tag p;
      p ← mark_singleton SPartInf p;
      _ ← reject_if (negb (valid_ignored_duration part_target)) InvalidNumericValue;
      Ok p
  | ServerControl can_skip_until hold_back part_hold_back _ =>
      p ← media_tag p;
      p ← mark_singleton SServerControl p;
      _ ← reject_if (existsb (fun d => negb (valid_ignored_duration d))
                       (option_list can_skip_until ++ option_list hold_back ++ option_list part_hold_back))
            InvalidNumericValue;
      Ok p
  | Part duration uri byterange _ =>
      p ← media_tag p;
      _ ← reject_if (negb (valid_ignored_duration duration)) InvalidNumericValue;
      _ ← resolve_resource_uri parent_url uri (max_uri_bytes c);
      _ ← reject_if (is_some_and (fun r => bad_length (br_length r)
                                           || is_some_and (fun o => overflows o (br_length r)) (br_offset r)) byterange)
            InvalidNumericValue;
      Ok p
  | Skip skipped_segments _ =>
      p ← media_tag p;
      let s := pg_state p in
      _ ← reject_if (negb (bool_decide (SMediaSequence ∈ seen s))
                     || negb (bool_decide (segment_durations s = []))
                     || negb (bool_decide (st_skipped_segments s = Some skipped_segments))) InvalidTagOrder;
      Ok p
  | PreloadHint hint_type_known uri byterange_start byterange_length _ =>
      p ← media_tag p;
      _ ← reject_if (negb hint_type_known) UnsupportedTag;
      _ ← resolve_resource_uri parent_url uri (max_uri_bytes c);
      _ ← reject_if (is_some_and (fun l => bad_length l || overflows byterange_start l) byterange_length)
            InvalidNumericValue;
      Ok p
  | RenditionReport uri _ =>
      p ← media_tag p;
      _ ← resolve_resource_uri parent_url uri (max_uri_bytes c);
      Ok p
  | Inf duration _ =>
      p ← media_tag p;
      _ ← reject_if (negb (is_finite duration) || SFleb duration (f64_of_Z 0)
                     || SFltb MAX_SEGMENT_DURATION_SECONDS duration) InvalidNumericValue;
      let s := pg_state p in
      let s := set_numbers s (st_target_duration s) (st_media_sequence s) (segment_durations s ++ [duration]) in
      write_line (LineTag tag) (with_state p (set_pending s (Some PendingMediaSegment) (pending_byte_range s)))
  | Byterange length offset _ =>
      p ← mark_media p;
      let s := pg_state p in
      _ ← reject_if (negb (bool_decide (pending_uri s = Some PendingMediaSegment))
                     || is_some_b (pending_byte_range s)
                     || bad_length length
                     || is_some_and (fun o => overflows o length) offset) InvalidTagOrder;
      write_line (LineTag tag)
        (with_state p (set_pending s (pending_uri s) (Some {| br_length := length; br_offset := offset |})))
  | Discontinuity _ => p ← media_tag p; write_line (LineTag tag) p
  | Key uri k =>
      p ← media_tag p;
      match key_method k with
      | Some MethodNone =>
          _ ← reject_if (is_some_b uri || is_some_b (key_iv k) || negb (String.eqb (keyformat k) "identity")
                         || is_some_b (keyformatversions k)) UnsupportedEncryption;
          write_line (LineTag tag) p
      | Some Aes128 =>
          _ ← validate_identity_key k;
          uri ← ok_or uri UnsupportedEncryption;
          '(route, p) ← register_uri uri KindEncryptionKey None p;
          write_line (LineTag (Key (Some route) k)) p
      | Some (SampleAes | SampleAesCtr) | None => Err UnsupportedEncryption
      end
  | Map uri byterange rest =>
      p ← media_tag p;
      _ ← reject_if (is_some_and (fun r => bad_length r.1 || overflows r.2 r.1) byterange) InvalidNumericValue;
      let range := (fun r => {| br_length := r.1; br_offset := Some r.2 |}) <$> byterange in
      '(route, p) ← register_uri uri KindInitializationSegment range p;
      write_line (LineTag (Map route byterange rest)) p
  | ProgramDateTime _ => p ← media_tag p; write_line (LineTag tag) p
  | Gap _ =>
      p ← mark_media p;
      _ ← reject_if (negb (bool_decide (pending_uri (pg_state p) = Some PendingMediaSegment))) InvalidTagOrder;
      write_line (LineTag tag) p
  | Bitrate bitrate _ =>
      p ← mark_media p;
      _ ← reject_if ((bitrate =? 0)%Z || negb (bool_decide (pending_uri (pg_state p) = Some PendingMediaSegment)))
            InvalidTagOrder;
      write_line (LineTag tag) p
  | Daterange _ => Err UnsupportedTag
  | Media media_type uri rest =>
      p ← master_tag p;
      media_type' ← ok_or media_type UnsupportedTag;
      match media_type', uri with
      | ClosedCaptions, Some _ => Err UnsupportedTag
      | _, None => write_line (LineTag tag) p
      | OtherMediaType _, Some uri =>
          '(route, p) ← register_uri uri KindPlaylist None p;
          write_line (LineTag (Media media_type (Some route) rest)) p
      end
  | StreamInf _ =>
      p ← master_tag p;
      let s := pg_state p in
      write_line (LineTag tag) (with_state p (set_pending s (Some PendingPlaylist) (pending_byte_range s)))
  | IFrameStreamInf uri rest =>
      p ← master_tag p;
      '(route, p) ← register_uri uri KindPlaylist None p;
      write_line (LineTag (IFrameStreamInf route rest)) p
  | SessionData _ _ | ContentSteering _ _ => Err UnsupportedTag
  | SessionKey uri k =>
      p ← master_tag p;
      _ ← reject_if (negb (bool_decide (key_method k = Some Aes128)) || negb (String.eqb (keyformat k) "identity")
                     || negb (valid_keyformat_versions (keyformatversions k)) || negb (valid_iv (key_iv k)))
            UnsupportedEncryption;
      '(route, p) ← register_uri uri KindEncryptionKey None p;
      write_line (LineTag (SessionKey route k)) p
  end.

Definition rewrite_uri_line (uri : string) (p : Progress) : result HlsRewriteError Progress :=
  let s := pg_state p in
  _ ← reject_if (bool_decide (SEndList ∈ seen s)) InvalidTagOrder;
  pending ← ok_or (pending_uri s) InvalidTagOrder;
  let '(kind, range, remaining) :=
    match pending with
    | PendingPlaylist => (KindPlaylist, None, pending_byte_range s)
    | PendingMediaSegment => (KindMediaSegment, pending_byte_range s, None)
    end in
  '(route, p) ← register_uri uri kind range (with_state p (set_pending s None remaining));
  write_line (LineUri route) p.

Definition is_legacy_allow_cache (bytes : string) (validation_error : bool) : bool :=
  negb validation_error
  && (String.eqb bytes "#EXT-X-ALLOW-CACHE:YES" || String.eqb bytes "#EXT-X-ALLOW-CACHE:NO").

(** one round of the loop of [rewrite_scoped_with_validator] *)
Definition rewrite_line (line : HlsLine) (p : Progress) : result HlsRewriteError Progress :=
  let p := with_state p (set_line_count (pg_state p) (line_count (pg_state p) + 1)) in
  match line with
  | LineTag tag => rewrite_tag tag p
  | LineUnknownTag bytes validation_error =>
      if is_legacy_allow_cache bytes validation_error then
        p ← mark_media p; _ ← require_no_pending p; mark_singleton SAllowCache p
      else Err UnsupportedTag
  | LineOtherKnownTag _ => Err UnsupportedTag
  | LineUri uri => rewrite_uri_line uri p
  | LineComment _ => if is_some_b (pending_uri (pg_state p)) then Err InvalidTagOrder else Ok p
  | LineBlank => if is_some_b (pending_uri (pg_state p)) then Err InvalidTagOrder else write_line LineBlank p
  end.
Fixpoint rewrite_lines (lines : list (option HlsLine)) (p : Progress) : result HlsRewriteError Progress :=
  match lines with
  | [] => Ok p
  | None :: _ => Err ParseFailed
  | Some line :: rest => p ← rewrite_line line p; rewrite_lines rest p
  end.

Fixpoint skipped_segment_count (lines : list (option HlsLine)) (skipped : option Z)
    : result HlsRewriteError (option Z) :=
  match lines with
  | [] => Ok skipped
  | None :: _ => Err ParseFailed
  | Some (LineTag (Skip n _)) :: rest =>
      _ ← reject_if ((n =? 0)%Z || is_some_b skipped) InvalidNumericValue;
      skipped_segment_count rest (Some n)
  | Some _ :: rest => skipped_segment_count rest skipped
  end.

(** *** The second reading *)
Definition verify_route_uri (uri route_prefix : string) : result HlsRewriteError unit :=
  id ← ok_or (rest ← strip_prefix route_prefix uri; HlsResourceId_parse rest) OutputVerificationFailed;
  reject_if ((max_uri_bytes c <? slen uri)%Z || negb (String.eqb uri (route_prefix +:+ id))) OutputVerificationFailed.
Definition tag_uri (tag : Tag) : option string :=
  match tag with
  | Media _ uri _ | Key uri _ | SessionData uri _ => uri
  | IFrameStreamInf uri _ | Map uri _ _ | SessionKey uri _ | Part _ uri _ _ | PreloadHint _ uri _ _ _
  | RenditionReport uri _ | ContentSteering uri _ => Some uri
  | _ => None
  end.
Definition verify_line (route_prefix : string) (line : option HlsLine) : result HlsRewriteError unit :=
  match line with
  | Some (LineTag tag) =>
      match tag_uri tag with Some uri => verify_route_uri uri route_prefix | None => Ok () end
  | Some (LineUri uri) => verify_route_uri uri route_prefix
  | Some LineBlank => Ok ()
  | Some (LineUnknownTag _ _ | LineOtherKnownTag _ | LineComment _) | None => Err OutputVerificationFailed
  end.
Fixpoint verify_lines (route_prefix : string) (lines : list (option HlsLine)) : result HlsRewriteError unit :=
  match lines with
  | [] => Ok ()
  | line :: rest => _ ← verify_line route_prefix line; verify_lines route_prefix rest
  end.
(** [trim_end_matches] of a string *)
Fixpoint trim_end_matches (fuel : nat) (pattern text : string) : string :=
  match fuel with
  | O => text
  | S fuel =>
      match strip_prefix (String.rev pattern) (String.rev text) with
      | Some rest => trim_end_matches fuel pattern (String.rev rest)
      | None => text
      end
  end.
Definition verify_output (output : string) : result HlsRewriteError unit :=
  _ ← reject_if (negb (utf8_valid output)) OutputVerificationFailed;
  let prefix := route_base +:+ "/resources/" +:+ RESOURCE_ID_SENTINEL in
  let prefix := trim_end_matches (String.length prefix) RESOURCE_ID_SENTINEL prefix in
  let lines := read_lines output in
  _ ← verify_lines prefix lines;
  reject_if (length lines =? 0) OutputVerificationFailed.

(** *** The whole rewrite: on an error the caller's map is the one it passed *)
Definition rewrite_scoped_with_validator (resources : HlsResourceMap) (drawn : nat) (control_fencing_token : Z)
    (scope : HlsManifestScope) (body : string) (validator : HlsResourceDescriptor -> result HlsRewriteError unit)
    : result HlsRewriteError (HlsRewriteResult * HlsResourceMap * nat) :=
  text ← preflight c body;
  _ ← validate_url parent_url (max_uri_bytes c);
  _ ← validate_route_base route_base;
  skipped ← skipped_segment_count (read_lines text) None;
  staged ← begin_revision resources scope control_fencing_token;
  p ← rewrite_lines (read_lines text)
        {| pg_map := staged; pg_drawn := drawn; pg_state := RewriteState_default skipped; pg_lines := [];
           pg_output := "" |};
  kind ← state_finish (pg_state p);
  _ ← reject_if (max_output_bytes c <? slen (pg_output p))%Z OutputLimitExceeded;
  _ ← verify_output (pg_output p);
  _ ← validate_active_resources (pg_map p) validator;
  finished ← finish_revision (pg_map p);
  Ok ({| rr_body := pg_output p; rr_kind := kind;
         rr_resource_count := size (touched_resources (pg_state p));
         rr_target_duration_seconds := st_target_duration (pg_state p);
         rr_media_sequence := st_media_sequence (pg_state p);
         rr_end_list := bool_decide (SEndList ∈ seen (pg_state p)) |}, finished, pg_drawn p).

Definition rewrite_scoped (resources : HlsResourceMap) (drawn : nat) (control_fencing_token : Z)
    (scope : HlsManifestScope) (body : string)
    : result HlsRewriteError (HlsRewriteResult * HlsResourceMap * nat) :=
  rewrite_scoped_with_validator resources drawn control_fencing_token scope body (fun _ => Ok ()).
Definition rewrite (blake3 : string -> string) (resources : HlsResourceMap) (drawn : nat)
    (control_fencing_token : Z) (body : string) : result HlsRewriteError (HlsRewriteResult * HlsResourceMap * nat) :=
  scope ← from_stable_key blake3 (u_as_str parent_url);
  rewrite_scoped resources drawn control_fencing_token scope body.
End Rewriter.

(** ** What a rewritten playlist is *)

(** the tags that are written as they were read, and those that are checked and left out *)
Definition copied (tag : Tag) : bool :=
  match tag with
  | M3u _ | Version _ _ | IndependentSegments _ | Start _ _ | Targetduration _ _ | DiscontinuitySequence _ | Endlist _
  | PlaylistType _ | IFramesOnly _ | Inf _ _ | Byterange _ _ _ | Discontinuity _ | Key None _ | ProgramDateTime _
  | Gap _ | Bitrate _ _ | Media _ None _ | StreamInf _ => true
  | _ => false
  end.
Definition dropped (tag : Tag) : bool :=
  match tag with
  | PartInf _ _ | ServerControl _ _ _ _ | Part _ _ _ _ | Skip _ _ | PreloadHint _ _ _ _ _ | RenditionReport _ _ => true
  | _ => false
  end.

(** a resource the relay may fetch: no credentials, no fragment, http or https, and a byte range with a known
    offset whose end is a [u64] *)
Definition range_safe (r : HlsByteRange) : Prop :=
  bad_length (br_length r) = false /\ exists offset, br_offset r = Some offset /\ (offset + br_length r <= u64_max)%Z.
Definition descriptor_safe (c : HlsRewriteConfig) (d : HlsResourceDescriptor) : Prop :=
  validate_url (rd_url d) (max_uri_bytes c) = Ok () /\ forall r, rd_byte_range d = Some r -> range_safe r.
Definition map_safe (c : HlsRewriteConfig) (m : HlsResourceMap) : Prop :=
  forall id e, entries m !! id = Some e -> descriptor_safe c (re_descriptor e).

(** every entry is still there, with its descriptor, and what was seen in the revision [now] is still seen in it *)
Definition seen_in (now : HlsManifestScope * Z) (e : ResourceEntry) : Prop :=
  last_seen_by_scope e !! now.1 = Some now.2.
Definition extends (now : HlsManifestScope * Z) (m m' : HlsResourceMap) : Prop :=
  forall id e, entries m !! id = Some e -> exists e', entries m' !! id = Some e' /\
    re_descriptor e' = re_descriptor e /\ (seen_in now e -> seen_in now e').
#[export] Instance extends_preorder now : PreOrder (extends now).
Proof.
  split; [by intros m id e He; exists e|]. intros m1 m2 m3 H12 H23 id e (e2 & He2 & Hd2 & Hs2)%H12.
  destruct (H23 _ _ He2) as (e3 & He3 & Hd3 & Hs3). exists e3. split_and!; [done|congruence|by auto].
Qed.

Section Emits.
Context `{UrlOps}.
Variables (parent_url : Url) (route_base : string) (now : HlsManifestScope * Z) (skipped : option Z) (m : HlsResourceMap).

(** [route] is the route of the resource the URI names, seen in the revision [now] *)
Definition routes_to (kind : HlsResourceKind) (range : option HlsByteRange) (raw_uri route : string) : Prop :=
  exists id e url, route = resource_route route_base id /\ entries m !! id = Some e /\ seen_in now e /\
    Url_join parent_url raw_uri = Some url /\ entry_key e = resource_key url kind range.

Inductive emits : HlsLine -> list HlsLine -> Prop :=
| emits_blank : emits LineBlank [LineBlank]
| emits_comment text : emits (LineComment text) []
| emits_allow_cache bytes error : is_legacy_allow_cache bytes error = true -> emits (LineUnknownTag bytes error) []
| emits_uri kind range raw route :
    kind = KindPlaylist \/ kind = KindMediaSegment ->
    routes_to kind range raw route -> emits (LineUri raw) [LineUri route]
| emits_copied tag : copied tag = true -> emits (LineTag tag) [LineTag tag]
| emits_dropped tag : dropped tag = true -> emits (LineTag tag) []
| emits_sequence n rest : emits (LineTag (MediaSequence n rest)) [LineTag (MediaSequence (n + default 0%Z skipped) rest)]
| emits_key raw k route :
    routes_to KindEncryptionKey None raw route -> emits (LineTag (Key (Some raw) k)) [LineTag (Key (Some route) k)]
| emits_map raw range rest route :
    routes_to KindInitializationSegment ((fun r => {| br_length := r.1; br_offset := Some r.2 |}) <$> range) raw route ->
    emits (LineTag (Map raw range rest)) [LineTag (Map route range rest)]
| emits_media t raw rest route :
    routes_to KindPlaylist None raw route ->
    emits (LineTag (Media t (Some raw) rest)) [LineTag (Media t (Some route) rest)]
| emits_iframes raw rest route :
    routes_to KindPlaylist None raw route -> emits (LineTag (IFrameStreamInf raw rest)) [LineTag (IFrameStreamInf route rest)]
| emits_session_key raw k route :
    routes_to KindEncryptionKey None raw route -> emits (LineTag (SessionKey raw k)) [LineTag (SessionKey route k)].
End Emits.

Lemma routes_to_extends `{UrlOps} parent base now m m' kind range raw route :
  extends now m m' -> routes_to parent base now m kind range raw route -> routes_to parent base now m' kind range raw route.
Proof.
  intros Hx (id & e & url & -> & He & Hs & Hj & Hk). destruct (Hx _ _ He) as (e' & He' & Hd & Hs').
  exists id, e', url. split_and!; try done; [by auto|]. unfold entry_key in *. by rewrite Hd.
Qed.
Lemma emits_extends `{UrlOps} parent base now skipped m m' l out :
  extends now m m' -> emits parent base now skipped m l out -> emits parent base now skipped m' l out.
Proof. intros Hx []; econstructor; eauto using routes_to_extends. Qed.

(** ** One line *)
Section Step.
Context `{CL : CryptoLaws} `{UrlOps} `{M3u8} (rng : nat -> string) (c : HlsRewriteConfig).
Context (parent_url : Url) (route_base : string).
Context (now : HlsManifestScope * Z).

(** what the marks and the numbers leave alone *)
Record calm (p q : Progress) : Prop := {
  calm_map : pg_map q = pg_map p;
  calm_lines : pg_lines q = pg_lines p;
  calm_output : pg_output q = pg_output p;
  calm_touched : touched_resources (pg_state q) = touched_resources (pg_state p);
  calm_skipped : st_skipped_segments (pg_state q) = st_skipped_segments (pg_state p);
  calm_pending : pending_uri (pg_state q) = pending_uri (pg_state p);
  calm_range : pending_byte_range (pg_state q) = pending_byte_range (pg_state p);
}.
#[local] Instance calm_preorder : PreOrder calm.
Proof. split; [done|]. intros p q r [] []. split; congruence. Qed.

Definition idle (p : Progress) : Prop := pending_uri (pg_state p) = None.

Lemma mark_media_calm p q : mark_media p = Ok q -> calm p q.
Proof. unfold mark_media. case_match; [done|]. by intros [= <-]. Qed.
Lemma mark_master_calm p q : mark_master p = Ok q -> calm p q.
Proof. unfold mark_master. case_match; [done|]. by intros [= <-]. Qed.
Lemma mark_singleton_calm f p q : mark_singleton f p = Ok q -> calm p q.
Proof. unfold mark_singleton. case_match; [done|]. by intros [= <-]. Qed.
Lemma no_pending_idle p u : require_no_pending p = Ok u -> idle p.
Proof.
  unfold require_no_pending, idle. intros ?%reject_if_ok. bool_hyps. by destruct (pending_uri _).
Qed.
Lemma calm_idle p q : calm p q -> idle q -> idle p.
Proof. unfold idle. intros [] ?. congruence. Qed.
Lemma media_tag_calm p q : media_tag p = Ok q -> calm p q /\ idle p.
Proof.
  unfold media_tag. intros Hm. ok_inv.
  match goal with H : mark_media _ = _ |- _ => apply mark_media_calm in H end.
  match goal with H : require_no_pending _ = _ |- _ => apply no_pending_idle in H end. eauto using calm_idle.
Qed.
Lemma master_tag_calm p q : master_tag p = Ok q -> calm p q /\ idle p.
Proof.
  unfold master_tag. intros Hm. ok_inv.
  match goal with H : mark_master _ = _ |- _ => apply mark_master_calm in H end.
  match goal with H : require_no_pending _ = _ |- _ => apply no_pending_idle in H end. eauto using calm_idle.
Qed.
Lemma mark_singleton_count f p q : mark_singleton f p = Ok q -> line_count (pg_state q) = line_count (pg_state p).
Proof. unfold mark_singleton. case_match; [done|]. by intros [= <-]. Qed.
Lemma numbers_calm p t s d : calm p (with_state p (set_numbers (pg_state p) t s d)).
Proof. done. Qed.

Definition opens (tag : Tag) : option PendingUri :=
  match tag with Inf _ _ => Some PendingMediaSegment | StreamInf _ => Some PendingPlaylist | _ => None end.
Definition modifies (tag : Tag) : bool :=
  match tag with Byterange _ _ _ | Gap _ | Bitrate _ _ => true | _ => false end.
(** a line that stands on its own between two entries of the playlist *)
Definition standalone (l : HlsLine) : bool :=
  match l with
  | LineTag tag => is_none_b (opens tag) && negb (modifies tag)
  | LineBlank => true
  | _ => false
  end.
Definition uri_kind (u : PendingUri) : HlsResourceKind :=
  match u with PendingPlaylist => KindPlaylist | PendingMediaSegment => KindMediaSegment end.
Definition given_range (r : option HlsByteRange) : Prop := forall x, r = Some x -> bad_length (br_length x) = false.

Let emitted (m : HlsResourceMap) (skipped : option Z) := emits parent_url route_base now skipped m.
Let skipped_of (p : Progress) := st_skipped_segments (pg_state p).

(** What a line does to the progress, by the way it is handled. *)
Inductive effect (l : HlsLine) (p p' : Progress) : Prop :=
| effect_drop :
    calm p p' -> (forall m, emitted m (skipped_of p) l []) -> effect l p p'
| effect_write q l' :
    calm p q -> idle p \/ (exists rest, l = LineTag (M3u rest) /\ line_count (pg_state p) = 0%Z) ->
    (forall m, emitted m (skipped_of p) l [l']) -> standalone l' = true -> write_line l' q = Ok p' -> effect l p p'
| effect_open u tag q :
    calm p q -> idle p -> l = LineTag tag -> opens tag = Some u ->
    write_line l (with_state q (set_pending (pg_state q) (Some u) (pending_byte_range (pg_state q)))) = Ok p' ->
    effect l p p'
| effect_modify range tag q :
    calm p q -> pending_uri (pg_state p) = Some PendingMediaSegment -> l = LineTag tag -> modifies tag = true ->
    range = pending_byte_range (pg_state q) \/ (pending_byte_range (pg_state p) = None /\ given_range range) ->
    write_line l (with_state q (set_pending (pg_state q) (pending_uri (pg_state q)) range)) = Ok p' -> effect l p p'
| effect_route raw kind range route q r l' :
    calm p q -> idle p -> kind <> KindMediaSegment -> (forall x, range = Some x -> range_safe x) ->
    register_uri rng c parent_url route_base raw kind range q = Ok (route, r) ->
    (forall m, routes_to parent_url route_base now m kind range raw route -> emitted m (skipped_of p) l [l']) ->
    standalone l' = true -> write_line l' r = Ok p' -> effect l p p'
| effect_uri raw u route q r :
    calm p q -> l = LineUri raw -> pending_uri (pg_state p) = Some u ->
    register_uri rng c parent_url route_base raw (uri_kind u)
      (match u with PendingPlaylist => None | PendingMediaSegment => pending_byte_range (pg_state q) end)
      (with_state q (set_pending (pg_state q) None
         (match u with PendingPlaylist => pending_byte_range (pg_state q) | PendingMediaSegment => None end))) = Ok (route, r) ->
    write_line (LineUri route) r = Ok p' -> effect l p p'.

Lemma set_pending_same q :
  with_state q (set_pending (pg_state q) (pending_uri (pg_state q)) (pending_byte_range (pg_state q))) = q.
Proof. by destruct q as [? ? [] ? ?]. Qed.

Lemma overflows_false o l : overflows o l = false -> (o + l <= u64_max)%Z.
Proof. unfold overflows, u64_checked_add. destruct (_ <=? _)%Z eqn:E; [|done]. intros _. by apply Z.leb_le. Qed.

(** bring the marks of a run into one [calm] chain *)
Ltac calm_facts :=
  repeat match goal with
  | H : media_tag _ = Ok _ |- _ => apply media_tag_calm in H as [? ?]
  | H : master_tag _ = Ok _ |- _ => apply master_tag_calm in H as [? ?]
  | H : mark_media _ = Ok _ |- _ => apply mark_media_calm in H
  | H : mark_master _ = Ok _ |- _ => apply mark_master_calm in H
  | H : mark_singleton _ _ = Ok _ |- _ => apply mark_singleton_calm in H
  | H : require_no_pending _ = Ok _ |- _ => apply no_pending_idle in H
  end.
Ltac calm_chain := first [done | eassumption | etrans; [eassumption|]; calm_chain].
Ltac idle_chain := first [eassumption | eapply calm_idle; [|eassumption]; calm_chain].

Ltac copied_write :=
  eapply effect_write; [| | | |eassumption]; [calm_chain|left; idle_chain|intros; by apply emits_copied|done].

Lemma media_singleton_effect f tag p p0 p' :
  calm p p0 -> copied tag = true -> standalone (LineTag tag) = true -> media_singleton f tag p0 = Ok p' ->
  effect (LineTag tag) p p'.
Proof. intros Hcalm Hc Hs Hm. unfold media_singleton in Hm. ok_inv. calm_facts. copied_write. Qed.

Ltac dropped_tag := apply effect_drop; [calm_chain|intros; by apply emits_dropped].

Lemma sequence_effect n sequence rest p q p' :
  calm p q -> idle p ->
  match st_skipped_segments (pg_state q) with
  | Some skipped => ok_or (u64_checked_add n skipped) InvalidNumericValue
  | None => Ok n
  end = Ok sequence ->
  write_line (LineTag (MediaSequence sequence rest)) q = Ok p' -> effect (LineTag (MediaSequence n rest)) p p'.
Proof.
  intros Hcalm Hidle Hs Hw. eapply effect_write; [| | | |exact Hw]; [done|by left|intros m|done].
  replace sequence with (n + default 0%Z (skipped_of p))%Z; [apply emits_sequence|].
  unfold skipped_of. rewrite <- (calm_skipped _ _ Hcalm). destruct (st_skipped_segments _) as [k|]; cbn in *.
  - apply ok_or_ok in Hs. unfold u64_checked_add in Hs. case_match; [by injection Hs|done].
  - injection Hs. lia.
Qed.

Lemma modifier_effect tag p q p' :
  calm p q -> modifies tag = true -> pending_uri (pg_state q) = Some PendingMediaSegment ->
  write_line (LineTag tag) q = Ok p' -> effect (LineTag tag) p p'.
Proof.
  intros Hcalm Ht Hp Hw. eapply effect_modify; [exact Hcalm| |done|done|by left|by rewrite set_pending_same].
  by rewrite <- (calm_pending _ _ Hcalm).
Qed.

Ltac routed lem :=
  eapply effect_route; [| | | |eassumption| | |eassumption];
  [calm_chain|idle_chain|done|done|intros; by apply lem|done].

Lemma header_effect rest p q p' :
  calm p q -> line_count (pg_state p) = 0%Z -> write_line (LineTag (M3u rest)) q = Ok p' -> effect (LineTag (M3u rest)) p p'.
Proof.
  intros Hcalm Hc Hw. eapply effect_write; [| | | |exact Hw]; [done|right; eauto|intros m; by apply emits_copied|done].
Qed.

Lemma map_range_safe range x :
  is_some_and (fun r : Z * Z => bad_length r.1 || overflows r.2 r.1) range = false ->
  (fun r : Z * Z => {| br_length := r.1; br_offset := Some r.2 |}) <$> range = Some x -> range_safe x.
Proof.
  destruct range as [[l o]|]; [cbn|done]. intros Hr [= <-]. bool_hyps.
  split; [done|]. exists o. split; [done|]. by apply overflows_false.
Qed.

Lemma key_effect uri k p q p' :
  calm p q -> idle p ->
  match key_method k with
  | Some MethodNone =>
      _ ← reject_if (is_some_b uri || is_some_b (key_iv k) || negb (String.eqb (keyformat k) "identity")
                     || is_some_b (keyformatversions k)) UnsupportedEncryption;
      write_line (LineTag (Key uri k)) q
  | Some Aes128 =>
      _ ← validate_identity_key k;
      uri ← ok_or uri UnsupportedEncryption;
      '(route, q) ← register_uri rng c parent_url route_base uri KindEncryptionKey None q;
      write_line (LineTag (Key (Some route) k)) q
  | Some (SampleAes | SampleAesCtr) | None => Err UnsupportedEncryption
  end = Ok p' -> effect (LineTag (Key uri k)) p p'.
Proof.
  intros Hcalm Hidle Hr. destruct (key_method k) as [[]|]; try discriminate Hr; ok_inv.
  - bool_hyps. destruct uri; [done|]. copied_write.
  - match goal with x : string * Progress |- _ => destruct x end. subst. routed emits_key.
Qed.

Lemma rewrite_tag_effect tag p p0 p' :
  calm p p0 -> line_count (pg_state p0) = (line_count (pg_state p) + 1)%Z ->
  rewrite_tag rng c parent_url route_base tag p0 = Ok p' -> effect (LineTag tag) p p'.
Proof.
  intros Hcalm Hcount Hr. unfold rewrite_tag in Hr. apply result_bind_ok in Hr as (_ & _ & Hr).
  destruct tag; cbn [existsb] in Hr; try discriminate Hr; try (eapply media_singleton_effect; done).
  all: apply result_bind_ok in Hr as (q & Hq & Hr).
  all: try (assert (line_count (pg_state q) = line_count (pg_state p0)) as Hl by by eapply mark_singleton_count).
  all: ok_inv; calm_facts; bool_hyps; try dropped_tag; try copied_write.
  all: assert (calm p q) as Hpq by calm_chain; try (assert (idle p) as Hidle by idle_chain).
  all: try (match goal with x : string * Progress |- _ => destruct x end; ok_inv).
  all: try (routed emits_iframes); try (routed emits_session_key).
  - eapply header_effect; [done|lia|done].
  - eapply sequence_effect; [| | |exact Hr]; [calm_chain|idle_chain|done].
  - eapply (effect_open _ _ _ PendingMediaSegment _ (with_state q (set_numbers (pg_state q)
      (st_target_duration (pg_state q)) (st_media_sequence (pg_state q)) (segment_durations (pg_state q) ++ [duration]))));
      [by transitivity q|done|done|done|exact Hr].
  - eapply effect_modify; [exact Hpq| |done|done|right|done]; [by rewrite <- (calm_pending _ _ Hpq)|].
    split; [rewrite <- (calm_range _ _ Hpq); by destruct (pending_byte_range _)|]. by intros ? [= <-].
  - by eapply key_effect.
  - eapply effect_route; [| | | |eassumption| | |eassumption]; [done|done|done|intros ?; by apply map_range_safe|
      intros; by apply emits_map|done].
  - by eapply modifier_effect.
  - by eapply modifier_effect.
  - match goal with x : MediaType |- _ => destruct x end; destruct uri; try done; try copied_write.
    ok_inv. match goal with x : string * Progress |- _ => destruct x end. routed emits_media.
  - by eapply effect_open.
Qed.

Lemma count_calm p n : calm p (with_state p (set_line_count (pg_state p) n)).
Proof. done. Qed.

Lemma rewrite_line_effect l p p' : rewrite_line rng c parent_url route_base l p = Ok p' -> effect l p p'.
Proof.
  unfold rewrite_line. set (p0 := with_state p _). assert (calm p p0) as Hcalm by apply count_calm.
  destruct l as [tag|text|bytes error|uri|text|]; intros Hr; try discriminate Hr.
  - by eapply rewrite_tag_effect.
  - destruct (is_legacy_allow_cache bytes error) eqn:He; [|done]. ok_inv. calm_facts.
    apply effect_drop; [calm_chain|intros; by apply emits_allow_cache].
  - unfold rewrite_uri_line in Hr. ok_inv.
    match goal with H : pending_uri _ = Some ?w |- _ => rename w into u, H into Hu end.
    destruct u; cbn beta iota in Hr; ok_inv; match goal with x : string * Progress |- _ => destruct x end;
      eapply (effect_uri _ _ _ uri _ _ p0); eauto.
  - case_match; ok_inv. apply effect_drop; [done|intros; apply emits_comment].
  - destruct (is_some_b _) eqn:Hp; [done|].
    eapply effect_write; [exact Hcalm|left|intros; apply emits_blank|done|done].
    eapply calm_idle; [done|]. unfold idle. by destruct (pending_uri _).
Qed.
End Step.
