(* ===== verification/HlsSafety.v ===== *)
(** * What a client of the relay gets (over src/src/live/relay/hls/)

    The properties of [HlsResources] and [HlsRewrite]: every URI a rewritten playlist carries is the route of a
    registered resource the relay may fetch, the playlist keeps the order HLS asks for, and the resource map
    stays consistent and keeps what recent playlists named. *)
From Stdlib Require Import SpecFloat.
From S2P Require Import Prelude Bytes Planner Crypto HlsResources HlsRewrite.

Section Safety.
Context `{CL : CryptoLaws} `{UrlOps} `{M3u8} (rng : nat -> string) (c : HlsRewriteConfig).
Context (parent_url : Url) (route_base : string).
Context (Hrng : forall k, slen (rng k) = RESOURCE_ID_BYTES).

Notation register_uri := (register_uri rng c parent_url route_base).
Notation routes_to := (routes_to parent_url route_base).

(** ** The staged map during a rewrite *)
Section Staged.
Context (m0 : HlsResourceMap) (scope : HlsManifestScope) (revision : Z).

(** the resources seen in the revision under way *)
Definition seen_now (m : HlsResourceMap) (id : HlsResourceId) : Prop :=
  exists e, entries m !! id = Some e /\ seen_in (scope, revision) e.

Record staged (p : Progress) : Prop := {
  staged_ok : map_ok (pg_map p);
  staged_safe : map_safe c (pg_map p);
  staged_extends : extends (scope, revision) m0 (pg_map p);
  staged_active : active_revision (pg_map p) = Some (scope, revision);
  staged_fence : hm_fence (pg_map p) = hm_fence m0;
  staged_range : given_range (pending_byte_range (pg_state p));
  staged_touched id : id ∈ touched_resources (pg_state p) <-> seen_now (pg_map p) id;
}.

Lemma calm_staged p q : calm p q -> staged p -> staged q.
Proof.
  intros [Hm Hl _ Ht Hs Hp Hr] Hst. split; rewrite ?Hm, ?Hr; try apply Hst. intros i. rewrite Ht. apply Hst.
Qed.

Lemma pending_staged p u r : given_range r -> staged p -> staged (with_state p (set_pending (pg_state p) u r)).
Proof. intros Hr Hst. split; try done; apply Hst. Qed.

Lemma write_staged l p p' :
  write_line l p = Ok p' -> staged p ->
  staged p' /\ pg_lines p' = pg_lines p ++ [l] /\ pg_map p' = pg_map p /\ pg_state p' = pg_state p.
Proof. unfold write_line. intros Hw Hst. ok_inv. split_and!; [|done..]. split; apply Hst. Qed.

Lemma resolve_uri_safe raw max url :
  resolve_resource_uri parent_url raw max = Ok url -> validate_url url max = Ok () /\ Url_join parent_url raw = Some url.
Proof. unfold resolve_resource_uri. intros Hr. ok_inv. by match goal with H : validate_url _ _ = Ok ?u |- _ => destruct u end. Qed.

Lemma resolve_range_safe s url r r' range_end :
  bad_length (br_length r) = false -> resolve_range s url r = Ok (r', range_end) -> range_safe r'.
Proof.
  unfold resolve_range. intros Hl Hr. apply result_bind_ok in Hr as (r1 & H1 & Hr). ok_inv.
  match goal with H : (_ ≫= _) = Some _ |- _ => rename H into He end.
  assert (br_length r' = br_length r) as Hlen.
  { destruct (br_offset r); [by injection H1 as ->|]. ok_inv. by repeat match goal with x : Url * Z |- _ => destruct x end; ok_inv. }
  split; [by rewrite Hlen|]. destruct (br_offset r') as [o|]; [|done]. exists o. split; [done|]. cbn in He.
  unfold u64_checked_add in He. case_match; [|done]. by apply Z.leb_le.
Qed.

(** the byte range [register_uri] registers *)
Lemma registered_range kind range p url range' last :
  (if bool_decide (kind = KindMediaSegment) then
     match range with
     | Some r => '(r, range_end) ← resolve_range (pg_state p) url r; Ok (Some r, Some (url, range_end))
     | None => Ok (None, None)
     end
   else Ok (range, last_segment_range (pg_state p))) = Ok (range', last) ->
  (kind = KindMediaSegment -> given_range range) -> (kind <> KindMediaSegment -> forall x, range = Some x -> range_safe x) ->
  (kind <> KindMediaSegment -> range' = range) /\ forall x, range' = Some x -> range_safe x.
Proof.
  intros Hr Hmedia Hother. case_bool_decide as Hk; [|ok_inv; by eauto].
  split; [done|]. intros x ->. destruct range as [r|]; [|by ok_inv].
  apply result_bind_ok in Hr as ([r' range_end] & Hres & Hr). ok_inv.
  eapply resolve_range_safe; [|done]. by apply Hmedia.
Qed.

Lemma register_staged p url kind range id m drawn s :
  staged p -> validate_url url (max_uri_bytes c) = Ok () -> (forall x, range = Some x -> range_safe x) ->
  register rng (pg_map p) (pg_drawn p) url kind range = Ok (id, m, drawn) ->
  pending_byte_range s = pending_byte_range (pg_state p) ->
  touched_resources s = {[id]} ∪ touched_resources (pg_state p) ->
  staged {| pg_map := m; pg_drawn := drawn; pg_state := s; pg_lines := pg_lines p; pg_output := pg_output p |} /\
  extends (scope, revision) (pg_map p) m /\ exists e, entries m !! id = Some e /\ seen_in (scope, revision) e /\ entry_key e = resource_key url kind range.
Proof.
  intros Hst Hurl Hrange Hreg Hps Hts.
  assert (map_ok m) as Hm by (eapply register_ok; [done|apply (staged_ok _ Hst)|done]).
  destruct (register_spec _ _ _ _ _ _ _ _ _ (staged_ok _ Hst) Hreg) as (sc & rev & e & Ha & -> & Hk & Hls & Hcase).
  pose proof (staged_active _ Hst) as Hact. rewrite Hact in Ha. injection Ha as <- <-.
  assert (extends (scope, revision) (pg_map p) (set_entries (pg_map p) (<[id:=e]> (entries (pg_map p)))
            (<[resource_key url kind range:=id]> (reverse (pg_map p))))) as Hext.
  { intros i e' He'. cbn. destruct (decide (i = id)) as [->|Hne]; [|exists e'; by rewrite lookup_insert_ne].
    exists e. rewrite lookup_insert_eq. split_and!; [done| |done]. destruct Hcase as [(old & Ho & Hd & _)|(Hn & _)]; congruence. }
  split_and!; [|done|exists e; cbn; by rewrite lookup_insert_eq].
  split; cbn [pg_map pg_state]; try done.
  - intros i e'. cbn. intros [[<- <-]|[Hne Hi]]%lookup_insert_Some; [|by eapply (staged_safe _ Hst)].
    destruct Hcase as [(old & Ho & -> & _)|(_ & _ & _ & -> & _)]; [by eapply (staged_safe _ Hst)|by split].
  - etrans; [apply (staged_extends _ Hst)|done].
  - apply (staged_fence _ Hst).
  - rewrite Hps. apply (staged_range _ Hst).
  - intros i. rewrite Hts, elem_of_union, elem_of_singleton, (staged_touched _ Hst). unfold seen_now. cbn.
    destruct (decide (i = id)) as [->|Hne].
    + rewrite lookup_insert_eq. naive_solver.
    + rewrite lookup_insert_ne by done. naive_solver.
Qed.

Lemma register_uri_staged raw kind range p route p' :
  (kind = KindMediaSegment -> given_range range) -> (kind <> KindMediaSegment -> forall x, range = Some x -> range_safe x) ->
  staged p -> register_uri raw kind range p = Ok (route, p') ->
  staged p' /\ pg_lines p' = pg_lines p /\ extends (scope, revision) (pg_map p) (pg_map p') /\
  pending_uri (pg_state p') = pending_uri (pg_state p) /\ pending_byte_range (pg_state p') = pending_byte_range (pg_state p) /\
  exists range', (kind <> KindMediaSegment -> range' = range) /\ routes_to (scope, revision) (pg_map p') kind range' raw route.
Proof.
  intros Hmedia Hother Hst Hreg. unfold HlsRewrite.register_uri in Hreg.
  apply result_bind_ok in Hreg as (url & Hurl%resolve_uri_safe & Hreg). destruct Hurl as [Hurl Hjoin].
  apply result_bind_ok in Hreg as ([range' last] & Hr & Hreg).
  apply result_bind_ok in Hreg as ([[id m] drawn] & Hid & Hreg). ok_inv.
  destruct (registered_range _ _ _ _ _ _ Hr Hmedia Hother) as [Heq Hsafe].
  destruct (register_staged _ _ _ _ _ _ _ (set_touched (pg_state p) ({[id]} ∪ touched_resources (pg_state p)) last)
    Hst Hurl Hsafe Hid eq_refl eq_refl) as (Hst' & Hext & e & He & Hs & Hk).
  split_and!; try done. exists range'. split; [done|]. by exists id, e, url.
Qed.

(** ** Every line *)
Lemma register_uri_skipped raw kind range p route p' :
  register_uri raw kind range p = Ok (route, p') ->
  st_skipped_segments (pg_state p') = st_skipped_segments (pg_state p).
Proof.
  unfold HlsRewrite.register_uri. intros Hr.
  apply result_bind_ok in Hr as (url & _ & Hr). apply result_bind_ok in Hr as ([range' last] & _ & Hr).
  apply result_bind_ok in Hr as ([[id m] drawn] & _ & Hr). by ok_inv.
Qed.
Lemma line_skipped l p p' :
  rewrite_line rng c parent_url route_base l p = Ok p' ->
  st_skipped_segments (pg_state p') = st_skipped_segments (pg_state p).
Proof.
  intros Hl. apply (rewrite_line_effect rng c parent_url route_base (scope, revision)) in Hl. destruct Hl as
    [Hc _|q l' Hc _ _ _ Hw|u tag q Hc _ _ _ Hw|range tag q Hc _ _ _ _ Hw
    |raw kind range route q r l' Hc _ _ _ Hreg _ _ Hw|raw u route q r Hc _ _ Hreg Hw]; rewrite <- (calm_skipped _ _ Hc);
    try (apply register_uri_skipped in Hreg); unfold write_line in *; ok_inv; try done; cbn in *; congruence.
Qed.
Lemma line_staged l p p' :
  rewrite_line rng c parent_url route_base l p = Ok p' -> staged p ->
  staged p' /\ extends (scope, revision) (pg_map p) (pg_map p') /\
  exists out, pg_lines p' = pg_lines p ++ out /\
    emits parent_url route_base (scope, revision) (st_skipped_segments (pg_state p)) (pg_map p') l out.
Proof.
  intros Hl Hst. apply (rewrite_line_effect rng c parent_url route_base (scope, revision)) in Hl. destruct Hl as
    [Hc Hem|q l' Hc _ Hem _ Hw|u tag q Hc _ -> Ho Hw|range tag q Hc _ -> Ht Hr Hw
    |raw kind range route q r l' Hc _ Hk Hr Hreg Hem _ Hw|raw u route q r Hc -> Hu Hreg Hw].
  - split; [by eapply calm_staged|]. rewrite (calm_map _ _ Hc). split; [reflexivity|]. exists [].
    rewrite app_nil_r. split; [apply Hc|apply Hem].
  - apply write_staged in Hw as (Hst' & Hl & Hm & _); [|by eapply calm_staged].
    rewrite Hm, (calm_map _ _ Hc). split; [done|split; [reflexivity|]]. exists [l']. rewrite Hl, (calm_lines _ _ Hc). eauto.
  - apply write_staged in Hw as (Hst' & Hl & Hm & _);
      [|apply pending_staged; [|by eapply calm_staged]; rewrite (calm_range _ _ Hc); apply Hst].
    rewrite Hm. cbn [pg_map with_state]. rewrite (calm_map _ _ Hc). split; [done|split; [reflexivity|]]. exists [LineTag tag].
    rewrite Hl. cbn [pg_lines with_state]. rewrite (calm_lines _ _ Hc). split; [done|]. apply emits_copied. by destruct tag.
  - apply write_staged in Hw as (Hst' & Hl & Hm & _); [|apply pending_staged; [|by eapply calm_staged]].
    + rewrite Hm. cbn [pg_map with_state]. rewrite (calm_map _ _ Hc). split; [done|split; [reflexivity|]]. exists [LineTag tag].
      rewrite Hl. cbn [pg_lines with_state]. rewrite (calm_lines _ _ Hc). split; [done|]. apply emits_copied. by destruct tag.
    + destruct Hr as [->|[_ Hr]]; [|done]. rewrite (calm_range _ _ Hc). apply Hst.
  - apply register_uri_staged in Hreg as (Hst' & Hl & Hext & _ & _ & range' & Heq & Hroute);
      [|done|done|by eapply calm_staged]. rewrite (Heq Hk) in Hroute.
    apply write_staged in Hw as (Hst'' & Hl' & Hm & _); [|done]. rewrite Hm. rewrite (calm_map _ _ Hc) in Hext.
    split_and!; [done..|]. exists [l']. rewrite Hl', Hl, (calm_lines _ _ Hc). eauto.
  - assert (given_range (pending_byte_range (pg_state q))) as Hgiven by (rewrite (calm_range _ _ Hc); apply Hst).
    apply register_uri_staged in Hreg as (Hst' & Hl & Hext & _ & _ & range' & _ & Hroute);
      [|by destruct u|by destruct u|apply pending_staged; [by destruct u|by eapply calm_staged]].
    apply write_staged in Hw as (Hst'' & Hl' & Hm & _); [|done]. rewrite Hm. cbn [pg_map pg_lines with_state] in *.
    rewrite (calm_map _ _ Hc) in Hext. split_and!; [done..|]. exists [LineUri route].
    rewrite Hl', Hl, (calm_lines _ _ Hc). split; [done|]. eapply emits_uri; [|done]. destruct u; [by left|by right].
Qed.

Lemma lines_skipped lines p p' :
  rewrite_lines rng c parent_url route_base lines p = Ok p' ->
  st_skipped_segments (pg_state p') = st_skipped_segments (pg_state p).
Proof.
  revert p. induction lines as [|[l|] lines IH]; intros p Hr; [|apply result_bind_ok in Hr as (q & Hq & Hr)|done].
  - cbn in Hr. by ok_inv.
  - rewrite (IH _ Hr). by eapply line_skipped.
Qed.

Lemma lines_staged lines p p' :
  rewrite_lines rng c parent_url route_base lines p = Ok p' -> staged p ->
  staged p' /\ extends (scope, revision) (pg_map p) (pg_map p') /\
  exists inputs outs, lines = Some <$> inputs /\ pg_lines p' = pg_lines p ++ concat outs /\
    Forall2 (emits parent_url route_base (scope, revision) (st_skipped_segments (pg_state p)) (pg_map p')) inputs outs.
Proof.
  revert p. induction lines as [|[l|] lines IH]; intros p Hr Hst; [|apply result_bind_ok in Hr as (q & Hq & Hr)|done].
  - cbn in Hr. ok_inv. split_and!; [done..|]. exists [], []. by rewrite app_nil_r.
  - destruct (line_staged _ _ _ Hq Hst) as (Hstq & Hext & out & Hout & Hem).
    destruct (IH _ Hr Hstq) as (Hst' & Hext' & inputs & outs & -> & Houts & Hems).
    split; [done|]. split; [by etrans|]. exists (l :: inputs), (out :: outs). split; [done|].
    rewrite Houts, Hout. cbn. rewrite app_assoc. split; [done|].
    constructor; [by eapply emits_extends|]. rewrite <- (line_skipped _ _ _ Hq). done.
Qed.
End Staged.

(** ** The bytes written *)
(** what the writer makes of some lines *)
Fixpoint render_lines (lines : list HlsLine) : option string :=
  match lines with
  | [] => Some ""
  | l :: rest => text ← render_line l; texts ← render_lines rest; Some (text +:+ texts)
  end.
Lemma render_lines_app a b s t : render_lines a = Some s -> render_lines b = Some t -> render_lines (a ++ b) = Some (s +:+ t).
Proof.
  revert s. induction a as [|l a IH]; intros s Ha Hb; cbn in *; [by injection Ha as <-|].
  destruct (render_line l) as [text|]; [cbn in *|done]. destruct (render_lines a) as [texts|]; [cbn in *|done].
  injection Ha as <-. rewrite (IH _ eq_refl Hb). cbn. by rewrite str_app_assoc.
Qed.
Definition rendered (p : Progress) : Prop := render_lines (pg_lines p) = Some (pg_output p).

Lemma write_rendered l p p' : write_line l p = Ok p' -> rendered p -> rendered p'.
Proof.
  unfold write_line, rendered. intros Hw Hp. ok_inv. cbn. apply render_lines_app; [done|]. cbn.
  match goal with H : render_line _ = _ |- _ => rewrite H end. cbn. by rewrite str_app_nil_r.
Qed.
Lemma register_uri_rendered raw kind range p route p' :
  register_uri raw kind range p = Ok (route, p') -> rendered p -> rendered p'.
Proof.
  unfold HlsRewrite.register_uri. intros Hr.
  apply result_bind_ok in Hr as (url & _ & Hr). apply result_bind_ok in Hr as ([range' last] & _ & Hr).
  apply result_bind_ok in Hr as ([[id m] drawn] & _ & Hr). by ok_inv.
Qed.
Lemma calm_rendered p q : calm p q -> rendered p -> rendered q.
Proof. unfold rendered. by intros [_ -> -> _ _ _ _]. Qed.

Lemma line_rendered l p p' : rewrite_line rng c parent_url route_base l p = Ok p' -> rendered p -> rendered p'.
Proof.
  intros Hl Hp. apply (rewrite_line_effect rng c parent_url route_base ("", 0%Z)) in Hl. destruct Hl as
    [Hc _|q l' Hc _ _ _ Hw|u tag q Hc _ _ _ Hw|range tag q Hc _ _ _ _ Hw
    |raw kind range route q r l' Hc _ _ _ Hreg _ _ Hw|raw u route q r Hc _ _ Hreg Hw];
    apply (calm_rendered _ _ Hc) in Hp; [done|..]; (eapply write_rendered; [exact Hw|]); try done;
    by eapply register_uri_rendered.
Qed.
Lemma lines_rendered lines p p' :
  rewrite_lines rng c parent_url route_base lines p = Ok p' -> rendered p -> rendered p'.
Proof.
  revert p. induction lines as [|[l|] lines IH]; intros p Hr Hp; [|apply result_bind_ok in Hr as (q & Hq & Hr)|done].
  - cbn in Hr. by ok_inv.
  - eapply IH; [done|]. by eapply line_rendered.
Qed.

(** ** The start and the end of a rewrite *)
Definition start_progress (m : HlsResourceMap) (drawn : nat) (skipped : option Z) : Progress :=
  {| pg_map := m; pg_drawn := drawn; pg_state := RewriteState_default skipped; pg_lines := []; pg_output := "" |}.

Lemma begin_staged m scope fence m' drawn skipped :
  map_ok m -> map_safe c m -> begin_revision m scope fence = Ok m' ->
  exists revision, staged m' scope revision (start_progress m' drawn skipped) /\ hm_fence m' = fence.
Proof.
  intros Hm Hsafe Hb. assert (map_ok m') as Hm' by by eapply begin_revision_ok.
  unfold begin_revision in Hb. unfold require_fence in Hb. ok_inv. bool_hyps. subst.
  match goal with H : u64_checked_add _ _ = Some ?r |- _ => rename r into revision, H into Hr end.
  exists revision. split; [|done]. split; cbn [pg_map pg_state start_progress hm_fence active_revision]; try done.
  - intros id e' (e & He & Hd & _)%retained_lookup. rewrite Hd. by eapply Hsafe.
  - intros id. split; [set_solver|]. intros (e' & (e & He & _ & _ & Hls)%retained_lookup & [Hs _]%Hls). exfalso.
    destruct (ok_seen _ Hm _ _ _ _ He Hs) as (r & Hrev & Hle). cbn in Hrev, Hle. rewrite Hrev in Hr.
    unfold u64_checked_add in Hr. cbn in Hr. case_match; [|done]. injection Hr as <-. lia.
Qed.

Lemma validate_active_ok m validator scope revision u id e :
  validate_active_resources m validator = Ok u -> active_revision m = Some (scope, revision) ->
  entries m !! id = Some e -> seen_in (scope, revision) e -> validator (re_descriptor e) = Ok ().
Proof.
  unfold validate_active_resources. intros Hv Ha He Hs. rewrite Ha in Hv. cbn in Hv.
  apply elem_of_map_to_list in He. induction (map_to_list (entries m)) as [|[i x] l IH]; [by apply elem_of_nil in He|].
  apply elem_of_cons in He as [[= <- <-]|He]; cbn in Hv.
  - rewrite bool_decide_true in Hv by done. apply result_bind_ok in Hv as ([] & Hv & _). done.
  - case_bool_decide; [apply result_bind_ok in Hv as (_ & _ & Hv)|]; by apply IH.
Qed.

Lemma finish_staged m0 scope revision p m' :
  staged m0 scope revision p -> finish_revision (pg_map p) = Ok m' ->
  map_ok m' /\ map_safe c m' /\ hm_fence m' = hm_fence m0 /\ active_revision m' = None /\
  entries m' = entries (pg_map p) /\ extends (scope, revision) (pg_map p) m'.
Proof.
  intros Hst Hf. assert (map_ok m') as Hm by (eapply finish_revision_ok; [apply Hst|done]).
  unfold finish_revision in Hf. ok_inv.
  split_and!; [done|apply (staged_safe _ _ _ _ Hst)|apply (staged_fence _ _ _ _ Hst)|done|done|].
  intros id e He. by exists e.
Qed.

(** what a successful rewrite went through *)
Lemma rewrite_inv resources drawn fence scope body validator res m' drawn' :
  map_ok resources -> map_safe c resources ->
  rewrite_scoped_with_validator rng c parent_url route_base resources drawn fence scope body validator = Ok (res, m', drawn') ->
  exists m0 revision skipped p,
    staged m0 scope revision p /\ hm_fence m0 = fence /\ st_skipped_segments (pg_state p) = skipped /\
    rewrite_lines rng c parent_url route_base (read_lines body) (start_progress m0 drawn skipped) = Ok p /\
    staged m0 scope revision (start_progress m0 drawn skipped) /\
    state_finish (pg_state p) = Ok (rr_kind res) /\ rr_body res = pg_output p /\
    rr_target_duration_seconds res = st_target_duration (pg_state p) /\
    rr_resource_count res = size (touched_resources (pg_state p)) /\
    verify_output c route_base (pg_output p) = Ok () /\
    validate_active_resources (pg_map p) validator = Ok () /\ finish_revision (pg_map p) = Ok m'.
Proof.
  intros Hm Hsafe Hr. unfold rewrite_scoped_with_validator in Hr.
  apply result_bind_ok in Hr as (text & Htext & Hr). assert (text = body) as ->.
  { unfold preflight in Htext. by ok_inv. }
  apply result_bind_ok in Hr as (_ & _ & Hr). apply result_bind_ok in Hr as (_ & _ & Hr).
  apply result_bind_ok in Hr as (skipped & _ & Hr). apply result_bind_ok in Hr as (m0 & Hb & Hr).
  apply result_bind_ok in Hr as (p & Hp & Hr). apply result_bind_ok in Hr as (kind & Hk & Hr).
  apply result_bind_ok in Hr as (_ & _ & Hr). apply result_bind_ok in Hr as ([] & Hv & Hr).
  apply result_bind_ok in Hr as ([] & Ha & Hr). apply result_bind_ok in Hr as (m1 & Hf & Hr). injection Hr as <- <- <-.
  destruct (begin_staged _ _ _ _ drawn skipped Hm Hsafe Hb) as (revision & Hst & Hfence).
  exists m0, revision, skipped, p.
  destruct (lines_staged _ _ _ _ _ _ Hp Hst) as (Hst' & _ & _). split_and!; try done.
  by rewrite (lines_skipped scope revision _ _ _ Hp).
Qed.

(** ** The second reading *)
Lemma strip_sentinel x : strip_prefix (String.rev RESOURCE_ID_SENTINEL) (String.rev (x +:+ RESOURCE_ID_SENTINEL)) = Some (String.rev x).
Proof. rewrite str_rev_app. apply strip_prefix_app. Qed.
Lemma trimmed_prefix fuel :
  (2 <= fuel) ->
  trim_end_matches fuel RESOURCE_ID_SENTINEL (route_base +:+ "/resources/" +:+ RESOURCE_ID_SENTINEL)
  = route_base +:+ "/resources/".
Proof.
  intros Hf. destruct fuel as [|[|fuel]]; [lia..|]. rewrite <- str_app_assoc. cbn [trim_end_matches].
  rewrite strip_sentinel, str_rev_involutive.
  assert (strip_prefix (String.rev RESOURCE_ID_SENTINEL) (String.rev (route_base +:+ "/resources/")) = None) as ->
    by (rewrite str_rev_app; reflexivity). apply str_rev_involutive.
Qed.

(** a line of the output as a client reads it: nothing but known tags, routes of the session and blanks *)
Definition client_uri (uri : string) : Prop :=
  exists id, HlsResourceId_parse id = Some id /\ uri = resource_route route_base id /\ (slen uri <= max_uri_bytes c)%Z.
Definition client_line (l : option HlsLine) : Prop :=
  match l with
  | Some (LineTag tag) => forall uri, tag_uri tag = Some uri -> client_uri uri
  | Some (LineUri uri) => client_uri uri
  | Some LineBlank => True
  | _ => False
  end.

Lemma verified_uri uri : verify_route_uri c uri (route_base +:+ "/resources/") = Ok () -> client_uri uri.
Proof.
  unfold verify_route_uri. intros Hv. apply result_bind_ok in Hv as (id & Hid & Hv).
  apply ok_or_ok in Hid. destruct (strip_prefix _ uri) as [r|]; [cbn in Hid|done].
  apply reject_if_ok in Hv. bool_hyps. exists id.
  match goal with H : String.eqb _ _ = true |- _ => apply String.eqb_eq in H as -> end.
  unfold resource_route. rewrite str_app_assoc. split_and!; [|done|by rewrite <- str_app_assoc].
  by rewrite (parsed_id _ _ Hid) in Hid |- *.
Qed.
Lemma verified_lines lines :
  verify_lines c (route_base +:+ "/resources/") lines = Ok () -> Forall client_line lines.
Proof.
  induction lines as [|l lines IH]; [done|]. cbn. intros Hv. apply result_bind_ok in Hv as ([] & Hl & Hv).
  constructor; [|by apply IH]. destruct l as [[tag| | |uri| |]|]; try done; cbn in *.
  - intros uri Hu. rewrite Hu in Hl. by apply verified_uri.
  - by apply verified_uri.
Qed.
Lemma verified_output output : verify_output c route_base output = Ok () ->
  utf8_valid output = true /\ Forall client_line (read_lines output) /\ read_lines output <> [].
Proof.
  unfold verify_output. rewrite trimmed_prefix by (rewrite !str_length_app; cbn; lia).
  intros Hv. apply result_bind_ok in Hv as (? & Hu & Hv). apply result_bind_ok in Hv as ([] & Hl & Hv).
  apply reject_if_ok in Hu, Hv. bool_hyps. split_and!; [done|by apply verified_lines|]. by destruct (read_lines output).
Qed.

(** ** The order of the lines *)
(** A playlist is a sequence of lines that stand alone, of media segments (EXTINF, modifiers, the URI) and of
    variants (EXT-X-STREAM-INF, the URI). *)
Definition modifier_line (l : HlsLine) : Prop := exists tag, l = LineTag tag /\ modifies tag = true.
Inductive playlist : list HlsLine -> Prop :=
| playlist_end : playlist []
| playlist_line l rest : standalone l = true -> playlist rest -> playlist (l :: rest)
| playlist_segment duration text modifiers uri rest :
    Forall modifier_line modifiers -> playlist rest ->
    playlist (LineTag (Inf duration text) :: modifiers ++ LineUri uri :: rest)
| playlist_variant text uri rest : playlist rest -> playlist (LineTag (StreamInf text) :: LineUri uri :: rest).

(** a playlist and the entry whose URI is awaited *)
Definition playlist_prefix (pending : option PendingUri) (lines : list HlsLine) : Prop :=
  match pending with
  | None => playlist lines
  | Some PendingPlaylist => exists before text, playlist before /\ lines = before ++ [LineTag (StreamInf text)]
  | Some PendingMediaSegment => exists before duration text modifiers, playlist before /\ Forall modifier_line modifiers /\
      lines = before ++ LineTag (Inf duration text) :: modifiers
  end.

Lemma playlist_app a b : playlist a -> playlist b -> playlist (a ++ b).
Proof.
  intros Ha Hb. induction Ha as [|l rest Hl _ IH|d t mods uri rest Hm _ IH|t uri rest _ IH]; cbn; [done|by constructor| |by constructor].
  rewrite <- app_assoc. cbn. by constructor.
Qed.
Lemma playlist_snoc lines l : playlist lines -> standalone l = true -> playlist (lines ++ [l]).
Proof. intros Hp Hl. apply playlist_app; [done|]. by repeat constructor. Qed.

Lemma prefix_open lines tag u :
  playlist lines -> opens tag = Some u -> playlist_prefix (Some u) (lines ++ [LineTag tag]).
Proof. intros Hp Ho. destruct tag; try done; injection Ho as <-; cbn; eauto 10. Qed.
Lemma prefix_modify lines tag :
  playlist_prefix (Some PendingMediaSegment) lines -> modifies tag = true ->
  playlist_prefix (Some PendingMediaSegment) (lines ++ [LineTag tag]).
Proof.
  intros (before & d & t & mods & Hb & Hm & ->) Ht. exists before, d, t, (mods ++ [LineTag tag]).
  split_and!; [done| |by rewrite <- app_assoc]. apply Forall_app. split; [done|]. repeat constructor. by exists tag.
Qed.
Lemma prefix_close lines u uri : playlist_prefix (Some u) lines -> playlist (lines ++ [LineUri uri]).
Proof.
  destruct u; cbn.
  - intros (before & t & Hb & ->). rewrite <- app_assoc. apply playlist_app; [done|]. by repeat constructor.
  - intros (before & d & t & mods & Hb & Hm & ->). rewrite <- app_assoc. apply playlist_app; [done|]. by repeat constructor.
Qed.

(** the header is written by the first line or not at all *)
Definition ordered (p : Progress) : Prop :=
  playlist_prefix (pending_uri (pg_state p)) (pg_lines p) /\ (0 <= line_count (pg_state p))%Z /\
  (line_count (pg_state p) = 0%Z -> pg_lines p = [] /\ pending_uri (pg_state p) = None).

Lemma register_uri_pending raw kind range p route p' :
  register_uri raw kind range p = Ok (route, p') ->
  pending_uri (pg_state p') = pending_uri (pg_state p) /\ pg_lines p' = pg_lines p.
Proof.
  unfold HlsRewrite.register_uri. intros Hr.
  apply result_bind_ok in Hr as (url & _ & Hr). apply result_bind_ok in Hr as ([range' last] & _ & Hr).
  apply result_bind_ok in Hr as ([[id m] drawn] & _ & Hr). by ok_inv.
Qed.
Lemma write_frame l p p' : write_line l p = Ok p' -> pg_state p' = pg_state p /\ pg_lines p' = pg_lines p ++ [l].
Proof. unfold write_line. intros Hw. by ok_inv. Qed.

Lemma line_prefix l p p' :
  rewrite_line rng c parent_url route_base l p = Ok p' -> ordered p ->
  playlist_prefix (pending_uri (pg_state p')) (pg_lines p').
Proof.
  intros Hl (Hp & _ & Hfirst). apply (rewrite_line_effect rng c parent_url route_base ("", 0%Z)) in Hl. destruct Hl as
    [Hc _|q l' Hc Hi _ Hs Hw|u tag q Hc Hi -> Ho Hw|range tag q Hc Hpend -> Ht _ Hw
    |raw kind range route q r l' Hc Hi _ _ Hreg _ Hs Hw|raw u route q r Hc -> Hu Hreg Hw];
    try apply write_frame in Hw as [Hws Hwl]; try apply register_uri_pending in Hreg as [Hrp Hrl].
  - by rewrite (calm_lines _ _ Hc), (calm_pending _ _ Hc).
  - assert (pending_uri (pg_state p) = None) as Hnone by (destruct Hi as [?|(? & _ & ?)]; naive_solver).
    rewrite Hws, Hwl, (calm_lines _ _ Hc), (calm_pending _ _ Hc), Hnone in *. by apply playlist_snoc.
  - rewrite Hws, Hwl. cbn. rewrite Hi in Hp. rewrite (calm_lines _ _ Hc). by apply prefix_open.
  - rewrite Hws, Hwl. cbn. rewrite (calm_lines _ _ Hc), (calm_pending _ _ Hc), Hpend in *. by apply prefix_modify.
  - rewrite Hws, Hwl, Hrp, Hrl, (calm_lines _ _ Hc), (calm_pending _ _ Hc). rewrite Hi in *. by apply playlist_snoc.
  - rewrite Hws, Hwl, Hrp, Hrl. cbn. rewrite (calm_lines _ _ Hc). rewrite Hu in Hp. by eapply prefix_close.
Qed.

(** ** Tags that may appear once *)
Definition tag_flag (tag : Tag) : option Singleton :=
  match tag with
  | M3u _ => Some SHeader | Version _ _ => Some SVersion | IndependentSegments _ => Some SIndependentSegments
  | Start _ _ => Some SStart | Targetduration _ _ => Some STargetDuration | MediaSequence _ _ => Some SMediaSequence
  | DiscontinuitySequence _ => Some SDiscontinuitySequence | Endlist _ => Some SEndList
  | PlaylistType _ => Some SPlaylistType | IFramesOnly _ => Some SIFramesOnly | PartInf _ _ => Some SPartInf
  | ServerControl _ _ _ _ => Some SServerControl | _ => None
  end.
Definition line_flag (l : HlsLine) : option Singleton := match l with LineTag tag => tag_flag tag | _ => None end.

(** the marks of a state: the flags and the line number *)
Definition marks (p : Progress) : list Singleton * Z := (seen (pg_state p), line_count (pg_state p)).

Lemma mark_media_marks p q : mark_media p = Ok q -> marks q = marks p.
Proof. unfold mark_media. case_match; [done|]. by intros [= <-]. Qed.
Lemma mark_master_marks p q : mark_master p = Ok q -> marks q = marks p.
Proof. unfold mark_master. case_match; [done|]. by intros [= <-]. Qed.
Lemma mark_singleton_marks f p q :
  mark_singleton f p = Ok q -> marks q = (f :: seen (pg_state p), line_count (pg_state p)) /\ ~ f ∈ seen (pg_state p).
Proof. unfold mark_singleton. case_bool_decide; [done|]. by intros [= <-]. Qed.
Lemma media_tag_marks p q : media_tag p = Ok q -> marks q = marks p.
Proof. unfold media_tag. intros Hm. ok_inv. by eapply mark_media_marks. Qed.
Lemma master_tag_marks p q : master_tag p = Ok q -> marks q = marks p.
Proof. unfold master_tag. intros Hm. ok_inv. by eapply mark_master_marks. Qed.
Lemma write_marks l p p' : write_line l p = Ok p' -> marks p' = marks p.
Proof. intros [Hs _]%write_frame. unfold marks. by rewrite Hs. Qed.
Lemma register_uri_marks raw kind range p route p' : register_uri raw kind range p = Ok (route, p') -> marks p' = marks p.
Proof.
  unfold HlsRewrite.register_uri. intros Hr.
  apply result_bind_ok in Hr as (url & _ & Hr). apply result_bind_ok in Hr as ([range' last] & _ & Hr).
  apply result_bind_ok in Hr as ([[id m] drawn] & _ & Hr). by ok_inv.
Qed.

Ltac marks_facts :=
  repeat match goal with
  | H : mark_media _ = Ok _ |- _ => apply mark_media_marks in H
  | H : mark_master _ = Ok _ |- _ => apply mark_master_marks in H
  | H : mark_singleton _ _ = Ok _ |- _ => apply mark_singleton_marks in H as [? ?]
  | H : media_tag _ = Ok _ |- _ => apply media_tag_marks in H
  | H : master_tag _ = Ok _ |- _ => apply master_tag_marks in H
  | H : write_line _ _ = Ok _ |- _ => apply write_marks in H
  | H : HlsRewrite.register_uri _ _ _ _ _ _ _ _ = Ok (_, _) |- _ => apply register_uri_marks in H
  end.

Lemma rewrite_tag_marks tag p p' :
  rewrite_tag rng c parent_url route_base tag p = Ok p' ->
  ~ SEndList ∈ seen (pg_state p) /\ (forall f, tag_flag tag = Some f -> ~ f ∈ seen (pg_state p)) /\
  marks p' = (option_list (tag_flag tag) ++ seen (pg_state p), line_count (pg_state p)).
Proof.
  intros Hr. unfold rewrite_tag in Hr. apply result_bind_ok in Hr as (? & Hend & Hr). apply reject_if_ok in Hend.
  apply bool_decide_eq_false in Hend. split; [done|].
  destruct tag; cbn [existsb tag_flag option_list] in *; try discriminate Hr; unfold media_singleton in *;
    ok_inv; try (match goal with x : string * Progress |- _ => destruct x; ok_inv end); marks_facts.
  all: try (split; [done|]; unfold marks in *; cbn in *; congruence).
  all: try (split; [intros ? [= <-]; unfold marks in *; cbn in *; congruence|]; unfold marks in *; cbn in *; congruence).
  - split; [done|]. change (marks p' = marks p). destruct (key_method _) as [[]|]; try done; ok_inv;
      try (match goal with x : (string * Progress)%type |- _ => destruct x; ok_inv end); marks_facts; congruence.
  - split; [done|]. change (marks p' = marks p). match goal with x : MediaType |- _ => destruct x end;
      destruct uri; try done; ok_inv;
      try (match goal with x : (string * Progress)%type |- _ => destruct x; ok_inv end); marks_facts; congruence.
Qed.

(** One line: the line number, the flags, and what is left to write after the end of the list. *)
Lemma rewrite_line_marks l p p' :
  rewrite_line rng c parent_url route_base l p = Ok p' ->
  line_count (pg_state p') = (line_count (pg_state p) + 1)%Z /\
  (NoDup (seen (pg_state p)) -> NoDup (seen (pg_state p'))) /\
  (seen (pg_state p') = option_list (line_flag l) ++ seen (pg_state p)
   \/ line_flag l = None /\ seen (pg_state p') = SAllowCache :: seen (pg_state p)) /\
  (SEndList ∈ seen (pg_state p) -> match l with LineTag _ | LineUri _ => False | _ => True end).
Proof.
  unfold rewrite_line. set (p0 := with_state p _).
  assert (marks p0 = (seen (pg_state p), line_count (pg_state p) + 1)%Z) as H0' by done.
  assert (forall flags n, marks p' = (flags, n) -> seen (pg_state p') = flags /\ line_count (pg_state p') = n) as Hget.
  { intros flags n. unfold marks. by intros [= -> ->]. }
  destruct l as [tag|text|bytes error|uri|text|]; intros Hr; try discriminate Hr.
  - apply rewrite_tag_marks in Hr as (Hend & Hf & Hm). apply Hget in Hm as [-> ->]. split_and!; [done| |by left|done].
    intros Hnd. cbn [line_flag]. destruct (tag_flag tag) as [f|]; [|done]. constructor; [by apply Hf|done].
  - destruct (is_legacy_allow_cache bytes error) eqn:He; [|done]. ok_inv. marks_facts.
    match goal with H : marks p' = _, H' : marks _ = marks p0, H2 : ~ _ ∈ _ |- _ =>
      apply Hget in H as [-> ->]; rewrite H0' in H'; injection H' as Hse Hlc; rewrite Hse, Hlc; rename H2 into Hnew; rewrite Hse in Hnew end.
    split_and!; [done| |by right|done]. intros Hnd. constructor; [done|done].
  - unfold rewrite_uri_line in Hr. apply result_bind_ok in Hr as (? & Hend & Hr).
    apply reject_if_ok, bool_decide_eq_false in Hend. ok_inv.
    match goal with u : PendingUri |- _ => destruct u end; ok_inv;
      match goal with x : (string * Progress)%type |- _ => destruct x; ok_inv end; marks_facts;
      match goal with H : marks p' = _, H' : marks _ = _ |- _ => rewrite H' in H; apply Hget in H as [-> ->] end; by split_and!; [..|left|].
  - destruct (is_some_b _); [done|]. injection Hr as <-. by split_and!; [..|left|].
  - destruct (is_some_b _); [done|]. marks_facts. rewrite H0' in Hr. apply Hget in Hr as [-> ->]. by split_and!; [..|left|].
Qed.

(** ** The whole list of lines *)
Lemma emits_shape now m skipped l out :
  emits parent_url route_base now skipped m l out ->
  out = [] \/ exists l', out = [l'] /\ line_flag l' = line_flag l /\
    (l' = LineBlank \/ match l with LineTag _ | LineUri _ => True | _ => False end).
Proof. intros []; cbn; eauto 10. Qed.

Lemma header_is_first text p p' :
  rewrite_line rng c parent_url route_base (LineTag (M3u text)) p = Ok p' -> line_count (pg_state p) = 0%Z.
Proof.
  unfold rewrite_line, rewrite_tag. intros Hr. ok_inv. marks_facts. unfold marks in *. bool_hyps. cbn in *.
  repeat match goal with H : (_, _) = (_, _) |- _ => injection H as ? ? end. lia.
Qed.

(** at the end of the list only blank lines are left to write *)
Definition ends_well (lines : list HlsLine) : Prop :=
  forall before text after, lines = before ++ LineTag (Endlist text) :: after -> Forall (eq LineBlank) after.

Record tidy (p : Progress) : Prop := {
  tidy_ordered : ordered p;
  tidy_nodup : NoDup (seen (pg_state p));
  tidy_flags : omap line_flag (pg_lines p) ⊆+ seen (pg_state p);
  tidy_header : SHeader ∈ seen (pg_state p) -> exists text rest, pg_lines p = LineTag (M3u text) :: rest;
  tidy_end : ends_well (pg_lines p);
}.

Lemma flag_seen p text before after :
  tidy p -> pg_lines p = before ++ LineTag (Endlist text) :: after -> SEndList ∈ seen (pg_state p).
Proof.
  intros Ht Hl. eapply elem_of_submseteq; [|apply (tidy_flags _ Ht)]. rewrite Hl. apply list_elem_of_omap.
  exists (LineTag (Endlist text)). split; [set_solver|done].
Qed.

Lemma ends_well_snoc p l :
  tidy p -> (SEndList ∈ seen (pg_state p) -> l = LineBlank) -> ends_well (pg_lines p ++ [l]).
Proof.
  intros Ht Hl before text after. destruct after as [|x after _] using rev_ind; [by constructor|].
  rewrite app_comm_cons, app_assoc. intros [Heq ->]%app_inj_tail. apply Forall_app. split.
  - by eapply (tidy_end _ Ht).
  - constructor; [|done]. symmetry. apply Hl. by eapply flag_seen.
Qed.

Lemma submseteq_nodup {A} (l k : list A) : l ⊆+ k -> NoDup k -> NoDup l.
Proof. intros (r & ->)%submseteq_Permutation. by intros (? & _)%NoDup_app. Qed.

Lemma line_tidy m0 scope revision l p p' :
  staged m0 scope revision p -> tidy p -> rewrite_line rng c parent_url route_base l p = Ok p' -> tidy p'.
Proof.
  intros Hst Ht Hl. destruct (rewrite_line_marks _ _ _ Hl) as (Hcount & Hnd & Hseen & Hend).
  destruct (line_staged _ _ _ _ _ _ Hl Hst) as (_ & _ & out & Hout & Hem). apply emits_shape in Hem.
  pose proof (tidy_ordered _ Ht) as (_ & Hpos & Hfirst). split.
  - split_and!; [eapply line_prefix; [done|apply Ht]|lia|lia].
  - apply Hnd, Ht.
  - rewrite Hout, omap_app. destruct Hem as [->|(l' & -> & Hf & _)]; cbn [omap list_omap]; rewrite ?app_nil_r.
    + etrans; [apply (tidy_flags _ Ht)|]. destruct Hseen as [->|[_ ->]]; [by apply submseteq_inserts_l|by apply submseteq_cons].
    + rewrite Hf. destruct Hseen as [->|[-> ->]]; [destruct (line_flag l); cbn|rewrite app_nil_r; by apply submseteq_cons, Ht].
      * rewrite Permutation_app_comm. cbn. apply submseteq_skip, Ht.
      * rewrite app_nil_r. apply Ht.
  - intros Hh. assert (SHeader ∈ seen (pg_state p) \/ line_flag l = Some SHeader) as [Hp|Hp].
    { destruct Hseen as [Heq|[_ Heq]]; rewrite Heq in Hh; [|set_solver].
      destruct (line_flag l) as [f|]; cbn in Hh; [|by left]. set_solver. }
    + destruct (tidy_header _ Ht Hp) as (t & rest & ->) in Hout. rewrite Hout. by exists t, (rest ++ out).
    + destruct l as [[]| | | | |]; try done. apply header_is_first in Hl as H0'.
      destruct (Hfirst H0') as [Hnil _]. rewrite Hout, Hnil. cbn.
      destruct (line_staged _ _ _ _ _ _ Hl Hst) as (_ & _ & out' & Hout' & Hem'). rewrite Hout in Hout'.
      apply app_inv_head in Hout' as ->. inversion Hem'; subst; [eauto|done].
  - rewrite Hout. destruct Hem as [->|(l' & -> & _ & Hl')]; [rewrite app_nil_r; apply Ht|]. apply ends_well_snoc; [done|].
    intros He. specialize (Hend He). destruct Hl' as [?|Hl']; [done|]. by destruct l.
Qed.

Lemma lines_tidy m0 scope revision lines p p' :
  staged m0 scope revision p -> tidy p -> rewrite_lines rng c parent_url route_base lines p = Ok p' -> tidy p'.
Proof.
  revert p. induction lines as [|[l|] lines IH]; intros p Hst Ht Hr; [|apply result_bind_ok in Hr as (q & Hq & Hr)|done].
  - cbn in Hr. by ok_inv.
  - eapply (IH q); [|by eapply line_tidy|done]. by eapply line_staged.
Qed.

Lemma start_tidy m drawn skipped : tidy (start_progress m drawn skipped).
Proof.
  split.
  - split_and!; [constructor|cbn; lia|done].
  - constructor.
  - done.
  - by intros ?%elem_of_nil.
  - intros [|? ?] ? ? [=].
Qed.

(** ** Kinds of playlists and durations *)
Definition for_master (tag : Tag) : bool :=
  match tag with Media _ _ _ | StreamInf _ | IFrameStreamInf _ _ | SessionKey _ _ => true | _ => false end.
Definition for_either (tag : Tag) : bool :=
  match tag with M3u _ | Version _ _ | IndependentSegments _ | Start _ _ => true | _ => false end.
Definition for_media (tag : Tag) : bool := negb (for_master tag) && negb (for_either tag).
Definition line_tag (l : HlsLine) : option Tag := match l with LineTag tag => Some tag | _ => None end.

Definition tallies (p : Progress) : option Z * list f64 * bool * bool :=
  let s := pg_state p in (st_target_duration s, segment_durations s, saw_master s, saw_media s).
(** what a tag adds *)
Definition tally (tag : Tag) (t : option Z * list f64 * bool * bool) : option Z * list f64 * bool * bool :=
  let '(target, durations, master, media) := t in
  (match tag with Targetduration t _ => Some t | _ => target end,
   match tag with Inf d _ => durations ++ [d] | _ => durations end,
   master || for_master tag, media || for_media tag).

Lemma mark_media_tallies p q :
  mark_media p = Ok q -> saw_master (pg_state p) = false /\
  tallies q = (st_target_duration (pg_state p), segment_durations (pg_state p), saw_master (pg_state p), true).
Proof. unfold mark_media. case_match; [done|]. by intros [= <-]. Qed.
Lemma mark_master_tallies p q :
  mark_master p = Ok q -> saw_media (pg_state p) = false /\
  tallies q = (st_target_duration (pg_state p), segment_durations (pg_state p), true, saw_media (pg_state p)).
Proof. unfold mark_master. case_match; [done|]. by intros [= <-]. Qed.
Lemma mark_singleton_tallies f p q : mark_singleton f p = Ok q -> tallies q = tallies p.
Proof. unfold mark_singleton. case_match; [done|]. by intros [= <-]. Qed.
Lemma write_tallies l p p' : write_line l p = Ok p' -> tallies p' = tallies p.
Proof. intros [Hs _]%write_frame. unfold tallies. by rewrite Hs. Qed.
Lemma register_uri_tallies raw kind range p route p' : register_uri raw kind range p = Ok (route, p') -> tallies p' = tallies p.
Proof.
  unfold HlsRewrite.register_uri. intros Hr.
  apply result_bind_ok in Hr as (url & _ & Hr). apply result_bind_ok in Hr as ([range' last] & _ & Hr).
  apply result_bind_ok in Hr as ([[id m] drawn] & _ & Hr). by ok_inv.
Qed.

Ltac tallies_facts :=
  repeat match goal with
  | H : mark_media _ = Ok _ |- _ => apply mark_media_tallies in H as [? ?]
  | H : mark_master _ = Ok _ |- _ => apply mark_master_tallies in H as [? ?]
  | H : mark_singleton _ _ = Ok _ |- _ => apply mark_singleton_tallies in H
  | H : write_line _ _ = Ok _ |- _ => apply write_tallies in H
  | H : HlsRewrite.register_uri _ _ _ _ _ _ _ _ = Ok (_, _) |- _ => apply register_uri_tallies in H
  end.

Lemma rewrite_tag_tallies tag p p' :
  rewrite_tag rng c parent_url route_base tag p = Ok p' ->
  tallies p' = tally tag (tallies p) /\
  (for_master tag = true -> saw_media (pg_state p) = false) /\ (for_media tag = true -> saw_master (pg_state p) = false).
Proof.
  intros Hr. unfold rewrite_tag in Hr. apply result_bind_ok in Hr as (_ & _ & Hr).
  destruct tag; cbn [existsb for_media for_master for_either negb andb] in *; try discriminate Hr;
    unfold media_singleton, media_tag, master_tag in *;
    ok_inv; try (match goal with x : (string * Progress)%type |- _ => destruct x; ok_inv end).
  all: try (match type of Hr with context [key_method ?k] => destruct (key_method k) as [[]|]; try done; ok_inv;
    try (match goal with x : (string * Progress)%type |- _ => destruct x; ok_inv end) end).
  all: try (match goal with x : MediaType |- _ => destruct x; destruct uri; try done; ok_inv;
    try (match goal with x : (string * Progress)%type |- _ => destruct x; ok_inv end) end).
  all: tallies_facts; unfold tallies, tally in *; cbn in *; rewrite ?orb_false_r, ?orb_true_r in *.
  all: split_and!; try done; congruence.
Qed.

(** the values of the two tags about durations *)
Definition value_ok (tag : Tag) : Prop :=
  match tag with
  | Inf d _ => is_finite d = true /\ SFleb d (f64_of_Z 0) = false
  | Targetduration t _ => t <> 0%Z /\ (t <= MAX_TARGET_DURATION_SECONDS)%Z
  | _ => True
  end.
Lemma rewrite_tag_value tag p p' : rewrite_tag rng c parent_url route_base tag p = Ok p' -> value_ok tag.
Proof. unfold rewrite_tag. intros Hr. destruct tag; try done; ok_inv; bool_hyps; by split. Qed.

Record tallied (p : Progress) : Prop := {
  tallied_inf d text : LineTag (Inf d text) ∈ pg_lines p ->
    d ∈ segment_durations (pg_state p) /\ value_ok (Inf d text);
  tallied_target t : st_target_duration (pg_state p) = Some t ->
    exists text, LineTag (Targetduration t text) ∈ pg_lines p /\ value_ok (Targetduration t text);
  tallied_master : saw_master (pg_state p) = false -> Forall (fun tag => for_master tag = false) (omap line_tag (pg_lines p));
  tallied_media : saw_media (pg_state p) = false -> Forall (fun tag => for_media tag = false) (omap line_tag (pg_lines p));
  tallied_kind : saw_master (pg_state p) = true -> saw_media (pg_state p) = true -> False;
}.

(** what a written line says is what the line read said, but for URIs and the sequence number *)
Definition same_tag (tag tag' : Tag) : Prop :=
  for_master tag' = for_master tag /\ for_media tag' = for_media tag /\
  match tag with Inf _ _ | Targetduration _ _ => tag' = tag | _ => match tag' with Inf _ _ | Targetduration _ _ => False | _ => True end end.
Lemma emits_tag now m skipped tag out :
  emits parent_url route_base now skipped m (LineTag tag) out ->
  out = [] /\ match tag with Inf _ _ | Targetduration _ _ => False | _ => True end \/
  exists tag', out = [LineTag tag'] /\ same_tag tag tag'.
Proof.
  inversion 1; subst; try (right; eexists; split; [done|]; done).
  - right. eexists. split; [done|]. by destruct tag.
  - left. split; [done|]. by destruct tag.
Qed.
Lemma emits_no_tag now m skipped l out :
  emits parent_url route_base now skipped m l out -> line_tag l = None -> omap line_tag out = [].
Proof. by intros []. Qed.

Lemma rewrite_line_tallies l p p' :
  rewrite_line rng c parent_url route_base l p = Ok p' ->
  match l with
  | LineTag tag => tallies p' = tally tag (tallies p) /\ value_ok tag /\
      (for_master tag = true -> saw_media (pg_state p) = false) /\ (for_media tag = true -> saw_master (pg_state p) = false)
  | LineUnknownTag _ _ => saw_master (pg_state p) = false /\
      tallies p' = (st_target_duration (pg_state p), segment_durations (pg_state p), saw_master (pg_state p), true)
  | _ => tallies p' = tallies p
  end.
Proof.
  unfold rewrite_line. destruct l as [tag|text|bytes error|uri|text|]; intros Hr; try discriminate Hr.
  - pose proof (rewrite_tag_value _ _ _ Hr). by apply rewrite_tag_tallies in Hr as (Ht & Hma & Hme).
  - destruct (is_legacy_allow_cache bytes error) eqn:He; [|done]. ok_inv. tallies_facts. split; [done|]. by etrans.
  - unfold rewrite_uri_line in Hr. apply result_bind_ok in Hr as (? & _ & Hr). ok_inv.
    match goal with u : PendingUri |- _ => destruct u end; ok_inv;
      match goal with x : (string * Progress)%type |- _ => destruct x; ok_inv end; tallies_facts; by etrans.
  - destruct (is_some_b _); [done|]. by injection Hr as <-.
  - destruct (is_some_b _); [done|]. tallies_facts. by etrans.
Qed.

Lemma tag_tallied tag tag' out p p' :
  tallied p -> pg_lines p' = pg_lines p ++ out ->
  out = [] /\ match tag with Inf _ _ | Targetduration _ _ => False | _ => True end \/ (out = [LineTag tag'] /\ same_tag tag tag') ->
  tallies p' = tally tag (tallies p) -> value_ok tag ->
  (for_master tag = true -> saw_media (pg_state p) = false) -> (for_media tag = true -> saw_master (pg_state p) = false) ->
  tallied p'.
Proof.
  intros Ht Hlines Hout Htal Hv Hma Hme. unfold tallies, tally in Htal. injection Htal as Htarget Hdur Hmaster Hmedia.
  assert (forall d text, LineTag (Inf d text) ∈ out -> tag = Inf d text) as Hinf.
  { intros d text Hin. destruct Hout as [[-> _]|[-> (_ & _ & Hs)]]; [set_solver|].
    apply list_elem_of_singleton in Hin as [= <-]. by destruct tag. }
  split; rewrite ?Hlines.
  - intros d text [Hin|Hin]%elem_of_app.
    + apply (tallied_inf _ Ht) in Hin as [Hd Hok]. split; [|done]. rewrite Hdur. destruct tag; set_solver.
    + apply Hinf in Hin as ->. split; [|done]. rewrite Hdur. set_solver.
  - intros t. rewrite Htarget. destruct tag; try (intros (x & Hx & Hok)%(tallied_target _ Ht); exists x; set_solver).
    intros [= <-]. destruct Hout as [[_ []]|[-> (_ & _ & ->)]]. exists rest. split; [set_solver|done].
  - rewrite Hmaster, omap_app. intros [Hp Hf]%orb_false_iff. apply Forall_app. split; [by apply (tallied_master _ Ht)|].
    destruct Hout as [[-> _]|[-> (Hs & _)]]; [constructor|]. repeat constructor. congruence.
  - rewrite Hmedia, omap_app. intros [Hp Hf]%orb_false_iff. apply Forall_app. split; [by apply (tallied_media _ Ht)|].
    destruct Hout as [[-> _]|[-> (_ & Hs & _)]]; [constructor|]. repeat constructor. congruence.
  - rewrite Hmaster, Hmedia. intros [Ha|Ha]%orb_true_iff [Hb|Hb]%orb_true_iff.
    + by eapply (tallied_kind _ Ht).
    + rewrite Hme in Ha by done. done.
    + rewrite Hma in Hb by done. done.
    + destruct tag; done.
Qed.

Lemma other_tallied p p' out :
  tallied p -> pg_lines p' = pg_lines p ++ out -> omap line_tag out = [] ->
  st_target_duration (pg_state p') = st_target_duration (pg_state p) ->
  segment_durations (pg_state p') = segment_durations (pg_state p) ->
  saw_master (pg_state p') = saw_master (pg_state p) ->
  saw_media (pg_state p') = saw_media (pg_state p) \/ saw_media (pg_state p') = true /\ saw_master (pg_state p) = false ->
  tallied p'.
Proof.
  intros Ht Hl Ho Htg Hd Hma Hme.
  assert (forall tag, LineTag tag ∈ pg_lines p' <-> LineTag tag ∈ pg_lines p) as Hin.
  { intros tag. rewrite Hl, elem_of_app. split; [|by left]. intros [?|Hx]; [done|].
    assert (tag ∈ omap line_tag out) as Hx' by (apply list_elem_of_omap; by exists (LineTag tag)). rewrite Ho in Hx'. set_solver. }
  split; rewrite ?Htg, ?Hd, ?Hma.
  - intros d text ?%Hin. by apply (tallied_inf _ Ht).
  - intros t (x & Hx & Hok)%(tallied_target _ Ht). exists x. by rewrite Hin.
  - intros Hf. rewrite Hl, omap_app, Ho, app_nil_r. by apply (tallied_master _ Ht).
  - intros Hf. rewrite Hl, omap_app, Ho, app_nil_r. apply (tallied_media _ Ht). destruct Hme as [?|[? _]]; congruence.
  - intros Ha Hb. destruct Hme as [He|[_ He]]; [|congruence]. rewrite He in Hb. by eapply (tallied_kind _ Ht).
Qed.

Lemma line_tallied m0 scope revision l p p' :
  staged m0 scope revision p -> tallied p -> rewrite_line rng c parent_url route_base l p = Ok p' -> tallied p'.
Proof.
  intros Hst Ht Hl. pose proof (rewrite_line_tallies _ _ _ Hl) as Htal.
  destruct (line_staged _ _ _ _ _ _ Hl Hst) as (_ & _ & out & Hout & Hem).
  destruct l as [tag|text|bytes error|uri|text|].
  - destruct Htal as (Htal & Hv & Hma & Hme). apply emits_tag in Hem as [?|(tag' & ? & ?)].
    + eapply (tag_tallied tag tag); eauto.
    + eapply (tag_tallied tag tag'); eauto.
  - apply emits_no_tag in Hem; [|done]. unfold tallies in Htal. injection Htal as ????. eapply other_tallied; eauto.
  - apply emits_no_tag in Hem; [|done]. destruct Htal as [Hma Htal]. unfold tallies in Htal. injection Htal as ????.
    eapply other_tallied; eauto.
  - apply emits_no_tag in Hem; [|done]. unfold tallies in Htal. injection Htal as ????. eapply other_tallied; eauto.
  - apply emits_no_tag in Hem; [|done]. unfold tallies in Htal. injection Htal as ????. eapply other_tallied; eauto.
  - apply emits_no_tag in Hem; [|done]. unfold tallies in Htal. injection Htal as ????. eapply other_tallied; eauto.
Qed.

Lemma lines_tallied m0 scope revision lines p p' :
  staged m0 scope revision p -> tallied p -> rewrite_lines rng c parent_url route_base lines p = Ok p' -> tallied p'.
Proof.
  revert p. induction lines as [|[l|] lines IH]; intros p Hst Ht Hr; [|apply result_bind_ok in Hr as (q & Hq & Hr)|done].
  - cbn in Hr. by ok_inv.
  - eapply (IH q); [|by eapply line_tallied|done]. by eapply line_staged.
Qed.
Lemma start_tallied m drawn skipped : tallied (start_progress m drawn skipped).
Proof. split; cbn; try done. by intros d text ?%elem_of_nil. Qed.

(** ** The properties of a rewrite *)

(** C39: A rewrite is faithful: the lines written are the lines read, one for one and in order, with comments and
    low-latency hints left out and every URI replaced by the route of a resource; the resource resolves in the
    new map to the URL the provider's URI names, and that URL is one the relay may fetch (http or https, a host,
    no credentials, no fragment, no encoded control character, a bounded byte range) and that the caller's
    validator accepted.  The new map is consistent and under the same fence. *)
Theorem playlist_names_fetchable_resources resources drawn fence scope body validator res m' drawn' :
  map_ok resources -> map_safe c resources ->
  rewrite_scoped_with_validator rng c parent_url route_base resources drawn fence scope body validator = Ok (res, m', drawn') ->
  map_ok m' /\ map_safe c m' /\ hm_fence m' = fence /\
  exists revision skipped inputs outs,
    read_lines body = Some <$> inputs /\
    Forall2 (emits parent_url route_base (scope, revision) skipped m') inputs outs /\
    render_lines (concat outs) = Some (rr_body res) /\
    (forall id e, entries m' !! id = Some e -> seen_in (scope, revision) e ->
       validator (re_descriptor e) = Ok () /\ resolve m' id fence = Ok (re_descriptor e)).
Proof.
  intros Hm Hs Hr. destruct (rewrite_inv _ _ _ _ _ _ _ _ _ Hm Hs Hr) as
    (m0 & revision & skipped & p & Hst & Hfence & Hskip & Hp & Hst0 & _ & -> & _ & _ & _ & Hv & Hf).
  destruct (finish_staged _ _ _ _ _ Hst Hf) as (Hok & Hsafe & Hfe & _ & Hent & Hext).
  destruct (lines_staged _ _ _ _ _ _ Hp Hst0) as (_ & _ & inputs & outs & Hin & Hout & Hem).
  split_and!; [done|done|congruence|]. exists revision, skipped, inputs, outs. split_and!.
  - done.
  - eapply Forall2_impl; [exact Hem|]. intros l out. by apply emits_extends.
  - apply lines_rendered in Hp; [|done]. unfold rendered in Hp. by rewrite Hout in Hp.
  - intros id e He Hse. split.
    + rewrite Hent in He. by eapply validate_active_ok; [done|apply Hst|..].
    + unfold resolve, require_fence. rewrite Hfe, Hfence, Z.eqb_refl. cbn. by rewrite He.
Qed.

(** A rewritten playlist has the shape HLS asks for: it starts with the EXTM3U header, every EXTINF or
    EXT-X-STREAM-INF is followed by its URI, with only EXT-X-BYTERANGE, EXT-X-GAP and EXT-X-BITRATE of a segment
    in between, no URI stands alone, the tags that may appear once do, and only blank lines follow
    EXT-X-ENDLIST. *)
Theorem rewritten_playlist_well_formed resources drawn fence scope body validator res m' drawn' :
  map_ok resources -> map_safe c resources ->
  rewrite_scoped_with_validator rng c parent_url route_base resources drawn fence scope body validator = Ok (res, m', drawn') ->
  exists lines, render_lines lines = Some (rr_body res) /\ playlist lines /\
    (exists text rest, lines = LineTag (M3u text) :: rest) /\ NoDup (omap line_flag lines) /\ ends_well lines.
Proof.
  intros Hm Hs Hr. destruct (rewrite_inv _ _ _ _ _ _ _ _ _ Hm Hs Hr) as
    (m0 & revision & skipped & p & Hst & _ & _ & Hp & Hst0 & Hk & -> & _).
  pose proof (lines_tidy _ _ _ _ _ _ Hst0 (start_tidy _ _ _) Hp) as Ht. exists (pg_lines p).
  unfold state_finish in Hk. ok_inv. bool_hyps. split_and!.
  - by apply lines_rendered in Hp.
  - pose proof (tidy_ordered _ Ht) as [Hpre _]. by destruct (pending_uri (pg_state p)).
  - by apply (tidy_header _ Ht).
  - eapply submseteq_nodup; [apply (tidy_flags _ Ht)|apply Ht].
  - apply Ht.
Qed.

(** What was written is read back before it is sent: it is UTF-8, and a client reads in it only known tags, blank
    lines and URIs that are routes under the session's base, each with a well-formed resource identifier and no
    longer than the limit; comments, unknown tags and upstream URLs do not get through, whatever the reader and
    the writer of the playlist do. *)
Theorem rewritten_playlist_reads_back resources drawn fence scope body validator res m' drawn' :
  map_ok resources -> map_safe c resources ->
  rewrite_scoped_with_validator rng c parent_url route_base resources drawn fence scope body validator = Ok (res, m', drawn') ->
  utf8_valid (rr_body res) = true /\ read_lines (rr_body res) <> [] /\ Forall client_line (read_lines (rr_body res)).
Proof.
  intros Hm Hs Hr. destruct (rewrite_inv _ _ _ _ _ _ _ _ _ Hm Hs Hr) as
    (m0 & revision & skipped & p & _ & _ & _ & _ & _ & _ & -> & _ & _ & Hv & _).
  by apply verified_output in Hv as (Hu & Hl & Hne).
Qed.

(** A playlist is of one kind.  A master playlist has no tag of a media playlist; a media playlist has no tag of a
    master playlist, declares the target duration that is reported, between 1 and 86400 seconds, and each of its
    segments has a positive finite duration that rounds to at most the target (RFC 8216, section 4.3.3.1). *)
Theorem rewritten_playlist_kind resources drawn fence scope body validator res m' drawn' :
  map_ok resources -> map_safe c resources ->
  rewrite_scoped_with_validator rng c parent_url route_base resources drawn fence scope body validator = Ok (res, m', drawn') ->
  exists lines, render_lines lines = Some (rr_body res) /\
    match rr_kind res with
    | Master => Forall (fun tag => for_media tag = false) (omap line_tag lines)
    | MediaManifest =>
        Forall (fun tag => for_master tag = false) (omap line_tag lines) /\
        exists target text, rr_target_duration_seconds res = Some target /\
          LineTag (Targetduration target text) ∈ lines /\ target <> 0%Z /\ (target <= 86400)%Z /\
          forall d text, LineTag (Inf d text) ∈ lines ->
            is_finite d = true /\ SFleb d (f64_of_Z 0) = false /\ SFltb (f64_of_Z target) (f64_round d) = false
    end.
Proof.
  intros Hm Hs Hr. destruct (rewrite_inv _ _ _ _ _ _ _ _ _ Hm Hs Hr) as
    (m0 & revision & skipped & p & Hst & _ & _ & Hp & Hst0 & Hk & -> & -> & _).
  pose proof (lines_tallied _ _ _ _ _ _ Hst0 (start_tallied _ _ _) Hp) as Ht. exists (pg_lines p).
  split; [by apply lines_rendered in Hp|]. unfold state_finish in Hk.
  apply result_bind_ok in Hk as (_ & _ & Hk). apply result_bind_ok in Hk as (_ & _ & Hk).
  apply result_bind_ok in Hk as (_ & _ & Hk). apply result_bind_ok in Hk as (? & Hone & Hk). apply reject_if_ok in Hone.
  destruct (saw_media (pg_state p)) eqn:Hmedia.
  - apply result_bind_ok in Hk as (target & Htarget & Hk). apply ok_or_ok in Htarget.
    apply result_bind_ok in Hk as (? & Hdur & Hk). apply reject_if_ok in Hdur. injection Hk as <-.
    split; [apply (tallied_master _ Ht); by destruct (saw_master _)|].
    destruct (tallied_target _ Ht _ Htarget) as (text & Hin & Hne & Hle). exists target, text. split_and!; try done.
    intros d t Hd. apply (tallied_inf _ Ht) in Hd as (Hd & Hfin & Hpos). split_and!; try done.
    apply not_true_is_false. intros Hlt. apply not_true_iff_false in Hdur. apply Hdur, existsb_exists. exists d.
    by rewrite <- list_elem_of_In.
  - injection Hk as <-. by apply (tallied_media _ Ht).
Qed.
End Safety.

(** ** The properties of the resource map *)
Section Resources.
Context `{CL : CryptoLaws} (rng : nat -> string).
Context (Hrng : forall k, slen (rng k) = RESOURCE_ID_BYTES).

(** Whatever operations a session makes on its map, failed ones included, the map stays consistent: the reverse
    map is exactly the inverse of the entries, no two resources share a URL, kind and range, entries and
    manifests stay within the limit, every identifier is well formed, and every entry is held by a revision of a
    manifest the map still knows. *)
Theorem resource_map_stays_consistent session fence limits m drawn ops :
  HlsResourceMap_new session fence limits = Ok m -> map_ok (apply_ops rng ops (m, drawn)).1.
Proof. intros Hm. apply apply_ops_ok; [done|]. by eapply new_map_ok. Qed.

(** The identifier of a registered resource resolves to its URL, kind and range; it was the resource's identifier
    if it had one and is new otherwise; every other identifier keeps resolving to what it did; and no other
    identifier resolves to the same resource. *)
Theorem registered_resource_resolves m drawn url kind range id m' drawn' :
  map_ok m -> register rng m drawn url kind range = Ok (id, m', drawn') ->
  (exists d, resolve m' id (hm_fence m') = Ok d /\
     resource_key (rd_url d) (rd_kind d) (rd_byte_range d) = resource_key url kind range) /\
  (forall old, reverse m !! resource_key url kind range = Some old -> id = old) /\
  (reverse m !! resource_key url kind range = None -> entries m !! id = None) /\
  (forall other fence, other <> id -> resolve m' other fence = resolve m other fence) /\
  (forall other e, entries m' !! other = Some e -> entry_key e = resource_key url kind range -> other = id).
Proof.
  intros Hm Hr. assert (map_ok m') as Hm' by by eapply register_ok.
  destruct (register_spec _ _ _ _ _ _ _ _ _ Hm Hr) as (scope & revision & e & _ & -> & Hk & _ & Hcase).
  assert (entries (set_entries m (<[id:=e]> (entries m)) (<[resource_key url kind range:=id]> (reverse m))) !! id = Some e)
    as He by apply lookup_insert_eq.
  split_and!.
  - exists (re_descriptor e). split; [|done]. unfold resolve, require_fence. rewrite Z.eqb_refl. cbn.
    by rewrite lookup_insert_eq.
  - intros old Ho. apply (ok_reverse _ Hm) in Ho as (eo & Heo & Hko).
    destruct Hcase as [(x & Hx & Hd & _)|(_ & Hn & _)].
    + eapply key_unique; [exact Hm|exact Hx|exact Heo|]. rewrite Hko, <- Hk. unfold entry_key. by rewrite Hd.
    + exfalso. assert (reverse m !! resource_key url kind range = Some old) by (apply (ok_reverse _ Hm); eauto). congruence.
  - intros Hn. destruct Hcase as [(x & Hx & Hd & _)|(Hf & _)]; [|done].
    assert (reverse m !! resource_key url kind range = Some id); [|congruence].
    apply (ok_reverse _ Hm). exists x. split; [done|]. rewrite <- Hk. unfold entry_key. by rewrite Hd.
  - intros other fence Hne. unfold resolve, require_fence. cbn. by rewrite lookup_insert_ne.
  - intros other e' He' Hk'. eapply key_unique; [exact Hm'|exact He'|exact He|]. congruence.
Qed.

(** A resource stays resolvable for the grace of revisions: whatever is done to the map afterwards short of a
    takeover, the identifier a playlist was given keeps resolving to the same resource until its manifest has
    been revised more than [retired_revision_grace] times without it. *)
Theorem resource_outlives_grace m drawn ops id e scope :
  map_ok m -> entries m !! id = Some e ->
  (exists revision, scope_revisions m !! scope = Some revision /\ seen_in (scope, revision) e) ->
  forallb (fun op => negb (is_take_over op)) ops = true ->
  (Z.of_nat (begin_count scope ops) <= retired_revision_grace (hm_limits m))%Z ->
  resolve (apply_ops rng ops (m, drawn)).1 id (hm_fence m) = Ok (re_descriptor e).
Proof.
  intros Hm He (revision & Hrev & Hs) Hops Hgrace.
  destruct (apply_ops_seen rng ops (m, drawn) id (re_descriptor e) scope 0) as [Hseen Hf]; try done.
  - exists e, revision. split_and!; [done..|]. intros r Hr. assert (r = revision) as -> by (cbn in Hr; congruence). lia.
  - destruct Hseen as (e' & seen & He' & Hd & _). unfold resolve, require_fence.
    rewrite Hf. cbn [fst]. rewrite Z.eqb_refl. cbn. by rewrite He', <- Hd.
Qed.

(** A revision retires what its manifest has not named for the grace, exactly: an entry is kept when another
    manifest saw it or this one saw it recently enough, with its descriptor, and is gone otherwise. *)
Theorem revision_retires_exactly m scope fence m' id :
  map_ok m -> begin_revision m scope fence = Ok m' ->
  exists revision, scope_revisions m' !! scope = Some revision /\
    revision = (default 0 (scope_revisions m !! scope) + 1)%Z /\ (revision <= u64_max)%Z /\
    (is_Some (entries m' !! id) <->
     exists e s seen, entries m !! id = Some e /\ last_seen_by_scope e !! s = Some seen /\
       (s <> scope \/ (revision - seen <= retired_revision_grace (hm_limits m))%Z)) /\
    (forall e', entries m' !! id = Some e' -> exists e, entries m !! id = Some e /\ re_descriptor e' = re_descriptor e).
Proof.
  intros Hm Hb. unfold begin_revision in Hb. ok_inv. subst.
  match goal with H : u64_checked_add _ _ = Some ?r |- _ => rename r into revision, H into Hr end.
  unfold u64_checked_add in Hr. destruct (_ <=? u64_max)%Z eqn:Hmax; [|done]. apply Z.leb_le in Hmax. injection Hr as Hr.
  exists revision. cbn [scope_revisions entries]. rewrite lookup_insert_eq. split_and!; [done|done|lia| |].
  - split.
    + intros [e' (e & He & _ & Hne & Hs)%retained_lookup]. apply map_choose in Hne as (s & seen & [Hl Hk]%Hs).
      exists e, s, seen. split_and!; [done..|]. unfold u64_saturating_sub in Hk. destruct Hk; [by left|right; lia].
    + intros (e & s & seen & He & Hl & Hk). rewrite lookup_omap, He. cbn. unfold retain_entry.
      rewrite bool_decide_false; [done|]. intros Hemp.
      assert ((∅ : gmap HlsManifestScope Z) !! s = Some seen); [|done]. rewrite <- Hemp.
      apply map_lookup_filter_Some. split; [done|]. cbn. destruct (ok_seen _ Hm _ _ _ _ He Hl) as (? & _ & ?).
      unfold u64_saturating_sub. destruct Hk; [by left|right; lia].
  - intros e' (e & He & Hd & _)%retained_lookup. eauto.
Qed.

(** A takeover takes the session's resources away from the previous owner: under the old fence every identifier
    is refused as stale, under the new one none is known until it is registered again. *)
Theorem takeover_forgets_resources m expected new m' id :
  hls_take_over m expected new = Ok m' ->
  (expected < new)%Z /\ resolve m' id expected = Err StaleControlFence /\ resolve m' id new = Err UnknownResource /\
  hm_fence m' = new.
Proof.
  unfold hls_take_over, require_fence. intros Ht. ok_inv. bool_hyps. subst. cbn. split_and!; [done| | |done].
  - unfold resolve, require_fence. cbn. by replace (hm_fence m =? new)%Z with false by (symmetry; apply Z.eqb_neq; lia).
  - unfold resolve, require_fence. cbn. rewrite Z.eqb_refl. cbn. by rewrite lookup_empty.
Qed.
End Resources.
