(* ===== verification/HlsWitness.v ===== *)
(** * A concrete playlist: instances of the theorems about the HLS relay

    A media playlist of two segments is rewritten under a route of the server; the reader and the writer know
    the three tags it uses. *)
From Stdlib Require Import SpecFloat.
From S2P Require Import Prelude Bytes Planner Crypto HlsResources HlsRewrite HlsSafety.
#[local] Existing Instances Demo.prims Demo.laws.

Definition digits (s : string) : Z :=
  fold_left (fun n c => n * 10 + Z.of_N (byte_of c) - 48)%Z (String.list_ascii_of_string s) 0%Z.
Definition demo_line (text : string) : HlsLine :=
  match strip_prefix "#EXT-X-TARGETDURATION:" text, strip_prefix "#EXTINF:" text with
  | Some n, _ => LineTag (Targetduration (digits n) text)
  | _, Some n => LineTag (Inf (f64_of_Z (digits n)) text)
  | None, None =>
      if String.eqb text "#EXTM3U" then LineTag (M3u text)
      else if starts_with "#" text then LineComment text
      else if str_empty text then LineBlank else LineUri text
  end.
Definition demo_text (l : HlsLine) : option string :=
  match l with
  | LineTag (M3u text | Targetduration _ text | Inf _ text) | LineUri text => Some text
  | LineBlank => Some ""
  | _ => None
  end.
#[export] Instance demo_m3u8 : M3u8 :=
  {| read_lines s := (fun t => Some (demo_line t)) <$> split_terminator s;
     render_line l := (fun t => t +:+ String LF "") <$> demo_text l |}.

Definition cdn_url (path : string) : Url :=
  {| u_scheme := "https"; u_username := ""; u_password := None; u_host := Some "cdn.example";
     u_port_or_known_default := Some 443%Z; u_path := path; u_query := None; u_fragment := None;
     u_as_str := "https://cdn.example/" +:+ path |}.
#[export] Instance cdn_url_ops : UrlOps := {| Url_parse _ := None; Url_join _ raw := Some (cdn_url raw) |}.

Definition demo_rng (k : nat) : string := String (Ascii.ascii_of_nat k) "abcdefghijklmnopqrstuvw".
Lemma demo_rng_bytes k : slen (demo_rng k) = RESOURCE_ID_BYTES.
Proof. reflexivity. Qed.

Definition lines_of (l : list string) : string := fold_right (fun t rest => t +:+ String LF "" +:+ rest) "" l.
Definition demo_body : string :=
  lines_of ["#EXTM3U"; "#EXT-X-TARGETDURATION:6"; "#EXTINF:6"; "seg1.ts"; "# token=secret"; "#EXTINF:5"; "seg2.ts"].
Definition demo_base : string := "/live/s1".
Definition demo_limits : HlsResourceLimits := HlsResourceLimits_default.
Definition demo_map : HlsResourceMap :=
  {| hm_session_id := 7; hm_fence := 3; hm_limits := demo_limits; scope_revisions := ∅; active_revision := None;
     entries := ∅; reverse := ∅ |}.
Lemma demo_map_new : HlsResourceMap_new 7 3 demo_limits = Ok demo_map.
Proof. reflexivity. Qed.
Lemma demo_map_ok : map_ok demo_map.
Proof. eapply new_map_ok, demo_map_new. Qed.
Lemma demo_map_safe : map_safe HlsRewriteConfig_default demo_map.
Proof. intros id e [=]. Qed.

Definition demo_rewrite : result HlsRewriteError (HlsRewriteResult * HlsResourceMap * nat) :=
  rewrite_scoped demo_rng HlsRewriteConfig_default (cdn_url "index.m3u8") demo_base demo_map 0 3 "scope" demo_body.
Definition no_result : HlsRewriteResult :=
  {| rr_body := ""; rr_kind := Master; rr_resource_count := 0; rr_target_duration_seconds := None;
     rr_media_sequence := None; rr_end_list := false |}.
Definition demo_result : HlsRewriteResult * HlsResourceMap * nat :=
  match demo_rewrite with Ok r => r | Err _ => (no_result, demo_map, 0) end.
Definition rewritten : HlsRewriteResult := demo_result.1.1.
Definition rewritten_map : HlsResourceMap := demo_result.1.2.
Lemma demo_rewrites :
  rewrite_scoped_with_validator demo_rng HlsRewriteConfig_default (cdn_url "index.m3u8") demo_base demo_map 0 3 "scope"
    demo_body (fun _ => Ok ()) = Ok (rewritten, rewritten_map, demo_result.2).
Proof. vm_compute. reflexivity. Qed.

(** ** The rewrite *)
Lemma playlist_names_fetchable_resources_witness :
  hm_fence rewritten_map = 3%Z /\ map_ok rewritten_map /\
  exists outs, length outs = 7 /\ render_lines (concat outs) = Some (rr_body rewritten).
Proof.
  destruct (playlist_names_fetchable_resources _ _ _ _ demo_rng_bytes _ _ _ _ _ _ _ _ _ demo_map_ok demo_map_safe demo_rewrites)
    as (Hm & _ & Hf & revision & skipped & inputs & outs & Hin & Hem & Hr & _).
  split; [exact Hf|]. split; [exact Hm|]. exists outs. split; [|exact Hr].
  apply Forall2_length in Hem. apply (f_equal length) in Hin. rewrite length_fmap in Hin. rewrite <- Hem, <- Hin. vm_compute. reflexivity.
Defined.
Lemma rewritten_playlist_well_formed_witness :
  exists lines text rest, render_lines lines = Some (rr_body rewritten) /\ lines = LineTag (M3u text) :: rest.
Proof.
  destruct (rewritten_playlist_well_formed _ _ _ _ demo_rng_bytes _ _ _ _ _ _ _ _ _ demo_map_ok demo_map_safe demo_rewrites)
    as (lines & Hr & _ & (text & rest & Hl) & _). exists lines, text, rest. split; [exact Hr|exact Hl].
Defined.
Lemma rewritten_playlist_reads_back_witness : Forall (client_line HlsRewriteConfig_default demo_base) (read_lines (rr_body rewritten)).
Proof.
  destruct (rewritten_playlist_reads_back _ _ _ _ demo_rng_bytes _ _ _ _ _ _ _ _ _ demo_map_ok demo_map_safe demo_rewrites)
    as (_ & _ & Hl). exact Hl.
Defined.
Lemma rewritten_playlist_kind_witness :
  rr_kind rewritten = MediaManifest /\
  exists lines text, render_lines lines = Some (rr_body rewritten) /\ LineTag (Targetduration 6 text) ∈ lines.
Proof.
  destruct (rewritten_playlist_kind _ _ _ _ demo_rng_bytes _ _ _ _ _ _ _ _ _ demo_map_ok demo_map_safe demo_rewrites)
    as (lines & Hr & Hk). assert (rr_kind rewritten = MediaManifest) as Hkind by (vm_compute; reflexivity).
  rewrite Hkind in Hk. destruct Hk as (_ & target & text & Ht & Hin & _). split; [exact Hkind|]. exists lines, text.
  split; [exact Hr|]. vm_compute in Ht. injection Ht as <-. exact Hin.
Defined.

(** ** The resource map *)
Definition demo_ops : list ResourceOp :=
  [OpBegin "scope" 3; OpRegister (cdn_url "seg1.ts") KindMediaSegment None; OpFinish; OpBegin "scope" 3; OpFinish].
Lemma resource_map_stays_consistent_witness : map_ok (apply_ops demo_rng demo_ops (demo_map, 0)).1.
Proof. exact (resource_map_stays_consistent _ demo_rng_bytes _ _ _ _ 0 demo_ops demo_map_new). Defined.

Definition after (ops : list ResourceOp) : HlsResourceMap := (apply_ops demo_rng ops (demo_map, 0)).1.
Lemma after_ops_ok ops : map_ok (after ops).
Proof. apply apply_ops_ok; [exact demo_rng_bytes|exact demo_map_ok]. Qed.
Definition begun : HlsResourceMap := after [OpBegin "scope" 3].
Definition registered : HlsResourceId * HlsResourceMap * nat :=
  match register demo_rng begun 0 (cdn_url "seg1.ts") KindMediaSegment None with
  | Ok r => r | Err _ => ("", begun, 0)
  end.
Lemma registered_resource_resolves_witness :
  exists d, resolve registered.1.2 registered.1.1 3 = Ok d /\ u_as_str (rd_url d) = "https://cdn.example/seg1.ts".
Proof.
  assert (register demo_rng begun 0 (cdn_url "seg1.ts") KindMediaSegment None
          = Ok (registered.1.1, registered.1.2, registered.2)) as Hr by (vm_compute; reflexivity).
  destruct (registered_resource_resolves _ demo_rng_bytes _ _ _ _ _ _ _ _ (after_ops_ok _) Hr) as ((d & Hd & Hk) & _).
  exists d. split; [exact Hd|]. exact (f_equal (fun k => k.1.1) Hk).
Defined.

Definition stored : HlsResourceMap := after (take 3 demo_ops).
Definition stored_id : HlsResourceId := HlsResourceId_generate (demo_rng 0).
Definition stored_entry : ResourceEntry :=
  match entries stored !! stored_id with
  | Some e => e
  | None => {| re_descriptor := new_for_relay_root (cdn_url "") KindPlaylist; last_seen_by_scope := ∅ |}
  end.
Lemma resource_outlives_grace_witness :
  resolve (apply_ops demo_rng (drop 3 demo_ops) (stored, 1)).1 stored_id 3 = Ok (re_descriptor stored_entry).
Proof.
  assert (entries stored !! stored_id = Some stored_entry) as He by (vm_compute; reflexivity).
  apply (resource_outlives_grace demo_rng demo_rng_bytes stored 1 (drop 3 demo_ops) stored_id stored_entry "scope" (after_ops_ok _) He).
  - exists 1%Z. split; vm_compute; reflexivity.
  - vm_compute. reflexivity.
  - vm_compute. discriminate.
Defined.
Definition revised : HlsResourceMap :=
  match begin_revision stored "scope" 3 with Ok m => m | Err _ => stored end.
Lemma revision_retires_exactly_witness :
  exists revision, scope_revisions revised !! "scope" = Some revision /\ (revision <= u64_max)%Z.
Proof.
  assert (begin_revision stored "scope" 3 = Ok revised) as Hb by (vm_compute; reflexivity).
  destruct (revision_retires_exactly _ _ _ _ stored_id (after_ops_ok _) Hb) as (revision & Hr & _ & Hle & _).
  exists revision. split; [exact Hr|exact Hle].
Defined.
Definition taken : HlsResourceMap := match hls_take_over stored 3 5 with Ok m => m | Err _ => stored end.
Lemma takeover_forgets_resources_witness :
  resolve taken stored_id 3 = Err StaleControlFence /\ resolve taken stored_id 5 = Err UnknownResource.
Proof.
  assert (hls_take_over stored 3 5 = Ok taken) as Ht by (vm_compute; reflexivity).
  destruct (takeover_forgets_resources _ _ _ _ stored_id Ht) as (_ & Ho & Hn & _). split; [exact Ho|exact Hn].
Defined.
