(* ===== verification/HomeProfiles.v ===== *)
(** * Homes, memberships and profiles (src/src/auth/home_profiles.rs, migrations/0053 and 0055)

    Every account owns a home, is its owner in [home_members] and has its default profile there;
    [ensure_owner_home] creates what is missing of the three when the account signs in.  The tables of
    [Authz] hold the columns authorization reads; the other columns are here.  [uuid_v5] is the uuid crate's
    [Uuid::new_v5] in the namespace of object identifiers. *)
From S2P Require Import Prelude Bytes LiveContract CatalogGrants CanonicalJson RevocationOutbox Authz.

(** ** Tables *)
Record HomeRow := { ho_owner_user_id : uuid; ho_name : string; ho_created_at : instant }.
Record ProfileColumns := { px_display_name : string; px_pin_hash : option string; px_is_default : bool }.
Record ServerRow := { sv_user_id : uuid; sv_home_id : option uuid }.
Record HomeTables := {
  ht_users : gmap uuid string;                         (* the email *)
  ht_homes : gmap uuid HomeRow;
  ht_member_ids : gmap (uuid * uuid) uuid;             (* (home, user) *)
  ht_profiles : gmap uuid ProfileColumns;
  ht_servers : gmap uuid ServerRow;
  ht_authz : AuthzTables;
}.
Definition with_homes (h : gmap uuid HomeRow) (t : HomeTables) : HomeTables :=
  {| ht_users := ht_users t; ht_homes := h; ht_member_ids := ht_member_ids t; ht_profiles := ht_profiles t;
     ht_servers := ht_servers t; ht_authz := ht_authz t |}.
Definition with_servers (s : gmap uuid ServerRow) (t : HomeTables) : HomeTables :=
  {| ht_users := ht_users t; ht_homes := ht_homes t; ht_member_ids := ht_member_ids t; ht_profiles := ht_profiles t;
     ht_servers := s; ht_authz := ht_authz t |}.
Definition with_authz (a : AuthzTables) (t : HomeTables) : HomeTables :=
  {| ht_users := ht_users t; ht_homes := ht_homes t; ht_member_ids := ht_member_ids t; ht_profiles := ht_profiles t;
     ht_servers := ht_servers t; ht_authz := a |}.
Definition with_members (ids : gmap (uuid * uuid) uuid) (m : gmap (uuid * uuid) MemberRow) (t : HomeTables) : HomeTables :=
  let a := ht_authz t in
  {| ht_users := ht_users t; ht_homes := ht_homes t; ht_member_ids := ids; ht_profiles := ht_profiles t;
     ht_servers := ht_servers t;
     ht_authz := {| az_profiles := az_profiles a; az_members := m; az_revisions := az_revisions a;
                    az_overrides := az_overrides a; az_outbox := az_outbox a |} |}.
Definition with_profiles (columns : gmap uuid ProfileColumns) (p : gmap uuid ProfileRow) (t : HomeTables) : HomeTables :=
  let a := ht_authz t in
  {| ht_users := ht_users t; ht_homes := ht_homes t; ht_member_ids := ht_member_ids t; ht_profiles := columns;
     ht_servers := ht_servers t;
     ht_authz := {| az_profiles := p; az_members := az_members a; az_revisions := az_revisions a;
                    az_overrides := az_overrides a; az_outbox := az_outbox a |} |}.

(** ** Results *)
Record Profile := {
  pr_id : uuid; pr_home_id : uuid; pr_user_id : option uuid; pr_profile_type : ProfileType;
  pr_display_name : string; pr_pin_hash : option string; pr_is_default : bool;
}.
Record HomeMember := { hmem_id : uuid; hmem_home_id : uuid; hmem_user_id : uuid; hmem_role : HomeRole; hmem_status : string }.
Record OwnerHomeBootstrap := { bt_home_id : uuid; bt_home : HomeRow; bt_membership : HomeMember; bt_profile : Profile }.
Inductive BootstrapError := AccountDoesNotExist | BootstrapStorage | InvalidRow | BootstrapInvariant.

(** ** Names *)
Definition owner_home_name (email : string) : string :=
  let email := trim email in
  if str_empty email then "Elixir Home" else email +:+ "'s Home".
(** [split_once('@')] *)
Fixpoint before_at (s : string) : option string :=
  match s with
  | EmptyString => None
  | String c r => if Ascii.eqb c "@" then Some EmptyString else String c <$> before_at r
  end.
Definition owner_display_name (email : string) : string :=
  match before_at email with
  | Some local => if str_empty (trim local) then "Owner" else trim local
  | None => "Owner"
  end.

Section Home.
Context `{UuidText} (uuid_v5 : string -> uuid).

Definition ID_DOMAIN : string := "elixir.auth.home-profiles.v1".
Definition stable_id (kind : string) (values : list uuid) : uuid :=
  uuid_v5 (foldl (fun name v => name +:+ ":" +:+ uuid_to_string v) (ID_DOMAIN +:+ ":" +:+ kind) values).

(** ** Statements *)
(** a row of a map satisfies a condition *)
Definition some_row {K A} `{Countable K} (p : K -> A -> bool) (m : gmap K A) : bool :=
  existsb (fun kv => p kv.1 kv.2) (map_to_list m).

(** the first home of the owner: the candidate, then by creation and id *)
Definition home_before (candidate : uuid) (a b : uuid * HomeRow) : Prop :=
  let rank (x : uuid * HomeRow) := (if (x.1 =? candidate)%N then 0 else 1)%Z in
  (rank a < rank b)%Z \/ (rank a = rank b /\ ((ho_created_at a.2 < ho_created_at b.2)%Z
    \/ (ho_created_at a.2 = ho_created_at b.2 /\ (a.1 <= b.1)%N))).
#[local] Instance home_before_dec candidate : RelDecision (home_before candidate).
Proof. intros a b. unfold home_before. apply _. Defined.
Definition homes_of (user_id : uuid) (t : HomeTables) : list (uuid * HomeRow) :=
  List.filter (fun kv => (ho_owner_user_id kv.2 =? user_id)%N) (map_to_list (ht_homes t)).
Definition first_home (candidate user_id : uuid) (t : HomeTables) : option (uuid * HomeRow) :=
  head (merge_sort (home_before candidate) (homes_of user_id t)).

(** INSERT INTO homes ... WHERE NOT EXISTS ... ON CONFLICT DO NOTHING *)
Definition insert_home (id user_id : uuid) (name : string) (now : instant) (t : HomeTables) : HomeTables :=
  if some_row (fun _ h => (ho_owner_user_id h =? user_id)%N) (ht_homes t) || is_some_b (ht_homes t !! id) then t
  else with_homes (<[id := {| ho_owner_user_id := user_id; ho_name := name; ho_created_at := now |}]> (ht_homes t)) t.

(** the unique constraints of home_members: the id, the pair, one active owner of a home *)
Definition member_conflict (id home_id user_id : uuid) (t : HomeTables) : bool :=
  some_row (fun _ i => (i =? id)%N) (ht_member_ids t)
  || is_some_b (az_members (ht_authz t) !! (home_id, user_id))
  || some_row (fun k m => (k.1 =? home_id)%N && String.eqb (mb_role m) "owner" && String.eqb (mb_status m) "active")
       (az_members (ht_authz t)).
Definition insert_owner (id home_id user_id : uuid) (t : HomeTables) : HomeTables :=
  if member_conflict id home_id user_id t then t
  else with_members (<[(home_id, user_id) := id]> (ht_member_ids t))
         (<[(home_id, user_id) := {| mb_role := "owner"; mb_status := "active" |}]> (az_members (ht_authz t))) t.

(** those of profiles: the id, one account profile of a user, the name in a home, one default in a home *)
Definition profile_conflict (id home_id user_id : uuid) (display_name : string) (t : HomeTables) : bool :=
  let of_home := fun i => is_some_and (fun p => (pf_home_id p =? home_id)%N) (az_profiles (ht_authz t) !! i) in
  is_some_b (az_profiles (ht_authz t) !! id)
  || some_row (fun _ p => (pf_home_id p =? home_id)%N && bool_decide (pf_user_id p = Some user_id)) (az_profiles (ht_authz t))
  || some_row (fun i c => of_home i && String.eqb (px_display_name c) display_name) (ht_profiles t)
  || some_row (fun i c => of_home i && px_is_default c) (ht_profiles t).
Definition insert_account_profile (id home_id user_id : uuid) (display_name : string) (t : HomeTables) : HomeTables :=
  if profile_conflict id home_id user_id display_name t then t
  else with_profiles
         (<[id := {| px_display_name := display_name; px_pin_hash := None; px_is_default := true |}]> (ht_profiles t))
         (<[id := {| pf_home_id := home_id; pf_user_id := Some user_id; pf_profile_type := "account" |}]>
            (az_profiles (ht_authz t))) t.

(** INSERT INTO profile_authorization_revisions ... ON CONFLICT(profile_id) DO NOTHING: the clause is about the
    key; the references to profiles and homes are checked for a row that is inserted *)
Definition insert_revision (profile_id home_id : uuid) (t : HomeTables) : result BootstrapError HomeTables :=
  let a := ht_authz t in
  if is_some_b (az_revisions a !! profile_id) then Ok t
  else if is_none_b (az_profiles a !! profile_id) || is_none_b (ht_homes t !! home_id) then Err BootstrapStorage
  else Ok (with_authz (with_revisions (<[profile_id := {| rv_home_id := home_id; rv_revision := 1 |}]> (az_revisions a)) a) t).

Definition adopt_servers (home_id user_id : uuid) (t : HomeTables) : HomeTables :=
  with_servers ((fun s => if (sv_user_id s =? user_id)%N && is_none_b (sv_home_id s)
                          then {| sv_user_id := sv_user_id s; sv_home_id := Some home_id |} else s) <$> ht_servers t) t.

(** ** Reading rows *)
Definition decode_member (home_id user_id : uuid) (t : HomeTables) : result BootstrapError HomeMember :=
  row ← ok_or (az_members (ht_authz t) !! (home_id, user_id)) BootstrapStorage;
  id ← ok_or (ht_member_ids t !! (home_id, user_id)) BootstrapStorage;
  role ← ok_or (HomeRole_try_from (mb_role row)) InvalidRow;
  _ ← reject_if (negb (existsb (String.eqb (mb_status row)) ["active"; "invited"; "suspended"])) InvalidRow;
  Ok {| hmem_id := id; hmem_home_id := home_id; hmem_user_id := user_id; hmem_role := role; hmem_status := mb_status row |}.
Definition decode_profile (id : uuid) (row : ProfileRow) (t : HomeTables) : result BootstrapError Profile :=
  columns ← ok_or (ht_profiles t !! id) BootstrapStorage;
  profile_type ← ok_or (ProfileType_try_from (pf_profile_type row)) InvalidRow;
  Ok {| pr_id := id; pr_home_id := pf_home_id row; pr_user_id := pf_user_id row; pr_profile_type := profile_type;
        pr_display_name := px_display_name columns;
        pr_pin_hash := match px_pin_hash columns with Some "" | None => None | Some p => Some p end;
        pr_is_default := px_is_default columns |}.
Definition account_profile_of (home_id user_id : uuid) (t : HomeTables) : option (uuid * ProfileRow) :=
  List.find (fun kv => (pf_home_id kv.2 =? home_id)%N && bool_decide (pf_user_id kv.2 = Some user_id))
    (map_to_list (az_profiles (ht_authz t))).

Definition require_owner_bootstrap (home_id : uuid) (home : HomeRow) (m : HomeMember) (p : Profile) (user_id : uuid)
    : result BootstrapError unit :=
  reject_if (negb (ho_owner_user_id home =? user_id)%N || negb (hmem_home_id m =? home_id)%N
             || negb (hmem_user_id m =? user_id)%N || negb (bool_decide (hmem_role m = Owner))
             || negb (String.eqb (hmem_status m) "active") || negb (pr_home_id p =? home_id)%N
             || negb (bool_decide (pr_user_id p = Some user_id)) || negb (bool_decide (pr_profile_type p = Account))
             || negb (pr_is_default p)) BootstrapInvariant.

(** ** [ensure_owner_home_in_transaction] *)
Definition ensure_owner_home (user_id : uuid) (now : instant) (t : HomeTables)
    : result BootstrapError (OwnerHomeBootstrap * HomeTables) :=
  email ← ok_or (ht_users t !! user_id) AccountDoesNotExist;
  let candidate := stable_id "home" [user_id] in
  let t := insert_home candidate user_id (owner_home_name email) now t in
  '(home_id, home) ← ok_or (first_home candidate user_id t) BootstrapStorage;
  let t := insert_owner (stable_id "owner-membership" [home_id; user_id]) home_id user_id t in
  let profile_id := stable_id "account-profile" [home_id; user_id] in
  let t := insert_account_profile profile_id home_id user_id (owner_display_name email) t in
  t ← insert_revision profile_id home_id t;
  let t := adopt_servers home_id user_id t in
  membership ← decode_member home_id user_id t;
  '(id, row) ← ok_or (account_profile_of home_id user_id t) BootstrapStorage;
  profile ← decode_profile id row t;
  _ ← require_owner_bootstrap home_id home membership profile user_id;
  Ok ({| bt_home_id := home_id; bt_home := home; bt_membership := membership; bt_profile := profile |}, t).

(** the other methods of the repository only read *)
Definition home_for_owner (user_id : uuid) (t : HomeTables) : option (uuid * HomeRow) :=
  head (merge_sort (fun a b => (ho_created_at a.2 < ho_created_at b.2)%Z
    \/ (ho_created_at a.2 = ho_created_at b.2 /\ (a.1 <= b.1)%N)) (homes_of user_id t)).
Definition membership (home_id user_id : uuid) (t : HomeTables) : result BootstrapError (option HomeMember) :=
  match az_members (ht_authz t) !! (home_id, user_id) with
  | None => Ok None
  | Some _ => Some <$> decode_member home_id user_id t
  end.
Definition find_profile (profile_id : uuid) (t : HomeTables) : result BootstrapError (option Profile) :=
  match az_profiles (ht_authz t) !! profile_id with
  | None => Ok None
  | Some row => Some <$> decode_profile profile_id row t
  end.
(** ORDER BY the default first, LOWER(display_name), id *)
Definition profile_le (a b : Profile) : Prop :=
  let rank (p : Profile) := if pr_is_default p then 0%Z else 1%Z in
  let name (p : Profile) := to_lower (pr_display_name p) in
  (rank a < rank b)%Z \/ (rank a = rank b /\ (String.compare (name a) (name b) = Lt
    \/ (String.compare (name a) (name b) = Eq /\ (pr_id a <= pr_id b)%N))).
#[local] Instance profile_le_dec : RelDecision profile_le.
Proof. intros a b. unfold profile_le. apply _. Defined.
Fixpoint decode_profiles (rows : list (uuid * ProfileRow)) (t : HomeTables) : result BootstrapError (list Profile) :=
  match rows with
  | [] => Ok []
  | (id, row) :: rows => p ← decode_profile id row t; ps ← decode_profiles rows t; Ok (p :: ps)
  end.
(** the first row that does not decode decides the error in any order: every error of a row is [InvalidRow] *)
Definition list_profiles (home_id : uuid) (t : HomeTables) : result BootstrapError (list Profile) :=
  merge_sort profile_le <$>
    decode_profiles (List.filter (fun kv => (pf_home_id kv.2 =? home_id)%N) (map_to_list (az_profiles (ht_authz t)))) t.

(** ** Facts *)
Lemma some_row_true {K A} `{Countable K} (p : K -> A -> bool) (m : gmap K A) :
  some_row p m = true <-> exists k a, m !! k = Some a /\ p k a = true.
Proof.
  unfold some_row. rewrite existsb_exists. split.
  - intros ([k a] & Hin & Hp). apply list_elem_of_In, elem_of_map_to_list in Hin. eauto.
  - intros (k & a & Hk & Hp). exists (k, a). split; [by apply list_elem_of_In, elem_of_map_to_list|done].
Qed.

Lemma first_home_elem candidate user_id t id h :
  first_home candidate user_id t = Some (id, h) -> ht_homes t !! id = Some h /\ ho_owner_user_id h = user_id.
Proof.
  unfold first_home, homes_of. intros Hh.
  assert ((id, h) ∈ merge_sort (home_before candidate) (List.filter (fun kv => (ho_owner_user_id kv.2 =? user_id)%N) (map_to_list (ht_homes t)))) as Hin.
  { destruct (merge_sort _ _); [done|]. injection Hh as ->. left. }
  rewrite merge_sort_Permutation in Hin.
  apply list_elem_of_In, filter_In in Hin as [Hin He]. apply N.eqb_eq in He.
  split; [by apply elem_of_map_to_list, list_elem_of_In|done].
Qed.
Lemma account_profile_of_some home_id user_id t id row :
  account_profile_of home_id user_id t = Some (id, row) ->
  az_profiles (ht_authz t) !! id = Some row /\ pf_home_id row = home_id /\ pf_user_id row = Some user_id.
Proof.
  unfold account_profile_of. intros Hf. apply find_some in Hf as [Hin Hc]. bool_hyps. apply N.eqb_eq in H0.
  split; [by apply elem_of_map_to_list, list_elem_of_In|done].
Qed.

(** what each statement leaves *)
Lemma insert_home_users id u name now t : ht_users (insert_home id u name now t) = ht_users t.
Proof. unfold insert_home. by case_match. Qed.
Lemma insert_owner_frame id h u t :
  ht_users (insert_owner id h u t) = ht_users t /\ ht_homes (insert_owner id h u t) = ht_homes t.
Proof. unfold insert_owner. by case_match. Qed.
Lemma insert_profile_frame id h u name t :
  ht_users (insert_account_profile id h u name t) = ht_users t /\ ht_homes (insert_account_profile id h u name t) = ht_homes t
  /\ az_members (ht_authz (insert_account_profile id h u name t)) = az_members (ht_authz t).
Proof. unfold insert_account_profile. by case_match. Qed.
Lemma insert_revision_ok p h t t' : insert_revision p h t = Ok t' ->
  ht_users t' = ht_users t /\ ht_homes t' = ht_homes t /\ is_Some (az_revisions (ht_authz t') !! p).
Proof.
  unfold insert_revision. destruct (az_revisions (ht_authz t) !! p) eqn:E; cbn; [intros [= <-]; by rewrite E|].
  destruct (_ || _); [done|]. intros [= <-]. cbn. by rewrite lookup_insert_eq.
Qed.
Lemma adopt_servers_twice h u t : adopt_servers h u (adopt_servers h u t) = adopt_servers h u t.
Proof.
  unfold adopt_servers, with_servers. cbn. f_equal. rewrite <- map_fmap_compose. apply map_fmap_ext. intros i s _. cbn.
  destruct ((sv_user_id s =? u)%N && is_none_b (sv_home_id s)) eqn:E; cbn; [by rewrite andb_false_r|by rewrite E].
Qed.

(** the run of a bootstrap that succeeded *)
Record bootstrapped (user_id : uuid) (t : HomeTables) (b : OwnerHomeBootstrap) (t' : HomeTables) : Prop := {
  bd_users : ht_users t' = ht_users t;
  bd_email : is_Some (ht_users t' !! user_id);
  bd_home : first_home (stable_id "home" [user_id]) user_id t' = Some (bt_home_id b, bt_home b);
  bd_member : decode_member (bt_home_id b) user_id t' = Ok (bt_membership b);
  bd_profile : exists id row, account_profile_of (bt_home_id b) user_id t' = Some (id, row) /\ decode_profile id row t' = Ok (bt_profile b);
  bd_required : require_owner_bootstrap (bt_home_id b) (bt_home b) (bt_membership b) (bt_profile b) user_id = Ok ();
  bd_revision : is_Some (az_revisions (ht_authz t') !! stable_id "account-profile" [bt_home_id b; user_id]);
  bd_servers : adopt_servers (bt_home_id b) user_id t' = t';
}.
Lemma ensure_bootstrapped user_id now t b t' : ensure_owner_home user_id now t = Ok (b, t') -> bootstrapped user_id t b t'.
Proof.
  unfold ensure_owner_home. intros H0. apply result_bind_ok in H0 as (email & He & H0). apply ok_or_ok in He.
  set (t1 := insert_home _ _ _ _ t) in H0.
  apply result_bind_ok in H0 as ([hid home] & Hf & H0). apply ok_or_ok in Hf.
  set (t2 := insert_owner _ _ _ t1) in H0. set (t3 := insert_account_profile _ _ _ _ t2) in H0.
  apply result_bind_ok in H0 as (t4 & Hr & H0). set (t5 := adopt_servers _ _ t4) in H0.
  apply result_bind_ok in H0 as (m & Hm & H0). apply result_bind_ok in H0 as ([pid row] & Hp & H0). apply ok_or_ok in Hp.
  apply result_bind_ok in H0 as (p & Hd & H0). apply result_bind_ok in H0 as ([] & Hq & H0). injection H0 as <- <-.
  pose proof (insert_home_users (stable_id "home" [user_id]) user_id (owner_home_name email) now t) as F1.
  pose proof (insert_owner_frame (stable_id "owner-membership" [hid; user_id]) hid user_id t1) as [F2 G2].
  pose proof (insert_profile_frame (stable_id "account-profile" [hid; user_id]) hid user_id (owner_display_name email) t2) as (F3 & G3 & _).
  destruct (insert_revision_ok _ _ _ _ Hr) as (F4 & G4 & Hrev).
  fold t1 in F1. fold t2 in F2, G2. fold t3 in F3, G3.
  assert (ht_users t5 = ht_users t) as Hu by (change (ht_users t5) with (ht_users t4); congruence).
  assert (ht_homes t5 = ht_homes t1) as Hh by (change (ht_homes t5) with (ht_homes t4); congruence).
  assert (is_Some (az_revisions (ht_authz t5) !! stable_id "account-profile" [hid; user_id])) as Hrev' by exact Hrev.
  assert (adopt_servers hid user_id t5 = t5) as Ha by apply adopt_servers_twice.
  clearbody t5. split; cbn; [done|by rewrite Hu, He| |done|by eauto|done|done|done].
  unfold first_home, homes_of in *. by rewrite Hh.
Qed.

(** each statement does nothing where its row is *)
Lemma insert_home_there id u name now t h row :
  ht_homes t !! h = Some row -> ho_owner_user_id row = u -> insert_home id u name now t = t.
Proof.
  intros Hr Ho. unfold insert_home. rewrite (proj2 (some_row_true _ _)); [done|].
  exists h, row. by rewrite Ho, N.eqb_refl.
Qed.
Lemma insert_owner_there id h u t row : az_members (ht_authz t) !! (h, u) = Some row -> insert_owner id h u t = t.
Proof. intros Hr. unfold insert_owner, member_conflict. by rewrite Hr, orb_true_r. Qed.
Lemma insert_profile_there id h u name t i row :
  az_profiles (ht_authz t) !! i = Some row -> pf_home_id row = h -> pf_user_id row = Some u ->
  insert_account_profile id h u name t = t.
Proof.
  intros Hr Hh Hu. unfold insert_account_profile, profile_conflict.
  rewrite (proj2 (some_row_true (fun _ p => (pf_home_id p =? h)%N && bool_decide (pf_user_id p = Some u)) _)); [by rewrite orb_true_r|].
  exists i, row. by rewrite Hh, N.eqb_refl, bool_decide_eq_true_2.
Qed.
Lemma insert_revision_there p h t row : az_revisions (ht_authz t) !! p = Some row -> insert_revision p h t = Ok t.
Proof. intros Hr. unfold insert_revision. by rewrite Hr. Qed.
Lemma decode_member_row h u t m : decode_member h u t = Ok m -> is_Some (az_members (ht_authz t) !! (h, u)).
Proof. unfold decode_member. intros H0. ok_inv. eauto. Qed.

(** The bootstrap is idempotent: once it has succeeded, a later run at any time gives the same home, membership
    and profile and changes nothing. *)
Theorem bootstrap_is_idempotent user_id now now' t b t' :
  ensure_owner_home user_id now t = Ok (b, t') -> ensure_owner_home user_id now' t' = Ok (b, t').
Proof.
  intros H0. apply ensure_bootstrapped in H0 as [_ [email He] Hh Hm (id & row & Hp & Hd) Hq [rev Hr] Hs].
  pose proof (first_home_elem _ _ _ _ _ Hh) as [Hhome Ho].
  pose proof (account_profile_of_some _ _ _ _ _ Hp) as (Hrow & Hph & Hpu).
  destruct (decode_member_row _ _ _ _ Hm) as [member Hmr].
  unfold ensure_owner_home. rewrite He. run_ok. rewrite (insert_home_there _ _ _ _ _ _ _ Hhome Ho), Hh. run_ok.
  rewrite (insert_owner_there _ _ _ _ _ Hmr), (insert_profile_there _ _ _ _ _ _ _ Hrow Hph Hpu).
  rewrite (insert_revision_there _ _ _ _ Hr). run_ok.
  rewrite Hs, Hm. run_ok. rewrite Hp. run_ok. rewrite Hd. run_ok. rewrite Hq. run_ok. by destruct b.
Qed.

(** ** What a bootstrap may change *)
Record extends (t t' : HomeTables) : Prop := {
  xt_users : ht_users t' = ht_users t;
  xt_homes : ht_homes t ⊆ ht_homes t';
  xt_members : az_members (ht_authz t) ⊆ az_members (ht_authz t');
  xt_member_ids : forall k, is_Some (az_members (ht_authz t) !! k) -> ht_member_ids t' !! k = ht_member_ids t !! k;
  xt_profiles : az_profiles (ht_authz t) ⊆ az_profiles (ht_authz t');
  xt_columns : forall i, is_Some (az_profiles (ht_authz t) !! i) -> ht_profiles t' !! i = ht_profiles t !! i;
  xt_revisions : az_revisions (ht_authz t) ⊆ az_revisions (ht_authz t');
  xt_rest : az_overrides (ht_authz t') = az_overrides (ht_authz t) /\ az_outbox (ht_authz t') = az_outbox (ht_authz t);
  xt_servers : forall i s, ht_servers t !! i = Some s -> exists s', ht_servers t' !! i = Some s' /\ sv_user_id s' = sv_user_id s
    /\ (is_Some (sv_home_id s) -> s' = s);
}.
#[local] Instance extends_preorder : PreOrder extends.
Proof.
  split; [intros t; split; try done; eauto|].
  intros t1 t2 t3 [] []. split; try (by etrans); try congruence.
  - intros k Hk. rewrite xt_member_ids1; [by apply xt_member_ids0|]. destruct Hk as [m Hm]. exists m. by eapply lookup_weaken.
  - intros k Hk. rewrite xt_columns1; [by apply xt_columns0|]. destruct Hk as [m Hm]. exists m. by eapply lookup_weaken.
  - destruct xt_rest0, xt_rest1. split; congruence.
  - intros i s Hi. destruct (xt_servers0 i s Hi) as (s2 & H2 & Hu2 & Hs2). destruct (xt_servers1 i s2 H2) as (s3 & H3 & Hu3 & Hs3).
    exists s3. split; [done|]. split; [congruence|]. intros Hh. rewrite (Hs2 Hh) in Hs3. by rewrite (Hs3 Hh).
Qed.
Lemma extends_home id u name now t : extends t (insert_home id u name now t).
Proof.
  unfold insert_home. destruct (some_row _ _); cbn; [reflexivity|]. destruct (ht_homes t !! id) eqn:E; cbn; [reflexivity|].
  split; try done; cbn; eauto. by apply insert_subseteq.
Qed.
Lemma extends_owner id h u t : extends t (insert_owner id h u t).
Proof.
  unfold insert_owner. destruct (member_conflict id h u t) eqn:E; [reflexivity|]. unfold member_conflict in E. bool_hyps.
  destruct (az_members (ht_authz t) !! (h, u)) eqn:Em; [done|]. split; try done; cbn; eauto; [by apply insert_subseteq|].
  intros k [m Hk]. rewrite lookup_insert_ne; [done|]. intros <-. congruence.
Qed.
Lemma extends_profile id h u name t : extends t (insert_account_profile id h u name t).
Proof.
  unfold insert_account_profile. destruct (profile_conflict id h u name t) eqn:E; [reflexivity|]. unfold profile_conflict in E. bool_hyps.
  destruct (az_profiles (ht_authz t) !! id) eqn:Ep; [done|]. split; try done; cbn; eauto; [by apply insert_subseteq|].
  intros k [m Hk]. rewrite lookup_insert_ne; [done|]. intros <-. congruence.
Qed.
Lemma extends_revision p h t t' : insert_revision p h t = Ok t' -> extends t t'.
Proof.
  unfold insert_revision. destruct (az_revisions (ht_authz t) !! p) eqn:E; cbn; [by intros [= <-]|].
  destruct (_ || _); [done|]. intros [= <-]. split; try done; cbn; eauto. by apply insert_subseteq.
Qed.
Lemma extends_servers h u t : extends t (adopt_servers h u t).
Proof.
  split; try done. cbn. intros i s Hi. rewrite lookup_fmap, Hi. cbn. eexists. split; [done|].
  destruct ((sv_user_id s =? u)%N && is_none_b (sv_home_id s)) eqn:E; cbn; [|done]. bool_hyps. split; [done|].
  intros [h' Hh]. by rewrite Hh in *.
Qed.

(** A bootstrap takes nothing away: it keeps every account, home, membership, profile and revision as it was,
    changes no override and no event, and gives a home only to servers that have none. *)
Theorem bootstrap_only_adds user_id now t b t' : ensure_owner_home user_id now t = Ok (b, t') -> extends t t'.
Proof.
  unfold ensure_owner_home. intros H0. apply result_bind_ok in H0 as (email & _ & H0).
  apply result_bind_ok in H0 as ([hid home] & _ & H0). apply result_bind_ok in H0 as (t4 & Hr & H0).
  apply result_bind_ok in H0 as (? & _ & H0). apply result_bind_ok in H0 as ([] & _ & H0).
  apply result_bind_ok in H0 as (? & _ & H0). apply result_bind_ok in H0 as ([] & _ & H0). injection H0 as _ <-.
  etrans; [|apply extends_servers]. etrans; [|by eapply extends_revision].
  etrans; [|apply extends_profile]. etrans; [|apply extends_owner]. apply extends_home.
Qed.

(** What a successful bootstrap answers is the owner's: the home is owned by the account, the membership is its
    active ownership, the profile its default account profile, all stored. *)
Theorem bootstrap_gives_owner user_id now t b t' : ensure_owner_home user_id now t = Ok (b, t') ->
  ht_homes t' !! bt_home_id b = Some (bt_home b) /\ ho_owner_user_id (bt_home b) = user_id
  /\ membership (bt_home_id b) user_id t' = Ok (Some (bt_membership b)) /\ hmem_role (bt_membership b) = Owner
  /\ hmem_status (bt_membership b) = "active" /\ find_profile (pr_id (bt_profile b)) t' = Ok (Some (bt_profile b))
  /\ pr_home_id (bt_profile b) = bt_home_id b /\ pr_user_id (bt_profile b) = Some user_id
  /\ pr_profile_type (bt_profile b) = Account /\ pr_is_default (bt_profile b) = true.
Proof.
  intros H0. apply ensure_bootstrapped in H0 as [_ _ Hh Hm (id & row & Hp & Hd) Hq _ _].
  pose proof (first_home_elem _ _ _ _ _ Hh) as [Hhome Ho].
  pose proof (account_profile_of_some _ _ _ _ _ Hp) as (Hrow & _ & _).
  destruct (decode_member_row _ _ _ _ Hm) as [member Hmr].
  apply reject_if_ok in Hq. bool_hyps. apply String.eqb_eq in H5. apply N.eqb_eq in H4.
  assert (pr_id (bt_profile b) = id) as Hid by (unfold decode_profile in Hd; ok_inv; by match goal with H : _ = bt_profile b |- _ => rewrite <- H end).
  unfold membership, find_profile. rewrite Hmr, Hm, Hid, Hrow, Hd. by split_and!.
Qed.

(** ** New accounts and migrated accounts *)
(** the foreign keys of members, profiles and revisions; a profile has all its columns *)
Definition refs_ok (t : HomeTables) : Prop :=
  (forall h u m, az_members (ht_authz t) !! (h, u) = Some m -> is_Some (ht_homes t !! h))
  /\ (forall i p, az_profiles (ht_authz t) !! i = Some p -> is_Some (ht_homes t !! pf_home_id p))
  /\ (forall i c, ht_profiles t !! i = Some c -> is_Some (az_profiles (ht_authz t) !! i))
  /\ (forall i r, az_revisions (ht_authz t) !! i = Some r -> is_Some (az_profiles (ht_authz t) !! i)).
Lemma some_row_false {K A} `{Countable K} (p : K -> A -> bool) (m : gmap K A) :
  (forall k a, m !! k = Some a -> p k a = false) -> some_row p m = false.
Proof.
  intros Hp. apply not_true_iff_false. intros (k & a & Hk & Ha)%some_row_true. rewrite (Hp k a Hk) in Ha. done.
Qed.
Lemma find_unique {A} (p : A -> bool) (l : list A) a : a ∈ l -> p a = true -> (forall b, b ∈ l -> p b = true -> b = a) -> List.find p l = Some a.
Proof.
  intros Ha Hp Hu. destruct (List.find p l) as [b|] eqn:E.
  - apply find_some in E as [Hb Hpb]. f_equal. apply Hu; [by apply list_elem_of_In|done].
  - pose proof (find_none _ _ E a (proj1 (list_elem_of_In _ _) Ha)). congruence.
Qed.
Lemma filter_unique {A} (p : A -> bool) (l : list A) a : NoDup l -> a ∈ l -> p a = true -> (forall b, b ∈ l -> p b = true -> b = a) -> List.filter p l = [a].
Proof.
  intros Hn Ha Hp Hu. induction l as [|x l IH]; [by apply elem_of_nil in Ha|].
  apply NoDup_cons in Hn as [Hx Hn]. cbn. destruct (p x) eqn:E.
  - assert (x = a) as -> by (apply Hu; [left|done]). f_equal.
    assert (forall b, b ∈ l -> p b = false) as Hf.
    { intros b Hb. apply not_true_iff_false. intros Hpb. assert (b = a) as -> by (apply Hu; [by right|done]). done. }
    clear -Hf. induction l as [|y l IH]; [done|]. cbn. rewrite (Hf y); [|left]. apply IH. intros b Hb. apply Hf. by right.
  - apply IH; [done| |intros b Hb; apply Hu; by right]. apply elem_of_cons in Ha as [->|Ha]; [congruence|done].
Qed.

Definition home_id_of (user_id : uuid) : uuid := stable_id "home" [user_id].
Definition profile_id_of (user_id : uuid) : uuid := stable_id "account-profile" [home_id_of user_id; user_id].
(** an account without a home, whose stable identifiers nothing uses *)
Record new_account (user_id : uuid) (email : string) (t : HomeTables) : Prop := {
  na_user : ht_users t !! user_id = Some email;
  na_refs : refs_ok t;
  na_homeless : forall h row, ht_homes t !! h = Some row -> ho_owner_user_id row <> user_id;
  na_home : ht_homes t !! home_id_of user_id = None;
  na_member : forall k i, ht_member_ids t !! k = Some i -> i <> stable_id "owner-membership" [home_id_of user_id; user_id];
  na_profile : az_profiles (ht_authz t) !! profile_id_of user_id = None;
}.
Definition new_home (user_id : uuid) (email : string) (now : instant) : HomeRow :=
  {| ho_owner_user_id := user_id; ho_name := owner_home_name email; ho_created_at := now |}.
Lemma insert_home_new id u name now t : (forall h row, ht_homes t !! h = Some row -> ho_owner_user_id row <> u) -> ht_homes t !! id = None ->
  insert_home id u name now t = with_homes (<[id := {| ho_owner_user_id := u; ho_name := name; ho_created_at := now |}]> (ht_homes t)) t.
Proof.
  intros Hl Hh. unfold insert_home. rewrite some_row_false, Hh; [done|]. intros h row Hr. apply N.eqb_neq. eauto.
Qed.
Lemma first_home_unique candidate u t id h : ht_homes t !! id = Some h -> ho_owner_user_id h = u ->
  (forall i row, ht_homes t !! i = Some row -> ho_owner_user_id row = u -> i = id) -> first_home candidate u t = Some (id, h).
Proof.
  intros Hh Ho Hu. unfold first_home, homes_of. rewrite (filter_unique _ _ (id, h)); [done|apply NoDup_map_to_list| | |].
  - by apply elem_of_map_to_list.
  - cbn. by rewrite Ho, N.eqb_refl.
  - intros [i row] Hin Hc. apply elem_of_map_to_list in Hin. apply N.eqb_eq in Hc. cbn in Hc.
    pose proof (Hu i row Hin Hc) as ->. congruence.
Qed.
Lemma insert_owner_new id h u t : (forall k i, ht_member_ids t !! k = Some i -> i <> id) ->
  (forall u' m, az_members (ht_authz t) !! (h, u') = Some m -> False) ->
  insert_owner id h u t = with_members (<[(h, u) := id]> (ht_member_ids t))
    (<[(h, u) := {| mb_role := "owner"; mb_status := "active" |}]> (az_members (ht_authz t))) t.
Proof.
  intros Hi Hm. unfold insert_owner, member_conflict. rewrite some_row_false; [|intros k i Hk; apply N.eqb_neq; eauto].
  destruct (az_members (ht_authz t) !! (h, u)) eqn:E; [by apply Hm in E|]. cbn.
  rewrite some_row_false; [done|]. intros [h' u'] row Hr. cbn. destruct (N.eqb_spec h' h) as [->|]; [by apply Hm in Hr|done].
Qed.
Definition default_columns (name : string) : ProfileColumns := {| px_display_name := name; px_pin_hash := None; px_is_default := true |}.
Definition account_row (h u : uuid) : ProfileRow := {| pf_home_id := h; pf_user_id := Some u; pf_profile_type := "account" |}.
Lemma insert_profile_new id h u name t : az_profiles (ht_authz t) !! id = None ->
  (forall i p, az_profiles (ht_authz t) !! i = Some p -> pf_home_id p <> h) ->
  insert_account_profile id h u name t = with_profiles (<[id := default_columns name]> (ht_profiles t))
    (<[id := account_row h u]> (az_profiles (ht_authz t))) t.
Proof.
  intros Hp Np. unfold insert_account_profile, profile_conflict. rewrite Hp. cbn [is_some_b orb].
  assert (forall i, is_some_and (fun p => (pf_home_id p =? h)%N) (az_profiles (ht_authz t) !! i) = false) as Hf.
  { intros i. destruct (az_profiles _ !! i) eqn:E; [|done]. cbn. apply N.eqb_neq. eauto. }
  rewrite !some_row_false; [done|..].
  - intros i c _. by rewrite Hf.
  - intros i c _. by rewrite Hf.
  - intros i p Hip. apply andb_false_iff. left. apply N.eqb_neq. eauto.
Qed.
Lemma account_profile_unique h u t id : az_profiles (ht_authz t) !! id = Some (account_row h u) ->
  (forall i p, az_profiles (ht_authz t) !! i = Some p -> pf_home_id p = h -> i = id) ->
  account_profile_of h u t = Some (id, account_row h u).
Proof.
  intros Hp Hu. unfold account_profile_of. apply find_unique.
  - by apply elem_of_map_to_list.
  - cbn. by rewrite N.eqb_refl, bool_decide_eq_true_2.
  - intros [i p] Hin Hc. apply elem_of_map_to_list in Hin. apply andb_true_iff in Hc as [Hc _]. cbn in Hc. apply N.eqb_eq in Hc.
    pose proof (Hu i p Hin Hc) as ->. congruence.
Qed.
Lemma insert_revision_new p h t : az_revisions (ht_authz t) !! p = None -> is_Some (az_profiles (ht_authz t) !! p) -> is_Some (ht_homes t !! h) ->
  insert_revision p h t = Ok (with_authz (with_revisions (<[p := {| rv_home_id := h; rv_revision := 1 |}]> (az_revisions (ht_authz t))) (ht_authz t)) t).
Proof. intros Hr [row Hp] [home Hh]. unfold insert_revision. rewrite Hr, Hp, Hh. done. Qed.
Definition new_bootstrap (user_id : uuid) (email : string) (now : instant) : OwnerHomeBootstrap :=
  {| bt_home_id := home_id_of user_id; bt_home := new_home user_id email now;
     bt_membership := {| hmem_id := stable_id "owner-membership" [home_id_of user_id; user_id]; hmem_home_id := home_id_of user_id;
                         hmem_user_id := user_id; hmem_role := Owner; hmem_status := "active" |};
     bt_profile := {| pr_id := profile_id_of user_id; pr_home_id := home_id_of user_id; pr_user_id := Some user_id;
                      pr_profile_type := Account; pr_display_name := owner_display_name email; pr_pin_hash := None;
                      pr_is_default := true |} |}.
(** The bootstrap of a new account succeeds: a home named after the email, owned by the account, with its account
    profile as the default one, at revision 1. *)
Theorem new_account_gets_home user_id email now t : new_account user_id email t ->
  exists t', ensure_owner_home user_id now t = Ok (new_bootstrap user_id email now, t')
    /\ az_members (ht_authz t') !! (home_id_of user_id, user_id) = Some {| mb_role := "owner"; mb_status := "active" |}
    /\ az_profiles (ht_authz t') !! profile_id_of user_id = Some (account_row (home_id_of user_id) user_id)
    /\ ht_profiles t' !! profile_id_of user_id = Some (default_columns (owner_display_name email))
    /\ az_revisions (ht_authz t') !! profile_id_of user_id = Some {| rv_home_id := home_id_of user_id; rv_revision := 1 |}.
Proof.
  intros [He (Rm & Rp & _ & Rr) Hl Hh Hi Hp]. unfold ensure_owner_home. rewrite He. run_ok. fold (home_id_of user_id).
  rewrite insert_home_new by done. fold (new_home user_id email now). set (t1 := with_homes _ t).
  rewrite (first_home_unique _ user_id t1 (home_id_of user_id) (new_home user_id email now)); [|cbn; by rewrite lookup_insert_eq|done|].
  2: { intros i row. cbn. rewrite lookup_insert. case_decide; [congruence|]. intros Hr Ho. by apply Hl in Hr. }
  run_ok. rewrite insert_owner_new; [|done|intros u m Hm; apply Rm in Hm as [? ?]; congruence]. set (t2 := with_members _ _ t1).
  fold (profile_id_of user_id).
  assert (forall i p, az_profiles (ht_authz t) !! i = Some p -> pf_home_id p <> home_id_of user_id) as Np
    by (intros i p Hip Heq; apply Rp in Hip as [? ?]; congruence).
  rewrite insert_profile_new by done. set (t3 := with_profiles _ _ t2).
  rewrite (insert_revision_new _ _ t3); [|cbn|cbn; rewrite lookup_insert_eq; eauto..].
  2: { destruct (az_revisions (ht_authz t) !! profile_id_of user_id) as [r|] eqn:E; [|done]. apply Rr in E as [? ?]. congruence. }
  run_ok. rewrite (account_profile_unique _ _ _ (profile_id_of user_id)); [|cbn; by rewrite lookup_insert_eq|].
  2: { intros i p. cbn. rewrite lookup_insert. case_decide; [congruence|]. intros Hr Ho. by apply Np in Hr. }
  unfold decode_member, decode_profile. cbn. rewrite !lookup_insert_eq. cbn. unfold require_owner_bootstrap. cbn. rewrite !N.eqb_refl.
  rewrite !bool_decide_eq_true_2 by done. cbn. eexists. split; [done|]. cbn. by rewrite !lookup_insert_eq.
Qed.

(** an account that migration 0053 gave a home: home, membership and profile carry the id of the account *)
Record migrated_account (user_id : uuid) (t : HomeTables) : Prop := {
  ma_user : is_Some (ht_users t !! user_id);
  ma_home : exists row, ht_homes t !! user_id = Some row /\ ho_owner_user_id row = user_id;
  ma_only : forall h row, ht_homes t !! h = Some row -> ho_owner_user_id row = user_id -> h = user_id;
  ma_profile : az_profiles (ht_authz t) !! user_id
    = Some {| pf_home_id := user_id; pf_user_id := Some user_id; pf_profile_type := "account" |};
  ma_unused : az_profiles (ht_authz t) !! stable_id "account-profile" [user_id; user_id] = None
    /\ az_revisions (ht_authz t) !! stable_id "account-profile" [user_id; user_id] = None;
}.
(** The bootstrap of an account that migration 0053 gave a home always fails: the profile with the stable id is
    not inserted because the account has one, so the revision of that id refers to no profile. *)
Theorem migrated_account_has_no_bootstrap user_id now t : migrated_account user_id t ->
  ensure_owner_home user_id now t = Err BootstrapStorage.
Proof.
  intros [[email He] (home & Hh & Ho) Hu Hp [Np Nr]]. unfold ensure_owner_home. rewrite He. run_ok.
  rewrite (insert_home_there _ _ _ _ _ _ _ Hh Ho).
  rewrite (first_home_unique _ user_id t user_id home) by done.
  run_ok.
  assert (forall i x, az_profiles (ht_authz (insert_owner i user_id user_id t)) = az_profiles (ht_authz t)
    /\ (ht_homes (insert_owner i user_id user_id t)) !! x = ht_homes t !! x
    /\ az_revisions (ht_authz (insert_owner i user_id user_id t)) = az_revisions (ht_authz t)) as Hf
    by (intros i x; unfold insert_owner; by case_match).
  set (t2 := insert_owner _ _ _ t). destruct (Hf (stable_id "owner-membership" [user_id; user_id]) user_id) as (F1 & F2 & F3). fold t2 in F1, F2, F3.
  rewrite (insert_profile_there _ user_id user_id _ t2 user_id (account_row user_id user_id)); [|by rewrite F1, Hp|done|done].
  unfold insert_revision. by rewrite F3, Nr, F1, Np.
Qed.
End Home.
