(* ===== verification/AuthSessions.v ===== *)
(** * Account sessions and refresh tokens (src/src/auth/mod.rs, auth/sessions.rs, migrations/0054)

    A login stores a session and the keyed hash of a refresh token; a refresh consumes the token and stores its
    successor; presenting a consumed token again revokes the session.  Access tokens are JWTs that name the
    session, whose principal is read from the tables at every request.

    An operation that fails before its commit leaves the tables as they were; some failures are committed, so an
    operation gives its result, the tables and the events it published ([run]).  Columns of uuids and timestamps
    hold what the code wrote.  [ck_*] are the readings of the clock during an operation, random values are
    arguments. *)
From S2P Require Import Prelude Bytes LiveContract Crypto CatalogGrants CanonicalJson SessionStore RevocationOutbox AdminAudit Authz HomeProfiles.

(** ** Configuration (config.rs) *)
Record AuthConfig := {
  access_token_secret : string;
  access_token_ttl_minutes : Z;
  remembered_device_ttl_days : Z;
  refresh_token_secret : option string;
  csrf_secret : option string;
  refresh_token_rotation : bool;
  require_recent_auth_seconds : Z;
}.
Inductive RunEnvironment := Development | Production.
#[export] Instance RunEnvironment_eq_dec : EqDecision RunEnvironment.
Proof. solve_decision. Defined.
Definition u64_checked_mul (a b : Z) : option Z := if (a * b <=? u64_max)%Z then Some (a * b)%Z else None.
(** [i64::try_from] of a [u64], then [chrono::Duration::try_seconds]: a duration has at most i64::MAX milliseconds *)
Definition try_seconds (s : Z) : option Z := if (s <=? i64_max / 1000)%Z then Some (seconds s) else None.
Definition DAY_SECONDS : Z := 24 * 60 * 60.

(** ** Data *)
Record AccessClaims := {
  ac_sub : string; ac_sid : string; ac_hid : option string; ac_pid : option string; ac_role : option string;
  ac_exp : Z; ac_iat : Z;
}.
Record VerifiedAccessClaims := {
  vc_user_id : uuid; vc_session_id : uuid; vc_home_id_hint : option uuid; vc_profile_id_hint : option uuid;
  vc_role_hint : option HomeRole; vc_expires_at : instant; vc_issued_at : instant;
}.
Record LoginContext := {
  lc_device_name : option string; lc_device_type : option string; lc_client_name : option string;
  lc_client_version : option string; lc_user_agent : option string; lc_ip_hash : option string;
  lc_remember_device : bool;
}.
Definition LoginContext_default : LoginContext :=
  {| lc_device_name := None; lc_device_type := None; lc_client_name := None; lc_client_version := None;
     lc_user_agent := None; lc_ip_hash := None; lc_remember_device := true |}.
Record SessionProfile := { spf_id : uuid; spf_display_name : string; spf_profile_type : ProfileType }.
Record LoginTokens := {
  lt_access_token : string; lt_access_expires_at : instant; lt_refresh_token : string; lt_refresh_expires_at : instant;
  lt_session_id : uuid; lt_home_id : uuid; lt_profile_id : uuid; lt_role : HomeRole; lt_csrf_token : string;
  lt_profile : SessionProfile;
}.
Record SessionPrincipal := {
  sp_user_id : uuid; sp_account_session_id : uuid; sp_home_id : uuid; sp_profile_id : uuid; sp_role : HomeRole;
  sp_profile_type : ProfileType; sp_profile_display_name : string; sp_remember_device : bool; sp_csrf_revision : Z;
  sp_capability_revision : Z; sp_session_expires_at : instant;
}.
Inductive AuthSessionError :=
| InvalidRefreshToken | RefreshTokenReused | SessionRevoked | SessionExpired | InvalidPrincipal | ProfileUnavailable
| ProfileSwitchConflict | InvalidContext (what : string) | InvalidState (what : string) | AuthStorage
| Bootstrap (e : BootstrapError) | TokenSigning | AuthCryptography | AuthRevocation (e : RevocationError).
Definition is_authentication_failure (e : AuthSessionError) : bool :=
  match e with
  | InvalidRefreshToken | RefreshTokenReused | SessionRevoked | SessionExpired | InvalidPrincipal => true
  | _ => false
  end.

(** ** Tables *)
Record AccountSession := {
  acs_user_id : uuid;
  acs_home_id : option uuid;
  acs_active_profile_id : option uuid;
  acs_context : LoginContext;                            (* the columns device_name to remember_device *)
  acs_csrf_revision : Z;
  acs_created_at : instant;
  acs_last_seen_at : instant;
  acs_recent_auth_at : instant;
  acs_expires_at : instant;
  acs_revoked_at : option instant;
  acs_revoked_reason : option string;
}.
Record RefreshToken := {
  rt_session_id : uuid;
  rt_token_hash : string;
  rt_token_family : uuid;
  rt_previous_token_id : option uuid;
  rt_created_at : instant;
  rt_expires_at : instant;
  rt_used_at : option instant;
  rt_revoked_at : option instant;
  rt_replaced_by_token_id : option uuid;
}.
Record AuthTables := {
  at_home : HomeTables;
  at_sessions : gmap uuid AccountSession;
  at_tokens : gmap uuid RefreshToken;
}.
Definition at_authz (t : AuthTables) : AuthzTables := ht_authz (at_home t).
Definition set_home (h : HomeTables) (t : AuthTables) : AuthTables :=
  {| at_home := h; at_sessions := at_sessions t; at_tokens := at_tokens t |}.
Definition set_account_sessions (s : gmap uuid AccountSession) (t : AuthTables) : AuthTables :=
  {| at_home := at_home t; at_sessions := s; at_tokens := at_tokens t |}.
Definition set_tokens (k : gmap uuid RefreshToken) (t : AuthTables) : AuthTables :=
  {| at_home := at_home t; at_sessions := at_sessions t; at_tokens := k |}.
Definition set_outbox (o : Outbox) (t : AuthTables) : AuthTables :=
  set_home (with_authz (with_outbox o (at_authz t)) (at_home t)) t.

(** ** Texts of a request *)
Definition normalize_required (label value : string) (max_chars : Z) : result AuthSessionError string :=
  let value := trim value in
  _ ← reject_if (str_empty value || (max_chars <? char_count value)%Z || any_control value) (InvalidContext label);
  Ok value.
Definition normalize_optional (label : string) (value : option string) (max_chars : Z) : result AuthSessionError (option string) :=
  match value with
  | None => Ok None
  | Some value => if str_empty (trim value) then Ok None else Some <$> normalize_required label value max_chars
  end.
Definition normalize_context (c : LoginContext) : result AuthSessionError LoginContext :=
  device_name ← normalize_optional "device name" (lc_device_name c) 128;
  device_type ← normalize_optional "device type" (lc_device_type c) 64;
  client_name ← normalize_optional "client name" (lc_client_name c) 64;
  client_version ← normalize_optional "client version" (lc_client_version c) 64;
  user_agent ← normalize_optional "user agent" (lc_user_agent c) 512;
  ip_hash ← normalize_optional "IP hash" (lc_ip_hash c) 128;
  Ok {| lc_device_name := device_name; lc_device_type := device_type; lc_client_name := client_name;
        lc_client_version := client_version; lc_user_agent := user_agent; lc_ip_hash := ip_hash;
        lc_remember_device := lc_remember_device c |}.
(** COALESCE of each column, [remember_device] as it was *)
Definition merge_context (c stored : LoginContext) : LoginContext :=
  let coalesce (f : LoginContext -> option string) := match f c with Some v => Some v | None => f stored end in
  {| lc_device_name := coalesce lc_device_name; lc_device_type := coalesce lc_device_type;
     lc_client_name := coalesce lc_client_name; lc_client_version := coalesce lc_client_version;
     lc_user_agent := coalesce lc_user_agent; lc_ip_hash := coalesce lc_ip_hash;
     lc_remember_device := lc_remember_device stored |}.

(** ** The service *)
Class AuthOps := {
  sha256 : string -> string;
  (** [jsonwebtoken::encode] with HS256 and typ JWT, and [decode] with [Validation::new(HS256)], which rejects a
      token 60 seconds after its expiration: the key, the time *)
  jwt_encode : string -> AccessClaims -> option string;
  jwt_decode : string -> instant -> string -> option AccessClaims;
  (** [DateTime::from_timestamp(seconds, 0)] *)
  from_timestamp : Z -> option instant;
}.
Definition timestamp (t : instant) : Z := (t / nanos_per_second)%Z.
Definition JWT_LEEWAY : Z := 60.
Class AuthLaws (A : AuthOps) (O : OutboxOps) : Prop := {
  jwt_encode_defined key c : is_Some (jwt_encode key c);
  jwt_roundtrip key c token now : jwt_encode key c = Some token -> (timestamp now <= ac_exp c + JWT_LEEWAY)%Z ->
    jwt_decode key now token = Some c;
  jwt_expires key c token now : jwt_decode key now token = Some c -> (timestamp now <= ac_exp c + JWT_LEEWAY)%Z;
  add_exact t d r : outbox_add_nanos t d = Some r -> r = (t + d)%Z;
  timestamp_i64 t d r : outbox_add_nanos t d = Some r -> (timestamp r <= i64_max)%Z;
  from_timestamp_of t d r : outbox_add_nanos t d = Some r -> from_timestamp (timestamp r) = Some (seconds (timestamp r));
}.

Record AuthService := {
  sv_access_key : string; sv_refresh_token_key : string; sv_csrf_key : string; sv_config : AuthConfig;
}.
(** the clock during an operation: [Utc::now()] where the code reads it, and [CURRENT_TIMESTAMP] *)
Record Clock := { ck_now : instant; ck_principal : instant; ck_sign : instant; ck_event : instant; ck_sql : instant }.

Definition REFRESH_TOKEN_PREFIX : string := "elx_refresh_v1_".
Definition REFRESH_TOKEN_DOMAIN : string := "elixir.auth.refresh-token.v1".
Definition CSRF_TOKEN_PREFIX : string := "elx_csrf_v1_".
Definition CSRF_TOKEN_DOMAIN : string := "elixir.auth.csrf.v1".
Definition MAX_CSRF_REVISION : Z := i32_max.
Definition LAST_SEEN_TOUCH_INTERVAL_MINUTES : Z := 5.

(** [Uuid::as_bytes] *)
Definition uuid_bytes (u : uuid) : string :=
  be64 (Z.of_N u / 18446744073709551616) +:+ be64 (Z.of_N u mod 18446744073709551616).
(** one [update_framed]; the [u64::try_from] of a length does not fail on 64-bit targets *)
Definition framed (value : string) : string := be64 (slen value) +:+ value.

Section Service.
Context `{CryptoPrims} `{UuidText} `{O : OutboxOps} `{AuthOps}.

Definition validate_auth_secret (secret : string) : bool := (32 <=? slen secret)%Z.
Definition validate_auth_duration (now : instant) (s : Z) (require_future_timestamp : bool) : bool :=
  match (if (s <=? i64_max)%Z then try_seconds s else None) with
  | Some d => negb require_future_timestamp || is_some_b (outbox_add_nanos now d)
  | None => false
  end.
(** [AuthConfig::validate]; the errors are messages *)
Definition AuthConfig_validate (environment : RunEnvironment) (now : instant) (c : AuthConfig) : bool :=
  negb (str_empty (access_token_secret c))
  && negb (access_token_ttl_minutes c =? 0)%Z && negb (remembered_device_ttl_days c =? 0)%Z
  && negb (require_recent_auth_seconds c =? 0)%Z
  && is_some_and (fun s => validate_auth_duration now s true) (u64_checked_mul (access_token_ttl_minutes c) 60)
  && is_some_and (fun s => validate_auth_duration now s true) (u64_checked_mul (remembered_device_ttl_days c) DAY_SECONDS)
  && validate_auth_duration now (require_recent_auth_seconds c) false
  && refresh_token_rotation c
  && match refresh_token_secret c, csrf_secret c with
     | None, None => bool_decide (environment = Development)
     | Some refresh, Some csrf =>
         validate_auth_secret refresh && validate_auth_secret csrf && negb (String.eqb refresh csrf)
         && (bool_decide (environment <> Production)
             || (validate_auth_secret (access_token_secret c)
                 && negb (String.eqb (access_token_secret c) refresh) && negb (String.eqb (access_token_secret c) csrf)))
     | _, _ => false
     end.

Definition resolve_session_key (configured : option string) (access_secret domain : string) : string :=
  match configured with
  | Some secret => secret
  | None => sha256 (domain +:+ be64 (slen access_secret) +:+ access_secret)
  end.
Definition AuthService_new (now : instant) (c : AuthConfig) : option AuthService :=
  if AuthConfig_validate Development now c then
    Some {| sv_access_key := access_token_secret c;
            sv_refresh_token_key := resolve_session_key (refresh_token_secret c) (access_token_secret c)
              "elixir.auth.development.refresh-token-key.v1";
            sv_csrf_key := resolve_session_key (csrf_secret c) (access_token_secret c) "elixir.auth.development.csrf-key.v1";
            sv_config := c |}
  else None.

(** ** Access tokens *)
(** [usize::try_from] of a timestamp *)
Definition claim_seconds (t : instant) : option Z := if (0 <=? timestamp t)%Z then Some (timestamp t) else None.
Definition sign_access_token_claims (s : AuthService) (user_id session_id : uuid) (principal : option (uuid * uuid * HomeRole))
    (ttl_minutes : Z) (now : instant) : option (string * instant) :=
  ttl_seconds ← u64_checked_mul ttl_minutes 60;
  ttl ← (if (ttl_seconds <=? i64_max)%Z then try_seconds ttl_seconds else None);
  expires_at ← outbox_add_nanos now ttl;
  iat ← claim_seconds now;
  exp ← claim_seconds expires_at;
  token ← jwt_encode (sv_access_key s)
    {| ac_sub := uuid_to_string user_id; ac_sid := uuid_to_string session_id;
       ac_hid := (fun p => uuid_to_string p.1.1) <$> principal; ac_pid := (fun p => uuid_to_string p.1.2) <$> principal;
       ac_role := (fun p => role_str p.2) <$> principal; ac_exp := exp; ac_iat := iat |};
  Some (token, expires_at).
Definition sign_session_access_token (s : AuthService) (user_id session_id home_id profile_id : uuid) (role : HomeRole)
    (now : instant) : option (string * instant) :=
  sign_access_token_claims s user_id session_id (Some (home_id, profile_id, role)) (access_token_ttl_minutes (sv_config s)) now.
Definition sign_access_token (s : AuthService) (user_id session_id : uuid) (now : instant) : option (string * instant) :=
  sign_access_token_claims s user_id session_id None (access_token_ttl_minutes (sv_config s)) now.

(** [Option::map(parse).transpose()] *)
Definition parse_hint {A} (parse : string -> option A) (o : option string) : option (option A) :=
  match o with None => Some None | Some v => Some <$> parse v end.
Definition timestamp_from_claim (value : Z) : option instant :=
  if (value <=? i64_max)%Z then from_timestamp value else None.
Definition verify_access_claims (s : AuthService) (now : instant) (token : string) : option VerifiedAccessClaims :=
  c ← jwt_decode (sv_access_key s) now token;
  user_id ← uuid_parse_str (ac_sub c);
  session_id ← uuid_parse_str (ac_sid c);
  home_id_hint ← parse_hint uuid_parse_str (ac_hid c);
  profile_id_hint ← parse_hint uuid_parse_str (ac_pid c);
  role_hint ← parse_hint HomeRole_try_from (ac_role c);
  expires_at ← timestamp_from_claim (ac_exp c);
  issued_at ← timestamp_from_claim (ac_iat c);
  Some {| vc_user_id := user_id; vc_session_id := session_id; vc_home_id_hint := home_id_hint;
          vc_profile_id_hint := profile_id_hint; vc_role_hint := role_hint; vc_expires_at := expires_at;
          vc_issued_at := issued_at |}.

(** ** Keyed tokens *)
Definition hash_refresh_token (s : AuthService) (token : string) : string :=
  b64url_encode (hmac (sv_refresh_token_key s) (framed REFRESH_TOKEN_DOMAIN +:+ framed token)).
Definition csrf_message (session_id : uuid) (csrf_revision : Z) : string :=
  framed (uuid_bytes session_id) +:+ framed (be32 csrf_revision) +:+ framed CSRF_TOKEN_DOMAIN.
Definition csrf_token (s : AuthService) (session_id : uuid) (csrf_revision : Z) : result AuthSessionError string :=
  _ ← reject_if (csrf_revision <=? 0)%Z (InvalidState "CSRF revision");
  Ok (CSRF_TOKEN_PREFIX +:+ b64url_encode (hmac (sv_csrf_key s) (csrf_message session_id csrf_revision))).
(** of 32 random bytes *)
Definition generate_refresh_token (random : string) : string := REFRESH_TOKEN_PREFIX +:+ b64url_encode random.
Definition validate_refresh_token_shape (token : string) : result AuthSessionError unit :=
  encoded ← ok_or (strip_prefix REFRESH_TOKEN_PREFIX token) InvalidRefreshToken;
  _ ← reject_if (negb (slen encoded =? 43)%Z) InvalidRefreshToken;
  decoded ← ok_or (b64url_decode encoded) InvalidRefreshToken;
  reject_if (negb (slen decoded =? 32)%Z) InvalidRefreshToken.
Definition session_expiration (s : AuthService) (now : instant) (remember_device : bool) : result AuthSessionError instant :=
  ttl ← ok_or (if remember_device then u64_checked_mul (remembered_device_ttl_days (sv_config s)) DAY_SECONDS
               else u64_checked_mul (access_token_ttl_minutes (sv_config s)) 60) (InvalidState "session TTL");
  _ ← reject_if (i64_max <? ttl)%Z (InvalidState "session TTL");
  duration ← ok_or (try_seconds ttl) (InvalidState "session TTL");
  ok_or (outbox_add_nanos now duration) (InvalidState "session expiration").

(** ** Principals *)
Record PrincipalRow := {
  pn_user_id : uuid; pn_session_id : uuid; pn_home_id : uuid; pn_profile_id : uuid; pn_role : string;
  pn_profile_type : string; pn_display_name : string; pn_remember_device : bool; pn_csrf_revision : Z;
  pn_last_seen_at : instant; pn_capability_revision : Z; pn_expires_at : instant;
}.
(** a profile the account may use: its own, or a managed one *)
Definition usable_by (user_id : uuid) (p : ProfileRow) : bool :=
  (String.eqb (pf_profile_type p) "account" && bool_decide (pf_user_id p = Some user_id))
  || (String.eqb (pf_profile_type p) "managed" && bool_decide (pf_user_id p = None)).
(** [PRINCIPAL_QUERY]: a NULL joins nothing *)
Definition principal_row (user_id session_id : uuid) (t : AuthTables) : option PrincipalRow :=
  s ← at_sessions t !! session_id;
  home_id ← acs_home_id s;
  profile_id ← acs_active_profile_id s;
  p ← az_profiles (at_authz t) !! profile_id;
  columns ← ht_profiles (at_home t) !! profile_id;
  m ← az_members (at_authz t) !! (home_id, acs_user_id s);
  r ← az_revisions (at_authz t) !! profile_id;
  if (pf_home_id p =? home_id)%N && String.eqb (mb_status m) "active" && (rv_home_id r =? home_id)%N
     && (acs_user_id s =? user_id)%N && is_none_b (acs_revoked_at s) && usable_by (acs_user_id s) p
  then Some {| pn_user_id := acs_user_id s; pn_session_id := session_id; pn_home_id := home_id; pn_profile_id := profile_id;
               pn_role := mb_role m; pn_profile_type := pf_profile_type p; pn_display_name := px_display_name columns;
               pn_remember_device := lc_remember_device (acs_context s); pn_csrf_revision := acs_csrf_revision s;
               pn_last_seen_at := acs_last_seen_at s; pn_capability_revision := rv_revision r; pn_expires_at := acs_expires_at s |}
  else None.
(** [SessionPrincipal::try_from] *)
Definition principal_try_from (row : PrincipalRow) : result AuthSessionError SessionPrincipal :=
  profile_type ← ok_or (ProfileType_try_from (pn_profile_type row)) (InvalidState "profile type");
  membership_role ← ok_or (HomeRole_try_from (pn_role row)) (InvalidState "home role");
  Ok {| sp_user_id := pn_user_id row; sp_account_session_id := pn_session_id row; sp_home_id := pn_home_id row;
        sp_profile_id := pn_profile_id row;
        sp_role := if bool_decide (profile_type = Managed) then Viewer else membership_role;
        sp_profile_type := profile_type; sp_profile_display_name := pn_display_name row;
        sp_remember_device := pn_remember_device row; sp_csrf_revision := pn_csrf_revision row;
        sp_capability_revision := pn_capability_revision row; sp_session_expires_at := pn_expires_at row |}.
Definition decode_active_principal (now : instant) (row : option PrincipalRow)
    : result AuthSessionError (option (SessionPrincipal * instant)) :=
  match row with
  | None => Ok None
  | Some row =>
      principal ← principal_try_from row;
      Ok (if (sp_session_expires_at principal <=? now)%Z then None else Some (principal, pn_last_seen_at row))
  end.
Definition load_principal_in_transaction (now : instant) (user_id session_id : uuid) (t : AuthTables)
    : result AuthSessionError (option SessionPrincipal) :=
  row ← decode_active_principal now (principal_row user_id session_id t);
  Ok (option_map fst row).

(** ** Statements *)
Definition claimable_token (token_hash : string) (k : RefreshToken) : bool :=
  String.eqb (rt_token_hash k) token_hash && is_none_b (rt_used_at k) && is_none_b (rt_revoked_at k).
Definition mark_used (now : instant) (k : RefreshToken) : RefreshToken :=
  {| rt_session_id := rt_session_id k; rt_token_hash := rt_token_hash k; rt_token_family := rt_token_family k;
     rt_previous_token_id := rt_previous_token_id k; rt_created_at := rt_created_at k; rt_expires_at := rt_expires_at k;
     rt_used_at := Some now; rt_revoked_at := rt_revoked_at k; rt_replaced_by_token_id := rt_replaced_by_token_id k |}.
Definition mark_revoked (now : instant) (k : RefreshToken) : RefreshToken :=
  {| rt_session_id := rt_session_id k; rt_token_hash := rt_token_hash k; rt_token_family := rt_token_family k;
     rt_previous_token_id := rt_previous_token_id k; rt_created_at := rt_created_at k; rt_expires_at := rt_expires_at k;
     rt_used_at := rt_used_at k; rt_revoked_at := Some (default now (rt_revoked_at k));
     rt_replaced_by_token_id := rt_replaced_by_token_id k |}.
Definition mark_replaced (replacement : uuid) (k : RefreshToken) : RefreshToken :=
  {| rt_session_id := rt_session_id k; rt_token_hash := rt_token_hash k; rt_token_family := rt_token_family k;
     rt_previous_token_id := rt_previous_token_id k; rt_created_at := rt_created_at k; rt_expires_at := rt_expires_at k;
     rt_used_at := rt_used_at k; rt_revoked_at := rt_revoked_at k; rt_replaced_by_token_id := Some replacement |}.
(** UPDATE refresh_tokens SET f WHERE p *)
Definition update_tokens (p : RefreshToken -> bool) (f : RefreshToken -> RefreshToken) (t : AuthTables) : AuthTables :=
  set_tokens ((fun k => if p k then f k else k) <$> at_tokens t) t.
Definition count_tokens (p : RefreshToken -> bool) (t : AuthTables) : nat :=
  length (List.filter (fun kv => p kv.2) (map_to_list (at_tokens t))).
(** the constraints of refresh_tokens: the keys, the references, the length of the hash *)
Definition insert_token (id : uuid) (k : RefreshToken) (t : AuthTables) : result AuthSessionError AuthTables :=
  _ ← reject_if (is_some_b (at_tokens t !! id) || (0 <? count_tokens (fun k' => String.eqb (rt_token_hash k') (rt_token_hash k)) t)%nat
                 || negb (char_count (rt_token_hash k) =? 43)%Z || is_none_b (at_sessions t !! rt_session_id k)
                 || is_some_and (fun p => is_none_b (at_tokens t !! p)) (rt_previous_token_id k)) AuthStorage;
  Ok (set_tokens (<[id := k]> (at_tokens t)) t).
(** the constraints of account_sessions *)
Definition insert_session (id : uuid) (s : AccountSession) (t : AuthTables) : result AuthSessionError AuthTables :=
  _ ← reject_if (is_some_b (at_sessions t !! id) || is_none_b (ht_users (at_home t) !! acs_user_id s)
                 || is_some_and (fun h => is_none_b (ht_homes (at_home t) !! h)) (acs_home_id s)
                 || is_some_and (fun p => is_none_b (az_profiles (at_authz t) !! p)) (acs_active_profile_id s)) AuthStorage;
  Ok (set_account_sessions (<[id := s]> (at_sessions t)) t).

Record RefreshState := {
  rs_token_id : uuid; rs_token : RefreshToken; rs_session : AccountSession;
}.
Definition load_refresh_state (token_hash : string) (t : AuthTables) : option RefreshState :=
  '(id, k) ← List.find (fun kv => String.eqb (rt_token_hash kv.2) token_hash && is_some_b (at_sessions t !! rt_session_id kv.2))
               (map_to_list (at_tokens t));
  s ← at_sessions t !! rt_session_id k;
  Some {| rs_token_id := id; rs_token := k; rs_session := s |}.

(** ** Revocation *)
Definition end_session (reason : string) (now : instant) (s : AccountSession) : AccountSession :=
  {| acs_user_id := acs_user_id s; acs_home_id := acs_home_id s; acs_active_profile_id := acs_active_profile_id s;
     acs_context := acs_context s; acs_csrf_revision := acs_csrf_revision s; acs_created_at := acs_created_at s;
     acs_last_seen_at := acs_last_seen_at s; acs_recent_auth_at := acs_recent_auth_at s; acs_expires_at := acs_expires_at s;
     acs_revoked_at := Some now; acs_revoked_reason := Some reason |}.
Definition append_event (event_id : uuid) (now : instant) (event : NewAuthorizationRevocation) (t : AuthTables)
    : result AuthSessionError AuthTables :=
  '(_, o) ← map_err AuthRevocation (append_revocation event_id now event (az_outbox (at_authz t)));
  Ok (set_outbox o t).
(** [revoke_session_in_transaction]: the event published, if one was appended *)
Definition revoke_session_in_transaction (c : Clock) (event_id session_id : uuid) (reason : string) (t : AuthTables)
    : result AuthSessionError (option uuid * AuthTables) :=
  let revoked := match at_sessions t !! session_id with
                 | Some s => if is_none_b (acs_revoked_at s) then Some s else None
                 | None => None
                 end in
  let t := match revoked with
           | Some s => set_account_sessions (<[session_id := end_session reason (ck_sql c) s]> (at_sessions t)) t
           | None => t
           end in
  let t := update_tokens (fun k => (rt_session_id k =? session_id)%N) (mark_revoked (ck_sql c)) t in
  match revoked with
  | None => Ok (None, t)
  | Some s =>
      match acs_home_id s with
      | None => Ok (None, t)
      | Some home_id =>
          t ← append_event event_id (ck_event c) (account_session home_id session_id (acs_active_profile_id s) reason) t;
          Ok (Some event_id, t)
      end
  end.
Definition revoke_family_in_transaction (c : Clock) (event_id session_id token_family : uuid) (reason : string) (t : AuthTables)
    : result AuthSessionError (option uuid * AuthTables) :=
  revoke_session_in_transaction c event_id session_id reason
    (update_tokens (fun k => (rt_token_family k =? token_family)%N) (mark_revoked (ck_sql c)) t).

(** ** Operations *)
(** what an operation answers, leaves and publishes; a transaction that fails before its commit leaves the tables *)
Definition outcome (A : Type) : Type := (result AuthSessionError A * AuthTables * list uuid)%type.
Definition run {A} (m : AuthTables -> result AuthSessionError (outcome A)) (t : AuthTables) : outcome A :=
  match m t with Ok o => o | Err e => (Err e, t, []) end.
Definition published (event : option uuid) : list uuid := match event with Some e => [e] | None => [] end.
(** commit, publish, fail *)
Definition commit_failure {A} (e : AuthSessionError) (revoked : option uuid * AuthTables) : outcome A :=
  (Err e, revoked.2, published revoked.1).

Context (uuid_v5 : string -> uuid).
(** the random values of a login or a refresh *)
Record Draws := { dr_session_id : uuid; dr_token_id : uuid; dr_token_family : uuid; dr_random : string; dr_event_id : uuid }.

Definition issue_login_tokens_in_transaction (s : AuthService) (c : Clock) (d : Draws) (user_id : uuid) (context : LoginContext)
    (t : AuthTables) : result AuthSessionError (LoginTokens * AuthTables) :=
  context ← normalize_context context;
  '(bootstrap, h) ← map_err Bootstrap (ensure_owner_home uuid_v5 user_id (ck_sql c) (at_home t));
  let t := set_home h t in
  refresh_expires_at ← session_expiration s (ck_now c) (lc_remember_device context);
  let refresh_token := generate_refresh_token (dr_random d) in
  let token_hash := hash_refresh_token s refresh_token in
  let home_id := bt_home_id bootstrap in
  let profile := bt_profile bootstrap in
  let role := hmem_role (bt_membership bootstrap) in
  t ← insert_session (dr_session_id d)
        {| acs_user_id := user_id; acs_home_id := Some home_id; acs_active_profile_id := Some (pr_id profile);
           acs_context := context; acs_csrf_revision := 1; acs_created_at := ck_sql c; acs_last_seen_at := ck_sql c;
           acs_recent_auth_at := ck_sql c; acs_expires_at := refresh_expires_at; acs_revoked_at := None;
           acs_revoked_reason := None |} t;
  t ← insert_token (dr_token_id d)
        {| rt_session_id := dr_session_id d; rt_token_hash := token_hash; rt_token_family := dr_token_family d;
           rt_previous_token_id := None; rt_created_at := ck_sql c; rt_expires_at := refresh_expires_at; rt_used_at := None;
           rt_revoked_at := None; rt_replaced_by_token_id := None |} t;
  '(access_token, access_expires_at) ← ok_or (sign_session_access_token s user_id (dr_session_id d) home_id (pr_id profile) role
                                                (ck_sign c)) TokenSigning;
  csrf_token ← csrf_token s (dr_session_id d) 1;
  Ok ({| lt_access_token := access_token; lt_access_expires_at := access_expires_at; lt_refresh_token := refresh_token;
         lt_refresh_expires_at := refresh_expires_at; lt_session_id := dr_session_id d; lt_home_id := home_id;
         lt_profile_id := pr_id profile; lt_role := role; lt_csrf_token := csrf_token;
         lt_profile := {| spf_id := pr_id profile; spf_display_name := pr_display_name profile;
                          spf_profile_type := pr_profile_type profile |} |}, t).
Definition issue_login_tokens (s : AuthService) (c : Clock) (d : Draws) (user_id : uuid) (context : LoginContext) : AuthTables -> outcome LoginTokens :=
  run (fun t => '(tokens, t) ← issue_login_tokens_in_transaction s c d user_id context t; Ok (Ok tokens, t, [])).

(** the UPDATE of the session that a refresh makes, with the revision it returns *)
Definition touch_session (context : LoginContext) (expires_at now : instant) (s : AccountSession) : AccountSession :=
  {| acs_user_id := acs_user_id s; acs_home_id := acs_home_id s; acs_active_profile_id := acs_active_profile_id s;
     acs_context := merge_context context (acs_context s); acs_csrf_revision := acs_csrf_revision s + 1;
     acs_created_at := acs_created_at s; acs_last_seen_at := now; acs_recent_auth_at := acs_recent_auth_at s;
     acs_expires_at := expires_at; acs_revoked_at := acs_revoked_at s; acs_revoked_reason := acs_revoked_reason s |}.
Definition bump_session (session_id : uuid) (context : LoginContext) (expires_at now : instant) (t : AuthTables) : option (Z * AuthTables) :=
  s ← at_sessions t !! session_id;
  if is_none_b (acs_revoked_at s) && (acs_csrf_revision s <? MAX_CSRF_REVISION)%Z
  then Some (acs_csrf_revision s + 1, set_account_sessions (<[session_id := touch_session context expires_at now s]> (at_sessions t)) t)%Z
  else None.

(** a refresh whose token was claimed *)
Definition rotate_token (s : AuthService) (c : Clock) (d : Draws) (context : LoginContext) (state : RefreshState) (t : AuthTables)
    : result AuthSessionError (outcome LoginTokens) :=
  let session_id := rt_session_id (rs_token state) in
  let family := rt_token_family (rs_token state) in
  let refuse_with e reason t := commit_failure e <$> revoke_family_in_transaction c (dr_event_id d) session_id family reason t in
  _ ← reject_if (is_some_b (rt_revoked_at (rs_token state)) || is_some_b (acs_revoked_at (rs_session state))) SessionRevoked;
  _ ← reject_if ((rt_expires_at (rs_token state) <=? ck_now c) || (acs_expires_at (rs_session state) <=? ck_now c))%Z SessionExpired;
  refresh_expires_at ← session_expiration s (ck_now c) (lc_remember_device (acs_context (rs_session state)));
  match bump_session session_id context refresh_expires_at (ck_sql c) t with
  | None => refuse_with SessionRevoked "csrf_revision_overflow_or_revoked" t
  | Some (csrf_revision, t) =>
      let replacement := generate_refresh_token (dr_random d) in
      t ← insert_token (dr_token_id d)
            {| rt_session_id := session_id; rt_token_hash := hash_refresh_token s replacement; rt_token_family := family;
               rt_previous_token_id := Some (rs_token_id state); rt_created_at := ck_sql c; rt_expires_at := refresh_expires_at;
               rt_used_at := None; rt_revoked_at := None; rt_replaced_by_token_id := None |} t;
      let t := match at_tokens t !! rs_token_id state with
               | Some k => if is_some_b (rt_used_at k)
                           then set_tokens (<[rs_token_id state := mark_replaced (dr_token_id d) k]> (at_tokens t)) t else t
               | None => t
               end in
      principal ← load_principal_in_transaction (ck_principal c) (acs_user_id (rs_session state)) session_id t;
      match principal with
      | None => refuse_with InvalidPrincipal "invalid_principal" t
      | Some p =>
          '(access_token, access_expires_at) ← ok_or (sign_session_access_token s (sp_user_id p) (sp_account_session_id p)
              (sp_home_id p) (sp_profile_id p) (sp_role p) (ck_sign c)) TokenSigning;
          csrf_token ← csrf_token s session_id csrf_revision;
          Ok (Ok {| lt_access_token := access_token; lt_access_expires_at := access_expires_at; lt_refresh_token := replacement;
                    lt_refresh_expires_at := refresh_expires_at; lt_session_id := session_id; lt_home_id := sp_home_id p;
                    lt_profile_id := sp_profile_id p; lt_role := sp_role p; lt_csrf_token := csrf_token;
                    lt_profile := {| spf_id := sp_profile_id p; spf_display_name := sp_profile_display_name p;
                                     spf_profile_type := sp_profile_type p |} |}, t, [])
      end
  end.
Definition refresh_session (s : AuthService) (c : Clock) (d : Draws) (presented_token : string) (context : LoginContext)
    : AuthTables -> outcome LoginTokens := run (fun t =>
  _ ← validate_refresh_token_shape presented_token;
  context ← normalize_context context;
  let presented_hash := hash_refresh_token s presented_token in
  let claimed := count_tokens (claimable_token presented_hash) t in
  let t := update_tokens (claimable_token presented_hash) (mark_used (ck_sql c)) t in
  state ← ok_or (load_refresh_state presented_hash t) InvalidRefreshToken;
  if negb (claimed =? 1)%nat then
    if is_some_b (rt_used_at (rs_token state)) then
      commit_failure RefreshTokenReused <$>
        revoke_family_in_transaction c (dr_event_id d) (rt_session_id (rs_token state)) (rt_token_family (rs_token state))
          "refresh_token_reuse" t
    else Err (if is_some_b (rt_revoked_at (rs_token state)) || is_some_b (acs_revoked_at (rs_session state)) then SessionRevoked
              else InvalidState "refresh-token claim")
  else rotate_token s c d context state t).

Definition revoke_session (c : Clock) (event_id session_id : uuid) (reason : string) : AuthTables -> outcome unit := run (fun t =>
  reason ← normalize_required "revocation reason" reason 128;
  '(event, t) ← revoke_session_in_transaction c event_id session_id reason t;
  Ok (Ok (), t, published event)).

(** [revoke_all_sessions_in_transaction]: the homes of the sessions ended are a hash set, in the order it iterates;
    [event_id] draws the id of the nth event *)
Fixpoint append_account_events (c : Clock) (event_id : nat -> uuid) (n : nat) (homes : list uuid) (user_id : uuid) (reason : string)
    (t : AuthTables) : result AuthSessionError (list uuid * AuthTables) :=
  match homes with
  | [] => Ok ([], t)
  | home_id :: homes =>
      t ← append_event (event_id n) (ck_event c) (account home_id user_id reason) t;
      '(events, t) ← append_account_events c event_id (S n) homes user_id reason t;
      Ok (event_id n :: events, t)
  end.
Definition ended_by (user_id : uuid) (s : AccountSession) : bool := (acs_user_id s =? user_id)%N && is_none_b (acs_revoked_at s).
Definition homes_ended (user_id : uuid) (t : AuthTables) : gset uuid :=
  list_to_set (omap acs_home_id (List.filter (ended_by user_id) (map_to_list (at_sessions t)).*2)).
Definition revoke_all_sessions_in_transaction (hash_order : gset uuid -> list uuid) (c : Clock) (event_id : nat -> uuid)
    (user_id : uuid) (reason : string) (t : AuthTables) : result AuthSessionError (list uuid * AuthTables) :=
  reason ← normalize_required "revocation reason" reason 128;
  let homes := hash_order (homes_ended user_id t) in
  let t := set_account_sessions ((fun s => if ended_by user_id s then end_session reason (ck_sql c) s else s) <$> at_sessions t) t in
  let of_user k := is_some_and (fun s => (acs_user_id s =? user_id)%N) (at_sessions t !! rt_session_id k) in
  let t := update_tokens of_user (mark_revoked (ck_sql c)) t in
  append_account_events c event_id 0 homes user_id reason t.
Definition revoke_all_sessions (hash_order : gset uuid -> list uuid) (c : Clock) (event_id : nat -> uuid) (user_id : uuid) (reason : string)
    : AuthTables -> outcome unit := run (fun t =>
  reason ← normalize_required "revocation reason" reason 128;
  '(events, t) ← revoke_all_sessions_in_transaction hash_order c event_id user_id reason t;
  Ok (Ok (), t, events)).

(** ** Profiles of a session *)
Definition profile_available (selected home_id user_id : uuid) (expected_pin_hash : string) (t : AuthTables) : bool :=
  match az_profiles (at_authz t) !! selected, ht_profiles (at_home t) !! selected with
  | Some p, Some columns => (pf_home_id p =? home_id)%N && String.eqb (default "" (px_pin_hash columns)) expected_pin_hash && usable_by user_id p
  | _, _ => false
  end.
Definition switch_profile (selected : uuid) (now : instant) (s : AccountSession) : AccountSession :=
  {| acs_user_id := acs_user_id s; acs_home_id := acs_home_id s; acs_active_profile_id := Some selected;
     acs_context := acs_context s; acs_csrf_revision := acs_csrf_revision s + 1; acs_created_at := acs_created_at s;
     acs_last_seen_at := now; acs_recent_auth_at := acs_recent_auth_at s; acs_expires_at := acs_expires_at s;
     acs_revoked_at := acs_revoked_at s; acs_revoked_reason := acs_revoked_reason s |}.
Definition select_active_profile (c : Clock) (event_id user_id session_id home_id current selected : uuid)
    (verified_pin_hash : option string) : AuthTables -> outcome SessionPrincipal := run (fun t =>
  let expected := default "" verified_pin_hash in
  _ ← reject_if (negb (profile_available selected home_id user_id expected t)) ProfileUnavailable;
  if (current =? selected)%N then
    principal ← load_principal_in_transaction (ck_principal c) user_id session_id t;
    principal ← ok_or principal InvalidPrincipal;
    _ ← reject_if (negb (sp_profile_id principal =? selected)%N) ProfileSwitchConflict;
    Ok (Ok principal, t, [])
  else
  let mine s := (acs_user_id s =? user_id)%N && bool_decide (acs_home_id s = Some home_id) in
  let switched := match at_sessions t !! session_id with
                  | Some s => if mine s && bool_decide (acs_active_profile_id s = Some current) && is_none_b (acs_revoked_at s)
                                 && (acs_csrf_revision s <? MAX_CSRF_REVISION)%Z
                                 && profile_available selected home_id user_id expected t
                              then Some (set_account_sessions (<[session_id := switch_profile selected (ck_sql c) s]> (at_sessions t)) t)
                              else None
                  | None => None
                  end in
  match switched with
  | Some t =>
      principal ← load_principal_in_transaction (ck_principal c) user_id session_id t;
      principal ← ok_or principal InvalidPrincipal;
      t ← append_event event_id (ck_event c) (profile_switched home_id user_id session_id current selected) t;
      Ok (Ok principal, t, [event_id])
  | None =>
      match at_sessions t !! session_id with
      | None => Err InvalidPrincipal
      | Some s =>
          _ ← reject_if (negb (mine s)) InvalidPrincipal;
          (* the column is read as text: NULL does not decode *)
          active ← ok_or (acs_active_profile_id s) AuthStorage;
          _ ← reject_if (is_some_b (acs_revoked_at s)) SessionRevoked;
          _ ← reject_if (negb (active =? current)%N) ProfileSwitchConflict;
          _ ← reject_if (acs_csrf_revision s <? MAX_CSRF_REVISION)%Z ProfileUnavailable;
          commit_failure SessionRevoked <$> revoke_session_in_transaction c event_id session_id "csrf_revision_overflow" t
      end
  end).

(** [load_principal]: the claims only name the session; a failure to record that it was seen is logged *)
Definition see_session (now : instant) (s : AccountSession) : AccountSession :=
  {| acs_user_id := acs_user_id s; acs_home_id := acs_home_id s; acs_active_profile_id := acs_active_profile_id s;
     acs_context := acs_context s; acs_csrf_revision := acs_csrf_revision s; acs_created_at := acs_created_at s;
     acs_last_seen_at := now; acs_recent_auth_at := acs_recent_auth_at s; acs_expires_at := acs_expires_at s;
     acs_revoked_at := acs_revoked_at s; acs_revoked_reason := acs_revoked_reason s |}.
Definition load_principal (c : Clock) (claims : VerifiedAccessClaims) : AuthTables -> outcome SessionPrincipal := run (fun t =>
  row ← decode_active_principal (ck_principal c) (principal_row (vc_user_id claims) (vc_session_id claims) t);
  '(principal, last_seen_at) ← ok_or row InvalidPrincipal;
  let session_id := sp_account_session_id principal in
  let t := match at_sessions t !! session_id with
           | Some s => if (last_seen_at <? ck_now c - seconds (60 * LAST_SEEN_TOUCH_INTERVAL_MINUTES))%Z && is_none_b (acs_revoked_at s)
                       then set_account_sessions (<[session_id := see_session (ck_sql c) s]> (at_sessions t)) t else t
           | None => t
           end in
  Ok (Ok principal, t, [])).
End Service.
