(* ===== verification/AuthSessionFacts.v ===== *)
(** * How the tables of account sessions evolve

    The invariant of the tables of [AuthSessions] ([auth_wf]), what no operation undoes ([later]), and that every
    operation keeps both. *)
From S2P Require Import Prelude Bytes LiveContract Crypto CatalogGrants CanonicalJson SessionStore RevocationOutbox AdminAudit Authz.
From S2P Require Import HomeProfiles AuthSessions.

Definition live_token (k : RefreshToken) : Prop := rt_used_at k = None /\ rt_revoked_at k = None.
#[export] Instance live_token_dec k : Decision (live_token k).
Proof. unfold live_token. apply _. Defined.
Definition ended (s : AccountSession) : Prop := is_Some (acs_revoked_at s).

(** ** The invariant *)
Record auth_wf (t : AuthTables) : Prop := {
  aw_session : forall i k, at_tokens t !! i = Some k -> is_Some (at_sessions t !! rt_session_id k);
  aw_hash : forall i j k l, at_tokens t !! i = Some k -> at_tokens t !! j = Some l -> rt_token_hash k = rt_token_hash l -> i = j;
  aw_family : forall i j k l, at_tokens t !! i = Some k -> at_tokens t !! j = Some l ->
    rt_token_family k = rt_token_family l <-> rt_session_id k = rt_session_id l;
  aw_live : forall i j k l, at_tokens t !! i = Some k -> at_tokens t !! j = Some l -> rt_session_id k = rt_session_id l ->
    live_token k -> live_token l -> i = j;
  aw_ended : forall i k s, at_tokens t !! i = Some k -> at_sessions t !! rt_session_id k = Some s -> ended s -> is_Some (rt_revoked_at k);
  aw_replaced : forall i k, at_tokens t !! i = Some k -> is_Some (rt_replaced_by_token_id k) -> is_Some (rt_used_at k);
  aw_csrf : forall i s, at_sessions t !! i = Some s -> (1 <= acs_csrf_revision s <= MAX_CSRF_REVISION)%Z;
  aw_reason : forall i s, at_sessions t !! i = Some s -> is_Some (acs_revoked_at s) <-> is_Some (acs_revoked_reason s);
}.
(** ** What no operation undoes *)
Record token_later (k k' : RefreshToken) : Prop := {
  tl_session : rt_session_id k' = rt_session_id k;
  tl_hash : rt_token_hash k' = rt_token_hash k;
  tl_family : rt_token_family k' = rt_token_family k;
  tl_previous : rt_previous_token_id k' = rt_previous_token_id k;
  tl_expires : rt_expires_at k' = rt_expires_at k;
  tl_used : is_Some (rt_used_at k) -> rt_used_at k' = rt_used_at k;
  tl_revoked : is_Some (rt_revoked_at k) -> rt_revoked_at k' = rt_revoked_at k;
}.
Record session_later (s s' : AccountSession) : Prop := {
  sl_user : acs_user_id s' = acs_user_id s;
  sl_csrf : (acs_csrf_revision s <= acs_csrf_revision s')%Z;
  sl_ended : ended s -> acs_revoked_at s' = acs_revoked_at s /\ acs_revoked_reason s' = acs_revoked_reason s;
}.
Record later (t t' : AuthTables) : Prop := {
  la_tokens : forall i k, at_tokens t !! i = Some k -> exists k', at_tokens t' !! i = Some k' /\ token_later k k';
  la_sessions : forall i s, at_sessions t !! i = Some s -> exists s', at_sessions t' !! i = Some s' /\ session_later s s';
}.
#[export] Instance token_later_preorder : PreOrder token_later.
Proof.
  split; [done|]. intros k1 k2 k3 [] []. split; try congruence.
  - intros Hu. rewrite tl_used1, tl_used0; [done|done|]. by rewrite tl_used0.
  - intros Hu. rewrite tl_revoked1, tl_revoked0; [done|done|]. by rewrite tl_revoked0.
Qed.
#[export] Instance session_later_preorder : PreOrder session_later.
Proof.
  split; [done|]. intros k1 k2 k3 [Hu1 Hc1 He1] [Hu2 Hc2 He2]. split; [congruence|lia|].
  intros He. destruct (He1 He) as [E1 E2]. destruct He2 as [E3 E4]; [unfold ended; by rewrite E1|]. split; congruence.
Qed.
#[export] Instance later_preorder : PreOrder later.
Proof.
  split.
  - intros t. split; intros i x Hx; exists x; (split; [done|reflexivity]).
  - intros t1 t2 t3 [A1 B1] [A2 B2]. split; intros i x Hx.
    + destruct (A1 i x Hx) as (y & Hy & L1). destruct (A2 i y Hy) as (z & Hz & L2). exists z. split; [done|by etrans].
    + destruct (B1 i x Hx) as (y & Hy & L1). destruct (B2 i y Hy) as (z & Hz & L2). exists z. split; [done|by etrans].
Qed.

(** ** Statements *)
Lemma update_tokens_lookup p f t i k' : at_tokens (update_tokens p f t) !! i = Some k' <->
  exists k, at_tokens t !! i = Some k /\ k' = (if p k then f k else k).
Proof. cbn. rewrite lookup_fmap, fmap_Some. done. Qed.
Lemma later_update p f t : (forall k, p k = true -> token_later k (f k)) -> later t (update_tokens p f t).
Proof.
  intros Hf. split; [|intros i s Hs; exists s; split; [done|reflexivity]].
  intros i k Hk. eexists. split; [apply update_tokens_lookup; eauto|]. destruct (p k) eqn:E; [auto|reflexivity].
Qed.
Lemma revoked_later now k : token_later k (mark_revoked now k).
Proof. split; try done. cbn. intros [r ->]. done. Qed.
Lemma later_revoke p now t : later t (update_tokens p (mark_revoked now) t).
Proof. apply later_update. intros k _. apply revoked_later. Qed.
Lemma claimable_live h k : claimable_token h k = true <-> rt_token_hash k = h /\ live_token k.
Proof.
  unfold claimable_token, live_token. rewrite !andb_true_iff, String.eqb_eq.
  destruct (rt_used_at k), (rt_revoked_at k); cbn; naive_solver.
Qed.
Lemma later_claim h now t : later t (update_tokens (claimable_token h) (mark_used now) t).
Proof. apply later_update. intros k [_ [Hu Hr]]%claimable_live. split; try done. cbn. rewrite Hu. by intros [? ?]. Qed.
Lemma later_session i s' t : (forall s, at_sessions t !! i = Some s -> session_later s s') ->
  later t (set_account_sessions (<[i := s']> (at_sessions t)) t).
Proof.
  intros Hs. split; cbn; [intros j k Hk; exists k; split; [done|reflexivity]|].
  intros j s Hj. destruct (decide (i = j)) as [<-|Hne].
  - exists s'. split; [apply lookup_insert_eq|auto].
  - exists s. split; [by rewrite lookup_insert_ne|reflexivity].
Qed.
Lemma later_token i k' t : (forall k, at_tokens t !! i = Some k -> token_later k k') -> later t (set_tokens (<[i := k']> (at_tokens t)) t).
Proof.
  intros Hs. split; cbn; [|intros j s Hj; exists s; split; [done|reflexivity]].
  intros j k Hj. destruct (decide (i = j)) as [<-|Hne].
  - exists k'. split; [apply lookup_insert_eq|auto].
  - exists k. split; [by rewrite lookup_insert_ne|reflexivity].
Qed.
Lemma end_session_later reason now s : acs_revoked_at s = None -> session_later s (end_session reason now s).
Proof. intros Hr. split; [done|cbn; lia|]. unfold ended. rewrite Hr. by intros [? ?]. Qed.

(** the invariant is about sessions and tokens *)
Lemma wf_same t t' : at_sessions t' = at_sessions t -> at_tokens t' = at_tokens t -> auth_wf t -> auth_wf t'.
Proof. intros Es Et []. split; rewrite ?Es, ?Et; done. Qed.
Lemma later_same t t' : at_sessions t' = at_sessions t -> at_tokens t' = at_tokens t -> later t t'.
Proof. intros Es Et. split; rewrite ?Es, ?Et; intros i x Hx; exists x; (split; [done|reflexivity]). Qed.

(** changes of a token that keep the invariant *)
Record gentle (k k' : RefreshToken) : Prop := {
  ge_session : rt_session_id k' = rt_session_id k;
  ge_hash : rt_token_hash k' = rt_token_hash k;
  ge_family : rt_token_family k' = rt_token_family k;
  ge_live : live_token k' -> live_token k;
  ge_revoked : is_Some (rt_revoked_at k) -> is_Some (rt_revoked_at k');
  ge_replaced : (is_Some (rt_replaced_by_token_id k) -> is_Some (rt_used_at k)) ->
    is_Some (rt_replaced_by_token_id k') -> is_Some (rt_used_at k');
}.
Lemma gentle_refl k : gentle k k.
Proof. by split. Qed.
Lemma gentle_revoked now k : gentle k (mark_revoked now k).
Proof. split; try done; try (by eexists); by intros [_ ?]. Qed.
Lemma gentle_used now k : gentle k (mark_used now k).
Proof. split; try done; try (by eexists); by intros [? _]. Qed.
Lemma gentle_replaced id k : is_Some (rt_used_at k) -> gentle k (mark_replaced id k).
Proof. intros Hu. split; try done. Qed.
Lemma wf_tokens m t : auth_wf t -> (forall i k', m !! i = Some k' -> exists k, at_tokens t !! i = Some k /\ gentle k k') ->
  auth_wf (set_tokens m t).
Proof.
  intros W Hm. split; cbn; [| | | | | |exact (aw_csrf _ W)|exact (aw_reason _ W)].
  - intros i k' (k & Hk & [->])%Hm. by eapply aw_session.
  - intros i j k' l' (k & Hk & [_ ->])%Hm (l & Hl & [_ ->])%Hm. by eapply aw_hash.
  - intros i j k' l' (k & Hk & [-> _ ->])%Hm (l & Hl & [-> _ ->])%Hm. by eapply aw_family.
  - intros i j k' l' (k & Hk & [-> _ _ Gk])%Hm (l & Hl & [-> _ _ Gl])%Hm Hs ?%Gk ?%Gl. by eapply aw_live.
  - intros i k' s (k & Hk & [-> _ _ _ G])%Hm Hs He. apply G. by eapply aw_ended.
  - intros i k' (k & Hk & G)%Hm. apply (ge_replaced _ _ G). by eapply aw_replaced.
Qed.
Lemma wf_update p f t : (forall k, p k = true -> gentle k (f k)) -> auth_wf t -> auth_wf (update_tokens p f t).
Proof.
  intros Hf W. apply wf_tokens; [done|]. intros i k' (k & Hk & ->)%update_tokens_lookup. exists k. split; [done|].
  destruct (p k) eqn:E; [auto|apply gentle_refl].
Qed.
Lemma wf_revoke p now t : auth_wf t -> auth_wf (update_tokens p (mark_revoked now) t).
Proof. apply wf_update. intros k _. apply gentle_revoked. Qed.
Lemma wf_claim h now t : auth_wf t -> auth_wf (update_tokens (claimable_token h) (mark_used now) t).
Proof. apply wf_update. intros k _. apply gentle_used. Qed.
(** sessions change, but keep their ends *)
Lemma wf_sessions m t : auth_wf t -> (forall i, is_Some (at_sessions t !! i) -> is_Some (m !! i)) ->
  (forall i s, m !! i = Some s -> (1 <= acs_csrf_revision s <= MAX_CSRF_REVISION)%Z /\ (is_Some (acs_revoked_at s) <-> is_Some (acs_revoked_reason s))) ->
  (forall i k s, at_tokens t !! i = Some k -> m !! rt_session_id k = Some s -> ended s -> is_Some (rt_revoked_at k)) ->
  auth_wf (set_account_sessions m t).
Proof.
  intros W Hm Hs He. split; cbn; [|exact (aw_hash _ W)|exact (aw_family _ W)|exact (aw_live _ W)|exact He|exact (aw_replaced _ W)| |].
  - intros i k Hk. apply Hm. by eapply aw_session.
  - intros i s Hi. by apply (Hs i).
  - intros i s Hi. by apply (Hs i).
Qed.
Lemma wf_session i s s' t : auth_wf t -> at_sessions t !! i = Some s ->
  acs_revoked_at s' = acs_revoked_at s -> acs_revoked_reason s' = acs_revoked_reason s ->
  (1 <= acs_csrf_revision s' <= MAX_CSRF_REVISION)%Z -> auth_wf (set_account_sessions (<[i := s']> (at_sessions t)) t).
Proof.
  intros W Hi Hr Hn Hc. apply wf_sessions; [done|..].
  - intros j [x Hx]. destruct (decide (i = j)) as [<-|]; [rewrite lookup_insert_eq|rewrite lookup_insert_ne by done]; eauto.
  - intros j x. rewrite lookup_insert. case_decide; [intros [= <-]|intros Hj].
    + rewrite Hr, Hn. split; [done|]. by eapply aw_reason.
    + split; [by eapply aw_csrf|by eapply aw_reason].
  - intros j k x Hk. rewrite lookup_insert. case_decide as Heq; [intros [= <-]|intros Hx; by eapply aw_ended].
    unfold ended. rewrite Hr. subst i. by eapply aw_ended.
Qed.
(** ending some sessions together with their tokens *)
Lemma wf_end (q : uuid -> AccountSession -> bool) (p : RefreshToken -> bool) reason now t : auth_wf t ->
  (forall k s, at_sessions t !! rt_session_id k = Some s -> q (rt_session_id k) s = true -> p k = true) ->
  auth_wf (update_tokens p (mark_revoked now) (set_account_sessions (map_imap (fun i s => Some (if q i s then end_session reason now s else s)) (at_sessions t)) t)).
Proof.
  intros W Hq.
  change (update_tokens p (mark_revoked now) (set_account_sessions ?m t)) with (set_account_sessions m (update_tokens p (mark_revoked now) t)).
  apply wf_sessions; [by apply wf_revoke|..].
  - intros i [s Hs]. cbn in Hs. rewrite map_lookup_imap, Hs. by eexists.
  - intros i s'. rewrite map_lookup_imap. intros (s & Hs & [= <-])%bind_Some.
    pose proof (aw_csrf _ W _ _ Hs). pose proof (aw_reason _ W _ _ Hs). destruct (q i s); cbn; [|done]. split; [done|]. split; by eexists.
  - intros i k' s' (k & Hk & ->)%update_tokens_lookup.
    replace (rt_session_id (if p k then mark_revoked now k else k)) with (rt_session_id k) by (by destruct (p k)).
    rewrite map_lookup_imap. intros (s & Hs & [= <-])%bind_Some He.
    destruct (p k) eqn:Ep; [by eexists|]. destruct (q (rt_session_id k) s) eqn:Eq; [by rewrite (Hq k s) in Ep|].
    by eapply aw_ended.
Qed.

(** ** Inserts *)
Lemma count_zero p t : count_tokens p t = 0 <-> forall i k, at_tokens t !! i = Some k -> p k = false.
Proof.
  unfold count_tokens. split.
  - intros Hc i k Hk. apply not_true_iff_false. intros Hp.
    assert (In (i, k) (List.filter (fun kv => p kv.2) (map_to_list (at_tokens t)))) as Hin
      by (apply filter_In; split; [by apply list_elem_of_In, elem_of_map_to_list|done]).
    destruct (List.filter _ _); [done|]. done.
  - intros Hp. destruct (List.filter _ _) as [|[i k] l] eqn:E; [done|].
    assert (In (i, k) (List.filter (fun kv => p kv.2) (map_to_list (at_tokens t)))) as Hin by (rewrite E; left; done).
    apply filter_In in Hin as [Hin Hk]. apply list_elem_of_In, elem_of_map_to_list in Hin. cbn in Hk. by rewrite (Hp i k Hin) in Hk.
Qed.
Lemma count_one p t i k : at_tokens t !! i = Some k -> p k = true ->
  (forall j l, at_tokens t !! j = Some l -> p l = true -> j = i) -> count_tokens p t = 1.
Proof.
  intros Hk Hp Hu. unfold count_tokens. rewrite (filter_unique _ _ (i, k)); [done|apply NoDup_map_to_list| |done|].
  - by apply elem_of_map_to_list.
  - intros [j l] Hin Hl. apply elem_of_map_to_list in Hin. cbn in Hl. pose proof (Hu j l Hin Hl) as ->. congruence.
Qed.
Lemma insert_token_ok id k t t' : insert_token id k t = Ok t' <->
  at_tokens t !! id = None /\ (forall i l, at_tokens t !! i = Some l -> rt_token_hash l <> rt_token_hash k)
  /\ char_count (rt_token_hash k) = 43%Z /\ is_Some (at_sessions t !! rt_session_id k)
  /\ (forall p, rt_previous_token_id k = Some p -> is_Some (at_tokens t !! p))
  /\ t' = set_tokens (<[id := k]> (at_tokens t)) t.
Proof.
  unfold insert_token. split.
  - intros H. apply result_bind_ok in H as ([] & Hc & H). apply reject_if_ok in Hc. bool_hyps.
    injection H as <-. split_and!; try done.
    + by destruct (at_tokens t !! id).
    + intros i l Hl He. apply Nat.ltb_ge in H4. assert (count_tokens (fun k' => String.eqb (rt_token_hash k') (rt_token_hash k)) t = 0) as Hz by lia.
      pose proof (proj1 (count_zero _ _) Hz i l Hl) as Hf. cbn in Hf. by rewrite He, String.eqb_refl in Hf.
    + by destruct (at_sessions t !! rt_session_id k); eauto.
    + intros p Hp. rewrite Hp in *. cbn in *. by destruct (at_tokens t !! p); eauto.
  - intros (Hi & Hh & Hl & [s Hs] & Hp & ->). rewrite Hi, Hs, Hl.
    rewrite (proj2 (count_zero _ t)); [|intros i l Hk; apply String.eqb_neq; eauto]. cbn.
    destruct (rt_previous_token_id k) as [p|] eqn:E; [|done]. destruct (Hp p eq_refl) as [l Hl']. cbn. by rewrite Hl'.
Qed.
Lemma insert_account_session_ok id s t t' : insert_session id s t = Ok t' ->
  at_sessions t !! id = None /\ t' = set_account_sessions (<[id := s]> (at_sessions t)) t.
Proof.
  unfold insert_session. intros H. apply result_bind_ok in H as ([] & Hc & H). apply reject_if_ok in Hc. bool_hyps.
  injection H as <-. split; [|done]. by destruct (at_sessions t !! id).
Qed.
Lemma wf_insert_token id k s t : auth_wf t -> at_tokens t !! id = None ->
  (forall i l, at_tokens t !! i = Some l -> rt_token_hash l <> rt_token_hash k) ->
  at_sessions t !! rt_session_id k = Some s -> acs_revoked_at s = None -> rt_replaced_by_token_id k = None ->
  (forall i l, at_tokens t !! i = Some l -> rt_session_id l = rt_session_id k -> ~ live_token l) ->
  (forall i l, at_tokens t !! i = Some l -> rt_token_family l = rt_token_family k <-> rt_session_id l = rt_session_id k) ->
  auth_wf (set_tokens (<[id := k]> (at_tokens t)) t).
Proof.
  intros W Hi Hh Hs Hr Hp Hl Hf. split; cbn; [| | | | | |exact (aw_csrf _ W)|exact (aw_reason _ W)].
  - intros i l [[<- <-]|[_ Hk]]%lookup_insert_Some; [by rewrite Hs|by eapply aw_session].
  - intros i j k' l' [[<- <-]|[Ni Hk]]%lookup_insert_Some [[<- <-]|[Nj Hk']]%lookup_insert_Some He; [done| | |by eapply aw_hash].
    + exfalso. by eapply Hh.
    + exfalso. by eapply Hh.
  - intros i j k' l' [[<- <-]|[Ni Hk]]%lookup_insert_Some [[<- <-]|[Nj Hk']]%lookup_insert_Some; [done| | |by eapply aw_family].
    + pose proof (Hf _ _ Hk'). naive_solver.
    + by eapply Hf.
  - intros i j k' l' [[<- <-]|[Ni Hk]]%lookup_insert_Some [[<- <-]|[Nj Hk']]%lookup_insert_Some He Hk1 Hk2; [done| | |by eapply aw_live].
    + exfalso. by eapply Hl.
    + exfalso. by eapply Hl.
  - intros i l s' [[<- <-]|[_ Hk]]%lookup_insert_Some Hs' [x He]; [|by eapply (aw_ended _ W _ _ _ Hk Hs'); eexists]. congruence.
  - intros i l [[<- <-]|[_ Hk]]%lookup_insert_Some; [rewrite Hp; by intros [? ?]|by eapply aw_replaced].
Qed.
Lemma wf_insert_session id s t : auth_wf t -> at_sessions t !! id = None -> acs_revoked_at s = None -> acs_revoked_reason s = None ->
  acs_csrf_revision s = 1%Z -> auth_wf (set_account_sessions (<[id := s]> (at_sessions t)) t).
Proof.
  intros W Hi Hr Hn Hc. apply wf_sessions; [done|..].
  - intros i [x Hx]. destruct (decide (id = i)) as [<-|]; [congruence|]. rewrite lookup_insert_ne; eauto.
  - intros i x [[<- <-]|[_ Hk]]%lookup_insert_Some; [|split; [by eapply aw_csrf|by eapply aw_reason]].
    rewrite Hr, Hn, Hc. unfold MAX_CSRF_REVISION, i32_max. split; [lia|]. split; by intros [? ?].
  - intros i k x Hk [[E <-]|[_ Hx]]%lookup_insert_Some; [unfold ended; rewrite Hr; by intros [? ?]|by eapply aw_ended].
Qed.

(** ** Revocations *)
Section revocations.
Context `{UuidText} `{OutboxOps}.
Lemma auth_event_ok id now event t t' : append_event id now event t = Ok t' ->
  at_sessions t' = at_sessions t /\ at_tokens t' = at_tokens t
  /\ exists o row, append_revocation id now event (az_outbox (at_authz t)) = Ok (row, o) /\ t' = set_outbox o t.
Proof.
  unfold append_event. destruct (append_revocation _ _ _ _) as [[row o]|e] eqn:E; [|done]. cbn. intros [= <-]. eauto 8.
Qed.
(** what a revocation leaves: the session is over and so are its tokens, nothing else changed *)
Record session_ended (now : instant) (reason : string) (session_id : uuid) (p : RefreshToken -> bool) (t t' : AuthTables) : Prop := {
  se_sessions : at_sessions t' = match at_sessions t !! session_id with
    | Some s => if is_none_b (acs_revoked_at s) then <[session_id := end_session reason now s]> (at_sessions t) else at_sessions t
    | None => at_sessions t
    end;
  se_tokens : forall i, at_tokens t' !! i = (fun k => if p k || (rt_session_id k =? session_id)%N then mark_revoked now k else k) <$> at_tokens t !! i;
}.
Lemma mark_revoked_twice now k : mark_revoked now (mark_revoked now k) = mark_revoked now k.
Proof. unfold mark_revoked. cbn. done. Qed.
Lemma revoke_session_ok c event_id session_id reason t r t' :
  revoke_session_in_transaction c event_id session_id reason t = Ok (r, t') ->
  session_ended (ck_sql c) reason session_id (fun _ => false) t t'.
Proof.
  unfold revoke_session_in_transaction.
  set (t2 := update_tokens _ _ _). assert (session_ended (ck_sql c) reason session_id (fun _ => false) t t2) as Hs.
  { unfold t2. destruct (at_sessions t !! session_id) as [s|] eqn:Es; [destruct (acs_revoked_at s) eqn:Er|]; split; cbn;
      rewrite ?Es; try rewrite Er; cbn; try done; intros i; by rewrite lookup_fmap. }
  clearbody t2. intros Hr. assert (at_sessions t' = at_sessions t2 /\ at_tokens t' = at_tokens t2) as [E1 E2].
  { destruct (match at_sessions t !! session_id with Some _ => _ | None => _ end) as [s|]; [|by injection Hr as _ <-].
    destruct (acs_home_id s); [|by injection Hr as _ <-].
    apply result_bind_ok in Hr as (t3 & Ha & Hr). injection Hr as _ <-. apply auth_event_ok in Ha as (? & ? & _). done. }
  destruct Hs as [S T]. split; rewrite ?E1, ?E2; done.
Qed.
Lemma revoke_family_ok c event_id session_id family reason t r t' :
  revoke_family_in_transaction c event_id session_id family reason t = Ok (r, t') ->
  session_ended (ck_sql c) reason session_id (fun k => (rt_token_family k =? family)%N) t t'.
Proof.
  unfold revoke_family_in_transaction. intros [S T]%revoke_session_ok. split; [exact S|].
  intros i. rewrite T. cbn. rewrite lookup_fmap. destruct (at_tokens t !! i) as [k|]; [|done]. cbn. f_equal.
  destruct (rt_token_family k =? family)%N; cbn; [|done]. by destruct (rt_session_id k =? session_id)%N.
Qed.
Lemma ended_keeps now reason session_id p t t' : session_ended now reason session_id p t t' -> auth_wf t -> auth_wf t' /\ later t t'.
Proof.
  intros [S T] W. split.
  - eapply (wf_same (update_tokens (fun k => p k || (rt_session_id k =? session_id)%N) (mark_revoked now)
      (set_account_sessions (map_imap (fun i s => Some (if (i =? session_id)%N && is_none_b (acs_revoked_at s) then end_session reason now s else s)) (at_sessions t)) t)));
      [| |apply wf_end; [done|]].
    + rewrite S. apply map_eq. intros i. cbn. rewrite map_lookup_imap.
      destruct (at_sessions t !! session_id) as [s|] eqn:Es; [destruct (is_none_b (acs_revoked_at s)) eqn:Er|].
      * destruct (decide (session_id = i)) as [<-|]; [rewrite lookup_insert_eq, Es; cbn; by rewrite N.eqb_refl, Er|].
        rewrite lookup_insert_ne by done. destruct (at_sessions t !! i); [|done]. cbn. destruct (N.eqb_spec i session_id); [by subst|done].
      * destruct (at_sessions t !! i) as [s'|] eqn:Ei; [|done]. cbn. destruct (N.eqb_spec i session_id) as [->|]; [|done].
        assert (s' = s) as -> by congruence. by rewrite Er.
      * destruct (at_sessions t !! i) as [s'|] eqn:Ei; [|done]. cbn. destruct (N.eqb_spec i session_id) as [->|]; [congruence|done].
    + apply map_eq. intros i. rewrite T. cbn. by rewrite lookup_fmap.
    + intros k s _ [Hk _]%andb_true_iff. apply N.eqb_eq in Hk. by rewrite Hk, N.eqb_refl, orb_true_r.
  - split.
    + intros i k Hk. rewrite T, Hk. cbn. eexists. split; [done|]. destruct (_ || _); [apply revoked_later|reflexivity].
    + intros i s Hs. rewrite S. destruct (at_sessions t !! session_id) as [s0|] eqn:Es; [|exists s; split; [done|reflexivity]].
      destruct (acs_revoked_at s0) eqn:Er; cbn; [exists s; split; [done|reflexivity]|].
      destruct (decide (session_id = i)) as [<-|]; [|rewrite lookup_insert_ne by done; exists s; split; [done|reflexivity]].
      rewrite lookup_insert_eq. eexists. split; [done|]. assert (s = s0) as -> by congruence. by apply end_session_later.
Qed.
(** the session is over *)
Lemma ended_session now reason session_id p t t' s : session_ended now reason session_id p t t' -> at_sessions t !! session_id = Some s ->
  exists s', at_sessions t' !! session_id = Some s' /\ ended s'.
Proof.
  intros [S _] Hs. rewrite S, Hs. destruct (acs_revoked_at s) eqn:Er; cbn.
  - exists s. split; [done|]. unfold ended. by rewrite Er.
  - rewrite lookup_insert_eq. eexists. split; [done|]. by eexists.
Qed.
End revocations.

(** ** Operations *)
Lemma run_cases {A} (m : AuthTables -> result AuthSessionError (outcome A)) t r t' pub : run m t = (r, t', pub) ->
  m t = Ok (r, t', pub) \/ exists e, m t = Err e /\ r = Err e /\ t' = t /\ pub = [].
Proof. unfold run. destruct (m t) as [o|e]; [intros ->; by left|]. intros [= <- <- <-]. right. eauto. Qed.
Lemma run_ok_inv {A} (m : AuthTables -> result AuthSessionError (outcome A)) t a t' pub : run m t = (Ok a, t', pub) -> m t = Ok (Ok a, t', pub).
Proof. intros [?|(e & _ & ? & _)]%run_cases; done. Qed.
Lemma fmap_ok {E A B} (f : A -> B) (m : result E A) b : f <$> m = Ok b -> exists a, m = Ok a /\ b = f a.
Proof. destruct m as [a|e]; cbn; [intros [= <-]; eauto|done]. Qed.

Section operations.
Context `{CryptoPrims} `{U : UuidText} `{O : OutboxOps} `{AuthOps} (uuid_v5 : string -> uuid).

(** a token is found by its hash *)
Lemma load_state_some h t st : load_refresh_state h t = Some st ->
  at_tokens t !! rs_token_id st = Some (rs_token st) /\ rt_token_hash (rs_token st) = h
  /\ at_sessions t !! rt_session_id (rs_token st) = Some (rs_session st).
Proof.
  unfold load_refresh_state. intros ([id k] & Hf & (s & Hs & [= <-])%bind_Some)%bind_Some.
  apply find_some in Hf as [Hin [Hh _]%andb_true_iff]. apply String.eqb_eq in Hh.
  split_and!; [by apply elem_of_map_to_list, list_elem_of_In|done|done].
Qed.
Lemma load_state_found t i k : auth_wf t -> at_tokens t !! i = Some k ->
  exists s, at_sessions t !! rt_session_id k = Some s
    /\ load_refresh_state (rt_token_hash k) t = Some {| rs_token_id := i; rs_token := k; rs_session := s |}.
Proof.
  intros W Hk. destruct (aw_session _ W _ _ Hk) as [s Hs]. exists s. split; [done|].
  unfold load_refresh_state. rewrite (find_unique _ _ (i, k)).
  - cbn. by rewrite Hs.
  - by apply elem_of_map_to_list.
  - cbn. by rewrite String.eqb_refl, Hs.
  - intros [j l] Hin [Hh _]%andb_true_iff. apply elem_of_map_to_list in Hin. apply String.eqb_eq in Hh.
    cbn in Hh. pose proof (aw_hash _ W _ _ _ _ Hin Hk Hh) as ->. congruence.
Qed.
Lemma count_claimable t i k : auth_wf t -> at_tokens t !! i = Some k ->
  count_tokens (claimable_token (rt_token_hash k)) t = if decide (live_token k) then 1 else 0.
Proof.
  intros W Hk. destruct (decide (live_token k)) as [Hl|Hl].
  - eapply count_one; [done|by apply claimable_live|]. intros j l Hj [Hh _]%claimable_live. by eapply aw_hash.
  - apply count_zero. intros j l Hj. apply not_true_iff_false. intros [Hh Hl']%claimable_live.
    pose proof (aw_hash _ W _ _ _ _ Hj Hk Hh) as ->. congruence.
Qed.

(** the tables after a rotation *)
Definition successor (s : AuthService) (c : Clock) (d : Draws) (st : RefreshState) (expires : instant) : RefreshToken :=
  {| rt_session_id := rt_session_id (rs_token st); rt_token_hash := hash_refresh_token s (generate_refresh_token (dr_random d));
     rt_token_family := rt_token_family (rs_token st); rt_previous_token_id := Some (rs_token_id st); rt_created_at := ck_sql c;
     rt_expires_at := expires; rt_used_at := None; rt_revoked_at := None; rt_replaced_by_token_id := None |}.
Definition rotated (s : AuthService) (c : Clock) (d : Draws) (context : LoginContext) (st : RefreshState) (expires : instant) (t : AuthTables) : AuthTables :=
  set_tokens (<[rs_token_id st := mark_replaced (dr_token_id d) (rs_token st)]> (<[dr_token_id d := successor s c d st expires]> (at_tokens t)))
    (set_account_sessions (<[rt_session_id (rs_token st) := touch_session context expires (ck_sql c) (rs_session st)]> (at_sessions t)) t).
(** the token in hand was claimed in these tables *)
Record claimed_in (st : RefreshState) (t : AuthTables) : Prop := {
  ci_token : at_tokens t !! rs_token_id st = Some (rs_token st);
  ci_used : is_Some (rt_used_at (rs_token st));
  ci_session : at_sessions t !! rt_session_id (rs_token st) = Some (rs_session st);
  ci_alone : forall i l, at_tokens t !! i = Some l -> rt_session_id l = rt_session_id (rs_token st) -> ~ live_token l;
}.
Inductive rotation (s : AuthService) (c : Clock) (d : Draws) (context : LoginContext) (st : RefreshState) (t : AuthTables)
    : result AuthSessionError LoginTokens -> AuthTables -> Prop :=
| rotation_refused e reason t2 t' :
    e = SessionRevoked /\ t2 = t \/ e = InvalidPrincipal /\ (exists expires, t2 = rotated s c d context st expires t
      /\ (forall i l, at_tokens t !! i = Some l -> rt_token_hash l <> rt_token_hash (successor s c d st expires)) /\ at_tokens t !! dr_token_id d = None
      /\ (acs_csrf_revision (rs_session st) < MAX_CSRF_REVISION)%Z) ->
    session_ended (ck_sql c) reason (rt_session_id (rs_token st)) (fun k => (rt_token_family k =? rt_token_family (rs_token st))%N) t2 t' ->
    rotation s c d context st t (Err e) t'
| rotation_done expires tokens p :
    session_expiration s (ck_now c) (lc_remember_device (acs_context (rs_session st))) = Ok expires ->
    at_tokens t !! dr_token_id d = None ->
    (forall i l, at_tokens t !! i = Some l -> rt_token_hash l <> rt_token_hash (successor s c d st expires)) ->
    (acs_csrf_revision (rs_session st) < MAX_CSRF_REVISION)%Z ->
    load_principal_in_transaction (ck_principal c) (acs_user_id (rs_session st)) (rt_session_id (rs_token st)) (rotated s c d context st expires t) = Ok (Some p) ->
    sign_session_access_token s (sp_user_id p) (sp_account_session_id p) (sp_home_id p) (sp_profile_id p) (sp_role p) (ck_sign c)
      = Some (lt_access_token tokens, lt_access_expires_at tokens) ->
    csrf_token s (rt_session_id (rs_token st)) (acs_csrf_revision (rs_session st) + 1) = Ok (lt_csrf_token tokens) ->
    lt_refresh_token tokens = generate_refresh_token (dr_random d) -> lt_refresh_expires_at tokens = expires ->
    lt_session_id tokens = rt_session_id (rs_token st) -> lt_home_id tokens = sp_home_id p ->
    lt_profile_id tokens = sp_profile_id p -> lt_role tokens = sp_role p ->
    rotation s c d context st t (Ok tokens) (rotated s c d context st expires t).
Lemma rotate_token_ok s c d context st t r t' pub : claimed_in st t -> rotate_token s c d context st t = Ok (r, t', pub) ->
  rt_revoked_at (rs_token st) = None /\ acs_revoked_at (rs_session st) = None
  /\ (ck_now c < rt_expires_at (rs_token st))%Z /\ (ck_now c < acs_expires_at (rs_session st))%Z
  /\ rotation s c d context st t r t'.
Proof.
  intros [Ct Cu Cs _] Hr. unfold rotate_token in Hr. apply result_bind_ok in Hr as ([] & Hn & Hr). apply reject_if_ok in Hn.
  apply result_bind_ok in Hr as ([] & He & Hr). apply reject_if_ok in He. bool_hyps.
  apply result_bind_ok in Hr as (expires & Hx & Hr).
  assert (rt_revoked_at (rs_token st) = None) by (by destruct (rt_revoked_at (rs_token st))).
  assert (acs_revoked_at (rs_session st) = None) as Hsr by (by destruct (acs_revoked_at (rs_session st))).
  split_and!; try done. unfold bump_session in Hr. rewrite Cs in Hr. cbn [mbind option_bind] in Hr. rewrite Hsr in Hr. cbn [is_none_b andb] in Hr.
  destruct (Z.ltb_spec (acs_csrf_revision (rs_session st)) MAX_CSRF_REVISION) as [Hlt|Hge].
  2: { apply fmap_ok in Hr as ([ev t2] & Hf & [= -> -> ->]). eapply rotation_refused; [by left|]. by eapply revoke_family_ok. }
  set (t1 := set_account_sessions _ t) in Hr. apply result_bind_ok in Hr as (t2 & Hi & Hr).
  fold (successor s c d st expires) in Hi. apply insert_token_ok in Hi as (Hid & Hh & _ & _ & _ & ->).
  change (at_tokens t1) with (at_tokens t) in *.
  assert (rs_token_id st <> dr_token_id d) as Hne by (intros Heq; congruence).
  cbn [set_tokens at_tokens] in Hr. rewrite (lookup_insert_ne _ _ _ _ (not_eq_sym Hne)), Ct in Hr.
  destruct Cu as [u Cu]. rewrite Cu in Hr. cbn [is_some_b] in Hr.
  set (t3 := set_tokens _ _) in Hr. assert (t3 = rotated s c d context st expires t) as E3 by done. clearbody t3. subst t3.
  apply result_bind_ok in Hr as (principal & Hp & Hr). destruct principal as [p|].
  - apply result_bind_ok in Hr as ([access exp] & Ha & Hr). apply ok_or_ok in Ha. apply result_bind_ok in Hr as (csrf & Hc & Hr).
    injection Hr as <- <- _. by eapply rotation_done.
  - apply fmap_ok in Hr as ([ev t2] & Hf & [= -> -> ->]). eapply rotation_refused; [|by eapply revoke_family_ok].
    right. split; [done|]. exists expires. done.
Qed.

Lemma rotated_keeps s c d context st expires t : auth_wf t -> claimed_in st t -> acs_revoked_at (rs_session st) = None ->
  (acs_csrf_revision (rs_session st) < MAX_CSRF_REVISION)%Z -> at_tokens t !! dr_token_id d = None ->
  (forall i l, at_tokens t !! i = Some l -> rt_token_hash l <> rt_token_hash (successor s c d st expires)) ->
  auth_wf (rotated s c d context st expires t) /\ later t (rotated s c d context st expires t).
Proof.
  intros W [Ct Cu Cs Ca] Hr Hc Hi Hh. unfold rotated.
  set (s' := touch_session context expires (ck_sql c) (rs_session st)).
  set (t1 := set_account_sessions (<[rt_session_id (rs_token st) := s']> (at_sessions t)) t).
  set (t2 := set_tokens (<[dr_token_id d := successor s c d st expires]> (at_tokens t1)) t1).
  assert (auth_wf t1) as W1.
  { apply wf_session with (s := rs_session st); [done..|]. pose proof (aw_csrf _ W _ _ Cs). cbn. lia. }
  assert (later t t1) as L1.
  { apply later_session. intros x Hx. assert (x = rs_session st) as -> by congruence. split; [done|cbn; lia|done]. }
  assert (auth_wf t2) as W2.
  { eapply (wf_insert_token _ _ s'); try done; [apply lookup_insert_eq|]. intros i l Hl. by apply (aw_family _ W _ _ _ _ Hl Ct). }
  assert (later t1 t2) as L2 by (apply later_token; intros k Hk; change (at_tokens t1) with (at_tokens t) in Hk; congruence).
  assert (rs_token_id st <> dr_token_id d) as Hne by (intros Heq; congruence).
  assert (at_tokens t2 !! rs_token_id st = Some (rs_token st)) as Ht2 by (cbn; by rewrite lookup_insert_ne).
  change (auth_wf (set_tokens (<[rs_token_id st := mark_replaced (dr_token_id d) (rs_token st)]> (at_tokens t2)) t2)
    /\ later t (set_tokens (<[rs_token_id st := mark_replaced (dr_token_id d) (rs_token st)]> (at_tokens t2)) t2)).
  split.
  - apply wf_tokens; [done|]. intros i k' [[<- <-]|[_ Hk]]%lookup_insert_Some; [|eauto using gentle_refl].
    exists (rs_token st). split; [done|by apply gentle_replaced].
  - etrans; [exact L1|]. etrans; [exact L2|]. apply later_token. intros k Hk. assert (k = rs_token st) as -> by congruence. done.
Qed.

(** the claim of a refresh, in tables that satisfy the invariant *)
Lemma claim_ineffective h now t : auth_wf t -> (forall i k, at_tokens t !! i = Some k -> rt_token_hash k = h -> ~ live_token k) ->
  update_tokens (claimable_token h) (mark_used now) t = t /\ count_tokens (claimable_token h) t = 0.
Proof.
  intros W Hn. assert (forall i k, at_tokens t !! i = Some k -> claimable_token h k = false) as Hf.
  { intros i k Hk. apply not_true_iff_false. intros [Hh Hl]%claimable_live. by eapply Hn. }
  split; [|by apply count_zero]. unfold update_tokens, set_tokens. destruct t as [a b m]. cbn in *. f_equal.
  apply map_eq. intros i. rewrite lookup_fmap. destruct (m !! i) as [k|] eqn:E; [|done]. cbn. by rewrite (Hf i k E).
Qed.
Lemma claim_effective now t i k : auth_wf t -> at_tokens t !! i = Some k -> live_token k ->
  exists s, at_sessions t !! rt_session_id k = Some s
    /\ count_tokens (claimable_token (rt_token_hash k)) t = 1
    /\ let t1 := update_tokens (claimable_token (rt_token_hash k)) (mark_used now) t in
       let st := {| rs_token_id := i; rs_token := mark_used now k; rs_session := s |} in
       load_refresh_state (rt_token_hash k) t1 = Some st /\ claimed_in st t1.
Proof.
  intros W Hk Hl. set (t1 := update_tokens _ _ t). assert (auth_wf t1) as W1 by by apply wf_claim.
  assert (at_tokens t1 !! i = Some (mark_used now k)) as Hk1.
  { apply update_tokens_lookup. exists k. split; [done|]. by rewrite (proj2 (claimable_live _ k)). }
  destruct (load_state_found t1 i _ W1 Hk1) as (s & Hs & Hst). exists s. split; [done|].
  split; [rewrite (count_claimable t i k W Hk); by rewrite decide_True|]. split; [exact Hst|]. split; cbn; [done|by eexists|done|].
  intros j l' (l & Hj & ->)%update_tokens_lookup Hsess Hlive.
  assert (rt_session_id l = rt_session_id k) as Hs' by (by destruct (claimable_token _ l)).
  destruct (claimable_token (rt_token_hash k) l) eqn:E; [by destruct Hlive|].
  pose proof (aw_live _ W _ _ _ _ Hj Hk Hs' Hlive Hl) as ->. assert (l = k) as -> by congruence.
  rewrite (proj2 (claimable_live _ k)) in E; done.
Qed.
(** a refresh, in tables that satisfy the invariant: the token is unknown or the request is refused before anything
    happens; it was consumed; it is revoked; or it is live and claimed *)
Inductive refreshed (s : AuthService) (c : Clock) (d : Draws) (presented : string) (t : AuthTables)
    : result AuthSessionError LoginTokens -> AuthTables -> Prop :=
| refreshed_failed e : refreshed s c d presented t (Err e) t
| refreshed_reused i k t' : at_tokens t !! i = Some k -> rt_token_hash k = hash_refresh_token s presented -> is_Some (rt_used_at k) ->
    session_ended (ck_sql c) "refresh_token_reuse" (rt_session_id k) (fun l => (rt_token_family l =? rt_token_family k)%N) t t' ->
    refreshed s c d presented t (Err RefreshTokenReused) t'
| refreshed_rotated i k sess context r t' : at_tokens t !! i = Some k -> rt_token_hash k = hash_refresh_token s presented -> live_token k ->
    at_sessions t !! rt_session_id k = Some sess ->
    let st := {| rs_token_id := i; rs_token := mark_used (ck_sql c) k; rs_session := sess |} in
    let t1 := update_tokens (claimable_token (rt_token_hash k)) (mark_used (ck_sql c)) t in
    claimed_in st t1 -> acs_revoked_at sess = None -> (ck_now c < rt_expires_at k)%Z -> (ck_now c < acs_expires_at sess)%Z ->
    rotation s c d context st t1 r t' ->
    refreshed s c d presented t r t'.
Lemma refresh_refreshed s c d presented context t r t' pub : auth_wf t ->
  refresh_session s c d presented context t = (r, t', pub) -> refreshed s c d presented t r t'.
Proof.
  unfold refresh_session. intros W [Hr|(e & _ & -> & -> & _)]%run_cases; [|constructor].
  apply result_bind_ok in Hr as ([] & _ & Hr). apply result_bind_ok in Hr as (ctx & _ & Hr).
  set (h := hash_refresh_token s presented) in *.
  destruct (decide (exists i k, at_tokens t !! i = Some k /\ rt_token_hash k = h /\ live_token k)) as [(i & k & Hk & Hh & Hl)|Hn].
  - rewrite <- Hh in Hr. destruct (claim_effective (ck_sql c) t i k W Hk Hl) as (sess & Hs & Hc & Hst & Hci).
    rewrite Hc, Hst in Hr. cbn [ok_or mbind result_bind Nat.eqb negb] in Hr. apply rotate_token_ok in Hr as (_ & Hx & Hy & Hz & Hrot); [|done].
    eapply refreshed_rotated; done.
  - destruct (claim_ineffective h (ck_sql c) t W) as [E1 E2]; [intros i k Hk Hh Hl; apply Hn; eauto|].
    rewrite E1, E2 in Hr. apply result_bind_ok in Hr as (st & Hst & Hr). apply ok_or_ok, load_state_some in Hst as (Hk & Hh & Hs).
    cbn [Nat.eqb negb] in Hr. destruct (is_some_b (rt_used_at (rs_token st))) eqn:Eu; [|done].
    apply fmap_ok in Hr as ([ev t2] & Hf & [= -> -> ->]). eapply refreshed_reused; [done|done| |by eapply revoke_family_ok].
    destruct (rt_used_at (rs_token st)); [by eexists|done].
Qed.

Definition keeps (t t' : AuthTables) : Prop := auth_wf t' /\ later t t'.
Lemma keeps_refl t : auth_wf t -> keeps t t.
Proof. split; [done|reflexivity]. Qed.
Lemma keeps_trans t1 t2 t3 : keeps t1 t2 -> keeps t2 t3 -> keeps t1 t3.
Proof. intros [_ ?] [? ?]. split; [done|by etrans]. Qed.
Lemma keeps_same t t' : at_sessions t' = at_sessions t -> at_tokens t' = at_tokens t -> auth_wf t -> keeps t t'.
Proof. split; [by eapply wf_same|by apply later_same]. Qed.
Lemma refreshed_keeps s c d presented t r t' : auth_wf t -> refreshed s c d presented t r t' -> keeps t t'.
Proof.
  intros W [e|i k t2 Hk Hh Hu He|i k sess context r' t2 Hk Hh Hl Hs st t1 Hc Hr _ _ Hrot].
  - by apply keeps_refl.
  - by eapply ended_keeps.
  - assert (keeps t t1) as [W1 L1] by (split; [by apply wf_claim|apply later_claim]).
    eapply keeps_trans; [by split|].
    destruct Hrot as [e reason t3 t4 [[_ ->]|[_ (expires & -> & Hh' & Hi & Hc')]] He|expires tokens p _ Hi Hh' Hc' _ _ _ _ _ _ _ _ _].
    + by eapply ended_keeps.
    + assert (keeps t1 (rotated s c d context st expires t1)) as K by by apply rotated_keeps.
      eapply keeps_trans; [exact K|]. eapply ended_keeps; [done|apply K].
    + by apply rotated_keeps.
Qed.
Lemma login_keeps s c d user_id context t r t' pub : auth_wf t ->
  (forall i k, at_tokens t !! i = Some k -> rt_token_family k <> dr_token_family d) ->
  issue_login_tokens uuid_v5 s c d user_id context t = (r, t', pub) -> keeps t t'.
Proof.
  unfold issue_login_tokens. intros W Hf [Hr|(e & _ & _ & -> & _)]%run_cases; [|by apply keeps_refl].
  apply result_bind_ok in Hr as ([tokens t2] & Hr & [= <- <- <-]).
  apply result_bind_ok in Hr as (ctx & _ & Hr). apply result_bind_ok in Hr as ([b h] & _ & Hr).
  set (t1 := set_home h t) in Hr. assert (keeps t t1) as K1 by by apply keeps_same.
  apply result_bind_ok in Hr as (expires & _ & Hr). apply result_bind_ok in Hr as (t3 & Hs & Hr).
  apply result_bind_ok in Hr as (t4 & Ht & Hr). apply result_bind_ok in Hr as ([a x] & _ & Hr).
  apply result_bind_ok in Hr as (csrf & _ & [= _ <-]).
  apply insert_account_session_ok in Hs as (Hi & ->). apply insert_token_ok in Ht as (Hj & Hh & _ & _ & _ & ->).
  eapply keeps_trans; [exact K1|]. set (ns := {| acs_user_id := user_id |}) in *. set (t5 := set_account_sessions _ t1) in *.
  assert (keeps t1 t5) as K2.
  { split; [apply wf_insert_session; try done; apply K1|apply later_session]. intros x0 Hx0. congruence. }
  eapply keeps_trans; [exact K2|]. split; [|apply later_token; intros k Hk; congruence].
  eapply (wf_insert_token _ _ ns); try done; [apply K2|apply lookup_insert_eq|..].
  - intros i l Hl Hs. exfalso. destruct (aw_session _ (proj1 K1) _ _ Hl) as [y Hy]. cbn in Hs. rewrite Hs in Hy. cbn in Hi, Hy. congruence.
  - intros i l Hl. cbn. split; [intros He; by destruct (Hf i l Hl)|].
    intros Hs. exfalso. destruct (aw_session _ (proj1 K1) _ _ Hl) as [y Hy]. rewrite Hs in Hy. cbn in Hi, Hy. congruence.
Qed.
Lemma revoke_keeps c event_id session_id reason t r t' pub : auth_wf t ->
  revoke_session c event_id session_id reason t = (r, t', pub) -> keeps t t'.
Proof.
  unfold revoke_session. intros W [Hr|(e & _ & _ & -> & _)]%run_cases; [|by apply keeps_refl].
  apply result_bind_ok in Hr as (reason' & _ & Hr). apply result_bind_ok in Hr as ([ev t2] & Hr & [= <- <- <-]).
  apply revoke_session_ok in Hr. by eapply ended_keeps.
Qed.
Lemma append_account_ok c event_id n homes user_id reason t r t' :
  append_account_events c event_id n homes user_id reason t = Ok (r, t') ->
  at_sessions t' = at_sessions t /\ at_tokens t' = at_tokens t /\ length r = length homes.
Proof.
  revert n t r. induction homes as [|h homes IH]; intros n t r Hr; [by injection Hr as <- <-|].
  apply result_bind_ok in Hr as (t1 & Ha & Hr). apply result_bind_ok in Hr as ([evs t2] & Hr & [= <- <-]).
  apply auth_event_ok in Ha as (A1 & A2 & _). apply IH in Hr as (B1 & B2 & B3). cbn. split_and!; congruence.
Qed.
(** what ending every session of an account leaves *)
Definition all_ended (c : Clock) (user_id : uuid) (reason : string) (t : AuthTables) : AuthTables :=
  update_tokens (fun k => is_some_and (fun s => (acs_user_id s =? user_id)%N) (at_sessions t !! rt_session_id k)) (mark_revoked (ck_sql c))
    (set_account_sessions (map_imap (fun i s => Some (if ended_by user_id s then end_session reason (ck_sql c) s else s)) (at_sessions t)) t).
Lemma revoke_all_ok hash_order c event_id user_id reason t r t' :
  revoke_all_sessions_in_transaction hash_order c event_id user_id reason t = Ok (r, t') ->
  exists reason', at_sessions t' = at_sessions (all_ended c user_id reason' t) /\ at_tokens t' = at_tokens (all_ended c user_id reason' t)
    /\ length r = length (hash_order (homes_ended user_id t)).
Proof.
  intros Hr. apply result_bind_ok in Hr as (reason' & _ & Hr). exists reason'. apply append_account_ok in Hr as (E1 & E2 & E3).
  rewrite E1, E2, E3. split_and!; [| |done]; apply map_eq; intros i; cbn.
  - rewrite lookup_fmap, map_lookup_imap. by destruct (at_sessions t !! i).
  - rewrite !lookup_fmap. destruct (at_tokens t !! i) as [k|]; [|done]. cbn. f_equal. rewrite lookup_fmap.
    destruct (at_sessions t !! rt_session_id k) as [s|]; [|done]. cbn. by destruct (ended_by user_id s).
Qed.
Lemma all_ended_keeps c user_id reason t : auth_wf t -> keeps t (all_ended c user_id reason t).
Proof.
  intros W. split.
  - apply (wf_end (fun _ => ended_by user_id)); [done|]. intros k s Hs [Hu _]%andb_true_iff. by rewrite Hs.
  - etrans; [|apply later_revoke]. split; cbn; [intros i k Hk; exists k; split; [done|reflexivity]|].
    intros i s Hs. rewrite map_lookup_imap, Hs. cbn. eexists. split; [done|].
    destruct (ended_by user_id s) eqn:E; [|reflexivity]. apply andb_true_iff in E as [_ E]. apply end_session_later. by destruct (acs_revoked_at s).
Qed.
Lemma revoke_all_keeps hash_order c event_id user_id reason t r t' pub : auth_wf t ->
  revoke_all_sessions hash_order c event_id user_id reason t = (r, t', pub) -> keeps t t'.
Proof.
  unfold revoke_all_sessions. intros W [Hr|(e & _ & _ & -> & _)]%run_cases; [|by apply keeps_refl].
  apply result_bind_ok in Hr as (reason' & _ & Hr). apply result_bind_ok in Hr as ([ev t2] & Hr & [= <- <- <-]).
  apply revoke_all_ok in Hr as (reason'' & E1 & E2 & _). eapply keeps_trans; [by apply (all_ended_keeps c user_id reason'')|].
  apply keeps_same; [done|done|by apply all_ended_keeps].
Qed.
Lemma select_keeps c event_id user_id session_id home_id current selected pin t r t' pub : auth_wf t ->
  select_active_profile c event_id user_id session_id home_id current selected pin t = (r, t', pub) -> keeps t t'.
Proof.
  unfold select_active_profile. intros W [Hr|(e & _ & _ & -> & _)]%run_cases; [|by apply keeps_refl].
  apply result_bind_ok in Hr as ([] & _ & Hr). destruct (current =? selected)%N.
  { apply result_bind_ok in Hr as (? & _ & Hr). apply result_bind_ok in Hr as (? & _ & Hr). apply result_bind_ok in Hr as ([] & _ & Hr).
    injection Hr as _ <- _. by apply keeps_refl. }
  destruct (at_sessions t !! session_id) as [sess|] eqn:Es; [|done]. case_match eqn:Ec.
  - destruct (_ && profile_available _ _ _ _ _) eqn:Eg; [|done]. injection Ec as <-. bool_hyps.
    set (t1 := set_account_sessions _ t) in Hr. assert (keeps t t1) as K1.
    { split; [apply wf_session with (s := sess); try done|apply later_session].
      - pose proof (aw_csrf _ W _ _ Es). cbn. lia.
      - intros x Hx. assert (x = sess) as -> by congruence. split; [done|cbn; lia|done]. }
    apply result_bind_ok in Hr as (? & _ & Hr). apply result_bind_ok in Hr as (? & _ & Hr).
    apply result_bind_ok in Hr as (t3 & Ha & [= _ <- _]). apply auth_event_ok in Ha as (E1 & E2 & _).
    eapply keeps_trans; [exact K1|]. apply keeps_same; [done|done|apply K1].
  - apply result_bind_ok in Hr as ([] & _ & Hr). apply result_bind_ok in Hr as (? & _ & Hr). do 3 apply result_bind_ok in Hr as ([] & _ & Hr).
    apply fmap_ok in Hr as ([ev t2] & Hf & [= -> -> ->]). apply revoke_session_ok in Hf. by eapply ended_keeps.
Qed.
Lemma load_keeps c claims t r t' pub : auth_wf t -> load_principal c claims t = (r, t', pub) -> keeps t t'.
Proof.
  unfold load_principal. intros W [Hr|(e & _ & _ & -> & _)]%run_cases; [|by apply keeps_refl].
  apply result_bind_ok in Hr as (? & _ & Hr). apply result_bind_ok in Hr as ([p seen] & _ & Hr). injection Hr as _ <- _.
  destruct (at_sessions t !! sp_account_session_id p) as [sess|] eqn:Es; [|by apply keeps_refl].
  case_match; [|by apply keeps_refl]. split; [apply wf_session with (s := sess); try done; exact (aw_csrf _ W _ _ Es)|apply later_session].
  intros y Hy. assert (y = sess) as -> by congruence. split; [done|cbn; lia|done].
Qed.
End operations.
