(* ===== verification/AuthSafety.v ===== *)
(** * Properties of account sessions (src/src/auth/sessions.rs)

    Operations in any order are steps on the tables ([auth_step]); what other parts of the server write between
    them is a step too.  A refresh token is accepted once, a revoked session stays unusable, a login and each
    refresh give tokens that work. *)
From S2P Require Import Prelude Bytes LiveContract Crypto CatalogGrants CanonicalJson SessionStore RevocationOutbox AdminAudit Authz.
From S2P Require Import HomeProfiles AuthSessions AuthSessionFacts.

(** other parts of the server write the other tables; deleting a home or a profile clears the reference *)
Record detached (s s' : AccountSession) : Prop := {
  dt_user : acs_user_id s' = acs_user_id s;
  dt_csrf : acs_csrf_revision s' = acs_csrf_revision s;
  dt_revoked : acs_revoked_at s' = acs_revoked_at s;
  dt_reason : acs_revoked_reason s' = acs_revoked_reason s;
}.
Section steps.
Context `{CryptoPrims} `{U : UuidText} `{O : OutboxOps} `{A : AuthOps} (uuid_v5 : string -> uuid).

Inductive auth_step (t : AuthTables) : AuthTables -> Prop :=
| step_login s c d user_id context r t' pub :
    (forall i k, at_tokens t !! i = Some k -> rt_token_family k <> dr_token_family d) ->
    issue_login_tokens uuid_v5 s c d user_id context t = (r, t', pub) -> auth_step t t'
| step_refresh s c d presented context r t' pub : refresh_session s c d presented context t = (r, t', pub) -> auth_step t t'
| step_revoke c event_id session_id reason r t' pub : revoke_session c event_id session_id reason t = (r, t', pub) -> auth_step t t'
| step_revoke_all hash_order c event_id user_id reason r t' pub :
    revoke_all_sessions hash_order c event_id user_id reason t = (r, t', pub) -> auth_step t t'
| step_select c event_id user_id session_id home_id current selected pin r t' pub :
    select_active_profile c event_id user_id session_id home_id current selected pin t = (r, t', pub) -> auth_step t t'
| step_load c claims r t' pub : load_principal c claims t = (r, t', pub) -> auth_step t t'
| step_elsewhere t' : at_tokens t' = at_tokens t ->
    (forall i, option_Forall2 detached (at_sessions t !! i) (at_sessions t' !! i)) -> auth_step t t'.

Lemma elsewhere_keeps t t' : at_tokens t' = at_tokens t ->
  (forall i, option_Forall2 detached (at_sessions t !! i) (at_sessions t' !! i)) -> auth_wf t -> keeps t t'.
Proof.
  intros Et Es W. assert (forall i s', at_sessions t' !! i = Some s' -> exists s, at_sessions t !! i = Some s /\ detached s s') as Hb.
  { intros i s' Hs. pose proof (Es i) as Hd. rewrite Hs in Hd. inversion Hd. eauto. }
  assert (forall i s, at_sessions t !! i = Some s -> exists s', at_sessions t' !! i = Some s' /\ detached s s') as Hf.
  { intros i s Hs. pose proof (Es i) as Hd. rewrite Hs in Hd. inversion Hd. eauto. }
  split; split; rewrite ?Et; [|exact (aw_hash _ W)|exact (aw_family _ W)|exact (aw_live _ W)| |exact (aw_replaced _ W)| | |intros i k Hk; exists k; split; [done|reflexivity]|].
  - intros i k Hk. destruct (aw_session _ W _ _ Hk) as [s Hs]. apply Hf in Hs as (s' & -> & _). eauto.
  - intros i k s' Hk (s & Hs & [])%Hb [x He]. eapply (aw_ended _ W _ _ _ Hk Hs). exists x. congruence.
  - intros i s' (s & Hs & [])%Hb. rewrite dt_csrf0. by eapply aw_csrf.
  - intros i s' (s & Hs & [])%Hb. rewrite dt_revoked0, dt_reason0. by eapply aw_reason.
  - intros i s (s' & Hs & [])%Hf. exists s'. split; [done|]. split; [done|lia|done].
Qed.
Lemma step_keeps t t' : auth_wf t -> auth_step t t' -> keeps t t'.
Proof.
  intros W [s c d u context r t2 pub Hf Hr|s c d p context r t2 pub Hr|c e i reason r t2 pub Hr|order c e u reason r t2 pub Hr
           |c e u i h p q pin r t2 pub Hr|c claims r t2 pub Hr|t2 Et Es].
  - by eapply login_keeps.
  - eapply refreshed_keeps; [done|]. by eapply refresh_refreshed.
  - by eapply revoke_keeps.
  - by eapply revoke_all_keeps.
  - by eapply select_keeps.
  - by eapply load_keeps.
  - by apply elsewhere_keeps.
Qed.
Lemma steps_keep t t' : auth_wf t -> rtc auth_step t t' -> keeps t t'.
Proof.
  intros W Hs. revert W. induction Hs as [t|t1 t2 t3 H1 _ IH]; intros W; [by apply keeps_refl|].
  pose proof (step_keeps _ _ W H1) as K. eapply keeps_trans; [exact K|]. apply IH, K.
Qed.

(** The tables stay valid whatever the operations and their order: at most one token of a session is live, the
    tokens of an ended session are revoked, hashes are unique, revisions stay in range. *)
Theorem auth_tables_stay_valid t t' : auth_wf t -> rtc auth_step t t' -> auth_wf t'.
Proof. intros W Hs. by apply (steps_keep t t'). Qed.

(** ** A refresh token is accepted once *)
Lemma refresh_ok_consumed s c d presented t tokens t' : auth_wf t -> refreshed s c d presented t (Ok tokens) t' ->
  exists i k, at_tokens t' !! i = Some k /\ rt_token_hash k = hash_refresh_token s presented /\ is_Some (rt_used_at k)
    /\ rt_session_id k = lt_session_id tokens.
Proof.
  intros W Hr. inversion Hr as [| |i k sess context r t2 Hk Hh Hl Hs st t1 Hc _ _ _ Hrot]; subst.
  inversion Hrot as [|expires tk p _ Hi _ _ _ _ _ _ _ Hsid _ _ _]; subst.
  exists i, (mark_replaced (dr_token_id d) (rs_token st)). split; [cbn; apply lookup_insert_eq|]. split; [done|]. split; [by eexists|done].
Qed.
Lemma used_is_reused s c d presented context t r t' pub i k : auth_wf t -> at_tokens t !! i = Some k ->
  rt_token_hash k = hash_refresh_token s presented -> is_Some (rt_used_at k) ->
  refresh_session s c d presented context t = (r, t', pub) ->
  (exists e, r = Err e /\ t' = t)
  \/ (r = Err RefreshTokenReused /\ exists sess, at_sessions t' !! rt_session_id k = Some sess /\ ended sess).
Proof.
  intros W Hk Hh Hu Hr. apply refresh_refreshed in Hr; [|done].
  destruct Hr as [e|j l t2 Hl Hh' _ He|j l sess context' r t2 Hl Hh' [Hl' _] _ st t1 _ _ _ _ _].
  - left. eauto.
  - right. split; [done|]. assert (j = i) as -> by (eapply (aw_hash _ W); [done|done|congruence]). assert (l = k) as -> by congruence.
    destruct (aw_session _ W _ _ Hk) as [sess Hs]. by eapply ended_session.
  - assert (j = i) as -> by (eapply (aw_hash _ W); [done|done|congruence]). assert (l = k) as -> by congruence.
    rewrite Hl' in Hu. by destruct Hu.
Qed.

(** C32: A refresh token is accepted once: after a refresh that accepted it, no refresh accepts it again, whatever
    happened in between, and the second presentation either fails without effect or ends the session. *)
Theorem refresh_token_single_use s c c' d d' presented context context' t t1 t2 t3 tokens r pub pub' :
  auth_wf t -> refresh_session s c d presented context t = (Ok tokens, t1, pub) -> rtc auth_step t1 t2 ->
  refresh_session s c' d' presented context' t2 = (r, t3, pub') ->
  (exists e, r = Err e /\ t3 = t2)
  \/ (r = Err RefreshTokenReused /\ exists sess, at_sessions t3 !! lt_session_id tokens = Some sess /\ ended sess).
Proof.
  intros W H1 Hs H2. apply refresh_refreshed in H1; [|done]. pose proof (refreshed_keeps _ _ _ _ _ _ _ W H1) as [W1 _].
  destruct (refresh_ok_consumed _ _ _ _ _ _ _ W H1) as (i & k & Hk & Hh & Hu & Hsid).
  destruct (steps_keep _ _ W1 Hs) as [W2 [Lt _]]. destruct (Lt _ _ Hk) as (k2 & Hk2 & [T1 T2 _ _ _ T6 _]).
  rewrite <- Hsid, <- T1. eapply used_is_reused; [done|done|by rewrite T2| |done]. by rewrite T6.
Qed.

(** ** The end of a session is final *)
Lemma ended_stays t t' i s : auth_wf t -> at_sessions t !! i = Some s -> ended s -> rtc auth_step t t' ->
  exists s', at_sessions t' !! i = Some s' /\ ended s'.
Proof.
  intros W Hs He Hst. destruct (steps_keep _ _ W Hst) as [_ [_ Ls]]. destruct (Ls _ _ Hs) as (s' & Hs' & [_ _ L]).
  exists s'. split; [done|]. unfold ended. by destruct (L He) as [-> _].
Qed.
(** the rows behind a principal *)
Record principal_rows (user_id session_id : uuid) (t : AuthTables) (row : PrincipalRow) (s : AccountSession) (p : ProfileRow)
    (columns : ProfileColumns) (m : MemberRow) (r : RevisionRow) : Prop := {
  pw_session : at_sessions t !! session_id = Some s;
  pw_user : acs_user_id s = user_id /\ pn_user_id row = user_id /\ pn_session_id row = session_id;
  pw_live : acs_revoked_at s = None;
  pw_home : acs_home_id s = Some (pn_home_id row);
  pw_profile : acs_active_profile_id s = Some (pn_profile_id row) /\ az_profiles (at_authz t) !! pn_profile_id row = Some p
    /\ ht_profiles (at_home t) !! pn_profile_id row = Some columns /\ pf_home_id p = pn_home_id row /\ usable_by user_id p = true
    /\ pn_profile_type row = pf_profile_type p /\ pn_display_name row = px_display_name columns;
  pw_member : az_members (at_authz t) !! (pn_home_id row, user_id) = Some m /\ mb_status m = "active" /\ pn_role row = mb_role m;
  pw_revision : az_revisions (at_authz t) !! pn_profile_id row = Some r /\ rv_home_id r = pn_home_id row
    /\ pn_capability_revision row = rv_revision r;
  pw_columns : pn_remember_device row = lc_remember_device (acs_context s) /\ pn_csrf_revision row = acs_csrf_revision s
    /\ pn_last_seen_at row = acs_last_seen_at s /\ pn_expires_at row = acs_expires_at s;
}.
Lemma principal_row_some user_id session_id t row : principal_row user_id session_id t = Some row ->
  exists s p columns m r, principal_rows user_id session_id t row s p columns m r.
Proof.
  unfold principal_row. intros (s & Hs & (h & Hh & (pid & Hpid & (p & Hp & (c & Hc & (m & Hm & (r & Hr & H0)%bind_Some)%bind_Some)%bind_Some)%bind_Some)%bind_Some)%bind_Some)%bind_Some.
  destruct (_ && usable_by _ _) eqn:E; [|done]. injection H0 as <-. exists s, p, c, m, r. bool_hyps.
  repeat match goal with E : (_ =? _)%N = true |- _ => apply N.eqb_eq in E | E : String.eqb _ _ = true |- _ => apply String.eqb_eq in E end.
  subst. split; cbn; try done. by destruct (acs_revoked_at s).
Qed.
Lemma principal_row_of user_id session_id t row s p columns m r : principal_rows user_id session_id t row s p columns m r ->
  principal_row user_id session_id t = Some row.
Proof.
  intros [Hs (Hu & Hu' & Hi) Hl Hh (Hp & Hp' & Hc & Hph & Hus & Hty & Hn) (Hm & Hst & Hro) (Hr & Hrh & Hca) (H1 & H2 & H3 & H4)].
  unfold principal_row. rewrite Hs. cbn. rewrite Hh. cbn. rewrite Hp. cbn. rewrite Hp'. cbn. rewrite Hc. cbn. rewrite Hu, Hm. cbn. rewrite Hr. cbn.
  rewrite Hph, Hst, Hrh, Hl, Hus, !N.eqb_refl. cbn. f_equal. destruct row. cbn in *. congruence.
Qed.
Lemma no_principal_row user_id i s t : at_sessions t !! i = Some s -> ended s -> principal_row user_id i t = None.
Proof.
  intros Hs [x He]. destruct (principal_row user_id i t) as [row|] eqn:E; [|done].
  apply principal_row_some in E as (s' & ? & ? & ? & ? & []). congruence.
Qed.
Lemma principal_loaded now user_id i t p : load_principal_in_transaction now user_id i t = Ok (Some p) ->
  exists row, principal_row user_id i t = Some row /\ principal_try_from row = Ok p /\ (now < sp_session_expires_at p)%Z.
Proof.
  unfold load_principal_in_transaction, decode_active_principal. intros H0. apply result_bind_ok in H0 as (o & Hd & [= Ho]).
  destruct (principal_row user_id i t) as [row|]; [|by injection Hd as <-].
  apply result_bind_ok in Hd as (p' & Hp & [= <-]). destruct (Z.leb_spec (sp_session_expires_at p') now); [done|].
  injection Ho as <-. eauto.
Qed.
Lemma principal_session row p : principal_try_from row = Ok p ->
  sp_account_session_id p = pn_session_id row /\ sp_user_id p = pn_user_id row /\ sp_home_id p = pn_home_id row
  /\ sp_profile_id p = pn_profile_id row.
Proof. unfold principal_try_from. intros H0. ok_inv. done. Qed.

(** C33: The end of a session is final: whatever happens later, no token of it is accepted, no access token that names
    it has a principal, and no profile is selected in it. *)
Theorem revoked_session_is_final t t' i sess : auth_wf t -> at_sessions t !! i = Some sess -> ended sess -> rtc auth_step t t' ->
  (forall s c d presented context tokens t2 pub,
     refresh_session s c d presented context t' = (Ok tokens, t2, pub) -> lt_session_id tokens <> i)
  /\ (forall c claims, vc_session_id claims = i -> load_principal c claims t' = (Err InvalidPrincipal, t', []))
  /\ (forall c event_id user_id home_id current selected pin p t2 pub,
       select_active_profile c event_id user_id i home_id current selected pin t' <> (Ok p, t2, pub)).
Proof.
  intros W Hs He Hst. destruct (ended_stays _ _ _ _ W Hs He Hst) as (s' & Hs' & He'). destruct (steps_keep _ _ W Hst) as [W' _].
  split_and!.
  - intros s c d presented context tokens t2 pub Hr <-. apply refresh_refreshed in Hr; [|done].
    inversion Hr as [| |j k s0 ctx r t3 Hk Hh [Hu Hv] Hs0 st t1 _ Hn _ _ Hrot]; subst.
    assert (rt_session_id k = lt_session_id tokens) as Hsid by (inversion Hrot; subst; done).
    rewrite Hsid in Hs0. destruct He' as [x He']. congruence.
  - intros c claims <-. unfold load_principal, run. by rewrite (no_principal_row _ _ _ _ Hs' He').
  - intros c e u h p q pin pr t2 pub Hr. unfold select_active_profile in Hr. apply run_ok_inv in Hr. apply result_bind_ok in Hr as ([] & _ & Hr).
    assert (forall t0 s0, at_sessions t0 !! i = Some s0 -> ended s0 -> load_principal_in_transaction (ck_principal c) u i t0 = Ok None) as Hnone.
    { intros t0 s0 Hs0 He0. unfold load_principal_in_transaction. by rewrite (no_principal_row _ _ _ _ Hs0 He0). }
    destruct (p =? q)%N; [by rewrite (Hnone _ _ Hs' He') in Hr|]. rewrite Hs' in Hr. destruct He' as [x He']. rewrite He' in Hr.
    cbn [is_none_b] in Hr. rewrite !andb_false_r in Hr. cbn [andb] in Hr.
    apply result_bind_ok in Hr as ([] & _ & Hr). apply result_bind_ok in Hr as (? & _ & Hr). done.
Qed.
End steps.

(** ** Tokens that work *)
Section tokens.
Context `{C : CryptoPrims} `{CL : !CryptoLaws C} `{U : UuidText} `{UL : !UuidTextLaws U} `{O : OutboxOps} `{A : AuthOps} `{AL : !AuthLaws A O}.

(** the configuration and the clock of an operation that may succeed: lifetimes are representable and end later *)
Record working (s : AuthService) (c : Clock) : Prop := {
  wk_ttl : (0 <= access_token_ttl_minutes (sv_config s) * 60 <= i64_max / 1000)%Z;
  wk_expires : forall remember, exists e, session_expiration s (ck_now c) remember = Ok e /\ (ck_principal c < e)%Z;
  wk_access : is_Some (outbox_add_nanos (ck_sign c) (seconds (access_token_ttl_minutes (sv_config s) * 60)));
  wk_epoch : (0 <= ck_sign c)%Z /\ is_Some (from_timestamp (timestamp (ck_sign c)));
}.
Lemma timestamp_mono a b : (a <= b)%Z -> (timestamp a <= timestamp b)%Z.
Proof. unfold timestamp, nanos_per_second. intros Hab. div_lia. Qed.
Lemma role_roundtrip r : HomeRole_try_from (role_str r) = Some r.
Proof. by destruct r. Qed.
(** a signed token verifies until it expires, and says what was signed *)
Lemma sign_verify s c user_id session_id home_id profile_id role : working s c ->
  exists token e, sign_session_access_token s user_id session_id home_id profile_id role (ck_sign c) = Some (token, e)
    /\ forall now, (timestamp now <= timestamp e + JWT_LEEWAY)%Z -> exists v, verify_access_claims s now token = Some v
      /\ vc_user_id v = user_id /\ vc_session_id v = session_id /\ vc_home_id_hint v = Some home_id
      /\ vc_profile_id_hint v = Some profile_id /\ vc_role_hint v = Some role.
Proof.
  intros [Ht _ [e He] [H0 [iat Hi]]]. unfold sign_session_access_token, sign_access_token_claims, u64_checked_mul, try_seconds.
  assert (i64_max / 1000 <= i64_max)%Z as Hmax by (unfold i64_max; div_lia). assert (i64_max <= u64_max)%Z as Hmax' by (unfold i64_max, u64_max; lia).
  rewrite (proj2 (Z.leb_le _ _)) by lia. cbn [mbind option_bind]. rewrite !(proj2 (Z.leb_le _ _)) by lia. cbn [mbind option_bind].
  rewrite He. cbn [mbind option_bind]. pose proof (add_exact _ _ _ He) as Hex.
  assert (0 <= timestamp (ck_sign c))%Z as Hp by (unfold timestamp, nanos_per_second; div_lia).
  assert (timestamp (ck_sign c) <= timestamp e)%Z as Hle by (apply timestamp_mono; unfold seconds, nanos_per_second in *; lia).
  pose proof (timestamp_i64 _ _ _ He) as Hi64.
  unfold claim_seconds. rewrite !(proj2 (Z.leb_le _ _)) by lia. cbn [mbind option_bind].
  match goal with |- context [jwt_encode ?k ?cl] => set (claims := cl); destruct (jwt_encode_defined k claims) as [token Htok] end.
  rewrite Htok. cbn [mbind option_bind]. exists token, e. split; [done|]. intros now Hnow.
  unfold verify_access_claims. rewrite (jwt_roundtrip _ _ _ now Htok Hnow). cbn [mbind option_bind ac_sub ac_sid ac_hid ac_pid ac_role ac_exp ac_iat claims fmap option_fmap option_map parse_hint fst snd].
  rewrite !uuid_parse_to_string, role_roundtrip. cbn [mbind option_bind fmap option_fmap option_map]. unfold timestamp_from_claim.
  rewrite (proj2 (Z.leb_le (timestamp e) _)), (from_timestamp_of _ _ _ He) by lia. cbn [mbind option_bind].
  rewrite (proj2 (Z.leb_le _ _)) by lia. rewrite Hi. cbn [mbind option_bind]. eauto 8.
Qed.
Lemma generated_shape random : slen random = 32%Z -> validate_refresh_token_shape (generate_refresh_token random) = Ok ().
Proof.
  intros Hl. unfold validate_refresh_token_shape, generate_refresh_token.
  rewrite (proj2 (strip_prefix_some _ _ (b64url_encode random)) eq_refl). run_ok.
  rewrite b64url_length, Hl. change ((32 * 4 + 2) / 3)%Z with 43%Z. run_ok. cbn. rewrite b64url_roundtrip. run_ok. by rewrite Hl.
Qed.
Lemma hash_length s token : char_count (hash_refresh_token s token) = 43%Z.
Proof.
  unfold hash_refresh_token. set (x := b64url_encode _). assert (slen x = 43%Z) as Hl by (unfold x; rewrite b64url_length, hmac_length; done).
  pose proof (b64url_alphabet (hmac (sv_refresh_token_key s) (framed REFRESH_TOKEN_DOMAIN +:+ framed token))) as Ha. fold x in Ha.
  unfold char_count. rewrite <- Hl. unfold slen. f_equal. clear Hl. induction x as [|b x IH]; [done|].
  rewrite all_bytes_cons in Ha. apply andb_true_iff in Ha as [Hb Ha]. cbn.
  assert (negb ((128 <=? byte_of b) && (byte_of b <? 192))%N = true) as ->.
  { apply negb_true_iff, andb_false_iff. left. apply N.leb_gt. unfold b64url_byte, is_alnum, is_upper, is_lower, is_digit in Hb.
    repeat (apply orb_true_iff in Hb as [Hb|Hb]); try (apply andb_true_iff in Hb as [_ Hb]; apply N.leb_le in Hb; lia);
      apply Ascii.eqb_eq in Hb as ->; done. }
  cbn. f_equal. by apply IH.
Qed.
Lemma csrf_defined s i r : (0 < r)%Z -> exists token, csrf_token s i r = Ok token.
Proof. intros Hr. unfold csrf_token. rewrite (proj2 (Z.leb_gt _ _)) by lia. cbn. eauto. Qed.

(** random values that nothing uses yet *)
Record fresh_draws (s : AuthService) (d : Draws) (t : AuthTables) : Prop := {
  fr_session : at_sessions t !! dr_session_id d = None;
  fr_token : at_tokens t !! dr_token_id d = None;
  fr_hash : forall i k, at_tokens t !! i = Some k -> rt_token_hash k <> hash_refresh_token s (generate_refresh_token (dr_random d));
  fr_random : slen (dr_random d) = 32%Z;
}.
(** a session that a refresh token continues at some time *)
Record usable (s : AuthService) (presented : string) (now : instant) (t : AuthTables) (i j : uuid) (k : RefreshToken) (sess : AccountSession)
    (row : PrincipalRow) (p : SessionPrincipal) : Prop := {
  us_shape : validate_refresh_token_shape presented = Ok ();
  us_token : at_tokens t !! j = Some k;
  us_hash : rt_token_hash k = hash_refresh_token s presented;
  us_live : live_token k;
  us_session : rt_session_id k = i /\ at_sessions t !! i = Some sess;
  us_going : acs_revoked_at sess = None;
  us_expires : (now < rt_expires_at k)%Z /\ (now < acs_expires_at sess)%Z;
  us_csrf : (acs_csrf_revision sess < MAX_CSRF_REVISION)%Z;
  us_row : principal_row (acs_user_id sess) i t = Some row;
  us_principal : principal_try_from row = Ok p;
}.
(** the principal of a session whose times and revision changed *)
Definition touched_row (csrf_revision last_seen_at expires_at : Z) (row : PrincipalRow) : PrincipalRow :=
  {| pn_user_id := pn_user_id row; pn_session_id := pn_session_id row; pn_home_id := pn_home_id row; pn_profile_id := pn_profile_id row;
     pn_role := pn_role row; pn_profile_type := pn_profile_type row; pn_display_name := pn_display_name row;
     pn_remember_device := pn_remember_device row; pn_csrf_revision := csrf_revision; pn_last_seen_at := last_seen_at;
     pn_capability_revision := pn_capability_revision row; pn_expires_at := expires_at |}.
Definition touched_principal (csrf_revision expires_at : Z) (p : SessionPrincipal) : SessionPrincipal :=
  {| sp_user_id := sp_user_id p; sp_account_session_id := sp_account_session_id p; sp_home_id := sp_home_id p; sp_profile_id := sp_profile_id p;
     sp_role := sp_role p; sp_profile_type := sp_profile_type p; sp_profile_display_name := sp_profile_display_name p;
     sp_remember_device := sp_remember_device p; sp_csrf_revision := csrf_revision; sp_capability_revision := sp_capability_revision p;
     sp_session_expires_at := expires_at |}.
Lemma touched_try_from csrf seen e row p : principal_try_from row = Ok p ->
  principal_try_from (touched_row csrf seen e row) = Ok (touched_principal csrf e p).
Proof.
  unfold principal_try_from. intros Hp. apply result_bind_ok in Hp as (ty & Ht & Hp). apply result_bind_ok in Hp as (ro & Hr & [= <-]).
  cbn. rewrite Ht. cbn. by rewrite Hr.
Qed.
Lemma touched_principal_row user_id i context e now sess t t' row : principal_row user_id i t = Some row -> at_sessions t !! i = Some sess ->
  at_home t' = at_home t -> at_sessions t' !! i = Some (touch_session context e now sess) ->
  principal_row user_id i t' = Some (touched_row (acs_csrf_revision sess + 1) now e row).
Proof.
  intros Hr Hs Hh Hs'. apply principal_row_some in Hr as (s0 & p & cs & m & r & [Hs0 (Hu & Hu' & Hi) Hl Hho (Hp & Hp' & Hc & Hph & Hus & Hty & Hn) Hm Hrv (H1 & _)]).
  assert (s0 = sess) as -> by congruence. eapply (principal_row_of _ _ _ _ (touch_session context e now sess) p cs m r).
  unfold at_authz in *. split; cbn; unfold at_authz; rewrite ?Hh; done.
Qed.
Lemma active_principal now user_id i t row p : principal_row user_id i t = Some row -> principal_try_from row = Ok p ->
  (now < sp_session_expires_at p)%Z -> decode_active_principal now (principal_row user_id i t) = Ok (Some (p, pn_last_seen_at row)).
Proof. intros Hr Hp Hn. unfold decode_active_principal. rewrite Hr, Hp. cbn. by rewrite (proj2 (Z.leb_gt _ _)) by lia. Qed.

(** a claimed token of a session with a principal is rotated *)
Lemma rotation_succeeds s c d ctx st t row p : claimed_in st t ->
  rt_revoked_at (rs_token st) = None -> acs_revoked_at (rs_session st) = None ->
  (ck_now c < rt_expires_at (rs_token st))%Z -> (ck_now c < acs_expires_at (rs_session st))%Z ->
  (1 <= acs_csrf_revision (rs_session st) < MAX_CSRF_REVISION)%Z ->
  principal_row (acs_user_id (rs_session st)) (rt_session_id (rs_token st)) t = Some row -> principal_try_from row = Ok p ->
  working s c -> at_tokens t !! dr_token_id d = None ->
  (forall i k, at_tokens t !! i = Some k -> rt_token_hash k <> hash_refresh_token s (generate_refresh_token (dr_random d))) ->
  exists tokens e, let t' := rotated s c d ctx st e t in
    rotate_token s c d ctx st t = Ok (Ok tokens, t', [])
    /\ lt_session_id tokens = rt_session_id (rs_token st) /\ lt_home_id tokens = sp_home_id p /\ lt_profile_id tokens = sp_profile_id p
    /\ lt_role tokens = sp_role p /\ lt_refresh_token tokens = generate_refresh_token (dr_random d) /\ lt_refresh_expires_at tokens = e
    /\ principal_row (acs_user_id (rs_session st)) (rt_session_id (rs_token st)) t'
       = Some (touched_row (acs_csrf_revision (rs_session st) + 1) (ck_sql c) e row).
Proof.
  intros [Ct Cu Cs Ca] Rv Go Ex Ey [Cs1 Cs2] Ro Pr Wk Ft Fh. set (k := rs_token st) in *. set (sess := rs_session st) in *.
  destruct (wk_expires _ _ Wk (lc_remember_device (acs_context sess))) as (e & He & Hpe).
  set (t2 := rotated s c d ctx st e t).
  assert (principal_row (acs_user_id sess) (rt_session_id k) t2 = Some (touched_row (acs_csrf_revision sess + 1) (ck_sql c) e row)) as Hrow
    by (eapply touched_principal_row; [exact Ro|exact Cs|done|apply lookup_insert_eq]).
  pose proof (touched_try_from (acs_csrf_revision sess + 1) (ck_sql c) e _ _ Pr) as Hp.
  destruct (sign_verify s c (sp_user_id p) (sp_account_session_id p) (sp_home_id p) (sp_profile_id p) (sp_role p) Wk) as (token & exp & Hsign & _).
  destruct (csrf_defined s (rt_session_id k) (acs_csrf_revision sess + 1)) as [csrf Hcsrf]; [lia|].
  set (t1 := set_account_sessions (<[rt_session_id k := touch_session ctx e (ck_sql c) sess]> (at_sessions t)) t).
  assert (insert_token (dr_token_id d) (successor s c d st e) t1 = Ok (set_tokens (<[dr_token_id d := successor s c d st e]> (at_tokens t1)) t1)) as Hins.
  { apply insert_token_ok. split_and!; try done; [apply hash_length|cbn; rewrite lookup_insert_eq; eauto|].
    intros q [= <-]. by exists k. }
  exists {| lt_access_token := token; lt_access_expires_at := exp;
     lt_refresh_token := generate_refresh_token (dr_random d); lt_refresh_expires_at := e; lt_session_id := rt_session_id k; lt_home_id := sp_home_id p;
     lt_profile_id := sp_profile_id p; lt_role := sp_role p; lt_csrf_token := csrf;
     lt_profile := {| spf_id := sp_profile_id p; spf_display_name := sp_profile_display_name p; spf_profile_type := sp_profile_type p |} |}, e.
  split; [|done]. unfold rotate_token. fold k sess. rewrite Rv, Go. run_ok. cbn [is_some_b orb reject_if mbind result_bind].
  rewrite !(proj2 (Z.leb_gt _ _)) by lia. cbn [orb reject_if mbind result_bind]. rewrite He. run_ok.
  unfold bump_session. rewrite Cs. cbn [mbind option_bind]. rewrite Go.
  rewrite (proj2 (Z.ltb_lt _ _)) by done. cbn [is_none_b andb]. 
  match goal with |- context [insert_token ?a ?b ?u] => change (insert_token a b u) with (insert_token (dr_token_id d) (successor s c d st e) t1) end.
  rewrite Hins. run_ok.
  cbn [set_tokens set_account_sessions at_tokens t1]. rewrite lookup_insert_ne by congruence. rewrite Ct.
  destruct Cu as [u ->]. cbn [is_some_b]. unfold load_principal_in_transaction.
  match goal with |- context [principal_row ?a ?b ?u] => change (principal_row a b u) with (principal_row (acs_user_id sess) (rt_session_id k) t2) end.
  rewrite (active_principal (ck_principal c) _ _ _ _ _ Hrow Hp) by done. run_ok. cbn. unfold touched_principal. cbn. rewrite Hsign. run_ok. cbn. by rewrite Hcsrf.
Qed.
(** A refresh of a usable session succeeds, under fresh random values: the session goes on under the same principal,
    and the token it gives is usable in turn until the session expires. *)
Theorem usable_session_refreshes s c d presented context ctx t i j k sess row p :
  auth_wf t -> usable s presented (ck_now c) t i j k sess row p -> normalize_context context = Ok ctx -> working s c -> fresh_draws s d t ->
  exists tokens t', refresh_session s c d presented context t = (Ok tokens, t', [])
    /\ lt_session_id tokens = i /\ lt_home_id tokens = sp_home_id p /\ lt_profile_id tokens = sp_profile_id p /\ lt_role tokens = sp_role p
    /\ (forall now, (now < lt_refresh_expires_at tokens)%Z -> (acs_csrf_revision sess + 1 < MAX_CSRF_REVISION)%Z ->
        exists k' sess' row' p', usable s (lt_refresh_token tokens) now t' i (dr_token_id d) k' sess' row' p'
          /\ sp_role p' = sp_role p /\ sp_profile_id p' = sp_profile_id p).
Proof.
  intros W [Sh Tk Hh Lv [Si Ss] Go [Ex Ey] Cs Ro Pr] Hctx Wk [_ Ft Fh Fr]. subst i.
  destruct (claim_effective (ck_sql c) t j k W Tk Lv) as (sess0 & Hs0 & Hcount & Hst & Hci). assert (sess0 = sess) as -> by congruence.
  set (t1 := update_tokens _ _ _) in *. match type of Hst with _ = Some ?x => set (st := x) in * end.
  assert (at_tokens t1 !! dr_token_id d = None) as Ft1 by (cbn; by rewrite lookup_fmap, Ft).
  destruct (rotation_succeeds s c d ctx st t1 row p Hci) as (tokens & e & Hrot & Hsid & Hho & Hpr & Hro & Hrt & Hre & Hrow); try done.
  - apply Lv.
  - pose proof (aw_csrf _ W _ _ Ss). cbn. lia.
  - intros i l' (l & Hl & ->)%update_tokens_lookup.
    replace (rt_token_hash (if claimable_token (rt_token_hash k) l then mark_used (ck_sql c) l else l)) with (rt_token_hash l) by (by case_match). by eapply Fh.
  - exists tokens, (rotated s c d ctx st e t1). split.
    { unfold refresh_session, run. rewrite Sh. run_ok. rewrite Hctx. run_ok. rewrite <- Hh. fold t1. rewrite Hcount, Hst. run_ok. cbn [Nat.eqb negb].
      by rewrite Hrot. }
    split_and!; [done..|]. rewrite Hrt, Hre. intros now Hnow Hcs. eexists (successor s c d st e), _, _, _.
    split; [split|]; [by apply generated_shape| |done|done|split; [done|apply lookup_insert_eq]|done|done|done|exact Hrow|by apply touched_try_from|done].
    cbn. rewrite lookup_insert_ne by congruence. apply lookup_insert_eq.
Qed.

(** ** Logging in *)
Section login.
Context (uuid_v5 : string -> uuid).
Lemma bootstrap_references user_id now t b h : ensure_owner_home uuid_v5 user_id now t = Ok (b, h) ->
  is_Some (ht_users h !! user_id) /\ is_Some (ht_homes h !! bt_home_id b) /\ is_Some (az_profiles (ht_authz h) !! pr_id (bt_profile b)).
Proof.
  intros Hb. pose proof (ensure_bootstrapped _ _ _ _ _ _ Hb) as [_ Hu _ _ _ _ _ _].
  pose proof (bootstrap_gives_owner _ _ _ _ _ _ Hb) as (Hh & _ & _ & _ & _ & Hp & _).
  split_and!; [done|by rewrite Hh|]. unfold find_profile in Hp. by destruct (az_profiles (ht_authz h) !! pr_id (bt_profile b)); eauto.
Qed.
Definition login_session (s : AuthService) (c : Clock) (user_id : uuid) (context : LoginContext) (b : OwnerHomeBootstrap) (e : instant) : AccountSession :=
  {| acs_user_id := user_id; acs_home_id := Some (bt_home_id b); acs_active_profile_id := Some (pr_id (bt_profile b));
     acs_context := context; acs_csrf_revision := 1; acs_created_at := ck_sql c; acs_last_seen_at := ck_sql c;
     acs_recent_auth_at := ck_sql c; acs_expires_at := e; acs_revoked_at := None; acs_revoked_reason := None |}.
Definition login_token (s : AuthService) (c : Clock) (d : Draws) (e : instant) : RefreshToken :=
  {| rt_session_id := dr_session_id d; rt_token_hash := hash_refresh_token s (generate_refresh_token (dr_random d));
     rt_token_family := dr_token_family d; rt_previous_token_id := None; rt_created_at := ck_sql c; rt_expires_at := e; rt_used_at := None;
     rt_revoked_at := None; rt_replaced_by_token_id := None |}.
Definition logged_in (s : AuthService) (c : Clock) (d : Draws) (user_id : uuid) (context : LoginContext) (b : OwnerHomeBootstrap) (h : HomeTables)
    (e : instant) (t : AuthTables) : AuthTables :=
  {| at_home := h; at_sessions := <[dr_session_id d := login_session s c user_id context b e]> (at_sessions t);
     at_tokens := <[dr_token_id d := login_token s c d e]> (at_tokens t) |}.
Lemma login_succeeds s c d user_id context ctx t b h : ensure_owner_home uuid_v5 user_id (ck_sql c) (at_home t) = Ok (b, h) ->
  normalize_context context = Ok ctx -> working s c -> fresh_draws s d t ->
  exists tokens e exp, issue_login_tokens uuid_v5 s c d user_id context t = (Ok tokens, logged_in s c d user_id ctx b h e t, [])
    /\ session_expiration s (ck_now c) (lc_remember_device ctx) = Ok e /\ (ck_principal c < e)%Z
    /\ sign_session_access_token s user_id (dr_session_id d) (bt_home_id b) (pr_id (bt_profile b)) (hmem_role (bt_membership b)) (ck_sign c)
       = Some (lt_access_token tokens, exp) /\ lt_access_expires_at tokens = exp
    /\ lt_refresh_token tokens = generate_refresh_token (dr_random d) /\ lt_session_id tokens = dr_session_id d
    /\ lt_home_id tokens = bt_home_id b /\ lt_profile_id tokens = pr_id (bt_profile b) /\ lt_role tokens = hmem_role (bt_membership b)
    /\ lt_refresh_expires_at tokens = e.
Proof.
  intros Hb Hctx Wk [Fs Ft Fh Fr]. destruct (bootstrap_references _ _ _ _ _ Hb) as ([u Hu] & [ho Hho] & [pr Hpr]).
  destruct (wk_expires _ _ Wk (lc_remember_device ctx)) as (e & He & Hpe).
  destruct (sign_verify s c user_id (dr_session_id d) (bt_home_id b) (pr_id (bt_profile b)) (hmem_role (bt_membership b)) Wk) as (token & exp & Hsign & _).
  destruct (csrf_defined s (dr_session_id d) 1) as [csrf Hcsrf]; [lia|].
  set (t1 := set_account_sessions (<[dr_session_id d := login_session s c user_id ctx b e]> (at_sessions t)) (set_home h t)).
  assert (insert_token (dr_token_id d) (login_token s c d e) t1 = Ok (set_tokens (<[dr_token_id d := login_token s c d e]> (at_tokens t1)) t1)) as Hins.
  { apply insert_token_ok. split_and!; try done; [apply hash_length|cbn; rewrite lookup_insert_eq; eauto]. }
  eexists _, e, exp. split; [|split; [done|split; [done|]]].
  - unfold issue_login_tokens, run, issue_login_tokens_in_transaction. rewrite Hctx. run_ok. rewrite Hb. run_ok. rewrite He. run_ok.
    unfold insert_session. cbn [set_home at_sessions at_home acs_user_id acs_home_id acs_active_profile_id at_authz]. rewrite Fs, Hu.
    cbn [is_some_b is_none_b is_some_and]. rewrite Hho. unfold at_authz. cbn [set_home at_home is_some_and is_none_b orb]. rewrite Hpr. cbn [is_none_b orb reject_if mbind result_bind].
    match goal with |- context [insert_token ?a ?b ?u] => change (insert_token a b u) with (insert_token (dr_token_id d) (login_token s c d e) t1) end.
    rewrite Hins. run_ok. rewrite Hsign. run_ok. rewrite Hcsrf. run_ok. reflexivity.
  - cbn. done.
Qed.

(** C34: A new account can log in: it gets a home of its own, the access token verifies and names its session, whose
    principal is the owner under the account's profile; and if its token family is a new one, the refresh token, presented
    with fresh random values before it expires, gives new tokens for the same session, home, profile and role. *)
Theorem new_account_logs_in s c d user_id email context ctx t : auth_wf t -> new_account uuid_v5 user_id email (at_home t) ->
  normalize_context context = Ok ctx -> working s c -> fresh_draws s d t ->
  exists tokens t', issue_login_tokens uuid_v5 s c d user_id context t = (Ok tokens, t', [])
    /\ lt_role tokens = Owner /\ lt_home_id tokens = home_id_of uuid_v5 user_id /\ lt_profile_id tokens = profile_id_of uuid_v5 user_id
    /\ (forall now, (timestamp now <= timestamp (lt_access_expires_at tokens) + JWT_LEEWAY)%Z ->
        exists claims, verify_access_claims s now (lt_access_token tokens) = Some claims
          /\ forall c', (ck_principal c' < lt_refresh_expires_at tokens)%Z -> exists p t2, load_principal c' claims t' = (Ok p, t2, [])
            /\ sp_user_id p = user_id /\ sp_account_session_id p = lt_session_id tokens /\ sp_home_id p = lt_home_id tokens
            /\ sp_profile_id p = lt_profile_id tokens /\ sp_role p = Owner /\ sp_profile_type p = Account /\ sp_csrf_revision p = 1%Z)
    /\ ((forall i k, at_tokens t !! i = Some k -> rt_token_family k <> dr_token_family d) ->
        forall c' d' context' ctx', (ck_now c' < lt_refresh_expires_at tokens)%Z -> normalize_context context' = Ok ctx' ->
        working s c' -> fresh_draws s d' t' ->
        exists next t2, refresh_session s c' d' (lt_refresh_token tokens) context' t' = (Ok next, t2, [])
          /\ lt_session_id next = lt_session_id tokens /\ lt_home_id next = lt_home_id tokens
          /\ lt_profile_id next = lt_profile_id tokens /\ lt_role next = lt_role tokens).
Proof.
  intros W Hnew Hctx Wk Fr. destruct (new_account_gets_home uuid_v5 user_id email (ck_sql c) (at_home t) Hnew) as (h & Hb & Hm & Hp & Hc & Hr).
  set (b := new_bootstrap uuid_v5 user_id email (ck_sql c)) in *.
  destruct (login_succeeds s c d user_id context ctx t b h Hb Hctx Wk Fr) as (tokens & e & exp & Hl & He & Hpe & Hsign & Hexp & Hrt & Hsid & Hho & Hpr & Hro & Hre).
  set (t' := logged_in s c d user_id ctx b h e t) in *. exists tokens, t'. split; [done|]. rewrite Hro, Hho, Hpr, Hsid, Hre, Hexp, Hrt.
  set (row := {| pn_user_id := user_id; pn_session_id := dr_session_id d; pn_home_id := home_id_of uuid_v5 user_id;
    pn_profile_id := profile_id_of uuid_v5 user_id; pn_role := "owner"; pn_profile_type := "account"; pn_display_name := owner_display_name email;
    pn_remember_device := lc_remember_device ctx; pn_csrf_revision := 1; pn_last_seen_at := ck_sql c; pn_capability_revision := 1; pn_expires_at := e |}).
  assert (principal_row user_id (dr_session_id d) t' = Some row) as Hrow.
  { eapply (principal_row_of _ _ _ _ (login_session s c user_id ctx b e)). split; cbn; try done.
    - apply lookup_insert_eq.
    - split_and!; try done. unfold usable_by. cbn. by rewrite bool_decide_eq_true_2. }
  split_and!; [done..| |].
  - intros now Hnow. destruct (sign_verify s c user_id (dr_session_id d) (bt_home_id b) (pr_id (bt_profile b)) (hmem_role (bt_membership b)) Wk) as (token & exp' & Hsign' & Hv).
    rewrite Hsign in Hsign'. injection Hsign' as <- <-. destruct (Hv now Hnow) as (v & Hver & Hvu & Hvs & _). exists v. split; [done|].
    intros c' Hc'. unfold load_principal, run. rewrite Hvu, Hvs.
    rewrite (active_principal (ck_principal c') _ _ _ row _ Hrow eq_refl) by done. run_ok. cbn. eauto 12.
  - intros Hfamily c' d' context' ctx' Hnow Hctx' Wk' Fr'.
    assert (auth_wf t') as W' by (eapply login_keeps; [exact W|exact Hfamily|exact Hl]).
    assert (exists p, principal_try_from row = Ok p) as [p Hpr'] by (by eexists).
    destruct (usable_session_refreshes s c' d' (generate_refresh_token (dr_random d)) context' ctx' t' (dr_session_id d) (dr_token_id d)
      (login_token s c d e) (login_session s c user_id ctx b e) row p) as (next & t2 & Hn & Hi & Hh & Hpf & Hrl & _); [exact W'| |done..|].
    2:{ exists next, t2. split; [exact Hn|]. rewrite Hi, Hh, Hpf, Hrl. injection Hpr' as <-. done. }
    split; [apply generated_shape, Fr|apply lookup_insert_eq|done|done|split; [done|apply lookup_insert_eq]|done|done|done|exact Hrow|exact Hpr'].
Qed.
End login.
End tokens.

(** ** Keyed tokens and lifetimes *)
Lemma framed_inj a b x y : (slen a <= u64_max)%Z -> (slen b <= u64_max)%Z -> framed a +:+ x = framed b +:+ y -> a = b /\ x = y.
Proof. unfold framed. rewrite !str_app_assoc. apply length_prefixed64_inj. Qed.
Lemma uuid_bytes_inj a b : (a < 340282366920938463463374607431768211456)%N -> (b < 340282366920938463463374607431768211456)%N ->
  uuid_bytes a = uuid_bytes b -> a = b.
Proof.
  unfold uuid_bytes. intros Ha Hb He.
  assert (forall n, String.length (be64 n) = 8) as Hl by (intros n; reflexivity).
  apply str_app_inj in He as [E1 E2]; [|by rewrite !Hl].
  apply be64_inj in E1; [|unfold u64_max; div_lia..]. apply be64_inj in E2; [|unfold u64_max; div_lia..]. 
  assert (Z.of_N a = Z.of_N b) by div_lia. lia.
Qed.
Section keyed.
Context `{C : CryptoPrims} `{CL : !CryptoLaws C} `{U : UuidText} `{O : OutboxOps} `{A : AuthOps} `{AL : !AuthLaws A O}.
Definition mac_collision (key : string) : Prop := exists m m', m <> m' /\ hmac key m = hmac key m'.
Lemma b64url_inj a b : b64url_encode a = b64url_encode b -> a = b.
Proof. intros He. pose proof (b64url_roundtrip a) as Ha. rewrite He, b64url_roundtrip in Ha. congruence. Qed.

(** A CSRF token stands for one revision of one session, and the stored hash for one refresh token, unless HMAC
    collides; under one key the two kinds never share a message. *)
Theorem keyed_tokens_separate s i j r q token a b :
  (i < 340282366920938463463374607431768211456)%N -> (j < 340282366920938463463374607431768211456)%N ->
  (r <= i32_max)%Z -> (q <= i32_max)%Z -> (slen a <= u64_max)%Z -> (slen b <= u64_max)%Z ->
  (csrf_token s i r = Ok token -> csrf_token s j q = Ok token -> i = j /\ r = q \/ mac_collision (sv_csrf_key s))
  /\ (hash_refresh_token s a = hash_refresh_token s b -> a = b \/ mac_collision (sv_refresh_token_key s))
  /\ csrf_message i r <> framed REFRESH_TOKEN_DOMAIN +:+ framed a.
Proof.
  intros Hi Hj Hr Hq Ha Hb. split_and!.
  - unfold csrf_token. intros H1 H2. apply result_bind_ok in H1 as ([] & G1 & [= <-]). apply result_bind_ok in H2 as ([] & G2 & [= E]).
    apply reject_if_ok in G1, G2. bool_hyps. apply b64url_inj in E.
    destruct (decide (csrf_message j q = csrf_message i r)) as [Em|]; [left|right; by exists (csrf_message j q), (csrf_message i r)].
    unfold csrf_message in Em. apply framed_inj in Em as [E1 E2]; [|done..]. apply framed_inj in E2 as [E2 _]; [|done..].
    apply uuid_bytes_inj in E1; [|done..]. apply be32_inj in E2; [done|unfold u32_max, i32_max in *; lia..].
  - unfold hash_refresh_token. intros E%b64url_inj.
    destruct (decide (framed REFRESH_TOKEN_DOMAIN +:+ framed a = framed REFRESH_TOKEN_DOMAIN +:+ framed b)) as [Em|]; [left|right; by eexists _, _].
    apply str_app_inv_head in Em. rewrite <- (str_app_nil_r (framed a)), <- (str_app_nil_r (framed b)) in Em. by apply framed_inj in Em as [? _].
  - unfold csrf_message. intros Em. apply framed_inj in Em as [E _]; [|done..]. apply (f_equal String.length) in E.
    unfold uuid_bytes in E. rewrite str_length_app in E. done.
Qed.
Lemma validated_ttl now a b : (0 < a)%Z -> (0 < b)%Z ->
  is_some_and (fun s => validate_auth_duration now s true) (u64_checked_mul a b) = true ->
  u64_checked_mul a b = Some (a * b)%Z /\ (a * b <= i64_max)%Z /\ try_seconds (a * b) = Some (seconds (a * b))
  /\ outbox_add_nanos now (seconds (a * b)) = Some (now + seconds (a * b))%Z /\ (now < now + seconds (a * b))%Z.
Proof.
  intros Ha Hb. unfold u64_checked_mul. destruct (Z.leb_spec (a * b) u64_max); [|done]. cbn. unfold validate_auth_duration.
  destruct (Z.leb_spec (a * b) i64_max); [|done]. unfold try_seconds. destruct (Z.leb_spec (a * b) (i64_max / 1000)); [|done]. cbn.
  destruct (outbox_add_nanos now (seconds (a * b))) as [e|] eqn:E; [|done]. apply add_exact in E as ->. intros _.
  split_and!; try done. unfold seconds, nanos_per_second. nia.
Qed.
(** A configuration that validates gives lifetimes that are representable and positive, for remembered devices and
    for the others: a session created at that time expires later, at exactly the configured distance. *)
Theorem validated_lifetimes_fit environment now config s remember : AuthConfig_validate environment now config = true ->
  sv_config s = config -> (0 <= access_token_ttl_minutes config)%Z -> (0 <= remembered_device_ttl_days config)%Z ->
  exists e, session_expiration s now remember = Ok e /\ (now < e)%Z
    /\ e = (now + seconds (if remember then remembered_device_ttl_days config * DAY_SECONDS else access_token_ttl_minutes config * 60))%Z.
Proof.
  unfold AuthConfig_validate. intros Hv Hs H1 H2. rewrite !andb_true_iff in Hv. destruct Hv as ((((((((_ & N1) & N2) & _) & V1) & V2) & _) & _) & _).
  apply negb_true_iff, Z.eqb_neq in N1, N2. unfold session_expiration. rewrite Hs.
  destruct remember; [apply validated_ttl in V2 as (-> & Hm & E1 & E2 & E3)|apply validated_ttl in V1 as (-> & Hm & E1 & E2 & E3)]; try (unfold DAY_SECONDS; lia);
    run_ok; rewrite (proj2 (Z.ltb_ge _ _)) by done; run_ok; rewrite E1; run_ok; rewrite E2; run_ok; eauto.
Qed.
End keyed.

(** ** Principals, logouts and migrated accounts *)
Section outcomes.
Context `{C : CryptoPrims} `{U : UuidText} `{O : OutboxOps} `{A : AuthOps}.
(** A principal is entitled at the time it is loaded, whatever its token said: the session is the account's and not
    revoked or expired, the membership is active, the profile is the account's own or a managed one of the home,
    and a managed profile is a viewer. *)
Theorem loaded_principal_is_entitled c claims t p t' pub : load_principal c claims t = (Ok p, t', pub) ->
  sp_user_id p = vc_user_id claims /\ sp_account_session_id p = vc_session_id claims /\ (ck_principal c < sp_session_expires_at p)%Z
  /\ exists s pf m, at_sessions t !! vc_session_id claims = Some s /\ acs_user_id s = vc_user_id claims /\ acs_revoked_at s = None
    /\ acs_home_id s = Some (sp_home_id p) /\ acs_active_profile_id s = Some (sp_profile_id p)
    /\ az_members (at_authz t) !! (sp_home_id p, vc_user_id claims) = Some m /\ mb_status m = "active"
    /\ az_profiles (at_authz t) !! sp_profile_id p = Some pf /\ pf_home_id pf = sp_home_id p
    /\ match sp_profile_type p with
       | Account => pf_user_id pf = Some (vc_user_id claims) /\ HomeRole_try_from (mb_role m) = Some (sp_role p)
       | Managed => pf_user_id pf = None /\ sp_role p = Viewer
       end.
Proof.
  unfold load_principal. intros Hr%run_ok_inv. apply result_bind_ok in Hr as (o & Hd & Hr). apply result_bind_ok in Hr as ([p' seen] & Ho & Hr).
  apply ok_or_ok in Ho as ->. injection Hr as -> _ _.
  destruct (principal_row (vc_user_id claims) (vc_session_id claims) t) as [row|] eqn:Er; [|done].
  apply result_bind_ok in Hd as (p2 & Hp & Hd). destruct (Z.leb_spec (sp_session_expires_at p2) (ck_principal c)); [done|]. injection Hd as -> _.
  apply principal_row_some in Er as (s & pf & cs & m & r & [Hs (Hu & Hu' & Hi) Hl Hh (Hpr & Hp' & _ & Hph & Hus & Hty & _) (Hm & Hst & Hro) _ _]).
  apply result_bind_ok in Hp as (ty & Ht & Hp). apply result_bind_ok in Hp as (ro & Hr & [= <-]). apply ok_or_ok in Ht, Hr. cbn in *.
  split_and!; try done. exists s, pf, m. split_and!; try done. rewrite Hro in Hr. rewrite Hty in Ht.
  unfold usable_by, ProfileType_try_from in *. destruct (String.eqb_spec (pf_profile_type pf) "account") as [E|E].
  - injection Ht as <-. rewrite E in Hus. cbn in Hus. rewrite orb_false_r in Hus. bool_hyps. rewrite bool_decide_eq_false_2 by done. done.
  - destruct (String.eqb_spec (pf_profile_type pf) "managed"); [|done]. injection Ht as <-. cbn in Hus. bool_hyps. by rewrite bool_decide_eq_true_2.
Qed.

(** Ending every session of an account ends every one: none of its sessions is live afterwards, nor any of their
    tokens, the sessions of others are as they were, and one event per home is published. *)
Theorem revoke_all_ends_all hash_order c event_id user_id reason t t' pub : auth_wf t ->
  revoke_all_sessions hash_order c event_id user_id reason t = (Ok (), t', pub) ->
  (forall i s', at_sessions t' !! i = Some s' -> acs_user_id s' = user_id -> ended s')
  /\ (forall i k s', at_tokens t' !! i = Some k -> at_sessions t' !! rt_session_id k = Some s' -> acs_user_id s' = user_id -> is_Some (rt_revoked_at k))
  /\ (forall i s, at_sessions t !! i = Some s -> acs_user_id s <> user_id -> at_sessions t' !! i = Some s)
  /\ length pub = length (hash_order (homes_ended user_id t)).
Proof.
  intros W Hr. pose proof (revoke_all_keeps _ _ _ _ _ _ _ _ _ W Hr) as [W' _].
  unfold revoke_all_sessions in Hr. apply run_ok_inv in Hr. apply result_bind_ok in Hr as (r1 & _ & Hr).
  apply result_bind_ok in Hr as ([ev t2] & Hr & [= <- <-]). apply revoke_all_ok in Hr as (r2 & E1 & E2 & E3).
  assert (forall i s', at_sessions t2 !! i = Some s' -> acs_user_id s' = user_id -> ended s') as He.
  { intros i s'. rewrite E1. cbn. rewrite map_lookup_imap. intros (s & Hs & [= <-])%bind_Some. unfold ended.
    destruct (ended_by user_id s) eqn:E; [by eexists|]. intros Hu. unfold ended_by in E. rewrite Hu, N.eqb_refl in E. cbn in E.
    destruct (acs_revoked_at s); [by eexists|done]. }
  split_and!; [done| | |done].
  - intros i k s' Hk Hs Hu. eapply (aw_ended _ W'); [done|done|]. by eapply He.
  - intros i s Hs Hu. rewrite E1. cbn. rewrite map_lookup_imap, Hs. cbn. unfold ended_by. by rewrite (proj2 (N.eqb_neq _ _) Hu).
Qed.

(** An account that migration 0053 gave a home cannot log in: every attempt whose metadata is accepted fails with a
    storage error of the bootstrap and leaves the tables as they were. *)
Theorem migrated_account_cannot_log_in uuid_v5 s c d user_id context ctx t : normalize_context context = Ok ctx ->
  migrated_account uuid_v5 user_id (at_home t) ->
  issue_login_tokens uuid_v5 s c d user_id context t = (Err (Bootstrap BootstrapStorage), t, []).
Proof.
  intros Hctx Hm. unfold issue_login_tokens, run, issue_login_tokens_in_transaction. rewrite Hctx. run_ok.
  by rewrite (migrated_account_has_no_bootstrap _ _ _ _ Hm).
Qed.
End outcomes.
