(* ===== verification/AuthWitness.v ===== *)
(** * Concrete accounts: a login, refreshes, a reuse, a logout, a migrated account *)
From S2P Require Import Prelude Bytes LiveContract Crypto SessionDemo CatalogGrants CanonicalJson SessionStore RevocationOutbox AdminAudit Authz.
From S2P Require Import HomeProfiles AuthSessions AuthSessionFacts AuthSafety.

Module AuthDemo.
(** a stand-in for hashes and version 5 uuids *)
Definition digest (text : string) : N :=
  foldl (fun acc b => ((acc * 257 + byte_of b) mod 2305843009213693952)%N) 7%N (String.list_ascii_of_string text).
Definition mac (key message : string) : string :=
  let d := be64 (Z.of_N (digest (key +:+ message))) in d +:+ d +:+ d +:+ d.
#[export] Instance prims : CryptoPrims := {|
  aead_seal := Demo.seal; aead_open := Demo.open_; hkdf _ _ _ := Some Demo.block; hmac := mac;
  b64url_encode := Demo.encode; b64url_decode := Demo.decode; b64_decode _ := None |}.
#[export] Instance laws : CryptoLaws prims.
Proof.
  split; cbn; [exact (@seal_open _ Demo.laws)|exact (@open_seal _ Demo.laws)|exact (@seal_defined _ Demo.laws)|exact (@seal_length _ Demo.laws)
    |by eexists|done|apply Demo.decode_encode|apply Demo.encode_alphabet|apply Demo.encode_length].
Qed.
#[export] Instance uuid_text : UuidText := {|
  uuid_to_string u := String "u" (World.bits (encode u));
  uuid_parse_str s := match s with String "u" r => decode (World.unbits r) | _ => None end |}.
#[export] Instance uuid_laws : UuidTextLaws uuid_text.
Proof. split. intros u. cbn. by rewrite World.unbits_bits, decode_encode. Qed.
#[export] Instance outbox_ops : OutboxOps := {|
  payload_bytes v := Some 2%Z; outbox_add_days t d := Some (t + seconds (86400 * d))%Z;
  outbox_add_nanos t d := if (timestamp (t + d) <=? i64_max)%Z then Some (t + d)%Z else None |}.
Definition claims_tuple (c : AccessClaims) := (ac_sub c, ac_sid c, ac_hid c, ac_pid c, ac_role c, ac_exp c, ac_iat c).
Definition tuple_claims (t : string * string * option string * option string * option string * Z * Z) : AccessClaims :=
  let '(sub, sid, hid, pid, role, exp, iat) := t in
  {| ac_sub := sub; ac_sid := sid; ac_hid := hid; ac_pid := pid; ac_role := role; ac_exp := exp; ac_iat := iat |}.
#[export] Instance auth_ops : AuthOps := {|
  sha256 s := s;
  jwt_encode key c := Some (World.bits (encode (claims_tuple c)));
  jwt_decode key now token :=
    match tuple_claims <$> decode (World.unbits token) with
    | Some c => if (timestamp now <=? ac_exp c + JWT_LEEWAY)%Z then Some c else None
    | None => None
    end;
  from_timestamp s := Some (seconds s) |}.
#[export] Instance auth_laws : AuthLaws auth_ops outbox_ops.
Proof.
  split; cbn [jwt_encode jwt_decode outbox_add_nanos from_timestamp auth_ops outbox_ops].
  - eauto.
  - intros key c token now [= <-] Hn. rewrite World.unbits_bits, decode_encode. cbn [fmap option_fmap option_map]. 
    replace (tuple_claims (claims_tuple c)) with c by (by destruct c). by rewrite (proj2 (Z.leb_le _ _)).
  - intros key c token now. destruct (tuple_claims <$> _) as [x|]; [|done]. destruct (Z.leb_spec (timestamp now) (ac_exp x + JWT_LEEWAY)); [|done]. by intros [= <-].
  - intros t d r. case_match; [by intros [= <-]|done].
  - intros t d r. destruct (Z.leb_spec (timestamp (t + d)) i64_max); [by intros [= <-]|done].
  - done.
Qed.

Definition uuid_v5 (name : string) : uuid := digest name.
Definition config : AuthConfig := {|
  access_token_secret := "0123456789abcdef0123456789abcdef"; access_token_ttl_minutes := 15; remembered_device_ttl_days := 30;
  refresh_token_secret := None; csrf_secret := None; refresh_token_rotation := true; require_recent_auth_seconds := 300 |}.
Definition service : AuthService := {|
  sv_access_key := "access"; sv_refresh_token_key := "refresh"; sv_csrf_key := "csrf"; sv_config := config |}.
Definition clock (n : Z) : Clock :=
  {| ck_now := seconds n; ck_principal := seconds n; ck_sign := seconds n; ck_event := seconds n; ck_sql := seconds n |}.
Definition outbox : Outbox := {| ob_events := ∅; ob_consumers := ∅; ob_receipts := ∅; ob_registry := 1 |}.
Definition no_rows : AuthzTables :=
  {| az_profiles := ∅; az_members := ∅; az_revisions := ∅; az_overrides := ∅; az_outbox := outbox |}.
Definition ada : uuid := 1%N.
Definition grace : uuid := 2%N.
Definition homes : HomeTables := {|
  ht_users := <[ada := "ada@example.com"]> {[grace := "grace@example.com"]}; ht_homes := ∅; ht_member_ids := ∅; ht_profiles := ∅;
  ht_servers := ∅; ht_authz := no_rows |}.
Definition tables : AuthTables := {| at_home := homes; at_sessions := ∅; at_tokens := ∅ |}.
(** the account [grace] as migration 0053 leaves it *)
Definition migrated : AuthTables := {| at_home := {|
    ht_users := ht_users homes; ht_homes := {[grace := {| ho_owner_user_id := grace; ho_name := "grace@example.com's Home"; ho_created_at := 0 |}]};
    ht_member_ids := {[(grace, grace) := grace]};
    ht_profiles := {[grace := {| px_display_name := "grace"; px_pin_hash := None; px_is_default := true |}]}; ht_servers := ∅;
    ht_authz := {| az_profiles := {[grace := account_row grace grace]}; az_members := {[(grace, grace) := {| mb_role := "owner"; mb_status := "active" |}]};
                   az_revisions := {[grace := {| rv_home_id := grace; rv_revision := 1 |}]}; az_overrides := ∅; az_outbox := outbox |} |};
  at_sessions := ∅; at_tokens := ∅ |}.
Definition draws (n : N) (random : string) : Draws :=
  {| dr_session_id := n; dr_token_id := n + 1; dr_token_family := n + 2; dr_random := random; dr_event_id := n + 3 |}%N.
Definition random_a : string := "aaaaaaaaaaaaaaaaaaaaaaaaaaaaaaaa".
Definition random_b : string := "bbbbbbbbbbbbbbbbbbbbbbbbbbbbbbbb".
Definition login : outcome LoginTokens := issue_login_tokens uuid_v5 service (clock 100) (draws 10 random_a) ada LoginContext_default tables.
Definition logged : AuthTables := login.1.2.
Definition token_a : string := generate_refresh_token random_a.
Definition context : LoginContext :=
  {| lc_device_name := Some " Desktop "; lc_device_type := None; lc_client_name := None; lc_client_version := None; lc_user_agent := None;
     lc_ip_hash := None; lc_remember_device := false |}.
Definition refresh_a : outcome LoginTokens := refresh_session service (clock 200) (draws 20 random_b) token_a context logged.
End AuthDemo.
Import AuthDemo.

Lemma tables_wf : auth_wf tables.
Proof. split; cbn; intros *; rewrite lookup_empty; done. Qed.
Lemma new_ada : new_account uuid_v5 ada "ada@example.com" homes.
Proof.
  split; [reflexivity| |intros *; cbn; by rewrite lookup_empty|reflexivity|intros *; cbn; by rewrite lookup_empty|reflexivity].
  split_and!; cbn; intros *; by rewrite lookup_empty.
Qed.
Lemma working_at n : (0 <= n <= 1000)%Z -> working service (clock n).
Proof.
  intros Hn. assert (forall d, (0 <= d <= 2592000)%Z -> outbox_add_nanos (seconds n) (seconds d) = Some (seconds (n + d))) as Ha.
  { intros d Hd. cbn. unfold timestamp, seconds, nanos_per_second. replace (n * 1000000000 + d * 1000000000)%Z with ((n + d) * 1000000000)%Z by lia.
    rewrite Z.div_mul by done. unfold i64_max. by rewrite (proj2 (Z.leb_le _ _)) by lia. }
  split; [vm_compute; done| |by exists (seconds (n + 900)); exact (Ha 900%Z ltac:(lia))|split; [unfold clock, seconds, nanos_per_second; cbn; lia|by eexists]].
  intros [|]; [exists (seconds (n + 2592000))|exists (seconds (n + 900))];
    (split; [|unfold clock, seconds, nanos_per_second; cbn; lia]).
  - change (ok_or (outbox_add_nanos (seconds n) (seconds 2592000)) (InvalidState "session expiration") = Ok (seconds (n + 2592000))). by rewrite Ha.
  - change (ok_or (outbox_add_nanos (seconds n) (seconds 900)) (InvalidState "session expiration") = Ok (seconds (n + 900))). by rewrite Ha.
Qed.
Lemma fresh_first : fresh_draws service (draws 10 random_a) tables.
Proof. split; [done|done|intros *; cbn; by rewrite lookup_empty|done]. Qed.
Lemma logged_keeps : keeps tables logged.
Proof.
  apply (login_keeps uuid_v5 service (clock 100) (draws 10 random_a) ada LoginContext_default tables login.1.1 logged login.2 tables_wf).
  - intros i k. cbn. by rewrite lookup_empty.
  - vm_compute. reflexivity.
Qed.
Lemma fresh_second : fresh_draws service (draws 20 random_b) logged.
Proof.
  split; [vm_compute; reflexivity|vm_compute; reflexivity| |vm_compute; reflexivity]. intros i l Hl.
  destruct (at_tokens logged !! 11%N) as [k|] eqn:Hk; [|vm_compute in Hk; discriminate].
  assert (i = 11%N) as ->.
  { assert (forall j, j ∈ (map_to_list (at_tokens logged)).*1 -> j = 11%N) as Hd
      by (intros j Hj; vm_compute in Hj; apply list_elem_of_singleton in Hj; exact Hj).
    apply Hd, list_elem_of_fmap. exists (i, l). split; [done|]. by apply elem_of_map_to_list. }
  assert (l = k) as -> by congruence. vm_compute in Hk. injection Hk as <-. vm_compute. discriminate.
Qed.
Definition session_revoked (i : uuid) (t : AuthTables) : bool :=
  match at_sessions t !! i with Some s => is_some_b (acs_revoked_at s) | None => false end.

Lemma new_account_logs_in_witness : exists tokens t', login = (Ok tokens, t', []) /\ (exists claims,
  verify_access_claims service (seconds 120) (lt_access_token tokens) = Some claims
  /\ exists p t2, load_principal (clock 130) claims t' = (Ok p, t2, []) /\ sp_role p = Owner /\ sp_user_id p = ada)
  /\ exists next t3, refresh_session service (clock 200) (draws 20 random_b) (lt_refresh_token tokens) context t' = (Ok next, t3, [])
    /\ lt_session_id next = lt_session_id tokens.
Proof.
  destruct (new_account_logs_in uuid_v5 service (clock 100) (draws 10 random_a) ada "ada@example.com" LoginContext_default LoginContext_default tables
    tables_wf new_ada eq_refl (working_at 100 ltac:(lia)) fresh_first) as (tokens & t' & Hl & _ & _ & _ & Hv & Hnext).
  exists tokens, t'. split; [exact Hl|].
  assert (t' = logged) as ->.
  { unfold logged. change (issue_login_tokens uuid_v5 service (clock 100) (draws 10 random_a) ada LoginContext_default tables) with login in Hl. by rewrite Hl. }
  assert (timestamp (lt_access_expires_at tokens) = 1000%Z /\ lt_refresh_expires_at tokens = seconds 2592100) as [Ea Er].
  { change (issue_login_tokens uuid_v5 service (clock 100) (draws 10 random_a) ada LoginContext_default tables) with login in Hl.
    vm_compute in Hl. injection Hl as <-. vm_compute. done. }
  split.
  - destruct (Hv (seconds 120)) as (claims & Hc & Hp); [rewrite Ea; vm_compute; discriminate|]. exists claims. split; [exact Hc|].
    destruct (Hp (clock 130)) as (p & t2 & Hq & Hu & _ & _ & _ & Hr & _); [rewrite Er; vm_compute; reflexivity|]. exists p, t2. split; [exact Hq|split; [exact Hr|exact Hu]].
  - assert (ck_now (clock 200) < lt_refresh_expires_at tokens)%Z as Hnow by (rewrite Er; vm_compute; reflexivity).
    assert (forall i k, at_tokens tables !! i = Some k -> rt_token_family k <> dr_token_family (draws 10 random_a)) as Hf by (intros i k; cbn; by rewrite lookup_empty).
    destruct (Hnext Hf (clock 200) (draws 20 random_b) context _ Hnow eq_refl (working_at 200 ltac:(lia)) fresh_second) as (next & t3 & Hn & Hi & _).
    exists next, t3. split; [exact Hn|exact Hi].
Defined.
Definition reuse : outcome LoginTokens := refresh_session service (clock 300) (draws 30 random_a) token_a context refresh_a.1.2.
Lemma refresh_token_single_use_witness : exists sess, at_sessions reuse.1.2 !! 10%N = Some sess /\ ended sess.
Proof.
  destruct refresh_a.1.1 as [tokens|e] eqn:Ht; [|vm_compute in Ht; discriminate].
  assert (lt_session_id tokens = 10%N) as Hsid by (vm_compute in Ht; injection Ht as <-; reflexivity).
  destruct (refresh_token_single_use uuid_v5 service (clock 200) (clock 300) (draws 20 random_b) (draws 30 random_a) token_a context context
    logged refresh_a.1.2 refresh_a.1.2 reuse.1.2 tokens reuse.1.1 refresh_a.2 reuse.2 (proj1 logged_keeps)) as [(e & _ & He)|(_ & sess & Hs)].
  - rewrite <- Ht. vm_compute. reflexivity.
  - apply rtc_refl.
  - vm_compute. reflexivity.
  - apply (f_equal (session_revoked 10)) in He. vm_compute in He. discriminate.
  - exists sess. rewrite Hsid in Hs. exact Hs.
Defined.
Definition logout : outcome unit := revoke_session (clock 150) 50 10 "logout" logged.
Lemma revoked_session_is_final_witness :
  load_principal (clock 160) {| vc_user_id := ada; vc_session_id := 10; vc_home_id_hint := None; vc_profile_id_hint := None; vc_role_hint := Some Owner;
                                vc_expires_at := seconds 1000; vc_issued_at := seconds 100 |} logout.1.2 = (Err InvalidPrincipal, logout.1.2, []).
Proof.
  destruct (at_sessions logout.1.2 !! 10%N) as [sess|] eqn:Hs; [|vm_compute in Hs; discriminate].
  assert (ended sess) as He by (vm_compute in Hs; injection Hs as <-; by eexists).
  assert (auth_wf logout.1.2) as W by (eapply (revoke_keeps (clock 150) 50 10 "logout" logged logout.1.1); [apply logged_keeps|vm_compute; reflexivity]).
  destruct (revoked_session_is_final uuid_v5 logout.1.2 logout.1.2 10 sess W Hs He (rtc_refl _ _)) as (_ & Hp & _). by apply Hp.
Defined.
Lemma auth_tables_stay_valid_witness : auth_wf reuse.1.2.
Proof.
  apply (auth_tables_stay_valid uuid_v5 tables); [exact tables_wf|].
  eapply rtc_l; [|eapply rtc_l; [|eapply rtc_once]].
  - eapply (step_login uuid_v5 tables service (clock 100) (draws 10 random_a) ada LoginContext_default login.1.1 logged login.2).
    + intros i k. cbn. by rewrite lookup_empty.
    + vm_compute. reflexivity.
  - eapply (step_refresh uuid_v5 logged service (clock 200) (draws 20 random_b) token_a context refresh_a.1.1 refresh_a.1.2 refresh_a.2).
    vm_compute. reflexivity.
  - eapply (step_refresh uuid_v5 refresh_a.1.2 service (clock 300) (draws 30 random_a) token_a context reuse.1.1 reuse.1.2 reuse.2).
    vm_compute. reflexivity.
Defined.
Lemma migrated_account_cannot_log_in_witness :
  issue_login_tokens uuid_v5 service (clock 100) (draws 10 random_a) grace LoginContext_default migrated = (Err (Bootstrap BootstrapStorage), migrated, []).
Proof.
  apply (migrated_account_cannot_log_in uuid_v5 service (clock 100) (draws 10 random_a) grace LoginContext_default LoginContext_default migrated eq_refl).
  split; [eexists; vm_compute; reflexivity|eexists; split; [vm_compute; reflexivity|reflexivity]| |vm_compute; reflexivity|split; vm_compute; reflexivity].
  intros h row Hr _. change (({[grace := {| ho_owner_user_id := grace; ho_name := "grace@example.com's Home"; ho_created_at := 0 |}]} : gmap uuid HomeRow) !! h = Some row) in Hr.
  apply lookup_singleton_Some in Hr as [Hr _]. by symmetry.
Defined.
Lemma loaded_principal_is_entitled_witness : exists p, (load_principal (clock 130) {| vc_user_id := ada; vc_session_id := 10; vc_home_id_hint := None;
    vc_profile_id_hint := None; vc_role_hint := None; vc_expires_at := seconds 1000; vc_issued_at := seconds 100 |} logged).1.1 = Ok p
  /\ (ck_principal (clock 130) < sp_session_expires_at p)%Z.
Proof.
  set (claims := {| vc_user_id := ada |}).
  destruct (load_principal (clock 130) claims logged) as [[[p|e] t'] pub] eqn:Hl; [|vm_compute in Hl; discriminate].
  exists p. split; [reflexivity|]. by destruct (loaded_principal_is_entitled (clock 130) claims logged p t' pub Hl) as (_ & _ & ? & _).
Defined.
Definition logout_all : outcome unit := revoke_all_sessions elements (clock 150) (fun n => 60 + N.of_nat n)%N ada "account_disabled" refresh_a.1.2.
Lemma refreshed_wf : auth_wf refresh_a.1.2.
Proof.
  eapply (refreshed_keeps service (clock 200) (draws 20 random_b) token_a logged refresh_a.1.1); [apply logged_keeps|].
  eapply (refresh_refreshed _ _ _ _ context _ _ _ refresh_a.2); [apply logged_keeps|vm_compute; reflexivity].
Qed.
Lemma revoke_all_ends_all_witness : exists sess, at_sessions logout_all.1.2 !! 10%N = Some sess /\ ended sess.
Proof.
  destruct (revoke_all_ends_all elements (clock 150) (fun n => 60 + N.of_nat n)%N ada "account_disabled" refresh_a.1.2 logout_all.1.2 logout_all.2 refreshed_wf)
    as (He & _); [vm_compute; reflexivity|].
  destruct (at_sessions logout_all.1.2 !! 10%N) as [sess|] eqn:Hs; [|vm_compute in Hs; discriminate]. exists sess. split; [done|].
  apply (He _ _ Hs). vm_compute in Hs. injection Hs as <-. reflexivity.
Defined.
Lemma validated_lifetimes_fit_witness : exists e, session_expiration service (seconds 100) true = Ok e /\ (seconds 100 < e)%Z.
Proof.
  destruct (validated_lifetimes_fit Development (seconds 100) config service true) as (e & He & Hl & _);
    [vm_compute; reflexivity|reflexivity|vm_compute; discriminate|vm_compute; discriminate|]. by exists e.
Defined.
Definition home_before : result BootstrapError (OwnerHomeBootstrap * HomeTables) := ensure_owner_home uuid_v5 ada (seconds 100) homes.
Lemma bootstrap_is_idempotent_witness : match home_before with
  | Ok (b, t) => ensure_owner_home uuid_v5 ada (seconds 900) t = Ok (b, t)
  | Err _ => False
  end.
Proof.
  destruct home_before as [[b t]|e] eqn:Hb; [|vm_compute in Hb; discriminate].
  exact (bootstrap_is_idempotent uuid_v5 ada (seconds 100) (seconds 900) homes b t Hb).
Defined.
Lemma usable_session_refreshes_witness : exists tokens t', refresh_a = (Ok tokens, t', []) /\ lt_session_id tokens = 10%N /\ lt_role tokens = Owner.
Proof.
  destruct (at_tokens logged !! 11%N) as [k|] eqn:Hk; [|vm_compute in Hk; discriminate].
  destruct (at_sessions logged !! 10%N) as [sess|] eqn:Hs; [|vm_compute in Hs; discriminate].
  destruct (principal_row ada 10 logged) as [row|] eqn:Hr; [|vm_compute in Hr; discriminate].
  destruct (principal_try_from row) as [p|e] eqn:Hp; [|vm_compute in Hr; injection Hr as <-; vm_compute in Hp; discriminate].
  assert (usable service token_a (ck_now (clock 200)) logged 10 11 k sess row p) as Hu.
  { pose proof Hk as Hk'. vm_compute in Hk'. injection Hk' as <-. pose proof Hs as Hs'. vm_compute in Hs'. injection Hs' as <-.
    split; [vm_compute; reflexivity|exact Hk|vm_compute; reflexivity|split; reflexivity|split; [reflexivity|exact Hs]|reflexivity
           |split; vm_compute; reflexivity|vm_compute; reflexivity|exact Hr|exact Hp]. }
  assert (sp_role p = Owner) as Hro by (vm_compute in Hr; injection Hr as <-; vm_compute in Hp; injection Hp as <-; reflexivity).
  destruct (usable_session_refreshes service (clock 200) (draws 20 random_b) token_a context
    {| lc_device_name := Some "Desktop"; lc_device_type := None; lc_client_name := None; lc_client_version := None; lc_user_agent := None;
       lc_ip_hash := None; lc_remember_device := false |} logged 10 11 k sess row p (proj1 logged_keeps) Hu eq_refl (working_at 200 ltac:(lia)) fresh_second)
    as (tokens & t' & Hrf & Hi & _ & _ & Hrole & _).
  exists tokens, t'. split; [exact Hrf|split; [exact Hi|by rewrite Hrole]].
Defined.
