(* ===== verification/HttpAccess.v ===== *)
(** * Requests: who sends them and whether they may change anything (src/src/http/auth.rs,
    src/src/http/handlers/live/catalog.rs, src/src/http/handlers/live/sessions.rs)

    A request names its account session by a token in one of three places; the principal is loaded with the
    capabilities of its current authorization revision.  A mutation that came with a cookie needs the origin of
    the server and the CSRF token of the session.  Each user has bounded windows of requests.  Headers are a
    multimap with lower-case names; the [http] and [url] crates decide which values are texts and urls. *)
From S2P Require Import Prelude Bytes LiveContract Planner CatalogCircuit CatalogCache CatalogGrants Crypto CanonicalJson SessionStore RevocationOutbox.
From S2P Require Import Authz HomeProfiles AuthSessions UpstreamPolicy CookieJar UpstreamCredentials AdminAudit PublicKeys.

(** ** Rejections: status, code, whether a retry may help *)
Record LiveHttpRejection := {
  rj_status : Z;
  rj_code : string;
  rj_message : string;
  rj_retryable : bool;
  rj_retry_after_seconds : option Z;
  rj_provider_id : option uuid;
}.
Module Rejection.
Definition new (status : Z) (code message : string) (retryable : bool) : LiveHttpRejection :=
  {| rj_status := status; rj_code := code; rj_message := message; rj_retryable := retryable;
     rj_retry_after_seconds := None; rj_provider_id := None |}.
Definition with_provider (r : LiveHttpRejection) (provider_id : uuid) : LiveHttpRejection :=
  {| rj_status := rj_status r; rj_code := rj_code r; rj_message := rj_message r; rj_retryable := rj_retryable r;
     rj_retry_after_seconds := rj_retry_after_seconds r; rj_provider_id := Some provider_id |}.
Definition invalid_request : LiveHttpRejection :=
  new 400 "LIVE_INVALID_REQUEST" "The Live request is invalid." false.
Definition auth_required : LiveHttpRejection :=
  new 401 "LIVE_AUTH_REQUIRED" "Account authentication is required." false.
Definition capability_required : LiveHttpRejection :=
  new 403 "LIVE_CAPABILITY_REQUIRED" "The active profile cannot browse Live providers." false.
Definition provider_forbidden : LiveHttpRejection :=
  new 403 "LIVE_PROVIDER_FORBIDDEN" "The provider is not shared with the active profile." false.
Definition not_found : LiveHttpRejection :=
  new 404 "LIVE_PROVIDER_NOT_FOUND" "The Live resource was not found." false.
Definition unavailable : LiveHttpRejection :=
  new 503 "LIVE_PROVIDER_UNAVAILABLE" "The Live provider service is unavailable." true.
Definition rate_limited (retry_after_seconds : Z) : LiveHttpRejection :=
  let r := new 429 "LIVE_RATE_LIMITED" "The Live request rate limit was reached." true in
  {| rj_status := rj_status r; rj_code := rj_code r; rj_message := rj_message r; rj_retryable := rj_retryable r;
     rj_retry_after_seconds := Some (Z.max retry_after_seconds 1); rj_provider_id := None |}.
Definition csrf_required : LiveHttpRejection :=
  new 403 "LIVE_CSRF_REQUIRED" "Cookie-authenticated Live mutations require origin and CSRF proof." false.
Definition csrf_forbidden : LiveHttpRejection :=
  new 403 "LIVE_CSRF_REQUIRED" "The Live mutation origin or CSRF proof is invalid." false.
End Rejection.

Inductive ApiError := Unauthorized | ApiForbidden | ApiInternal.
Definition from_auth_error (e : ApiError) : LiveHttpRejection :=
  match e with ApiForbidden => Rejection.capability_required | _ => Rejection.auth_required end.

(** ** The principal of a request *)
Inductive AccountAuthTransport := BearerTransport | CookieTransport | QueryTransport.
#[export] Instance AccountAuthTransport_eq_dec : EqDecision AccountAuthTransport.
Proof. solve_decision. Defined.

Record CurrentPrincipal := {
  cp_session : SessionPrincipal;             (* the fields [load_principal] returned *)
  cp_access_expires_at : instant;
  cp_transport : AccountAuthTransport;
  cp_capabilities : CapabilitySet;
}.
Definition has_capability (p : CurrentPrincipal) (c : Capability) : bool :=
  CapabilitySet.contains (cp_capabilities p) c.
Definition require (p : CurrentPrincipal) (c : Capability) : result ApiError unit :=
  if has_capability p c then Ok () else Err ApiForbidden.
Definition home_role_rank (r : HomeRole) : Z :=
  match r with Viewer => 0 | Manager => 1 | Admin => 2 | Owner => 3 end.
Definition require_home_role (p : CurrentPrincipal) (minimum : HomeRole) : result ApiError unit :=
  if (home_role_rank minimum <=? home_role_rank (sp_role (cp_session p)))%Z then Ok () else Err ApiForbidden.

Section transport.
Context `{HeaderOps}.

Definition header_text (headers : HeaderMap) (name : string) : option string :=
  raw ← hm_get headers name;
  if header_to_str_ok raw then Some raw else None.

Definition bearer_from_headers (headers : HeaderMap) : option string :=
  raw ← header_text headers "authorization";
  strip_prefix "Bearer " raw.
Definition token_from_cookies (headers : HeaderMap) : option string :=
  raw ← header_text headers "cookie";
  head (omap (fun cookie =>
    '(key, value) ← split_once "="%char (trim cookie);
    if String.eqb (trim key) "elixir_ui_token" && negb (str_empty (trim value)) then Some (trim value) else None)
    (split_char ";"%char raw)).
Definition token_from_query (query : option string) : option string :=
  q ← query;
  head (omap (fun pair =>
    '(k, v) ← split_once "="%char pair;
    if String.eqb k "token" || String.eqb k "access_token" then Some v else None)
    (split_char "&"%char q)).
Definition extract_token_with_transport (headers : HeaderMap) (query : option string)
    : result ApiError (string * AccountAuthTransport) :=
  match bearer_from_headers headers with
  | Some token => Ok (token, BearerTransport)
  | None =>
      match token_from_cookies headers with
      | Some token => Ok (token, CookieTransport)
      | None =>
          match token_from_query query with
          | Some token => Ok (token, QueryTransport)
          | None => Err Unauthorized
          end
      end
  end.

Definition one_header (headers : HeaderMap) (name : string) : option string :=
  match hm_get_all headers name with
  | [value] => if header_to_str_ok value then Some value else None
  | _ => None
  end.
(** bytes 0x21 to 0x7e *)
Definition visible_byte (c : ascii) : bool := ((33 <=? byte_of c) && (byte_of c <=? 126))%N.
Definition required_visible_header (headers : HeaderMap) (name : string) (min max : Z)
    : result LiveHttpRejection string :=
  value ← ok_or (one_header headers name) Rejection.invalid_request;
  _ ← reject_if ((slen value <? min)%Z || (max <? slen value)%Z || negb (all_bytes visible_byte value))
        Rejection.invalid_request;
  Ok value.
(** [header_value] of catalog.rs: the first value, if any, must be text *)
Definition header_value (headers : HeaderMap) (name : string) : result LiveHttpRejection (option string) :=
  match hm_get headers name with
  | None => Ok None
  | Some raw => if header_to_str_ok raw then Ok (Some raw) else Err Rejection.invalid_request
  end.

Record LiveCatalogAccessContext := {
  ax_user_id : uuid; ax_home_id : uuid; ax_profile_id : uuid; ax_role : HomeRole; ax_profile_type : ProfileType;
  ax_authorization_revision : Z; ax_can_browse_live : bool; ax_locale : string; ax_timezone : string; ax_now : instant;
}.
Definition access_context (p : CurrentPrincipal) (headers : HeaderMap) (now : instant)
    : result LiveHttpRejection LiveCatalogAccessContext :=
  language ← header_value headers "accept-language";
  let first := (fun v => trim (default "" (head (split_char ","%char v)))) <$> language in
  let locale := match first with Some l => if str_empty l then "en-US" else l | None => "en-US" end in
  zone ← header_value headers "x-elixir-timezone";
  let timezone := default "UTC" zone in
  _ ← reject_if ((char_count locale <? 2)%Z || (64 <? char_count locale)%Z || any_control locale
                 || (char_count timezone <? 1)%Z || (128 <? char_count timezone)%Z || any_control timezone)
        Rejection.invalid_request;
  let s := cp_session p in
  Ok {| ax_user_id := sp_user_id s; ax_home_id := sp_home_id s; ax_profile_id := sp_profile_id s; ax_role := sp_role s;
        ax_profile_type := sp_profile_type s; ax_authorization_revision := sp_capability_revision s;
        ax_can_browse_live := has_capability p LiveBrowse; ax_locale := locale; ax_timezone := timezone; ax_now := now |}.
End transport.
Definition key_scope (x : LiveCatalogAccessContext) : LivePublicKeyScope :=
  {| sco_home_id := ax_home_id x; sco_profile_id := ax_profile_id x;
     sco_authorization_revision := ax_authorization_revision x |}.

(** ** [CurrentPrincipal::from_request_parts]: up to three attempts, other transactions in between *)
Section principal.
Context `{CryptoPrims} `{UuidText} `{OutboxOps} `{AuthOps} `{HeaderOps}.
(** what other transactions do before the [n]-th statement, and the clocks of the [n]-th attempt *)
Context (others : nat -> AuthTables -> AuthTables) (clock : nat -> Clock).

Definition map_principal_error (e : AuthSessionError) : ApiError :=
  if is_authentication_failure e then Unauthorized else ApiInternal.
Definition principal_of (p : SessionPrincipal) (claims : VerifiedAccessClaims) (transport : AccountAuthTransport)
    (capabilities : CapabilitySet) : CurrentPrincipal :=
  {| cp_session := p; cp_access_expires_at := vc_expires_at claims; cp_transport := transport;
     cp_capabilities := capabilities |}.
Fixpoint load_current (attempts n : nat) (claims : VerifiedAccessClaims) (transport : AccountAuthTransport)
    (t : AuthTables) : result ApiError CurrentPrincipal * AuthTables :=
  match attempts with
  | 0 => (Err ApiInternal, t)
  | S attempts =>
      let '(loaded, t1, _) := load_principal (clock n) claims (others (2 * n) t) in
      match loaded with
      | Err e => (Err (map_principal_error e), t1)
      | Ok p =>
          let t2 := others (2 * n + 1) t1 in
          match load_effective (sp_profile_id p) (sp_role p) (sp_profile_type p) (at_authz t2) with
          | Err _ => (Err ApiInternal, t2)
          | Ok effective =>
              if negb (ea_revision effective =? sp_capability_revision p)%Z
              then load_current attempts (S n) claims transport t2
              else (Ok (principal_of p claims transport (ea_capabilities effective)), t2)
          end
      end
  end.
Definition current_principal (s : AuthService) (now : instant) (headers : HeaderMap) (query : option string)
    (t : AuthTables) : result ApiError CurrentPrincipal * AuthTables :=
  match extract_token_with_transport headers query with
  | Err e => (Err e, t)
  | Ok (token, transport) =>
      match verify_access_claims s now token with
      | None => (Err Unauthorized, t)
      | Some claims => load_current 3 0 claims transport t
      end
  end.
End principal.

(** ** Cookie-authenticated mutations *)
Definition nth_byte (s : string) (i : nat) : N := match String.get i s with Some c => byte_of c | None => 0 end.
(** the loop over the longer length; a [usize] holds both lengths *)
Definition constant_time_equal (left right : string) : bool :=
  (foldl (fun difference index => N.lor difference (N.lxor (nth_byte left index) (nth_byte right index)))
     (N.lxor (N.of_nat (String.length left)) (N.of_nat (String.length right)))
     (seq 0 (String.length left `max` String.length right)) =? 0)%N.

Record ServerSettings := { se_environment : RunEnvironment; se_host : string; se_port : Z }.

Section mutations.
Context `{CryptoPrims} `{HeaderOps} `{UrlOps} `{PortText}.

Definition normalize_origin (value : string) : option string :=
  url ← Url_parse value;
  if negb (str_empty (u_username url)) || is_some_b (u_password url) || is_some_b (u_query url)
     || is_some_b (u_fragment url) || negb (String.eqb (u_path url) "/")
  then None
  else
    host ← u_host url;
    port ← u_port_or_known_default url;
    Some (u_scheme url +:+ "://" +:+ to_lower (trim_end_char "." host) +:+ ":" +:+ u16_to_string port).
Definition expected_origin (e : ServerSettings) : option string :=
  let scheme := match se_environment e with Development => "http" | Production => "https" end in
  let host := trim (se_host e) in
  if str_empty host || existsb (String.eqb host) ["0.0.0.0"; "::"; "[::]"] then None
  else Some (scheme +:+ "://" +:+ host +:+ ":" +:+ u16_to_string (se_port e)).
Definition validate_mutation_transport (e : ServerSettings) (s : AuthService) (p : CurrentPrincipal)
    (headers : HeaderMap) : result LiveHttpRejection unit :=
  match cp_transport p with
  | BearerTransport => Ok ()
  | QueryTransport => Err Rejection.auth_required
  | CookieTransport =>
      origin ← ok_or (one_header headers "origin") Rejection.csrf_required;
      csrf ← ok_or (one_header headers "x-elixir-csrf") Rejection.csrf_required;
      expected ← ok_or (expected_origin e) Rejection.csrf_forbidden;
      _ ← reject_if (negb (bool_decide (normalize_origin origin = normalize_origin expected))) Rejection.csrf_forbidden;
      token ← csrf_token s (sp_account_session_id (cp_session p)) (sp_csrf_revision (cp_session p))
              or_fail Rejection.csrf_forbidden;
      reject_if (negb (constant_time_equal csrf token)) Rejection.csrf_forbidden
  end.
End mutations.

(** ** Facts *)
Lemma foldl_lor_zero (f : nat -> N) l n :
  foldl (fun d i => N.lor d (f i)) n l = 0%N <-> n = 0%N /\ Forall (fun i => f i = 0%N) l.
Proof.
  revert n. induction l as [|i l IH]; intros n; cbn; [rewrite Forall_nil; tauto|].
  rewrite IH, N.lor_eq_0_iff, Forall_cons. tauto.
Qed.
Lemma nth_byte_ext a b : String.length a = String.length b ->
  (forall i, i < String.length a -> nth_byte a i = nth_byte b i) -> a = b.
Proof.
  revert b. induction a as [|x a IH]; intros [|y b]; try done. cbn. intros [= Hl] Hn.
  pose proof (Hn 0 ltac:(lia)) as Hx. cbn in Hx. apply byte_of_inj in Hx as ->. f_equal.
  apply IH; [done|]. intros i Hi. apply (Hn (S i)). lia.
Qed.
Lemma constant_time_equal_spec l r : constant_time_equal l r = true <-> l = r.
Proof.
  unfold constant_time_equal. rewrite N.eqb_eq, (foldl_lor_zero (fun i => N.lxor (nth_byte l i) (nth_byte r i))).
  split.
  - intros [Hl Hf]. apply N.lxor_eq in Hl. apply Nat2N.inj in Hl. apply nth_byte_ext; [done|]. intros i Hi.
    apply N.lxor_eq. rewrite Forall_forall in Hf. apply Hf, elem_of_seq. lia.
  - intros <-. rewrite N.lxor_nilpotent. split; [done|]. apply Forall_true. intros i. apply N.lxor_nilpotent.
Qed.

Lemma one_header_some `{HeaderOps} headers name v :
  one_header headers name = Some v <-> hm_get_all headers name = [v] /\ header_to_str_ok v = true.
Proof.
  unfold one_header. destruct (hm_get_all headers name) as [|x [|y l]]; [naive_solver| |naive_solver].
  destruct (header_to_str_ok x) eqn:E; (split; [by intros [= <-]|]); intros [[= <-] Hv]; congruence.
Qed.

Section properties.
Context `{CryptoPrims} `{UuidText} `{OutboxOps} `{AuthOps} `{HeaderOps} `{UrlOps} `{PortText}.

(** C35: A mutation passes exactly with its proof.  A request with a bearer token needs none; one that was
    authenticated by a cookie passes when it has exactly one [Origin], which normalises like the configured
    origin of the server, and exactly one CSRF header, equal byte for byte to the token of the account session
    at its CSRF revision; a token in the query never passes. *)
Theorem cookie_mutations_need_proof e s p headers :
  validate_mutation_transport e s p headers = Ok () <->
  cp_transport p = BearerTransport \/
  cp_transport p = CookieTransport /\
  exists origin expected token,
    hm_get_all headers "origin" = [origin] /\ header_to_str_ok origin = true /\
    expected_origin e = Some expected /\ normalize_origin origin = normalize_origin expected /\
    csrf_token s (sp_account_session_id (cp_session p)) (sp_csrf_revision (cp_session p)) = Ok token /\
    hm_get_all headers "x-elixir-csrf" = [token] /\ header_to_str_ok token = true.
Proof.
  unfold validate_mutation_transport. destruct (cp_transport p); [by split; [left|]| |by split; [|intros [|[]]]].
  split.
  - intros Hv. right. split; [done|]. ok_inv.
    repeat match goal with
    | Hm : map_err _ ?m = Ok _ |- _ => destruct m eqn:?; cbn in Hm; ok_inv
    | Hm : one_header _ _ = Some _ |- _ => apply one_header_some in Hm as [? ?]
    end. bool_hyps.
    match goal with Hc : constant_time_equal _ _ = true |- _ => apply constant_time_equal_spec in Hc; subst end.
    eauto 12.
  - intros [|(_ & o & x & t & Ho & Hot & Hx & Hn & Ht & Hh & Htt)]; [done|].
    rewrite (proj2 (one_header_some _ "origin" o)) by done. run_ok.
    rewrite (proj2 (one_header_some _ "x-elixir-csrf" t)) by done. run_ok. rewrite Hx. run_ok.
    rewrite bool_decide_eq_true_2 by done. run_ok. rewrite Ht. run_ok.
    by rewrite (proj2 (constant_time_equal_spec _ _)).
Qed.

(** A configured host that makes no url, such as an IPv6 address without brackets, normalises to nothing, and so
    does every origin that is no url, such as [null]: the two pass for equal. *)
Theorem malformed_origin_matches_malformed_host e s p headers expected token origin :
  cp_transport p = CookieTransport -> expected_origin e = Some expected -> Url_parse expected = None ->
  Url_parse origin = None -> header_to_str_ok origin = true -> header_to_str_ok token = true ->
  csrf_token s (sp_account_session_id (cp_session p)) (sp_csrf_revision (cp_session p)) = Ok token ->
  hm_get_all headers "origin" = [origin] -> hm_get_all headers "x-elixir-csrf" = [token] ->
  validate_mutation_transport e s p headers = Ok ().
Proof.
  intros Hc Hx He Ho Hot Htt Ht Hh Hk. unfold validate_mutation_transport. rewrite Hc.
  rewrite (proj2 (one_header_some _ "origin" origin)) by done. run_ok.
  rewrite (proj2 (one_header_some _ "x-elixir-csrf" token)) by done. run_ok. rewrite Hx. run_ok.
  unfold normalize_origin. rewrite He, Ho. run_ok. rewrite Ht. run_ok.
  by rewrite (proj2 (constant_time_equal_spec _ _)).
Qed.

Lemma load_current_ok others clock attempts n claims transport t p t' :
  load_current others clock attempts n claims transport t = (Ok p, t') ->
  exists k t1 t2 pub, n <= k < n + attempts /\
    load_principal (clock k) claims t1 = (Ok (cp_session p), t2, pub) /\ t' = others (2 * k + 1) t2 /\
    load_effective (sp_profile_id (cp_session p)) (sp_role (cp_session p)) (sp_profile_type (cp_session p)) (at_authz t')
      = Ok {| ea_revision := sp_capability_revision (cp_session p); ea_capabilities := cp_capabilities p |} /\
    cp_transport p = transport /\ cp_access_expires_at p = vc_expires_at claims.
Proof.
  revert n t. induction attempts as [|attempts IH]; intros n t; [done|]. cbn [load_current].
  destruct (load_principal _ _ _) as [[[q|e] t1] pub] eqn:Hl; [|done].
  destruct (load_effective (sp_profile_id q) _ _ _) as [ea|] eqn:He; [|done].
  destruct (Z.eqb_spec (ea_revision ea) (sp_capability_revision q)) as [Hr|Hr]; cbn [negb].
  - intros [= <- <-]. exists n. do 3 eexists. split; [lia|]. split; [exact Hl|]. split; [done|].
    cbn [cp_session principal_of cp_transport cp_access_expires_at cp_capabilities]. destruct ea; cbn in Hr. subst. done.
  - intros (k & u1 & u2 & pb & Hk & Hrest)%IH. exists k, u1, u2, pb. split; [lia|done].
Qed.
End properties.
