(* ===== verification/EgressAssignments.v ===== *)
(** * Who decides how a session leaves the server (src/src/live/egress/repository.rs, policy.rs, service.rs)

    Administrators assign an egress policy to a home, a provider or a profile; each assignment has a revision
    and a write names the revision it saw.  A session gets the strongest of the configured policy, the
    assignments that apply and what the client asked for.  The tables are those of migrations/0056; uuid
    columns and scope keys hold what the code wrote. *)
From stdpp Require Import pretty.
From S2P Require Import Prelude Bytes LiveContract Addresses EgressPolicy CatalogGrants Crypto CanonicalJson SessionStore AdminAudit.

(** ** Scopes, assignments, errors *)
Inductive PolicyScope := ServerDefaultScope | ProfileScope (id : uuid) | ProviderScope (id : uuid).
#[export] Instance PolicyScope_eq_dec : EqDecision PolicyScope.
Proof. solve_decision. Defined.
Definition scope_code (s : PolicyScope) : option (uuid + uuid) :=
  match s with ServerDefaultScope => None | ProfileScope i => Some (inl i) | ProviderScope i => Some (inr i) end.
Definition scope_of_code (c : option (uuid + uuid)) : PolicyScope :=
  match c with None => ServerDefaultScope | Some (inl i) => ProfileScope i | Some (inr i) => ProviderScope i end.
#[export] Instance PolicyScope_countable : Countable PolicyScope.
Proof. apply (inj_countable' scope_code scope_of_code). by intros []. Defined.
Definition scope_type (s : PolicyScope) : string :=
  match s with ServerDefaultScope => "server_default" | ProfileScope _ => "profile" | ProviderScope _ => "provider" end.
Definition scope_key `{UuidText} (s : PolicyScope) : string :=
  match s with ServerDefaultScope => "server" | ProfileScope i | ProviderScope i => uuid_to_string i end.

Record StoredPolicyAssignment := {
  sa_id : uuid;
  sa_home_id : uuid;
  sa_scope : PolicyScope;
  sa_mode : EgressPolicyMode;
  sa_policy_id : option string;
  sa_allow_fallback : bool;
  sa_revision : Z;
}.
Definition scope_source (s : PolicyScope) : EgressPolicySource :=
  match s with
  | ServerDefaultScope => ServerAssignment
  | ProfileScope _ => ProfileAssignment
  | ProviderScope _ => ProviderAssignment
  end.
Definition assignment_candidate (a : StoredPolicyAssignment) : PolicyCandidate :=
  {| mode := sa_mode a; policy_id := sa_policy_id a; allow_fallback := sa_allow_fallback a;
     revision := sa_revision a; source := scope_source (sa_scope a) |}.

Inductive EgressPolicyRepositoryError :=
| EpInvalid | EpRevisionChanged | EpScopeForbidden | EpDatabase | EpAudit (e : LiveAuditError).

(** ** Tables *)
Record AssignmentRow := {
  aw_id : uuid;
  aw_mode : string;
  aw_policy_id : option string;
  aw_allow_fallback : bool;
  aw_revision : Z;
  aw_updated_by_user_id : option uuid;
  aw_created_at : instant;
  aw_updated_at : instant;
}.
Record EgressTables := {
  eg_assignments : gmap (uuid * PolicyScope) AssignmentRow;    (* unique (home, scope type, scope key) *)
  eg_homes : gset uuid;
  eg_users : gset uuid;
  eg_profiles : gmap uuid uuid;                                (* the home of a profile *)
  eg_providers : gset uuid;
  eg_admin_state : gset (uuid * uuid);                         (* live_provider_admin_state: (provider, home) *)
  eg_audit : AuditTables;
}.
Definition set_assignments (f : gmap (uuid * PolicyScope) AssignmentRow -> gmap (uuid * PolicyScope) AssignmentRow)
    (t : EgressTables) : EgressTables :=
  {| eg_assignments := f (eg_assignments t); eg_homes := eg_homes t; eg_users := eg_users t; eg_profiles := eg_profiles t;
     eg_providers := eg_providers t; eg_admin_state := eg_admin_state t; eg_audit := eg_audit t |}.
Definition set_egress_audit (a : AuditTables) (t : EgressTables) : EgressTables :=
  {| eg_assignments := eg_assignments t; eg_homes := eg_homes t; eg_users := eg_users t; eg_profiles := eg_profiles t;
     eg_providers := eg_providers t; eg_admin_state := eg_admin_state t; eg_audit := a |}.

(** the CHECKs and foreign keys of live_egress_policy_assignments *)
Definition assignment_check (t : EgressTables) (key : uuid * PolicyScope) (r : AssignmentRow) : bool :=
  bool_decide (key.1 ∈ eg_homes t)
  && match key.2 with
     | ServerDefaultScope => true
     | ProfileScope i => is_some_b (eg_profiles t !! i)
     | ProviderScope i => bool_decide (i ∈ eg_providers t)
     end
  && is_none_or (fun p => length_between 1 128 (sql_trim p)) (aw_policy_id r)
  && (0 <? aw_revision r)%Z
  && is_none_or (fun u => bool_decide (u ∈ eg_users t)) (aw_updated_by_user_id r)
  && (String.eqb (aw_mode r) "off" && is_none_b (aw_policy_id r) && negb (aw_allow_fallback r)
      || String.eqb (aw_mode r) "prefer_protected" && is_some_b (aw_policy_id r)
      || String.eqb (aw_mode r) "require_protected" && is_some_b (aw_policy_id r) && negb (aw_allow_fallback r)).

(** ** Reading *)
Definition validate_assignment (m : EgressPolicyMode) (policy : option string) (fallback : bool) (expected_revision : Z)
    : result EgressPolicyRepositoryError unit :=
  _ ← reject_if ((expected_revision <? 0)%Z || is_some_and (fun v => negb (valid_policy_id v)) policy) EpInvalid;
  reject_if (negb match m with
                  | Off => is_none_b policy && negb fallback
                  | PreferProtected => is_some_b policy
                  | RequireProtected => is_some_b policy && negb fallback
                  end) EpInvalid.
Definition decode_assignment (key : uuid * PolicyScope) (r : AssignmentRow)
    : result EgressPolicyRepositoryError StoredPolicyAssignment :=
  m ← map_err (fun _ => EpInvalid) (EgressPolicyMode.parse (aw_mode r));
  _ ← validate_assignment m (aw_policy_id r) (aw_allow_fallback r) (aw_revision r);
  Ok {| sa_id := aw_id r; sa_home_id := key.1; sa_scope := key.2; sa_mode := m; sa_policy_id := aw_policy_id r;
        sa_allow_fallback := aw_allow_fallback r; sa_revision := aw_revision r |}.
Fixpoint decode_assignments (rows : list (uuid * PolicyScope * AssignmentRow))
    : result EgressPolicyRepositoryError (list StoredPolicyAssignment) :=
  match rows with
  | [] => Ok []
  | (key, r) :: rest => a ← decode_assignment key r; l ← decode_assignments rest; Ok (a :: l)
  end.
(** the rows of the WHERE, in the order of the query: server, provider, profile *)
Definition applicable_rows (home_id profile_id provider_id : uuid) (t : EgressTables)
    : list (uuid * PolicyScope * AssignmentRow) :=
  omap (fun s => (fun r => (home_id, s, r)) <$> eg_assignments t !! (home_id, s))
    [ServerDefaultScope; ProviderScope provider_id; ProfileScope profile_id].
Definition assignments_for (home_id profile_id provider_id : uuid) (t : EgressTables)
    : result EgressPolicyRepositoryError (list StoredPolicyAssignment) :=
  let rows := applicable_rows home_id profile_id provider_id t in
  _ ← reject_if (3 <? length rows)%nat EpInvalid;
  decode_assignments rows.

(** ** Writing *)
Section writes.
Context `{CryptoPrims} `{JsonText} `{UuidText} `{AuditOps}.

Definition validate_scope_in (home_id : uuid) (s : PolicyScope) (t : EgressTables)
    : result EgressPolicyRepositoryError unit :=
  reject_if (negb match s with
                  | ServerDefaultScope => true
                  | ProfileScope i => bool_decide (eg_profiles t !! i = Some home_id)
                  | ProviderScope i => bool_decide ((i, home_id) ∈ eg_admin_state t)
                  end) EpScopeForbidden.
Definition write_row (key : uuid * PolicyScope) (r : AssignmentRow) (t : EgressTables)
    : result EgressPolicyRepositoryError EgressTables :=
  _ ← reject_if (negb (assignment_check t key r)) EpDatabase;
  Ok (set_assignments <[key := r]> t).
(** [fresh]: the id of a new row *)
Definition mutate_assignment_in (fresh home_id : uuid) (s : PolicyScope) (m : EgressPolicyMode) (policy : option string)
    (fallback : bool) (expected_revision : Z) (actor_user_id : uuid) (now : instant) (t : EgressTables)
    : result EgressPolicyRepositoryError (option StoredPolicyAssignment * StoredPolicyAssignment * EgressTables) :=
  let key := (home_id, s) in
  before ← match eg_assignments t !! key with
           | None => Ok None
           | Some r => Some <$> decode_assignment key r
           end;
  row ← match eg_assignments t !! key with
        | Some r =>
            _ ← reject_if (negb (aw_revision r =? expected_revision)%Z) EpRevisionChanged;
            next ← map_err (fun _ => EpDatabase) (sql_add (aw_revision r) 1);
            Ok {| aw_id := aw_id r; aw_mode := EgressPolicyMode.as_str m; aw_policy_id := policy;
                  aw_allow_fallback := fallback; aw_revision := next; aw_updated_by_user_id := Some actor_user_id;
                  aw_created_at := aw_created_at r; aw_updated_at := now |}
        | None =>
            _ ← reject_if (negb (expected_revision =? 0)%Z) EpRevisionChanged;
            _ ← reject_if (existsb (fun kv : uuid * PolicyScope * AssignmentRow => (aw_id kv.2 =? fresh)%N)
                  (map_to_list (eg_assignments t))) EpDatabase;
            Ok {| aw_id := fresh; aw_mode := EgressPolicyMode.as_str m; aw_policy_id := policy;
                  aw_allow_fallback := fallback; aw_revision := 1; aw_updated_by_user_id := Some actor_user_id;
                  aw_created_at := now; aw_updated_at := now |}
        end;
  t ← write_row key row t;
  stored ← decode_assignment key row;
  Ok (before, stored, t).
Definition assignment_snapshot (a : StoredPolicyAssignment) : json :=
  JObject [("id", JString (uuid_to_string (sa_id a))); ("scopeType", JString (scope_type (sa_scope a)));
           ("scopeKey", JString (scope_key (sa_scope a))); ("mode", JString (EgressPolicyMode.as_str (sa_mode a)));
           ("policyId", match sa_policy_id a with Some p => JString p | None => JNull end);
           ("allowFallback", JBool (sa_allow_fallback a)); ("revision", JNumber (pretty (sa_revision a)))].

(** [upsert]: one transaction *)
Definition upsert_assignment (fresh home_id : uuid) (s : PolicyScope) (m : EgressPolicyMode) (policy : option string)
    (fallback : bool) (expected_revision : Z) (actor_user_id : uuid) (now : instant) (t : EgressTables)
    : result EgressPolicyRepositoryError (StoredPolicyAssignment * EgressTables) :=
  _ ← validate_assignment m policy fallback expected_revision;
  _ ← validate_scope_in home_id s t;
  '(_, stored, t) ← mutate_assignment_in fresh home_id s m policy fallback expected_revision actor_user_id now t;
  Ok (stored, t).
Definition upsert_audited (key : LiveAuditKey) (audit_id fresh home_id : uuid) (s : PolicyScope) (m : EgressPolicyMode)
    (policy : option string) (fallback : bool) (expected_revision : Z) (actor : ActorSnapshot) (now : instant)
    (t : EgressTables) : result EgressPolicyRepositoryError (StoredPolicyAssignment * EgressTables) :=
  _ ← validate_assignment m policy fallback expected_revision;
  _ ← validate_scope_in home_id s t;
  '(before, stored, t) ← mutate_assignment_in fresh home_id s m policy fallback expected_revision
      (as_actor_user_id actor) now t;
  '(_, audit) ← map_err EpAudit (append key audit_id home_id EgressPolicySet "live_egress_policy"
      (scope_type s +:+ ":" +:+ scope_key s) actor (assignment_snapshot <$> before) (Some (assignment_snapshot stored))
      None now (eg_audit t));
  Ok (stored, set_egress_audit audit t).
End writes.

(** ** [LiveEgressService::select_policy] *)
Inductive LiveEgressProfileKind := Warp | Wireguard | Openvpn.
#[export] Instance LiveEgressProfileKind_eq_dec : EqDecision LiveEgressProfileKind.
Proof. solve_decision. Defined.
Record LiveEgressProfileConfig := {
  pc_id : string;
  pc_kind : LiveEgressProfileKind;
  pc_auth_host_path : option string;
  pc_state_volume_name : option string;
  pc_expected_egress_ips : list IpAddr;
  pc_selectable_by_profiles : bool;
}.
Record LiveEgressConfig := {
  ec_default_mode : EgressPolicyMode;
  ec_default_policy_id : option string;
  ec_default_allow_fallback : bool;
  ec_profiles : list LiveEgressProfileConfig;
}.
Record SessionEgressPolicyRequest := {
  er_mode : EgressPolicyMode;
  er_policy_id : option string;
  er_allow_fallback : bool;
}.
Inductive LiveEgressError :=
| InvalidPolicy | EgressProfileUnavailable | CapacityExhausted | StaleFence | EgressDatabase
| PolicyRepository (e : EgressPolicyRepositoryError) | EgressRuntime | WorkerIncompatible | Readiness | Cleanup.

Definition config_candidate (c : LiveEgressConfig) : result LiveEgressError PolicyCandidate :=
  let candidate := {| mode := ec_default_mode c; policy_id := ec_default_policy_id c;
                      allow_fallback := ec_default_allow_fallback c; revision := 1; source := ServerConfig |} in
  _ ← map_err (fun _ => InvalidPolicy) (select_effective_policy [candidate]);
  Ok candidate.
Definition egress_profile (c : LiveEgressConfig) (id : string) : option LiveEgressProfileConfig :=
  List.find (fun p => String.eqb (pc_id p) id) (ec_profiles c).
(** what the request becomes next to what the administrators decided *)
Definition session_candidate (c : LiveEgressConfig) (inherited : EffectiveEgressPolicy) (r : SessionEgressPolicyRequest)
    : PolicyCandidate :=
  let policy := if negb (bool_decide (er_mode r = Off)) && is_none_b (er_policy_id r)
                then match eff_policy_id inherited with Some p => Some p | None => ec_default_policy_id c end
                else er_policy_id r in
  let fallback := bool_decide (er_mode r = PreferProtected)
                  && (bool_decide (eff_mode inherited = PreferProtected) && bool_decide (eff_policy_id inherited = policy)
                      && eff_allow_fallback inherited) in
  {| mode := er_mode r; policy_id := policy; allow_fallback := fallback; revision := eff_revision inherited;
     source := Session |}.
Definition select_policy (c : LiveEgressConfig) (home_id profile_id provider_id : uuid)
    (request : option SessionEgressPolicyRequest) (explicit_policy : bool) (t : EgressTables)
    : result LiveEgressError EffectiveEgressPolicy :=
  base ← config_candidate c;
  assignments ← map_err PolicyRepository (assignments_for home_id profile_id provider_id t);
  let candidates := base :: (assignment_candidate <$> assignments) in
  inherited ← map_err (fun _ => InvalidPolicy) (select_effective_policy candidates);
  let candidates := match request with
                    | Some r => candidates ++ [session_candidate c inherited r]
                    | None => candidates
                    end in
  selected ← map_err (fun _ => InvalidPolicy) (select_effective_policy candidates);
  _ ← map_err (fun _ => InvalidPolicy) (validate_effective_policy selected);
  _ ← match eff_policy_id selected with
      | None => Ok ()
      | Some id =>
          profile ← ok_or (egress_profile c id) EgressProfileUnavailable;
          reject_if (explicit_policy && negb (pc_selectable_by_profiles profile)) EgressProfileUnavailable
      end;
  Ok selected.

(** ** Facts *)
Lemma select_effective_some cs p c : select_effective_policy cs = Ok p -> c ∈ cs ->
  exists w, w ∈ cs /\ p = to_effective w /\ dominates w c /\ validate_candidate w = Ok ().
Proof.
  unfold select_effective_policy. intros H Hc. apply result_bind_ok in H as (r & Hr & H). ok_inv.
  destruct (select_loop_some _ _ _ c Hr (or_intror Hc)) as (w & -> & Hd & [?|Hw]); [done|].
  exists w. split_and!; [done|done|done|]. by eapply select_loop_valid.
Qed.
Lemma dominates_strength w c : dominates w c ->
  (EgressPolicyMode.strength (mode c) <= EgressPolicyMode.strength (mode w))%Z.
Proof. unfold dominates, outranks. intros [H _]%orb_false_iff. by apply Z.ltb_ge in H. Qed.
Lemma validate_fallback c : validate_candidate c = Ok () -> allow_fallback c = true -> mode c = PreferProtected.
Proof.
  unfold validate_candidate. intros Hv Hf. ok_inv. rewrite Hf in Hv. destruct (mode c); [|done|];
    rewrite orb_true_r in Hv; done.
Qed.

(** C28: A client never weakens the protection of its session.  The selected policy is at least as strong as
    the configured one and every assignment that applies; when one of them requires protection it is strict; it
    allows the direct fallback only if an administrator allowed that for the very policy it names; and a policy
    the client chose is one that profiles may select. *)
Theorem client_cannot_weaken_egress c home_id profile_id provider_id request explicit t p :
  select_policy c home_id profile_id provider_id request explicit t = Ok p ->
  exists base assignments, config_candidate c = Ok base /\ assignments_for home_id profile_id provider_id t = Ok assignments /\
    let administered := base :: (assignment_candidate <$> assignments) in
    (forall a, a ∈ administered -> (EgressPolicyMode.strength (mode a) <= EgressPolicyMode.strength (eff_mode p))%Z) /\
    (forall a, a ∈ administered -> mode a = RequireProtected ->
       strict p = true /\ is_Some (eff_policy_id p) /\ eff_allow_fallback p = false) /\
    (eff_allow_fallback p = true -> eff_mode p = PreferProtected /\
       exists a, a ∈ administered /\ mode a = PreferProtected /\ policy_id a = eff_policy_id p /\ allow_fallback a = true) /\
    (forall id, eff_policy_id p = Some id -> exists profile, egress_profile c id = Some profile /\
       (explicit = true -> pc_selectable_by_profiles profile = true)).
Proof.
  unfold select_policy. intros Hs.
  apply result_bind_ok in Hs as (base & Hb & Hs). apply result_bind_ok in Hs as (l & Hl & Hs).
  apply result_bind_ok in Hs as (inh & Hi & Hs). apply result_bind_ok in Hs as (sel & Hsel & Hs).
  apply result_bind_ok in Hs as ([] & _ & Hs). apply result_bind_ok in Hs as ([] & Hp & Hs). injection Hs as ->.
  destruct (assignments_for _ _ _ _) as [l'|] eqn:El; cbn in Hl; [|done]. injection Hl as ->.
  destruct (select_effective_policy (_ :: _)) as [inh'|] eqn:Ei; cbn in Hi; [|done]. injection Hi as ->.
  set (cs := match request with Some r => _ | None => _ end) in Hsel.
  destruct (select_effective_policy cs) as [sel'|] eqn:Es; cbn in Hsel; [|done]. injection Hsel as ->.
  exists base, l. split; [done|]. split; [done|]. cbn zeta.
  set (adm := base :: (assignment_candidate <$> l)) in *.
  assert (forall a, a ∈ adm -> a ∈ cs) as Hin.
  { intros a Ha. subst cs. destruct request; [apply elem_of_app; by left|done]. }
  assert (forall a, a ∈ adm -> exists w, w ∈ cs /\ p = to_effective w /\ dominates w a /\ validate_candidate w = Ok ()) as Hw.
  { intros a Ha. by apply select_effective_some; [|apply Hin]. }
  split_and!.
  - intros a (w & _ & -> & Hd & _)%Hw. by apply dominates_strength.
  - intros a (w & _ & -> & Hd & Hv)%Hw Hm. apply dominates_strength in Hd. rewrite Hm in Hd.
    assert (mode w = RequireProtected) as Hmw by (destruct (mode w); cbn in Hd; done || lia).
    unfold strict. cbn. rewrite Hmw. destruct (validate_require_protected w Hv Hmw). done.
  - intros Hf. destruct (Hw base ltac:(left)) as (w & Hwcs & -> & _ & Hv). cbn in Hf |- *.
    split; [by apply validate_fallback|]. assert (w ∈ adm \/ exists r, request = Some r /\ w = session_candidate c inh r) as Hor.
    { subst cs. destruct request as [r|]; [|by left]. apply elem_of_app in Hwcs as [|Hx%list_elem_of_singleton]; [by left|right; eauto]. }
    destruct Hor as [Ha|(r & -> & ->)].
    + exists w. split_and!; [done|by apply validate_fallback|done|done].
    + cbn in Hf. rewrite !andb_true_iff in Hf. destruct Hf as (_ & (Hm & Hpid) & Hfi).
      apply bool_decide_eq_true in Hm, Hpid.
      destruct (select_effective_some _ _ base Ei ltac:(left)) as (v & Hv' & -> & _ & _). cbn in Hm, Hpid, Hfi.
      exists v. cbn. split_and!; [done|done|exact Hpid|done].
  - intros id Hid. rewrite Hid in Hp. apply result_bind_ok in Hp as (pr & Hpr & Hp). apply ok_or_ok in Hpr.
    apply reject_if_ok in Hp. exists pr. split; [done|]. intros ->. cbn in Hp. by apply negb_false_iff in Hp.
Qed.

Lemma decode_assignments_in rows l key r a :
  decode_assignments rows = Ok l -> (key, r) ∈ rows -> decode_assignment key r = Ok a -> a ∈ l.
Proof.
  revert l. induction rows as [|[k y] rows IH]; intros l Hl Hin Hd; [by apply elem_of_nil in Hin|].
  cbn in Hl. ok_inv. apply elem_of_cons in Hin as [[= <- <-]|Hin]; [|right; by eapply IH].
  assert (x = a) as -> by congruence. left.
Qed.

Section writes_facts.
Context `{CryptoPrims} `{JsonText} `{UuidText} `{AuditOps}.

Lemma decode_written key m policy fallback r :
  aw_mode r = EgressPolicyMode.as_str m -> aw_policy_id r = policy -> aw_allow_fallback r = fallback ->
  forall a, decode_assignment key r = Ok a ->
  a = {| sa_id := aw_id r; sa_home_id := key.1; sa_scope := key.2; sa_mode := m; sa_policy_id := policy;
         sa_allow_fallback := fallback; sa_revision := aw_revision r |}.
Proof.
  intros Hm <- <- a Hd. unfold decode_assignment in Hd. rewrite Hm in Hd.
  replace (EgressPolicyMode.parse (EgressPolicyMode.as_str m)) with (Ok (E:=EgressPolicySelectionError) m) in Hd by (by destruct m).
  cbn in Hd. by ok_inv.
Qed.

Lemma mutate_assignment_ok fresh home_id s m policy fallback n actor now t before a t' :
  mutate_assignment_in fresh home_id s m policy fallback n actor now t = Ok (before, a, t') ->
  exists r, t' = set_assignments <[(home_id, s) := r]> t /\ decode_assignment (home_id, s) r = Ok a /\
    aw_revision r = (n + 1)%Z /\ sa_revision a = (n + 1)%Z /\ sa_home_id a = home_id /\ sa_scope a = s /\
    sa_mode a = m /\ sa_policy_id a = policy /\ sa_allow_fallback a = fallback /\
    match eg_assignments t !! (home_id, s) with
    | Some r0 => aw_revision r0 = n /\ sa_id a = aw_id r0
    | None => n = 0%Z /\ sa_id a = fresh
    end.
Proof.
  unfold mutate_assignment_in. intros Hm. apply result_bind_ok in Hm as (b & Hb & Hm).
  apply result_bind_ok in Hm as (row & Hrow & Hm). apply result_bind_ok in Hm as (t1 & Hw & Hm).
  apply result_bind_ok in Hm as (st & Hst & Hm). injection Hm as _ -> ->.
  unfold write_row in Hw. ok_inv. exists row.
  assert (aw_mode row = EgressPolicyMode.as_str m /\ aw_policy_id row = policy /\ aw_allow_fallback row = fallback /\
    aw_revision row = (n + 1)%Z /\ match eg_assignments t !! (home_id, s) with
    | Some r0 => aw_revision r0 = n /\ aw_id row = aw_id r0 | None => n = 0%Z /\ aw_id row = fresh end) as (E1 & E2 & E3 & E4 & E5).
  { destruct (eg_assignments t !! (home_id, s)) as [r0|]; ok_inv; bool_hyps; cbn; [|by subst].
    match goal with Hq : map_err _ ?q = Ok _ |- _ => destruct q eqn:Eq; cbn in Hq; ok_inv end.
    unfold sql_add, i64_checked_add in Eq. cbn zeta in Eq. case_match; [|done]. injection Eq as <-. by subst. }
  pose proof (decode_written _ m policy fallback row E1 E2 E3 a Hst) as Ha.
  split_and!; try done; try (by rewrite Ha; cbn; congruence).
Qed.

(** No write of an assignment is lost.  A write that succeeds stores the policy at the next revision, for
    its scope only, and reading the assignments of a session in that scope returns it; a second write that saw
    the same revision is refused and changes nothing. *)
Theorem assignment_write_not_lost fresh home_id s m policy fallback n actor now t a t' :
  upsert_assignment fresh home_id s m policy fallback n actor now t = Ok (a, t') ->
  sa_revision a = (n + 1)%Z /\ sa_mode a = m /\ sa_policy_id a = policy /\ sa_allow_fallback a = fallback /\
  (forall key, key <> (home_id, s) -> eg_assignments t' !! key = eg_assignments t !! key) /\
  (forall profile_id provider_id l, assignments_for home_id profile_id provider_id t' = Ok l ->
     s ∈ [ServerDefaultScope; ProviderScope provider_id; ProfileScope profile_id] -> a ∈ l) /\
  (forall fresh' m' policy' fallback' actor' now', validate_assignment m' policy' fallback' n = Ok () ->
     upsert_assignment fresh' home_id s m' policy' fallback' n actor' now' t' = Err EpRevisionChanged).
Proof.
  unfold upsert_assignment at 1. intros Hu. apply result_bind_ok in Hu as ([] & Hv & Hu).
  apply result_bind_ok in Hu as ([] & Hsc & Hu). apply result_bind_ok in Hu as ([[b st] t1] & Hm & Hu).
  injection Hu as -> ->. apply mutate_assignment_ok in Hm as (r & -> & Hd & Hr & Hra & _ & Hs & Em & Ep & Ef & Hold).
  split_and!; try done.
  - intros key Hk. cbn. by rewrite lookup_insert_ne.
  - intros profile_id provider_id l Hl Hin. unfold assignments_for in Hl. ok_inv.
    assert ((home_id, s, r) ∈ applicable_rows home_id profile_id provider_id (set_assignments <[(home_id, s) := r]> t)) as Hrow.
    { apply list_elem_of_omap. exists s. split; [done|]. cbn. by rewrite lookup_insert_eq. }
    by eapply decode_assignments_in.
  - intros fresh' m' policy' fallback' actor' now' Hv'. unfold upsert_assignment. rewrite Hv'. run_ok.
    change (validate_scope_in home_id s (set_assignments <[(home_id, s) := r]> t)) with (validate_scope_in home_id s t).
    rewrite Hsc. run_ok. unfold mutate_assignment_in. cbn [eg_assignments set_assignments]. rewrite lookup_insert_eq.
    rewrite Hd. cbn. rewrite Hr. rewrite (proj2 (Z.eqb_neq _ _)) by lia. done.
Qed.
End writes_facts.
