(* ===== verification/EgressWorkers.v ===== *)
(** * The containers of a protected session (src/src/live/egress/service.rs, control.rs, src/live_egress_common.rs)

    A protected session leaves through two containers, a VPN gateway and a worker in the gateway's network, and
    reads its secrets from private volumes.  All of them carry the labels of the binding they belong to, and
    the server touches nothing that does not.  The container runtime is external: a process sees it through the
    answers to its calls, which may depend on all the calls made before, and the list of those calls is the
    state of the processes here. *)
From stdpp Require Import pretty.
From S2P Require Import Prelude Process Bytes LiveContract Addresses UpstreamPolicy EgressPolicy SessionTypes EgressAssignments.

(** ** Public addresses *)
Definition is_public_v4 (v : Z) : bool :=
  let o := octet v in
  let shared := ((o 0 =? 100) && (Z.land (o 1) 192 =? 64))%Z in
  let protocol_assignments := ((o 0 =? 192) && (o 1 =? 0) && (o 2 =? 0))%Z in
  let deprecated_relay := ((o 0 =? 192) && (o 1 =? 88) && (o 2 =? 99))%Z in
  let benchmarking := ((o 0 =? 198) && ((o 1 =? 18) || (o 1 =? 19)))%Z in
  let private := ((o 0 =? 10) || ((o 0 =? 172) && between 16 (o 1) 31) || ((o 0 =? 192) && (o 1 =? 168)))%Z in
  let link_local := ((o 0 =? 169) && (o 1 =? 254))%Z in
  let documentation := (((o 0 =? 192) && (o 1 =? 0) && (o 2 =? 2)) || ((o 0 =? 198) && (o 1 =? 51) && (o 2 =? 100))
                        || ((o 0 =? 203) && (o 1 =? 0) && (o 2 =? 113)))%Z in
  negb (private || (o 0 =? 127) || link_local || (v =? 4294967295) || documentation || (v =? 0)
        || between 224 (o 0) 239 || (o 0 =? 0) || (224 <=? o 0) || shared || protocol_assignments || deprecated_relay
        || benchmarking)%Z.
(** [Ipv6Addr::to_ipv4_mapped] *)
Definition to_ipv4_mapped (v : Z) : option Z := if (Z.shiftr v 32 =? 65535)%Z then Some (Z.land v 4294967295) else None.
Definition is_public_v6 (v : Z) : bool :=
  match to_ipv4_mapped v with
  | Some mapped => is_public_v4 mapped
  | None =>
      let s := segment v in
      let documentation := ((s 0 =? 8193) && (s 1 =? 3512))%Z in
      let discard_only := ((s 0 =? 256) && forallb (fun i => s i =? 0) [1; 2; 3; 4; 5; 6; 7])%Z in
      let site_local := (Z.land (s 0) 65472 =? 65216)%Z in
      negb ((v =? 1) || (v =? 0) || (Z.land (s 0) 65280 =? 65280) || (Z.land (s 0) 65024 =? 64512)
            || (Z.land (s 0) 65472 =? 65152) || documentation || discard_only || site_local)%Z
  end.
Definition is_public_egress_ip (a : IpAddr) : bool := match a with V4 v => is_public_v4 v | V6 v => is_public_v6 v end.

Record ReadinessControlResponse := {
  rd_route : bool;
  rd_dns : bool;
  rd_external_ip : bool;
  rd_kill_switch : bool;
  rd_health : bool;
  rd_observed_egress_ip : option IpAddr;
}.
Definition readiness_ready (r : ReadinessControlResponse) : bool :=
  rd_route r && rd_dns r && rd_external_ip r && rd_kill_switch r && rd_health r.
Definition readiness_ip_matches (expected : list IpAddr) (observed : option IpAddr) : bool :=
  is_some_and (fun a => is_public_egress_ip a && (bool_decide (expected = []) || bool_decide (a ∈ expected))) observed.

(** ** Names and labels *)
Notation labels := (gmap string string).
Definition ELIXIR_MANAGED_LABEL : string := "elixir.managed".
Definition ROLE_LABEL : string := "elixir.live.egress.role".
Definition SESSION_LABEL : string := "elixir.live.session_id".
Definition BINDING_LABEL : string := "elixir.live.egress.binding_id".
Definition POLICY_LABEL : string := "elixir.live.egress.policy_id".
Definition FENCE_LABEL : string := "elixir.live.control_fencing_token".
Definition WORKER_SECRET_ROOT : string := "/run/elixir-live-egress".
Definition GATEWAY_CONFIG_ROLE : string := "gateway_config".
Definition OPENVPN_USERNAME_ROLE : string := "openvpn_username".
Definition OPENVPN_PASSWORD_ROLE : string := "openvpn_password".
Definition WIREGUARD_CONFIG_ROOT : string := "/gluetun/wireguard".
Definition OPENVPN_CONFIG_ROOT : string := "/gluetun/elixir-openvpn".
Definition OPENVPN_USERNAME_ROOT : string := "/run/elixir-openvpn-username".
Definition OPENVPN_PASSWORD_ROOT : string := "/run/elixir-openvpn-password".
Definition CONTROL_VERSION : string := "elixir-live-egress-v2".
Definition WORKER_CONTROL_VERSION_LABEL : string := "org.elixir.live-egress.control-version".

Definition profile_kind (k : LiveEgressProfileKind) : string :=
  match k with Warp => "warp" | Wireguard => "wireguard" | Openvpn => "openvpn" end.
Definition gateway_role (k : LiveEgressProfileKind) : string :=
  match k with Warp => "warp_gateway" | Wireguard => "wireguard_gateway" | Openvpn => "openvpn_gateway" end.
Definition gateway_role_from_mode (mode : string) : option string :=
  if String.eqb mode "warp" then Some "warp_gateway"
  else if String.eqb mode "wireguard" then Some "wireguard_gateway"
  else if String.eqb mode "openvpn" then Some "openvpn_gateway"
  else None.
Definition is_gateway_role (role : string) : bool :=
  existsb (String.eqb role) ["warp_gateway"; "wireguard_gateway"; "openvpn_gateway"].
Definition private_volume_roles (expected_gateway_role : string) : list string :=
  if String.eqb expected_gateway_role "wireguard_gateway" then ["control_secret"; GATEWAY_CONFIG_ROLE]
  else if String.eqb expected_gateway_role "openvpn_gateway" then
    ["control_secret"; GATEWAY_CONFIG_ROLE; OPENVPN_USERNAME_ROLE; OPENVPN_PASSWORD_ROLE]
  else if String.eqb expected_gateway_role "warp_gateway" then ["control_secret"]
  else [].

(** [Uuid::simple]: the 32 hex digits without hyphens *)
Class UuidSimple := { uuid_simple : uuid -> string }.
Section names.
Context `{UuidText} `{UuidSimple}.
Definition worker_name (session_id : uuid) : string := "elixir-live-egress-" +:+ uuid_simple session_id.
Definition control_volume_name (binding_id : uuid) : string := "elixir_live_egress_secret_" +:+ uuid_simple binding_id.
Definition material_volume_name (binding_id : uuid) (role : string) : string :=
  "elixir_live_egress_" +:+ role +:+ "_" +:+ uuid_simple binding_id.
Definition private_volume_labels (session_id binding_id : uuid) (fence : Z) (policy_id role : string) : labels :=
  <[ELIXIR_MANAGED_LABEL := "true"]> (<[ROLE_LABEL := role]> (<[SESSION_LABEL := uuid_to_string session_id]>
  (<[BINDING_LABEL := uuid_to_string binding_id]> (<[POLICY_LABEL := policy_id]> {[FENCE_LABEL := pretty fence]})))).
End names.

(** ** The runtime *)
Record ContainerHandle := { ch_id : string; ch_name : string }.
Record ContainerState := { st_running : bool; st_health : option string }.
Record ContainerRuntimeMount := {
  mt_type : string;
  mt_name : option string;
  mt_destination : string;
  mt_read_only : bool;
}.
Record ContainerPublishedPort := { pp_container : Z; pp_host : Z; pp_protocol : string; pp_host_ip : option string }.
Record ContainerSecurityOptions := {
  so_user : option string;
  so_memory_limit_mb : option Z;
  so_pids_limit : option Z;
}.
Record ContainerRuntimeSecurityState := {
  ss_user : option string;
  ss_read_only_rootfs : bool;
  ss_no_new_privileges : bool;
  ss_cap_drop : list string;
  ss_memory_limit_bytes : option Z;
  ss_pids_limit : option Z;
}.
Record ContainerRuntimeState := {
  rs_name : string;
  rs_network_mode : option string;
  rs_labels : labels;
  rs_mounts : list ContainerRuntimeMount;
  rs_published_ports : list ContainerPublishedPort;
  rs_security : ContainerRuntimeSecurityState;
}.
(** what the server reads of the specification of a container it makes *)
Record ContainerSpec := { sp_name : string; sp_network : string; sp_security : ContainerSecurityOptions }.

Inductive RuntimeCall :=
| CImageLabels | CEnsureNetwork (name : string) | CEnsureContainer (spec : ContainerSpec) | CStart (h : ContainerHandle)
| CInspect (h : ContainerHandle) | CKillSwitch (h : ContainerHandle) | CDescribe (name : string)
| CReadiness (host_port : Z) | CSleep (nanos : Z) | CGetHandle (name : string) | CStop (h : ContainerHandle)
| CRemove (h : ContainerHandle) | CEnsureDirectoryVolume (name : string) | CCreateVolume (name : string) (l : labels)
| CVolumeOwned (name : string) (required : labels)
| CRemoveVolume (name : string) (required : labels).
(** most recent first *)
Notation calls := (list RuntimeCall).

(** the answers of [Arc<dyn RuntimeManager>] and of the worker, after the calls so far; [None] is an error *)
Class RuntimeManager := {
  rt_image_labels : calls -> option labels;
  rt_succeeds : calls -> RuntimeCall -> bool;      (* a call without a result *)
  rt_ensure_container : calls -> ContainerSpec -> option ContainerHandle;
  rt_inspect : calls -> ContainerHandle -> option ContainerState;
  rt_describe : calls -> string -> option (option ContainerRuntimeState);
  rt_get_handle : calls -> string -> option (option ContainerHandle);
  rt_volume_owned : calls -> string -> labels -> option bool;
  rt_readiness : calls -> Z -> option ReadinessControlResponse;
  rt_now : calls -> Z;                             (* [Instant::now], in nanoseconds *)
}.
(** time does not go back and a sleep lasts at least as long as asked *)
Class RuntimeClock (R : RuntimeManager) : Prop := {
  rt_now_call c h : (rt_now h <= rt_now (c :: h))%Z;
  rt_now_sleep d h : (rt_now h + d <= rt_now (CSleep d :: h))%Z;
}.

(** a container is found under its name *)
Class RuntimeNames (R : RuntimeManager) : Prop := {
  rt_get_handle_name h name c : rt_get_handle h name = Some (Some c) -> ch_name c = name;
}.

Notation docker := (proc calls LiveEgressError).
Section runtime.
Context `{UuidText} `{UuidSimple} `{RuntimeManager}.

Definition ask_runtime {A} (c : RuntimeCall) (answer : calls -> A) : docker A := fun h => (Ok (answer h), c :: h).
(** a call of which only an error matters *)
Definition perform (c : RuntimeCall) (e : LiveEgressError) : docker unit :=
  done_ ← ask_runtime c (fun h => rt_succeeds h c);
  lift (reject_if (negb done_) e).
Definition inspect (h : ContainerHandle) : docker (option ContainerState) := ask_runtime (CInspect h) (fun c => rt_inspect c h).
Definition describe_container_runtime_state (name : string) : docker (option (option ContainerRuntimeState)) :=
  ask_runtime (CDescribe name) (fun c => rt_describe c name).
Definition get_container_handle (name : string) : docker (option (option ContainerHandle)) :=
  ask_runtime (CGetHandle name) (fun c => rt_get_handle c name).
Definition clock : docker Z := view rt_now.
Definition sleep (millis : Z) : docker unit := change (cons (CSleep (millis * 1000000)%Z)).

Definition worker_image_is_compatible (l : labels) : bool :=
  is_some_and (String.eqb CONTROL_VERSION) (l !! WORKER_CONTROL_VERSION_LABEL).
Definition require_compatible_worker_image : docker unit :=
  observed ← ask_runtime CImageLabels rt_image_labels;
  l ← lift (ok_or observed WorkerIncompatible);
  lift (reject_if (negb (worker_image_is_compatible l)) WorkerIncompatible).

(** *** Waiting: [fuel] bounds the number of polls, see [polls_end] *)
Fixpoint poll {A} (fuel : nat) (test : docker (option A)) (deadline pause : Z) (late : LiveEgressError) : docker A :=
  match fuel with
  | O => stop late
  | S fuel =>
      r ← test;
      match r with
      | Some a => mret a
      | None =>
          at_ ← clock;
          if (deadline <=? at_)%Z then stop late
          else _ ← sleep pause; poll fuel test deadline pause late
      end
  end.
Definition polls (timeout pause_millis : Z) : nat := S (Z.to_nat (timeout * 1000 / pause_millis)).
Definition wait {A} (test : docker (option A)) (timeout pause_millis : Z) (late : LiveEgressError) : docker A :=
  start ← clock;
  poll (polls timeout pause_millis) test (start + timeout * nanos_per_second)%Z pause_millis late.

Definition is_running (h : ContainerHandle) : docker (option unit) :=
  s ← inspect h; s ← lift (ok_or s EgressRuntime); mret (if st_running s then Some () else None).
Definition wait_running (h : ContainerHandle) (timeout : Z) : docker unit := wait (is_running h) timeout 100 EgressRuntime.
Definition gateway_tunnel_is_ready (s : ContainerState) : bool := st_running s && bool_decide (st_health s = Some "healthy").
Definition is_healthy (h : ContainerHandle) : docker (option unit) :=
  s ← inspect h; s ← lift (ok_or s EgressRuntime);
  _ ← lift (reject_if (negb (st_running s)) EgressRuntime);
  mret (if gateway_tunnel_is_ready s then Some () else None).
Definition wait_healthy (h : ContainerHandle) (timeout : Z) : docker unit := wait (is_healthy h) timeout 250 Readiness.
Definition install_warp_kill_switch (h : ContainerHandle) : docker unit := perform (CKillSwitch h) EgressRuntime.

(** *** Verifying what was started *)
Definition runtime_owned_by_binding (s : ContainerRuntimeState) (expected_name expected_role : string) (session_id : uuid)
    (binding_id : string) (fence : Z) (policy_id : string) : bool :=
  String.eqb (rs_name s) expected_name
  && bool_decide (rs_labels s !! ELIXIR_MANAGED_LABEL = Some "true")
  && bool_decide (rs_labels s !! ROLE_LABEL = Some expected_role)
  && bool_decide (rs_labels s !! SESSION_LABEL = Some (uuid_to_string session_id))
  && bool_decide (rs_labels s !! BINDING_LABEL = Some binding_id)
  && bool_decide (rs_labels s !! POLICY_LABEL = Some policy_id)
  && bool_decide (rs_labels s !! FENCE_LABEL = Some (pretty fence)).
Definition shares_container_network_namespace (network_mode : option string) (gateway : ContainerHandle) : bool :=
  match network_mode ≫= strip_prefix "container:" with
  | None => false
  | Some target => negb (str_empty target) && (String.eqb target (ch_id gateway) || String.eqb target (ch_name gateway))
  end.
Definition volume_mounted (name destination : string) (s : ContainerRuntimeState) : bool :=
  existsb (fun m => String.eqb (mt_type m) "volume" && bool_decide (mt_name m = Some name)
                    && String.eqb (mt_destination m) destination && mt_read_only m) (rs_mounts s).
Definition gateway_material_mounts_match (p : LiveEgressProfileConfig) (binding_id : string) (gateway : ContainerRuntimeState) : bool :=
  match uuid_parse_str binding_id with
  | None => false
  | Some b =>
      match pc_kind p with
      | Warp => true
      | Wireguard => volume_mounted (material_volume_name b GATEWAY_CONFIG_ROLE) WIREGUARD_CONFIG_ROOT gateway
      | Openvpn =>
          forallb (fun v => volume_mounted (material_volume_name b v.1) v.2 gateway)
            ((GATEWAY_CONFIG_ROLE, OPENVPN_CONFIG_ROOT) ::
             (if is_some_b (pc_auth_host_path p)
              then [(OPENVPN_USERNAME_ROLE, OPENVPN_USERNAME_ROOT); (OPENVPN_PASSWORD_ROLE, OPENVPN_PASSWORD_ROOT)] else []))
      end
  end.
Definition loopback_port (port : Z) (p : ContainerPublishedPort) : bool :=
  (pp_container p =? port)%Z && String.eqb (pp_protocol p) "tcp" && bool_decide (pp_host_ip p = Some "127.0.0.1").
(** [i64::try_from] of a [u64] *)
Definition to_i64 (v : Z) : option Z := if (v <=? i64_max)%Z then Some v else None.
Definition u64_saturating_mul (a b : Z) : Z := Z.min (a * b) u64_max.
Definition verify_runtime_state (session : SessionRecord) (binding_id : uuid) (p : LiveEgressProfileConfig)
    (worker gateway : ContainerRuntimeState) (gateway_handle : ContainerHandle) (expected : ContainerSecurityOptions)
    (control_port : Z) : result LiveEgressError unit :=
  let gateway_name := ch_name gateway_handle in
  let binding := uuid_to_string binding_id in
  let worker_labels_match := runtime_owned_by_binding worker (worker_name (SessionTypes.id session)) "worker"
    (SessionTypes.id session) binding (control_fencing_token session) (pc_id p) in
  let gateway_labels_match := runtime_owned_by_binding gateway gateway_name (gateway_role (pc_kind p))
    (SessionTypes.id session) binding (control_fencing_token session) (pc_id p) in
  let security := rs_security worker in
  let security_match :=
    bool_decide (ss_user security = so_user expected) && ss_read_only_rootfs security && ss_no_new_privileges security
    && existsb (String.eqb "ALL") (ss_cap_drop security)
    && bool_decide (ss_memory_limit_bytes security = (so_memory_limit_mb expected ≫= fun v => to_i64 (u64_saturating_mul v 1048576)))
    && bool_decide (ss_pids_limit security = (so_pids_limit expected ≫= to_i64)) in
  let port_match := existsb (loopback_port control_port) (rs_published_ports gateway) in
  volume_id ← ok_or (uuid_parse_str binding) EgressRuntime;
  let control_volume_match := volume_mounted (control_volume_name volume_id) WORKER_SECRET_ROOT worker in
  reject_if (negb (shares_container_network_namespace (rs_network_mode worker) gateway_handle) || negb worker_labels_match
             || negb gateway_labels_match || negb security_match || negb control_volume_match
             || negb (gateway_material_mounts_match p binding gateway) || negb port_match) EgressRuntime.

Definition worker_ready (p : LiveEgressProfileConfig) (port : Z) : docker (option ReadinessControlResponse) :=
  r ← ask_runtime (CReadiness port) (fun h => rt_readiness h port);
  mret (match r with
        | Some r => if readiness_ready r && readiness_ip_matches (pc_expected_egress_ips p) (rd_observed_egress_ip r)
                    then Some r else None
        | None => None
        end).
(** [startup]: [startup_timeout_seconds]; the last component of the result is the port of the worker's endpoint, which
    stands for the fetcher and the transport made for it *)
Definition start_and_verify (startup control_port : Z) (session : SessionRecord) (binding_id : uuid)
    (p : LiveEgressProfileConfig) (gateway_spec : option ContainerSpec) (worker_spec : ContainerSpec)
    : docker (ContainerHandle * ContainerHandle * Z * ReadinessControlResponse) :=
  gateway_spec ← lift (ok_or gateway_spec InvalidPolicy);
  _ ← perform (CEnsureNetwork (sp_network gateway_spec)) EgressRuntime;
  gateway ← ask_runtime (CEnsureContainer gateway_spec) (fun h => rt_ensure_container h gateway_spec);
  gateway ← lift (ok_or gateway EgressRuntime);
  _ ← perform (CStart gateway) EgressRuntime;
  _ ← wait_running gateway startup;
  _ ← (if bool_decide (pc_kind p = Warp)
       then _ ← wait_healthy gateway startup; install_warp_kill_switch gateway
       else mret ());
  worker ← ask_runtime (CEnsureContainer worker_spec) (fun h => rt_ensure_container h worker_spec);
  worker ← lift (ok_or worker EgressRuntime);
  _ ← perform (CStart worker) EgressRuntime;
  _ ← wait_running worker startup;
  worker_state ← describe_container_runtime_state (ch_name worker);
  worker_state ← lift (ok_or (mjoin worker_state) EgressRuntime);
  gateway_state ← describe_container_runtime_state (ch_name gateway);
  gateway_state ← lift (ok_or (mjoin gateway_state) EgressRuntime);
  _ ← lift (verify_runtime_state session binding_id p worker_state gateway_state gateway (sp_security worker_spec) control_port);
  port ← lift (ok_or (pp_host <$> List.find (loopback_port control_port) (rs_published_ports gateway_state)) EgressRuntime);
  readiness ← wait (worker_ready p port) startup 250 Readiness;
  mret (gateway, worker, port, readiness).

(** ** [cleanup_runtime] *)
(** the private volumes that carry the labels of the binding *)
Fixpoint owned_volumes (session_id binding_id : uuid) (fence : Z) (policy_id : string) (roles : list string)
    : docker (list (string * labels)) :=
  match roles with
  | [] => mret []
  | role :: rest =>
      let name := if String.eqb role "control_secret" then control_volume_name binding_id
                  else material_volume_name binding_id role in
      let required := private_volume_labels session_id binding_id fence policy_id role in
      present ← ask_runtime (CVolumeOwned name required) (fun h => rt_volume_owned h name required);
      present ← lift (ok_or present Cleanup);
      rest ← owned_volumes session_id binding_id fence policy_id rest;
      mret (if present : bool then (name, required) :: rest else rest)
  end.
(** the handle of a container that is there and is the binding's; [Err]: it is not known to be *)
Definition owned_container (session_id : uuid) (binding_id : string) (fence : Z) (policy_id name role : string)
    : docker (result unit (option ContainerHandle)) :=
  handle ← get_container_handle name;
  match handle with
  | None => mret (Err ())
  | Some None => mret (Ok None)
  | Some (Some handle) =>
      state ← describe_container_runtime_state name;
      match state with
      | Some (Some state) =>
          mret (if runtime_owned_by_binding state name role session_id binding_id fence policy_id then Ok (Some handle)
                else Err ())
      | _ => mret (Err ())
      end
  end.
Fixpoint owned_containers (session_id : uuid) (binding_id : string) (fence : Z) (policy_id : string)
    (expected : list (string * string)) : docker (list ContainerHandle * bool) :=
  match expected with
  | [] => mret ([], false)
  | (name, role) :: rest =>
      r ← owned_container session_id binding_id fence policy_id name role;
      '(handles, ownership_failed) ← owned_containers session_id binding_id fence policy_id rest;
      mret match r with
           | Ok (Some handle) => (handle :: handles, ownership_failed)
           | Ok None => (handles, ownership_failed)
           | Err _ => (handles, true)
           end
  end.
(** whether the container is gone: an error of [stop_container] or [remove_container] alone is not a failure *)
Definition remove_one (handle : ContainerHandle) : docker bool :=
  current ← get_container_handle (ch_name handle);
  match current with
  | Some None => mret true
  | Some (Some current) =>
      if String.eqb (ch_id current) (ch_id handle) then
        _ ← ask_runtime (CStop handle) (fun h => rt_succeeds h (CStop handle));
        _ ← ask_runtime (CRemove handle) (fun h => rt_succeeds h (CRemove handle));
        left_ ← get_container_handle (ch_name handle);
        mret (match left_ with Some None => true | _ => false end)
      else mret false
  | None => mret false
  end.
Fixpoint remove_all (handles : list ContainerHandle) : docker bool :=
  match handles with
  | [] => mret true
  | handle :: rest => gone ← remove_one handle; all_gone ← remove_all rest; mret (gone && all_gone)
  end.
Fixpoint remove_volumes (volumes : list (string * labels)) : docker bool :=
  match volumes with
  | [] => mret true
  | (name, required) :: rest =>
      gone ← ask_runtime (CRemoveVolume name required) (fun h => rt_succeeds h (CRemoveVolume name required));
      all_gone ← remove_volumes rest;
      mret (gone && all_gone)
  end.
Definition cleanup_runtime (session_id : uuid) (binding_id : string) (fence : Z) (policy_id worker_name gateway_name
    expected_gateway_role : string) : docker unit :=
  _ ← lift (reject_if (str_empty binding_id || (fence <? 1)%Z || str_empty policy_id
                       || negb (is_gateway_role expected_gateway_role)) Cleanup);
  binding_uuid ← lift (ok_or (uuid_parse_str binding_id) Cleanup);
  volumes ← owned_volumes session_id binding_uuid fence policy_id (private_volume_roles expected_gateway_role);
  '(handles, ownership_failed) ← owned_containers session_id binding_id fence policy_id
      [(worker_name, "worker"); (gateway_name, expected_gateway_role)];
  _ ← lift (reject_if ownership_failed Cleanup);
  containers_gone ← remove_all handles;
  _ ← lift (reject_if (negb containers_gone) Cleanup);
  volumes_gone ← remove_volumes volumes;
  lift (reject_if (negb volumes_gone) Cleanup).
End runtime.

(** ** Facts *)
(** *** Waiting ends *)
Section waiting.
Context `{RC : RuntimeClock}.
Variable A : Type.
Variable test : docker (option A).
Hypothesis test_calls : forall h r h', test h = (r, h') -> (rt_now h <= rt_now h')%Z.

Lemma poll_fuel late pause deadline fuel more h :
  (0 < pause)%Z -> (deadline <= rt_now h + Z.of_nat fuel * (pause * 1000000))%Z ->
  poll (S fuel + more) test deadline pause late h = poll (S fuel) test deadline pause late h.
Proof.
  revert h. induction fuel as [|fuel IH]; intros h Hp Hd.
  - cbn. unfold mbind, proc_bind. destruct (test h) as [[[a|]|e] h1] eqn:Ht; try done. apply test_calls in Ht.
    unfold clock, view. destruct (deadline <=? rt_now h1)%Z eqn:He; [done|]. lia.
  - cbn [Nat.add poll]. unfold mbind, proc_bind. destruct (test h) as [[[a|]|e] h1] eqn:Ht; try done. apply test_calls in Ht.
    unfold clock, view. destruct (deadline <=? rt_now h1)%Z eqn:He; [done|]. unfold sleep, change.
    cbn [Nat.add poll] in IH. apply IH; [done|]. pose proof (rt_now_sleep (pause * 1000000) h1). lia.
Qed.
Lemma wait_fuel timeout pause late more h :
  (0 <= timeout)%Z -> (0 < pause)%Z -> (timeout * 1000 mod pause = 0)%Z ->
  poll (polls timeout pause + more) test (rt_now h + timeout * nanos_per_second)%Z pause late h
  = wait test timeout pause late h.
Proof.
  intros Ht Hp Hm. unfold wait, mbind, proc_bind, clock, view. unfold polls. apply poll_fuel; [done|].
  rewrite Z2Nat.id by (apply Z.div_pos; lia). pose proof (Z.div_mod (timeout * 1000) pause ltac:(lia)).
  unfold nanos_per_second. nia.
Qed.
End waiting.

(** *** Observations *)
Lemma suffix_cons_or (c d : RuntimeCall) p h : (c :: p) `suffix_of` (d :: h) -> c = d /\ p = h \/ (c :: p) `suffix_of` h.
Proof. intros [[|e k] Hk]; cbn in Hk; injection Hk as -> ->; [by left|right; by exists k]. Qed.
(** between [h0] and [h] the call [c] was made when [P] held *)
Definition saw (h0 h : calls) (c : RuntimeCall) (P : calls -> Prop) : Prop :=
  exists p, h0 `suffix_of` p /\ (c :: p) `suffix_of` h /\ P p.
Lemma saw_later h0 h h' c P : saw h0 h c P -> h `suffix_of` h' -> saw h0 h' c P.
Proof. intros (p & H0 & Hc & Hp) Hs. exists p. split_and!; [done|by etrans|done]. Qed.
Lemma saw_now h0 h c (P : calls -> Prop) : h0 `suffix_of` h -> P h -> saw h0 (c :: h) c P.
Proof. intros H0 Hp. by exists h. Qed.
Lemma suffix_call (h0 h : calls) c : h0 `suffix_of` h -> h0 `suffix_of` (c :: h).
Proof. apply suffix_cons_r. Qed.

Lemma no_call_yet (h p : calls) c : h `suffix_of` p -> ~ (c :: p) `suffix_of` h.
Proof. intros Hs%suffix_length Hc%suffix_length. cbn in Hc. lia. Qed.

Definition mutating (c : RuntimeCall) : bool :=
  match c with CStop _ | CRemove _ | CRemoveVolume _ _ => true | _ => false end.

Section cleanup.
Context `{UuidText} `{UuidSimple} `{RuntimeManager}.
Variable session_id : uuid.
Variable binding_id : string.
Variable binding_uuid : uuid.
Variable fence : Z.
Variable policy_id worker gateway role : string.
Variable h0 : calls.

Definition expected_containers : list (string * string) := [(worker, "worker"); (gateway, role)].
Definition volume_name (r : string) : string :=
  if String.eqb r "control_secret" then control_volume_name binding_uuid else material_volume_name binding_uuid r.
Definition volume_labels (r : string) : labels := private_volume_labels session_id binding_uuid fence policy_id r.

Definition seen_owned (h : calls) (name r : string) (ch : ContainerHandle) : Prop :=
  saw h0 h (CGetHandle name) (fun p => rt_get_handle p name = Some (Some ch)) /\
  saw h0 h (CDescribe name) (fun p => exists s, rt_describe p name = Some (Some s) /\
    runtime_owned_by_binding s name r session_id binding_id fence policy_id = true).
Definition seen_absent (h : calls) (name : string) : Prop :=
  saw h0 h (CGetHandle name) (fun p => rt_get_handle p name = Some None).
(** every container that has one of the names of the binding is the binding's *)
Definition containers_checked (h : calls) : Prop :=
  forall name r, (name, r) ∈ expected_containers -> seen_absent h name \/ exists ch, seen_owned h name r ch.
Definition rechecked (h : calls) (ch : ContainerHandle) : Prop :=
  exists p current, h = CGetHandle (ch_name ch) :: p /\ rt_get_handle p (ch_name ch) = Some (Some current) /\
    ch_id current = ch_id ch.
Definition may_stop (h : calls) (ch : ContainerHandle) : Prop :=
  containers_checked h /\ (exists name r, (name, r) ∈ expected_containers /\ seen_owned h name r ch) /\ rechecked h ch.
Definition volume_seen_owned (h : calls) (r : string) : Prop :=
  saw h0 h (CVolumeOwned (volume_name r) (volume_labels r))
    (fun p => rt_volume_owned p (volume_name r) (volume_labels r) = Some true).
Definition volume_seen_absent (h : calls) (r : string) : Prop :=
  saw h0 h (CVolumeOwned (volume_name r) (volume_labels r))
    (fun p => rt_volume_owned p (volume_name r) (volume_labels r) = Some false).
Definition volume_removed (h : calls) (r : string) : Prop :=
  saw h0 h (CRemoveVolume (volume_name r) (volume_labels r))
    (fun p => rt_succeeds p (CRemoveVolume (volume_name r) (volume_labels r)) = true).
(** what entitles the server to a call *)
Definition entitled (h : calls) (c : RuntimeCall) : Prop :=
  match c with
  | CStop ch => may_stop h ch
  | CRemove ch => exists p, h = CStop ch :: p /\ may_stop p ch
  | CRemoveVolume name required =>
      (exists r, r ∈ private_volume_roles role /\ name = volume_name r /\ required = volume_labels r /\ volume_seen_owned h r) /\
      forall n r, (n, r) ∈ expected_containers -> seen_absent h n
  | _ => True
  end.
Definition proper (h : calls) : Prop :=
  h0 `suffix_of` h /\ forall c p, h0 `suffix_of` p -> (c :: p) `suffix_of` h -> entitled p c.

Lemma proper_call h c : proper h -> entitled h c -> proper (c :: h).
Proof.
  intros [Hs Hc] He. split; [by apply suffix_call|]. intros d p Hp Hd.
  apply suffix_cons_or in Hd as [[-> ->]|Hd]; [done|by apply Hc].
Qed.
Lemma proper_start : proper h0.
Proof.
  split; [done|]. intros c p Hs Hc. by destruct (no_call_yet h0 p c).
Qed.

Lemma seen_absent_later h h' n : seen_absent h n -> h `suffix_of` h' -> seen_absent h' n.
Proof. apply saw_later. Qed.
Lemma seen_owned_later h h' n r ch : seen_owned h n r ch -> h `suffix_of` h' -> seen_owned h' n r ch.
Proof. intros [Ha Hb] Hs. split; by eapply saw_later. Qed.
Lemma containers_checked_later h h' : containers_checked h -> h `suffix_of` h' -> containers_checked h'.
Proof.
  intros Hc Hs n r Hin. destruct (Hc n r Hin) as [?|[ch ?]]; [left; by eapply seen_absent_later|].
  right. exists ch. by eapply seen_owned_later.
Qed.
Lemma volume_seen_later h h' r : volume_seen_owned h r -> h `suffix_of` h' -> volume_seen_owned h' r.
Proof. apply saw_later. Qed.

(** the next call of a process, with what it answered *)
Lemma ask_bind {A B} c (answer : calls -> A) (f : A -> docker B) h :
  (ask_runtime c answer ≫= f) h = f (answer h) (c :: h).
Proof. done. Qed.
Lemma proper_ask h c : proper h -> mutating c = false -> proper (c :: h).
Proof. intros Hp Hm. apply proper_call; [done|]. by destruct c. Qed.

Lemma owned_volumes_spec roles h r h' :
  proper h -> owned_volumes session_id binding_uuid fence policy_id roles h = (r, h') ->
  proper h' /\ h `suffix_of` h' /\
  forall vs, r = Ok vs ->
    (forall v, v ∈ vs -> exists k, k ∈ roles /\ v = (volume_name k, volume_labels k) /\ volume_seen_owned h' k) /\
    forall k, k ∈ roles -> (volume_name k, volume_labels k) ∈ vs \/ volume_seen_absent h' k.
Proof.
  revert h r h'. induction roles as [|k roles IH]; intros h r h' Hp Hr.
  { injection Hr as <- <-. split_and!; [done|done|]. intros vs [= <-]. split; intros v Hv; by apply elem_of_nil in Hv. }
  cbn [owned_volumes] in Hr. rewrite ask_bind in Hr. fold (volume_name k) in Hr. fold (volume_labels k) in Hr.
  set (c := CVolumeOwned (volume_name k) (volume_labels k)) in *.
  assert (proper (c :: h)) as Hp1 by by apply proper_ask.
  destruct (rt_volume_owned h (volume_name k) (volume_labels k)) as [present|] eqn:Hown; cbn [ok_or] in Hr.
  2:{ injection Hr as <- <-. split_and!; [done|by apply suffix_call|done]. }
  apply proc_bind_inv in Hr as [(b & h1 & Hb & Hr)|(e & Hb & ->)]; [|by injection Hb].
  injection Hb as <- <-.
  apply proc_bind_inv in Hr as [(vs & h1 & Hvs & Hr)|(e & Hvs & ->)].
  - destruct (IH _ _ _ Hp1 Hvs) as (Hp2 & Hs & Hin). injection Hr as <- <-.
    split_and!; [done|etrans; [by apply suffix_call|done]|]. intros vs' [= <-].
    destruct (Hin vs eq_refl) as [Hown' Hall]. split.
    + intros v Hv. assert (v ∈ vs \/ present = true /\ v = (volume_name k, volume_labels k)) as [Hv'|[-> ->]].
      { destruct present; [apply elem_of_cons in Hv as [->|?]; auto|auto]. }
      * destruct (Hown' v Hv') as (k2 & ? & ? & ?). exists k2. split_and!; [by right|done|done].
      * exists k. split_and!; [by left|done|]. eapply saw_later; [|exact Hs]. apply saw_now; [apply Hp|done].
    + intros k2 [->|Hk]%elem_of_cons.
      * destruct present; [by left; left|right]. eapply saw_later; [|exact Hs]. apply saw_now; [apply Hp|done].
      * destruct (Hall k2 Hk) as [?|?]; [left|by right]. destruct present; [by right|done].
  - destruct (IH _ _ _ Hp1 Hvs) as (Hp2 & Hs & _). split_and!; [done|etrans; [by apply suffix_call|done]|done].
Qed.

Lemma owned_container_spec n k h r h' :
  proper h -> owned_container session_id binding_id fence policy_id n k h = (r, h') ->
  proper h' /\ h `suffix_of` h' /\ exists o, r = Ok o /\
  match o with
  | Ok (Some ch) => seen_owned h' n k ch
  | Ok None => seen_absent h' n
  | Err _ => True
  end.
Proof.
  intros Hp Hr. unfold owned_container, get_container_handle in Hr. rewrite ask_bind in Hr.
  set (c := CGetHandle n) in *. assert (proper (c :: h)) as Hp1 by by apply proper_ask.
  destruct (rt_get_handle h n) as [[ch|]|] eqn:Hg.
  - unfold describe_container_runtime_state in Hr. rewrite ask_bind in Hr. set (d := CDescribe n) in *.
    assert (proper (d :: c :: h)) as Hp2 by by apply proper_ask.
    assert (h `suffix_of` d :: c :: h) by by do 2 apply suffix_call.
    destruct (rt_describe (c :: h) n) as [[st|]|] eqn:Hd; injection Hr as <- <-; split_and!; try done; eexists; split; try done.
    destruct (runtime_owned_by_binding st n k session_id binding_id fence policy_id) eqn:Ho; [|done]. split.
    + eapply saw_later; [by apply saw_now; [apply Hp|exact Hg]|by apply suffix_call].
    + apply saw_now; [by apply suffix_call, Hp|by exists st].
  - injection Hr as <- <-. split_and!; [done|by apply suffix_call|]. eexists; split; [done|]. apply saw_now; [apply Hp|done].
  - injection Hr as <- <-. split_and!; [done|by apply suffix_call|]. by eexists.
Qed.
Lemma owned_containers_spec l h r h' :
  proper h -> owned_containers session_id binding_id fence policy_id l h = (r, h') ->
  proper h' /\ h `suffix_of` h' /\ exists hs failed, r = Ok (hs, failed) /\
    (failed = false -> forall n k, (n, k) ∈ l -> seen_absent h' n \/ exists ch, ch ∈ hs /\ seen_owned h' n k ch) /\
    forall ch, ch ∈ hs -> exists n k, (n, k) ∈ l /\ seen_owned h' n k ch.
Proof.
  revert h r h'. induction l as [|[n k] l IH]; intros h r h' Hp Hr.
  { injection Hr as <- <-. split_and!; [done|done|]. exists [], false. split_and!; [done|..].
    - intros _ n k Hin. by apply elem_of_nil in Hin.
    - intros ch Hin. by apply elem_of_nil in Hin. }
  cbn [owned_containers] in Hr.
  apply proc_bind_inv in Hr as [(o & h1 & Ho & Hr)|(e & Ho & ->)].
  2:{ apply owned_container_spec in Ho as (_ & _ & o & [=] & _); done. }
  apply owned_container_spec in Ho as (Hp1 & Hs1 & o' & [= ->] & Ho); [|done].
  apply proc_bind_inv in Hr as [([hs failed] & h2 & Hl & Hr)|(e & Hl & ->)].
  2:{ apply IH in Hl as (_ & _ & ? & ? & [=] & _); done. }
  destruct (IH _ _ _ Hp1 Hl) as (Hp2 & Hs2 & ? & ? & [= <- <-] & Hc & Hh). injection Hr as <- <-.
  split_and!; [done|by etrans|].
  destruct o' as [[ch|]|u]; (eexists _, _; split; [done|]; split).
  - intros Hf n' k' [[= -> ->]|Hin]%elem_of_cons.
    + right. exists ch. split; [by left|by eapply seen_owned_later].
    + destruct (Hc Hf n' k' Hin) as [?|(ch' & ? & ?)]; [by left|right; exists ch'; split; [by right|done]].
  - intros ch' [->|Hin]%elem_of_cons; [exists n, k; split; [by left|by eapply seen_owned_later]|].
    destruct (Hh ch' Hin) as (n' & k' & ? & ?). exists n', k'. split; [by right|done].
  - intros Hf n' k' [[= -> ->]|Hin]%elem_of_cons; [left; by eapply seen_absent_later|by apply Hc].
  - intros ch' Hin. destruct (Hh ch' Hin) as (n' & k' & ? & ?). exists n', k'. split; [by right|done].
  - done.
  - intros ch' Hin. destruct (Hh ch' Hin) as (n' & k' & ? & ?). exists n', k'. split; [by right|done].
Qed.

Lemma remove_one_spec ch h r h' n k :
  proper h -> containers_checked h -> (n, k) ∈ expected_containers -> seen_owned h n k ch ->
  remove_one ch h = (r, h') ->
  proper h' /\ h `suffix_of` h' /\ exists gone, r = Ok gone /\ (gone = true -> seen_absent h' (ch_name ch)).
Proof.
  intros Hp Hc Hin Ho Hr. unfold remove_one, get_container_handle in Hr. rewrite ask_bind in Hr.
  set (c := CGetHandle (ch_name ch)) in *. assert (proper (c :: h)) as Hp1 by by apply proper_ask.
  assert (h `suffix_of` c :: h) as Hs1 by by apply suffix_call.
  destruct (rt_get_handle h (ch_name ch)) as [[current|]|] eqn:Hg.
  - destruct (String.eqb_spec (ch_id current) (ch_id ch)) as [Heq|Hne].
    2:{ injection Hr as <- <-. split_and!; [done|done|]. by exists false. }
    assert (may_stop (c :: h) ch) as Hm.
    { split_and!; [by eapply containers_checked_later| |by exists h, current].
      exists n, k. split; [done|by eapply seen_owned_later]. }
    rewrite !ask_bind in Hr. set (s1 := CStop ch) in *. set (s2 := CRemove ch) in *.
    assert (proper (s1 :: c :: h)) as Hp2 by by apply proper_call.
    assert (proper (s2 :: s1 :: c :: h)) as Hp3 by (apply proper_call; [done|]; by exists (c :: h)).
    assert (proper (c :: s2 :: s1 :: c :: h)) as Hp4 by by apply proper_ask.
    assert (h `suffix_of` c :: s2 :: s1 :: c :: h) by by do 4 apply suffix_call.
    destruct (rt_get_handle (s2 :: s1 :: c :: h) (ch_name ch)) as [[x|]|] eqn:Hg2; injection Hr as <- <-;
      (split_and!; [done|done|]); eexists; (split; [done|]); try done.
    intros _. apply saw_now; [apply Hp3|done].
  - injection Hr as <- <-. split_and!; [done|done|]. exists true. split; [done|]. intros _. apply saw_now; [apply Hp|done].
  - injection Hr as <- <-. split_and!; [done|done|]. by exists false.
Qed.
Lemma remove_all_spec hs h r h' :
  proper h -> containers_checked h ->
  (forall ch, ch ∈ hs -> exists n k, (n, k) ∈ expected_containers /\ seen_owned h n k ch) ->
  remove_all hs h = (r, h') ->
  proper h' /\ h `suffix_of` h' /\ exists gone, r = Ok gone /\
    (gone = true -> forall ch, ch ∈ hs -> seen_absent h' (ch_name ch)).
Proof.
  revert h r h'. induction hs as [|ch hs IH]; intros h r h' Hp Hc Ho Hr.
  { injection Hr as <- <-. split_and!; [done|done|]. exists true. split; [done|]. intros _ ch Hin. by apply elem_of_nil in Hin. }
  cbn [remove_all] in Hr. destruct (Ho ch ltac:(left)) as (n & k & Hin & Hseen).
  apply proc_bind_inv in Hr as [(gone & h1 & H1' & Hr)|(e & H1' & ->)].
  2:{ eapply remove_one_spec in H1' as (_ & _ & ? & [=] & _); done. }
  eapply remove_one_spec in H1' as (Hp1 & Hs1 & g & [= ->] & Hg); [|done..].
  apply proc_bind_inv in Hr as [(all_gone & h2 & H2' & Hr)|(e & H2' & ->)].
  2:{ eapply IH in H2' as (_ & _ & ? & [=] & _); [done|by eapply containers_checked_later|].
      intros ch' Hch. destruct (Ho ch' ltac:(by right)) as (n' & k' & ? & ?). exists n', k'. split; [done|by eapply seen_owned_later]. }
  eapply IH in H2' as (Hp2 & Hs2 & ag & [= ->] & Hag); [|done|by eapply containers_checked_later|].
  2:{ intros ch' Hch. destruct (Ho ch' ltac:(by right)) as (n' & k' & ? & ?). exists n', k'. split; [done|by eapply seen_owned_later]. }
  injection Hr as <- <-. split_and!; [done|by etrans|]. eexists; split; [done|]. intros [Hga Hgb]%andb_true_iff ch' [->|Hch]%elem_of_cons.
  - eapply seen_absent_later; [by apply Hg|done].
  - by apply Hag.
Qed.
Lemma remove_volumes_spec vs h r h' :
  proper h ->
  (forall v, v ∈ vs -> exists k, k ∈ private_volume_roles role /\ v = (volume_name k, volume_labels k) /\ volume_seen_owned h k) ->
  (forall n k, (n, k) ∈ expected_containers -> seen_absent h n) ->
  remove_volumes vs h = (r, h') ->
  proper h' /\ h `suffix_of` h' /\ exists gone, r = Ok gone /\ (gone = true -> forall v, v ∈ vs ->
    saw h0 h' (CRemoveVolume v.1 v.2) (fun p => rt_succeeds p (CRemoveVolume v.1 v.2) = true)).
Proof.
  revert h r h'. induction vs as [|[vn vl] vs IH]; intros h r h' Hp Hv Ha Hr.
  { injection Hr as <- <-. split_and!; [done|done|]. exists true. split; [done|]. intros _ v Hin. by apply elem_of_nil in Hin. }
  cbn [remove_volumes] in Hr. rewrite ask_bind in Hr. set (c := CRemoveVolume vn vl) in *.
  assert (proper (c :: h)) as Hp1.
  { apply proper_call; [done|]. split; [|exact Ha]. destruct (Hv (vn, vl) ltac:(left)) as (k & ? & [= -> ->] & ?). by exists k. }
  assert (h `suffix_of` c :: h) as Hs1 by by apply suffix_call.
  apply proc_bind_inv in Hr as [(all_gone & h2 & H2' & Hr)|(e & H2' & ->)]; apply IH in H2' as (Hp2 & Hs2 & ag & Hag & Hseen);
    try done.
  - injection Hag as ->. injection Hr as <- <-. split_and!; [done|by etrans|]. eexists; split; [done|].
    intros [Hga Hgb]%andb_true_iff v [->|Hin]%elem_of_cons; [|by apply Hseen].
    eapply saw_later; [|exact Hs2]. apply saw_now; [apply Hp|done].
  - intros v Hin. destruct (Hv v ltac:(by right)) as (k & ? & ? & ?). exists k. split_and!; [done|done|by eapply volume_seen_later].
  - intros n k Hin. eapply seen_absent_later; [by eapply Ha|done].
  - intros v Hin. destruct (Hv v ltac:(by right)) as (k & ? & ? & ?). exists k. split_and!; [done|done|by eapply volume_seen_later].
  - intros n k Hin. eapply seen_absent_later; [by eapply Ha|done].
Qed.
End cleanup.

Section outcomes.
Context `{UuidText} `{UuidSimple} {R : RuntimeManager} {RN : RuntimeNames R}.
Variable session_id : uuid.
Variable binding_id : string.
Variable fence : Z.
Variable policy_id worker gateway role : string.
Variable h : calls.
Lemma seen_owned_name h' n k ch : seen_owned session_id binding_id fence policy_id h h' n k ch -> ch_name ch = n.
Proof. intros [(p & _ & _ & Hg) _]. by eapply rt_get_handle_name. Qed.
Lemma proper_calls b h' :
  proper session_id binding_id b fence policy_id worker gateway role h h' -> uuid_parse_str binding_id = Some b ->
  forall c p, h `suffix_of` p -> (c :: p) `suffix_of` h' -> mutating c = true ->
    exists b, uuid_parse_str binding_id = Some b /\
      entitled session_id binding_id b fence policy_id worker gateway role h p c.
Proof. intros [_ Hp] Hb c p Hs Hc _. exists b. split; [done|by apply Hp]. Qed.
Lemma proper_outcome b h' (P : Prop) (e : LiveEgressError) :
  proper session_id binding_id b fence policy_id worker gateway role h h' -> uuid_parse_str binding_id = Some b ->
  (forall c p, h `suffix_of` p -> (c :: p) `suffix_of` h' -> mutating c = true ->
     exists b, uuid_parse_str binding_id = Some b /\
       entitled session_id binding_id b fence policy_id worker gateway role h p c) /\ (Err e = Ok () -> P).
Proof. intros Hp Hb. split; [by eapply proper_calls|done]. Qed.
Lemma untouched (Q : RuntimeCall -> calls -> Prop) (P : Prop) (e : LiveEgressError) :
  (forall c p, h `suffix_of` p -> (c :: p) `suffix_of` h -> mutating c = true -> Q c p) /\ (Err e = Ok () -> P).
Proof.
  split; [|done]. intros c p Hs Hc _.
  by destruct (no_call_yet h p c).
Qed.
End outcomes.

(** The server cleans up the containers and the secrets of a binding, and nothing else.  It stops and removes
    a container only after the runtime described it, under the name the binding gave it, with the labels of this
    binding, session, fence and policy, and after the container of that name was still the same one; it does so
    only if every container found under a name of the binding is the binding's, so a foreign container or a
    volume whose ownership is unknown stops the cleanup before it changes anything; a stopped container is the
    next one removed; secrets are removed last, once no container of the binding is left.  When the cleanup
    succeeds the runtime has said, for each container, that it is gone and, for each volume, that it is removed
    or was not there. *)
Theorem cleanup_touches_only_its_binding `{UuidText} `{UuidSimple} {R : RuntimeManager} {RN : RuntimeNames R}
    session_id binding_id fence policy_id worker gateway role h r h' :
  cleanup_runtime session_id binding_id fence policy_id worker gateway role h = (r, h') ->
  (forall c p, h `suffix_of` p -> (c :: p) `suffix_of` h' -> mutating c = true ->
     exists b, uuid_parse_str binding_id = Some b /\
       entitled session_id binding_id b fence policy_id worker gateway role h p c) /\
  (r = Ok () -> exists b, uuid_parse_str binding_id = Some b /\
     (forall n, n ∈ [worker; gateway] -> seen_absent h h' n) /\
     forall k, k ∈ private_volume_roles role ->
       volume_removed session_id b fence policy_id h h' k \/ volume_seen_absent session_id b fence policy_id h h' k).
Proof.
  intros Hr. unfold cleanup_runtime in Hr.
  apply proc_bind_inv in Hr as [([] & h1 & Hg & Hr)|(e & Hg & ->)].
  2:{ injection Hg as _ <-. apply untouched. }
  injection Hg as _ <-. apply proc_bind_inv in Hr as [(b & h1 & Hb & Hr)|(e & Hb & ->)].
  2:{ injection Hb as _ <-. apply untouched. }
  injection Hb as Hb <-. apply ok_or_ok in Hb.
  assert (proper session_id binding_id b fence policy_id worker gateway role h h) as Hp by apply proper_start.
  apply proc_bind_inv in Hr as [(vs & h1 & Hvs & Hr)|(e & Hvs & ->)];
    (eapply owned_volumes_spec in Hvs as (Hp1 & Hs1 & Hv); [|exact Hp]); [|by eapply proper_outcome].
  destruct (Hv vs eq_refl) as [Hv1 Hv2].
  apply proc_bind_inv in Hr as [([hs failed] & h2 & Hhs & Hr)|(e & Hhs & ->)];
    (eapply owned_containers_spec in Hhs as (Hp2 & Hs2 & hs' & f' & Heq & Hc & Ho); [|exact Hp1]); [|done].
  injection Heq as <- <-. destruct failed; [injection Hr as <- <-; by eapply proper_outcome|].
  cbn [reject_if] in Hr. apply proc_bind_inv in Hr as [([] & ? & [= <-] & Hr)|(e & [=] & _)].
  assert (containers_checked session_id binding_id fence policy_id worker gateway role h h2) as Hck.
  { intros n k Hin. destruct (Hc eq_refl n k Hin) as [?|(ch & _ & ?)]; [by left|right; by exists ch]. }
  apply proc_bind_inv in Hr as [(gone & h3 & Hrm & Hr)|(e & Hrm & ->)];
    (eapply remove_all_spec in Hrm as (Hp3 & Hs3 & g & Heq & Hgone); [|done..]); [|done].
  injection Heq as <-. destruct gone; [|injection Hr as <- <-; by eapply proper_outcome].
  cbn [negb reject_if] in Hr. apply proc_bind_inv in Hr as [([] & ? & [= <-] & Hr)|(e & [=] & _)].
  assert (forall n k, (n, k) ∈ expected_containers worker gateway role -> seen_absent h h3 n) as Ha.
  { intros n k Hin. destruct (Hc eq_refl n k Hin) as [?|(ch & Hch & Hown)]; [by eapply seen_absent_later|].
    rewrite <- (seen_owned_name _ _ _ _ _ _ _ _ _ Hown). by apply Hgone. }
  apply proc_bind_inv in Hr as [(vgone & h4 & Hrv & Hr)|(e & Hrv & ->)];
    (eapply remove_volumes_spec in Hrv as (Hp4 & Hs4 & g & Heq & Hvg); [|done| |exact Ha]); [| |done|]; cycle 1.
  1,2: intros v Hin; destruct (Hv1 v Hin) as (k & ? & ? & ?); exists k; split_and!; [done|done|];
    eapply volume_seen_later; [done|by etrans].
  injection Heq as <-. destruct vgone; injection Hr as <- <-; [|by eapply proper_outcome].
  split; [by eapply proper_calls|]. intros _. exists b. split_and!; [done|..].
  - intros n Hn. eapply seen_absent_later; [|exact Hs4].
    apply elem_of_cons in Hn as [->|Hn%list_elem_of_singleton]; [eapply (Ha _ "worker")|subst; eapply (Ha _ role)];
      set_solver.
  - intros k Hk. destruct (Hv2 k Hk) as [Hin|Habs]; [left; by apply (Hvg eq_refl _ Hin)|right].
    eapply saw_later; [exact Habs|by do 2 (etrans; [done|])].
Qed.

(** *** Waiting for a container and for the worker *)
Section waits.
Context `{UuidText} {R : RuntimeManager} {RC : RuntimeClock R}.
Lemma one_call {A B} c (answer : calls -> A) (f : A -> docker B) h r h' :
  (forall a h, (f a h).2 = h) -> (ask_runtime c answer ≫= f) h = (r, h') -> (rt_now h <= rt_now h')%Z.
Proof.
  intros Hf Hr. rewrite ask_bind in Hr. pose proof (Hf (answer h) (c :: h)) as Hs. rewrite Hr in Hs. cbn in Hs. subst.
  apply rt_now_call.
Qed.
Lemma is_running_calls c h r h' : is_running c h = (r, h') -> (rt_now h <= rt_now h')%Z.
Proof. apply one_call. by intros [s|] k. Qed.
Lemma is_healthy_calls c h r h' : is_healthy c h = (r, h') -> (rt_now h <= rt_now h')%Z.
Proof. apply one_call. intros [s|] k; [cbn|done]. unfold mbind, proc_bind, lift. by destruct (st_running s). Qed.
Lemma worker_ready_calls p port h r h' : worker_ready p port h = (r, h') -> (rt_now h <= rt_now h')%Z.
Proof. by apply one_call. Qed.
End waits.

(** C27: The start of a protected session ends.  The waits for a running container, for the tunnel and for the
    worker's readiness poll until a deadline and pause in between; time moves on by at least the pause, so the
    number of polls the model allows is never used up before the deadline passes: with any number of further
    polls the outcome and the calls made are the same. *)
Theorem startup_waits_end `{UuidText} {R : RuntimeManager} {RC : RuntimeClock R} timeout more container p port h :
  (0 <= timeout)%Z ->
  let deadline := (rt_now h + timeout * nanos_per_second)%Z in
  poll (polls timeout 100 + more) (is_running container) deadline 100 EgressRuntime h = wait_running container timeout h /\
  poll (polls timeout 250 + more) (is_healthy container) deadline 250 Readiness h = wait_healthy container timeout h /\
  poll (polls timeout 250 + more) (worker_ready p port) deadline 250 Readiness h
    = wait (worker_ready p port) timeout 250 Readiness h.
Proof.
  intros Ht. split_and!; (apply wait_fuel; [|done|lia|]).
  - apply is_running_calls.
  - replace (timeout * 1000)%Z with (timeout * 10 * 100)%Z by lia. apply Z_mod_mult.
  - apply is_healthy_calls.
  - replace (timeout * 1000)%Z with (timeout * 4 * 250)%Z by lia. apply Z_mod_mult.
  - apply worker_ready_calls.
  - replace (timeout * 1000)%Z with (timeout * 4 * 250)%Z by lia. apply Z_mod_mult.
Qed.

(** *** The destination policy and the worker agree on public addresses *)
Ltac or_false := repeat match goal with Ho : _ || _ = false |- _ => apply orb_false_iff in Ho as [? ?] end.
Lemma octet_range v i : (0 <= octet v i <= 255)%Z.
Proof.
  unfold octet. change 255%Z with (Z.ones 8). rewrite Z.land_ones by done. change (2 ^ 8)%Z with 256%Z.
  pose proof (Z.mod_pos_bound (Z.shiftr v (8 * (3 - i))) 256 ltac:(lia)). change (Z.ones 8) with 255%Z. lia.
Qed.
Lemma shared_octet o : (0 <= o <= 255)%Z -> (Z.land o 192 =? 64)%Z = between 64 o 127.
Proof.
  intros Ho. assert (forallb (fun n => Bool.eqb (Z.land (Z.of_nat n) 192 =? 64)%Z (between 64 (Z.of_nat n) 127)) (seq 0 256) = true) as Hall
    by by vm_compute.
  rewrite forallb_forall in Hall. specialize (Hall (Z.to_nat o)). rewrite Z2Nat.id in Hall by lia.
  apply eqb_prop, Hall. apply in_seq. lia.
Qed.
Lemma public_v4 v : classify_v4 v = ClassPublic -> is_public_v4 v = true.
Proof.
  unfold classify_v4, is_public_v4. rewrite shared_octet by apply octet_range.
  assert ((v =? 4294967295)%Z = true -> octet v 0 = 255%Z) as H255 by by intros ->%Z.eqb_eq.
  assert ((v =? 0)%Z = true -> octet v 0 = 0%Z) as H0' by by intros ->%Z.eqb_eq.
  revert H255 H0'. generalize (octet v 0) (octet v 1) (octet v 2) (v =? 4294967295)%Z (v =? 0)%Z. unfold between.
  intros a b c x y Hx Hy. 
  match goal with |- context [if ?b then _ else _] => destruct b eqn:Ha end; [discriminate|].
  match goal with |- context [if ?b then _ else _] => destruct b eqn:Hb end; [discriminate|]. intros _.
  or_false.
  assert (x = false) as ->. { destruct x; [|done]. rewrite (Hx eq_refl) in *. done. }
  assert (y = false) as ->. { destruct y; [|done]. rewrite (Hy eq_refl) in *. done. }
  apply negb_true_iff. repeat (apply orb_false_intro); try assumption; try done. by apply andb_false_intro1.
Qed.
Lemma public_v6 v : classify_v6 v = ClassPublic -> is_public_v6 v = true.
Proof.
  unfold classify_v6, is_public_v6, to_ipv4_mapped. destruct (Z.land (segment v 0) 65024 =? 64512)%Z eqn:Ha; [done|].
  match goal with |- context [if ?b then _ else _] => destruct b eqn:Hb end; [discriminate|]. intros _. or_false.
  repeat match goal with Hx : (?x =? ?y)%Z = false |- context [(?x =? ?y)%Z] => rewrite Hx end. cbn.
  rewrite !andb_assoc. repeat match goal with Hx : _ && _ = false |- _ => rewrite Hx; clear Hx end. done.
Qed.
(** A destination that the upstream policy calls public is never refused by the egress worker for its
    address: the worker's own check accepts every address that the policy of the server classifies as public. *)
Theorem public_destinations_pass_the_worker a :
  match classify a with ClassPublic => is_public_egress_ip a = true | _ => True end.
Proof.
  destruct a as [v|v]; cbn.
  - destruct (classify_v4 v) eqn:Hc; [by apply public_v4|done|done].
  - destruct (classify_v6 v) eqn:Hc; [by apply public_v6|done|done].
Qed.

(** *** What a started worker has shown *)
Section started.
Context `{UuidText} `{UuidSimple} `{RuntimeManager}.
Lemma keeps_ask {A} h c (answer : calls -> A) : keeps (suffix h) (ask_runtime c answer).
Proof. intros k Hk. by apply suffix_call. Qed.
Lemma keeps_sleep h d : keeps (suffix h) (sleep d).
Proof. intros k Hk. by apply suffix_call. Qed.
Lemma keeps_clock h : keeps (suffix h) clock.
Proof. apply keeps_view. Qed.
Hint Resolve keeps_ask keeps_sleep keeps_clock : keeps.
Lemma keeps_perform h c e : keeps (suffix h) (perform c e).
Proof. apply proc_keeps_bind; auto with keeps. Qed.
Hint Resolve keeps_perform : keeps.
Lemma keeps_poll {A} h fuel (test : docker (option A)) d p e : keeps (suffix h) test -> keeps (suffix h) (poll fuel test d p e).
Proof.
  intros Ht. induction fuel as [|fuel IH]; cbn; [apply keeps_stop|]. apply proc_keeps_bind; [done|]. intros [a|]; [apply proc_keeps_ret|].
  apply proc_keeps_bind; [auto with keeps|]. intros now. case_match; [apply keeps_stop|]. apply proc_keeps_bind; auto with keeps.
Qed.
Lemma keeps_wait {A} h (test : docker (option A)) t p e : keeps (suffix h) test -> keeps (suffix h) (wait test t p e).
Proof. intros Ht. apply proc_keeps_bind; [auto with keeps|]. intros s. by apply keeps_poll. Qed.
Lemma keeps_running h c t : keeps (suffix h) (wait_running c t).
Proof. apply keeps_wait. apply proc_keeps_bind; [apply keeps_ask|]. intros s. apply proc_keeps_bind; auto with keeps. Qed.
Lemma keeps_healthy h c t : keeps (suffix h) (wait_healthy c t).
Proof.
  apply keeps_wait. apply proc_keeps_bind; [apply keeps_ask|]. intros s. apply proc_keeps_bind; [auto with keeps|]. intros s'.
  apply proc_keeps_bind; auto with keeps.
Qed.
Lemma keeps_ready h p port t e : keeps (suffix h) (wait (worker_ready p port) t 250 e).
Proof. apply keeps_wait. apply proc_keeps_bind; auto with keeps. Qed.
Lemma keeps_describe h n : keeps (suffix h) (describe_container_runtime_state n).
Proof. apply keeps_ask. Qed.
Hint Resolve keeps_running keeps_healthy keeps_ready keeps_describe : keeps.
Lemma keeps_tunnel h (warp : bool) c t :
  keeps (suffix h) (if warp then _ ← wait_healthy c t; install_warp_kill_switch c else mret ()).
Proof. destruct warp; [apply proc_keeps_bind; [auto with keeps|intros ?]; apply keeps_perform|auto with keeps]. Qed.
Hint Resolve keeps_tunnel : keeps.
Lemma described (o : option (option ContainerRuntimeState)) s : mjoin o = Some s -> o = Some (Some s).
Proof. destruct o; [by intros [= ->]|done]. Qed.

Lemma keeps_compatible_image h : keeps (suffix h) require_compatible_worker_image.
Proof. apply proc_keeps_bind; [auto with keeps|intros ?]. apply proc_keeps_bind; auto with keeps. Qed.
Lemma keeps_owned_volumes h s b f p roles : keeps (suffix h) (owned_volumes s b f p roles).
Proof.
  induction roles as [|r roles IH]; cbn; [apply proc_keeps_ret|]. repeat (apply proc_keeps_bind; [auto with keeps|intros ?]). auto with keeps.
Qed.
Lemma keeps_owned_containers h s b f p l : keeps (suffix h) (owned_containers s b f p l).
Proof.
  induction l as [|[n r] l IH]; cbn; [apply proc_keeps_ret|]. apply proc_keeps_bind.
  - apply proc_keeps_bind; [apply keeps_ask|intros [[c|]|]; auto with keeps]. apply proc_keeps_bind; [apply keeps_ask|intros [[c'|]|]; auto with keeps].
  - intros o. apply proc_keeps_bind; [done|]. intros [hs failed]. auto with keeps.
Qed.
Lemma keeps_remove_all h cs : keeps (suffix h) (remove_all cs).
Proof.
  induction cs as [|c cs IH]; cbn; [apply proc_keeps_ret|]. apply proc_keeps_bind.
  - apply proc_keeps_bind; [apply keeps_ask|intros [[d|]|]; auto with keeps]. case_match; [|auto with keeps].
    repeat (apply proc_keeps_bind; [apply keeps_ask|intros ?]). auto with keeps.
  - intros gone. apply proc_keeps_bind; [done|auto with keeps].
Qed.
Lemma keeps_remove_volumes h vs : keeps (suffix h) (remove_volumes vs).
Proof.
  induction vs as [|[n l] vs IH]; cbn; [apply proc_keeps_ret|]. apply proc_keeps_bind; [apply keeps_ask|intros ?].
  apply proc_keeps_bind; [done|auto with keeps].
Qed.
Hint Resolve keeps_compatible_image keeps_owned_volumes keeps_owned_containers keeps_remove_all keeps_remove_volumes : keeps.
Lemma keeps_cleanup h s b f p w g r : keeps (suffix h) (cleanup_runtime s b f p w g r).
Proof.
  do 3 (apply proc_keeps_bind; [auto with keeps|intros ?]). apply proc_keeps_bind; [auto with keeps|intros [hs failed]].
  repeat (apply proc_keeps_bind; [solve [auto with keeps]|intros ?]). auto with keeps.
Qed.
Lemma keeps_start h t port session b p gs ws : keeps (suffix h) (start_and_verify t port session b p gs ws).
Proof. unfold start_and_verify. repeat (apply proc_keeps_bind; [solve [auto with keeps]|intros ?]). auto with keeps. Qed.

(** a wait that ended well ended with a good answer of the test *)
Lemma poll_ok {A} fuel (test : docker (option A)) d p e h x a h' :
  keeps (suffix h) test -> h `suffix_of` x -> poll fuel test d p e x = (Ok a, h') ->
  exists k, h `suffix_of` k /\ test k = (Ok (Some a), h').
Proof.
  intros Ht. revert x. induction fuel as [|fuel IH]; intros x Hx Hp; [done|]. cbn in Hp. proc_step.
  pose proof (Ht x Hx) as Hs. match goal with He : test x = _ |- _ => rewrite He in Hs end. cbn in Hs.
  match goal with He : test x = (Ok ?o, _) |- _ => destruct o as [a'|] end.
  - injection Hp as <- <-. by exists x.
  - proc_step. case_match; [done|]. proc_step. unfold clock, view, sleep, change in *. simplify_eq.
    eapply IH; [|exact Hp]. by apply suffix_call.
Qed.
Lemma wait_ok {A} (test : docker (option A)) t p e h a h' :
  keeps (suffix h) test -> wait test t p e h = (Ok a, h') -> exists k, h `suffix_of` k /\ test k = (Ok (Some a), h').
Proof. intros Ht Hw. unfold wait in Hw. apply proc_bind_ok in Hw as (s & k & [= <- <-] & Hw). by eapply poll_ok. Qed.

(** the worker is in the network of the gateway of this binding and answered from an address that the profile
    expects, with every probe and the kill switch in order *)
Record verified_worker (control_port : Z) (session : SessionRecord) (binding_id : uuid) (p : LiveEgressProfileConfig)
    (worker_spec : ContainerSpec) (gateway worker : ContainerHandle) (port : Z) (readiness : ReadinessControlResponse)
    (h h' : calls) : Prop := {
  vw_states : exists worker_state gateway_state,
    saw h h' (CDescribe (ch_name worker)) (fun k => rt_describe k (ch_name worker) = Some (Some worker_state)) /\
    saw h h' (CDescribe (ch_name gateway)) (fun k => rt_describe k (ch_name gateway) = Some (Some gateway_state)) /\
    verify_runtime_state session binding_id p worker_state gateway_state gateway (sp_security worker_spec) control_port = Ok () /\
    exists published, published ∈ rs_published_ports gateway_state /\ loopback_port control_port published = true /\
      pp_host published = port;
  vw_readiness : saw h h' (CReadiness port) (fun k => rt_readiness k port = Some readiness);
  vw_ready : readiness_ready readiness = true;
  vw_address : readiness_ip_matches (pc_expected_egress_ips p) (rd_observed_egress_ip readiness) = true;
}.
Ltac suffixes :=
  match goal with
  | |- ?a `suffix_of` ?a => reflexivity
  | Hs : ?a `suffix_of` ?b |- ?a `suffix_of` _ => etrans; [exact Hs|]; suffixes
  end.
Lemma start_and_verify_ok startup control_port session binding_id p gs ws h gateway worker port readiness h' :
  start_and_verify startup control_port session binding_id p gs ws h = (Ok (gateway, worker, port, readiness), h') ->
  verified_worker control_port session binding_id p ws gateway worker port readiness h h'.
Proof.
  unfold start_and_verify. intros Hs. proc_inv.
  repeat match goal with Hm : ?m ?k = (_, ?k') |- _ =>
    lazymatch goal with _ : k `suffix_of` k' |- _ => fail | _ => idtac end;
    assert (k `suffix_of` k') by (let Hk := fresh in assert (keeps (suffix k) m) as Hk by auto with keeps;
      specialize (Hk k (reflexivity k)); by rewrite Hm in Hk) end.
  repeat match goal with Hd : describe_container_runtime_state _ _ = (Ok _, _) |- _ => injection Hd as <- <- end.
  repeat match goal with Hd : ok_or _ _ = Ok _ |- _ => apply ok_or_ok in Hd end.
  repeat match goal with Hd : mjoin _ = Some _ |- _ => apply described in Hd end.
  match goal with Hd : wait (worker_ready _ _) _ _ _ _ = _ |- _ => apply wait_ok in Hd as (k & Hsk & Hk); [|apply proc_keeps_bind; auto with keeps] end.
  unfold worker_ready in Hk. rewrite ask_bind in Hk. injection Hk as Hready Heq.
  destruct (rt_readiness k port) as [rd|] eqn:Hrd; [|done]. destruct (_ && _) eqn:Hok in Hready; [|done]. injection Hready as ->.
  apply andb_true_iff in Hok as [Hok1 Hok2].
  match goal with Hf : pp_host <$> _ = Some _ |- _ => apply fmap_Some in Hf as (published & Hf & ->);
    apply find_some in Hf as [Hin%list_elem_of_In Hlp] end.
  split; [|exists k; subst; split_and!; [suffixes|done|done]|done|done].
  - match goal with Hv : verify_runtime_state _ _ _ ?ws ?gs _ _ _ = Ok ?u |- _ => destruct u; exists ws, gs end.
    split_and!; [..|done|by exists published].
    + eexists. split_and!; [| |done]; suffixes.
    + eexists. split_and!; [| |done]; suffixes.
Qed.
End started.
