(* ===== verification/RelaySessions.v ===== *)
(** * The sessions of the relay (src/src/live/relay/service.rs, src/src/http/handlers/live/delivery.rs)

    What [LiveRelayService] keeps in memory for each session that it relays, and the conditions under which it
    may keep it.  The operations that read the database ([ensure_session], [validate_session_authority]) are in
    [PlaybackRuntime], with the world they run in. *)
From S2P Require Import Prelude Bytes Addresses LiveContract EgressPolicy SessionTypes Planner UpstreamPolicy CookieJar.
From S2P Require Import UpstreamCredentials Crypto HlsResources HttpAccess.

Inductive LiveRelayError :=
| RelayUnavailable | RelayCapacityExhausted | RelaySessionExpired | RelaySessionMismatch | RelayStaleControlFence
| RelayDescriptorInvalid | RelayProtocolUnsupported | RelayResourceExpired | RelayResourceKindMismatch | RelayPolicyRejected
| RelayCredentialsRejected | RelayManifestRejected | RelayContentTypeRejected | RelayRangeRejected | RelayUpstreamStatus
| RelayUpstream (code : string).
Definition relay_error_of_rewrite (e : HlsRewriteError) : LiveRelayError :=
  match e with
  | StaleControlFence => RelayStaleControlFence
  | UnknownResource => RelayResourceExpired
  | _ => RelayManifestRejected
  end.
Definition range_rejected : LiveHttpRejection :=
  Rejection.new 416 "LIVE_RANGE_REJECTED" "The requested Live byte range is unavailable." false.
Definition resource_not_found : LiveHttpRejection :=
  Rejection.new 404 "LIVE_RESOURCE_NOT_FOUND" "The Live delivery resource is unavailable." false.
(** [map_relay_error]; [control] is [control_unavailable] of the playback API *)
Definition map_relay_error (control : LiveHttpRejection) (e : LiveRelayError) : LiveHttpRejection :=
  match e with
  | RelayCapacityExhausted => Rejection.new 429 "LIVE_RELAY_CAPACITY" "Live relay capacity is exhausted." true
  | RelaySessionExpired => Rejection.new 410 "LIVE_SESSION_EXPIRED" "The Live delivery session expired." false
  | RelaySessionMismatch | RelayStaleControlFence => control
  | RelayProtocolUnsupported =>
      Rejection.new 422 "LIVE_PROTOCOL_UNSUPPORTED" "The Live relay protocol is unsupported." false
  | RelayResourceExpired | RelayResourceKindMismatch => resource_not_found
  | RelayRangeRejected => range_rejected
  | RelayPolicyRejected =>
      Rejection.new 502 "LIVE_UPSTREAM_REJECTED" "The Live upstream source failed security validation." false
  | RelayDescriptorInvalid | RelayCredentialsRejected | RelayManifestRejected | RelayContentTypeRejected =>
      Rejection.new 502 "LIVE_UPSTREAM_INVALID" "The Live upstream response is invalid." false
  | RelayUpstreamStatus | RelayUpstream _ =>
      Rejection.new 502 "LIVE_UPSTREAM_UNAVAILABLE" "The Live upstream source is unavailable." true
  | RelayUnavailable => Rejection.new 503 "LIVE_RELAY_UNAVAILABLE" "The Live relay is unavailable." true
  end.

(** ** A session of the relay *)
(** [ry_fetcher]: the worker whose fetcher it uses, [None] for the fetcher of the server; the cancellation token and
    the permit are those of the entry *)
Record RelaySession := {
  ry_session_id : uuid;
  ry_owner : SessionOwner;
  ry_control_fencing_token : Z;
  ry_token_revision : Z;
  ry_hard_expires_at : instant;
  ry_protocol : SessionProtocol;
  ry_source : SourceDescriptor;
  ry_root_url : Url;
  ry_credentials : CredentialSet;
  ry_fetcher : option Z;
  ry_resources : HlsResourceMap;
}.
Definition relay_matches (e : RelaySession) (s : SessionRecord) : bool :=
  (ry_session_id e =? id s)%N && bool_decide (ry_owner e = owner s)
  && (ry_control_fencing_token e =? control_fencing_token s)%Z && (ry_token_revision e =? token_revision s)%Z
  && bool_decide (ry_protocol e = session_protocol s) && bool_decide (delivery_mode s = ServerRelay).
(** the entry is that of a later authority, or of another owner *)
Definition relay_ahead (e : RelaySession) (s : SessionRecord) : bool :=
  (control_fencing_token s <? ry_control_fencing_token e)%Z
  || ((ry_control_fencing_token e =? control_fencing_token s)%Z && (token_revision s <? ry_token_revision e)%Z)
  || negb (bool_decide (ry_owner e = owner s)).
(** what [validate_session_authority] compares with the row *)
Definition relay_current (row s : SessionRecord) : bool :=
  bool_decide (owner row = owner s) && bool_decide (delivery_mode row = delivery_mode s)
  && bool_decide (session_protocol row = session_protocol s) && (control_fencing_token row =? control_fencing_token s)%Z
  && (token_revision row =? token_revision s)%Z && (source_index row =? source_index s)%Z
  && negb (SessionState.is_terminal (state row)).
Definition validate_protocol (session : SessionProtocol) (descriptor : StreamProtocol) : result LiveRelayError unit :=
  match session, descriptor with
  | PHls, Hls | PDash, Dash | PHttpProgressive, HttpProgressive | PMpegTs, MpegTs | PRtmp, Rtmp | PSrt, Srt => Ok ()
  | _, _ => Err RelayDescriptorInvalid
  end.

Section routes.
Context `{UrlOps} `{HeaderOps}.
(** [Authority::from_url], for its errors *)
Definition require_authority (u : Url) : result LiveRelayError unit :=
  _ ← reject_if (negb (existsb (String.eqb (u_scheme u)) ["http"; "https"])) RelayPolicyRejected;
  _ ← ok_or (u_host u) RelayPolicyRejected;
  _ ← ok_or (u_port_or_known_default u) RelayPolicyRejected;
  Ok ().
(** the root url and the credentials of a source *)
Definition relay_route (source : SourceDescriptor) : result LiveRelayError (Url * CredentialSet) :=
  root_url ← ok_or (Url_parse (url source)) RelayDescriptorInvalid;
  _ ← require_authority root_url;
  credentials ← map_err (fun _ => RelayCredentialsRejected) (from_descriptor source);
  Ok (root_url, credentials).
End routes.

(** ** The service *)
(** [rl_lingering]: the permits of entries that were removed while requests still use them; [rl_lease]: the fencing
    token of the live control lease, if the query succeeds and the lease is held; [rl_waiting]: what other tasks do
    to the entries while this one waits for the admission lock.  Each is told which access to the database it
    comes before. *)
Record RelayService := {
  rl_capacity : Z;
  rl_lingering : nat -> Z;
  rl_now : nat -> instant;
  rl_lease : nat -> option (option Z);
  rl_waiting : nat -> gmap uuid RelaySession -> gmap uuid RelaySession;
}.
Definition has_permit (r : RelayService) (n : nat) (entries : gmap uuid RelaySession) : bool :=
  (Z.of_nat (size entries) + rl_lingering r n <? rl_capacity r)%Z.
