(* ===== verification/EgressBindings.v ===== *)
(** * Protected sessions and their bindings (src/src/live/egress/service.rs, repository.rs)

    [LiveEgressService] gives a protected session a binding: containers, a row of live_egress_bindings and, in
    memory, the fetcher that reaches the upstream through them.  When it cannot, a session whose policy permits it
    goes out directly, and the fallback is remembered and audited.  Bindings are made and released under one
    lock; between two accesses to the database [others] change the tables.  The permits of the semaphore are
    those of the bindings in memory. *)
From stdpp Require Import pretty.
From S2P Require Import Prelude Bytes LiveContract Addresses EgressPolicy SessionTypes Crypto Vault CanonicalJson.
From S2P Require Import SessionStore SessionRepo CatalogGrants AdminAudit EgressAssignments Process EgressWorkers.
From S2P Require Import RelaySessions.

(** ** State *)
Record BindingRow := {
  bd_id : uuid;
  bd_policy_id : string;
  bd_mode : string;
  bd_gateway_instance_id : option string;
  bd_worker_instance_id : option string;
  bd_gateway_container_name : string;
  bd_worker_container_name : string;
  bd_state : string;
  bd_control_fencing_token : Z;
  bd_policy_revision : Z;
  bd_failure_reason_redacted : option string;
  bd_readiness_json : option string;
  bd_created_at : instant;
  bd_ready_at : option instant;
  bd_last_health_at : option instant;
  bd_released_at : option instant;
}.
(** the tables; live_egress_bindings by the unique session_id *)
Record Store := { es_db : Db; es_rows : gmap uuid BindingRow; es_audit : AuditTables }.
Definition set_binding_row (session_id : uuid) (r : BindingRow) (s : Store) : Store :=
  {| es_db := es_db s; es_rows := <[session_id := r]> (es_rows s); es_audit := es_audit s |}.
Definition link_session (session_id : uuid) (binding : option uuid) (r : SessionRow) (s : Store) : Store :=
  {| es_db := set_sessions <[session_id := set_binding binding r]> (es_db s); es_rows := es_rows s; es_audit := es_audit s |}.
Definition set_store_audit (a : AuditTables) (s : Store) : Store :=
  {| es_db := es_db s; es_rows := es_rows s; es_audit := a |}.

(** a fetcher is the loopback port of its worker *)
Record ActiveBinding := {
  ab_binding_id : uuid;
  ab_session_id : uuid;
  ab_control_fencing_token : Z;
  ab_policy_id : string;
  ab_policy_revision : Z;
  ab_gateway_role : string;
  ab_gateway_name : string;
  ab_worker_name : string;
  ab_fetcher : Z;
}.
Record DirectFallback := { df_control_fencing_token : Z; df_policy_id : string; df_policy_revision : Z }.
Definition policy_name (p : EffectiveEgressPolicy) : string := default "" (eff_policy_id p).
Definition fallback_matches (f : DirectFallback) (session : SessionRecord) (p : EffectiveEgressPolicy) : bool :=
  (df_control_fencing_token f =? control_fencing_token session)%Z && String.eqb (df_policy_id f) (policy_name p)
  && (df_policy_revision f =? eff_revision p)%Z.
Definition binding_matches (b : ActiveBinding) (session : SessionRecord) (p : EffectiveEgressPolicy) : bool :=
  (ab_session_id b =? SessionTypes.id session)%N && (ab_control_fencing_token b =? control_fencing_token session)%Z
  && String.eqb (ab_policy_id b) (policy_name p) && (ab_policy_revision b =? eff_revision p)%Z.

(** [LiveEgressService]: the tables, the calls made to the runtime and the memory of the process; [ew_tick] counts
    the accesses to the tables.  [ew_relay] is the memory of the relay, which this service leaves alone. *)
Record EgressWorld := {
  ew_tick : nat;
  ew_store : Store;
  ew_calls : list RuntimeCall;
  ew_bindings : gmap uuid ActiveBinding;
  ew_fallbacks : gmap uuid DirectFallback;
  ew_relay : gmap uuid RelaySession;
}.
Definition set_memory (b : gmap uuid ActiveBinding -> gmap uuid ActiveBinding)
    (f : gmap uuid DirectFallback -> gmap uuid DirectFallback) (w : EgressWorld) : EgressWorld :=
  {| ew_tick := ew_tick w; ew_store := ew_store w; ew_calls := ew_calls w; ew_bindings := b (ew_bindings w);
     ew_fallbacks := f (ew_fallbacks w); ew_relay := ew_relay w |}.

Inductive LiveEgressOutcome := OutServerDefault | OutProtected | OutDirectFallback.

(** the CHECKs of live_egress_bindings *)
Definition binding_check (r : BindingRow) : bool :=
  length_between 1 128 (sql_trim (bd_policy_id r))
  && existsb (String.eqb (bd_mode r)) ["warp"; "wireguard"; "openvpn"]
  && length_between 1 128 (sql_trim (bd_gateway_container_name r))
  && length_between 1 128 (sql_trim (bd_worker_container_name r))
  && existsb (String.eqb (bd_state r)) ["provisioning"; "ready"; "releasing"; "released"; "failed"]
  && (0 <? bd_control_fencing_token r)%Z && (0 <? bd_policy_revision r)%Z
  && is_none_or (length_between 0 4096) (bd_failure_reason_redacted r)
  && is_none_or (length_between 0 16384) (bd_readiness_json r)
  && (negb (String.eqb (bd_state r) "ready") || is_some_b (bd_ready_at r))
  && (negb (existsb (String.eqb (bd_state r)) ["released"; "failed"]) || is_some_b (bd_released_at r)).
Definition write_binding (session_id : uuid) (r : BindingRow) (s : Store) : result LiveEgressError Store :=
  _ ← reject_if (negb (binding_check r)) EgressDatabase;
  Ok (set_binding_row session_id r s).
Definition with_state (state : string) (released_at : option instant) (r : BindingRow) : BindingRow :=
  {| bd_id := bd_id r; bd_policy_id := bd_policy_id r; bd_mode := bd_mode r;
     bd_gateway_instance_id := bd_gateway_instance_id r; bd_worker_instance_id := bd_worker_instance_id r;
     bd_gateway_container_name := bd_gateway_container_name r; bd_worker_container_name := bd_worker_container_name r;
     bd_state := state; bd_control_fencing_token := bd_control_fencing_token r; bd_policy_revision := bd_policy_revision r;
     bd_failure_reason_redacted := bd_failure_reason_redacted r; bd_readiness_json := bd_readiness_json r;
     bd_created_at := bd_created_at r;
     bd_ready_at := bd_ready_at r; bd_last_health_at := bd_last_health_at r; bd_released_at := released_at |}.
Definition with_failure (reason : string) (r : BindingRow) : BindingRow :=
  {| bd_id := bd_id r; bd_policy_id := bd_policy_id r; bd_mode := bd_mode r;
     bd_gateway_instance_id := bd_gateway_instance_id r; bd_worker_instance_id := bd_worker_instance_id r;
     bd_gateway_container_name := bd_gateway_container_name r; bd_worker_container_name := bd_worker_container_name r;
     bd_state := bd_state r; bd_control_fencing_token := bd_control_fencing_token r; bd_policy_revision := bd_policy_revision r;
     bd_failure_reason_redacted := Some reason; bd_readiness_json := bd_readiness_json r;
     bd_created_at := bd_created_at r;
     bd_ready_at := bd_ready_at r; bd_last_health_at := bd_last_health_at r; bd_released_at := bd_released_at r |}.

(** ** Transactions *)
Section transactions.
Context `{UuidText} `{UuidSimple} `{CryptoPrims} `{JsonText} `{AuditOps}.

Definition provisioning_row (id : uuid) (created_at : instant) (session : SessionRecord) (policy_id : string) (revision : Z)
    (kind : LiveEgressProfileKind) : BindingRow :=
  {| bd_id := id; bd_policy_id := policy_id; bd_mode := profile_kind kind; bd_gateway_instance_id := None;
     bd_worker_instance_id := None;
     bd_gateway_container_name := worker_name (SessionTypes.id session) +:+ "-vpn";
     bd_worker_container_name := worker_name (SessionTypes.id session); bd_state := "provisioning";
     bd_control_fencing_token := control_fencing_token session; bd_policy_revision := revision;
     bd_failure_reason_redacted := None; bd_readiness_json := None; bd_created_at := created_at; bd_ready_at := None; bd_last_health_at := None;
     bd_released_at := None |}.
(** [fresh], [db_now]: the id and CURRENT_TIMESTAMP of a new row *)
Definition upsert_provisioning_binding (fresh : uuid) (db_now : instant) (session : SessionRecord) (policy : EffectiveEgressPolicy)
    (profile : LiveEgressProfileConfig) (s : Store) : result LiveEgressError (uuid * Store) :=
  let session_id := SessionTypes.id session in
  authoritative ← ok_or (db_sessions (es_db s) !! session_id) StaleFence;
  _ ← reject_if (negb (row_control_fencing_token authoritative =? control_fencing_token session)%Z
                 || terminal_name (row_state authoritative)) StaleFence;
  let existing := es_rows s !! session_id in
  _ ← reject_if (is_some_and (fun r => control_fencing_token session <? bd_control_fencing_token r)%Z existing) StaleFence;
  policy_id ← ok_or (eff_policy_id policy) EgressDatabase;
  '(binding_id, created_at) ← match existing with
               | Some r => Ok (bd_id r, bd_created_at r)
               | None =>
                   _ ← reject_if (existsb (fun kv : uuid * BindingRow => (bd_id kv.2 =? fresh)%N) (map_to_list (es_rows s)))
                         EgressDatabase;
                   Ok (fresh, db_now)
               end;
  s ← write_binding session_id (provisioning_row binding_id created_at session policy_id (eff_revision policy) (pc_kind profile)) s;
  Ok (binding_id, link_session session_id (Some binding_id) authoritative s).

Definition mark_ready (binding_id : uuid) (session : SessionRecord) (gateway worker : ContainerHandle) (readiness_json : string)
    (now : instant) (s : Store) : result LiveEgressError (unit * Store) :=
  let session_id := SessionTypes.id session in
  match es_rows s !! session_id with
  | Some r =>
      if (bd_id r =? binding_id)%N && String.eqb (bd_state r) "provisioning"
         && (bd_control_fencing_token r =? control_fencing_token session)%Z
      then
        s ← write_binding session_id
          {| bd_id := bd_id r; bd_policy_id := bd_policy_id r; bd_mode := bd_mode r;
             bd_gateway_instance_id := Some (ch_id gateway); bd_worker_instance_id := Some (ch_id worker);
             bd_gateway_container_name := bd_gateway_container_name r;
             bd_worker_container_name := bd_worker_container_name r; bd_state := "ready";
             bd_control_fencing_token := bd_control_fencing_token r; bd_policy_revision := bd_policy_revision r;
             bd_failure_reason_redacted := bd_failure_reason_redacted r; bd_readiness_json := Some readiness_json;
             bd_created_at := bd_created_at r;
             bd_ready_at := Some now; bd_last_health_at := Some now; bd_released_at := bd_released_at r |} s;
        Ok ((), s)
      else Err StaleFence
  | None => Err StaleFence
  end.

(** what a failed binding leaves in the audit chain when the session goes out directly *)
Definition fallback_before (policy : EffectiveEgressPolicy) : json :=
  JObject [("mode", JString "protected"); ("policyRevision", JNumber (pretty (eff_revision policy)));
           ("state", JString "provisioning")].
Definition fallback_after (policy : EffectiveEgressPolicy) (reason : string) : json :=
  JObject [("fallbackReason", JString reason); ("mode", JString "server_default");
           ("policyRevision", JNumber (pretty (eff_revision policy))); ("state", JString "direct_fallback")].
Definition falls_back (policy : EffectiveEgressPolicy) : bool :=
  bool_decide (eff_mode policy = PreferProtected) && eff_allow_fallback policy.
Definition mark_binding_failed (key : LiveAuditKey) (audit_id binding_id : uuid) (session : SessionRecord)
    (policy : EffectiveEgressPolicy) (actor : ActorSnapshot) (reason : string) (now : instant) (s : Store)
    : result EgressPolicyRepositoryError (unit * Store) :=
  let session_id := SessionTypes.id session in
  _ ← map_err (fun _ => EpInvalid) (validate_effective_policy policy);
  _ ← reject_if ((binding_id =? 0)%N || (control_fencing_token session <? 1)%Z || str_empty reason
                 || (128 <? slen reason)%Z || any_control reason) EpInvalid;
  r ← ok_or (es_rows s !! session_id) EpRevisionChanged;
  _ ← reject_if (negb ((bd_id r =? binding_id)%N && String.eqb (bd_state r) "provisioning"
                       && (bd_control_fencing_token r =? control_fencing_token session)%Z
                       && (bd_policy_revision r =? eff_revision policy)%Z)) EpRevisionChanged;
  s ← map_err (fun _ => EpDatabase) (write_binding session_id (with_failure reason (with_state "failed" (Some now) r)) s);
  row ← ok_or (db_sessions (es_db s) !! session_id) EpRevisionChanged;
  _ ← reject_if (negb (bool_decide (row_egress_binding_id row = Some binding_id)
                       && (row_control_fencing_token row =? control_fencing_token session)%Z && live_row row)) EpRevisionChanged;
  let s := link_session session_id None row s in
  if falls_back policy then
    '(_, audit) ← map_err EpAudit (append key audit_id (home_id (owner session)) EgressDirectFallback "live_playback_session"
        (uuid_to_string session_id) actor (Some (fallback_before policy)) (Some (fallback_after policy reason)) None now
        (es_audit s));
    Ok ((), set_store_audit audit s)
  else Ok ((), s).

(** the UPDATE before and the transaction after the cleanup of [release_locked] *)
Definition mark_releasing (session_id binding_id : uuid) (fence : Z) (s : Store) : result LiveEgressError (unit * Store) :=
  match es_rows s !! session_id with
  | Some r =>
      if (bd_id r =? binding_id)%N && negb (existsb (String.eqb (bd_state r)) ["released"; "failed"])
         && (bd_control_fencing_token r <=? fence)%Z
      then s ← write_binding session_id (with_state "releasing" (bd_released_at r) r) s; Ok ((), s)
      else Ok ((), s)
  | None => Ok ((), s)
  end.
Definition finish_release (session_id binding_id : uuid) (fence : Z) (now : instant) (s : Store)
    : result LiveEgressError (unit * Store) :=
  s ← match es_rows s !! session_id with
      | Some r =>
          if (bd_id r =? binding_id)%N && (bd_control_fencing_token r <=? fence)%Z && negb (String.eqb (bd_state r) "failed")
          then write_binding session_id (with_state "released" (Some now) r) s
          else Ok s
      | None => Ok s
      end;
  match db_sessions (es_db s) !! session_id with
  | Some row => if bool_decide (row_egress_binding_id row = Some binding_id)
                then Ok ((), link_session session_id None row s) else Ok ((), s)
  | None => Ok ((), s)
  end.
End transactions.

(** ** The service *)
(** serde_json on the readiness report *)
Class ReadinessText := { readiness_to_string : ReadinessControlResponse -> string }.
Definition egress_error_label (e : LiveEgressError) : string :=
  match e with
  | InvalidPolicy => "invalid_policy"
  | EgressProfileUnavailable => "profile_unavailable"
  | CapacityExhausted => "capacity_exhausted"
  | StaleFence => "stale_fence"
  | EgressDatabase => "database"
  | PolicyRepository _ => "policy_repository"
  | EgressRuntime => "runtime"
  | WorkerIncompatible => "worker_incompatible"
  | Readiness => "readiness"
  | Cleanup => "cleanup"
  end.
Notation egress := (proc EgressWorld LiveEgressError).

Section service.
Context `{UuidText} `{UuidSimple} `{CryptoPrims} `{JsonText} `{AuditOps} `{RuntimeManager} `{ReadinessText}.
Variable cfg : LiveEgressConfig.
Variable max_concurrent startup_timeout control_port : Z.    (* the same configuration *)
Variable audit_key : LiveAuditKey.
Variable others : nat -> Store -> Store.                     (* what others do to the tables before the n-th access *)
Variable wall_clock db_clock : nat -> instant.               (* [Utc::now] and CURRENT_TIMESTAMP after n accesses *)
Variable fresh_id : nat -> uuid.                             (* the uuids drawn by the n-th access *)
(** the file system and the vault of secrets after n accesses: the roles of the files [prepare_profile_material]
    reads, whether the control secret is valid and was written, whether a staged file was, and whether the
    directory of the secrets is gone *)
Variable material : nat -> LiveEgressProfileConfig -> result LiveEgressError (list string).
Variable secret_written : nat -> uuid -> result LiveEgressError unit.
Variable file_written : nat -> uuid -> string -> result LiveEgressError unit.
Variable secrets_removed : nat -> uuid -> bool.
(** [compile_topology]: the specifications of the gateway and of the worker *)
Variable topology : SessionRecord -> uuid -> LiveEgressProfileConfig -> result LiveEgressError (option ContainerSpec * ContainerSpec).

(** one statement or transaction, rolled back when it fails *)
Definition same (e : LiveEgressError) : LiveEgressError := e.
Definition access {E A} (f : E -> LiveEgressError) (m : nat -> Store -> result E (A * Store)) : egress A := fun w =>
  let s := others (ew_tick w) (ew_store w) in
  let '(r, s) := match m (ew_tick w) s with Ok (a, s') => (Ok a, s') | Err e => (Err (f e), s) end in
  (r, {| ew_tick := S (ew_tick w); ew_store := s; ew_calls := ew_calls w; ew_bindings := ew_bindings w;
         ew_fallbacks := ew_fallbacks w; ew_relay := ew_relay w |}).
Definition runtime {A} (m : docker A) : egress A := fun w =>
  let '(r, h) := m (ew_calls w) in
  (r, {| ew_tick := ew_tick w; ew_store := ew_store w; ew_calls := h; ew_bindings := ew_bindings w;
         ew_fallbacks := ew_fallbacks w; ew_relay := ew_relay w |}).
Definition remove_secret_dir (binding_id : uuid) : egress unit :=
  n ← view ew_tick; lift (reject_if (negb (secrets_removed n binding_id)) Cleanup).

Definition release_locked (session_id : uuid) (fence : Z) : egress unit :=
  _ ← lift (reject_if (fence <? 1)%Z StaleFence);
  binding ← view (fun w => ew_bindings w !! session_id);
  _ ← lift (reject_if (is_some_and (fun b => fence <? ab_control_fencing_token b)%Z binding) StaleFence);
  fallback ← view (fun w => ew_fallbacks w !! session_id);
  _ ← lift (reject_if (is_some_and (fun f => fence <? df_control_fencing_token f)%Z fallback) StaleFence);
  row ← access same (fun _ s => Ok (es_rows s !! session_id, s));
  match row with
  | None =>
      binding ← view (fun w => ew_bindings w !! session_id);
      _ ← match binding with
          | Some b =>
              _ ← runtime (cleanup_runtime session_id (uuid_to_string (ab_binding_id b)) (ab_control_fencing_token b)
                             (ab_policy_id b) (ab_worker_name b) (ab_gateway_name b) (ab_gateway_role b));
              remove_secret_dir (ab_binding_id b)
          | None => mret ()
          end;
      change (set_memory (delete session_id) (delete session_id))
  | Some row =>
      _ ← lift (reject_if (fence <? bd_control_fencing_token row)%Z StaleFence);
      role ← lift (ok_or (gateway_role_from_mode (bd_mode row)) Cleanup);
      _ ← access same (fun _ => mark_releasing session_id (bd_id row) fence);
      cleanup ← attempt (runtime (cleanup_runtime session_id (uuid_to_string (bd_id row)) (bd_control_fencing_token row)
                                    (bd_policy_id row) (bd_worker_container_name row) (bd_gateway_container_name row) role));
      _ ← lift (reject_if (negb (is_ok cleanup)) Cleanup);
      _ ← remove_secret_dir (bd_id row);
      _ ← access same (fun n => finish_release session_id (bd_id row) fence (wall_clock n));
      change (set_memory (delete session_id) (delete session_id))
  end.

Fixpoint create_volumes (session : SessionRecord) (binding_id : uuid) (policy_id : string) (roles : list string) : egress unit :=
  match roles with
  | [] => mret ()
  | role :: rest =>
      n ← view ew_tick;
      _ ← lift (file_written n binding_id role);
      _ ← runtime (perform (CCreateVolume (material_volume_name binding_id role)
             (private_volume_labels (SessionTypes.id session) binding_id (control_fencing_token session) policy_id role)) EgressRuntime);
      create_volumes session binding_id policy_id rest
  end.
(** the async block of [provision_locked] *)
Definition provision (session : SessionRecord) (policy : EffectiveEgressPolicy) (policy_id : string)
    (profile : LiveEgressProfileConfig) (binding_id : uuid) : egress ActiveBinding :=
  let session_id := SessionTypes.id session in
  _ ← runtime require_compatible_worker_image;
  n ← view ew_tick;
  gateway_material ← lift (material n profile);
  _ ← (if bool_decide (pc_kind profile = Warp)
       then name ← lift (ok_or (pc_state_volume_name profile) InvalidPolicy);
            runtime (perform (CEnsureDirectoryVolume name) EgressRuntime)
       else mret ());
  used ← view (fun w => size (ew_bindings w));
  _ ← lift (reject_if (max_concurrent <=? Z.of_nat used)%Z CapacityExhausted);
  _ ← lift (secret_written n binding_id);
  _ ← runtime (perform (CCreateVolume (control_volume_name binding_id)
         (private_volume_labels session_id binding_id (control_fencing_token session) policy_id "control_secret")) EgressRuntime);
  _ ← create_volumes session binding_id policy_id gateway_material;
  _ ← remove_secret_dir binding_id;
  '(gateway_spec, worker_spec) ← lift (topology session binding_id profile);
  '(gateway, worker, fetcher, readiness) ←
    runtime (start_and_verify startup_timeout control_port session binding_id profile gateway_spec worker_spec);
  _ ← access same (fun n => mark_ready binding_id session gateway worker (readiness_to_string readiness) (wall_clock n));
  mret {| ab_binding_id := binding_id; ab_session_id := session_id; ab_control_fencing_token := control_fencing_token session;
          ab_policy_id := policy_id; ab_policy_revision := eff_revision policy; ab_gateway_role := gateway_role (pc_kind profile);
          ab_gateway_name := ch_name gateway; ab_worker_name := ch_name worker; ab_fetcher := fetcher |}.
Definition provision_locked (session : SessionRecord) (policy : EffectiveEgressPolicy) (actor : ActorSnapshot)
    : egress (option ActiveBinding) :=
  let session_id := SessionTypes.id session in
  policy_id ← lift (ok_or (eff_policy_id policy) InvalidPolicy);
  profile ← lift (ok_or (egress_profile cfg policy_id) EgressProfileUnavailable);
  binding_id ← access same (fun n => upsert_provisioning_binding (fresh_id n) (db_clock n) session policy profile);
  result ← attempt (provision session policy policy_id profile binding_id);
  match result with
  | Ok binding => mret (Some binding)
  | Err error =>
      let worker := worker_name session_id in
      runtime_cleanup ← attempt (runtime (cleanup_runtime session_id (uuid_to_string binding_id) (control_fencing_token session)
                                            policy_id worker (worker +:+ "-vpn") (gateway_role (pc_kind profile))));
      secret_cleanup ← attempt (remove_secret_dir binding_id);
      _ ← lift (reject_if (negb (is_ok runtime_cleanup) || negb (is_ok secret_cleanup)) Cleanup);
      _ ← access PolicyRepository (fun n => mark_binding_failed audit_key (fresh_id n) binding_id session policy actor
             (egress_error_label error) (wall_clock n));
      if falls_back policy then mret None else stop error
  end.

(** *** [ensure_session_inner] *)
(** what it returns at once, before it takes the lock *)
Definition permitted_fallback (session : SessionRecord) (policy : EffectiveEgressPolicy) (w : EgressWorld) : bool :=
  is_some_and (fun f => fallback_matches f session policy) (ew_fallbacks w !! SessionTypes.id session) && falls_back policy.
Definition ensure_at_once (session : SessionRecord) (policy : EffectiveEgressPolicy) (w : EgressWorld)
    : option (result LiveEgressError (option Z)) :=
  match ew_bindings w !! SessionTypes.id session with
  | Some existing =>
      if binding_matches existing session policy then Some (Ok (Some (ab_fetcher existing)))
      else if (control_fencing_token session <=? ab_control_fencing_token existing)%Z then Some (Err StaleFence)
      else if permitted_fallback session policy w then Some (Ok None) else None
  | None => if permitted_fallback session policy w then Some (Ok None) else None
  end.
Definition ensure_locked (session : SessionRecord) (policy : EffectiveEgressPolicy) (actor : ActorSnapshot) : egress (option Z) :=
  let session_id := SessionTypes.id session in
  existing ← view (fun w => ew_bindings w !! session_id);
  match existing ≫= fun b => if binding_matches b session policy then Some (ab_fetcher b) else None with
  | Some fetcher => mret (Some fetcher)
  | None =>
      permitted ← view (permitted_fallback session policy);
      if permitted : bool then mret None else
      _ ← release_locked session_id (control_fencing_token session);
      binding ← provision_locked session policy actor;
      match binding with
      | Some b =>
          _ ← change (set_memory <[session_id := b]> (fun f => f));
          mret (Some (ab_fetcher b))
      | None =>
          _ ← change (set_memory (fun b => b)
            <[session_id := {| df_control_fencing_token := control_fencing_token session; df_policy_id := policy_name policy;
                               df_policy_revision := eff_revision policy |}]>);
          mret None
      end
  end.
(** [waiting]: what happened to the service while the task waited for the lock *)
Definition ensure_session_inner (waiting : EgressWorld -> EgressWorld) (session : SessionRecord)
    (policy : EffectiveEgressPolicy) (actor : ActorSnapshot) : egress (option Z) :=
  _ ← lift (map_err (fun _ => InvalidPolicy) (validate_effective_policy policy));
  if negb (protected policy) then mret None else
  _ ← lift (reject_if ((control_fencing_token session <? 1)%Z || SessionState.is_terminal (state session)) StaleFence);
  at_once ← view (ensure_at_once session policy);
  match at_once with
  | Some r => lift r
  | None => _ ← change waiting; ensure_locked session policy actor
  end.

(** *** What the rest of the server asks *)
Definition fetcher_for (session : SessionRecord) (policy : EffectiveEgressPolicy) (w : EgressWorld)
    : result LiveEgressError (option Z) :=
  if negb (protected policy) then Ok None else
  match ew_bindings w !! SessionTypes.id session with
  | None => if permitted_fallback session policy w then Ok None else Err Readiness
  | Some b => if binding_matches b session policy then Ok (Some (ab_fetcher b)) else Err StaleFence
  end.
Definition outcome_for (session : SessionRecord) (policy : EffectiveEgressPolicy) (w : EgressWorld)
    : result LiveEgressError LiveEgressOutcome :=
  _ ← map_err (fun _ => InvalidPolicy) (validate_effective_policy policy);
  if negb (protected policy) then Ok OutServerDefault
  else if is_some_and (fun b => binding_matches b session policy) (ew_bindings w !! SessionTypes.id session) then Ok OutProtected
  else if permitted_fallback session policy w then Ok OutDirectFallback
  else Err Readiness.

(** [end_session]: [release_locked] under the lock *)
Definition end_session (session_id : uuid) (fence : Z) : egress unit := release_locked session_id fence.
(** *** Releasing many *)
Definition known_sessions (w : EgressWorld) : list uuid :=
  (map_to_list (ew_bindings w)).*1 ++ (map_to_list (ew_fallbacks w)).*1.
Fixpoint cancel_each (fence : Z) (ids : list uuid) : egress unit :=
  match ids with
  | [] => mret ()
  | i :: rest => _ ← attempt (end_session i fence); cancel_each fence rest
  end.
Definition cancel_all (fence : Z) : egress unit := ids ← view known_sessions; cancel_each fence ids.
Definition stale_session (session_id : uuid) (fence : Z) (s : Store) : bool :=
  match db_sessions (es_db s) !! session_id with
  | Some r => terminal_name (row_state r) || negb (row_control_fencing_token r =? fence)%Z
  | None => true
  end.
Fixpoint reap_each (fence : Z) (ids : list uuid) : egress unit :=
  match ids with
  | [] => mret ()
  | i :: rest =>
      stale ← access same (fun _ s => Ok (stale_session i fence s, s));
      _ ← (if stale : bool then end_session i fence else mret ());
      reap_each fence rest
  end.
Definition reap_stale (fence : Z) : egress unit := ids ← view known_sessions; reap_each fence ids.
(** ORDER BY created_at, id *)
Definition created_le (p q : uuid * BindingRow) : Prop :=
  (bd_created_at p.2 < bd_created_at q.2)%Z \/ bd_created_at p.2 = bd_created_at q.2 /\ (bd_id p.2 <= bd_id q.2)%N.
#[local] Instance created_le_dec : RelDecision created_le.
Proof. intros p q. unfold created_le. apply _. Defined.
Definition unreleased (fence : Z) (s : Store) : list uuid :=
  (merge_sort created_le (filter (fun kv => existsb (String.eqb (bd_state kv.2)) ["provisioning"; "ready"; "releasing"] = true
                            /\ (bd_control_fencing_token kv.2 <= fence)%Z) (map_to_list (es_rows s)))).*1.
Fixpoint release_each (fence released : Z) (ids : list uuid) : egress Z :=
  match ids with
  | [] => mret released
  | i :: rest => _ ← release_locked i fence; release_each fence (u64_saturating_add released 1) rest
  end.
Definition reconcile_startup (fence : Z) : egress Z :=
  _ ← lift (reject_if (fence <? 1)%Z StaleFence);
  ids ← access same (fun _ s => Ok (unreleased fence s, s));
  release_each fence 0 ids.
End service.
