(* ===== verification/EgressSafety.v ===== *)
(** * What the egress service guarantees

    The memory of the service and its rows agree about how a protected session leaves the server: through the
    worker that was verified for it, or directly if its policy permits that and the fallback is on record.  What
    the service writes to a session is a step of the session's evolution. *)
From S2P Require Import Prelude Bytes LiveContract Addresses EgressPolicy SessionTypes Crypto Vault CanonicalJson.
From S2P Require Import SessionStore SessionRepo SessionFacts SessionEvolution AdminAudit EgressAssignments Process EgressWorkers EgressBindings.

Definition memory (w : EgressWorld) : gmap uuid ActiveBinding * gmap uuid DirectFallback := (ew_bindings w, ew_fallbacks w).
Definition without (i : uuid) (m : gmap uuid ActiveBinding * gmap uuid DirectFallback) := (delete i m.1, delete i m.2).

Section memory.
Context `{UuidText} `{UuidSimple} `{CryptoPrims} `{JsonText} `{AuditOps} `{RuntimeManager} `{ReadinessText}.
Variable cfg : LiveEgressConfig.
Variable max_concurrent startup_timeout control_port : Z.
Variable audit_key : LiveAuditKey.
Variable others : nat -> Store -> Store.
Variable wall_clock db_clock : nat -> instant.
Variable fresh_id : nat -> uuid.
Variable material : nat -> LiveEgressProfileConfig -> result LiveEgressError (list string).
Variable secret_written : nat -> uuid -> result LiveEgressError unit.
Variable file_written : nat -> uuid -> string -> result LiveEgressError unit.
Variable secrets_removed : nat -> uuid -> bool.
Variable topology : SessionRecord -> uuid -> LiveEgressProfileConfig -> result LiveEgressError (option ContainerSpec * ContainerSpec).
Notation release_locked := (release_locked others wall_clock secrets_removed).
Notation provision := (provision max_concurrent startup_timeout control_port others wall_clock material secret_written
  file_written secrets_removed topology).
Notation provision_locked := (provision_locked cfg max_concurrent startup_timeout control_port audit_key others wall_clock
  db_clock fresh_id material secret_written file_written secrets_removed topology).
Notation ensure_locked := (ensure_locked cfg max_concurrent startup_timeout control_port audit_key others wall_clock
  db_clock fresh_id material secret_written file_written secrets_removed topology).
Notation ensure_session_inner := (ensure_session_inner cfg max_concurrent startup_timeout control_port audit_key others wall_clock
  db_clock fresh_id material secret_written file_written secrets_removed topology).

(** everything but the last step of an operation leaves the memory alone *)
Lemma keeps_access {E A} m (f : E -> LiveEgressError) (g : nat -> Store -> result E (A * Store)) :
  keeps (fun w => memory w = m) (access others f g).
Proof. intros w Hw. unfold access. by destruct (g _ _) as [[a s]|e]. Qed.
Lemma keeps_runtime {A} m (d : docker A) : keeps (fun w => memory w = m) (runtime d).
Proof. intros w Hw. unfold runtime. by destruct (d _). Qed.
Lemma keeps_remove_secret_dir m b : keeps (fun w => memory w = m) (remove_secret_dir secrets_removed b).
Proof. by intros w Hw. Qed.
Hint Resolve keeps_access keeps_runtime keeps_remove_secret_dir : keeps.
Ltac keep_step := apply proc_keeps_bind; [solve [auto with keeps]|intros ?].
Lemma keeps_create_volumes m session b p roles :
  keeps (fun w => memory w = m) (create_volumes file_written session b p roles).
Proof.
  induction roles as [|role roles IH]; cbn; [apply proc_keeps_ret|].
  repeat keep_step. done.
Qed.
Hint Resolve keeps_create_volumes : keeps.
Lemma keeps_provision m session policy p profile b :
  keeps (fun w => memory w = m) (provision session policy p profile b).
Proof.
  unfold EgressBindings.provision. repeat keep_step.
  apply proc_keeps_bind; [destruct (bool_decide _); auto with keeps|intros ?].
  repeat keep_step.
  match goal with |- context [let '(_, _) := ?x in _] => destruct x end.
  apply proc_keeps_bind; [auto with keeps|intros [[[? ?] ?] ?]]. apply proc_keeps_bind; auto with keeps.
Qed.
Hint Resolve keeps_provision : keeps.
Lemma keeps_provision_locked m session policy actor :
  keeps (fun w => memory w = m) (provision_locked session policy actor).
Proof.
  unfold EgressBindings.provision_locked. repeat keep_step.
  case_match; [auto with keeps|]. repeat keep_step.
  case_match; auto with keeps.
Qed.
Lemma release_memory i fence w r w' :
  release_locked i fence w = (r, w') ->
  r = Ok () /\ memory w' = without i (memory w) \/ (exists e, r = Err e) /\ memory w' = memory w.
Proof.
  assert (forall A (m : egress A) (f : A -> egress unit), keeps (fun x => memory x = memory w) m ->
    (forall a x r x', memory x = memory w -> f a x = (r, x') ->
       r = Ok () /\ memory x' = without i (memory w) \/ (exists e, r = Err e) /\ memory x' = memory w) ->
    forall x r x', memory x = memory w -> (m ≫= f) x = (r, x') ->
      r = Ok () /\ memory x' = without i (memory w) \/ (exists e, r = Err e) /\ memory x' = memory w) as Hbind.
  { intros A m f Hk Hf x r1 x' Hx Hr. specialize (Hk x Hx). apply proc_bind_inv in Hr as [(a & x1 & Hm & Hr)|(e & Hm & ->)];
      rewrite Hm in Hk; cbn in Hk; [eapply Hf; [exact Hk|exact Hr]|right; split; [by exists e|done]]. }
  assert (forall x r x', memory x = memory w -> change (set_memory (delete i) (delete i)) x = (r, x') ->
    r = Ok () /\ memory x' = without i (memory w) \/ (exists e : LiveEgressError, r = Err e) /\ memory x' = memory w) as Hend.
  { intros x r1 x' Hx [= <- <-]. left. split; [done|]. by rewrite <- Hx. }
  intros Hr. unfold EgressBindings.release_locked in Hr. revert r w' Hr. generalize (eq_refl (memory w)).
  generalize w at 1 3 as x. intros x Hx r w'. revert x r w' Hx.
  repeat (apply Hbind; [solve [auto with keeps]|intros ?]).
  intros x r w' Hx. case_match.
  - revert x r w' Hx. repeat (apply Hbind; [solve [auto with keeps]|intros ?]). done.
  - revert x r w' Hx. apply Hbind; [auto with keeps|intros ?].
    apply Hbind; [case_match; [apply proc_keeps_bind|]; auto with keeps|intros ?]. done.
Qed.

Lemma keep_memory {A} (m : egress A) k r k' m0 : m k = (r, k') -> keeps (fun w => memory w = m0) m -> memory k = m0 -> memory k' = m0.
Proof. intros Hm Hk Hs. specialize (Hk k Hs). by rewrite Hm in Hk. Qed.

(** *** A provisioned binding *)
Definition made_for (session : SessionRecord) (policy : EffectiveEgressPolicy) (b : ActiveBinding) : Prop :=
  ab_session_id b = SessionTypes.id session /\ ab_control_fencing_token b = control_fencing_token session /\
  Some (ab_policy_id b) = eff_policy_id policy /\ ab_policy_revision b = eff_revision policy.
(** the row of the session is ready and the worker behind the fetcher was verified *)
Definition proven (session : SessionRecord) (b : ActiveBinding) (w : EgressWorld) : Prop :=
  (exists r, es_rows (ew_store w) !! SessionTypes.id session = Some r /\ bd_id r = ab_binding_id b /\ bd_state r = "ready" /\
     bd_control_fencing_token r = control_fencing_token session) /\
  exists profile spec gateway worker readiness h0, egress_profile cfg (ab_policy_id b) = Some profile /\
    verified_worker control_port session (ab_binding_id b) profile spec gateway worker (ab_fetcher b) readiness h0 (ew_calls w).

Lemma access_ok {E A} (f : E -> LiveEgressError) (g : nat -> Store -> result E (A * Store)) w a w' :
  access others f g w = (Ok a, w') ->
  g (ew_tick w) (others (ew_tick w) (ew_store w)) = Ok (a, ew_store w') /\ ew_calls w' = ew_calls w /\ memory w' = memory w.
Proof. unfold access. destruct (g _ _) as [[a' s]|e]; [|done]. intros [= -> <-]. done. Qed.
Lemma runtime_ok {A} (d : docker A) w a w' :
  runtime d w = (Ok a, w') -> d (ew_calls w) = (Ok a, ew_calls w') /\ memory w' = memory w /\ ew_store w' = ew_store w.
Proof. unfold runtime. destruct (d _) as [r h]. by intros [= -> <-]. Qed.
Lemma mark_ready_ok binding_id session gateway worker text now s u s' :
  mark_ready binding_id session gateway worker text now s = Ok (u, s') ->
  exists r, es_rows s' !! SessionTypes.id session = Some r /\ bd_id r = binding_id /\ bd_state r = "ready" /\
    bd_control_fencing_token r = control_fencing_token session.
Proof.
  unfold mark_ready, write_binding. intros Hm. case_match; [|done]. destruct (_ && _) eqn:Hc; [|done].
  rewrite !andb_true_iff, N.eqb_eq, Z.eqb_eq in Hc. destruct Hc as [[Hb _] Hf]. ok_inv.
  eexists. cbn. rewrite lookup_insert_eq. done.
Qed.

Lemma provision_ok session policy policy_id profile binding_id w b w' :
  provision session policy policy_id profile binding_id w = (Ok b, w') ->
  eff_policy_id policy = Some policy_id -> egress_profile cfg policy_id = Some profile ->
  (Z.of_nat (size (ew_bindings w)) < max_concurrent)%Z /\ made_for session policy b /\ proven session b w' /\ memory w' = memory w.
Proof.
  intros Hp Hid Hprof.
  assert (memory w' = memory w) as Hmem.
  { pose proof (keeps_provision (memory w) session policy policy_id profile binding_id w eq_refl) as Hk. by rewrite Hp in Hk. }
  unfold EgressBindings.provision in Hp.
  repeat match type of Hp with (_ ≫= _) _ = _ => apply proc_bind_ok in Hp as (?a & ?s & ?Hstep & Hp) end.
  destruct a9 as [gateway_spec worker_spec]. apply proc_bind_ok in Hp as ([[[gateway worker] fetcher] readiness] & s10 & Hstart & Hp).
  apply proc_bind_ok in Hp as (u & s11 & Hready & Hp). injection Hp as <- <-.
  assert (memory s2 = memory w) as Hm2.
  { apply (keep_memory _ _ _ _ _ Hstep2); [destruct (bool_decide _); auto with keeps|].
    apply (keep_memory _ _ _ _ _ Hstep1); [auto with keeps|]. apply (keep_memory _ _ _ _ _ Hstep0); [auto with keeps|].
    apply (keep_memory _ _ _ _ _ Hstep); [auto with keeps|]. done. }
  injection Hstep3 as <- <-. injection Hstep4 as Hcap _. apply reject_if_ok, Z.leb_gt in Hcap. injection Hm2 as Hb2 Hf2.
  rewrite Hb2 in Hcap. split_and!; [done|by split_and!| |done].
  apply access_ok in Hready as (Hready & Hcalls & _). apply runtime_ok in Hstart as (Hstart & _ & _).
  split; [by eapply mark_ready_ok|].
  exists profile, worker_spec, gateway, worker, readiness, (ew_calls s9). split; [done|].
  rewrite Hcalls. by eapply start_and_verify_ok.
Qed.

Lemma attempt_ok {A} (m : egress A) k r k' : attempt m k = (Ok r, k') -> m k = (r, k').
Proof. unfold attempt. destruct (m k). by intros [= -> ->]. Qed.
Lemma provision_locked_some session policy actor w b w' :
  provision_locked session policy actor w = (Ok (Some b), w') ->
  (Z.of_nat (size (ew_bindings w)) < max_concurrent)%Z /\ made_for session policy b /\ proven session b w' /\ memory w' = memory w.
Proof.
  intros Hp. unfold EgressBindings.provision_locked in Hp. do 4 proc_step.
  match goal with Ha : attempt _ _ = _ |- _ => apply attempt_ok in Ha; rename Ha into Hm end.
  match type of Hm with _ = (?r, _) => destruct r as [b'|e] end.
  2:{ repeat proc_step. by destruct (falls_back policy). }
  injection Hp as <- <-. repeat proc_step.
  match goal with Ha : access _ _ _ _ = _ |- _ => apply access_ok in Ha as (_ & _ & Hmem) end.
  eapply provision_ok in Hm as (Hc & Hmade & Hproven & Hm); [|by eapply ok_or_ok..].
  rewrite Hmem in Hm. pose proof (f_equal fst Hmem) as Hb. cbn in Hb. rewrite Hb in Hc. by split_and!.
Qed.

(** what a fallback leaves behind *)
Definition recorded (session : SessionRecord) (policy : EffectiveEgressPolicy) (actor : ActorSnapshot) (w : EgressWorld) : Prop :=
  let session_id := SessionTypes.id session in
  (exists r, es_rows (ew_store w) !! session_id = Some r /\ bd_state r = "failed" /\ is_Some (bd_failure_reason_redacted r) /\
     bd_control_fencing_token r = control_fencing_token session /\ bd_policy_revision r = eff_revision policy) /\
  (exists row, db_sessions (es_db (ew_store w)) !! session_id = Some row /\ row_egress_binding_id row = None) /\
  exists audit_id r, at_events (es_audit (ew_store w)) !! audit_id = Some r /\ ar_home_id r = home_id (owner session) /\
    ar_action r = action_str EgressDirectFallback /\ ar_target_id r = uuid_to_string session_id.
Lemma mark_binding_failed_ok audit_id binding_id session policy actor reason now s u s' :
  mark_binding_failed audit_key audit_id binding_id session policy actor reason now s = Ok (u, s') -> falls_back policy = true ->
  forall w, ew_store w = s' -> recorded session policy actor w.
Proof.
  intros Hm Hf w <-. unfold mark_binding_failed in Hm. ok_inv. rewrite Hf in Hm. ok_inv.
  match goal with Ha : map_err _ (append _ _ _ _ _ _ _ _ _ _ _ _) = Ok _ |- _ =>
    destruct (append _ _ _ _ _ _ _ _ _ _ _ _) as [[ref t]|] eqn:Happ in Ha; cbn in Ha; ok_inv end.
  match goal with Hc : negb (_ && (bd_policy_revision _ =? _)%Z) = false |- _ =>
    rewrite negb_false_iff, !andb_true_iff, !Z.eqb_eq in Hc; destruct Hc as (((_ & _) & Hfence) & Hrev) end.
  match goal with Hw : map_err _ (write_binding _ _ _) = Ok _ |- _ => unfold write_binding in Hw;
    destruct (reject_if _ _) in Hw; cbn in Hw; ok_inv end.
  match goal with Hw : set_store_audit _ _ = ew_store w |- _ => unfold recorded; rewrite <- Hw end. cbn. split_and!.
  - eexists. rewrite lookup_insert_eq. split_and!; [done|done|by eexists|done|done].
  - eexists. rewrite lookup_insert_eq. by split.
  - destruct (append_row {| call_key := audit_key; call_id := audit_id; call_home_id := home_id (owner session);
        call_action := EgressDirectFallback; call_target_type := "live_playback_session";
        call_target_id := uuid_to_string (SessionTypes.id session); call_actor := actor;
        call_before := Some (fallback_before policy); call_after := Some (fallback_after policy reason);
        call_tombstone := None; call_occurred_at := now |} _ _ _ Happ) as (r & Hr & Hh & Ha & Ht).
    by exists audit_id, r.
Qed.
Lemma provision_locked_none session policy actor w w' :
  provision_locked session policy actor w = (Ok None, w') ->
  falls_back policy = true /\ recorded session policy actor w' /\ memory w' = memory w.
Proof.
  intros Hp. pose proof (keep_memory _ _ _ _ _ Hp (keeps_provision_locked _ _ _ _) eq_refl) as Hmem.
  unfold EgressBindings.provision_locked in Hp. do 4 proc_step.
  match goal with Ha : attempt _ _ = _ |- _ => apply attempt_ok in Ha; rename Ha into Hm end.
  match type of Hm with _ = (?r, _) => destruct r as [b'|e] end; [done|].
  do 4 proc_step. destruct (falls_back policy) eqn:Hf; [|done]. injection Hp as <-.
  match goal with Ha : access _ PolicyRepository _ _ = _ |- _ => apply access_ok in Ha as (Ha & _ & _) end.
  split_and!; [done|by eapply mark_binding_failed_ok|done].
Qed.

(** *** The runtime's history only grows *)
Notation grows h := (keeps (fun w => h `suffix_of` ew_calls w)).
Lemma grows_access {E A} h (f : E -> LiveEgressError) (g : nat -> Store -> result E (A * Store)) : grows h (access others f g).
Proof. intros w Hw. unfold access. by destruct (g _ _) as [[a s]|e]. Qed.
Lemma grows_runtime {A} h (d : docker A) : keeps (suffix h) d -> grows h (runtime d).
Proof. intros Hd w Hw. unfold runtime. specialize (Hd _ Hw). by destruct (d _). Qed.
Lemma grows_secret h b : grows h (remove_secret_dir secrets_removed b).
Proof. by intros w Hw. Qed.
Lemma grows_forget h i : grows h (change (E:=LiveEgressError) (set_memory (delete i) (delete i))).
Proof. by intros w Hw. Qed.
Hint Resolve grows_access grows_runtime grows_secret grows_forget keeps_cleanup keeps_start keeps_compatible_image keeps_perform : keeps.
Lemma grows_release h i fence : grows h (release_locked i fence).
Proof.
  unfold EgressBindings.release_locked. repeat keep_step. case_match.
  - repeat keep_step. auto with keeps.
  - keep_step. apply proc_keeps_bind; [case_match; [keep_step|]; auto with keeps|intros ?]. auto with keeps.
Qed.
Lemma grows_volumes h session b p roles : grows h (create_volumes file_written session b p roles).
Proof. induction roles as [|r roles IH]; cbn; [apply proc_keeps_ret|]. repeat keep_step. done. Qed.
Hint Resolve grows_volumes grows_release : keeps.
Lemma grows_provision h session policy p profile b : grows h (provision session policy p profile b).
Proof.
  unfold EgressBindings.provision. repeat keep_step. apply proc_keeps_bind; [case_match; [repeat keep_step|]; auto with keeps|intros ?].
  repeat keep_step. match goal with |- context [let '(_, _) := ?x in _] => destruct x end.
  apply proc_keeps_bind; [auto with keeps|intros [[[? ?] ?] ?]]. keep_step. auto with keeps.
Qed.
Hint Resolve grows_provision : keeps.
Lemma grows_provision_locked h session policy actor : grows h (provision_locked session policy actor).
Proof.
  unfold EgressBindings.provision_locked. repeat keep_step. case_match; [auto with keeps|]. repeat keep_step.
  case_match; auto with keeps.
Qed.

(** ** The invariant of the memory *)
(** the history of the runtime has the verification of the worker behind the fetcher *)
Definition verified_in (b : ActiveBinding) (h : list RuntimeCall) : Prop :=
  exists session profile spec gateway worker readiness h0 h1,
    SessionTypes.id session = ab_session_id b /\ control_fencing_token session = ab_control_fencing_token b /\
    egress_profile cfg (ab_policy_id b) = Some profile /\
    verified_worker control_port session (ab_binding_id b) profile spec gateway worker (ab_fetcher b) readiness h0 h1 /\
    h1 `suffix_of` h.
Record service_inv (w : EgressWorld) : Prop := {
  si_capacity : (Z.of_nat (size (ew_bindings w)) <= max_concurrent)%Z;
  si_disjoint : forall i, ew_bindings w !! i = None \/ ew_fallbacks w !! i = None;
  si_own : forall i b, ew_bindings w !! i = Some b -> ab_session_id b = i;
  si_verified : forall i b, ew_bindings w !! i = Some b -> verified_in b (ew_calls w);
}.
Lemma verified_later b h h' : verified_in b h -> h `suffix_of` h' -> verified_in b h'.
Proof.
  intros (session & profile & spec & gateway & worker & readiness & h0 & h1 & ? & ? & ? & ? & Hs) Hh.
  exists session, profile, spec, gateway, worker, readiness, h0, h1. split_and!; try done. by etrans.
Qed.
Lemma service_inv_memory w w' :
  memory w' = memory w -> ew_calls w `suffix_of` ew_calls w' -> service_inv w -> service_inv w'.
Proof.
  intros [= Hb Hf] Hs [Hc Hd Ho Hv]. split; rewrite ?Hb, ?Hf; auto. intros i b Hi. eapply verified_later; [by eapply Hv|done].
Qed.
Lemma service_inv_without i w w' :
  memory w' = without i (memory w) -> ew_calls w `suffix_of` ew_calls w' -> service_inv w -> service_inv w'.
Proof.
  intros [= Hb Hf] Hs [Hc Hd Ho Hv]. split; rewrite ?Hb, ?Hf; cbn.
  - rewrite map_size_delete. case_match; [destruct (size (ew_bindings w)); cbn in *; lia|done].
  - intros j. rewrite !lookup_delete_None. destruct (Hd j); auto.
  - intros j b. rewrite lookup_delete_Some. intros [_ Hj]. by apply Ho.
  - intros j b. rewrite lookup_delete_Some. intros [_ Hj]. eapply verified_later; [by eapply Hv|done].
Qed.
Lemma release_inv i fence w r w' : service_inv w -> release_locked i fence w = (r, w') -> service_inv w'.
Proof.
  intros Hi Hr. pose proof (grows_release (ew_calls w) i fence w (reflexivity _)) as Hs. rewrite Hr in Hs. cbn in Hs.
  apply release_memory in Hr as [[_ Hm]|[_ Hm]]; [by eapply service_inv_without|by eapply service_inv_memory].
Qed.

Lemma made_for_matches session policy b : made_for session policy b -> binding_matches b session policy = true.
Proof.
  intros (Hs & Hf & Hp & Hr). unfold binding_matches, policy_name. rewrite <- Hp, Hs, Hf, Hr. cbn.
  by rewrite N.eqb_refl, !Z.eqb_refl, String.eqb_refl.
Qed.
Lemma proven_verified session policy b w : made_for session policy b -> proven session b w -> verified_in b (ew_calls w).
Proof.
  intros (Hs & Hf & _) [_ (profile & spec & gateway & worker & readiness & h0 & Hp & Hv)].
  by exists session, profile, spec, gateway, worker, readiness, h0, (ew_calls w).
Qed.
Lemma ensure_locked_spec session policy actor w r w' :
  service_inv w -> ensure_locked session policy actor w = (r, w') ->
  service_inv w' /\
  match r with
  | Ok (Some f) => exists b, ew_bindings w' !! SessionTypes.id session = Some b /\ ab_fetcher b = f /\
      binding_matches b session policy = true
  | Ok None => permitted_fallback session policy w' = true /\ ew_bindings w' !! SessionTypes.id session = None /\
      (permitted_fallback session policy w = true \/ recorded session policy actor w')
  | Err _ => True
  end.
Proof.
  intros Hi He. unfold EgressBindings.ensure_locked in He. apply proc_bind_inv in He as [(o & k & [= <- <-] & He)|(e & [=] & _)].
  destruct (_ ≫= _) as [f|] eqn:Hb.
  { injection He as <- <-. split; [done|]. apply bind_Some in Hb as (b & Hb & Hf). exists b.
    destruct (binding_matches b session policy); [by injection Hf|done]. }
  apply proc_bind_inv in He as [(o & k & [= <- <-] & He)|(e & [=] & _)].
  destruct (permitted_fallback session policy w) eqn:Hperm.
  { injection He as <- <-. split; [done|]. split_and!; [done| |by left].
    destruct (si_disjoint _ Hi (SessionTypes.id session)) as [?|Hf]; [done|].
    unfold permitted_fallback in Hperm. by rewrite Hf in Hperm. }
  apply proc_bind_inv in He as [([] & w1 & Hrel & He)|(e & Hrel & ->)]; [|split; [by eapply release_inv|done]].
  pose proof (release_inv _ _ _ _ _ Hi Hrel) as Hi1. apply release_memory in Hrel as [[_ Hm1]|[[? [=]] _]].
  injection Hm1 as Hb1 Hf1.
  apply proc_bind_inv in He as [(o & w2 & Hpr & He)|(e & Hpr & ->)].
  2:{ split; [|done]. eapply service_inv_memory; [| |exact Hi1].
      - by eapply keep_memory; [exact Hpr|apply keeps_provision_locked|].
      - pose proof (grows_provision_locked (ew_calls w1) session policy actor w1 (reflexivity _)) as Hs. by rewrite Hpr in Hs. }
  pose proof (grows_provision_locked (ew_calls w1) session policy actor w1 (reflexivity _)) as Hs. rewrite Hpr in Hs. cbn in Hs.
  destruct o as [b|].
  - apply provision_locked_some in Hpr as (Hcap & Hmade & Hprov & Hm). injection Hm as Hb2 Hf2. cbn in Hb1, Hf1.
    injection He as <- <-. assert (ew_bindings w1 !! SessionTypes.id session = None) as Hnone by (by rewrite Hb1, lookup_delete_eq).
    split.
    + split; cbn; rewrite ?Hb2, ?Hf2.
      * rewrite map_size_insert_None by done. lia.
      * intros i. rewrite Hb1, Hf1. destruct (decide (i = SessionTypes.id session)) as [->|Hne].
        { right. by rewrite lookup_delete_eq. }
        rewrite lookup_insert_ne by done. rewrite !lookup_delete_ne by done. apply (si_disjoint _ Hi).
      * intros i b' [[<- <-]|[_ Hb']]%lookup_insert_Some; [by destruct Hmade|by apply (si_own _ Hi1)].
      * intros i b' [[<- <-]|[_ Hb']]%lookup_insert_Some; [by eapply proven_verified|].
        eapply verified_later; [by eapply (si_verified _ Hi1)|done].
    + exists b. cbn. rewrite lookup_insert_eq. split_and!; [done|done|by apply made_for_matches].
  - apply provision_locked_none in Hpr as (Hf & Hrec & Hm). injection Hm as Hb2 Hf2. cbn in Hb1, Hf1.
    injection He as <- <-. assert (ew_bindings w1 !! SessionTypes.id session = None) as Hnone by (by rewrite Hb1, lookup_delete_eq).
    split.
    + split; cbn; rewrite ?Hb2, ?Hf2; [apply Hi1| |apply Hi1|].
      * intros i. destruct (decide (i = SessionTypes.id session)) as [->|Hne]; [by left|].
        rewrite lookup_insert_ne by done. apply (si_disjoint _ Hi1).
      * intros i b' Hb'. eapply verified_later; [by eapply (si_verified _ Hi1)|done].
    + split_and!; [|by cbn; rewrite Hb2|by right]. unfold permitted_fallback. cbn. rewrite lookup_insert_eq. cbn.
      unfold fallback_matches. cbn. by rewrite !Z.eqb_refl, String.eqb_refl, Hf.
Qed.

(** *** Operations on many sessions *)
Lemma inv_release i fence : keeps service_inv (release_locked i fence).
Proof. intros w Hi. destruct (release_locked i fence w) as [r w'] eqn:Hr. by eapply release_inv. Qed.
Lemma inv_access {E A} (f : E -> LiveEgressError) (g : nat -> Store -> result E (A * Store)) : keeps service_inv (access others f g).
Proof.
  intros w Hi. eapply service_inv_memory; [by apply keeps_access|by apply (grows_access (ew_calls w))|done].
Qed.
Hint Resolve inv_release inv_access : keeps.
Notation cancel_all := (cancel_all others wall_clock secrets_removed).
Notation reap_stale := (reap_stale others wall_clock secrets_removed).
Notation reconcile_startup := (reconcile_startup others wall_clock secrets_removed).
Lemma inv_cancel fence : keeps service_inv (cancel_all fence).
Proof.
  unfold EgressBindings.cancel_all. keep_step. induction a as [|i ids IH]; cbn; [apply proc_keeps_ret|].
  apply proc_keeps_bind; [apply keeps_attempt, inv_release|intros ?]. done.
Qed.
Lemma inv_reap fence : keeps service_inv (reap_stale fence).
Proof.
  unfold EgressBindings.reap_stale. keep_step. induction a as [|i ids IH]; cbn; [apply proc_keeps_ret|].
  keep_step. apply proc_keeps_bind; [case_match; [apply inv_release|auto with keeps]|intros ?]. done.
Qed.
Lemma inv_reconcile fence : keeps service_inv (reconcile_startup fence).
Proof.
  unfold EgressBindings.reconcile_startup. do 2 keep_step. generalize 0%Z. induction a0 as [|i ids IH]; intros n; cbn; [apply proc_keeps_ret|].
  keep_step. done.
Qed.

(** ** Any number of operations *)
Inductive egress_step (w : EgressWorld) : EgressWorld -> Prop :=
| egress_ensure session policy actor : egress_step w (ensure_locked session policy actor w).2
| egress_end i fence : egress_step w (end_session others wall_clock secrets_removed i fence w).2
| egress_cancel fence : egress_step w (cancel_all fence w).2
| egress_reap fence : egress_step w (reap_stale fence w).2
| egress_reconcile fence : egress_step w (reconcile_startup fence w).2.
Definition starts_empty (w : EgressWorld) : Prop := ew_bindings w = ∅ /\ ew_fallbacks w = ∅.
(** what the service can be after any operations, in any order *)
Definition reachable (w : EgressWorld) : Prop := exists w0, starts_empty w0 /\ rtc egress_step w0 w.
Lemma reachable_inv w : (0 <= max_concurrent)%Z -> reachable w -> service_inv w.
Proof.
  intros Hmax (w0 & [Hb Hf] & Hrun). assert (service_inv w0) as Hi.
  { split; rewrite ?Hb, ?Hf; [by rewrite map_size_empty|intros i; by left|done|done]. }
  clear Hb Hf. revert Hi. induction Hrun as [|w1 w2 w3 Hstep _ IH]; intros Hi; [done|]. apply IH. destruct Hstep.
  - destruct (ensure_locked _ _ _ _) as [r w'] eqn:He. by eapply ensure_locked_spec in Hi as [? _].
  - by apply inv_release.
  - by apply inv_cancel.
  - by apply inv_reap.
  - by apply inv_reconcile.
Qed.
Lemma reachable_later w w' : reachable w -> rtc egress_step w w' -> reachable w'.
Proof. intros (w0 & H0' & Hrun) Hl. exists w0. split; [done|by etrans]. Qed.
Lemma permitted_falls_back session policy w : permitted_fallback session policy w = true -> falls_back policy = true.
Proof. unfold permitted_fallback. by intros [_ ?]%andb_true_iff. Qed.

Lemma ensure_session_ok waiting session policy actor w route w' :
  service_inv w -> service_inv (waiting w) ->
  ensure_session_inner waiting session policy actor w = (Ok route, w') ->
  (protected policy = false /\ route = None) \/
  (protected policy = true /\
   match route with
   | Some fetcher => exists b, ew_bindings w' !! SessionTypes.id session = Some b /\ ab_fetcher b = fetcher /\
       binding_matches b session policy = true /\ verified_in b (ew_calls w')
   | None => falls_back policy = true /\ permitted_fallback session policy w' = true /\
       ew_bindings w' !! SessionTypes.id session = None /\
       (permitted_fallback session policy w = true \/ permitted_fallback session policy (waiting w) = true \/
        recorded session policy actor w')
   end).
Proof.
  intros Hi Hi' He.
  unfold EgressBindings.ensure_session_inner in He. apply proc_bind_ok in He as ([] & k & [= _ <-] & He).
  destruct (protected policy); cbn [negb] in He; [right; split; [done|]|left; by injection He as <- <-].
  apply proc_bind_ok in He as ([] & k & [= _ <-] & He). apply proc_bind_ok in He as (o & k & [= <- <-] & He).
  destruct (ensure_at_once session policy w) as [r|] eqn:Hat.
  - injection He as -> <-. unfold ensure_at_once in Hat. destruct (ew_bindings w !! _) as [b|] eqn:Hb.
    + destruct (binding_matches b session policy) eqn:Hm; [injection Hat as <-; exists b; split_and!; try done; by eapply si_verified|].
      destruct (_ <=? _)%Z in Hat; [done|]. destruct (permitted_fallback session policy w) eqn:Hp; [|done].
      unfold permitted_fallback in Hp. destruct (si_disjoint _ Hi (SessionTypes.id session)) as [Hn|Hn]; [congruence|by rewrite Hn in Hp].
    + destruct (permitted_fallback session policy w) eqn:Hp; [|done]. injection Hat as <-.
      split_and!; [by eapply permitted_falls_back|done|done|by left].
  - apply proc_bind_ok in He as ([] & k & [= <-] & He). destruct (ensure_locked_spec _ _ _ _ _ _ Hi' He) as [Hi2 Hr].
    destruct route as [f|].
    + destruct Hr as (b & Hb & Hf & Hm). exists b. split_and!; [done..|by eapply si_verified].
    + destruct Hr as (Hp & Hn & Hor). split_and!; [by eapply permitted_falls_back|done|done|by right].
Qed.

(** C25: A protected session leaves the server through a worker verified for it, or directly only where its policy
    permits that.  When the service, after any operations on it and whatever ran while the request waited,
    ensures a session, it returns a fetcher only for a protected policy, and then the one of a binding in memory
    for this session, fence, policy and revision, whose worker the runtime had shown to sit in the gateway's
    network and to answer, with its kill switch in order, from an address the profile expects.  It returns no
    fetcher only if the policy asks for no protection or prefers protection and allows the fallback; in the
    second case no binding of the session is in memory and the fallback was permitted before or is now on
    record: the binding marked failed, the session unlinked from it, the fallback in the audit chain. *)
Theorem ensured_route_is_protected waiting session policy actor w route w' :
  (0 <= max_concurrent)%Z -> reachable w -> rtc egress_step w (waiting w) ->
  ensure_session_inner waiting session policy actor w = (Ok route, w') ->
  (protected policy = false /\ route = None) \/
  (protected policy = true /\
   match route with
   | Some fetcher => exists b, ew_bindings w' !! SessionTypes.id session = Some b /\ ab_fetcher b = fetcher /\
       binding_matches b session policy = true /\ verified_in b (ew_calls w')
   | None => falls_back policy = true /\ permitted_fallback session policy w' = true /\
       ew_bindings w' !! SessionTypes.id session = None /\
       (permitted_fallback session policy w = true \/ permitted_fallback session policy (waiting w) = true \/
        recorded session policy actor w')
   end).
Proof.
  intros Hmax Hreach Hwait. apply ensure_session_ok; (apply reachable_inv; [done|]); [done|by eapply reachable_later].
Qed.

(** What the server reports is the route the session takes.  After any operations, for a valid policy:
    "server default" is reported exactly when the policy asks for no protection; "protected" exactly when the
    session's requests are given the fetcher of a verified worker; "direct fallback" exactly when a protected
    session is given none; and when nothing can be reported the requests are refused too. *)
Theorem reported_outcome_is_the_route session policy w :
  (0 <= max_concurrent)%Z -> reachable w -> validate_effective_policy policy = Ok () ->
  match outcome_for session policy w with
  | Ok OutServerDefault => protected policy = false /\ fetcher_for session policy w = Ok None
  | Ok OutProtected => protected policy = true /\ exists b, ew_bindings w !! SessionTypes.id session = Some b /\
      verified_in b (ew_calls w) /\ fetcher_for session policy w = Ok (Some (ab_fetcher b))
  | Ok OutDirectFallback => protected policy = true /\ falls_back policy = true /\ fetcher_for session policy w = Ok None
  | Err _ => exists e, fetcher_for session policy w = Err e
  end.
Proof.
  intros Hmax Hreach Hv. pose proof (reachable_inv w Hmax Hreach) as Hi. unfold outcome_for, fetcher_for. rewrite Hv. cbn.
  destruct (protected policy); cbn [negb]; [|done]. destruct (ew_bindings w !! _) as [b|] eqn:Hb; cbn [is_some_and].
  - destruct (binding_matches b session policy); [split; [done|]; exists b; split_and!; try done; by eapply si_verified|].
    assert (permitted_fallback session policy w = false) as ->; [|by eexists].
    unfold permitted_fallback. destruct (si_disjoint _ Hi (SessionTypes.id session)) as [Hn|Hn]; [congruence|by rewrite Hn].
  - destruct (permitted_fallback session policy w) eqn:Hp; [|by eexists]. split_and!; [done|by eapply permitted_falls_back|done].
Qed.

Lemma finish_release_ok session_id binding_id fence now s u s' :
  finish_release session_id binding_id fence now s = Ok (u, s') ->
  (forall r, es_rows s' !! session_id = Some r -> bd_id r = binding_id -> (bd_control_fencing_token r <= fence)%Z ->
     bd_state r = "released" \/ bd_state r = "failed") /\
  (forall row, db_sessions (es_db s') !! session_id = Some row -> row_egress_binding_id row <> Some binding_id).
Proof.
  unfold finish_release. intros Hf. apply result_bind_ok in Hf as (s1 & Hs1 & Hf).
  assert (es_db s1 = es_db s /\ forall r, es_rows s1 !! session_id = Some r -> bd_id r = binding_id ->
    (bd_control_fencing_token r <= fence)%Z -> bd_state r = "released" \/ bd_state r = "failed") as [Hdb Hr].
  { destruct (es_rows s !! session_id) as [r|] eqn:Hrow; [|by injection Hs1 as <-; split; [|intros r; rewrite Hrow]].
    destruct (_ && _) eqn:Hc.
    - unfold write_binding in Hs1. ok_inv. split; [done|]. intros r'. cbn. rewrite lookup_insert_eq. intros [= <-]. by left.
    - injection Hs1 as <-. split; [done|]. intros r'. rewrite Hrow. intros [= <-] Hb Hle. right.
      rewrite Hb, N.eqb_refl in Hc. apply Z.leb_le in Hle. rewrite Hle in Hc. cbn in Hc. apply negb_false_iff in Hc.
      by apply String.eqb_eq in Hc. }
  destruct (db_sessions (es_db s1) !! session_id) as [row|] eqn:Hrow.
  - case_bool_decide; injection Hf as _ <-; (split; [done|]); intros row'.
    + cbn. rewrite lookup_insert_eq. by intros [= <-].
    + rewrite Hrow. by intros [= <-].
  - injection Hf as _ <-. split; [done|]. intros row'. by rewrite Hrow.
Qed.

(** the checks of [release_locked], in the memory and against the row *)
Lemma release_checks i fence w r w' : release_locked i fence w = (r, w') ->
  (r = Err StaleFence /\ w' = w) \/
  ((forall b, ew_bindings w !! i = Some b -> (ab_control_fencing_token b <= fence)%Z) /\
   (forall f, ew_fallbacks w !! i = Some f -> (df_control_fencing_token f <= fence)%Z) /\
   (forall row, es_rows (others (ew_tick w) (ew_store w)) !! i = Some row -> (fence < bd_control_fencing_token row)%Z ->
      r = Err StaleFence /\ ew_calls w' = ew_calls w)).
Proof.
  intros Hr. unfold EgressBindings.release_locked in Hr.
  apply proc_bind_inv in Hr as [([] & k & [= Hf <-] & Hr)|(e & [= He <-] & ->)].
  2:{ left. destruct (fence <? 1)%Z; [by injection He as <-|done]. }
  apply proc_bind_inv in Hr as [(o & k & [= <- <-] & Hr)|(e & [=] & _)].
  apply proc_bind_inv in Hr as [([] & k & [= Hb <-] & Hr)|(e & [= He <-] & ->)].
  2:{ left. destruct (is_some_and _ _) in He; [by injection He as <-|done]. }
  apply proc_bind_inv in Hr as [(o & k & [= <- <-] & Hr)|(e & [=] & _)].
  apply proc_bind_inv in Hr as [([] & k & [= Hd <-] & Hr)|(e & [= He <-] & ->)].
  2:{ left. destruct (is_some_and _ _) in He; [by injection He as <-|done]. }
  apply reject_if_ok in Hb, Hd. right. split; [|split].
  - intros b Hl. rewrite Hl in Hb. by apply Z.ltb_ge in Hb.
  - intros f Hl. rewrite Hl in Hd. by apply Z.ltb_ge in Hd.
  - intros row Hrow Hlt%Z.ltb_lt. apply proc_bind_inv in Hr as [(o & k & Ha & Hr)|(e & Ha & ->)]; [|discriminate Ha].
    cbn in Ha. rewrite Hrow in Ha. injection Ha as <- <-.
    apply proc_bind_inv in Hr as [([] & k & [= He <-] & Hr)|(e & [= He <-] & ->)]; rewrite Hlt in He; [done|].
    by injection He as <-.
Qed.

(** Releasing a session's egress is fenced and complete.  A server whose fence is older than the one the
    binding or the fallback in memory was made under is refused before anything is touched, and one older than the
    fence of the binding row is refused before the containers are.  When the release
    succeeds, nothing in memory routes the session any more, and if the session had a binding row, that row is
    released or failed unless another server has taken it over under a newer fence or replaced it, and the
    session does not name the binding; when it fails, the memory is as it was, so the session keeps its
    protected route. *)
Theorem egress_release_is_fenced i fence w r w' :
  end_session others wall_clock secrets_removed i fence w = (r, w') ->
  ((exists b, ew_bindings w !! i = Some b /\ (fence < ab_control_fencing_token b)%Z) \/
   (exists f, ew_fallbacks w !! i = Some f /\ (fence < df_control_fencing_token f)%Z) -> r = Err StaleFence /\ w' = w) /\
  (forall row, es_rows (others (ew_tick w) (ew_store w)) !! i = Some row -> (fence < bd_control_fencing_token row)%Z ->
     r = Err StaleFence /\ ew_calls w' = ew_calls w) /\
  match r with
  | Err _ => memory w' = memory w
  | Ok _ => memory w' = without i (memory w) /\
      forall row, es_rows (others (ew_tick w) (ew_store w)) !! i = Some row ->
        (forall later, es_rows (ew_store w') !! i = Some later -> bd_id later = bd_id row ->
           (bd_control_fencing_token later <= fence)%Z -> bd_state later = "released" \/ bd_state later = "failed") /\
        (forall s, db_sessions (es_db (ew_store w')) !! i = Some s -> row_egress_binding_id s <> Some (bd_id row))
  end.
Proof.
  unfold end_session. intros Hr. pose proof (release_memory _ _ _ _ _ Hr) as Hm.
  pose proof (release_checks _ _ _ _ _ Hr) as Hc. split; [|split].
  - destruct Hc as [Hc|(Hb & Hd & _)]; [done|]. intros [(b & Hl & Hlt)|(f & Hl & Hlt)]; [apply Hb in Hl|apply Hd in Hl]; lia.
  - destruct Hc as [[-> ->]|(_ & _ & Hc)]; [done|exact Hc].
  - destruct r as [[]|e]; [|by destruct Hm as [[[=] _]|[_ Hm]]].
    destruct Hm as [[_ Hm]|[[? [=]] _]]. split; [done|]. intros row Hrow.
    unfold EgressBindings.release_locked in Hr. repeat proc_step.
    match goal with Ha : access _ _ (fun _ s => Ok (es_rows s !! i, s)) _ = _ |- _ => apply access_ok in Ha as (Ha & _ & _);
      injection Ha as Ha _; rewrite Hrow in Ha; subst end.
    repeat proc_step.
    match goal with Ha : access _ _ (fun n => finish_release _ _ _ _) _ = _ |- _ => apply access_ok in Ha as (Ha & _ & _) end.
    injection Hr as <-. by eapply finish_release_ok.
Qed.

(** ** What the service writes to sessions
    Only two kinds of writes: the link of a live session to its binding, under a fence that [claims] the session, and
    the removal of the link to a binding from a session that [frees] admits. *)
Inductive session_write (claims : uuid -> Z -> Prop) (frees : uuid -> Prop) (db : Db) : Db -> Prop :=
| write_link i binding row :
    db_sessions db !! i = Some row -> live_row row = true -> claims i (row_control_fencing_token row) ->
    session_write claims frees db (set_sessions <[i := set_binding (Some binding) row]> db)
| write_unlink i binding row :
    db_sessions db !! i = Some row -> row_egress_binding_id row = Some binding -> frees i ->
    session_write claims frees db (set_sessions <[i := set_binding None row]> db).
(** nobody's session; the session that is presented, under its own fence; any session *)
Definition no_session (i : uuid) (fence : Z) : Prop := False.
Definition presented (session : SessionRecord) (i : uuid) (fence : Z) : Prop :=
  i = SessionTypes.id session /\ fence = control_fencing_token session.
Definition any_session (i : uuid) : Prop := True.
(** a change of the sessions by the others or by the service *)
Definition changes (between : Db -> Db -> Prop) (claims : uuid -> Z -> Prop) (frees : uuid -> Prop) (db db' : Db) : Prop :=
  between db db' \/ session_write claims frees db db'.

Section evolution.
(** what the others do to the tables of the repository between the accesses of the service *)
Variable between : Db -> Db -> Prop.
Hypothesis others_between : forall n s, rtc between (es_db s) (es_db (others n s)).
Variable claims : uuid -> Z -> Prop.
Variable frees : uuid -> Prop.
Notation steps := (rtc (changes between claims frees)).
Notation evolves db := (keeps (fun w => steps db (es_db (ew_store w)))).
Lemma between_steps db db' : rtc between db db' -> steps db db'.
Proof. apply rtc_subrel. by left. Qed.

Definition tx_steps {E A} (g : nat -> Store -> result E (A * Store)) : Prop :=
  forall n s a s', g n s = Ok (a, s') -> steps (es_db s) (es_db s').
Lemma steps_access {E A} db (f : E -> LiveEgressError) (g : nat -> Store -> result E (A * Store)) :
  tx_steps g -> evolves db (access others f g).
Proof.
  intros Hg w Hw. unfold access. destruct (g _ _) as [[a s]|e] eqn:He; cbn.
  - etrans; [exact Hw|]. etrans; [apply between_steps, others_between|]. by eapply Hg.
  - etrans; [exact Hw|]. apply between_steps, others_between.
Qed.
Lemma steps_runtime {A} db (d : docker A) : evolves db (runtime d).
Proof. intros w Hw. unfold runtime. by destruct (d _). Qed.
Lemma steps_secret db b : evolves db (remove_secret_dir secrets_removed b).
Proof. by intros w Hw. Qed.
Lemma steps_memory db b f : evolves db (change (E:=LiveEgressError) (set_memory b f)).
Proof. by intros w Hw. Qed.
Lemma write_binding_db i r s s' : write_binding i r s = Ok s' -> es_db s' = es_db s.
Proof. unfold write_binding. intros Hw. ok_inv. done. Qed.
Lemma read_steps {A} (g : Store -> A) : tx_steps (E:=LiveEgressError) (fun _ s => Ok (g s, s)).
Proof. by intros n s a s' [= _ <-]. Qed.
Lemma unlink_steps i b row s : frees i -> db_sessions (es_db s) !! i = Some row -> row_egress_binding_id row = Some b ->
  steps (es_db s) (es_db (link_session i None row s)).
Proof. intros Hf Hr Hb. apply rtc_once. right. by eapply write_unlink. Qed.
Lemma upsert_steps fresh session policy profile :
  claims (SessionTypes.id session) (control_fencing_token session) ->
  tx_steps (fun n => upsert_provisioning_binding (fresh n) (db_clock n) session policy profile).
Proof.
  intros Hclaim n s a s' Hu. unfold upsert_provisioning_binding in Hu.
  apply result_bind_ok in Hu as (row & Hrow%ok_or_ok & Hu). apply result_bind_ok in Hu as ([] & Hlive%reject_if_ok & Hu).
  apply result_bind_ok in Hu as ([] & _ & Hu). apply result_bind_ok in Hu as (p & _ & Hu).
  apply result_bind_ok in Hu as ([binding created] & _ & Hu). apply result_bind_ok in Hu as (s1 & Hw & Hu).
  injection Hu as <- <-. apply write_binding_db in Hw. cbn. rewrite Hw. apply rtc_once. right.
  apply orb_false_iff in Hlive as [Hf Hl]. apply negb_false_iff, Z.eqb_eq in Hf.
  apply write_link; [done|unfold live_row; by rewrite Hl|by rewrite Hf].
Qed.
Lemma ready_steps b session g w text : tx_steps (fun n => mark_ready b session g w text (wall_clock n)).
Proof.
  intros n s a s' Hm. unfold mark_ready in Hm. case_match; [|done]. case_match; [|done].
  apply result_bind_ok in Hm as (s1 & Hw%write_binding_db & Hm). injection Hm as <- <-. by rewrite Hw.
Qed.
Lemma releasing_steps i b fence : tx_steps (fun _ => mark_releasing i b fence).
Proof.
  intros n s a s' Hm. unfold mark_releasing in Hm. case_match; [case_match|]; try by injection Hm as _ <-.
  apply result_bind_ok in Hm as (s1 & Hw%write_binding_db & Hm). injection Hm as <- <-. by rewrite Hw.
Qed.
Lemma finish_steps i b fence : frees i -> tx_steps (fun n => finish_release i b fence (wall_clock n)).
Proof.
  intros Hfree n s a s' Hm. unfold finish_release in Hm. apply result_bind_ok in Hm as (s1 & Hs1 & Hm).
  assert (es_db s1 = es_db s) as Heq.
  { destruct (es_rows s !! i); [|by injection Hs1 as <-]. destruct (_ && _) in Hs1; [by eapply write_binding_db|by injection Hs1 as <-]. }
  rewrite <- Heq. destruct (db_sessions (es_db s1) !! i) as [row|] eqn:Hrow; [case_bool_decide|]; injection Hm as _ <-; try done.
  by eapply unlink_steps.
Qed.
Lemma failed_steps b session policy actor reason : frees (SessionTypes.id session) ->
  tx_steps (fun n => mark_binding_failed audit_key (fresh_id n) b session policy actor reason (wall_clock n)).
Proof.
  intros Hfree n s a s' Hm. unfold mark_binding_failed in Hm.
  apply result_bind_ok in Hm as ([] & _ & Hm). apply result_bind_ok in Hm as ([] & _ & Hm).
  apply result_bind_ok in Hm as (r & _ & Hm). apply result_bind_ok in Hm as ([] & _ & Hm).
  apply result_bind_ok in Hm as (s1 & Hw & Hm). destruct (write_binding _ _ _) as [s2|] eqn:Hw2 in Hw; cbn in Hw; [|done].
  injection Hw as ->. apply write_binding_db in Hw2. apply result_bind_ok in Hm as (row & Hrow%ok_or_ok & Hm).
  apply result_bind_ok in Hm as ([] & Hlink%reject_if_ok & Hm). cbn zeta in Hm. rewrite <- Hw2.
  apply negb_false_iff in Hlink. repeat apply andb_true_iff in Hlink as [Hlink _]. apply bool_decide_eq_true in Hlink.
  destruct (falls_back policy); [apply result_bind_ok in Hm as ([ref t] & _ & Hm)|]; injection Hm as _ <-; by eapply unlink_steps.
Qed.
Hint Resolve steps_access steps_runtime steps_secret steps_memory read_steps upsert_steps ready_steps releasing_steps finish_steps
  failed_steps : keeps.
Lemma steps_release db i fence : frees i -> evolves db (release_locked i fence).
Proof.
  intros Hfree. unfold EgressBindings.release_locked. repeat keep_step. case_match.
  - repeat keep_step. auto with keeps.
  - keep_step. apply proc_keeps_bind; [case_match; [keep_step|]; auto with keeps|intros ?]. auto with keeps.
Qed.
Lemma steps_volumes db session b p roles : evolves db (create_volumes file_written session b p roles).
Proof. induction roles as [|r roles IH]; cbn; [apply proc_keeps_ret|]. repeat keep_step. done. Qed.
Hint Resolve steps_volumes steps_release : keeps.
Lemma steps_provision db session policy p profile b : evolves db (provision session policy p profile b).
Proof.
  unfold EgressBindings.provision. repeat keep_step. apply proc_keeps_bind; [case_match; [repeat keep_step|]; auto with keeps|intros ?].
  repeat keep_step. match goal with |- context [let '(_, _) := ?x in _] => destruct x end.
  apply proc_keeps_bind; [auto with keeps|intros [[[? ?] ?] ?]]. keep_step. auto with keeps.
Qed.
Hint Resolve steps_provision : keeps.
Lemma steps_provision_locked db session policy actor :
  claims (SessionTypes.id session) (control_fencing_token session) -> frees (SessionTypes.id session) ->
  evolves db (provision_locked session policy actor).
Proof.
  intros Hclaim Hfree. unfold EgressBindings.provision_locked. repeat keep_step. case_match; [auto with keeps|]. repeat keep_step.
  case_match; auto with keeps.
Qed.
Hint Resolve steps_provision_locked : keeps.
Lemma steps_ensure db session policy actor :
  claims (SessionTypes.id session) (control_fencing_token session) -> frees (SessionTypes.id session) ->
  evolves db (ensure_locked session policy actor).
Proof.
  intros Hclaim Hfree. unfold EgressBindings.ensure_locked. keep_step. case_match; [auto with keeps|]. keep_step. case_match; [auto with keeps|].
  do 2 keep_step. case_match; keep_step; auto with keeps.
Qed.
Hint Resolve steps_ensure : keeps.
Lemma steps_cancel db fence : (forall i, frees i) -> evolves db (cancel_all fence).
Proof.
  intros Hfree. unfold EgressBindings.cancel_all. keep_step. induction a as [|i ids IH]; cbn; [apply proc_keeps_ret|].
  apply proc_keeps_bind; [by apply keeps_attempt, steps_release|intros ?]. done.
Qed.
Lemma steps_reap db fence : (forall i, frees i) -> evolves db (reap_stale fence).
Proof.
  intros Hfree. unfold EgressBindings.reap_stale. keep_step. induction a as [|i ids IH]; cbn; [apply proc_keeps_ret|].
  keep_step. apply proc_keeps_bind; [case_match; [by apply steps_release|auto with keeps]|intros ?]. done.
Qed.
Lemma steps_reconcile db fence : (forall i, frees i) -> evolves db (reconcile_startup fence).
Proof.
  intros Hfree. unfold EgressBindings.reconcile_startup. do 2 keep_step. generalize 0%Z. induction a0 as [|i ids IH]; intros n; cbn; [apply proc_keeps_ret|].
  keep_step. done.
Qed.
End evolution.

(** ** The writes are steps of the repository *)
Section refinement.
Context {R : Type} `{Vault R} `{Texts}.
Notation steps := (rtc (repo_step (R:=R))).
(** the others keep to the steps of sessions too: the repository, its clients, the deletions of rows *)
Variable between : Db -> Db -> Prop.
Hypothesis others_between : forall n s, rtc between (es_db s) (es_db (others n s)).
Hypothesis between_steps_of : forall db db', between db db' -> steps db db'.
Definition by_sessions (claims : uuid -> Z -> Prop) : Prop := forall i fence, claims i fence -> exists session, presented session i fence.
Lemma changes_steps claims frees db db' : by_sessions claims -> rtc (changes between claims frees) db db' -> steps db db'.
Proof.
  intros Hc. induction 1 as [|db1 db2 db3 [Hb|Hw] _ IH]; [done|..]; (etrans; [|exact IH]); [by apply between_steps_of|].
  apply rtc_once. destruct Hw as [i binding row Hr Hl Hi|i binding row Hr _ _]; [|by apply step_unlink_egress].
  apply Hc in Hi as (session & -> & Hf). by apply step_link_egress.
Qed.
Lemma no_session_presented : by_sessions no_session.
Proof. by intros i fence []. Qed.
Lemma session_presented session : by_sessions (presented session).
Proof. intros i fence Hp. by exists session. Qed.
Lemma repo_ensure session policy actor w : steps (es_db (ew_store w)) (es_db (ew_store (ensure_locked session policy actor w).2)).
Proof.
  eapply changes_steps; [apply (session_presented session)|]. by apply (steps_ensure between others_between (presented session) any_session).
Qed.
Lemma repo_release i fence w : steps (es_db (ew_store w)) (es_db (ew_store (release_locked i fence w).2)).
Proof. eapply changes_steps; [apply no_session_presented|]. by apply (steps_release between others_between no_session any_session). Qed.
Lemma repo_egress_step w w' : egress_step w w' -> steps (es_db (ew_store w)) (es_db (ew_store w')).
Proof.
  intros Hstep. destruct Hstep; [apply repo_ensure|apply repo_release|..]; (eapply changes_steps; [apply no_session_presented|]);
    [by apply (steps_cancel between others_between _ any_session)|by apply (steps_reap between others_between _ any_session)|by apply (steps_reconcile between others_between _ any_session)].
Qed.
End refinement.
(** C26: The egress service writes nothing to a session but the link to its binding.  Between the changes of the other parts
    of the system, whatever they are, providing the egress of a session links this session, live and still under the
    fence of the record that was presented, to its binding, or removes its link; releasing a session only removes its
    link; and cancelling all, reaping the stale and reconciling at the start only remove links.  So if the others change the
    sessions by steps of the repository, the sessions after any operations in any order are reached by such steps,
    and every stored session stays valid. *)
Theorem egress_writes_are_session_steps `{Vault R} `{Texts} (between : Db -> Db -> Prop) :
  (forall n s, rtc between (es_db s) (es_db (others n s))) ->
  let db w := es_db (ew_store w) in
  (forall session policy actor w,
     rtc (changes between (presented session) (eq (SessionTypes.id session))) (db w) (db (ensure_locked session policy actor w).2)) /\
  (forall i fence w, rtc (changes between no_session (eq i)) (db w) (db (end_session others wall_clock secrets_removed i fence w).2)) /\
  (forall fence w, rtc (changes between no_session any_session) (db w) (db (cancel_all fence w).2) /\
     rtc (changes between no_session any_session) (db w) (db (reap_stale fence w).2) /\
     rtc (changes between no_session any_session) (db w) (db (reconcile_startup fence w).2)) /\
  ((forall d d', between d d' -> rtc (repo_step (R:=R)) d d') -> forall w w', rtc egress_step w w' ->
     rtc (repo_step (R:=R)) (db w) (db w') /\ (db_inv (db w) -> db_inv (db w'))).
Proof.
  intros Hb db. split; [|split; [|split]].
  - intros session policy actor w. by apply (steps_ensure between Hb).
  - intros i fence w. by apply (steps_release between Hb).
  - intros fence w. split_and!; [by apply (steps_cancel between Hb)|by apply (steps_reap between Hb)|by apply (steps_reconcile between Hb)].
  - intros Hsteps w w' Hrun. assert (rtc (repo_step (R:=R)) (db w) (db w')) as Hs; [|split; [done|intros Hi; by eapply run_inv]].
    induction Hrun as [|w1 w2 w3 Hstep _ IH]; [done|]. etrans; [|exact IH]. by apply (repo_egress_step between Hb Hsteps).
Qed.
End memory.
