(* ===== verification/EgressWitness.v ===== *)
(** * Concrete runs of the egress service

    The session 100 of [SessionDemo] asks for protection by the profile "vpn".  One runtime starts its containers and
    shows a healthy worker; another has no worker image, so that a policy that permits it falls back. *)
From stdpp Require Import pretty.
From S2P Require Import Prelude Bytes LiveContract Addresses EgressPolicy SessionTypes Crypto Vault CanonicalJson.
From S2P Require Import SessionStore SessionRepo SessionFacts SessionEvolution SessionDemo CatalogGrants AdminAudit AdminWitness.
From S2P Require Import EgressAssignments Process EgressWorkers EgressBindings EgressSafety.

Module EgressDemo.
#[export] Existing Instances AuditDemo.prims AuditDemo.json_text AuditDemo.uuid_text.
#[export] Instance simple : UuidSimple := {| uuid_simple u := pretty u |}.
#[export] Instance readiness_text : ReadinessText := {| readiness_to_string _ := "{}" |}.

Definition session : SessionRecord := {|
  id := 100; owner := World.owner; delivery_mode := ServerRemux; session_protocol := PHls; state := Ready; revision := 3;
  token_revision := 1; control_fencing_token := 7; source_index := 0; failover_count := 0; refresh_count := 0;
  egress_binding_id := None; remux_job_id := None; created_at := 0; last_heartbeat_at := 0; session_expires_at := seconds 60;
  hard_expires_at := seconds 3600; ended_at := None; error_code := None; error_detail_redacted := None |}.
Definition policy : EffectiveEgressPolicy := {|
  eff_mode := PreferProtected; eff_policy_id := Some "vpn"; eff_allow_fallback := true; eff_revision := 1; eff_source := ServerConfig |}.
Definition profile : LiveEgressProfileConfig := {|
  pc_id := "vpn"; pc_kind := Wireguard; pc_auth_host_path := None; pc_state_volume_name := None; pc_expected_egress_ips := [];
  pc_selectable_by_profiles := true |}.
Definition cfg : LiveEgressConfig := {|
  ec_default_mode := PreferProtected; ec_default_policy_id := Some "vpn"; ec_default_allow_fallback := true;
  ec_profiles := [profile] |}.
Definition no_image : LiveEgressError := WorkerIncompatible.
#[export] Instance ops : AuditOps := {|
  parse_json s := List.find (fun v => String.eqb (write_canonical v) s)
    [actor_value AuditDemo.actor; fallback_before policy; fallback_after policy (egress_error_label no_image)];
  millis_text t := pretty t;
  checked_add_days t d := Some (t + seconds (86400 * d))%Z |}.

(** *** Two runtimes.  The name of a container is its id. *)
Definition own_labels (role : string) : labels := private_volume_labels 100 3 7 "vpn" role.
Definition volume (name destination : string) : ContainerRuntimeMount :=
  {| mt_type := "volume"; mt_name := Some name; mt_destination := destination; mt_read_only := true |}.
Definition worker : string := worker_name 100.
Definition gateway : string := worker +:+ "-vpn".
Definition worker_state : ContainerRuntimeState := {|
  rs_name := worker; rs_network_mode := Some ("container:" +:+ gateway); rs_labels := own_labels "worker";
  rs_mounts := [volume (control_volume_name 3) WORKER_SECRET_ROOT]; rs_published_ports := [];
  rs_security := {| ss_user := Some "65532:65532"; ss_read_only_rootfs := true; ss_no_new_privileges := true;
                    ss_cap_drop := ["ALL"]; ss_memory_limit_bytes := None; ss_pids_limit := None |} |}.
Definition gateway_state : ContainerRuntimeState := {|
  rs_name := gateway; rs_network_mode := None; rs_labels := own_labels "wireguard_gateway";
  rs_mounts := [volume (material_volume_name 3 GATEWAY_CONFIG_ROLE) WIREGUARD_CONFIG_ROOT];
  rs_published_ports := [{| pp_container := 9000; pp_host := 40000; pp_protocol := "tcp"; pp_host_ip := Some "127.0.0.1" |}];
  rs_security := rs_security worker_state |}.
Definition ready_report : ReadinessControlResponse := {|
  rd_route := true; rd_dns := true; rd_external_ip := true; rd_kill_switch := true; rd_health := true;
  rd_observed_egress_ip := Some (V4 134744072) |}.
Definition slept (h : list RuntimeCall) : Z :=
  foldr (fun c t => match c with CSleep d => t + Z.max 0 d | _ => t end)%Z 0%Z h.
Definition handle (name : string) : ContainerHandle := {| ch_id := name; ch_name := name |}.
Definition started (h : list RuntimeCall) (name : string) : bool :=
  existsb (fun c => match c with CStart k => String.eqb (ch_name k) name | _ => false end) h
  && negb (existsb (fun c => match c with CRemove k => String.eqb (ch_name k) name | _ => false end) h).
Definition runtime_with (image : option labels) : RuntimeManager := {|
  rt_image_labels _ := image;
  rt_succeeds _ _ := true;
  rt_ensure_container _ spec := Some (handle (sp_name spec));
  rt_inspect _ _ := Some {| st_running := true; st_health := None |};
  rt_describe h name := Some (if started h name then Some (if String.eqb name worker then worker_state else gateway_state) else None);
  rt_get_handle h name := Some (if started h name then Some (handle name) else None);
  rt_volume_owned h _ _ := Some (negb (Nat.eqb (length h) 0));
  rt_readiness h _ := Some ready_report;
  rt_now h := slept h |}.
Definition image : labels := {[WORKER_CONTROL_VERSION_LABEL := CONTROL_VERSION]}.
Definition healthy : RuntimeManager := runtime_with (Some image).
Definition without_image : RuntimeManager := runtime_with None.
Lemma demo_names i : RuntimeNames (runtime_with i).
Proof. split. intros h name c. cbn. destruct (started h name); [|done]. by intros [= <-]. Qed.

(** *** The rest of the environment *)
Definition security : ContainerSecurityOptions :=
  {| so_user := Some "65532:65532"; so_memory_limit_mb := None; so_pids_limit := None |}.
Definition specs (s : SessionRecord) (b : uuid) (p : LiveEgressProfileConfig)
    : result LiveEgressError (option ContainerSpec * ContainerSpec) :=
  Ok (Some {| sp_name := gateway; sp_network := "live"; sp_security := security |},
      {| sp_name := worker; sp_network := "live"; sp_security := security |}).
Definition alone (n : nat) (s : Store) : Store := s.
Definition wall (n : nat) : instant := seconds 20.
Definition fresh (n : nat) : uuid := 3.
Definition material (n : nat) (p : LiveEgressProfileConfig) : result LiveEgressError (list string) := Ok [GATEWAY_CONFIG_ROLE].
Definition written (n : nat) (b : uuid) : result LiveEgressError unit := Ok ().
Definition staged (n : nat) (b : uuid) (role : string) : result LiveEgressError unit := Ok ().
Definition removed (n : nat) (b : uuid) : bool := true.
Definition key : LiveAuditKey := {| ak_key_id := "k1"; ak_material := "first" |}.
Definition world : EgressWorld := {|
  ew_tick := 0; ew_calls := []; ew_bindings := ∅; ew_fallbacks := ∅; ew_relay := ∅;
  ew_store := {| es_db := World.ready; es_rows := ∅; es_audit := no_records {[1%N]} |} |}.
Notation ensure runtime := (ensure_session_inner (H4:=runtime) cfg 1 30 9000 key alone wall wall fresh material written staged
  removed specs (fun w => w) session policy AuditDemo.actor).
Definition protected_run := ensure healthy world.
Definition fallback_run := ensure without_image world.
End EgressDemo.
Import EgressDemo.

(** ** A fallback is permitted and recorded *)
Lemma world_empty : starts_empty world.
Proof. by split. Qed.
Lemma outcome_pair {A B} (x : A * B) a : x.1 = a -> x = (a, x.2).
Proof. destruct x. by intros [= ->]. Qed.
Lemma fallback_result : ensure without_image world = (Ok None, fallback_run.2).
Proof. apply outcome_pair. vm_compute. reflexivity. Qed.
Lemma ensured_route_is_protected_witness :
  falls_back policy = true /\ exists r, es_rows (ew_store fallback_run.2) !! 100%N = Some r /\ bd_state r = "failed".
Proof.
  destruct (ensured_route_is_protected (H4:=without_image) cfg 1 30 9000 key alone wall wall fresh material written staged removed specs
    (fun w => w) session policy AuditDemo.actor world None fallback_run.2 ltac:(lia)
    (ex_intro _ world (conj world_empty (rtc_refl _ _))) (rtc_refl _ _) fallback_result)
    as [[Hp _]|(_ & Hf & _ & _ & [Hp|[Hp|[(r & Hr & Hs & _) _]]])]; try (vm_compute in Hp; discriminate).
  split; [exact Hf|exact (ex_intro _ r (conj Hr Hs))].
Defined.

(** ** A started worker is reported and used *)
Lemma protected_step : egress_step (H4:=healthy) cfg 1 30 9000 key alone wall wall fresh material written staged removed specs
  world protected_run.2.
Proof.
  assert (protected_run.2 = (ensure_locked (H4:=healthy) cfg 1 30 9000 key alone wall wall fresh material written staged removed specs
    session policy AuditDemo.actor world).2) as -> by (vm_compute; reflexivity). apply egress_ensure.
Qed.
Lemma protected_reachable : reachable (H4:=healthy) cfg 1 30 9000 key alone wall wall fresh material written staged removed specs protected_run.2.
Proof.
  exists world. split; [exact world_empty|]. apply rtc_once, protected_step.
Qed.
Lemma reported_outcome_is_the_route_witness :
  outcome_for session policy protected_run.2 = Ok OutProtected /\ fetcher_for session policy protected_run.2 = Ok (Some 40000%Z).
Proof.
  pose proof (reported_outcome_is_the_route (H4:=healthy) cfg 1 30 9000 key alone wall wall fresh material written staged removed specs
    session policy protected_run.2 ltac:(lia) protected_reachable ltac:(vm_compute; reflexivity)) as Hr.
  assert (outcome_for session policy protected_run.2 = Ok OutProtected) as Ho by (vm_compute; reflexivity). rewrite Ho in Hr.
  destruct Hr as (_ & b & _ & _ & Hf). split; [exact Ho|]. rewrite Hf. vm_compute in Hf. vm_compute. by rewrite <- Hf.
Defined.

(** ** The session ends: everything is released *)
Definition the_binding : ActiveBinding := {|
  ab_binding_id := 3; ab_session_id := 100; ab_control_fencing_token := 7; ab_policy_id := "vpn"; ab_policy_revision := 1;
  ab_gateway_role := "wireguard_gateway"; ab_gateway_name := gateway; ab_worker_name := worker; ab_fetcher := 40000 |}.
Lemma bound : ew_bindings protected_run.2 !! 100%N = Some the_binding.
Proof. vm_compute. reflexivity. Qed.
Definition ended := end_session (H4:=healthy) alone wall removed 100 7 protected_run.2.
Lemma egress_release_is_fenced_witness :
  ended.1 = Ok () /\ ew_bindings ended.2 !! 100%N = None /\
  (end_session (H4:=healthy) alone wall removed 100 6 protected_run.2).1 = Err StaleFence.
Proof.
  assert (ended.1 = Ok ()) as He by (vm_compute; reflexivity).
  destruct (egress_release_is_fenced (H4:=healthy) alone wall removed 100 7 protected_run.2 ended.1 ended.2
    ltac:(unfold ended; apply surjective_pairing)) as (_ & _ & Hr).
  destruct (egress_release_is_fenced (H4:=healthy) alone wall removed 100 6 protected_run.2 _ _
    (surjective_pairing _)) as (Hstale & _).
  rewrite He in Hr. destruct Hr as [Hm _]. split; [exact He|split].
  - change (ew_bindings ended.2) with (memory ended.2).1. rewrite Hm. apply lookup_delete_eq.
  - apply Hstale. left. exact (ex_intro _ the_binding (conj bound eq_refl)).
Defined.

(** ** The same sessions, by steps of the repository *)
(** the others change nothing *)
Definition nothing (db db' : Db) : Prop := False.
Lemma egress_writes_are_session_steps_witness :
  rtc (repo_step (H:=crypto_vault) (H0:=World.texts)) World.ready (es_db (ew_store protected_run.2)) /\
  rtc (changes nothing no_session (eq 100%N)) (es_db (ew_store protected_run.2)) (es_db (ew_store ended.2)).
Proof.
  destruct (egress_writes_are_session_steps (H4:=healthy) (H6:=crypto_vault) (H7:=World.texts) cfg 1 30 9000 key alone wall wall
    fresh material written staged removed specs nothing (fun _ _ => rtc_refl _ _)) as (_ & Hend & _ & Hsteps).
  split; [|exact (Hend 100%N 7%Z protected_run.2)].
  exact (proj1 (Hsteps (fun _ _ Hf => match Hf with end) world protected_run.2 (rtc_once _ _ protected_step))).
Defined.

(** ** Cleaning up and waiting *)
Definition cleaned := cleanup_runtime (H1:=healthy) 100 "3" 7 "vpn" worker gateway "wireguard_gateway" (ew_calls protected_run.2).
Lemma cleanup_touches_only_its_binding_witness :
  cleaned.1 = Ok () /\ seen_absent (H1:=healthy) (ew_calls protected_run.2) cleaned.2 worker.
Proof.
  assert (cleaned.1 = Ok ()) as Hc by (vm_compute; reflexivity).
  destruct (cleanup_touches_only_its_binding (R:=healthy) (RN:=demo_names _) 100 "3" 7 "vpn" worker gateway "wireguard_gateway"
    (ew_calls protected_run.2) cleaned.1 cleaned.2 (surjective_pairing _)) as [_ Hok].
  split; [exact Hc|]. destruct (Hok Hc) as (b & _ & Hgone & _). apply Hgone. left.
Defined.
Lemma demo_clock i : RuntimeClock (runtime_with i).
Proof.
  split; [intros c h|intros d h]; unfold rt_now, runtime_with, slept; cbn [foldr].
  - destruct c; lia.
  - lia.
Qed.
#[local] Existing Instance healthy.
Lemma startup_waits_end_witness :
  poll (polls 30 100 + 5) (is_running (handle worker)) (rt_now [] + 30 * nanos_per_second) 100 EgressRuntime []
  = wait_running (handle worker) 30 [].
Proof.
  exact (proj1 (startup_waits_end (R:=healthy) (RC:=demo_clock _) 30 5 (handle worker) profile 40000 [] ltac:(lia))).
Defined.
