(* ===== verification/PlaybackRequest.v ===== *)
(** * Requests of the playback API (src/src/http/handlers/live/sessions.rs)

    The bodies a client sends with their validation, what they become for the planner and the repository, the
    destination rules of a provider, and the rejections the errors of the other components turn into.  serde
    and chrono decide which texts are bodies and timestamps. *)
From Stdlib Require Import SpecFloat.
From S2P Require Import Prelude Bytes Addresses LiveContract ProviderCalls EgressPolicy SessionTypes Planner Recovery Descriptor.
From S2P Require Import Crypto Vault SessionStore SessionRepo UpstreamPolicy HttpAccess.

(** ** Bodies *)
Inductive ClientPlatform := Macos | Windows | Linux.
Inductive EgressModeRequest := ReqInherit | ReqOff | ReqPreferProtected | ReqRequireProtected.
#[export] Instance EgressModeRequest_eq_dec : EqDecision EgressModeRequest.
Proof. solve_decision. Defined.
Record ClientCapabilityRequest := {
  cr_platform : ClientPlatform;
  cr_player : string;
  cr_protocols : list StreamProtocol;
  cr_video_codecs : list string;
  cr_audio_codecs : list string;
  cr_supports_request_headers : bool;
  cr_supports_cookies : bool;
  cr_supports_low_latency_hls : bool;
  cr_supports_origin_time_shift : bool;
}.
Record SessionCreateRequest := {
  sq_provider_id : uuid;
  sq_item_key : string;
  sq_stream_option_key : string;
  sq_client : ClientCapabilityRequest;
  sq_egress_policy_id : option uuid;
  sq_egress_mode : EgressModeRequest;
}.
Inductive PlayerState := PsLoading | PsBuffering | PsPlaying | PsPaused | PsEnded.
#[export] Instance PlayerState_eq_dec : EqDecision PlayerState.
Proof. solve_decision. Defined.
Record HeartbeatRequest := {
  hq_expected_revision : Z;
  hq_player_state : PlayerState;
  hq_observed_at : string;
  hq_distance_from_live_edge_seconds : option spec_float;
  hq_source_key : option string;
  hq_audio_track_id : option string;
  hq_audio_track_language : option string;
  hq_audio_track_title : option string;
  hq_subtitle_track_id : option string;
  hq_subtitle_track_language : option string;
  hq_subtitle_track_title : option string;
}.
Record EndQuery := { eq_expected_revision : Z }.
Record SessionRecoveryRequest := {
  vq_expected_revision : Z;
  vq_reason : RecoveryReason;
  vq_requested_source_key : option string;
}.

Definition MAX_POLICY_ROWS : Z := 256.
Definition MAX_OBSERVED_SKEW_SECONDS : Z := 300.
Definition SOURCE_KEY_MAX_SECONDS : Z := 15 * 60.

(** ** Validation *)
Definition key_length_ok (key : string) : bool := ((16 <=? slen key) && (slen key <=? 2048))%Z.
Definition protocol_set (l : list StreamProtocol) : gset StreamProtocol := list_to_set l.
Definition validate_create_request (r : SessionCreateRequest) : result LiveHttpRejection unit :=
  let protocols := cr_protocols (sq_client r) in
  reject_if ((sq_provider_id r =? 0)%N
    || negb (key_length_ok (sq_item_key r)) || negb (key_length_ok (sq_stream_option_key r))
    || negb (String.eqb (cr_player (sq_client r)) "mpv")
    || bool_decide (protocols = []) || (6 <? length protocols)%nat
    || negb (size (protocol_set protocols) =? length protocols)%nat
    || is_some_b (sq_egress_policy_id r)
       && negb (match sq_egress_mode r with ReqPreferProtected | ReqRequireProtected => true | _ => false end))
    Rejection.invalid_request.

Definition capability_byte (c : ascii) : bool := is_alnum c || existsb (Ascii.eqb c) ["-"; "_"; "."]%char.
Definition normalize_capabilities (values : list string) : result LiveHttpRejection (gset string) :=
  _ ← reject_if (32 <? length values)%nat Rejection.invalid_request;
  let normalized : gset string := list_to_set ((fun v => to_lower (trim v)) <$> values) in
  _ ← reject_if (negb (size normalized =? length values)%nat
        || existsb (fun v => str_empty v || (64 <? slen v)%Z || negb (all_bytes capability_byte v))
             (elements normalized)) Rejection.invalid_request;
  Ok normalized.
Definition planner_containers : gset string :=
  list_to_set ["flv"; "matroska"; "mp4"; "mpegts"; "webm"].
Definition planner_capabilities (r : ClientCapabilityRequest) : result LiveHttpRejection ClientCapabilities :=
  video ← normalize_capabilities (cr_video_codecs r);
  audio ← normalize_capabilities (cr_audio_codecs r);
  Ok {| protocols := protocol_set (cr_protocols r); containers := planner_containers;
        video_codecs := video; audio_codecs := audio |}.


Definition valid_track_text (value : string) (max_bytes : Z) : bool :=
  negb (str_empty value) && (slen value <=? max_bytes)%Z && String.eqb (trim value) value
  && negb (any_control value).
Fixpoint replace_char (a b : ascii) (s : string) : string :=
  match s with
  | EmptyString => EmptyString
  | String c r => String (if Ascii.eqb c a then b else c) (replace_char a b r)
  end.
Definition valid_track_language (value : string) : bool :=
  let normalized := replace_char "_" "-" value in
  negb (str_empty normalized) && (slen normalized <=? 64)%Z
  && forallb (fun part => (1 <=? slen part)%Z && (slen part <=? 8)%Z && all_bytes is_alnum part)
       (split_char "-"%char normalized).
Definition valid_observed_track (track_id language title : option string) : bool :=
  is_some_and (fun v => valid_track_text v 256) track_id && is_none_or valid_track_language language
  && is_none_or (fun v => valid_track_text v 256) title.

(** [(0.0..=86_400.0).contains]; 86400 = 675 * 2^7, as a binary64 value *)
Definition f64_zero : spec_float := S754_zero false.
Definition f64_day : spec_float := S754_finite false 5937362789990400 (-36).
Definition is_finite (x : spec_float) : bool :=
  match x with S754_zero _ | S754_finite _ _ _ => true | _ => false end.
Definition distance_ok (x : spec_float) : bool := is_finite x && SFleb f64_zero x && SFleb x f64_day.

Definition track_refused (id language title : option string) : bool :=
  is_some_b id && negb (valid_observed_track id language title)
  || is_none_b id && (is_some_b language || is_some_b title).
Definition validate_heartbeat `{TimeText} (now : instant) (r : HeartbeatRequest) : result LiveHttpRejection unit :=
  observed_at ← ok_or (if ends_with "Z" (hq_observed_at r) then parse_from_rfc3339 (hq_observed_at r) else None)
                  Rejection.invalid_request;
  reject_if ((hq_expected_revision r <? 1)%Z
    || (observed_at <? now - seconds MAX_OBSERVED_SKEW_SECONDS)%Z || (now + seconds 30 <? observed_at)%Z
    || is_some_and (fun v => negb (distance_ok v)) (hq_distance_from_live_edge_seconds r)
    || is_some_and (fun k => negb (key_length_ok k)) (hq_source_key r)
    || track_refused (hq_audio_track_id r) (hq_audio_track_language r) (hq_audio_track_title r)
    || track_refused (hq_subtitle_track_id r) (hq_subtitle_track_language r) (hq_subtitle_track_title r))
    Rejection.invalid_request.

Definition track_selection (id language title : option string) : option LiveTrackSelection :=
  (fun v => {| track_id := v; track_language := (fun l => to_lower (replace_char "_" "-" l)) <$> language;
               track_title := title |}) <$> id.
Definition track_preference_update (r : HeartbeatRequest) : option LiveTrackPreferenceUpdate :=
  let update := {|
    upd_audio := track_selection (hq_audio_track_id r) (hq_audio_track_language r) (hq_audio_track_title r);
    upd_subtitle := track_selection (hq_subtitle_track_id r) (hq_subtitle_track_language r) (hq_subtitle_track_title r)
  |} in
  if update_is_empty update then None else Some update.

Definition validate_recovery_request (r : SessionRecoveryRequest) (act : RecoveryAction)
    : result LiveHttpRejection unit :=
  let valid_key := is_none_or key_length_ok (vq_requested_source_key r) in
  let manual := match vq_reason r with ManualSourceSwitch => true | _ => false end in
  let valid_shape := match act with
                     | Refresh => negb manual && is_none_b (vq_requested_source_key r)
                     | Failover => Bool.eqb manual (is_some_b (vq_requested_source_key r))
                     end in
  reject_if ((vq_expected_revision r <? 1)%Z || negb valid_key || negb valid_shape) Rejection.invalid_request.

Definition requested_egress_mode (r : EgressModeRequest) : RequestedEgressMode :=
  match r with
  | ReqInherit => Inherit
  | ReqOff => EgressOff
  | ReqPreferProtected => EgressPreferProtected
  | ReqRequireProtected => EgressRequireProtected
  end.
(** [session_protocol] of the handlers *)
Definition protocol_of_stream (p : StreamProtocol) : SessionProtocol :=
  match p with
  | Hls => PHls | Dash => PDash | HttpProgressive => PHttpProgressive
  | MpegTs => PMpegTs | Rtmp => PRtmp | Srt => PSrt
  end.
Definition source_at (r : ResolvedSources) (index : nat) : option SourceDescriptor :=
  match index with
  | 0 => Some (descriptor r)
  | S i => alternatives r !! i
  end.
Definition refresh_failure_category (why : RecoveryReason) : RefreshFailureCategory :=
  match why with
  | ExpiryThreshold | ManualSourceSwitch => CatExpiryThreshold
  | UpstreamUnauthorized => CatUpstreamUnauthorized
  | UpstreamForbidden => CatUpstreamForbidden
  | UpstreamGone => CatUpstreamGone
  | Transport => CatTransport
  | Stalled => CatStalled
  end.
Definition refresh_http_status (why : RecoveryReason) : option Z :=
  match why with
  | UpstreamUnauthorized => Some 401%Z
  | UpstreamForbidden => Some 403%Z
  | UpstreamGone => Some 410%Z
  | _ => None
  end.
Definition heartbeat_interval (lease_seconds : Z) : Z := Z.min (Z.max (lease_seconds / 3) 10) 60.

(** ** Rejections of the playback API *)
Definition stream_expired : LiveHttpRejection :=
  Rejection.new 410 "LIVE_STREAM_EXPIRED" "The Live stream descriptor expired." false.
Definition delivery_runtime_unavailable (mode : DeliveryMode) : LiveHttpRejection :=
  match mode with
  | ServerRelay => Rejection.new 503 "LIVE_RELAY_CAPACITY" "The Live relay runtime is not ready." true
  | ServerRemux => Rejection.new 503 "LIVE_REMUX_CAPACITY" "The Live remux runtime is not ready." true
  | ClientDirect => Rejection.new 503 "LIVE_PROVIDER_UNAVAILABLE" "The Live playback runtime is unavailable." true
  end.
Definition egress_unavailable : LiveHttpRejection :=
  Rejection.new 503 "LIVE_EGRESS_UNAVAILABLE" "Protected Live egress is unavailable." true.
Definition control_unavailable : LiveHttpRejection :=
  Rejection.new 503 "LIVE_CONTROL_LEASE_UNAVAILABLE" "The Live control service is unavailable." true.
Definition cleanup_incomplete : LiveHttpRejection :=
  Rejection.new 503 "LIVE_CLEANUP_INCOMPLETE" "The Live session ended, but delivery cleanup is incomplete." true.
Definition delivery_runtime_unavailable_error : LiveHttpRejection :=
  Rejection.new 503 "LIVE_PROVIDER_UNAVAILABLE" "The Live delivery runtime is unavailable." true.
Definition provider_unavailable : LiveHttpRejection :=
  Rejection.new 502 "LIVE_PROVIDER_UNAVAILABLE" "The Live provider is unavailable." true.
Definition upstream_rejected : LiveHttpRejection :=
  Rejection.new 502 "LIVE_UPSTREAM_REJECTED" "The Live upstream source failed security preflight." false.
Definition contract_invalid : LiveHttpRejection :=
  Rejection.new 502 "LIVE_CONTRACT_INVALID" "The Live provider returned an invalid stream contract." false.
Definition invalid_stream_key : LiveHttpRejection :=
  Rejection.new 404 "LIVE_STREAM_UNAVAILABLE" "The Live stream choice is unavailable." false.
Definition invalid_source_key : LiveHttpRejection :=
  Rejection.new 409 "LIVE_SESSION_CONFLICT" "The Live source selection is stale." false.
Definition stream_unavailable : LiveHttpRejection :=
  Rejection.new 422 "LIVE_STREAM_UNAVAILABLE" "The requested Live source is not currently eligible." false.
Definition recovery_unavailable : LiveHttpRejection :=
  Rejection.new 502 "LIVE_STREAM_UNAVAILABLE" "The current Live source cannot be refreshed." false.
Definition recovery_exhausted : LiveHttpRejection :=
  Rejection.new 503 "LIVE_FAILOVER_EXHAUSTED" "The bounded Live recovery policy is exhausted." false.
Definition session_not_found : LiveHttpRejection :=
  Rejection.new 404 "LIVE_SESSION_NOT_FOUND" "The Live session was not found." false.
Definition session_conflict : LiveHttpRejection :=
  Rejection.new 409 "LIVE_SESSION_CONFLICT" "The Live session changed before this request completed." false.
Definition session_expired : LiveHttpRejection :=
  Rejection.new 410 "LIVE_SESSION_EXPIRED" "The Live session has ended or expired." false.
Definition internal_error : LiveHttpRejection :=
  Rejection.new 500 "LIVE_INTERNAL_ERROR" "The Live request could not be completed." false.

Definition map_repository_error (e : SessionRepositoryError) : LiveHttpRejection :=
  match e with
  | InvalidInput => Rejection.invalid_request
  | OwnerUnavailable =>
      Rejection.new 403 "LIVE_SESSION_FORBIDDEN" "The Live session owner is no longer authorized." false
  | Capacity => Rejection.new 429 "LIVE_RELAY_CAPACITY" "Live session capacity is exhausted." true
  | IdempotencyConflict =>
      Rejection.new 409 "LIVE_IDEMPOTENCY_CONFLICT" "The idempotency key was already used for another request." false
  | NotFound => session_not_found
  | RevisionChanged | InvalidTransition => session_conflict
  | FenceLost => control_unavailable
  | SessionExpired => session_expired
  | InvalidState | CryptoError _ | Storage _ => internal_error
  end.

Definition map_provider_error (e : ProviderInvocationError) : LiveHttpRejection :=
  match e with
  | CallProvider {| pf_code := PfAccountRequired |} =>
      Rejection.new 409 "LIVE_ACCOUNT_REQUIRED" "Connect or reconnect this Live provider account." false
  | RequestTimeout | HardTimeout =>
      Rejection.new 504 "LIVE_PROVIDER_TIMEOUT" "The Live provider timed out." true
  | CallInvalidRequest _ | CallContract _ => contract_invalid
  | _ => provider_unavailable
  end.

Definition map_planner_error (e : PlannerRejection) : LiveHttpRejection :=
  match rejection_code e with
  | DescriptorExpired => stream_expired
  | RelayCapacity => Rejection.new 429 "LIVE_RELAY_CAPACITY" "Live relay capacity is exhausted." true
  | RemuxCapacity => Rejection.new 429 "LIVE_REMUX_CAPACITY" "Live remux capacity is exhausted." true
  | ProtectedEgressUnavailable => egress_unavailable
  | ClientProtocolUnsupported | ClientCodecUnsupported | ClientContainerUnsupported | RemuxProfileUnsupported =>
      Rejection.new 422 "LIVE_PROTOCOL_UNSUPPORTED" "The Live stream is not compatible with this client." false
  | PrivateNetworkForbidden => upstream_rejected
  | Planner.InvalidInput | MalformedDescriptor | ProtocolMismatch => contract_invalid
  | TimeShiftUnavailable | RelayDisabled | RemuxDisabled => delivery_runtime_unavailable_error
  end.

(** ** The destination rules of a provider *)
Record DestinationRuleRow := {
  dl_scheme : string;
  dl_normalized_host : string;
  dl_port : Z;
  dl_exact_path : string;
  dl_network_scope : string;
  dl_allow_fetch : bool;
  dl_allow_client_disclosure : bool;
}.
Record LoadedPolicy := {
  planner_rules : list DirectDisclosureRule;
  preflight_rules : list DestinationRule;
}.
(** the row of one rule: a rule that does not validate is left out *)
Definition disclosure_rule `{UrlOps} (row : DestinationRuleRow) : option DirectDisclosureRule :=
  if dl_allow_client_disclosure row
  then to_option (DirectDisclosureRule_new (dl_scheme row) (dl_normalized_host row) (dl_port row) (dl_exact_path row)
                    (String.eqb (dl_network_scope row) "public") true)
  else None.
Definition preflight_rule (row : DestinationRuleRow) : option DestinationRule :=
  if dl_allow_fetch row && String.eqb (dl_network_scope row) "public"
  then to_option (DestinationRule_new (dl_scheme row) (dl_normalized_host row) (dl_port row) (dl_exact_path row)
                    ScopePublic true)
  else None.
(** [rows]: those of the home and the provider, in the order of the query *)
Definition load_policy `{UrlOps} (rows : list DestinationRuleRow) : result LiveHttpRejection LoadedPolicy :=
  _ ← reject_if (MAX_POLICY_ROWS <? Z.of_nat (length rows))%Z internal_error;
  _ ← reject_if (existsb (fun r => negb ((0 <=? dl_port r) && (dl_port r <=? 65535)))%Z rows) internal_error;
  Ok {| planner_rules := omap disclosure_rule rows; preflight_rules := omap preflight_rule rows |}.

(** ** Visible ASCII texts: nothing to trim, no control character *)
Lemma visible_not_space c : visible_byte c = true -> ws1 c = false /\ (byte_of c < 128)%N /\ (33 <= byte_of c)%N.
Proof. unfold visible_byte, ws1. intros Hc. apply andb_true_iff in Hc as [H1%N.leb_le H2%N.leb_le].
  rewrite (proj2 (N.leb_gt _ 13)), (proj2 (N.eqb_neq _ 32)), andb_false_r by lia. split_and!; [done|lia..].
Qed.
Lemma ws1_visible a : visible_byte a = true -> ws1 a = false.
Proof. apply visible_not_space. Qed.
Lemma ws2_visible a b : visible_byte a = true -> ws2 a b = false.
Proof. intros (_ & Hl & _)%visible_not_space. unfold ws2. rewrite (proj2 (N.eqb_neq _ _)) by lia. done. Qed.
Lemma ws3_visible a b c : visible_byte a = true -> ws3 a b c = false.
Proof. intros (_ & Hl & _)%visible_not_space. unfold ws3. rewrite !(proj2 (N.eqb_neq (byte_of a) _)) by lia. done. Qed.

Lemma trim_start_visible s : all_bytes visible_byte s = true -> trim_start s = s.
Proof.
  destruct s as [|a [|b [|c s]]]; [done|..]; rewrite ?all_bytes_cons; intros Hs; cbn [trim_start]; bool_hyps;
    rewrite ws1_visible by done; rewrite ?ws2_visible, ?ws3_visible by done; done.
Qed.
Lemma trim_start_rev_visible s : all_bytes visible_byte s = true -> trim_start_rev s = s.
Proof.
  destruct s as [|a [|b [|c s]]]; [done|..]; rewrite ?all_bytes_cons; intros Hs; cbn [trim_start_rev]; bool_hyps;
    rewrite ws1_visible by done; rewrite ?ws2_visible, ?ws3_visible by done; done.
Qed.
Lemma all_bytes_rev p s : all_bytes p (String.rev s) = all_bytes p s.
Proof.
  induction s as [|c s IH]; [done|]. rewrite str_rev_cons, all_bytes_app, IH, !all_bytes_cons. cbn.
  by rewrite andb_true_r, andb_comm.
Qed.
Lemma trim_visible s : all_bytes visible_byte s = true -> trim s = s.
Proof.
  intros Hs. unfold trim, trim_end. rewrite trim_start_visible by done.
  rewrite trim_start_rev_visible by (by rewrite all_bytes_rev). apply str_rev_involutive.
Qed.
Lemma control_visible s : all_bytes visible_byte s = true -> any_control s = false.
Proof.
  induction s as [|c s IH]; [done|]. rewrite all_bytes_cons. intros [Hc Hs]%andb_true_iff. cbn. rewrite IH by done.
  unfold visible_byte in Hc. apply andb_true_iff in Hc as [H1%N.leb_le H2%N.leb_le].
  by rewrite (proj2 (N.ltb_ge _ 32)), (proj2 (N.eqb_neq _ 127)), (proj2 (N.eqb_neq _ 194)) by lia.
Qed.

Lemma lower_visible c : visible_byte c = true -> visible_byte (lower_byte c) = true.
Proof. revert c. intros [[] [] [] [] [] [] [] []]; by vm_compute. Qed.
Lemma lower_byte_idem c : lower_byte (lower_byte c) = lower_byte c.
Proof. by destruct c as [[] [] [] [] [] [] [] []]. Qed.
Lemma to_lower_idem s : to_lower (to_lower s) = to_lower s.
Proof. induction s as [|c s IH]; [done|]. cbn. by rewrite lower_byte_idem, IH. Qed.
Lemma capability_visible c : capability_byte c = true -> visible_byte c = true.
Proof. revert c. intros [[] [] [] [] [] [] [] []]; vm_compute; done. Qed.

(** ** What validation guarantees to the planner and the repository *)
Lemma normalize_capabilities_ok values names :
  normalize_capabilities values = Ok names ->
  (set_len names <= 32)%Z /\ forall v, v ∈ names -> valid_capability_name v = true.
Proof.
  unfold normalize_capabilities. intros Hn. ok_inv. bool_hyps.
  match goal with H : (32 <? _)%nat = false |- _ => apply Nat.ltb_ge in H end.
  match goal with H : (_ =? _)%nat = true |- _ => apply Nat.eqb_eq in H; rename H into Hs end.
  split; [unfold set_len; lia|]. intros v Hv.
  match goal with H : existsb _ _ = false |- _ => pose proof (proj1 (existsb_false_Forall _ _) H) as Hf end.
  rewrite Forall_forall in Hf. specialize (Hf v (proj2 (elem_of_elements _ _) Hv)). cbn in Hf. bool_hyps.
  apply elem_of_list_to_set, list_elem_of_fmap in Hv as (y & -> & Hy).
  unfold valid_capability_name, normalize_name.
  assert (all_bytes visible_byte (to_lower (trim y)) = true) as Hvis.
  { eapply all_bytes_impl; [|done]. apply capability_visible. }
  rewrite (trim_visible (to_lower (trim y))), to_lower_idem, String.eqb_refl by done.
  match goal with H : str_empty _ = false |- _ => rewrite H end. cbn [negb andb].
  by rewrite (proj2 (Z.leb_le _ _)).
Qed.

Lemma replace_char_all p a b s : (forall c, p c = true -> p (if Ascii.eqb c a then b else c) = true) ->
  all_bytes p s = true -> all_bytes p (replace_char a b s) = true.
Proof.
  intros Hp. induction s as [|c s IH]; [done|]. cbn [replace_char]. rewrite !all_bytes_cons.
  intros [Hc Hs]%andb_true_iff. by rewrite Hp, IH.
Qed.
Lemma to_lower_all p s : (forall c, p c = true -> p (lower_byte c) = true) ->
  all_bytes p s = true -> all_bytes p (to_lower s) = true.
Proof.
  intros Hp. induction s as [|c s IH]; [done|]. cbn [to_lower]. rewrite !all_bytes_cons.
  intros [Hc Hs]%andb_true_iff. by rewrite Hp, IH.
Qed.
Lemma to_lower_length s : slen (to_lower s) = slen s.
Proof. induction s as [|c s IH]; [done|]. cbn [to_lower]. by rewrite !slen_cons, IH. Qed.
Lemma to_lower_empty s : str_empty (to_lower s) = str_empty s.
Proof. by destruct s. Qed.

Lemma language_visible v : valid_track_language v = true -> all_bytes visible_byte (replace_char "_" "-" v) = true.
Proof.
  unfold valid_track_language. intros [_ Hf]%andb_true_iff.
  rewrite <- (join_split "-"%char (replace_char "_" "-" v)). induction (split_char _ _) as [|x [|y l] IH]; [done|..].
  - cbn in Hf |- *. bool_hyps. eapply all_bytes_impl; [|done]. intros [[] [] [] [] [] [] [] []]; vm_compute; done.
  - rewrite join_cons, all_bytes_app, all_bytes_cons. cbn [forallb] in Hf. apply andb_true_iff in Hf as [Hx Hf].
    rewrite (IH Hf). bool_hyps. rewrite andb_true_r.
    eapply all_bytes_impl; [|done]. intros [[] [] [] [] [] [] [] []]; vm_compute; done.
Qed.
Lemma language_stored v : valid_track_language v = true ->
  valid_preference_text (to_lower (replace_char "_" "-" v)) 64 = true.
Proof.
  intros Hv. pose proof (language_visible v Hv) as Hb.
  assert (all_bytes visible_byte (to_lower (replace_char "_" "-" v)) = true) as Hl by (by apply to_lower_all; [apply lower_visible|]).
  unfold valid_track_language in Hv. unfold valid_preference_text. bool_hyps.
  rewrite to_lower_empty, to_lower_length, trim_visible, String.eqb_refl, control_visible by done.
  match goal with H : str_empty _ = false |- _ => rewrite H end. by rewrite (proj2 (Z.leb_le _ _)).
Qed.
Lemma selection_stored id language title :
  track_refused id language title = false ->
  is_none_or valid_track_selection (track_selection id language title) = true.
Proof.
  unfold track_refused, track_selection. destruct id as [v|]; [|done]. intros Hr. cbn in Hr.
  rewrite orb_false_r in Hr. apply negb_false_iff in Hr. unfold valid_observed_track in Hr. cbn in Hr.
  cbn [fmap option_fmap option_map is_none_or]. unfold valid_track_selection.
  cbn [track_id SessionTypes.track_language SessionTypes.track_title].
  apply andb_true_iff in Hr as [[Hi Hl]%andb_true_iff Ht].
  change (valid_preference_text v 256) with (valid_track_text v 256). rewrite Hi.
  destruct language as [l|], title as [t|]; cbn in Hl, Ht |- *; rewrite ?language_stored by done; done.
Qed.

(** * Properties *)

(** What passes validation is not refused further on.  The capabilities of a valid creation request are
    valid planner input, with at most 32 codecs of each kind in normal form; the track update of a valid
    heartbeat, languages normalised, is one the repository accepts. *)
Theorem validated_requests_fit_downstream `{TimeText} :
  (forall r c, validate_create_request r = Ok () -> planner_capabilities (sq_client r) = Ok c ->
     ClientCapabilities_validate c = true) /\
  (forall now r u, validate_heartbeat now r = Ok () -> track_preference_update r = Some u ->
     update_is_empty u = false /\ valid_track_preference_update u = true).
Proof.
  split.
  - intros r c Hr Hc. unfold planner_capabilities in Hc. ok_inv.
    repeat match goal with Hn : normalize_capabilities _ = Ok _ |- _ => apply normalize_capabilities_ok in Hn as [? ?] end.
    unfold ClientCapabilities_validate. cbn [protocols containers video_codecs audio_codecs].
    rewrite !(proj2 (Z.leb_le (set_len _) 64)) by (lia || by vm_compute).
    assert (protocol_set (cr_protocols (sq_client r)) <> ∅) as Hp.
    { unfold validate_create_request in Hr. ok_inv. apply orb_false_iff in Hr as [Hr _]. bool_hyps.
      destruct (cr_protocols (sq_client r)) as [|p l]; [done|]. unfold protocol_set. set_solver. }
    rewrite (bool_decide_eq_false_2 _ Hp). cbn [negb andb]. apply forallb_forall. intros v Hv.
    apply list_elem_of_In in Hv. rewrite !elem_of_app, !elem_of_elements in Hv.
    destruct Hv as [Hv|[Hv|Hv]]; [|by eauto..].
    unfold planner_containers in Hv. apply elem_of_list_to_set in Hv.
    repeat (apply elem_of_cons in Hv as [->|Hv]; [by vm_compute|]). by apply elem_of_nil in Hv.
  - intros now r u Hv Hu. unfold validate_heartbeat in Hv. ok_inv. bool_hyps. unfold track_preference_update in Hu.
    destruct (update_is_empty _) eqn:He; [done|]. injection Hu as <-. split; [done|].
    unfold valid_track_preference_update. cbn [upd_audio upd_subtitle]. apply andb_true_iff.
    split; by apply selection_stored.
Qed.
