(* ===== verification/RequestWitness.v ===== *)
(** * Concrete public keys and egress assignments

    An item key of provider 5 under the ring of [Crypto.Demo], and a home whose administrator requires protection. *)
From stdpp Require Import pretty.
From S2P Require Import Prelude Bytes LiveContract Addresses EgressPolicy Crypto Vault CanonicalJson SessionStore SessionDemo CatalogGrants AdminAudit.
From S2P Require Import AdminWitness PublicKeys EgressAssignments.

Module KeyDemo.
#[export] Existing Instances Demo.prims Demo.laws.
#[export] Instance key_uuids : UuidText := {|
  uuid_to_string u := String "u" (World.bits (encode u));
  uuid_parse_str s := match s with String "u" r => decode (World.unbits r) | _ => None end |}.
Definition item_tuple (p : PublicKeyPayload) : option (uuid * uuid * uuid * Z * string * instant) :=
  match p with
  | ItemPayload provider s item e => Some (provider, sco_home_id s, sco_profile_id s, sco_authorization_revision s, item, e)
  | _ => None
  end.
#[export] Instance payload_text : PayloadText := {|
  payload_to_json p := (fun t => World.bits (encode t)) <$> item_tuple p;
  payload_of_json s := '(provider, home, profile, revision, item, e) ← decode (World.unbits s);
    Some (ItemPayload provider {| sco_home_id := home; sco_profile_id := profile; sco_authorization_revision := revision |} item e);
  i64_to_string z := pretty z;
  key_datetime_max := (8210266876799 * nanos_per_second)%Z |}.
#[export] Instance payload_laws : PayloadTextLaws payload_text.
Proof.
  split. intros p j Hj. destruct p as [provider [home profile revision] item e| | | |]; try discriminate.
  injection Hj as <-. cbn. rewrite World.unbits_bits, decode_encode. reflexivity.
Qed.
Definition scope : LivePublicKeyScope := {| sco_home_id := 2; sco_profile_id := 3; sco_authorization_revision := 1 |}.
Definition sealed : result LivePublicKeyError string := seal_item Demo.ring (Some Demo.nonce) 5 "movie" scope (seconds 10).
Definition key : string := match sealed with Ok k => k | Err _ => "" end.
End KeyDemo.

Import KeyDemo.
Lemma public_keys_open_exactly_witness :
  open_item Demo.ring KeyDemo.key 5 KeyDemo.scope (seconds 20) = Ok "movie" /\
  open_item Demo.ring KeyDemo.key 5 KeyDemo.scope (seconds 30000) = Err InvalidKey.
Proof.
  assert (KeyDemo.sealed = Ok KeyDemo.key) as Hs by (vm_compute; reflexivity).
  destruct (public_keys_open_exactly Demo.ring Demo.ring Demo.nonce 5 KeyDemo.scope KeyDemo.key Demo.ring_is_wf
    (conj eq_refl eq_refl) eq_refl) as [Hitem _].
  split; rewrite (Hitem "movie" (seconds 10) Hs KeyDemo.scope).
  - rewrite decide_True; [reflexivity|]. split; [reflexivity|vm_compute; discriminate].
  - rewrite decide_False; [reflexivity|]. intros [_ Hle]. vm_compute in Hle. exact (Hle eq_refl).
Defined.

(** ** Egress assignments *)
Module AssignmentDemo.
#[export] Existing Instances AuditDemo.prims AuditDemo.json_text AuditDemo.uuid_text AuditDemo.ops.
Definition vpn : LiveEgressProfileConfig := {|
  pc_id := "vpn"; pc_kind := Warp; pc_auth_host_path := None; pc_state_volume_name := None; pc_expected_egress_ips := [];
  pc_selectable_by_profiles := true |}.
Definition cfg : LiveEgressConfig := {|
  ec_default_mode := Off; ec_default_policy_id := None; ec_default_allow_fallback := false; ec_profiles := [vpn] |}.
Definition tables : EgressTables := {|
  eg_assignments := ∅; eg_homes := {[2%N]}; eg_users := {[1%N]}; eg_profiles := {[3%N := 2%N]}; eg_providers := {[5%N]};
  eg_admin_state := {[(5%N, 2%N)]}; eg_audit := no_records {[1%N]} |}.
(** the administrator requires protection for profile 3; its client asks for none *)
Definition written := upsert_assignment 10 2 (ProfileScope 3) RequireProtected (Some "vpn") false 0 1 (seconds 5) tables.
Definition stored : EgressTables := match written with Ok (_, t) => t | Err _ => tables end.
Definition first : StoredPolicyAssignment := {|
  sa_id := 10; sa_home_id := 2; sa_scope := ProfileScope 3; sa_mode := RequireProtected; sa_policy_id := Some "vpn";
  sa_allow_fallback := false; sa_revision := 1 |}.
Definition off : SessionEgressPolicyRequest := {| er_mode := Off; er_policy_id := None; er_allow_fallback := false |}.
Definition selected : EffectiveEgressPolicy := {|
  eff_mode := RequireProtected; eff_policy_id := Some "vpn"; eff_allow_fallback := false; eff_revision := 1;
  eff_source := ProfileAssignment |}.
End AssignmentDemo.
Import AssignmentDemo.

Lemma assignment_write_not_lost_witness :
  upsert_assignment 11 2 (ProfileScope 3) Off None false 0 1 (seconds 6) stored = Err EpRevisionChanged.
Proof.
  assert (written = Ok (first, stored)) as Hw by (vm_compute; reflexivity).
  destruct (assignment_write_not_lost 10 2 (ProfileScope 3) RequireProtected (Some "vpn") false 0 1 (seconds 5) tables first stored Hw)
    as (_ & _ & _ & _ & _ & _ & Hagain).
  apply Hagain. reflexivity.
Defined.
Lemma client_cannot_weaken_egress_witness : strict selected = true /\ eff_allow_fallback selected = false.
Proof.
  assert (select_policy cfg 2 3 5 (Some off) false stored = Ok selected) as Hs by (vm_compute; reflexivity).
  destruct (client_cannot_weaken_egress cfg 2 3 5 (Some off) false stored selected Hs) as (base & l & Hb & Hl & _ & Hreq & _).
  assert (assignments_for 2 3 5 stored = Ok [first]) as Hl' by (vm_compute; reflexivity).
  rewrite Hl in Hl'. injection Hl' as ->.
  destruct (Hreq (assignment_candidate first)) as (Hstrict & _ & Hf); [right; left|reflexivity|]. split; [exact Hstrict|exact Hf].
Defined.
