(* ===== verification/PlaybackRecovery.v ===== *)
(** * Planning and recovering a playback (src/src/http/handlers/live/sessions.rs)

    How the handlers turn resolved sources into a delivery plan, and what a refresh or a failover prepares: the
    order of the sources, the refresh of a source at the provider, the preflight of a direct delivery, and the
    loop over the other sources.  [stored.recovery] is the state of a process here, because the loop keeps the marks it
    makes when it fails.  The [n]-th question to the provider or to an upstream is answered by [refresh n] and
    [upstream n]. *)
From stdpp Require Import sorting.
From S2P Require Import Prelude Bytes Addresses LiveContract ProviderCalls EgressPolicy SessionTypes Planner Recovery Descriptor.
From S2P Require Import UpstreamPolicy CookieJar UpstreamCredentials UpstreamFetcher HttpAccess EgressAssignments.
From S2P Require Import PlaybackRequest Process.

(** ** The order of sources: by decreasing priority, then by id; [sort_by] is stable *)
Definition rank_le (p q : Z * string) : Prop := (q.1 < p.1)%Z \/ (p.1 = q.1 /\ String.le p.2 q.2).
#[export] Instance rank_le_dec : RelDecision rank_le.
Proof. intros p q. unfold rank_le. apply _. Defined.
#[export] Instance rank_le_trans : Transitive rank_le.
Proof.
  intros [a i] [b j] [c k]. unfold rank_le; cbn. intros [?|[-> H1]] [?|[-> H2]]; [left; lia|left; lia|left; lia|].
  right. split; [done|]. by etrans.
Qed.
#[export] Instance rank_le_total : Total rank_le.
Proof.
  intros [a i] [b j]. unfold rank_le; cbn. destruct (Z.lt_trichotomy a b) as [?|[->|?]]; [right; by left| |left; by left].
  destruct (total String.le i j); [left|right]; by right.
Qed.
Section sorting.
Context {A} (rank : A -> Z * string).
Fixpoint insert_by (x : A) (l : list A) : list A :=
  match l with
  | [] => [x]
  | y :: l => if decide (rank_le (rank x) (rank y)) then x :: y :: l else y :: insert_by x l
  end.
Definition sort_by (l : list A) : list A := foldr insert_by [] l.
End sorting.
Definition source_rank (s : SourceDescriptor) : Z * string := (priority s, stream_id s).
Definition stored_rank (s : StoredSource) : Z * string := (ss_priority s, ss_stream_id s).

(** the source with this id first, the others in order *)
Definition with_first (sources : list SourceDescriptor) (id : string) (e : LiveHttpRejection)
    : result LiveHttpRejection ResolvedSources :=
  '(i, d) ← ok_or (list_find (fun s => stream_id s = id) sources) e;
  Ok {| descriptor := d; alternatives := sort_by source_rank (delete i sources) |}.
Definition order_resolved (r : ResolvedSources) (preferred : string) : result LiveHttpRejection ResolvedSources :=
  with_first (candidate_sources r) preferred contract_invalid.
Definition resolved_from_stored (stored : StoredSessionDescriptor) (preferred : string)
    : result LiveHttpRejection ResolvedSources :=
  sources ← ok_or (mapM (M:=option) (fun s => to_option (to_source_descriptor s)) (sd_sources stored)) contract_invalid;
  with_first sources preferred stream_unavailable.

(** ** Policies of a request *)
Inductive LiveComponent :=
| CompCatalog | CompPlayback | CompClientDirect | CompRelay | CompRemux | CompProtectedEgress | CompStremioCompat
| CompNativeDashRelay | CompLowLatencyHls | CompRtmpRemux | CompSrtRemux | CompPrivateLanSources.
(** [ready]: the features that are enabled in effect; the capacities are none without the service *)
Definition planner_policy (ready : LiveComponent -> bool) (relay_capacity remux_capacity : option Z)
    (private_network_permission : bool) (loaded : LoadedPolicy) : PlannerPolicy :=
  {| client_direct_enabled := ready CompClientDirect; relay_enabled := ready CompRelay; remux_enabled := ready CompRemux;
     relay_capacity_available := is_some_and (fun n => 0 <? n)%Z relay_capacity;
     remux_capacity_available := is_some_and (fun n => 0 <? n)%Z remux_capacity;
     protected_egress_mode := Off; protected_egress_ready := ready CompProtectedEgress;
     allow_private_lan_sources := ready CompPrivateLanSources;
     provider_private_network_permission := private_network_permission;
     native_dash_relay_enabled := ready CompNativeDashRelay; rtmp_remux_enabled := ready CompRtmpRemux;
     srt_remux_enabled := ready CompSrtRemux; disclosure_rules := planner_rules loaded |}.
Definition with_egress_mode (m : EgressPolicyMode) (p : PlannerPolicy) : PlannerPolicy :=
  {| client_direct_enabled := client_direct_enabled p; relay_enabled := relay_enabled p; remux_enabled := remux_enabled p;
     relay_capacity_available := relay_capacity_available p; remux_capacity_available := remux_capacity_available p;
     protected_egress_mode := m; protected_egress_ready := protected_egress_ready p;
     allow_private_lan_sources := allow_private_lan_sources p;
     provider_private_network_permission := provider_private_network_permission p;
     native_dash_relay_enabled := native_dash_relay_enabled p; rtmp_remux_enabled := rtmp_remux_enabled p;
     srt_remux_enabled := srt_remux_enabled p; disclosure_rules := disclosure_rules p |}.
(** the session that is recovered has its capacity already *)
Definition with_held_capacity (mode : DeliveryMode) (p : PlannerPolicy) : PlannerPolicy :=
  {| client_direct_enabled := client_direct_enabled p; relay_enabled := relay_enabled p; remux_enabled := remux_enabled p;
     relay_capacity_available := bool_decide (mode = ServerRelay) || relay_capacity_available p;
     remux_capacity_available := bool_decide (mode = ServerRemux) || remux_capacity_available p;
     protected_egress_mode := protected_egress_mode p; protected_egress_ready := protected_egress_ready p;
     allow_private_lan_sources := allow_private_lan_sources p;
     provider_private_network_permission := provider_private_network_permission p;
     native_dash_relay_enabled := native_dash_relay_enabled p; rtmp_remux_enabled := rtmp_remux_enabled p;
     srt_remux_enabled := srt_remux_enabled p; disclosure_rules := disclosure_rules p |}.

(** [select_session_egress_policy]: [refreshed] says whether the built-in profile could be refreshed, [service] is the
    configuration of the egress service, when there is one *)
Definition session_egress_request `{UuidText} (r : SessionCreateRequest) : option SessionEgressPolicyRequest :=
  match sq_egress_mode r with
  | ReqInherit => None
  | ReqOff => Some {| er_mode := Off; er_policy_id := None; er_allow_fallback := false |}
  | ReqPreferProtected =>
      Some {| er_mode := PreferProtected; er_policy_id := uuid_to_string <$> sq_egress_policy_id r; er_allow_fallback := false |}
  | ReqRequireProtected =>
      Some {| er_mode := RequireProtected; er_policy_id := uuid_to_string <$> sq_egress_policy_id r; er_allow_fallback := false |}
  end.
Definition select_session_egress_policy `{UuidText} (refreshed : bool) (service : option LiveEgressConfig)
    (home_id profile_id : uuid) (r : SessionCreateRequest) (t : EgressTables)
    : result LiveHttpRejection EffectiveEgressPolicy :=
  _ ← reject_if (negb refreshed) egress_unavailable;
  match service with
  | None =>
      _ ← reject_if (is_some_b (sq_egress_policy_id r)
            || match sq_egress_mode r with ReqPreferProtected | ReqRequireProtected => true | _ => false end) egress_unavailable;
      Ok {| eff_mode := Off; eff_policy_id := None; eff_allow_fallback := false; eff_revision := 1;
            eff_source := match sq_egress_mode r with ReqOff => Session | _ => ServerConfig end |}
  | Some c =>
      map_err (fun _ => egress_unavailable)
        (select_policy c home_id profile_id (sq_provider_id r) (session_egress_request r) (is_some_b (sq_egress_policy_id r)) t)
  end.

(** ** Preparing a recovery *)
Definition preflight_limits : UpstreamLimits :=
  {| connect_timeout := seconds 5; header_timeout := seconds 5; idle_timeout := seconds 5; total_timeout := seconds 10;
     max_response_bytes := 1024; max_response_headers := 64; max_response_header_bytes := 32 * 1024; max_redirects := 5 |}.
Record PreparedRecovery := {
  pr_resolved : ResolvedSources;
  pr_plan : DeliveryPlan;
  pr_egress : EffectiveEgressPolicy;
}.
Record ProviderRefreshRequest := {
  pq_item_id : string;
  pq_stream_id : string;
  pq_refresh_handle : string;
  pq_category : RefreshFailureCategory;
  pq_http_status : option Z;
  pq_started_at : instant;
  pq_source_attempt : Z;
}.
(** what a request to recover needs next to the stored descriptor *)
Record RecoveryContext := {
  rx_delivery_mode : DeliveryMode;             (* of the session, and when it was created *)
  rx_created_at : instant;
  rx_provider_id : uuid;
  rx_permits_refresh : bool;                   (* [provider.permits(ProviderOperation::Refresh)] *)
  rx_item_id : string;
  rx_reason : RecoveryReason;
  rx_now : instant;
  rx_client : ClientCapabilities;
  rx_planner_policy : PlannerPolicy;
  rx_loaded : LoadedPolicy;
  rx_relay : bool;                             (* are there a relay and a remux service *)
  rx_remux : bool;
  rx_recovery_policy : RecoveryPolicy;
  rx_refresh_lead_seconds : Z;
}.

Section recovery.
Context `{UrlOps} `{DateOps} `{HeaderOps}.
Variable upstream : nat -> Env.                (* DNS and the upstream during the n-th preflight *)
Variable resolver : nat -> bool.               (* could a resolver be made *)
Variable refresh : nat -> ProviderRefreshRequest -> result ProviderInvocationError ResolvedSources.

Definition preflight_direct (n : nat) (source : SourceDescriptor) (rules : list DestinationRule)
    : result LiveHttpRejection unit :=
  _ ← reject_if (bool_decide (length rules = 0)) upstream_rejected;
  _ ← reject_if (negb (resolver n)) delivery_runtime_unavailable_error;
  _ ← map_err (fun _ => delivery_runtime_unavailable_error) (limits_validate preflight_limits);
  policy ← map_err (fun _ => upstream_rejected)
             (DestinationPolicy_new rules gate_default false {| deny_addresses := []; deny_networks := [] |});
  match (fetch (upstream n) preflight_limits
           {| fr_url := url source; fr_method := Head; fr_policy := policy; fr_safe_headers := ∅ |} None).1.2 with
  | Some (Ok response) =>
      reject_if (negb ((200 <=? ur_status response) && (ur_status response <? 300))%Z
                 || negb (Nat.eqb (ur_redirects response) 0)) upstream_rejected
  | _ => Err upstream_rejected
  end.
(** the arms of the match on the mode of a plan *)
Definition delivery_supported (n : nat) (mode : DeliveryMode) (selected : SourceDescriptor) (loaded : LoadedPolicy)
    (relay remux : bool) : result LiveHttpRejection unit :=
  match mode with
  | ClientDirect => preflight_direct n selected (preflight_rules loaded)
  | ServerRelay =>
      reject_if (negb (match protocol selected with Hls | HttpProgressive | MpegTs => true | _ => false end && relay))
        (delivery_runtime_unavailable mode)
  | ServerRemux =>
      reject_if (negb (match protocol selected with Dash | MpegTs => true | _ => false end && remux))
        (delivery_runtime_unavailable mode)
  end.
Definition prepare_recovery_plan (n : nat) (x : RecoveryContext) (resolved : ResolvedSources) (preferred : string)
    (stored_egress : StoredEgressPolicy.t) (server_delivery : bool) : result LiveHttpRejection PreparedRecovery :=
  resolved ← order_resolved resolved preferred;
  egress ← map_err (fun _ => contract_invalid) (StoredEgressPolicy.to_effective stored_egress);
  plan ← map_err map_planner_error (plan_delivery
           {| sources := resolved; client := rx_client x; policy := with_egress_mode (eff_mode egress) (rx_planner_policy x);
              requirements := {| require_time_shift := false; require_server_delivery := server_delivery |};
              now := rx_now x |});
  selected ← ok_or (source_at resolved (selected_source_index plan)) contract_invalid;
  _ ← reject_if (negb (String.eqb (stream_id selected) preferred)) stream_unavailable;
  _ ← delivery_supported n (plan_mode plan) selected (rx_loaded x) (rx_relay x) (rx_remux x);
  Ok {| pr_resolved := resolved; pr_plan := plan; pr_egress := egress |}.

(** the rest changes [stored.recovery] *)
Notation recovering := (proc StoredRecoveryState LiveHttpRejection).
Definition on_recovery {A} (m : method A) : recovering A := fun s =>
  let '(r, s) := m s in (map_err (fun _ => recovery_exhausted) r, s).
Definition refresh_provider_source (n : nat) (x : RecoveryContext) (source : StoredSource) (why : RecoveryReason)
    : recovering ResolvedSources :=
  _ ← lift (reject_if (negb (rx_permits_refresh x)) recovery_unavailable);
  handle ← lift (ok_or (ss_refresh_handle source) recovery_unavailable);
  _ ← lift (reject_if (str_empty handle) recovery_unavailable);
  attempts ← view (fun s => Z.of_nat (length (events s) + 1));
  resolved ← lift (map_err (fun e => Rejection.with_provider (map_provider_error e) (rx_provider_id x))
    (refresh n
      {| pq_item_id := rx_item_id x; pq_stream_id := ss_stream_id source; pq_refresh_handle := handle;
         pq_category := refresh_failure_category why; pq_http_status := refresh_http_status why;
         pq_started_at := rx_created_at x; pq_source_attempt := Z.max 1 (Z.min attempts 10) |}));
  _ ← lift (reject_if (negb (String.eqb (stream_id (descriptor resolved)) (ss_stream_id source))) contract_invalid);
  lift (order_resolved resolved (ss_stream_id source)).
Definition prepare_same_source_refresh (x : RecoveryContext) (stored : StoredSessionDescriptor)
    : recovering (option PreparedRecovery) :=
  current ← lift (ok_or (Descriptor.selected stored) contract_invalid);
  resolved ← refresh_provider_source 0 x current (rx_reason x);
  prepared ← lift (prepare_recovery_plan 0 x resolved (ss_stream_id current) (sd_egress stored) false);
  mret (Some prepared).

Definition should_replan_direct_through_server (mode : DeliveryMode) (why : RecoveryReason) (explicit : bool) : bool :=
  bool_decide (mode = ClientDirect) && negb explicit && match why with Transport | Stalled => true | _ => false end.
(** one turn of the loop of [prepare_source_failover]: none when the loop goes on *)
Definition refuse_candidate (x : RecoveryContext) (explicit : bool) (id : string) (e : LiveHttpRejection)
    : recovering (option PreparedRecovery) :=
  _ ← on_recovery (mark_source_failed id (rx_now x) (rx_recovery_policy x));
  if explicit then stop e else mret None.
Definition try_candidate (n : nat) (x : RecoveryContext) (stored : StoredSessionDescriptor) (explicit : bool)
    (candidate : StoredSource) : recovering (option PreparedRecovery) :=
  let id := ss_stream_id candidate in
  permitted ← on_recovery (fun s => (may_attempt_source s id (rx_now x) (rx_recovery_policy x), s));
  if negb permitted then mret None else
  let needs_refresh := is_some_and (fun t => t <=? rx_now x + seconds (rx_refresh_lead_seconds x))%Z (ss_expires_at candidate) in
  resolved ← (if needs_refresh then attempt (refresh_provider_source n x candidate ExpiryThreshold)
              else r ← lift (resolved_from_stored stored id); mret (Ok r));
  match resolved with
  | Err e => refuse_candidate x explicit id e
  | Ok resolved =>
      match prepare_recovery_plan n x resolved id (sd_egress stored) false with
      | Ok prepared => mret (Some prepared)
      | Err e => refuse_candidate x explicit id e
      end
  end.
Fixpoint try_candidates (n : nat) (x : RecoveryContext) (stored : StoredSessionDescriptor) (explicit : bool)
    (candidates : list StoredSource) : recovering (option PreparedRecovery) :=
  match candidates with
  | [] => if explicit then stop stream_unavailable else mret None
  | candidate :: rest =>
      prepared ← try_candidate n x stored explicit candidate;
      match prepared with
      | Some prepared => mret (Some prepared)
      | None => try_candidates (S n) x stored explicit rest
      end
  end.
(** the other sources, or the requested one *)
Definition failover_candidates (stored : StoredSessionDescriptor) (current : string) (requested : option string)
    : list StoredSource :=
  sort_by stored_rank (filter (fun s => ss_stream_id s <> current /\ is_none_or (String.eqb (ss_stream_id s)) requested)
                         (sd_sources stored)).
Definition prepare_source_failover (x : RecoveryContext) (stored : StoredSessionDescriptor) (requested : option string)
    : recovering (option PreparedRecovery) :=
  current ← lift (ss_stream_id <$> ok_or (Descriptor.selected stored) contract_invalid);
  replanned ← (if should_replan_direct_through_server (rx_delivery_mode x) (rx_reason x) (is_some_b requested)
               then resolved ← lift (resolved_from_stored stored current);
                    mret (to_option (prepare_recovery_plan 0 x resolved current (sd_egress stored) true))
               else mret None);
  match replanned with
  | Some prepared => mret (Some prepared)
  | None =>
      _ ← on_recovery (mark_source_failed current (rx_now x) (rx_recovery_policy x));
      try_candidates 1 x stored (is_some_b requested) (failover_candidates stored current requested)
  end.
End recovery.

(** ** Facts about the order *)
Section sorting_facts.
Context {A} (rank : A -> Z * string).
Notation before := (fun a b : A => rank_le (rank a) (rank b)).
Lemma insert_by_perm x l : insert_by rank x l ≡ₚ x :: l.
Proof. induction l as [|y l IH]; cbn; [done|]. destruct (decide _); [done|]. rewrite IH. apply Permutation_swap. Qed.
Lemma sort_by_perm l : sort_by rank l ≡ₚ l.
Proof. induction l as [|x l IH]; cbn; [done|]. by rewrite insert_by_perm, IH. Qed.
Lemma insert_by_sorted x l : StronglySorted before l -> StronglySorted before (insert_by rank x l).
Proof.
  induction 1 as [|y l Hl IH Hy]; cbn; [by repeat constructor|]. destruct (decide _) as [Hle|Hn].
  - constructor; [by constructor|]. constructor; [done|]. eapply Forall_impl; [exact Hy|]. intros z Hz. by etrans.
  - constructor; [done|]. rewrite insert_by_perm. constructor; [|done].
    by destruct (total rank_le (rank x) (rank y)).
Qed.
Lemma sort_by_sorted l : StronglySorted before (sort_by rank l).
Proof. induction l as [|x l IH]; cbn; [constructor|]. by apply insert_by_sorted. Qed.
End sorting_facts.

Lemma with_first_ok sources id e r : with_first sources id e = Ok r ->
  stream_id (descriptor r) = id /\ candidate_sources r ≡ₚ sources /\
  StronglySorted (fun a b => rank_le (source_rank a) (source_rank b)) (alternatives r).
Proof.
  unfold with_first. destruct (list_find _ sources) as [[i d]|] eqn:Hf; cbn; [|done]. intros [= <-]. cbn.
  apply list_find_Some in Hf as (Hi & Hd & _). split; [done|split; [|apply sort_by_sorted]].
  unfold candidate_sources; cbn. rewrite sort_by_perm. symmetry. by apply delete_Permutation.
Qed.
Lemma order_resolved_ok r id r' : order_resolved r id = Ok r' ->
  stream_id (descriptor r') = id /\ candidate_sources r' ≡ₚ candidate_sources r /\
  StronglySorted (fun a b => rank_le (source_rank a) (source_rank b)) (alternatives r').
Proof. apply with_first_ok. Qed.
Lemma source_at_candidate r i : source_at r i = candidate_sources r !! i.
Proof. by destruct i. Qed.

Lemma stored_source_id s d : to_source_descriptor s = Ok d -> stream_id d = ss_stream_id s.
Proof. unfold to_source_descriptor. intros Hs. ok_inv. done. Qed.
(** some stored source does not read back *)
Definition unreadable (stored : StoredSessionDescriptor) : Prop :=
  exists d, d ∈ sd_sources stored /\ is_ok (to_source_descriptor d) = false.
(** A stored source is found again, unless some source does not read back. *)
Lemma resolved_from_stored_err stored id e : id ∈ ss_stream_id <$> sd_sources stored ->
  resolved_from_stored stored id = Err e -> e = contract_invalid /\ unreadable stored.
Proof.
  unfold resolved_from_stored. intros Hin.
  destruct (mapM _ (sd_sources stored)) as [l|] eqn:Hm; cbn.
  2:{ intros [= <-]. split; [done|]. apply mapM_None in Hm. apply Exists_exists in Hm as (d & Hd & Hn). exists d. split; [done|].
      by destruct (to_source_descriptor d). }
  apply mapM_Some_1 in Hm. unfold with_first. destruct (list_find _ l) as [[i d]|] eqn:Hf; cbn; [done|].
  apply list_find_None in Hf. exfalso. apply list_elem_of_fmap in Hin as (s & -> & Hs).
  apply list_elem_of_lookup in Hs as [i Hi]. destruct (Forall2_lookup_l _ _ _ _ _ Hm Hi) as (d & Hd & Hsd).
  destruct (to_source_descriptor s) as [d'|] eqn:Hs; [|done]. injection Hsd as ->.
  rewrite Forall_lookup in Hf. apply (Hf i d Hd). by apply stored_source_id.
Qed.

(** ** Facts about a prepared plan *)
Section prepared.
Context `{UrlOps} `{DateOps} `{HeaderOps}.
Variable upstream : nat -> Env.
Variable resolver : nat -> bool.
Notation prepare_recovery_plan := (prepare_recovery_plan upstream resolver).

Lemma prepare_recovery_plan_ok n x resolved id egress server p :
  prepare_recovery_plan n x resolved id egress server = Ok p ->
  exists s,
    order_resolved resolved id = Ok (pr_resolved p) /\
    candidate_sources (pr_resolved p) !! selected_source_index (pr_plan p) = Some s /\ stream_id s = id /\
    StoredEgressPolicy.to_effective egress = Ok (pr_egress p) /\
    plan_delivery {| sources := pr_resolved p; client := rx_client x;
                     policy := with_egress_mode (eff_mode (pr_egress p)) (rx_planner_policy x);
                     requirements := {| require_time_shift := false; require_server_delivery := server |};
                     now := rx_now x |} = Ok (pr_plan p) /\
    delivery_supported upstream resolver n (plan_mode (pr_plan p)) s (rx_loaded x) (rx_relay x) (rx_remux x) = Ok ().
Proof.
  unfold PlaybackRecovery.prepare_recovery_plan. intros Hp.
  apply result_bind_ok in Hp as (r & Ho & Hp). apply result_bind_ok in Hp as (e & He & Hp).
  apply result_bind_ok in Hp as (plan & Hpl & Hp). apply result_bind_ok in Hp as (s & Hs & Hp).
  apply result_bind_ok in Hp as ([] & Hi & Hp). apply result_bind_ok in Hp as ([] & Hd & Hp).
  injection Hp as <-. cbn. exists s. rewrite source_at_candidate in Hs.
  apply reject_if_ok in Hi. apply negb_false_iff, String.eqb_eq in Hi.
  destruct (StoredEgressPolicy.to_effective egress) as [e'|]; [|done]. injection He as ->.
  destruct (plan_delivery _) as [plan'|]; [|done]. injection Hpl as ->.
  destruct (candidate_sources r !! _) as [s'|]; [|done]. injection Hs as ->. done.
Qed.
(** What passes the checks of a source for a mode of delivery. *)
Lemma direct_plan_off input plan : plan_delivery input = Ok plan -> plan_mode plan = ClientDirect ->
  protected_egress_mode (policy input) = Off /\ require_server_delivery (requirements input) = false.
Proof.
  intros (s & c & _ & Hc & Hm & _)%plan_selected_source Hdir.
  apply evaluate_source_ok in Hc as (u & _ & Hc). rewrite <- Hm, Hdir in Hc. destruct Hc as (Hd & _).
  by apply direct_constraint_none in Hd as (_ & ? & Hd); destruct_and! Hd.
Qed.
End prepared.

(** ** Which sources may still be tried *)
Section refusals.
Variable p : RecoveryPolicy.
Variable t : instant.
Definition refused (s : StoredRecoveryState) (id : string) : Prop := may_attempt_source s id t p = Ok false.
Lemma refused_spec s id : refused s id <-> (valid_source_id id = true /\
  (cooling id t (source_health s) = true \/
   ((id ∉ attempted_source_ids s) /\ (max_sources p <= length (attempted_source_ids s))%nat))).
Proof.
  unfold refused, may_attempt_source, cooling. destruct (valid_source_id id); cbn [negb]; [|split; [done|by intros [? _]]].
  destruct (existsb _ (source_health s)); [split; [intros _; by split; [|left]|done]|].
  destruct (existsb _ (attempted_source_ids s)) eqn:He; cbn [orb].
  - apply existsb_eqb_elem in He. split; [done|]. intros [_ [?|[? _]]]; done.
  - apply existsb_eqb_not_elem in He.
    destruct (Nat.ltb_spec (length (attempted_source_ids s)) (max_sources p)) as [Hl|Hl].
    + split; [done|]. intros [_ [?|[_ ?]]]; [done|lia].
    + split; [intros _|done]. split; [done|right]. by split.
Qed.
Lemma mark_attempted id s s' : mark_source_failed id t p s = (Ok (), s') ->
  attempted_source_ids s' = attempted_source_ids s \/ (length (attempted_source_ids s) < max_sources p)%nat.
Proof.
  unfold mark_source_failed, track_source, and_then. destruct (valid_source_id id); cbn; [|done].
  destruct (existsb _ _); [intros [= _ <-]; by left|]. destruct (_ <=? _) eqn:Hl; [done|].
  apply Nat.leb_gt in Hl. intros _. by right.
Qed.
Lemma mark_err id s e s' : mark_source_failed id t p s = (Err e, s') -> recovery_inv s -> (max_sources p <= MAX_STORED_SOURCE_HEALTH)%nat ->
  s' = s /\ (valid_source_id id = false \/ ((id ∉ attempted_source_ids s) /\ (max_sources p <= length (attempted_source_ids s))%nat)).
Proof.
  intros Hm Hs Hp. destruct (mark_source_failed_spec id t p s Hs Hp) as (s1 & Hm1 & _). rewrite Hm in Hm1. injection Hm1 as He _.
  unfold mark_source_failed, and_then at 1, track_source in Hm. unfold track_refusal in He. destruct (valid_source_id id); cbn in *.
  2:{ injection Hm as _ <-. split; [done|by left]. }
  destruct (existsb _ (attempted_source_ids s)) eqn:Hin; cbn in *.
  { apply existsb_eqb_elem in Hin. by rewrite bool_decide_true in He. }
  apply existsb_eqb_not_elem in Hin. rewrite bool_decide_false in He by done.
  destruct (_ <=? _) eqn:Hl; cbn in *; [|done]. apply Nat.leb_le in Hl. injection Hm as _ <-. split; [done|by right].
Qed.
(** a source that may be attempted can be marked *)
Lemma attempted_marks id s : may_attempt_source s id t p = Ok true -> recovery_inv s -> (max_sources p <= MAX_STORED_SOURCE_HEALTH)%nat ->
  exists s', mark_source_failed id t p s = (Ok (), s').
Proof.
  intros Hm Hs Hp. destruct (mark_source_failed id t p s) as [[[]|e] s'] eqn:He; [by exists s'|exfalso].
  apply mark_err in He as [_ He]; [|done..]. unfold may_attempt_source in Hm. destruct He as [Hv|[Hn Hl]].
  - by rewrite Hv in Hm.
  - destruct (negb _); [done|]. destruct (existsb _ (source_health s)); [done|]. apply existsb_eqb_not_elem in Hn. rewrite Hn in Hm. cbn in Hm.
    injection Hm as Hm. apply Nat.ltb_lt in Hm. lia.
Qed.
Lemma mark_refuses id s s' :
  recovery_inv s -> (max_sources p <= MAX_STORED_SOURCE_HEALTH)%nat -> (0 < source_cooldown p)%Z ->
  mark_source_failed id t p s = (Ok (), s') ->
  recovery_inv s' /\ refused s' id /\ forall id', refused s id' -> refused s' id'.
Proof.
  intros Hs Hp Hc Hm. destruct (mark_source_failed_spec id t p s Hs Hp) as (s1 & Hm1 & Hs1 & _).
  assert (s1 = s') as -> by congruence. destruct (mark_health _ _ _ _ _ Hs Hp Hm) as (Hv & Hin & Hcool).
  assert (refused s' id) as Hid.
  { apply refused_spec. split; [done|left]. rewrite Hcool, String.eqb_refl. apply Z.ltb_lt. lia. }
  split; [done|split; [done|]]. intros id' [Hv' Hr]%refused_spec. destruct (String.eqb_spec id' id) as [->|Hne]; [done|].
  apply refused_spec. split; [done|]. destruct Hr as [Hr|[Hn Hl]].
  - left. rewrite Hcool. by destruct (String.eqb_spec id' id).
  - right. destruct (mark_attempted _ _ _ Hm) as [->|?]; [done|lia].
Qed.
End refusals.

(** ** The loop *)
Section failover.
Context `{UrlOps} `{DateOps} `{HeaderOps}.
Variable upstream : nat -> Env.
Variable resolver : nat -> bool.
Variable refresh : nat -> ProviderRefreshRequest -> result ProviderInvocationError ResolvedSources.
Variable x : RecoveryContext.
Variable stored : StoredSessionDescriptor.
Notation policy := (rx_recovery_policy x).
Notation refused := (refused policy (rx_now x)).
Notation try_candidate := (try_candidate upstream resolver refresh).
Notation try_candidates := (try_candidates upstream resolver refresh).
Hypothesis few_sources : (max_sources policy <= MAX_STORED_SOURCE_HEALTH)%nat.
Hypothesis cools_down : (0 < source_cooldown policy)%Z.

(** a plan for the candidate, made by [prepare_recovery_plan] for this source *)
Definition planned_for (id : string) (server : bool) (q : PreparedRecovery) : Prop :=
  exists n resolved, prepare_recovery_plan upstream resolver n x resolved id (sd_egress stored) server = Ok q.
(** what is refused stays refused *)
Definition narrows (s s' : StoredRecoveryState) : Prop := recovery_inv s' /\ forall id, refused s id -> refused s' id.
Lemma narrows_refl s : recovery_inv s -> narrows s s.
Proof. by split. Qed.
(** the current source is not among the attempted ones, and there is no room for it *)
Definition untracked (current : string) (s : StoredRecoveryState) : Prop :=
  (current ∉ attempted_source_ids s) /\ (max_sources policy <= length (attempted_source_ids s))%nat.
Definition misnamed : Prop := exists d, d ∈ sd_sources stored /\ valid_source_id (ss_stream_id d) = false.
(** what a stored source that is not one can do to the failover *)
Definition bad_source (e : LiveHttpRejection) : Prop :=
  (e = recovery_exhausted /\ misnamed) \/ (e = contract_invalid /\ unreadable stored).
(** the source was tried: its refresh or its plan failed with this error *)
Definition failed_with (c : StoredSource) (e : LiveHttpRejection) : Prop :=
  (exists n s, refresh_provider_source refresh n x c ExpiryThreshold s = (Err e, s)) \/
  (exists n resolved, prepare_recovery_plan upstream resolver n x resolved (ss_stream_id c) (sd_egress stored) false = Err e).
Lemma mark_narrows id s r s' : recovery_inv s -> on_recovery (mark_source_failed id (rx_now x) policy) s = (r, s') ->
  match r with
  | Ok _ => narrows s s' /\ refused s' id
  | Err e => e = recovery_exhausted /\ s' = s /\ (valid_source_id id = false \/ untracked id s)
  end.
Proof.
  unfold on_recovery. destruct (mark_source_failed _ _ _ s) as [[[]|e] s1] eqn:Hm; intros Hs [= <- <-]; cbn.
  - by destruct (mark_refuses _ _ _ _ _ Hs few_sources cools_down Hm) as (? & ? & ?).
  - split; [done|]. by eapply mark_err.
Qed.
Lemma refresh_provider_source_state n source why s r s' :
  refresh_provider_source refresh n x source why s = (r, s') -> s' = s.
Proof.
  unfold refresh_provider_source. intros Hr.
  repeat (apply proc_bind_inv in Hr as [(? & ? & [= ? <-] & Hr)|(? & [= ? <-] & _)]; try done). by injection Hr.
Qed.
Lemma refuse_candidate_spec explicit id e s r s' :
  recovery_inv s -> may_attempt_source s id (rx_now x) policy = Ok true -> refuse_candidate x explicit id e s = (r, s') ->
  r = (if explicit then Err e else Ok None) /\ narrows s s' /\ refused s' id.
Proof.
  intros Hs Hmay Hr. destruct (attempted_marks _ _ _ _ Hmay Hs few_sources) as [s1 Hm].
  assert (on_recovery (mark_source_failed id (rx_now x) policy) s = (Ok (), s1)) as Hon by (unfold on_recovery; by rewrite Hm).
  unfold refuse_candidate, mbind, proc_bind in Hr. rewrite Hon in Hr. apply mark_narrows in Hon as [??]; [|done].
  by destruct explicit; injection Hr as <- <-.
Qed.
Lemma try_candidate_spec n explicit c s r s' :
  recovery_inv s -> c ∈ sd_sources stored -> try_candidate n x stored explicit c s = (r, s') ->
  match r with
  | Ok (Some q) => s' = s /\ may_attempt_source s (ss_stream_id c) (rx_now x) policy = Ok true /\
                   planned_for (ss_stream_id c) false q
  | Ok None => narrows s s' /\ refused s' (ss_stream_id c)
  | Err e => narrows s s' /\ ((explicit = true /\ failed_with c e /\ refused s' (ss_stream_id c)) \/ bad_source e)
  end.
Proof.
  intros Hs Hc Hr. unfold PlaybackRecovery.try_candidate in Hr.
  apply proc_bind_inv in Hr as [(permitted & s1 & Hm & Hr)|(e & Hm & ->)].
  2:{ unfold on_recovery in Hm. destruct (may_attempt_source _ _ _ _) eqn:Hmay; [done|]. injection Hm as <- <-. split; [by apply narrows_refl|].
      right; left. split; [done|]. exists c. split; [done|]. unfold may_attempt_source in Hmay. destruct (valid_source_id _); [|done].
      cbn in Hmay. by destruct (existsb _ (source_health s)). }
  unfold on_recovery in Hm. destruct (may_attempt_source s _ _ _) as [b|] eqn:Hmay; [|done]. injection Hm as <- <-.
  destruct b; cbn in Hr; [|injection Hr as <- <-; split; [by apply narrows_refl|done]].
  assert (forall e, failed_with c e -> refuse_candidate x explicit (ss_stream_id c) e s = (r, s') ->
    match r with
    | Ok (Some q) => False
    | Ok None => narrows s s' /\ refused s' (ss_stream_id c)
    | Err e => narrows s s' /\ ((explicit = true /\ failed_with c e /\ refused s' (ss_stream_id c)) \/ bad_source e)
    end) as Hrefuse.
  { intros e Hf Hx. apply refuse_candidate_spec in Hx as (-> & ? & ?); [|done..]. destruct explicit; [|done]. split; [done|by left]. }
  apply proc_bind_inv in Hr as [(resolved & s1 & Hm & Hr)|(e & Hm & ->)].
  - assert (s1 = s /\ forall e, resolved = Err e -> failed_with c e) as [-> Hfail].
    { destruct (is_some_and _ _); [|repeat proc_step; by split]. unfold attempt in Hm.
      destruct (refresh_provider_source _ _ _ _ _ s) as [r1 s2] eqn:Href. injection Hm as -> <-.
      pose proof (refresh_provider_source_state _ _ _ _ _ _ Href) as ->. split; [done|]. intros e ->. left. by exists n, s. }
    destruct resolved as [resolved|e]; [|apply Hrefuse in Hr; [by destruct r as [[]|]|by apply Hfail]].
    destruct (prepare_recovery_plan _ _ _ _ _ _ _ _) as [q|e] eqn:Hp;
      [|apply Hrefuse in Hr; [by destruct r as [[]|]|right; by exists n, resolved]].
    injection Hr as <- <-. split; [done|split; [done|]]. by exists n, resolved.
  - destruct (is_some_and _ _).
    { unfold attempt in Hm. by destruct (refresh_provider_source _ _ _ _ _ s). }
    apply proc_bind_inv in Hm as [(? & ? & _ & [=])|(e1 & [= He ->] & [= ->])].
    split; [by apply narrows_refl|]. right; right. eapply resolved_from_stored_err; [|done]. apply list_elem_of_fmap. by exists c.
Qed.
Lemma try_candidates_spec n explicit cs s r s' :
  recovery_inv s -> cs ⊆ sd_sources stored -> try_candidates n x stored explicit cs s = (r, s') ->
  narrows s s' /\
  match r with
  | Ok (Some q) => exists l c l', cs = l ++ c :: l' /\
      may_attempt_source s' (ss_stream_id c) (rx_now x) policy = Ok true /\ planned_for (ss_stream_id c) false q /\
      forall d, d ∈ l -> refused s' (ss_stream_id d)
  | Ok None => explicit = false /\ forall d, d ∈ cs -> refused s' (ss_stream_id d)
  | Err e => (explicit = true /\ e = stream_unavailable /\ forall d, d ∈ cs -> refused s' (ss_stream_id d)) \/
      (explicit = true /\ exists c, c ∈ cs /\ failed_with c e /\ refused s' (ss_stream_id c)) \/ bad_source e
  end.
Proof.
  revert n s. induction cs as [|c cs IH]; intros n s Hs Hsub Hr; cbn in Hr.
  { assert (s' = s) as -> by by destruct explicit; injection Hr. split; [by apply narrows_refl|].
    destruct explicit; injection Hr as <-; [left; split; [done|split; [done|]]|split; [done|]]; intros d Hd; by apply elem_of_nil in Hd. }
  apply proc_bind_inv in Hr as [(o & s1 & Hm & Hr)|(e & Hm & ->)].
  2:{ apply try_candidate_spec in Hm as [Hn He]; [|done|apply Hsub; by left]. split; [done|]. destruct He as [(? & ? & ?)|?]; [|by right; right].
      right; left. split; [done|]. exists c. split; [by left|done]. }
  apply try_candidate_spec in Hm; [|done|apply Hsub; by left]. destruct o as [q|].
  - destruct Hm as (-> & Hmay & Hp). injection Hr as <- <-. split; [by apply narrows_refl|]. exists [], c, cs.
    split; [done|split; [done|split; [done|]]]. intros d Hd. by apply elem_of_nil in Hd.
  - destruct Hm as [[Hs1 Hn] Hc]. destruct (IH (S n) s1 Hs1 ltac:(set_solver) Hr) as [[Hs' Hn'] Hend]. split; [split; [done|]; auto|].
    assert (forall l, (forall d, d ∈ l -> refused s' (ss_stream_id d)) -> forall d, d ∈ c :: l -> refused s' (ss_stream_id d)) as Hall.
    { intros l Hl d [->|Hd]%elem_of_cons; auto. }
    destruct r as [[q|]|e].
    + destruct Hend as (l & c' & l' & -> & Hmay & Hp & Hl). exists (c :: l), c', l'. split_and!; [done|done|done|by apply Hall].
    + destruct Hend as [He Hl]. split; [done|by apply Hall].
    + destruct Hend as [(? & ? & ?)|[(? & d & ? & ? & ?)|?]]; [left; split_and!; [done|done|by apply Hall]| |by right; right].
      right; left. split; [done|]. exists d. split; [by right|done].
Qed.
End failover.

(** * Properties *)
Section properties.
Context `{UrlOps} `{DateOps} `{HeaderOps}.
Variable upstream : nat -> Env.
Variable resolver : nat -> bool.
Variable refresh : nat -> ProviderRefreshRequest -> result ProviderInvocationError ResolvedSources.
Notation planned_for := (planned_for upstream resolver).

Lemma failover_candidates_elem stored current requested s : s ∈ failover_candidates stored current requested <->
  s ∈ sd_sources stored /\ ss_stream_id s <> current /\ (forall id, requested = Some id -> ss_stream_id s = id).
Proof.
  unfold failover_candidates. rewrite sort_by_perm, list_elem_of_filter. split.
  - intros [[Hne Hq] Hs]. split; [done|split; [done|]]. intros id ->. cbn in Hq. by destruct (String.eqb_spec (ss_stream_id s) id).
  - intros (Hs & Hne & Hq). split; [split; [done|]|done]. destruct requested as [id|]; [|done]. cbn.
    by rewrite (Hq id eq_refl), String.eqb_refl.
Qed.
Lemma sorted_prefix l (c d : StoredSource) l' :
  StronglySorted (fun a b => rank_le (stored_rank a) (stored_rank b)) (l ++ c :: l') ->
  d ∈ l ++ c :: l' -> ~ rank_le (stored_rank c) (stored_rank d) -> d ∈ l.
Proof.
  intros Hs [Hd|[->|Hd]%elem_of_cons]%elem_of_app Hn; [done| |].
  - exfalso. apply Hn. by destruct (total rank_le (stored_rank c) (stored_rank c)).
  - exfalso. apply Hn. induction l as [|b l IH]; cbn in Hs; apply StronglySorted_inv in Hs as [Hs Hb]; [|by apply IH].
    rewrite Forall_forall in Hb. by apply Hb.
Qed.


(** C16: A recovery keeps the source it was made for and the protection of the session.  The planned source is the
    one that was asked for, first among the resolved sources and the others behind it in order; the egress policy
    is the stored one, so that a session under a protecting policy is delivered by the server, whatever the source
    discloses; a plan that must be delivered by the server is; and a direct delivery was preflighted: the upstream
    answered a HEAD request on a permitted address with success and without a redirect. *)
Theorem recovery_keeps_source_and_protection n x resolved id egress server q :
  prepare_recovery_plan upstream resolver n x resolved id egress server = Ok q ->
  exists s, candidate_sources (pr_resolved q) !! selected_source_index (pr_plan q) = Some s /\ stream_id s = id /\
    candidate_sources (pr_resolved q) ≡ₚ candidate_sources resolved /\
    stream_id (descriptor (pr_resolved q)) = id /\
    StronglySorted (fun a b => rank_le (source_rank a) (source_rank b)) (alternatives (pr_resolved q)) /\
    StoredEgressPolicy.to_effective egress = Ok (pr_egress q) /\
    (protected (pr_egress q) || server = true -> plan_mode (pr_plan q) <> ClientDirect) /\
    (plan_mode (pr_plan q) = ClientDirect -> exists p contacts response credentials,
       DestinationPolicy_new (preflight_rules (rx_loaded x)) gate_default false {| deny_addresses := []; deny_networks := [] |} = Ok p /\
       fetch (upstream n) preflight_limits {| fr_url := url s; fr_method := Head; fr_policy := p; fr_safe_headers := ∅ |} None =
         (contacts, Some (Ok response), credentials) /\ (200 <= ur_status response < 300)%Z /\ ur_redirects response = 0) /\
    (plan_mode (pr_plan q) = ServerRelay -> rx_relay x = true) /\ (plan_mode (pr_plan q) = ServerRemux -> rx_remux x = true).
Proof.
  intros Hq. apply prepare_recovery_plan_ok in Hq as (s & Ho & Hs & Hid & He & Hp & Hd).
  apply order_resolved_ok in Ho as (Hf & Hperm & Hsort). exists s.
  split; [done|split; [done|split; [done|split; [done|split; [done|split; [done|split; [|split; [|split]]]]]]]].
  - intros Hpr Hdir. apply direct_plan_off in Hp as [Hoff Hsrv]; [|done]. cbn in Hoff, Hsrv. subst server.
    rewrite orb_false_r in Hpr. apply bool_decide_eq_true in Hpr. done.
  - intros Hdir. rewrite Hdir in Hd. unfold delivery_supported, preflight_direct in Hd.
    apply result_bind_ok in Hd as ([] & _ & Hd). apply result_bind_ok in Hd as ([] & _ & Hd).
    apply result_bind_ok in Hd as ([] & _ & Hd). apply result_bind_ok in Hd as (p & Hpol & Hd).
    destruct (DestinationPolicy_new _ _ _ _) as [p'|]; [|done]. injection Hpol as ->.
    destruct (fetch _ _ _ _) as [[contacts [[response|]|]] credentials] eqn:Hfetch; [|done..]. cbn in Hd.
    exists p, contacts, response, credentials. apply reject_if_ok in Hd. apply orb_false_iff in Hd as [Hst Hre].
    apply negb_false_iff in Hst, Hre. apply andb_true_iff in Hst as [??]. apply Nat.eqb_eq in Hre.
    split; [done|split; [done|split; [lia|done]]].
  - intros Hm. rewrite Hm in Hd. apply reject_if_ok, negb_false_iff, andb_true_iff in Hd. apply Hd.
  - intros Hm. rewrite Hm in Hd. apply reject_if_ok, negb_false_iff, andb_true_iff in Hd. apply Hd.
Qed.
End properties.
