(* ===== verification/PlaybackRuntime.v ===== *)
(** * Running a playback (src/src/http/handlers/live/sessions.rs)

    How a session gets its delivery and loses it: the moves of its state, the admission at the egress service and
    at the relay or remux service, and the release.  The egress service is used through an interface
    ([EgressService], [EgressServiceLaws]) that [EgressBindings] implements.  The admission of the relay
    (src/src/live/relay/service.rs) is modelled here on the entries of [RelaySessions]; that of the remux service
    is a function that succeeds or fails.  [meanwhile n] is what other servers
    and the other tasks of this one do before the [n]-th access to the database. *)
From S2P Require Import Prelude Bytes LiveContract EgressPolicy SessionTypes Planner Recovery Descriptor Crypto Vault.
From S2P Require Import CanonicalJson SessionStore SessionRepo SessionFacts SessionEvolution AdminAudit EgressAssignments Process.
From S2P Require Import UpstreamPolicy CookieJar UpstreamCredentials HlsResources RelaySessions.
From S2P Require Import EgressWorkers EgressBindings EgressSafety HttpAccess PlaybackRequest.

(** ** What a handler needs of the egress service *)
Class EgressService := {
  egress_ensure : SessionRecord -> EffectiveEgressPolicy -> ActorSnapshot -> egress (option Z);
  egress_end : uuid -> Z -> egress unit;
  egress_fetcher : SessionRecord -> EffectiveEgressPolicy -> EgressWorld -> result LiveEgressError (option Z);
  egress_outcome : SessionRecord -> EffectiveEgressPolicy -> EgressWorld -> result LiveEgressError LiveEgressOutcome;
}.
(** no live row of the session is in the database *)
Definition over (id : uuid) (w : EgressWorld) : Prop :=
  forall r, db_sessions (es_db (ew_store w)) !! id = Some r -> live_row r = false.
(** nothing in the memory of the egress service routes the session *)
Definition unrouted (id : uuid) (w : EgressWorld) : Prop := ew_bindings w !! id = None /\ ew_fallbacks w !! id = None.
(** the world after an access to the database *)
Definition with_db (db : Db) (s : Store) : Store := {| es_db := db; es_rows := es_rows s; es_audit := es_audit s |}.
Definition accessed (n : nat) (s : Store) (w : EgressWorld) : EgressWorld :=
  {| ew_tick := S n; ew_store := s; ew_calls := ew_calls w; ew_bindings := ew_bindings w; ew_fallbacks := ew_fallbacks w;
     ew_relay := ew_relay w |}.
Definition set_relay (f : gmap uuid RelaySession -> gmap uuid RelaySession) (w : EgressWorld) : EgressWorld :=
  {| ew_tick := ew_tick w; ew_store := ew_store w; ew_calls := ew_calls w; ew_bindings := ew_bindings w;
     ew_fallbacks := ew_fallbacks w; ew_relay := f (ew_relay w) |}.
(** [sound]: what the operations keep; [proved]: what is known of the worker of a binding; [spent]: the ids under which
    no session is created any more *)
Class EgressServiceLaws (E : EgressService) (sound : EgressWorld -> Prop) (proved : ActiveBinding -> list RuntimeCall -> Prop)
    (spent : uuid -> Prop) : Prop := {
  sound_valid w : sound w -> db_inv (es_db (ew_store w));
  (* soundness is about the memory of the service, the history of the runtime and the validity of the sessions *)
  sound_accessed n s w : sound w -> db_inv (es_db s) -> sound (accessed n s w);
  sound_relay f w : sound w -> sound (set_relay f w);
  ensure_keeps session policy actor : keeps sound (egress_ensure session policy actor);
  end_keeps i fence : keeps sound (egress_end i fence);
  (* the egress service does not touch the entries of the relay *)
  end_keeps_relay m i fence : keeps (fun w => ew_relay w = m) (egress_end i fence);
  end_keeps_over id i fence : spent id -> keeps (over id) (egress_end i fence);
  ensure_routes session policy actor w route w' :
    sound w -> egress_ensure session policy actor w = (Ok route, w') -> protected policy = true ->
    match route with
    | Some fetcher => exists b, ew_bindings w' !! SessionTypes.id session = Some b /\ binding_matches b session policy = true /\
        ab_fetcher b = fetcher /\ proved b (ew_calls w')
    | None => falls_back policy = true /\ permitted_fallback session policy w' = true
    end;
  outcome_honest session policy w : sound w -> protected policy = true ->
    match egress_outcome session policy w with
    | Ok OutProtected => exists b, ew_bindings w !! SessionTypes.id session = Some b /\ binding_matches b session policy = true /\
        proved b (ew_calls w)
    | Ok OutDirectFallback => falls_back policy = true /\ permitted_fallback session policy w = true
    | Ok OutServerDefault => False
    | Err _ => True
    end;
  end_forgets i fence w r w' : egress_end i fence w = (r, w') ->
    match r with Ok _ => unrouted i w' | Err _ => memory w' = memory w end;
}.

(** the JSON of stored descriptors and item snapshots (serde_json) *)
Class DescriptorText := {
  descriptor_to_json : StoredSessionDescriptor -> option string;
  descriptor_of_json : string -> option StoredSessionDescriptor;
  snapshot_to_json : uuid -> string -> option string;        (* providerId, itemId *)
  snapshot_of_json : string -> option (uuid * string);
}.

(** ** The services of a server *)
Record DeliveryServices := {
  ds_repository : nat -> bool;                                                  (* is there a session repository *)
  ds_egress : bool;                                                             (* is there an egress service *)
  ds_relay : option RelayService;
  ds_remux : option (nat -> SessionRecord -> result LiveHttpRejection unit);    (* [admit_session] of the remux service *)
  ds_remux_ended : nat -> uuid -> bool;                                         (* did its [end_session] succeed *)
}.
Notation play := (proc EgressWorld LiveHttpRejection).
(** the outcome as a value, whatever its error *)
Definition observe {S E F A} (m : proc S E A) : proc S F (result E A) := fun s => let '(r, s) := m s in (Ok r, s).
Definition rejecting {E A} (f : E -> LiveHttpRejection) (m : proc EgressWorld E A) : play A := fun w =>
  let '(r, w) := m w in (map_err f r, w).
Section runtime.
Context {R : Type} `{Vault R} `{Texts} `{DescriptorText} `{E : EgressService} `{UrlOps} `{HeaderOps}.
Variable ring : R.
Variable draws : nat -> Draws.
Variable meanwhile : nat -> EgressWorld -> EgressWorld.
Variable services : DeliveryServices.

(** one call of the repository *)
Definition transact {A} (m : nat -> tx A) : proc EgressWorld SessionRepositoryError A := fun w =>
  let n := ew_tick w in
  let w := meanwhile n w in
  match m n (es_db (ew_store w)) with
  | Ok (a, db) => (Ok a, accessed n (with_db db (ew_store w)) w)
  | Err e => (Err e, accessed n (ew_store w) w)
  end.
Definition call {A} (m : nat -> tx A) : play A := rejecting map_repository_error (transact m).
Definition query {A} (m : Db -> result SessionRepositoryError A) : play A :=
  call (fun _ db => (fun a => (a, db)) <$> m db).

Definition decrypt_descriptor (s : SessionRecord) : play StoredSessionDescriptor :=
  secrets ← query (decrypt_secrets ring (owner s) (id s));
  lift (ok_or (descriptor_of_json (mat_descriptor secrets)) internal_error).
Definition protected_egress_applies (p : EffectiveEgressPolicy) (private : bool) : bool := protected p && negb private.

(** ** The relay *)
Notation relaying := (proc EgressWorld LiveRelayError).
Definition relay_query {A} (m : Db -> result SessionRepositoryError A) : relaying A := fun w =>
  let '(r, w) := transact (fun _ db => (fun a => (a, db)) <$> m db) w in (map_err (fun _ => RelayUnavailable) r, w).
Definition validate_session_authority (r : RelayService) (s : SessionRecord) : relaying unit :=
  authoritative ← relay_query (get_owned (owner s) (id s));
  authoritative ← lift (ok_or authoritative RelaySessionMismatch);
  _ ← lift (reject_if (negb (relay_current authoritative s)) RelaySessionMismatch);
  n ← view ew_tick;
  lease ← lift (ok_or (rl_lease r n) RelayUnavailable);
  current_fence ← lift (ok_or lease RelayStaleControlFence);
  lift (reject_if (negb (current_fence =? control_fencing_token s)%Z) RelayStaleControlFence).
Definition relay_fetcher_for (s : SessionRecord) (stored : StoredSessionDescriptor) (private : bool) (w : EgressWorld)
    : result LiveRelayError (option Z) :=
  if private then Ok None else
  policy ← map_err (fun _ => RelayDescriptorInvalid) (StoredEgressPolicy.to_effective (sd_egress stored));
  if negb (protected policy) then Ok None else
  if negb (ds_egress services) then Err RelayUnavailable else
  map_err (fun e => match e with StaleFence => RelayStaleControlFence | _ => RelayUnavailable end) (egress_fetcher s policy w).
(** the entry made from the stored descriptor *)
Definition relay_build (r : RelayService) (s : SessionRecord) : relaying RelaySession :=
  secrets ← relay_query (decrypt_secrets ring (owner s) (id s));
  stored ← lift (ok_or (descriptor_of_json (mat_descriptor secrets)) RelayDescriptorInvalid);
  source ← lift (ok_or (Descriptor.selected stored) RelayDescriptorInvalid);
  source ← lift (map_err (fun _ => RelayDescriptorInvalid) (to_source_descriptor source));
  _ ← lift (validate_protocol (session_protocol s) (protocol source));
  n ← view ew_tick;
  _ ← lift (reject_if (is_some_and (fun expires => expires <=? rl_now r n)%Z (expires_at source)) RelaySessionExpired);
  '(root_url, credentials) ← lift (relay_route source);
  fetcher ← view (relay_fetcher_for s stored (private_network source));
  fetcher ← lift fetcher;
  resources ← lift (map_err relay_error_of_rewrite (HlsResourceMap_new (id s) (control_fencing_token s) HlsResourceLimits_default));
  mret {| ry_session_id := id s; ry_owner := owner s; ry_control_fencing_token := control_fencing_token s;
          ry_token_revision := token_revision s; ry_hard_expires_at := hard_expires_at s; ry_protocol := session_protocol s;
          ry_source := source; ry_root_url := root_url; ry_credentials := credentials; ry_fetcher := fetcher;
          ry_resources := resources |}.
(** [ensure_session] of the relay: the entry that is there, or a new one under the admission lock *)
Definition matching (s : SessionRecord) (existing : option RelaySession) : option RelaySession :=
  existing ≫= (fun e => if relay_matches e s then Some e else None).
Definition ensure_relay_session (r : RelayService) (s : SessionRecord) : relaying RelaySession :=
  _ ← validate_session_authority r s;
  _ ← lift (reject_if (negb (bool_decide (delivery_mode s = ServerRelay)) || SessionState.is_terminal (state s)) RelaySessionMismatch);
  n ← view ew_tick;
  _ ← lift (reject_if (hard_expires_at s <=? rl_now r n)%Z RelaySessionExpired);
  existing ← view (fun w => ew_relay w !! id s);
  match matching s existing with
  | Some e => mret e
  | None =>
      _ ← change (set_relay (rl_waiting r n));
      existing ← view (fun w => ew_relay w !! id s);
      match matching s existing with
      | Some e => mret e
      | None =>
          _ ← lift (reject_if (is_some_and (fun e => relay_ahead e s) existing) RelayStaleControlFence);
          _ ← change (set_relay (delete (id s)));
          permit ← view (fun w => has_permit r n (ew_relay w));
          _ ← lift (reject_if (negb permit) RelayCapacityExhausted);
          e ← relay_build r s;
          _ ← change (set_relay <[id s := e]>);
          mret e
      end
  end.
(** [end_session] of the relay *)
Definition end_relay_session (session_id : uuid) : play unit := change (set_relay (delete session_id)).

(** [admit_delivery_runtime] and [end_delivery_runtime] *)
Definition admit_delivery_runtime (s : SessionRecord) (actor : ActorSnapshot) : play unit :=
  n ← view ew_tick;
  _ ← lift (reject_if (negb (ds_repository services n)) control_unavailable);
  stored ← decrypt_descriptor s;
  policy ← lift (map_err (fun _ => contract_invalid) (StoredEgressPolicy.to_effective (sd_egress stored)));
  source ← lift (ok_or (selected stored) contract_invalid);
  _ ← (if protected_egress_applies policy (ss_private_network source)
       then _ ← lift (reject_if (bool_decide (delivery_mode s = ClientDirect)) contract_invalid);
            _ ← lift (reject_if (negb (ds_egress services)) egress_unavailable);
            _ ← rejecting (fun _ => egress_unavailable) (egress_ensure s policy actor);
            mret ()
       else mret ());
  n ← view ew_tick;
  match delivery_mode s with
  | ClientDirect => mret ()
  | ServerRelay => match ds_relay services with
                   | Some relay => _ ← rejecting (map_relay_error control_unavailable) (ensure_relay_session relay s); mret ()
                   | None => stop (delivery_runtime_unavailable ServerRelay)
                   end
  | ServerRemux => match ds_remux services with
                   | Some admit_session => lift (admit_session n s)
                   | None => stop (delivery_runtime_unavailable ServerRemux)
                   end
  end.
Definition end_delivery_runtime (session_id : uuid) (fence : Z) : play unit :=
  _ ← (if is_some_b (ds_relay services) then end_relay_session session_id else mret ());
  n ← view ew_tick;
  let remux_failed := is_some_b (ds_remux services) && negb (ds_remux_ended services n session_id) in
  egress ← (if ds_egress services then observe (egress_end session_id fence) else mret (Ok ()));
  lift (reject_if (remux_failed || negb (is_ok egress)) cleanup_incomplete).

(** ** Activation *)
Definition transition_or_reload (s : SessionRecord) (next : SessionState) (now : instant) : play SessionRecord :=
  r ← observe (transact (fun _ => transition (owner s) (id s) (revision s) (control_fencing_token s) next now));
  match r with
  | Ok mutation => mret (mut_session mutation)
  | Err RevisionChanged =>
      s ← query (get_owned (owner s) (id s));
      lift (ok_or s session_not_found)
  | Err e => stop (map_repository_error e)
  end.
(** the next state before the admission *)
Definition before_admission (protected : bool) (s : SessionState) : result LiveHttpRejection (option SessionState) :=
  match s with
  | Resolving => Ok (Some Planning)
  | Planning => Ok (if protected then Some ProvisioningEgress else None)
  | ProvisioningEgress | Ready | Playing => Ok None
  | s => Err (if SessionState.is_terminal s then session_expired else session_conflict)
  end.
Fixpoint advance (moves : nat) (protected : bool) (s : SessionRecord) (now : instant) : play SessionRecord :=
  match moves with
  | O => mret s
  | S moves =>
      next ← lift (before_admission protected (state s));
      match next with
      | None => mret s
      | Some next => s ← transition_or_reload s next now; advance moves protected s now
      end
  end.
Fixpoint settle (moves : nat) (s : SessionRecord) (now : instant) : play SessionRecord :=
  match moves with
  | O => stop session_conflict
  | S moves =>
      match state s with
      | Planning | ProvisioningEgress => s ← transition_or_reload s Ready now; settle moves s now
      | Ready | Playing => mret s
      | other => stop (if SessionState.is_terminal other then session_expired else session_conflict)
      end
  end.
Definition activation_failure (protected : bool) (mode : DeliveryMode) : TerminalReason :=
  {| reason_state := Failed;
     reason_error_code := Some (if protected then "LIVE_EGRESS_UNAVAILABLE" else
       match mode with
       | ServerRemux => "LIVE_REMUX_UNAVAILABLE"
       | ServerRelay => "LIVE_UPSTREAM_REJECTED"
       | ClientDirect => "LIVE_PROVIDER_UNAVAILABLE"
       end);
     reason_error_detail := None |}.
Definition ensure_delivery_ready (s : SessionRecord) (actor : ActorSnapshot) (now : instant) : play SessionRecord :=
  stored ← decrypt_descriptor s;
  policy ← lift (map_err (fun _ => contract_invalid) (StoredEgressPolicy.to_effective (sd_egress stored)));
  source ← lift (ok_or (selected stored) contract_invalid);
  let protected := protected_egress_applies policy (ss_private_network source) in
  s ← advance 3 protected s now;
  admitted ← attempt (admit_delivery_runtime s actor);
  match admitted with
  | Err rejection =>
      _ ← observe (transact (fun n => terminate ring (draws n) (owner s) (id s) (revision s) (control_fencing_token s)
                                        (activation_failure protected (delivery_mode s)) now));
      _ ← end_delivery_runtime (id s) (control_fencing_token s);
      stop rejection
  | Ok _ => settle 6 s now
  end.

(** ** Replacing and ending the delivery *)
Definition replacement_failure (mode : DeliveryMode) : TerminalReason :=
  {| reason_state := Failed;
     reason_error_code := Some (match mode with ServerRemux => "LIVE_REMUX_UNAVAILABLE" | _ => "LIVE_UPSTREAM_REJECTED" end);
     reason_error_detail := None |}.
Definition replace_delivery_runtime (s : SessionRecord) (actor : ActorSnapshot) (fence : Z) (now : instant) : play unit :=
  _ ← end_delivery_runtime (id s) fence;
  admitted ← attempt (admit_delivery_runtime s actor);
  match admitted with
  | Err rejection =>
      termination ← observe (transact (fun n => terminate ring (draws n) (owner s) (id s) (revision s) fence
                                                  (replacement_failure (delivery_mode s)) now));
      cleanup ← attempt (end_delivery_runtime (id s) fence);
      _ ← lift (map_err map_repository_error termination);
      _ ← lift cleanup;
      stop rejection
  | Ok _ => mret ()
  end.
(** terminate the session, then release what delivered it *)
Definition end_playback (s : SessionRecord) (expected_revision fence : Z) (reason : TerminalReason) (now : instant)
    : play SessionRecord :=
  mutation ← call (fun n => terminate ring (draws n) (owner s) (id s) expected_revision fence reason now);
  _ ← end_delivery_runtime (id s) fence;
  mret (mut_session mutation).
End runtime.

(** ** The egress service implements its interface *)
Section implementation.
Context `{UuidText} `{UuidSimple} `{CryptoPrims} `{JsonText} `{AuditOps} `{RuntimeManager} `{ReadinessText}.
Variable cfg : LiveEgressConfig.
Variable max_concurrent startup_timeout control_port : Z.
Variable audit_key : LiveAuditKey.
Variable others : nat -> Store -> Store.
Variable wall_clock db_clock : nat -> instant.
Variable fresh_id : nat -> uuid.
Variable material : nat -> LiveEgressProfileConfig -> result LiveEgressError (list string).
Variable secret_written : nat -> uuid -> result LiveEgressError unit.
Variable file_written : nat -> uuid -> string -> result LiveEgressError unit.
Variable secrets_removed : nat -> uuid -> bool.
Variable topology : SessionRecord -> uuid -> LiveEgressProfileConfig -> result LiveEgressError (option ContainerSpec * ContainerSpec).
Variable waiting : EgressWorld -> EgressWorld.

#[export] Instance live_egress_service : EgressService := {|
  egress_ensure := ensure_session_inner cfg max_concurrent startup_timeout control_port audit_key others wall_clock
    db_clock fresh_id material secret_written file_written secrets_removed topology waiting;
  egress_end := end_session others wall_clock secrets_removed;
  egress_fetcher := fetcher_for;
  egress_outcome := outcome_for;
|}.
(** soundness: the invariant of the service, and valid sessions in the database *)
Definition service_sound (w : EgressWorld) : Prop := service_inv cfg max_concurrent control_port w /\ db_inv (es_db (ew_store w)).
Notation sound := service_sound.
Hypothesis waiting_sound : forall w, sound w -> sound (waiting w).
(** the others keep to the steps of sessions *)
Context {R : Type} `{Vault R} `{Texts}.
Hypothesis others_steps : forall n s, rtc (repo_step (R:=R)) (es_db s) (es_db (others n s)).
(** what was spent is not used again: the others revive no such session *)
Definition dead_in (db : Db) (id : uuid) : Prop := forall r, db_sessions db !! id = Some r -> live_row r = false.
Variable spent : uuid -> Prop.
Hypothesis others_over : forall n s id, spent id -> dead_in (es_db s) id -> dead_in (es_db (others n s)) id.

Lemma over_access {A B} id (f : B -> LiveEgressError) (g : nat -> Store -> result B (A * Store)) :
  spent id -> (forall n s a s', g n s = Ok (a, s') -> dead_in (es_db s) id -> dead_in (es_db s') id) ->
  keeps (over id) (access others f g).
Proof.
  intros Hid Hg w Hw. apply (others_over (ew_tick w) _ _ Hid) in Hw. unfold access. destruct (g _ _) as [[a s]|e] eqn:He; [|done].
  by apply (Hg _ _ _ _ He).
Qed.
Lemma over_same {A B} id (f : B -> LiveEgressError) (g : nat -> Store -> result B (A * Store)) :
  spent id -> (forall n s a s', g n s = Ok (a, s') -> es_db s' = es_db s) -> keeps (over id) (access others f g).
Proof. intros Hid Hg. apply over_access; [done|]. intros n s a s' Hs. by rewrite (Hg _ _ _ _ Hs). Qed.
Lemma over_runtime {A} id (d : docker A) : keeps (over id) (runtime d).
Proof. intros w Hw. unfold runtime. by destruct (d _). Qed.
Lemma over_secret id b : keeps (over id) (remove_secret_dir secrets_removed b).
Proof. by intros w Hw. Qed.
Lemma over_forget id i : keeps (over id) (change (E:=LiveEgressError) (set_memory (delete i) (delete i))).
Proof. by intros w Hw. Qed.
Lemma over_releasing id i b fence : spent id -> keeps (over id) (access others same (fun _ => mark_releasing i b fence)).
Proof.
  intros Hid. apply over_same; [done|]. intros _ s a s' Hm. unfold mark_releasing in Hm. repeat case_match; try by injection Hm as _ <-.
  apply result_bind_ok in Hm as (s1 & Hw%write_binding_db & Hm). by injection Hm as _ <-.
Qed.
Lemma over_finish id i b fence : spent id -> keeps (over id) (access others same (fun n => finish_release i b fence (wall_clock n))).
Proof.
  intros Hid. apply over_access; [done|]. intros n s a s' Hm Hdead. unfold finish_release in Hm.
  apply result_bind_ok in Hm as (s1 & Hs1 & Hm). assert (es_db s1 = es_db s) as Heq.
  { destruct (es_rows s !! i); [|by injection Hs1 as <-]. destruct (_ && _) in Hs1; [by eapply write_binding_db|by injection Hs1 as <-]. }
  rewrite <- Heq in Hdead. destruct (db_sessions (es_db s1) !! i) as [row|] eqn:Hrow; [case_bool_decide|]; injection Hm as _ <-; try done.
  intros r' Hr'. cbn in Hr'. apply lookup_insert_Some in Hr' as [[<- <-]|[_ Hr']]; [exact (Hdead _ Hrow)|by apply Hdead].
Qed.
Hint Resolve over_runtime over_secret over_forget over_releasing over_finish : keeps.
Lemma release_keeps_over id i fence : spent id -> keeps (over id) (release_locked others wall_clock secrets_removed i fence).
Proof.
  intros Hid. unfold release_locked. repeat (apply proc_keeps_bind; [solve [auto with keeps]|intros ?]).
  apply proc_keeps_bind; [apply over_same; [done|by intros n s b s' [= _ <-]]|intros row]. destruct row as [row|].
  - repeat (apply proc_keeps_bind; [solve [auto with keeps]|intros ?]). auto with keeps.
  - apply proc_keeps_bind; [auto with keeps|intros b].
    apply proc_keeps_bind; [destruct b; [apply proc_keeps_bind|]; auto with keeps|intros ?]. auto with keeps.
Qed.

(** the service leaves the entries of the relay alone *)
Lemma relay_access {A B} m (f : B -> LiveEgressError) (g : nat -> Store -> result B (A * Store)) :
  keeps (fun w => ew_relay w = m) (access others f g).
Proof. intros w Hw. unfold access. by destruct (g _ _) as [[a s]|e]. Qed.
Lemma relay_runtime {A} m (d : docker A) : keeps (fun w => ew_relay w = m) (runtime d).
Proof. intros w Hw. unfold runtime. by destruct (d _). Qed.
Lemma relay_secret m b : keeps (fun w => ew_relay w = m) (remove_secret_dir secrets_removed b).
Proof. by intros w Hw. Qed.
Lemma relay_memory m f g : keeps (fun w => ew_relay w = m) (change (E:=LiveEgressError) (set_memory f g)).
Proof. by intros w Hw. Qed.
Hint Resolve relay_access relay_runtime relay_secret relay_memory : keeps.
Lemma release_keeps_relay m i fence : keeps (fun w => ew_relay w = m) (egress_end i fence).
Proof.
  cbn. unfold end_session, release_locked. repeat (apply proc_keeps_bind; [solve [auto with keeps]|intros ?]). case_match.
  - repeat (apply proc_keeps_bind; [solve [auto with keeps]|intros ?]). auto with keeps.
  - apply proc_keeps_bind; [auto with keeps|intros b].
    apply proc_keeps_bind; [destruct b; [apply proc_keeps_bind|]; auto with keeps|intros ?]. auto with keeps.
Qed.

Lemma steps_valid {A E} (m : proc EgressWorld E A) :
  (forall db, keeps (fun w => rtc (repo_step (R:=R)) db (es_db (ew_store w))) m) -> keeps (fun w => db_inv (es_db (ew_store w))) m.
Proof. intros Hm w Hw. eapply run_inv; [exact Hw|]. by apply Hm. Qed.
Lemma ensure_sound session policy actor : keeps sound (egress_ensure session policy actor).
Proof.
  intros w Hi. cbn. unfold ensure_session_inner.
  apply (proc_keeps_bind sound); [auto with keeps|intros []|exact Hi]. destruct (negb _); [auto with keeps|].
  apply proc_keeps_bind; [auto with keeps|intros []]. apply proc_keeps_bind; [auto with keeps|intros o].
  destruct o; [auto with keeps|]. apply proc_keeps_bind; [by apply keeps_change|intros []].
  intros w1 [Hi1 Hv]. split; [|apply steps_valid; [|done]; intros db w2 Hw; etrans; [exact Hw|eapply repo_ensure with (between := repo_step (R:=R)); [apply others_steps|intros ??; apply rtc_once]]].
  destruct (ensure_locked _ _ _ _ _ _ _ _ _ _ _ _ _ _ _ _ _ w1) as [r w2] eqn:He.
  by apply ensure_locked_spec in He as [? _].
Qed.
Lemma end_sound i fence : keeps sound (egress_end i fence).
Proof.
  intros w [Hi Hv]. cbn. split; [|apply steps_valid; [|done]; intros db w2 Hw; etrans; [exact Hw|eapply repo_release with (between := repo_step (R:=R)); [apply others_steps|intros ??; apply rtc_once]]].
  destruct (end_session _ _ _ i fence w) as [r w'] eqn:Hr. by eapply release_inv.
Qed.
Lemma ensured_route session policy actor w route w' :
  sound w -> egress_ensure session policy actor w = (Ok route, w') -> protected policy = true ->
  match route with
  | Some fetcher => exists b, ew_bindings w' !! SessionTypes.id session = Some b /\ binding_matches b session policy = true /\
      ab_fetcher b = fetcher /\ verified_in cfg control_port b (ew_calls w')
  | None => falls_back policy = true /\ permitted_fallback session policy w' = true
  end.
Proof.
  intros Hi He Hp. apply ensure_session_ok in He as [[? _]|[_ He]]; [congruence| |apply Hi|by apply waiting_sound].
  destruct route as [f|]; [destruct He as (b & ? & ? & ? & ?); by exists b|by destruct He as (? & ? & _)].
Qed.
Lemma outcome_of_route session policy w : sound w -> protected policy = true ->
  match outcome_for session policy w with
  | Ok OutProtected => exists b, ew_bindings w !! SessionTypes.id session = Some b /\ binding_matches b session policy = true /\
      verified_in cfg control_port b (ew_calls w)
  | Ok OutDirectFallback => falls_back policy = true /\ permitted_fallback session policy w = true
  | Ok OutServerDefault => False
  | Err _ => True
  end.
Proof.
  intros [Hi _] Hp. unfold outcome_for. destruct (validate_effective_policy policy) as [[]|e]; cbn; [|done]. rewrite Hp. cbn.
  destruct (ew_bindings w !! SessionTypes.id session) as [b|] eqn:Hb; cbn.
  - destruct (binding_matches b session policy) eqn:Hm; cbn; [exists b; split; [done|split; [done|]]; by eapply si_verified|].
    destruct (permitted_fallback session policy w) eqn:Hf; [|done]. split; [by eapply permitted_falls_back|done].
  - destruct (permitted_fallback session policy w) eqn:Hf; [|done]. split; [by eapply permitted_falls_back|done].
Qed.
Lemma ended_unrouted i fence w r w' : egress_end i fence w = (r, w') ->
  match r with Ok _ => unrouted i w' | Err _ => memory w' = memory w end.
Proof.
  cbn. intros Hr. apply release_memory in Hr as [[-> Hm]|[[e ->] Hm]]; [|done]. injection Hm as Hb Hf.
  split; [rewrite Hb|rewrite Hf]; apply lookup_delete_eq.
Qed.
#[export] Instance live_egress_service_laws :
  EgressServiceLaws live_egress_service sound (verified_in cfg control_port) spent.
Proof.
  split; [by intros w []|intros n s w [Hi _] Hv; split; [by apply (service_inv_memory _ _ _ w)|done]
            |intros f w [Hi Hv]; split; [by apply (service_inv_memory _ _ _ w)|done]|..];
    [apply ensure_sound|apply end_sound|apply release_keeps_relay|intros ???; apply release_keeps_over|apply ensured_route|apply outcome_of_route|apply ended_unrouted].
Qed.
End implementation.

(** ** What the handlers keep *)
Section sound_runs.
Context {R : Type} `{Vault R} `{Texts} `{DescriptorText} {E : EgressService} `{UrlOps} `{HeaderOps}.
Context {sound : EgressWorld -> Prop} {proved : ActiveBinding -> list RuntimeCall -> Prop} {spent : uuid -> Prop}.
Context {EL : EgressServiceLaws E sound proved spent}.
Variable ring : R.
Variable draws : nat -> Draws.
Variable meanwhile : nat -> EgressWorld -> EgressWorld.
Variable services : DeliveryServices.
Hypothesis meanwhile_sound : forall n w, sound w -> sound (meanwhile n w).
Notation transact := (transact meanwhile).
Notation call := (call meanwhile).
Notation query := (query meanwhile).
Notation decrypt_descriptor := (decrypt_descriptor ring meanwhile).
Notation admit_delivery_runtime := (admit_delivery_runtime ring meanwhile services).
Notation end_delivery_runtime := (end_delivery_runtime services).
Notation relay_query := (relay_query meanwhile).
Notation validate_session_authority := (validate_session_authority meanwhile).
Notation relay_build := (relay_build ring meanwhile services).
Notation ensure_relay_session := (ensure_relay_session ring meanwhile services).
Notation transition_or_reload := (transition_or_reload meanwhile).
Notation advance := (advance meanwhile).
Notation settle := (settle meanwhile).
Notation ensure_delivery_ready := (ensure_delivery_ready ring draws meanwhile services).
Notation replace_delivery_runtime := (replace_delivery_runtime ring draws meanwhile services).
Notation end_playback := (end_playback ring draws meanwhile services).

Definition valid_tx {A} (m : nat -> tx A) : Prop :=
  forall n db a db', db_inv db -> m n db = Ok (a, db') -> db_inv db'.
Lemma keeps_observe {S A B F} (P : S -> Prop) (m : proc S A B) : keeps P m -> keeps P (observe (F:=F) m).
Proof. intros Hm s Hs. unfold observe. specialize (Hm s Hs). by destruct (m s). Qed.
Lemma keeps_rejecting {A B} (P : EgressWorld -> Prop) (f : B -> LiveHttpRejection) (m : proc EgressWorld B A) :
  keeps P m -> keeps P (rejecting f m).
Proof. intros Hm s Hs. unfold rejecting. specialize (Hm s Hs). by destruct (m s). Qed.
Lemma transact_sound {A} (m : nat -> tx A) : valid_tx m -> keeps sound (transact m).
Proof.
  intros Hm w Hw. apply (meanwhile_sound (ew_tick w)) in Hw. unfold PlaybackRuntime.transact.
  pose proof (sound_valid _ Hw) as Hv. destruct (m _ _) as [[a db]|e] eqn:He; apply sound_accessed; try done.
  by eapply Hm.
Qed.
Lemma call_sound {A} (m : nat -> tx A) : valid_tx m -> keeps sound (call m).
Proof. intros. by apply keeps_rejecting, transact_sound. Qed.
Lemma query_sound {A} (m : Db -> result SessionRepositoryError A) : keeps sound (query m).
Proof. apply call_sound. intros n db a db' Hv. destruct (m db); [|done]. by intros [= _ <-]. Qed.
Lemma transition_valid o i n c next now : valid_tx (fun _ => transition o i n c next now).
Proof. intros k db a db' Hv Ht. by eapply (repo_step_ok (R:=R)), step_transition. Qed.
Hint Resolve keeps_observe keeps_rejecting transact_sound call_sound query_sound transition_valid : keeps.
Lemma decrypt_sound s : keeps sound (decrypt_descriptor s).
Proof. apply proc_keeps_bind; auto with keeps. Qed.
Hint Resolve decrypt_sound : keeps.
Ltac keep_step := apply proc_keeps_bind; [solve [auto with keeps]|intros ?].
Lemma transition_sound s next now : keeps sound (transition_or_reload s next now).
Proof. keep_step. repeat case_match; auto with keeps. Qed.
Hint Resolve transition_sound : keeps.
Lemma advance_sound moves protected s now : keeps sound (advance moves protected s now).
Proof. revert s. induction moves as [|moves IH]; intros s; cbn; [auto with keeps|]. keep_step. case_match; [|auto with keeps]. keep_step. apply IH. Qed.

Lemma set_relay_sound {E'} f : keeps sound (change (E:=E') (set_relay f)).
Proof. intros w Hw. by apply sound_relay. Qed.
Lemma relay_query_sound {A} (m : Db -> result SessionRepositoryError A) : keeps sound (relay_query m).
Proof.
  intros w Hw. unfold PlaybackRuntime.relay_query.
  pose proof (transact_sound (fun _ db => (fun a => (a, db)) <$> m db)
    ltac:(intros n db a db' Hv; destruct (m db); [by intros [= _ <-]|done]) w Hw) as Hk.
  by destruct (transact _ w).
Qed.
Hint Resolve @set_relay_sound relay_query_sound : keeps.
Lemma authority_sound r s : keeps sound (validate_session_authority r s).
Proof. repeat keep_step. auto with keeps. Qed.
Lemma relay_build_sound r s : keeps sound (relay_build r s).
Proof.
  do 7 keep_step. apply proc_keeps_bind; [auto with keeps|intros [root credentials]]. repeat keep_step. auto with keeps.
Qed.
Hint Resolve authority_sound relay_build_sound : keeps.
Lemma relay_sound r s : keeps sound (ensure_relay_session r s).
Proof.
  unfold PlaybackRuntime.ensure_relay_session. do 5 keep_step. case_match; [auto with keeps|].
  do 2 keep_step. case_match; [auto with keeps|]. repeat keep_step. auto with keeps.
Qed.
Lemma end_delivery_sound i fence : keeps sound (end_delivery_runtime i fence).
Proof.
  apply proc_keeps_bind; [destruct (is_some_b (ds_relay services)); [apply set_relay_sound|auto with keeps]|intros []].
  apply proc_keeps_bind; [auto with keeps|intros n]. apply proc_keeps_bind; [|intros e; apply proc_keeps_lift].
  destruct (ds_egress services); [apply keeps_observe, end_keeps|apply proc_keeps_ret].
Qed.

(** *** The session stays the one it is *)
Lemma transact_ok {A} (m : nat -> tx A) w a w' : sound w -> transact m w = (Ok a, w') ->
  exists db db', db_inv db /\ m (ew_tick w) db = Ok (a, db').
Proof.
  intros Hw Ht. apply (meanwhile_sound (ew_tick w)), sound_valid in Hw. unfold PlaybackRuntime.transact in Ht.
  destruct (m _ _) as [[a' db]|e] eqn:Hm; [|done]. injection Ht as -> _. by eexists _, db.
Qed.
Lemma rejecting_ok {A B} (f : B -> LiveHttpRejection) (m : proc EgressWorld B A) w a w' :
  rejecting f m w = (Ok a, w') -> m w = (Ok a, w').
Proof. unfold rejecting. destruct (m w) as [[a'|e] w1]; [|done]. by intros [= -> ->]. Qed.
Lemma observe_ok {S A B F} (m : proc S A B) s r s' : observe (F:=F) m s = (Ok r, s') -> m s = (r, s').
Proof. unfold observe. destruct (m s). by intros [= -> ->]. Qed.
Lemma query_done {A} (m : Db -> result SessionRepositoryError A) w a w' : sound w -> query m w = (Ok a, w') ->
  exists db, db_inv db /\ m db = Ok a.
Proof.
  intros Hw Hq. apply rejecting_ok, transact_ok in Hq as (db & db' & Hv & Hm); [|done]. exists db. split; [done|].
  destruct (m db); [|done]. by injection Hm as ->.
Qed.
Lemma get_owned_id o i db s : db_inv db -> get_owned o i db = Ok (Some s) -> id s = i.
Proof.
  intros Hv. unfold get_owned. destruct (session_where i (owned o) db) as [r|] eqn:Hw; [|done]. apply session_where_some in Hw as [Hr _].
  destruct (decode_session r) as [s'|] eqn:Hd; [|done]. intros [= <-]. apply decode_session_ok in Hd.
  rewrite (dec_id _ _ Hd). by apply (Hv i r).
Qed.
Lemma transition_id o i n c next now db mu db' :
  db_inv db -> transition o i n c next now db = Ok (mu, db') -> id (mut_session mu) = i /\ state (mut_session mu) = next.
Proof.
  intros Hv Ht. assert (db_inv db') as Hv' by by eapply (transition_valid _ _ _ _ _ _ 0).
  apply transition_replaces in Ht as (_ & (r & s & r' & _ & (_ & _ & Hset) & _ & Hd & Hdb) & _). split.
  - rewrite (dec_id _ _ Hd). apply (Hv' i r'). by rewrite Hdb, lookup_insert_eq.
  - unfold set_state in Hset. ok_inv. pose proof (dec_state _ _ Hd) as Hs. cbn in Hs.
    rewrite SessionState_as_str_try_from in Hs. by injection Hs.
Qed.
Lemma transition_or_reload_id s next now w s' w' : sound w -> transition_or_reload s next now w = (Ok s', w') -> id s' = id s.
Proof.
  intros Hw Ht. pose proof (keeps_observe (F:=LiveHttpRejection) sound (transact (fun _ =>
    transition (owner s) (id s) (revision s) (control_fencing_token s) next now)) ltac:(auto with keeps) _ Hw) as Hw1.
  apply proc_bind_ok in Ht as (r & w1 & Hr & Ht). rewrite Hr in Hw1. apply observe_ok in Hr.
  destruct r as [mu|e].
  - injection Ht as <- <-. apply transact_ok in Hr as (db & db' & Hv & Hm); [|done]. by apply transition_id in Hm as [? _].
  - destruct e; try discriminate Ht. apply proc_bind_ok in Ht as (o & w2 & Hq & Ht).
    apply query_done in Hq as (db & Hv & Hq); [|done]. destruct o as [s1|]; [|discriminate Ht]. injection Ht as <- _. by eapply get_owned_id.
Qed.
Lemma advance_id moves protected s now w s' w' : sound w -> advance moves protected s now w = (Ok s', w') -> id s' = id s.
Proof.
  revert s w. induction moves as [|moves IH]; intros s w Hw Ha; cbn in Ha; [by injection Ha as -> _|].
  apply proc_bind_ok in Ha as (next & w1 & [= _ <-] & Ha). destruct next as [next|]; [|by injection Ha as -> _].
  apply proc_bind_ok in Ha as (s1 & w1 & Ht & Ha). pose proof (transition_sound s next now w Hw) as Hw1. rewrite Ht in Hw1.
  rewrite (IH _ _ Hw1 Ha). exact (transition_or_reload_id _ _ _ _ _ _ Hw Ht).
Qed.
Lemma settle_ready moves s now w s' w' : sound w -> settle moves s now w = (Ok s', w') ->
  id s' = id s /\ (state s' = Ready \/ state s' = Playing).
Proof.
  revert s w. induction moves as [|moves IH]; intros s w Hw Ha; cbn in Ha; [done|].
  assert (forall m, (m = transition_or_reload s Ready now) -> (m ≫= (fun s => settle moves s now)) w = (Ok s', w') ->
    id s' = id s /\ (state s' = Ready \/ state s' = Playing)) as Hmove.
  { intros m -> Hm. apply proc_bind_ok in Hm as (s1 & w1 & Ht & Hm). pose proof (transition_sound s Ready now w Hw) as Hw1.
    rewrite Ht in Hw1. rewrite <- (transition_or_reload_id _ _ _ _ _ _ Hw Ht). by eapply IH. }
  destruct (state s) eqn:Hs; try done; try exact (Hmove _ eq_refl Ha); injection Ha as <- _; auto.
Qed.

(** *** What an admission promises *)
(** the requests of the session take a proved worker, or it may go on without one *)
Definition routed (s : SessionRecord) (policy : EffectiveEgressPolicy) (w : EgressWorld) : Prop :=
  (exists b, ew_bindings w !! id s = Some b /\ binding_matches b s policy = true /\ proved b (ew_calls w)) \/
  (falls_back policy = true /\ permitted_fallback s policy w = true).
(** [w2]: the world after the admission at the egress service, which is the last one but for the relay *)
Definition admitted (s : SessionRecord) (w w' : EgressWorld) : Prop :=
  exists stored policy source w1 w2, decrypt_descriptor s w = (Ok stored, w1) /\
    StoredEgressPolicy.to_effective (sd_egress stored) = Ok policy /\ Descriptor.selected stored = Some source /\
    (protected_egress_applies policy (ss_private_network source) = true ->
       delivery_mode s <> ClientDirect /\ ds_egress services = true /\ routed s policy w2) /\
    match delivery_mode s with
    | ClientDirect => w' = w2
    | ServerRelay => exists relay e, ds_relay services = Some relay /\ ensure_relay_session relay s w2 = (Ok e, w') /\
        ew_relay w' !! id s = Some e /\ relay_matches e s = true
    | ServerRemux => w' = w2 /\ exists admit_session, ds_remux services = Some admit_session /\ admit_session (ew_tick w') s = Ok ()
    end.
Lemma matching_some s existing e : matching s existing = Some e -> existing = Some e /\ relay_matches e s = true.
Proof. unfold matching. destruct existing as [e'|]; [cbn|done]. destruct (relay_matches e' s) eqn:Hm; [|done]. by intros [= <-]. Qed.
Lemma relay_build_matches r s w e w' : relay_build r s w = (Ok e, w') -> delivery_mode s = ServerRelay -> relay_matches e s = true.
Proof.
  intros Hb Hmode. unfold PlaybackRuntime.relay_build in Hb.
  repeat match type of Hb with (_ ≫= _) _ = _ => apply proc_bind_ok in Hb as (? & ? & _ & Hb) end.
  match type of Hb with (let '(_, _) := ?x in _) _ = _ => destruct x end.
  repeat match type of Hb with (_ ≫= _) _ = _ => apply proc_bind_ok in Hb as (? & ? & _ & Hb) end.
  injection Hb as <- _. unfold relay_matches. cbn. by rewrite N.eqb_refl, !Z.eqb_refl, !bool_decide_true.
Qed.
(** the relay that admitted a session keeps an entry that matches it *)
Lemma relay_admits r s w e w' : ensure_relay_session r s w = (Ok e, w') -> ew_relay w' !! id s = Some e /\ relay_matches e s = true.
Proof.
  intros He. unfold PlaybackRuntime.ensure_relay_session in He. apply proc_bind_ok in He as ([] & w1 & _ & He).
  apply proc_bind_ok in He as ([] & k & [= Hmode <-] & He). apply reject_if_ok, orb_false_iff in Hmode as [Hmode _].
  apply negb_false_iff, bool_decide_eq_true in Hmode.
  apply proc_bind_ok in He as (n & k & [= <- <-] & He). apply proc_bind_ok in He as ([] & k & [= _ <-] & He).
  apply proc_bind_ok in He as (existing & k & [= <- <-] & He). destruct (matching s _) as [e1|] eqn:Hm.
  { injection He as <- <-. by apply matching_some. }
  apply proc_bind_ok in He as ([] & k & [= <-] & He). apply proc_bind_ok in He as (existing & k & [= <- <-] & He).
  destruct (matching s _) as [e1|] eqn:Hm1 in He. { injection He as <- <-. by apply matching_some. }
  apply proc_bind_ok in He as ([] & k & _ & He). apply proc_bind_ok in He as ([] & k1 & _ & He).
  apply proc_bind_ok in He as (permit & k2 & _ & He). apply proc_bind_ok in He as ([] & k3 & _ & He).
  apply proc_bind_ok in He as (e1 & k4 & Hb & He). apply proc_bind_ok in He as ([] & k5 & [= <-] & He). injection He as <- <-.
  split; [apply lookup_insert_eq|by eapply relay_build_matches].
Qed.
Lemma admission s actor w w' : sound w -> admit_delivery_runtime s actor w = (Ok (), w') -> sound w' /\ admitted s w w'.
Proof.
  intros Hw Ha. apply proc_bind_ok in Ha as (n & k & [= _ <-] & Ha). apply proc_bind_ok in Ha as ([] & k & [= _ <-] & Ha).
  apply proc_bind_ok in Ha as (stored & w1 & Hd & Ha). pose proof (decrypt_sound s w Hw) as Hw1. rewrite Hd in Hw1. cbn in Hw1.
  apply proc_bind_ok in Ha as (policy & k & [= Hp <-] & Ha). apply proc_bind_ok in Ha as (source & k & [= Hs <-] & Ha).
  apply proc_bind_ok in Ha as ([] & w2 & He & Ha). apply proc_bind_ok in Ha as (n' & k & [= <- <-] & Ha).
  apply ok_or_ok in Hs. destruct (StoredEgressPolicy.to_effective _) as [p|] eqn:Hp'; [injection Hp as ->|done].
  assert (sound w2 /\ (protected_egress_applies policy (ss_private_network source) = true ->
    delivery_mode s <> ClientDirect /\ ds_egress services = true /\ routed s policy w2)) as [Hw2 Hprot].
  { destruct (protected_egress_applies policy _) eqn:Hpr; [|by injection He as <-].
    apply proc_bind_ok in He as ([] & k & [= Hdir <-] & He). apply proc_bind_ok in He as ([] & k & [= Heg <-] & He).
    apply proc_bind_ok in He as (route & k & He%rejecting_ok & [= <-]).
    pose proof (ensure_keeps s policy actor _ Hw1) as Hk. rewrite He in Hk. split; [done|intros _].
    apply reject_if_ok in Hdir, Heg. apply bool_decide_eq_false in Hdir. apply negb_false_iff in Heg.
    split; [done|split; [done|]]. apply andb_true_iff in Hpr as [Hpr _].
    apply ensure_routes in He; [|done..]. destruct route as [f|]; [left|by right].
    destruct He as (b & ? & ? & _ & ?). by exists b. }
  enough (sound w' /\ match delivery_mode s with
    | ClientDirect => w' = w2
    | ServerRelay => exists relay e, ds_relay services = Some relay /\ ensure_relay_session relay s w2 = (Ok e, w') /\
        ew_relay w' !! id s = Some e /\ relay_matches e s = true
    | ServerRemux => w' = w2 /\ exists admit_session, ds_remux services = Some admit_session /\ admit_session (ew_tick w') s = Ok ()
    end) as [Hw' Hend] by (split; [done|]; by exists stored, policy, source, w1, w2).
  destruct (delivery_mode s).
  - by injection Ha as <-.
  - destruct (ds_relay services) as [relay|]; [|done]. apply proc_bind_ok in Ha as (e & k & Hrel%rejecting_ok & [= <-]).
    pose proof (relay_sound relay s w2 Hw2) as Hk. rewrite Hrel in Hk. split; [done|]. exists relay, e.
    split; [done|split; [done|]]. by eapply relay_admits.
  - destruct (ds_remux services) as [f|]; [|done]. injection Ha as Ha <-. split; [done|]. split; [done|by exists f].
Qed.

(** *** What the end of a delivery promises *)
Lemma keeps_over_observe {A B F} i (m : proc EgressWorld A B) : keeps (over i) m -> keeps (over i) (observe (F:=F) m).
Proof. apply keeps_observe. Qed.
(** what is left of the delivery of a session after its end: nothing at the relay, the egress service and the remux
    service *)
Definition forgotten (i : uuid) (w' : EgressWorld) : Prop := is_some_b (ds_relay services) = true -> ew_relay w' !! i = None.
Definition released (i : uuid) (w w' : EgressWorld) : Prop :=
  forgotten i w' /\ (ds_egress services = true -> unrouted i w') /\ (is_some_b (ds_remux services) = true -> ds_remux_ended services (ew_tick w) i = true).
Lemma end_delivery_spec i fence w r w' : end_delivery_runtime i fence w = (r, w') ->
  match r with Ok _ => released i w w' | Err e => e = cleanup_incomplete /\ forgotten i w' end /\ (spent i -> over i w -> over i w').
Proof.
  intros Hr. apply proc_bind_inv in Hr as [([] & w0 & Hrelay & Hr)|(e & Hrelay & _)].
  2:{ by destruct (is_some_b (ds_relay services)) in Hrelay. }
  assert (w0 = if is_some_b (ds_relay services) then set_relay (delete i) w else w) as -> by by destruct (is_some_b _); injection Hrelay.
  clear Hrelay. set (w0 := if is_some_b _ then _ else _) in *.
  assert (ew_tick w0 = ew_tick w) as Htick by (unfold w0; by destruct (is_some_b _)).
  assert (is_some_b (ds_relay services) = true -> ew_relay w0 !! i = None) as Hnone.
  { unfold w0. intros ->. apply lookup_delete_eq. }
  assert (over i w -> over i w0) as Hover by (unfold w0; by destruct (is_some_b _)). clearbody w0.
  apply proc_bind_inv in Hr as [(n & k & [= <- <-] & Hr)|(? & [=] & _)].
  apply proc_bind_inv in Hr as [(egress & w1 & He & Hr)|(? & He & _)].
  2:{ destruct (ds_egress services); [|done]. unfold observe in He. by destruct (egress_end i fence w0). }
  injection Hr as <- <-. split.
  - assert (forgotten i w1) as Hforgot.
    { intros Hs. rewrite <- (Hnone Hs). destruct (ds_egress services); [|by injection He as _ <-].
      pose proof (keeps_observe (F:=LiveHttpRejection) _ _ (end_keeps_relay (ew_relay w0) i fence) w0 eq_refl) as Hk.
      rewrite He in Hk. cbn in Hk. by rewrite Hk. }
    destruct (reject_if _ _) as [[]|e] eqn:Hrej; cbn.
    + apply reject_if_ok, orb_false_iff in Hrej as [Hrem Hok]. apply negb_false_iff in Hok. split; [done|split].
      * intros Heg. rewrite Heg in He. apply observe_ok, end_forgets in He. by destruct egress.
      * intros Hs. rewrite Hs, Htick in Hrem. by apply negb_false_iff in Hrem.
    + unfold reject_if in Hrej. destruct (_ || _); [by injection Hrej|done].
  - intros Hid Hov%Hover. destruct (ds_egress services); [|by injection He as _ <-].
    pose proof (keeps_over_observe (F:=LiveHttpRejection) i _ (end_keeps_over i i fence Hid) w0 Hov) as Hk. by rewrite He in Hk.
Qed.
Lemma terminate_over (crypto : R) d o i n c reason now db mu db' : terminate crypto d o i n c reason now db = Ok (mu, db') ->
  SessionState.is_terminal (state (mut_session mu)) = true /\ forall r, db_sessions db' !! i = Some r -> live_row r = false.
Proof.
  intros Ht. apply terminate_ok in Ht as (Hreason & _ & _ & _ & r & s & Hr & _ & Hd & Ht).
  assert (forall r s, decodes r s -> SessionState.is_terminal (state s) = true -> live_row r = false) as Hdead.
  { intros r1 s1 Hd1 Hs1. unfold live_row. by rewrite (terminal_name_spec _ _ (dec_state _ _ Hd1)), Hs1. }
  destruct (SessionState.is_terminal (state s)) eqn:Hterm.
  - destruct Ht as (-> & _ & ->). split; [done|]. intros r' Hr'. assert (r' = r) as -> by congruence. by eapply Hdead.
  - destruct Ht as (_ & _ & _ & r' & ? & ? & ? & ? & ? & ? & _ & _ & _ & _ & _ & _ & Hset & Hck & Hd' & Hdb).
    assert (SessionState.is_terminal (state (mut_session mu)) = true) as Hm.
    { unfold validate_terminal_reason in Hreason. apply reject_if_ok in Hreason. bool_hyps. set_inv.
      rewrite <- (terminal_name_spec _ _ (dec_state _ _ Hd')). cbn [row_state]. by rewrite terminal_name_as_str. }
    split; [done|]. intros r1. rewrite Hdb, lookup_insert_eq. intros [= <-]. by eapply Hdead.
Qed.

(** *** An activation that returns a session admitted it *)
Lemma activation_ok s actor now w s' w' :
  sound w -> ensure_delivery_ready s actor now w = (Ok s', w') ->
  id s' = id s /\ (state s' = Ready \/ state s' = Playing) /\
  exists s1 w1 w2, id s1 = id s /\ admit_delivery_runtime s1 actor w1 = (Ok (), w2) /\ sound w2 /\ admitted s1 w1 w2 /\
    settle 6 s1 now w2 = (Ok s', w').
Proof.
  intros Hw Hr. apply proc_bind_ok in Hr as (stored & w1 & Hd & Hr). pose proof (decrypt_sound s w Hw) as Hw1. rewrite Hd in Hw1.
  apply proc_bind_ok in Hr as (policy & k & [= _ <-] & Hr). apply proc_bind_ok in Hr as (source & k & [= _ <-] & Hr).
  apply proc_bind_ok in Hr as (s1 & w2 & Ha & Hr). set (protected := protected_egress_applies _ _) in *.
  pose proof (advance_sound 3 protected s now w1 Hw1) as Hw2. rewrite Ha in Hw2. apply advance_id in Ha; [|done].
  apply proc_bind_ok in Hr as (outcome & w3 & Hm & Hr). unfold attempt in Hm.
  destruct (admit_delivery_runtime s1 actor w2) as [o w4] eqn:Had. injection Hm as <- <-. destruct o as [[]|e].
  - destruct (admission _ _ _ _ Hw2 Had) as [Hw4 Hadm]. pose proof Hr as Hs. apply settle_ready in Hs as [-> Hst]; [|done].
    split; [done|split; [done|]]. by exists s1, w2, w4.
  - apply proc_bind_ok in Hr as (? & ? & _ & Hr). by apply proc_bind_ok in Hr as (? & ? & _ & Hr).
Qed.

Lemma replacement_ok s actor fence now w w' : sound w -> replace_delivery_runtime s actor fence now w = (Ok (), w') ->
  exists w1, end_delivery_runtime (id s) fence w = (Ok (), w1) /\ released (id s) w w1 /\
    admit_delivery_runtime s actor w1 = (Ok (), w') /\ sound w' /\ admitted s w1 w'.
Proof.
  intros Hw Hr. apply proc_bind_ok in Hr as ([] & w1 & He & Hr). pose proof (end_delivery_sound (id s) fence w Hw) as Hw1.
  rewrite He in Hw1. apply proc_bind_ok in Hr as (o & w2 & Ha & Hr). unfold attempt in Ha.
  destruct (admit_delivery_runtime s actor w1) as [r w3] eqn:Had. injection Ha as <- <-. destruct r as [[]|e].
  - injection Hr as <-. exists w1. split; [done|]. split; [by apply end_delivery_spec in He as [? _]|]. split; [done|]. by eapply admission.
  - repeat (apply proc_bind_ok in Hr as (? & ? & _ & Hr)). done.
Qed.

(** * Properties *)


(** Ending a playback ends the session before its delivery and reports what is left.  If the end succeeds, the
    session is terminal, no live row of it is left, neither the relay nor the egress service knows it and the remux
    service has released it.  If the cleanup is incomplete the session is over and forgotten by the relay all the same.  Every other error is the refusal of the
    repository, and then neither the database nor the memory nor the containers were touched. *)
Theorem ended_playback_is_over s n fence reason now w r w' :
  spent (id s) -> end_playback s n fence reason now w = (r, w') ->
  (exists s', r = Ok s' /\ SessionState.is_terminal (state s') = true /\ over (id s) w' /\
     exists w1, released (id s) w1 w') \/
  (r = Err cleanup_incomplete /\ over (id s) w' /\ forgotten (id s) w') \/
  (exists e, r = Err (map_repository_error e) /\
     w' = accessed (ew_tick w) (ew_store (meanwhile (ew_tick w) w)) (meanwhile (ew_tick w) w)).
Proof.
  intros Hid Hr. apply proc_bind_inv in Hr as [(mu & w1 & Ht & Hr)|(e & Ht & ->)].
  - apply rejecting_ok in Ht. unfold PlaybackRuntime.transact in Ht. cbn zeta in Ht.
    destruct (terminate _ _ _ _ _ _ _ _ _) as [[mu' db]|e] eqn:Hm; [|done]. injection Ht as -> Hw1.
    apply terminate_over in Hm as [Hterm Hov].
    assert (over (id s) w1) as Hov1 by (intros r'; rewrite <- Hw1; apply Hov). clear Hw1.
    apply proc_bind_inv in Hr as [([] & w2 & He & Hr)|(e & He & ->)].
    + injection Hr as <- <-. apply end_delivery_spec in He as [Hrel Hk]. left. exists (mut_session mu).
      split; [done|split; [done|split; [auto|]]]. by exists w1.
    + apply end_delivery_spec in He as [[-> Hf] Hk]. right; left. auto.
  - right; right. unfold PlaybackRuntime.call, rejecting, PlaybackRuntime.transact in Ht. cbn zeta in Ht.
    destruct (terminate _ _ _ _ _ _ _ _ _) as [[mu' db]|e'] eqn:Hm; [done|]. injection Ht as <- <-. by exists e'.
Qed.

(** C14: A refused activation is undone.  If the server refuses to admit the delivery, it tries to terminate the session
    and then releases the delivery: the relay keeps no entry of the session, whatever the outcome.  The activation
    fails with the rejection when the rest is released too, no binding and no fallback of the session in the memory
    of the egress service and the remux service done with it, and with [cleanup_incomplete] otherwise; and unless the
    repository refused to terminate the session, it is over. *)
Theorem refused_activation_is_undone s actor now w stored w1 s1 w2 rejection w3 policy source r w' :
  spent (id s1) -> decrypt_descriptor s w = (Ok stored, w1) -> StoredEgressPolicy.to_effective (sd_egress stored) = Ok policy ->
  Descriptor.selected stored = Some source ->
  advance 3 (protected_egress_applies policy (ss_private_network source)) s now w1 = (Ok s1, w2) ->
  admit_delivery_runtime s1 actor w2 = (Err rejection, w3) ->
  ensure_delivery_ready s actor now w = (r, w') ->
  let termination n := terminate ring (draws n) (owner s1) (id s1) (revision s1) (control_fencing_token s1)
    (activation_failure (protected_egress_applies policy (ss_private_network source)) (delivery_mode s1)) now in
  let w4 := (transact termination w3).2 in
  w' = (end_delivery_runtime (id s1) (control_fencing_token s1) w4).2 /\ forgotten (id s1) w' /\
  ((r = Err rejection /\ released (id s1) w4 w') \/
   (r = Err cleanup_incomplete /\ (end_delivery_runtime (id s1) (control_fencing_token s1) w4).1 = Err cleanup_incomplete)) /\
  (over (id s1) w' \/ exists e, termination (ew_tick w3) (es_db (ew_store (meanwhile (ew_tick w3) w3))) = Err e).
Proof.
  intros Hid Hd Hp Hs Ha Had Hr termination w4. unfold PlaybackRuntime.ensure_delivery_ready, mbind, proc_bind in Hr.
  rewrite Hd in Hr. cbn -[PlaybackRuntime.advance] in Hr. rewrite Hp, Hs in Hr. cbn -[PlaybackRuntime.advance] in Hr. rewrite Ha in Hr. unfold attempt in Hr. rewrite Had in Hr.
  unfold observe in Hr. fold termination in Hr.
  assert (over (id s1) w4 \/ exists e, termination (ew_tick w3) (es_db (ew_store (meanwhile (ew_tick w3) w3))) = Err e) as Hov.
  { unfold w4, PlaybackRuntime.transact. destruct (termination _ _) as [[mu db]|e] eqn:Hm; [left|right; by exists e].
    apply terminate_over in Hm as [_ Hm]. exact Hm. }
  destruct (transact termination w3) as [o w5] eqn:Ht. change w5 with w4 in Hr.
  destruct (end_delivery_runtime (id s1) (control_fencing_token s1) w4) as [[[]|e] w6] eqn:He; injection Hr as <- <-;
    pose proof He as Hspec; apply end_delivery_spec in Hspec as [Hrel Hk].
  - split; [done|]. split; [apply Hrel|]. split; [by left|]. destruct Hov; auto.
  - destruct Hrel as [-> Hf]. split; [done|]. split; [done|]. split; [by right|]. destruct Hov; auto.
Qed.
End sound_runs.
