(* ===== verification/PlaybackWitness.v ===== *)
(** * Concrete playbacks

    A relayed session of three sources fails over; the protected session 100 of [EgressDemo] is activated and ended. *)
From S2P Require Import Prelude Bytes LiveContract ProviderCalls Addresses EgressPolicy SessionTypes Planner Recovery Descriptor Crypto Vault.
From S2P Require Import CanonicalJson SessionStore SessionRepo SessionFacts SessionEvolution SessionDemo LifecycleWitness AdminAudit AdminWitness.
From S2P Require Import UpstreamPolicy CookieJar UpstreamCredentials UpstreamFetcher UpstreamWitness HttpAccess.
From S2P Require Import EgressAssignments Process EgressWorkers EgressBindings EgressSafety EgressWitness.
From S2P Require Import HlsResources RelaySessions PlaybackRequest PlaybackRecovery PlaybackRuntime.

Module RecoveryDemo.
Definition source_at_rank (name : string) (rank : Z) : StoredSource := {|
  ss_stream_id := name; ss_label := "Main"; ss_quality := None; ss_language := None; ss_priority := rank; ss_protocol := "hls";
  ss_url := "https://a.example/live"; ss_request_headers := []; ss_cookies := []; ss_origin := None; ss_referer := None;
  ss_credential_authorities := []; ss_client_disclosure := "server_only"; ss_expires_at := None; ss_refresh_handle := None;
  ss_server_egress := "not_required"; ss_private_network := false; ss_time_shift_available := false;
  ss_time_shift_window_seconds := None; ss_container := None; ss_video_codec := None; ss_audio_codec := None |}.
Definition first : StoredSource := source_at_rank "s1" 0.
Definition stored_with (egress : StoredEgressPolicy.t) : StoredSessionDescriptor := {|
  sd_provider_revision := "rev-1"; sd_decision_reason := "provider_server_only_requires_relay"; sd_playback_url := None;
  sd_selected_source_index := 0; sd_sources := [first; source_at_rank "s2" 5; source_at_rank "s3" 9];
  sd_egress := egress; sd_recovery := StoredRecoveryState_default |}.
Definition stored : StoredSessionDescriptor := stored_with StoredEgressPolicy.default.
Definition planner_policy : PlannerPolicy := {|
  client_direct_enabled := true; relay_enabled := true; remux_enabled := true; relay_capacity_available := true;
  remux_capacity_available := true; protected_egress_mode := Off; protected_egress_ready := false;
  allow_private_lan_sources := false; provider_private_network_permission := false; native_dash_relay_enabled := false;
  rtmp_remux_enabled := false; srt_remux_enabled := false; disclosure_rules := [] |}.
Definition client : ClientCapabilities :=
  {| protocols := {[Hls]}; containers := ∅; video_codecs := ∅; audio_codecs := ∅ |}.
Definition context : RecoveryContext := {|
  rx_delivery_mode := ServerRelay; rx_created_at := 0; rx_provider_id := 5; rx_permits_refresh := false; rx_item_id := "item";
  rx_reason := Transport; rx_now := seconds 20; rx_client := client; rx_planner_policy := planner_policy;
  rx_loaded := {| planner_rules := []; preflight_rules := [] |}; rx_relay := true; rx_remux := true;
  rx_recovery_policy := {| max_sources := 4; max_transitions := 4; window := seconds 60; source_cooldown := seconds 30 |};
  rx_refresh_lead_seconds := 30 |}.
Definition upstream (n : nat) : Env := web_env.
Definition resolver (n : nat) : bool := true.
Definition refresh (n : nat) (r : ProviderRefreshRequest) : result ProviderInvocationError ResolvedSources := Err ProviderCalls.Transport.
Definition playing : StoredRecoveryState := {|
  rec_client := Some client; requested_egress := Inherit; initial_source_id := Some "s1"; attempted_source_ids := ["s1"];
  source_health := []; events := [] |}.
Definition failover := prepare_source_failover upstream resolver refresh context stored None playing.
Definition chosen (p : option PreparedRecovery) : option string := (fun q => stream_id (descriptor (pr_resolved q))) <$> p.
Definition three : ResolvedSources := {| descriptor := web_source; alternatives := [] |}.
Definition prepared := prepare_recovery_plan upstream resolver 0 context three "s1" StoredEgressPolicy.default true.
End RecoveryDemo.
Import RecoveryDemo.

Lemma playing_inv : recovery_inv playing.
Proof.
  split; [split; cbn|by intros h Hh%elem_of_nil|constructor]; try (vm_compute; reflexivity); try (unfold MAX_STORED_SOURCE_HEALTH, MAX_STORED_EVENTS; lia);
    try (apply NoDup_singleton); try (apply NoDup_nil_2); repeat constructor.
Qed.
Lemma recovery_keeps_source_and_protection_witness :
  exists q, prepared = Ok q /\ stream_id (descriptor (pr_resolved q)) = "s1" /\ plan_mode (pr_plan q) <> ClientDirect.
Proof.
  destruct prepared as [q|] eqn:Hq; [|vm_compute in Hq; discriminate].
  destruct (recovery_keeps_source_and_protection upstream resolver 0 context three "s1" StoredEgressPolicy.default true q Hq)
    as (s & _ & _ & _ & Hid & _ & _ & Hprot & _).
  exists q. split; [reflexivity|]. split; [exact Hid|]. apply Hprot. by rewrite orb_true_r.
Defined.

(** ** The session 100 is protected and remuxed *)
Module RuntimeDemo.
#[export] Instance text_of_descriptors : DescriptorText := {|
  descriptor_to_json _ := None;
  descriptor_of_json _ := Some (stored_with (StoredEgressPolicy.from_effective EgressDemo.policy));
  snapshot_to_json _ _ := None; snapshot_of_json _ := None |}.
(** one place, and the lease of the fence 7 *)
Definition relay : RelayService :=
  {| rl_capacity := 1; rl_lingering _ := 0%Z; rl_now _ := seconds 20; rl_lease _ := Some (Some 7%Z); rl_waiting _ entries := entries |}.
(** an entry that an earlier authority left behind *)
Definition leftover : RelaySession := {|
  ry_session_id := 100; ry_owner := World.owner; ry_control_fencing_token := 6; ry_token_revision := 1;
  ry_hard_expires_at := seconds 3600; ry_protocol := PHls; ry_source := web_source; ry_root_url := web_url "a.example" "/live";
  ry_credentials := web_set; ry_fetcher := None;
  ry_resources := {| hm_session_id := 100; hm_fence := 6; hm_limits := HlsResourceLimits_default; scope_revisions := ∅;
    active_revision := None; entries := ∅; reverse := ∅ |} |}.
(** [full]: the remux service admits no more sessions *)
Definition services (full : bool) : DeliveryServices := {|
  ds_repository _ := true; ds_egress := true; ds_relay := Some relay;
  ds_remux := Some (fun _ _ => if full then Err Rejection.invalid_request else Ok ()); ds_remux_ended _ _ := true |}.
Definition meanwhile (n : nat) (w : EgressWorld) : EgressWorld := w.
Definition spent (i : uuid) : Prop := i = 100%N.
Definition random (n : nat) : Draws := World.draws 1.
Definition over_reason : TerminalReason :=
  {| reason_state := Ended; reason_error_code := None; reason_error_detail := None |}.
End RuntimeDemo.
Import EgressDemo RuntimeDemo.
#[local] Existing Instance World.texts.
Notation service := (live_egress_service (H4:=healthy) cfg 1 30 9000 key alone wall wall fresh material written staged removed specs (fun w => w)).
Notation sound := (service_sound (H4:=healthy) cfg 1 9000).
#[local] Instance service_laws : EgressServiceLaws service sound (verified_in (H4:=healthy) cfg 9000) spent.
Proof.
  exact (live_egress_service_laws (H4:=healthy) (H6:=crypto_vault) (H7:=World.texts) cfg 1 30 9000 key alone wall wall fresh material written staged removed specs
    (fun w => w) (fun w Hw => Hw) (fun _ _ => rtc_refl _ _) spent (fun _ _ _ _ Hd => Hd)).
Qed.
Lemma world_sound : sound world.
Proof.
  split; [|exact ready_inv]. apply (reachable_inv (H4:=healthy)) with (startup_timeout := 30%Z) (audit_key := key) (others := alone)
    (wall_clock := wall) (db_clock := wall) (fresh_id := fresh) (material := material) (secret_written := written)
    (file_written := staged) (secrets_removed := removed) (topology := specs); [lia|].
  exists world. split; [exact world_empty|apply rtc_refl].
Qed.
Notation activation := (ensure_delivery_ready (E:=service) Demo.ring random meanwhile (services false) session AuditDemo.actor (seconds 20) world).
Definition activated : SessionRecord := match activation.1 with Ok s => s | Err _ => session end.
Lemma activation_result : activation = (Ok activated, activation.2).
Proof. apply outcome_pair. vm_compute. reflexivity. Qed.

(** ** It is ended *)
Notation after_activation := activation.2.
Notation ending := (end_playback (E:=service) Demo.ring random meanwhile (services false) session 3 7 over_reason (seconds 21) after_activation).
Lemma ended_playback_is_over_witness :
  is_ok ending.1 = true /\ over 100 ending.2 /\ ew_bindings ending.2 !! 100%N = None.
Proof.
  assert (is_ok ending.1 = true) as Hok by (vm_compute; reflexivity). split; [exact Hok|].
  destruct (ended_playback_is_over (EL:=service_laws) Demo.ring random meanwhile (services false) session 3 7 over_reason (seconds 21)
    after_activation ending.1 ending.2 eq_refl (surjective_pairing _)) as [(s' & _ & _ & Hov & w1 & Hrel)|[[He _]|(e & He & _)]].
  - split; [exact Hov|exact (proj1 (proj1 (proj2 Hrel) eq_refl))].
  - rewrite He in Hok. discriminate Hok.
  - rewrite He in Hok. discriminate Hok.
Defined.

(** ** The remux service refuses it *)
Definition left_behind : EgressWorld := set_relay <[100%N := leftover]> world.
Notation refused_run := (ensure_delivery_ready (E:=service) Demo.ring random meanwhile (services true) session AuditDemo.actor (seconds 20) left_behind).
Notation opened := (decrypt_descriptor Demo.ring meanwhile session left_behind).
Definition protected_stored : StoredSessionDescriptor := stored_with (StoredEgressPolicy.from_effective EgressDemo.policy).
Notation refusal := (admit_delivery_runtime (E:=service) Demo.ring meanwhile (services true) session AuditDemo.actor opened.2).
Lemma refused_activation_is_undone_witness :
  refused_run.1 = Err Rejection.invalid_request /\
  ew_bindings refusal.2 !! 100%N <> None /\ ew_relay refusal.2 !! 100%N <> None /\
  ew_bindings refused_run.2 !! 100%N = None /\ ew_relay refused_run.2 !! 100%N = None.
Proof.
  assert (refused_run.1 = Err Rejection.invalid_request) as Hr by (vm_compute; reflexivity).
  split; [exact Hr|split; [vm_compute; discriminate|split; [vm_compute; discriminate|]]].
  assert (opened = (Ok protected_stored, opened.2)) as Ho by (apply outcome_pair; vm_compute; reflexivity).
  assert (refusal = (Err Rejection.invalid_request, refusal.2)) as Hf by (apply outcome_pair; vm_compute; reflexivity).
  destruct (refused_activation_is_undone (EL:=service_laws) Demo.ring random meanwhile (services true) session AuditDemo.actor (seconds 20)
    left_behind protected_stored opened.2 session opened.2 Rejection.invalid_request refusal.2 EgressDemo.policy first refused_run.1 refused_run.2
    eq_refl Ho eq_refl eq_refl eq_refl Hf (surjective_pairing _)) as (_ & Hrelay & [[_ (_ & Hrel & _)]|[He _]] & _).
  - exact (conj (proj1 (Hrel eq_refl)) (Hrelay eq_refl)).
  - rewrite Hr in He. discriminate He.
Defined.
