(* ===== verification/HttpAdmission.v ===== *)
(** * The admission of requests (src/src/http/handlers/live/catalog.rs)

    Each user may send so many requests per window of a minute, and have so many open at a time, of each class.  The
    map of the windows is behind a mutex; [now] is read before the mutex is taken, so a request may enter up to
    [delay] after the instant it counts with.  A poisoned mutex is not modelled: nothing panics under it. *)
From S2P Require Import Prelude LiveContract SessionTypes HttpAccess.

Definition MAX_ADMISSION_USERS : nat := Z.to_nat 10000.
Definition MAX_REQUESTS_PER_MINUTE : Z := 120.
Definition MAX_CONCURRENT_REQUESTS : Z := 16.
Definition MAX_ARTWORK_REQUESTS_PER_MINUTE : Z := 600.
Definition MAX_CONCURRENT_ARTWORK_REQUESTS : Z := 32.
Definition ADMISSION_WINDOW : Z := seconds 60.
Definition ADMISSION_IDLE_TTL : Z := seconds (5 * 60).

Inductive AdmissionClass := Interactive | ArtworkClass.
#[export] Instance AdmissionClass_eq_dec : EqDecision AdmissionClass.
Proof. solve_decision. Defined.
Record AdmissionWindow := { window_started : instant; requests : Z; concurrent : Z }.
Record AdmissionState := { last_seen : instant; interactive : AdmissionWindow; artwork : AdmissionWindow }.
Record AdmissionGuard := { gd_user_id : uuid; gd_class : AdmissionClass }.
#[export] Instance AdmissionGuard_eq_dec : EqDecision AdmissionGuard.
Proof. solve_decision. Defined.

Definition AdmissionWindow_new (now : instant) : AdmissionWindow :=
  {| window_started := now; requests := 0; concurrent := 0 |}.
Definition AdmissionState_new (now : instant) : AdmissionState :=
  {| last_seen := now; interactive := AdmissionWindow_new now; artwork := AdmissionWindow_new now |}.
Definition window_mut (c : AdmissionClass) (s : AdmissionState) : AdmissionWindow :=
  match c with Interactive => interactive s | ArtworkClass => artwork s end.
Definition set_window (c : AdmissionClass) (w : AdmissionWindow) (s : AdmissionState) : AdmissionState :=
  match c with
  | Interactive => {| last_seen := last_seen s; interactive := w; artwork := artwork s |}
  | ArtworkClass => {| last_seen := last_seen s; interactive := interactive s; artwork := w |}
  end.
Definition set_seen (now : instant) (s : AdmissionState) : AdmissionState :=
  {| last_seen := now; interactive := interactive s; artwork := artwork s |}.
(** [duration_since] saturates at zero *)
Definition duration_since (now earlier : instant) : Z := Z.max 0 (now - earlier).
Definition class_limits (c : AdmissionClass) : Z * Z :=
  match c with
  | Interactive => (MAX_REQUESTS_PER_MINUTE, MAX_CONCURRENT_REQUESTS)
  | ArtworkClass => (MAX_ARTWORK_REQUESTS_PER_MINUTE, MAX_CONCURRENT_ARTWORK_REQUESTS)
  end.
Definition rolled (now : instant) (w : AdmissionWindow) : AdmissionWindow :=
  if (ADMISSION_WINDOW <=? duration_since now (window_started w))%Z
  then {| window_started := now; requests := 0; concurrent := concurrent w |} else w.
Definition retry_after (now : instant) (w : AdmissionWindow) : Z :=
  let remaining := Z.max 0 (ADMISSION_WINDOW - duration_since now (window_started w)) in
  Z.min (Z.max (remaining / nanos_per_second + (if (0 <? remaining mod nanos_per_second)%Z then 1 else 0)) 1) 4294967295.
Notation AdmissionMap := (gmap uuid AdmissionState).
(** the idle users are forgotten *)
Definition retained (now : instant) (states : AdmissionMap) : AdmissionMap :=
  filter (fun kv => (duration_since now (last_seen kv.2) < ADMISSION_IDLE_TTL)%Z) states.
Definition makes_room (user_id : uuid) (states : AdmissionMap) : bool :=
  (MAX_ADMISSION_USERS <=? size states) && is_none_b (states !! user_id).

Definition admit_class (now : instant) (user_id : uuid) (class : AdmissionClass) (states : AdmissionMap)
    : result LiveHttpRejection AdmissionGuard * AdmissionMap :=
  let room := makes_room user_id states in
  let states := if room then retained now states else states in
  if room && (MAX_ADMISSION_USERS <=? size states) then (Err (Rejection.rate_limited 1), states) else
  let state := default (AdmissionState_new now) (states !! user_id) in
  let '(max_requests, max_concurrent) := class_limits class in
  let w := rolled now (window_mut class state) in
  if (max_requests <=? requests w)%Z
  then (Err (Rejection.rate_limited (retry_after now w)), <[user_id := set_window class w state]> states)
  else if (max_concurrent <=? concurrent w)%Z
  then (Err (Rejection.rate_limited 1), <[user_id := set_window class w state]> states)
  else
    let w := {| window_started := window_started w; requests := requests w + 1; concurrent := concurrent w + 1 |} in
    (Ok {| gd_user_id := user_id; gd_class := class |}, <[user_id := set_seen now (set_window class w state)]> states).
Definition admit_request (now : instant) (user_id : uuid) := admit_class now user_id Interactive.
Definition admit_artwork (now : instant) (user_id : uuid) := admit_class now user_id ArtworkClass.
(** [Drop] of a guard *)
Definition drop_guard (now : instant) (g : AdmissionGuard) (states : AdmissionMap) : AdmissionMap :=
  match states !! gd_user_id g with
  | None => states
  | Some s =>
      let w := window_mut (gd_class g) s in
      let w := {| window_started := window_started w; requests := requests w; concurrent := Z.max 0 (concurrent w - 1) |} in
      <[gd_user_id g := set_seen now (set_window (gd_class g) w s)]> states
  end.

(** ** Runs *)
(** an admission: who, when it entered, and the start of the window it was counted in *)
Record Entry := { en_guard : AdmissionGuard; en_at : instant; en_window : instant }.
(** the server: the map, the clock, the guards that are held with the instants they entered, and all admissions so far *)
Record Floor := { fl_states : AdmissionMap; fl_clock : instant; fl_held : list (AdmissionGuard * instant); fl_log : list Entry }.
Definition floor_start (t : instant) : Floor := {| fl_states := ∅; fl_clock := t; fl_held := []; fl_log := [] |}.
Definition entry_window (g : AdmissionGuard) (states : AdmissionMap) : instant :=
  from_option (fun s => window_started (window_mut (gd_class g) s)) 0%Z (states !! gd_user_id g).

Section runs.
Variable delay : Z.
(** [t]: when the mutex is taken; [now]: what the request had read before *)
Inductive floor_step : Floor -> Floor -> Prop :=
| step_admit f t now user_id class g states :
    (fl_clock f <= t)%Z -> (t - delay <= now <= t)%Z -> admit_class now user_id class (fl_states f) = (Ok g, states) ->
    floor_step f {| fl_states := states; fl_clock := t; fl_held := (g, t) :: fl_held f;
                    fl_log := {| en_guard := g; en_at := t; en_window := entry_window g states |} :: fl_log f |}
| step_refuse f t now user_id class e states :
    (fl_clock f <= t)%Z -> (t - delay <= now <= t)%Z -> admit_class now user_id class (fl_states f) = (Err e, states) ->
    floor_step f {| fl_states := states; fl_clock := t; fl_held := fl_held f; fl_log := fl_log f |}
| step_drop f t g entered before after :
    (fl_clock f <= t)%Z -> fl_held f = before ++ (g, entered) :: after ->
    floor_step f {| fl_states := drop_guard t g (fl_states f); fl_clock := t; fl_held := before ++ after; fl_log := fl_log f |}.
(** no request is open for so long that its user looks idle *)
Definition brief (f : Floor) (t : instant) : Prop :=
  forall g entered, (g, entered) ∈ fl_held f -> (t - entered < ADMISSION_IDLE_TTL - delay)%Z.
Definition brief_step (f f' : Floor) : Prop := floor_step f f' /\ brief f (fl_clock f').
End runs.

(** ** One admission *)
Definition counted (w : AdmissionWindow) : AdmissionWindow :=
  {| window_started := window_started w; requests := requests w + 1; concurrent := concurrent w + 1 |}.
Definition state_of (now : instant) (user_id : uuid) (states : AdmissionMap) : AdmissionState :=
  default (AdmissionState_new now) (states !! user_id).
(** the map in which the request is counted: idle users may have been forgotten to make room *)
Definition roomy (now : instant) (user_id : uuid) (states kept : AdmissionMap) : Prop :=
  kept = states \/ kept = retained now states.
Lemma admit_class_spec now user_id c states r states' : admit_class now user_id c states = (r, states') ->
  exists kept, roomy now user_id states kept /\
    let s := state_of now user_id kept in
    let w := rolled now (window_mut c s) in
    match r with
    | Ok g => g = {| gd_user_id := user_id; gd_class := c |} /\ (requests w < (class_limits c).1)%Z /\
        (concurrent w < (class_limits c).2)%Z /\ states' = <[user_id := set_seen now (set_window c (counted w) s)]> kept
    | Err _ => states' = kept \/ states' = <[user_id := set_window c w s]> kept
    end.
Proof.
  unfold admit_class. set (room := makes_room user_id states). intros Ha.
  exists (if room then retained now states else states). split; [destruct room; [by right|by left]|].
  destruct (room && _) eqn:Hf; [injection Ha as <- <-; by left|]. destruct (class_limits c) as [max_r max_c]. cbn.
  fold (state_of now user_id (if room then retained now states else states)) in Ha.
  destruct (max_r <=? _)%Z eqn:Hr; [injection Ha as <- <-; by right|].
  destruct (max_c <=? _)%Z eqn:Hc; [injection Ha as <- <-; by right|].
  injection Ha as <- <-. split; [done|]. apply Z.leb_gt in Hr, Hc. done.
Qed.
Lemma roomy_lookup now u states kept u' s : roomy now u states kept -> kept !! u' = Some s -> states !! u' = Some s.
Proof. intros [->| ->]; [done|]. unfold retained. by intros [? _]%map_lookup_filter_Some. Qed.
Lemma roomy_lost now u states kept u' s : roomy now u states kept -> kept !! u' = None -> states !! u' = Some s ->
  (ADMISSION_IDLE_TTL <= duration_since now (last_seen s))%Z.
Proof.
  intros [->| ->]; [congruence|]. unfold retained. rewrite map_lookup_filter_None. intros [?|Hn] Hs; [congruence|].
  specialize (Hn s Hs). cbn in Hn. lia.
Qed.
Lemma window_set c c' w s : window_mut c' (set_window c w s) = if decide (c' = c) then w else window_mut c' s.
Proof. by destruct c, c', s. Qed.
Lemma window_seen c now s : window_mut c (set_seen now s) = window_mut c s.
Proof. by destruct c. Qed.
Lemma last_seen_window c w s : last_seen (set_window c w s) = last_seen s.
Proof. by destruct c. Qed.
Lemma window_fresh c now : window_mut c (AdmissionState_new now) = AdmissionWindow_new now.
Proof. by destruct c. Qed.
Lemma limits_positive c : (0 < (class_limits c).1)%Z /\ (0 < (class_limits c).2)%Z.
Proof. by destruct c. Qed.
Lemma rolled_spec now w :
  (rolled now w = w /\ (now - window_started w < ADMISSION_WINDOW)%Z) \/
  (rolled now w = {| window_started := now; requests := 0; concurrent := concurrent w |} /\
   (window_started w + ADMISSION_WINDOW <= now)%Z).
Proof.
  unfold rolled, duration_since. assert (0 < ADMISSION_WINDOW)%Z by done.
  destruct (_ <=? _)%Z eqn:Hl; [right; apply Z.leb_le in Hl|left; apply Z.leb_gt in Hl]; (split; [done|lia]).
Qed.
Lemma rolled_concurrent now w : concurrent (rolled now w) = concurrent w.
Proof. unfold rolled. by destruct (_ <=? _)%Z. Qed.

(** ** The rate: windows are a minute apart and hold so many admissions *)
Definition in_window (g : AdmissionGuard) (start : instant) (e : Entry) : Prop := en_guard e = g /\ en_window e = start.
#[export] Instance in_window_dec g start e : Decision (in_window g start e).
Proof. unfold in_window. apply _. Defined.
Definition window_count (g : AdmissionGuard) (start : instant) (log : list Entry) : nat := length (filter (in_window g start) log).
Definition before_window (start : instant) (e : Entry) : Prop :=
  en_window e = start \/ (en_window e + ADMISSION_WINDOW <= start)%Z.
Record window_ok (g : AdmissionGuard) (log : list Entry) (w : AdmissionWindow) : Prop := {
  wk_requests : requests w = Z.of_nat (window_count g (window_started w) log);
  wk_before : forall e, e ∈ log -> en_guard e = g -> before_window (window_started w) e;
}.
Definition guard_of (u : uuid) (c : AdmissionClass) : AdmissionGuard := {| gd_user_id := u; gd_class := c |}.
Lemma filter_none {A} (P : A -> Prop) `{!forall x, Decision (P x)} (l : list A) : (forall x, x ∈ l -> ~ P x) -> filter P l = [].
Proof.
  induction l as [|x l IH]; intros Hl; [done|]. rewrite filter_cons_False by (apply Hl; by left). apply IH. intros y Hy. apply Hl. by right.
Qed.
Lemma window_ok_fresh g log now n :
  (forall e, e ∈ log -> en_guard e = g -> (en_window e + ADMISSION_WINDOW <= now)%Z) ->
  window_ok g log {| window_started := now; requests := 0; concurrent := n |}.
Proof.
  intros Hl. split; cbn; [|intros e He Hg; right; by apply Hl]. unfold window_count.
  assert (filter (in_window g now) log = []) as ->; [|done]. apply filter_none. intros e He [Hg Hw].
  specialize (Hl e He Hg). assert (0 < ADMISSION_WINDOW)%Z by done. lia.
Qed.
Lemma window_ok_rolled g log now w : window_ok g log w -> window_ok g log (rolled now w).
Proof.
  intros Hw. destruct (rolled_spec now w) as [[-> _]|[-> Hl]]; [done|]. apply window_ok_fresh. intros e He Hg.
  assert (0 < ADMISSION_WINDOW)%Z by done. destruct (wk_before _ _ _ Hw e He Hg); lia.
Qed.
Lemma window_ok_other g e log w : en_guard e <> g -> window_ok g log w -> window_ok g (e :: log) w.
Proof.
  intros Hne [Hr Hb]. split.
  - unfold window_count. rewrite (filter_cons_False (in_window g (window_started w)) e); [done|]. by intros [? _].
  - intros e' [->|He']%elem_of_cons Hg; [done|by apply Hb].
Qed.
Lemma window_ok_counted g e log w : en_guard e = g -> en_window e = window_started w ->
  window_ok g log w -> window_ok g (e :: log) (counted w).
Proof.
  intros Hg Hw [Hr Hb]. split; cbn [counted requests window_started].
  - unfold window_count in *. rewrite (filter_cons_True (in_window g (window_started w)) e) by done. cbn [length]. lia.
  - intros e' [->|He']%elem_of_cons Hg'; [by left|by apply Hb].
Qed.

Section rate.
Variable delay : Z.
Hypothesis delay_short : (0 <= delay <= seconds 120)%Z.
Notation step := (floor_step delay).
Record rate_inv (f : Floor) : Prop := {
  rt_time : forall e, e ∈ fl_log f -> (en_window e <= en_at e < en_window e + ADMISSION_WINDOW + delay)%Z /\ (en_at e <= fl_clock f)%Z;
  rt_apart : forall e e', e ∈ fl_log f -> e' ∈ fl_log f -> en_guard e = en_guard e' ->
    before_window (en_window e) e' \/ before_window (en_window e') e;
  rt_count : forall u c ws, (Z.of_nat (window_count (guard_of u c) ws (fl_log f)) <= (class_limits c).1)%Z;
  rt_windows : forall u s c, fl_states f !! u = Some s ->
    window_ok (guard_of u c) (fl_log f) (window_mut c s) /\ (window_started (window_mut c s) <= fl_clock f)%Z;
  rt_seen : forall u s e, fl_states f !! u = Some s -> e ∈ fl_log f -> gd_user_id (en_guard e) = u ->
    (en_at e - delay <= last_seen s)%Z;
  rt_missing : forall u e, fl_states f !! u = None -> e ∈ fl_log f -> gd_user_id (en_guard e) = u ->
    (en_window e + ADMISSION_WINDOW + delay <= fl_clock f)%Z;
}.
(** what is known of the map in which a request is counted *)
Lemma room_ok f t now u kept :
  rate_inv f -> (fl_clock f <= t)%Z -> (t - delay <= now <= t)%Z -> roomy now u (fl_states f) kept ->
  rate_inv {| fl_states := kept; fl_clock := t; fl_held := fl_held f; fl_log := fl_log f |}.
Proof.
  intros [Ht Ha Hc Hw Hs Hm] Hclock Hnow Hroom. split; cbn; try done.
  - intros e He. destruct (Ht e He). split; [done|lia].
  - intros u' s c Hu. apply (roomy_lookup _ _ _ _ _ _ Hroom) in Hu. destruct (Hw u' s c Hu). split; [done|lia].
  - intros u' s e Hu. apply (roomy_lookup _ _ _ _ _ _ Hroom) in Hu. by apply Hs.
  - intros u' e Hu He Hg. destruct (fl_states f !! u') as [s|] eqn:Hu'.
    + pose proof (roomy_lost _ _ _ _ _ _ Hroom Hu Hu') as Hl. specialize (Hs _ _ _ Hu' He Hg). destruct (Ht e He) as [? _].
      unfold duration_since in Hl. assert (ADMISSION_IDLE_TTL = seconds 300) as Heq by done. assert (ADMISSION_WINDOW = seconds 60) as Heq' by done.
      unfold seconds, nanos_per_second in *. lia.
    + specialize (Hm _ _ Hu' He Hg). lia.
Qed.
(** the window of a user before a request is counted *)
Lemma state_window_ok f now u c : rate_inv f -> (fl_clock f - delay <= now <= fl_clock f)%Z ->
  let w := window_mut c (state_of now u (fl_states f)) in
  window_ok (guard_of u c) (fl_log f) w /\ (window_started w <= fl_clock f)%Z.
Proof.
  intros Hi Hnow. cbn zeta. unfold state_of. destruct (fl_states f !! u) as [s|] eqn:Hu; cbn [default]; [by apply rt_windows|].
  cbn. rewrite window_fresh. split; [|cbn; lia]. apply window_ok_fresh. intros e He Hg.
  assert (gd_user_id (en_guard e) = u) as Hgu by by rewrite Hg. pose proof (rt_missing _ Hi u e Hu He Hgu). lia.
Qed.
Lemma counted_window_ok f now u c : rate_inv f -> (fl_clock f - delay <= now <= fl_clock f)%Z ->
  let w := rolled now (window_mut c (state_of now u (fl_states f))) in
  window_ok (guard_of u c) (fl_log f) w /\ (window_started w <= fl_clock f)%Z /\ (now - window_started w < ADMISSION_WINDOW)%Z.
Proof.
  intros Hi Hnow. cbn zeta. assert (0 < ADMISSION_WINDOW)%Z by done. destruct (state_window_ok f now u c Hi Hnow).
  split; [by apply window_ok_rolled|].
  destruct (rolled_spec now (window_mut c (state_of now u (fl_states f)))) as [[-> ?]|[-> ?]]; cbn; lia.
Qed.
(** a refused request may have started a new window *)
Lemma refused_rate f now u c : rate_inv f -> (fl_clock f - delay <= now <= fl_clock f)%Z ->
  let s := state_of now u (fl_states f) in
  rate_inv {| fl_states := <[u := set_window c (rolled now (window_mut c s)) s]> (fl_states f); fl_clock := fl_clock f;
              fl_held := fl_held f; fl_log := fl_log f |}.
Proof.
  intros Hi Hnow. cbn zeta. split; cbn; try apply Hi.
  - intros u' s' c' [[<- <-]|[Hne Hu']]%lookup_insert_Some; [|by apply rt_windows]. rewrite window_set. case_decide; subst.
    + destruct (counted_window_ok f now u c Hi Hnow) as (? & ? & _). done.
    + by apply state_window_ok.
  - intros u' s' e [[<- <-]|[Hne Hu']]%lookup_insert_Some He Hg; [|by eapply (rt_seen _ Hi)]. rewrite last_seen_window. unfold state_of.
    destruct (fl_states f !! u) as [s|] eqn:Hu; cbn; [by eapply rt_seen|]. destruct (rt_time _ Hi e He). lia.
  - intros u' e [Hu' _]%lookup_insert_None. by apply (rt_missing _ Hi).
Qed.
Lemma window_count_cons g ws e log :
  window_count g ws (e :: log) = (if decide (in_window g ws e) then 1 else 0) + window_count g ws log.
Proof. unfold window_count. rewrite filter_cons. by case_decide. Qed.
Lemma counted_rate f now u c held : rate_inv f -> (fl_clock f - delay <= now <= fl_clock f)%Z ->
  let s := state_of now u (fl_states f) in
  let w := rolled now (window_mut c s) in
  (requests w < (class_limits c).1)%Z ->
  rate_inv {| fl_states := <[u := set_seen now (set_window c (counted w) s)]> (fl_states f); fl_clock := fl_clock f; fl_held := held;
              fl_log := {| en_guard := guard_of u c; en_at := fl_clock f; en_window := window_started w |} :: fl_log f |}.
Proof.
  intros Hi Hnow. cbn zeta. set (w := rolled _ _). intros Hroom.
  destruct (counted_window_ok f now u c Hi Hnow) as (Hw & Hle & Hlt). fold w in Hw, Hle, Hlt. split; cbn [fl_states fl_clock fl_log].
  - intros e [->|He]%elem_of_cons; [cbn; lia|by apply rt_time].
  - intros e e' [->|He]%elem_of_cons [->|He']%elem_of_cons Hg; [left; by left|left|right|by apply (rt_apart _ Hi)]; cbn in *.
    + by apply (wk_before _ _ _ Hw).
    + by apply (wk_before _ _ _ Hw).
  - intros u' c' ws. rewrite window_count_cons. case_decide as Hin; [|by apply rt_count]. destruct Hin as [[= <- <-] <-]. cbn [en_window].
    pose proof (wk_requests _ _ _ Hw). lia.
  - intros u' s' c' [[<- <-]|[Hne Hu']]%lookup_insert_Some.
    + rewrite window_seen, window_set. case_decide; subst; [split; [by apply window_ok_counted|done]|].
      destruct (state_window_ok f now u c' Hi Hnow). split; [|done]. apply window_ok_other; [|done]. by intros [= ->].
    + destruct (rt_windows _ Hi _ _ c' Hu'). split; [|done]. apply window_ok_other; [|done]. by intros [= -> _].
  - intros u' s' e [[<- <-]|[Hne Hu']]%lookup_insert_Some [->|He]%elem_of_cons Hg; cbn in *; [lia| |congruence|by eapply (rt_seen _ Hi)].
    destruct (rt_time _ Hi e He). lia.
  - intros u' e [Hu' Hne]%lookup_insert_None [->|He]%elem_of_cons Hg; [by cbn in Hg|by eapply (rt_missing _ Hi)].
Qed.
Lemma drop_rate f t g held : rate_inv f -> (fl_clock f <= t)%Z ->
  rate_inv {| fl_states := drop_guard t g (fl_states f); fl_clock := t; fl_held := held; fl_log := fl_log f |}.
Proof.
  intros Hi Hclock. assert (rate_inv {| fl_states := fl_states f; fl_clock := t; fl_held := held; fl_log := fl_log f |}) as Hi'.
  { apply (room_ok f t t (gd_user_id g) (fl_states f)) in Hi; [|lia..|by left]. by destruct Hi. }
  unfold drop_guard. destruct (fl_states f !! gd_user_id g) as [s|] eqn:Hu; [|done]. split; cbn; try apply Hi'.
  - intros u s' c [[<- <-]|[Hne Hu']]%lookup_insert_Some; [|by apply (rt_windows _ Hi' u s' c)]. rewrite window_seen, window_set.
    destruct (rt_windows _ Hi' _ _ c Hu) as [Hw Hle]. case_decide; subst; [|done]. split; [|done]. by destruct Hw.
  - intros u s' e [[<- <-]|[Hne Hu']]%lookup_insert_Some He Hg; [|by eapply (rt_seen _ Hi')]. cbn. destruct (rt_time _ Hi' e He) as [_ Ht]. cbn in Ht. lia.
  - intros u e [Hu' _]%lookup_insert_None. by apply (rt_missing _ Hi').
Qed.
Lemma step_rate f f' : step f f' -> rate_inv f -> rate_inv f'.
Proof.
  intros Hs Hi. destruct Hs as [f t now u c g states Hclock Hnow Ha|f t now u c e states Hclock Hnow Ha|f t g en l l' Hclock Hheld].
  - apply admit_class_spec in Ha as (kept & Hroom & -> & Hr & _ & ->). pose proof (room_ok f t now u kept Hi Hclock Hnow Hroom) as Hk.
    apply (counted_rate _ now u c (({| gd_user_id := u; gd_class := c |}, t) :: fl_held f)) in Hk; [|done..]. cbn in Hk.
    unfold entry_window. cbn. rewrite lookup_insert_eq. cbn. rewrite window_seen, window_set, decide_True by done. exact Hk.
  - apply admit_class_spec in Ha as (kept & Hroom & Hor). pose proof (room_ok f t now u kept Hi Hclock Hnow Hroom) as Hk.
    destruct Hor as [->| ->]; [done|]. by apply (refused_rate _ now u c) in Hk.
  - by apply drop_rate.
Qed.
Lemma start_rate t : rate_inv (floor_start t).
Proof.
  split; cbn; try done; try (by intros e He%elem_of_nil); try (by intros e e' He%elem_of_nil).
  - intros u c ws. destruct (limits_positive c). cbn. lia.
  - by intros u e _ He%elem_of_nil.
Qed.
End rate.

Lemma length_filter_mono {A} (P Q : A -> Prop) `{!forall x, Decision (P x), !forall x, Decision (Q x)} (l : list A) :
  (forall x, x ∈ l -> P x -> Q x) -> length (filter P l) <= length (filter Q l).
Proof.
  induction l as [|x l IH]; intros Hl; [done|]. assert (length (filter P l) <= length (filter Q l)) as Hlen by (apply IH; intros; apply Hl; [by right|done]).
  rewrite !filter_cons. repeat case_decide; cbn; try lia. exfalso. eauto using list_elem_of_here.
Qed.
Lemma length_filter_or {A} (P Q : A -> Prop) `{!forall x, Decision (P x), !forall x, Decision (Q x)} (l : list A) :
  (forall x, x ∈ l -> P x \/ Q x) -> length l <= length (filter P l) + length (filter Q l).
Proof.
  induction l as [|x l IH]; intros Hl; [done|]. assert (length l <= length (filter P l) + length (filter Q l)) as Hlen by (apply IH; intros; apply Hl; by right).
  rewrite !filter_cons. destruct (Hl x ltac:(by left)); repeat case_decide; cbn; lia || done.
Qed.
(** windows that are a minute apart and begin within two minutes are at most two *)
Lemma two_windows (l : list Entry) lo :
  (forall e, e ∈ l -> (lo < en_window e < lo + 2 * ADMISSION_WINDOW)%Z) ->
  (forall e e', e ∈ l -> e' ∈ l -> before_window (en_window e) e' \/ before_window (en_window e') e) ->
  exists m1 m2, forall e, e ∈ l -> en_window e = m1 \/ en_window e = m2.
Proof.
  intros Hin Hap. destruct l as [|e0 l]; [by exists 0%Z, 0%Z; intros e He%elem_of_nil|].
  set (all := e0 :: l) in *. assert (e0 ∈ all) as He0 by by left.
  destruct (decide (Exists (fun e => en_window e <> en_window e0) all)) as [[e1 [He1 Hne]]%Exists_exists|Hno].
  - exists (en_window e0), (en_window e1). intros e He.
    pose proof (Hin _ He0). pose proof (Hin _ He1). pose proof (Hin _ He).
    pose proof (Hap _ _ He0 He1) as H01. pose proof (Hap _ _ He0 He) as H0e. pose proof (Hap _ _ He1 He) as H1e.
    unfold before_window in *. lia.
  - exists (en_window e0), (en_window e0). intros e He. left. rewrite <- Forall_Exists_neg, Forall_forall in Hno.
    destruct (decide (en_window e = en_window e0)); [done|]. by destruct (Hno e He).
Qed.

(** ** The guards: how many requests are open *)
Definition open_count (g : AdmissionGuard) (held : list (AdmissionGuard * instant)) : nat := length (filter (fun p => p.1 = g) held).
Lemma open_count_cons g h t held : open_count g ((h, t) :: held) = (if decide (h = g) then 1 else 0) + open_count g held.
Proof. unfold open_count. rewrite filter_cons. cbn. by case_decide. Qed.
Lemma open_count_drop g h t l l' : open_count g (l ++ (h, t) :: l') = (if decide (h = g) then 1 else 0) + open_count g (l ++ l').
Proof. unfold open_count. rewrite !filter_app, filter_cons, !length_app. cbn. case_decide; cbn; lia. Qed.
Definition concurrent_of (g : AdmissionGuard) (states : AdmissionMap) : Z :=
  from_option (fun s => concurrent (window_mut (gd_class g) s)) 0%Z (states !! gd_user_id g).
Lemma concurrent_set g now f w s states :
  concurrent_of g (<[gd_user_id f := set_seen now (set_window (gd_class f) w s)]> states) =
  if decide (gd_user_id g = gd_user_id f)
  then if decide (gd_class g = gd_class f) then concurrent w else concurrent (window_mut (gd_class g) s)
  else concurrent_of g states.
Proof.
  unfold concurrent_of. case_decide as Hu.
  - rewrite Hu, lookup_insert_eq. cbn. rewrite window_seen, window_set. by case_decide.
  - by rewrite lookup_insert_ne.
Qed.
Lemma concurrent_state g now states :
  concurrent (window_mut (gd_class g) (state_of now (gd_user_id g) states)) = concurrent_of g states.
Proof.
  unfold state_of, concurrent_of. destruct (states !! _); cbn; [done|]. by rewrite window_fresh.
Qed.
Lemma guard_eq (g h : AdmissionGuard) : gd_user_id g = gd_user_id h -> gd_class g = gd_class h -> g = h.
Proof. destruct g, h. by intros [= ->] [= ->]. Qed.

Lemma concurrent_admitted now u c states g states' : admit_class now u c states = (Ok g, states') ->
  exists kept, roomy now u states kept /\ g = guard_of u c /\ (concurrent_of g kept < (class_limits c).2)%Z /\
    (exists s, states' !! u = Some s /\ last_seen s = now) /\ (forall u', u' <> u -> states' !! u' = kept !! u') /\
    forall h, concurrent_of h states' = (concurrent_of h kept + if decide (h = g) then 1 else 0)%Z.
Proof.
  intros (kept & Hroom & -> & _ & Hc & ->)%admit_class_spec. exists kept. split; [done|]. split; [done|].
  rewrite rolled_concurrent, (concurrent_state (guard_of u c)) in Hc. split; [done|].
  split; [eexists; rewrite lookup_insert_eq; by split|]. split; [intros u' Hne; by rewrite lookup_insert_ne|].
  intros h. rewrite (concurrent_set h now (guard_of u c)). cbn [gd_user_id gd_class guard_of counted concurrent].
  rewrite rolled_concurrent, (concurrent_state (guard_of u c)). fold (guard_of u c).
  destruct (decide (gd_user_id h = u)) as [Hu|Hu]; [destruct (decide (gd_class h = c)) as [Hcl|Hcl]|].
  - assert (h = guard_of u c) as -> by by apply guard_eq. by rewrite decide_True.
  - rewrite decide_False by (by intros ->). rewrite <- Hu, concurrent_state. lia.
  - rewrite decide_False by (by intros ->). lia.
Qed.
Lemma concurrent_refused now u c states e states' : admit_class now u c states = (Err e, states') ->
  exists kept, roomy now u states kept /\ (forall h, concurrent_of h states' = concurrent_of h kept) /\
    (forall u' s, kept !! u' = Some s -> exists s', states' !! u' = Some s' /\ last_seen s' = last_seen s).
Proof.
  intros (kept & Hroom & [->| ->])%admit_class_spec; exists kept; (split; [done|]); [split; [done|intros u' s Hs; by exists s]|].
  set (s := state_of now u kept). set (w := rolled _ _). split.
  - intros h. assert (set_window c w s = set_seen (last_seen s) (set_window c w s)) as Heq by by destruct c.
    rewrite Heq, (concurrent_set h (last_seen s) (guard_of u c)). cbn [gd_user_id gd_class guard_of].
    destruct (decide (gd_user_id h = u)) as [<-|]; [|done]. subst w s.
    destruct (decide (gd_class h = c)) as [<-|]; [rewrite rolled_concurrent|]; apply concurrent_state.
  - intros u' s' Hs'. destruct (decide (u' = u)) as [->|Hne]; [|exists s'; by rewrite lookup_insert_ne].
    eexists. rewrite lookup_insert_eq. split; [done|]. rewrite last_seen_window. subst s. unfold state_of. by rewrite Hs'.
Qed.
Lemma concurrent_dropped t g states h :
  concurrent_of h (drop_guard t g states) = if decide (h = g) then Z.max 0 (concurrent_of h states - 1) else concurrent_of h states.
Proof.
  unfold drop_guard. destruct (states !! gd_user_id g) as [s|] eqn:Hs.
  - rewrite concurrent_set. cbn [concurrent].
    destruct (decide (gd_user_id h = gd_user_id g)) as [Hu|Hu]; [|by rewrite decide_False by (by intros ->)].
    assert (forall c, concurrent (window_mut c s) = concurrent_of {| gd_user_id := gd_user_id g; gd_class := c |} states) as Hc
      by (intros c; unfold concurrent_of; cbn; by rewrite Hs).
    destruct (decide (gd_class h = gd_class g)) as [Hcl|Hcl].
    + assert (h = g) as -> by by apply guard_eq. rewrite decide_True by done. rewrite Hc. by destruct g.
    + rewrite decide_False by (by intros ->). rewrite Hc. destruct h; cbn in *. by subst.
  - case_decide as Hh; [subst h|done]. unfold concurrent_of. by rewrite Hs.
Qed.
Lemma concurrent_roomy now u states kept h : roomy now u states kept ->
  concurrent_of h kept = concurrent_of h states \/ (concurrent_of h kept = 0%Z /\ kept !! gd_user_id h = None).
Proof.
  intros Hroom. unfold concurrent_of. destruct (kept !! gd_user_id h) as [s|] eqn:Hk; [left|by right].
  by rewrite (roomy_lookup _ _ _ _ _ _ Hroom Hk).
Qed.

Section open_requests.
Variable delay : Z.
Hypothesis delay_known : (0 <= delay)%Z.
Record open_inv (f : Floor) : Prop := {
  op_counter : forall g, (0 <= concurrent_of g (fl_states f) <= Z.of_nat (open_count g (fl_held f)))%Z;
  op_limit : forall g, (concurrent_of g (fl_states f) <= (class_limits (gd_class g)).2)%Z;
}.
Lemma step_open f f' : floor_step delay f f' -> open_inv f -> open_inv f'.
Proof.
  intros Hs [Hc Hl]. destruct Hs as [f t now u c g states _ _ Ha|f t now u c e states _ _ Ha|f t g en l l' _ Hheld].
  - apply concurrent_admitted in Ha as (kept & Hroom & -> & Hlt & _ & _ & Hn).
    assert (forall h, (0 <= concurrent_of h kept <= Z.of_nat (open_count h (fl_held f)))%Z /\
      (concurrent_of h kept <= (class_limits (gd_class h)).2)%Z) as Hk.
    { intros h. specialize (Hc h). specialize (Hl h). destruct (limits_positive (gd_class h)).
      destruct (concurrent_roomy _ _ _ _ h Hroom) as [->|[-> _]]; lia. }
    split; cbn [fl_states fl_held]; intros h; rewrite Hn; destruct (Hk h); rewrite ?open_count_cons.
    + repeat case_decide; subst; try congruence; lia.
    + case_decide as Hh; [subst h; cbn [gd_class guard_of] in *; lia|lia].
  - apply concurrent_refused in Ha as (kept & Hroom & Hn & _).
    split; cbn [fl_states fl_held]; intros h; rewrite Hn; specialize (Hc h); specialize (Hl h); destruct (limits_positive (gd_class h));
      destruct (concurrent_roomy _ _ _ _ h Hroom) as [->|[-> _]]; lia.
  - split; cbn [fl_states fl_held]; intros h; rewrite concurrent_dropped; specialize (Hc h); specialize (Hl h); destruct (limits_positive (gd_class h)).
    + rewrite Hheld, open_count_drop in Hc. repeat case_decide; subst; try congruence; lia.
    + case_decide; lia.
Qed.
Lemma start_open t : open_inv (floor_start t).
Proof. split; intros g; cbn; unfold concurrent_of; cbn; rewrite lookup_empty; cbn; [lia|]. destruct (limits_positive (gd_class g)). lia. Qed.

(** in brief runs no open request is forgotten *)
Record exact_inv (f : Floor) : Prop := {
  ex_counter : forall g, concurrent_of g (fl_states f) = Z.of_nat (open_count g (fl_held f));
  ex_seen : forall g en, (g, en) ∈ fl_held f -> exists s, fl_states f !! gd_user_id g = Some s /\ (en - delay <= last_seen s)%Z;
  ex_entered : forall g en, (g, en) ∈ fl_held f -> (en <= fl_clock f)%Z;
}.
Lemma open_count_zero g held : open_count g held = 0 -> forall en, (g, en) ∉ held.
Proof.
  unfold open_count. intros Hz%nil_length_inv en He. by apply (filter_nil_not_elem_of (fun p => p.1 = g) held (g, en)).
Qed.
Lemma none_held g held : (forall en, (g, en) ∉ held) -> open_count g held = 0.
Proof. unfold open_count. intros Hn. rewrite filter_none; [done|]. intros [h en] He [= ->]. by apply (Hn en). Qed.
Lemma brief_kept f t now u kept :
  exact_inv f -> brief delay f t -> (t - delay <= now <= t)%Z -> roomy now u (fl_states f) kept ->
  (forall g, concurrent_of g kept = Z.of_nat (open_count g (fl_held f))) /\
  (forall g en, (g, en) ∈ fl_held f -> exists s, kept !! gd_user_id g = Some s /\ (en - delay <= last_seen s)%Z).
Proof.
  intros [Hc Hs _] Hb Hnow Hroom.
  assert (forall g en, (g, en) ∈ fl_held f -> exists s, kept !! gd_user_id g = Some s /\ (en - delay <= last_seen s)%Z) as Hkeep.
  { intros g en He. destruct (Hs g en He) as (s & Hu & Hle). destruct (kept !! gd_user_id g) as [s'|] eqn:Hk.
    - exists s'. rewrite (roomy_lookup _ _ _ _ _ _ Hroom Hk) in Hu. by injection Hu as ->.
    - pose proof (roomy_lost _ _ _ _ _ _ Hroom Hk Hu) as Hl. specialize (Hb g en He). unfold duration_since in Hl.
      assert (0 < ADMISSION_IDLE_TTL)%Z by done. lia. }
  split; [|done]. intros g. destruct (concurrent_roomy _ _ _ _ g Hroom) as [->|[-> Hn]]; [done|].
  rewrite none_held; [done|]. intros en He. destruct (Hkeep g en He) as (s & Hk & _). congruence.
Qed.
Lemma step_exact f f' : brief_step delay f f' -> exact_inv f -> exact_inv f'.
Proof.
  intros [Hs Hb] Hi. pose proof Hi as [Hc Hse He].
  destruct Hs as [f t now u c g states Hclock Hnow Ha|f t now u c e states Hclock Hnow Ha|f t g en l l' Hclock Hheld]; cbn [fl_clock] in *.
  - apply concurrent_admitted in Ha as (kept & Hroom & -> & _ & Hnew & Hold & Hn).
    destruct (brief_kept _ _ _ _ _ Hi Hb Hnow Hroom) as [Hkc Hks]. split; cbn [fl_states fl_held fl_clock].
    + intros h. rewrite Hn, Hkc, open_count_cons. repeat case_decide; subst; congruence || lia.
    + destruct Hnew as (s & Hu & Hl). intros h en' Hh. destruct (decide (gd_user_id h = u)) as [Hhu|Hhu].
      * rewrite Hhu. exists s. split; [done|]. apply elem_of_cons in Hh as [[= -> ->]|Hh]; [lia|]. specialize (He _ _ Hh). lia.
      * apply elem_of_cons in Hh as [[= -> ->]|Hh]; [by destruct Hhu|]. rewrite Hold by done. by apply Hks.
    + intros h en' [[= -> ->]|Hh]%elem_of_cons; [done|]. specialize (He _ _ Hh). lia.
  - apply concurrent_refused in Ha as (kept & Hroom & Hn & Hold).
    destruct (brief_kept _ _ _ _ _ Hi Hb Hnow Hroom) as [Hkc Hks]. split; cbn [fl_states fl_held fl_clock].
    + intros h. by rewrite Hn, Hkc.
    + intros h en' Hh. destruct (Hks _ _ Hh) as (s & Hk & Hl). destruct (Hold _ _ Hk) as (s' & Hs' & Heq). exists s'. by rewrite Heq.
    + intros h en' Hh. specialize (He _ _ Hh). lia.
  - assert (forall h en', (h, en') ∈ l ++ l' -> (h, en') ∈ fl_held f) as Hsub by (intros h en'; rewrite Hheld; set_solver).
    split; cbn [fl_states fl_held fl_clock].
    + intros h. rewrite concurrent_dropped, Hc, Hheld, open_count_drop. repeat case_decide; subst; congruence || lia.
    + intros h en' Hh%Hsub. destruct (Hse _ _ Hh) as (s & Hu & Hl). specialize (He _ _ Hh). unfold drop_guard.
      destruct (fl_states f !! gd_user_id g) as [s'|] eqn:Hg; [|by exists s].
      destruct (decide (gd_user_id h = gd_user_id g)) as [Heq|Hne]; [|exists s; by rewrite lookup_insert_ne by done].
      eexists. rewrite Heq, lookup_insert_eq. split; [done|]. cbn. lia.
    + intros h en' Hh%Hsub. specialize (He _ _ Hh). lia.
Qed.
Lemma start_exact t : exact_inv (floor_start t).
Proof. split; cbn; [intros g; unfold concurrent_of; by rewrite lookup_empty|by intros g en He%elem_of_nil..]. Qed.
End open_requests.

(** * Properties *)

(** C24: No user gets more requests through than twice the limit of a minute.  Whatever requests come, in whatever
    order they take the mutex and however long they waited for it (at most two minutes), and whichever idle users
    are forgotten to make room for others: of one class, a user is admitted at most twice as often as a window
    permits within any minute, less the waiting. *)
Theorem admission_rate_is_bounded delay t0 f g a :
  (0 <= delay <= seconds 120)%Z -> rtc (floor_step delay) (floor_start t0) f ->
  (Z.of_nat (length (filter (fun e => en_guard e = g /\ (a <= en_at e < a + ADMISSION_WINDOW - delay)%Z) (fl_log f)))
   <= 2 * (class_limits (gd_class g)).1)%Z.
Proof.
  intros Hd Hrun. assert (rate_inv delay f) as Hi.
  { assert (forall f0, rate_inv delay f0 -> rtc (floor_step delay) f0 f -> rate_inv delay f) as Hkeep; [|by eapply Hkeep, Hrun; apply start_rate].
    intros f0 H0 Hr. induction Hr as [|f0 f1 f2 Hs _ IH]; [done|]. by eapply IH, step_rate. }
  clear Hrun t0. set (l := filter _ _).
  assert (forall e, e ∈ l -> e ∈ fl_log f /\ en_guard e = g /\ (a <= en_at e < a + ADMISSION_WINDOW - delay)%Z) as Hl
    by (intros e He; apply list_elem_of_filter in He as [[? ?] ?]; done).
  destruct (two_windows l (a - ADMISSION_WINDOW - delay)) as (m1 & m2 & Hm).
  - intros e (He & _ & Ha)%Hl. destruct (rt_time _ _ Hi e He). lia.
  - intros e e' (He & Hg & _)%Hl (He' & Hg' & _)%Hl. apply (rt_apart _ _ Hi); congruence.
  - pose proof (length_filter_or (fun e => en_window e = m1) (fun e => en_window e = m2) l Hm) as Hlen.
    assert (forall m, (Z.of_nat (length (filter (fun e => en_window e = m) l)) <= (class_limits (gd_class g)).1)%Z) as Hc.
    { intros m. pose proof (rt_count _ _ Hi (gd_user_id g) (gd_class g) m) as Hc.
      assert (length (filter (fun e => en_window e = m) l) <= window_count g m (fl_log f)) as Hle.
      { unfold window_count, l. rewrite list_filter_filter. apply length_filter_mono. intros e _ (? & ? & _). by split. }
      destruct g as [u c]. cbn in *. unfold guard_of in Hc. lia. }
    pose proof (Hc m1). pose proof (Hc m2). lia.
Qed.

(** Open requests are counted, and the count is given back.  In every run the counter of a user and class is at
    most the number of the guards it holds and at most the limit, so that a user whose requests have ended is
    never locked out.  As long as no request stays open for as long as an idle user is remembered, the counter is
    exact and a user has at most the permitted number of requests open. *)
Theorem open_requests_are_bounded delay t0 f g : (0 <= delay)%Z -> rtc (floor_step delay) (floor_start t0) f ->
  (0 <= concurrent_of g (fl_states f) <= Z.min (Z.of_nat (open_count g (fl_held f))) (class_limits (gd_class g)).2)%Z /\
  (rtc (brief_step delay) (floor_start t0) f ->
   concurrent_of g (fl_states f) = Z.of_nat (open_count g (fl_held f)) /\
   (Z.of_nat (open_count g (fl_held f)) <= (class_limits (gd_class g)).2)%Z).
Proof.
  intros Hd Hrun. assert (open_inv f) as [Hc Hl].
  { assert (forall f0, open_inv f0 -> rtc (floor_step delay) f0 f -> open_inv f) as Hkeep; [|by eapply Hkeep, Hrun; apply start_open].
    intros f0 H0 Hr. induction Hr as [|f0 f1 f2 Hs _ IH]; [done|]. by eapply IH, step_open. }
  specialize (Hc g). specialize (Hl g). split; [lia|]. intros Hbrief. assert (exact_inv delay f) as Hi.
  { assert (forall f0, exact_inv delay f0 -> rtc (brief_step delay) f0 f -> exact_inv delay f) as Hkeep; [|by eapply Hkeep, Hbrief; apply start_exact].
    intros f0 H0 Hr. induction Hr as [|f0 f1 f2 Hs _ IH]; [done|]. by eapply IH, step_exact. }
  rewrite <- (ex_counter _ _ Hi g). done.
Qed.

(** ** A request is admitted, another class is too, and the first one ends *)
Module AdmissionDemo.
Definition browse : AdmissionGuard := {| gd_user_id := 1; gd_class := Interactive |}.
Definition poster : AdmissionGuard := {| gd_user_id := 1; gd_class := ArtworkClass |}.
Definition one : AdmissionMap := (admit_request (seconds 5) 1 ∅).2.
Definition two : AdmissionMap := (admit_artwork (seconds 6) 1 one).2.
Definition entered_at (g : AdmissionGuard) (t w : instant) : Entry := {| en_guard := g; en_at := t; en_window := w |}.
Definition after_one : Floor := {| fl_states := one; fl_clock := seconds 6; fl_held := [(browse, seconds 6)];
  fl_log := [entered_at browse (seconds 6) (entry_window browse one)] |}.
Definition after_two : Floor := {| fl_states := two; fl_clock := seconds 7; fl_held := [(poster, seconds 7); (browse, seconds 6)];
  fl_log := entered_at poster (seconds 7) (entry_window poster two) :: fl_log after_one |}.
End AdmissionDemo.
Import AdmissionDemo.
Lemma first_admitted : admit_class (seconds 5) 1 Interactive ∅ = (Ok browse, one).
Proof. vm_compute. reflexivity. Qed.
Lemma second_admitted : admit_class (seconds 6) 1 ArtworkClass one = (Ok poster, two).
Proof. vm_compute. reflexivity. Qed.
Lemma demo_run : rtc (brief_step (seconds 1)) (floor_start 0) after_two.
Proof.
  eapply rtc_l; [|apply rtc_once]; split.
  - refine (step_admit (seconds 1) (floor_start 0) (seconds 6) (seconds 5) 1 Interactive browse one _ _ first_admitted); cbn; unfold seconds, nanos_per_second; lia.
  - by intros g en Hg%elem_of_nil.
  - refine (step_admit (seconds 1) after_one (seconds 7) (seconds 6) 1 ArtworkClass poster two _ _ second_admitted); cbn; unfold seconds, nanos_per_second; lia.
  - intros g en [[= -> ->]|Hg%elem_of_nil]%elem_of_cons; [vm_compute; reflexivity|done].
Qed.
Lemma brief_is_run delay f f' : rtc (brief_step delay) f f' -> rtc (floor_step delay) f f'.
Proof. apply rtc_subrel. by intros x y [? _]. Qed.
Lemma admission_rate_is_bounded_witness :
  (Z.of_nat (length (filter (fun e => en_guard e = browse /\ (seconds 6 <= en_at e < seconds 6 + ADMISSION_WINDOW - seconds 1)%Z)
     (fl_log after_two))) <= 240)%Z.
Proof.
  apply (admission_rate_is_bounded (seconds 1) 0 after_two browse (seconds 6)).
  - split; vm_compute; discriminate.
  - apply brief_is_run, demo_run.
Defined.
Lemma open_requests_are_bounded_witness :
  concurrent_of browse (fl_states after_two) = 1%Z /\ open_count browse (fl_held after_two) = 1.
Proof.
  destruct (open_requests_are_bounded (seconds 1) 0 after_two browse ltac:(vm_compute; discriminate) (brief_is_run _ _ _ demo_run)) as [_ He].
  destruct (He demo_run) as [Hc _]. assert (open_count browse (fl_held after_two) = 1) as Ho by (vm_compute; reflexivity).
  rewrite Hc, Ho. split; reflexivity.
Defined.
