(* ===== verification/RequestLocks.v ===== *)
(** * One request at a time (src/src/http/handlers/live/sessions.rs)

    Creations under one idempotency key and recoveries of one session run one after the other: each key has a mutex,
    which the registry refers to weakly, so that it is gone with the last request that waits for it or holds it.
    The registry is behind a mutex of its own; the strong count of a lock is the number of requests that use it. *)
From S2P Require Import Prelude LiveContract HttpAccess.

Definition MAX_CREATE_LOCKS : nat := Z.to_nat 10000.
Definition too_many_creates : LiveHttpRejection :=
  Rejection.new 429 "LIVE_RATE_LIMITED" "Too many Live session creates are in progress." true.
Definition too_many_recoveries : LiveHttpRejection :=
  Rejection.new 429 "LIVE_RATE_LIMITED" "Too many Live recovery operations are in progress." true.
Notation LockId := nat.
Notation Registry := (gmap string LockId).

(** the part under the registry's mutex: the lock of the key, or the new one *)
Definition acquire_lock (too_many : LiveHttpRejection) (alive : LockId -> bool) (new : LockId) (key : string) (registry : Registry)
    : result LiveHttpRejection LockId * Registry :=
  match registry !! key ≫= (fun l => if alive l then Some l else None) with
  | Some lock => (Ok lock, registry)
  | None =>
      let full := MAX_CREATE_LOCKS <=? size registry in
      let registry := if full then filter (fun kv => alive kv.2 = true) registry else registry in
      if full && (MAX_CREATE_LOCKS <=? size registry) then (Err too_many, registry)
      else (Ok new, <[key := new]> registry)
  end.
Definition acquire_create_lock := acquire_lock too_many_creates.
Definition acquire_recovery_lock := acquire_lock too_many_recoveries.

(** ** The requests that use locks *)
Record LockUse := { lu_key : string; lu_lock : LockId; lu_holds : bool }.
Record LockWorld := { lw_registry : Registry; lw_uses : gmap nat LockUse }.
Definition alive_in (uses : gmap nat LockUse) (l : LockId) : bool :=
  existsb (fun kv => lu_lock kv.2 =? l) (map_to_list uses).
Definition lock_start : LockWorld := {| lw_registry := ∅; lw_uses := ∅ |}.

Section steps.
Variable too_many : LiveHttpRejection.
(** a request finds its lock, is refused, gets the lock nobody holds, or is done (or cancelled) and lets go *)
Inductive lock_step : LockWorld -> LockWorld -> Prop :=
| lock_enter w request key new lock registry :
    lw_uses w !! request = None -> (forall k, lw_registry w !! k <> Some new) -> alive_in (lw_uses w) new = false ->
    acquire_lock too_many (alive_in (lw_uses w)) new key (lw_registry w) = (Ok lock, registry) ->
    lock_step w {| lw_registry := registry;
                   lw_uses := <[request := {| lu_key := key; lu_lock := lock; lu_holds := false |}]> (lw_uses w) |}
| lock_refuse w key new e registry :
    acquire_lock too_many (alive_in (lw_uses w)) new key (lw_registry w) = (Err e, registry) ->
    lock_step w {| lw_registry := registry; lw_uses := lw_uses w |}
| lock_grant w request u :
    lw_uses w !! request = Some u -> lu_holds u = false ->
    (forall other v, lw_uses w !! other = Some v -> lu_lock v = lu_lock u -> lu_holds v = false) ->
    lock_step w {| lw_registry := lw_registry w;
                   lw_uses := <[request := {| lu_key := lu_key u; lu_lock := lu_lock u; lu_holds := true |}]> (lw_uses w) |}
| lock_leave w request u :
    lw_uses w !! request = Some u -> lock_step w {| lw_registry := lw_registry w; lw_uses := delete request (lw_uses w) |}.

Lemma alive_in_spec uses l : alive_in uses l = true <-> exists r u, uses !! r = Some u /\ lu_lock u = l.
Proof.
  unfold alive_in. rewrite existsb_exists. split.
  - intros ([r u] & Hin & He%Nat.eqb_eq). apply list_elem_of_In, elem_of_map_to_list in Hin. by exists r, u.
  - intros (r & u & Hu & He). exists (r, u). split; [|by apply Nat.eqb_eq]. by apply list_elem_of_In, elem_of_map_to_list.
Qed.
Record lock_inv (w : LockWorld) : Prop := {
  li_registered : forall r u, lw_uses w !! r = Some u -> lw_registry w !! lu_key u = Some (lu_lock u);
  li_distinct : forall k k' l, lw_registry w !! k = Some l -> lw_registry w !! k' = Some l -> k = k';
  li_single : forall r u r' u', lw_uses w !! r = Some u -> lw_uses w !! r' = Some u' -> lu_lock u = lu_lock u' ->
    lu_holds u = true -> lu_holds u' = true -> r = r';
}.
(** forgetting dead locks changes nothing for the requests *)
Lemma pruned_inv w : lock_inv w ->
  lock_inv {| lw_registry := filter (fun kv => alive_in (lw_uses w) kv.2 = true) (lw_registry w); lw_uses := lw_uses w |}.
Proof.
  intros [Hr Hd Hs]. split; cbn; [|intros k k' l Hk Hk'|done].
  - intros r u Hu. apply map_lookup_filter_Some. split; [by eapply Hr|]. cbn. apply alive_in_spec. eauto.
  - apply map_lookup_filter_Some in Hk as [Hk _], Hk' as [Hk' _]. by eapply Hd.
Qed.
Lemma acquire_lock_spec w new key r registry :
  acquire_lock too_many (alive_in (lw_uses w)) new key (lw_registry w) = (r, registry) ->
  (exists lock, r = Ok lock /\ registry = lw_registry w /\ lw_registry w !! key = Some lock /\ alive_in (lw_uses w) lock = true) \/
  ((forall lock, lw_registry w !! key = Some lock -> alive_in (lw_uses w) lock = false) /\
   exists kept, (kept = lw_registry w \/ kept = filter (fun kv => alive_in (lw_uses w) kv.2 = true) (lw_registry w)) /\
     ((r = Ok new /\ registry = <[key := new]> kept) \/
      (r = Err too_many /\ registry = kept /\ kept = filter (fun kv => alive_in (lw_uses w) kv.2 = true) (lw_registry w) /\
       MAX_CREATE_LOCKS <= size kept))).
Proof.
  unfold acquire_lock. destruct (lw_registry w !! key ≫= _) as [lock|] eqn:Hl.
  - intros [= <- <-]. left. apply bind_Some in Hl as (l & Hl & Ha). destruct (alive_in _ l) eqn:Hal; [|done]. injection Ha as ->. eauto.
  - intros Ha. right. split.
    { intros lock Hk. rewrite Hk in Hl. cbn in Hl. by destruct (alive_in _ lock). }
    destruct (_ <=? size (lw_registry w)) eqn:Hf; cbn [andb] in Ha.
    + eexists. split; [by right|]. destruct (_ <=? size (filter _ _)) eqn:Hf2; injection Ha as <- <-; [right|by left].
      apply Nat.leb_le in Hf2. done.
    + injection Ha as <- <-. eexists. split; [by left|]. by left.
Qed.
Lemma kept_inv w kept : lock_inv w ->
  (kept = lw_registry w \/ kept = filter (fun kv => alive_in (lw_uses w) kv.2 = true) (lw_registry w)) ->
  lock_inv {| lw_registry := kept; lw_uses := lw_uses w |}.
Proof. intros Hi [->| ->]; [by destruct Hi|by apply pruned_inv]. Qed.
Lemma lock_step_inv w w' : lock_step w w' -> lock_inv w -> lock_inv w'.
Proof.
  intros Hs Hi. destruct Hs as [w request key new lock registry Hfree Hfresh Hdead Ha|w key new e registry Ha|w request u Hu Hh Hno|w request u Hu].
  - apply acquire_lock_spec in Ha as [(l & [= ->] & -> & Hk & _)|(Hold & kept & Hkept & [[[= ->] ->]|([=] & _)])].
    + destruct Hi as [Hr Hd Hs]. split; cbn; [|done|].
      * intros r u [[<- <-]|[_ Hu]]%lookup_insert_Some; [done|by eapply Hr].
      * intros r u r' u' [[<- <-]|[_ Hu]]%lookup_insert_Some [[<- <-]|[_ Hu']]%lookup_insert_Some; cbn; try done. by apply Hs.
    + destruct (kept_inv _ _ Hi Hkept) as [Hr Hd Hs]; cbn in *.
      assert (forall k, kept !! k <> Some new) as Hnew.
      { intros k Hk. destruct Hkept as [->| ->]; [by apply (Hfresh k)|]. apply map_lookup_filter_Some in Hk as [Hk _]. by apply (Hfresh k). }
      assert (forall r u, lw_uses w !! r = Some u -> lu_key u <> key) as Hother.
      { intros r u Hu Heq. pose proof (li_registered _ Hi r u Hu) as Hreg. rewrite Heq in Hreg. apply Hold in Hreg.
        assert (alive_in (lw_uses w) (lu_lock u) = true) as Hal by (apply alive_in_spec; eauto). congruence. }
      split; cbn.
      * intros r u [[<- <-]|[_ Hu]]%lookup_insert_Some; cbn; [by rewrite lookup_insert_eq|].
        rewrite lookup_insert_ne by (intros Heq; by apply (Hother r u Hu)). by apply (Hr r).
      * intros k k' l [[<- <-]|[_ Hk]]%lookup_insert_Some [[<- Heq]|[_ Hk']]%lookup_insert_Some; try done; [by apply Hnew in Hk'|subst; by apply Hnew in Hk|by eapply Hd].
      * intros r u r' u' [[<- <-]|[_ Hu]]%lookup_insert_Some [[<- <-]|[_ Hu']]%lookup_insert_Some; cbn; try done. by apply Hs.
  - apply acquire_lock_spec in Ha as [(l & [=] & _)|(_ & kept & Hkept & [[[=] _]|(_ & -> & _)])]. by apply kept_inv.
  - destruct Hi as [Hr Hd Hs]. split; cbn; [|done|].
    + intros r v [[<- <-]|[_ Hv]]%lookup_insert_Some; cbn; [by eapply Hr|by eapply Hr].
    + intros r v r' v' [[<- <-]|[_ Hv]]%lookup_insert_Some [[<- <-]|[_ Hv']]%lookup_insert_Some; cbn; try done.
      * intros Heq _ Hh'. rewrite (Hno _ _ Hv') in Hh'; [done|by rewrite Heq].
      * intros Heq Hh' _. rewrite (Hno _ _ Hv) in Hh'; done.
      * by apply Hs.
  - destruct Hi as [Hr Hd Hs]. split; cbn; [|done|].
    + intros r v [_ Hv]%lookup_delete_Some. by eapply Hr.
    + intros r v r' v' [_ Hv]%lookup_delete_Some [_ Hv']%lookup_delete_Some. by apply Hs.
Qed.
Lemma lock_start_inv : lock_inv lock_start.
Proof. split; cbn; intros *; rewrite lookup_empty; done. Qed.
End steps.

(** * Properties *)

(** Requests for the same key run one at a time, and only those wait for each other.  However requests enter,
    wait, are cancelled and leave, and whenever the registry forgets the locks of finished requests: two requests
    that hold the lock of one key are the same; requests for different keys use different locks; a request that waits
    can go on as soon as no request for its key holds the lock; and a request is refused only when the locks of
    [MAX_CREATE_LOCKS] other keys are in use. *)
Theorem same_key_runs_alone too_many w : rtc (lock_step too_many) lock_start w ->
  (forall r u r' u', lw_uses w !! r = Some u -> lw_uses w !! r' = Some u' ->
     (lu_key u = lu_key u' -> lu_holds u = true -> lu_holds u' = true -> r = r') /\
     (lu_key u <> lu_key u' -> lu_lock u <> lu_lock u')) /\
  (forall r u, lw_uses w !! r = Some u -> lu_holds u = false ->
     (forall r' u', lw_uses w !! r' = Some u' -> lu_key u' = lu_key u -> lu_holds u' = false) ->
     exists w', lock_step too_many w w' /\ (lu_holds <$> lw_uses w' !! r) = Some true) /\
  (forall key new e registry, acquire_lock too_many (alive_in (lw_uses w)) new key (lw_registry w) = (Err e, registry) ->
     e = too_many /\ exists busy : gset string, MAX_CREATE_LOCKS <= size busy /\ (key ∉ busy) /\
       forall k, k ∈ busy -> exists r u, lw_uses w !! r = Some u /\ lu_key u = k).
Proof.
  intros Hrun. assert (lock_inv w) as Hi.
  { assert (forall w0, lock_inv w0 -> rtc (lock_step too_many) w0 w -> lock_inv w) as Hkeep; [|by eapply Hkeep, Hrun; apply lock_start_inv].
    intros w0 H0 Hr. induction Hr as [|w0 w1 w2 Hs _ IH]; [done|]. by eapply IH, lock_step_inv. }
  pose proof Hi as [Hr Hd Hs]. split; [|split].
  - intros r u r' u' Hu Hu'. pose proof (Hr _ _ Hu). pose proof (Hr _ _ Hu'). split; [|congruence || (intros Hne Heq; apply Hne; eapply Hd; [done|by rewrite Heq])].
    intros Heq Hh Hh'. eapply Hs; [done..| |done|done]. congruence.
  - intros r u Hu Hh Hno. eexists. split; [eapply lock_grant; [done|done|]|cbn; by rewrite lookup_insert_eq].
    intros r' u' Hu' Hl. eapply Hno; [done|]. eapply Hd; [by eapply Hr|]. rewrite Hl. by eapply Hr.
  - intros key new e registry Ha. apply acquire_lock_spec in Ha as [(l & [=] & _)|(Hold & kept & _ & [[[=] _]|([= ->] & -> & -> & Hsize)])].
    split; [done|]. exists (dom (filter (fun kv => alive_in (lw_uses w) kv.2 = true) (lw_registry w))).
    split; [by rewrite size_dom|split].
    + rewrite elem_of_dom. intros [l [Hl Hal]%map_lookup_filter_Some]. cbn in Hal. rewrite (Hold l Hl) in Hal. done.
    + intros k [l [Hl Hal]%map_lookup_filter_Some]%elem_of_dom. cbn in Hal. apply alive_in_spec in Hal as (r & u & Hu & <-).
      exists r, u. split; [done|]. eapply Hd; [by eapply Hr|done].
Qed.

(** ** Two creations under one key: the second waits for the first *)
Module LockDemo.
Definition waiting : LockUse := {| lu_key := "k"; lu_lock := 7; lu_holds := false |}.
Definition entered : LockWorld := {| lw_registry := <["k" := 7]> ∅; lw_uses := <[1 := waiting]> ∅ |}.
Definition holding : LockWorld :=
  {| lw_registry := <["k" := 7]> ∅; lw_uses := <[1 := {| lu_key := "k"; lu_lock := 7; lu_holds := true |}]> (<[1 := waiting]> ∅) |}.
Definition both : LockWorld := {| lw_registry := <["k" := 7]> ∅; lw_uses := <[2 := waiting]> (lw_uses holding) |}.
End LockDemo.
Import LockDemo.
Lemma lock_demo_run : rtc (lock_step too_many_creates) lock_start both.
Proof.
  eapply rtc_l; [|eapply rtc_l; [|apply rtc_once]].
  - apply (lock_enter _ lock_start 1 "k" 7 7 (<["k" := 7]> ∅)); [done|done|done|vm_compute; reflexivity].
  - apply (lock_grant _ entered 1 waiting); [done|done|]. intros r v Hv _. cbn in Hv. apply lookup_insert_Some in Hv as [[<- <-]|[_ Hv]]; done.
  - apply (lock_enter _ holding 2 "k" 8 7 (<["k" := 7]> ∅)); [done| |done|vm_compute; reflexivity].
    intros k Hk. cbn in Hk. apply lookup_insert_Some in Hk as [[_ Hk]|[_ Hk]]; done.
Qed.
Lemma same_key_runs_alone_witness : ~ exists u, lw_uses both !! 2 = Some u /\ lu_holds u = true.
Proof.
  intros (u & Hu & Hh). destruct (same_key_runs_alone too_many_creates both lock_demo_run) as (Ha & _).
  assert (lu_key u = "k") as Hk.
  { cbn in Hu. repeat (apply lookup_insert_Some in Hu as [[_ <-]|[_ Hu]]; [reflexivity|]). done. }
  pose proof (proj1 (Ha 2 u 1 {| lu_key := "k"; lu_lock := 7; lu_holds := true |} Hu eq_refl) Hk Hh eq_refl) as H21.
  discriminate H21.
Defined.
