(* ===== verification/PlaybackHandlers.v ===== *)
(** * The handlers of playback (src/src/http/handlers/live/sessions.rs)

    Creation, reading, heartbeat, recovery and end of a playback, each as the sequence of its checks, calls and
    database accesses.  What a handler learns from outside the repository and the egress service (the clock, the
    keys, the fence of the lease, the provider, the grants, the rules) are functions of the number of the access:
    [sense] reads one and counts it, so that no two readings need agree.  Metrics and log lines are left out. *)
From S2P Require Import Prelude Bytes LiveContract ProviderCalls EgressPolicy SessionTypes Planner Recovery Descriptor Crypto Vault.
From S2P Require Import SessionStore SessionRepo CatalogCache CatalogGrants AdminAudit PublicKeys AuthSessions CookieJar UpstreamCredentials UpstreamFetcher.
From S2P Require Import EgressAssignments EgressBindings HttpAccess PlaybackRequest PlaybackRecovery Process PlaybackRuntime.

(** ** What a handler reads *)
(** the fields of a provider's snapshot *)
Record ProviderView := {
  pw_provider_id : uuid;
  pw_revision : string;               (* [format!("{:?}", revision)] *)
  pw_permits_refresh : bool;
  pw_private_network : bool;
}.
Record HandlerEnv := {
  he_settings : ServerSettings;
  he_auth : AuthService;
  he_admit : nat -> uuid -> result LiveHttpRejection unit;               (* the admission of the user *)
  he_lock : nat -> string -> result LiveHttpRejection unit;              (* the lock of a creation or recovery *)
  he_clock : nat -> instant;
  he_crypto : nat -> option LiveCrypto;
  he_nonce : nat -> option string;
  he_fence : nat -> option Z;                                            (* [control_fencing_token] *)
  he_uuid : nat -> uuid;
  he_provider : nat -> uuid -> result LiveHttpRejection ProviderView;    (* [control_unavailable] or [provider_unavailable] *)
  he_grants : nat -> GrantTables;
  he_rules : nat -> uuid -> uuid -> option (list DestinationRuleRow);    (* the rows of home and provider *)
  he_ready : nat -> LiveComponent -> bool;
  he_relay_capacity : nat -> option Z;
  he_remux_capacity : nat -> option Z;
  he_egress_refreshed : nat -> bool;
  he_egress_config : option LiveEgressConfig;
  he_egress_tables : nat -> EgressTables;
  he_resolve : nat -> uuid -> string -> string -> result ProviderInvocationError ResolvedSources;   (* item, stream *)
  he_upstream : nat -> nat -> Env;
  he_resolver : nat -> nat -> bool;
  he_refresh : nat -> nat -> ProviderRefreshRequest -> result ProviderInvocationError ResolvedSources;
  he_recovery : RecoveryPolicy;
  he_refresh_lead_seconds : Z;
  he_lease_seconds : Z;
  he_limits : LiveSessionLimits;
}.
(** the JSON that identifies a request: the body, the principal and the revision of the provider *)
Class IdentityText := { identity_to_json : SessionCreateRequest -> CurrentPrincipal -> string -> option string }.

(** ** Responses.  Instants stand for their text, the mode of the delivery and of the egress for their names. *)
Record SelectedSource := { ch_source_key : string; ch_label : string; ch_quality : option string }.
Record TrackPreferences := { tp_audio : option LiveTrackSelection; tp_subtitle : option LiveTrackSelection }.
Record SessionResponse := {
  sr_session_id : uuid;
  sr_revision : Z;
  sr_token_revision : option Z;
  sr_delivery_mode : DeliveryMode;
  sr_decision_reason : string;
  sr_egress_mode : LiveEgressOutcome;
  sr_fallback_reason : option string;
  sr_playback_url : string;
  sr_session_token : option string;
  sr_expires_at : instant;
  sr_hard_expires_at : instant;
  sr_heartbeat_interval_seconds : Z;
  sr_seekable : bool;
  sr_window_seconds : option Z;
  sr_selected_source : SelectedSource;
  sr_available_sources : list SelectedSource;
  sr_track_preferences : TrackPreferences;
}.
Record Timeline := { tl_at : instant; tl_revision : Z; tl_state : string; tl_reason : option string }.
Record SessionDetail := {
  sd_session_id : uuid;
  sd_revision : Z;
  sd_state : SessionState;
  sd_delivery_mode : DeliveryMode;
  sd_protocol : SessionProtocol;
  sd_selected_source : SelectedSource;
  sd_available_sources : list SelectedSource;
  sd_track_preferences : TrackPreferences;
  sd_expires_at : instant;
  sd_hard_expires_at : instant;
  sd_error_code : option string;
  sd_timeline : list Timeline;
  sd_request_id : uuid;
  sd_generated_at : instant;
}.
Definition provider_not_shared : LiveHttpRejection :=
  Rejection.new 403 "LIVE_PROVIDER_FORBIDDEN" "The provider is not shared for Live playback." false.
Definition owner_of (p : CurrentPrincipal) (provider_id : uuid) : SessionOwner :=
  let s := cp_session p in
  {| user_id := sp_user_id s; home_id := sp_home_id s; profile_id := sp_profile_id s;
     account_session_id := sp_account_session_id s; provider_id := provider_id |}.

Section handlers.
Context {R : Type} `{Vault R} `{Texts} `{DescriptorText} `{E : EgressService}.
Context `{CryptoPrims} `{UuidText} `{PayloadText} `{TimeText} `{PortText} `{IdentityText} `{UrlOps} `{DateOps} `{HeaderOps}.
Variable ring : R.
Variable draws : nat -> SessionRepo.Draws.
Variable meanwhile : nat -> EgressWorld -> EgressWorld.
Variable services : DeliveryServices.
Variable env : HandlerEnv.
Notation call := (call meanwhile).
Notation query := (query meanwhile).
Notation decrypt_descriptor := (decrypt_descriptor ring meanwhile).

Definition sense {A} (f : nat -> A) : play A := fun w => (Ok (f (ew_tick w)), accessed (ew_tick w) (ew_store w) w).
Definition required {A} (f : nat -> option A) (e : LiveHttpRejection) : play A := o ← sense f; lift (ok_or o e).
Definition admitted_request (p : CurrentPrincipal) : play unit :=
  r ← sense (fun n => he_admit env n (sp_user_id (cp_session p))); lift r.
Definition with_repository : play unit :=
  there ← sense (ds_repository services); lift (reject_if (negb there) control_unavailable).

Definition owned_session (p : CurrentPrincipal) (session_id : uuid) : play SessionRecord :=
  let s := cp_session p in
  found ← query (get_for_account (sp_user_id s) (sp_home_id s) (sp_profile_id s) (sp_account_session_id s) session_id);
  lift (ok_or found session_not_found).
Definition require_play_grant (p : CurrentPrincipal) (provider : uuid) : play unit :=
  let s := cp_session p in
  decision ← sense (fun n => visibility (sp_home_id s) (sp_profile_id s) (sp_role s) (sp_profile_type s) provider Play (he_grants env n));
  decision ← lift (map_err (fun _ => provider_unavailable) decision);
  _ ← lift (reject_if (negb (vd_authorization_revision decision =? sp_capability_revision s)%Z) session_conflict);
  lift (reject_if (negb (vd_allowed decision)) provider_not_shared).
Definition current_provider (provider : uuid) : play ProviderView :=
  r ← sense (fun n => he_provider env n provider); lift r.
Definition require_current_provider (s : SessionRecord) (stored : StoredSessionDescriptor) : play unit :=
  provider ← current_provider (provider_id (owner s));
  lift (reject_if (negb (String.eqb (pw_revision provider) (sd_provider_revision stored))) session_conflict).
Definition playback_actor (p : CurrentPrincipal) : result LiveHttpRejection ActorSnapshot :=
  let s := cp_session p in
  map_err (fun _ => internal_error) (ActorSnapshot_new (sp_user_id s) (sp_profile_display_name s) (sp_role s)).

(** *** The answer to the client *)
Definition seal_source_key (s : SessionRecord) (stored : StoredSessionDescriptor) (source : StoredSource) (now : instant) : play string :=
  crypto ← required (he_crypto env) control_unavailable;
  nonce ← sense (he_nonce env);
  let key_expiry := Z.min (now + seconds SOURCE_KEY_MAX_SECONDS) (hard_expires_at s) in
  lift (map_err (fun _ => internal_error)
    (seal_source crypto nonce (id s) (provider_id (owner s)) (sd_provider_revision stored) (ss_stream_id source) (revision s) key_expiry)).
Fixpoint choices (s : SessionRecord) (stored : StoredSessionDescriptor) (now : instant) (sources : list StoredSource)
    : play (list SelectedSource) :=
  match sources with
  | [] => mret []
  | source :: rest =>
      key ← seal_source_key s stored source now;
      others ← choices s stored now rest;
      mret ({| ch_source_key := key; ch_label := ss_label source; ch_quality := ss_quality source |} :: others)
  end.
Definition source_choices (s : SessionRecord) (stored : StoredSessionDescriptor) (now : instant) : play (list SelectedSource) :=
  _ ← lift (reject_if (bool_decide (sd_sources stored = []) || (8 <? length (sd_sources stored))) contract_invalid);
  choices s stored now (sd_sources stored).
Definition track_preferences (s : SessionRecord) : play TrackPreferences :=
  found ← query (SessionRepo.track_preferences (user_id (owner s)) (provider_id (owner s)));
  mret {| tp_audio := found ≫= pref_audio; tp_subtitle := found ≫= pref_subtitle |}.
Definition delivery_url (s : SessionRecord) (stored : StoredSessionDescriptor) : result LiveHttpRejection string :=
  let base := "/api/v1/live/sessions/" +:+ uuid_to_string (id s) +:+ "/delivery/" in
  match delivery_mode s with
  | ClientDirect => ok_or (sd_playback_url stored) delivery_runtime_unavailable_error
  | ServerRelay =>
      match session_protocol s with
      | PHls => Ok (base +:+ "hls/manifest.m3u8")
      | PHttpProgressive | PMpegTs => Ok (base +:+ "stream")
      | _ => Err delivery_runtime_unavailable_error
      end
  | ServerRemux => Ok (base +:+ "hls/manifest.m3u8")
  end.
Definition reported_egress (s : SessionRecord) (policy : EffectiveEgressPolicy) (private : bool) : play LiveEgressOutcome :=
  if protected_egress_applies policy private
  then _ ← lift (reject_if (negb (ds_egress services)) egress_unavailable);
       outcome ← view (egress_outcome s policy);
       lift (map_err (fun _ => egress_unavailable) outcome)
  else mret OutServerDefault.
Definition session_response (s : SessionRecord) (token : option string) (now : instant) : play SessionResponse :=
  stored ← decrypt_descriptor s;
  selected ← lift (ok_or (Descriptor.selected stored) contract_invalid);
  available ← source_choices s stored now;
  selected_source ← lift (ok_or (available !! sd_selected_source_index stored) contract_invalid);
  tracks ← track_preferences s;
  policy ← lift (map_err (fun _ => contract_invalid) (StoredEgressPolicy.to_effective (sd_egress stored)));
  outcome ← reported_egress s policy (ss_private_network selected);
  let server_delivery := negb (bool_decide (delivery_mode s = ClientDirect)) in
  url ← lift (delivery_url s stored);
  session_token ← lift (if server_delivery then Some <$> ok_or token internal_error else Ok None);
  mret {| sr_session_id := id s; sr_revision := revision s;
          sr_token_revision := if server_delivery then Some (token_revision s) else None;
          sr_delivery_mode := delivery_mode s; sr_decision_reason := sd_decision_reason stored; sr_egress_mode := outcome;
          sr_fallback_reason := match outcome with OutDirectFallback => Some "protected_egress_unavailable" | _ => None end;
          sr_playback_url := url; sr_session_token := session_token; sr_expires_at := session_expires_at s;
          sr_hard_expires_at := hard_expires_at s; sr_heartbeat_interval_seconds := heartbeat_interval (he_lease_seconds env);
          sr_seekable := ss_time_shift_available selected; sr_window_seconds := ss_time_shift_window_seconds selected;
          sr_selected_source := selected_source; sr_available_sources := available; sr_track_preferences := tracks |}.
Definition timeline_event (e : RecoveryEvent) : Timeline := {|
  tl_at := at_ e; tl_revision := event_revision e; tl_state := RecoveryAction.state (Recovery.action e);
  tl_reason := Some (RecoveryReason_as_str (Recovery.reason e) +:+ ":" +:+ RecoveryOutcome_as_str (Recovery.outcome e)) |}.
Definition detail_from_stored (s : SessionRecord) (stored : StoredSessionDescriptor) (now : instant) : play SessionDetail :=
  available ← source_choices s stored now;
  selected_source ← lift (ok_or (available !! sd_selected_source_index stored) contract_invalid);
  _ ← with_repository;
  tracks ← track_preferences s;
  request_id ← sense (he_uuid env);
  mret {| sd_session_id := id s; sd_revision := revision s; sd_state := state s; sd_delivery_mode := delivery_mode s;
          sd_protocol := session_protocol s; sd_selected_source := selected_source; sd_available_sources := available;
          sd_track_preferences := tracks; sd_expires_at := session_expires_at s; sd_hard_expires_at := hard_expires_at s;
          sd_error_code := error_code s;
          sd_timeline := (timeline_event <$> events (sd_recovery stored))
            ++ [{| tl_at := now; tl_revision := revision s; tl_state := SessionState.as_str (state s); tl_reason := None |}];
          sd_request_id := request_id; sd_generated_at := now |}.
Definition session_detail (s : SessionRecord) (now : instant) : play SessionDetail :=
  stored ← decrypt_descriptor s;
  _ ← require_current_provider s stored;
  detail_from_stored s stored now.

(** *** Recovery *)
Notation admit_delivery_runtime := (admit_delivery_runtime ring meanwhile services).
Notation end_delivery_runtime := (end_delivery_runtime services).
Notation ensure_delivery_ready := (ensure_delivery_ready ring draws meanwhile services).
Notation replace_delivery_runtime := (replace_delivery_runtime ring draws meanwhile services).
Definition with_recovery (r : StoredRecoveryState) (d : StoredSessionDescriptor) : StoredSessionDescriptor := {|
  sd_provider_revision := sd_provider_revision d; sd_decision_reason := sd_decision_reason d; sd_playback_url := sd_playback_url d;
  sd_selected_source_index := sd_selected_source_index d; sd_sources := sd_sources d; sd_egress := sd_egress d; sd_recovery := r |}.
Definition with_egress (e : StoredEgressPolicy.t) (d : StoredSessionDescriptor) : StoredSessionDescriptor := {|
  sd_provider_revision := sd_provider_revision d; sd_decision_reason := sd_decision_reason d; sd_playback_url := sd_playback_url d;
  sd_selected_source_index := sd_selected_source_index d; sd_sources := sd_sources d; sd_egress := e; sd_recovery := sd_recovery d |}.

Definition open_requested_source (s : SessionRecord) (stored : StoredSessionDescriptor) (r : SessionRecoveryRequest)
    (act : RecoveryAction) (now : instant) : play (option string) :=
  match act, vq_requested_source_key r with
  | Failover, Some key =>
      crypto ← required (he_crypto env) control_unavailable;
      source_id ← lift (map_err (fun _ => invalid_source_key)
        (open_source crypto key (id s) (provider_id (owner s)) (sd_provider_revision stored) (vq_expected_revision r) now));
      _ ← lift (reject_if (is_some_and (fun source => String.eqb (ss_stream_id source) source_id) (Descriptor.selected stored)
                           || negb (existsb (fun source => String.eqb (ss_stream_id source) source_id) (sd_sources stored)))
                  invalid_source_key);
      mret (Some source_id)
  | _, _ => mret None
  end.
Definition decrypt_item_id (s : SessionRecord) : play string :=
  secrets ← query (decrypt_secrets ring (owner s) (id s));
  snapshot ← lift (ok_or (snapshot_of_json (mat_item_snapshot secrets)) internal_error);
  _ ← lift (reject_if (negb (bool_decide (snapshot.1 = provider_id (owner s))) || str_empty snapshot.2
                       || (512 <? slen snapshot.2)%Z || any_control snapshot.2) internal_error);
  mret snapshot.2.
Definition loaded_policy (home provider : uuid) : play LoadedPolicy :=
  rows ← required (fun n => he_rules env n home provider) internal_error; lift (load_policy rows).
Definition planner_policy_now (provider : ProviderView) (loaded : LoadedPolicy) : play PlannerPolicy :=
  sense (fun n => planner_policy (he_ready env n) (he_relay_capacity env n) (he_remux_capacity env n) (pw_private_network provider) loaded).
Definition record_recovery_failure (s : SessionRecord) (stored : StoredSessionDescriptor) (act : RecoveryAction) (why : RecoveryReason)
    (now : instant) : play unit :=
  selected ← lift (ok_or (Descriptor.selected stored) contract_invalid);
  final_revision ← lift (ok_or (RecoveryAction.failure_revision act (revision s)) internal_error);
  let '(recorded, recovery) := Recovery.record act why OutcomeFailed (ss_stream_id selected) final_revision now (he_recovery env) (sd_recovery stored) in
  _ ← lift (map_err (fun _ => recovery_exhausted) recorded);
  descriptor ← lift (ok_or (descriptor_to_json (with_recovery recovery stored)) internal_error);
  mutation ← call (fun n => SessionRepo.record_recovery_failure ring (draws n)
    {| rf_owner := owner s; rf_session_id := id s; rf_expected_revision := revision s;
       rf_control_fencing_token := control_fencing_token s; rf_descriptor := descriptor; rf_action := act; rf_now := now |});
  lift (reject_if (negb (revision (mut_session mutation) =? final_revision)%Z) internal_error).
Definition exhausted : TerminalReason :=
  {| reason_state := Failed; reason_error_code := Some "LIVE_FAILOVER_EXHAUSTED"; reason_error_detail := None |}.
Definition exhaust_recovery {A} (s : SessionRecord) (expected_revision : Z) (now : instant) : play A :=
  _ ← call (fun n => terminate ring (draws n) (owner s) (id s) expected_revision (control_fencing_token s) exhausted now);
  _ ← end_delivery_runtime (id s) (control_fencing_token s);
  stop recovery_exhausted.
Definition recovery_context (s : SessionRecord) (provider : ProviderView) (item_id : string) (r : SessionRecoveryRequest)
    (now : instant) (client : ClientCapabilities) (policy : PlannerPolicy) (loaded : LoadedPolicy) : RecoveryContext := {|
  rx_delivery_mode := delivery_mode s; rx_created_at := created_at s; rx_provider_id := pw_provider_id provider;
  rx_permits_refresh := pw_permits_refresh provider; rx_item_id := item_id; rx_reason := vq_reason r; rx_now := now;
  rx_client := client; rx_planner_policy := with_held_capacity (delivery_mode s) policy; rx_loaded := loaded;
  rx_relay := is_some_b (ds_relay services); rx_remux := is_some_b (ds_remux services);
  rx_recovery_policy := he_recovery env; rx_refresh_lead_seconds := he_refresh_lead_seconds env |}.
Definition prepare_recovery (x : RecoveryContext) (stored : StoredSessionDescriptor) (act : RecoveryAction) (requested : option string)
    : play (result LiveHttpRejection (option PreparedRecovery) * StoredRecoveryState) :=
  sense (fun n =>
    match act with
    | Refresh => prepare_same_source_refresh (he_upstream env n) (he_resolver env n) (he_refresh env n) x stored (sd_recovery stored)
    | Failover => prepare_source_failover (he_upstream env n) (he_resolver env n) (he_refresh env n) x stored requested (sd_recovery stored)
    end).
(** the descriptor that replaces the stored one: the plan's sources, the old policy and revision, the recorded success *)
Definition replacement_descriptor (stored : StoredSessionDescriptor) (recovery : StoredRecoveryState) (q : PreparedRecovery)
    (selected : SourceDescriptor) : result LiveHttpRejection StoredSessionDescriptor :=
  d ← map_err (fun _ => contract_invalid)
    (from_resolved (pr_resolved q) (sd_provider_revision stored) (pr_plan q)
       (if bool_decide (plan_mode (pr_plan q) = ClientDirect) then Some (url selected) else None));
  Ok (with_recovery recovery (with_egress (StoredEgressPolicy.from_effective (pr_egress q)) d)).
(** from a prepared recovery to the session of the new delivery *)
Definition commit_recovery (s : SessionRecord) (stored : StoredSessionDescriptor) (recovery : StoredRecoveryState) (act : RecoveryAction)
    (r : SessionRecoveryRequest) (q : PreparedRecovery) (selected : SourceDescriptor) (completed_at : instant) : play (SessionGrant * Z) :=
  final_revision ← lift (ok_or (RecoveryAction.success_revision act (vq_expected_revision r)) internal_error);
  let '(recorded, recovery) := Recovery.record act (vq_reason r) Succeeded (stream_id selected) final_revision completed_at (he_recovery env) recovery in
  _ ← lift (map_err (fun _ => recovery_exhausted) recorded);
  replacement ← lift (replacement_descriptor stored recovery q selected);
  descriptor ← lift (ok_or (descriptor_to_json replacement) internal_error);
  fence ← required (he_fence env) control_unavailable;
  _ ← lift (reject_if (2147483647 <? Z.of_nat (selected_source_index (pr_plan q)))%Z contract_invalid);
  grant ← call (fun n => replace_for_recovery ring (draws n)
    {| rr_owner := owner s; rr_session_id := id s; rr_expected_revision := vq_expected_revision r; rr_control_fencing_token := fence;
       rr_descriptor := descriptor; rr_delivery_mode := plan_mode (pr_plan q); rr_protocol := protocol_of_stream (protocol selected);
       rr_source_index := Z.of_nat (selected_source_index (pr_plan q)); rr_action := act; rr_now := completed_at |});
  _ ← lift (reject_if (negb (revision (grant_session grant) =? final_revision)%Z) internal_error);
  mret (grant, fence).
(** [refresh] and [failover] *)
Definition recovery_response (p : CurrentPrincipal) (session_id : uuid) (headers : HeaderMap) (payload : option SessionRecoveryRequest)
    (act : RecoveryAction) : play SessionResponse :=
  _ ← admitted_request p;
  _ ← lift (validate_mutation_transport (he_settings env) (he_auth env) p headers);
  r ← lift (ok_or payload Rejection.invalid_request);
  _ ← lift (validate_recovery_request r act);
  locked ← sense (fun n => he_lock env n (uuid_to_string (sp_user_id (cp_session p)) +:+ ":" +:+
                             uuid_to_string (sp_profile_id (cp_session p)) +:+ ":" +:+ uuid_to_string session_id));
  _ ← lift locked;
  now ← sense (he_clock env);
  _ ← with_repository;
  s ← owned_session p session_id;
  _ ← lift (reject_if (SessionState.is_terminal (state s)) session_expired);
  _ ← lift (reject_if (negb (revision s =? vq_expected_revision r)%Z) session_conflict);
  _ ← lift (reject_if (match state s with Ready | Playing | Reconnecting => false | _ => true end) session_conflict);
  _ ← require_play_grant p (provider_id (owner s));
  stored ← decrypt_descriptor s;
  _ ← require_current_provider s stored;
  _ ← lift (map_err (fun _ => recovery_unavailable) (Recovery.validate (sd_recovery stored)));
  match Recovery.admit_transition now (he_recovery env) (sd_recovery stored) with
  | (Err _, _) => exhaust_recovery s (vq_expected_revision r) now
  | (Ok _, recovery) =>
      let stored := with_recovery recovery stored in
      requested ← open_requested_source s stored r act now;
      provider ← current_provider (provider_id (owner s));
      item_id ← decrypt_item_id s;
      _ ← lift (access_context p headers now);
      loaded ← loaded_policy (home_id (owner s)) (provider_id (owner s));
      policy ← planner_policy_now provider loaded;
      client ← lift (ok_or (rec_client (sd_recovery stored)) recovery_unavailable);
      prepared ← prepare_recovery (recovery_context s provider item_id r now client policy loaded) stored act requested;
      let '(prepared, recovery) := prepared in
      match prepared with
      | Ok None => completed_at ← sense (he_clock env); exhaust_recovery s (vq_expected_revision r) completed_at
      | Err e =>
          completed_at ← sense (he_clock env);
          _ ← record_recovery_failure s (with_recovery recovery stored) act (vq_reason r) completed_at;
          stop e
      | Ok (Some q) =>
          selected ← lift (ok_or (source_at (pr_resolved q) (selected_source_index (pr_plan q))) contract_invalid);
          completed_at ← sense (he_clock env);
          if is_some_and (fun t => t <=? completed_at)%Z (expires_at selected)
          then _ ← record_recovery_failure s (with_recovery recovery stored) act (vq_reason r) completed_at; stop stream_expired
          else
            committed ← commit_recovery s stored recovery act r q selected completed_at;
            let '(grant, fence) := committed in
            actor ← lift (playback_actor p);
            _ ← replace_delivery_runtime (grant_session grant) actor fence completed_at;
            session_response (grant_session grant) (Some (grant_token grant)) completed_at
      end
  end.

(** *** Reading, heartbeat and end *)
Definition get (p : CurrentPrincipal) (session_id : uuid) : play SessionDetail :=
  _ ← admitted_request p;
  _ ← with_repository;
  s ← owned_session p session_id;
  _ ← lift (reject_if (SessionState.is_terminal (state s)) session_expired);
  _ ← require_play_grant p (provider_id (owner s));
  now ← sense (he_clock env);
  session_detail s now.
Definition mutated (m : play SessionMutation) : play SessionRecord := mutation ← m; mret (mut_session mutation).
Definition heartbeat_session (s : SessionRecord) (n fence : Z) (now : instant) (u : option LiveTrackPreferenceUpdate) : play SessionRecord :=
  mutated (call (fun _ => heartbeat_with_track_preferences (he_limits env) (owner s) (id s) n fence now u)).
Definition heartbeat (p : CurrentPrincipal) (session_id : uuid) (headers : HeaderMap) (payload : option HeartbeatRequest) : play SessionDetail :=
  _ ← admitted_request p;
  _ ← lift (validate_mutation_transport (he_settings env) (he_auth env) p headers);
  r ← lift (ok_or payload Rejection.invalid_request);
  checked_at ← sense (he_clock env);
  _ ← lift (validate_heartbeat checked_at r);
  let track_update := track_preference_update r in
  now ← sense (he_clock env);
  _ ← with_repository;
  s ← owned_session p session_id;
  _ ← require_play_grant p (provider_id (owner s));
  stored ← decrypt_descriptor s;
  _ ← require_current_provider s stored;
  selected ← lift (ok_or (Descriptor.selected stored) contract_invalid);
  _ ← match hq_source_key r with
      | Some key =>
          crypto ← required (he_crypto env) control_unavailable;
          opened ← lift (map_err (fun _ => invalid_source_key)
            (open_source crypto key (id s) (provider_id (owner s)) (sd_provider_revision stored) (hq_expected_revision r) now));
          lift (reject_if (negb (String.eqb opened (ss_stream_id selected))) invalid_source_key)
      | None => mret ()
      end;
  fence ← required (he_fence env) control_unavailable;
  updated ← match hq_player_state r, state s with
            | PsEnded, _ =>
                mutated (call (fun n => terminate ring (draws n) (owner s) (id s) (hq_expected_revision r) fence TerminalReason_ended now))
            | PsPlaying, Ready =>
                playing ← mutated (call (fun _ => transition (owner s) (id s) (hq_expected_revision r) fence Playing now));
                heartbeat_session playing (revision playing) fence now track_update
            | _, _ => heartbeat_session s (hq_expected_revision r) fence now track_update
            end;
  _ ← (if bool_decide (hq_player_state r = PsEnded) then end_delivery_runtime (id s) fence else mret ());
  detail_from_stored updated stored now.
(** [end] *)
Definition end_handler (p : CurrentPrincipal) (session_id : uuid) (headers : HeaderMap) (q : EndQuery) : play unit :=
  _ ← admitted_request p;
  _ ← lift (validate_mutation_transport (he_settings env) (he_auth env) p headers);
  _ ← lift (reject_if (eq_expected_revision q <? 1)%Z Rejection.invalid_request);
  _ ← with_repository;
  s ← owned_session p session_id;
  fence ← required (he_fence env) control_unavailable;
  now ← sense (he_clock env);
  _ ← end_playback ring draws meanwhile services s (eq_expected_revision q) fence TerminalReason_ended now;
  mret ().

(** *** Creation *)
(** the draws of an attempt to create, and what others do to the database after its transaction *)
Variable creation_draws : nat -> nat -> SessionRepo.Draws.
Variable creation_others : nat -> nat -> Db -> Db.
Definition create_session (input : NewSession) (r : IdempotencyRequest) : play SessionGrant :=
  rejecting map_repository_error (fun w =>
    let n := ew_tick w in
    let w := meanwhile n w in
    let '(outcome, db) := SessionRepo.create ring input (Some r)
      (fun k hashes db => create_once ring (he_limits env) (creation_draws n k) input hashes db (creation_others n k)) (es_db (ew_store w)) in
    (outcome, accessed n (with_db db (ew_store w)) w)).
(** the item and the stream that the keys of the request name *)
Definition requested_stream (p : CurrentPrincipal) (crypto : LiveCrypto) (r : SessionCreateRequest) (now : instant)
    : result LiveHttpRejection (string * string) :=
  let s := cp_session p in
  let scope := {| sco_home_id := sp_home_id s; sco_profile_id := sp_profile_id s; sco_authorization_revision := sp_capability_revision s |} in
  item_id ← map_err (fun _ => invalid_stream_key) (open_item crypto (sq_item_key r) (sq_provider_id r) scope now);
  stream ← map_err (fun _ => invalid_stream_key) (open_stream crypto (sq_stream_option_key r) (sq_provider_id r) scope now);
  _ ← reject_if (negb (String.eqb item_id stream.1)) invalid_stream_key;
  Ok (item_id, stream.2).
(** from a request that is no retry to the session: resolve, plan, check the delivery and the grant again, store *)
Definition plan_creation (p : CurrentPrincipal) (r : SessionCreateRequest) (provider : ProviderView) (item_id stream_id : string) (now : instant)
    : play (ResolvedSources * DeliveryPlan * EffectiveEgressPolicy * ClientCapabilities) :=
  let s := cp_session p in
  resolved ← sense (fun n => he_resolve env n (sq_provider_id r) item_id stream_id);
  resolved ← lift (map_err (fun e => Rejection.with_provider (map_provider_error e) (sq_provider_id r)) resolved);
  egress ← sense (fun n => select_session_egress_policy (he_egress_refreshed env n) (if ds_egress services then he_egress_config env else None)
                             (sp_home_id s) (sp_profile_id s) r (he_egress_tables env n));
  egress ← lift egress;
  loaded ← loaded_policy (sp_home_id s) (sq_provider_id r);
  client ← lift (planner_capabilities (sq_client r));
  policy ← planner_policy_now provider loaded;
  plan ← lift (map_err map_planner_error (plan_delivery
    {| sources := resolved; client := client; policy := with_egress_mode (eff_mode egress) policy;
       requirements := {| require_time_shift := false; require_server_delivery := false |}; now := now |}));
  selected ← lift (ok_or (source_at resolved (selected_source_index plan)) contract_invalid);
  supported ← sense (fun n => delivery_supported (he_upstream env n) (he_resolver env n) 0 (plan_mode plan) selected loaded
                                (is_some_b (ds_relay services)) (is_some_b (ds_remux services)));
  _ ← lift supported;
  mret (resolved, plan, egress, client).
Definition creation_descriptor (r : SessionCreateRequest) (provider_revision : string) (resolved : ResolvedSources) (plan : DeliveryPlan)
    (egress : EffectiveEgressPolicy) (client : ClientCapabilities) (selected : SourceDescriptor) : result LiveHttpRejection StoredSessionDescriptor :=
  d ← map_err (fun _ => contract_invalid) (from_resolved resolved provider_revision plan
        (if bool_decide (plan_mode plan = ClientDirect) then Some (url selected) else None));
  recovery ← map_err (fun _ => contract_invalid)
    (StoredRecoveryState_new client (requested_egress_mode (sq_egress_mode r)) (stream_id selected));
  Ok (with_recovery recovery (with_egress (StoredEgressPolicy.from_effective egress) d)).
Definition create_new (p : CurrentPrincipal) (r : SessionCreateRequest) (provider : ProviderView) (item_id stream : string) (fence : Z)
    (idempotency : IdempotencyRequest) (now : instant) : play SessionGrant :=
  planned ← plan_creation p r provider item_id stream now;
  let '(resolved, plan, egress, client) := planned in
  selected ← lift (ok_or (source_at resolved (selected_source_index plan)) contract_invalid);
  _ ← require_play_grant p (sq_provider_id r);
  stored ← lift (creation_descriptor r (pw_revision provider) resolved plan egress client selected);
  descriptor ← lift (ok_or (descriptor_to_json stored) internal_error);
  snapshot ← lift (ok_or (snapshot_to_json (sq_provider_id r) item_id) internal_error);
  _ ← lift (reject_if (2147483647 <? Z.of_nat (selected_source_index plan))%Z contract_invalid);
  create_session
    {| new_owner := owner_of p (sq_provider_id r); new_item_key := sq_item_key r; new_stream_option_key := sq_stream_option_key r;
       new_item_snapshot := snapshot; new_descriptor := descriptor; new_delivery_mode := plan_mode plan;
       new_protocol := protocol_of_stream (protocol selected); new_source_index := Z.of_nat (selected_source_index plan);
       new_control_fencing_token := fence; new_now := now |} idempotency.
Definition create (p : CurrentPrincipal) (headers : HeaderMap) (payload : option SessionCreateRequest) : play (Z * SessionResponse) :=
  _ ← admitted_request p;
  _ ← lift (validate_mutation_transport (he_settings env) (he_auth env) p headers);
  r ← lift (ok_or payload Rejection.invalid_request);
  _ ← lift (validate_create_request r);
  key ← lift (required_visible_header headers "idempotency-key" 16 128);
  now ← sense (he_clock env);
  _ ← lift (access_context p headers now);
  crypto ← required (he_crypto env) control_unavailable;
  hash ← lift (map_err (fun _ => internal_error) (hash_correlation crypto CorrIdempotencyKey key));
  locked ← sense (fun n => he_lock env n (uuid_to_string (sp_user_id (cp_session p)) +:+ ":" +:+
                             uuid_to_string (sp_profile_id (cp_session p)) +:+ ":" +:+ hash));
  _ ← lift locked;
  _ ← with_repository;
  fence ← required (he_fence env) control_unavailable;
  stream ← lift (requested_stream p crypto r now);
  _ ← require_play_grant p (sq_provider_id r);
  provider ← current_provider (sq_provider_id r);
  identity ← lift (ok_or (identity_to_json r p (pw_revision provider)) internal_error);
  let idempotency := {| idem_key := key; idem_request_identity := identity |} in
  replay ← call (fun _ => lookup_idempotency ring (owner_of p (sq_provider_id r)) idempotency now);
  grant ← match replay with
          | Some grant => mret (grant, true)
          | None => grant ← create_new p r provider stream.1 stream.2 fence idempotency now; mret (grant, replayed grant)
          end;
  let '(grant, again) := grant in
  actor ← lift (playback_actor p);
  s ← ensure_delivery_ready (grant_session grant) actor now;
  response ← session_response s (Some (grant_token grant)) now;
  mret (if (again : bool) then 200%Z else 201%Z, response).
End handlers.
