(* ===== verification/PlaybackSafety.v ===== *)
(** * What the handlers of playback guarantee

    The handlers act on the sessions of the account that sends the request; a created playback was authorized and
    admitted; a recovery keeps the policy of the session and counts its revision; the answer tells how the session
    is really delivered. *)
From S2P Require Import Prelude Bytes LiveContract EgressPolicy SessionTypes Planner Recovery Descriptor Crypto Vault.
From S2P Require Import SessionStore SessionRepo SessionFacts SessionEvolution CatalogCache CatalogGrants AdminAudit PublicKeys AuthSessions CookieJar.
From S2P Require Import UpstreamCredentials UpstreamFetcher EgressWorkers EgressAssignments EgressBindings HttpAccess.
From S2P Require Import PlaybackRequest PlaybackRecovery Process PlaybackRuntime PlaybackHandlers.

Section handlers.
Context {R : Type} `{Vault R} `{Texts} `{DescriptorText} {E : EgressService}.
Context {sound : EgressWorld -> Prop} {proved : ActiveBinding -> list RuntimeCall -> Prop} {spent : uuid -> Prop}.
Context {EL : EgressServiceLaws E sound proved spent}.
Context `{CryptoPrims} `{UuidText} `{PayloadText} `{TimeText} `{PortText} `{IdentityText} `{UrlOps} `{DateOps} `{HeaderOps}.
Variable ring : R.
Variable draws : nat -> SessionRepo.Draws.
Variable meanwhile : nat -> EgressWorld -> EgressWorld.
Variable services : DeliveryServices.
Variable env : HandlerEnv.
Variable creation_draws : nat -> nat -> SessionRepo.Draws.
Variable creation_others : nat -> nat -> Db -> Db.
Hypothesis meanwhile_sound : forall n w, sound w -> sound (meanwhile n w).
Hypothesis creation_others_valid : forall n k db, db_inv db -> db_inv (creation_others n k db).
Notation query := (query meanwhile).
Notation call := (call meanwhile).
Notation decrypt_descriptor := (decrypt_descriptor ring meanwhile).
Notation owned_session := (owned_session meanwhile).
Notation source_choices := (source_choices env).
Notation session_response := (session_response ring meanwhile services env).
Notation require_play_grant := (require_play_grant env).
Notation recovery_response := (recovery_response ring draws meanwhile services env).
Notation commit_recovery := (commit_recovery ring draws meanwhile env).
Notation create_session := (create_session ring meanwhile env creation_draws creation_others).
Notation create_new := (create_new ring meanwhile services env creation_draws creation_others).
Notation create := (create ring draws meanwhile services env creation_draws creation_others).
Notation get := (get ring meanwhile services env).
Notation heartbeat := (heartbeat ring draws meanwhile services env).
Notation end_handler := (end_handler ring draws meanwhile services env).
Notation ensure_delivery_ready := (ensure_delivery_ready ring draws meanwhile services).
Notation admit_delivery_runtime := (admit_delivery_runtime ring meanwhile services).
Notation end_delivery_runtime := (end_delivery_runtime services).
Notation settle := (settle meanwhile).
Notation prepare_recovery := (prepare_recovery env).
Notation released := (released services).
Notation admitted := (admitted (proved:=proved) ring meanwhile services).

(** ** Soundness *)
Lemma sense_ok {A} (f : nat -> A) w a w' : sense f w = (Ok a, w') -> exists n, a = f n.
Proof. intros [= <- _]. by exists (ew_tick w). Qed.
Lemma required_ok {A} (f : nat -> option A) e w a w' : required f e w = (Ok a, w') -> exists n, f n = Some a.
Proof.
  intros Hr. apply proc_bind_ok in Hr as (o & w1 & Ho & Hr). apply sense_ok in Ho as [n ->]. injection Hr as Hr _.
  exists n. by apply ok_or_ok in Hr.
Qed.
Lemma sense_sound {A} (f : nat -> A) : keeps sound (sense f).
Proof. intros w Hw. cbn. apply sound_accessed; [done|]. by apply sound_valid. Qed.
Lemma required_sound {A} (f : nat -> option A) e : keeps sound (required f e).
Proof. apply proc_keeps_bind; [apply sense_sound|intros ?]. apply proc_keeps_lift. Qed.
Lemma read_sound {A} (m : Db -> result SessionRepositoryError A) : keeps sound (query m).
Proof. by apply (query_sound (spent:=spent)). Qed.
Lemma descriptor_sound s : keeps sound (decrypt_descriptor s).
Proof. by apply (decrypt_sound (spent:=spent)). Qed.
Hint Resolve sense_sound required_sound read_sound descriptor_sound : keeps.
Ltac keep_step := apply proc_keeps_bind; [solve [auto with keeps]|intros ?].
Lemma choices_sound s stored now l : keeps sound (choices env s stored now l).
Proof.
  induction l as [|x l IH]; cbn; [apply proc_keeps_ret|]. apply proc_keeps_bind; [|intros ?; keep_step; auto with keeps].
  unfold seal_source_key. auto with keeps.
Qed.
Hint Resolve choices_sound : keeps.
Lemma response_sound s token now : keeps sound (session_response s token now).
Proof.
  repeat keep_step. apply proc_keeps_bind; [keep_step; auto with keeps|intros ?]. keep_step.
  apply proc_keeps_bind; [keep_step; auto with keeps|intros ?]. keep_step.
  apply proc_keeps_bind; [unfold reported_egress; case_match; repeat keep_step; auto with keeps|intros ?]. repeat keep_step. apply proc_keeps_ret.
Qed.

(** ** The answer *)
Lemma choices_length s stored now l w r w' : choices env s stored now l w = (Ok r, w') ->
  ch_label <$> r = ss_label <$> l.
Proof.
  revert r w. induction l as [|x l IH]; intros r w Hc; cbn in Hc; [by injection Hc as <- _|].
  apply proc_bind_ok in Hc as (k & w1 & _ & Hc). apply proc_bind_ok in Hc as (o & w2 & Ho & Hc). injection Hc as <- ->.
  rewrite !fmap_cons. cbn [ch_label]. f_equal. exact (IH _ _ Ho).
Qed.
Lemma response_ok s token now w resp w' : sound w -> session_response s token now w = (Ok resp, w') ->
  exists stored selected policy w1, decrypt_descriptor s w = (Ok stored, w1) /\ Descriptor.selected stored = Some selected /\
    StoredEgressPolicy.to_effective (sd_egress stored) = Ok policy /\
    ch_label <$> sr_available_sources resp = ss_label <$> sd_sources stored /\ length (sd_sources stored) <= 8 /\
    sr_available_sources resp !! sd_selected_source_index stored = Some (sr_selected_source resp) /\
    sr_session_id resp = id s /\ sr_revision resp = revision s /\ sr_delivery_mode resp = delivery_mode s /\
    delivery_url s stored = Ok (sr_playback_url resp) /\
    sr_session_token resp = (if decide (delivery_mode s = ClientDirect) then None else token) /\
    (delivery_mode s <> ClientDirect -> is_Some token) /\
    (protected_egress_applies policy (ss_private_network selected) = false -> sr_egress_mode resp = OutServerDefault) /\
    (protected_egress_applies policy (ss_private_network selected) = true -> egress_outcome s policy w' = Ok (sr_egress_mode resp)) /\
    sr_fallback_reason resp = (match sr_egress_mode resp with OutDirectFallback => Some "protected_egress_unavailable" | _ => None end) /\
    sound w'.
Proof.
  intros Hw Hr. pose proof (response_sound s token now w Hw) as Hw'. rewrite Hr in Hw'.
  apply proc_bind_ok in Hr as (stored & w1 & Hd & Hr). apply proc_bind_ok in Hr as (selected & k & [= Hs <-] & Hr).
  apply proc_bind_ok in Hr as (available & w2 & Ha & Hr). apply proc_bind_ok in Hr as (chosen & k & [= Hc <-] & Hr).
  apply proc_bind_ok in Hr as (tracks & w3 & _ & Hr). apply proc_bind_ok in Hr as (policy & k & [= Hp <-] & Hr).
  apply proc_bind_ok in Hr as (out & w4 & Ho & Hr). apply proc_bind_ok in Hr as (url & k & [= Hu <-] & Hr).
  apply proc_bind_ok in Hr as (tok & k & [= Ht <-] & Hr). injection Hr as <- <-.
  apply ok_or_ok in Hs, Hc. destruct (StoredEgressPolicy.to_effective _) as [p|] eqn:Hp'; [injection Hp as ->|done].
  apply proc_bind_ok in Ha as ([] & k & [= Hlen <-] & Ha). apply reject_if_ok, orb_false_iff in Hlen as [_ Hlen]. apply Nat.ltb_ge in Hlen.
  apply choices_length in Ha. exists stored, selected, policy, w1. cbn.
  do 10 (split; [done|]). split; [|split; [|split; [|split; [|split; [by destruct out|done]]]]].
  - destruct (decide (delivery_mode s = ClientDirect)) as [Hm|Hm].
    + rewrite bool_decide_eq_true_2 in Ht by done. by injection Ht.
    + rewrite bool_decide_eq_false_2 in Ht by done. cbn in Ht. destruct token; [by injection Ht|done].
  - intros Hm. rewrite bool_decide_eq_false_2 in Ht by done. cbn in Ht. by destruct token.
  - intros Hpr. unfold reported_egress in Ho. rewrite Hpr in Ho. by injection Ho as <- _.
  - intros Hpr. unfold reported_egress in Ho. rewrite Hpr in Ho. apply proc_bind_ok in Ho as ([] & k & [= _ <-] & Ho).
    apply proc_bind_ok in Ho as (o & k & [= <- <-] & Ho). injection Ho as Ho <-. by destruct (egress_outcome _ _ _); [injection Ho as ->|].
Qed.

(** ** Waiting: the others run and the handler reads, but writes nothing *)
Definition passes (w w' : EgressWorld) : Prop :=
  w' = accessed (ew_tick w) (ew_store w) w \/
  w' = accessed (ew_tick w) (ew_store (meanwhile (ew_tick w) w)) (meanwhile (ew_tick w) w).
Notation waited := (rtc passes).
Lemma waited_sense {A} (f : nat -> A) w0 : keeps (waited w0) (sense f).
Proof. intros w Hw. cbn. eapply rtc_r; [exact Hw|]. by left. Qed.
Lemma waited_required {A} (f : nat -> option A) e w0 : keeps (waited w0) (required f e).
Proof. apply proc_keeps_bind; [apply waited_sense|intros ?]. apply proc_keeps_lift. Qed.
Lemma with_same_db st : with_db (es_db st) st = st.
Proof. by destruct st. Qed.
Lemma waited_query {A} (m : Db -> result SessionRepositoryError A) w0 : keeps (waited w0) (query m).
Proof.
  intros w Hw. unfold PlaybackRuntime.query, PlaybackRuntime.call, rejecting, transact. cbn zeta.
  destruct (m _) as [a|e]; cbn; (eapply rtc_r; [exact Hw|]); right; [by rewrite with_same_db|done].
Qed.
Hint Resolve waited_sense waited_required waited_query : keeps.
Lemma waited_admitted p w0 : keeps (waited w0) (admitted_request env p).
Proof. unfold admitted_request. auto with keeps. Qed.
Lemma waited_repository w0 : keeps (waited w0) (with_repository services).
Proof. unfold with_repository. auto with keeps. Qed.
Hint Resolve waited_admitted waited_repository : keeps.
(** [P] holds wherever the process does more than wait *)
Definition guards {A} (P : EgressWorld -> Prop) (m : play A) : Prop :=
  forall w r w', m w = (r, w') -> P w \/ (is_ok r = false /\ waited w w').
Lemma guards_seq {A B} (P : EgressWorld -> Prop) (m : play A) (f : A -> play B) :
  (forall w w1, waited w w1 -> P w1 -> P w) -> (forall w0, keeps (waited w0) m) -> (forall a, guards P (f a)) -> guards P (m ≫= f).
Proof.
  intros HP Hm Hf w r w' Hr. pose proof (Hm w w ltac:(done)) as Hw. apply proc_bind_inv in Hr as [(a & w1 & Ha & Hr)|(e & He & ->)].
  - rewrite Ha in Hw. apply Hf in Hr as [HP1|[Hok Hw1]]; [left; by eapply HP|right]. split; [done|]. by etrans.
  - right. rewrite He in Hw. done.
Qed.

(** *** The owner of a session and the grant to play *)
Definition belongs (p : CurrentPrincipal) (o : SessionOwner) : Prop := o = owner_of p (provider_id o).
Definition play_granted (p : CurrentPrincipal) (provider : uuid) : Prop :=
  exists n d, visibility (sp_home_id (cp_session p)) (sp_profile_id (cp_session p)) (sp_role (cp_session p)) (sp_profile_type (cp_session p))
    provider Play (he_grants env n) = Ok d /\ vd_allowed d = true /\ vd_authorization_revision d = sp_capability_revision (cp_session p).
(** the row that a handler has found: a session of the account, under an owner that satisfies [Q] *)
Definition own_row (p : CurrentPrincipal) (i : uuid) (Q : SessionOwner -> Prop) (w : EgressWorld) : Prop :=
  exists w1 row, waited w w1 /\ db_sessions (es_db (ew_store (meanwhile (ew_tick w1) w1))) !! i = Some row /\
    belongs p (row_owner row) /\ Q (row_owner row).
Lemma own_row_later p i Q w w1 : waited w w1 -> own_row p i Q w1 -> own_row p i Q w.
Proof. intros Hw (w2 & row & Hw2 & ?). exists w2, row. split; [by etrans|done]. Qed.
Lemma owned_session_ok p i w s w' : owned_session p i w = (Ok s, w') ->
  exists row, db_sessions (es_db (ew_store (meanwhile (ew_tick w) w))) !! i = Some row /\ decodes row s /\ belongs p (row_owner row).
Proof.
  intros Ho. apply proc_bind_ok in Ho as (found & w1 & Hq & Ho). apply rejecting_ok in Hq. unfold transact in Hq. cbn zeta in Hq.
  unfold get_for_account in Hq. destruct (session_where _ _ _) as [row|] eqn:Hrow; cbn in Hq.
  2:{ injection Hq as <- _. by injection Ho. }
  destruct (decode_session row) as [s'|] eqn:Hd; [|done]. injection Hq as <- _. injection Ho as -> _.
  apply session_where_some in Hrow as [Hrow Hb]. apply decode_session_ok in Hd. exists row. split; [done|split; [done|]].
  unfold belongs, owner_of. destruct (row_owner row); cbn in *. bool_hyps. by subst.
Qed.
Lemma guards_owned {A} p i Q (f : SessionRecord -> play A) :
  (forall s, guards (fun _ => Q (owner s)) (f s)) -> guards (own_row p i Q) (owned_session p i ≫= f).
Proof.
  intros Hf w r w' Hr. assert (forall w0, keeps (waited w0) (owned_session p i)) as Hk by (intros w0; apply proc_keeps_bind; auto with keeps).
  specialize (Hk w w ltac:(done)). apply proc_bind_inv in Hr as [(s & w1 & Ho & Hr)|(e & He & ->)]; [|right; by rewrite He in Hk].
  rewrite Ho in Hk. apply Hf in Hr as [HQ|[Hok Hw]]; [left|right; split; [done|by etrans]].
  apply owned_session_ok in Ho as (row & Hrow & Hd & Hb). exists w, row. rewrite <- (dec_owner _ _ Hd) in *. done.
Qed.
Lemma grant_ok p provider w w' : require_play_grant p provider w = (Ok (), w') -> play_granted p provider.
Proof.
  intros Hg. apply proc_bind_ok in Hg as (d & w1 & [= Hd <-] & Hg). apply proc_bind_ok in Hg as (d' & k & [= Hd' <-] & Hg).
  apply proc_bind_ok in Hg as ([] & k & [= Hr <-] & Hg). injection Hg as Hg _.
  apply reject_if_ok, negb_false_iff in Hr, Hg. apply Z.eqb_eq in Hr. exists (ew_tick w), d'.
  split; [|done]. subst d. destruct (visibility _ _ _ _ _ _ _) as [d|]; [by injection Hd' as ->|done].
Qed.
Lemma waited_grant p provider w0 : keeps (waited w0) (require_play_grant p provider).
Proof. unfold PlaybackHandlers.require_play_grant. auto with keeps. Qed.
Lemma guards_grant {A} p provider (f : unit -> play A) :
  guards (fun _ => play_granted p provider) (require_play_grant p provider ≫= f).
Proof.
  intros w r w' Hr. pose proof (waited_grant p provider w w ltac:(done)) as Hk.
  apply proc_bind_inv in Hr as [([] & w1 & Hg & Hr)|(e & He & ->)]; [left; by eapply grant_ok|right; by rewrite He in Hk].
Qed.
Ltac guard_step := apply guards_seq; [first [done|intros ? ? ? ?; by eapply own_row_later]|intros ?; solve [auto with keeps]|intros ?].
Lemma guards_get p i : guards (own_row p i (fun o => play_granted p (provider_id o))) (get p i).
Proof.
  repeat guard_step. apply guards_owned. intros s. guard_step. apply guards_grant.
Qed.
Lemma guards_heartbeat p i headers payload : guards (own_row p i (fun o => play_granted p (provider_id o))) (heartbeat p i headers payload).
Proof. repeat guard_step. apply guards_owned. intros s. apply guards_grant. Qed.
Lemma guards_recovery p i headers payload act :
  guards (own_row p i (fun o => play_granted p (provider_id o))) (recovery_response p i headers payload act).
Proof. repeat guard_step. apply guards_owned. intros s. repeat guard_step. apply guards_grant. Qed.
Lemma guards_end p i headers q : guards (own_row p i (fun _ => True)) (end_handler p i headers q).
Proof. repeat guard_step. apply guards_owned. intros s w r w' _. by left. Qed.

(** ** Creation *)
Lemma create_once_valid limits d input hashes db later :
  db_inv db -> (forall db, db_inv db -> db_inv (later db)) -> (new_source_index input <= i32_max)%Z ->
  db_inv (create_once ring limits d input hashes db later).2.
Proof.
  intros Hi Hl Hsrc. unfold create_once. destruct (create_tx _ _ _ _ _ _) as [[out db']|e] eqn:Hc; [|done]. destruct out as [g|i token|].
  - eapply (repo_step_ok (R:=R)); [exact Hi|]. by eapply step_create.
  - apply Hl. eapply (repo_step_ok (R:=R)); [exact Hi|]. by eapply step_create.
  - destruct hashes as [[k rq]|]; [|done]. specialize (Hl db Hi). unfold atomically. match goal with |- context [match ?m with _ => _ end] => destruct m as [[g db2]|e] eqn:Ha end; [|done].
    cbn. apply tx_bind_ok in Ha as (o & db1 & Ha & Hg). tx_inv. apply load_replay_sessions in Ha. intros i r. rewrite Ha. apply Hl.
Qed.
Lemma create_loop_valid n k attempt db : (forall k db, db_inv db -> db_inv (attempt k db).2) -> db_inv db -> db_inv (create_loop n k attempt db).2.
Proof.
  intros Ha. revert k db. induction n as [|n IH]; intros k db Hi; cbn; [by apply Ha|]. pose proof (Ha k db Hi) as Hi'.
  destruct (attempt k db) as [[g|e] db']; [done|]. destruct e; try done. case_match; [by apply IH|done].
Qed.
Lemma create_session_sound input r : (new_source_index input <= i32_max)%Z -> keeps sound (create_session input r).
Proof.
  intros Hsrc w Hw. apply (meanwhile_sound (ew_tick w)) in Hw. unfold PlaybackHandlers.create_session, rejecting. cbn zeta.
  destruct (SessionRepo.create _ _ _ _ _) as [g db] eqn:Hc. cbn. apply sound_accessed; [done|]. cbn. pose proof (sound_valid _ Hw) as Hv.
  unfold SessionRepo.create in Hc. destruct (validate_create _ _); [|by injection Hc as _ <-].
  destruct (Some <$> _) as [hashes|]; [|by injection Hc as _ <-].
  match type of Hc with create_loop ?n ?k ?a ?d = _ => pose proof (create_loop_valid n k a d) as Hv' end.
  rewrite Hc in Hv'. apply Hv'; [|done]. intros k d Hd. apply create_once_valid; [done| |done]. intros d' Hd'. by apply creation_others_valid.
Qed.

(** ** What the steps of creation and recovery keep *)
Lemma kept_by {A} (P : EgressWorld -> Prop) (m : play A) w a w' : keeps P m -> P w -> m w = (Ok a, w') -> P w'.
Proof. intros Hm Hw Ha. specialize (Hm w Hw). by rewrite Ha in Hm. Qed.
Lemma call_keeps {A} (m : nat -> tx A) : valid_tx m -> keeps sound (call m).
Proof. by apply (call_sound (spent:=spent)). Qed.
Lemma lookup_valid o r now : valid_tx (fun _ => lookup_idempotency ring o r now).
Proof. intros n db a db' Hi Hl. eapply (repo_step_ok (R:=R)); [exact Hi|]. by eapply step_lookup. Qed.
Lemma replace_valid i : valid_tx (fun n => replace_for_recovery ring (draws n) (i n)).
Proof. intros n db a db' Hi Hl. eapply (repo_step_ok (R:=R)); [exact Hi|]. by eapply step_replace. Qed.
Lemma admitted_sound p : keeps sound (admitted_request env p).
Proof. unfold admitted_request. auto with keeps. Qed.
Lemma repository_sound : keeps sound (with_repository services).
Proof. unfold with_repository. auto with keeps. Qed.
Lemma own_sound p i : keeps sound (owned_session p i).
Proof. apply proc_keeps_bind; auto with keeps. Qed.
Lemma grant_sound p provider : keeps sound (require_play_grant p provider).
Proof. unfold PlaybackHandlers.require_play_grant. auto with keeps. Qed.
Lemma provider_sound provider : keeps sound (current_provider env provider).
Proof. unfold current_provider. auto with keeps. Qed.
Hint Resolve call_keeps lookup_valid replace_valid admitted_sound repository_sound own_sound grant_sound provider_sound : keeps.
Lemma current_sound s stored : keeps sound (require_current_provider env s stored).
Proof. unfold require_current_provider. auto with keeps. Qed.
Lemma rules_sound home provider : keeps sound (loaded_policy env home provider).
Proof. unfold loaded_policy. auto with keeps. Qed.
Lemma policy_sound provider loaded : keeps sound (planner_policy_now env provider loaded).
Proof. unfold planner_policy_now. auto with keeps. Qed.
Lemma source_sound s stored r act now : keeps sound (open_requested_source env s stored r act now).
Proof. unfold open_requested_source. repeat case_match; auto with keeps. Qed.
Lemma item_sound s : keeps sound (decrypt_item_id ring meanwhile s).
Proof. unfold decrypt_item_id. auto with keeps. Qed.
Hint Resolve current_sound rules_sound policy_sound source_sound item_sound : keeps.
Lemma plan_sound p r provider item stream now : keeps sound (plan_creation services env p r provider item stream now).
Proof. unfold plan_creation. auto 40 with keeps. Qed.
Hint Resolve plan_sound create_session_sound : keeps.
Lemma create_new_sound p r provider item stream fence idem now : keeps sound (create_new p r provider item stream fence idem now).
Proof.
  unfold PlaybackHandlers.create_new. apply proc_keeps_bind; [auto with keeps|intros [[[resolved plan] egress] client]]. do 5 keep_step.
  intros w Hw. match goal with |- sound ((lift ?x ≫= _) w).2 => destruct x as [[]|e] eqn:Hl end; [|done].
  apply reject_if_ok, Z.ltb_ge in Hl. apply create_session_sound; [|done]. cbn. unfold i32_max. lia.
Qed.
Hint Resolve create_new_sound : keeps.
Lemma commit_sound s stored recovery act r q selected t : keeps sound (commit_recovery s stored recovery act r q selected t).
Proof.
  unfold PlaybackHandlers.commit_recovery. keep_step. destruct (Recovery.record _ _ _ _ _ _ _ _). do 5 keep_step.
  apply proc_keeps_bind; [|intros ?; auto with keeps]. apply call_keeps. intros n db b db' Hi Hr. eapply (repo_step_ok (R:=R)); [exact Hi|]. by eapply step_replace.
Qed.
Hint Resolve commit_sound : keeps.
(** *** The owner of a created session *)
Lemma replay_owner o k rq t db g db' : load_replay ring o k rq t db = Ok (Some g, db') -> owner (grant_session g) = o.
Proof. intros (_ & _ & row & r & payload & _ & _ & _ & _ & _ & _ & Ho & Hd & _)%load_replay_some. by rewrite (dec_owner _ _ Hd). Qed.
Lemma lookup_owner o r t db g db' : lookup_idempotency ring o r t db = Ok (Some g, db') -> owner (grant_session g) = o.
Proof. intros Hl. unfold lookup_idempotency in Hl. tx_inv. by eapply replay_owner. Qed.
Lemma create_once_owner limits d input hashes db later g db' :
  create_once ring limits d input hashes db later = (Ok g, db') -> owner (grant_session g) = new_owner input.
Proof.
  intros Hc. unfold create_once in Hc. destruct (create_tx _ _ _ _ _ _) as [[[g'|i token|] db1]|e] eqn:Ht; [| | |done].
  - injection Hc as -> _. apply tx_bind_ok in Ht as ([g'|] & db2 & Hl & Ht).
    + apply tx_ret_ok in Ht as [Ht _]. injection Ht as ->. destruct hashes as [[k rq]|]; [by eapply replay_owner|done].
    + repeat (apply tx_bind_ok in Ht as (? & ? & _ & Ht)). destruct hashes as [[k rq]|]; [|done].
      repeat (apply tx_bind_ok in Ht as (? & ? & _ & Ht)). by case_match.
  - cbn zeta in Hc. injection Hc as Hc _. destruct (get_owned _ _ _) as [[s|]|e] eqn:Ho; [|done..]. injection Hc as <-. cbn.
    unfold get_owned in Ho. destruct (session_where _ _ _) as [r|] eqn:Hr; [|done]. destruct (decode_session r) as [s'|] eqn:Hd; [|done].
    injection Ho as <-. apply session_where_some in Hr as [_ Hr]. apply decode_session_ok in Hd. rewrite (dec_owner _ _ Hd).
    unfold owned in Hr. by bool_hyps.
  - destruct hashes as [[k rq]|]; [|done]. unfold atomically in Hc. match type of Hc with match ?m with _ => _ end = _ => destruct m as [[g' db2]|e] eqn:Ha end; [|done].
    injection Hc as -> _. apply tx_bind_ok in Ha as (o & db3 & Ha & Hg). apply lift_ok in Hg as [Hg _]. apply ok_or_ok in Hg as ->. by eapply replay_owner.
Qed.
Lemma create_loop_result (P : SessionGrant -> Prop) n k attempt db g db' :
  (forall k db g db', attempt k db = (Ok g, db') -> P g) -> create_loop n k attempt db = (Ok g, db') -> P g.
Proof.
  intros Ha. revert k db. induction n as [|n IH]; intros k db Hc; cbn in Hc; [by eapply Ha|].
  destruct (attempt k db) as [[g'|e] db1] eqn:Hk; [injection Hc as -> _; by eapply Ha|].
  destruct e; try done. case_match; [by eapply IH|done].
Qed.
Lemma create_session_owner input r w g w' : create_session input r w = (Ok g, w') -> owner (grant_session g) = new_owner input.
Proof.
  intros Hc. unfold PlaybackHandlers.create_session in Hc. apply rejecting_ok in Hc. cbn zeta in Hc. destruct (SessionRepo.create _ _ _ _ _) as [o db] eqn:Hr. injection Hc as -> _.
  unfold SessionRepo.create in Hr. destruct (validate_create _ _); [|done]. destruct (Some <$> _); [|done].
  eapply (create_loop_result (fun g => owner (grant_session g) = new_owner input)); [|exact Hr]. intros ? ? ? ?. apply create_once_owner.
Qed.
(** ** The playback that a creation hands out *)
Lemma create_new_owner p r provider item stream fence idem now w g w' :
  create_new p r provider item stream fence idem now w = (Ok g, w') -> owner (grant_session g) = owner_of p (sq_provider_id r).
Proof.
  intros Hc. apply proc_bind_ok in Hc as ([[[resolved plan] egress] client] & w1 & _ & Hc).
  repeat (apply proc_bind_ok in Hc as (? & ? & _ & Hc)). by apply create_session_owner in Hc.
Qed.
Definition granted (p : CurrentPrincipal) (r : SessionCreateRequest) (provider : ProviderView) (item stream : string) (fence : Z)
    (idem : IdempotencyRequest) (now : instant) (replay : option SessionGrant) : play (SessionGrant * bool) :=
  match replay with
  | Some grant => mret (grant, true)
  | None => grant ← create_new p r provider item stream fence idem now; mret (grant, replayed grant)
  end.
Lemma granted_sound p r provider item stream fence idem now replay : keeps sound (granted p r provider item stream fence idem now replay).
Proof. unfold granted. destruct replay; auto with keeps. Qed.
Lemma granted_owner p r provider item stream fence idem now rq w replay w1 g again w' :
  call (fun _ => lookup_idempotency ring (owner_of p (sq_provider_id r)) rq now) w = (Ok replay, w1) ->
  granted p r provider item stream fence idem now replay w1 = (Ok (g, again), w') ->
  owner (grant_session g) = owner_of p (sq_provider_id r) /\ again = replayed g.
Proof.
  intros Hl Hg. destruct replay as [g'|]; cbn in Hg.
  - injection Hg as <- <- _. apply rejecting_ok in Hl. unfold transact in Hl. cbn zeta in Hl.
    destruct (lookup_idempotency _ _ _ _ _) as [[o db]|e] eqn:Ho; [|done]. injection Hl as -> _.
    split; [by eapply lookup_owner|]. unfold lookup_idempotency in Ho. tx_inv. by apply load_replay_some in Ho as (_ & Hr & _).
  - apply proc_bind_ok in Hg as (g' & w2 & Hc & Hg). injection Hg as <- <- _. split; [by eapply create_new_owner|done].
Qed.
Hint Resolve granted_sound : keeps.
(** one step of a process that keeps the world sound: its result, what it did and the rest *)
Tactic Notation "advance_sound" hyp(H) hyp(Hw) ident(a) ident(Hm) :=
  apply proc_bind_ok in H as (a & ? & Hm & H); eapply kept_by in Hw; [| |exact Hm]; [|solve [auto with keeps]].
Ltac skip_sound H Hw := let a := fresh in let Hm := fresh in advance_sound H Hw a Hm; clear Hm.
Lemma settle_sound moves s now : keeps sound (settle moves s now).
Proof.
  revert s. induction moves as [|moves IH]; intros s; cbn; [auto with keeps|].
  destruct (state s); auto with keeps; (apply proc_keeps_bind; [by apply (transition_sound (spent:=spent))|intros ?; apply IH]).
Qed.

(** ** The playback that a recovery hands out *)
Lemma replace_keeps d i db g db' : db_inv db -> replace_for_recovery ring d i db = Ok (g, db') ->
  id (grant_session g) = rr_session_id i /\ owner (grant_session g) = rr_owner i /\ state (grant_session g) = Ready.
Proof.
  intros Hv Hr. pose proof (repo_step_ok (R:=R) _ _ Hv (step_replace _ _ _ _ _ _ Hr)) as [Hv' Hpr].
  apply replace_for_recovery_replaces in Hr as [(r & s & r' & Hm & (_ & r1 & ctx & e & th & _ & _ & _ & _ & _ & Hset) & _ & Hd & Hdb) _].
  assert (db_sessions db' !! rr_session_id i = Some r') as Hr' by by rewrite Hdb, lookup_insert_eq.
  split; [rewrite (dec_id _ _ Hd); by apply (Hv' _ _ Hr')|split].
  - rewrite (dec_owner _ _ Hd), <- (mu_owner _ _ _ _ _ _ _ _ Hm). destruct (Hpr _ _ (mu_row _ _ _ _ _ _ _ _ Hm)) as [Hn|(r2 & Hr2 & Hp)]; [congruence|].
    rewrite Hr' in Hr2. injection Hr2 as <-. destruct Hp as [->|(_ & b & He)]; [done|]. apply (ev_owner _ _ _ He).
  - unfold set_recovered in Hset. ok_inv. pose proof (dec_state _ _ Hd) as Hs. cbn in Hs. by injection Hs.
Qed.
Lemma commit_ok s stored recovery act r q selected t w g fence w' : sound w ->
  commit_recovery s stored recovery act r q selected t w = (Ok (g, fence), w') ->
  id (grant_session g) = id s /\ owner (grant_session g) = owner s /\ state (grant_session g) = Ready /\
  RecoveryAction.success_revision act (vq_expected_revision r) = Some (revision (grant_session g)).
Proof.
  intros Hw Hc. apply proc_bind_ok in Hc as (final & w0 & [= Hf <-] & Hc). apply ok_or_ok in Hf.
  destruct (Recovery.record _ _ _ _ _ _ _ _) as [recorded recovery']. do 5 skip_sound Hc Hw.
  apply proc_bind_ok in Hc as (g' & w1 & Hcall & Hc). apply proc_bind_ok in Hc as ([] & w2 & [= Hrev <-] & Hc). injection Hc as <- _ _.
  apply reject_if_ok, negb_false_iff, Z.eqb_eq in Hrev. rewrite Hrev.
  apply rejecting_ok in Hcall. eapply transact_ok in Hcall as (db & db' & Hv & Hm); [|exact meanwhile_sound|exact Hw].
  apply replace_keeps in Hm as (Hid & Ho & Hst); [|done]. done.
Qed.
Lemma owned_session_id p i w s w' : sound w -> owned_session p i w = (Ok s, w') -> id s = i.
Proof.
  intros Hw Ho. apply owned_session_ok in Ho as (row & Hrow & Hd & _). rewrite (dec_id _ _ Hd).
  apply (meanwhile_sound (ew_tick w)), sound_valid in Hw. by apply (Hw i row).
Qed.
Lemma failure_sound s stored act why now : keeps sound (record_recovery_failure ring draws meanwhile env s stored act why now).
Proof.
  unfold PlaybackHandlers.record_recovery_failure. do 2 keep_step. destruct (Recovery.record _ _ _ _ _ _ _ _). do 2 keep_step.
  apply proc_keeps_bind; [|intros ?; auto with keeps]. apply call_keeps. intros n db b db' Hi Hr. eapply (repo_step_ok (R:=R)); [exact Hi|].
  by eapply step_recovery_failure.
Qed.
Lemma exhaust_fails {A} s n now w (a : A) w' : exhaust_recovery ring draws meanwhile services s n now w <> (Ok a, w').
Proof. intros He. by repeat (apply proc_bind_ok in He as (? & ? & _ & He)). Qed.

(** * Properties *)

(** C11: A handler acts on a session of its caller only.  Whatever the request, its headers and its body, reading,
    heartbeat, refresh, failover and end either fail having done nothing but wait, or they have found the session in
    the database under the user, home, profile and account session of the caller; and all but the end have found
    the provider of the session granted to that profile for playing, under the authorization revision of the
    caller. *)
Theorem handlers_act_on_own_sessions p i headers :
  guards (own_row p i (fun o => play_granted p (provider_id o))) (get p i) /\
  (forall payload, guards (own_row p i (fun o => play_granted p (provider_id o))) (heartbeat p i headers payload)) /\
  (forall payload act, guards (own_row p i (fun o => play_granted p (provider_id o))) (recovery_response p i headers payload act)) /\
  (forall q, guards (own_row p i (fun _ => True)) (end_handler p i headers q)).
Proof.
  split; [apply guards_get|split; [intros; apply guards_heartbeat|split; [intros; apply guards_recovery|intros; apply guards_end]]].
Qed.

(** C12: The answer tells the client how its session is delivered.  The session and its revision are those of the row; the
    offered sources are the stored ones, in their order, and the selected one is among them.  A direct delivery
    discloses the stored address and no session token; any other delivery shows an address of this server and the
    token of the session.  The answer reports protected egress only with a binding of the session whose worker was
    proved, a direct fallback only where the policy permits one and one was taken, the default of the server only
    where no protection applies. *)
Theorem response_tells_the_delivery s token now w resp w' :
  sound w -> session_response s token now w = (Ok resp, w') ->
  sr_session_id resp = id s /\ sr_revision resp = revision s /\ sr_delivery_mode resp = delivery_mode s /\
  exists stored policy source w1, decrypt_descriptor s w = (Ok stored, w1) /\ Descriptor.selected stored = Some source /\
    StoredEgressPolicy.to_effective (sd_egress stored) = Ok policy /\
    ch_label <$> sr_available_sources resp = ss_label <$> sd_sources stored /\
    sr_available_sources resp !! sd_selected_source_index stored = Some (sr_selected_source resp) /\
    (if decide (delivery_mode s = ClientDirect)
     then sd_playback_url stored = Some (sr_playback_url resp) /\ sr_session_token resp = None
     else (exists path, sr_playback_url resp = "/api/v1/live/sessions/" +:+ uuid_to_string (id s) +:+ "/delivery/" +:+ path) /\
       sr_session_token resp = token /\ is_Some token) /\
    match sr_egress_mode resp with
    | OutServerDefault => protected policy && negb (ss_private_network source) = false
    | OutProtected => exists b, ew_bindings w' !! id s = Some b /\ binding_matches b s policy = true /\ proved b (ew_calls w')
    | OutDirectFallback => falls_back policy = true /\ permitted_fallback s policy w' = true
    end /\
    (is_Some (sr_fallback_reason resp) <-> sr_egress_mode resp = OutDirectFallback).
Proof.
  intros Hw Hr. apply response_ok in Hr as (stored & source & policy & w1 & Hd & Hs & Hp & Hlabels & _ & Hsel & Hid & Hrev & Hmode & Hurl
    & Htok & Htoken & Hno & Hyes & Hwhy & Hw'); [|done].
  do 3 (split; [done|]). exists stored, policy, source, w1. do 5 (split; [done|]). split; [|split].
  - unfold delivery_url in Hurl. destruct (decide _) as [Hm|Hm].
    + rewrite Hm in Hurl. apply ok_or_ok in Hurl. done.
    + split; [|split; [done|by apply Htoken]]. destruct (delivery_mode s); [done| |].
      * destruct (session_protocol s); try done; injection Hurl as <-; eexists; by rewrite !str_app_assoc.
      * injection Hurl as <-. eexists. by rewrite !str_app_assoc.
  - destruct (protected_egress_applies policy (ss_private_network source)) eqn:Ha.
    + pose proof (outcome_honest s policy w' Hw') as Hh. apply andb_true_iff in Ha as [Hprot _]. specialize (Hh Hprot).
      rewrite (Hyes eq_refl) in Hh. by destruct (sr_egress_mode resp).
    + by rewrite Hno.
  - rewrite Hwhy. split; [by intros [? ?]; destruct (sr_egress_mode resp)|intros ->; by eexists].
Qed.

(** C9: A created playback was authorized and admitted.  If the creation answers, its request is valid, proves that it is
    no forgery and carries an idempotency key; under the keys and at the time of the server, its keys open to an item
    and a stream of that item; the provider is granted to the profile for playing; the session is that of an earlier
    request with this key or the one just created for that stream, and belongs to the account and the provider of
    the request; and this session, of which the answer tells, is the one that the run made ready: the run admitted
    its delivery, then brought it to the state that is answered.  The status tells a new session from the one of an
    earlier request. *)
Theorem created_playback_is_authorized p headers payload w status resp w' :
  sound w -> create p headers payload w = (Ok (status, resp), w') ->
  exists r key n m crypto stream, payload = Some r /\ validate_create_request r = Ok () /\
    validate_mutation_transport (he_settings env) (he_auth env) p headers = Ok () /\
    required_visible_header headers "idempotency-key" 16 128 = Ok key /\
    he_crypto env n = Some crypto /\ let now := he_clock env m in requested_stream p crypto r now = Ok stream /\
    play_granted p (sq_provider_id r) /\
    exists g actor,
    (exists provider fence identity replay wl wr wg, let idem := {| idem_key := key; idem_request_identity := identity |} in
       call (fun _ => lookup_idempotency ring (owner_of p (sq_provider_id r)) idem now) wl = (Ok replay, wr) /\
       granted p r provider stream.1 stream.2 fence idem now replay wr = (Ok (g, replayed g), wg)) /\
    owner (grant_session g) = owner_of p (sq_provider_id r) /\ id (grant_session g) = sr_session_id resp /\
    status = (if replayed g then 200 else 201)%Z /\ playback_actor p = Ok actor /\
    exists s1 s wg wa wb ws, ensure_delivery_ready (grant_session g) actor now wg = (Ok s, ws) /\
      id s1 = sr_session_id resp /\ admit_delivery_runtime s1 actor wa = (Ok (), wb) /\ sound wb /\ admitted s1 wa wb /\
      settle 6 s1 now wb = (Ok s, ws) /\
      sr_delivery_mode resp = delivery_mode s /\ session_response s (Some (grant_token g)) now ws = (Ok resp, w').
Proof.
  intros Hw Hr. skip_sound Hr Hw. apply proc_bind_ok in Hr as ([] & k & [= Htr <-] & Hr).
  apply proc_bind_ok in Hr as (r & k & [= Hpay <-] & Hr). apply ok_or_ok in Hpay.
  apply proc_bind_ok in Hr as ([] & k & [= Hval <-] & Hr). apply proc_bind_ok in Hr as (key & k & [= Hkey <-] & Hr).
  advance_sound Hr Hw now Hn. apply sense_ok in Hn as [m ->]. skip_sound Hr Hw. advance_sound Hr Hw crypto Hc.
  apply required_ok in Hc as [n Hc]. do 4 skip_sound Hr Hw. advance_sound Hr Hw fence Hf.
  apply proc_bind_ok in Hr as (stream & k & [= Hstream <-] & Hr). advance_sound Hr Hw u Hg. destruct u. apply grant_ok in Hg.
  advance_sound Hr Hw provider Hp. advance_sound Hr Hw identity Hi. advance_sound Hr Hw replay Hlook.
  match type of Hr with (_ ≫= ?f) ?v = _ =>
    change ((granted p r provider stream.1 stream.2 fence {| idem_key := key; idem_request_identity := identity |} (he_clock env m) replay ≫= f) v
      = (Ok (status, resp), w')) in Hr end.
  advance_sound Hr Hw ga Hgr. destruct ga as [g again]. pose proof Hgr as Ho. eapply granted_owner in Ho as [Ho ->]; [|exact Hlook].
  apply proc_bind_ok in Hr as (actor & k & [= Hactor <-] & Hr). apply proc_bind_ok in Hr as (s' & w1 & Hready & Hr). pose proof Hready as Hrun.
  eapply (activation_ok (spent:=spent)) in Hready as (Hid & _ & s1 & w2 & w3 & Hid1 & Had & Hw3 & Hadm & Hset); [|exact meanwhile_sound|exact Hw].
  pose proof (kept_by sound _ _ _ _ (settle_sound _ _ _) Hw3 Hset) as Hw1.
  apply proc_bind_ok in Hr as (resp' & w4 & Hresp & Hr). injection Hr as <- <- <-. pose proof Hresp as Htold. apply response_ok in Hresp; [|done].
  destruct Hresp as (_ & _ & _ & _ & _ & _ & _ & _ & _ & _ & Hid2 & _ & Hmode & _).
  exists r, key, n, m, crypto, stream. do 7 (split; [done|]). exists g, actor. split; [by eexists provider, fence, identity, replay, _, _, _|].
  split; [done|]. split; [congruence|]. split; [done|]. split; [done|]. eexists s1, s', _, w2, w3, w1. split; [exact Hrun|].
  split; [congruence|]. by do 5 (split; [done|]).
Qed.

(** C10: A recovery hands out the next delivery of the session.  If a refresh or a failover answers, its request is valid for
    that action and proves that it is no forgery; the session is the one that the path names, one of the account of
    the caller with a provider that is granted for playing; its revision is the one the client expected, counted
    once per move of the action; and it is ready again.  The run was admitted one more transition of the session at
    the time of the server, found a source, and committed it to the session; then it ended the old delivery, which left
    nothing of it, admitted the delivery of the session with the new source, and told the client of that.  So nothing
    is answered when the transitions of the session are exhausted or no source is left. *)
Theorem recovered_playback_is_readmitted p i headers payload act w resp w' :
  sound w -> recovery_response p i headers payload act w = (Ok resp, w') ->
  exists r actor, payload = Some r /\ validate_recovery_request r act = Ok () /\
    validate_mutation_transport (he_settings env) (he_auth env) p headers = Ok () /\ playback_actor p = Ok actor /\
    sr_session_id resp = i /\ RecoveryAction.success_revision act (vq_expected_revision r) = Some (sr_revision resp) /\
    exists before stored wd wd' m recovery, let now := he_clock env m in
    id before = i /\ revision before = vq_expected_revision r /\ belongs p (owner before) /\ play_granted p (provider_id (owner before)) /\
    decrypt_descriptor before wd = (Ok stored, wd') /\
    Recovery.admit_transition now (he_recovery env) (sd_recovery stored) = (Ok (), recovery) /\
    exists provider item client policy loaded requested recovery' q selected wp wp' g fence wc wc' completed_at,
    rec_client recovery = Some client /\
    prepare_recovery (recovery_context services env before provider item r now client policy loaded)
      (with_recovery recovery stored) act requested wp = (Ok (Ok (Some q), recovery'), wp') /\
    source_at (pr_resolved q) (selected_source_index (pr_plan q)) = Some selected /\
    is_some_and (fun t => t <=? completed_at)%Z (expires_at selected) = false /\
    commit_recovery before (with_recovery recovery stored) recovery' act r q selected completed_at wc = (Ok (g, fence), wc') /\
    let s := grant_session g in
    id s = i /\ owner s = owner before /\ revision s = sr_revision resp /\ state s = Ready /\ delivery_mode s = sr_delivery_mode resp /\
    exists we wa, end_delivery_runtime i fence wc' = (Ok (), we) /\ released i wc' we /\
      admit_delivery_runtime s actor we = (Ok (), wa) /\ sound wa /\ admitted s we wa /\
      session_response s (Some (grant_token g)) completed_at wa = (Ok resp, w').
Proof.
  intros Hw Hr. skip_sound Hr Hw. apply proc_bind_ok in Hr as ([] & k & [= Htr <-] & Hr).
  apply proc_bind_ok in Hr as (r & k & [= Hpay <-] & Hr). apply ok_or_ok in Hpay.
  apply proc_bind_ok in Hr as ([] & k & [= Hval <-] & Hr). do 2 skip_sound Hr Hw. advance_sound Hr Hw now Hnow.
  apply sense_ok in Hnow as [m ->]. skip_sound Hr Hw.
  apply proc_bind_ok in Hr as (s & w1 & Hown & Hr). pose proof (owned_session_id _ _ _ _ _ Hw Hown) as Hid.
  pose proof (kept_by _ _ _ _ _ (own_sound p i) Hw Hown) as Hw1. apply owned_session_ok in Hown as (row & _ & Hd & Hb).
  rewrite <- (dec_owner _ _ Hd) in Hb. clear Hw. skip_sound Hr Hw1. apply proc_bind_ok in Hr as ([] & k & [= Hexp <-] & Hr).
  apply reject_if_ok, negb_false_iff, Z.eqb_eq in Hexp. skip_sound Hr Hw1. advance_sound Hr Hw1 u Hg. destruct u. apply grant_ok in Hg.
  advance_sound Hr Hw1 stored Hopen. do 2 skip_sound Hr Hw1. destruct (Recovery.admit_transition _ _ _) as [[[]|e] recovery] eqn:Hadmit; [|by apply exhaust_fails in Hr].
  advance_sound Hr Hw1 requested Hreq. advance_sound Hr Hw1 provider Hprov. advance_sound Hr Hw1 item Hitem. skip_sound Hr Hw1.
  advance_sound Hr Hw1 loaded Hload. advance_sound Hr Hw1 policy Hpol. apply proc_bind_ok in Hr as (client & k & [= Hclient <-] & Hr).
  apply ok_or_ok in Hclient. apply proc_bind_ok in Hr as ([o recovery'] & w2 & Hprep & Hr).
  eapply kept_by in Hw1; [|apply sense_sound|exact Hprep].
  destruct o as [[q|]|e]; [|skip_sound Hr Hw1; by apply exhaust_fails in Hr|by repeat (apply proc_bind_ok in Hr as (? & ? & _ & Hr))].
  apply proc_bind_ok in Hr as (selected & k & [= Hsel <-] & Hr). apply ok_or_ok in Hsel. advance_sound Hr Hw1 completed_at Hdone.
  destruct (is_some_and _ _) eqn:Hfresh; [by apply proc_bind_ok in Hr as (? & ? & _ & Hr)|].
  apply proc_bind_ok in Hr as ([g fence] & w3 & Hcommit & Hr). pose proof (kept_by _ _ _ _ _ (commit_sound _ _ _ _ _ _ _ _) Hw1 Hcommit) as Hw3.
  pose proof Hcommit as Hcm. apply commit_ok in Hcm as (Hgid & Hgo & Hgst & Hrev); [|done].
  apply proc_bind_ok in Hr as (actor & k & [= Hactor <-] & Hr). apply proc_bind_ok in Hr as ([] & w4 & Hrep & Hr).
  eapply (replacement_ok (spent:=spent)) in Hrep as (w5 & Hend & Hrel & Had & Hw4 & Hadm); [|exact meanwhile_sound|exact Hw3].
  pose proof Hr as Htold. apply response_ok in Hr; [|done]. destruct Hr as (_ & _ & _ & _ & _ & _ & _ & _ & _ & _ & Hi & Hn & Hm & _).
  assert (id (grant_session g) = i) as Hgi by congruence. rewrite Hgi in Hend, Hrel.
  exists r, actor. do 4 (split; [done|]). split; [congruence|]. split; [by rewrite Hn|].
  eexists s, stored, _, _, m, recovery. do 4 (split; [done|]). split; [exact Hopen|]. split; [exact Hadmit|].
  eexists provider, item, client, policy, loaded, requested, recovery', q, selected, _, w2, g, fence, _, w3, completed_at.
  split; [exact Hclient|]. split; [exact Hprep|].
  split; [done|]. split; [done|]. split; [exact Hcommit|]. cbn zeta. do 5 (split; [congruence|]). exists w5, w4. by split_and!.
Qed.
End handlers.
