(* ===== verification/HandlersWitness.v ===== *)
(** * Concrete requests

    The account of [World] creates a playback, fails the playback 100 over and reads how it is delivered; the egress of
    both is protected by the worker of [EgressDemo]. *)
From S2P Require Import Prelude Bytes LiveContract ProviderCalls Addresses EgressPolicy SessionTypes Planner Recovery Descriptor Crypto Vault.
From S2P Require Import CanonicalJson SessionStore SessionRepo SessionFacts SessionEvolution SessionDemo LifecycleWitness CatalogCache CatalogGrants AdminAudit AdminWitness.
From S2P Require Import PublicKeys AuthSessions Authz UpstreamPolicy CookieJar UpstreamCredentials UpstreamFetcher UpstreamWitness HttpAccess.
From S2P Require Import EgressAssignments Process EgressWorkers EgressBindings EgressSafety EgressWitness.
From S2P Require Import PlaybackRequest PlaybackRecovery PlaybackRuntime PlaybackWitness PlaybackHandlers PlaybackSafety.
Import EgressDemo.

Module HandlersDemo.
Definition revision_text : string := Demo.block +:+ Demo.block.
Definition fields (p : PublicKeyPayload) : N * (uuid * uuid * uuid * Z) * (string * string) * instant :=
  match p with
  | ItemPayload provider s item e => (0%N, (provider, sco_home_id s, sco_profile_id s, sco_authorization_revision s), (item, ""), e)
  | StreamPayload provider s item stream e =>
      (1%N, (provider, sco_home_id s, sco_profile_id s, sco_authorization_revision s), (item, stream), e)
  | CursorPayload provider s a b e => (2%N, (provider, sco_home_id s, sco_profile_id s, sco_authorization_revision s), (a, b), e)
  | SourcePayload session provider revision source n e => (3%N, (session, provider, 0%N, n), (revision, source), e)
  | ArtworkPayload provider s item kind source e => (4%N, (provider, sco_home_id s, sco_profile_id s, sco_authorization_revision s), (item, source), e)
  end.
Definition payload (f : N * (uuid * uuid * uuid * Z) * (string * string) * instant) : option PublicKeyPayload :=
  let '(kind, (a, b, c, n), (x, y), e) := f in
  let scope := {| sco_home_id := b; sco_profile_id := c; sco_authorization_revision := n |} in
  match kind with
  | 0%N => Some (ItemPayload a scope x e)
  | 1%N => Some (StreamPayload a scope x y e)
  | _ => None
  end.
#[export] Instance payload_text : PayloadText := {|
  payload_to_json p := Some (match p with SourcePayload _ _ _ source _ _ => source | _ => World.bits (encode (fields p)) end);
  payload_of_json s := decode (World.unbits s) ≫= payload;
  i64_to_string z := pretty.pretty z;
  key_datetime_max := (8210266876799 * nanos_per_second)%Z |}.
#[export] Instance time_text : TimeText := {| parse_from_rfc3339 _ := None; to_rfc3339_millis _ := "" |}.
#[export] Instance port_text : PortText := {| u16_to_string z := pretty.pretty z |}.
#[export] Instance identity_text : IdentityText := {| identity_to_json _ _ _ := Some "body" |}.
#[export] Instance descriptor_text : DescriptorText := {|
  descriptor_to_json _ := Some "descriptor";
  descriptor_of_json _ := Some {| sd_provider_revision := revision_text; sd_decision_reason := "provider_server_only_requires_relay";
    sd_playback_url := None; sd_selected_source_index := 0;
    sd_sources := [RecoveryDemo.first; RecoveryDemo.source_at_rank "s2" 5; RecoveryDemo.source_at_rank "s3" 9];
    sd_egress := StoredEgressPolicy.from_effective EgressDemo.policy; sd_recovery := RecoveryDemo.playing |};
  snapshot_to_json _ _ := Some "snapshot"; snapshot_of_json _ := Some (5%N, "item") |}.
Definition scope : LivePublicKeyScope := {| sco_home_id := 2; sco_profile_id := 3; sco_authorization_revision := 1 |}.
Definition sealed (r : result LivePublicKeyError string) : string := match r with Ok k => k | Err _ => "" end.
Definition request : SessionCreateRequest := {|
  sq_provider_id := 5; sq_item_key := sealed (seal_item Demo.ring (Some Demo.nonce) 5 "item" scope (seconds 10));
  sq_stream_option_key := sealed (seal_stream Demo.ring (Some Demo.nonce) 5 "item" "s1" scope (seconds 10));
  sq_client := {| cr_platform := Linux; cr_player := "mpv"; cr_protocols := [Hls]; cr_video_codecs := []; cr_audio_codecs := [];
    cr_supports_request_headers := true; cr_supports_cookies := true; cr_supports_low_latency_hls := false;
    cr_supports_origin_time_shift := false |};
  sq_egress_policy_id := None; sq_egress_mode := ReqInherit |}.
Definition principal : CurrentPrincipal := {|
  cp_session := {| sp_user_id := 1; sp_account_session_id := 4; sp_home_id := 2; sp_profile_id := 3; sp_role := Owner;
    sp_profile_type := Account; sp_profile_display_name := "Ada"; sp_remember_device := false; sp_csrf_revision := 1;
    sp_capability_revision := 1; sp_session_expires_at := seconds 100000 |};
  cp_access_expires_at := seconds 1000; cp_transport := BearerTransport; cp_capabilities := 0%N |}.
Definition headers : HeaderMap := {["idempotency-key" := ["0123456789abcdef"]]}.
Definition env : HandlerEnv := {|
  he_settings := {| se_environment := Production; se_host := "home.example"; se_port := 443 |};
  he_auth := {| sv_access_key := ""; sv_refresh_token_key := ""; sv_csrf_key := "";
    sv_config := {| access_token_secret := ""; access_token_ttl_minutes := 15; remembered_device_ttl_days := 30;
      refresh_token_secret := None; csrf_secret := None; refresh_token_rotation := true; require_recent_auth_seconds := 300 |} |};
  he_admit _ _ := Ok (); he_lock _ _ := Ok (); he_clock _ := seconds 20; he_crypto _ := Some Demo.ring; he_nonce _ := Some Demo.nonce;
  he_fence _ := Some 7%Z; he_uuid _ := 77%N;
  he_provider _ i := Ok {| pw_provider_id := i; pw_revision := revision_text; pw_permits_refresh := false; pw_private_network := false |};
  he_grants _ := {| gt_revisions := {[3%N := {| rv_home_id := 2; rv_revision := 1 |}]}; gt_grants := ∅ |};
  he_rules _ _ _ := Some []; he_ready _ _ := true; he_relay_capacity _ := Some 3%Z; he_remux_capacity _ := Some 3%Z;
  he_egress_refreshed _ := true; he_egress_config := Some cfg;
  he_egress_tables _ := {| eg_assignments := ∅; eg_homes := {[2%N]}; eg_users := {[1%N]}; eg_profiles := {[3%N := 2%N]};
    eg_providers := {[5%N]}; eg_admin_state := ∅; eg_audit := no_records {[1%N]} |};
  he_resolve _ _ _ _ := Ok {| descriptor := web_source; alternatives := [] |};
  he_upstream _ := RecoveryDemo.upstream; he_resolver _ := RecoveryDemo.resolver; he_refresh _ := RecoveryDemo.refresh;
  he_recovery := rx_recovery_policy RecoveryDemo.context; he_refresh_lead_seconds := 30; he_lease_seconds := 60;
  he_limits := World.limits |}.
Definition services : DeliveryServices := {|
  ds_repository _ := true; ds_egress := true; ds_relay := Some RuntimeDemo.relay; ds_remux := Some (fun _ _ => Ok ());
  ds_remux_ended _ _ := true |}.
Definition failover_request : SessionRecoveryRequest :=
  {| vq_expected_revision := 3; vq_reason := Transport; vq_requested_source_key := None |}.
End HandlersDemo.
Import HandlersDemo.
#[local] Existing Instance World.texts.
Definition empty_world : EgressWorld := {|
  ew_tick := 0; ew_calls := []; ew_bindings := ∅; ew_fallbacks := ∅; ew_relay := ∅;
  ew_store := {| es_db := World.start; es_rows := ∅; es_audit := no_records {[1%N]} |} |}.
Notation create_run := (create (E:=service) Demo.ring RuntimeDemo.random RuntimeDemo.meanwhile services env (fun _ _ => World.draws 100) (fun _ _ db => db)
  principal headers (Some request) empty_world).
Notation failover_run := (recovery_response (E:=service) Demo.ring (fun _ => World.draws 1) RuntimeDemo.meanwhile services env principal 100 headers
  (Some failover_request) Failover world).

Definition no_source : SelectedSource := {| ch_source_key := ""; ch_label := ""; ch_quality := None |}.
Definition no_response : SessionResponse := {|
  sr_session_id := 0; sr_revision := 0; sr_token_revision := None; sr_delivery_mode := ServerRelay; sr_decision_reason := "";
  sr_egress_mode := OutServerDefault; sr_fallback_reason := None; sr_playback_url := ""; sr_session_token := None; sr_expires_at := 0;
  sr_hard_expires_at := 0; sr_heartbeat_interval_seconds := 0; sr_seekable := false; sr_window_seconds := None;
  sr_selected_source := no_source; sr_available_sources := []; sr_track_preferences := {| tp_audio := None; tp_subtitle := None |} |}.
Definition answered {A} (d : A) (r : result LiveHttpRejection A) : A := match r with Ok a => a | Err _ => d end.
Lemma answered_ok {A} (d : A) (m : result LiveHttpRejection A * EgressWorld) : is_ok m.1 = true -> m = (Ok (answered d m.1), m.2).
Proof. by destruct m as [[a|e] w]. Qed.

Lemma empty_world_sound : sound empty_world.
Proof.
  assert (db_inv World.start) as Hs by (intros i r Hr; vm_compute in Hr; discriminate Hr). split; [|exact Hs].
  apply (reachable_inv (H4:=healthy)) with (startup_timeout := 30%Z) (audit_key := key) (others := alone)
    (wall_clock := wall) (db_clock := wall) (fresh_id := fresh) (material := material) (secret_written := written)
    (file_written := staged) (secrets_removed := removed) (topology := specs); [lia|].
  exists empty_world. split; [by split|apply rtc_refl].
Qed.
(** ** A playback is created *)
Definition created_answer : Z * SessionResponse := answered (0%Z, no_response) create_run.1.
Lemma create_result : create_run = (Ok (created_answer.1, created_answer.2), create_run.2).
Proof. rewrite <- (surjective_pairing created_answer). apply answered_ok. vm_compute. reflexivity. Qed.
Lemma created_playback_is_authorized_witness :
  play_granted env principal 5 /\ created_answer.1 = 201%Z /\
  exists s w1 w2, SessionTypes.id s = 100%N /\ admitted (E:=service) (proved:=verified_in (H4:=healthy) cfg 9000) Demo.ring RuntimeDemo.meanwhile services s w1 w2.
Proof.
  destruct (created_playback_is_authorized (EL:=service_laws) Demo.ring RuntimeDemo.random RuntimeDemo.meanwhile services env
    (fun _ _ => World.draws 100) (fun _ _ db => db) (fun _ _ Hw => Hw) (fun _ _ _ Hd => Hd) principal headers (Some request) empty_world
    created_answer.1 created_answer.2 create_run.2 empty_world_sound create_result)
    as (r & key & n & m & crypto & stream & Hr & _ & _ & _ & _ & _ & Hg & g & actor & _ & _ & _ & _ & _ & s & s' & wg & w1 & w2 & ws & _ & Hid & _ & _ & Ha & _).
  injection Hr as <-. split; [exact Hg|split; [vm_compute; reflexivity|]]. exists s, w1, w2. split; [|exact Ha].
  rewrite Hid. vm_compute. reflexivity.
Defined.

(** ** The playback 100 fails over *)
Definition failover_answer : SessionResponse := answered no_response failover_run.1.
Lemma failover_answered : failover_run = (Ok failover_answer, failover_run.2).
Proof. apply answered_ok. vm_compute. reflexivity. Qed.
Lemma recovered_playback_is_readmitted_witness :
  sr_session_id failover_answer = 100%N /\ sr_revision failover_answer = 6%Z /\
  exists s w1 w2, admitted (E:=service) (proved:=verified_in (H4:=healthy) cfg 9000) Demo.ring RuntimeDemo.meanwhile services s w1 w2.
Proof.
  destruct (recovered_playback_is_readmitted (EL:=service_laws) Demo.ring (fun _ => World.draws 1) RuntimeDemo.meanwhile services env
    (fun _ _ Hw => Hw) principal 100 headers (Some failover_request) Failover world
    failover_answer failover_run.2 world_sound failover_answered)
    as (r & actor & Hr & _ & _ & _ & Hid & _ & before & stored & wd & wd' & m & recovery & _ & _ & _ & _ & _ & _ & provider & item & client & policy & loaded &
      requested & recovery' & q & selected & wp & wp' & g & fence & wc & wc' & done_at & _ & _ & _ & _ & _ & _ & _ & _ & _ & _ & w1 & w2 & _ & _ & _ & _ & Ha & _).
  injection Hr as <-. split; [exact Hid|]. split; [|exact (ex_intro _ (grant_session g) (ex_intro _ w1 (ex_intro _ w2 Ha)))].
  vm_compute. reflexivity.
Defined.

(** ** What the client is told *)
Notation admission_run := (admit_delivery_runtime (E:=service) Demo.ring RuntimeDemo.meanwhile services session AuditDemo.actor world).
Notation response_run := (session_response (E:=service) Demo.ring RuntimeDemo.meanwhile services env session (Some "token") (seconds 21) admission_run.2).
Lemma admission_world : sound admission_run.2.
Proof.
  apply (admission (EL:=service_laws) Demo.ring RuntimeDemo.meanwhile services (fun _ _ Hw => Hw) session AuditDemo.actor world _ world_sound).
  apply (answered_ok tt). vm_compute. reflexivity.
Qed.
Definition told : SessionResponse := answered no_response response_run.1.
Lemma told_result : response_run = (Ok told, response_run.2).
Proof. apply answered_ok. vm_compute. reflexivity. Qed.
Lemma response_tells_the_delivery_witness :
  sr_session_token told = Some "token" /\
  (exists path, sr_playback_url told = "/api/v1/live/sessions/100/delivery/" +:+ path) /\
  exists b, ew_bindings response_run.2 !! 100%N = Some b.
Proof.
  destruct (response_tells_the_delivery (EL:=service_laws) Demo.ring RuntimeDemo.meanwhile services env (fun _ _ Hw => Hw) session
    (Some "token") (seconds 21) admission_run.2 told response_run.2 admission_world told_result)
    as (_ & _ & _ & stored & policy & source & w1 & _ & _ & _ & _ & _ & Hd & He & _).
  rewrite decide_False in Hd by discriminate. destruct Hd as ([path Hp] & Ht & _).
  assert (sr_egress_mode told = OutProtected) as Hm by (vm_compute; reflexivity). rewrite Hm in He. destruct He as (b & Hb & _).
  split; [exact Ht|]. split; [exact (ex_intro _ path Hp)|exact (ex_intro _ b Hb)].
Defined.
